(* ===== verification/_CoqProject ===== *)
-Q . S2P
Prelude.v
PyStr.v
HfConfig.v
PipelineParallel.v
TensorParallel.v
Qwen3.v
Qwen3Exact.v
Qwen3Load.v
Cache.v
CacheLayout.v
Peer.v
Rdma.v
Migration.v
Registration.v
EngineOptions.v
Microbatch.v
Scheduler.v
LlmEngine.v
HiSparse.v
InputPreparer.v
Sampling.v
MtpRunner.v
MtpPredictor.v
DecodeGraph.v
EmbeddingPool.v
Streaming.v
KimiK3.v
StructuredStream.v
ToolParser.v
EngineIpc.v
Http.v
AnthropicApi.v
Eplb.v
Experts.v
WeightLoader.v
BlockTiers.v
MoeRouter.v
Qwen3Moe.v
Placement.v
RpcService.v
