(* ===== verification/Prelude.v ===== *)
(** * DLEngine: a verification development

    DLEngine is an inference engine for large language models.  Its Python code plans and
    places state: which pipeline stage owns which layer, how large the KV cache is and where
    each block lies in memory, which bytes a decode engine reads from a prefill engine over
    RDMA, how a scheduled batch is cut into microbatches and its results put together, which
    GPU holds which expert, how requests and results travel between the HTTP servers and the
    engine, and which text is streamed to a client.  The numerical work is done by layers that
    are split over the ranks of a tensor-parallel group; those of one model family are followed
    here over exact arithmetic, the GPU kernels below them are not.

    ** The parts and how they interact

    Placement and memory:
    - [EngineOptions]: the validation of an engine's options against its model
      ([Config.validate_config] in [config.py]), on which the parts below rely.
    - [HfConfig]: model configuration objects, nested and possibly cyclic
      ([runtime/models/trait.py]).  Read by the pipeline and cache code.
    - [PipelineParallel]: the split of the layers over pipeline stages, rank arithmetic,
      ownership of checkpoint weights, and the posting and draining of stage-to-stage
      transfers ([runtime/models/pp_utils.py], [runtime/context/distributed.py]).
    - [Cache]: the cache context ([runtime/context/cache/]): the three primary layouts
      (GQA, MLA, DSv4: [gqa.py], [mla.py], [hca.py]), the indexer, GDN, compressed and MTP
      pools ([indexer.py], [gdn.py], [csa.py]), the sizing of blocks against the GPU and host
      budgets and the HiSparse plan ([__init__.py]), and allocation ([_allocator.py]).
    - [HiSparse]: the hot tier in front of a host-resident cache ([hisparse.py]): sizing, the
      owners of its slots, resident tokens and output slots, with the slot arithmetic of its
      CUDA kernels and the selection of hot slots by [load_mla_slot_kernel]
      ([hisparse.cuh]).
    - [EmbeddingPool]: the slots through which a vision encoder publishes embeddings
      ([emb.py]).

    Moving caches between engines:
    - [CacheLayout]: byte offsets and lengths of blocks, slots and pages, on the local side
      and as reconstructed for a peer ([runtime/disagg/p2p/cache_layout.py]).
    - [Peer]: placements, connections and owned memory regions of the transport
      ([runtime/context/peer.py]).
    - [Rdma]: batches of read operations: coalescing, validation against the registered
      regions, submission and draining (first part of
      [runtime/disagg/p2p/cache_transfer.py]).
    - [Migration]: moving a sequence's cache (the rest of [cache_transfer.py]): registering
      memory regions, fetching and accepting the metadata of a prefill engine, assigning every
      block, page, state row and slot to a peer, and turning the assignments into checked
      batches of reads.
    - [BlockTiers]: the tiers below the device cache: blocks swapped to the host
      ([swap_out_blocks_to_host] and its inverse in [runtime/runner/model_runner.py]) and blocks
      kept in files ([runtime/disagg/storage/l3_hf3fs.py]), over byte-addressed memories; the
      transfer engine of the file system is an interface ([Usrbio]) that reports how many
      bytes it moved ([UsrbioCounts]).
    - [Registration]: what an engine publishes about itself ([engine/llm_component.py]), which
      the [Migration] of another engine reads, and the wiring of its DSv4 pools.

    Running batches:
    - [Microbatch]: the batch record and its division into prefill microbatches
      ([rust/src/proto/wire.rs]).
    - [Scheduler]: cache plans, token budget and the scheduler's configuration
      ([engine/scheduler.py], [plan.py], the start of [engine/llm_engine.py]).
    - [LlmEngine]: the execution of a scheduled step: swaps, the prefill pipeline over
      microbatches, and the aggregation of its results ([engine/llm_engine.py]); an executor
      is an interface ([ForwardRuns]).
    - [InputPreparer]: the input ids, positions, cache slots, page tables and row bounds of a
      batch, from the wire record to the batch context ([rust/src/proto/prepare.rs],
      [runtime/runner/input_preparer.py], [runtime/context/batch.py]), and the rows the
      language-model head keeps.
    - [Sampling]: the tokens of a batch ([_standard_sample] of
      [runtime/runner/model_runner.py]).
    - [MtpRunner] and [MtpPredictor]: speculative decoding
      ([runtime/runner/mtp_runner.py]): verifying drafts, keeping them per sequence, handing
      them from a prefill to a decode engine; and the forwards of the draft predictor with
      the cache slots they write.
    - [DecodeGraph]: the replay of a decode batch through captured graphs and the page plans
      kept with them ([runtime/runner/graph_runner.py], [runtime/context/graph.py]).
    - [Eplb]: replication and placement of experts and the dispatch tables
      ([runtime/layers/backends/experts/eplb.py]).

    Models:
    - [TensorParallel]: linear layers sharded by rows, columns or heads with their weight
      loaders ([layers/backends/linear/generic.py]), the embedding and the language-model head
      ([layers/embed_head.py]), and the exchanges between attention and feed-forward layouts
      ([layers/parallelism_transition.py]); the numbers are an interface ([Arith]).
    - [Qwen3]: the modules of a dense Qwen3 model on every stage and rank, its checkpoint
      loader and its forward ([models/qwen3/]), with a reference model on one device; root,
      exponential and rotary tables are an interface ([Numerics]).  [Qwen3Exact] relates the
      two forwards, [Qwen3Load] the loaded parameters.
    - [Experts]: the routed experts of a mixture-of-experts layer on expert-parallel and
      tensor-parallel ranks ([layers/backends/experts/generic.py]), with the padded dispatch of
      decode batches ([local_dispatch.py] there and its two Triton kernels in
      [kernel/triton/generic/local_dispatch.py]), whose programs run in any order; sums are an
      interface ([Semiring]), the activation is a parameter.
    - [Placement]: the Ray executor ([executor/ray_executor.py], [executor/ray_utils.py]): the
      host of an address, the GPUs reserved on a node, the nodes offered to an engine, the
      placement groups and ranks, the start of the collective initialisation and the end.
    - [RpcService]: what a worker serves over DLSLime ([executor/dlslime_protocol.py]) with the
      handles of prepared runs, and the steps both executors submit
      ([executor/dlslime_executor.py]).
    - [MoeRouter]: the gating kernels that choose the experts of a token
      ([kernel/triton/generic/fused_topk.py]), by row over their padded lanes, and the unfused
      chain they replace; order, exponential and division are an interface ([RouterNum]),
      [torch.topk] is a parameter.
    - [Qwen3Moe]: the Qwen3 mixture-of-experts model on all ranks of a pipeline stage
      ([models/qwen3_moe/qwen3_moe.py]): the sparse block built from [MoeRouter] and [Experts],
      the dense layer, the exchanges of [TensorParallel] between them, and the decoder layers
      with the attention of [Qwen3], for the meshes of [runtime/context/distributed.py].
    - [WeightLoader]: the reading of checkpoint files for the base and the draft model, the
      loading of experts ([runner/loader.py]), and the loader of the Qwen3
      mixture-of-experts model ([models/qwen3_moe/qwen3_moe_loader.py]).

    Serving requests:
    - [PyStr]: Python strings and their methods, used by everything below.
    - [Streaming]: the cutting of streamed text at stop strings, tool and reasoning markers
      ([_stream_text_raw] and its helpers in [server/openai_server.py]).
    - [KimiK3]: the incremental parser of Kimi K3's channels ([server/kimi_k3_parser.py]), and
      [StructuredStream]: the text stream built on it ([_stream_structured_text]).
    - [ToolParser]: the Hermes, Qwen3 and GLM parsers, the typing of arguments and the choice
      of a parser ([server/tool_parser.py]).
    - [EngineIpc]: the engine process, its frontend and the client in a server process, with
      the queue of each request ([server/engine_server.py], [server/zmq_engine_client.py],
      [server/wire.py]); the engine ([EngineOps]) and the packet format ([Wire]) are
      interfaces.
    - [Http]: the chat and completion handlers of [server/openai_server.py]: reading a body,
      building a prompt, submitting a request, and replying with a message or with events.
    - [AnthropicApi]: the messages endpoint ([server/anthropic_api.py]).

    ** How the code is represented

    Definitions keep the names of the Python functions (a leading underscore is dropped).
    Integers are Python's: unbounded [Z]; [//] and [%] round towards minus infinity and raise
    on zero; where a value enters Rust or a GPU tensor its width is written out ([to_i32],
    [HiSparse.wrap32]).  A function that may raise returns [result], with the exception's
    class; one that also mutates an object is an [act]: it returns the state it leaves behind
    even when it raises.  Dicts whose order does not matter are [gmap]s, insertion-ordered
    ones association lists.  The tensor of a cache is its shape,
    strides and element size ([Cache.Tensor]); the tensor of a layer is the list of its rows
    ([TensorParallel.tensor]) over exact arithmetic, and the ranks of a group, which run in
    lock step between collectives, are a list of states.  Strings are lists of code points below 256; searching is defined over
    any alphabet.  A generator is the list of what it yields when it is read to its end; objects shared between
    a generator and its consumer are followed to their final state.  Processes are sequences
    of steps: the worker of a server is a step relation, the engine loop a fold over rounds.
    Third-party code (the transport agent, the controller, tokenizers, [json], [base64],
    hashes, [random], floating-point sums and sorts) is a parameter; what is assumed of it is a
    hypothesis of the section or class that uses it and is met by a concrete instance in a
    witness.

    ** What the theorems show

    - Pipeline: a partition gives every layer exactly one owner and is even; cache layers,
      checkpoint weights and Gemma-4's shared layers follow the owner; ranks and mesh
      coordinates are inverse; posted work is always waited for.
    - Cache: the size computed for a block is the size allocated; the tensors of a constructed
      context take at most the GPU and host budgets and one block more would exceed them,
      except that the dummy page of DSv4 is allocated on top; the HiSparse plan fits and cannot be enlarged; the pools the
      scheduler counts, by its own copy of the formulas, are those every stage allocates for its
      layers.
    - HiSparse: the residency marks and the union table of a slot hold only what was loaded for
      the sequence that owns it, and a hot slot the kernel selects holds a token of that
      sequence, whatever sequences had the slot before; output slots of different rows never coincide; host and kernel arithmetic agree.
    - Layout: a block's computed byte range is the range the tensor's strides give, lies in
      the registered span and is disjoint from all others; the layout rebuilt for a peer from
      its published counts is the peer's own, and published metadata is accepted.
    - Transfers: coalescing preserves the multiset of byte copies; validation is exact;
      accepted peer metadata is a consistent layout; every layer of a block is read exactly
      once from the stage that holds it; a KV read copies exactly the assigned block; no
      unchecked operation is submitted; every submitted read is drained.
    - Tiers: a block swapped to the host and back, or stored in a file under its hash and loaded
      later into any block, holds the same bytes, and no other block changes; after a short
      transfer, which the code does not notice, only the bytes moved are right; the size computed
      for a block file is the size of the block's views in every layout; ranks never share
      files; a failed write leaves a file that counts as the block.
    - Batches: a prefill step returns, for every sequence, what the model computes on its whole
      prompt, however the batch was cut, and never has more microbatches in flight than the
      configured depth; the token budget admits a window of microbatches.
    - Executors: without a given placement group every rank gets a worker in a group of equal
      size that fits a GPU node, groups are aimed at distinct nodes with enough GPUs no living
      group has reserved, the master first, and all ranks
      rendezvous at one address; a prepared run is run exactly once, under its handle, however
      requests are interleaved; the DLSLime executor, whole or prepared and run, gives the
      results and states of the Ray executor.
    - Options: validated options give every rank whole heads, a non-empty stage and a batch
      that fits.
    - Inputs: every token of a prefill or decode batch goes to the slot its page table gives
      its position, slots of different tokens differ, and the logits kept are those of the
      last sampled tokens; sampled tokens and log probabilities return to the rows of their
      logits, except on the all-greedy path behind an unsampled row; microbatches place and
      sample tokens as the whole batch does; a graph replay sees exactly the prepared rows, page
      tables of the compressed pools and slot mappings included, followed by inert ones,
      whatever earlier replays left behind, with a page plan made for them.
    - Speculative decoding: at temperature 0 the tokens of every sequence are those of
      decoding one by one, whatever drafts are proposed; the sampler with log probabilities
      agrees with the one without; handed-over drafts are restored exactly or not at all;
      after each verification the predictor's cache is exact up to the sampled token; every
      rank enters the predictor's steps in the same order, except next to the length limit.
    - Models: scattering a batch over the ranks and gathering it back is the identity for every
      batch size; the chunked all-reduce is the all-reduce; a Qwen3 model sharded over tensor
      and pipeline ranks and loaded from its checkpoint in any order computes the logits of the
      model on one device; which weight loaders raise is known.
    - Mixture of experts: on expert-parallel and tensor-parallel ranks the routed experts
      compute what all experts compute on one device; a decode batch within the capacity of the
      dispatcher gives the result of the prefill path in any order of its kernels' programs,
      and which contributions are lost above the capacity is known; the base and the draft
      model read complementary parts of a checkpoint; loading gives every rank the shards of
      its experts, from files and weights in any order, and packed experts give the same.
    - Routing: the fused gating kernel gives the weights of softmax, top-k and renormalisation
      whatever top-k does on ties, and the largest experts, lowest first; the biased router
      gives experts that exist for every input, NaNs included.  A stage of the Qwen3
      mixture-of-experts model computes on every rank of every data-parallel group what one
      device computes for that group, on meshes that give the ranks of a tensor-parallel expert
      group the same tokens; examples show that this is needed ([mixed_meshes_mix_tokens]).
    - Embedding pool: in every reachable pool a slot is free or allocated, never both, and
      allocated ranges are disjoint.
    - Experts: rebalancing succeeds on every valid topology, every expert keeps a replica, the
      two maps are inverse, and dispatch reaches a replica, a local one when there is one.
    - Text: however the text is split into deltas, the stream is the text up to the first stop
      string or marker; reasoning and answer are separated at the closing tag; the Kimi K3
      parser always returns and does not depend on the chunking; a structured stream parses to
      the same output as the whole text; rendered tool calls are parsed back, arguments declared
      as strings as text and the others by their JSON.
    - Requests: what the engine emits for a sequence is what arrives in the queue of its
      request, in order and once; a queue is closed at most once and its waiter returns; a
      request is refused without a trace or submitted once and within the context length; a
      streamed reply assembles to the reply without streaming; a sequence handed over by a prefill server is
      resumed under its id with its first token; converted messages have the shape the chat
      template needs.
    - Some theorems exhibit behaviour the code does not mean to have: [registered_metadata_gaps],
      [migrated_request_defects], [streaming_reply_defects], [decode_replay_errors],
      [weight_loader_errors], [decode_overflow], [l3_failed_write], [l3_short_transfer], [localhost_not_resolved], [ipv6_address_cut] and cases of
      [post_init_within_budget], [prefill_sampling_alignment] and [predictor_ranks_lockstep]; each
      comes with the inputs that show it.

    ** Bounds

    Recursion is structural wherever the code's is; elsewhere it has fuel that is shown to be
    enough: [HfConfig.visit] the number of configs plus one ([visit_terminates]);
    [KimiK3.feed_loop] the length of the pending text plus one ([feed_total]);
    [Microbatch.pack_row] twice the length of a row plus one ([pack_row_spec]);
    [HiSparse.grow_capacity] the bound itself ([hash_capacity_exact]); [HiSparse.probe] runs the
    kernel's own number of probes;
    [AnthropicApi.strip_headers] and [header_pairs] the length of the text
    ([strip_headers_fuel]).  The searches of [ToolParser] and [Streaming.skip_openers] are
    bounded by the length of the text, which every step shortens.

    ** Not modelled

    GPU kernels ([runtime/kernel]) other than those above and the rounding of floating-point numbers; the layers and
    models other than those above ([runtime/layers], [runtime/models]), sparse attention and
    the expert backends over third-party kernels among them; the setup and timing of the runners, and the captured graphs
    of the verification and draft forwards; process groups, Ray and the DLSLime transport; the
    sockets, threads and timing of the servers, clients that leave before the end of a reply
    and the monitor that watches for them, the metrics and profiler routes and the command line;
    decode steps of speculative decoding at other temperatures than 0 or with log
    probabilities (their sampling is, without the step around it); the GPU and host budgets,
    which are read from device counters; the Rust scheduler and router; the loading and flattening of model
    configurations; monitoring, logging and trace tools.  Next in order: the Rust
    scheduler's life cycle of a sequence. *)

(** This file also holds the shared prelude: exceptions and results, Python's sequence and
    integer operations, the state monad, sorting and grouping, and their lemmas. *)

From stdpp Require Export prelude list gmap strings sorting pretty.
From Stdlib Require Export ZArith Lia Ascii.

Declare Scope py_scope.
Delimit Scope py_scope with py.

(** * Python exceptions and fallible results *)

(** The exception classes the modelled code raises.  Messages are not modelled. *)
Inductive exn :=
  | ValueError | RuntimeError | AssertionError | KeyError | IndexError
  | NameError | TypeError | AttributeError | NotImplementedError | ZeroDivisionError | OverflowError
  | PanicException | StopIteration | FileNotFoundError | OSError | StructError.

#[export] Instance exn_eq_dec : EqDecision exn.
Proof. solve_decision. Defined.

(** The outcome of a Python call: a value, or a raised exception. *)
Inductive result (A : Type) :=
  | Ok (a : A)
  | Err (e : exn).
Arguments Ok {A} a.
Arguments Err {A} e.

#[export] Instance result_ret : MRet result := fun A a => Ok a.
#[export] Instance result_bind : MBind result := fun A B f r =>
  match r with Ok a => f a | Err e => Err e end.
#[export] Instance result_fmap : FMap result := fun A B f r =>
  match r with Ok a => Ok (f a) | Err e => Err e end.

Definition is_ok {A} (r : result A) : bool := match r with Ok _ => true | Err _ => false end.

Definition of_option {A} (e : exn) (o : option A) : result A :=
  match o with Some a => Ok a | None => Err e end.

(** [\[f(x) for x in l\]] where [f] may raise: the first exception wins. *)
Fixpoint mapM_r {A B} (f : A -> result B) (l : list A) : result (list B) :=
  match l with
  | [] => Ok []
  | x :: l => match f x with
              | Err e => Err e
              | Ok y => match mapM_r f l with Err e => Err e | Ok ys => Ok (y :: ys) end
              end
  end.

(** A [for] loop whose body updates [s] and may raise. *)
Fixpoint foldM_r {A S} (f : S -> A -> result S) (s : S) (l : list A) : result S :=
  match l with
  | [] => Ok s
  | x :: l => match f s x with Err e => Err e | Ok s' => foldM_r f s' l end
  end.

(** * Integers and sequences as Python has them *)

Section py_seq.
Context {A : Type}.
Implicit Types (l : list A).

Definition zlen l : Z := Z.of_nat (length l).

(** [l\[i\]]: a negative index counts from the end; out of range raises. *)
Definition py_getitem l (i : Z) : result A :=
  let j := if decide (i < 0)%Z then (zlen l + i)%Z else i in
  if decide (j < 0)%Z then Err IndexError
  else of_option IndexError (l !! Z.to_nat j).

(** The clamped position a slice bound [i] denotes in a sequence of length [n]. *)
Definition slice_pos (n i : Z) : nat :=
  Z.to_nat (if decide (i < 0)%Z then Z.max 0 (n + i) else Z.min i n).

(** [l\[:i\]] and [l\[i:\]]. *)
Definition py_upto l (i : Z) : list A := take (slice_pos (zlen l) i) l.
Definition py_from l (i : Z) : list A := drop (slice_pos (zlen l) i) l.

(** [enumerate(l)] *)
Definition enumerate l : list (Z * A) := imap (fun i x => (Z.of_nat i, x)) l.
End py_seq.

(** [range(n)] *)
Definition py_range (n : Z) : list Z := seqZ 0 n.

(** [a // b] and [a % b] raise on a zero divisor; otherwise both round towards
    minus infinity, which is what [Z.div] and [Z.modulo] do. *)
Definition py_floordiv (a b : Z) : result Z :=
  if decide (b = 0)%Z then Err ZeroDivisionError else Ok (a / b)%Z.

Notation "a // b" := (py_floordiv a b) (at level 40, left associativity) : py_scope.
Notation "l .[ i ]" := (py_getitem l i) (at level 2, left associativity, format "l .[ i ]") : py_scope.

(** [min] of a list; Python raises [ValueError] on an empty one. *)
Definition py_min (l : list Z) : result Z :=
  match l with
  | [] => Err ValueError
  | x :: rest => Ok (foldl Z.min x rest)
  end.

(** [x or d] for an integer attribute that may be absent, [None] or 0. *)
Definition int_or (x : option Z) (d : Z) : Z :=
  match x with Some v => if decide (v = 0)%Z then d else v | None => d end.

(** The conversion of a Python integer to a signed 32-bit argument of a Rust function. *)
Definition to_i32 (v : Z) : result Z :=
  if decide (-2 ^ 31 <= v < 2 ^ 31)%Z then Ok v else Err OverflowError.

(** * Shared lemmas *)

Lemma to_i32_Ok v w : to_i32 v = Ok w -> w = v.
Proof. unfold to_i32. case_decide; congruence. Qed.

Lemma fmap_id_Forall {A} (f : A -> A) (l : list A) : Forall (fun x => f x = x) l -> f <$> l = l.
Proof. induction 1 as [|x l Hx _ IH]; csimpl; congruence. Qed.

Lemma elem_of_concat {A} (x : A) ls : x ∈ concat ls <-> exists l, x ∈ l /\ l ∈ ls.
Proof. rewrite list_elem_of_In, in_concat. setoid_rewrite list_elem_of_In. naive_solver. Qed.

Lemma of_option_Ok {A} e (o : option A) a : of_option e o = Ok a <-> o = Some a.
Proof. destruct o; simpl; naive_solver. Qed.

Lemma py_floordiv_Ok a b q : (a // b)%py = Ok q -> b <> 0%Z /\ q = (a / b)%Z.
Proof. unfold py_floordiv. case_decide; naive_solver. Qed.

Lemma py_getitem_nat {A} (l : list A) i : (l.[Z.of_nat i])%py = of_option IndexError (l !! i).
Proof.
  unfold py_getitem. rewrite !(decide_False (P := (Z.of_nat i < 0)%Z)) by lia. by rewrite Nat2Z.id.
Qed.

Lemma lookup_enumerate {A} (l : list A) i :
  enumerate l !! i = (fun x => (Z.of_nat i, x)) <$> l !! i.
Proof. unfold enumerate. by rewrite list_lookup_imap. Qed.

Lemma elem_of_enumerate {A} (l : list A) i x :
  (i, x) ∈ enumerate l <-> (0 <= i)%Z /\ l !! Z.to_nat i = Some x.
Proof.
  rewrite list_elem_of_lookup. setoid_rewrite lookup_enumerate. split.
  - intros (n & Hn). destruct (l !! n) eqn:E; simplify_eq/=. rewrite Nat2Z.id. auto with lia.
  - intros (Hi & Hx). exists (Z.to_nat i). rewrite Hx; simpl. by rewrite Z2Nat.id.
Qed.

Lemma mapM_r_Ok {A B} (f : A -> result B) l ys :
  mapM_r f l = Ok ys <-> Forall2 (fun x y => f x = Ok y) l ys.
Proof.
  split.
  - revert ys. induction l as [|x l IH]; intros ys; simpl; [intros [= <-]; constructor|].
    destruct (f x) eqn:E, (mapM_r f l); naive_solver.
  - induction 1 as [|x y l ys Hxy _ IH]; simpl; [done|]. by rewrite Hxy, IH.
Qed.

Lemma foldM_r_app {A S} (f : S -> A -> result S) s l k :
  foldM_r f s (l ++ k) = match foldM_r f s l with Err e => Err e | Ok s' => foldM_r f s' k end.
Proof. revert s. induction l as [|a l IH]; intros s; cbn; [done|]. destruct (f s a); [apply IH|done]. Qed.

(** The minimum of a sequence is in it and below all of it. *)
Lemma foldl_min_spec (g : Z) gs : foldl Z.min g gs ∈ g :: gs /\ Forall (Z.le (foldl Z.min g gs)) (g :: gs).
Proof.
  revert g. induction gs as [|x gs IH]; intros g; [split; [set_solver|apply Forall_singleton; cbn; lia]|].
  cbn [foldl]. destruct (IH (Z.min g x)) as [Hin Hf]. apply Forall_cons in Hf as [Hm Hf]. split.
  - apply elem_of_cons in Hin as [->|Hin]; [|set_solver]. destruct (Z.min_spec g x) as [[_ ->]|[_ ->]]; set_solver.
  - constructor; [lia|]. constructor; [lia|done].
Qed.

Lemma py_min_spec l m : py_min l = Ok m -> m ∈ l /\ Forall (Z.le m) l.
Proof. destruct l as [|x l]; [done|]. intros [= <-]. apply foldl_min_spec. Qed.

(** Splitting a filter over two disjoint cases. *)
Lemma filter_disjoint_app {A} (P Q R : A -> Prop)
    `{!∀ x, Decision (P x), !∀ x, Decision (Q x), !∀ x, Decision (R x)} (l : list A) :
  (forall x, R x <-> P x \/ Q x) -> (forall x, P x -> Q x -> False) ->
  filter P l ++ filter Q l ≡ₚ filter R l.
Proof.
  intros HR HPQ. induction l as [|x l IH]; [done|]. rewrite !filter_cons.
  destruct (decide (P x)) as [HP|HP], (decide (Q x)) as [HQ|HQ], (decide (R x)) as [Hr|Hr];
    try (exfalso; specialize (HR x); specialize (HPQ x); tauto).
  - simpl. by rewrite IH.
  - by rewrite <- Permutation_middle, IH.
  - done.
Qed.

Lemma filter_all {A} (P : A -> Prop) `{!∀ x, Decision (P x)} (l : list A) :
  Forall P l -> filter P l = l.
Proof. induction 1; [done|]. rewrite filter_cons_True by done. by f_equal. Qed.

Lemma filter_none {A} (P : A -> Prop) `{!∀ x, Decision (P x)} (l : list A) :
  Forall (fun x => ~ P x) l -> filter P l = [].
Proof. induction 1; [done|]. by rewrite filter_cons_False. Qed.

Lemma int_or_nonzero v d : v <> 0%Z -> int_or (Some v) d = v.
Proof. intros. unfold int_or. by rewrite decide_False. Qed.

(** Mixed-radix numbers determine their digits. *)
Lemma radix_inj b q1 q2 r1 r2 :
  (0 <= r1 < b)%Z -> (0 <= r2 < b)%Z -> (q1 * b + r1 = q2 * b + r2)%Z -> q1 = q2 /\ r1 = r2.
Proof. intros H1 H2 E. apply (Z.div_mod_unique b); lia. Qed.

(** * Stateful code that may raise *)

(** A Python statement over the state [S]: an exception leaves the mutations made so
    far in place. *)
Definition act (S A : Type) : Type := S -> result A * S.

Section act.
Context {S : Type}.

#[export] Instance act_ret : MRet (act S) := fun A a s => (Ok a, s).
#[export] Instance act_bind : MBind (act S) := fun A B f m s =>
  match m s with (Ok a, s') => f a s' | (Err e, s') => (Err e, s') end.

Definition raise {A} (e : exn) : act S A := fun s => (Err e, s).
Definition lift {A} (r : result A) : act S A := fun s => (r, s).
Definition get : act S S := fun s => (Ok s, s).
Definition modify (f : S -> S) : act S unit := fun s => (Ok tt, f s).
(** [if b: raise e] *)
Definition raise_if (b : bool) (e : exn) : act S unit := if b then raise e else mret tt.

End act.

(** * Stable sort and insertion-ordered grouping *)

Section sort.
Context {A : Type} (le : A -> A -> bool).

(** [list.sort(key=...)] is stable: an element is placed before the first later one
    that is not smaller. *)
Fixpoint sort_insert (x : A) (l : list A) : list A :=
  match l with
  | [] => [x]
  | y :: l' => if le x y then x :: l else y :: sort_insert x l'
  end.

Definition stable_sort (l : list A) : list A := foldr sort_insert [] l.

Lemma sort_insert_perm x l : sort_insert x l ≡ₚ x :: l.
Proof.
  induction l as [|y l IH]; simpl; [done|]. destruct (le x y); [done|].
  rewrite IH. apply perm_swap.
Qed.

Lemma stable_sort_perm l : stable_sort l ≡ₚ l.
Proof. induction l as [|x l IH]; simpl; [done|]. by rewrite sort_insert_perm, IH. Qed.
End sort.

Section assoc.
Context {K V : Type} `{!EqDecision K}.

(** [d.setdefault(k, []).append(v)] on an insertion-ordered dict *)
Fixpoint assoc_append (k : K) (v : V) (d : list (K * list V)) : list (K * list V) :=
  match d with
  | [] => [(k, [v])]
  | (k', vs) :: d' => if decide (k = k') then (k', vs ++ [v]) :: d' else (k', vs) :: assoc_append k v d'
  end.

Definition group_by (f : V -> K) (l : list V) : list (K * list V) :=
  foldl (fun d v => assoc_append (f v) v d) [] l.

Lemma assoc_append_perm k v d :
  concat (snd <$> assoc_append k v d) ≡ₚ v :: concat (snd <$> d).
Proof.
  induction d as [|[k' vs] d IH]; simpl; [done|]. case_decide; simpl.
  - rewrite <- app_assoc. simpl. by rewrite <- Permutation_middle.
  - rewrite IH. by rewrite Permutation_middle.
Qed.

Lemma group_by_perm f l : concat (snd <$> group_by f l) ≡ₚ l.
Proof.
  unfold group_by. assert (forall d, concat (snd <$> foldl (fun d v => assoc_append (f v) v d) d l)
                                    ≡ₚ concat (snd <$> d) ++ l) as H; [|by rewrite H].
  induction l as [|x l IH]; intros d; simpl; [by rewrite app_nil_r|].
  rewrite IH, assoc_append_perm. simpl. by rewrite Permutation_middle.
Qed.

Lemma assoc_append_keys (P : K -> list V -> Prop) k v d :
  P k [v] -> (forall k' vs, k' = k -> P k' vs -> P k' (vs ++ [v])) ->
  Forall (fun e => P (fst e) (snd e)) d ->
  Forall (fun e => P (fst e) (snd e)) (assoc_append k v d).
Proof.
  intros Hnew Happ. induction 1 as [|[k' vs] d He Hd IH]; simpl; [by repeat constructor|].
  case_decide; constructor; simpl in *; auto.
Qed.

Lemma group_by_keys f l :
  Forall (fun e => Forall (fun v => f v = fst e) (snd e)) (group_by f l).
Proof.
  unfold group_by. assert (Forall (fun e => Forall (fun v => f v = fst e) (snd e))
                             ([] : list (K * list V))) as H by constructor.
  revert H. generalize ([] : list (K * list V)).
  induction l as [|x l IH]; intros d Hd; simpl; [done|]. apply IH.
  apply (assoc_append_keys (fun k vs => Forall (fun v => f v = k) vs)); [by repeat constructor| |done].
  intros k' vs -> Hvs. apply Forall_app. split; [done|by repeat constructor].
Qed.
End assoc.

(** * Inverting successful runs *)

Lemma result_bind_Ok {A B} (m : result A) (f : A -> result B) b :
  m ≫= f = Ok b <-> exists a, m = Ok a /\ f a = Ok b.
Proof. destruct m; simpl; naive_solver. Qed.

Lemma act_bind_Ok {S A B} (m : act S A) (f : A -> act S B) s b s' :
  (m ≫= f) s = (Ok b, s') <-> exists a s1, m s = (Ok a, s1) /\ f a s1 = (Ok b, s').
Proof.
  unfold mbind, act_bind. destruct (m s) as [[a|e] s1]; split; [eauto| |done|]; naive_solver.
Qed.

(** Running forward: a guard that holds, an update, a pure computation that succeeds. *)
Lemma raise_if_bind {S A} b e (f : unit -> act S A) s : b = false -> (raise_if b e ≫= f) s = f tt s.
Proof. by intros ->. Qed.

Lemma modify_bind {S A} g (f : unit -> act S A) s : (modify g ≫= f) s = f tt (g s).
Proof. done. Qed.

Lemma lift_bind {S A B} (r : result A) a (f : A -> act S B) s : r = Ok a -> (lift r ≫= f) s = f a s.
Proof. by intros ->. Qed.

Lemma raise_if_Ok {S} b e (s s' : S) u : raise_if b e s = (Ok u, s') <-> b = false /\ s' = s.
Proof. unfold raise_if, raise. destruct b; simpl; unfold mret, act_ret; destruct u; naive_solver. Qed.

(** Decomposes the hypotheses that say a run succeeded. *)
Ltac run_inv :=
  repeat match goal with
  | H : (_ ≫= _) = Ok _ |- _ => apply result_bind_Ok in H as (? & ? & H)
  | H : (_ ≫= _) _ = (Ok _, _) |- _ => apply act_bind_Ok in H as (? & ? & ? & H)
  | H : raise_if _ _ _ = (Ok _, _) |- _ => apply raise_if_Ok in H as [? ->]
  | H : modify _ _ = (Ok _, _) |- _ => unfold modify in H; injection H as ? <-
  | H : lift _ _ = (Ok _, _) |- _ => unfold lift in H; injection H as H <-
  | H : mret _ _ = (Ok _, _) |- _ => unfold mret, act_ret in H; injection H as <- <-
  | H : of_option _ _ = Ok _ |- _ => apply of_option_Ok in H
  | H : Ok _ = Ok _ |- _ => injection H as <-
  end.

(** Arithmetic over sequence lengths. *)
Create HintDb len.
#[export] Hint Rewrite @length_fmap @length_app @length_seqZ @length_take @length_drop @length_insert
  @length_replicate @length_zip_with @length_imap : len.

Ltac zlen_lia := unfold zlen in *; autorewrite with len in *; lia.
