(* ===== verification/PyStr.v ===== *)
(** Python strings as sequences of code points below 256, and the string methods the
    modelled code calls: [find], [startswith], [endswith], [in], [strip], [split(None, 1)],
    [isspace], [replace], [int] of digits and the order on strings.  Searching is defined
    over any alphabet. *)

From S2P Require Import Prelude.

Abbreviation pystr := (list ascii).

(** A string literal. *)
Definition lit (s : string) : pystr := String.list_ascii_of_string s.

Definition code (c : ascii) : nat := nat_of_ascii c.

Definition is_digit (c : ascii) : bool := (48 <=? code c) && (code c <=? 57).

(** Searching works for sequences over any alphabet. *)
Section search.
Context {C : Type} `{!EqDecision C}.
Implicit Types s p : list C.

Definition startswith s p : bool := bool_decide (p `prefix_of` s).
Definition endswith s p : bool := bool_decide (p `suffix_of` s).

(** [s.find(p)]: the least index at which [p] occurs; [None] stands for -1. *)
Fixpoint find p s : option nat :=
  if startswith s p then Some 0
  else match s with [] => None | _ :: s => S <$> find p s end.

(** [s.find(p, start)] for [0 <= start]. *)
Definition find_from p s (start : nat) : option nat :=
  if decide (start <= length s) then (fun i => start + i) <$> find p (drop start s) else None.

(** [p in s] *)
Definition contains s p : bool := bool_decide (is_Some (find p s)).

(** [p] occurs in [s] at index [i]. *)
Definition occurs_at p s (i : nat) : Prop := i <= length s /\ p `prefix_of` drop i s.

Lemma occurs_at_0 p s : occurs_at p s 0 <-> p `prefix_of` s.
Proof. unfold occurs_at. rewrite drop_0. split; [tauto|split; [lia|done]]. Qed.

Lemma occurs_at_S p x s i : occurs_at p (x :: s) (S i) <-> occurs_at p s i.
Proof. unfold occurs_at. simpl. split; intros [? ?]; split; try done; lia. Qed.

Lemma find_Some p s i :
  find p s = Some i <-> occurs_at p s i /\ forall j, j < i -> ~ occurs_at p s j.
Proof.
  revert i. induction s as [|x s IH]; intros i; simpl; unfold startswith; case_bool_decide as E.
  - split.
    + intros [= <-]. rewrite occurs_at_0. split; [done|lia].
    + intros [[Hi _] _]. simpl in Hi. f_equal. lia.
  - split; [done|]. intros [[Hi Hp] _]. simpl in Hi. assert (i = 0) as -> by lia. by rewrite drop_0 in Hp.
  - split.
    + intros [= <-]. rewrite occurs_at_0. split; [done|lia].
    + intros [_ Hmin]. destruct i; [done|]. exfalso. apply (Hmin 0); [lia|]. by apply occurs_at_0.
  - rewrite fmap_Some. setoid_rewrite IH. split.
    + intros (k & [Hk Hmin] & ->). rewrite occurs_at_S. split; [done|].
      intros [|j] Hj; [by rewrite occurs_at_0|]. rewrite occurs_at_S. apply Hmin. lia.
    + destruct i as [|i]; [rewrite occurs_at_0; tauto|]. rewrite occurs_at_S. intros [Ho Hmin].
      exists i. split_and!; [done| |done]. intros j Hj Hoj. apply (Hmin (S j)); [lia|]. by apply occurs_at_S.
Qed.

Lemma find_None p s : find p s = None <-> forall i, ~ occurs_at p s i.
Proof.
  split.
  - intros H i. induction i as [i IH] using lt_wf_ind. intros Ho.
    assert (find p s = Some i) as E by (apply find_Some; auto). congruence.
  - intros H. destruct (find p s) as [i|] eqn:E; [|done].
    apply find_Some in E as [Ho _]. by apply H in Ho.
Qed.

Lemma occurs_at_length p s i : occurs_at p s i -> i + length p <= length s.
Proof.
  intros [Hi Hp]. apply prefix_length in Hp. rewrite length_drop in Hp. lia.
Qed.

(** An occurrence lies in a prefix that is long enough, and conversely. *)
Lemma occurs_at_app p s t i : occurs_at p s i -> occurs_at p (s ++ t) i.
Proof.
  intros [Hi [k Hk]]. split; [rewrite length_app; lia|].
  rewrite drop_app_le by done. rewrite Hk, <- app_assoc. by eexists.
Qed.

Lemma occurs_at_app_inv p s t i :
  occurs_at p (s ++ t) i -> i + length p <= length s -> occurs_at p s i.
Proof.
  intros [Hi [k Hk]] Hl. split; [lia|]. rewrite drop_app_le in Hk by lia.
  assert (p = take (length p) (drop i s)) as ->; [|apply prefix_take].
  rewrite <- (take_app_le _ t) by (rewrite length_drop; lia). by rewrite Hk, take_app_length.
Qed.

Lemma occurs_at_shift p t r i : occurs_at p (t ++ r) (length t + i) <-> occurs_at p r i.
Proof.
  unfold occurs_at. rewrite length_app, drop_app_ge by lia.
  replace (length t + i - length t) with i by lia. split; intros [? ?]; (split; [lia|done]).
Qed.

Lemma occurs_at_drop p s k i : k <= length s -> occurs_at p (drop k s) i <-> occurs_at p s (k + i).
Proof.
  intros Hk. unfold occurs_at. rewrite length_drop, drop_drop. split; intros [? ?]; (split; [lia|done]).
Qed.

(** The first occurrence, after dropping text before it. *)
Lemma find_shift p t r i : find p (t ++ r) = Some i -> length t <= i -> find p r = Some (i - length t).
Proof.
  rewrite !find_Some. intros [Ho Hmin] Hi. replace i with (length t + (i - length t)) in Ho by lia.
  rewrite occurs_at_shift in Ho. split; [done|]. intros j Hj Hoj. apply (Hmin (length t + j)); [lia|].
  by apply occurs_at_shift.
Qed.
End search.

(** * Whitespace *)

(** [str.isspace] on one code point below 256. *)
Definition is_space (c : ascii) : bool :=
  let n := code c in
  ((9 <=? n) && (n <=? 13)) || ((28 <=? n) && (n <=? 32)) || (n =? 133) || (n =? 160).

Fixpoint lstrip (s : pystr) : pystr :=
  match s with
  | [] => []
  | c :: s' => if is_space c then lstrip s' else s
  end.

Definition rstrip (s : pystr) : pystr := reverse (lstrip (reverse s)).
Definition strip (s : pystr) : pystr := rstrip (lstrip s).

(** [not s.strip()] *)
Definition blank (s : pystr) : bool := forallb is_space s.

(** [s.isspace()]: nonempty and all whitespace. *)
Definition isspace (s : pystr) : bool := negb (bool_decide (s = [])) && blank s.

(** The longest prefix without whitespace. *)
Fixpoint span_word (s : pystr) : pystr :=
  match s with
  | [] => []
  | c :: s => if is_space c then [] else c :: span_word s
  end.

(** [s.split(None, 1)] of a stripped string: the first word, and the rest if any. *)
Definition split_head (s : pystr) : option (pystr * option pystr) :=
  match s with
  | [] => None
  | _ => let w := span_word s in
         Some (w, match drop (length w) s with [] => None | rest => Some (lstrip rest) end)
  end.

(** * Replacement, order *)

(** [s.replace(old, new)] for a nonempty [old]: occurrences from the left, not overlapping;
    [skip] counts the characters of the current occurrence still to drop. *)
Fixpoint replace_from (old new : pystr) (skip : nat) (s : pystr) : pystr :=
  match s with
  | [] => []
  | c :: s' =>
      match skip with
      | S k => replace_from old new k s'
      | 0 => if startswith s old then new ++ replace_from old new (length old - 1) s'
             else c :: replace_from old new 0 s'
      end
  end.

Definition replace (old new s : pystr) : pystr := replace_from old new 0 s.

(** [a < b] on strings. *)
Fixpoint str_ltb (a b : pystr) : bool :=
  match a, b with
  | _, [] => false
  | [], _ :: _ => true
  | c :: a, d :: b => (code c <? code d) || ((code c =? code d) && str_ltb a b)
  end.

(** * Digits *)

(** The longest prefix of digits, and [int] of a digit string. *)
Fixpoint span_digits (s : pystr) : pystr :=
  match s with
  | [] => []
  | c :: s => if is_digit c then c :: span_digits s else []
  end.

Definition int_of_digits (s : pystr) : Z :=
  foldl (fun acc c => (10 * acc + (Z.of_nat (code c) - 48))%Z) 0%Z s.

(** * Whitespace lemmas *)

Lemma blank_app a b : blank (a ++ b) = blank a && blank b.
Proof. apply forallb_app. Qed.

Lemma blank_strip s : blank s = true <-> strip s = [].
Proof.
  unfold strip, rstrip. assert (forall s, blank s = true <-> lstrip s = []) as H.
  { clear. induction s as [|c s IH]; simpl; [done|]. destruct (is_space c); simpl; [done|]. by split. }
  split.
  - intros ->%H. done.
  - intros E. apply H. destruct (lstrip s) as [|c l] eqn:El; [done|]. exfalso.
    assert (blank (c :: l) = true) as Hb.
    { rewrite <- (reverse_involutive (c :: l)). unfold blank. rewrite <- (reverse_involutive (reverse (reverse (c :: l)))).
      rewrite reverse_involutive. apply forallb_forall. intros x Hx. 
      apply (f_equal reverse) in E. rewrite reverse_involutive in E. simpl in E.
      apply H in E. unfold blank in E. rewrite forallb_forall in E. apply E.
      apply list_elem_of_In. rewrite elem_of_reverse. apply list_elem_of_In.
      by rewrite reverse_involutive in Hx. }
    assert (is_space c = false) as Hc.
    { clear -El. induction s as [|d s IH]; simpl in El; [done|]. destruct (is_space d) eqn:E; [auto|]. by simplify_eq. }
    simpl in Hb. by rewrite Hc in Hb.
Qed.

(** * Markers *)

(** A marker whose first character occurs nowhere else in it cannot overlap itself. *)
Definition solid {C} (m : list C) : Prop := exists c m', m = c :: m' /\ c ∉ m'.

(** The first occurrence of such a marker after text that does not contain it. *)
Lemma find_marker {C} `{!EqDecision C} (m s rest : list C) :
  solid m -> find m s = None -> find m (s ++ m ++ rest) = Some (length s).
Proof.
  intros (c & m' & Hm & Hc) Hn. rewrite find_None in Hn. apply find_Some. split.
  - rewrite <- (Nat.add_0_r (length s)). rewrite occurs_at_shift. apply occurs_at_0. by exists rest.
  - intros j Hj Ho. destruct (decide (j + length m <= length s)) as [Hle|Hgt].
    { by apply (Hn j), (occurs_at_app_inv _ _ (m ++ rest)). }
    destruct Ho as [_ [k Hk]]. apply Hc. apply list_elem_of_lookup. exists (length s - j - 1).
    assert ((s ++ m ++ rest) !! length s = Some c) as H1 by (rewrite lookup_app_r, Nat.sub_diag by lia; by rewrite Hm).
    assert ((s ++ m ++ rest) !! length s = (m ++ k) !! (length s - j)) as H2.
    { rewrite <- Hk, lookup_drop. f_equal. lia. }
    rewrite H1, lookup_app_l in H2 by lia. rewrite Hm in H2. replace (length s - j) with (S (length s - j - 1)) in H2 by lia. by simpl in H2.
Qed.

Lemma find_here {C} `{!EqDecision C} (m rest : list C) : find m (m ++ rest) = Some 0.
Proof. apply find_Some. split; [apply occurs_at_0; by exists rest|lia]. Qed.

Lemma find_prefix_None {C} `{!EqDecision C} (m s t : list C) : find m (s ++ t) = None -> find m s = None.
Proof. rewrite !find_None. intros H i Ho. by apply (H i), occurs_at_app. Qed.

Lemma find_suffix_None {C} `{!EqDecision C} (m s t : list C) : find m (s ++ t) = None -> find m t = None.
Proof. rewrite !find_None. intros H i Ho. apply (H (length s + i)). by apply occurs_at_shift. Qed.

(** * Trimmed strings *)

Definition trimmed (s : pystr) : Prop := lstrip s = s /\ rstrip s = s.

Lemma trimmed_strip s : trimmed s -> strip s = s.
Proof. intros [Hl Hr]. unfold strip. by rewrite Hl. Qed.

Lemma lstrip_nonspace c s : is_space c = false -> lstrip (c :: s) = c :: s.
Proof. intros H. simpl. by rewrite H. Qed.

Lemma lstrip_trimmed_app s t : s <> [] -> lstrip s = s -> lstrip (s ++ t) = s ++ t.
Proof.
  destruct s as [|c s]; [done|]. simpl. destruct (is_space c); [|done]. intros _ H.
  assert (forall s, length (lstrip s) <= length s) as Hle by (clear; induction s as [|c s IH]; simpl; [done|]; destruct (is_space c); simpl; lia).
  specialize (Hle s). rewrite H in Hle. simpl in Hle. lia.
Qed.

Lemma rstrip_trimmed_app s t : t <> [] -> rstrip t = t -> rstrip (s ++ t) = s ++ t.
Proof.
  intros Ht Hr. unfold rstrip in *. rewrite reverse_app.
  assert (lstrip (reverse t) = reverse t) as Hl by (apply (f_equal reverse) in Hr; by rewrite reverse_involutive in Hr).
  rewrite lstrip_trimmed_app; [by rewrite reverse_app, !reverse_involutive| |done].
  intros E. apply Ht. apply (f_equal reverse) in E. by rewrite reverse_involutive in E.
Qed.

Lemma trimmed_app s t : s <> [] -> t <> [] -> lstrip s = s -> rstrip t = t -> trimmed (s ++ t).
Proof. intros. split; [by apply lstrip_trimmed_app|by apply rstrip_trimmed_app]. Qed.
