(* ===== verification/HfConfig.v ===== *)
(** Model configuration objects and the traits read off them
    ([dlengine/runtime/models/trait.py]).  A HuggingFace config is an object with
    optional attributes that refers to nested configs, so configs live in a heap
    and refer to each other by address: the references may form a cycle. *)

From S2P Require Import Prelude.

Open Scope Z_scope.

(** The attributes the modelled code reads.  [None] stands for an attribute that
    is absent (the code reads them with [getattr(..., default)]). *)
Record HfConfig := mk_hf {
  architectures : option (list string);
  num_hidden_layers : option Z;
  layer_types : option (list string);
  num_kv_shared_layers : option Z;
  compress_ratios : option (list Z);
  kv_lora_rank : option Z;
  qk_rope_head_dim : option Z;
  qk_nope_head_dim : option Z;
  index_head_dim : option Z;
  num_key_value_heads : option Z;
  num_nextn_predict_layers : option Z;
  mtp_num_hidden_layers : option Z;
  linear_num_key_heads : option Z;
  linear_num_value_heads : option Z;
  linear_key_head_dim : option Z;
  linear_value_head_dim : option Z;
  linear_conv_kernel_dim : option Z;
  (** The object structure: whether it has [to_dict], the keys of [sub_configs]
      when that is a dict, and the nested config objects by attribute name. *)
  has_to_dict : bool;
  sub_configs : option (list string);
  children : gmap string nat
}.

Definition empty_hf : HfConfig :=
  mk_hf None None None None None None None None None None None None None None None None None
        false None ∅.

(** [(getattr(hf, "architectures", None) or \[""\])\[0\]] *)
Definition arch (hf : HfConfig) : string :=
  match architectures hf with Some (a :: _) => a | _ => "" end.

(** [list(getattr(hf, name, None) or \[\])] *)
Definition list_attr {A} (o : option (list A)) : list A := default [] o.

(** * [has_layer_type]: depth-first search over nested configs *)

Definition nested_names : list string := ["text_config"; "thinker_config"; "decoder_config"].

(** The loop that appends the default names not declared in [sub_configs]. *)
Definition child_names (cfg : HfConfig) : list string :=
  foldl (fun names name => if decide (name ∈ names) then names else names ++ [name])
        (list_attr (sub_configs cfg)) nested_names.

Definition declares (layer_type : string) (cfg : HfConfig) : bool :=
  existsb (fun lt => bool_decide (lt = layer_type)) (list_attr (layer_types cfg)).

(** [hasattr(child, "to_dict") or getattr(child, "layer_types", None)] *)
Definition is_config (cfg : HfConfig) : bool :=
  has_to_dict cfg || negb (bool_decide (list_attr (layer_types cfg) = [])).

Section visit.
Context (heap : gmap nat HfConfig) (layer_type : string).

(** The nested configs the [for name in names] loop descends into: the child
    attributes that exist and look like configs. *)
Definition targets (cfg : HfConfig) : list nat :=
  omap (fun name => cid ← children cfg !! name; child ← heap !! cid;
                    if is_config child then Some cid else None) (child_names cfg).

(** [if visit(child): return True] for each child in turn, over the recursive
    call [rec]. *)
Fixpoint visit_each (rec : gset nat -> nat -> option (bool * gset nat))
    (seen : gset nat) (ids : list nat) : option (bool * gset nat) :=
  match ids with
  | [] => Some (false, seen)
  | cid :: rest =>
      match rec seen cid with
      | None => None
      | Some (true, seen') => Some (true, seen')
      | Some (false, seen') => visit_each rec seen' rest
      end
  end.

(** [visit(cfg)] with the [seen] set it updates.  The recursion is bounded by
    [fuel]; [None] is reported when the bound is hit. *)
Fixpoint visit (fuel : nat) (seen : gset nat) (id : nat) : option (bool * gset nat) :=
  match fuel with
  | O => None
  | S fuel =>
      match heap !! id with
      | None => Some (false, seen)
      | Some cfg =>
          if decide (id ∈ seen) then Some (false, seen)
          else if declares layer_type cfg then Some (true, {[id]} ∪ seen)
          else visit_each (visit fuel) ({[id]} ∪ seen) (targets cfg)
      end
  end.

(** Every level of the recursion adds a config to [seen], so this bound is never
    hit ([visit_terminates]). *)
Definition has_layer_type (id : nat) : option bool :=
  fst <$> visit (S (size heap)) ∅ id.

(** * The search is exact *)

(** [m] is a nested config of [n] that the search descends into. *)
Definition edge (n m : nat) : Prop :=
  exists cfg, heap !! n = Some cfg /\ m ∈ targets cfg.

Definition declares_at (n : nat) : Prop :=
  exists cfg, heap !! n = Some cfg /\ declares layer_type cfg = true.

(** What a completed search promises: it only adds to [seen]; a hit is a declaring
    config reachable from a start; after a miss everything newly seen is
    non-declaring and its nested configs are seen. *)
Definition search_post (from : list nat) (seen : gset nat) (r : bool * gset nat) : Prop :=
  seen ⊆ snd r /\
  if fst r then exists n m, n ∈ from /\ rtc edge n m /\ declares_at m
  else (forall n, n ∈ from -> is_Some (heap !! n) -> n ∈ snd r) /\
       (forall n, n ∈ snd r -> n ∉ seen -> ~ declares_at n /\ forall m, edge n m -> m ∈ snd r).

Lemma targets_in_heap cfg m : m ∈ targets cfg -> is_Some (heap !! m).
Proof.
  unfold targets. rewrite list_elem_of_omap. intros (name & _ & Hm).
  destruct (children cfg !! name) as [cid|]; [|done]. simpl in Hm.
  destruct (heap !! cid) eqn:E; [|done]. simpl in Hm. case_match; simplify_eq. eauto.
Qed.

Lemma visit_each_post rec ids seen r :
  (forall seen cid r, rec seen cid = Some r -> search_post [cid] seen r) ->
  visit_each rec seen ids = Some r -> search_post ids seen r.
Proof.
  intros Hrec. revert seen. induction ids as [|cid ids IH]; intros seen; simpl.
  { intros [= <-]. split; [done|]. simpl. set_solver. }
  destruct (rec seen cid) as [[[] seen']|] eqn:E; [| |done]; apply Hrec in E as [Hsub Hpost];
    simpl in *.
  - intros [= <-]. split; [done|]. simpl in *. destruct Hpost as (n & m & Hn & ?). 
    exists n, m. set_solver.
  - destruct Hpost as [Hin Hnew]. intros [Hsub' Hpost']%IH. split; [set_solver|].
    destruct (fst r); [set_solver|]. destruct Hpost' as [Hin' Hnew']. split.
    + intros n [->|Hn]%elem_of_cons Hs; [|by auto]. apply Hsub'. apply Hin; [|done]. set_solver.
    + intros n Hn Hseen. destruct (decide (n ∈ seen')) as [Hn'|Hn']; [|by auto].
      destruct (Hnew n Hn' Hseen) as [Hd He]. split; [done|]. intros m Hm. set_solver.
Qed.

Lemma visit_post fuel seen id r : visit fuel seen id = Some r -> search_post [id] seen r.
Proof.
  revert seen id r. induction fuel as [|fuel IH]; intros seen id r; simpl; [done|].
  destruct (heap !! id) as [cfg|] eqn:Hid.
  2: { intros [= <-]. split; [done|]. simpl. split; [|set_solver].
       intros n ->%list_elem_of_singleton [? ?]; congruence. }
  case_decide as Hseen.
  { intros [= <-]. split; [done|]. simpl. set_solver. }
  destruct (declares layer_type cfg) eqn:Hd.
  { intros [= <-]. split; [set_solver|]. simpl. exists id, id. split; [set_solver|].
    split; [apply rtc_refl|]. by exists cfg. }
  intros [Hsub Hpost]%visit_each_post; [|done]. split; [set_solver|].
  destruct (fst r).
  - destruct Hpost as (n & m & Hn & Hnm & Hm). exists id, m. split; [set_solver|].
    split; [|done]. eapply rtc_l; [|done]. by exists cfg.
  - destruct Hpost as [Hin Hnew]. split; [set_solver|].
    intros n Hn Hns. destruct (decide (n = id)) as [->|Hne]; [|apply Hnew; set_solver].
    split.
    + intros (cfg' & Hcfg' & Hd'). simplify_eq. congruence.
    + intros m (cfg' & Hcfg' & Hm). simplify_eq. eauto using targets_in_heap.
Qed.

(** * The search terminates *)

Lemma visit_each_terminates rec ids seen :
  (forall seen' cid, seen ⊆ seen' -> exists r, rec seen' cid = Some r /\ seen' ⊆ snd r) ->
  exists r, visit_each rec seen ids = Some r.
Proof.
  revert seen. induction ids as [|cid ids IH]; intros seen Hrec; simpl; [eauto|].
  destruct (Hrec seen cid) as ([[] seen'] & -> & Hsub); [done|eauto|]. simpl in *.
  apply IH. intros seen'' c Hs. apply Hrec. set_solver.
Qed.

Lemma visit_terminates fuel seen id :
  (size (dom heap ∖ seen) < fuel)%nat -> exists r, visit fuel seen id = Some r.
Proof.
  revert seen id. induction fuel as [|fuel IH]; intros seen id Hf; [lia|]. simpl.
  destruct (heap !! id) as [cfg|] eqn:Hid; [|eauto].
  case_decide as Hseen; [eauto|]. destruct (declares _ _); [eauto|].
  apply visit_each_terminates. intros seen' cid Hs.
  destruct (IH seen' cid) as [r Hr].
  - apply elem_of_dom_2 in Hid.
    assert (dom heap ∖ seen' ⊂ dom heap ∖ seen) as Hlt%subset_size by set_solver. lia.
  - exists r. split; [done|]. by apply visit_post in Hr as [? _].
Qed.

Lemma has_layer_type_total id : exists b, has_layer_type id = Some b.
Proof.
  unfold has_layer_type. destruct (visit_terminates (S (size heap)) ∅ id) as [r ->]; [|by eexists].
  rewrite difference_empty_L, size_dom. lia.
Qed.

Lemma has_layer_type_exact id b :
  has_layer_type id = Some b -> b = true <-> exists m, rtc edge id m /\ declares_at m.
Proof.
  unfold has_layer_type. destruct (visit _ _ _) as [[b' seen']|] eqn:E; [|done].
  intros [= <-]. simpl. apply visit_post in E as [_ Hpost]. simpl in Hpost. destruct b'.
  - split; [|done]. intros _. destruct Hpost as (n & m & ->%list_elem_of_singleton & ?). eauto.
  - destruct Hpost as [Hin Hnew]. split; [done|]. intros (m & Hm & Hd). exfalso.
    assert (id ∈ seen') as Hid.
    { apply Hin; [set_solver|]. destruct Hm as [x|x y z (cfg & ? & _)]; [|by eauto].
      destruct Hd as (? & ? & _). eauto. }
    clear Hin. induction Hm as [x|x y z Hxy Hyz IH].
    + destruct (Hnew x Hid) as [Hn _]; [set_solver|done].
    + apply IH; [done|]. destruct (Hnew x Hid) as [_ He]; [set_solver|]. by apply He.
Qed.
End visit.

(** [has_gdn_component(hf_config)] *)
Definition has_gdn_component (heap : gmap nat HfConfig) (id : nat) : option bool :=
  has_layer_type heap "linear_attention" id.

(** [has_hca_csa_cache(hf_config)]: [{4, 128}.issubset(ratios)]. *)
Definition has_hca_csa_cache (hf : HfConfig) : bool :=
  let ratios : gset Z := list_to_set (filter (fun r => r > 0) (list_attr (compress_ratios hf))) in
  bool_decide ({[4; 128]} ⊆ ratios).

(** The search for a layer type ends on every graph of nested configs, cyclic ones
    included, and answers [True] exactly when some config reachable through the nested
    configs it descends into declares the type. *)
Theorem has_layer_type_decides heap layer_type id :
  exists b, has_layer_type heap layer_type id = Some b /\
    (b = true <-> exists m, rtc (edge heap) id m /\ declares_at heap layer_type m).
Proof.
  destruct (has_layer_type_total heap layer_type id) as [b Hb]. exists b. split; [done|].
  by apply has_layer_type_exact.
Qed.
