(* ===== verification/PipelineParallel.v ===== *)
(** Pipeline parallelism: the split of decoder layers into stages and the rank
    arithmetic of [dlengine/runtime/models/pp_utils.py], over the parallelism
    sizes a worker's [DistContext] holds
    ([dlengine/runtime/context/distributed.py]). *)

From S2P Require Import Prelude PyStr HfConfig.

Open Scope Z_scope.

(** * The worker's parallelism sizes: [DistContext] *)

Module Dist.

Record DistContext := mk_ctx {
  rank : Z;
  world_size : Z;
  attention_dp : Z;
  attention_tp : Z;
  attention_sp : Z;
  ffn_dp : Z;
  ffn_ep : Z;
  ffn_tp : Z;
  pp : Z
}.

(** [DistContext._validate_parallelism] *)
Definition validate_parallelism (c : DistContext) : result unit :=
  let p := Z.max 1 (pp c) in
  let attn_world_size := p * attention_dp c * attention_sp c * attention_tp c in
  let ffn_world_size := p * ffn_dp c * ffn_ep c * ffn_tp c in
  if decide (attn_world_size <> world_size c) then Err ValueError
  else if decide (ffn_world_size <> world_size c) then Err ValueError
  else Ok tt.

Definition pp_world_size (c : DistContext) : Z := Z.max 1 (pp c).

Definition pp_inner_world_size (c : DistContext) : Z := world_size c / pp_world_size c.

Definition pp_rank (c : DistContext) : result Z :=
  (rank c // pp_inner_world_size c)%py.

Definition is_first_pp_stage (c : DistContext) : result bool :=
  r ← pp_rank c; Ok (bool_decide (r = 0)).

Definition is_last_pp_stage (c : DistContext) : result bool :=
  r ← pp_rank c; Ok (bool_decide (r = pp_world_size c - 1)).

Definition pp_prev_global_rank (c : DistContext) : Z := rank c - pp_inner_world_size c.

Definition pp_next_global_rank (c : DistContext) : Z := rank c + pp_inner_world_size c.

End Dist.

(** * The split policy *)

(** The body of the [for stage in range(split_size)] loop, over the remaining
    stage numbers, with the loop-carried [start]. *)
Fixpoint split_loop (base remainder : Z) (start : Z) (stages : list Z) : list (Z * Z) :=
  match stages with
  | [] => []
  | stage :: rest =>
      let count := base + (if decide (stage < remainder) then 1 else 0) in
      (start, start + count) :: split_loop base remainder (start + count) rest
  end.

Definition pp_layer_partition (num_layers pp_size : Z) (final_stage_start : option Z)
    : result (list (Z * Z)) :=
  let pp_size := Z.max 1 pp_size in
  if decide (pp_size = 1) then Ok [(0, num_layers)]
  else
    match final_stage_start with
    | Some f =>
        if decide (~ (0 < f < num_layers)) then Err ValueError
        else if decide (f < pp_size - 1) then Err ValueError
        else
          let split_size := pp_size - 1 in
          Ok (split_loop (f / split_size) (f `mod` split_size) 0 (py_range split_size)
                ++ [(f, num_layers)])
    | None =>
        let split_size := pp_size in
        Ok (split_loop (num_layers / split_size) (num_layers `mod` split_size) 0
              (py_range split_size))
    end.

(** The search loop of [pp_stage_of_layer], at stage number [stage]. *)
Fixpoint stage_search (layer_idx stage : Z) (ranges : list (Z * Z)) : result Z :=
  match ranges with
  | [] => Err ValueError
  | (s, e) :: rest =>
      if decide (s <= layer_idx < e) then Ok stage
      else stage_search layer_idx (stage + 1) rest
  end.

Definition pp_stage_of_layer (layer_idx : Z) (stage_ranges : list (Z * Z)) : result Z :=
  stage_search layer_idx 0 stage_ranges.

(** [result\[i\].append(x)] *)
Definition append_at (i : Z) (x : Z) (res : list (list Z)) : list (list Z) :=
  alter (fun l => l ++ [x]) (Z.to_nat i) res.

Definition partition_layer_indices (layer_indices : list Z) (stage_ranges : list (Z * Z))
    : result (list (list Z)) :=
  foldM_r (fun res layer_idx =>
             s ← pp_stage_of_layer layer_idx stage_ranges;
             Ok (append_at s layer_idx res))
          ((fun _ => []) <$> stage_ranges) layer_indices.

Definition pp_global_rank (pp_idx dp_idx sp_idx tp_idx dp_size sp_size tp_size : Z) : result Z :=
  if decide (pp_idx < 0 \/ Exists (fun cs => fst cs < 0 \/ fst cs >= snd cs)
               [(dp_idx, dp_size); (sp_idx, sp_size); (tp_idx, tp_size)])
  then Err ValueError
  else
    let inner_world_size := dp_size * sp_size * tp_size in
    let inner_rank := (dp_idx * sp_size + sp_idx) * tp_size + tp_idx in
    Ok (pp_idx * inner_world_size + inner_rank).

Definition get_pp_layer_range (ctx : Dist.DistContext) (num_layers : Z)
    (final_stage_start : option Z) : result (Z * Z) :=
  partition ← pp_layer_partition num_layers (Dist.pp_world_size ctx) final_stage_start;
  r ← Dist.pp_rank ctx;
  partition.[r]%py.

(** * Layers with a cache slot, and Gemma4's shared-KV suffix *)

(** [int(config.num_hidden_layers)] on a config without the attribute raises. *)
Definition num_layers_of (config : HfConfig) : result Z :=
  of_option AttributeError (num_hidden_layers config).

Definition gemma4_archs : list string :=
  ["Gemma4ForCausalLM"; "Gemma4ForConditionalGeneration"].

(** [\[idx for idx, t in enumerate(types) if t == kind\]] *)
Definition indices_of_type (kind : string) (types : list string) : list Z :=
  fst <$> filter (fun p => snd p = kind) (enumerate types).

Definition cache_layer_indices (config : HfConfig) (gemma_hisparse_only_full_attention : bool)
    : result (list Z) :=
  num_layers ← num_layers_of config;
  let types := list_attr (layer_types config) in
  if decide (arch config ∈ gemma4_archs) then
    let first_shared := num_layers - int_or (num_kv_shared_layers config) 0 in
    Ok (if gemma_hisparse_only_full_attention
        then indices_of_type "full_attention" (py_upto types first_shared)
        else py_range (Z.max 0 first_shared))
  else if decide ("linear_attention" ∈ types) then
    Ok (indices_of_type "full_attention" types)
  else Ok (py_range num_layers).

(** The index of the last layer of type [t] among [types], if there is one. *)
Definition last_of_type (types : list string) (t : string) : option Z :=
  last (indices_of_type t types).

(** [shared_types] is a Python set; its iteration order does not matter here,
    because the loop takes a minimum and raises the same exception whichever type
    has no source. *)
Definition get_gemma4_shared_kv_source_start (config : HfConfig) : result (option Z) :=
  num_layers ← num_layers_of config;
  let num_shared := int_or (num_kv_shared_layers config) 0 in
  if decide (num_shared <= 0) then Ok None
  else
    let first_shared := num_layers - num_shared in
    types ← of_option AttributeError (layer_types config);
    let shared_types := remove_dups (py_from types first_shared) in
    source_indices ← mapM_r (fun t => of_option ValueError
                                        (last_of_type (py_upto types first_shared) t))
                            shared_types;
    m ← py_min source_indices;
    Ok (Some m).

Definition get_gemma4_pp_layer_range (ctx : Dist.DistContext) (config : HfConfig)
    : result (Z * Z) :=
  num_layers ← num_layers_of config;
  f ← get_gemma4_shared_kv_source_start config;
  get_pp_layer_range ctx num_layers f.

(** * Module list and weight ownership *)

(** A slot of the [ModuleList]: a built layer or a [PPMissingLayer]. *)
Inductive module_slot (M : Type) :=
  | BuiltLayer (m : M)
  | PPMissingLayer.
Arguments BuiltLayer {M} m.
Arguments PPMissingLayer {M}.

Definition make_pp_layers {M} (ctx : Dist.DistContext) (num_layers : Z) (builder : Z -> M)
    (layer_range : option (Z * Z)) : result (Z * Z * list (module_slot M)) :=
  range ← match layer_range with
          | Some r => Ok r
          | None => get_pp_layer_range ctx num_layers None
          end;
  let '(s, e) := range in
  Ok (s, e, (fun idx => if decide (s <= idx < e) then BuiltLayer (builder idx)
                        else PPMissingLayer) <$> py_range num_layers).

(** [re.search(r"layers\.(\d+)\.", name)], with the captured digits. *)
Definition layer_digits_here (name : pystr) : option pystr :=
  if startswith name (lit "layers.") then
    let rest := drop (length (lit "layers.")) name in
    let digits := span_digits rest in
    if decide (digits = []) then None
    else if startswith (drop (length digits) rest) (lit ".") then Some digits else None
  else None.

Fixpoint search_layer_digits (name : pystr) : option pystr :=
  match layer_digits_here name with
  | Some d => Some d
  | None => match name with [] => None | _ :: name => search_layer_digits name end
  end.

Definition pp_weight_belongs_to_stage (ctx : Dist.DistContext) (weight_name : pystr)
    (start_layer end_layer : Z) : result bool :=
  match search_layer_digits weight_name with
  | Some digits =>
      let idx := int_of_digits digits in
      Ok (bool_decide (start_layer <= idx < end_layer))
  | None =>
      if contains weight_name (lit "embed_tokens") then Dist.is_first_pp_stage ctx
      else if startswith weight_name (lit "model.norm.") then Dist.is_last_pp_stage ctx
      else if startswith weight_name (lit "model.hc_head.") then Dist.is_last_pp_stage ctx
      else if contains weight_name (lit "lm_head") then Dist.is_last_pp_stage ctx
      else Ok true
  end.

(** * Asynchronous point-to-point transfers *)

Section p2p.
Context {Tensor Work Exc : Type}.
(** [torch.distributed]: posting a transfer yields a work handle or raises, and
    waiting on a handle succeeds or raises. *)
Context (post : Tensor -> Exc + Work) (work_wait : Work -> option Exc).

(** [PendingP2P]: the outstanding work handles, the tensors kept alive for them,
    the error of a completed wait, and whether it completed. *)
Record PendingP2P := mk_pending {
  works : list Work;
  tensors : list Tensor;
  error : option Exc;
  complete : bool
}.

Definition pending_init (ws : list Work) (ts : list Tensor) : PendingP2P :=
  mk_pending ws ts None false.

(** The drain loop of [wait]: every handle is waited on; the first error is kept.
    The first component lists the handles waited on, in order. *)
Fixpoint drain (ws : list Work) (first_error : option Exc) : list Work * option Exc :=
  match ws with
  | [] => ([], first_error)
  | w :: ws =>
      let first_error := match work_wait w, first_error with
                         | Some e, None => Some e
                         | _, _ => first_error
                         end in
      let '(waited, err) := drain ws first_error in (w :: waited, err)
  end.

(** [PendingP2P.wait]: the handles waited on, the new state, and the exception
    raised, if any. *)
Definition pending_wait (p : PendingP2P) : list Work * PendingP2P * option Exc :=
  if complete p then ([], p, error p)
  else
    let '(waited, first_error) := drain (works p) None in
    (waited, mk_pending [] [] first_error true, first_error).

(** The exceptions of the two transfer functions: their own [ValueError]s, or what
    the transport raised. *)
Inductive p2p_exn :=
  | P2PValueError
  | P2PTransport (e : Exc).

(** The posting loop: the works posted so far and the exception, if one was raised. *)
Fixpoint post_all (ts : list Tensor) (posted : list Work) : list Work * option Exc :=
  match ts with
  | [] => (posted, None)
  | t :: ts => match post t with
               | inr w => post_all ts (posted ++ [w])
               | inl e => (posted, Some e)
               end
  end.

(** What a call did: the handles it posted, the handles it waited on, and its
    outcome. *)
Record p2p_run (A : Type) := mk_run {
  posted : list Work;
  waited : list Work;
  outcome : p2p_exn + A
}.
Arguments mk_run {A} _ _ _.
Arguments posted {A} _.
Arguments waited {A} _.
Arguments outcome {A} _.

(** The argument checks common to both functions.  [None] and an empty
    [profiler_names] both mean "no names". *)
Definition names_ok {N} (ts : list Tensor) (profiler_names : option (list N)) : bool :=
  match profiler_names with
  | None | Some [] => true
  | Some names => bool_decide (length names = length ts)
  end.

Definition pp_isend_tensors {N} (ts : list Tensor) (profiler_names : option (list N))
    : p2p_run PendingP2P :=
  if decide (ts = []) then mk_run [] [] (inl P2PValueError)
  else if negb (names_ok ts profiler_names) then mk_run [] [] (inl P2PValueError)
  else match post_all ts [] with
       | (ws, Some e) =>
           let '(waited, _, _) := pending_wait (pending_init ws ts) in
           mk_run ws waited (inl (P2PTransport e))
       | (ws, None) => mk_run ws [] (inr (pending_init ws ts))
       end.

Definition pp_irecv_tensors {N} (ts : list Tensor) (profiler_names : option (list N))
    : p2p_run unit :=
  if decide (ts = []) then mk_run [] [] (inl P2PValueError)
  else if negb (names_ok ts profiler_names) then mk_run [] [] (inl P2PValueError)
  else match post_all ts [] with
       | (ws, Some e) =>
           let '(waited, _, _) := pending_wait (pending_init ws ts) in
           mk_run ws waited (inl (P2PTransport e))
       | (ws, None) =>
           let '(waited, _, err) := pending_wait (pending_init ws ts) in
           mk_run ws waited (match err with Some e => inl (P2PTransport e) | None => inr tt end)
       end.

(** Every handle is drained, and the error reported is the first one in order. *)
Lemma drain_spec ws err :
  drain ws err = (ws, match err with Some e => Some e | None => head (omap work_wait ws) end).
Proof.
  revert err. induction ws as [|w ws IH]; intros err; simpl; [by destruct err|].
  rewrite IH. destruct (work_wait w), err; done.
Qed.

Lemma post_all_acc ts acc :
  post_all ts acc = (acc ++ fst (post_all ts []), snd (post_all ts [])).
Proof.
  revert acc. induction ts as [|t ts IH]; intros acc; simpl; [by rewrite app_nil_r|].
  destruct (post t) as [e|w]; simpl; [by rewrite app_nil_r|].
  rewrite (IH (acc ++ [w])), (IH [w]). simpl. by rewrite <- app_assoc.
Qed.
End p2p.
Arguments PendingP2P : clear implicits.
Arguments p2p_run : clear implicits.
Arguments posted {Work Exc A} _.
Arguments waited {Work Exc A} _.
Arguments outcome {Work Exc A} _.

(** * Stage ranges tile the layers *)

(** [tiles a b l]: the half-open ranges of [l] follow each other from [a] to [b]. *)
Inductive tiles : Z -> Z -> list (Z * Z) -> Prop :=
  | tiles_nil a : tiles a a []
  | tiles_cons a b c l : a <= b -> tiles b c l -> tiles a c ((a, b) :: l).

Create HintDb pp.
#[export] Hint Constructors tiles : pp.

Lemma tiles_le a b l : tiles a b l -> a <= b.
Proof. induction 1; lia. Qed.

Lemma tiles_app a b c l1 l2 : tiles a b l1 -> tiles b c l2 -> tiles a c (l1 ++ l2).
Proof. induction 1; simpl; eauto with pp. Qed.

Lemma tiles_bounds a b l s e : tiles a b l -> (s, e) ∈ l -> a <= s <= e /\ e <= b.
Proof.
  induction 1 as [a|a b c l Hab Ht IH]; [by intros ?%not_elem_of_nil|].
  pose proof (tiles_le _ _ _ Ht). intros [[= -> ->]|Hin]%elem_of_cons; [lia|].
  apply IH in Hin. lia.
Qed.

(** The first layer of stage [k] in closed form. *)
Definition stage_start (base remainder k : Z) : Z := k * base + Z.min k remainder.

Lemma stage_start_succ base r k :
  stage_start base r k + (base + (if decide (k < r) then 1 else 0)) = stage_start base r (k + 1).
Proof. unfold stage_start. case_decide; lia. Qed.

Lemma split_loop_tiles base r n k :
  0 <= base -> 0 <= k ->
  tiles (stage_start base r k) (stage_start base r (k + Z.of_nat n))
        (split_loop base r (stage_start base r k) (seqZ k (Z.of_nat n))).
Proof.
  intros Hb. revert k. induction n as [|n IH]; intros k Hk.
  - rewrite Z.add_0_r. constructor.
  - rewrite seqZ_cons by lia. simpl.
    rewrite stage_start_succ.
    constructor; [unfold stage_start; nia|].
    replace (Z.pred (Z.of_nat (S n))) with (Z.of_nat n) by lia.
    replace (Z.succ k) with (k + 1) by lia.
    replace (k + Z.of_nat (S n)) with (k + 1 + Z.of_nat n) by lia. apply IH. lia.
Qed.

Lemma split_loop_lookup base r n k i :
  (i < n)%nat ->
  split_loop base r (stage_start base r k) (seqZ k (Z.of_nat n)) !! i =
  Some (stage_start base r (k + Z.of_nat i), stage_start base r (k + Z.of_nat i + 1)).
Proof.
  revert k i. induction n as [|n IH]; intros k i Hi; [lia|].
  rewrite seqZ_cons by lia. simpl. rewrite stage_start_succ.
  destruct i as [|i]; simpl; [by rewrite Z.add_0_r|].
  replace (Z.pred (Z.of_nat (S n))) with (Z.of_nat n) by lia.
  replace (Z.succ k) with (k + 1) by lia. rewrite IH by lia. do 3 f_equal; lia.
Qed.

Lemma split_loop_length base r start stages :
  length (split_loop base r start stages) = length stages.
Proof. revert start. induction stages; simpl; auto. Qed.

Lemma stage_start_0 base r : 0 <= r -> stage_start base r 0 = 0.
Proof. unfold stage_start. lia. Qed.

Lemma stage_start_end n p : 0 < p -> stage_start (n / p) (n `mod` p) p = n.
Proof.
  intros Hp. pose proof (Z.div_mod n p). pose proof (Z.mod_pos_bound n p).
  unfold stage_start. lia.
Qed.

Lemma even_split_tiles n p :
  0 <= n -> 0 < p -> tiles 0 n (split_loop (n / p) (n `mod` p) 0 (py_range p)).
Proof.
  intros Hn Hp. pose proof (Z.mod_pos_bound n p).
  pose proof (split_loop_tiles (n / p) (n `mod` p) (Z.to_nat p) 0) as Ht.
  rewrite Z2Nat.id, Z.add_0_l, stage_start_0, stage_start_end in Ht by lia.
  apply Ht; [|lia]. apply Z.div_pos; lia.
Qed.

Lemma pp_layer_partition_spec n p f l :
  0 <= n -> pp_layer_partition n p f = Ok l ->
  tiles 0 n l /\ zlen l = Z.max 1 p.
Proof.
  unfold pp_layer_partition, zlen. intros Hn. case_decide as Hp.
  { intros [= <-]. rewrite Hp. split; [|done]. eauto with pp. }
  destruct f as [f|].
  - case_decide as Hf; [done|]. case_decide; [done|]. intros [= <-].
    rewrite length_app, split_loop_length. unfold py_range. rewrite length_seqZ. simpl. split; [|lia].
    apply tiles_app with f; [apply even_split_tiles; lia|]. constructor; [lia|constructor].
  - intros [= <-]. rewrite split_loop_length. unfold py_range. rewrite length_seqZ. split; [|lia].
    apply even_split_tiles; lia.
Qed.

(** * Which stage owns a layer *)

Lemma stage_search_sound x k l st :
  stage_search x k l = Ok st ->
  exists s e, k <= st /\ l !! Z.to_nat (st - k) = Some (s, e) /\ s <= x < e.
Proof.
  revert k. induction l as [|[s e] l IH]; intros k; simpl; [done|].
  case_decide as Hx.
  - intros [= <-]. exists s, e. rewrite Z.sub_diag. auto with lia.
  - intros (s' & e' & Hk & Hl & Hx')%IH. exists s', e'. split; [lia|].
    replace (Z.to_nat (st - k)) with (S (Z.to_nat (st - (k + 1)))) by lia. auto.
Qed.

Lemma stage_search_tiles x k a b l :
  tiles a b l -> a <= x < b -> exists st, stage_search x k l = Ok st /\ k <= st < k + zlen l.
Proof.
  intros Ht. revert k. induction Ht as [a|a b c l Hab Ht IH]; intros k Hx; [lia|]. simpl.
  unfold zlen in *. simpl. case_decide as Hd; [exists k; split; [done|lia]|].
  destruct (IH (k + 1)) as (st & Hst & Hk); [lia|]. exists st. split; [done|lia].
Qed.

Lemma stage_search_outside x k l :
  Forall (fun r => ~ (fst r <= x < snd r)) l -> stage_search x k l = Err ValueError.
Proof.
  revert k. induction l as [|[s e] l IH]; intros k; simpl; [done|].
  intros [Hh Ht]%Forall_cons. simpl in Hh. rewrite decide_False by done. auto.
Qed.

(** Ranges that tile are disjoint: a layer lies in at most one of them. *)
Lemma tiles_disjoint a b l i j r1 r2 x :
  tiles a b l -> l !! i = Some r1 -> l !! j = Some r2 ->
  fst r1 <= x < snd r1 -> fst r2 <= x < snd r2 -> i = j.
Proof.
  intros Ht. revert i j. induction Ht as [a|a b c l Hab Ht IH]; intros i j; [done|].
  assert (forall n r, l !! n = Some r -> b <= fst r) as Hge.
  { intros n [s e] Hn%list_elem_of_lookup_2. apply (tiles_bounds _ _ _ _ _ Ht) in Hn. simpl. lia. }
  destruct i as [|i], j as [|j]; simpl; intros H1 H2 X1 X2; simplify_eq/=.
  - done.
  - specialize (Hge _ _ H2). lia.
  - specialize (Hge _ _ H1). lia.
  - f_equal. eauto.
Qed.

Lemma tiles_stage_total a b l x :
  tiles a b l -> a <= x < b ->
  exists st s e, pp_stage_of_layer x l = Ok st /\ 0 <= st < zlen l /\
                 l !! Z.to_nat st = Some (s, e) /\ s <= x < e.
Proof.
  intros Ht Hx. destruct (stage_search_tiles x 0 _ _ _ Ht Hx) as (st & Hst & Hb).
  destruct (stage_search_sound _ _ _ _ Hst) as (s & e & _ & Hl & Hse).
  rewrite Z.sub_0_r in Hl. exists st, s, e. auto with lia.
Qed.

(** Folding a list of owned layers into an accumulator appends to each stage
    exactly the layers of its range, in order. *)
Lemma partition_fold a b ranges l acc :
  tiles a b ranges -> Forall (fun x => a <= x < b) l -> length acc = length ranges ->
  exists res,
    foldM_r (fun res layer_idx =>
               s ← pp_stage_of_layer layer_idx ranges;
               Ok (append_at s layer_idx res)) acc l = Ok res /\
    length res = length ranges /\
    forall i s e xs, ranges !! i = Some (s, e) -> acc !! i = Some xs ->
      res !! i = Some (xs ++ filter (fun x => s <= x < e) l).
Proof.
  intros Ht. revert acc. induction l as [|x l IH]; intros acc Hl Hlen.
  { exists acc. split_and!; [done|done|]. intros i s e xs _ ->. by rewrite filter_nil, app_nil_r. }
  apply Forall_cons in Hl as [Hx Hl].
  destruct (tiles_stage_total _ _ _ _ Ht Hx) as (st & s0 & e0 & Hst & Hb & Hr & Hse).
  destruct (IH (append_at st x acc)) as (res & Hres & Hlr & Hall).
  { done. } { unfold append_at. by rewrite length_alter. }
  exists res. split_and!; [|done|].
  { simpl. rewrite Hst. simpl. done. }
  intros i s e xs Hi Hxs. rewrite filter_cons. case_decide as Hin.
  - assert (i = Z.to_nat st) as -> by (eapply tiles_disjoint; eauto).
    erewrite (Hall _ s e (xs ++ [x])); eauto.
    { by rewrite <- app_assoc. }
    unfold append_at. rewrite list_lookup_alter_eq. by rewrite Hxs.
  - assert (i <> Z.to_nat st) as Hne by (intros ->; simplify_eq; lia).
    apply (Hall _ _ _ _ Hi). unfold append_at. by rewrite list_lookup_alter_ne.
Qed.

Lemma partition_layer_indices_spec a b ranges l :
  tiles a b ranges -> Forall (fun x => a <= x < b) l ->
  exists res, partition_layer_indices l ranges = Ok res /\ length res = length ranges /\
    forall i s e, ranges !! i = Some (s, e) -> res !! i = Some (filter (fun x => s <= x < e) l).
Proof.
  intros Ht Hl.
  destruct (partition_fold _ _ _ _ ((fun _ => []) <$> ranges) Ht Hl) as (res & Hres & Hlen & Hall).
  { apply length_fmap. }
  exists res. split_and!; [done|done|]. intros i s e Hi.
  rewrite (Hall i s e [] Hi); [done|]. by rewrite list_lookup_fmap, Hi.
Qed.

(** Distributing a list over tiling ranges only permutes it. *)
Lemma concat_filter_tiles a b ranges l :
  tiles a b ranges ->
  concat ((fun r => filter (fun x => fst r <= x < snd r) l) <$> ranges)
    ≡ₚ filter (fun x => a <= x < b) l.
Proof.
  induction 1 as [a|a b c ranges Hab Ht IH]; simpl.
  - rewrite filter_none; [done|]. apply Forall_forall; intros; lia.
  - rewrite IH. apply tiles_le in Ht. apply filter_disjoint_app; intros; lia.
Qed.

(** * Ranks *)

Lemma pp_global_rank_Ok p d s t D S T r :
  pp_global_rank p d s t D S T = Ok r <->
  0 <= p /\ 0 <= d < D /\ 0 <= s < S /\ 0 <= t < T /\
  r = p * (D * S * T) + ((d * S + s) * T + t).
Proof.
  unfold pp_global_rank. case_decide as H.
  - split; [done|]. intros (? & ? & ? & ? & ?). exfalso. destruct H as [?|H]; [lia|].
    rewrite !Exists_cons, Exists_nil in H. simpl in H. lia.
  - rewrite !Exists_cons, Exists_nil in H. simpl in H. split.
    + intros [= <-]. split_and!; lia.
    + intros (? & ? & ? & ? & ->). done.
Qed.

Lemma inner_rank_bounds d s t D S T :
  0 <= d < D -> 0 <= s < S -> 0 <= t < T -> 0 <= (d * S + s) * T + t < D * S * T.
Proof. intros. assert (0 <= d * S + s <= D * S - 1) by nia. nia. Qed.

(** The mesh coordinate a global rank came from. *)
Lemma mesh_decode p d s t D S T :
  0 <= p -> 0 <= d < D -> 0 <= s < S -> 0 <= t < T ->
  let r := p * (D * S * T) + ((d * S + s) * T + t) in
  r / (D * S * T) = p /\ (r / (S * T)) `mod` D = d /\ (r / T) `mod` S = s /\ r `mod` T = t.
Proof.
  intros Hp Hd Hs Ht r. pose proof (inner_rank_bounds _ _ _ _ _ _ Hd Hs Ht) as Hi. subst r.
  split_and!.
  - symmetry. apply Z.div_unique_pos with ((d * S + s) * T + t); [done|ring].
  - replace ((p * (D * S * T) + ((d * S + s) * T + t)) / (S * T)) with (p * D + d).
    + symmetry. apply Z.mod_unique_pos with p; [lia|ring].
    + apply Z.div_unique_pos with (s * T + t); [nia|ring].
  - replace ((p * (D * S * T) + ((d * S + s) * T + t)) / T) with ((p * D + d) * S + s).
    + symmetry. apply Z.mod_unique_pos with (p * D + d); [lia|ring].
    + apply Z.div_unique_pos with t; [lia|ring].
  - symmetry. apply Z.mod_unique_pos with ((p * D + d) * S + s); [lia|ring].
Qed.

(** * Properties *)

(** Whenever [pp_layer_partition] succeeds it returns one range per stage, the
    ranges follow each other from layer 0 to [num_layers] without gap or overlap,
    and [pp_stage_of_layer] finds for every layer the one stage whose range holds
    it. *)
Theorem pp_layer_partition_owns_every_layer num_layers pp_size f ranges :
  0 <= num_layers -> pp_layer_partition num_layers pp_size f = Ok ranges ->
  zlen ranges = Z.max 1 pp_size /\ tiles 0 num_layers ranges /\
  forall layer, 0 <= layer < num_layers ->
    exists st s e, pp_stage_of_layer layer ranges = Ok st /\
      ranges !! Z.to_nat st = Some (s, e) /\ s <= layer < e /\
      forall i r, ranges !! i = Some r -> fst r <= layer < snd r -> i = Z.to_nat st.
Proof.
  intros Hn Hp. destruct (pp_layer_partition_spec _ _ _ _ Hn Hp) as [Ht Hl].
  split_and!; [done|done|]. intros x Hx.
  destruct (tiles_stage_total _ _ _ _ Ht Hx) as (st & s & e & Hst & _ & Hr & Hse).
  exists st, s, e. split_and!; [done|done|lia|lia|]. intros i r Hi Hri.
  by eapply tiles_disjoint.
Qed.

Lemma pp_layer_partition_owns_every_layer_witness :
  zlen [(0, 3); (3, 5); (5, 7)] = 3 /\ tiles 0 7 [(0, 3); (3, 5); (5, 7)].
Proof.
  destruct (pp_layer_partition_owns_every_layer 7 3 None [(0, 3); (3, 5); (5, 7)])
    as (H1 & H2 & _); [lia | reflexivity | split; assumption].
Defined.

(** The split is even: with no reserved suffix, stage [i] of [pp_size > 1] stages
    gets [num_layers // pp_size] layers, and one more exactly when [i] is below the
    remainder. *)
Theorem pp_layer_partition_balanced num_layers pp_size ranges i s e :
  1 < pp_size -> pp_layer_partition num_layers pp_size None = Ok ranges ->
  ranges !! i = Some (s, e) ->
  e - s = num_layers / pp_size + (if decide (Z.of_nat i < num_layers `mod` pp_size) then 1 else 0).
Proof.
  intros Hp. unfold pp_layer_partition. rewrite Z.max_r, decide_False by lia.
  intros [= <-] Hi. pose proof (Z.mod_pos_bound num_layers pp_size).
  pose proof (lookup_lt_Some _ _ _ Hi) as Hlt.
  rewrite split_loop_length in Hlt. unfold py_range in *. rewrite length_seqZ in Hlt.
  rewrite <- (Z2Nat.id pp_size) in Hi at 3 by lia.
  rewrite <- (stage_start_0 (num_layers / pp_size) (num_layers `mod` pp_size)) in Hi at 1 by lia.
  rewrite split_loop_lookup in Hi by done. injection Hi as <- <-.
  rewrite Z.add_0_l, <- stage_start_succ. lia.
Qed.

Lemma pp_layer_partition_balanced_witness :
  1 < 3 /\ 3 - 0 = 7 / 3 + (if decide (Z.of_nat 0 < 7 `mod` 3) then 1 else 0).
Proof.
  split; [lia|].
  apply (pp_layer_partition_balanced 7 3 [(0, 3); (3, 5); (5, 7)] 0 0 3);
    [lia | reflexivity | reflexivity].
Defined.

(** [pp_layer_partition] raises exactly when a suffix is reserved on more than one
    stage and the reserved start is not strictly inside the layers, or leaves fewer
    prefix layers than stages to put them on. *)
Theorem pp_layer_partition_raises num_layers pp_size f e :
  pp_layer_partition num_layers pp_size f = Err e <->
  e = ValueError /\ 1 < pp_size /\
  exists x, f = Some x /\ (~ (0 < x < num_layers) \/ x < pp_size - 1).
Proof.
  unfold pp_layer_partition. case_decide as Hp.
  { split; [done|]. intros (_ & ? & _). lia. }
  destruct f as [x|].
  - case_decide; [|case_decide].
    + split; [intros [= <-]|by intros (-> & _)]. split_and!; [done|lia|]. exists x. split; [done|]. lia.
    + split; [intros [= <-]|by intros (-> & _)]. split_and!; [done|lia|]. exists x. split; [done|]. lia.
    + split; [done|]. intros (_ & _ & x' & [= <-] & Hx). lia.
  - split; [done|]. intros (_ & _ & x & ? & _). done.
Qed.

(** Partitioning global layer indices over the stages of a tiling never raises for
    layers inside it, gives each stage exactly the indices of its own range in their
    original order, and loses or duplicates none. *)
Theorem partition_layer_indices_correct n ranges layers :
  tiles 0 n ranges -> Forall (fun x => 0 <= x < n) layers ->
  exists res, partition_layer_indices layers ranges = Ok res /\
    length res = length ranges /\
    (forall i s e, ranges !! i = Some (s, e) ->
       res !! i = Some (filter (fun x => s <= x < e) layers)) /\
    concat res ≡ₚ layers.
Proof.
  intros Ht Hl. destruct (partition_layer_indices_spec _ _ _ _ Ht Hl) as (res & Hres & Hlen & Hall).
  exists res. split_and!; [done|done|done|].
  assert (res = (fun r => filter (fun x => fst r <= x < snd r) layers) <$> ranges) as ->.
  { apply list_eq_same_length with (length ranges); rewrite ?length_fmap; [done|done|].
    intros i x y Hi Hx. rewrite list_lookup_fmap. destruct (ranges !! i) as [[s e]|] eqn:E; [|done].
    rewrite (Hall _ _ _ E) in Hx. simpl. naive_solver. }
  rewrite (concat_filter_tiles _ _ _ _ Ht). by rewrite filter_all.
Qed.

Lemma partition_layer_indices_correct_witness :
  tiles 0 4 [(0, 2); (2, 4)] /\
  exists res, partition_layer_indices [3; 0; 1] [(0, 2); (2, 4)] = Ok res /\
              concat res ≡ₚ [3; 0; 1].
Proof.
  assert (tiles 0 4 [(0, 2); (2, 4)]) as Ht by (repeat constructor; lia).
  split; [exact Ht|].
  destruct (partition_layer_indices_correct 4 [(0, 2); (2, 4)] [3; 0; 1]) as (res & H1 & _ & _ & H2);
    [exact Ht | repeat constructor; lia | exists res; split; assumption].
Defined.

Lemma last_of_type_bound types t i :
  last_of_type types t = Some i -> 0 <= i < zlen types /\ types !! Z.to_nat i = Some t.
Proof.
  unfold last_of_type, indices_of_type. intros Hl%last_Some_elem_of.
  apply list_elem_of_fmap in Hl as ([j u] & -> & [Hu Hj]%list_elem_of_filter). simpl in *. subst.
  apply elem_of_enumerate in Hj as [Hj0 Hj]. apply lookup_lt_Some in Hj as Hlt.
  unfold zlen. auto with lia.
Qed.

Lemma gemma4_source_start_spec config n sh types f :
  num_hidden_layers config = Some n -> num_kv_shared_layers config = Some sh ->
  layer_types config = Some types ->
  0 < sh <= n -> zlen types = n ->
  get_gemma4_shared_kv_source_start config = Ok (Some f) ->
  0 <= f < n - sh /\
  forall i t, n - sh <= i < n -> types !! Z.to_nat i = Some t ->
    exists src, last_of_type (take (Z.to_nat (n - sh)) types) t = Some src /\ f <= src < n - sh.
Proof.
  intros Hn Hs Ht Hsh Hlen. unfold get_gemma4_shared_kv_source_start, num_layers_of.
  rewrite Hn, Hs, Ht, int_or_nonzero by lia. simpl. rewrite decide_False by lia.
  unfold py_from, py_upto, slice_pos. rewrite Hlen, decide_False, Z.min_l by lia.
  set (k := Z.to_nat (n - sh)).
  destruct (mapM_r _ _) as [idxs|] eqn:Em; [|done]. simpl.
  destruct (py_min idxs) as [m|] eqn:Emin; [|done]. simpl. intros [= <-].
  apply py_min_spec in Emin as [Hin Hle]. apply mapM_r_Ok in Em.
  assert (forall i, i ∈ idxs -> 0 <= i < n - sh) as Hb.
  { intros i (j & Hj)%list_elem_of_lookup. eapply Forall2_lookup_r in Em as (t & _ & Hsrc); [|done].
    apply of_option_Ok, last_of_type_bound in Hsrc as [Hb _]. revert Hb.
    unfold zlen in *. rewrite length_take. subst k. lia. }
  split; [by apply Hb|]. intros i t Hi Hti.
  assert (t ∈ remove_dups (drop k types)) as (j & Hj)%list_elem_of_lookup.
  { apply elem_of_remove_dups, list_elem_of_lookup. exists (Z.to_nat i - k)%nat.
    rewrite lookup_drop, <- Hti. f_equal. subst k. lia. }
  eapply Forall2_lookup_l in Em as (src & Hsrc & Hl); [|done].
  apply of_option_Ok in Hl. exists src. split; [done|].
  apply list_elem_of_lookup_2 in Hsrc. rewrite Forall_forall in Hle.
  specialize (Hle _ Hsrc). specialize (Hb _ Hsrc). lia.
Qed.

(** Gemma4's shared-KV layers and the layers whose KV they reuse live on one stage:
    when the split reserves the suffix computed by
    [get_gemma4_shared_kv_source_start], every shared layer and its source (the last
    earlier non-shared layer of the same type) are owned by the last stage. *)
Theorem gemma4_shared_layers_with_source config n sh types pp_size f ranges i t :
  num_hidden_layers config = Some n -> num_kv_shared_layers config = Some sh ->
  layer_types config = Some types -> 0 < sh <= n -> zlen types = n ->
  1 < pp_size ->
  get_gemma4_shared_kv_source_start config = Ok (Some f) ->
  pp_layer_partition n pp_size (Some f) = Ok ranges ->
  n - sh <= i < n -> types !! Z.to_nat i = Some t ->
  exists src, last_of_type (take (Z.to_nat (n - sh)) types) t = Some src /\
    pp_stage_of_layer i ranges = Ok (pp_size - 1) /\
    pp_stage_of_layer src ranges = Ok (pp_size - 1).
Proof.
  intros Hn Hs Ht Hsh Hlen Hpp Hf Hp Hi Hti.
  destruct (gemma4_source_start_spec _ _ _ _ _ Hn Hs Ht Hsh Hlen Hf) as [Hfb Hsrc].
  destruct (Hsrc _ _ Hi Hti) as (src & Hl & Hb). exists src. split; [done|].
  destruct (pp_layer_partition_spec n pp_size (Some f) ranges) as [Htl Hln]; [lia|done|].
  assert (ranges !! Z.to_nat (pp_size - 1) = Some (f, n)) as Hlast.
  { revert Hp. unfold pp_layer_partition. rewrite decide_False by lia.
    repeat case_decide; try done. intros [= <-]. apply list_lookup_middle.
    rewrite split_loop_length. unfold py_range. rewrite length_seqZ. lia. }
  assert (forall x, f <= x < n -> pp_stage_of_layer x ranges = Ok (pp_size - 1)) as Hst.
  { intros x Hx. destruct (tiles_stage_total _ _ _ x Htl) as (st & s & e & -> & Hst & Hr & Hse); [lia|].
    f_equal. assert (Z.to_nat st = Z.to_nat (pp_size - 1)); [|lia].
    eapply tiles_disjoint; eauto. }
  split; apply Hst; lia.
Qed.

(** A Gemma4-shaped config: six layers, the last two sharing KV. *)
Definition gemma4_example : HfConfig :=
  mk_hf (Some ["Gemma4ForCausalLM"]) (Some 6)
        (Some ["sliding_attention"; "full_attention"; "sliding_attention"; "full_attention";
               "sliding_attention"; "full_attention"])
        (Some 2) None None None None None None None None None None None None None false None ∅.

Lemma gemma4_shared_layers_with_source_witness :
  exists src, src = 3 /\ pp_stage_of_layer 5 [(0, 1); (1, 2); (2, 6)] = Ok (3 - 1) /\
              pp_stage_of_layer src [(0, 1); (1, 2); (2, 6)] = Ok (3 - 1).
Proof.
  destruct (gemma4_shared_layers_with_source gemma4_example 6 2
              (list_attr (layer_types gemma4_example)) 3 2 [(0, 1); (1, 2); (2, 6)] 5
              "full_attention") as (src & H1 & H2 & H3);
    [reflexivity | reflexivity | reflexivity | lia | reflexivity | lia | vm_compute; reflexivity
    | vm_compute; reflexivity | lia | reflexivity |].
  exists src. split; [|split; assumption]. vm_compute in H1. congruence.
Defined.

(** Rank arithmetic is consistent across the engine: on a validated context whose rank is
    the [pp_global_rank] of a mesh coordinate, [pp_rank] recovers the stage, the
    coordinate can be read back from the rank, and the previous and next ranks are
    those of the same inner coordinate on the neighbouring stages. *)
Theorem pp_rank_roundtrip ctx p d s t :
  Dist.validate_parallelism ctx = Ok tt ->
  pp_global_rank p d s t (Dist.attention_dp ctx) (Dist.attention_sp ctx) (Dist.attention_tp ctx)
    = Ok (Dist.rank ctx) ->
  let D := Dist.attention_dp ctx in
  let S := Dist.attention_sp ctx in
  let T := Dist.attention_tp ctx in
  Dist.pp_rank ctx = Ok p /\
  (Dist.rank ctx / (S * T)) `mod` D = d /\
  (Dist.rank ctx / T) `mod` S = s /\ Dist.rank ctx `mod` T = t /\
  pp_global_rank (p + 1) d s t D S T = Ok (Dist.pp_next_global_rank ctx) /\
  (0 < p -> pp_global_rank (p - 1) d s t D S T = Ok (Dist.pp_prev_global_rank ctx)) /\
  (p < Dist.pp_world_size ctx -> 0 <= Dist.rank ctx < Dist.world_size ctx).
Proof.
  intros Hv Hr D S T. revert Hv. unfold Dist.validate_parallelism.
  case_decide as Ha; [done|]. case_decide; [done|]. intros _.
  apply pp_global_rank_Ok in Hr as (Hp & Hd & Hs & Ht & Hr).
  pose proof (inner_rank_bounds _ _ _ _ _ _ Hd Hs Ht) as Hb. fold D S T in Hd, Hs, Ht, Hr, Hb, Ha.
  assert (Dist.pp_inner_world_size ctx = D * S * T) as Hin.
  { unfold Dist.pp_inner_world_size, Dist.pp_world_size. rewrite <- Ha.
    symmetry. apply Z.div_unique_exact; [lia|ring]. }
  destruct (mesh_decode p d s t D S T Hp Hd Hs Ht) as (H1 & H2 & H3 & H4).
  rewrite <- Hr in H1, H2, H3, H4.
  unfold Dist.pp_rank, Dist.pp_next_global_rank, Dist.pp_prev_global_rank, Dist.pp_world_size,
    py_floordiv. rewrite Hin, decide_False by lia. rewrite !pp_global_rank_Ok.
  split_and!; try done; try lia.
  - by rewrite H1.
  - intros Hw. split; [nia|]. rewrite <- Ha. nia.
Qed.

Lemma pp_rank_roundtrip_witness :
  let ctx := Dist.mk_ctx 13 16 2 2 2 1 8 1 2 in
  Dist.pp_rank ctx = Ok 1 /\ pp_global_rank 1 1 0 1 2 2 2 = Ok 13.
Proof.
  split; [|reflexivity].
  apply (pp_rank_roundtrip (Dist.mk_ctx 13 16 2 2 2 1 8 1 2) 1 1 0 1); reflexivity.
Defined.

(** Decoder-layer weights are loaded exactly once: if the layer number in a checkpoint
    weight's name is a layer of the model, then exactly one stage of the partition
    claims the weight, whatever rank asks. *)
Theorem layer_weight_loaded_once num_layers pp_size f ranges name digits :
  0 <= num_layers -> pp_layer_partition num_layers pp_size f = Ok ranges ->
  search_layer_digits name = Some digits -> 0 <= int_of_digits digits < num_layers ->
  exists st, (st < length ranges)%nat /\
    forall i ctx s e, ranges !! i = Some (s, e) ->
      pp_weight_belongs_to_stage ctx name s e = Ok (bool_decide (i = st)).
Proof.
  intros Hn Hp Hd Hx. destruct (pp_layer_partition_spec _ _ _ _ Hn Hp) as [Ht _].
  destruct (tiles_stage_total _ _ _ _ Ht Hx) as (st & s0 & e0 & _ & _ & Hr & Hse).
  exists (Z.to_nat st). split; [by eapply lookup_lt_Some|]. intros i ctx s e Hi.
  unfold pp_weight_belongs_to_stage. rewrite Hd. f_equal. apply bool_decide_ext. split.
  - intros. eapply tiles_disjoint; eauto.
  - intros ->. simplify_eq. done.
Qed.

Lemma layer_weight_loaded_once_witness :
  exists st, (st < 2)%nat /\
    forall i ctx s e, [(0, 2); (2, 4)] !! i = Some (s, e) ->
      pp_weight_belongs_to_stage ctx (lit "model.layers.3.mlp.up_proj.weight") s e
      = Ok (bool_decide (i = st)).
Proof.
  apply (layer_weight_loaded_once 4 2 None [(0, 2); (2, 4)]
           (lit "model.layers.3.mlp.up_proj.weight") (lit "3"));
    [lia | reflexivity | vm_compute; reflexivity | vm_compute; split; congruence].
Defined.

(** Posting transfers never leaks a work handle: when posting fails, every handle posted
    before is waited on before the transport's error is raised, and a completed
    receive has waited on all of its handles and reports the first error in posting
    order; waiting again repeats that error without waiting on anything. *)
Theorem p2p_drains_posted_work {Tensor Work Exc N} (post : Tensor -> Exc + Work)
    (work_wait : Work -> option Exc) (ts : list Tensor) (names : option (list N)) :
  let snd_run := pp_isend_tensors post work_wait ts names in
  let rcv_run := pp_irecv_tensors post work_wait ts names in
  (forall e, outcome snd_run = inl e -> waited snd_run = posted snd_run) /\
  waited rcv_run = posted rcv_run /\
  (outcome rcv_run = inr tt -> Forall (fun w => work_wait w = None) (posted rcv_run)) /\
  (forall p, outcome snd_run = inr p ->
     let '(w1, p1, r1) := pending_wait work_wait p in
     w1 = posted snd_run /\ r1 = head (omap work_wait w1) /\
     pending_wait work_wait p1 = ([], p1, r1)).
Proof.
  simpl. unfold pp_isend_tensors, pp_irecv_tensors.
  destruct (decide (ts = [])); [done|]. destruct (names_ok ts names); simpl; [|done].
  destruct (post_all post ts []) as [ws [e|]] eqn:E; unfold pending_wait; simpl;
    rewrite !drain_spec; simpl; [done|].
  split_and!; [done|done| |].
  - destruct (head (omap work_wait ws)) eqn:Eh; [done|]. intros _.
    apply Forall_forall. intros w Hw. destruct (work_wait w) eqn:Ew; [|done].
    assert (e ∈ omap work_wait ws) as Hin by (apply list_elem_of_omap; eauto).
    destruct (omap work_wait ws); [by apply not_elem_of_nil in Hin|done].
  - intros p [= <-]. simpl. by rewrite drain_spec.
Qed.
