(* ===== verification/TensorParallel.v ===== *)
(** Tensor-parallel layers: the linear layers of
    [dlengine/runtime/layers/backends/linear/generic.py] (weight loaders and forwards), the
    vocabulary-parallel embedding and language-model head with their all-reduce
    ([layers/embed_head.py]), and the change of layout between attention and expert ranks
    ([layers/parallelism_transition.py]).

    Tensors are vectors and matrices (lists of rows; a matrix without rows counts as having
    no columns).  Numbers are elements of a type [R] with exact addition and multiplication
    ([Arith]); rounding of floating point is not modelled.  A layer that communicates is a
    function on the layers of all ranks of its group, in rank order. *)

From S2P Require Import Prelude.

Open Scope nat_scope.

(** * Numbers *)

(** What the sharded layers need of arithmetic: a commutative monoid, and multiplication of
    a mask. *)
Class Arith (R : Type) := {
  r0 : R;
  r1 : R;
  radd : R -> R -> R;
  rmul : R -> R -> R;
  radd_assoc :: Assoc (=) radd;
  radd_comm :: Comm (=) radd;
  radd_0_l :: LeftId (=) r0 radd;
  rmul_0_l :: LeftAbsorb (=) r0 rmul;
  rmul_1_l :: LeftId (=) r1 rmul
}.

#[export] Instance Z_arith : Arith Z.
Proof. refine {| r0 := 0%Z; r1 := 1%Z; radd := Z.add; rmul := Z.mul |}; intro; intros; lia. Defined.

(** * Slices of a list *)

(** [l\[start : start + n\]] *)
Definition lslice {A} (start n : nat) (l : list A) : list A := take n (drop start l).

(** [l\[start : start + len(new)\] = new] *)
Definition set_slice {A} (start : nat) (new l : list A) : list A :=
  take start l ++ new ++ drop (start + length new) l.

Section slices.
Context {A : Type}.
Implicit Types l new : list A.

Lemma length_slice s n l : s + n <= length l -> length (lslice s n l) = n.
Proof. intros. unfold lslice. rewrite length_take, length_drop. lia. Qed.

Lemma lookup_slice s n l i : lslice s n l !! i = if decide (i < n) then l !! (s + i) else None.
Proof.
  unfold lslice. destruct (decide (i < n)).
  - by rewrite lookup_take_lt, lookup_drop by lia.
  - by rewrite lookup_take_ge by lia.
Qed.

Lemma slice_slice s n s' n' l : s' + n' <= n -> lslice s' n' (lslice s n l) = lslice (s + s') n' l.
Proof.
  intros. apply list_eq. intros i. rewrite !lookup_slice. case_decide; [|done].
  rewrite decide_True by lia. f_equal. lia.
Qed.

Lemma slice_all l : lslice 0 (length l) l = l.
Proof. unfold lslice. rewrite drop_0. by rewrite take_ge. Qed.

Lemma slice_app_l s n l1 l2 : s + n <= length l1 -> lslice s n (l1 ++ l2) = lslice s n l1.
Proof. intros. apply list_eq. intros i. rewrite !lookup_slice. case_decide; [|done]. rewrite lookup_app_l by lia. done. Qed.

Lemma slice_app_r s n l1 l2 : length l1 <= s -> lslice s n (l1 ++ l2) = lslice (s - length l1) n l2.
Proof.
  intros. apply list_eq. intros i. rewrite !lookup_slice. case_decide; [|done].
  rewrite lookup_app_r by lia. f_equal. lia.
Qed.

Lemma slice_plus s n m l : lslice s (n + m) l = lslice s n l ++ lslice (s + n) m l.
Proof. unfold lslice. rewrite <- drop_drop. symmetry. apply take_take_drop. Qed.

Lemma length_set_slice s new l : s + length new <= length l -> length (set_slice s new l) = length l.
Proof. intros. unfold set_slice. rewrite !length_app, length_take, length_drop. lia. Qed.

Lemma slice_set_slice s new l : s <= length l -> lslice s (length new) (set_slice s new l) = new.
Proof.
  intros. unfold lslice, set_slice. rewrite drop_app_length' by (rewrite length_take; lia).
  by rewrite take_app_length.
Qed.

Lemma slice_set_slice_disjoint s new l s' n :
  s + length new <= length l -> (s' + n <= s \/ s + length new <= s') ->
  lslice s' n (set_slice s new l) = lslice s' n l.
Proof.
  intros Hs Hd. apply list_eq. intros i. rewrite !lookup_slice. case_decide; [|done]. unfold set_slice.
  destruct Hd.
  - rewrite lookup_app_l by (rewrite length_take; lia). by rewrite lookup_take_lt by lia.
  - rewrite lookup_app_r by (rewrite length_take; lia). rewrite lookup_app_r by (rewrite length_take; lia).
    rewrite lookup_drop, length_take. f_equal. lia.
Qed.

(** The [n] consecutive slices of [s] elements are the list. *)
Lemma concat_slices n s l : length l = n * s -> concat ((fun r => lslice (r * s) s l) <$> seq 0 n) = l.
Proof.
  intros Hl. transitivity (lslice 0 (n * s) l); [|by rewrite <- Hl, slice_all]. clear Hl.
  induction n as [|n IH]; [done|].
  rewrite seq_S, fmap_app, concat_app, IH. cbn -[lslice Nat.mul]. rewrite app_nil_r.
  replace (S n * s) with (n * s + s) by lia. by rewrite slice_plus.
Qed.
End slices.

Lemma slice_fmap {A B} (f : A -> B) s n (l : list A) : lslice s n (f <$> l) = f <$> lslice s n l.
Proof. unfold lslice. by rewrite fmap_take, fmap_drop. Qed.

Lemma slice_zip_with {A B C} (f : A -> B -> C) s n l k :
  lslice s n (zip_with f l k) = zip_with f (lslice s n l) (lslice s n k).
Proof. unfold lslice. by rewrite zip_with_drop, zip_with_take. Qed.

(** Pointwise accumulation. *)
Lemma foldl_zip_with_fmap {A B C} (op : B -> B -> B) (f : C -> A -> B) (l : list A) (cs : list C) (g : A -> B) :
  foldl (zip_with op) (g <$> l) ((fun c => f c <$> l) <$> cs)
  = (fun a => foldl op (g a) ((fun c => f c a) <$> cs)) <$> l.
Proof.
  revert g. induction cs as [|c' cs IH]; intros g; [done|]. cbn.
  rewrite <- (IH (fun a => op (g a) (f c' a))). f_equal. clear IH. induction l as [|a l IHl]; [done|]. cbn. by rewrite IHl.
Qed.

(** * Tensors *)

Section tensors.
Context {R : Type} `{Arith R}.

Inductive tensor :=
  | Vec (v : list R)
  | Mat (m : list (list R)).

Definition cols (m : list (list R)) : nat := match m with [] => 0 | row :: _ => length row end.

(** [t.size(dim)] *)
Definition size (t : tensor) (dim : nat) : result nat :=
  match t, dim with
  | Vec v, 0 => Ok (length v)
  | Mat m, 0 => Ok (length m)
  | Mat m, 1 => Ok (cols m)
  | _, _ => Err IndexError
  end.

(** The part of [t] at [start : start + n] along an existing dimension. *)
Definition tslice (t : tensor) (dim start n : nat) : tensor :=
  match t, dim with
  | Vec v, _ => Vec (lslice start n v)
  | Mat m, 0 => Mat (lslice start n m)
  | Mat m, _ => Mat (lslice start n <$> m)
  end.

(** [t.narrow(dim, start, length)] *)
Definition t_narrow (t : tensor) (dim start n : nat) : result tensor :=
  d ← size t dim;
  if decide (start + n <= d) then Ok (tslice t dim start n) else Err RuntimeError.

(** [t.chunk(chunks, dim)]: pieces of the rounded-up size, the last one possibly shorter,
    so there may be fewer pieces than asked for. *)
Definition chunk (t : tensor) (chunks dim : nat) : result (list tensor) :=
  d ← size t dim;
  if decide (chunks = 0) then Err RuntimeError
  else if decide (d = 0) then Ok (replicate chunks (tslice t dim 0 0))
  else let s := (d + chunks - 1) / chunks in
       Ok ((fun i => tslice t dim (i * s) s) <$> seq 0 ((d + s - 1) / s)).

(** Broadcasting of a dimension of [src] to [n] elements. *)
Definition expand {A} (n : nat) (src : list A) : result (list A) :=
  if decide (length src = n) then Ok src
  else match src with [a] => Ok (replicate n a) | _ => Err RuntimeError end.

(** [dst.copy_(src)], giving the new content of [dst]. *)
Definition copy_ (dst src : tensor) : result tensor :=
  match dst, src with
  | Vec d, Vec s => Vec <$> expand (length d) s
  | Mat d, Vec s => row ← expand (cols d) s; Ok (Mat (replicate (length d) row))
  | Mat d, Mat s => rows ← mapM_r (expand (cols d)) s; Mat <$> expand (length d) rows
  | Vec _, Mat _ => Err RuntimeError
  end.

(** [t.narrow(dim, start, n).copy_(src)]: the view shares its storage with [t]. *)
Definition narrow_copy_ (t : tensor) (dim start n : nat) (src : tensor) : result tensor :=
  view ← t_narrow t dim start n;
  new ← copy_ view src;
  match t, new, dim with
  | Vec v, Vec w, _ => Ok (Vec (set_slice start w v))
  | Mat m, Mat w, 0 => Ok (Mat (set_slice start w m))
  | Mat m, Mat w, _ => Ok (Mat (zip_with (set_slice start) w m))
  | _, _, _ => Err RuntimeError
  end.

(** ** Arithmetic on rows *)

Definition rsum (l : list R) : R := foldr radd r0 l.
Definition rdot (x w : list R) : R := rsum (zip_with rmul x w).
Definition vadd : list R -> list R -> list R := zip_with radd.
Definition madd : list (list R) -> list (list R) -> list (list R) := zip_with vadd.

(** [torch.nn.functional.linear(x, weight, bias)] on the rows of [x]. *)
Definition F_linear (x : list (list R)) (weight : tensor) (bias : option tensor) : result (list (list R)) :=
  match weight with
  | Vec _ => Err RuntimeError
  | Mat w =>
      if decide (Forall (fun row => length row = cols w) x) then
        match bias with
        | None => Ok ((fun row => rdot row <$> w) <$> x)
        | Some (Vec b) => b ← expand (length w) b; Ok ((fun row => vadd (rdot row <$> w) b) <$> x)
        | Some (Mat _) => Err RuntimeError
        end
      else Err RuntimeError
  end.

End tensors.
Arguments tensor : clear implicits.
Arguments copy_ {R} dst src : simpl never.
Arguments rsum {R H} l : simpl never.
Arguments rdot {R H} x w : simpl never.
Arguments lslice {A} start n l : simpl never.
Arguments set_slice {A} start new l : simpl never.

(** [dist.all_reduce(tensor)] over the tensors of a group, added by [op]: each rank gets the
    sum. *)
Definition all_reduce {T} (op : T -> T -> T) (ys : list T) : list T :=
  match ys with
  | [] => []
  | y :: ys' => replicate (length ys) (foldl op y ys')
  end.

(** * Linear layers *)

(** The second argument of the loaders of packed parameters. *)
Inductive shard_id := ShardInt (i : nat) | ShardStr (s : string).

Inductive linear_class :=
  | ReplicatedLinear
  | ColumnParallelLinear
  | MergedColumnParallelLinear (output_sizes : list nat)
  | QKVParallelLinear (head_size num_heads num_kv_heads : nat)
  | RowParallelLinear.

(** [_divide] *)
Definition divide (numerator denominator : nat) : result nat :=
  if decide (denominator = 0) then Err ZeroDivisionError
  else if decide (numerator mod denominator = 0) then Ok (numerator / denominator) else Err AssertionError.

Section linear.
Context {R : Type} `{Arith R}.
Notation tensor := (tensor R).

(** A linear layer of one rank: the attributes set by [_init_weights] and by the
    constructors, and the parameters. *)
Record Linear := mk_linear {
  l_class : linear_class;
  tp_dim : option nat;
  tp_rank : nat;
  tp_size : nat;
  weight : tensor;
  bias : option tensor
}.

(** [torch.empty]: its content is arbitrary. *)
Definition empty_mat (uninit : nat -> nat -> R) (n m : nat) : tensor :=
  Mat ((fun i => uninit i <$> seq 0 m) <$> seq 0 n).
Definition empty_vec (uninit : nat -> nat -> R) (n : nat) : tensor := Vec (uninit 0 <$> seq 0 n).

(** [_GenericLinearMixin._init_weights] *)
Definition init_weights (uninit : nat -> nat -> R) (cls : linear_class) (rank world : nat) (input_size output_size : nat)
    (has_bias : bool) (dim : option nat) (weight_tensor bias_tensor : option tensor) : Linear :=
  mk_linear cls dim rank world
    (default (empty_mat uninit output_size input_size) weight_tensor)
    (if has_bias then Some (default (empty_vec uninit output_size) bias_tensor) else None).

(** The constructors. *)
Definition ReplicatedLinear_init uninit rank world input_size output_size has_bias wt bt : result Linear :=
  Ok (init_weights uninit ReplicatedLinear rank world input_size output_size has_bias None wt bt).

Definition ColumnParallelLinear_init uninit rank world input_size output_size has_bias wt bt : result Linear :=
  out ← divide output_size world;
  Ok (init_weights uninit ColumnParallelLinear rank world input_size out has_bias (Some 0) wt bt).

Definition MergedColumnParallelLinear_init uninit rank world input_size (output_sizes : list nat) has_bias wt bt : result Linear :=
  out ← divide (sum_list output_sizes) world;
  Ok (init_weights uninit (MergedColumnParallelLinear output_sizes) rank world input_size out has_bias (Some 0) wt bt).

Definition QKVParallelLinear_init uninit rank world hidden_size head_size total_num_heads (total_num_kv_heads : option nat)
    has_bias wt bt : result Linear :=
  let total_num_kv_heads := match total_num_kv_heads with None | Some 0 => total_num_heads | Some n => n end in
  num_heads ← divide total_num_heads world;
  num_kv_heads ← divide total_num_kv_heads world;
  out ← divide ((total_num_heads + 2 * total_num_kv_heads) * head_size) world;
  Ok (init_weights uninit (QKVParallelLinear head_size num_heads num_kv_heads) rank world hidden_size out has_bias (Some 0) wt bt).

Definition RowParallelLinear_init uninit rank world input_size output_size has_bias wt bt : result Linear :=
  inp ← divide input_size world;
  Ok (init_weights uninit RowParallelLinear rank world inp output_size has_bias (Some 1) wt bt).

(** The weight loader of the column- and row-parallel layers. *)
Definition narrow_loader (dim rank : nat) (param loaded_weight : tensor) : result tensor :=
  shard_size ← size param dim;
  loaded ← t_narrow loaded_weight dim (rank * shard_size) shard_size;
  copy_ param loaded.

(** [loaded_weight.chunk(tp_size, tp_dim)\[tp_rank\]] *)
Definition rank_chunk (dim rank world : nat) (loaded_weight : tensor) : result tensor :=
  pieces ← chunk loaded_weight world dim;
  of_option IndexError (pieces !! rank).

Definition merged_loader (output_sizes : list nat) (dim rank world : nat) (param loaded_weight : tensor)
    (loaded_shard_id : shard_id) : result tensor :=
  loaded ← rank_chunk dim rank world loaded_weight;
  match loaded_shard_id with
  | ShardStr _ => Err TypeError
  | ShardInt i =>
      out ← of_option IndexError (output_sizes !! i);
      narrow_copy_ param dim (sum_list (take i output_sizes) / world) (out / world) loaded
  end.

(** The part of a QKV parameter that belongs to a shard: offset and size. *)
Definition qkv_shard (head_size num_heads num_kv_heads : nat) (loaded_shard_id : shard_id) : result (nat * nat) :=
  match loaded_shard_id with
  | ShardStr "q" => Ok (0, num_heads * head_size)
  | ShardStr "k" => Ok (num_heads * head_size, num_kv_heads * head_size)
  | ShardStr "v" => Ok (num_heads * head_size + num_kv_heads * head_size, num_kv_heads * head_size)
  | _ => Err AssertionError
  end.

Definition qkv_loader (head_size num_heads num_kv_heads : nat) (dim rank world : nat) (param loaded_weight : tensor)
    (loaded_shard_id : shard_id) : result tensor :=
  shard ← qkv_shard head_size num_heads num_kv_heads loaded_shard_id;
  loaded ← rank_chunk dim rank world loaded_weight;
  narrow_copy_ param dim (fst shard) (snd shard) loaded.

(** [param.weight_loader(param, loaded_weight\[, shard_id, weight_name\])]: the loaders of
    packed layers need a shard, the others do not take one. *)
Definition weight_loader (l : Linear) (param loaded_weight : tensor) (shard : option shard_id) : result tensor :=
  let dim := default 0 (tp_dim l) in
  match l_class l, shard with
  | ReplicatedLinear, None => copy_ param loaded_weight
  | (ColumnParallelLinear | RowParallelLinear), None => narrow_loader dim (tp_rank l) param loaded_weight
  | MergedColumnParallelLinear os, Some s => merged_loader os dim (tp_rank l) (tp_size l) param loaded_weight s
  | QKVParallelLinear hd nh nkv, Some s => qkv_loader hd nh nkv dim (tp_rank l) (tp_size l) param loaded_weight s
  | _, _ => Err TypeError
  end.

(** Loading the weight, and the bias, of a layer. *)
Definition load_weight (l : Linear) (loaded_weight : tensor) (shard : option shard_id) : result Linear :=
  w ← weight_loader l (weight l) loaded_weight shard;
  Ok (mk_linear (l_class l) (tp_dim l) (tp_rank l) (tp_size l) w (bias l)).

Definition load_bias (l : Linear) (loaded_bias : tensor) (shard : option shard_id) : result Linear :=
  match bias l with
  | None => Err AttributeError
  | Some b =>
      b ← weight_loader l b loaded_bias shard;
      Ok (mk_linear (l_class l) (tp_dim l) (tp_rank l) (tp_size l) (weight l) (Some b))
  end.

(** [forward] of the replicated and column-parallel layers, and the part of the row-parallel
    layer before the all-reduce. *)
Definition linear_forward (l : Linear) (x : list (list R)) : result (list (list R)) := F_linear x (weight l) (bias l).

Definition row_partial (l : Linear) (x : list (list R)) : result (list (list R)) :=
  F_linear x (weight l) (if decide (tp_rank l = 0) then bias l else None).
End linear.
Arguments Linear : clear implicits.

(** * All-reduce in pieces *)

Section reduce.
Context {R : Type} `{Arith R}.

(** One iteration of the loop of [_chunked_all_reduce], on the flat tensors of all ranks. *)
Definition reduce_chunk (chunk_size numel : nat) (flats : list (list R)) (i : nat) : list (list R) :=
  let stop := (i + chunk_size) `min` numel in
  let chunks := all_reduce vadd (lslice i (stop - i) <$> flats) in
  zip_with (set_slice i) chunks flats.

(** [_chunked_all_reduce]: [chunked] is the environment variable, [capturing] whether a CUDA
    graph is being captured. *)
Definition chunked_all_reduce (chunk_size : nat) (chunked capturing : bool) (ys : list (list (list R))) : list (list (list R)) :=
  if negb chunked then all_reduce madd ys
  else if capturing then all_reduce madd ys
  else let numel := length (concat (default [] (head ys))) in
       if decide (numel <= chunk_size) then all_reduce madd ys
       else let starts := (fun k => k * chunk_size) <$> seq 0 ((numel + chunk_size - 1) / chunk_size) in
            let flats := foldl (reduce_chunk chunk_size numel) (@concat R <$> ys) starts in
            zip_with (fun y flat => reshape (length <$> y) flat) ys flats.

Definition ALLREDUCE_CHUNK_SIZE : nat := Z.to_nat 32768.

(** The environment of a group: the two flags of [_chunked_all_reduce]. *)
Record CommEnv := mk_env { env_chunked : bool; env_capturing : bool }.

Definition group_all_reduce (env : CommEnv) : list (list (list R)) -> list (list (list R)) :=
  chunked_all_reduce ALLREDUCE_CHUNK_SIZE (env_chunked env) (env_capturing env).

(** [GenericRowParallelLinear.forward] on the ranks of a group. *)
Definition row_forward (env : CommEnv) (defer_reduce : bool) (group : list (Linear R)) (xs : list (list (list R))) :
    result (list (list (list R))) :=
  ys ← mapM_r (fun p => row_partial (fst p) (snd p)) (zip group xs);
  if bool_decide (1 < length group) && negb defer_reduce then Ok (group_all_reduce env ys) else Ok ys.

(** * Embedding and language-model head *)

(** [VocabParallelEmbedding], also the base class of [ParallelLMHead]. *)
Record VocabParallelEmbedding := mk_embedding {
  e_tp_rank : nat;
  e_tp_size : nat;
  num_embeddings : nat;
  vocab_start_idx : nat;
  vocab_end_idx : nat;
  e_weight : tensor R
}.

Definition VocabParallelEmbedding_init (uninit : nat -> nat -> R) (rank world n embedding_dim : nat) : result VocabParallelEmbedding :=
  if decide (world = 0) then Err ZeroDivisionError
  else if decide (n mod world = 0) then
    let per_partition := n / world in
    Ok (mk_embedding rank world n (per_partition * rank) (per_partition * rank + per_partition)
          (empty_mat uninit per_partition embedding_dim))
  else Err AssertionError.

(** [weight_loader] *)
Definition embedding_load (e : VocabParallelEmbedding) (loaded_weight : tensor R) : result VocabParallelEmbedding :=
  w ← narrow_loader 0 (e_tp_rank e) (e_weight e) loaded_weight;
  Ok (mk_embedding (e_tp_rank e) (e_tp_size e) (num_embeddings e) (vocab_start_idx e) (vocab_end_idx e) w).

(** [F.embedding(x, weight)] *)
Definition F_embedding (x : list Z) (w : tensor R) : result (list (list R)) :=
  match w with
  | Vec _ => Err RuntimeError
  | Mat m => mapM_r (fun i => if decide (0 <= i)%Z then of_option IndexError (m !! Z.to_nat i) else Err IndexError) x
  end.

(** [VocabParallelEmbedding.forward] up to the all-reduce. *)
Definition embedding_partial (e : VocabParallelEmbedding) (x : list Z) : result (list (list R)) :=
  if decide (1 < e_tp_size e) then
    let mask := (fun t => bool_decide (Z.of_nat (vocab_start_idx e) <= t)%Z && bool_decide (t < Z.of_nat (vocab_end_idx e))%Z) <$> x in
    let x := zip_with (fun b t => if b : bool then t - Z.of_nat (vocab_start_idx e) else 0)%Z mask x in
    y ← F_embedding x (e_weight e);
    Ok (zip_with (fun (b : bool) (row : list R) => rmul (if b then r1 else r0) <$> row) mask y)
  else F_embedding x (e_weight e).

Definition embedding_forward (env : CommEnv) (group : list VocabParallelEmbedding) (x : list Z) : result (list (list (list R))) :=
  ys ← mapM_r (fun e => embedding_partial e x) group;
  if bool_decide (1 < length group) then Ok (group_all_reduce env ys) else Ok ys.

(** [full_logits\[:, start : start + vocab_per_rank\] = logits] on zeros. *)
Definition place_shard (rank world vocab_per_rank : nat) (logits : list (list R)) : list (list R) :=
  (fun row : list R => set_slice (rank * vocab_per_rank) row (replicate (vocab_per_rank * world) r0)) <$> logits.

(** [ParallelLMHead.forward_all_rows] up to the all-reduce. *)
Definition lm_head_partial (e : VocabParallelEmbedding) (x : list (list R)) : result (list (list R)) :=
  logits ← F_linear x (e_weight e) None;
  if decide (1 < e_tp_size e) then
    vocab_per_rank ← size (e_weight e) 0;
    Ok (place_shard (e_tp_rank e) (e_tp_size e) vocab_per_rank logits)
  else Ok logits.

(** [ParallelLMHead.forward_all_rows]: the logits stay on rank 0. *)
Definition lm_head_forward_all_rows (env : CommEnv) (group : list VocabParallelEmbedding) (xs : list (list (list R))) :
    result (list (option (list (list R)))) :=
  ys ← mapM_r (fun p => lm_head_partial (fst p) (snd p)) (zip group xs);
  if bool_decide (1 < length group) then
    Ok (zip_with (fun e y => if decide (e_tp_rank e = 0) then Some y else None) group (group_all_reduce env ys))
  else Ok (Some <$> ys).

(** * Between attention and expert ranks *)

(** [F.pad(hidden_states, (0, 0, 0, pad_size))] to a multiple of [tp] rows. *)
Definition pad_batch (tp : nat) (h : list (list R)) : list (list R) :=
  let remainder := length h mod tp in
  if decide (remainder = 0) then h else h ++ replicate (tp - remainder) (replicate (cols h) r0).

(** [AttnToFfnTransition.forward]: the rows of this rank, and [_original_bs] after the call. *)
Definition attn_to_ffn (tp rank : nat) (original_bs : nat) (h : list (list R)) : result (list (list R) * nat) :=
  if decide (tp <= 1) then Ok (h, original_bs)
  else c ← rank_chunk 0 rank tp (Mat (pad_batch tp h));
       match c with Mat m => Ok (m, length h) | Vec _ => Err RuntimeError end.

(** [AttnToFfnTransition.reduce_scatter] on the ranks of a group, with any of the collective
    implementations it dispatches to: the shards of all ranks, and [_original_bs]. *)
Definition reduce_scatter (original_bs : nat) (hs : list (list (list R))) : list (list (list R)) * nat :=
  let tp := length hs in
  if decide (tp <= 1) then (hs, original_bs)
  else let padded := pad_batch tp <$> hs in
       let rows := length (default [] (head padded)) / tp in
       (imap (fun r total => lslice (r * rows) rows total) (all_reduce madd padded), length (default [] (head hs))).

(** [AttnToFfnTransition.local_rows], as the bounds of the slice. *)
Definition local_rows (tp rank : nat) (h : list (list R)) : nat * nat :=
  if decide (tp <= 1) then (0, length h)
  else let padded := (length h + tp - 1) / tp * tp in
       let shard := padded / tp in
       let start := rank * shard in
       (start, (start + shard) `min` length h).

(** [FfnToAttnTransition.forward] on a group: every rank gets the rows of all ranks, less the
    padding.  [scatter] is the [_original_bs] of the scatter layer, if there is one. *)
Definition ffn_to_attn (scatter : option nat) (hs : list (list (list R))) : list (list (list R)) :=
  if decide (length hs <= 1) then hs
  else let out := concat hs in
       let out := match scatter with
                  | Some original_bs => if decide (0 < original_bs /\ original_bs < length out) then take original_bs out else out
                  | None => out
                  end in
       replicate (length hs) out.
End reduce.
Arguments VocabParallelEmbedding : clear implicits.

(** * Sums *)

Section sums.
Context {R : Type} `{Arith R}.
Implicit Types l : list R.

#[export] Instance radd_0_r : RightId (=) r0 radd.
Proof. intros x. by rewrite (comm radd), left_id by apply _. Qed.

Lemma rsum_nil : rsum [] = r0.
Proof. done. Qed.

Lemma rsum_cons a l : rsum (a :: l) = radd a (rsum l).
Proof. done. Qed.

Lemma rsum_app l k : rsum (l ++ k) = radd (rsum l) (rsum k).
Proof.
  induction l as [|a l IH]; [by rewrite rsum_nil, (left_id r0 radd)|].
  cbn [app]. by rewrite !rsum_cons, IH, (assoc radd).
Qed.

Lemma rsum_concat (ls : list (list R)) : rsum (concat ls) = rsum (rsum <$> ls).
Proof. induction ls as [|l ls IH]; [done|]. cbn. by rewrite rsum_app, IH, rsum_cons. Qed.

Lemma foldl_radd a l : foldl radd a l = radd a (rsum l).
Proof.
  revert a. induction l as [|b l IH]; intros a; cbn; [by rewrite rsum_nil, (right_id r0 radd)|].
  by rewrite IH, rsum_cons, (assoc radd).
Qed.

Lemma rsum_zeros (l : list R) : Forall (fun x => x = r0) l -> rsum l = r0.
Proof. induction 1 as [|? l -> _ IH]; [done|]. by rewrite rsum_cons, IH, (left_id r0 radd). Qed.

(** A sum with a single term that is not zero. *)
Lemma rsum_single (f : nat -> R) n i : i < n -> (forall j, j < n -> j <> i -> f j = r0) -> rsum (f <$> seq 0 n) = f i.
Proof.
  intros Hi Hz. replace n with (i + S (n - i - 1)) at 1 by lia. rewrite seq_app, fmap_app, rsum_app. cbn. rewrite rsum_cons.
  rewrite !rsum_zeros; [by rewrite (left_id r0 radd), (right_id r0 radd)| |];
    apply Forall_fmap, Forall_seq; intros j Hj; cbn; apply Hz; lia.
Qed.

(** The dot product of two rows is the sum of the dot products of their shards. *)
Lemma dot_slices n s x w : length x = n * s -> length w = n * s ->
  rsum ((fun r => rdot (lslice (r * s) s x) (lslice (r * s) s w)) <$> seq 0 n) = rdot x w.
Proof.
  intros Hx Hw. unfold rdot at 2. rewrite <- (concat_slices n s (zip_with rmul x w)).
  2: { rewrite length_zip_with. lia. }
  rewrite rsum_concat, <- list_fmap_compose. f_equal. apply list_fmap_ext. intros _ r _. unfold rdot. cbn.
  by rewrite slice_zip_with.
Qed.

(** The sum of matrices given by rows and columns. *)
Lemma all_reduce_fmap {A B} (f : nat -> A -> B -> R) (l : list A) (k : A -> list B) n : 0 < n ->
  all_reduce madd ((fun r => (fun a => f r a <$> k a) <$> l) <$> seq 0 n)
  = replicate n ((fun a => (fun b => rsum ((fun r => f r a b) <$> seq 0 n)) <$> k a) <$> l).
Proof.
  intros Hn. destruct n as [|n]; [lia|]. unfold all_reduce. cbn [seq fmap list_fmap]. rewrite length_cons, length_fmap, length_seq.
  f_equal. unfold madd.
  etransitivity; [apply (foldl_zip_with_fmap vadd (fun r a => f r a <$> k a))|]. cbn beta.
  apply list_fmap_ext. intros _ a _. unfold vadd.
  etransitivity; [apply (foldl_zip_with_fmap radd (fun r b => f r a b) (k a))|]. cbn beta.
  apply list_fmap_ext. intros _ b _. by rewrite foldl_radd.
Qed.
End sums.

(** * Shapes and the tensor operations on them *)

Definition is_mat {R} (n k : nat) (m : list (list R)) : Prop := length m = n /\ Forall (fun row => length row = k) m.

Section shapes.
Context {R : Type} `{Arith R}.
Implicit Types m w p : list (list R).

Lemma is_mat_cols n k m : is_mat n k m -> 0 < n -> cols m = k.
Proof. intros [Hl Hf] Hn. destruct m; cbn in *; [lia|]. by inversion Hf. Qed.

Lemma is_mat_slice n k m s c : is_mat n k m -> s + c <= n -> is_mat c k (lslice s c m).
Proof.
  intros [Hl Hf] Hs. split; [apply length_slice; lia|]. unfold lslice. by apply Forall_take, Forall_drop.
Qed.

Lemma is_mat_cols_slice n k m s c : is_mat n k m -> s + c <= k -> is_mat n c (lslice s c <$> m).
Proof.
  intros [Hl Hf] Hs. split; [by rewrite length_fmap|]. apply Forall_fmap. eapply Forall_impl; [exact Hf|].
  intros row Hr. cbn in *. apply length_slice. lia.
Qed.

Lemma is_mat_empty uninit n k : is_mat n k ((fun i => uninit i <$> seq 0 k) <$> seq 0 n : list (list R)).
Proof.
  split; [by rewrite length_fmap, length_seq|]. apply Forall_fmap, Forall_forall. intros i _. cbn.
  by rewrite length_fmap, length_seq.
Qed.

Lemma is_mat_set_slice n k m s c w : is_mat n k m -> is_mat c k w -> s + c <= n -> is_mat n k (set_slice s w m).
Proof.
  intros [Hl Hf] [Hw Hfw] Hs. split; [rewrite length_set_slice; lia|]. unfold set_slice.
  apply Forall_app; split; [by apply Forall_take|]. apply Forall_app; split; [done|by apply Forall_drop].
Qed.

Lemma expand_same {A} n (l : list A) : length l = n -> expand n l = Ok l.
Proof. intros. unfold expand. by rewrite decide_True. Qed.

Lemma mapM_r_id {A} (f : A -> result A) (l : list A) : Forall (fun a => f a = Ok a) l -> mapM_r f l = Ok l.
Proof. induction 1 as [|a l Ha _ IH]; [done|]. cbn. by rewrite Ha, IH. Qed.

Lemma copy_mat n k p w : is_mat n k p -> is_mat n k w -> copy_ (Mat p) (Mat w) = Ok (Mat w).
Proof.
  intros Hp Hw. unfold copy_. rewrite mapM_r_id.
  - cbn. rewrite expand_same; [done|]. destruct Hp, Hw. congruence.
  - destruct Hw as [Hl Hf]. destruct (decide (n = 0)).
    + destruct w; cbn in *; [done|lia].
    + eapply Forall_impl; [exact Hf|]. intros row Hr. cbn in *. apply expand_same.
      rewrite (is_mat_cols n k); [done|done|lia].
Qed.

Lemma copy_vec n (p v : list R) : length p = n -> length v = n -> copy_ (Vec p) (Vec v) = Ok (Vec v).
Proof. intros. unfold copy_. rewrite expand_same by lia. done. Qed.

Lemma shard_bound r world s : r < world -> r * s + s <= world * s.
Proof. nia. Qed.

(** Shards of rows: the column-parallel layers and the embedding. *)
Lemma narrow_loader_rows r world s k p w : r < world -> is_mat s k p -> is_mat (world * s) k w ->
  narrow_loader 0 r (Mat p) (Mat w) = Ok (Mat (lslice (r * s) s w)).
Proof.
  intros Hr Hp Hw. pose proof (shard_bound r world s Hr). unfold narrow_loader, t_narrow. cbn -[lslice decide].
  rewrite (proj1 Hp). cbn -[lslice decide]. rewrite decide_True by (rewrite (proj1 Hw); lia). cbn -[lslice copy_].
  apply (copy_mat s k); [done|]. by eapply is_mat_slice.
Qed.

Lemma narrow_loader_vec r world s (p v : list R) : r < world -> length p = s -> length v = world * s ->
  narrow_loader 0 r (Vec p) (Vec v) = Ok (Vec (lslice (r * s) s v)).
Proof.
  intros Hr Hp Hv. pose proof (shard_bound r world s Hr). unfold narrow_loader, t_narrow. cbn -[lslice decide].
  rewrite Hp. cbn -[lslice decide]. rewrite decide_True by lia. cbn -[lslice copy_].
  apply (copy_vec s); [done|]. apply length_slice. lia.
Qed.

(** Shards of columns: the row-parallel layer. *)
Lemma narrow_loader_cols r world s n p w : r < world -> is_mat n s p -> is_mat n (world * s) w ->
  narrow_loader 1 r (Mat p) (Mat w) = Ok (Mat (lslice (r * s) s <$> w)).
Proof.
  intros Hr Hp Hw. pose proof (shard_bound r world s Hr). unfold narrow_loader, t_narrow. cbn -[lslice decide].
  destruct (decide (n = 0)) as [->|].
  - destruct Hp as [Hp _], Hw as [Hw _]. apply nil_length_inv in Hp as ->, Hw as ->. cbn.
    by rewrite decide_True by lia.
  - rewrite (is_mat_cols n s), (is_mat_cols n (world * s) w) by (done || lia). cbn -[lslice decide].
    rewrite decide_True by lia. cbn -[lslice copy_]. apply (copy_mat n s); [done|]. by eapply is_mat_cols_slice.
Qed.

Lemma chunk_size_exact world s : 0 < world -> (world * s + world - 1) / world = s.
Proof. intros. symmetry. apply (Nat.div_unique _ _ _ (world - 1)); lia. Qed.

Lemma rank_chunk_rows r world s w : r < world -> length w = world * s ->
  rank_chunk 0 r world (Mat w) = Ok (Mat (lslice (r * s) s w)).
Proof.
  intros Hr Hw. unfold rank_chunk, chunk. cbn -[lslice decide]. rewrite Hw.
  rewrite decide_False by lia. destruct (decide (world * s = 0)) as [H0|H0].
  - assert (s = 0) as -> by nia. cbn -[lslice]. rewrite lookup_replicate_2 by lia. cbn -[lslice]. done.
  - rewrite chunk_size_exact by lia. cbn -[lslice Nat.div].
    rewrite list_lookup_fmap, lookup_seq_lt; [done|].
    rewrite (Nat.mul_comm world s), chunk_size_exact by nia. done.
Qed.

Lemma rank_chunk_vec r world s (v : list R) : r < world -> length v = world * s ->
  rank_chunk 0 r world (Vec v) = Ok (Vec (lslice (r * s) s v)).
Proof.
  intros Hr Hw. unfold rank_chunk, chunk. cbn -[lslice decide]. rewrite Hw.
  rewrite decide_False by lia. destruct (decide (world * s = 0)) as [H0|H0].
  - assert (s = 0) as -> by nia. cbn -[lslice]. rewrite lookup_replicate_2 by lia. cbn -[lslice]. done.
  - rewrite chunk_size_exact by lia. cbn -[lslice Nat.div].
    rewrite list_lookup_fmap, lookup_seq_lt; [done|].
    rewrite (Nat.mul_comm world s), chunk_size_exact by nia. done.
Qed.

Lemma narrow_copy_rows n k off c p w : is_mat n k p -> is_mat c k w -> off + c <= n ->
  narrow_copy_ (Mat p) 0 off c (Mat w) = Ok (Mat (set_slice off w p)).
Proof.
  intros Hp Hw Ho. unfold narrow_copy_, t_narrow. cbn -[lslice decide copy_].
  rewrite decide_True by (rewrite (proj1 Hp); lia). cbn -[lslice copy_].
  rewrite (copy_mat c k); [done| |done]. by eapply is_mat_slice.
Qed.

Lemma narrow_copy_vec n off c (p v : list R) : length p = n -> length v = c -> off + c <= n ->
  narrow_copy_ (Vec p) 0 off c (Vec v) = Ok (Vec (set_slice off v p)).
Proof.
  intros Hp Hw Ho. unfold narrow_copy_, t_narrow. cbn -[lslice decide copy_].
  rewrite decide_True by lia. cbn -[lslice copy_]. rewrite (copy_vec c); [done| |done]. apply length_slice. lia.
Qed.
End shapes.

(** * All-reduce in pieces is all-reduce *)

Section chunked.
Context {R : Type} `{Arith R}.

Lemma slice_foldl_vadd s n (v : list R) vs :
  lslice s n (foldl vadd v vs) = foldl vadd (lslice s n v) (lslice s n <$> vs).
Proof.
  revert v. induction vs as [|v' vs IH]; intros v; [done|]. cbn. rewrite IH. unfold vadd at 2. by rewrite slice_zip_with.
Qed.

Lemma length_foldl_vadd (v : list R) vs n :
  length v = n -> Forall (fun v => length v = n) vs -> length (foldl vadd v vs) = n.
Proof.
  intros Hv Hvs. revert v Hv. induction Hvs as [|v' vs Hv' _ IH]; intros v Hv; [done|]. cbn. apply IH.
  unfold vadd. rewrite length_zip_with. lia.
Qed.

(** The state of the loop when the elements before [i] have been reduced. *)
Definition reduced_upto (flats : list (list R)) (total : list R) (i : nat) : list (list R) :=
  (fun flat => take i total ++ drop i flat) <$> flats.

Lemma reduce_chunk_step C numel v vs i : Forall (fun v => length v = numel) (v :: vs) -> i <= numel ->
  reduce_chunk C numel (reduced_upto (v :: vs) (foldl vadd v vs) i) i
  = reduced_upto (v :: vs) (foldl vadd v vs) ((i + C) `min` numel).
Proof.
  intros Hl Hi. set (total := foldl vadd v vs). set (stop := (i + C) `min` numel).
  assert (Ht : length total = numel). { inversion Hl. by apply length_foldl_vadd. }
  assert (Hs : forall flat, flat ∈ v :: vs -> lslice i (stop - i) (take i total ++ drop i flat) = lslice i (stop - i) flat).
  { intros flat Hf. rewrite slice_app_r by (rewrite length_take; lia). rewrite length_take.
    replace (i - i `min` length total) with 0 by lia. unfold lslice. by rewrite drop_0. }
  unfold reduce_chunk. fold stop. unfold reduced_upto at 1.
  assert (Hall : all_reduce vadd (lslice i (stop - i) <$> ((fun flat => take i total ++ drop i flat) <$> v :: vs))
    = replicate (S (length vs)) (lslice i (stop - i) total)).
  { rewrite <- list_fmap_compose, (list_fmap_ext _ (lslice i (stop - i))).
    - unfold all_reduce. cbn [fmap list_fmap]. unfold total. rewrite slice_foldl_vadd. f_equal. cbn. by rewrite length_fmap.
    - intros j flat Hf. apply Hs. by apply list_elem_of_lookup_2 in Hf. }
  rewrite Hall. unfold reduced_upto. apply list_eq. intros j.
  rewrite lookup_zip_with, !list_lookup_fmap.
  destruct ((v :: vs) !! j) as [flat|] eqn:Hj.
  - rewrite lookup_replicate_2 by (apply lookup_lt_Some in Hj; cbn in Hj; lia). cbn. f_equal.
    assert (length flat = numel) as Hf. { rewrite Forall_forall in Hl. apply Hl. by apply list_elem_of_lookup_2 in Hj. }
    unfold set_slice. rewrite length_slice by lia. rewrite take_app_length' by (rewrite length_take; lia).
    replace (i + (stop - i)) with stop by lia. rewrite drop_app_ge by (rewrite length_take; lia). rewrite length_take, drop_drop.
    rewrite app_assoc. f_equal; [|f_equal; lia]. unfold lslice. rewrite take_take_drop. f_equal. lia.
  - by destruct (replicate _ _ !! j).
Qed.

Lemma reduce_chunks C numel v vs k : (k - 1) * C <= numel -> Forall (fun v => length v = numel) (v :: vs) ->
  foldl (reduce_chunk C numel) (v :: vs) ((fun k => k * C) <$> seq 0 k)
  = reduced_upto (v :: vs) (foldl vadd v vs) ((k * C) `min` numel).
Proof.
  intros Hk Hl. induction k as [|k IH].
  - cbn [seq fmap list_fmap foldl]. unfold reduced_upto. replace ((0 * C) `min` numel) with 0 by lia. symmetry.
    apply fmap_id_Forall, Forall_forall. intros flat _. by rewrite take_0, drop_0.
  - rewrite seq_S, fmap_app, foldl_app, IH by nia. cbn [fmap list_fmap foldl Nat.add].
    rewrite Nat.min_l by nia. rewrite reduce_chunk_step by (done || nia). f_equal. lia.
Qed.

Lemma foldl_madd_concat (y : list (list R)) ys shape : Forall (fun y => length <$> y = shape) (y :: ys) ->
  concat (foldl madd y ys) = foldl vadd (concat y) (@concat R <$> ys) /\ length <$> foldl madd y ys = shape.
Proof.
  revert y. induction ys as [|y' ys IH]; intros y Hs; [by inversion Hs|].
  inversion Hs as [|? ? Hy Hs']; subst. inversion Hs' as [|? ? Hy' Hs'']; subst.
  assert (Hm : concat (madd y y') = vadd (concat y) (concat y') /\ length <$> madd y y' = length <$> y).
  { clear -Hy'. revert y' Hy'. induction y as [|row y IH]; intros [|row' y'] Hy'; try done. cbn in Hy'.
    injection Hy' as Hr Hy'. destruct (IH _ Hy') as [IH1 IH2]. cbn. rewrite IH1, IH2. unfold vadd.
    split; [by rewrite zip_with_app by done|]. f_equal. rewrite length_zip_with. lia. }
  cbn [foldl fmap list_fmap]. destruct Hm as [Hm1 Hm2]. destruct (IH (madd y y')) as [IH1 IH2].
  { by constructor. }
  split; [by rewrite IH1, Hm1|done].
Qed.

Lemma length_concat_shape (y y' : list (list R)) : length <$> y = length <$> y' -> length (concat y) = length (concat y').
Proof.
  revert y'. induction y as [|row y IH]; intros [|row' y'] Hy; try done. cbn in *. injection Hy as Hr Hy.
  rewrite !length_app, Hr. by rewrite (IH y').
Qed.

Lemma reshape_concat (y : list (list R)) : reshape (length <$> y) (concat y) = y.
Proof. induction y as [|row y IH]; [done|]. cbn. by rewrite take_app_length, drop_app_length, IH. Qed.

Lemma chunked_all_reduce_shape C chunked capturing (ys : list (list (list R))) shape :
  0 < C -> Forall (fun y => length <$> y = shape) ys ->
  chunked_all_reduce C chunked capturing ys = all_reduce madd ys.
Proof.
  intros HC Hs. unfold chunked_all_reduce. destruct chunked; [|done]. destruct capturing; [done|].
  cbn [negb]. case_decide as Hn; [done|]. destruct ys as [|y ys]; [done|].
  change (default [] (head (y :: ys))) with y in *. set (numel := length (concat y)) in *.
  assert (Hl : Forall (fun v => length v = numel) (@concat R <$> y :: ys)).
  { apply Forall_fmap. eapply Forall_impl; [exact Hs|]. intros y' Hy'. cbn. unfold numel.
    pose proof (Forall_inv Hs) as Hy. cbn in Hy. apply length_concat_shape. by rewrite Hy', Hy. }
  rewrite fmap_cons, reduce_chunks; [| |done].
  2: { pose proof (Nat.div_mod (numel + C - 1) C ltac:(lia)) as Hq. destruct ((numel + C - 1) / C) as [|q]; [cbn; lia|].
       rewrite Nat.sub_succ, Nat.sub_0_r. rewrite Nat.mul_succ_r in Hq. lia. }
  rewrite Nat.min_r.
  2: { pose proof (Nat.div_mod (numel + C - 1) C ltac:(lia)). pose proof (Nat.mod_upper_bound (numel + C - 1) C). nia. }
  destruct (foldl_madd_concat y ys shape Hs) as [<- Hsh]. unfold reduced_upto, all_reduce.
  assert (Ht : length (concat (foldl madd y ys)) = numel).
  { unfold numel. pose proof (Forall_inv Hs) as Hy. cbn in Hy. apply length_concat_shape. by rewrite Hsh, Hy. }
  rewrite <- fmap_cons. set (T := foldl madd y ys) in *. rewrite <- list_fmap_compose.
  assert (Hf : forall y', y' ∈ y :: ys -> reshape (length <$> y') (take numel (concat T) ++ drop numel (concat y')) = T).
  { intros y' Hy'. rewrite Forall_forall in Hs. rewrite Forall_forall in Hl. rewrite take_ge by lia. rewrite drop_ge, app_nil_r.
    - by rewrite (Hs _ Hy'), <- Hsh, reshape_concat.
    - rewrite Hl; [done|]. by apply list_elem_of_fmap_2. }
  apply list_eq. intros j. rewrite lookup_zip_with, list_lookup_fmap.
  destruct ((y :: ys) !! j) as [y'|] eqn:Hj.
  - rewrite lookup_replicate_2 by by eapply lookup_lt_Some. cbn. f_equal. apply Hf. by eapply list_elem_of_lookup_2.
  - apply lookup_ge_None in Hj. symmetry. apply lookup_ge_None. by rewrite length_replicate.
Qed.
End chunked.

(** * Sharded layers compute the unsharded ones *)

Section exact.
Context {R : Type} `{Arith R}.

Lemma mapM_r_fmap {A B C} (f : B -> result C) (g : A -> B) (k : A -> C) (l : list A) :
  (forall a, a ∈ l -> f (g a) = Ok (k a)) -> mapM_r f (g <$> l) = Ok (k <$> l).
Proof.
  induction l as [|a l IH]; intros Hr; [done|]. cbn. rewrite Hr by left. rewrite IH; [done|]. intros a' ?. apply Hr. by right.
Qed.

Lemma mapM_r_fmap_seq {A B} (f : A -> result B) (g : nat -> A) (k : nat -> B) n :
  (forall r, r < n -> f (g r) = Ok (k r)) -> mapM_r f (g <$> seq 0 n) = Ok (k <$> seq 0 n).
Proof. intros Hf. apply mapM_r_fmap. intros r ?%elem_of_seq. apply Hf. lia. Qed.

Lemma zip_with_fmap_l {A B C} (f : B -> A -> C) (g : A -> B) l : zip_with f (g <$> l) l = (fun a => f (g a) a) <$> l.
Proof. induction l; [done|]. cbn. by f_equal. Qed.

Lemma zip_with_fmap_fmap {A B C D} (f : B -> C -> D) (g : A -> B) (h : A -> C) l :
  zip_with f (g <$> l) (h <$> l) = (fun a => f (g a) (h a)) <$> l.
Proof. induction l; [done|]. cbn. by f_equal. Qed.

Lemma zip_fmap_fmap {A B C} (f : A -> B) (g : A -> C) l : zip (f <$> l) (g <$> l) = (fun a => (f a, g a)) <$> l.
Proof. induction l; [done|]. cbn. by f_equal. Qed.

(** Both ways in which a group adds up matrices given by rows and columns. *)
Lemma group_all_reduce_fmap {A B} env (f : nat -> A -> B -> R) (l : list A) (k : list B) n : 0 < n ->
  group_all_reduce env ((fun r => (fun a => f r a <$> k) <$> l) <$> seq 0 n)
  = replicate n ((fun a => (fun b => rsum ((fun r => f r a b) <$> seq 0 n)) <$> k) <$> l).
Proof.
  intros Hn. unfold group_all_reduce.
  rewrite (chunked_all_reduce_shape _ _ _ _ (replicate (length l) (length k))).
  - by rewrite (all_reduce_fmap f l (fun _ => k)).
  - unfold ALLREDUCE_CHUNK_SIZE. lia.
  - apply Forall_fmap, Forall_forall. intros r _. cbn. rewrite <- list_fmap_compose.
    apply list_eq. intros i. rewrite list_lookup_fmap. destruct (l !! i) eqn:Hi; cbn.
    + rewrite lookup_replicate_2 by by eapply lookup_lt_Some. by rewrite length_fmap.
    + symmetry. apply lookup_ge_None. rewrite length_replicate. by apply lookup_ge_None.
Qed.

Lemma F_linear_mat x w k : 0 < length w -> Forall (fun row => length row = k) w -> Forall (fun row => length row = k) x ->
  F_linear x (Mat w) None = Ok ((fun row => rdot row <$> w) <$> x).
Proof.
  intros Hn Hw Hx. unfold F_linear. rewrite decide_True; [done|].
  rewrite (is_mat_cols (length w) k); done.
Qed.

(** The row-parallel layer on inputs split by columns. *)
Lemma row_forward_exact env world s n w x :
  0 < world -> 0 < n -> is_mat n (world * s) w -> Forall (fun row => length row = world * s) x ->
  row_forward env false
    ((fun r => mk_linear RowParallelLinear (Some 1) r world (Mat (lslice (r * s) s <$> w)) None) <$> seq 0 world)
    ((fun r => lslice (r * s) s <$> x) <$> seq 0 world)
  = Ok (replicate world ((fun row => rdot row <$> w) <$> x)).
Proof.
  intros Hworld Hn Hw Hx. unfold row_forward. rewrite zip_fmap_fmap.
  rewrite (mapM_r_fmap_seq _ _ (fun r => (fun row => (fun wr => rdot (lslice (r * s) s row) (lslice (r * s) s wr)) <$> w) <$> x)).
  2: { intros r Hr. pose proof (shard_bound r world s Hr) as Hb. cbn [fst snd]. unfold row_partial. cbn [weight bias tp_rank].
    replace (if decide (r = 0) then None else None) with (@None (tensor R)) by (by case_decide). rewrite (F_linear_mat _ _ s).
    - f_equal. rewrite <- list_fmap_compose. apply list_fmap_ext. intros _ row _. cbn. by rewrite <- list_fmap_compose.
    - rewrite length_fmap. by rewrite (proj1 Hw).
    - eapply is_mat_cols_slice; [exact Hw|done].
    - apply Forall_fmap. eapply Forall_impl; [exact Hx|]. intros row Hrow. cbn. cbn in Hrow. apply length_slice. lia. }
  cbn [mbind result_bind]. rewrite length_fmap, length_seq.
  assert (Hsum : (fun row => (fun wr => rsum ((fun r => rdot (lslice (r * s) s row) (lslice (r * s) s wr)) <$> seq 0 world)) <$> w) <$> x
      = (fun row => rdot row <$> w) <$> x).
  { apply list_fmap_ext. intros i row Hrow. apply list_fmap_ext. intros j wr Hwr. apply dot_slices.
    - rewrite Forall_forall in Hx. apply Hx. by eapply list_elem_of_lookup_2.
    - destruct Hw as [_ Hw]. rewrite Forall_forall in Hw. apply Hw. by eapply list_elem_of_lookup_2. }
  case_bool_decide as H1; cbn [andb negb].
  - by rewrite (group_all_reduce_fmap env (fun r row wr => rdot (lslice (r * s) s row) (lslice (r * s) s wr))), Hsum by done.
  - assert (world = 1) as -> by lia. rewrite <- Hsum. cbn [seq fmap list_fmap replicate]. f_equal. f_equal.
    apply list_fmap_ext. intros _ row _. apply list_fmap_ext. intros _ wr _. unfold rsum. cbn. by rewrite radd_0_r.
Qed.

Lemma row_as_seq (row : list R) k : length row = k -> row = (fun j => default r0 (row !! j)) <$> seq 0 k.
Proof.
  intros <-. apply list_eq. intros j. rewrite list_lookup_fmap. destruct (row !! j) as [a|] eqn:Hj.
  - rewrite lookup_seq_lt by by eapply lookup_lt_Some. cbn. by rewrite Hj.
  - apply lookup_ge_None in Hj. by rewrite lookup_seq_ge.
Qed.

Lemma group_all_reduce_single env world (own : Z -> nat) (v : Z -> list R) k x : 0 < world ->
  (forall t, t ∈ x -> own t < world /\ length (v t) = k) ->
  group_all_reduce env ((fun r => (fun t => if decide (own t = r) then v t else replicate k r0) <$> x) <$> seq 0 world)
  = replicate world (v <$> x).
Proof.
  intros Hw Hv.
  assert (Hf : (fun r => (fun t => if decide (own t = r) then v t else replicate k r0) <$> x) <$> seq 0 world
    = (fun r => (fun t => (fun j => if decide (own t = r) then default r0 (v t !! j) else r0) <$> seq 0 k) <$> x) <$> seq 0 world).
  { apply list_fmap_ext. intros _ r _. apply list_fmap_ext. intros i t Ht.
    destruct (Hv t) as [_ Hl]; [by eapply list_elem_of_lookup_2|]. destruct (decide (own t = r)); [by apply row_as_seq|].
    etransitivity; [apply (row_as_seq _ k), length_replicate|]. apply list_fmap_ext. intros ? j ?%lookup_seq.
    by rewrite lookup_replicate_2 by lia. }
  rewrite Hf, (group_all_reduce_fmap env (fun r t j => if decide (own t = r) then default r0 (v t !! j) else r0)) by done.
  f_equal. apply list_fmap_ext. intros i t Ht. destruct (Hv t) as [Ho Hl]; [by eapply list_elem_of_lookup_2|].
  etransitivity; [|symmetry; by apply row_as_seq]. apply list_fmap_ext. intros _ j _.
  rewrite (rsum_single (fun r => if decide (own t = r) then default r0 (v t !! j) else r0) world (own t)); [by rewrite decide_True| done |].
  intros r _ Hr. by rewrite decide_False by congruence.
Qed.

Lemma lookup_row n k (w : list (list R)) i : is_mat n k w -> i < n -> exists row, w !! i = Some row /\ length row = k.
Proof.
  intros [Hl Hf] Hi. destruct (lookup_lt_is_Some_2 w i) as [row Hrow]; [lia|]. exists row. split; [done|].
  rewrite Forall_forall in Hf. apply Hf. by eapply list_elem_of_lookup_2.
Qed.

(** One rank's contribution to an embedding: the rows of its tokens, and zeros. *)
Lemma embedding_partial_exact world r s k n (w : list (list R)) x :
  1 < world -> r < world -> is_mat (world * s) k w -> Forall (fun t => 0 <= t < Z.of_nat (world * s))%Z x ->
  embedding_partial (mk_embedding r world n (s * r) (s * r + s) (Mat (lslice (r * s) s w))) x
  = Ok ((fun t => if decide (Z.to_nat t / s = r) then default [] (w !! Z.to_nat t) else replicate k r0) <$> x).
Proof.
  intros Hw1 Hr Hw Hx. rewrite Forall_forall in Hx. pose proof (shard_bound r world s Hr).
  unfold embedding_partial. cbn [e_tp_size vocab_start_idx vocab_end_idx e_weight]. rewrite decide_True by done.
  rewrite zip_with_fmap_l. unfold F_embedding.
  set (inr := fun t => bool_decide (Z.of_nat (s * r) <= t)%Z && bool_decide (t < Z.of_nat (s * r + s))%Z).
  assert (Hin : forall t, t ∈ x -> inr t = bool_decide (Z.to_nat t / s = r)).
  { intros t Ht. specialize (Hx t Ht). assert (0 < s) by nia. unfold inr. rewrite <- bool_decide_and. apply bool_decide_ext.
    rewrite (Nat.mul_comm s r). pose proof (Nat.div_mod (Z.to_nat t) s ltac:(lia)) as Hd. pose proof (Nat.mod_upper_bound (Z.to_nat t) s ltac:(lia)).
    split; [intros []; symmetry; apply (Nat.div_unique _ _ _ (Z.to_nat t - r * s)); nia|]. intros Hq. rewrite Hq in Hd. nia. }
  rewrite (mapM_r_fmap _ _ (fun t => default [] (w !! (if inr t then Z.to_nat t else r * s)))).
  2: { intros t Ht. specialize (Hin t Ht). specialize (Hx t Ht). assert (0 < s) by nia.
    assert (Hb : inr t = true -> r * s <= Z.to_nat t < r * s + s).
    { unfold inr. rewrite andb_true_iff, !bool_decide_eq_true. lia. }
    cbn beta. fold (inr t).
    destruct (inr t); [specialize (Hb eq_refl)|]; rewrite decide_True by lia; rewrite lookup_slice, decide_True by lia.
    - destruct (lookup_row _ _ _ (Z.to_nat t) Hw) as (row & Hrow & _); [lia|].
      replace (r * s + Z.to_nat (t - Z.of_nat (s * r))) with (Z.to_nat t) by lia. by rewrite Hrow.
    - destruct (lookup_row _ _ _ (r * s) Hw) as (row & Hrow & _); [lia|]. cbn. by rewrite Nat.add_0_r, Hrow. }
  cbn [mbind result_bind]. rewrite zip_with_fmap_fmap. f_equal. apply list_fmap_ext. intros i t Ht. apply list_elem_of_lookup_2 in Ht.
  rewrite (Hin t Ht). specialize (Hx t Ht). destruct (decide (Z.to_nat t / s = r)) as [Hq|Hq].
  - rewrite bool_decide_eq_true_2 by done. apply fmap_id_Forall, Forall_forall. intros a _. apply rmul_1_l.
  - rewrite bool_decide_eq_false_2 by done. destruct (lookup_row _ _ _ (r * s) Hw) as (row & -> & Hrow); [nia|]. cbn.
    rewrite <- Hrow. clear. induction row as [|a row IH]; [done|]. cbn. by rewrite IH, rmul_0_l.
Qed.

(** The embedding of tokens of the vocabulary. *)
Lemma embedding_forward_exact env world s k n (w : list (list R)) x :
  0 < world -> is_mat (world * s) k w -> Forall (fun t => 0 <= t < Z.of_nat (world * s))%Z x ->
  embedding_forward env
    ((fun r => mk_embedding r world n (s * r) (s * r + s) (Mat (lslice (r * s) s w))) <$> seq 0 world) x
  = Ok (replicate world ((fun t => default [] (w !! Z.to_nat t)) <$> x)).
Proof.
  intros Hworld Hw Hx. unfold embedding_forward. rewrite length_fmap, length_seq. destruct (decide (1 < world)) as [H1|H1].
  - rewrite (mapM_r_fmap_seq _ _ (fun r => (fun t => if decide (Z.to_nat t / s = r) then default [] (w !! Z.to_nat t) else replicate k r0) <$> x)).
    2: { intros r Hr. by apply embedding_partial_exact. }
    cbn [mbind result_bind]. rewrite bool_decide_eq_true_2 by done. f_equal.
    apply (group_all_reduce_single env world (fun t => Z.to_nat t / s)); [done|]. intros t Ht. rewrite Forall_forall in Hx. specialize (Hx t Ht).
    destruct (lookup_row _ _ _ (Z.to_nat t) Hw) as (row & -> & Hrow); [lia|]. split; [|done].
    apply Nat.Div0.div_lt_upper_bound. lia.
  - assert (world = 1) as -> by lia. cbn [seq fmap list_fmap mapM_r]. unfold embedding_partial. cbn [e_tp_size e_weight].
    rewrite decide_False by lia. replace (lslice (0 * s) s w) with w.
    2: { destruct Hw as [Hl _]. replace s with (length w) by lia. by rewrite slice_all. }
    unfold F_embedding. rewrite <- (list_fmap_id x) at 1. rewrite (mapM_r_fmap _ _ (fun t => default [] (w !! Z.to_nat t))); [done|].
    intros t Ht. rewrite Forall_forall in Hx. specialize (Hx t Ht). cbn. rewrite decide_True by lia.
    destruct (lookup_row _ _ _ (Z.to_nat t) Hw) as (row & -> & _); [lia|done].
Qed.
Lemma place_shard_row r world s (row v : list R) : r < world -> length v = world * s -> row = lslice (r * s) s v ->
  set_slice (r * s) row (replicate (s * world) r0)
  = (fun j => if decide (j / s = r) then default r0 (v !! j) else r0) <$> seq 0 (world * s).
Proof.
  intros Hr Hv ->. pose proof (shard_bound r world s Hr) as Hb. rewrite (Nat.mul_comm s world).
  assert (Hlen : length (lslice (r * s) s v) = s) by (apply length_slice; lia).
  apply list_eq. intros j. rewrite list_lookup_fmap. destruct (decide (j < world * s)) as [Hj|Hj].
  2: { rewrite lookup_seq_ge by lia. apply lookup_ge_None. rewrite length_set_slice; rewrite ?length_replicate; lia. }
  rewrite lookup_seq_lt by done. cbn. assert (Hs : 0 < s) by nia.
  pose proof (Nat.div_mod j s ltac:(lia)) as Hd. pose proof (Nat.mod_upper_bound j s ltac:(lia)) as Hm. unfold set_slice.
  destruct (decide (j < r * s)) as [H1|H1]; [|destruct (decide (j < r * s + s)) as [H2|H2]].
  - rewrite lookup_app_l by (rewrite length_take, length_replicate; lia). rewrite lookup_take_lt, lookup_replicate_2 by lia.
    rewrite decide_False; [done|]. intros Hq. nia.
  - rewrite lookup_app_r by (rewrite length_take, length_replicate; lia). rewrite length_take, length_replicate.
    rewrite lookup_app_l by lia. rewrite lookup_slice, decide_True by lia.
    rewrite decide_True by (symmetry; apply (Nat.div_unique _ _ _ (j - r * s)); lia).
    match goal with |- v !! ?e = _ => replace e with j by lia end.
    destruct (v !! j) eqn:Hvj; [done|]. apply lookup_ge_None in Hvj. lia.
  - rewrite lookup_app_r by (rewrite length_take, length_replicate; lia). rewrite length_take, length_replicate.
    rewrite lookup_app_r by lia. rewrite lookup_drop, lookup_replicate_2 by lia.
    rewrite decide_False; [done|]. intros Hq. nia.
Qed.

(** The language-model head: the full logits, on rank 0. *)
Lemma lm_head_forward_exact env world s k n (w : list (list R)) x :
  0 < world -> 0 < s -> is_mat (world * s) k w -> Forall (fun row => length row = k) x ->
  lm_head_forward_all_rows env
    ((fun r => mk_embedding r world n (s * r) (s * r + s) (Mat (lslice (r * s) s w))) <$> seq 0 world)
    ((fun _ => x) <$> seq 0 world)
  = Ok ((fun r => if decide (r = 0) then Some ((fun row => rdot row <$> w) <$> x) else None) <$> seq 0 world).
Proof.
  intros Hworld Hs Hw Hx. unfold lm_head_forward_all_rows. rewrite zip_fmap_fmap, length_fmap, length_seq.
  assert (Hlin : forall r, r < world -> F_linear x (Mat (lslice (r * s) s w)) None = Ok ((fun row => rdot row <$> lslice (r * s) s w) <$> x)).
  { intros r Hr. pose proof (shard_bound r world s Hr). destruct (is_mat_slice _ _ _ (r * s) s Hw ltac:(lia)) as [Hl Hf].
    apply (F_linear_mat _ _ k); [lia|done|done]. }
  destruct (decide (1 < world)) as [H1|H1].
  - rewrite (mapM_r_fmap_seq _ _ (fun r => (fun row => (fun j => if decide (j / s = r) then default r0 ((rdot row <$> w) !! j) else r0)
        <$> seq 0 (world * s)) <$> x)).
    2: { intros r Hr. pose proof (shard_bound r world s Hr). cbn [fst snd]. unfold lm_head_partial. cbn [e_weight e_tp_size e_tp_rank].
      rewrite Hlin by done. cbn [mbind result_bind]. rewrite decide_True by done. cbn [size mbind result_bind].
      rewrite length_slice by (rewrite (proj1 Hw); lia). f_equal. unfold place_shard. rewrite <- list_fmap_compose.
      apply list_fmap_ext. intros _ row _. cbn. apply place_shard_row; [done| |].
      - rewrite length_fmap. apply Hw.
      - by rewrite slice_fmap. }
    cbn [mbind result_bind]. rewrite bool_decide_eq_true_2 by done.
    rewrite (group_all_reduce_fmap env (fun r row j => if decide (j / s = r) then default r0 ((rdot row <$> w) !! j) else r0)) by done. f_equal.
    assert (Hsum : (fun row => (fun j => rsum ((fun r => if decide (j / s = r) then default r0 ((rdot row <$> w) !! j) else r0) <$> seq 0 world))
        <$> seq 0 (world * s)) <$> x = (fun row => rdot row <$> w) <$> x).
    { apply list_fmap_ext. intros _ row _. etransitivity; [|symmetry; apply (row_as_seq _ (world * s)); rewrite length_fmap; apply Hw].
      apply list_fmap_ext. intros ? j [-> Hj]%lookup_seq.
      rewrite (rsum_single (fun r => if decide _ then _ else _) world ((0 + i) / s)).
      - by rewrite decide_True.
      - apply Nat.Div0.div_lt_upper_bound. lia.
      - intros r _ Hr. by rewrite decide_False by congruence. }
    rewrite Hsum. apply list_eq. intros i. rewrite lookup_zip_with, !list_lookup_fmap.
    destruct (decide (i < world)).
    + rewrite lookup_seq_lt, lookup_replicate_2 by done. done.
    + by rewrite lookup_seq_ge by lia.
  - assert (world = 1) as -> by lia. specialize (Hlin 0 ltac:(lia)). cbn [seq fmap list_fmap mapM_r fst snd]. unfold lm_head_partial.
    cbn [e_weight e_tp_size]. rewrite Hlin. cbn [mbind result_bind]. rewrite decide_False by lia. cbn.
    f_equal. f_equal. f_equal. apply list_fmap_ext. intros _ row _. f_equal. destruct Hw as [Hl _].
    replace s with (length w) by lia. apply slice_all.
Qed.
End exact.

(** * Scatter and gather *)

Section transition.
Context {R : Type} `{Arith R}.

(** The rows of a shard. *)
Definition shard_rows (tp n : nat) : nat := (n + tp - 1) / tp.

Lemma length_pad_rows tp (h : list (list R)) : 0 < tp -> length (pad_batch tp h) = tp * shard_rows tp (length h).
Proof.
  intros Htp. unfold pad_batch, shard_rows. set (n := length h).
  pose proof (Nat.div_mod n tp ltac:(lia)) as Hd. pose proof (Nat.mod_upper_bound n tp ltac:(lia)) as Hm.
  case_decide as Hr.
  - rewrite <- (Nat.div_unique (n + tp - 1) tp (n / tp) (tp - 1)); lia.
  - rewrite length_app, length_replicate. fold n.
    rewrite <- (Nat.div_unique (n + tp - 1) tp (n / tp + 1) (n mod tp - 1)); lia.
Qed.

Lemma take_pad_rows tp (h : list (list R)) n : n <= length h -> take n (pad_batch tp h) = take n h.
Proof. intros. unfold pad_batch. case_decide; [done|]. by rewrite take_app_le. Qed.

Lemma attn_to_ffn_exact tp r old (h : list (list R)) : 1 < tp -> r < tp ->
  attn_to_ffn tp r old h = Ok (lslice (r * shard_rows tp (length h)) (shard_rows tp (length h)) (pad_batch tp h), length h).
Proof.
  intros Htp Hr. unfold attn_to_ffn. rewrite decide_False by lia.
  rewrite (rank_chunk_rows r tp (shard_rows tp (length h))); [done|done|]. by apply length_pad_rows; lia.
Qed.

Lemma madd_app (p q p' q' : list (list R)) : length p = length q -> madd (p ++ p') (q ++ q') = madd p q ++ madd p' q'.
Proof. intros. unfold madd. by rewrite zip_with_app. Qed.

Lemma madd_zeros n k : madd (replicate n (replicate k r0)) (replicate n (replicate k r0)) = replicate n (replicate k (r0 : R)).
Proof.
  unfold madd. rewrite zip_with_replicate. f_equal. unfold vadd. rewrite zip_with_replicate. f_equal. apply radd_0_l.
Qed.

Lemma is_mat_madd n k (p q : list (list R)) : is_mat n k p -> is_mat n k q -> is_mat n k (madd p q).
Proof.
  intros [Hp Hfp] [Hq Hfq]. split; [unfold madd; rewrite length_zip_with; lia|].
  rewrite Forall_lookup in *. intros i row Hi. unfold madd in Hi. rewrite lookup_zip_with in Hi.
  destruct (p !! i) as [a|] eqn:Ha; [|done]. destruct (q !! i) as [b|] eqn:Hb; [|done]. cbn in Hi. injection Hi as <-.
  unfold vadd. rewrite length_zip_with, (Hfp _ _ Ha), (Hfq _ _ Hb). lia.
Qed.

Lemma foldl_madd_pad tp n k (p : list (list R)) ps : Forall (is_mat n k) (p :: ps) ->
  foldl madd (pad_batch tp p) (pad_batch tp <$> ps) = pad_batch tp (foldl madd p ps) /\ is_mat n k (foldl madd p ps).
Proof.
  revert p. induction ps as [|q ps IH]; intros p Hps; [by inversion Hps|].
  inversion Hps as [|? ? Hp Hps']; subst. inversion Hps' as [|? ? Hq Hps'']; subst. cbn [foldl fmap list_fmap].
  destruct (IH (madd p q)) as [IH1 IH2]; [constructor; [by apply is_mat_madd|done]|]. split; [|done]. rewrite <- IH1. f_equal.
  assert (Hm : is_mat n k (madd p q)) by by apply is_mat_madd.
  unfold pad_batch. rewrite (proj1 Hp), (proj1 Hq), (proj1 Hm). case_decide; [done|].
  assert (0 < n). { destruct n; [|lia]. by rewrite Nat.Div0.mod_0_l in *. }
  rewrite (is_mat_cols n k p), (is_mat_cols n k q), (is_mat_cols n k (madd p q)) by done.
  rewrite madd_app, madd_zeros; [done|]. by rewrite (proj1 Hp), (proj1 Hq).
Qed.

(** Gathering what the ranks made of their shards. *)
Lemma ffn_to_attn_exact tp (h : list (list R)) (f : list R -> list R) : 1 < tp ->
  ffn_to_attn (Some (length h)) ((fun r => f <$> lslice (r * shard_rows tp (length h)) (shard_rows tp (length h)) (pad_batch tp h)) <$> seq 0 tp)
  = replicate tp (f <$> h).
Proof.
  intros Htp. set (n := length h). set (q := shard_rows tp n).
  assert (Hpad : length (pad_batch tp h) = tp * q) by (apply length_pad_rows; lia).
  unfold ffn_to_attn. rewrite !length_fmap, length_seq, decide_False by lia. f_equal.
  assert (Hc : concat ((fun r => f <$> lslice (r * q) q (pad_batch tp h)) <$> seq 0 tp) = f <$> pad_batch tp h).
  { rewrite <- (concat_slices tp q (f <$> pad_batch tp h)) by by rewrite length_fmap. f_equal.
    apply list_fmap_ext. intros _ r _. by rewrite slice_fmap. }
  assert (Ht : take n (f <$> pad_batch tp h) = f <$> h).
  { rewrite <- fmap_take, take_pad_rows by done. unfold n. by rewrite firstn_all. }
  rewrite Hc, length_fmap, Hpad. case_decide as Hn; [done|]. rewrite <- Ht, take_ge; [done|]. rewrite length_fmap, Hpad.
  destruct (decide (n = 0)) as [E|]; [|apply Nat.nlt_ge; intros ?; apply Hn; split; [lia|done]]. unfold q, shard_rows. rewrite E, Nat.div_small; lia.
Qed.

(** Moving rows between the attention ranks and the expert ranks is exact.  Every rank
    gets a shard of equal length; the rows [local_rows] says it owns are the shard without
    its padding; applying any function to the rows of the shards and gathering them gives,
    on every rank, the function applied to the original rows, whatever the batch size; and
    reduce-scatter of partial results gives the shards of their sum. *)
Theorem transition_roundtrip tp old n k (h : list (list R)) (f : list R -> list R) :
  1 < tp -> is_mat n k h ->
  exists shards : list (list (list R)),
    mapM_r (fun r => attn_to_ffn tp r old h) (seq 0 tp) = Ok ((fun shard => (shard, length h)) <$> shards) /\
    Forall (fun shard => length shard = shard_rows tp n) shards /\
    ffn_to_attn (Some (length h)) ((fun shard : list (list R) => f <$> shard) <$> shards) = replicate tp (f <$> h) /\
    (forall r shard start stop, shards !! r = Some shard -> local_rows tp r h = (start, stop) ->
       lslice start (stop - start) h = take (stop - start) shard) /\
    (forall p ps, length (p :: ps) = tp -> Forall (is_mat n k) (p :: ps) -> foldl madd p ps = h ->
       reduce_scatter old (p :: ps) = (shards, n)).
Proof.
  intros Htp Hh. set (q := shard_rows tp n). pose proof (proj1 Hh) as Hlen.
  assert (Hpad : length (pad_batch tp h) = tp * q). { rewrite length_pad_rows, Hlen by lia. done. }
  exists ((fun r => lslice (r * q) q (pad_batch tp h)) <$> seq 0 tp). split_and!.
  - rewrite <- list_fmap_compose, <- (list_fmap_id (seq 0 tp)) at 1. apply mapM_r_fmap_seq. intros r Hr. cbn.
    rewrite attn_to_ffn_exact by done. by rewrite Hlen.
  - apply Forall_fmap, Forall_forall. intros r ?%elem_of_seq. cbn. apply length_slice. rewrite Hpad. apply shard_bound. lia.
  - rewrite <- list_fmap_compose. unfold q. rewrite <- Hlen. by apply ffn_to_attn_exact.
  - intros r shard start stop Hr Hl. rewrite list_lookup_fmap in Hr. destruct (seq 0 tp !! r) as [r'|] eqn:Hs; [|done].
    apply lookup_seq in Hs as [-> Hr']. cbn in Hr. injection Hr as <-. unfold local_rows in Hl. rewrite decide_False in Hl by lia.
    rewrite Hlen, Nat.div_mul in Hl by lia. fold (shard_rows tp n) q in Hl. injection Hl as <- <-.
    clearbody q. change (0 + r) with r. unfold lslice at 2. rewrite take_take, (Nat.min_l (_ - _)) by lia. fold (lslice (r * q) ((r * q + q) `min` n - r * q) (pad_batch tp h)).
    unfold pad_batch. case_decide; [done|]. destruct (decide (r * q <= n)).
    + by rewrite slice_app_l by lia.
    + replace ((r * q + q) `min` n - r * q) with 0 by lia. done.
  - intros p ps Htps Hps Hsum. unfold reduce_scatter. rewrite Htps, decide_False by lia. cbn [fmap list_fmap head].
    change (default [] (Some (pad_batch tp p))) with (pad_batch tp p). change (default [] (Some p)) with p.
    pose proof (Forall_inv Hps) as Hp. rewrite (proj1 Hp). f_equal.
    rewrite length_pad_rows, (proj1 Hp) by lia. rewrite (Nat.mul_comm tp), Nat.div_mul by lia. fold q.
    unfold all_reduce. rewrite (proj1 (foldl_madd_pad tp n k p ps Hps)), Hsum.
    replace (length (pad_batch tp p :: (pad_batch tp <$> ps))) with tp by (cbn; rewrite length_fmap; cbn in Htps; lia).
    apply list_eq. intros i. rewrite list_lookup_imap, list_lookup_fmap. destruct (decide (i < tp)).
    + by rewrite lookup_replicate_2, lookup_seq_lt.
    + rewrite lookup_seq_ge by lia. rewrite (proj2 (lookup_ge_None (replicate tp _) i)); [done|]. rewrite length_replicate. lia.
Qed.
End transition.

Lemma transition_roundtrip_witness :
  exists shards : list (list (list Z)),
    mapM_r (fun r => attn_to_ffn 2 r 0 [[1]; [2]; [3]]%Z) (seq 0 2) = Ok ((fun shard => (shard, 3)) <$> shards).
Proof.
  destruct (transition_roundtrip 2 0 3 1 [[1]; [2]; [3]]%Z (fun row => row)) as (shards & Hs & _);
    [lia | split; [reflexivity | repeat constructor] | exists shards; exact Hs].
Defined.

(** * Properties of the layers *)

(** The chunked all-reduce that works around deadlocks on large tensors computes the
    plain all-reduce: for tensors of one shape on all ranks, of any size, cut into pieces of
    any positive size, every rank ends with the elementwise sum in the original shape. *)
Theorem chunked_all_reduce_exact {R} `{Arith R} C chunked capturing (ys : list (list (list R))) shape :
  0 < C -> Forall (fun y => length <$> y = shape) ys ->
  chunked_all_reduce C chunked capturing ys = all_reduce madd ys.
Proof. apply chunked_all_reduce_shape. Qed.

Lemma chunked_all_reduce_exact_witness :
  chunked_all_reduce 2 true false [[[1; 2]; [3; 4]; [5; 6]]; [[10; 20]; [30; 40]; [50; 60]]]%Z
  = replicate 2 [[11; 22]; [33; 44]; [55; 66]]%Z.
Proof.
  etransitivity; [apply (chunked_all_reduce_exact 2 true false _ [2; 2; 2]); [lia | repeat constructor] | reflexivity].
Defined.

(** What the weight loaders of the linear layers reject: the bias of a row-parallel layer
    can never be loaded, not even without tensor parallelism, because its loader asks the
    one-dimensional bias for its second dimension; a checkpoint with too few rows for a rank
    of a column-parallel layer; a packed layer without a shard and a QKV layer with a shard
    other than q, k and v. *)
Theorem weight_loader_errors {R} `{Arith R} uninit rank world input_size output_size (l : Linear R) loaded :
  (RowParallelLinear_init uninit rank world input_size output_size true None None = Ok l ->
     load_bias l loaded None = Err IndexError) /\
  (ColumnParallelLinear_init uninit rank world input_size output_size false None None = Ok l ->
     forall w, loaded = Mat w -> length w < (rank + 1) * (output_size / world) -> load_weight l loaded None = Err RuntimeError) /\
  (forall sizes, MergedColumnParallelLinear_init uninit rank world input_size sizes false None None = Ok l ->
     load_weight l loaded None = Err TypeError) /\
  (forall head_size heads kv_heads s, QKVParallelLinear_init uninit rank world input_size head_size heads kv_heads false None None = Ok l ->
     s <> "q" -> s <> "k" -> s <> "v" -> load_weight l loaded (Some (ShardStr s)) = Err AssertionError).
Proof.
  split_and!.
  - unfold RowParallelLinear_init. intros (i & _ & Hl)%result_bind_Ok. injection Hl as <-. done.
  - unfold ColumnParallelLinear_init. intros (o & Ho & Hl)%result_bind_Ok w -> Hw. injection Hl as <-.
    unfold divide in Ho. repeat (case_decide; [done||idtac|done||idtac]). injection Ho as <-.
    unfold load_weight, weight_loader, narrow_loader, t_narrow. cbn -[decide Nat.div Nat.mul seq]. rewrite length_fmap, length_seq.
    cbn -[decide Nat.div Nat.mul seq]. rewrite decide_False by lia. done.
  - unfold MergedColumnParallelLinear_init. intros sizes (o & _ & Hl)%result_bind_Ok. injection Hl as <-. done.
  - unfold QKVParallelLinear_init. intros hd nh nkv s (a & _ & (b & _ & (c & _ & Hl)%result_bind_Ok)%result_bind_Ok)%result_bind_Ok Hq Hk Hv.
    injection Hl as <-. unfold load_weight, weight_loader, qkv_loader. cbn. unfold qkv_shard.
    repeat case_match; simplify_eq; done.
Qed.

Lemma weight_loader_errors_witness :
  exists l : Linear Z, RowParallelLinear_init (fun _ _ => 0%Z) 0 1 4 3 true None None = Ok l /\
    load_bias l (Vec [1; 2; 3]%Z) None = Err IndexError.
Proof.
  eexists. split; [reflexivity|].
  apply (proj1 (weight_loader_errors (fun _ _ => 0%Z) 0 1 4 3 _ (Vec [1; 2; 3]%Z))). reflexivity.
Defined.
