(* ===== verification/Qwen3.v ===== *)
(** The Qwen3 model ([dlengine/runtime/models/qwen3/qwen3.py]) on tensor-parallel ranks and
    pipeline stages, from its checkpoint ([models/qwen3/qwen3_loader.py]) to its logits, with
    the layers of [TensorParallel], the norms ([layers/layernorm.py]), the activation
    ([layers/activation.py]) and the rotary embedding ([layers/rotary_embedding.py]).

    The parameters of a model are kept as PyTorch keeps them, by the dotted path of their
    module.  A tensor-parallel group runs in lock step: its forward is a function on the
    models of all its ranks.  The attention kernel is an interface ([Numerics]): it works on
    one key-value head and its group of query heads at a time and keeps the shape of its
    queries.  Numbers are exact. *)

From S2P Require Import Prelude PyStr PipelineParallel TensorParallel.

Open Scope nat_scope.

(** The numerical primitives of the model: division by a count, reciprocal square root,
    the sigmoid-weighted unit, and attention of one key-value head with cache [K] over the
    tokens of a batch (queries by token and head of the group, keys and values by token). *)
Class Numerics (R K : Type) := {
  num_arith :: Arith R;
  rsub : R -> R -> R;
  rdivn : R -> nat -> R;
  rsqrt : R -> R;
  silu : R -> R;
  attend : K -> list (list (list R)) -> list (list R) -> list (list R) -> list (list (list R)) * K;
  attend_shape : forall c q k v,
    Forall2 (fun qt ot : list (list R) => (length <$> ot) = (length <$> qt)) q (fst (attend c q k v))
}.

(** * Decimal numbers in names *)

Definition digit_of (n : nat) : ascii := ascii_of_nat (48 + n).

Fixpoint str_go (fuel n : nat) : pystr :=
  match fuel with
  | 0 => []
  | S fuel => if decide (n < 10) then [digit_of n] else str_go fuel (n / 10) ++ [digit_of (n mod 10)]
  end.

(** [str(n)] *)
Definition str_nat (n : nat) : pystr := str_go (S n) n.

(** [s.rpartition(".")] when there is a dot: what precedes the last one and what follows. *)
Fixpoint rpartition (s : pystr) : option (pystr * pystr) :=
  match s with
  | [] => None
  | c :: s' => match rpartition s' with
               | Some (a, b) => Some (c :: a, b)
               | None => if decide (c = "."%char) then Some ([], s') else None
               end
  end.

Section qwen3.
Context {R K : Type} `{!Numerics R K}.
Notation mat := (list (list R)) (only parsing).

(** * Norm, activation, rotary embedding *)

(** One row of [RMSNorm.rms_forward]; the dtype conversions are exact. *)
Definition rms_row (eps : R) (weight x : list R) : list R :=
  let var := rdivn (rsum ((fun a => rmul a a) <$> x)) (length x) in
  let scale := rsqrt (radd var eps) in
  zip_with (fun a w => rmul (rmul a scale) w) x weight.

(** [RMSNorm.rms_forward] *)
Definition rms_forward (eps : R) (weight : tensor R) (x : mat) : result mat :=
  match weight with
  | Mat _ => Err RuntimeError
  | Vec w => if decide (Forall (fun row => length row = length w) x) then Ok (rms_row eps w <$> x) else Err RuntimeError
  end.

(** [RMSNorm.add_rms_forward]: the normed sum and the sum, the new residual. *)
Definition add_rms_forward (eps : R) (weight : tensor R) (x residual : mat) : result (mat * mat) :=
  let sum := madd x residual in
  y ← rms_forward eps weight sum;
  Ok (y, sum).

(** One row of [SiluAndMul._compiled_forward], on a row of even length. *)
Definition silu_and_mul (row : list R) : list R :=
  let half := (length row + 1) / 2 in
  zip_with (fun a b => rmul (silu a) b) (take half row) (drop half row).

(** [SiluAndMul.forward] without a clamp. *)
Definition act_forward (x : mat) : mat := silu_and_mul <$> x.

(** [apply_rotary_emb], with the row of [cos_sin_cache] of the token. *)
Definition apply_rotary_emb (cos_sin x : list R) : list R :=
  let half := (length x + 1) / 2 in
  let x1 := take half x in
  let x2 := drop half x in
  let cos := take ((length cos_sin + 1) / 2) cos_sin in
  let sin := drop ((length cos_sin + 1) / 2) cos_sin in
  zip_with rsub (zip_with rmul x1 cos) (zip_with rmul x2 sin) ++ zip_with radd (zip_with rmul x2 cos) (zip_with rmul x1 sin).

(** [RotaryEmbedding.forward] on the heads of each token. *)
Definition rotary (cos_sin_cache : mat) (positions : list nat) (x : list mat) : result (list mat) :=
  rows ← mapM_r (fun p => of_option IndexError (cos_sin_cache !! p)) positions;
  Ok (zip_with (fun row heads => apply_rotary_emb row <$> heads) rows x).

(** * Configuration, modules and models *)

Record Qwen3Config := mk_config {
  vocab_size : nat;
  hidden_size : nat;
  num_attention_heads : nat;
  num_key_value_heads : nat;
  cfg_head_dim : option nat;
  intermediate_size : nat;
  num_hidden_layers : nat;
  attention_bias : bool;
  tie_word_embeddings : bool;
  hidden_act : string;
  rms_norm_eps : R;
  (** [cos_sin_cache] of the rotary embedding built from the configuration. *)
  cos_sin_cache : mat
}.

(** A module with parameters, or a head whose weight shares the storage of another module. *)
Inductive module :=
  | MLinear (l : Linear R)
  | MEmbedding (e : VocabParallelEmbedding R)
  | MNorm (w : tensor R)
  | MTied (path : pystr).

(** The part of the distributed context a model reads. *)
Record ParCtx := mk_par {
  pc_dist : Dist.DistContext;
  attn_tp_rank : nat;
  attn_tp_world_size : nat
}.

Record Model := mk_model {
  m_ctx : ParCtx;
  m_config : Qwen3Config;
  is_first_pp_stage : bool;
  is_last_pp_stage : bool;
  start_layer : nat;
  end_layer : nat;
  modules : gmap pystr module
}.

Definition head_dim (config : Qwen3Config) : nat :=
  match cfg_head_dim config with
  | None | Some 0 => hidden_size config / num_attention_heads config
  | Some d => d
  end.

(** * Construction *)

(** [RMSNorm.__init__]: a weight of ones. *)
Definition norm_init (n : nat) : module := MNorm (Vec (replicate n r1)).

(** [Qwen3Attention.__init__] *)
Definition attention_init (uninit : nat -> nat -> R) (rank world : nat) (config : Qwen3Config) : result (list (pystr * module)) :=
  if decide (world = 0) then Err ZeroDivisionError
  else if decide (num_attention_heads config mod world <> 0) then Err AssertionError
  else if decide (num_key_value_heads config mod world <> 0) then Err AssertionError
  else if decide (cfg_head_dim config ∈ [None; Some 0] /\ num_attention_heads config = 0) then Err ZeroDivisionError
  else
    let hd := head_dim config in
    qkv ← QKVParallelLinear_init uninit rank world (hidden_size config) hd (num_attention_heads config)
            (Some (num_key_value_heads config)) (attention_bias config) None None;
    o ← RowParallelLinear_init uninit rank world (num_attention_heads config * hd) (hidden_size config) false None None;
    Ok [(lit "qkv_proj", MLinear qkv); (lit "o_proj", MLinear o); (lit "q_norm", norm_init hd); (lit "k_norm", norm_init hd)].

(** [Qwen3MLP.__init__] *)
Definition mlp_init (uninit : nat -> nat -> R) (rank world : nat) (config : Qwen3Config) : result (list (pystr * module)) :=
  gate_up ← MergedColumnParallelLinear_init uninit rank world (hidden_size config)
              [intermediate_size config; intermediate_size config] false None None;
  down ← RowParallelLinear_init uninit rank world (intermediate_size config) (hidden_size config) false None None;
  if decide (hidden_act config <> "silu") then Err AssertionError
  else Ok [(lit "gate_up_proj", MLinear gate_up); (lit "down_proj", MLinear down)].

(** The modules under a prefix of the path. *)
Definition under (prefix : pystr) (ms : list (pystr * module)) : list (pystr * module) :=
  (fun p => (prefix ++ p.1, p.2)) <$> ms.

(** [Qwen3DecoderLayer.__init__] *)
Definition decoder_layer_init (uninit : nat -> nat -> R) (rank world : nat) (config : Qwen3Config) : result (list (pystr * module)) :=
  attn ← attention_init uninit rank world config;
  mlp ← mlp_init uninit rank world config;
  Ok (under (lit "self_attn.") attn ++ under (lit "mlp.") mlp ++
      [(lit "input_layernorm", norm_init (hidden_size config)); (lit "post_attention_layernorm", norm_init (hidden_size config))]).

(** [model.layers.i.] *)
Definition layer_prefix (i : nat) : pystr := lit "model.layers." ++ str_nat i ++ lit ".".

(** The modules of the slots of the layer list: a missing layer has none. *)
Fixpoint slot_modules (i : nat) (slots : list (module_slot (result (list (pystr * module))))) : result (list (pystr * module)) :=
  match slots with
  | [] => Ok []
  | BuiltLayer ms :: slots => ms ← ms; rest ← slot_modules (S i) slots; Ok (under (layer_prefix i) ms ++ rest)
  | PPMissingLayer :: slots => slot_modules (S i) slots
  end.

(** [Qwen3ForCausalLM.__init__] with [Qwen3Model.__init__] *)
Definition qwen3_init (uninit : nat -> nat -> R) (ctx : ParCtx) (config : Qwen3Config) : result Model :=
  let rank := attn_tp_rank ctx in
  let world := attn_tp_world_size ctx in
  first ← Dist.is_first_pp_stage (pc_dist ctx);
  last ← Dist.is_last_pp_stage (pc_dist ctx);
  embed ← (if first : bool then
             e ← VocabParallelEmbedding_init uninit rank world (vocab_size config) (hidden_size config);
             Ok [(lit "model.embed_tokens", MEmbedding e)]
           else Ok []);
  layers ← make_pp_layers (pc_dist ctx) (Z.of_nat (num_hidden_layers config))
             (fun _ => decoder_layer_init uninit rank world config) None;
  let '(start, stop, slots) := layers in
  layer_modules ← slot_modules 0 slots;
  let norm := if last : bool then [(lit "model.norm", norm_init (hidden_size config))] else [] in
  head ← (if last then
            e ← VocabParallelEmbedding_init uninit rank world (vocab_size config) (hidden_size config);
            Ok [(lit "lm_head", if tie_word_embeddings config && first then MTied (lit "model.embed_tokens") else MEmbedding e)]
          else Ok []);
  Ok (mk_model ctx config first last (Z.to_nat start) (Z.to_nat stop) (list_to_map (embed ++ layer_modules ++ norm ++ head))).

(** * Loading a checkpoint *)

(** [model.get_parameter(name)]: the module that holds the parameter and the name of the
    parameter in it; [None] is [AttributeError]. *)
Definition get_parameter (ms : gmap pystr module) (name : pystr) : option (pystr * module * bool) :=
  '(path, attr) ← rpartition name;
  m ← ms !! path;
  if decide (attr = lit "weight") then Some (path, m, true)
  else if decide (attr = lit "bias") then
    match m with MLinear l => match bias l with Some _ => Some (path, m, false) | None => None end | _ => None end
  else None.

(** [param.weight_loader(param, tensor\[, shard_id, name\])], or [default_weight_loader] for a
    parameter without a loader when no shard is given, on the module that holds the
    parameter.  A tied weight is the storage of the embedding. *)
Definition run_loader (ms : gmap pystr module) (param : pystr * module * bool) (t : tensor R) (shard : option shard_id) :
    result (gmap pystr module) :=
  let '(path, m, is_weight) := param in
  match m with
  | MLinear l => l ← (if is_weight : bool then load_weight l t shard else load_bias l t shard); Ok (<[path := MLinear l]> ms)
  | MEmbedding e => match shard with None => e ← embedding_load e t; Ok (<[path := MEmbedding e]> ms) | Some _ => Err TypeError end
  | MNorm w => match shard with None => w ← copy_ w t; Ok (<[path := MNorm w]> ms) | Some _ => Err AttributeError end
  | MTied target =>
      match shard, ms !! target with
      | None, Some (MEmbedding e) => e ← embedding_load e t; Ok (<[target := MEmbedding e]> ms)
      | None, _ => Err AttributeError
      | Some _, _ => Err TypeError
      end
  end.

(** [_PACKED_MODULES_MAPPING] *)
Definition PACKED_MODULES_MAPPING : list (pystr * (pystr * shard_id)) :=
  [(lit "q_proj", (lit "qkv_proj", ShardStr "q"));
   (lit "k_proj", (lit "qkv_proj", ShardStr "k"));
   (lit "v_proj", (lit "qkv_proj", ShardStr "v"));
   (lit "gate_proj", (lit "gate_up_proj", ShardInt 0));
   (lit "up_proj", (lit "gate_up_proj", ShardInt 1))].

(** The parameter the first matching entry of the mapping leads to. *)
Fixpoint packed_parameter (ms : gmap pystr module) (name : pystr) (mapping : list (pystr * (pystr * shard_id))) :
    option (pystr * module * bool * shard_id) :=
  match mapping with
  | [] => None
  | (k, (v, shard)) :: mapping =>
      if contains name k then
        match get_parameter ms (replace k v name) with
        | Some param => Some (param, shard)
        | None => packed_parameter ms name mapping
        end
      else packed_parameter ms name mapping
  end.

(** The modules so far, the number of weights loaded and the names not found. *)
Record LoadState := mk_load {
  ls_modules : gmap pystr module;
  loaded_count : nat;
  not_found_names : list pystr
}.

Definition loaded (st : LoadState) (ms : gmap pystr module) : LoadState :=
  mk_load ms (S (loaded_count st)) (not_found_names st).

(** A weight that belongs to this stage. *)
Definition load_own_weight (st : LoadState) (name : pystr) (t : tensor R) : result LoadState :=
  match packed_parameter (ls_modules st) name PACKED_MODULES_MAPPING with
  | Some (param, shard) => loaded st <$> run_loader (ls_modules st) param t (Some shard)
  | None =>
      match get_parameter (ls_modules st) name with
      | None => Ok (mk_load (ls_modules st) (loaded_count st) (not_found_names st ++ [name]))
      | Some param => loaded st <$> run_loader (ls_modules st) param t None
      end
  end.

(** A weight of another stage: with tied embeddings the last stage feeds the embedding to
    its head. *)
Definition load_foreign_weight (m : Model) (st : LoadState) (name : pystr) (t : tensor R) : result LoadState :=
  if tie_word_embeddings (m_config m) && is_last_pp_stage m && contains name (lit "embed_tokens") then
    match ls_modules st !! lit "lm_head" with
    | None => Ok st
    | Some head => loaded st <$> run_loader (ls_modules st) (lit "lm_head", head, true) t None
    end
  else Ok st.

(** One iteration of the loop of [load_weights]. *)
Definition load_one (m : Model) (st : LoadState) (entry : pystr * tensor R) : result LoadState :=
  let '(name, t) := entry in
  if decide (1 < Dist.pp_world_size (pc_dist (m_ctx m)))%Z then
    own ← pp_weight_belongs_to_stage (pc_dist (m_ctx m)) name (Z.of_nat (start_layer m)) (Z.of_nat (end_layer m));
    if own : bool then load_own_weight st name t else load_foreign_weight m st name t
  else load_own_weight st name t.

(** [load_weights] *)
Definition load_weights (m : Model) (weights : list (pystr * tensor R)) : result Model :=
  st ← foldM_r (load_one m) (mk_load (modules m) 0 []) weights;
  Ok (mk_model (m_ctx m) (m_config m) (is_first_pp_stage m) (is_last_pp_stage m) (start_layer m) (end_layer m) (ls_modules st)).

(** * Forward *)

Definition get_linear (m : Model) (path : pystr) : result (Linear R) :=
  match modules m !! path with Some (MLinear l) => Ok l | _ => Err AttributeError end.

Definition get_norm (m : Model) (path : pystr) : result (tensor R) :=
  match modules m !! path with Some (MNorm w) => Ok w | _ => Err AttributeError end.

Definition get_embedding (m : Model) (path : pystr) : result (VocabParallelEmbedding R) :=
  match modules m !! path with
  | Some (MEmbedding e) => Ok e
  | Some (MTied target) => match modules m !! target with Some (MEmbedding e) => Ok e | _ => Err AttributeError end
  | _ => Err AttributeError
  end.

(** [x.view(-1, n, d)] on one row of [n * d] elements. *)
Definition view_heads (n d : nat) (row : list R) : mat := (fun j => lslice (j * d) d row) <$> seq 0 n.

(** [qkv.split(\[q_size, kv_size, kv_size\], dim=-1)] *)
Definition split_qkv (q_size kv_size : nat) (qkv : mat) : result (mat * mat * mat) :=
  if decide (Forall (fun row => length row = q_size + kv_size + kv_size) qkv) then
    Ok (lslice 0 q_size <$> qkv, lslice q_size kv_size <$> qkv, lslice (q_size + kv_size) kv_size <$> qkv)
  else Err RuntimeError.

(** The attention backend of a rank: query head [h] belongs to key-value head
    [h / group]; the caches are those of this rank's key-value heads. *)
Definition gqa_attend (group : nat) (caches : list K) (q k v : list mat) : list (list mat * K) :=
  imap (fun j c => attend c ((fun heads => lslice (j * group) group heads) <$> q)
                     ((fun heads => default [] (heads !! j)) <$> k) ((fun heads => default [] (heads !! j)) <$> v)) caches.

(** The output heads of all tokens, flattened ([o.flatten(1, -1)]). *)
Definition flatten_heads (tokens : nat) (outs : list (list mat)) : mat :=
  (fun t => concat (concat ((fun out => default [] (out !! t)) <$> outs))) <$> seq 0 tokens.

(** [Qwen3Attention.forward] on one rank up to [o_proj], with the rank's caches. *)
Definition attention_local (m : Model) (i : nat) (positions : list nat) (caches : list K) (h : mat) : result (mat * list K) :=
  let config := m_config m in
  let world := attn_tp_world_size (m_ctx m) in
  let hd := head_dim config in
  let num_heads := num_attention_heads config / world in
  let num_kv_heads := num_key_value_heads config / world in
  qkv_proj ← get_linear m (layer_prefix i ++ lit "self_attn.qkv_proj");
  q_norm ← get_norm m (layer_prefix i ++ lit "self_attn.q_norm");
  k_norm ← get_norm m (layer_prefix i ++ lit "self_attn.k_norm");
  qkv ← linear_forward qkv_proj h;
  parts ← split_qkv (num_heads * hd) (num_kv_heads * hd) qkv;
  let '(q, k, v) := parts in
  q ← mapM_r (fun row => rms_forward (rms_norm_eps config) q_norm (view_heads num_heads hd row)) q;
  k ← mapM_r (fun row => rms_forward (rms_norm_eps config) k_norm (view_heads num_kv_heads hd row)) k;
  q ← rotary (cos_sin_cache config) positions q;
  k ← rotary (cos_sin_cache config) positions k;
  let outs := gqa_attend (num_heads / num_kv_heads) caches q k (view_heads num_kv_heads hd <$> v) in
  Ok (flatten_heads (length h) (fst <$> outs), snd <$> outs).

(** [Qwen3Attention.forward] on a group. *)
Definition attention_forward (env : CommEnv) (group : list Model) (i : nat) (positions : list nat)
    (caches : list (list K)) (hs : list mat) : result (list mat * list (list K)) :=
  locals ← mapM_r (fun p => attention_local p.1.1 i positions p.1.2 p.2) (zip (zip group caches) hs);
  o_projs ← mapM_r (fun m => get_linear m (layer_prefix i ++ lit "self_attn.o_proj")) group;
  ys ← row_forward env false o_projs (fst <$> locals);
  Ok (ys, snd <$> locals).

(** [Qwen3MLP.forward] on a group. *)
Definition mlp_forward (env : CommEnv) (group : list Model) (i : nat) (hs : list mat) : result (list mat) :=
  acts ← mapM_r (fun p => gate_up ← get_linear p.1 (layer_prefix i ++ lit "mlp.gate_up_proj");
                          x ← linear_forward gate_up p.2; Ok (act_forward x)) (zip group hs);
  downs ← mapM_r (fun m => get_linear m (layer_prefix i ++ lit "mlp.down_proj")) group;
  row_forward env false downs acts.

(** [self.norm(hidden, residual)] of the module at a path, on every rank: without a residual
    the input becomes the residual. *)
Definition norm_forward (group : list Model) (path : pystr) (hs : list (mat * option mat)) : result (list (mat * mat)) :=
  mapM_r (fun p => w ← get_norm p.1 path;
                   match p.2 with
                   | (h, None) => y ← rms_forward (rms_norm_eps (m_config p.1)) w h; Ok (y, h)
                   | (h, Some residual) => add_rms_forward (rms_norm_eps (m_config p.1)) w h residual
                   end) (zip group hs).

(** [Qwen3DecoderLayer.forward] on a group. *)
Definition decoder_layer_forward (env : CommEnv) (group : list Model) (i : nat) (positions : list nat)
    (caches : list (list K)) (hs : list (mat * option mat)) : result (list (mat * option mat) * list (list K)) :=
  normed ← norm_forward group (layer_prefix i ++ lit "input_layernorm") hs;
  attn ← attention_forward env group i positions caches (fst <$> normed);
  normed ← norm_forward group (layer_prefix i ++ lit "post_attention_layernorm") (zip attn.1 (Some <$> (snd <$> normed)));
  ys ← mlp_forward env group i (fst <$> normed);
  Ok (zip ys (Some <$> (snd <$> normed)), attn.2).

(** The loop over the layers of a stage.  The caches are those of the layers, by layer and
    rank. *)
Definition layers_forward (env : CommEnv) (group : list Model) (start stop : nat) (positions : list nat)
    (caches : list (list (list K))) (hs : list (mat * option mat)) :
    result (list (mat * option mat) * list (list (list K))) :=
  foldM_r (fun st i => c ← of_option IndexError (snd st !! i);
                       r ← decoder_layer_forward env group i positions c (fst st);
                       Ok (r.1, <[i := r.2]> (snd st))) (hs, caches) (seq start (stop - start)).

(** What a stage hands on: the tensors sent to the next stage, or the final hidden states. *)
Inductive stage_output :=
  | Sent (hs : list mat)
  | Final (hs : list (tensor R)).

(** [hidden_states, _ = self.norm(hidden_states, residual)]: without a residual the norm
    returns one tensor, whose rows are unpacked. *)
Definition final_norm (m : Model) (h : mat) (residual : option mat) : result (tensor R) :=
  w ← get_norm m (lit "model.norm");
  match residual with
  | Some residual => r ← add_rms_forward (rms_norm_eps (m_config m)) w h residual; Ok (Mat r.1)
  | None => y ← rms_forward (rms_norm_eps (m_config m)) w h;
            match y with [row; _] => Ok (Vec row) | _ => Err ValueError end
  end.

(** [Qwen3Model.forward] on the group of a stage: [received] is what the previous stage
    sent. *)
Definition stage_forward (env : CommEnv) (group : list Model) (input_ids : list Z) (positions : list nat)
    (inputs_embeds : option mat) (received : list mat) (caches : list (list (list K))) :
    result (stage_output * list (list (list K))) :=
  match group with
  | [] => Err RuntimeError
  | m :: _ =>
      hs ← (if is_first_pp_stage m then
              match inputs_embeds with
              | Some x => Ok ((fun _ => x) <$> group)
              | None => es ← mapM_r (fun m => get_embedding m (lit "model.embed_tokens")) group; embedding_forward env es input_ids
              end
            else Ok received);
      r ← layers_forward env group (start_layer m) (end_layer m) positions caches ((fun h => (h, None)) <$> hs);
      if is_last_pp_stage m then
        out ← mapM_r (fun p => final_norm p.1 p.2.1 p.2.2) (zip group r.1);
        Ok (Final out, r.2)
      else Ok (Sent ((fun p => match p.2 with Some residual => madd p.1 residual | None => p.1 end) <$> r.1), r.2)
  end.

(** The stages of the pipeline, each receiving what the one before sent, and the final
    hidden states of the ranks of the last stage. *)
Fixpoint pipeline_forward (env : CommEnv) (stages : list (list Model)) (input_ids : list Z) (positions : list nat)
    (inputs_embeds : option mat) (received : list mat) (caches : list (list (list K))) :
    result (list (tensor R) * list (list (list K))) :=
  match stages with
  | [] => Err RuntimeError
  | group :: stages =>
      r ← stage_forward env group input_ids positions inputs_embeds received caches;
      match r.1 with
      | Final out => Ok (out, r.2)
      | Sent hs => pipeline_forward env stages input_ids positions inputs_embeds hs r.2
      end
  end.

(** [Qwen3ForCausalLM.compute_logits] on the last group, for the rows the head keeps. *)
Definition compute_logits (env : CommEnv) (group : list Model) (rows : list mat) : result (list (option mat)) :=
  heads ← mapM_r (fun m => get_embedding m (lit "lm_head")) group;
  lm_head_forward_all_rows env heads rows.
End qwen3.
Arguments Qwen3Config : clear implicits.
Arguments module : clear implicits.
Arguments Model : clear implicits.

(** * Reference *)

(** The weights of a checkpoint. *)
Inductive layer_weight :=
  | QProj | KProj | VProj | OProj | QNorm | KNorm | GateProj | UpProj | DownProj | InputNorm | PostNorm.

Inductive wname :=
  | WEmbed
  | WNorm
  | WHead
  | WLayer (i : nat) (w : layer_weight).

#[export] Instance layer_weight_eq_dec : EqDecision layer_weight.
Proof. solve_decision. Defined.
#[export] Instance wname_eq_dec : EqDecision wname.
Proof. solve_decision. Defined.

(** Their names in the checkpoint. *)
Definition layer_weight_suffix (w : layer_weight) : string :=
  match w with
  | QProj => "self_attn.q_proj.weight"
  | KProj => "self_attn.k_proj.weight"
  | VProj => "self_attn.v_proj.weight"
  | OProj => "self_attn.o_proj.weight"
  | QNorm => "self_attn.q_norm.weight"
  | KNorm => "self_attn.k_norm.weight"
  | GateProj => "mlp.gate_proj.weight"
  | UpProj => "mlp.up_proj.weight"
  | DownProj => "mlp.down_proj.weight"
  | InputNorm => "input_layernorm.weight"
  | PostNorm => "post_attention_layernorm.weight"
  end.

Definition wname_str (w : wname) : pystr :=
  match w with
  | WEmbed => lit "model.embed_tokens.weight"
  | WNorm => lit "model.norm.weight"
  | WHead => lit "lm_head.weight"
  | WLayer i w => layer_prefix i ++ lit (layer_weight_suffix w)
  end.

Definition layer_weights : list layer_weight :=
  [QProj; KProj; VProj; OProj; QNorm; KNorm; GateProj; UpProj; DownProj; InputNorm; PostNorm].

(** All weights of a checkpoint; tied embeddings have no head. *)
Definition checkpoint_weights (n : nat) (tied : bool) : list wname :=
  WEmbed :: WNorm :: (if tied then [] else [WHead]) ++ (i ← seq 0 n; WLayer i <$> layer_weights).

Section reference.
Context {R K : Type} `{!Numerics R K}.
Notation mat := (list (list R)) (only parsing).
Context (config : Qwen3Config R) (ckm : wname -> mat) (ckv : wname -> list R).

Definition ref_linear (w : mat) (x : mat) : mat := (fun row => rdot row <$> w) <$> x.
Definition ref_norm (w : list R) (x : mat) : mat := rms_row (rms_norm_eps config) w <$> x.

(** Heads of queries and keys: normed, then rotated to the position of their token. *)
Definition ref_heads (n : nat) (w : list R) (positions : list nat) (x : mat) : list mat :=
  zip_with (fun p row => (fun head => apply_rotary_emb (default [] (cos_sin_cache config !! p)) (rms_row (rms_norm_eps config) w head))
                           <$> view_heads n (head_dim config) row) positions x.

Definition ref_attention (i : nat) (positions : list nat) (caches : list K) (x : mat) : mat * list K :=
  let heads := num_attention_heads config in
  let kv_heads := num_key_value_heads config in
  let outs := gqa_attend (heads / kv_heads) caches
                (ref_heads heads (ckv (WLayer i QNorm)) positions (ref_linear (ckm (WLayer i QProj)) x))
                (ref_heads kv_heads (ckv (WLayer i KNorm)) positions (ref_linear (ckm (WLayer i KProj)) x))
                (view_heads kv_heads (head_dim config) <$> ref_linear (ckm (WLayer i VProj)) x) in
  (ref_linear (ckm (WLayer i OProj)) (flatten_heads (length x) (fst <$> outs)), snd <$> outs).

Definition ref_mlp (i : nat) (x : mat) : mat :=
  let gate := ref_linear (ckm (WLayer i GateProj)) x in
  let up := ref_linear (ckm (WLayer i UpProj)) x in
  ref_linear (ckm (WLayer i DownProj)) (zip_with (zip_with (fun a b => rmul (silu a) b)) gate up).

(** A layer on the residual stream. *)
Definition ref_layer (i : nat) (positions : list nat) (caches : list K) (x : mat) : mat * list K :=
  let attn := ref_attention i positions caches (ref_norm (ckv (WLayer i InputNorm)) x) in
  let x := madd attn.1 x in
  (madd (ref_mlp i (ref_norm (ckv (WLayer i PostNorm)) x)) x, attn.2).

(** The layers from [i] on, with their caches. *)
Fixpoint ref_layers (i : nat) (positions : list nat) (caches : list (list K)) (x : mat) : mat * list (list K) :=
  match caches with
  | [] => (x, [])
  | c :: caches =>
      let r := ref_layer i positions c x in
      let rest := ref_layers (S i) positions caches r.1 in
      (rest.1, r.2 :: rest.2)
  end.

Definition ref_embed (input_ids : list Z) : mat := (fun t => default [] (ckm WEmbed !! Z.to_nat t)) <$> input_ids.

Definition ref_hidden (input_ids : list Z) (positions : list nat) (inputs_embeds : option mat) (caches : list (list K)) : mat * list (list K) :=
  let r := ref_layers 0 positions caches (default (ref_embed input_ids) inputs_embeds) in
  (ref_norm (ckv WNorm) r.1, r.2).

Definition ref_logits (rows : mat) : mat :=
  ref_linear (ckm (if tie_word_embeddings config then WEmbed else WHead)) rows.
End reference.
