(* ===== verification/Qwen3Exact.v ===== *)
(** The sharded Qwen3 model of [Qwen3] computes the reference model: on every
    tensor-parallel rank of every pipeline stage, from a checkpoint read in any order. *)

From S2P Require Import Prelude PyStr PipelineParallel TensorParallel Qwen3.

Open Scope nat_scope.

(** * Heads and slices *)

Section heads.
Context {R K : Type} `{!Numerics R K}.

Lemma concat_slice {A} c s n (ls : list (list A)) : Forall (fun l => length l = c) ls -> s + n <= length ls ->
  concat (lslice s n ls) = lslice (s * c) (n * c) (concat ls).
Proof.
  intros Hf. revert s n. induction Hf as [|l ls Hl Hf IH]; intros s n Hs; cbn in Hs.
  - assert (s = 0) as -> by lia. assert (n = 0) as -> by lia. done.
  - destruct s as [|s].
    + destruct n as [|n]; [done|]. change (lslice 0 (S n) (l :: ls)) with (l :: lslice 0 n ls).
      cbn [concat]. rewrite (IH 0) by lia. cbn [Nat.mul]. rewrite slice_plus, slice_app_l by lia.
      assert (lslice 0 c l = l) as -> by (rewrite <- Hl; apply slice_all). f_equal. rewrite slice_app_r by lia. f_equal. lia.
    + change (lslice (S s) n (l :: ls)) with (lslice s n ls). rewrite IH by lia. cbn [concat].
      rewrite slice_app_r by (rewrite Hl; lia). f_equal. rewrite Hl. lia.
Qed.

Lemma length_concat_const {A} c (ls : list (list A)) : Forall (fun l => length l = c) ls -> length (concat ls) = length ls * c.
Proof. induction 1 as [|l ls Hl _ IH]; [done|]. cbn. rewrite length_app, IH, Hl. lia. Qed.

Lemma view_heads_slice T n d r (row : list R) : r < T -> length row = T * n * d ->
  view_heads n d (lslice (r * (n * d)) (n * d) row) = lslice (r * n) n (view_heads (T * n) d row).
Proof.
  intros Hr Hl. unfold view_heads. rewrite slice_fmap.
  assert (Hs : lslice (r * n) n (seq 0 (T * n)) = seq (r * n) n).
  { unfold lslice. rewrite drop_seq, take_seq. f_equal. pose proof (shard_bound r T n Hr). lia. }
  rewrite Hs, <- (Nat.add_0_r (r * n)), <- fmap_add_seq, <- list_fmap_compose.
  apply list_fmap_ext. intros ? j [-> Hj]%lookup_seq. cbn. rewrite slice_slice by nia. f_equal. lia.
Qed.

Lemma length_view_heads n d (row : list R) : length (view_heads n d row) = n.
Proof. unfold view_heads. by rewrite length_fmap, length_seq. Qed.

Lemma view_heads_lengths n d (row : list R) : length row = n * d -> Forall (fun h => length h = d) (view_heads n d row).
Proof.
  intros Hl. apply Forall_fmap, Forall_seq. intros j Hj. cbn. apply length_slice. nia.
Qed.

(** Attention on the heads of a rank is the rank's part of attention on all heads. *)
Lemma gqa_attend_slice T g nkv r (caches : list K) (q k v : list (list (list R))) : r < T -> length caches = T * nkv ->
  gqa_attend g (lslice (r * nkv) nkv caches) (lslice (r * (nkv * g)) (nkv * g) <$> q) (lslice (r * nkv) nkv <$> k) (lslice (r * nkv) nkv <$> v)
  = lslice (r * nkv) nkv (gqa_attend g caches q k v).
Proof.
  intros Hr Hc. pose proof (shard_bound r T nkv Hr). apply list_eq. intros j. rewrite lookup_slice. unfold gqa_attend.
  rewrite !list_lookup_imap, lookup_slice. case_decide as Hj; [|done].
  destruct (caches !! (r * nkv + j)) as [c|]; [|done]. cbn. f_equal. rewrite <- !list_fmap_compose.
  f_equal; apply list_fmap_ext; intros ? heads ?; cbn.
  - rewrite slice_slice by nia. f_equal. nia.
  - rewrite lookup_slice. by rewrite decide_True by lia.
  - rewrite lookup_slice. by rewrite decide_True by lia.
Qed.

Lemma gqa_attend_lengths g nkv d (caches : list K) (q k v : list (list (list R))) t j out :
  Forall (fun heads => length heads = nkv * g /\ Forall (fun h => length h = d) heads) q -> length caches = nkv ->
  t < length q -> (fst <$> gqa_attend g caches q k v) !! j = Some out ->
  length (concat (default [] (out !! t))) = g * d.
Proof.
  intros Hq Hc Ht Hj. unfold gqa_attend in Hj. rewrite list_lookup_fmap, list_lookup_imap in Hj.
  destruct (caches !! j) as [c|] eqn:Hcj; [|done]. cbn in Hj. injection Hj as <-.
  apply lookup_lt_Some in Hcj. destruct (lookup_lt_is_Some_2 q t Ht) as [heads Hh].
  match goal with |- context [attend c ?q' ?k' ?v'] => pose proof (attend_shape c q' k' v') as Hshape;
    set (outs := fst (attend c q' k' v')) in * end.
  pose proof (Forall2_lookup_l _ _ _ t _ Hshape (list_lookup_fmap_Some_2 _ _ _ _ Hh)) as (ot & Hot & Hlen).
  unfold outs in *. rewrite Hot. cbn. rewrite Forall_lookup in Hq. destruct (Hq _ _ Hh) as [Hn Hd].
  rewrite (length_concat_shape ot (lslice (j * g) g heads)) by done.
  assert (Hsl : length (lslice (j * g) g heads) = g) by (apply length_slice; nia).
  rewrite (length_concat_const d), Hsl; [done|]. unfold lslice. by apply Forall_take, Forall_drop.
Qed.
End heads.

(** * Well-shaped models and loaded ranks *)

Section exact.
Context {R K : Type} `{!Numerics R K}.
Notation mat := (list (list R)) (only parsing).
Context (config : Qwen3Config R) (ckm : wname -> mat) (ckv : wname -> list R).
(** Ranks, query heads per key-value head, key-value heads per rank, half the head size,
    hidden size, and the intermediate size and vocabulary per rank. *)
Context (T g nkv hf hid I V : nat).
Notation nh := (nkv * g).
Notation d := (2 * hf).

(** The checkpoint has the shapes of the configuration, which [T] divides. *)
Record well_shaped : Prop := {
  sh_pos : 0 < T /\ 0 < g /\ 0 < nkv /\ 0 < hf /\ 0 < hid /\ 0 < I /\ 0 < V;
  sh_heads : num_attention_heads config = T * nh;
  sh_kv_heads : num_key_value_heads config = T * nkv;
  sh_head_dim : head_dim config = d;
  sh_hidden : hidden_size config = hid;
  sh_inter : intermediate_size config = T * I;
  sh_vocab : vocab_size config = T * V;
  sh_bias : attention_bias config = false;
  sh_act : hidden_act config = "silu";
  sh_rope : Forall (fun row => length row = d) (cos_sin_cache config);
  sh_embed : is_mat (T * V) hid (ckm WEmbed);
  sh_head : tie_word_embeddings config = false -> is_mat (T * V) hid (ckm WHead);
  sh_norm : length (ckv WNorm) = hid;
  sh_layer : forall i, i < num_hidden_layers config ->
    is_mat (T * (nh * d)) hid (ckm (WLayer i QProj)) /\ is_mat (T * (nkv * d)) hid (ckm (WLayer i KProj)) /\
    is_mat (T * (nkv * d)) hid (ckm (WLayer i VProj)) /\ is_mat hid (T * (nh * d)) (ckm (WLayer i OProj)) /\
    is_mat (T * I) hid (ckm (WLayer i GateProj)) /\ is_mat (T * I) hid (ckm (WLayer i UpProj)) /\
    is_mat hid (T * I) (ckm (WLayer i DownProj)) /\
    length (ckv (WLayer i QNorm)) = d /\ length (ckv (WLayer i KNorm)) = d /\
    length (ckv (WLayer i InputNorm)) = hid /\ length (ckv (WLayer i PostNorm)) = hid
}.

(** The rows of rank [r] of a weight with [s] rows per rank. *)
Notation shard r s w := (lslice (r * s) s w) (only parsing).

(** The modules of layer [i] on rank [r] once the checkpoint is loaded. *)
Record layer_loaded (ms : gmap pystr (module R)) (r i : nat) : Prop := {
  ll_qkv : ms !! (layer_prefix i ++ lit "self_attn.qkv_proj") =
    Some (MLinear (mk_linear (QKVParallelLinear d nh nkv) (Some 0) r T
      (Mat (shard r (nh * d) (ckm (WLayer i QProj)) ++ shard r (nkv * d) (ckm (WLayer i KProj)) ++ shard r (nkv * d) (ckm (WLayer i VProj)))) None));
  ll_o : ms !! (layer_prefix i ++ lit "self_attn.o_proj") =
    Some (MLinear (mk_linear RowParallelLinear (Some 1) r T (Mat (lslice (r * (nh * d)) (nh * d) <$> ckm (WLayer i OProj))) None));
  ll_q_norm : ms !! (layer_prefix i ++ lit "self_attn.q_norm") = Some (MNorm (Vec (ckv (WLayer i QNorm))));
  ll_k_norm : ms !! (layer_prefix i ++ lit "self_attn.k_norm") = Some (MNorm (Vec (ckv (WLayer i KNorm))));
  ll_gate_up : ms !! (layer_prefix i ++ lit "mlp.gate_up_proj") =
    Some (MLinear (mk_linear (MergedColumnParallelLinear [T * I; T * I]) (Some 0) r T
      (Mat (shard r I (ckm (WLayer i GateProj)) ++ shard r I (ckm (WLayer i UpProj)))) None));
  ll_down : ms !! (layer_prefix i ++ lit "mlp.down_proj") =
    Some (MLinear (mk_linear RowParallelLinear (Some 1) r T (Mat (lslice (r * I) I <$> ckm (WLayer i DownProj))) None));
  ll_input : ms !! (layer_prefix i ++ lit "input_layernorm") = Some (MNorm (Vec (ckv (WLayer i InputNorm))));
  ll_post : ms !! (layer_prefix i ++ lit "post_attention_layernorm") = Some (MNorm (Vec (ckv (WLayer i PostNorm))))
}.

(** A model of rank [r] of this group. *)
Definition rank_model (m : Model R) : Prop := attn_tp_world_size (m_ctx m) = T /\ m_config m = config.

(** What attention and the norms of a layer need of the shapes and the modules. *)
Record attn_shaped : Prop := {
  as_pos : 0 < T /\ 0 < g /\ 0 < nkv /\ 0 < hf /\ 0 < hid;
  as_heads : num_attention_heads config = T * nh;
  as_kv_heads : num_key_value_heads config = T * nkv;
  as_head_dim : head_dim config = d;
  as_rope : Forall (fun row => length row = d) (cos_sin_cache config);
  as_layer : forall i, i < num_hidden_layers config ->
    is_mat (T * (nh * d)) hid (ckm (WLayer i QProj)) /\ is_mat (T * (nkv * d)) hid (ckm (WLayer i KProj)) /\
    is_mat (T * (nkv * d)) hid (ckm (WLayer i VProj)) /\ is_mat hid (T * (nh * d)) (ckm (WLayer i OProj)) /\
    length (ckv (WLayer i QNorm)) = d /\ length (ckv (WLayer i KNorm)) = d /\
    length (ckv (WLayer i InputNorm)) = hid /\ length (ckv (WLayer i PostNorm)) = hid
}.

Record attn_loaded (ms : gmap pystr (module R)) (r i : nat) : Prop := {
  al_qkv : ms !! (layer_prefix i ++ lit "self_attn.qkv_proj") =
    Some (MLinear (mk_linear (QKVParallelLinear d nh nkv) (Some 0) r T
      (Mat (shard r (nh * d) (ckm (WLayer i QProj)) ++ shard r (nkv * d) (ckm (WLayer i KProj)) ++ shard r (nkv * d) (ckm (WLayer i VProj)))) None));
  al_o : ms !! (layer_prefix i ++ lit "self_attn.o_proj") =
    Some (MLinear (mk_linear RowParallelLinear (Some 1) r T (Mat (lslice (r * (nh * d)) (nh * d) <$> ckm (WLayer i OProj))) None));
  al_q_norm : ms !! (layer_prefix i ++ lit "self_attn.q_norm") = Some (MNorm (Vec (ckv (WLayer i QNorm))));
  al_k_norm : ms !! (layer_prefix i ++ lit "self_attn.k_norm") = Some (MNorm (Vec (ckv (WLayer i KNorm))));
  al_input : ms !! (layer_prefix i ++ lit "input_layernorm") = Some (MNorm (Vec (ckv (WLayer i InputNorm))));
  al_post : ms !! (layer_prefix i ++ lit "post_attention_layernorm") = Some (MNorm (Vec (ckv (WLayer i PostNorm))))
}.

Lemma well_shaped_attn : well_shaped -> attn_shaped.
Proof.
  intros Hsh. destruct (sh_pos Hsh) as (? & ? & ? & ? & ? & _).
  split; [done|apply Hsh..|]. intros i Hi. destruct (sh_layer Hsh i Hi) as (? & ? & ? & ? & _ & _ & _ & ? & ? & ? & ?). done.
Qed.

Lemma layer_loaded_attn ms r i : layer_loaded ms r i -> attn_loaded ms r i.
Proof. intros Hl. split; apply Hl. Qed.

(** * Attention *)

Section attention.
Context (Hsh : attn_shaped).

Lemma ref_linear_lengths (w x : mat) : Forall (fun row => length row = length w) (ref_linear w x).
Proof. apply Forall_fmap, Forall_forall. intros row _. cbn. by rewrite length_fmap. Qed.

Lemma ref_linear_length (w x : mat) : length (ref_linear w x) = length x.
Proof. apply length_fmap. Qed.

Lemma ref_linear_shard r s (w x : mat) : ref_linear (shard r s w) x = (fun row => shard r s row) <$> ref_linear w x.
Proof. unfold ref_linear. rewrite <- list_fmap_compose. apply list_fmap_ext. intros _ row _. cbn. by rewrite slice_fmap. Qed.

(** The column-parallel layers on their packed weights. *)
Lemma linear_forward_packed cls r (ws : list mat) n x : 0 < length (concat ws) -> Forall (Forall (fun row => length row = n)) ws ->
  Forall (fun row => length row = n) x ->
  linear_forward (mk_linear cls (Some 0) r T (Mat (concat ws)) None) x
  = Ok ((fun row => concat ((fun w : mat => rdot row <$> w) <$> ws)) <$> x).
Proof.
  intros Hn Hws Hx. unfold linear_forward. cbn [weight bias]. rewrite (F_linear_mat _ _ n); [|done| |done].
  - f_equal. apply list_fmap_ext. intros _ row _. clear. induction ws as [|w ws IH]; [done|]. cbn. by rewrite fmap_app, IH.
  - clear -Hws. induction Hws as [|w ws Hw _ IH]; [done|]. cbn. by apply Forall_app.
Qed.

Lemma rms_row_length (w x : list R) eps : length x = length w -> length (rms_row eps w x) = length w.
Proof. intros Hl. unfold rms_row. rewrite length_zip_with. lia. Qed.

Lemma rms_forward_Ok eps (w : list R) x : Forall (fun row => length row = length w) x -> rms_forward eps (Vec w) x = Ok (rms_row eps w <$> x).
Proof. intros. unfold rms_forward. by rewrite decide_True. Qed.

Lemma rotary_length cs (x : list R) : length cs = d -> length x = d -> length (apply_rotary_emb cs x) = d.
Proof.
  intros Hc Hx. unfold apply_rotary_emb. rewrite Hc, Hx.
  assert ((2 * hf + 1) / 2 = hf) as ->. { symmetry. apply (Nat.div_unique _ _ _ 1); lia. }
  rewrite length_app, !length_zip_with, !length_take, !length_drop. lia.
Qed.

(** The projections of a rank are its part of the projections. *)
Lemma qkv_forward_exact r i x : r < T -> i < num_hidden_layers config -> Forall (fun row => length row = hid) x ->
  exists qkv,
    linear_forward (mk_linear (QKVParallelLinear d nh nkv) (Some 0) r T
      (Mat (shard r (nh * d) (ckm (WLayer i QProj)) ++ shard r (nkv * d) (ckm (WLayer i KProj)) ++ shard r (nkv * d) (ckm (WLayer i VProj)))) None) x
      = Ok qkv /\
    split_qkv (nh * d) (nkv * d) qkv =
      Ok ((fun row => shard r (nh * d) row) <$> ref_linear (ckm (WLayer i QProj)) x,
          (fun row => shard r (nkv * d) row) <$> ref_linear (ckm (WLayer i KProj)) x,
          (fun row => shard r (nkv * d) row) <$> ref_linear (ckm (WLayer i VProj)) x).
Proof using Hsh.
  intros Hr Hi Hx. destruct (as_pos Hsh) as (HT & Hgp & Hnkv & Hhf & Hhid). destruct (as_layer Hsh i Hi) as (Hq & Hk & Hv & _).
  pose proof (shard_bound r T (nh * d) Hr). pose proof (shard_bound r T (nkv * d) Hr).
  set (A := shard r (nh * d) (ckm (WLayer i QProj))). set (B := shard r (nkv * d) (ckm (WLayer i KProj))).
  set (C := shard r (nkv * d) (ckm (WLayer i VProj))).
  assert (HA : is_mat (nh * d) hid A) by (eapply is_mat_slice; [exact Hq|done]).
  assert (HB : is_mat (nkv * d) hid B) by (eapply is_mat_slice; [exact Hk|done]).
  assert (HC : is_mat (nkv * d) hid C) by (eapply is_mat_slice; [exact Hv|done]).
  pose proof (linear_forward_packed (QKVParallelLinear d nh nkv) r [A; B; C] hid x) as Hlin. cbn [concat] in Hlin.
  rewrite !app_nil_r in Hlin. rewrite Hlin; [| |repeat constructor; by (apply HA || apply HB || apply HC)|done].
  2: { rewrite !length_app, (proj1 HA). nia. }
  eexists. split; [done|]. unfold split_qkv. rewrite decide_True.
  2: { apply Forall_fmap, Forall_forall. intros row _. cbn. rewrite !length_app, !length_fmap, (proj1 HA), (proj1 HB), (proj1 HC). cbn. lia. }
  rewrite <- !ref_linear_shard. fold A B C. unfold ref_linear. rewrite <- !list_fmap_compose.
  f_equal. f_equal; [f_equal|]; apply list_fmap_ext; intros _ row _; cbn [compose concat fmap list_fmap].
  - rewrite slice_app_l by (rewrite length_fmap, (proj1 HA); lia).
    replace (nh * d) with (length (rdot row <$> A)) by (rewrite length_fmap; apply HA). apply slice_all.
  - rewrite slice_app_r by (rewrite length_fmap, (proj1 HA); lia). rewrite length_fmap, (proj1 HA), Nat.sub_diag.
    rewrite slice_app_l by (rewrite length_fmap, (proj1 HB); lia).
    replace (nkv * d) with (length (rdot row <$> B)) by (rewrite length_fmap; apply HB). apply slice_all.
  - rewrite slice_app_r by (rewrite length_fmap, (proj1 HA); lia). rewrite slice_app_r by (rewrite !length_fmap, (proj1 HA), (proj1 HB); lia).
    rewrite !length_fmap, (proj1 HA), (proj1 HB). rewrite app_nil_r.
    replace (nh * d + nkv * d - nh * d - nkv * d) with 0 by lia.
    replace (nkv * d) with (length (rdot row <$> C)) by (rewrite length_fmap; apply HC). apply slice_all.
Qed.

(** The normed and rotated heads of a rank. *)
Lemma heads_exact r n w positions (y : mat) : r < T -> length w = d -> Forall (fun row => length row = T * (n * d)) y ->
  length positions = length y -> Forall (fun p => p < length (cos_sin_cache config)) positions ->
  (x ← mapM_r (fun row => rms_forward (rms_norm_eps config) (Vec w) (view_heads n d row)) ((fun row => shard r (n * d) row) <$> y);
   rotary (cos_sin_cache config) positions x)
  = Ok (lslice (r * n) n <$> ref_heads config (T * n) w positions y).
Proof using Hsh.
  intros Hr Hw Hy Hlen Hp. pose proof (shard_bound r T (n * d) Hr) as Hb. rewrite Forall_forall in Hy.
  rewrite (mapM_r_fmap _ _ (fun row => rms_row (rms_norm_eps config) w <$> view_heads n d (shard r (n * d) row))).
  2: { intros row Hrow. apply rms_forward_Ok. rewrite Hw. apply view_heads_lengths. apply length_slice. rewrite (Hy _ Hrow). done. }
  cbn [mbind result_bind]. unfold rotary. rewrite <- (list_fmap_id positions) at 1.
  rewrite (mapM_r_fmap _ _ (fun p => default [] (cos_sin_cache config !! p))).
  2: { intros p Hpin. rewrite Forall_forall in Hp. destruct (lookup_lt_is_Some_2 _ _ (Hp _ Hpin)) as [row Hrow]. cbn. by rewrite Hrow. }
  cbn [mbind result_bind]. f_equal. unfold ref_heads. rewrite (as_head_dim Hsh).
  apply list_eq. intros t. rewrite list_lookup_fmap, !lookup_zip_with, !list_lookup_fmap.
  destruct (positions !! t) as [p|] eqn:Hpt; [|done]. destruct (y !! t) as [row|] eqn:Hyt; [|done]. cbn. f_equal.
  rewrite (view_heads_slice T) by (done || (rewrite (Hy row) by (by eapply list_elem_of_lookup_2); lia)).
  by rewrite slice_fmap, <- list_fmap_compose.
Qed.

(** The outputs of the reference attention by key-value head. *)
Definition ref_outs (i : nat) (positions : list nat) (caches : list K) (x : mat) : list (list mat * K) :=
  gqa_attend g caches
    (ref_heads config (T * nh) (ckv (WLayer i QNorm)) positions (ref_linear (ckm (WLayer i QProj)) x))
    (ref_heads config (T * nkv) (ckv (WLayer i KNorm)) positions (ref_linear (ckm (WLayer i KProj)) x))
    (view_heads (T * nkv) d <$> ref_linear (ckm (WLayer i VProj)) x).

Lemma div_cancel_l a b c : 0 < a -> b = a * c -> b / a = c.
Proof. intros Ha ->. rewrite Nat.mul_comm, Nat.div_mul by lia. done. Qed.

Lemma ref_attention_outs i positions caches x :
  ref_attention config ckm ckv i positions caches x
  = (ref_linear (ckm (WLayer i OProj)) (flatten_heads (length x) (fst <$> ref_outs i positions caches x)), snd <$> ref_outs i positions caches x).
Proof using Hsh.
  unfold ref_attention, ref_outs. rewrite (as_heads Hsh), (as_kv_heads Hsh), (as_head_dim Hsh).
  destruct (as_pos Hsh) as (? & ? & ? & _). by rewrite (div_cancel_l (T * nkv) _ g) by nia.
Qed.

Lemma ref_heads_shape n w positions (y : mat) : length w = d -> Forall (fun row => length row = n * d) y ->
  length positions = length y -> Forall (fun p => p < length (cos_sin_cache config)) positions ->
  length (ref_heads config n w positions y) = length y /\
  Forall (fun heads => length heads = n /\ Forall (fun h => length h = d) heads) (ref_heads config n w positions y).
Proof using Hsh.
  intros Hw Hy Hl Hp. unfold ref_heads. split; [rewrite length_zip_with; lia|].
  rewrite Forall_lookup. intros t heads Ht. rewrite lookup_zip_with in Ht.
  destruct (positions !! t) as [p|] eqn:Hpt; [|done]. destruct (y !! t) as [row|] eqn:Hyt; [|done]. cbn in Ht. injection Ht as <-.
  rewrite (as_head_dim Hsh). split; [by rewrite length_fmap, length_view_heads|].
  rewrite Forall_lookup in Hy. apply Forall_fmap. eapply Forall_impl; [apply view_heads_lengths; by eapply Hy|].
  intros h Hh. cbn in *. rewrite Forall_lookup in Hp. specialize (Hp _ _ Hpt). destruct (lookup_lt_is_Some_2 _ _ Hp) as [cs Hcs].
  rewrite Hcs. apply rotary_length; [|by rewrite rms_row_length; lia].
  pose proof (as_rope Hsh) as Hrope. rewrite Forall_lookup in Hrope. by eapply Hrope.
Qed.

Lemma flatten_heads_slice r tokens n c (outs : list (list mat)) : r < T -> length outs = T * n ->
  (forall j out t, outs !! j = Some out -> t < tokens -> length (concat (default [] (out !! t))) = c) ->
  flatten_heads tokens (lslice (r * n) n outs) = (fun row => lslice (r * (n * c)) (n * c) row) <$> flatten_heads tokens outs.
Proof.
  intros Hr Hn Hc. pose proof (shard_bound r T n Hr). unfold flatten_heads. rewrite <- list_fmap_compose.
  apply list_fmap_ext. intros ? t [-> Ht]%lookup_seq. cbn.
  assert (Hcc : forall l : list mat, concat (concat l) = concat ((fun heads => concat heads) <$> l)).
  { clear. induction l as [|a l IH]; [done|]. cbn. by rewrite concat_app, IH. }
  rewrite !Hcc, <- !list_fmap_compose, <- slice_fmap. rewrite (concat_slice c).
  - f_equal; lia.
  - apply Forall_fmap, Forall_lookup. intros j out Hj. cbn. by eapply Hc.
  - by rewrite length_fmap, Hn.
Qed.

Lemma outs_lengths i positions caches x j out t : i < num_hidden_layers config ->
  length positions = length x -> Forall (fun p => p < length (cos_sin_cache config)) positions -> length caches = T * nkv ->
  (fst <$> ref_outs i positions caches x) !! j = Some out -> t < length x -> length (concat (default [] (out !! t))) = g * d.
Proof using Hsh.
  intros Hi Hlen Hp Hc Hj Ht. destruct (as_layer Hsh i Hi) as (Hq & _ & _ & _ & Hqn & _).
  destruct (ref_heads_shape (T * nh) (ckv (WLayer i QNorm)) positions (ref_linear (ckm (WLayer i QProj)) x)) as [Hl1 Hl2];
    [done| |by rewrite ref_linear_length|done|].
  { eapply Forall_impl; [apply ref_linear_lengths|]. intros ? ->. rewrite (proj1 Hq). lia. }
  unfold ref_outs in Hj. eapply (gqa_attend_lengths g (T * nkv)); [|exact Hc| |exact Hj].
  - eapply Forall_impl; [exact Hl2|]. intros heads [Hh1 Hh2]. split; [lia|done].
  - by rewrite Hl1, ref_linear_length.
Qed.

Lemma attention_local_exact m r i positions caches x : r < T -> i < num_hidden_layers config -> rank_model m -> attn_loaded (modules m) r i ->
  Forall (fun row => length row = hid) x -> length positions = length x -> Forall (fun p => p < length (cos_sin_cache config)) positions ->
  length caches = T * nkv ->
  attention_local m i positions (lslice (r * nkv) nkv caches) x
  = Ok ((fun row => shard r (nh * d) row) <$> flatten_heads (length x) (fst <$> ref_outs i positions caches x),
        lslice (r * nkv) nkv (snd <$> ref_outs i positions caches x)).
Proof using Hsh.
  intros Hr Hi [Hworld Hcfg] Hl Hx Hlen Hp Hc. destruct (as_pos Hsh) as (HT & Hg & Hnkv & _).
  destruct (as_layer Hsh i Hi) as (Hq & Hk & Hv & _ & Hqn & Hkn & _).
  unfold attention_local. rewrite Hworld, Hcfg, (as_head_dim Hsh), (as_heads Hsh), (as_kv_heads Hsh).
  rewrite !(div_cancel_l T _ _ HT eq_refl), (div_cancel_l nkv _ _ Hnkv eq_refl).
  unfold get_linear, get_norm. rewrite (al_qkv _ _ _ Hl), (al_q_norm _ _ _ Hl), (al_k_norm _ _ _ Hl). cbn [mbind result_bind].
  destruct (qkv_forward_exact r i x Hr Hi Hx) as (qkv & -> & Hsplit). cbn [mbind result_bind]. rewrite Hsplit. cbn [mbind result_bind].
  assert (HqL : Forall (fun row => length row = T * (nh * d)) (ref_linear (ckm (WLayer i QProj)) x)).
  { rewrite <- (proj1 Hq). apply ref_linear_lengths. }
  assert (HkL : Forall (fun row => length row = T * (nkv * d)) (ref_linear (ckm (WLayer i KProj)) x)).
  { rewrite <- (proj1 Hk). apply ref_linear_lengths. }
  destruct (proj1 (result_bind_Ok _ _ _) (heads_exact r nh _ positions _ Hr Hqn HqL ltac:(by rewrite ref_linear_length) Hp)) as (q & -> & Hrq).
  destruct (proj1 (result_bind_Ok _ _ _) (heads_exact r nkv _ positions _ Hr Hkn HkL ltac:(by rewrite ref_linear_length) Hp)) as (k & -> & Hrk).
  cbn [mbind result_bind]. rewrite Hrq. cbn [mbind result_bind]. rewrite Hrk. cbn [mbind result_bind].
  assert (Hview : view_heads nkv d <$> ((fun row => shard r (nkv * d) row) <$> ref_linear (ckm (WLayer i VProj)) x)
    = lslice (r * nkv) nkv <$> (view_heads (T * nkv) d <$> ref_linear (ckm (WLayer i VProj)) x)).
  { rewrite <- !list_fmap_compose. apply list_fmap_ext. intros t row Ht. cbn. apply view_heads_slice; [done|].
    pose proof (ref_linear_lengths (ckm (WLayer i VProj)) x) as HvL. rewrite Forall_lookup in HvL. rewrite (HvL _ _ Ht), (proj1 Hv). lia. }
  rewrite Hview, (gqa_attend_slice T) by done. fold (ref_outs i positions caches x).
  rewrite !slice_fmap. f_equal. f_equal. rewrite <- slice_fmap. replace (nh * d) with (nkv * (g * d)) by lia.
  apply flatten_heads_slice; [done| |].
  - rewrite length_fmap. unfold ref_outs, gqa_attend. by rewrite length_imap.
  - intros j out t Hj Ht. by eapply outs_lengths.
Qed.

Section group.
(** The models of a group, by rank. *)
Context (M : nat -> Model R).
Notation group := (M <$> seq 0 T).
Notation everywhere x := ((fun _ : nat => x) <$> seq 0 T).
Notation by_rank c := ((fun r => lslice (r * nkv) nkv c) <$> seq 0 T).

Definition attn_group_loaded (i : nat) : Prop := forall r, r < T -> rank_model (M r) /\ attn_loaded (modules (M r)) r i.

Lemma replicate_seq {A} (a : A) n : replicate n a = (fun _ => a) <$> seq 0 n.
Proof.
  generalize 0. induction n as [|n IH]; intros k; [done|]. cbn. f_equal. apply IH.
Qed.

Lemma attention_forward_exact env i positions caches x : i < num_hidden_layers config -> attn_group_loaded i ->
  Forall (fun row => length row = hid) x -> length positions = length x -> Forall (fun p => p < length (cos_sin_cache config)) positions ->
  length caches = T * nkv ->
  attention_forward env group i positions (by_rank caches) (everywhere x)
  = Ok (everywhere (ref_attention config ckm ckv i positions caches x).1, by_rank (ref_attention config ckm ckv i positions caches x).2).
Proof using Hsh.
  intros Hi Hg Hx Hlen Hp Hc. destruct (as_pos Hsh) as (HT & Hgp & Hnkv & Hhf & Hhid).
  destruct (as_layer Hsh i Hi) as (_ & _ & _ & Ho & _). unfold attention_forward. rewrite !zip_fmap_fmap.
  rewrite (mapM_r_fmap_seq _ _ (fun r => ((fun row => shard r (nh * d) row) <$> flatten_heads (length x) (fst <$> ref_outs i positions caches x),
        lslice (r * nkv) nkv (snd <$> ref_outs i positions caches x)))).
  2: { intros r Hr. cbn. destruct (Hg r Hr). by apply attention_local_exact. }
  cbn [mbind result_bind].
  rewrite (mapM_r_fmap_seq _ _ (fun r => mk_linear RowParallelLinear (Some 1) r T (Mat (lslice (r * (nh * d)) (nh * d) <$> ckm (WLayer i OProj))) None)).
  2: { intros r Hr. destruct (Hg r Hr) as [_ Hl]. unfold get_linear. by rewrite (al_o _ _ _ Hl). }
  cbn [mbind result_bind]. rewrite <- !list_fmap_compose. cbn [compose].
  unfold compose. cbn [fst snd]. rewrite (row_forward_exact env T (nh * d) hid (ckm (WLayer i OProj))); [|done|done|done|].
  - cbn [mbind result_bind]. by rewrite ref_attention_outs, replicate_seq.
  - unfold flatten_heads. apply Forall_fmap, Forall_seq. intros t Ht. cbn.
    assert (Hcc : forall l : list mat, concat (concat l) = concat ((fun heads => concat heads) <$> l)).
    { clear. induction l as [|a l IH]; [done|]. cbn. by rewrite concat_app, IH. }
    rewrite Hcc, (length_concat_const (g * d)).
    + rewrite !length_fmap. unfold ref_outs, gqa_attend. rewrite length_imap, Hc. lia.
    + rewrite <- list_fmap_compose. apply Forall_fmap, Forall_lookup. intros j out Hj. cbn. eapply outs_lengths; (done || lia).
Qed.

(** * The residual stream *)

(** The residual stream a layer's input stands for. *)
Definition stream (p : mat * option mat) : mat := match p.2 with Some residual => madd p.1 residual | None => p.1 end.

Notation rows_ok x := (Forall (fun row => length row = hid) x).

Lemma norm_forward_exact path w hr : (forall r, r < T -> rank_model (M r) /\ modules (M r) !! path = Some (MNorm (Vec w))) ->
  length w = hid -> rows_ok (stream hr) ->
  norm_forward group path (everywhere hr) = Ok (everywhere (ref_norm config w (stream hr), stream hr)).
Proof.
  intros Hm Hw Hx. unfold norm_forward. rewrite zip_fmap_fmap. apply mapM_r_fmap_seq. intros r Hr. cbn [fst snd].
  destruct (Hm r Hr) as [[_ Hcfg] Hn]. unfold get_norm. rewrite Hn, Hcfg. cbn [mbind result_bind].
  destruct hr as [h [residual|]]; unfold stream in *; cbn [fst snd] in *.
  - unfold add_rms_forward. rewrite rms_forward_Ok; [done|]. by rewrite Hw.
  - rewrite rms_forward_Ok; [done|]. by rewrite Hw.
Qed.

Lemma ref_norm_rows w x : length w = hid -> rows_ok x -> rows_ok (ref_norm config w x) /\ length (ref_norm config w x) = length x.
Proof.
  intros Hw Hx. split; [|by apply length_fmap]. apply Forall_fmap. eapply Forall_impl; [exact Hx|]. intros row Hrow. cbn in *.
  rewrite rms_row_length; lia.
Qed.

End group.
End attention.

Context (Hsh : well_shaped).

(** * Layers of a group *)

Section group.
(** The models of a group, by rank. *)
Context (M : nat -> Model R).
Notation group := (M <$> seq 0 T).
Notation everywhere x := ((fun _ : nat => x) <$> seq 0 T).
Notation by_rank c := ((fun r => lslice (r * nkv) nkv c) <$> seq 0 T).
Notation rows_ok x := (Forall (fun row => length row = hid) x).

Definition group_loaded (i : nat) : Prop := forall r, r < T -> rank_model (M r) /\ layer_loaded (modules (M r)) r i.

Lemma group_loaded_attn i : group_loaded i -> attn_group_loaded M i.
Proof. intros Hg r Hr. destruct (Hg r Hr). split; [done|by apply layer_loaded_attn]. Qed.

Lemma silu_and_mul_app (a b : list R) : length a = length b -> silu_and_mul (a ++ b) = zip_with (fun a b => rmul (silu a) b) a b.
Proof.
  intros Hl. unfold silu_and_mul. rewrite length_app, <- Hl.
  assert ((length a + length a + 1) / 2 = length a) as ->. { symmetry. apply (Nat.div_unique _ _ _ 1); lia. }
  by rewrite take_app_length, drop_app_length.
Qed.

Lemma mlp_forward_exact env i x : i < num_hidden_layers config -> group_loaded i -> Forall (fun row => length row = hid) x ->
  mlp_forward env group i (everywhere x) = Ok (everywhere (ref_mlp ckm i x)).
Proof using Hsh.
  intros Hi Hg Hx. destruct (sh_pos Hsh) as (HT & Hgp & Hnkv & Hhf & Hhid & HI & _).
  destruct (sh_layer Hsh i Hi) as (_ & _ & _ & _ & Hgate & Hup & Hdown & _). unfold mlp_forward. rewrite !zip_fmap_fmap.
  set (act := zip_with (zip_with (fun a b => rmul (silu a) b)) (ref_linear (ckm (WLayer i GateProj)) x) (ref_linear (ckm (WLayer i UpProj)) x)).
  rewrite (mapM_r_fmap_seq _ _ (fun r => lslice (r * I) I <$> act)).
  2: { intros r Hr. pose proof (shard_bound r T I Hr). cbn [fst snd]. destruct (Hg r Hr) as [_ Hl]. unfold get_linear. rewrite (ll_gate_up _ _ _ Hl).
    cbn [mbind result_bind]. set (A := shard r I (ckm (WLayer i GateProj))). set (B := shard r I (ckm (WLayer i UpProj))).
    assert (HA : is_mat I hid A) by (eapply is_mat_slice; [exact Hgate|done]).
    assert (HB : is_mat I hid B) by (eapply is_mat_slice; [exact Hup|done]).
    pose proof (linear_forward_packed (MergedColumnParallelLinear [T * I; T * I]) r [A; B] hid x) as Hlin. cbn [concat] in Hlin.
    rewrite !app_nil_r in Hlin. rewrite Hlin; [| |repeat constructor; by (apply HA || apply HB)|done].
    2: { rewrite length_app, (proj1 HA). lia. }
    cbn [mbind result_bind]. f_equal. unfold act_forward, act, ref_linear. rewrite <- list_fmap_compose, zip_with_fmap_fmap, <- list_fmap_compose.
    apply list_fmap_ext. intros _ row _. unfold compose. cbn [concat fmap list_fmap]. rewrite app_nil_r, silu_and_mul_app by (rewrite !length_fmap, (proj1 HA), (proj1 HB); done).
    by rewrite slice_zip_with, !slice_fmap. }
  cbn [mbind result_bind].
  rewrite (mapM_r_fmap_seq _ _ (fun r => mk_linear RowParallelLinear (Some 1) r T (Mat (lslice (r * I) I <$> ckm (WLayer i DownProj))) None)).
  2: { intros r Hr. destruct (Hg r Hr) as [_ Hl]. unfold get_linear. by rewrite (ll_down _ _ _ Hl). }
  cbn [mbind result_bind]. rewrite (row_forward_exact env T I hid (ckm (WLayer i DownProj))); [|done|done|done|].
  - by rewrite replicate_seq.
  - unfold act, ref_linear. rewrite zip_with_fmap_fmap. apply Forall_fmap, Forall_forall. intros row _. cbn.
    rewrite length_zip_with, !length_fmap, (proj1 Hgate), (proj1 Hup). lia.
Qed.

Lemma ref_layer_shape i positions caches x : i < num_hidden_layers config -> rows_ok x ->
  let attn := ref_attention config ckm ckv i positions caches (ref_norm config (ckv (WLayer i InputNorm)) x) in
  rows_ok (madd attn.1 x) /\ length (madd attn.1 x) = length x /\
  rows_ok (ref_layer config ckm ckv i positions caches x).1 /\ length (ref_layer config ckm ckv i positions caches x).1 = length x /\
  length (ref_layer config ckm ckv i positions caches x).2 = length caches.
Proof using Hsh.
  intros Hi Hx attn. destruct (sh_layer Hsh i Hi) as (_ & _ & _ & Ho & _ & _ & Hdown & _ & _ & Hin & Hpost).
  assert (Hlin : forall (w y : mat) n, is_mat hid n w -> length y = length x -> is_mat (length x) hid (ref_linear w y)).
  { intros w y n Hw Hy. split; [by rewrite ref_linear_length|]. rewrite <- (proj1 Hw). apply ref_linear_lengths. }
  destruct (ref_norm_rows _ _ Hin Hx) as [_ Hln].
  assert (Hattn : is_mat (length x) hid attn.1).
  { unfold attn, ref_attention. cbn [fst]. eapply Hlin; [exact Ho|]. unfold flatten_heads. rewrite length_fmap, length_seq. done. }
  assert (Hx1 : is_mat (length x) hid (madd attn.1 x)) by (apply is_mat_madd; [done|by split]).
  destruct (ref_norm_rows _ _ Hpost (proj2 Hx1)) as [_ Hlp].
  assert (Hx2 : is_mat (length x) hid (ref_layer config ckm ckv i positions caches x).1).
  { unfold ref_layer. cbn [fst]. fold attn. apply is_mat_madd; [|done]. unfold ref_mlp. eapply Hlin; [exact Hdown|].
    rewrite length_zip_with, !ref_linear_length, Hlp, (proj1 Hx1). lia. }
  destruct Hx1, Hx2. split_and!; try done. unfold ref_layer, ref_attention. cbn [snd]. rewrite length_fmap. unfold gqa_attend. by rewrite length_imap.
Qed.

(** A decoder layer on a group. *)
Lemma decoder_layer_forward_exact env i positions caches hr : i < num_hidden_layers config -> group_loaded i ->
  rows_ok (stream hr) -> length positions = length (stream hr) -> Forall (fun p => p < length (cos_sin_cache config)) positions ->
  length caches = T * nkv ->
  exists hr', hr'.2 <> None /\ stream hr' = (ref_layer config ckm ckv i positions caches (stream hr)).1 /\
    decoder_layer_forward env group i positions (by_rank caches) (everywhere hr)
    = Ok (everywhere hr', by_rank (ref_layer config ckm ckv i positions caches (stream hr)).2).
Proof using Hsh.
  intros Hi Hg Hx Hlen Hp Hc. destruct (sh_layer Hsh i Hi) as (_ & _ & _ & _ & _ & _ & _ & _ & _ & Hin & Hpost).
  destruct (ref_layer_shape i positions caches _ Hi Hx) as (Hx1 & Hlx1 & _). set (x := stream hr) in *.
  set (attn := ref_attention config ckm ckv i positions caches (ref_norm config (ckv (WLayer i InputNorm)) x)) in *.
  exists (ref_mlp ckm i (ref_norm config (ckv (WLayer i PostNorm)) (madd attn.1 x)), Some (madd attn.1 x)).
  split_and!; [done|done|]. unfold decoder_layer_forward.
  rewrite (norm_forward_exact _ _ (ckv (WLayer i InputNorm))); [|intros r Hr; destruct (Hg r Hr) as [? Hl]; split; [done|by apply (ll_input _ _ _ Hl)]|done|done].
  cbn [mbind result_bind]. rewrite <- !list_fmap_compose. unfold compose. cbn [fst snd].
  destruct (ref_norm_rows _ _ Hin Hx) as [Hn1 Hn2]. fold x in Hn1, Hn2 |- *.
  rewrite (attention_forward_exact (well_shaped_attn Hsh) M env i positions caches) by (done || congruence || by apply group_loaded_attn). cbn [mbind result_bind fst snd]. fold attn.
  rewrite zip_fmap_fmap. change (fun a : nat => (attn.1, Some x)) with (fun _ : nat => (attn.1, Some x)).
  rewrite (norm_forward_exact _ _ (ckv (WLayer i PostNorm)) (attn.1, Some x));
    [|intros r Hr; destruct (Hg r Hr) as [? Hl]; split; [done|by apply (ll_post _ _ _ Hl)]|done|done].
  cbn [mbind result_bind]. rewrite <- !list_fmap_compose. unfold compose. cbn [fst snd]. change (stream (attn.1, Some x)) with (madd attn.1 x).
  destruct (ref_norm_rows _ _ Hpost Hx1) as [Hn3 _]. rewrite (mlp_forward_exact env i) by done. cbn [mbind result_bind].
  by rewrite zip_fmap_fmap.
Qed.

Lemma set_slice_cons {A} s (a : A) l C : s < length C -> set_slice s (a :: l) C = set_slice (S s) l (<[s := a]> C).
Proof.
  intros Hs. unfold set_slice. replace (s + length (a :: l)) with (S s + length l) by (cbn; lia). rewrite (take_S_r _ _ a) by (rewrite list_lookup_insert_eq; done).
  rewrite take_insert_ge by lia. rewrite drop_insert_lt by lia. by rewrite <- app_assoc.
Qed.

(** The layers of a stage. *)
Lemma layers_forward_exact env positions cs s C hr : s + length cs <= num_hidden_layers config ->
  (forall i, s <= i < s + length cs -> group_loaded i) ->
  rows_ok (stream hr) -> length positions = length (stream hr) -> Forall (fun p => p < length (cos_sin_cache config)) positions ->
  Forall (fun c => length c = T * nkv) cs -> lslice s (length cs) C = (fun c => by_rank c) <$> cs ->
  let r := ref_layers config ckm ckv s positions cs (stream hr) in
  exists hr', (cs <> [] -> hr'.2 <> None) /\ (cs = [] -> hr' = hr) /\ stream hr' = r.1 /\ rows_ok r.1 /\ length r.1 = length positions /\
    length r.2 = length cs /\ Forall (fun c => length c = T * nkv) r.2 /\
    layers_forward env group s (s + length cs) positions C (everywhere hr)
    = Ok (everywhere hr', set_slice s ((fun c => by_rank c) <$> r.2) C).
Proof using Hsh.
  revert s C hr. induction cs as [|c cs IH]; intros s C hr Hn Hg Hx Hlen Hp Hcs HC r.
  - exists hr. split_and!; try done. unfold layers_forward. replace (s + length [] - s) with 0 by (cbn; lia). cbn.
    unfold set_slice. cbn. by rewrite Nat.add_0_r, take_drop.
  - cbn [length] in *. apply Forall_cons in Hcs as [Hc Hcs].
    assert (HsC : C !! s = Some (by_rank c)).
    { pose proof (f_equal (fun l => l !! 0) HC) as H0. cbn beta in H0. rewrite lookup_slice in H0. rewrite decide_True in H0 by lia.
      by rewrite Nat.add_0_r in H0. }
    destruct (decoder_layer_forward_exact env s positions c hr) as (hr1 & Hr1 & Hst1 & Hf1); [lia|apply Hg; lia|done..|].
    destruct (ref_layer_shape s positions c (stream hr)) as (_ & _ & Hrows & Hrlen & Hrc); [lia|done|].
    set (l := ref_layer config ckm ckv s positions c (stream hr)) in *.
    destruct (IH (S s) (<[s := by_rank l.2]> C) hr1) as (hr2 & Hr2 & Hr2' & Hst2 & Hrows2 & Hlen2 & Hlc & Hfc & Hf2).
    { lia. } { intros i Hi. apply Hg. lia. } { by rewrite Hst1. } { rewrite Hst1, Hrlen. done. } { done. } { done. }
    { apply list_eq. intros j. pose proof (f_equal (fun l => l !! S j) HC) as Hj. cbn beta in Hj. rewrite lookup_slice in Hj |- *.
      destruct (decide (j < length cs)).
      - rewrite decide_True in Hj by lia. rewrite list_lookup_insert_ne by lia. rewrite <- Nat.add_succ_comm in Hj. done.
      - rewrite decide_False in Hj by lia. by rewrite Hj. }
    rewrite Hst1 in *. exists hr2. unfold r. cbn [ref_layers fst snd length]. fold l. split_and!; try done.
    + intros _. destruct (decide (cs = [])) as [->|Hne]; [by rewrite Hr2'|by apply Hr2].
    + by rewrite Hlc.
    + constructor; [by rewrite Hrc|done].
    + unfold layers_forward in *. replace (s + S (length cs) - s) with (S (length cs)) by lia.
      replace (S s + length cs - S s) with (length cs) in Hf2 by lia. cbn [seq foldM_r fst snd]. rewrite HsC. cbn [of_option mbind result_bind].
      rewrite Hf1. cbn [mbind result_bind fst snd]. rewrite Hf2. rewrite fmap_cons, set_slice_cons; [done|]. by eapply lookup_lt_Some.
Qed.

Lemma ref_layers_app i positions c1 c2 x :
  ref_layers config ckm ckv i positions (c1 ++ c2) x
  = (let r1 := ref_layers config ckm ckv i positions c1 x in
     let r2 := ref_layers config ckm ckv (i + length c1) positions c2 r1.1 in (r2.1, r1.2 ++ r2.2)).
Proof.
  revert i x. induction c1 as [|c c1 IH]; intros i x; cbn [app length ref_layers fst snd].
  - rewrite Nat.add_0_r. by destruct (ref_layers config ckm ckv i positions c2 x).
  - rewrite IH. cbn [fst snd]. by rewrite <- Nat.add_succ_comm.
Qed.
End group.

(** * Stages *)

(** The embedding, or head, of rank [r]. *)
Definition vocab_shard (r : nat) (w : mat) : VocabParallelEmbedding R :=
  mk_embedding r T (T * V) (V * r) (V * r + V) (Mat (lslice (r * V) V w)).

(** The stages of a pipeline: stage [p] holds the layers from [bound p] to [bound (S p)],
    the first the embedding, and the last, which is not empty, the norm and the head. *)
Record pipeline_loaded (pp : nat) (bound : nat -> nat) (MM : nat -> nat -> Model R) : Prop := {
  pl_pp : 0 < pp;
  pl_first : bound 0 = 0;
  pl_last : bound pp = num_hidden_layers config;
  pl_mono : forall p, p < pp -> bound p <= bound (S p);
  pl_last_layers : bound (pp - 1) < bound pp;
  pl_model : forall p r, p < pp -> r < T ->
    rank_model (MM p r) /\
    is_first_pp_stage (MM p r) = bool_decide (p = 0) /\ is_last_pp_stage (MM p r) = bool_decide (p = pp - 1) /\
    start_layer (MM p r) = bound p /\ end_layer (MM p r) = bound (S p) /\
    (forall i, bound p <= i < bound (S p) -> layer_loaded (modules (MM p r)) r i) /\
    (p = 0 -> get_embedding (MM p r) (lit "model.embed_tokens") = Ok (vocab_shard r (ckm WEmbed))) /\
    (p = pp - 1 -> modules (MM p r) !! lit "model.norm" = Some (MNorm (Vec (ckv WNorm)))) /\
    (p = pp - 1 -> get_embedding (MM p r) (lit "lm_head") = Ok (vocab_shard r (ckm (if tie_word_embeddings config then WEmbed else WHead))))
}.

Notation group M := (M <$> seq 0 T).
Notation everywhere x := ((fun _ : nat => x) <$> seq 0 T).
Notation by_rank c := ((fun r => lslice (r * nkv) nkv c) <$> seq 0 T).
Notation rows_ok x := (Forall (fun row => length row = hid) x).

Section pipeline.
Context (pp : nat) (bound : nat -> nat) (MM : nat -> nat -> Model R) (Hpl : pipeline_loaded pp bound MM).
Context (env : CommEnv) (input_ids : list Z) (positions : list nat) (inputs_embeds : option mat).
Context (Hids : inputs_embeds = None -> Forall (fun t => 0 <= t < Z.of_nat (T * V))%Z input_ids)
  (Hpos : Forall (fun p => p < length (cos_sin_cache config)) positions).

(** What a stage works on. *)
Definition stage_input (p : nat) (received : mat) : mat :=
  if decide (p = 0) then default (ref_embed ckm input_ids) inputs_embeds else received.

Lemma bound_le p q : p <= q -> q <= pp -> bound p <= bound q.
Proof using Hpl.
  intros Hpq Hq. induction q as [|q IH]; [by assert (p = 0) as -> by lia|].
  destruct (decide (p = S q)) as [->|]; [done|]. pose proof (pl_mono _ _ _ Hpl q). lia.
Qed.

Lemma stage_forward_exact p received old cs new : p < pp -> length cs = bound (S p) - bound p -> length old = bound p ->
  rows_ok (stage_input p received) -> length positions = length (stage_input p received) -> Forall (fun c => length c = T * nkv) cs ->
  let r := ref_layers config ckm ckv (bound p) positions cs (stage_input p received) in
  rows_ok r.1 /\ length r.1 = length positions /\ length r.2 = length cs /\
  stage_forward env (group (MM p)) input_ids positions inputs_embeds (everywhere received) (((fun c => by_rank c) <$> old ++ cs ++ new))
  = Ok (if decide (p = pp - 1) then Final (everywhere (Mat (ref_norm config (ckv WNorm) r.1))) else Sent (everywhere r.1),
        (fun c => by_rank c) <$> old ++ r.2 ++ new).
Proof using Hsh Hpl Hids Hpos.
  intros Hp Hcs Hold Hx Hlen Hc r. destruct (sh_pos Hsh) as (HT & _ & _ & _ & _ & _ & HV).
  pose proof (bound_le p (S p) ltac:(lia) ltac:(lia)) as Hb1. pose proof (bound_le (S p) pp ltac:(lia) ltac:(lia)) as Hb2.
  rewrite (pl_last _ _ _ Hpl) in Hb2.
  destruct (layers_forward_exact (MM p) env positions cs (bound p) ((fun c => by_rank c) <$> old ++ cs ++ new) (stage_input p received, None))
    as (hr' & Hne & He & Hst & Hr1 & Hr2 & Hr3 & _ & Hf); try done.
  { lia. }
  { intros i Hi r' Hr'. destruct (pl_model _ _ _ Hpl p r' Hp Hr') as (Hrm & _ & _ & _ & _ & Hll & _). split; [done|]. apply Hll. lia. }
  { rewrite slice_fmap, slice_app_r by lia. rewrite Hold, Nat.sub_diag, slice_app_l by lia. by rewrite slice_all. }
  change (stream (stage_input p received, None)) with (stage_input p received) in *. fold r in Hst, Hr1, Hr2, Hr3, Hf.
  split_and!; try done.
  assert (Hset : set_slice (bound p) ((fun c => by_rank c) <$> r.2) ((fun c => by_rank c) <$> old ++ cs ++ new) = (fun c => by_rank c) <$> old ++ r.2 ++ new).
  { unfold set_slice. rewrite !fmap_app, length_fmap. rewrite take_app_length' by (rewrite length_fmap; lia). f_equal. f_equal.
    rewrite drop_app_ge by (rewrite length_fmap; lia). rewrite drop_app_ge by (rewrite !length_fmap; lia). rewrite !length_fmap.
    replace (bound p + length r.2 - length old - length cs) with 0 by lia. done. }
  rewrite Hset in Hf.
  destruct (pl_model _ _ _ Hpl p 0 Hp HT) as (_ & Hfirst & Hlast & Hstart & Hend & _).
  unfold stage_forward. destruct (group (MM p)) as [|m0 rest] eqn:Hgrp.
  { apply (f_equal length) in Hgrp. rewrite length_fmap, length_seq in Hgrp. cbn in Hgrp. lia. }
  assert (m0 = MM p 0) as ->. { destruct T; [lia|]. cbn in Hgrp. by injection Hgrp. }
  rewrite <- Hgrp in *. rewrite Hfirst, Hlast, Hstart, Hend.
  assert (Hin : (if bool_decide (p = 0) then
              match inputs_embeds with
              | Some x => Ok ((fun _ => x) <$> group (MM p))
              | None => es ← mapM_r (fun m => get_embedding m (lit "model.embed_tokens")) (group (MM p)); embedding_forward env es input_ids
              end else Ok (everywhere received)) = Ok (everywhere (stage_input p received))).
  { unfold stage_input. destruct (decide (p = 0)) as [Hp0|Hp0]; [rewrite bool_decide_eq_true_2 by done|by rewrite bool_decide_eq_false_2].
    destruct inputs_embeds as [x|]; [by rewrite <- list_fmap_compose|]. cbn [default].
    rewrite (mapM_r_fmap_seq _ _ (fun r => vocab_shard r (ckm WEmbed))).
    2: { intros r' Hr'. destruct (pl_model _ _ _ Hpl p r' Hp Hr') as (_ & _ & _ & _ & _ & _ & Hemb & _). by apply Hemb. }
    cbn [mbind result_bind]. unfold vocab_shard. rewrite (embedding_forward_exact env T V hid (T * V) (ckm WEmbed));
      [by rewrite replicate_seq|done|apply Hsh|by apply Hids]. }
  rewrite Hin. cbn [mbind result_bind]. rewrite <- list_fmap_compose. unfold compose.
  replace (bound p + length cs) with (bound (S p)) in Hf by lia. rewrite Hf. cbn [mbind result_bind fst snd].
  destruct (decide (p = pp - 1)) as [Hpl1|Hpl1]; [rewrite bool_decide_eq_true_2 by done|rewrite bool_decide_eq_false_2 by done].
  - rewrite zip_fmap_fmap, (mapM_r_fmap_seq _ _ (fun _ => Mat (ref_norm config (ckv WNorm) r.1))); [done|].
    intros r' Hr'. cbn [fst snd]. destruct (pl_model _ _ _ Hpl p r' Hp Hr') as ([_ Hcfg] & _ & _ & _ & _ & _ & _ & Hnorm & _).
    unfold final_norm, get_norm. rewrite (Hnorm Hpl1), Hcfg. cbn [mbind result_bind].
    assert (Hcsne : cs <> []). { pose proof (pl_last_layers _ _ _ Hpl). intros Hcs0. rewrite Hcs0 in Hcs. cbn [length] in Hcs. replace (S p) with pp in Hcs by lia.
      replace p with (pp - 1) in Hcs by lia. lia. }
    specialize (Hne Hcsne). destruct hr' as [h [residual|]]; [|done]. cbn [fst snd]. unfold stream in Hst. cbn [fst snd] in Hst.
    unfold add_rms_forward. rewrite Hst, rms_forward_Ok; [done|]. by rewrite (sh_norm Hsh).
  - f_equal. f_equal. rewrite <- list_fmap_compose. f_equal. apply list_fmap_ext. intros _ r' _. exact Hst.
Qed.

(** The pipeline from stage [p] on. *)
Lemma pipeline_forward_exact k p received old cs : p + k = pp -> 0 < k -> length cs = bound pp - bound p -> length old = bound p ->
  rows_ok (stage_input p received) -> length positions = length (stage_input p received) -> Forall (fun c => length c = T * nkv) cs ->
  let r := ref_layers config ckm ckv (bound p) positions cs (stage_input p received) in
  pipeline_forward env ((fun p => group (MM p)) <$> seq p k) input_ids positions inputs_embeds (everywhere received) ((fun c => by_rank c) <$> old ++ cs)
  = Ok (everywhere (Mat (ref_norm config (ckv WNorm) r.1)), (fun c => by_rank c) <$> old ++ r.2).
Proof using Hsh Hpl Hids Hpos.
  revert p received old cs. induction k as [|k IH]; intros p received old cs Hk Hk0 Hcs Hold Hx Hlen Hc r; [lia|].
  pose proof (bound_le p (S p) ltac:(lia) ltac:(lia)) as Hb1. pose proof (bound_le (S p) pp ltac:(lia) ltac:(lia)) as Hb2.
  set (now := take (bound (S p) - bound p) cs). set (later := drop (bound (S p) - bound p) cs).
  assert (Hsplit : cs = now ++ later) by (symmetry; apply take_drop).
  assert (Hnow : length now = bound (S p) - bound p) by (unfold now; rewrite length_take; lia).
  destruct (stage_forward_exact p received old now later) as (Hr1 & Hr2 & Hr3 & Hf); try done; [lia|by apply Forall_take|].
  set (r1 := ref_layers config ckm ckv (bound p) positions now (stage_input p received)) in *.
  cbn [seq fmap list_fmap pipeline_forward]. rewrite Hsplit, Hf. cbn [mbind result_bind fst snd].
  assert (Hr : r = (let r2 := ref_layers config ckm ckv (bound (S p)) positions later r1.1 in (r2.1, r1.2 ++ r2.2))).
  { unfold r. rewrite Hsplit, ref_layers_app. cbn zeta. fold r1. replace (bound p + length now) with (bound (S p)) by lia. done. }
  rewrite Hr. cbn [fst snd]. case_decide as Hlast.
  - assert (later = []) as ->. { apply nil_length_inv. unfold later. rewrite length_drop. replace (S p) with pp by lia. lia. }
    cbn [ref_layers fst snd]. by rewrite app_nil_r.
  - rewrite (app_assoc old), (app_assoc old). rewrite IH; [done|lia|lia| | | | |].
    + unfold later. rewrite length_drop. lia.
    + rewrite length_app. lia.
    + done.
    + done.
    + by apply Forall_drop.
Qed.
End pipeline.
End exact.
