(* ===== verification/Qwen3Load.v ===== *)
(** Loading a Qwen3 checkpoint: on every tensor-parallel rank and pipeline stage the loader
    of [Qwen3] leaves exactly the shards that [Qwen3Exact] computes with, in whatever order
    the checkpoint lists its weights; and the theorem that the sharded model computes the
    reference. *)

From S2P Require Import Prelude PyStr PipelineParallel TensorParallel Qwen3 Qwen3Exact.

Open Scope nat_scope.

(** * Names *)

Lemma digit_of_spec n : n < 10 -> is_digit (digit_of n) = true /\ (Z.of_nat (code (digit_of n)) - 48)%Z = Z.of_nat n.
Proof. intros. do 10 (destruct n as [|n]; [done|]). lia. Qed.

Lemma str_go_spec fuel n : n < fuel ->
  forallb is_digit (str_go fuel n) = true /\ str_go fuel n <> [] /\ int_of_digits (str_go fuel n) = Z.of_nat n.
Proof.
  revert n. induction fuel as [|fuel IH]; intros n Hn; [lia|]. cbn [str_go]. case_decide as H10.
  - destruct (digit_of_spec n H10) as [Hd Hv]. cbn. rewrite Hd. unfold int_of_digits. cbn -[code digit_of Z.of_nat Z.sub]. split_and!; [done|done|lia].
  - assert (n / 10 < n) by (apply Nat.div_lt; lia). destruct (IH (n / 10)) as (Hd & Hne & Hv); [lia|].
    destruct (digit_of_spec (n mod 10)) as [Hd' Hv']; [by apply Nat.mod_upper_bound|].
    rewrite forallb_app, Hd. cbn [forallb]. rewrite Hd'. split_and!; [done|by destruct (str_go fuel (n / 10))|].
    unfold int_of_digits in *. rewrite foldl_app, Hv. cbn [foldl]. rewrite Hv'. pose proof (Nat.div_mod n 10 ltac:(lia)). lia.
Qed.

Lemma str_nat_spec n : forallb is_digit (str_nat n) = true /\ str_nat n <> [] /\ int_of_digits (str_nat n) = Z.of_nat n.
Proof. apply str_go_spec. lia. Qed.

Lemma span_digits_app s c t : forallb is_digit s = true -> is_digit c = false -> span_digits (s ++ c :: t) = s.
Proof.
  intros Hs Hc. induction s as [|a s IH]; cbn in *; [by rewrite Hc|]. apply andb_true_iff in Hs as [-> Hs]. by rewrite IH.
Qed.

Lemma str_nat_inj i j s t : str_nat i ++ lit "." ++ s = str_nat j ++ lit "." ++ t -> i = j /\ s = t.
Proof.
  intros He. destruct (str_nat_spec i) as (Hi & _ & Hvi). destruct (str_nat_spec j) as (Hj & _ & Hvj).
  pose proof (f_equal span_digits He) as Hs. cbn [lit String.list_ascii_of_string app] in Hs. rewrite !span_digits_app in Hs by done.
  assert (i = j) as -> by (rewrite Hs in Hvi; lia). split; [done|]. apply app_inv_head in He. by injection He.
Qed.

Lemma layer_prefix_inj i j s t : layer_prefix i ++ s = layer_prefix j ++ t -> i = j /\ s = t.
Proof.
  unfold layer_prefix. rewrite <- !app_assoc. intros He. apply app_inv_head in He. by apply str_nat_inj.
Qed.

(** Text before a name that does not contain the first character of what is looked for. *)
Lemma find_skip (pre s k : pystr) c : c ∉ pre -> find (c :: k) (pre ++ s) = (fun i => length pre + i) <$> find (c :: k) s.
Proof.
  induction pre as [|a pre IH]; intros Hc; [cbn; by destruct (find (c :: k) s)|]. apply not_elem_of_cons in Hc as [Hac Hc].
  cbn [app find]. unfold startswith at 1. rewrite bool_decide_eq_false_2.
  - rewrite IH by done. by destruct (find (c :: k) s).
  - intros [r Hr]. by injection Hr as ->.
Qed.

Lemma contains_skip (pre s k : pystr) c : c ∉ pre -> contains (pre ++ s) (c :: k) = contains s (c :: k).
Proof. intros Hc. unfold contains. rewrite find_skip by done. apply bool_decide_ext. by destruct (find (c :: k) s). Qed.

Lemma replace_skip (pre s k v : pystr) c : c ∉ pre -> replace (c :: k) v (pre ++ s) = pre ++ replace (c :: k) v s.
Proof.
  unfold replace. induction pre as [|a pre IH]; intros Hc; [done|]. apply not_elem_of_cons in Hc as [Hac Hc].
  cbn [app replace_from]. unfold startswith at 1. rewrite bool_decide_eq_false_2.
  - by rewrite IH.
  - intros [r Hr]. by injection Hr as ->.
Qed.

Lemma rpartition_skip (pre s a b : pystr) : rpartition s = Some (a, b) -> rpartition (pre ++ s) = Some (pre ++ a, b).
Proof. intros Hs. induction pre as [|c pre IH]; [done|]. cbn [app rpartition]. by rewrite IH. Qed.

Lemma layer_prefix_chars c i : is_digit c = false -> c ∉ lit "model.layers." -> c ∉ layer_prefix i.
Proof.
  intros Hd Hl. unfold layer_prefix. rewrite !not_elem_of_app. destruct (str_nat_spec i) as (Hi & _ & _). split_and!; [done| |].
  - intros Hin. rewrite forallb_forall in Hi. specialize (Hi c). rewrite Hi in Hd; [done|]. by apply list_elem_of_In.
  - intros Hc%list_elem_of_singleton. subst. apply Hl. vm_compute. set_solver.
Qed.

Lemma contains_missing c (s k : pystr) : c ∈ k -> c ∉ s -> contains s k = false.
Proof.
  intros Hk Hs. unfold contains. apply bool_decide_eq_false_2. intros [i Hi]. apply find_Some in Hi as [[_ [r Hr]] _]. apply Hs.
  rewrite <- (take_drop i s), Hr, !elem_of_app. right. by left.
Qed.

Lemma search_cons c s : ~ lit "layers." `prefix_of` c :: s -> search_layer_digits (c :: s) = search_layer_digits s.
Proof. intros Hn. cbn [search_layer_digits]. unfold layer_digits_here, startswith. by rewrite bool_decide_eq_false_2. Qed.

Lemma search_layer_digits_layer i s : search_layer_digits (layer_prefix i ++ s) = Some (str_nat i).
Proof.
  destruct (str_nat_spec i) as (Hd & Hne & _). unfold layer_prefix. rewrite <- !app_assoc.
  assert (Hhere : layer_digits_here (lit "layers." ++ str_nat i ++ lit "." ++ s) = Some (str_nat i)).
  { unfold layer_digits_here, startswith. rewrite bool_decide_eq_true_2 by (by eexists).
    rewrite drop_app_length. cbn [lit String.list_ascii_of_string app]. rewrite span_digits_app by done.
    rewrite decide_False by done. rewrite drop_app_length, bool_decide_eq_true_2; [done|]. by eexists. }
  set (rest := str_nat i ++ lit "." ++ s) in *. change (lit "model.layers.") with (lit "model." ++ lit "layers."). rewrite <- app_assoc.
  set (tail := lit "layers." ++ rest) in *.
  assert (Ht : search_layer_digits tail = Some (str_nat i)).
  { destruct tail as [|c tail'] eqn:Etail; [done|]. cbn [search_layer_digits]. by rewrite Hhere. }
  change (lit "model." ++ tail) with ("m" :: "o" :: "d" :: "e" :: "l" :: "." :: tail)%char.
  by repeat (rewrite search_cons by (intros [r Hr]; discriminate Hr)).
Qed.

(** * Modules and the weights they receive *)

Inductive layer_module := QkvMod | OMod | QNormMod | KNormMod | GateUpMod | DownMod | InputMod | PostMod.

Inductive mpath := PEmbed | PNorm | PHead | PLayer (i : nat) (lm : layer_module).

#[export] Instance layer_module_eq_dec : EqDecision layer_module.
Proof. solve_decision. Defined.
#[export] Instance mpath_eq_dec : EqDecision mpath.
Proof. solve_decision. Defined.

Definition layer_module_str (lm : layer_module) : string :=
  match lm with
  | QkvMod => "self_attn.qkv_proj"
  | OMod => "self_attn.o_proj"
  | QNormMod => "self_attn.q_norm"
  | KNormMod => "self_attn.k_norm"
  | GateUpMod => "mlp.gate_up_proj"
  | DownMod => "mlp.down_proj"
  | InputMod => "input_layernorm"
  | PostMod => "post_attention_layernorm"
  end.

Definition mpath_str (p : mpath) : pystr :=
  match p with
  | PEmbed => lit "model.embed_tokens"
  | PNorm => lit "model.norm"
  | PHead => lit "lm_head"
  | PLayer i lm => layer_prefix i ++ lit (layer_module_str lm)
  end.

Lemma mpath_str_layer_ne i lm p : (forall j lm', p <> PLayer j lm') -> mpath_str (PLayer i lm) <> mpath_str p.
Proof.
  intros Hp. cbn [mpath_str]. unfold layer_prefix. rewrite <- !app_assoc.
  destruct p; cbn [mpath_str lit String.list_ascii_of_string app]; try discriminate. by destruct (Hp i0 lm0).
Qed.

#[export] Instance mpath_str_inj : Inj (=) (=) mpath_str.
Proof.
  intros p q Heq. destruct (decide (p = q)) as [|Hne]; [done|]. exfalso.
  destruct p as [| | |i lm], q as [| | |j lm']; try done;
    try (by apply (mpath_str_layer_ne i lm) in Heq); try (by symmetry in Heq; apply (mpath_str_layer_ne j lm') in Heq).
  apply layer_prefix_inj in Heq as [-> Hs]. apply Hne. f_equal. by destruct lm, lm'.
Qed.

(** The module a weight is loaded into, and its shard there. *)
Definition layer_target (w : layer_weight) : layer_module * option shard_id :=
  match w with
  | QProj => (QkvMod, Some (ShardStr "q"))
  | KProj => (QkvMod, Some (ShardStr "k"))
  | VProj => (QkvMod, Some (ShardStr "v"))
  | OProj => (OMod, None)
  | QNorm => (QNormMod, None)
  | KNorm => (KNormMod, None)
  | GateProj => (GateUpMod, Some (ShardInt 0))
  | UpProj => (GateUpMod, Some (ShardInt 1))
  | DownProj => (DownMod, None)
  | InputNorm => (InputMod, None)
  | PostNorm => (PostMod, None)
  end.

Definition target (w : wname) : mpath * option shard_id :=
  match w with
  | WEmbed => (PEmbed, None)
  | WNorm => (PNorm, None)
  | WHead => (PHead, None)
  | WLayer i w => (PLayer i (layer_target w).1, (layer_target w).2)
  end.

Section loading.
Context {R K : Type} `{!Numerics R K}.
Implicit Types ms : gmap pystr (module R).

Lemma get_parameter_weight ms path m : ms !! path = Some m -> get_parameter ms (path ++ lit ".weight") = Some (path, m, true).
Proof.
  intros Hm. unfold get_parameter. rewrite (rpartition_skip path _ [] (lit "weight")) by reflexivity.
  cbn [mbind option_bind]. rewrite app_nil_r, Hm. reflexivity.
Qed.

(** A key that cannot start inside the prefix of a layer. *)
Definition fresh_key (key : pystr) : bool :=
  match key with c :: _ => negb (is_digit c) && negb (bool_decide (c ∈ lit "model.layers.")) | [] => false end.

Lemma fresh_key_cons key i : fresh_key key = true -> exists c k, key = c :: k /\ c ∉ layer_prefix i.
Proof.
  destruct key as [|c k]; [done|]. cbn. rewrite andb_true_iff, !negb_true_iff, bool_decide_eq_false. intros [Hd Hl].
  exists c, k. split; [done|]. by apply layer_prefix_chars.
Qed.

Lemma contains_layer i s key : fresh_key key = true -> contains (layer_prefix i ++ s) key = contains s key.
Proof. intros (c & k & -> & Hc)%(fresh_key_cons key i). by apply contains_skip. Qed.

Lemma replace_layer i s key v : fresh_key key = true -> replace key v (layer_prefix i ++ s) = layer_prefix i ++ replace key v s.
Proof. intros (c & k & -> & Hc)%(fresh_key_cons key i). by apply replace_skip. Qed.

(** The parameter the loader finds for a weight whose module exists. *)
Definition found_parameter ms (w : wname) : option (pystr * module R * bool * option shard_id) :=
  match packed_parameter ms (wname_str w) PACKED_MODULES_MAPPING with
  | Some (param, shard) => Some (param, Some shard)
  | None => (fun param => (param, None)) <$> get_parameter ms (wname_str w)
  end.

Lemma packed_parameter_none ms name mapping : forallb (fun e => negb (contains name e.1)) mapping = true -> packed_parameter ms name mapping = None.
Proof.
  induction mapping as [|[k [v sh]] mapping IH]; [done|]. cbn [forallb fst packed_parameter].
  rewrite andb_true_iff, negb_true_iff. intros [-> Hm]. by apply IH.
Qed.

Lemma layer_not_packed i s : forallb (fun e => negb (contains s e.1)) PACKED_MODULES_MAPPING = true ->
  forallb (fun e => negb (contains (layer_prefix i ++ s) e.1)) PACKED_MODULES_MAPPING = true.
Proof.
  unfold PACKED_MODULES_MAPPING. cbn [forallb fst]. by rewrite !contains_layer by (vm_compute; reflexivity).
Qed.

(** Evaluates [contains] and [replace] on literals. *)
Ltac eval_str :=
  repeat match goal with
  | |- context [contains (lit ?a) (lit ?b)] => let v := eval vm_compute in (contains (lit a) (lit b)) in change (contains (lit a) (lit b)) with v; cbv iota
  | |- context [replace (lit ?k) (lit ?v) (lit ?s)] =>
      let r := eval vm_compute in (replace (lit k) (lit v) (lit s)) in change (replace (lit k) (lit v) (lit s)) with r
  end.

Lemma found_parameter_target ms w m : ms !! mpath_str (target w).1 = Some m ->
  found_parameter ms w = Some (mpath_str (target w).1, m, true, (target w).2).
Proof.
  intros Hm. apply get_parameter_weight in Hm. unfold found_parameter.
  destruct w as [| | |i w]; [| | |destruct w].
  1-3: rewrite packed_parameter_none by (vm_compute; reflexivity); exact (f_equal (fmap (fun param => (param, None))) Hm).
  all: cbn [target fst snd layer_target mpath_str layer_module_str wname_str layer_weight_suffix] in *; rewrite <- app_assoc in Hm.
  4-6, 9-11: rewrite packed_parameter_none by (apply layer_not_packed; vm_compute; reflexivity); exact (f_equal (fmap (fun param => (param, None))) Hm).
  all: unfold PACKED_MODULES_MAPPING; cbn [packed_parameter]; rewrite !contains_layer by (vm_compute; reflexivity); eval_str;
    rewrite !replace_layer by (vm_compute; reflexivity); eval_str;
    match type of Hm with get_parameter _ ?n = _ => match goal with |- context [get_parameter _ ?n'] => change n' with n end end; by rewrite Hm.
Qed.

(** Loading into a module with its own storage. *)
Definition load_module (m : module R) (t : tensor R) (sh : option shard_id) : result (module R) :=
  match m, sh with
  | MLinear l, _ => MLinear <$> load_weight l t sh
  | MEmbedding e, None => MEmbedding <$> embedding_load e t
  | MNorm w, None => MNorm <$> copy_ w t
  | _, _ => Err TypeError
  end.

Lemma run_loader_module ms path m m' t sh : load_module m t sh = Ok m' -> run_loader ms (path, m, true) t sh = Ok (<[path := m']> ms).
Proof.
  intros Hl. destruct m as [l|e|w|p]; cbn in Hl |- *.
  - destruct (load_weight l t sh); cbn in *; by simplify_eq.
  - destruct sh; [done|]. destruct (embedding_load e t); cbn in *; by simplify_eq.
  - destruct sh; [done|]. destruct (copy_ w t); cbn in *; by simplify_eq.
  - by destruct sh.
Qed.

Section stage.
(** A model under construction: what [qwen3_init] sets besides the modules. *)
Context (m : Model R).
Notation tied := (tie_word_embeddings (m_config m)).
Notation n := (num_hidden_layers (m_config m)).

Record stage_ctx : Prop := {
  sc_first : Dist.is_first_pp_stage (pc_dist (m_ctx m)) = Ok (is_first_pp_stage m);
  sc_last : Dist.is_last_pp_stage (pc_dist (m_ctx m)) = Ok (is_last_pp_stage m);
  sc_single : (Dist.pp_world_size (pc_dist (m_ctx m)) <= 1)%Z ->
    is_first_pp_stage m = true /\ is_last_pp_stage m = true /\ start_layer m = 0 /\ end_layer m = n
}.
Context (Hctx : stage_ctx).

(** Where a weight of the checkpoint goes on this stage, if anywhere. *)
Definition acts (w : wname) : option (mpath * option shard_id) :=
  match w with
  | WLayer i _ => if decide (start_layer m <= i < end_layer m) then Some (target w) else None
  | WEmbed => if is_first_pp_stage m then Some (target w) else if tied && is_last_pp_stage m then Some (PHead, None) else None
  | _ => if is_last_pp_stage m then Some (target w) else None
  end.

Lemma load_own_weight_found st w t path mo mo' sh : found_parameter (ls_modules st) w = Some (path, mo, true, sh) ->
  load_module mo t sh = Ok mo' -> load_own_weight st (wname_str w) t = Ok (loaded st (<[path := mo']> (ls_modules st))).
Proof.
  unfold found_parameter, load_own_weight. intros Hf Hl.
  destruct (packed_parameter (ls_modules st) (wname_str w) PACKED_MODULES_MAPPING) as [[param shard]|].
  - injection Hf as -> <-. by rewrite (run_loader_module _ _ _ _ _ _ Hl).
  - destruct (get_parameter (ls_modules st) (wname_str w)) as [param|]; [|done]. injection Hf as -> <-.
    by rewrite (run_loader_module _ _ _ _ _ _ Hl).
Qed.

Lemma load_own_target st w t mo mo' : ls_modules st !! mpath_str (target w).1 = Some mo -> load_module mo t (target w).2 = Ok mo' ->
  load_own_weight st (wname_str w) t = Ok (loaded st (<[mpath_str (target w).1 := mo']> (ls_modules st))).
Proof. intros Hm Hl. eapply load_own_weight_found; [by apply found_parameter_target|done]. Qed.

Lemma load_own_acts st w t :
  let '(p, sh) := target w in
  forall mo mo', ls_modules st !! mpath_str p = Some mo -> load_module mo t sh = Ok mo' ->
    load_own_weight st (wname_str w) t = Ok (loaded st (<[mpath_str p := mo']> (ls_modules st))).
Proof. pose proof (load_own_target st w t) as Ht. by destruct (target w). Qed.

(** Ownership of the weights of the checkpoint. *)
Lemma belongs_spec w : pp_weight_belongs_to_stage (pc_dist (m_ctx m)) (wname_str w) (Z.of_nat (start_layer m)) (Z.of_nat (end_layer m))
  = Ok match w with
       | WLayer i _ => bool_decide (start_layer m <= i < end_layer m)
       | WEmbed => is_first_pp_stage m
       | _ => is_last_pp_stage m
       end.
Proof using Hctx.
  destruct w as [| | |i w]; unfold pp_weight_belongs_to_stage.
  1-3: match goal with |- context [search_layer_digits ?s] => replace (search_layer_digits s) with (@None pystr) by (vm_compute; reflexivity) end;
       repeat match goal with |- context [contains ?a ?b] => let v := eval vm_compute in (contains a b) in change (contains a b) with v end;
       repeat match goal with |- context [startswith ?a ?b] => let v := eval vm_compute in (startswith a b) in change (startswith a b) with v end;
       cbv iota; by (apply (sc_first Hctx) || apply (sc_last Hctx)).
  cbn [wname_str]. rewrite search_layer_digits_layer. destruct (str_nat_spec i) as (_ & _ & ->). f_equal. apply bool_decide_ext. lia.
Qed.

Lemma load_one_acts st w t : (forall i lw, w = WLayer i lw -> i < n) ->
  match acts w with
  | None => load_one m st (wname_str w, t) = Ok st
  | Some (p, sh) => forall mo mo', ls_modules st !! mpath_str p = Some mo -> load_module mo t sh = Ok mo' ->
      load_one m st (wname_str w, t) = Ok (loaded st (<[mpath_str p := mo']> (ls_modules st)))
  end.
Proof using Hctx.
  intros Hw. unfold load_one. case_decide as Hpp.
  - rewrite belongs_spec. cbn [mbind result_bind]. unfold acts. destruct w as [| | |i w].
    + destruct (is_first_pp_stage m); [apply load_own_acts|].
      unfold load_foreign_weight. change (contains (wname_str WEmbed) (lit "embed_tokens")) with (contains (lit "model.embed_tokens.weight") (lit "embed_tokens")).
      replace (contains (lit "model.embed_tokens.weight") (lit "embed_tokens")) with true by (vm_compute; reflexivity). rewrite andb_true_r.
      destruct (tied && is_last_pp_stage m); [|done]. intros mo mo' Hm Hl. cbn [mpath_str] in Hm |- *. rewrite Hm.
      by rewrite (run_loader_module _ _ _ _ _ _ Hl).
    + destruct (is_last_pp_stage m); [apply load_own_acts|]. unfold load_foreign_weight.
      replace (contains (wname_str WNorm) (lit "embed_tokens")) with false by (vm_compute; reflexivity). by rewrite andb_false_r.
    + destruct (is_last_pp_stage m); [apply load_own_acts|]. unfold load_foreign_weight.
      replace (contains (wname_str WHead) (lit "embed_tokens")) with false by (vm_compute; reflexivity). by rewrite andb_false_r.
    + case_decide as Hi.
      * rewrite bool_decide_eq_true_2 by done. apply load_own_acts.
      * rewrite bool_decide_eq_false_2 by done. unfold load_foreign_weight. cbn [wname_str].
        rewrite (contains_missing "b"%char); [by rewrite andb_false_r|vm_compute; set_solver|].
        rewrite not_elem_of_app. split; [apply layer_prefix_chars; [done|vm_compute; set_solver]|]. destruct w; vm_compute; set_solver.
  - destruct (sc_single Hctx) as (Hf & Hl & Hs & He); [lia|]. unfold acts. rewrite Hf, Hl, Hs, He.
    destruct w as [| | |i w]; try apply load_own_acts. rewrite decide_True by (split; [lia|by eapply Hw]). apply load_own_acts.
Qed.

(** * A whole checkpoint *)

Context (tens : wname -> tensor R).

(** What a module receives from a list of weights. *)
Definition receives (p : mpath) (w : wname) : option (tensor R * option shard_id) :=
  match acts w with Some (q, sh) => if decide (q = p) then Some (tens w, sh) else None | None => None end.

Definition load_modules (mo : module R) (es : list (tensor R * option shard_id)) : result (module R) :=
  foldM_r (fun mo e => load_module mo e.1 e.2) mo es.

(** Every module of the stage ends with what it receives, in the order of the checkpoint,
    every weight finds its module, and nothing else changes. *)
Lemma load_all (own : mpath -> Prop) (fin : mpath -> module R) ws : forall (ini : mpath -> module R) st,
  (forall i lw, WLayer i lw ∈ ws -> i < n) ->
  (forall w p sh, w ∈ ws -> acts w = Some (p, sh) -> own p) ->
  (forall p, own p -> ls_modules st !! mpath_str p = Some (ini p) /\ load_modules (ini p) (omap (receives p) ws) = Ok (fin p)) ->
  exists st', foldM_r (load_one m) st ((fun w => (wname_str w, tens w)) <$> ws) = Ok st' /\
    (forall p, own p -> ls_modules st' !! mpath_str p = Some (fin p)) /\
    (forall k, (forall p, own p -> k <> mpath_str p) -> ls_modules st' !! k = ls_modules st !! k) /\
    not_found_names st' = not_found_names st.
Proof using Hctx.
  induction ws as [|w ws IH]; intros ini st Hlt Hown Hini.
  - exists st. split_and!; try done. intros p Hp. destruct (Hini p Hp) as [Hm Hl]. rewrite Hm. cbn in Hl. by injection Hl as ->.
  - pose proof (load_one_acts st w (tens w)) as Hone. cbn [fmap list_fmap foldM_r].
    destruct (acts w) as [[p sh]|] eqn:Hacts.
    + assert (Hp : own p) by (eapply Hown; [by left|done]). destruct (Hini p Hp) as [Hm Hl].
      unfold load_modules in Hl. cbn [omap list_omap] in Hl. unfold receives in Hl at 1. rewrite Hacts, decide_True in Hl by done.
      cbn [foldM_r fst snd] in Hl. destruct (load_module (ini p) (tens w) sh) as [mo'|] eqn:Hload; [|done].
      rewrite (Hone ltac:(intros i lw ->; apply (Hlt i lw); by left) _ _ Hm Hload).
      destruct (IH (fun q => if decide (q = p) then mo' else ini q) (loaded st (<[mpath_str p := mo']> (ls_modules st)))) as (st' & Hf & H1 & H2 & H3).
      { intros. eapply Hlt. by right. } { intros. eapply Hown; [by right|done]. }
      { intros q Hq. cbn [loaded ls_modules]. case_decide as Hqp.
        - subst q. rewrite lookup_insert_eq. done.
        - rewrite lookup_insert_ne by (intros ?%(inj mpath_str); congruence). destruct (Hini q Hq) as [Hmq Hlq]. split; [done|].
          unfold load_modules in Hlq. cbn [omap list_omap] in Hlq. unfold receives in Hlq at 1. by rewrite Hacts, decide_False in Hlq by congruence. }
      exists st'. split_and!; try done. intros k Hk. rewrite H2 by done. cbn [loaded ls_modules]. rewrite lookup_insert_ne; [done|].
      intros Heq. by apply (Hk p Hp).
    + rewrite Hone by (intros i lw ->; apply (Hlt i lw); by left). apply (IH ini); [intros; eapply Hlt; by right|intros; eapply Hown; [by right|done]|].
      intros q Hq. destruct (Hini q Hq) as [Hmq Hlq]. split; [done|]. unfold load_modules in Hlq. cbn [omap list_omap] in Hlq.
      unfold receives in Hlq at 1. by rewrite Hacts in Hlq.
Qed.
End stage.
End loading.

(** * The modules of a rank, before and after *)

Lemma permutation_3 {A} (a b c : A) l : l ≡ₚ [a; b; c] ->
  l = [a; b; c] \/ l = [a; c; b] \/ l = [b; a; c] \/ l = [c; a; b] \/ l = [b; c; a] \/ l = [c; b; a].
Proof.
  intros Hl. apply Permutation_cons_inv_r in Hl as (k1 & k2 & -> & Hk). apply Permutation_length_2_inv in Hk.
  destruct k1 as [|x [|y [|z k1]]]; destruct Hk as [Hk|Hk]; simplify_eq/=; tauto.
Qed.

(** Two or three consecutive parts written in any order. *)
Lemma three_parts {A} (X Y Z l : list A) : length l = length X + length Y + length Z ->
  lslice 0 (length X) l = X -> lslice (length X) (length Y) l = Y -> lslice (length X + length Y) (length Z) l = Z -> l = X ++ Y ++ Z.
Proof.
  intros Hl HX HY HZ. rewrite <- HX at 1. rewrite <- HY at 1. rewrite <- HZ at 1. rewrite app_assoc.
  replace (lslice (length X) (length Y) l) with (lslice (0 + length X) (length Y) l) by done.
  rewrite <- slice_plus. replace (length X + length Y) with (0 + (length X + length Y)) at 2 by done. rewrite <- slice_plus.
  by rewrite <- Hl, slice_all.
Qed.

(** Bounds on the lengths of updated lists, from [Hlen]. *)
Ltac lens Hlen p :=
  repeat match goal with |- context [length (set_slice ?o ?x ?l)] => rewrite (Hlen (set_slice o x l)) by auto end;
  rewrite ?(Hlen p) by auto; lia.

Section rank.
Context {R K : Type} `{!Numerics R K}.
Context (T g nkv hf hid I V r : nat) (Hr : r < T).
Notation nh := (nkv * g).
Notation d := (2 * hf).
Notation mat := (list (list R)) (only parsing).
Notation shard s w := (lslice (r * s) s w) (only parsing).

Notation qkv_linear p := (mk_linear (QKVParallelLinear d nh nkv) (Some 0) r T (Mat p) None).
Notation N := ((nh + 2 * nkv) * d).

Lemma load_qkv_step s off len (p w : mat) : qkv_shard d nh nkv s = Ok (off, len) -> off + len <= N -> is_mat N hid p -> is_mat (T * len) hid w ->
  load_module (MLinear (qkv_linear p)) (Mat w) (Some s) = Ok (MLinear (qkv_linear (set_slice off (shard len w) p))).
Proof using Hr.
  intros Hs Hoff Hp Hw. pose proof (shard_bound r T len Hr) as Hb. cbn [load_module]. unfold load_weight, weight_loader. cbn [l_class tp_dim tp_rank tp_size weight].
  unfold qkv_loader. rewrite Hs. cbn [mbind result_bind default]. rewrite (rank_chunk_rows r T len) by (done || apply Hw).
  cbn [mbind result_bind fst snd]. rewrite (narrow_copy_rows N hid) by (done || (eapply is_mat_slice; [exact Hw|done])). done.
Qed.

Lemma load_qkv es (p wq wk wv : mat) : is_mat N hid p -> is_mat (T * (nh * d)) hid wq -> is_mat (T * (nkv * d)) hid wk -> is_mat (T * (nkv * d)) hid wv ->
  es ≡ₚ [(Mat wq, Some (ShardStr "q")); (Mat wk, Some (ShardStr "k")); (Mat wv, Some (ShardStr "v"))] ->
  load_modules (MLinear (qkv_linear p)) es = Ok (MLinear (qkv_linear (shard (nh * d) wq ++ shard (nkv * d) wk ++ shard (nkv * d) wv))).
Proof using Hr.
  intros Hp Hq Hk Hv Hes. pose proof (shard_bound r T (nh * d) Hr) as Hb1. pose proof (shard_bound r T (nkv * d) Hr) as Hb2.
  assert (HA : is_mat (nh * d) hid (shard (nh * d) wq)) by (eapply is_mat_slice; [exact Hq|done]).
  assert (HB : is_mat (nkv * d) hid (shard (nkv * d) wk)) by (eapply is_mat_slice; [exact Hk|done]).
  assert (HC : is_mat (nkv * d) hid (shard (nkv * d) wv)) by (eapply is_mat_slice; [exact Hv|done]).
  set (A := shard (nh * d) wq) in *. set (B := shard (nkv * d) wk) in *. set (C := shard (nkv * d) wv) in *.
  pose proof (proj1 HA) as LA. pose proof (proj1 HB) as LB. pose proof (proj1 HC) as LC.
  assert (HsA : forall p, is_mat N hid p -> load_module (MLinear (qkv_linear p)) (Mat wq) (Some (ShardStr "q")) = Ok (MLinear (qkv_linear (set_slice 0 A p)))).
  { intros p' Hp'. apply load_qkv_step; (done || lia). }
  assert (HsB : forall p, is_mat N hid p -> load_module (MLinear (qkv_linear p)) (Mat wk) (Some (ShardStr "k")) = Ok (MLinear (qkv_linear (set_slice (length A) B p)))).
  { intros p' Hp'. rewrite LA. apply load_qkv_step; (done || lia). }
  assert (HsC : forall p, is_mat N hid p -> load_module (MLinear (qkv_linear p)) (Mat wv) (Some (ShardStr "v")) = Ok (MLinear (qkv_linear (set_slice (length A + length B) C p)))).
  { intros p' Hp'. rewrite LA, LB. apply load_qkv_step; (done || lia). }
  assert (HmA : forall p, is_mat N hid p -> is_mat N hid (set_slice 0 A p)) by (intros p' Hp'; eapply is_mat_set_slice; [done|exact HA|lia]).
  assert (HmB : forall p, is_mat N hid p -> is_mat N hid (set_slice (length A) B p)) by (intros p' Hp'; eapply is_mat_set_slice; [done|exact HB|lia]).
  assert (HmC : forall p, is_mat N hid p -> is_mat N hid (set_slice (length A + length B) C p)) by (intros p' Hp'; eapply is_mat_set_slice; [done|exact HC|lia]).
  assert (Hlen : forall p : mat, is_mat N hid p -> length p = N) by (intros p' Hp'; apply Hp').
  clearbody A B C.
  apply permutation_3 in Hes. unfold load_modules.
  destruct Hes as [-> | [-> | [-> | [-> | [-> | ->]]]]]; cbn [foldM_r fst snd];
    repeat first [rewrite HsA by auto | rewrite HsB by auto | rewrite HsC by auto]; do 4 f_equal; apply three_parts;
    repeat first [rewrite slice_set_slice by (lens Hlen p) | rewrite slice_set_slice_disjoint by (lens Hlen p)]; (done || lens Hlen p).
Qed.

Notation gate_up_linear p := (mk_linear (MergedColumnParallelLinear [T * I; T * I]) (Some 0) r T (Mat p) None).

Lemma load_gate_up_step k off (p w : mat) : 0 < T -> sum_list (take k [T * I; T * I]) / T = off -> k < 2 -> off + I <= 2 * I ->
  is_mat (2 * I) hid p -> is_mat (T * I) hid w ->
  load_module (MLinear (gate_up_linear p)) (Mat w) (Some (ShardInt k)) = Ok (MLinear (gate_up_linear (set_slice off (shard I w) p))).
Proof using Hr.
  intros HT Ho Hk Hoff Hp Hw. pose proof (shard_bound r T I Hr) as Hb. cbn [load_module]. unfold load_weight, weight_loader. cbn [l_class tp_dim tp_rank tp_size weight].
  unfold merged_loader. cbn [default]. rewrite (rank_chunk_rows r T I) by (done || apply Hw). cbn [mbind result_bind].
  assert ([T * I; T * I] !! k = Some (T * I)) as -> by (destruct k as [|[|k]]; [done|done|lia]). cbn [of_option mbind result_bind].
  rewrite Ho, (div_cancel_l T _ _ HT eq_refl). rewrite (narrow_copy_rows (2 * I) hid) by (done || (eapply is_mat_slice; [exact Hw|done])). done.
Qed.

Lemma load_gate_up es (p wg wu : mat) : is_mat (2 * I) hid p -> is_mat (T * I) hid wg -> is_mat (T * I) hid wu ->
  es ≡ₚ [(Mat wg, Some (ShardInt 0)); (Mat wu, Some (ShardInt 1))] ->
  load_modules (MLinear (gate_up_linear p)) es = Ok (MLinear (gate_up_linear (shard I wg ++ shard I wu))).
Proof using Hr.
  intros Hp Hg Hu Hes. pose proof (shard_bound r T I Hr) as Hb. assert (HT : 0 < T) by lia.
  assert (HA : is_mat I hid (shard I wg)) by (eapply is_mat_slice; [exact Hg|done]).
  assert (HB : is_mat I hid (shard I wu)) by (eapply is_mat_slice; [exact Hu|done]).
  set (A := shard I wg) in *. set (B := shard I wu) in *. pose proof (proj1 HA) as LA. pose proof (proj1 HB) as LB.
  assert (HsA : forall p, is_mat (2 * I) hid p -> load_module (MLinear (gate_up_linear p)) (Mat wg) (Some (ShardInt 0)) = Ok (MLinear (gate_up_linear (set_slice 0 A p)))).
  { intros p' Hp'. apply load_gate_up_step; try (done || lia). cbn. by apply Nat.Div0.div_0_l. }
  assert (HsB : forall p, is_mat (2 * I) hid p -> load_module (MLinear (gate_up_linear p)) (Mat wu) (Some (ShardInt 1)) = Ok (MLinear (gate_up_linear (set_slice (length A) B p)))).
  { intros p' Hp'. rewrite LA. apply load_gate_up_step; try (done || lia). cbn [take sum_list]. rewrite Nat.add_0_r. by apply div_cancel_l. }
  assert (HmA : forall p, is_mat (2 * I) hid p -> is_mat (2 * I) hid (set_slice 0 A p)) by (intros p' Hp'; eapply is_mat_set_slice; [done|exact HA|lia]).
  assert (HmB : forall p, is_mat (2 * I) hid p -> is_mat (2 * I) hid (set_slice (length A) B p)) by (intros p' Hp'; eapply is_mat_set_slice; [done|exact HB|lia]).
  assert (Hlen : forall p : mat, is_mat (2 * I) hid p -> length p = 2 * I) by (intros p' Hp'; apply Hp').
  clearbody A B. symmetry in Hes. apply Permutation_length_2_inv in Hes. unfold load_modules.
  replace (A ++ B) with (A ++ B ++ []) by by rewrite app_nil_r.
  destruct Hes as [-> | ->]; cbn [foldM_r fst snd];
    repeat first [rewrite HsA by auto | rewrite HsB by auto]; do 4 f_equal; apply three_parts; cbn [length];
    repeat first [rewrite slice_set_slice by (lens Hlen p) | rewrite slice_set_slice_disjoint by (lens Hlen p)]; (done || lens Hlen p).
Qed.

Lemma load_row n s (p w : mat) : is_mat n s p -> is_mat n (T * s) w ->
  load_modules (MLinear (mk_linear RowParallelLinear (Some 1) r T (Mat p) None)) [(Mat w, None)]
  = Ok (MLinear (mk_linear RowParallelLinear (Some 1) r T (Mat (lslice (r * s) s <$> w)) None)).
Proof using Hr.
  intros Hp Hw. unfold load_modules. cbn [foldM_r fst snd load_module]. unfold load_weight, weight_loader. cbn [l_class tp_dim tp_rank weight default].
  by rewrite (narrow_loader_cols r T s n).
Qed.

Lemma load_vocab (p w : mat) : is_mat V hid p -> is_mat (T * V) hid w ->
  load_modules (MEmbedding (mk_embedding r T (T * V) (V * r) (V * r + V) (Mat p))) [(Mat w, None)] = Ok (MEmbedding (vocab_shard T V r w)).
Proof using Hr.
  intros Hp Hw. unfold load_modules. cbn [foldM_r fst snd load_module]. unfold embedding_load. cbn [e_tp_rank e_weight].
  by rewrite (narrow_loader_rows r T V hid).
Qed.

Lemma load_norm n (v : list R) : length v = n -> load_modules (norm_init n) [(Vec v, None)] = Ok (MNorm (Vec v)).
Proof.
  intros Hv. unfold load_modules, norm_init. cbn [foldM_r fst snd load_module].
  by rewrite (copy_vec n) by (done || apply length_replicate).
Qed.
End rank.

(** * Construction *)

Lemma divide_exact T a b : 0 < T -> b = T * a -> divide b T = Ok a.
Proof.
  intros HT ->. unfold divide. rewrite decide_False by lia. rewrite Nat.mul_comm, Nat.Div0.mod_mul, decide_True by done.
  by rewrite Nat.div_mul by lia.
Qed.

Lemma list_to_map_paths {R} (f : mpath -> module R) (paths : list mpath) q : q ∈ paths ->
  (list_to_map ((fun p => (mpath_str p, f p)) <$> paths) : gmap pystr (module R)) !! mpath_str q = Some (f q).
Proof.
  induction paths as [|p paths IH]; intros Hq; [by apply not_elem_of_nil in Hq|]. cbn.
  destruct (decide (q = p)) as [->|Hne]; [by rewrite lookup_insert_eq|].
  rewrite lookup_insert_ne by (intros ?%(inj mpath_str); congruence). apply IH. apply elem_of_cons in Hq. naive_solver.
Qed.

Definition layer_mods : list layer_module := [QkvMod; OMod; QNormMod; KNormMod; GateUpMod; DownMod; InputMod; PostMod].

Lemma omap_bind {A B C} (f : B -> option C) (h : A -> list B) l : omap f (l ≫= h) = l ≫= (fun a => omap f (h a)).
Proof. induction l as [|a l IH]; [done|]. rewrite !bind_cons, omap_app. by rewrite IH. Qed.

Lemma omap_ext_fmap {A B C} (f : B -> option C) (h : A -> B) (k : A -> option C) (l : list A) : (forall a, f (h a) = k a) -> omap f (h <$> l) = omap k l.
Proof.
  intros Hk. induction l as [|a l IH]; [done|].
  change (omap f (h <$> a :: l)) with (match f (h a) with Some c => c :: omap f (h <$> l) | None => omap f (h <$> l) end).
  rewrite IH, Hk. done.
Qed.

Lemma omap_none {A B} (f : A -> option B) (l : list A) : (forall a, f a = None) -> omap f l = [].
Proof. intros Hf. induction l as [|a l IH]; [done|]. cbn. by rewrite Hf. Qed.

Lemma bind_single {B} (h : nat -> list B) n i : i < n -> (forall j, j < n -> j <> i -> h j = []) -> seq 0 n ≫= h = h i.
Proof.
  intros Hi Hz. replace n with (i + S (n - i - 1)) by lia. rewrite seq_app, bind_app. cbn [seq]. rewrite bind_cons. cbn [Nat.add].
  assert (Hnil : forall k len, (forall j, k <= j < k + len -> h j = []) -> seq k len ≫= h = []).
  { intros k len. revert k. induction len as [|len IH]; intros k Hk; [done|]. cbn [seq]. rewrite bind_cons, Hk by lia.
    rewrite IH; [done|]. intros j Hj. apply Hk. lia. }
  rewrite !Hnil; [by rewrite app_nil_r|..]; intros j Hj; apply Hz; lia.
Qed.

Section init.
Context {R K : Type} `{!Numerics R K}.
Notation mat := (list (list R)) (only parsing).
Context (config : Qwen3Config R) (ckm : wname -> mat) (ckv : wname -> list R).
Context (T g nkv hf hid I V : nat).
Notation nh := (nkv * g).
Notation d := (2 * hf).
Context (Hsh : well_shaped config ckm ckv T g nkv hf hid I V).
Context (uninit : nat -> nat -> R).

(** The modules [qwen3_init] builds on rank [r], apart from a tied head. *)
Definition ini (r : nat) (p : mpath) : module R :=
  match p with
  | PEmbed | PHead => MEmbedding (mk_embedding r T (T * V) (V * r) (V * r + V) (empty_mat uninit V hid))
  | PNorm => norm_init hid
  | PLayer _ lm =>
      match lm with
      | QkvMod => MLinear (mk_linear (QKVParallelLinear d nh nkv) (Some 0) r T (empty_mat uninit ((nh + 2 * nkv) * d) hid) None)
      | OMod => MLinear (mk_linear RowParallelLinear (Some 1) r T (empty_mat uninit hid (nh * d)) None)
      | QNormMod | KNormMod => norm_init d
      | GateUpMod => MLinear (mk_linear (MergedColumnParallelLinear [T * I; T * I]) (Some 0) r T (empty_mat uninit (2 * I) hid) None)
      | DownMod => MLinear (mk_linear RowParallelLinear (Some 1) r T (empty_mat uninit hid I) None)
      | InputMod | PostMod => norm_init hid
      end
  end.

Lemma decoder_layer_init_exact r i :
  exists ms, decoder_layer_init uninit r T config = Ok ms /\ under (layer_prefix i) ms = (fun lm => (mpath_str (PLayer i lm), ini r (PLayer i lm))) <$> layer_mods.
Proof using Hsh.
  destruct (sh_pos _ _ _ _ _ _ _ _ _ _ Hsh) as (HT & Hg & Hn & _). unfold decoder_layer_init, attention_init, mlp_init.
  unfold QKVParallelLinear_init, RowParallelLinear_init, MergedColumnParallelLinear_init.
  rewrite (sh_heads _ _ _ _ _ _ _ _ _ _ Hsh), (sh_kv_heads _ _ _ _ _ _ _ _ _ _ Hsh), (sh_head_dim _ _ _ _ _ _ _ _ _ _ Hsh),
    (sh_hidden _ _ _ _ _ _ _ _ _ _ Hsh), (sh_inter _ _ _ _ _ _ _ _ _ _ Hsh), (sh_bias _ _ _ _ _ _ _ _ _ _ Hsh), (sh_act _ _ _ _ _ _ _ _ _ _ Hsh).
  rewrite decide_False by lia. rewrite decide_False by (rewrite Nat.mul_comm, Nat.Div0.mod_mul; lia).
  rewrite decide_False by (rewrite Nat.mul_comm, Nat.Div0.mod_mul; lia). rewrite decide_False by nia.
  destruct (T * nkv) as [|kv] eqn:Hkv; [nia|]. rewrite <- Hkv.
  rewrite (divide_exact T nh (T * nh)), (divide_exact T nkv (T * nkv)), (divide_exact T ((nh + 2 * nkv) * d) ((T * nh + 2 * (T * nkv)) * d)),
    (divide_exact T (nh * d) (T * nh * d)), (divide_exact T (2 * I) (sum_list [T * I; T * I])), (divide_exact T I (T * I)) by (lia || (unfold sum_list, sum_list_with; cbn [id]; lia)). cbn [mbind result_bind].
  rewrite decide_False by auto. eexists. split; [reflexivity|]. reflexivity.
Qed.

(** The paths of a stage. *)
Definition stage_paths (first last : bool) (s e : nat) : list mpath :=
  (if first then [PEmbed] else []) ++
  (i ← seq 0 (num_hidden_layers config); if decide (s <= i < e) then PLayer i <$> layer_mods else []) ++
  (if last then [PNorm; PHead] else []).

Lemma elem_of_stage_paths first last s e p : e <= num_hidden_layers config ->
  p ∈ stage_paths first last s e <->
  match p with PEmbed => first = true | PNorm | PHead => last = true | PLayer i _ => s <= i < e end.
Proof.
  intros He. unfold stage_paths. rewrite !elem_of_app.
  assert (Hmods : forall lm, lm ∈ layer_mods) by (intros []; vm_compute; set_solver).
  assert (Hb : p ∈ (i ← seq 0 (num_hidden_layers config); if decide (s <= i < e) then PLayer i <$> layer_mods else [])
    <-> match p with PLayer i _ => s <= i < e | _ => False end).
  { rewrite list_elem_of_bind. split.
    - intros (i & Hin & _). destruct (decide (s <= i < e)); [|by apply not_elem_of_nil in Hin].
      apply list_elem_of_fmap in Hin as (lm & -> & _). done.
    - destruct p as [| | |i lm]; try done. intros Hi. exists i. rewrite decide_True by done.
      split; [by apply list_elem_of_fmap_2|]. apply elem_of_seq. lia. }
  rewrite Hb. destruct p, first, last; rewrite ?list_elem_of_singleton, ?elem_of_cons, ?elem_of_nil; naive_solver.
Qed.

Lemma slot_modules_exact r s e k len :
  slot_modules k ((fun idx => if decide (Z.of_nat s <= idx < Z.of_nat e)%Z then BuiltLayer (decoder_layer_init uninit r T config) else PPMissingLayer)
                   <$> seqZ (Z.of_nat k) (Z.of_nat len))
  = Ok ((fun p => (mpath_str p, ini r p)) <$> (i ← seq k len; if decide (s <= i < e) then PLayer i <$> layer_mods else [])).
Proof using Hsh.
  revert k. induction len as [|len IH]; intros k; [done|].
  rewrite seqZ_cons by lia. replace (Z.succ (Z.of_nat k)) with (Z.of_nat (S k)) by lia. replace (Z.pred (Z.of_nat (S len))) with (Z.of_nat len) by lia.
  change (seq k (S len)) with (k :: seq (S k) len). rewrite bind_cons, fmap_app, fmap_cons. specialize (IH (S k)).
  destruct (decide (s <= k < e)) as [Hk|Hk].
  - rewrite decide_True by lia. cbn [slot_modules]. rewrite IH. destruct (decoder_layer_init_exact r k) as (ms & -> & Hms).
    unfold mbind at 1, result_bind at 1. rewrite Hms, <- list_fmap_compose. done.
  - rewrite decide_False by lia. cbn [slot_modules]. rewrite IH. done.
Qed.

(** A head that shares the storage of the embedding of its stage. *)
Definition head_is_tied (first : bool) (p : mpath) : bool := bool_decide (p = PHead) && tie_word_embeddings config && first.

Lemma vocab_init_exact r : VocabParallelEmbedding_init uninit r T (vocab_size config) (hidden_size config)
  = Ok (mk_embedding r T (T * V) (V * r) (V * r + V) (empty_mat uninit V hid)).
Proof using Hsh.
  destruct (sh_pos _ _ _ _ _ _ _ _ _ _ Hsh) as (HT & _). unfold VocabParallelEmbedding_init.
  rewrite (sh_vocab _ _ _ _ _ _ _ _ _ _ Hsh), (sh_hidden _ _ _ _ _ _ _ _ _ _ Hsh), decide_False by lia.
  rewrite decide_True by (rewrite Nat.mul_comm; apply Nat.Div0.mod_mul). by rewrite (div_cancel_l T _ _ HT eq_refl).
Qed.

Lemma qwen3_init_exact ctx r first last s e : attn_tp_rank ctx = r -> attn_tp_world_size ctx = T ->
  Dist.is_first_pp_stage (pc_dist ctx) = Ok first -> Dist.is_last_pp_stage (pc_dist ctx) = Ok last ->
  get_pp_layer_range (pc_dist ctx) (Z.of_nat (num_hidden_layers config)) None = Ok (Z.of_nat s, Z.of_nat e) ->
  exists ms, qwen3_init uninit ctx config = Ok (mk_model ctx config first last s e ms) /\
    forall p, p ∈ stage_paths first last s e -> ms !! mpath_str p = Some (if head_is_tied first p then MTied (lit "model.embed_tokens") else ini r p).
Proof using Hsh.
  intros Hr HT Hf Hl Hrange. unfold qwen3_init. rewrite Hr, HT, Hf, Hl, vocab_init_exact, (sh_hidden _ _ _ _ _ _ _ _ _ _ Hsh). cbn [mbind result_bind].
  unfold make_pp_layers. rewrite Hrange. unfold mbind, result_bind. unfold py_range. rewrite (slot_modules_exact r s e 0).
  set (f := fun p => if head_is_tied first p then MTied (lit "model.embed_tokens") else ini r p).
  exists (list_to_map ((fun p => (mpath_str p, f p)) <$> stage_paths first last s e)). split; [|intros p Hp; by rewrite list_to_map_paths].
  assert (Hlay : (fun p => (mpath_str p, ini r p)) <$> (i ← seq 0 (num_hidden_layers config); if decide (s <= i < e) then PLayer i <$> layer_mods else [])
    = (fun p => (mpath_str p, f p)) <$> (i ← seq 0 (num_hidden_layers config); if decide (s <= i < e) then PLayer i <$> layer_mods else [])).
  { apply list_fmap_ext. intros k p Hp. apply list_elem_of_lookup_2 in Hp. apply list_elem_of_bind in Hp as (i & Hp & _).
    destruct (decide (s <= i < e)); [|by apply not_elem_of_nil in Hp]. apply list_elem_of_fmap in Hp as (lm & -> & _). done. }
  rewrite Hlay, !Nat2Z.id. unfold stage_paths. rewrite !fmap_app.
  assert (HE : f PEmbed = ini r PEmbed) by done. assert (HN : f PNorm = ini r PNorm) by done.
  assert (HH : f PHead = if tie_word_embeddings config && first then MTied (lit "model.embed_tokens") else ini r PHead).
  { unfold f, head_is_tied. by rewrite bool_decide_eq_true_2. }
  clearbody f. destruct first, last; rewrite ?fmap_cons, ?fmap_nil, ?HE, ?HN, ?HH; reflexivity.
Qed.

(** * A rank after loading *)

Definition is_vector (w : wname) : bool :=
  match w with WNorm | WLayer _ (QNorm | KNorm | InputNorm | PostNorm) => true | _ => false end.

(** The tensors of the checkpoint. *)
Definition tens (w : wname) : tensor R := if is_vector w then Vec (ckv w) else Mat (ckm w).

Notation tied := (tie_word_embeddings config).
Notation shard r s w := (lslice (r * s) s w) (only parsing).

Definition fin (r : nat) (p : mpath) : module R :=
  match p with
  | PEmbed => MEmbedding (vocab_shard T V r (ckm WEmbed))
  | PHead => MEmbedding (vocab_shard T V r (ckm (if tied then WEmbed else WHead)))
  | PNorm => MNorm (Vec (ckv WNorm))
  | PLayer i lm =>
      match lm with
      | QkvMod => MLinear (mk_linear (QKVParallelLinear d nh nkv) (Some 0) r T
          (Mat (shard r (nh * d) (ckm (WLayer i QProj)) ++ shard r (nkv * d) (ckm (WLayer i KProj)) ++ shard r (nkv * d) (ckm (WLayer i VProj)))) None)
      | OMod => MLinear (mk_linear RowParallelLinear (Some 1) r T (Mat (lslice (r * (nh * d)) (nh * d) <$> ckm (WLayer i OProj))) None)
      | QNormMod => MNorm (Vec (ckv (WLayer i QNorm)))
      | KNormMod => MNorm (Vec (ckv (WLayer i KNorm)))
      | GateUpMod => MLinear (mk_linear (MergedColumnParallelLinear [T * I; T * I]) (Some 0) r T
          (Mat (shard r I (ckm (WLayer i GateProj)) ++ shard r I (ckm (WLayer i UpProj)))) None)
      | DownMod => MLinear (mk_linear RowParallelLinear (Some 1) r T (Mat (lslice (r * I) I <$> ckm (WLayer i DownProj))) None)
      | InputMod => MNorm (Vec (ckv (WLayer i InputNorm)))
      | PostMod => MNorm (Vec (ckv (WLayer i PostNorm)))
      end
  end.

Section stage.
Context (m : Model R) (Hcfg : m_config m = config) (He : end_layer m <= num_hidden_layers config).

(** What the layer weights contribute to a module. *)
Lemma receives_layers p : omap (receives m tens p) (i ← seq 0 (num_hidden_layers config); WLayer i <$> layer_weights)
  = match p with
    | PLayer i lm => if decide (start_layer m <= i < end_layer m) then
        omap (fun w => if decide ((layer_target w).1 = lm) then Some (tens (WLayer i w), (layer_target w).2) else None) layer_weights else []
    | _ => []
    end.
Proof using He T uninit.
  rewrite omap_bind.
  assert (Hw : forall i w, receives m tens p (WLayer i w)
    = match p with
      | PLayer j lm => if decide (i = j /\ start_layer m <= i < end_layer m) then
          (if decide ((layer_target w).1 = lm) then Some (tens (WLayer i w), (layer_target w).2) else None) else None
      | _ => None
      end).
  { intros i w. unfold receives. cbn [acts target]. destruct (decide (start_layer m <= i < end_layer m)) as [Hi|Hi].
    2: { destruct p; try done. by rewrite decide_False by tauto. }
    destruct p as [| | |j lm]; try done. destruct (decide (i = j)) as [->|Hj].
    - rewrite (decide_True (P := j = j /\ _)) by done. destruct (decide ((layer_target w).1 = lm)) as [Hlm|Hlm].
      + by rewrite decide_True by (by rewrite Hlm).
      + by rewrite decide_False by congruence.
    - rewrite decide_False by congruence. by rewrite decide_False by tauto. }
  assert (Hnil : forall i, (forall w, receives m tens p (WLayer i w) = None) -> omap (receives m tens p) (WLayer i <$> layer_weights) = []).
  { intros i Hi. rewrite (omap_ext_fmap _ _ (fun _ => None)) by done. by apply omap_none. }
  destruct p as [| | |i lm].
  1-3: induction (seq 0 (num_hidden_layers config)) as [|i l IH]; [done|]; rewrite bind_cons, IH, Hnil by (intros; by rewrite Hw); done.
  case_decide as Hi.
  - rewrite (bind_single _ _ i); [|exact (Nat.lt_le_trans _ _ _ (proj2 Hi) He)|intros j _ Hj; apply Hnil; intros w; rewrite Hw; by rewrite decide_False by tauto].
    apply omap_ext_fmap. intros w. rewrite Hw. by rewrite decide_True by done.
  - induction (seq 0 (num_hidden_layers config)) as [|j l IH]; [done|]. rewrite bind_cons, IH, Hnil; [done|].
    intros w. rewrite Hw. destruct (decide (j = i)) as [->|]; by rewrite decide_False by tauto.
Qed.

Notation first := (is_first_pp_stage m).
Notation last := (is_last_pp_stage m).

Lemma receives_checkpoint p :
  omap (receives m tens p) (checkpoint_weights (num_hidden_layers config) tied)
  = option_list (receives m tens p WEmbed) ++ option_list (receives m tens p WNorm) ++
    (if tied then [] else option_list (receives m tens p WHead)) ++
    omap (receives m tens p) (i ← seq 0 (num_hidden_layers config); WLayer i <$> layer_weights).
Proof.
  unfold checkpoint_weights.
  assert (Hc : forall w l, omap (receives m tens p) (w :: l) = option_list (receives m tens p w) ++ omap (receives m tens p) l).
  { intros w l. change (omap (receives m tens p) (w :: l)) with
      (match receives m tens p w with Some c => c :: omap (receives m tens p) l | None => omap (receives m tens p) l end).
    by destruct (receives m tens p w). }
  rewrite !Hc, omap_app. destruct tied; [done|]. by rewrite Hc, app_nil_r.
Qed.

(** What the other weights contribute. *)
Lemma receives_rest p :
  option_list (receives m tens p WEmbed) ++ option_list (receives m tens p WNorm) ++ (if tied then [] else option_list (receives m tens p WHead))
  = match p with
    | PEmbed => if first then [(Mat (ckm WEmbed), None)] else []
    | PNorm => if last then [(Vec (ckv WNorm), None)] else []
    | PHead => if last then (if tied then (if first then [] else [(Mat (ckm WEmbed), None)]) else [(Mat (ckm WHead), None)]) else []
    | PLayer _ _ => []
    end.
Proof using Hcfg.
  unfold receives, acts, tens. cbn [target is_vector]. rewrite Hcfg. destruct first, last, tied, p; reflexivity.
Qed.

Lemma module_loaded ws r p : r < T -> ws ≡ₚ checkpoint_weights (num_hidden_layers config) tied ->
  p ∈ stage_paths first last (start_layer m) (end_layer m) -> head_is_tied first p = false ->
  load_modules (ini r p) (omap (receives m tens p) ws) = Ok (fin r p).
Proof using Hsh Hcfg He.
  intros Hr Hws Hp Htied. apply elem_of_stage_paths in Hp; [|done].
  assert (Hperm : omap (receives m tens p) ws ≡ₚ omap (receives m tens p) (checkpoint_weights (num_hidden_layers config) tied)) by by rewrite Hws.
  rewrite receives_checkpoint, receives_layers, !app_assoc, <- (app_assoc (option_list _)), receives_rest in Hperm.
  assert (Hmat : forall n k, is_mat n k ((fun i => uninit i <$> seq 0 k) <$> seq 0 n)) by (intros; apply is_mat_empty).
  destruct p as [| | |i lm].
  - rewrite Hp in Hperm. apply Permutation_singleton_r in Hperm as ->. apply (load_vocab T hid); [done|done|apply Hsh].
  - rewrite Hp in Hperm. apply Permutation_singleton_r in Hperm as ->. apply load_norm, Hsh.
  - rewrite Hp in Hperm. unfold head_is_tied in Htied. rewrite bool_decide_eq_true_2 in Htied by done. cbn [fin].
    pose proof (sh_head _ _ _ _ _ _ _ _ _ _ Hsh) as Hhead.
    destruct tied; [destruct first; [done|]|]; apply Permutation_singleton_r in Hperm as ->; apply (load_vocab T hid); try done; [apply Hsh|by apply Hhead].
  - rewrite (decide_True (P := start_layer m <= i < end_layer m)) in Hperm by done. cbn [app] in Hperm.
    destruct (sh_layer _ _ _ _ _ _ _ _ _ _ Hsh i ltac:(lia)) as (Hq & Hk & Hv & Ho & Hg & Hu & Hd & Hqn & Hkn & Hin & Hpo).
    destruct lm; cbn in Hperm; try (apply Permutation_singleton_r in Hperm as ->).
    + by apply (load_qkv T g nkv hf hid).
    + eapply load_row; [exact Hr|apply Hmat|exact Ho].
    + by apply load_norm.
    + by apply load_norm.
    + by apply (load_gate_up T hid I).
    + eapply load_row; [exact Hr|apply Hmat|exact Hd].
    + by apply load_norm.
    + by apply load_norm.
Qed.
End stage.

(** The checkpoint as the loader reads it. *)
Definition ck_entries (ws : list wname) : list (pystr * tensor R) := (fun w => (wname_str w, tens w)) <$> ws.

(** A rank: its model, built and loaded. *)
Definition build_rank (ctx : ParCtx) (ws : list wname) : result (Model R) :=
  m ← qwen3_init uninit ctx config; load_weights m (ck_entries ws).

Lemma checkpoint_layers n t i lw : WLayer i lw ∈ checkpoint_weights n t -> i < n.
Proof.
  unfold checkpoint_weights. rewrite !elem_of_cons, elem_of_app, list_elem_of_bind. intros [?|[?|[Hh|(j & Hj & Hs)]]]; try done.
  - destruct t; [by apply not_elem_of_nil in Hh|]. by apply list_elem_of_singleton in Hh.
  - apply list_elem_of_fmap in Hj as (w & [= -> ->] & _). apply elem_of_seq in Hs. lia.
Qed.

Lemma checkpoint_head n t : WHead ∈ checkpoint_weights n t -> t = false.
Proof.
  unfold checkpoint_weights. rewrite !elem_of_cons, elem_of_app, list_elem_of_bind. intros [?|[?|[Hh|(j & Hj & Hs)]]]; try done.
  - destruct t; [by apply not_elem_of_nil in Hh|done].
  - by apply list_elem_of_fmap in Hj as (w & ? & _).
Qed.

Lemma rank_loaded ctx r first last s e ws : r < T -> attn_tp_rank ctx = r -> attn_tp_world_size ctx = T ->
  Dist.is_first_pp_stage (pc_dist ctx) = Ok first -> Dist.is_last_pp_stage (pc_dist ctx) = Ok last ->
  get_pp_layer_range (pc_dist ctx) (Z.of_nat (num_hidden_layers config)) None = Ok (Z.of_nat s, Z.of_nat e) ->
  e <= num_hidden_layers config ->
  ((Dist.pp_world_size (pc_dist ctx) <= 1)%Z -> first = true /\ last = true /\ s = 0 /\ e = num_hidden_layers config) ->
  ws ≡ₚ checkpoint_weights (num_hidden_layers config) tied ->
  exists ms, build_rank ctx ws = Ok (mk_model ctx config first last s e ms) /\
    (forall p, p ∈ stage_paths first last s e -> head_is_tied first p = false -> ms !! mpath_str p = Some (fin r p)) /\
    (last = true -> head_is_tied first PHead = true -> ms !! lit "lm_head" = Some (MTied (lit "model.embed_tokens"))).
Proof using Hsh.
  intros Hr Hctxr HT Hf Hl Hrange He Hone Hws. unfold build_rank.
  destruct (qwen3_init_exact ctx r first last s e Hctxr HT Hf Hl Hrange) as (ms0 & -> & Hms0). cbn [mbind result_bind].
  set (m := mk_model ctx config first last s e ms0).
  assert (Hctx : stage_ctx m) by (constructor; done).
  destruct (load_all m Hctx tens (fun p => p ∈ stage_paths first last s e /\ head_is_tied first p = false) (fin r) ws (ini r) (mk_load ms0 0 []))
    as (st & Hst & Hfin & Hother & _).
  { intros i lw Hin. rewrite Hws in Hin. by eapply checkpoint_layers. }
  { intros w p sh Hin Hacts. rewrite elem_of_stage_paths by done. unfold acts in Hacts. rewrite Hws in Hin.
    destruct w as [| | |i lw]; cbn [m is_first_pp_stage is_last_pp_stage start_layer end_layer m_config] in Hacts.
    - destruct first; [by injection Hacts as <- <-|]. destruct (tied && last) eqn:Htl; [|done]. injection Hacts as <- <-.
      apply andb_true_iff in Htl as [_ ->]. split; [done|]. unfold head_is_tied. by rewrite andb_false_r.
    - destruct last; [|done]. by injection Hacts as <- <-.
    - destruct last; [|done]. injection Hacts as <- <-. split; [done|]. apply checkpoint_head in Hin. unfold head_is_tied. by rewrite Hin, andb_false_r.
    - case_decide; [|done]. by injection Hacts as <- <-. }
  { intros p [Hp Htied]. cbn [ls_modules]. split; [rewrite Hms0 by done; by rewrite Htied|]. by apply (module_loaded m). }
  unfold load_weights, ck_entries. cbn [modules m]. fold m. rewrite Hst. cbn [mbind result_bind].
  exists (ls_modules st). split_and!; [done|by intros; apply Hfin|].
  intros Hlast Ht. change (lit "lm_head") with (mpath_str PHead). rewrite Hother.
  - cbn [ls_modules]. rewrite Hms0 by (apply elem_of_stage_paths; done). by rewrite Ht.
  - intros p [Hp Htp] Heq%(inj mpath_str). congruence.
Qed.
End init.

(** * The sharded model *)

(** The first layer of stage [p] of [pp] stages over [n] layers. *)
Definition stage_bound (n pp p : nat) : nat :=
  Z.to_nat (stage_start (Z.of_nat n / Z.of_nat pp) (Z.of_nat n `mod` Z.of_nat pp) (Z.of_nat p)).

Lemma stage_bound_Z n pp p : 0 < pp ->
  stage_start (Z.of_nat n / Z.of_nat pp) (Z.of_nat n `mod` Z.of_nat pp) (Z.of_nat p) = Z.of_nat (stage_bound n pp p).
Proof.
  intros Hpp. unfold stage_bound. rewrite Z2Nat.id; [done|]. unfold stage_start.
  pose proof (Z.mod_pos_bound (Z.of_nat n) (Z.of_nat pp)). pose proof (Z.div_pos (Z.of_nat n) (Z.of_nat pp)). nia.
Qed.

Lemma stage_bound_range n pp p ctx : p < pp -> Dist.pp_world_size ctx = Z.of_nat pp -> Dist.pp_rank ctx = Ok (Z.of_nat p) ->
  get_pp_layer_range ctx (Z.of_nat n) None = Ok (Z.of_nat (stage_bound n pp p), Z.of_nat (stage_bound n pp (S p))).
Proof.
  intros Hp Hw Hr. unfold get_pp_layer_range. rewrite Hw, Hr. unfold pp_layer_partition. rewrite Z.max_r by lia. case_decide as H1.
  - cbn [mbind result_bind]. assert (pp = 1) as -> by lia. assert (p = 0) as -> by lia. rewrite py_getitem_nat. cbn.
    rewrite <- !stage_bound_Z by lia. unfold stage_start. change (Z.of_nat 1) with 1%Z. rewrite Z.div_1_r, Z.mod_1_r. f_equal. f_equal; lia.
  - cbn [mbind result_bind]. rewrite py_getitem_nat. unfold py_range.
    rewrite <- (stage_start_0 (Z.of_nat n / Z.of_nat pp) (Z.of_nat n `mod` Z.of_nat pp)) at 1 by (apply Z.mod_pos_bound; lia).
    rewrite split_loop_lookup by done. cbn [of_option]. rewrite !Z.add_0_l. replace (Z.of_nat p + 1)%Z with (Z.of_nat (S p)) by lia.
    by rewrite !stage_bound_Z by lia.
Qed.

Lemma stage_bound_facts n pp : 0 < pp -> stage_bound n pp 0 = 0 /\ stage_bound n pp pp = n /\
  (forall p, stage_bound n pp p <= stage_bound n pp (S p)) /\ (pp <= n -> stage_bound n pp (pp - 1) < stage_bound n pp pp).
Proof.
  intros Hpp. pose proof (Z.mod_pos_bound (Z.of_nat n) (Z.of_nat pp)) as Hm. pose proof (Z.div_pos (Z.of_nat n) (Z.of_nat pp)) as Hd.
  pose proof (Z.div_mod (Z.of_nat n) (Z.of_nat pp)) as Hdm.
  assert (Hz : forall p, Z.of_nat (stage_bound n pp p) = stage_start (Z.of_nat n / Z.of_nat pp) (Z.of_nat n `mod` Z.of_nat pp) (Z.of_nat p)).
  { intros p. by rewrite stage_bound_Z. }
  assert (Hend := stage_start_end (Z.of_nat n) (Z.of_nat pp) ltac:(lia)).
  assert (Hs : forall p, Z.of_nat (stage_bound n pp (S p)) = (Z.of_nat (stage_bound n pp p) +
      (Z.of_nat n / Z.of_nat pp + (if decide (Z.of_nat p < Z.of_nat n `mod` Z.of_nat pp) then 1 else 0)))%Z).
  { intros p. rewrite !Hz. replace (Z.of_nat (S p)) with (Z.of_nat p + 1)%Z by lia. by rewrite <- stage_start_succ. }
  assert (Hn : stage_bound n pp pp = n). { apply Nat2Z.inj. by rewrite Hz. }
  split_and!; [|done| |].
  - apply Nat2Z.inj. rewrite Hz. apply stage_start_0. lia.
  - intros p. specialize (Hs p). case_decide; lia.
  - intros Hle. assert (1 <= Z.of_nat n / Z.of_nat pp)%Z by (apply Z.div_le_lower_bound; lia).
    specialize (Hs (pp - 1)). replace (S (pp - 1)) with pp in Hs by lia. case_decide; lia.
Qed.

Lemma mapM_r_seq {B} (f : nat -> result B) (k : nat -> B) n : (forall r, r < n -> f r = Ok (k r)) -> mapM_r f (seq 0 n) = Ok (k <$> seq 0 n).
Proof. intros Hf. rewrite <- (list_fmap_id (seq 0 n)) at 1. by apply mapM_r_fmap_seq. Qed.

Section parallel.
Context {R K : Type} `{!Numerics R K}.
Notation mat := (list (list R)) (only parsing).

(** The ranks of a mesh: stage [p] and tensor-parallel rank [r] as the distributed context
    of that rank reports them. *)
Definition mesh (T pp : nat) (ctx : nat -> nat -> ParCtx) : Prop :=
  forall p r, p < pp -> r < T -> attn_tp_rank (ctx p r) = r /\ attn_tp_world_size (ctx p r) = T /\
    Dist.pp_world_size (pc_dist (ctx p r)) = Z.of_nat pp /\ Dist.pp_rank (pc_dist (ctx p r)) = Ok (Z.of_nat p).

(** All ranks of a deployment, each reading the checkpoint in its own order. *)
Definition build_mesh (config : Qwen3Config R) (ckm : wname -> mat) (ckv : wname -> list R) (uninit : nat -> nat -> R)
    (T pp : nat) (ctx : nat -> nat -> ParCtx) (ws : nat -> nat -> list wname) : result (list (list (Model R))) :=
  mapM_r (fun p => mapM_r (fun r => build_rank config ckm ckv uninit (ctx p r) (ws p r)) (seq 0 T)) (seq 0 pp).

Lemma mesh_loaded config ckm ckv T g nkv hf hid I V uninit pp ctx ws :
  well_shaped config ckm ckv T g nkv hf hid I V -> 0 < pp <= num_hidden_layers config -> mesh T pp ctx ->
  (forall p r, ws p r ≡ₚ checkpoint_weights (num_hidden_layers config) (tie_word_embeddings config)) ->
  exists MM, build_mesh config ckm ckv uninit T pp ctx ws = Ok ((fun p => MM p <$> seq 0 T) <$> seq 0 pp) /\
    pipeline_loaded config ckm ckv T g nkv hf I V pp (stage_bound (num_hidden_layers config) pp) MM.
Proof.
  intros Hsh Hpp Hmesh Hws. set (n := num_hidden_layers config) in *. set (b := stage_bound n pp).
  destruct (stage_bound_facts n pp) as (Hb0 & Hbn & Hbm & Hbl); [lia|]. fold b in Hb0, Hbn, Hbm, Hbl.
  assert (Hmono : forall q p, p <= q -> b p <= b q). { intros q p Hpq. induction Hpq as [|q ? IH]; [done|]. specialize (Hbm q). lia. }
  assert (Hrank : forall p r, p < pp -> r < T -> exists ms,
    build_rank config ckm ckv uninit (ctx p r) (ws p r) = Ok (mk_model (ctx p r) config (bool_decide (p = 0)) (bool_decide (p = pp - 1)) (b p) (b (S p)) ms) /\
    (forall q, q ∈ stage_paths config (bool_decide (p = 0)) (bool_decide (p = pp - 1)) (b p) (b (S p)) -> head_is_tied config (bool_decide (p = 0)) q = false ->
       ms !! mpath_str q = Some (fin config ckm ckv T g nkv hf I V r q)) /\
    (bool_decide (p = pp - 1) = true -> head_is_tied config (bool_decide (p = 0)) PHead = true -> ms !! lit "lm_head" = Some (MTied (lit "model.embed_tokens")))).
  { intros p r Hp Hr. destruct (Hmesh p r Hp Hr) as (Hcr & Hcw & Hcp & Hck).
    eapply rank_loaded; try done.
    - unfold Dist.is_first_pp_stage. rewrite Hck. cbn. f_equal. apply bool_decide_ext. lia.
    - unfold Dist.is_last_pp_stage. rewrite Hck, Hcp. cbn. f_equal. apply bool_decide_ext. lia.
    - by apply stage_bound_range.
    - apply (Nat.le_trans _ (b pp)); [apply Hmono; lia|]. by rewrite Hbn.
    - rewrite Hcp. intros H1. assert (pp = 1) as Hpp1 by lia. assert (p = 0) as -> by lia.
      rewrite !bool_decide_eq_true_2 by lia. split_and!; try done. rewrite Hpp1 in Hbn. exact Hbn. }
  pose (MM := fun p r => match build_rank config ckm ckv uninit (ctx p r) (ws p r) with
                         | Ok m => m | Err _ => mk_model (ctx p r) config false false 0 0 ∅ end).
  exists MM. split.
  - unfold build_mesh. apply mapM_r_seq. intros p Hp. apply mapM_r_seq. intros r Hr. destruct (Hrank p r Hp Hr) as (ms & Hb & _).
    unfold MM. by rewrite Hb.
  - constructor; [lia|done|done|by intros; apply Hbm|apply Hbl; lia|]. intros p r Hp Hr. destruct (Hrank p r Hp Hr) as (ms & Hb & Hfin & Htied).
    assert (MM p r = mk_model (ctx p r) config (bool_decide (p = 0)) (bool_decide (p = pp - 1)) (b p) (b (S p)) ms) as -> by (unfold MM; by rewrite Hb).
    assert (Hse : b (S p) <= n) by (rewrite <- Hbn; apply Hmono; lia).
    cbn [is_first_pp_stage is_last_pp_stage start_layer end_layer]. unfold get_embedding. cbn [modules].
    assert (Hlm : forall i lm, b p <= i < b (S p) -> ms !! (layer_prefix i ++ lit (layer_module_str lm)) = Some (fin config ckm ckv T g nkv hf I V r (PLayer i lm))).
    { intros i lm Hi. apply (Hfin (PLayer i lm)); [|done]. by rewrite elem_of_stage_paths. }
    assert (Hemb : p = 0 -> ms !! lit "model.embed_tokens" = Some (fin config ckm ckv T g nkv hf I V r PEmbed)).
    { intros Hp0. apply (Hfin PEmbed); [|done]. rewrite elem_of_stage_paths by done. by apply bool_decide_eq_true_2. }
    split_and!; try done.
    + by destruct (Hmesh p r Hp Hr) as (_ & ? & _).
    + intros i Hi. constructor; (exact (Hlm i QkvMod Hi) || exact (Hlm i OMod Hi) || exact (Hlm i QNormMod Hi) || exact (Hlm i KNormMod Hi) ||
        exact (Hlm i GateUpMod Hi) || exact (Hlm i DownMod Hi) || exact (Hlm i InputMod Hi) || exact (Hlm i PostMod Hi)).
    + intros Hp0. by rewrite (Hemb Hp0).
    + intros Hpl. apply (Hfin PNorm); [|done]. rewrite elem_of_stage_paths by done. by apply bool_decide_eq_true_2.
    + intros Hpl. destruct (head_is_tied config (bool_decide (p = 0)) PHead) eqn:Ht.
      * rewrite (Htied ltac:(by apply bool_decide_eq_true_2) eq_refl). unfold head_is_tied in Ht.
        apply andb_true_iff in Ht as [[_ Htie]%andb_true_iff Hp0%bool_decide_eq_true]. rewrite (Hemb Hp0), Htie. done.
      * change (lit "lm_head") with (mpath_str PHead). rewrite Hfin; [done| |done]. rewrite elem_of_stage_paths by done. by apply bool_decide_eq_true_2.
Qed.

(** The inputs of a step: tokens of the vocabulary or embeddings, with positions, and the
    caches of all key-value heads of every layer. *)
Record step_inputs (config : Qwen3Config R) (T nkv hid V : nat) (input_ids : list Z) (positions : list nat)
    (inputs_embeds : option mat) (caches : list (list K)) : Prop := {
  si_ids : inputs_embeds = None -> Forall (fun t => 0 <= t < Z.of_nat (T * V))%Z input_ids /\ length positions = length input_ids;
  si_embeds : forall x, inputs_embeds = Some x -> Forall (fun row => length row = hid) x /\ length positions = length x;
  si_positions : Forall (fun p => p < length (cos_sin_cache config)) positions;
  si_caches : length caches = num_hidden_layers config /\ Forall (fun c => length c = T * nkv) caches
}.

(** C6. The sharded Qwen3 model computes the Qwen3 model.  For every number of tensor-parallel
    ranks that divides the heads, the intermediate size and the vocabulary, and every number
    of pipeline stages up to the number of layers, all ranks can be built and loaded, each
    from the checkpoint in any order of its weights, tied embeddings included.  Running the
    stages then gives the hidden states of the reference model on every rank of the last
    stage, leaves on every rank the caches of its key-value heads as the reference leaves
    them, and the head gives the reference logits on rank 0 and nothing elsewhere; this holds
    for the plain and the chunked all-reduce. *)
Theorem qwen3_parallel_exact config ckm ckv T g nkv hf hid I V uninit pp ctx ws :
  well_shaped config ckm ckv T g nkv hf hid I V -> 0 < pp <= num_hidden_layers config -> mesh T pp ctx ->
  (forall p r, ws p r ≡ₚ checkpoint_weights (num_hidden_layers config) (tie_word_embeddings config)) ->
  exists stages, build_mesh config ckm ckv uninit T pp ctx ws = Ok stages /\
    forall env input_ids positions inputs_embeds caches,
      step_inputs config T nkv hid V input_ids positions inputs_embeds caches ->
      let ref := ref_hidden config ckm ckv input_ids positions inputs_embeds caches in
      pipeline_forward env stages input_ids positions inputs_embeds (replicate T [])
          ((fun c => (fun r => lslice (r * nkv) nkv c) <$> seq 0 T) <$> caches)
        = Ok (replicate T (Mat ref.1), (fun c => (fun r => lslice (r * nkv) nkv c) <$> seq 0 T) <$> ref.2) /\
      forall rows, Forall (fun row => length row = hid) rows ->
        compute_logits env (default [] (last stages)) (replicate T rows)
        = Ok (Some (ref_logits config ckm rows) :: replicate (T - 1) None).
Proof.
  intros Hsh Hpp Hmesh Hws. destruct (mesh_loaded _ _ _ _ _ _ _ _ _ _ uninit _ _ _ Hsh Hpp Hmesh Hws) as (MM & Hb & Hpl).
  exists ((fun p => MM p <$> seq 0 T) <$> seq 0 pp). split; [done|]. intros env input_ids positions inputs_embeds caches Hin ref.
  destruct (sh_pos _ _ _ _ _ _ _ _ _ _ Hsh) as (HT & _ & _ & _ & _ & _ & HV). destruct (si_caches _ _ _ _ _ _ _ _ _ Hin) as [Hcl Hcs].
  set (x := default (ref_embed ckm input_ids) inputs_embeds).
  assert (Hx : Forall (fun row => length row = hid) x /\ length positions = length x).
  { unfold x. destruct inputs_embeds as [e|]; [by apply (si_embeds _ _ _ _ _ _ _ _ _ Hin)|]. cbn [default].
    destruct (si_ids _ _ _ _ _ _ _ _ _ Hin eq_refl) as [Hids Hlen]. split; [|by unfold ref_embed; rewrite length_fmap].
    apply Forall_fmap. eapply Forall_impl; [exact Hids|]. intros t Ht. cbn beta in Ht. unfold compose. cbn beta. destruct (lookup_row _ _ _ (Z.to_nat t) (sh_embed _ _ _ _ _ _ _ _ _ _ Hsh)) as (row & -> & Hrow); [lia|done]. }
  split.
  - pose proof (pl_first _ _ _ _ _ _ _ _ _ _ _ _ Hpl) as Hb0. pose proof (pl_last _ _ _ _ _ _ _ _ _ _ _ _ Hpl) as Hbn.
    pose proof (pipeline_forward_exact config ckm ckv T g nkv hf hid I V Hsh pp _ MM Hpl env input_ids positions inputs_embeds
      (fun He => proj1 (si_ids _ _ _ _ _ _ _ _ _ Hin He)) (si_positions _ _ _ _ _ _ _ _ _ Hin) pp 0 [] [] caches) as Hf.
    rewrite Hb0, Hbn in Hf. rewrite !replicate_seq. apply Hf; [done|lia|lia|done|apply Hx|apply Hx|done].
  - intros rows Hrows. unfold compute_logits.
    assert (Hlast : last ((fun p => MM p <$> seq 0 T) <$> seq 0 pp) = Some (MM (pp - 1) <$> seq 0 T)).
    { replace pp with (pp - 1 + 1) at 1 by lia. rewrite seq_app, fmap_app. cbn [seq fmap list_fmap Nat.add]. by rewrite last_snoc. }
    rewrite Hlast. cbn [from_option id].
    set (w := ckm (if tie_word_embeddings config then WEmbed else WHead)).
    rewrite (mapM_r_fmap_seq _ _ (fun r => vocab_shard T V r w)).
    2: { intros r Hr. destruct (pl_model _ _ _ _ _ _ _ _ _ _ _ _ Hpl (pp - 1) r ltac:(lia) Hr) as (_ & _ & _ & _ & _ & _ & _ & _ & Hh). by apply Hh. }
    cbn [mbind result_bind]. rewrite replicate_seq. unfold vocab_shard.
    rewrite (lm_head_forward_exact env T V hid (T * V) w); [|done|done| |done].
    + f_equal. destruct T as [|T']; [lia|]. cbn [seq fmap list_fmap]. rewrite decide_True by done. rewrite Nat.sub_succ, Nat.sub_0_r. f_equal.
      rewrite replicate_seq, <- fmap_S_seq, <- list_fmap_compose. apply list_fmap_ext. intros _ r _. cbn. by rewrite decide_False by lia.
    + unfold w. destruct (tie_word_embeddings config) eqn:Ht; [apply Hsh|by apply Hsh].
Qed.
End parallel.

(** ** A small model over the integers *)

Definition z_attend (c : Z) (q : list (list (list Z))) (k v : list (list Z)) : list (list (list Z)) * Z :=
  (imap (fun t qt => (fun h => imap (fun j a => (a + c * default 0 (default [] (v !! t) !! j))%Z) h) <$> qt) q,
   (c + 1 + foldr Z.add 0 (concat k) mod 7)%Z).

Lemma z_attend_shape c q k v :
  Forall2 (fun qt ot : list (list Z) => (length <$> ot) = (length <$> qt)) q (fst (z_attend c q k v)).
Proof.
  cbn. apply Forall2_same_length_lookup_2; [by rewrite length_imap|]. intros t x y Hx Hy. rewrite list_lookup_imap, Hx in Hy. cbn in Hy.
  injection Hy as <-. rewrite <- list_fmap_compose. apply list_fmap_ext. intros ? h ?. cbn. by rewrite length_imap.
Qed.

#[local] Instance z_numerics : Numerics Z Z :=
  {| rsub := Z.sub; rdivn := fun x n => (x / Z.of_nat n)%Z; rsqrt := fun x => (x mod 3 + 1)%Z; silu := fun x => (x mod 5)%Z;
     attend := z_attend; attend_shape := z_attend_shape |}.

Definition z_config : Qwen3Config Z := mk_config 4 2 2 2 (Some 2) 2 2 false true "silu" 1%Z [[1; 2]; [3; 1]; [2; 2]]%Z.

Definition z_mat (n k s : nat) : list (list Z) := (fun i => (fun j => (Z.of_nat (7 * s + 3 * i + 5 * j + i * j) mod 5 - 2)%Z) <$> seq 0 k) <$> seq 0 n.

Definition z_ckm (w : wname) : list (list Z) :=
  match w with
  | WLayer i (QProj | KProj | VProj) => z_mat 4 2 (i + 1)
  | WLayer i OProj => z_mat 2 4 (i + 2)
  | WLayer i _ => z_mat 2 2 (i + 3)
  | _ => z_mat 4 2 1
  end.

Definition z_ckv (w : wname) : list Z := [1; 2]%Z.

Definition z_ctx (p r : nat) : ParCtx := mk_par (Dist.mk_ctx (Z.of_nat (p * 2 + r)) 4 1 2 1 1 1 2 2) r 2.

Definition z_order (p r : nat) : list wname :=
  if decide (r = 0) then checkpoint_weights 2 true else reverse (checkpoint_weights 2 true).

Lemma qwen3_parallel_exact_witness :
  exists stages, build_mesh z_config z_ckm z_ckv (fun _ _ => 99%Z) 2 2 z_ctx z_order = Ok stages /\
    let ref := ref_hidden z_config z_ckm z_ckv [1; 3; 0]%Z [0; 1; 2] None [[1; 2]; [3; 4]]%Z in
    pipeline_forward (mk_env false false) stages [1; 3; 0]%Z [0; 1; 2] None (replicate 2 []) [[[1]; [2]]; [[3]; [4]]]%Z
    = Ok (replicate 2 (Mat ref.1), (fun c => (fun r => lslice (r * 1) 1 c) <$> seq 0 2) <$> ref.2).
Proof.
  assert (Hmat : forall n k s, is_mat n k (z_mat n k s)).
  { intros. split; [unfold z_mat; by rewrite length_fmap, length_seq|]. apply Forall_fmap, Forall_forall. intros i _. cbn. by rewrite length_fmap, length_seq. }
  destruct (qwen3_parallel_exact z_config z_ckm z_ckv 2 1 1 1 2 1 2 (fun _ _ => 99%Z) 2 z_ctx z_order) as (stages & Hb & Hf).
  - constructor; try done; try apply Hmat; [lia|repeat constructor|]. intros i _. split_and!; (apply Hmat || done).
  - cbn. lia.
  - intros p r Hp Hr. destruct p as [|[|p]]; [| |lia]; (destruct r as [|[|r]]; [| |lia]); vm_compute; done.
  - intros p r. unfold z_order. case_decide; [done|]. apply reverse_Permutation.
  - exists stages. split; [exact Hb|]. apply (Hf (mk_env false false) [1; 3; 0]%Z [0; 1; 2] None [[1; 2]; [3; 4]]%Z).
    constructor; [|done|repeat constructor|split; [done|repeat constructor]]. intros _. split; [|done].
    repeat (apply Forall_cons; split; [lia|]). constructor.
Defined.
