(* ===== verification/Cache.v ===== *)
(** The cache context of a worker: geometry, block sizing and allocation of the
    primary KV cache (GQA, MLA, DSv4), its host copy, the indexer cache, the GDN
    state pools, the DSv4 compressed pools and the HiSparse capacity plan
    ([dlengine/runtime/context/cache/]).  A tensor is modelled by its layout: its
    shape, its strides in elements and its element size. *)

From S2P Require Import Prelude HfConfig.

Open Scope Z_scope.

(** * Tensor layouts *)

Record Tensor := mk_tensor {
  shape : list Z;
  strides : list Z;
  element_size : Z
}.

(** The strides of a contiguous tensor: the product of the later dimensions. *)
Fixpoint row_major (dims : list Z) : list Z :=
  match dims with
  | [] => []
  | _ :: rest => foldr Z.mul 1 rest :: row_major rest
  end.

(** [torch.empty(dims, dtype)] *)
Definition torch_empty (dims : list Z) (itemsize : Z) : Tensor :=
  mk_tensor dims (row_major dims) itemsize.

(** [t\[:, ..., :n, ...\]] restricting dimension [d]: the strides are unchanged. *)
Definition narrow (d : nat) (n : Z) (t : Tensor) : Tensor :=
  mk_tensor (alter (fun m => Z.min n m) d (shape t)) (strides t) (element_size t).

(** The element offset of an index prefix. *)
Fixpoint dot (idx strides : list Z) : Z :=
  match idx, strides with
  | i :: idx, s :: strides => i * s + dot idx strides
  | _, _ => 0
  end.

Definition numel (t : Tensor) : Z := foldr Z.mul 1 (shape t).

(** * Configuration and state *)

Definition DSV4_BYTES_PER_TOKEN : Z := 584.
Definition DSV4_COMPRESSED_PAGE_SIZE : Z := 2.
Definition FP8_QUANT_TILE_SIZE : Z := 128.
Definition INDEXER_QUANT_BLOCK_SIZE : Z := 128.

(** The constructor arguments of [CacheContext] that nothing changes afterwards. *)
Record CacheConfig := mk_cfg {
  block_size : Z;
  num_hidden_layers : Z;
  attention_tp : Z;
  dtype_itemsize : Z;
  mode : string;
  kv_lora_rank : Z;
  qk_rope_head_dim : Z;
  is_fp8_kvcache : bool;
  raw_fp8_mla_layout : bool;
  index_head_dim : Z;
  enable_hisparse : bool;
  ctrl_address : option string;
  max_num_seqs : Z;
  hisparse_device_buffer_size : Z
}.

(** [GDNContext] *)
Record GDNContext := mk_gdn {
  gdn_conv_states : option Tensor;
  gdn_recurrent_states : option Tensor;
  gdn_num_slots : Z;
  gdn_max_active_slots : Z
}.

(** The dictionaries of [CSAContext], keyed by compression ratio (the per-layer
    maps by layer). *)
Record CSAContext := mk_csa {
  dsv4_compress_ratios : option (list Z);
  (** layer index -> the view [flat\[ratio\]\[ratio_layer_idx\]] of that layer *)
  dsv4_compressed_caches : gmap Z (Z * Z);
  dsv4_compressed_caches_flat : gmap Z Tensor;
  dsv4_layers_per_ratio : gmap Z (list Z);
  dsv4_layer_to_ratio_idx : gmap Z Z;
  dsv4_compressed_pool_config : gmap Z (Z * Z * Z);
  dsv4_compressed_dummy_page : gmap Z Z;
  dsv4_compressor_kv_flat : gmap Z Tensor;
  dsv4_compressor_score_flat : gmap Z Tensor;
  dsv4_compressor_counts_flat : gmap Z Tensor
}.

(** [IndexerCache]: page size, bytes per token and its buffer. *)
Record IndexerCache := mk_indexer {
  page_size : Z;
  bytes_per_token : Z;
  ix_buffer : Tensor
}.

(** [CacheContext] together with the module-level contexts its properties delegate
    to.  [kv_cache] is the one of the primary cache context its mode selects;
    [fabric] holds the names of the PeerAgent-owned regions when Fabric allocation
    is enabled. *)
Record CacheContext := mk_ctx {
  cfg : CacheConfig;
  num_kv_heads : Z;
  head_dim : Z;
  fp8_head_dim : option Z;
  num_local_kvcache_blocks : Z;
  num_host_kvcache_blocks : Z;
  device : string;
  kv_cache : option Tensor;
  host_kv_cache : option Tensor;
  fabric : option (gset string);
  gdn : GDNContext;
  indexer_cache : option IndexerCache;
  csa : CSAContext;
  mtp_num_drafts : Z;
  mtp_handoff : option Tensor
}.

Section setters.
Implicit Types c : CacheContext.

Definition set_heads (n d : Z) (f : option Z) c :=
  mk_ctx (cfg c) n d f (num_local_kvcache_blocks c) (num_host_kvcache_blocks c) (device c)
    (kv_cache c) (host_kv_cache c) (fabric c) (gdn c) (indexer_cache c) (csa c)
    (mtp_num_drafts c) (mtp_handoff c).
Definition set_fp8 (f : Z) c := set_heads (num_kv_heads c) (head_dim c) (Some f) c.
Definition set_blocks (l h : Z) c :=
  mk_ctx (cfg c) (num_kv_heads c) (head_dim c) (fp8_head_dim c) l h (device c)
    (kv_cache c) (host_kv_cache c) (fabric c) (gdn c) (indexer_cache c) (csa c)
    (mtp_num_drafts c) (mtp_handoff c).
Definition set_device (d : string) c :=
  mk_ctx (cfg c) (num_kv_heads c) (head_dim c) (fp8_head_dim c) (num_local_kvcache_blocks c)
    (num_host_kvcache_blocks c) d (kv_cache c) (host_kv_cache c) (fabric c) (gdn c)
    (indexer_cache c) (csa c) (mtp_num_drafts c) (mtp_handoff c).
Definition set_kv (t : option Tensor) c :=
  mk_ctx (cfg c) (num_kv_heads c) (head_dim c) (fp8_head_dim c) (num_local_kvcache_blocks c)
    (num_host_kvcache_blocks c) (device c) t (host_kv_cache c) (fabric c) (gdn c)
    (indexer_cache c) (csa c) (mtp_num_drafts c) (mtp_handoff c).
Definition set_host_kv (t : option Tensor) c :=
  mk_ctx (cfg c) (num_kv_heads c) (head_dim c) (fp8_head_dim c) (num_local_kvcache_blocks c)
    (num_host_kvcache_blocks c) (device c) (kv_cache c) t (fabric c) (gdn c)
    (indexer_cache c) (csa c) (mtp_num_drafts c) (mtp_handoff c).
Definition set_fabric (f : option (gset string)) c :=
  mk_ctx (cfg c) (num_kv_heads c) (head_dim c) (fp8_head_dim c) (num_local_kvcache_blocks c)
    (num_host_kvcache_blocks c) (device c) (kv_cache c) (host_kv_cache c) f (gdn c)
    (indexer_cache c) (csa c) (mtp_num_drafts c) (mtp_handoff c).
Definition set_gdn (g : GDNContext) c :=
  mk_ctx (cfg c) (num_kv_heads c) (head_dim c) (fp8_head_dim c) (num_local_kvcache_blocks c)
    (num_host_kvcache_blocks c) (device c) (kv_cache c) (host_kv_cache c) (fabric c) g
    (indexer_cache c) (csa c) (mtp_num_drafts c) (mtp_handoff c).
Definition set_indexer (i : option IndexerCache) c :=
  mk_ctx (cfg c) (num_kv_heads c) (head_dim c) (fp8_head_dim c) (num_local_kvcache_blocks c)
    (num_host_kvcache_blocks c) (device c) (kv_cache c) (host_kv_cache c) (fabric c) (gdn c)
    i (csa c) (mtp_num_drafts c) (mtp_handoff c).
Definition set_csa (s : CSAContext) c :=
  mk_ctx (cfg c) (num_kv_heads c) (head_dim c) (fp8_head_dim c) (num_local_kvcache_blocks c)
    (num_host_kvcache_blocks c) (device c) (kv_cache c) (host_kv_cache c) (fabric c) (gdn c)
    (indexer_cache c) s (mtp_num_drafts c) (mtp_handoff c).
Definition set_mtp (n : Z) (t : option Tensor) c :=
  mk_ctx (cfg c) (num_kv_heads c) (head_dim c) (fp8_head_dim c) (num_local_kvcache_blocks c)
    (num_host_kvcache_blocks c) (device c) (kv_cache c) (host_kv_cache c) (fabric c) (gdn c)
    (indexer_cache c) (csa c) n t.
End setters.

(** * Backends *)

(** [CacheContext.num_local_kv_heads].  [//] raises when [attention_tp] is 0. *)
Definition num_local_kv_heads (c : CacheContext) : result Z :=
  if decide (mode (cfg c) = "mla") then Ok 1
  else (num_kv_heads c // attention_tp (cfg c))%py.

(** [CacheKind] and [resolve_cache_backend]. *)
Inductive CacheKind := GQA | MLA | DSV4.

#[export] Instance CacheKind_eq_dec : EqDecision CacheKind.
Proof. solve_decision. Defined.

Definition resolve_cache_backend (kind : string) : result CacheKind :=
  if decide (kind = "gqa") then Ok GQA
  else if decide (kind = "mla") then Ok MLA
  else if decide (kind = "dsv4") then Ok DSV4
  else Err ValueError.

Definition configure_gqa_cache (c : CacheContext) : result CacheContext :=
  if decide (attention_tp (cfg c) <= num_kv_heads c)
  then Ok (set_fp8 0 c) else Err AssertionError.

Definition configure_mla_cache (c : CacheContext) : result CacheContext :=
  if decide (block_size (cfg c) = 64)
  then Ok (set_heads 1 (kv_lora_rank (cfg c) + qk_rope_head_dim (cfg c)) (fp8_head_dim c) c)
  else Err AssertionError.

Definition configure_dsv4_cache (c : CacheContext) : result CacheContext :=
  if decide (attention_tp (cfg c) <> 1) then Err AssertionError
  else if decide (block_size (cfg c) `mod` 64 <> 0) then Err AssertionError
  else Ok (set_heads 1 512 (Some 0) c).

(** The [configure] field of the resolved backend. *)
Definition configure (k : CacheKind) (c : CacheContext) : result CacheContext :=
  match k with
  | GQA => configure_gqa_cache c
  | MLA => configure_mla_cache c
  | DSV4 => configure_dsv4_cache c
  end.

Definition get_gqa_block_bytes (c : CacheContext) : result (Z * CacheContext) :=
  let g := cfg c in
  h ← num_local_kv_heads c;
  Ok (2 * num_hidden_layers g * block_size g * h * head_dim c * dtype_itemsize g, c).

(** Also records [_fp8_head_dim]. *)
Definition get_mla_block_bytes (c : CacheContext) : result (Z * CacheContext) :=
  let g := cfg c in
  h ← num_local_kv_heads c;
  if is_fp8_kvcache g then
    if raw_fp8_mla_layout g then
      Ok (num_hidden_layers g * block_size g * h * head_dim c, set_fp8 (head_dim c) c)
    else
      let nope_bytes := kv_lora_rank g in
      let scale_bytes := kv_lora_rank g / FP8_QUANT_TILE_SIZE * 4 in
      let rope_bytes := qk_rope_head_dim g * 2 in
      let f := nope_bytes + scale_bytes + rope_bytes in
      Ok (num_hidden_layers g * (block_size g + 1) * 1 * f * 1, set_fp8 f c)
  else
    Ok (num_hidden_layers g * block_size g * h * head_dim c * dtype_itemsize g, set_fp8 0 c).

Definition get_dsv4_block_bytes (c : CacheContext) : result (Z * CacheContext) :=
  let g := cfg c in
  Ok (num_hidden_layers g * block_size g * DSV4_BYTES_PER_TOKEN, c).

(** The [get_block_bytes] field of the resolved backend. *)
Definition get_block_bytes (k : CacheKind) (c : CacheContext) : result (Z * CacheContext) :=
  match k with
  | GQA => get_gqa_block_bytes c
  | MLA => get_mla_block_bytes c
  | DSV4 => get_dsv4_block_bytes c
  end.

(** [allocate_device_tensor]: Fabric storage when it is enabled and the device is a
    CUDA device (a name can be allocated once), ordinary storage otherwise. *)
Definition allocate_device_tensor (c : CacheContext) (name : string) (dims : list Z)
    (itemsize : Z) : result (Tensor * CacheContext) :=
  match fabric c with
  | Some regions =>
      if String.prefix "cuda" (device c) then
        if decide (name ∈ regions) then Err ValueError
        else Ok (torch_empty dims itemsize, set_fabric (Some ({[name]} ∪ regions)) c)
      else Ok (torch_empty dims itemsize, c)
  | None => Ok (torch_empty dims itemsize, c)
  end.

Definition allocate_gqa_kvcache (c : CacheContext) : result CacheContext :=
  let g := cfg c in
  h ← num_local_kv_heads c;
  tc ← allocate_device_tensor c "kv_cache"
         [2; num_hidden_layers g; num_local_kvcache_blocks c; block_size g; h; head_dim c]
         (dtype_itemsize g);
  Ok (set_kv (Some tc.1) tc.2).

(** The packed FP8 cache reads [_fp8_head_dim], which must have been set. *)
Definition allocate_mla_kvcache (c : CacheContext) : result CacheContext :=
  let g := cfg c in
  let L := num_hidden_layers g in
  let N := num_local_kvcache_blocks c in
  if is_fp8_kvcache g then
    if raw_fp8_mla_layout g then
      tc ← allocate_device_tensor c "kv_cache" [1; L; N; block_size g; 1; head_dim c] 1;
      Ok (set_kv (Some tc.1) tc.2)
    else
      f ← of_option AttributeError (fp8_head_dim c);
      tc ← allocate_device_tensor c "kv_cache" [1; L; N; block_size g + 1; 1; f] 1;
      Ok (set_kv (Some (narrow 3 (block_size g) tc.1)) tc.2)
  else
    h ← num_local_kv_heads c;
    tc ← allocate_device_tensor c "kv_cache" [1; L; N; block_size g; h; head_dim c]
           (dtype_itemsize g);
    Ok (set_kv (Some tc.1) tc.2).

Definition allocate_dsv4_kvcache (c : CacheContext) : result CacheContext :=
  let g := cfg c in
  tc ← allocate_device_tensor c "kv_cache"
         [num_hidden_layers g; num_local_kvcache_blocks c + 1; block_size g; 1; DSV4_BYTES_PER_TOKEN] 1;
  Ok (set_kv (Some tc.1) tc.2).

(** The [allocate] field of the resolved backend. *)
Definition allocate (k : CacheKind) (c : CacheContext) : result CacheContext :=
  match k with
  | GQA => allocate_gqa_kvcache c
  | MLA => allocate_mla_kvcache c
  | DSV4 => allocate_dsv4_kvcache c
  end.

(** [KVCacheAllocatorMixin.allocate_kvcache] *)
Definition allocate_kvcache (n : Z) (c : CacheContext) : result CacheContext :=
  let c := set_blocks n (num_host_kvcache_blocks c) c in
  k ← resolve_cache_backend (mode (cfg c));
  allocate k c.

(** [KVCacheAllocatorMixin.allocate_host_kvcache]: the backend allocates with the
    host block count on the CPU, and the [finally] block restores the device
    cache, block count and device in every case.  The context is returned in the
    error case too, because the exception leaves it mutated. *)
Definition allocate_host_kvcache (n : Z) (c : CacheContext) : CacheContext * result unit :=
  let h := Z.max 0 n in
  let c := set_blocks (num_local_kvcache_blocks c) h c in
  if decide (h <= 0) then (set_host_kv None c, Ok tt)
  else
    match resolve_cache_backend (mode (cfg c)) with
    | Err e => (c, Err e)
    | Ok k =>
        let gpu_kv_cache := kv_cache c in
        let local_blocks := num_local_kvcache_blocks c in
        let dev := device c in
        let restore c := set_device dev (set_blocks local_blocks (num_host_kvcache_blocks c)
                                           (set_kv gpu_kv_cache c)) in
        let c1 := set_device "cpu" (set_blocks h h c) in
        match allocate k c1 with
        | Err e => (restore c1, Err e)
        | Ok c2 => (restore (set_host_kv (kv_cache c2) c2), Ok tt)
        end
    end.

(** [get_indexer_block_bytes] and [allocate_indexer_cache] *)
Definition indexer_bytes_per_token (index_dim : Z) : Z :=
  index_dim + index_dim / INDEXER_QUANT_BLOCK_SIZE * 4.

Definition get_indexer_block_bytes (c : CacheContext) : Z :=
  let g := cfg c in
  if decide (index_head_dim g <= 0) then 0
  else num_hidden_layers g * block_size g * indexer_bytes_per_token (index_head_dim g).

Definition allocate_indexer_cache (hf : HfConfig) (c : CacheContext) : result CacheContext :=
  let d := default 0 (HfConfig.index_head_dim hf) in
  if decide (d = 0) then Ok c
  else
    let g := cfg c in
    let b := indexer_bytes_per_token d in
    tc ← allocate_device_tensor c "indexer_cache"
           [num_hidden_layers g; num_local_kvcache_blocks c; block_size g * b] 1;
    Ok (set_indexer (Some (mk_indexer (block_size g) b tc.1)) tc.2).

(** * GDN state pools *)

(** [_recurrent_state_dtype().itemsize] for a CUDA compute capability. *)
Definition recurrent_state_size (capability : option (Z * Z)) : Z :=
  match capability with
  | Some (major, _) => if decide (major >= 10) then 2 else 4
  | None => 4
  end.

(** The geometry both functions compute from the config. *)
Record gdn_dims := mk_gdn_dims {
  gd_v_heads : Z;
  gd_head_k : Z;
  gd_head_v : Z;
  gd_conv : Z;
  gd_kernel : Z
}.

Definition gdn_geometry (hf : HfConfig) (tp : Z) : result gdn_dims :=
  num_k_heads ← (default 0 (linear_num_key_heads hf) // tp)%py;
  num_v_heads ← (default 0 (linear_num_value_heads hf) // tp)%py;
  let head_k_dim := default 0 (linear_key_head_dim hf) in
  let head_v_dim := default 0 (linear_value_head_dim hf) in
  let key_dim := num_k_heads * head_k_dim in
  let value_dim := num_v_heads * head_v_dim in
  Ok (mk_gdn_dims num_v_heads head_k_dim head_v_dim (key_dim * 2 + value_dim)
        (default 4 (linear_conv_kernel_dim hf))).

Definition gdn_slots (need_backup : bool) (active_capacity : Z) : Z :=
  if need_backup then active_capacity * 2 + 1 else active_capacity + 1.

(** [estimate_gdn_state_bytes] *)
Definition estimate_gdn_state_bytes {T} (capability : option (Z * Z)) (hf : HfConfig)
    (layer_types : list T) (max_bs : Z) (need_backup : bool) (cache_slots tp : Z) : result Z :=
  if decide (length layer_types = 0%nat) then Ok 0
  else
    let num_layers := zlen layer_types in
    d ← gdn_geometry hf tp;
    if decide (gd_v_heads d = 0) then Ok 0
    else
      let num_slots := gdn_slots need_backup (max_bs + Z.max 0 cache_slots) in
      let conv_bytes := num_layers * num_slots * gd_conv d * gd_kernel d * 2 in
      let recurrent_bytes := num_layers * num_slots * gd_v_heads d * gd_head_v d * gd_head_k d
                             * recurrent_state_size capability in
      Ok (conv_bytes + recurrent_bytes).

(** [allocate_gdn_states] *)
Definition allocate_gdn_states {T} (capability : option (Z * Z)) (hf : HfConfig)
    (layer_types : list T) (max_bs : Z) (need_backup : bool) (cache_slots : Z)
    (tp : option Z) (c : CacheContext) : result CacheContext :=
  let max_bs := max_bs + Z.max 0 cache_slots in
  let num_layers := zlen layer_types in
  d ← gdn_geometry hf (default (attention_tp (cfg c)) tp);
  if decide (gd_v_heads d = 0) then Ok c
  else
    let num_slots := gdn_slots need_backup max_bs in
    Ok (set_gdn (mk_gdn
          (Some (torch_empty [num_layers; num_slots; gd_conv d; gd_kernel d] 2))
          (Some (torch_empty [num_layers; num_slots; gd_v_heads d; gd_head_v d; gd_head_k d]
                   (recurrent_state_size capability)))
          num_slots max_bs) c).

(** * DSv4 compressed pools *)

(** [sorted({r for r in ratios if r > 0})] *)
Definition unique_ratios (ratios : list Z) : list Z :=
  merge_sort Z.le (remove_dups (filter (fun r => r > 0) ratios)).

(** Pages one sequence can fill at compression [ratio], and the worst case over all
    sequences. *)
Definition max_blocks_per_seq (max_model_len ratio : Z) : Z :=
  let max_compressed := (max_model_len / ratio + 63) / 64 * 64 in
  (max_compressed + DSV4_COMPRESSED_PAGE_SIZE - 1) / DSV4_COMPRESSED_PAGE_SIZE.

Definition pool_pages (max_seqs max_model_len ratio override : Z) : Z :=
  if decide (override > 0) then override
  else max_seqs * max_blocks_per_seq max_model_len ratio.

Definition layers_of_ratio (ratios : list Z) (ratio : Z) : list Z :=
  fst <$> filter (fun p => snd p = ratio) (enumerate ratios).

Definition empty_csa : CSAContext := mk_csa None ∅ ∅ ∅ ∅ ∅ ∅ ∅ ∅ ∅.

(** The body of the [for ratio in unique_ratios] loop. *)
Definition csa_add_ratio (ratios : list Z) (max_seqs max_model_len : Z) (overrides : gmap Z Z)
    (s : CSAContext) (ratio : Z) : CSAContext :=
  let num_pages := pool_pages max_seqs max_model_len ratio (default 0 (overrides !! ratio)) in
  let layers := layers_of_ratio ratios ratio in
  let flat := torch_empty [zlen layers; num_pages + 1; DSV4_COMPRESSED_PAGE_SIZE; 1;
                           DSV4_BYTES_PER_TOKEN] 1 in
  mk_csa (dsv4_compress_ratios s)
    (foldl (fun m p => <[snd p := (ratio, fst p)]> m) (dsv4_compressed_caches s)
       (enumerate layers))
    (<[ratio := flat]> (dsv4_compressed_caches_flat s))
    (<[ratio := layers]> (dsv4_layers_per_ratio s))
    (foldl (fun m p => <[snd p := fst p]> m) (dsv4_layer_to_ratio_idx s) (enumerate layers))
    (<[ratio := (num_pages, DSV4_COMPRESSED_PAGE_SIZE, max_blocks_per_seq max_model_len ratio)]>
       (dsv4_compressed_pool_config s))
    (<[ratio := num_pages]> (dsv4_compressed_dummy_page s))
    (dsv4_compressor_kv_flat s) (dsv4_compressor_score_flat s) (dsv4_compressor_counts_flat s).

(** [allocate_dsv4_compressed_caches] resets the pool dictionaries (not the
    compressor state) and fills them ratio by ratio. *)
Definition allocate_dsv4_compressed_caches (ratios : list Z) (max_seqs max_model_len : Z)
    (pool_pages_per_ratio : option (gmap Z Z)) (c : CacheContext) : CacheContext :=
  let s := csa c in
  let s := mk_csa (Some ratios) ∅ ∅ ∅ ∅ ∅ ∅ (dsv4_compressor_kv_flat s)
             (dsv4_compressor_score_flat s) (dsv4_compressor_counts_flat s) in
  set_csa (foldl (csa_add_ratio ratios max_seqs max_model_len (default ∅ pool_pages_per_ratio))
             s (unique_ratios ratios)) c.

(** [allocate_dsv4_compressor_state] *)
Definition compressor_coeff (ratio : Z) : Z := if decide (ratio = 4) then 2 else 1.

Definition allocate_dsv4_compressor_state (hdim max_seqs : Z) (c : CacheContext) : CacheContext :=
  let s := csa c in
  let buf ratio (layers : list Z) :=
    torch_empty [zlen layers; max_seqs + 1; compressor_coeff ratio * ratio;
                 compressor_coeff ratio * hdim] 4 in
  let counts (layers : list Z) := torch_empty [zlen layers; max_seqs + 1] 4 in
  set_csa (mk_csa (dsv4_compress_ratios s) (dsv4_compressed_caches s)
             (dsv4_compressed_caches_flat s) (dsv4_layers_per_ratio s)
             (dsv4_layer_to_ratio_idx s) (dsv4_compressed_pool_config s)
             (dsv4_compressed_dummy_page s)
             (map_imap (fun ratio layers => Some (buf ratio layers)) (dsv4_layers_per_ratio s))
             (map_imap (fun ratio layers => Some (buf ratio layers)) (dsv4_layers_per_ratio s))
             (counts <$> dsv4_layers_per_ratio s)) c.

(** * Capacity planning *)

(** [MLAHiSparseCapacity] *)
Record MLAHiSparseCapacity := mk_capacity {
  cap_block_size : Z;
  gpu_cache_budget_bytes : Z;
  host_cache_budget_bytes : Z;
  kv_block_bytes : Z;
  indexer_block_bytes : Z;
  hot_blocks : Z;
  hot_tier_bytes : Z;
  indexer_budget_bytes : Z;
  indexer_blocks : Z;
  host_blocks : Z;
  logical_blocks : Z
}.

Definition logical_tokens (p : MLAHiSparseCapacity) : Z := logical_blocks p * cap_block_size p.
Definition buffer_hbm_shortfall_bytes (p : MLAHiSparseCapacity) : Z :=
  Z.max 0 (hot_tier_bytes p - gpu_cache_budget_bytes p).
Definition allocated_indexer_bytes (p : MLAHiSparseCapacity) : Z :=
  logical_blocks p * indexer_block_bytes p.
Definition unused_indexer_budget_bytes (p : MLAHiSparseCapacity) : Z :=
  indexer_budget_bytes p - allocated_indexer_bytes p.
Definition allocated_host_bytes (p : MLAHiSparseCapacity) : Z :=
  logical_blocks p * kv_block_bytes p.
Definition unused_host_budget_bytes (p : MLAHiSparseCapacity) : Z :=
  host_cache_budget_bytes p - allocated_host_bytes p.
Definition limiting_tier (p : MLAHiSparseCapacity) : string :=
  if decide (indexer_blocks p < host_blocks p) then "gpu_indexer"
  else if decide (host_blocks p < indexer_blocks p) then "host_mla" else "both".

(** [plan_mla_hisparse_capacity] *)
Definition plan_mla_hisparse_capacity (gpu_cache_budget host_cache_budget max_seqs
    device_buffer_size blk kv_bytes indexer_bytes : Z) : result MLAHiSparseCapacity :=
  if decide (Z.min (Z.min blk kv_bytes) indexer_bytes <= 0) then Err ValueError
  else if decide (max_seqs <= 0 \/ device_buffer_size <= 0) then Err ValueError
  else
    let hot_blocks_per_seq := (device_buffer_size + blk + blk - 1) / blk in
    let hot := max_seqs * hot_blocks_per_seq in
    let hot_bytes := hot * kv_bytes in
    let indexer_budget := Z.max 0 (gpu_cache_budget - hot_bytes) in
    let ix := indexer_budget / indexer_bytes in
    let host := Z.max 0 host_cache_budget / kv_bytes in
    Ok (mk_capacity blk (Z.max 0 gpu_cache_budget) (Z.max 0 host_cache_budget) kv_bytes
          indexer_bytes hot hot_bytes indexer_budget ix host (Z.min ix host)).

(** [_compute_host_kvcache_blocks].  The budget [int(budget_gib * 1024**3)] is an
    input: it is computed in floating point. *)
Definition compute_host_kvcache_blocks (budget_bytes block_bytes : Z) : Z * Z :=
  if decide (budget_bytes <= 0 \/ block_bytes <= 0) then (0, 0)
  else (Z.max 0 (budget_bytes / block_bytes), budget_bytes).

(** [CacheContext.__post_init__].  [gpu_cache_budget] (the integer part of a floating
    point expression over the device's memory counters) and [host_budget] are
    inputs. *)
Definition post_init (gpu_cache_budget host_budget : Z) (c : CacheContext)
    : result CacheContext :=
  k ← resolve_cache_backend (mode (cfg c));
  c ← configure k c;
  bc ← get_block_bytes k c;
  let kv_bytes := bc.1 in
  let c := bc.2 in
  let indexer_bytes := get_indexer_block_bytes c in
  let g := cfg c in
  let is_mla_hisparse :=
    enable_hisparse g && bool_decide (mode g = "mla") && bool_decide (indexer_bytes > 0)
    && match ctrl_address g with Some a => negb (bool_decide (a = "")) | None => false end in
  c ← (if is_mla_hisparse then
         cap ← plan_mla_hisparse_capacity gpu_cache_budget host_budget (max_num_seqs g)
                 (hisparse_device_buffer_size g) (block_size g) kv_bytes indexer_bytes;
         Ok (set_blocks (logical_blocks cap) (logical_blocks cap) c)
       else
         let block_bytes := kv_bytes + indexer_bytes in
         n ← (gpu_cache_budget // block_bytes)%py;
         Ok (set_blocks n (compute_host_kvcache_blocks host_budget block_bytes).1 c));
  if decide (num_local_kvcache_blocks c > 0)
  then Ok (set_gdn (mk_gdn (gdn_conv_states (gdn c)) (gdn_recurrent_states (gdn c)) 0
                      (gdn_max_active_slots (gdn c))) c)
  else Err AssertionError.

(** [CacheContext.allocate_mtp_handoff] *)
Definition allocate_mtp_handoff (num_drafts : Z) (c : CacheContext) : result (Tensor * CacheContext) :=
  if decide (num_drafts <= 0) then Err ValueError
  else if decide (max_num_seqs (cfg c) <= 0) then Err ValueError
  else
    let t := torch_empty [max_num_seqs (cfg c); num_drafts + 1] 8 in
    Ok (t, set_mtp num_drafts (Some t) c).

(** * The MLA cache format *)

(** The cache plan's predicates that the format depends on. *)
Record plan_flags := mk_plan_flags {
  has_mla : bool;
  has_indexer : bool;
  has_hisparse : bool
}.

(** [resolve_mla_cache_format]: (FP8 enabled, raw FP8 layout).  The config supplies
    [kv_cache_dtype], [disable_nsa] and [enable_mla_reference_fallback]. *)
Definition resolve_mla_cache_format (kv_cache_dtype : string) (disable_nsa
    enable_mla_reference_fallback : bool) (hf : HfConfig) (plan : plan_flags)
    (hardware_backend : string) (force_reference : bool) : result (bool * bool) :=
  let requested := kv_cache_dtype in
  if decide (requested ∉ ["auto"; "bfloat16"; "fp8_e4m3"]) then Err ValueError
  else if bool_decide (requested <> "auto") && negb (has_mla plan) then Err ValueError
  else
    let sparse := has_indexer plan && bool_decide (default 0 (HfConfig.index_head_dim hf) > 0)
                  && negb disable_nsa in
    if bool_decide (requested = "bfloat16") && sparse then Err ValueError
    else
      let fp8 := bool_decide (requested = "fp8_e4m3")
                 || (bool_decide (requested = "auto") && sparse) in
      let rank := default 0 (HfConfig.kv_lora_rank hf) in
      let rope := default 0 (HfConfig.qk_rope_head_dim hf) in
      let reference_decode :=
        force_reference || (enable_mla_reference_fallback
                            && bool_decide (rank + rope ∉ [512; 576])) in
      if reference_decode && bool_decide (requested = "fp8_e4m3") then Err ValueError
      else
        let fp8 := if reference_decode then false else fp8 in
        if bool_decide (requested = "fp8_e4m3") && negb (bool_decide ((rank, rope) = (512, 64)))
        then Err ValueError
        else if bool_decide (requested = "fp8_e4m3")
                && bool_decide (hardware_backend <> "blackwell")
                && negb (bool_decide (hardware_backend = "hopper") && sparse)
        then Err ValueError
        else if has_hisparse plan && has_mla plan && negb fp8 then Err ValueError
        else Ok (fp8, fp8 && bool_decide (hardware_backend = "blackwell")).

(** * Lemmas *)

(** Bytes of storage from the first element through the last slice of the leading
    dimension, padding included. *)
Definition extent_bytes (t : Tensor) : Z :=
  match shape t, strides t with
  | n :: _, s :: _ => n * s * element_size t
  | _, _ => 0
  end.

Lemma allocate_device_tensor_Ok c name dims sz t c' :
  allocate_device_tensor c name dims sz = Ok (t, c') ->
  t = torch_empty dims sz /\ (exists f, c' = set_fabric f c).
Proof.
  unfold allocate_device_tensor. destruct (fabric c) as [regions|] eqn:Ef.
  - destruct (String.prefix _ _); [case_decide; [done|]|]; intros [= <- <-]; split; eauto.
    exists (Some regions). destruct c; simpl in *. by subst.
  - intros [= <- <-]. split; [done|]. exists None. destruct c; simpl in *. by subst.
Qed.

(** The layout of the primary cache a backend allocates. *)
Definition primary_layout (k : CacheKind) (c : CacheContext) (h : Z) : Tensor :=
  let g := cfg c in
  let L := num_hidden_layers g in
  let N := num_local_kvcache_blocks c in
  match k with
  | GQA => torch_empty [2; L; N; block_size g; h; head_dim c] (dtype_itemsize g)
  | MLA =>
      if is_fp8_kvcache g then
        if raw_fp8_mla_layout g then torch_empty [1; L; N; block_size g; 1; head_dim c] 1
        else narrow 3 (block_size g)
               (torch_empty [1; L; N; block_size g + 1; 1; default 0 (fp8_head_dim c)] 1)
      else torch_empty [1; L; N; block_size g; h; head_dim c] (dtype_itemsize g)
  | DSV4 => torch_empty [L; N + 1; block_size g; 1; DSV4_BYTES_PER_TOKEN] 1
  end.

Lemma allocate_Ok k c c' :
  allocate k c = Ok c' ->
  exists h f, (k <> DSV4 -> (k = MLA -> is_fp8_kvcache (cfg c) = false) ->
               num_local_kv_heads c = Ok h) /\
    (k = MLA -> is_fp8_kvcache (cfg c) = true -> raw_fp8_mla_layout (cfg c) = false ->
     is_Some (fp8_head_dim c)) /\
    c' = set_kv (Some (primary_layout k c h)) (set_fabric f c).
Proof.
  unfold allocate, allocate_gqa_kvcache, allocate_mla_kvcache, allocate_dsv4_kvcache, primary_layout. intros H.
  destruct k; repeat case_match;
    repeat match goal with
    | H : (_ ≫= _) = Ok _ |- _ =>
        match type of H with
        | context [num_local_kv_heads c] => destruct (num_local_kv_heads c) as [h|] eqn:?; [|done]
        | context [of_option _ (fp8_head_dim c)] => destruct (fp8_head_dim c) as [?|] eqn:?; [|done]
        | context [allocate_device_tensor ?a ?b ?d ?e] =>
            destruct (allocate_device_tensor a b d e) as [[? ?]|] eqn:E; [|done];
            apply allocate_device_tensor_Ok in E as [-> [f ->]]
        end; simpl in H
    end; injection H as <-.
  - exists h, f. split_and!; [done|done|done].
  - exists 0, f. split_and!; [naive_solver|congruence|done].
  - exists 0, f. split_and!; [naive_solver|by eauto|done].
  - exists h, f. split_and!; [done|congruence|done].
  - exists 0, f. split_and!; [naive_solver|done|done].
Qed.

(** On the CPU no Fabric region is taken. *)
Lemma allocate_cpu_fabric k c c' :
  allocate k c = Ok c' -> device c = "cpu" -> fabric c' = fabric c.
Proof.
  intros H Hd.
  assert (forall name dims sz, allocate_device_tensor c name dims sz = Ok (torch_empty dims sz, c)) as Ha.
  { intros. unfold allocate_device_tensor. rewrite Hd. by destruct (fabric c). }
  unfold allocate, allocate_gqa_kvcache, allocate_mla_kvcache, allocate_dsv4_kvcache in H. revert H.
  destruct k; repeat case_match; try (destruct (num_local_kv_heads c)); try destruct (fp8_head_dim c);
    simpl; rewrite ?Ha; simpl; intros [= <-]; done.
Qed.

Lemma configure_cfg k c c' : configure k c = Ok c' -> cfg c' = cfg c.
Proof. unfold configure, configure_gqa_cache, configure_mla_cache, configure_dsv4_cache. destruct k; repeat case_decide; intros [= <-]; done. Qed.

(** What the block-size functions return, and the FP8 row width they record. *)
Lemma get_block_bytes_Ok k c bytes c' :
  get_block_bytes k c = Ok (bytes, c') ->
  let g := cfg c in
  exists h, (k <> DSV4 -> num_local_kv_heads c = Ok h) /\
  match k with
  | GQA => bytes = 2 * num_hidden_layers g * block_size g * h * head_dim c * dtype_itemsize g /\ c' = c
  | MLA => exists f, c' = set_fp8 f c /\
      (is_fp8_kvcache g = false -> f = 0 /\
         bytes = num_hidden_layers g * block_size g * h * head_dim c * dtype_itemsize g) /\
      (is_fp8_kvcache g = true -> raw_fp8_mla_layout g = true -> f = head_dim c /\
         bytes = num_hidden_layers g * block_size g * h * head_dim c) /\
      (is_fp8_kvcache g = true -> raw_fp8_mla_layout g = false ->
         bytes = num_hidden_layers g * (block_size g + 1) * f)
  | DSV4 => bytes = num_hidden_layers g * block_size g * DSV4_BYTES_PER_TOKEN /\ c' = c
  end.
Proof.
  unfold get_block_bytes, get_gqa_block_bytes, get_mla_block_bytes, get_dsv4_block_bytes. destruct k.
  - destruct (num_local_kv_heads c) as [h|] eqn:Eh; [|done]. intros [= <- <-]. by exists h.
  - destruct (num_local_kv_heads c) as [h|] eqn:Eh; [|done]. simpl. intros H. exists h.
    split; [done|]. repeat case_match; injection H as <- <-; eexists; (split; [done|]);
      split_and!; intros; try congruence; try split; try done; lia.
  - intros [= <- <-]. exists 0. done.
Qed.

(** The storage a backend allocates for its blocks, from what the sizing function returned; the DSv4 cache
    takes one block more, its dummy page. *)
Lemma allocate_bytes k c1 c2 bytes c c' t :
  get_block_bytes k c1 = Ok (bytes, c2) -> (k = MLA -> mode (cfg c1) = "mla"%string) -> cfg c = cfg c1 ->
  num_kv_heads c = num_kv_heads c2 -> head_dim c = head_dim c2 -> fp8_head_dim c = fp8_head_dim c2 ->
  allocate k c = Ok c' -> kv_cache c' = Some t ->
  extent_bytes t = (if decide (k = DSV4) then num_local_kvcache_blocks c + 1 else num_local_kvcache_blocks c) * bytes.
Proof.
  intros Hb Hm Hcfg Hn Hd Hf Ha Ht. destruct (get_block_bytes_Ok _ _ _ _ Hb) as (h & Hh & Hspec).
  assert (num_kv_heads c2 = num_kv_heads c1 /\ head_dim c2 = head_dim c1) as [En Ed]
    by (destruct k; [by destruct Hspec as [_ ->]|by destruct Hspec as (f & -> & _)|by destruct Hspec as [_ ->]]).
  apply allocate_Ok in Ha as (h' & f & Hh' & _ & ->). simpl in Ht. injection Ht as <-.
  unfold num_local_kv_heads in Hh, Hh'. rewrite Hcfg, Hn, En in Hh'. unfold extent_bytes, primary_layout. rewrite Hcfg, Hd, Ed, Hf.
  destruct k; simpl.
  - destruct Hspec as [-> _]. rewrite Hh in Hh' by done. assert (h' = h) as -> by naive_solver. ring.
  - destruct Hspec as (f' & -> & H1 & H2 & H3). rewrite Hm in * by done. rewrite decide_True in Hh, Hh' by done. assert (h = 1) as -> by naive_solver.
    destruct (is_fp8_kvcache (cfg c1)) eqn:E8; [destruct (raw_fp8_mla_layout (cfg c1)) eqn:Er|]; simpl.
    + destruct H2 as [_ ->]; [done..|]. ring.
    + rewrite H3 by done. ring.
    + destruct H1 as [_ ->]; [done|]. assert (h' = 1) as -> by naive_solver. ring.
  - destruct Hspec as [-> _]. unfold DSV4_BYTES_PER_TOKEN. ring.
Qed.

Lemma resolve_mla m k : resolve_cache_backend m = Ok k -> k = MLA -> m = "mla"%string.
Proof. unfold resolve_cache_backend. repeat case_decide; naive_solver. Qed.

(** * Properties *)

(** A packed-FP8 MLA configuration (61 layers, rank 512, RoPE 64), before sizing. *)
Definition mla_example : CacheContext :=
  mk_ctx (mk_cfg 64 61 8 2 "mla" 512 64 true false 128 false None 16 0)
    128 128 None (-1) 0 "cuda" None None None (mk_gdn None None 0 0) None empty_csa 0 None.

(** Its Hugging Face configuration. *)
Definition indexer_example : HfConfig := mk_hf None None None None None (Some 512) (Some 64) None (Some 128) None None None None None None None None false None ∅.

(** What [post_init] leaves: the sizes it computed. *)
Lemma post_init_sizes gpu host c c0 k :
  post_init gpu host c = Ok c0 -> resolve_cache_backend (mode (cfg c)) = Ok k -> enable_hisparse (cfg c) = false ->
  exists c1 bytes c2, get_block_bytes k c1 = Ok (bytes, c2) /\ cfg c1 = cfg c /\ cfg c0 = cfg c /\ indexer_cache c0 = indexer_cache c /\
    num_kv_heads c0 = num_kv_heads c2 /\ head_dim c0 = head_dim c2 /\ fp8_head_dim c0 = fp8_head_dim c2 /\
    let b := bytes + get_indexer_block_bytes c in
    num_local_kvcache_blocks c0 = gpu / b /\ 0 < num_local_kvcache_blocks c0 /\ num_host_kvcache_blocks c0 = (compute_host_kvcache_blocks host b).1.
Proof.
  intros H Hk He. unfold post_init in H. rewrite Hk in H. simpl in H. destruct (configure k c) as [c1|] eqn:Hc; [|done]. simpl in H.
  destruct (get_block_bytes k c1) as [[bytes c2]|] eqn:Hg; [|done]. simpl in H. exists c1, bytes, c2. split; [done|]. pose proof (configure_cfg _ _ _ Hc) as Hcfg1.
  assert (cfg c2 = cfg c /\ indexer_cache c2 = indexer_cache c) as [Hcfg Hix].
  { rewrite <- Hcfg1. assert (indexer_cache c1 = indexer_cache c) as <-.
    { revert Hc. unfold configure, configure_gqa_cache, configure_mla_cache, configure_dsv4_cache. destruct k; repeat case_decide; intros [= <-]; done. }
    apply get_block_bytes_Ok in Hg as (h & _ & Hs). destruct k; [by destruct Hs as [_ ->]|by destruct Hs as (f & -> & _)|by destruct Hs as [_ ->]]. }
  assert (get_indexer_block_bytes c2 = get_indexer_block_bytes c) as Hib by (unfold get_indexer_block_bytes; by rewrite Hcfg).
  rewrite Hcfg, He in H. simpl in H. rewrite Hib in H. destruct (gpu // _)%py as [n|] eqn:Ed; [|done]. simpl in H.
  apply py_floordiv_Ok in Ed as [_ ->]. case_decide as Hpos; [|done]. simpl in Hpos. injection H as <-. simpl. rewrite Hcfg. split_and!; try done; lia.
Qed.

(** The storage [allocate_indexer_cache] takes. *)
Lemma allocate_indexer_bytes hf c c' :
  allocate_indexer_cache hf c = Ok c' -> indexer_cache c = None -> default 0 (HfConfig.index_head_dim hf) = index_head_dim (cfg c) -> 0 <= index_head_dim (cfg c) ->
  match indexer_cache c' with Some i => extent_bytes (ix_buffer i) | None => 0 end = num_local_kvcache_blocks c * get_indexer_block_bytes c /\
  kv_cache c' = kv_cache c /\ host_kv_cache c' = host_kv_cache c.
Proof.
  unfold allocate_indexer_cache, get_indexer_block_bytes. intros H Hn Hd Hp. rewrite Hd in H. case_decide as H0.
  - injection H as <-. rewrite Hn, decide_True by lia. split_and!; [lia|done..].
  - destruct (allocate_device_tensor _ _ _ _) as [[t c1]|] eqn:E; [|done]. apply allocate_device_tensor_Ok in E as [-> [f ->]]. simpl in H. injection H as <-. simpl.
    rewrite decide_False by lia. split_and!; [|done..]. set (x := indexer_bytes_per_token _). cbn. ring.
Qed.

(** Bytes of the blocks of a cache of [n], without the dummy page of DSv4. *)
Definition paged_bytes (k : CacheKind) (n : Z) (t : Tensor) : Z := if decide (k = DSV4) then n * (extent_bytes t / (n + 1)) else extent_bytes t.

Lemma paged_bytes_of k n t bytes : 0 <= n -> extent_bytes t = (if decide (k = DSV4) then n + 1 else n) * bytes -> paged_bytes k n t = n * bytes.
Proof. intros Hn He. unfold paged_bytes. rewrite He. case_decide; [|done]. rewrite Z.mul_comm with (n := n + 1), Z.div_mul by lia. ring. Qed.

(** C28. Sizing matches what is allocated.  When the context is constructed without the HiSparse split from given GPU and
    host budgets, and a worker allocates its KV cache with [n] blocks, no more than were computed, its host
    cache and its indexer cache: the storage of the blocks and their indexer pages (strides and padding rows
    included) is within the GPU budget, one block more than were computed would exceed it, and the
    storage of the host blocks is within the host budget.  The DSv4 caches take one page more than their
    blocks, the dummy page, which the sizing does not count: they may exceed the budgets by it. *)
Theorem post_init_within_budget gpu host hf c c0 c1 c2 c3 k n t :
  resolve_cache_backend (mode (cfg c)) = Ok k -> enable_hisparse (cfg c) = false -> indexer_cache c = None ->
  default 0 (HfConfig.index_head_dim hf) = index_head_dim (cfg c) -> 0 <= index_head_dim (cfg c) ->
  post_init gpu host c = Ok c0 -> 0 < n <= num_local_kvcache_blocks c0 ->
  allocate_kvcache n c0 = Ok c1 -> allocate_host_kvcache (num_host_kvcache_blocks c1) c1 = (c2, Ok tt) -> allocate_indexer_cache hf c2 = Ok c3 ->
  kv_cache c3 = Some t -> 0 < extent_bytes t ->
  let indexer := match indexer_cache c3 with Some i => extent_bytes (ix_buffer i) | None => 0 end in
  0 <= indexer ->
  let used := paged_bytes k n t + indexer in
  used <= gpu /\ n * gpu < (num_local_kvcache_blocks c0 + 1) * used /\
  (forall th, host_kv_cache c3 = Some th -> paged_bytes k (num_host_kvcache_blocks c1) th <= host) /\
  extent_bytes t = paged_bytes k n t + (if decide (k = DSV4) then extent_bytes t / (n + 1) else 0).
Proof.
  intros Hk He Hix Hhf Hid Hp Hn Ha Hh Hi Ht Hpos indexer Hip used.
  destruct (post_init_sizes gpu host c c0 k Hp Hk He) as (d1 & bytes & d2 & Hb & Hd1 & Hc0 & Hix0 & H1 & H2 & H3 & Hn0 & Hn0p & Hhost). rewrite Hix in Hix0.
  assert (k = MLA -> mode (cfg d1) = "mla"%string) as Hm by (rewrite Hd1; by apply resolve_mla).
  unfold allocate_kvcache in Ha. cbn [set_blocks cfg] in Ha. rewrite Hc0, Hk in Ha. cbn [mbind result_bind] in Ha.
  pose proof (allocate_Ok _ _ _ Ha) as (h1 & f1 & _ & _ & Hc1).
  assert (exists t1, kv_cache c1 = Some t1 /\ cfg c1 = cfg c /\ num_kv_heads c1 = num_kv_heads d2 /\ head_dim c1 = head_dim d2 /\ fp8_head_dim c1 = fp8_head_dim d2 /\
    num_local_kvcache_blocks c1 = n /\ num_host_kvcache_blocks c1 = num_host_kvcache_blocks c0 /\ indexer_cache c1 = None) as (t1 & Hk1 & Hg1 & E1 & E2 & E3 & E4 & E5 & E6)
    by (rewrite Hc1; eexists; simpl; rewrite Hc0; done).
  assert (Ht1 : extent_bytes t1 = (if decide (k = DSV4) then n + 1 else n) * bytes).
  { apply (allocate_bytes k d1 d2 bytes (set_blocks n (num_host_kvcache_blocks c0) c0) c1 t1 Hb Hm); [simpl; congruence..|exact Ha|exact Hk1]. }
  assert (kv_cache c2 = kv_cache c1 /\ cfg c2 = cfg c /\ num_local_kvcache_blocks c2 = n /\ indexer_cache c2 = None /\
    (forall th, host_kv_cache c2 = Some th -> 0 < num_host_kvcache_blocks c1 /\
       extent_bytes th = (if decide (k = DSV4) then num_host_kvcache_blocks c1 + 1 else num_host_kvcache_blocks c1) * bytes)) as (F1 & F2 & F3 & F4 & Hth).
  { unfold allocate_host_kvcache in Hh. cbv zeta in Hh. cbn [set_blocks cfg] in Hh. destruct (decide (Z.max 0 _ <= 0)) as [Hz|Hz]; [injection Hh as <-; by simpl|]. rewrite Hg1, Hk in Hh.
    match type of Hh with match ?x with _ => _ end = _ => destruct x as [ch|] eqn:Eh; [|done] end. injection Hh as <-. pose proof (allocate_Ok _ _ _ Eh) as (hh & fh & _ & _ & Hch). rewrite Hch. simpl. split_and!; try congruence. intros th Hkh.
    assert (kv_cache ch = Some th) as Hkc by (rewrite Hch; simpl; exact Hkh).
    rewrite Z.max_r in Eh by lia. split; [lia|]. match type of Eh with allocate k ?x = _ => apply (allocate_bytes k d1 d2 bytes x ch th Hb Hm); [simpl; congruence..|exact Eh|exact Hkc] end. }
  destruct (allocate_indexer_bytes hf c2 c3 Hi F4) as (G1 & G2 & G3); [congruence|by rewrite F2|]. fold indexer in G1.
  assert (t1 = t) as -> by congruence. rewrite F3 in G1. replace (get_indexer_block_bytes c2) with (get_indexer_block_bytes c) in G1 by (unfold get_indexer_block_bytes; by rewrite F2).
  pose proof (paged_bytes_of k n t bytes ltac:(lia) Ht1) as Hpg. set (ib := get_indexer_block_bytes c) in *. cbv zeta in Hn0, Hhost. set (b := bytes + ib) in *.
  assert (0 < bytes) as Hby by (destruct (decide (k = DSV4)); nia). assert (0 <= ib) as Hibp by nia. assert (bytes <= b) as Hbb by (unfold b; lia).
  assert (used = n * b) as -> by (unfold used; rewrite Hpg, G1; unfold b; ring).
  pose proof (Z.mul_div_le gpu b ltac:(lia)) as Hle. pose proof (Z.mul_succ_div_gt gpu b ltac:(lia)) as Hgt. rewrite <- Hn0 in Hle, Hgt. set (N := num_local_kvcache_blocks c0) in *. split_and!.
  - assert (n * b <= N * b) by (apply Z.mul_le_mono_nonneg_r; lia). lia.
  - replace ((N + 1) * (n * b)) with (n * (b * Z.succ N)) by ring. apply Z.mul_lt_mono_pos_l; lia.
  - intros th Hth'. rewrite G3 in Hth'. destruct (Hth th Hth') as [Hhp Hhe]. rewrite (paged_bytes_of k _ th bytes) by (done || lia). rewrite E5, Hhost in Hhp |- *. clear -Hhp Hby Hbb.
    unfold compute_host_kvcache_blocks in *. case_decide as Hz; simpl in *; [lia|]. pose proof (Z.mul_div_le host b ltac:(lia)). assert (0 <= host / b) by (apply Z.div_pos; lia).
    rewrite Z.max_r by lia. assert (host / b * bytes <= host / b * b) by (apply Z.mul_le_mono_nonneg_l; lia). lia.
  - rewrite Hpg, Ht1. destruct (decide (k = DSV4)); [rewrite Z.mul_comm with (n := n + 1), Z.div_mul by lia; ring|lia].
Qed.

Definition mla_sized : CacheContext := match post_init 100000000 50000000 mla_example with Ok c => c | Err _ => mla_example end.
Definition mla_paged : CacheContext := match allocate_kvcache (num_local_kvcache_blocks mla_sized) mla_sized with Ok c => c | Err _ => mla_sized end.
Definition mla_hosted : CacheContext := (allocate_host_kvcache (num_host_kvcache_blocks mla_paged) mla_paged).1.
Definition mla_indexed : CacheContext := match allocate_indexer_cache indexer_example mla_hosted with Ok c => c | Err _ => mla_hosted end.

Lemma post_init_within_budget_witness :
  post_init 100000000 50000000 mla_example = Ok mla_sized /\ num_local_kvcache_blocks mla_sized = 32 /\ num_host_kvcache_blocks mla_sized = 16 /\
  exists t, kv_cache mla_indexed = Some t /\ paged_bytes MLA 32 t + 32 * (61 * 64 * 132) <= 100000000.
Proof.
  split; [vm_compute; reflexivity|]. split; [vm_compute; reflexivity|]. split; [vm_compute; reflexivity|]. exists (default (torch_empty [] 0) (kv_cache mla_indexed)).
  split; [vm_compute; reflexivity|].
  refine (proj1 (post_init_within_budget 100000000 50000000 indexer_example mla_example mla_sized mla_paged mla_hosted mla_indexed MLA 32 (default (torch_empty [] 0) (kv_cache mla_indexed)) _ _ _ _ _ _ _ _ _ _ _ _ _));
    vm_compute; first [reflexivity|discriminate|split; [reflexivity|discriminate]].
Defined.

(** The HiSparse plan is feasible and maximal: the indexer pages of the logical blocks
    fit in what the hot tier leaves of the GPU budget, their KV fits in the host
    budget, and one more logical block would overrun one of the two; each sequence's
    hot pages hold the device buffer plus one spare block. *)
Theorem hisparse_plan_feasible_maximal gpu host seqs buf blk kvb ixb p :
  plan_mla_hisparse_capacity gpu host seqs buf blk kvb ixb = Ok p ->
  0 <= logical_blocks p /\
  allocated_indexer_bytes p <= indexer_budget_bytes p /\
  allocated_host_bytes p <= host_cache_budget_bytes p /\
  (buffer_hbm_shortfall_bytes p = 0 ->
     hot_tier_bytes p + allocated_indexer_bytes p <= gpu_cache_budget_bytes p) /\
  (indexer_budget_bytes p < (logical_blocks p + 1) * indexer_block_bytes p \/
   host_cache_budget_bytes p < (logical_blocks p + 1) * kv_block_bytes p) /\
  seqs * (buf + blk) <= hot_blocks p * cap_block_size p.
Proof.
  unfold plan_mla_hisparse_capacity. repeat case_decide; try done. intros [= <-].
  unfold allocated_indexer_bytes, allocated_host_bytes, buffer_hbm_shortfall_bytes. simpl.
  set (hotps := (buf + blk + blk - 1) / blk). set (ib := Z.max 0 (gpu - seqs * hotps * kvb)).
  pose proof (Z.mul_div_le ib ixb). pose proof (Z.mul_div_le (Z.max 0 host) kvb).
  pose proof (Z.mul_succ_div_gt ib ixb). pose proof (Z.mul_succ_div_gt (Z.max 0 host) kvb).
  assert (0 <= ib / ixb) by (apply Z.div_pos; lia).
  assert (0 <= Z.max 0 host / kvb) by (apply Z.div_pos; lia).
  assert (buf + blk <= hotps * blk) as Hhot.
  { pose proof (Z.mul_succ_div_gt (buf + blk + blk - 1) blk). fold hotps in H7. lia. }
  assert (Z.min (ib / ixb) (Z.max 0 host / kvb) * ixb <= ib) by nia.
  assert (Z.min (ib / ixb) (Z.max 0 host / kvb) * kvb <= Z.max 0 host) by nia.
  split_and!; [lia|lia|lia| | |nia].
  - intros Hs. lia.
  - destruct (Z.min_spec (ib / ixb) (Z.max 0 host / kvb)) as [[_ ->]|[_ ->]]; [left|right]; lia.
Qed.

Lemma hisparse_plan_feasible_maximal_witness :
  exists p, plan_mla_hisparse_capacity 1000000 4000000 4 128 64 3000 500 = Ok p /\
    logical_blocks p = 1333 /\ allocated_indexer_bytes p <= indexer_budget_bytes p.
Proof.
  destruct (plan_mla_hisparse_capacity 1000000 4000000 4 128 64 3000 500) as [p|] eqn:E;
    [|discriminate].
  exists p. split; [reflexivity|]. split; [vm_compute in E; injection E as <-; reflexivity|].
  apply (hisparse_plan_feasible_maximal 1000000 4000000 4 128 64 3000 500 p E).
Defined.

(** The GDN reserve is exact: for the same arguments the bytes estimated before KV
    sizing are the bytes of the two state pools allocated afterwards. *)
Theorem gdn_estimate_exact {T} cap hf (layers : list T) bs backup slots tp c c' bytes :
  layers <> [] ->
  estimate_gdn_state_bytes cap hf layers bs backup slots tp = Ok bytes ->
  allocate_gdn_states cap hf layers bs backup slots (Some tp) c = Ok c' ->
  gdn c = mk_gdn None None 0 0 ->
  bytes = match gdn_conv_states (gdn c'), gdn_recurrent_states (gdn c') with
          | Some conv, Some rec => numel conv * element_size conv + numel rec * element_size rec
          | _, _ => 0
          end.
Proof.
  unfold estimate_gdn_state_bytes, allocate_gdn_states. intros Hl. rewrite decide_False.
  2: { by intros ?%nil_length_inv. }
  simpl. destruct (gdn_geometry hf tp) as [d|] eqn:E; [|done]. simpl. case_decide.
  - intros [= <-] [= <-] ->. done.
  - intros [= <-] [= <-] _. unfold numel. simpl. ring.
Qed.

(** A Qwen3.5-shaped linear-attention geometry. *)
Definition gdn_example : HfConfig :=
  mk_hf None None None None None None None None None None None None
        (Some 16) (Some 32) (Some 128) (Some 128) (Some 4) false None ∅.

Lemma gdn_estimate_exact_witness :
  exists bytes c',
    estimate_gdn_state_bytes (Some (9, 0)) gdn_example [tt; tt] 8 true 2 2 = Ok bytes /\
    allocate_gdn_states (Some (9, 0)) gdn_example [tt; tt] 8 true 2 (Some 2) mla_example = Ok c' /\
    bytes = match gdn_conv_states (gdn c'), gdn_recurrent_states (gdn c') with
            | Some conv, Some rec => numel conv * element_size conv + numel rec * element_size rec
            | _, _ => 0
            end.
Proof.
  destruct (estimate_gdn_state_bytes (Some (9, 0)) gdn_example [tt; tt] 8 true 2 2) as [b|] eqn:E1;
    [|discriminate].
  destruct (allocate_gdn_states (Some (9, 0)) gdn_example [tt; tt] 8 true 2 (Some 2) mla_example)
    as [c'|] eqn:E2; [|discriminate].
  exists b, c'. split; [reflexivity|]. split; [reflexivity|].
  apply (gdn_estimate_exact (Some (9, 0)) gdn_example [tt; tt] 8 true 2 2 mla_example c' b);
    [discriminate | exact E1 | exact E2 | reflexivity].
Defined.

(** Allocating the host copy is transparent to the device cache: whether it succeeds,
    raises or is disabled, the device cache tensor, the device block count, the
    device and the Fabric regions are what they were; on success with a positive
    count the host cache has the layout of the primary cache with that many blocks. *)
Theorem allocate_host_kvcache_restores n c c' r :
  allocate_host_kvcache n c = (c', r) ->
  kv_cache c' = kv_cache c /\ num_local_kvcache_blocks c' = num_local_kvcache_blocks c /\
  device c' = device c /\ cfg c' = cfg c /\ num_host_kvcache_blocks c' = Z.max 0 n /\
  (fabric c' = fabric c) /\
  (r = Ok tt -> 0 < n -> exists k h, resolve_cache_backend (mode (cfg c)) = Ok k /\
     host_kv_cache c' = Some (primary_layout k (set_blocks n n c) h)).
Proof.
  unfold allocate_host_kvcache. case_decide as Hn.
  { intros [= <- <-]. simpl. split_and!; try done. lia. }
  simpl. destruct (resolve_cache_backend _) as [k|e] eqn:Ek.
  2: { intros [= <- <-]. simpl. by split_and!. }
  destruct (allocate k _) as [c2|e] eqn:Ea.
  2: { intros [= <- <-]. simpl. by split_and!. }
  pose proof (allocate_cpu_fabric _ _ _ Ea eq_refl) as Hf.
  apply allocate_Ok in Ea as (h & f & _ & _ & ->). simpl in Hf.
  intros [= <- <-]. simpl. rewrite Hf. split_and!; try done.
  intros _ Hpos. exists k, h. split; [done|]. rewrite Z.max_r by lia. done.
Qed.

Lemma allocate_host_kvcache_restores_witness :
  exists c', allocate_host_kvcache 3 (set_fp8 656 (set_heads 1 576 None mla_example)) = (c', Ok tt) /\
    device c' = "cuda" /\ num_local_kvcache_blocks c' = -1.
Proof.
  destruct (allocate_host_kvcache 3 (set_fp8 656 (set_heads 1 576 None mla_example)))
    as [c' r] eqn:E.
  destruct (allocate_host_kvcache_restores _ _ _ _ E) as (_ & H1 & H2 & _).
  exists c'. split; [|split; [exact H2 | exact H1]].
  vm_compute in E. injection E as <- <-. reflexivity.
Defined.

(** The MLA cache format honours the request and the tiers above it: a raw layout is
    always FP8 on Blackwell; an explicit FP8 request is granted and an explicit
    BF16 one is never turned into FP8; with HiSparse on MLA the format is FP8; and the
    automatic choice is FP8 exactly for sparse MLA outside reference decode. *)
Theorem resolve_mla_cache_format_sound dt nsa fb hf plan hw force fp8 raw :
  resolve_mla_cache_format dt nsa fb hf plan hw force = Ok (fp8, raw) ->
  raw = (fp8 && bool_decide (hw = "blackwell")) /\
  (dt = "fp8_e4m3" -> fp8 = true /\ has_mla plan = true /\
     default 0 (HfConfig.kv_lora_rank hf) = 512 /\ default 0 (HfConfig.qk_rope_head_dim hf) = 64) /\
  (dt = "bfloat16" -> fp8 = false) /\
  (has_hisparse plan = true -> has_mla plan = true -> fp8 = true) /\
  (dt = "auto" -> fp8 = (has_indexer plan && bool_decide (default 0 (HfConfig.index_head_dim hf) > 0)
     && negb nsa && negb (force || (fb && bool_decide
          (default 0 (HfConfig.kv_lora_rank hf) + default 0 (HfConfig.qk_rope_head_dim hf)
             ∉ [512; 576]))))).
Proof.
  unfold resolve_mla_cache_format. case_decide as Hreq; [done|].
  set (sparse := has_indexer plan && _ && _). set (rd := force || _).
  assert (dt = "auto" \/ dt = "bfloat16" \/ dt = "fp8_e4m3") as [->|[->| ->]] by set_solver;
    clear Hreq; simpl.
  - destruct (has_hisparse plan), (has_mla plan), sparse, rd; simpl; intros [= <- <-];
      by split_and!.
  - destruct (has_hisparse plan), (has_mla plan), sparse, rd; simpl; intros [= <- <-];
      by split_and!.
  - destruct (has_mla plan); simpl; [|done].
    destruct rd; simpl; [done|]. case_bool_decide as Hrr; simpl; [|done]. injection Hrr as -> ->.
    repeat case_match; try done; intros [= <- <-]; by split_and!.
Qed.

Lemma resolve_mla_cache_format_sound_witness :
  resolve_mla_cache_format "fp8_e4m3" false false
    (mk_hf None None None None None (Some 512) (Some 64) None (Some 128) None None None None None
       None None None false None ∅) (mk_plan_flags true true false) "hopper" false = Ok (true, false)
  /\ false = (true && bool_decide ("hopper" = "blackwell")).
Proof.
  split; [reflexivity|].
  apply (resolve_mla_cache_format_sound "fp8_e4m3" false false
    (mk_hf None None None None None (Some 512) (Some 64) None (Some 128) None None None None None
       None None None false None ∅) (mk_plan_flags true true false) "hopper" false true false);
    reflexivity.
Defined.
