(* ===== verification/CacheLayout.v ===== *)
(** Byte offsets for peer-to-peer cache transfer
    ([dlengine/runtime/disagg/p2p/cache_layout.py]): the layout snapshot of the local
    cache, the snapshot of a remote engine's cache built from its published metadata,
    and the offset arithmetic both sides use. *)

From S2P Require Import Prelude HfConfig Cache.

Open Scope Z_scope.

(** [CacheTensorLayout] *)
Record CacheTensorLayout := mk_layout {
  num_blocks : Z;
  lay_block_size : Z;
  lay_num_local_kv_heads : Z;
  lay_head_dim : Z;
  lay_dtype_itemsize : Z;
  lay_num_hidden_layers : Z;
  lay_mode : string;
  lay_is_fp8_kvcache : bool;
  lay_fp8_head_dim : Z;
  lay_raw_fp8_mla_layout : bool;
  lay_gdn_num_slots : Z;
  gdn_conv_stride0 : Z;
  gdn_conv_stride1 : Z;
  gdn_conv_element_size : Z;
  gdn_recurrent_stride0 : Z;
  gdn_recurrent_stride1 : Z;
  gdn_recurrent_element_size : Z;
  indexer_page_bytes : Z;
  compressed_pool_pages : gmap Z Z;
  compressed_page_bytes_by_ratio : gmap Z Z;
  compressor_slots_plus_dummy_by_ratio : gmap Z Z
}.

(** [t.stride(i)] and [t.shape\[i\]] *)
Definition stride (t : Tensor) (i : nat) : Z := default 0 (strides t !! i).
Definition dim (t : Tensor) (i : nat) : Z := default 0 (shape t !! i).

(** [CacheTensorLayout.from_cache_context] *)
Definition from_cache_context (c : CacheContext) : result CacheTensorLayout :=
  let g := cfg c in
  h ← num_local_kv_heads c;
  let strides_of o :=
    match o with
    | Some t => (stride t 0, stride t 1, element_size t)
    | None => (0, 0, 0)
    end in
  let '(cs0, cs1, ce) := strides_of (gdn_conv_states (gdn c)) in
  let '(rs0, rs1, re) := strides_of (gdn_recurrent_states (gdn c)) in
  Ok (mk_layout (num_local_kvcache_blocks c) (block_size g) h (head_dim c) (dtype_itemsize g)
        (num_hidden_layers g) (mode g) (is_fp8_kvcache g) (default 0 (fp8_head_dim c))
        (raw_fp8_mla_layout g) (gdn_num_slots (gdn c)) cs0 cs1 ce rs0 rs1 re
        (match indexer_cache c with
         | Some ix => page_size ix * bytes_per_token ix
         | None => 0
         end)
        ((fun '(num_pages, _, _) => num_pages) <$> dsv4_compressed_pool_config (csa c))
        ((fun '(_, pg, _) => pg * DSV4_BYTES_PER_TOKEN) <$> dsv4_compressed_pool_config (csa c))
        ((fun t => dim t 1) <$> dsv4_compressor_kv_flat (csa c))).

(** [x or d] on integers *)
Definition z_or (x d : Z) : Z := if decide (x = 0) then d else x.

(** [CacheTensorLayout.from_peer_metadata] *)
Definition from_peer_metadata (l : CacheTensorLayout) (n gdn_slots : Z)
    (pool_pages : option (gmap Z Z)) (dsv4_max_slots num_layers : Z) : CacheTensorLayout :=
  let slots := z_or gdn_slots (lay_gdn_num_slots l) in
  mk_layout n (lay_block_size l) (lay_num_local_kv_heads l) (lay_head_dim l)
    (lay_dtype_itemsize l) (z_or num_layers (lay_num_hidden_layers l)) (lay_mode l)
    (lay_is_fp8_kvcache l) (lay_fp8_head_dim l) (lay_raw_fp8_mla_layout l)
    slots
    (slots * gdn_conv_stride1 l) (gdn_conv_stride1 l) (gdn_conv_element_size l)
    (slots * gdn_recurrent_stride1 l) (gdn_recurrent_stride1 l) (gdn_recurrent_element_size l)
    (indexer_page_bytes l)
    (default ∅ pool_pages)
    (compressed_page_bytes_by_ratio l)
    ((fun local_slots => (if decide (dsv4_max_slots > 0) then dsv4_max_slots
                          else local_slots - 1) + 1) <$> compressor_slots_plus_dummy_by_ratio l).

(** * Offsets *)

Section offsets.
Implicit Types l : CacheTensorLayout.

Definition block_stride l (block_idx : Z) : Z :=
  if decide (lay_mode l = "dsv4") then block_idx * lay_block_size l * DSV4_BYTES_PER_TOKEN
  else if lay_is_fp8_kvcache l && bool_decide (lay_mode l = "mla") then
    let rows := if lay_raw_fp8_mla_layout l then lay_block_size l else lay_block_size l + 1 in
    block_idx * rows * lay_fp8_head_dim l
  else block_idx * lay_block_size l * lay_num_local_kv_heads l * lay_head_dim l
       * lay_dtype_itemsize l.

Definition block_num_bytes l : Z :=
  if lay_is_fp8_kvcache l && bool_decide (lay_mode l = "mla")
  then lay_block_size l * lay_fp8_head_dim l
  else block_stride l 1.

Definition layer_stride l (layer_idx block_idx : Z) : Z :=
  let layer_blocks := if decide (lay_mode l = "dsv4") then num_blocks l + 1 else num_blocks l in
  block_stride l layer_blocks * layer_idx + block_stride l block_idx.

Definition kv_stride l (kv_idx layer_idx block_idx : Z) : result Z :=
  if decide (lay_mode l = "dsv4") then
    if decide (kv_idx <> 0) then Err ValueError else Ok (layer_stride l layer_idx block_idx)
  else Ok (layer_stride l (lay_num_hidden_layers l) 0 * kv_idx + layer_stride l layer_idx block_idx).

Definition gdn_conv_stride l (layer_idx slot_idx : Z) : Z :=
  if decide (gdn_conv_stride1 l = 0) then -1
  else (layer_idx * gdn_conv_stride0 l + slot_idx * gdn_conv_stride1 l) * gdn_conv_element_size l.

Definition gdn_recurrent_stride l (layer_idx slot_idx : Z) : Z :=
  if decide (gdn_recurrent_stride1 l = 0) then -1
  else (layer_idx * gdn_recurrent_stride0 l + slot_idx * gdn_recurrent_stride1 l)
       * gdn_recurrent_element_size l.

Definition gdn_conv_slot_num_bytes l : Z := gdn_conv_stride1 l * gdn_conv_element_size l.
Definition gdn_recurrent_slot_num_bytes l : Z :=
  gdn_recurrent_stride1 l * gdn_recurrent_element_size l.

Definition indexer_stride l (layer_idx block_idx : Z) : Z :=
  (layer_idx * num_blocks l + block_idx) * indexer_page_bytes l.

Definition compressed_page_bytes l (ratio : Z) : Z :=
  default 0 (compressed_page_bytes_by_ratio l !! ratio).

Definition compressed_stride l (ratio ratio_layer_idx page_idx : Z) : Z :=
  match compressed_pool_pages l !! ratio with
  | None => -1
  | Some num_pages => (ratio_layer_idx * (num_pages + 1) + page_idx) * compressed_page_bytes l ratio
  end.

Definition compressor_state_row_bytes (ratio : Z) (kind : string) : Z :=
  if decide (kind = "counts") then 4
  else compressor_coeff ratio * ratio * compressor_coeff ratio * 512 * 4.

Definition compressor_state_stride l (ratio ratio_layer_idx slot : Z) (kind : string) : Z :=
  let row_bytes := compressor_state_row_bytes ratio kind in
  let slots := default 0 (compressor_slots_plus_dummy_by_ratio l !! ratio) in
  (ratio_layer_idx * slots + slot) * row_bytes.
End offsets.

(** * The snapshots a transfer uses: [P2PCacheLayout] *)

(** The peer metadata of [P2PCacheTransfer] that the layout reads. *)
Record PeerTables := mk_peers {
  num_remote_kvcache_blocks : gmap string Z;
  remote_gdn_num_slots : gmap string Z;
  remote_compressed_pool_pages : gmap string (gmap Z Z);
  remote_dsv4_max_slots : gmap string Z
}.

(** [P2PCacheLayout.remote]: an engine without a published block count raises. *)
Definition remote (c : CacheContext) (p : PeerTables) (engine : string) (num_layers : Z)
    : result CacheTensorLayout :=
  l ← from_cache_context c;
  n ← of_option KeyError (num_remote_kvcache_blocks p !! engine);
  Ok (from_peer_metadata l n (default 0 (remote_gdn_num_slots p !! engine))
        (Some (default ∅ (remote_compressed_pool_pages p !! engine)))
        (default 0 (remote_dsv4_max_slots p !! engine)) num_layers).

Definition local_kv_stride (c : CacheContext) (kv_idx layer_idx block_idx : Z) : result Z :=
  l ← from_cache_context c; kv_stride l kv_idx layer_idx block_idx.

Definition remote_kv_stride (c : CacheContext) (p : PeerTables)
    (kv_idx layer_idx block_idx : Z) (engine : string) (remote_num_layers : Z) : result Z :=
  l ← remote c p engine remote_num_layers; kv_stride l kv_idx layer_idx block_idx.

Definition local_block_num_bytes (c : CacheContext) : result Z :=
  l ← from_cache_context c; Ok (block_num_bytes l).

(** [_tensor_storage_span_num_bytes] (cache_transfer.py): bytes from the first element
    through the last element of a strided view. *)
Definition tensor_storage_span_num_bytes (t : Tensor) : Z :=
  if decide (numel t = 0) then 0
  else
    let last := foldl (fun off p => if decide (fst p > 0) then off + (fst p - 1) * snd p else off)
                      0 (zip (shape t) (strides t)) in
    (last + 1) * element_size t.

(** * Offsets are tensor offsets *)

(** A context whose primary cache was allocated by its own backend, with a
    nondegenerate geometry. *)
Record allocated (c : CacheContext) (k : CacheKind) (h : Z) : Prop := mk_allocated {
  al_kind : resolve_cache_backend (mode (cfg c)) = Ok k;
  al_heads : num_local_kv_heads c = Ok h;
  al_cache : kv_cache c = Some (primary_layout k c h);
  al_raw : k = MLA -> is_fp8_kvcache (cfg c) = true -> raw_fp8_mla_layout (cfg c) = true ->
           fp8_head_dim c = Some (head_dim c);
  al_row : k = MLA -> is_fp8_kvcache (cfg c) = true -> 0 < default 0 (fp8_head_dim c);
  al_layers : 0 < num_hidden_layers (cfg c);
  al_blocks : 0 < num_local_kvcache_blocks c;
  al_rows : 0 < block_size (cfg c);
  al_h : 0 < h;
  al_dim : 0 < head_dim c;
  al_item : 0 < dtype_itemsize (cfg c)
}.

(** Number of cache planes: K and V for GQA, one otherwise. *)
Definition planes (k : CacheKind) : Z := match k with GQA => 2 | _ => 1 end.

Record block_coord (c : CacheContext) (k : CacheKind) (kv layer blk : Z) : Prop := mk_coord {
  co_kv : 0 <= kv < planes k;
  co_layer : 0 <= layer < num_hidden_layers (cfg c);
  co_blk : 0 <= blk < num_local_kvcache_blocks c
}.

(** The index prefix of a block in the primary cache tensor (DSv4 has no plane
    dimension). *)
Definition block_index (k : CacheKind) (kv layer blk : Z) : list Z :=
  match k with DSV4 => [layer; blk] | _ => [kv; layer; blk] end.

Lemma resolve_mode s k :
  resolve_cache_backend s = Ok k -> s = match k with GQA => "gqa" | MLA => "mla" | DSV4 => "dsv4" end.
Proof. unfold resolve_cache_backend. repeat case_decide; naive_solver. Qed.

(** The block stride in bytes, per backend. *)
Definition block_pitch (c : CacheContext) (k : CacheKind) (h : Z) : Z :=
  let g := cfg c in
  match k with
  | GQA => block_size g * h * head_dim c * dtype_itemsize g
  | MLA =>
      if is_fp8_kvcache g then
        (if raw_fp8_mla_layout g then block_size g else block_size g + 1)
        * default 0 (fp8_head_dim c)
      else block_size g * h * head_dim c * dtype_itemsize g
  | DSV4 => block_size g * DSV4_BYTES_PER_TOKEN
  end.

(** Blocks per layer: DSv4 has one dummy page more. *)
Definition blocks_per_layer (c : CacheContext) (k : CacheKind) : Z :=
  match k with DSV4 => num_local_kvcache_blocks c + 1 | _ => num_local_kvcache_blocks c end.

(** The linear number of a block in the tensor. *)
Definition block_number (c : CacheContext) (k : CacheKind) (kv layer blk : Z) : Z :=
  (kv * num_hidden_layers (cfg c) + layer) * blocks_per_layer c k + blk.

(** The bytes of a block that hold tokens. *)
Definition block_payload (c : CacheContext) (k : CacheKind) (h : Z) : Z :=
  let g := cfg c in
  match k with
  | MLA => if is_fp8_kvcache g then block_size g * default 0 (fp8_head_dim c)
           else block_pitch c k h
  | _ => block_pitch c k h
  end.

Lemma block_payload_bounds c k h :
  allocated c k h -> 0 < block_payload c k h <= block_pitch c k h.
Proof.
  intros []. unfold block_payload, block_pitch, DSV4_BYTES_PER_TOKEN.
  assert (0 < block_size (cfg c) * h * head_dim c * dtype_itemsize (cfg c))
    by (repeat apply Z.mul_pos_pos; lia).
  destruct k; [lia| |lia].
  destruct (is_fp8_kvcache (cfg c)); [|lia].
  specialize (al_row0 eq_refl eq_refl). destruct (raw_fp8_mla_layout (cfg c)); nia.
Qed.

Lemma block_number_bounds c k h kv layer blk :
  allocated c k h -> block_coord c k kv layer blk ->
  0 <= block_number c k kv layer blk < planes k * num_hidden_layers (cfg c) * blocks_per_layer c k.
Proof.
  intros [] []. unfold block_number.
  assert (0 <= blk < blocks_per_layer c k) by (unfold blocks_per_layer; destruct k; lia).
  assert (0 <= kv * num_hidden_layers (cfg c) + layer < planes k * num_hidden_layers (cfg c)) by nia.
  nia.
Qed.

(** Blocks have distinct numbers. *)
Lemma block_number_inj c k h kv layer blk kv' layer' blk' :
  allocated c k h -> block_coord c k kv layer blk -> block_coord c k kv' layer' blk' ->
  block_number c k kv layer blk = block_number c k kv' layer' blk' ->
  (kv, layer, blk) = (kv', layer', blk').
Proof.
  intros [] [] []. unfold block_number. intros E.
  assert (0 <= blk < blocks_per_layer c k) by (unfold blocks_per_layer; destruct k; lia).
  assert (0 <= blk' < blocks_per_layer c k) by (unfold blocks_per_layer; destruct k; lia).
  apply radix_inj in E as [E ->]; [|lia..].
  apply radix_inj in E as [-> ->]; [|lia..]. done.
Qed.

(** The transfer layer's offset of a block is its number times the pitch. *)
Lemma local_kv_stride_eq c k h kv layer blk :
  allocated c k h -> block_coord c k kv layer blk ->
  local_kv_stride c kv layer blk = Ok (block_number c k kv layer blk * block_pitch c k h) /\
  local_block_num_bytes c = Ok (block_payload c k h).
Proof.
  intros [] []. pose proof (resolve_mode _ _ al_kind0) as Hm.
  unfold local_kv_stride, local_block_num_bytes, from_cache_context. rewrite al_heads0. simpl.
  destruct (gdn_conv_states (gdn c)), (gdn_recurrent_states (gdn c)).
  all: unfold kv_stride, layer_stride, block_num_bytes, block_stride, block_number, block_payload,
    block_pitch, blocks_per_layer; simpl; rewrite Hm; destruct k; simpl in *.
  all: rewrite ?andb_false_r; simpl.
  all: try (assert (kv = 0) as -> by lia; simpl).
  all: try (destruct (is_fp8_kvcache (cfg c)); simpl); split; f_equal; ring.
Qed.

(** The [len] bytes from [off] on are those of [t\[idx\]]: they begin at its first element, there
    are as many as it has, and it is contiguous. *)
Definition holds_subtensor (t : Tensor) (idx : list Z) (off len : Z) : Prop :=
  off = dot idx (strides t) * element_size t /\
  len = foldr Z.mul 1 (drop (length idx) (shape t)) * element_size t /\
  drop (length idx) (strides t) = row_major (drop (length idx) (shape t)).

(** The offset read off the tensor's own strides, and the registered span. *)
Lemma primary_layout_offset c k h kv layer blk :
  allocated c k h -> block_coord c k kv layer blk ->
  let t := primary_layout k c h in
  dot (block_index k kv layer blk) (strides t) * element_size t =
    block_number c k kv layer blk * block_pitch c k h.
Proof.
  intros [] []. unfold primary_layout, block_number, block_pitch, blocks_per_layer, planes in *.
  destruct k; simpl.
  - ring.
  - destruct (is_fp8_kvcache (cfg c)); [destruct (raw_fp8_mla_layout (cfg c)) eqn:?|]; simpl.
    + rewrite (al_raw0 eq_refl eq_refl eq_refl). simpl. ring.
    + ring.
    + ring.
  - assert (kv = 0) as -> by lia. ring.
Qed.

(** The offset and length of a block are those of its sub-tensor. *)
Lemma primary_layout_block c k h kv layer blk :
  allocated c k h -> block_coord c k kv layer blk ->
  holds_subtensor (primary_layout k c h) (block_index k kv layer blk)
    (block_number c k kv layer blk * block_pitch c k h) (block_payload c k h).
Proof.
  intros Ha Hco. split; [symmetry; by apply primary_layout_offset|]. destruct Ha.
  unfold block_payload, block_pitch, primary_layout, block_index. destruct k; [split; [cbn; ring|done]| |split; [cbn; unfold DSV4_BYTES_PER_TOKEN; ring|done]].
  destruct (is_fp8_kvcache (cfg c)); [destruct (raw_fp8_mla_layout (cfg c)) eqn:?|]; cbn.
  - rewrite (al_raw0 eq_refl eq_refl eq_refl). split; [cbn; ring|done].
  - rewrite Z.min_l by lia. split; [ring|done].
  - split; [ring|done].
Qed.

Lemma primary_layout_span c k h :
  allocated c k h ->
  tensor_storage_span_num_bytes (primary_layout k c h) =
    (planes k * num_hidden_layers (cfg c) * blocks_per_layer c k - 1) * block_pitch c k h
    + block_payload c k h.
Proof.
  intros []. unfold tensor_storage_span_num_bytes.
  assert (0 < numel (primary_layout k c h)) as Hn.
  { unfold numel, primary_layout, DSV4_BYTES_PER_TOKEN. destruct k; simpl.
    - repeat apply Z.mul_pos_pos; lia.
    - destruct (is_fp8_kvcache (cfg c)); [destruct (raw_fp8_mla_layout (cfg c))|]; simpl;
        try specialize (al_row0 eq_refl eq_refl); repeat apply Z.mul_pos_pos; lia.
    - repeat apply Z.mul_pos_pos; lia. }
  rewrite decide_False by lia.
  unfold primary_layout, block_pitch, block_payload, blocks_per_layer, DSV4_BYTES_PER_TOKEN.
  destruct k; simpl.
  - rewrite !decide_True by lia. ring.
  - destruct (is_fp8_kvcache (cfg c)); [destruct (raw_fp8_mla_layout (cfg c))|]; simpl.
    + rewrite (al_raw0 eq_refl eq_refl eq_refl). simpl. rewrite !decide_True by lia. ring.
    + specialize (al_row0 eq_refl eq_refl). rewrite !decide_True by lia.
      rewrite Z.min_l by lia. ring.
    + rewrite !decide_True by lia. ring.
  - rewrite !decide_True by lia. unfold DSV4_BYTES_PER_TOKEN. ring.
Qed.

(** The local head count of a context. *)
Definition heads_of (c : CacheContext) (k : CacheKind) : Z :=
  match k with MLA => 1 | _ => num_kv_heads c / attention_tp (cfg c) end.

Lemma num_local_kv_heads_of c k :
  resolve_cache_backend (mode (cfg c)) = Ok k -> 0 < attention_tp (cfg c) ->
  num_local_kv_heads c = Ok (heads_of c k).
Proof.
  intros Hm%resolve_mode Htp. unfold num_local_kv_heads, py_floordiv, heads_of. rewrite Hm.
  rewrite (decide_False (P := attention_tp (cfg c) = 0)) by lia. by destruct k.
Qed.

(** Sizing records the FP8 row width the allocation uses. *)
Lemma get_block_bytes_fp8 k c bytes c' :
  get_block_bytes k c = Ok (bytes, c') -> 0 < bytes ->
  0 < num_hidden_layers (cfg c) -> 0 < block_size (cfg c) -> 0 < head_dim c ->
  exists f, c' = set_heads (num_kv_heads c) (head_dim c) f c /\
    (k = MLA -> is_fp8_kvcache (cfg c) = true -> 0 < default 0 f /\
       (raw_fp8_mla_layout (cfg c) = true -> f = Some (head_dim c))).
Proof.
  intros Hb Hbytes HL HB Hd. destruct (get_block_bytes_Ok _ _ _ _ Hb) as (h & Hh & Hspec).
  destruct k; [destruct Hspec as [_ ->]; exists (fp8_head_dim c); by destruct c| |
               destruct Hspec as [_ ->]; exists (fp8_head_dim c); by destruct c].
  destruct Hspec as (f & -> & _ & H2 & H3). exists (Some f). split; [done|]. intros _ E.
  destruct (raw_fp8_mla_layout (cfg c)).
  - by destruct (H2 E eq_refl) as [-> _].
  - specialize (H3 E eq_refl). split; [simpl; nia|done].
Qed.

Lemma heads_of_pos k c0 c1 bytes c2 :
  configure k c0 = Ok c1 -> get_block_bytes k c1 = Ok (bytes, c2) ->
  resolve_cache_backend (mode (cfg c1)) = Ok k -> 0 < attention_tp (cfg c1) ->
  0 < bytes -> 0 < num_hidden_layers (cfg c1) -> 0 < block_size (cfg c1) ->
  0 < head_dim c1 -> 0 < dtype_itemsize (cfg c1) -> 0 < heads_of c1 k.
Proof.
  intros Hc Hb Hk Htp Hbytes HL HB Hd Hi. destruct k; [|done|].
  - destruct (get_block_bytes_Ok _ _ _ _ Hb) as (h & Hh & -> & _).
    rewrite (num_local_kv_heads_of _ _ Hk Htp) in Hh. assert (h = heads_of c1 GQA) as -> by naive_solver.
    assert (0 < num_hidden_layers (cfg c1) * block_size (cfg c1)) by nia.
    assert (0 < head_dim c1 * dtype_itemsize (cfg c1)) by nia. nia.
  - unfold configure, configure_gqa_cache, configure_mla_cache, configure_dsv4_cache in Hc. repeat case_decide; try done. injection Hc as <-. simpl.
    by assert (attention_tp (cfg c0) = 1) as -> by lia.
Qed.

(** A block's payload is inside the span. *)
Lemma block_span c k h kv layer blk :
  allocated c k h -> block_coord c k kv layer blk ->
  0 <= block_number c k kv layer blk * block_pitch c k h /\
  block_number c k kv layer blk * block_pitch c k h + block_payload c k h
    <= tensor_storage_span_num_bytes (primary_layout k c h).
Proof.
  intros Ha Hco. pose proof (block_payload_bounds _ _ _ Ha).
  pose proof (block_number_bounds _ _ _ _ _ _ Ha Hco). rewrite (primary_layout_span _ _ _ Ha). nia.
Qed.

(** Configuring, sizing and allocating a backend with positive dimensions establishes
    [allocated]. *)
Lemma allocate_kvcache_allocated k c0 c1 c2 c3 bytes n :
  resolve_cache_backend (mode (cfg c0)) = Ok k -> configure k c0 = Ok c1 ->
  get_block_bytes k c1 = Ok (bytes, c2) -> allocate_kvcache n c2 = Ok c3 ->
  0 < n -> 0 < bytes -> 0 < num_hidden_layers (cfg c0) -> 0 < block_size (cfg c0) ->
  0 < attention_tp (cfg c0) -> 0 < head_dim c1 -> 0 < dtype_itemsize (cfg c0) ->
  allocated c3 k (heads_of c1 k).
Proof.
  intros Hk Hc Hb Ha Hn Hbytes HL HB Htp Hd Hi.
  rewrite <- (configure_cfg _ _ _ Hc) in Hk, HL, HB, Htp, Hi.
  destruct (get_block_bytes_fp8 _ _ _ _ Hb) as (f & -> & Hf); [done..|].
  unfold allocate_kvcache in Ha. simpl in Ha. rewrite Hk in Ha. simpl in Ha.
  apply allocate_Ok in Ha as (h' & f' & Hh' & _ & ->). simpl in Hh'.
  pose proof (num_local_kv_heads_of _ _ Hk Htp) as Hl.
  unfold num_local_kv_heads in Hh', Hl. simpl in Hh'. rewrite Hl in Hh'.
  split; simpl; try done.
  - f_equal. destruct k; [|unfold primary_layout; simpl; destruct (is_fp8_kvcache (cfg c1)) eqn:E8|];
      try done.
    + by injection (Hh' ltac:(done) ltac:(done)) as <-.
    + by injection (Hh' ltac:(done) ltac:(done)) as <-.
  - intros. by apply Hf.
  - intros. by apply Hf.
  - by eapply heads_of_pos.
Qed.

(** * Properties *)

(** A packed-FP8 MLA cache (rank 512, RoPE 64) of a stage with [layers] layers, with
    [blocks] blocks allocated. *)
Definition mla_stage (layers blocks : Z) : CacheContext :=
  let c := mk_ctx (mk_cfg 64 layers 8 2 "mla" 512 64 true false 128 false None 16 0)
             1 576 (Some 656) blocks 0 "cuda" None None None (mk_gdn None None 0 0) None empty_csa 0 None in
  set_kv (Some (primary_layout MLA c 1)) c.

Lemma mla_stage_ok layers blocks : 0 < layers -> 0 < blocks -> allocated (mla_stage layers blocks) MLA 1.
Proof. intros. by split. Qed.

Definition mla_allocated : CacheContext := mla_stage 61 10.

Lemma mla_allocated_ok : allocated mla_allocated MLA 1.
Proof.
  apply (allocate_kvcache_allocated MLA mla_example (set_heads 1 576 None mla_example)
           (set_fp8 656 (set_heads 1 576 None mla_example)) _ (61 * 65 * 656) 10);
    vm_compute; reflexivity.
Qed.

(** C2. In a cache its own backend has allocated, the byte offset and length the transfer layer
    computes for a block of a layer are exactly those of the block in the allocated tensor: the
    bytes are those of the contiguous sub-tensor of the block, and they lie inside the storage
    span registered for RDMA. *)
Theorem kv_block_within_registered_span c k h kv layer blk :
  allocated c k h -> block_coord c k kv layer blk ->
  exists off len t, local_kv_stride c kv layer blk = Ok off /\ local_block_num_bytes c = Ok len /\
    kv_cache c = Some t /\ holds_subtensor t (block_index k kv layer blk) off len /\
    0 <= off /\ 0 < len /\ off + len <= tensor_storage_span_num_bytes t.
Proof.
  intros Ha Hco. destruct (local_kv_stride_eq _ _ _ _ _ _ Ha Hco) as [Hs Hb].
  pose proof (block_span _ _ _ _ _ _ Ha Hco). pose proof (block_payload_bounds _ _ _ Ha).
  eexists _, _, (primary_layout k c h).
  split_and!; [done|done|by apply al_cache|by apply primary_layout_block|lia|lia|lia].
Qed.

Lemma kv_block_within_registered_span_witness :
  exists off len t, local_kv_stride mla_allocated 0 60 9 = Ok off /\
    local_block_num_bytes mla_allocated = Ok len /\ kv_cache mla_allocated = Some t /\
    holds_subtensor t [0; 60; 9] off len /\
    0 <= off /\ 0 < len /\ off + len <= tensor_storage_span_num_bytes t.
Proof.
  apply (kv_block_within_registered_span mla_allocated MLA 1 0 60 9 mla_allocated_ok).
  split; vm_compute; split; congruence.
Defined.

(** Payloads of different blocks never overlap in the registered region, so a transfer
    into one block leaves the other blocks intact. *)
Theorem kv_blocks_disjoint c k h kv layer blk kv' layer' blk' off off' len :
  allocated c k h -> block_coord c k kv layer blk -> block_coord c k kv' layer' blk' ->
  local_kv_stride c kv layer blk = Ok off -> local_kv_stride c kv' layer' blk' = Ok off' ->
  local_block_num_bytes c = Ok len -> (kv, layer, blk) <> (kv', layer', blk') ->
  off + len <= off' \/ off' + len <= off.
Proof.
  intros Ha Hco Hco' E E' El Hne.
  destruct (local_kv_stride_eq _ _ _ _ _ _ Ha Hco) as [Hs Hb].
  destruct (local_kv_stride_eq _ _ _ _ _ _ Ha Hco') as [Hs' _].
  rewrite Hs in E. rewrite Hs' in E'. rewrite Hb in El. injection E as <-. injection E' as <-.
  injection El as <-. pose proof (block_payload_bounds _ _ _ Ha).
  assert (block_number c k kv layer blk <> block_number c k kv' layer' blk').
  { intros E. apply Hne. by eapply block_number_inj. }
  nia.
Qed.

Lemma kv_blocks_disjoint_witness :
  0 + 64 * 656 <= 65 * 656 \/ 65 * 656 + 64 * 656 <= 0.
Proof.
  apply (kv_blocks_disjoint mla_allocated MLA 1 0 0 0 0 0 1 0 (65 * 656) (64 * 656) mla_allocated_ok);
    [split; simpl; lia | split; simpl; lia | vm_compute; reflexivity.. | congruence].
Defined.

(** Two state pools of the same geometry: both absent, or both contiguous with the same
    slot row, [slots] of them at the remote side. *)
Inductive same_pool (slots : Z) : option Tensor -> option Tensor -> Prop :=
  | pools_absent : same_pool slots None None
  | pools_present l l' n row sz :
      same_pool slots (Some (torch_empty (l :: n :: row) sz))
                      (Some (torch_empty (l' :: slots :: row) sz)).

(** [r] is the context of the engine [engine] that [p] describes, of the same model
    configuration as [c] up to the layer count, which the caller passes as [layers]
    (0: the same), and the sizes [p] publishes. *)
Record peer_of (c r : CacheContext) (p : PeerTables) (engine : string) (layers : Z) : Prop := {
  po_cfg : block_size (cfg r) = block_size (cfg c) /\ dtype_itemsize (cfg r) = dtype_itemsize (cfg c) /\
           mode (cfg r) = mode (cfg c) /\ is_fp8_kvcache (cfg r) = is_fp8_kvcache (cfg c) /\
           raw_fp8_mla_layout (cfg r) = raw_fp8_mla_layout (cfg c);
  po_heads : num_local_kv_heads r = num_local_kv_heads c;
  po_dims : head_dim r = head_dim c /\ default 0 (fp8_head_dim r) = default 0 (fp8_head_dim c);
  po_layers : num_hidden_layers (cfg r) = z_or layers (num_hidden_layers (cfg c));
  po_blocks : num_remote_kvcache_blocks p !! engine = Some (num_local_kvcache_blocks r);
  po_slots : gdn_num_slots (gdn r) =
             z_or (default 0 (remote_gdn_num_slots p !! engine)) (gdn_num_slots (gdn c));
  po_conv : same_pool (gdn_num_slots (gdn r)) (gdn_conv_states (gdn c)) (gdn_conv_states (gdn r));
  po_rec : same_pool (gdn_num_slots (gdn r)) (gdn_recurrent_states (gdn c))
             (gdn_recurrent_states (gdn r));
  po_indexer : (fun ix => page_size ix * bytes_per_token ix) <$> indexer_cache r =
               (fun ix => page_size ix * bytes_per_token ix) <$> indexer_cache c;
  po_pools : default ∅ (remote_compressed_pool_pages p !! engine) =
             (fun '(n, _, _) => n) <$> dsv4_compressed_pool_config (csa r);
  po_pages : (fun '(_, pg, _) => pg * DSV4_BYTES_PER_TOKEN) <$> dsv4_compressed_pool_config (csa r) =
             (fun '(_, pg, _) => pg * DSV4_BYTES_PER_TOKEN) <$> dsv4_compressed_pool_config (csa c);
  po_state : forall ratio,
    match dsv4_compressor_kv_flat (csa c) !! ratio, dsv4_compressor_kv_flat (csa r) !! ratio with
    | Some _, Some t => 0 < default 0 (remote_dsv4_max_slots p !! engine) /\
                        dim t 1 = default 0 (remote_dsv4_max_slots p !! engine) + 1
    | None, None => True
    | _, _ => False
    end
}.

Lemma remote_layout_eq c r p engine layers :
  peer_of c r p engine layers -> remote c p engine layers = from_cache_context r.
Proof.
  intros [(Hb & Hd & Hm & H8 & Hr) Hh [Hhd Hf] HL HN Hs Hc Hrc Hix Hp Hpg Hst].
  assert (match indexer_cache c with Some ix => page_size ix * bytes_per_token ix | None => 0 end =
          match indexer_cache r with Some ix => page_size ix * bytes_per_token ix | None => 0 end)
    as Eix by (destruct (indexer_cache c), (indexer_cache r); simplify_eq/=; congruence).
  assert ((fun n => (if decide (default 0 (remote_dsv4_max_slots p !! engine) > 0)
                     then default 0 (remote_dsv4_max_slots p !! engine) else n - 1) + 1) <$>
          ((fun t => dim t 1) <$> dsv4_compressor_kv_flat (csa c)) =
          ((fun t => dim t 1) <$> dsv4_compressor_kv_flat (csa r))) as Est.
  { apply map_eq. intros ratio. rewrite !lookup_fmap. specialize (Hst ratio).
    destruct (dsv4_compressor_kv_flat (csa c) !! ratio), (dsv4_compressor_kv_flat (csa r) !! ratio);
      try done. simpl. destruct Hst. rewrite decide_True by lia. by f_equal. }
  unfold remote, from_cache_context. rewrite Hh. destruct (num_local_kv_heads c) as [h|]; [|done].
  simpl. inversion Hc; inversion Hrc; simpl; rewrite HN; simpl; unfold from_peer_metadata; simpl;
    rewrite Est, <- Eix, <- Hs, Hb, Hd, Hm, H8, Hr, Hhd, Hf, HL, Hp, Hpg, ?Z.mul_0_r; reflexivity.
Qed.

(** The layout a decode engine reconstructs for a peer from the published counts is the
    layout that peer computes from its own cache tensors, so both sides agree on every
    byte offset of KV blocks, GDN slots, indexer pages, compressed pages and compressor
    rows. *)
Theorem remote_layout_exact c r p engine layers :
  peer_of c r p engine layers -> remote c p engine layers = from_cache_context r.
Proof. apply remote_layout_eq. Qed.

Definition gdn_peer (slots : Z) : CacheContext :=
  set_blocks 20 0 (set_gdn (mk_gdn (Some (torch_empty [4; slots; 96; 4] 2))
                             (Some (torch_empty [4; slots; 8; 16; 16] 4)) slots 0) mla_allocated).

Lemma remote_layout_exact_witness :
  remote (gdn_peer 9) (mk_peers {["p0" := 20]} {["p0" := 33]} ∅ ∅) "p0" 0
  = from_cache_context (gdn_peer 33).
Proof.
  apply (remote_layout_exact (gdn_peer 9) (gdn_peer 33)). split; try (vm_compute; tauto).
  - exact (pools_present 33 4 4 9 [96; 4] 2).
  - exact (pools_present 33 4 4 9 [8; 16; 16] 4).
Defined.
