(* ===== verification/Peer.v ===== *)
(** Peer connections and placements ([dlengine/runtime/context/peer.py]): validation of the
    placements an engine publishes, the connections of a worker's peer agent, and the memory
    regions it owns.  The agent (dlslime) is a parameter: what a connection attempt does and
    whether waiting for it succeeds. *)

From S2P Require Import Prelude.

Open Scope Z_scope.

(** * Placements *)

(** The fields of a placement that are validated. *)
Record Placement := mk_placement {
  pl_rank : Z;
  fabric_domain_id : string;
  peer_agent_id : string
}.

Definition rank_leb (a b : Placement) : bool := pl_rank a <=? pl_rank b.

(** [normalize_peer_placements] *)
Definition normalize_peer_placements (placements : list (option Placement)) (world_size : Z) : result (list Placement) :=
  if decide (zlen placements <> world_size) then Err RuntimeError
  else
    let present := omap id placements in
    if decide (present = []) then Ok []
    else if decide (zlen present <> world_size) then Err RuntimeError
    else if decide (stable_sort Z.leb (pl_rank <$> present) <> py_range world_size) then Err RuntimeError
    else if decide (length (remove_dups (fabric_domain_id <$> present)) <> 1%nat) then Err RuntimeError
    else Ok (stable_sort rank_leb present).

(** * Connections *)

(** What [connect_to] does: a connection, a [ValueError] naming an unsupported transport, or
    another exception. *)
Inductive Attempt (Conn : Type) :=
  | Opened (c : Conn)
  | UnsupportedTransport
  | Raised (e : exn).
Arguments Opened {Conn} c.
Arguments UnsupportedTransport {Conn}.
Arguments Raised {Conn} e.

(** A region and whether it has been closed. *)
Record PeerContext := mk_peer {
  connected_peers : gset string;
  memory_regions : list (string * Z);
  (** Calls of the agent: the connections asked for, with or without automatic transport,
      and the regions closed. *)
  connects : list (string * bool);
  closed : list Z
}.

Section peer.
Context {Conn : Type} (connect_to : string -> bool -> Attempt Conn) (wait : Conn -> bool).

Definition log_connect (alias : string) (auto : bool) (x : PeerContext) : PeerContext :=
  mk_peer (connected_peers x) (memory_regions x) (connects x ++ [(alias, auto)]) (closed x).
Definition add_peer (alias : string) (x : PeerContext) : PeerContext :=
  mk_peer ({[alias]} ∪ connected_peers x) (memory_regions x) (connects x) (closed x).

(** [_connect_to]: automatic transport first, then the call of older agents. *)
Definition connect (alias : string) : act PeerContext Conn :=
  _ ← modify (log_connect alias true);
  match connect_to alias true with
  | Opened c => mret c
  | Raised e => raise e
  | UnsupportedTransport =>
      _ ← modify (log_connect alias false);
      match connect_to alias false with
      | Opened c => mret c
      | UnsupportedTransport => raise ValueError
      | Raised e => raise e
      end
  end.

(** [is_connected] *)
Definition is_connected (alias : string) (x : PeerContext) : bool := bool_decide (alias ∈ connected_peers x).

(** [ensure_connected] *)
Definition ensure_connected (alias : string) : act PeerContext unit :=
  x ← get;
  if is_connected alias x then mret tt
  else
    c ← connect alias;
    if wait c then modify (add_peer alias) else raise RuntimeError.

Fixpoint connect_all (peers : list string) : act PeerContext (list Conn) :=
  match peers with
  | [] => mret []
  | p :: peers => c ← connect p; cs ← connect_all peers; mret (c :: cs)
  end.

(** The loop over the pending connections. *)
Fixpoint wait_all (pending : list (string * Conn)) : act PeerContext (list string) :=
  match pending with
  | [] => mret []
  | (peer, c) :: pending =>
      if wait c then
        _ ← modify (add_peer peer);
        newly ← wait_all pending;
        mret (peer :: newly)
      else raise RuntimeError
  end.

(** [ensure_many_connected] *)
Definition ensure_many_connected (peers : list string) : act PeerContext (list string) :=
  x ← get;
  match filter (fun p => is_connected p x = false) peers with
  | [] => mret []
  | new_peers => cs ← connect_all new_peers; wait_all (zip new_peers cs)
  end.

(** * Memory regions *)

(** [allocate_tensor]: [region] identifies the region the agent returns for the name. *)
Definition allocate_tensor (name : string) (region : Z) : act PeerContext unit :=
  x ← get;
  _ ← raise_if (bool_decide (name ∈ (fst <$> memory_regions x))) ValueError;
  modify (fun x => mk_peer (connected_peers x) (memory_regions x ++ [(name, region)]) (connects x) (closed x)).

(** [owns_memory_region] *)
Definition owns_memory_region (name : string) (x : PeerContext) : bool := bool_decide (name ∈ (fst <$> memory_regions x)).

(** [clear_context] *)
Definition clear_context (x : PeerContext) : PeerContext :=
  mk_peer ∅ [] (connects x) (closed x ++ (snd <$> memory_regions x)).

(** * Lemmas *)

Lemma connect_frame alias x r x' :
  connect alias x = (r, x') -> connected_peers x' = connected_peers x /\ memory_regions x' = memory_regions x /\ closed x' = closed x.
Proof.
  unfold connect. rewrite modify_bind. destruct (connect_to alias true); [by intros [= <- <-]| |by intros [= <- <-]].
  rewrite modify_bind. destruct (connect_to alias false); by intros [= <- <-].
Qed.

Lemma connect_all_frame peers x r x' :
  connect_all peers x = (r, x') ->
  connected_peers x' = connected_peers x /\ match r with Ok cs => length cs = length peers | Err _ => True end.
Proof.
  revert x r x'. induction peers as [|p peers IH]; intros x r x' H; [by injection H as <- <-|]. simpl in H. unfold mbind, act_bind in H.
  destruct (connect p x) as [[c|e] x1] eqn:Ec; [|injection H as <- <-; by destruct (connect_frame _ _ _ _ Ec)].
  destruct (connect_frame _ _ _ _ Ec) as (H1 & _ & _). destruct (connect_all peers x1) as [[cs|e] x2] eqn:Ea; destruct (IH _ _ _ Ea) as [H2 H3].
  - injection H as <- <-. split; [congruence|]. simpl. by rewrite H3.
  - injection H as <- <-. split; [congruence|done].
Qed.

(** Waiting records exactly the peers whose connection came up, up to the first that did
    not. *)
Lemma wait_all_spec pending x r x' :
  wait_all pending x = (r, x') ->
  exists ok, ok `prefix_of` pending /\ Forall (fun p => wait (snd p) = true) ok /\
    connected_peers x' = list_to_set (fst <$> ok) ∪ connected_peers x /\
    match r with
    | Ok newly => newly = fst <$> pending /\ ok = pending
    | Err e => e = RuntimeError /\ exists p c rest, pending = ok ++ (p, c) :: rest /\ wait c = false
    end.
Proof.
  revert x r x'. induction pending as [|[p c] pending IH]; intros x r x' H.
  { injection H as <- <-. exists []. split; [done|]. split; [constructor|]. split; [set_solver|done]. }
  simpl in H. destruct (wait c) eqn:Ew.
  - rewrite modify_bind in H. unfold mbind, act_bind in H. destruct (wait_all pending (add_peer p x)) as [[newly|e] x1] eqn:Er;
      destruct (IH _ _ _ Er) as (ok & Hp & Hf & Hc & Hr); injection H as <- <-; exists ((p, c) :: ok).
    + destruct Hr as [-> ->]. split; [done|]. split; [by constructor|]. split; [|done]. rewrite Hc. csimpl. set_solver.
    + split; [by apply prefix_cons|]. split; [by constructor|]. split; [rewrite Hc; csimpl; set_solver|].
      destruct Hr as (-> & q & d & rest & -> & Hd). split; [done|]. by exists q, d, rest.
  - injection H as <- <-. exists []. split; [apply prefix_nil|]. split; [constructor|]. split; [set_solver|]. split; [done|]. by exists p, c, pending.
Qed.

(** A worker's set of connected peers is exact, on failures too: asking for many peers
    adds all of them when it succeeds and reports those that were missing; when a connection
    cannot be opened nothing is added; when one does not come up, the peers waited for before
    it are added and neither it nor any later one counts as newly connected; asking again
    after a success opens nothing. *)
Theorem connected_peers_exact peers x r x' :
  ensure_many_connected peers x = (r, x') ->
  exists ok, ok `prefix_of` filter (fun p => is_connected p x = false) peers /\
    connected_peers x' = list_to_set ok ∪ connected_peers x /\
    match r with
    | Ok newly => newly = filter (fun p => is_connected p x = false) peers /\ list_to_set peers ⊆ connected_peers x' /\
                  ensure_many_connected peers x' = (Ok [], x')
    | Err e => ok <> filter (fun p => is_connected p x = false) peers
    end.
Proof.
  unfold ensure_many_connected. unfold mbind at 1, act_bind, get. set (new := filter _ peers).
  assert (forall y, list_to_set peers ⊆ connected_peers y -> (x ← get; match filter (fun p => is_connected p x = false) peers with
      | [] => mret [] | new_peers => cs ← connect_all new_peers; wait_all (zip new_peers cs) end) y = (Ok [], y)) as Hagain.
  { intros y Hy. unfold mbind at 1, act_bind, get. rewrite filter_none; [done|]. apply Forall_forall. intros p Hp. unfold is_connected.
    rewrite bool_decide_eq_false. intros Hn. apply Hn, Hy. by apply elem_of_list_to_set. }
  assert (forall y, list_to_set new ∪ connected_peers x ⊆ connected_peers y -> list_to_set peers ⊆ connected_peers y) as Hcover.
  { intros y Hy p Hp. apply Hy. apply elem_of_list_to_set in Hp. destruct (is_connected p x) eqn:E.
    - apply bool_decide_eq_true in E. set_solver.
    - apply elem_of_union. left. apply elem_of_list_to_set. unfold new. by apply list_elem_of_filter. }
  destruct new as [|p0 new0] eqn:En.
  - intros [= <- <-]. exists []. split; [done|]. split; [set_solver|]. split; [done|]. assert (list_to_set peers ⊆ connected_peers x) by (apply Hcover; set_solver).
    split; [done|]. by apply Hagain.
  - rewrite <- En in *. unfold mbind at 1, act_bind. destruct (connect_all new x) as [[cs|e] x1] eqn:Ec; destruct (connect_all_frame _ _ _ _ Ec) as [Hf Hl].
    + intros Hw. destruct (wait_all_spec _ _ _ _ Hw) as (ok & Hp & _ & Hc & Hr).
      assert (fst <$> zip new cs = new) as Hz by (apply fst_zip; lia).
      assert ((fst <$> ok) `prefix_of` new) as Hpre.
      { destruct Hp as [k Hk]. exists (fst <$> k). by rewrite <- Hz, Hk, fmap_app. }
      exists (fst <$> ok). split; [done|]. split; [by rewrite Hc, Hf|]. destruct r as [newly|e].
      * destruct Hr as [-> ->]. rewrite Hz in *. split; [done|].
        assert (list_to_set peers ⊆ connected_peers x') as Hs by (apply Hcover; rewrite Hc, Hf; set_solver). split; [done|]. by apply Hagain.
      * destruct Hr as (_ & q & d & rest & Hk & _). intros E. apply (f_equal length) in E. rewrite <- Hz, Hk, !length_fmap, length_app in E. simpl in E. lia.
    + intros [= <- <-]. exists []. split; [apply prefix_nil|]. split; [rewrite Hf; set_solver|]. intros E. congruence.
Qed.
End peer.

(** * Published placements *)

Lemma sort_insert_key p l : pl_rank <$> sort_insert rank_leb p l = sort_insert Z.leb (pl_rank p) (pl_rank <$> l).
Proof. induction l as [|q l IH]; [done|]. csimpl. unfold rank_leb at 1. destruct (pl_rank p <=? pl_rank q); csimpl; [done|]. f_equal. exact IH. Qed.

Lemma stable_sort_key l : pl_rank <$> stable_sort rank_leb l = stable_sort Z.leb (pl_rank <$> l).
Proof.
  induction l as [|p l IH]; [done|]. change (stable_sort rank_leb (p :: l)) with (sort_insert rank_leb p (stable_sort rank_leb l)).
  rewrite sort_insert_key, IH. done.
Qed.

(** Accepted placements are none at all, or one per worker, in rank order, in one domain. *)
Lemma placements_by_rank placements n l :
  normalize_peer_placements placements n = Ok l ->
  (l = [] /\ omap id placements = []) \/
  (zlen l = n /\ l ≡ₚ omap id placements /\ (forall i p, l !! i = Some p -> pl_rank p = Z.of_nat i) /\
   forall p q, p ∈ l -> q ∈ l -> fabric_domain_id p = fabric_domain_id q).
Proof.
  unfold normalize_peer_placements. repeat (case_decide; [done|]; try done). case_decide as Hp; [intros [= <-]; by left|].
  case_decide as Hn; [done|]. case_decide as Hr; [done|]. case_decide as Hd; [done|]. intros [= <-]. right.
  set (present := omap id placements) in *. assert (stable_sort rank_leb present ≡ₚ present) as Hperm by apply stable_sort_perm.
  split; [unfold zlen in *; rewrite Hperm; lia|]. split; [done|]. split.
  - intros i p Hi. assert ((pl_rank <$> stable_sort rank_leb present) !! i = Some (pl_rank p)) as Hk by (by rewrite list_lookup_fmap, Hi).
    rewrite stable_sort_key in Hk. assert (stable_sort Z.leb (pl_rank <$> present) = py_range n) as Hs by (destruct (decide (stable_sort Z.leb (pl_rank <$> present) = py_range n)); [done|by destruct Hr]).
    rewrite Hs in Hk. unfold py_range in Hk. apply lookup_seqZ in Hk as [-> _]. done.
  - assert (exists d, forall p, p ∈ present -> fabric_domain_id p = d) as (d & Hall).
    { destruct (remove_dups (fabric_domain_id <$> present)) as [|d [|]] eqn:Er; simpl in Hd; [lia| |lia]. exists d. intros p Hin.
      apply list_elem_of_singleton. rewrite <- Er. apply elem_of_remove_dups, list_elem_of_fmap. by exists p. }
    intros p q Hin Hq. rewrite Hperm in Hin, Hq. by rewrite (Hall p Hin), (Hall q Hq).
Qed.

(** ** Witness: an agent without automatic transport for [b], and a peer [c] that does not
    come up *)

Definition toy_connect (alias : string) (auto : bool) : Attempt string :=
  if decide (alias = "b" /\ auto = true) then UnsupportedTransport else Opened alias.
Definition toy_wait (c : string) : bool := bool_decide (c <> "c").
Definition toy_peer : PeerContext := mk_peer {["a"]} [] [] [].

Lemma connected_peers_exact_witness :
  exists ok, ok `prefix_of` ["b"; "c"; "d"] /\
    connected_peers (snd (ensure_many_connected toy_connect toy_wait ["a"; "b"; "c"; "d"] toy_peer)) = list_to_set ok ∪ {["a"]} /\ ok <> ["b"; "c"; "d"].
Proof.
  exact (connected_peers_exact toy_connect toy_wait ["a"; "b"; "c"; "d"] toy_peer (Err RuntimeError)
    (snd (ensure_many_connected toy_connect toy_wait ["a"; "b"; "c"; "d"] toy_peer)) ltac:(vm_compute; reflexivity)).
Defined.

Example toy_connects : connects (snd (ensure_many_connected toy_connect toy_wait ["a"; "b"; "c"; "d"] toy_peer)) =
  [("b", true); ("b", false); ("c", true); ("d", true)].
Proof. vm_compute. reflexivity. Qed.
