(* ===== verification/Rdma.v ===== *)
(** One-sided reads between registered memory regions
    ([dlengine/runtime/disagg/p2p/cache_transfer.py]): coalescing, bounds validation,
    and the submit/drain protocol of a batch of reads. *)

From S2P Require Import Prelude.

Open Scope Z_scope.

(** An operation: local and remote region name, local and remote offset, length. *)
Record RdmaOp := mk_op {
  local_name : string;
  remote_name : string;
  local_off : Z;
  remote_off : Z;
  op_length : Z
}.

#[export] Instance RdmaOp_eq_dec : EqDecision RdmaOp.
Proof. solve_decision. Defined.

Definition MAX_COALESCED_RDMA_BYTES : Z := 256 * 1024 * 1024.

(** * [_coalesce_rdma_ops] *)

(** [key=lambda op: (op\[2\], op\[3\])] *)
Definition offsets_le (a b : RdmaOp) : bool :=
  (local_off a <? local_off b)
  || ((local_off a =? local_off b) && (remote_off a <=? remote_off b)).

Definition handlers (op : RdmaOp) : string * string := (local_name op, remote_name op).

(** The condition under which [op] is merged into [previous]. *)
Definition mergeable (max_bytes : Z) (previous op : RdmaOp) : bool :=
  bool_decide (handlers previous = handlers op)
  && (remote_off previous + op_length previous =? remote_off op)
  && (local_off previous + op_length previous =? local_off op)
  && (op_length previous + op_length op <=? max_bytes).

(** One iteration of the inner loop; [acc] is [coalesced] in reverse order. *)
Definition push_op (max_bytes : Z) (acc : list RdmaOp) (op : RdmaOp) : list RdmaOp :=
  match acc with
  | previous :: acc' =>
      if mergeable max_bytes previous op
      then mk_op (local_name previous) (remote_name previous) (local_off previous)
             (remote_off previous) (op_length previous + op_length op) :: acc'
      else op :: acc
  | [] => [op]
  end.

Definition coalesce_rdma_ops (ops : list RdmaOp) (max_bytes : Z) : result (list RdmaOp) :=
  if decide (max_bytes <= 0) then Err ValueError
  else
    let groups := group_by handlers ops in
    Ok (reverse (foldl (fun acc group => foldl (push_op max_bytes) acc (stable_sort offsets_le (snd group)))
                   [] groups)).

(** * [_validate_named_region_ops] *)

(** The checks on one operation.  The message of the first one formats [op], a name the
    function does not define, so evaluating it raises [NameError]. *)
Definition check_op (local_size remote_size : Z) (op : RdmaOp) : result unit :=
  if decide (Z.min (Z.min (local_off op) (remote_off op)) (op_length op) < 0 \/ op_length op = 0)
  then Err NameError
  else if decide (local_off op + op_length op > local_size \/ remote_off op + op_length op > remote_size)
  then Err RuntimeError
  else Ok tt.

(** [get_mr_info name] is the length of the peer's region [name], if it is registered;
    the loop caches it in [remote_sizes]. *)
Fixpoint validate_loop (get_mr_info : string -> option Z) (local_region_sizes : gmap string Z)
    (remote_sizes : gmap string Z) (ops : list RdmaOp) : result unit :=
  match ops with
  | [] => Ok tt
  | op :: ops =>
      local_size ← of_option RuntimeError (local_region_sizes !! local_name op);
      remote_sizes ←
        match remote_sizes !! remote_name op with
        | Some _ => Ok remote_sizes
        | None => n ← of_option RuntimeError (get_mr_info (remote_name op));
                  Ok (<[remote_name op := n]> remote_sizes)
        end;
      remote_size ← of_option KeyError (remote_sizes !! remote_name op);
      _ ← check_op local_size remote_size op;
      validate_loop get_mr_info local_region_sizes remote_sizes ops
  end.

Definition validate_named_region_ops (get_mr_info : string -> option Z)
    (local_region_sizes : gmap string Z) (ops : list RdmaOp) : result unit :=
  validate_loop get_mr_info local_region_sizes ∅ ops.

(** * Submitting and draining *)

Section reads.
Context {Read Slot Exc : Type}.
(** [peer_agent.read]: a slot, [None], or an exception; [slot.wait()] and
    [torch.cuda.synchronize()]: an exception or completion. *)
Context (read : Read -> Exc + option Slot) (wait : Slot -> option Exc) (sync : option Exc).
(** [RuntimeError("endpoint.read returned None")] *)
Context (none_error : Exc).

(** The submit loop stops at the first failure. *)
Fixpoint submit_phase (prepared : list Read) : list Slot * option Exc :=
  match prepared with
  | [] => ([], None)
  | r :: rest =>
      match read r with
      | inl e => ([], Some e)
      | inr None => ([], Some none_error)
      | inr (Some s) => let '(slots, err) := submit_phase rest in (s :: slots, err)
      end
  end.

(** The drain loop waits for every submitted read; [waited] is what it waited on. *)
Fixpoint drain_phase (slots : list Slot) (primary : option Exc) : list Slot * option Exc :=
  match slots with
  | [] => ([], primary)
  | s :: rest =>
      let primary := match primary with Some e => Some e | None => wait s end in
      let '(waited, err) := drain_phase rest primary in
      (s :: waited, err)
  end.

(** The tail of [_execute_rdma_reads]: submitted reads, waited reads, whether the device
    was synchronised, and the exception raised. *)
Definition run_reads (prepared : list Read) : list Slot * list Slot * bool * option Exc :=
  let '(slots, err) := submit_phase prepared in
  let '(waited, err) := drain_phase slots err in
  match slots with
  | [] => (slots, waited, false, err)
  | _ :: _ => (slots, waited, true, match err with Some e => Some e | None => sync end)
  end.
End reads.

(** * Lemmas *)

(** The byte copies an operation performs: (regions, local byte, remote byte). *)
Definition copies (op : RdmaOp) : list (string * string * Z * Z) :=
  (fun i => (local_name op, remote_name op, local_off op + i, remote_off op + i))
    <$> seqZ 0 (op_length op).

Definition all_copies (ops : list RdmaOp) : list (string * string * Z * Z) := ops ≫= copies.

Lemma copies_merge max p op :
  0 <= op_length p -> 0 <= op_length op -> mergeable max p op = true ->
  copies (mk_op (local_name p) (remote_name p) (local_off p) (remote_off p)
            (op_length p + op_length op)) = copies p ++ copies op.
Proof.
  unfold mergeable, handlers. intros Hp Ho Hm.
  apply andb_true_iff in Hm as [[[Hh Hr]%andb_true_iff Hl]%andb_true_iff _].
  apply bool_decide_eq_true in Hh as [= Hl1 Hr1]. apply Z.eqb_eq in Hr, Hl.
  unfold copies. simpl. rewrite seqZ_app by lia. rewrite fmap_app. f_equal.
  replace (0 + op_length p) with (op_length p + 0) by lia. rewrite <- fmap_add_seqZ, <- list_fmap_compose.
  apply list_fmap_ext. intros _ i _. simpl. rewrite Hl1, Hr1, <- Hl, <- Hr, !Z.add_assoc. done.
Qed.

Lemma push_op_copies max acc op :
  Forall (fun o => 0 <= op_length o) acc -> 0 <= op_length op ->
  all_copies (push_op max acc op) ≡ₚ all_copies (op :: acc) /\
  Forall (fun o => 0 <= op_length o) (push_op max acc op).
Proof.
  intros Hacc Ho. unfold push_op. destruct acc as [|p acc]; [by repeat constructor|].
  apply Forall_cons in Hacc as [Hp Hacc]. destruct (mergeable max p op) eqn:E.
  - split; [|constructor; [simpl; lia|done]]. unfold all_copies. simpl.
    rewrite (copies_merge max) by done. rewrite <- app_assoc, Permutation_app_swap_app. done.
  - split; [done|by repeat constructor].
Qed.

Lemma push_ops_copies max ops acc :
  Forall (fun o => 0 <= op_length o) acc -> Forall (fun o => 0 <= op_length o) ops ->
  all_copies (foldl (push_op max) acc ops) ≡ₚ all_copies (ops ++ acc) /\
  Forall (fun o => 0 <= op_length o) (foldl (push_op max) acc ops).
Proof.
  intros Hacc Hops. revert acc Hacc. induction Hops as [|op ops Ho Hops IH]; intros acc Hacc; simpl.
  - done.
  - destruct (push_op_copies max acc op Hacc Ho) as [Hc Hf]. destruct (IH _ Hf) as [Hc' Hf'].
    split; [|done]. rewrite Hc'. unfold all_copies in *. rewrite bind_app, Hc. simpl.
    rewrite bind_app. by rewrite Permutation_app_swap_app.
Qed.

#[export] Instance all_copies_perm : Proper ((≡ₚ) ==> (≡ₚ)) all_copies.
Proof. intros l1 l2 H. unfold all_copies. by rewrite H. Qed.

Lemma Forall_perm {A} (P : A -> Prop) l1 l2 : l1 ≡ₚ l2 -> Forall P l1 -> Forall P l2.
Proof. intros E H. by rewrite <- E. Qed.

(** The accumulated list after all groups. *)
Lemma coalesce_groups max (gs : list (string * string * list RdmaOp)) acc :
  Forall (fun o => 0 <= op_length o) acc ->
  Forall (fun o => 0 <= op_length o) (concat (snd <$> gs)) ->
  all_copies (foldl (fun acc g => foldl (push_op max) acc (stable_sort offsets_le (snd g))) acc gs)
    ≡ₚ all_copies (concat (snd <$> gs) ++ acc).
Proof.
  revert acc. induction gs as [|[k ops] gs IH]; intros acc Hacc Hgs; simpl in *; [done|].
  apply Forall_app in Hgs as [Hops Hgs].
  destruct (push_ops_copies max (stable_sort offsets_le ops) acc Hacc) as [Hc Hf].
  { eapply Forall_perm; [symmetry; apply stable_sort_perm|done]. }
  rewrite IH by done. unfold all_copies. rewrite !bind_app. fold (all_copies acc).
  unfold all_copies in Hc. rewrite Hc, bind_app, (stable_sort_perm offsets_le ops).
  rewrite <- app_assoc. by rewrite Permutation_app_swap_app.
Qed.

(** An output operation is within the cap or one of the inputs. *)
Definition bounded (max : Z) (ops : list RdmaOp) (o : RdmaOp) : Prop := op_length o <= max \/ o ∈ ops.

Lemma push_op_bounded max ops acc op :
  Forall (bounded max ops) acc -> op ∈ ops -> Forall (bounded max ops) (push_op max acc op).
Proof.
  intros Hacc Ho. unfold push_op. destruct acc as [|p acc]; [apply Forall_singleton; by right|].
  destruct (mergeable max p op) eqn:E; [|constructor; [by right|done]].
  apply Forall_cons in Hacc as [_ Hacc]. constructor; [|done]. left. simpl.
  unfold mergeable in E. apply andb_true_iff in E as [_ E%Z.leb_le]. done.
Qed.

Lemma coalesce_groups_bounded max ops (gs : list (string * string * list RdmaOp)) acc :
  Forall (bounded max ops) acc -> Forall (fun o => o ∈ ops) (concat (snd <$> gs)) ->
  Forall (bounded max ops)
    (foldl (fun acc g => foldl (push_op max) acc (stable_sort offsets_le (snd g))) acc gs).
Proof.
  revert acc. induction gs as [|[k l] gs IH]; intros acc Hacc Hgs; simpl in *; [done|].
  apply Forall_app in Hgs as [Hl Hgs]. apply IH; [|done].
  apply (Forall_perm _ _ _ (symmetry (stable_sort_perm offsets_le l))) in Hl.
  revert acc Hacc. induction Hl; intros acc Hacc; simpl; [done|]. auto using push_op_bounded.
Qed.

Lemma bind_reverse_perm (l : list RdmaOp) : all_copies (reverse l) ≡ₚ all_copies l.
Proof. by rewrite reverse_Permutation. Qed.

(** The state of the remote-size cache: it only holds what [get_mr_info] returned. *)
Definition cache_ok (get_mr_info : string -> option Z) (m : gmap string Z) : Prop :=
  forall name n, m !! name = Some n -> get_mr_info name = Some n.

(** An operation that stays inside both regions. *)
Definition in_bounds (get_mr_info : string -> option Z) (sizes : gmap string Z) (op : RdmaOp) : Prop :=
  exists ls rs, sizes !! local_name op = Some ls /\ get_mr_info (remote_name op) = Some rs /\
    0 <= local_off op /\ 0 <= remote_off op /\ 0 < op_length op /\
    local_off op + op_length op <= ls /\ remote_off op + op_length op <= rs.

Lemma check_op_Ok ls rs op :
  check_op ls rs op = Ok tt <->
  0 <= local_off op /\ 0 <= remote_off op /\ 0 < op_length op /\
  local_off op + op_length op <= ls /\ remote_off op + op_length op <= rs.
Proof. unfold check_op. repeat case_decide; split; intros; try done; lia. Qed.

Lemma validate_loop_cons info sizes m op ops :
  cache_ok info m ->
  exists m', cache_ok info m' /\
    validate_loop info sizes m (op :: ops) =
      match sizes !! local_name op, info (remote_name op) with
      | Some ls, Some rs =>
          match check_op ls rs op with
          | Ok _ => validate_loop info sizes m' ops
          | Err e => Err e
          end
      | _, _ => Err RuntimeError
      end.
Proof.
  intros Hm. simpl. destruct (sizes !! local_name op) as [ls|]; [|exists m; by split]. simpl.
  destruct (m !! remote_name op) as [rs|] eqn:E.
  - exists m. split; [done|]. simpl. rewrite E, (Hm _ _ E). simpl. by destruct (check_op ls rs op) as [[]|].
  - destruct (info (remote_name op)) as [rs|] eqn:Ei; [|exists m; by split]. simpl.
    exists (<[remote_name op := rs]> m). rewrite lookup_insert_eq. simpl.
    split; [|by destruct (check_op ls rs op) as [[]|]].
    intros name n. rewrite lookup_insert_Some. intros [[<- <-]|[_ ?]]; [done|by apply Hm].
Qed.

Lemma validate_loop_Ok info sizes m ops :
  cache_ok info m ->
  validate_loop info sizes m ops = Ok tt <-> Forall (in_bounds info sizes) ops.
Proof.
  revert m. induction ops as [|op ops IH]; intros m Hm; [by split; [constructor|]|].
  destruct (validate_loop_cons info sizes m op ops Hm) as (m' & Hm' & ->).
  rewrite Forall_cons, <- (IH m' Hm'). unfold in_bounds.
  destruct (sizes !! local_name op) as [ls|]; [|naive_solver].
  destruct (info (remote_name op)) as [rs|]; [|naive_solver].
  pose proof (check_op_Ok ls rs op) as Hc.
  destruct (check_op ls rs op) as [[]|e]; naive_solver.
Qed.

Section reads_spec.
Context {Read Slot Exc : Type} (read : Read -> Exc + option Slot) (wait : Slot -> option Exc).

Lemma drain_phase_spec slots err :
  drain_phase wait slots err =
    (slots, match err with Some e => Some e | None => head (omap wait slots) end).
Proof.
  revert err. induction slots as [|s slots IH]; intros err; simpl; [by destruct err|]. rewrite IH.
  destruct err; [done|]. by destruct (wait s).
Qed.

Lemma first_wait_error slots :
  head (omap wait slots) = None <-> Forall (fun s => wait s = None) slots.
Proof.
  induction slots as [|s slots IH]; simpl; [by split|]. rewrite Forall_cons.
  destruct (wait s); simpl; naive_solver.
Qed.

Lemma submit_phase_spec none_error prepared :
  let '(slots, err) := submit_phase read none_error prepared in
  read <$> take (length slots) prepared = (fun s => inr (Some s)) <$> slots /\
  (err = None <-> length slots = length prepared).
Proof.
  induction prepared as [|r rest IH]; simpl; [done|].
  destruct (read r) as [e|[s|]] eqn:E; [by split| |by split].
  destruct (submit_phase read none_error rest) as [slots err]. simpl.
  destruct IH as (? & ?). rewrite E. split; [by f_equal|clear wait; naive_solver lia].
Qed.
End reads_spec.

(** * Properties *)

(** C3. Coalescing reads changes neither what is transferred nor where to: the multiset of
    byte copies is that of the requested operations, and every result operation is one of
    the inputs or within the size cap. *)
Theorem coalesce_preserves_copies ops max_bytes :
  0 < max_bytes -> Forall (fun o => 0 <= op_length o) ops ->
  exists out, coalesce_rdma_ops ops max_bytes = Ok out /\
    all_copies out ≡ₚ all_copies ops /\ Forall (bounded max_bytes ops) out.
Proof.
  intros Hmax Hops. unfold coalesce_rdma_ops. rewrite decide_False by lia. eexists. split; [done|].
  assert (concat (snd <$> group_by handlers ops) ≡ₚ ops) as Hg by apply group_by_perm.
  rewrite bind_reverse_perm. split.
  - rewrite coalesce_groups; [by rewrite app_nil_r, Hg|constructor|].
    by eapply Forall_perm; [symmetry; exact Hg|].
  - apply (Forall_perm _ _ _ (symmetry (reverse_Permutation _))), coalesce_groups_bounded; [constructor|].
    eapply Forall_perm; [symmetry; exact Hg|]. by apply Forall_forall.
Qed.

Definition example_ops : list RdmaOp :=
  [mk_op "kv" "kv" 128 640 64; mk_op "kv" "kv" 0 512 64; mk_op "ix" "ix" 0 0 32;
   mk_op "kv" "kv" 64 576 64].

Lemma coalesce_preserves_copies_witness :
  coalesce_rdma_ops example_ops 256 = Ok [mk_op "kv" "kv" 0 512 192; mk_op "ix" "ix" 0 0 32] /\
  exists out, coalesce_rdma_ops example_ops 256 = Ok out /\
    all_copies out ≡ₚ all_copies example_ops /\ Forall (bounded 256 example_ops) out.
Proof.
  split; [reflexivity|]. apply (coalesce_preserves_copies example_ops 256); [lia|].
  repeat constructor; simpl; lia.
Defined.

(** Validation accepts a batch exactly when every operation names two registered
    regions, has a positive length and stays inside both of them. *)
Theorem validate_named_region_ops_exact info sizes ops :
  validate_named_region_ops info sizes ops = Ok tt <-> Forall (in_bounds info sizes) ops.
Proof. by apply validate_loop_Ok. Qed.

(** A malformed operation (negative offset or length, or empty) between registered
    regions is not reported with the documented [RuntimeError]: building its message
    raises [NameError]. *)
Theorem validate_malformed_raises_NameError info sizes op ops :
  is_Some (sizes !! local_name op) -> is_Some (info (remote_name op)) ->
  local_off op < 0 \/ remote_off op < 0 \/ op_length op <= 0 ->
  validate_named_region_ops info sizes (op :: ops) = Err NameError.
Proof.
  intros [ls Hls] [rs Hrs] Hbad. unfold validate_named_region_ops.
  destruct (validate_loop_cons info sizes ∅ op ops) as (m' & _ & ->); [done|].
  rewrite Hls, Hrs. unfold check_op. rewrite decide_True by lia. done.
Qed.

Lemma validate_malformed_raises_NameError_witness :
  validate_named_region_ops (fun _ => Some 4096) {["kv_cache" := 4096]}
    [mk_op "kv_cache" "kv_cache" (-1) 0 64] = Err NameError.
Proof.
  apply (validate_malformed_raises_NameError (fun _ => Some 4096) {["kv_cache" := 4096]}
           (mk_op "kv_cache" "kv_cache" (-1) 0 64) []); [by eexists|by eexists|left; reflexivity].
Defined.

(** Every read that was submitted is waited for, exactly once and in order, whether or
    not some submission or completion failed; the device is synchronised when anything
    was submitted; and the call returns normally only if every read was submitted and
    completed and the synchronisation succeeded. *)
Theorem run_reads_drains_all {Read Slot Exc} (read : Read -> Exc + option Slot) wait sync none_error prepared :
  let '(submitted, waited, synced, raised) := run_reads read wait sync none_error prepared in
  waited = submitted /\
  read <$> take (length submitted) prepared = (fun s => inr (Some s)) <$> submitted /\
  synced = negb (bool_decide (submitted = [])) /\
  (raised = None <->
   (length submitted = length prepared /\ Forall (fun s => wait s = None) submitted /\
    (submitted <> [] -> sync = None))).
Proof.
  unfold run_reads. pose proof (submit_phase_spec read none_error prepared) as Hs.
  destruct (submit_phase read none_error prepared) as [slots err]. destruct Hs as (Ht & He).
  rewrite drain_phase_spec. pose proof (first_wait_error wait slots) as Hw.
  destruct slots as [|s slots]; (split_and!; [done|done|done|]).
  - rewrite <- He. destruct err; naive_solver.
  - rewrite <- Hw, <- He. destruct err, (head (omap wait (s :: slots))); naive_solver.
Qed.
