(* ===== verification/Migration.v ===== *)
(** Prefill-to-decode cache migration
    ([dlengine/runtime/disagg/p2p/cache_transfer.py], [P2PCacheTransfer]): validation of
    the peer engine's published metadata, routing of every cache layer to the pipeline
    stage that holds it, and construction of the read operations per peer. *)

From S2P Require Import Prelude HfConfig PipelineParallel Cache CacheLayout Rdma.

Open Scope Z_scope.

(** * Inputs *)

(** The metadata a prefill engine publishes ([engine_info]); an absent field is [None]
    or empty. *)
Record EngineInfo := mk_info {
  ei_architecture : option string;
  ei_kvcache_block_size : option Z;
  ei_attention_sp : option Z;
  ei_max_num_seqs : option Z;
  ei_gdn_num_slots : option Z;
  ei_mtp_handoff_num_drafts : option Z;
  ei_attention_tp : option Z;
  ei_attention_dp : option Z;
  ei_pp : option Z;
  ei_num_hidden_layers : option Z;
  ei_mtp_num_kv_layers : option Z;
  ei_pp_layer_ranges : list (Z * Z);
  ei_pp_cache_layer_indices : list (list Z);
  ei_pp_dsv4_ratio_layer_indices : gmap Z (list (list Z));
  ei_num_local_kv_heads : option Z;
  ei_dsv4_compressed_pool_pages : gmap Z Z;
  ei_dsv4_max_slots : option Z;
  ei_dsv4_num_layers_per_ratio : gmap Z Z;
  ei_peer_addrs : list string
}.

Definition no_info : EngineInfo :=
  mk_info None None None None None None None None None None None [] [] ∅ None ∅ None ∅ [].

(** A sequence of the [MigrationIn] message.  A block location is (sp rank, block). *)
Record View := mk_view {
  migrate_engine_id : string;
  migrate_group_size : Z;
  migrate_dp_idx : Z;
  migrate_num_kvcache_blocks : Z;
  migrate_block_location : list (Z * Z);
  active_block_location : list (Z * Z);
  migrate_compressed_block_tables : list (Z * list Z);
  active_compressed_block_tables : gmap Z (list Z);
  migrate_state_slot : Z;
  active_state_slot : Z
}.

(** * The tables of [P2PCacheTransfer] *)

Record Tables := mk_tables {
  peers : PeerTables;
  remote_max_num_seqs : gmap string Z;
  remote_attention_tp : gmap string Z;
  remote_attention_dp : gmap string Z;
  remote_pp : gmap string Z;
  remote_num_hidden_layers : gmap string Z;
  remote_pp_layer_ranges : gmap string (list (Z * Z));
  remote_pp_cache_layer_indices : gmap string (list (list Z));
  remote_pp_dsv4_ratio_layer_indices : gmap string (gmap Z (list (list Z)));
  remote_mtp_handoff_num_drafts : gmap string Z;
  remote_dsv4_num_layers_per_ratio : gmap string (gmap Z Z)
}.

(** [initialize_migration_state] (tables) *)
Definition initialize_migration_state : Tables :=
  mk_tables (mk_peers ∅ ∅ ∅ ∅) ∅ ∅ ∅ ∅ ∅ ∅ ∅ ∅ ∅ ∅.

(** [p2p_disconnect] (tables) *)
Definition p2p_disconnect (e : string) (t : Tables) : Tables :=
  let p := peers t in
  mk_tables
    (mk_peers (delete e (num_remote_kvcache_blocks p)) (delete e (remote_gdn_num_slots p))
       (delete e (remote_compressed_pool_pages p)) (delete e (remote_dsv4_max_slots p)))
    (delete e (remote_max_num_seqs t)) (delete e (remote_attention_tp t))
    (delete e (remote_attention_dp t)) (delete e (remote_pp t))
    (delete e (remote_num_hidden_layers t)) (delete e (remote_pp_layer_ranges t))
    (delete e (remote_pp_cache_layer_indices t)) (delete e (remote_pp_dsv4_ratio_layer_indices t))
    (delete e (remote_mtp_handoff_num_drafts t)) (delete e (remote_dsv4_num_layers_per_ratio t)).

Section table_updates.
Implicit Types t : Tables.

Definition put_mtp e x t := mk_tables (peers t) (remote_max_num_seqs t) (remote_attention_tp t)
  (remote_attention_dp t) (remote_pp t) (remote_num_hidden_layers t) (remote_pp_layer_ranges t)
  (remote_pp_cache_layer_indices t) (remote_pp_dsv4_ratio_layer_indices t)
  (<[e := x]> (remote_mtp_handoff_num_drafts t)) (remote_dsv4_num_layers_per_ratio t).
Definition put_attention e tp dp t := mk_tables (peers t) (remote_max_num_seqs t)
  (<[e := tp]> (remote_attention_tp t)) (<[e := dp]> (remote_attention_dp t)) (remote_pp t)
  (remote_num_hidden_layers t) (remote_pp_layer_ranges t) (remote_pp_cache_layer_indices t)
  (remote_pp_dsv4_ratio_layer_indices t) (remote_mtp_handoff_num_drafts t)
  (remote_dsv4_num_layers_per_ratio t).
Definition put_pp e pp layers t := mk_tables (peers t) (remote_max_num_seqs t)
  (remote_attention_tp t) (remote_attention_dp t) (<[e := pp]> (remote_pp t))
  (<[e := layers]> (remote_num_hidden_layers t)) (remote_pp_layer_ranges t)
  (remote_pp_cache_layer_indices t) (remote_pp_dsv4_ratio_layer_indices t)
  (remote_mtp_handoff_num_drafts t) (remote_dsv4_num_layers_per_ratio t).
Definition put_stages e ranges cache_layers ratio_layers t := mk_tables (peers t)
  (remote_max_num_seqs t) (remote_attention_tp t) (remote_attention_dp t) (remote_pp t)
  (remote_num_hidden_layers t) (<[e := ranges]> (remote_pp_layer_ranges t))
  (<[e := cache_layers]> (remote_pp_cache_layer_indices t))
  (<[e := ratio_layers]> (remote_pp_dsv4_ratio_layer_indices t))
  (remote_mtp_handoff_num_drafts t) (remote_dsv4_num_layers_per_ratio t).
Definition put_dsv4 e pools max_slots layers t :=
  let p := peers t in
  mk_tables (mk_peers (num_remote_kvcache_blocks p) (remote_gdn_num_slots p)
               (<[e := pools]> (remote_compressed_pool_pages p))
               (<[e := max_slots]> (remote_dsv4_max_slots p)))
  (remote_max_num_seqs t) (remote_attention_tp t) (remote_attention_dp t) (remote_pp t)
  (remote_num_hidden_layers t) (remote_pp_layer_ranges t) (remote_pp_cache_layer_indices t)
  (remote_pp_dsv4_ratio_layer_indices t) (remote_mtp_handoff_num_drafts t)
  (<[e := layers]> (remote_dsv4_num_layers_per_ratio t)).
Definition put_sizes e blocks max_seqs gdn_slots t :=
  let p := peers t in
  mk_tables (mk_peers (<[e := blocks]> (num_remote_kvcache_blocks p))
               (if decide (gdn_slots > 0) then <[e := gdn_slots]> (remote_gdn_num_slots p)
                else remote_gdn_num_slots p)
               (remote_compressed_pool_pages p) (remote_dsv4_max_slots p))
  (<[e := max_seqs]> (remote_max_num_seqs t)) (remote_attention_tp t) (remote_attention_dp t)
  (remote_pp t) (remote_num_hidden_layers t) (remote_pp_layer_ranges t)
  (remote_pp_cache_layer_indices t) (remote_pp_dsv4_ratio_layer_indices t)
  (remote_mtp_handoff_num_drafts t) (remote_dsv4_num_layers_per_ratio t).
End table_updates.

(** * Validation of the published metadata *)

(** The local engine: its cache context, architecture and mesh coordinates. *)
Record LocalEngine := mk_local {
  context : CacheContext;
  architecture : option string;
  attn_sp_rank : Z;
  attn_tp_rank : Z;
  local_pp_world_size : Z
}.

Fixpoint contiguous (ranges : list (Z * Z)) : bool :=
  match ranges with
  | (s, e) :: (((s', _) :: _) as rest) => (s <? e) && (e =? s') && contiguous rest
  | _ => true
  end.

(** The condition on [stage_ranges] (negated in the source). *)
Definition ranges_ok (pp layers : Z) (ranges : list (Z * Z)) : bool :=
  (zlen ranges =? pp)
  && match head ranges, last ranges with
     | Some (s0, _), Some (sl, el) =>
         (s0 =? 0) && (el =? layers) && contiguous ranges && (sl <? el)
     | _, _ => false
     end.

(** [stage_ranges]: published, or recomputed by the even split. *)
Definition stage_ranges_of (info : EngineInfo) (pp effective_layers : Z) : result (list (Z * Z)) :=
  match ei_pp_layer_ranges info with
  | [] => pp_layer_partition effective_layers pp None
  | ranges => Ok ranges
  end.

Definition cache_layers_of (info : EngineInfo) (ranges : list (Z * Z)) : list (list Z) :=
  match ei_pp_cache_layer_indices info with
  | [] => (fun '(s, e) => seqZ s (e - s)) <$> ranges
  | published => published
  end.

(** The cache layers of one stage lie in its range; predictor slots only on the last. *)
Definition stage_layers_ok (pp effective_layers : Z) (predictor_slots : list Z)
    (stage : Z) (range : Z * Z) (layers : list Z) : bool :=
  let target := filter (fun x => x < effective_layers) layers in
  let predictor := filter (fun x => x >= effective_layers) layers in
  forallb (fun x => (fst range <=? x) && (x <? snd range)) target
  && (bool_decide (predictor = [])
      || ((stage =? pp - 1) && bool_decide (predictor = predictor_slots))).

(** The loop over stages; [stage_ranges\[stage\]] raises when there is no such range. *)
Fixpoint check_stages (pp L : Z) (predictor_slots : list Z) (stage : Z)
    (ranges : list (Z * Z)) (layers : list (list Z)) : result unit :=
  match layers with
  | [] => Ok tt
  | ls :: layers =>
      match ranges with
      | [] => Err IndexError
      | r :: ranges =>
          if stage_layers_ok pp L predictor_slots stage r ls
          then check_stages pp L predictor_slots (stage + 1) ranges layers
          else Err RuntimeError
      end
  end.

Definition sortedZ (l : list Z) : bool := bool_decide (l = stable_sort Z.leb l).

(** The checks for a pipeline-parallel peer ([if remote_pp > 1]). *)
Definition check_pp_layout (local : LocalEngine) (info : EngineInfo) (pp total L : Z)
    (ranges : list (Z * Z)) (layers : list (list Z)) : result unit :=
  let mtp := default 0 (ei_mtp_num_kv_layers info) in
  let flat := concat layers in
  let predictor_slots := seqZ L mtp in
  if decide (total <= 0) then Err RuntimeError
  else if decide (local_pp_world_size local > 1) then Err RuntimeError
  else if decide (zlen layers <> pp) then Err RuntimeError
  else if decide (zlen ranges <> pp) then Err RuntimeError
  else if decide (zlen flat <> num_hidden_layers (cfg (context local))) then Err RuntimeError
  else if decide (~ NoDup flat) then Err RuntimeError
  else if negb (sortedZ flat) then Err RuntimeError
  else if decide (mtp <> 0 /\ py_from flat (- mtp) <> predictor_slots) then Err RuntimeError
  else check_stages pp L predictor_slots 0 ranges layers.

(** The connection requests a view gives rise to. *)
Record ConnRequest := mk_conn {
  cr_peer_alias : string;
  cr_engine_id : string;
  cr_num_kvcache_blocks : Z;
  cr_max_num_seqs : Z;
  cr_gdn_num_slots : Z
}.

(** [remote_arch and local_arch and remote_arch != local_arch] *)
Definition arch_mismatch (remote local : option string) : bool :=
  match remote, local with
  | Some r, Some l => negb (bool_decide (r = "")) && negb (bool_decide (l = ""))
                      && negb (bool_decide (r = l))
  | _, _ => false
  end.

(** The body of the first loop of [migrate_from_bytes]: compatibility checks in the
    source's order, recording what the offset arithmetic and the routing read. *)
Definition record_engine (local : LocalEngine) (v : View) (info : EngineInfo)
    : act Tables (list ConnRequest) :=
  let c := context local in
  let e := migrate_engine_id v in
  _ ← raise_if (arch_mismatch (ei_architecture info) (architecture local)) RuntimeError;
  _ ← raise_if (bool_decide (default (block_size (cfg c)) (ei_kvcache_block_size info)
                             <> block_size (cfg c))) RuntimeError;
  _ ← raise_if (bool_decide (default (migrate_group_size v) (ei_attention_sp info)
                             <> migrate_group_size v)) RuntimeError;
  let max_seqs := default 0 (ei_max_num_seqs info) in
  let drafts := default 0 (ei_mtp_handoff_num_drafts info) in
  _ ← raise_if (bool_decide (mtp_num_drafts c <> 0 /\ drafts <> mtp_num_drafts c)) RuntimeError;
  _ ← modify (put_mtp e drafts);
  _ ← modify (put_attention e (default 1 (ei_attention_tp info)) (default 1 (ei_attention_dp info)));
  let pp := default 1 (ei_pp info) in
  let total := default 0 (ei_num_hidden_layers info) in
  let L := z_or total (num_hidden_layers (cfg c)) in
  _ ← modify (put_pp e pp total);
  ranges ← lift (stage_ranges_of info pp L);
  _ ← raise_if (negb (ranges_ok pp L ranges)) RuntimeError;
  let layers := cache_layers_of info ranges in
  _ ← modify (put_stages e ranges layers (ei_pp_dsv4_ratio_layer_indices info));
  _ ← (if decide (pp > 1) then lift (check_pp_layout local info pp total L ranges layers) else mret tt);
  heads ← lift (num_local_kv_heads c);
  _ ← raise_if (bool_decide (default heads (ei_num_local_kv_heads info) <> heads)) RuntimeError;
  _ ← modify (put_dsv4 e (ei_dsv4_compressed_pool_pages info)
                (default max_seqs (ei_dsv4_max_slots info)) (ei_dsv4_num_layers_per_ratio info));
  mret ((fun alias => mk_conn alias e (migrate_num_kvcache_blocks v) max_seqs
                        (default 0 (ei_gdn_num_slots info))) <$> ei_peer_addrs info).

(** [_ensure_peer_connections]: the sizes of every request are recorded; the aliases that
    are not connected yet are returned for [ensure_many_connected], each once. *)
Definition ensure_peer_connections (is_connected : string -> bool) (reqs : list ConnRequest)
    (t : Tables) : list string * Tables :=
  foldl (fun '(todo, t) r =>
           let t := put_sizes (cr_engine_id r) (cr_num_kvcache_blocks r) (cr_max_num_seqs r)
                      (cr_gdn_num_slots r) t in
           let a := cr_peer_alias r in
           (if negb (bool_decide (a = "")) && negb (is_connected a) && bool_decide (a ∉ todo)
            then todo ++ [a] else todo, t))
        ([], t) reqs.

(** * Routing *)

(** An entry of [assigns]: plane, local layer, layer in the peer's tensor and that
    tensor's layer count, remote block, local block. *)
Record KvAssign := mk_kv {
  a_kv_idx : Z;
  a_local_layer_idx : Z;
  a_remote_layer_idx : Z;
  a_remote_num_layers : Z;
  a_remote_block_idx : Z;
  a_source_block_idx : Z
}.

(** The six assignment maps, each as the log of [maps\[engine\]\[peer\].append(item)]. *)
Abbreviation log A := (list (string * string * A)).

Record Assigns := mk_assigns {
  kv_assigns : log KvAssign;
  (** local layer, remote layer, remote block, local block *)
  indexer_assigns : log (Z * Z * Z * Z);
  (** ratio, local layer, remote layer, remote page, local page *)
  compressed_assigns : log (Z * Z * Z * Z * Z);
  (** ratio, local layer, remote layer, remote slot, local slot *)
  compressor_state_assigns : log (Z * Z * Z * Z * Z);
  (** remote slot, local slot *)
  mtp_handoff_assigns : log (Z * Z);
  (** local layer, remote layer, remote slot, local slot *)
  gdn_assigns : log (Z * Z * Z * Z)
}.

Definition no_assigns : Assigns := mk_assigns [] [] [] [] [] [].

Definition app_assigns (a b : Assigns) : Assigns :=
  mk_assigns (kv_assigns a ++ kv_assigns b) (indexer_assigns a ++ indexer_assigns b)
    (compressed_assigns a ++ compressed_assigns b)
    (compressor_state_assigns a ++ compressor_state_assigns b)
    (mtp_handoff_assigns a ++ mtp_handoff_assigns b) (gdn_assigns a ++ gdn_assigns b).

(** [_remote_global_rank] *)
Definition remote_global_rank (dp_idx dp_size sp_idx sp_size tp_idx tp_size : Z) : result Z :=
  pp_global_rank 0 dp_idx sp_idx tp_idx dp_size sp_size tp_size.

(** [{layer: (stage, idx) for stage, layers in ... for idx, layer in ...}]: a later
    entry overwrites an earlier one. *)
Definition layer_locations (by_stage : list (list Z)) : gmap Z (Z * Z) :=
  foldl (fun m '(stage, layers) =>
           foldl (fun m '(idx, layer) => <[layer := (stage, idx)]> m) m (enumerate layers))
        ∅ (enumerate by_stage).

(** What the routing of one view reads: the peer layout of its engine. *)
Record Peer := mk_peer {
  p_engine : string;
  p_addrs : list string;
  p_pp : Z;
  p_stage_ranges : list (Z * Z);
  p_layers : list (list Z);
  p_dp : Z;
  p_tp : Z;
  p_inner_world_size : Z
}.

(** The peer holding [layer], and the layer's index there. *)
Definition locate (p : Peer) (locs : gmap Z (Z * Z)) (inner_rank layer : Z)
    : result (string * Z * Z) :=
  loc ← of_option KeyError (locs !! layer);
  let '(stage, idx) := loc in
  alias ← (p_addrs p).[stage * p_inner_world_size p + inner_rank]%py;
  Ok (alias, stage, idx).

Definition cache_planes (mode : string) : Z :=
  if decide (mode = "mla" \/ mode = "dsv4") then 1 else 2.

(** The KV reads of one block pair. *)
Definition kv_block_assigns (mode : string) (p : Peer) (inner_rank remote_block source_block : Z)
    : result (log KvAssign) :=
  let locs := layer_locations (p_layers p) in
  res ← mapM_r (fun kv_idx =>
          mapM_r (fun '(local_layer_idx, layer) =>
            loc ← locate p locs inner_rank layer;
            let '(alias, stage, idx) := loc in
            stage_layers ← (p_layers p).[stage]%py;
            Ok (p_engine p, alias, mk_kv kv_idx local_layer_idx idx (zlen stage_layers)
                                     remote_block source_block))
            (enumerate (concat (p_layers p))))
          (py_range (cache_planes mode));
  Ok (concat res).

Definition indexer_block_assigns (p : Peer) (inner_rank remote_block source_block : Z)
    : result (log (Z * Z * Z * Z)) :=
  let locs := layer_locations (p_layers p) in
  mapM_r (fun '(local_layer_idx, layer) =>
            loc ← locate p locs inner_rank layer;
            let '(alias, _, idx) := loc in
            Ok (p_engine p, alias, (local_layer_idx, idx, remote_block, source_block)))
         (enumerate (concat (p_layers p))).

Section view.
Context (local : LocalEngine) (t : Tables) (p : Peer) (v : View).

(** One iteration of the loop over block pairs. *)
Definition block_pair_assigns (locations : (Z * Z) * (Z * Z)) : result Assigns :=
  let c := context local in
  let '((remote_sp_idx, remote_block), (source_sp_idx, source_block)) := locations in
  if decide (source_block < 0 \/ source_block >= num_local_kvcache_blocks c) then Err RuntimeError
  else
    let remote_max := default 0 (num_remote_kvcache_blocks (peers t) !! p_engine p) in
    if decide (remote_block < 0 \/ (remote_max > 0 /\ remote_block >= remote_max))
    then Err RuntimeError
    else if decide (source_sp_idx <> attn_sp_rank local) then Ok no_assigns
    else
      inner ← remote_global_rank (migrate_dp_idx v) (p_dp p) remote_sp_idx (migrate_group_size v)
                (attn_tp_rank local) (p_tp p);
      if decide ((zlen (p_stage_ranges p) - 1) * p_inner_world_size p + inner >= zlen (p_addrs p))
      then Err RuntimeError
      else
        kv ← kv_block_assigns (mode (cfg c)) p inner remote_block source_block;
        ix ← (match indexer_cache c with
              | Some _ => indexer_block_assigns p inner remote_block source_block
              | None => Ok []
              end);
        Ok (mk_assigns kv ix [] [] [] []).

(** The rank that owns a sequence's recurrent and compressed state: the last sp rank. *)
Definition state_inner_rank : result Z :=
  remote_global_rank (migrate_dp_idx v) (p_dp p) (migrate_group_size v - 1) (migrate_group_size v)
    (attn_tp_rank local) (p_tp p).

(** [layers_by_stage] of a DSv4 compression ratio. *)
Definition ratio_layers_by_stage (ratio : Z) : result (list (list Z)) :=
  if decide (p_pp p > 1) then
    m ← of_option KeyError (remote_pp_dsv4_ratio_layer_indices t !! p_engine p);
    Ok (default [] (m !! ratio))
  else Ok [py_range (zlen (default [] (dsv4_layers_per_ratio (csa (context local)) !! ratio)))].

(** Layers of a ratio with their location; the count must match the local pool's. *)
Definition ratio_routes (ratio : Z) (pool : Tensor) (by_stage : list (list Z)) (inner : Z)
    : result (list (Z * (string * Z * Z))) :=
  let layers := concat by_stage in
  if decide (zlen layers <> dim pool 0) then Err RuntimeError
  else mapM_r (fun '(local_rli, layer) =>
                 loc ← locate p (layer_locations by_stage) inner layer; Ok (local_rli, loc))
              (enumerate layers).

Definition compressed_view_assigns : result (log (Z * Z * Z * Z * Z)) :=
  let flat := dsv4_compressed_caches_flat (csa (context local)) in
  if decide (flat = ∅ \/ migrate_compressed_block_tables v = []) then Ok []
  else
    inner ← state_inner_rank;
    res ← mapM_r (fun '(ratio, remote_pages) =>
            match flat !! ratio with
            | None => Ok []
            | Some pool =>
                let local_pages := default [] (active_compressed_block_tables v !! ratio) in
                by_stage ← ratio_layers_by_stage ratio;
                if decide (p_pp p > 1 /\ zlen by_stage <> p_pp p) then Err RuntimeError
                else
                  routes ← ratio_routes ratio pool by_stage inner;
                  Ok (routes ≫= fun '(local_rli, (alias, _, rli)) =>
                        (fun '(rpage, lpage) => (p_engine p, alias, (ratio, local_rli, rli, rpage, lpage)))
                          <$> zip remote_pages local_pages)
            end) (migrate_compressed_block_tables v);
    Ok (concat res).

(** The ratios are visited in the order of the local dictionary. *)
Definition compressor_view_assigns : result (log (Z * Z * Z * Z * Z)) :=
  let flat := dsv4_compressor_kv_flat (csa (context local)) in
  if decide (flat = ∅ \/ migrate_state_slot v < 0 \/ active_state_slot v < 0) then Ok []
  else
    inner ← state_inner_rank;
    res ← mapM_r (fun '(ratio, pool) =>
            by_stage ← ratio_layers_by_stage ratio;
            routes ← ratio_routes ratio pool by_stage inner;
            Ok (map (fun '(local_rli, (alias, _, rli)) =>
                       (p_engine p, alias,
                        (ratio, local_rli, rli, migrate_state_slot v, active_state_slot v)))
                  routes)) (map_to_list flat);
    Ok (concat res).

Definition mtp_view_assigns : result (log (Z * Z)) :=
  match mtp_handoff (context local) with
  | None => Ok []
  | Some _ =>
      if decide (migrate_state_slot v < 0 \/ active_state_slot v < 0) then Ok []
      else
        inner ← state_inner_rank;
        alias ← (p_addrs p).[(p_pp p - 1) * p_inner_world_size p + inner]%py;
        Ok [(p_engine p, alias, (migrate_state_slot v, active_state_slot v))]
  end.

(** The stage holding GDN layer [layer_idx] and the layer's index there. *)
Definition gdn_location (layer_idx : Z) : result (Z * Z) :=
  if decide (p_pp p > 1) then
    stage ← pp_stage_of_layer layer_idx (p_stage_ranges p);
    range ← (p_stage_ranges p).[stage]%py;
    Ok (stage, layer_idx - fst range)
  else Ok (0, layer_idx).

Definition gdn_view_assigns : result (log (Z * Z * Z * Z)) :=
  match gdn_conv_states (gdn (context local)), gdn_recurrent_states (gdn (context local)) with
  | Some _, Some rec =>
      if decide (migrate_state_slot v < 0 \/ active_state_slot v < 0) then Ok []
      else
        inner ← state_inner_rank;
        mapM_r (fun layer_idx =>
                  loc ← gdn_location layer_idx;
                  alias ← (p_addrs p).[fst loc * p_inner_world_size p + inner]%py;
                  Ok (p_engine p, alias,
                      (layer_idx, snd loc, migrate_state_slot v, active_state_slot v)))
               (py_range (dim rec 0))
  | _, _ => Ok []
  end.

(** The assignments of one view, after the checks on its mesh coordinates. *)
Definition peer_view_assigns : result Assigns :=
  if decide (~ 0 <= migrate_dp_idx v < p_dp p) then Err RuntimeError
  else if decide (~ 0 <= attn_tp_rank local < p_tp p) then Err RuntimeError
  else if decide (p_pp p > 1 /\ p_pp p * p_inner_world_size p <> zlen (p_addrs p)) then Err RuntimeError
  else if decide (zlen (migrate_block_location v) > zlen (active_block_location v)) then Err RuntimeError
  else
    blocks ← mapM_r block_pair_assigns (zip (migrate_block_location v) (active_block_location v));
    comp ← compressed_view_assigns;
    cstate ← compressor_view_assigns;
    mtp ← mtp_view_assigns;
    gdn ← gdn_view_assigns;
    Ok (app_assigns (foldr app_assigns no_assigns blocks) (mk_assigns [] [] comp cstate mtp gdn)).
End view.

(** The peer layout of a view's engine, from the tables. *)
Definition peer_of_view (local : LocalEngine) (t : Tables) (v : View) (info : EngineInfo) : result Peer :=
  let e := migrate_engine_id v in
  let L := num_hidden_layers (cfg (context local)) in
  let addrs := ei_peer_addrs info in
  let pp := default 1 (remote_pp t !! e) in
  let dp := default 1 (remote_attention_dp t !! e) in
  let tp := default 1 (remote_attention_tp t !! e) in
  let inner := dp * migrate_group_size v * tp in
  if decide (addrs = []) then Err RuntimeError
  else if decide (pp > 1) then
    ranges ← of_option KeyError (remote_pp_layer_ranges t !! e);
    layers ← of_option KeyError (remote_pp_cache_layer_indices t !! e);
    Ok (mk_peer e addrs pp ranges layers dp tp inner)
  else Ok (mk_peer e addrs pp [(0, L)] [py_range L] dp tp inner).

Definition view_assigns (local : LocalEngine) (t : Tables) (info : EngineInfo) (v : View) : result Assigns :=
  p ← peer_of_view local t v info;
  peer_view_assigns local t p v.

(** [migrate_from_bytes] up to the reads: records every engine, connects, and plans the
    assignments of all views. *)
Definition plan_migration (local : LocalEngine) (infos : gmap string EngineInfo)
    (is_connected : string -> bool) (views : list View) : act Tables (list string * Assigns) :=
  if bool_decide (Forall (fun v => migrate_engine_id v = "") views) then mret ([], no_assigns)
  else
    let info v := default no_info (infos !! migrate_engine_id v) in
    reqs ← foldr (fun v k acc => rs ← record_engine local v (info v); k (acc ++ rs))
                 (fun acc => mret acc) views [];
    t ← get;
    let '(todo, t) := ensure_peer_connections is_connected reqs t in
    _ ← modify (fun _ => t);
    parts ← lift (mapM_r (fun v => view_assigns local t (info v) v) views);
    mret (todo, foldr app_assigns no_assigns parts).

(** * Building the reads: [_execute_rdma_reads] *)

(** The local memory regions of [P2PCacheTransfer]. *)
Record Regions := mk_regions {
  has_kv_mr : bool;
  has_hisparse_cold_mr : bool;
  compressed_mrs : gset Z;
  compressor_kv_mrs : gset Z;
  compressor_score_mrs : gset Z;
  compressor_counts_mrs : gset Z;
  local_mr_sizes : gmap string Z
}.

Definition no_regions : Regions := mk_regions false false ∅ ∅ ∅ ∅ ∅.

Definition num_bytes (t : Tensor) : Z := numel t * element_size t.

(** Adds the size of an optional tensor's region. *)
Definition add_size (name : string) (t : option Tensor) (bytes : Tensor -> Z)
    (sizes : gmap string Z) : gmap string Z :=
  match t with Some t => <[name := bytes t]> sizes | None => sizes end.

Definition ratio_name (prefix : string) (ratio : Z) : string := prefix +:+ pretty ratio.

Definition add_ratio_sizes (prefix : string) (bufs : gmap Z Tensor) (sizes : gmap string Z)
    : gmap string Z :=
  map_fold (fun ratio t sizes => <[ratio_name prefix ratio := num_bytes t]> sizes) sizes bufs.

(** [register_peer_agent_memory_regions] with an attached PeerAgent: the regions and sizes
    registered for each allocated tensor; a hybrid engine registers none. *)
Definition register_memory_regions (mode_arg : string) (hisparse_enabled : bool)
    (c : CacheContext) (r : Regions) : result Regions :=
  if decide (mode_arg = "hybrid") then Ok r
  else
    kv ← of_option AttributeError (kv_cache c);
    let s := csa c in
    let cold := if hisparse_enabled && bool_decide (mode (cfg c) = "mla") then host_kv_cache c else None in
    let pair := match gdn_conv_states (gdn c), gdn_recurrent_states (gdn c) with
                | Some a, Some b => (Some a, Some b)
                | _, _ => (None, None)
                end in
    let sizes := <["kv_cache" := tensor_storage_span_num_bytes kv]> (local_mr_sizes r) in
    let sizes := add_size "mtp_handoff" (mtp_handoff c) tensor_storage_span_num_bytes sizes in
    let sizes := add_size "hisparse_cold_kv" cold tensor_storage_span_num_bytes sizes in
    let sizes := add_size "gdn_conv" (fst pair) num_bytes sizes in
    let sizes := add_size "gdn_recurrent" (snd pair) num_bytes sizes in
    let sizes := add_size "indexer_cache" (ix_buffer <$> indexer_cache c) num_bytes sizes in
    let sizes := add_ratio_sizes "dsv4_compressed_r" (dsv4_compressed_caches_flat s) sizes in
    let sizes := add_ratio_sizes "dsv4_compressor_kv_r" (dsv4_compressor_kv_flat s) sizes in
    let sizes := add_ratio_sizes "dsv4_compressor_score_r" (dsv4_compressor_score_flat s) sizes in
    let sizes := add_ratio_sizes "dsv4_compressor_counts_r" (dsv4_compressor_counts_flat s) sizes in
    Ok (mk_regions true (has_hisparse_cold_mr r || bool_decide (is_Some cold))
          (compressed_mrs r ∪ dom (dsv4_compressed_caches_flat s))
          (compressor_kv_mrs r ∪ dom (dsv4_compressor_kv_flat s))
          (compressor_score_mrs r ∪ dom (dsv4_compressor_score_flat s))
          (compressor_counts_mrs r ∪ dom (dsv4_compressor_counts_flat s)) sizes).

(** The PeerAgent, which is not part of the repository: whether an alias is connected,
    the transport of its connection (none without an endpoint), and the length of a
    region it registered. *)
Record PeerAgent := mk_agent {
  is_connected : string -> bool;
  transport : string -> option string;
  get_mr_info : string -> string -> option Z
}.

(** [maps.get(engine, {}).get(peer, \[\])] *)
Definition batch {A} (l : log A) (engine peer : string) : list A :=
  omap (fun '(e, a, x) => if decide (e = engine /\ a = peer) then Some x else None) l.

Section prepare.
Context (local : LocalEngine) (regions : Regions) (agent : PeerAgent) (t : Tables).
Context (engine peer : string).

(** [conn.transport == "nvlink" or get_mr_info(peer, name)] *)
Definition reachable (nvlink : bool) (name : string) : bool :=
  nvlink || bool_decide (is_Some (get_mr_info agent peer name)).

Definition cold_kv_offset (kv layer blk : Z) : result Z :=
  cold ← of_option AttributeError (host_kv_cache (context local));
  Ok ((kv * stride cold 0 + layer * stride cold 1 + blk * stride cold 2) * element_size cold).

(** The operation of one KV assignment; an invalid one is skipped. *)
Definition kv_op (a : KvAssign) : result (option RdmaOp) :=
  let c := context local in
  let cold := has_hisparse_cold_mr regions in
  lo ← (if cold then cold_kv_offset (a_kv_idx a) (a_local_layer_idx a) (a_source_block_idx a)
        else local_kv_stride c (a_kv_idx a) (a_local_layer_idx a) (a_source_block_idx a));
  ro ← remote_kv_stride c (peers t) (a_kv_idx a) (a_remote_layer_idx a) (a_remote_block_idx a)
         engine (a_remote_num_layers a);
  len ← local_block_num_bytes c;
  if decide (lo < 0 \/ ro < 0 \/ len <= 0) then Ok None
  else Ok (Some (mk_op (if cold then "hisparse_cold_kv" else "kv_cache") "kv_cache" lo ro len)).

Definition kv_ops (items : list KvAssign) : result (list RdmaOp) :=
  if decide (items <> [] /\ has_kv_mr regions = false) then Err RuntimeError
  else ops ← mapM_r kv_op items; Ok (omap (M := list) id ops).

(** Both GDN pools of each assigned layer and slot. *)
Definition gdn_ops (nvlink : bool) (items : list (Z * Z * Z * Z)) : result (list RdmaOp) :=
  let c := context local in
  match items, gdn_conv_states (gdn c), gdn_recurrent_states (gdn c) with
  | _ :: _, Some _, Some _ =>
      if negb (reachable nvlink "gdn_conv") then Err RuntimeError
      else
        l ← from_cache_context c;
        r ← remote c (peers t) engine 0;
        let conv := (fun '(ll, rl, rs, ls) =>
          mk_op "gdn_conv" "gdn_conv" (gdn_conv_stride l ll ls) (gdn_conv_stride r rl rs)
            (gdn_conv_slot_num_bytes l)) <$> items in
        if negb (reachable nvlink "gdn_recurrent") then Err RuntimeError
        else
          let rec := (fun '(ll, rl, rs, ls) =>
            mk_op "gdn_recurrent" "gdn_recurrent" (gdn_recurrent_stride l ll ls)
              (gdn_recurrent_stride r rl rs) (gdn_recurrent_slot_num_bytes l)) <$> items in
          Ok (conv ++ rec)
  | _, _, _ => Ok []
  end.

(** Without a remote region the draft handoff is left out. *)
Definition mtp_ops (nvlink : bool) (items : list (Z * Z)) : result (list RdmaOp) :=
  match items, mtp_handoff (context local) with
  | _ :: _, Some h =>
      if reachable nvlink "mtp_handoff" then
        let row_bytes := stride h 0 * element_size h in
        let local_slots := dim h 0 in
        let remote_slots := default 0 (remote_max_num_seqs t !! engine) in
        mapM_r (fun '(rs, ls) =>
                  if decide (~ 0 <= ls < local_slots) then Err RuntimeError
                  else if decide (remote_slots > 0 /\ ~ 0 <= rs < remote_slots) then Err RuntimeError
                  else Ok (mk_op "mtp_handoff" "mtp_handoff" (ls * row_bytes) (rs * row_bytes) row_bytes))
               items
      else Ok []
  | _, _ => Ok []
  end.

Definition ratio_of (x : Z * Z * Z * Z * Z) : Z := let '(r, _, _, _, _) := x in r.

Definition compressed_ops (nvlink : bool) (items : list (Z * Z * Z * Z * Z)) : result (list RdmaOp) :=
  let c := context local in
  res ← mapM_r (fun '(ratio, group) =>
          let name := ratio_name "dsv4_compressed_r" ratio in
          if decide (ratio ∉ compressed_mrs regions) then Err RuntimeError
          else if negb (reachable nvlink name) then Err RuntimeError
          else
            l ← from_cache_context c;
            r ← remote c (peers t) engine 0;
            Ok (map (fun '(_, local_rli, remote_rli, rpage, lpage) =>
                       mk_op name name (compressed_stride l ratio local_rli lpage)
                         (compressed_stride r ratio remote_rli rpage) (compressed_page_bytes l ratio))
                  group))
          (group_by ratio_of items);
  Ok (concat res).

Definition compressor_kind_ops (nvlink : bool) (ratio : Z) (group : list (Z * Z * Z * Z * Z))
    (kind : string) (mrs : gset Z) : result (list RdmaOp) :=
  let c := context local in
  let name := ratio_name ("dsv4_compressor_" +:+ kind +:+ "_r") ratio in
  if decide (ratio ∉ mrs) then Err RuntimeError
  else if negb (reachable nvlink name) then Err RuntimeError
  else
    l ← from_cache_context c;
    r ← remote c (peers t) engine 0;
    Ok (map (fun '(_, local_rli, remote_rli, rslot, lslot) =>
               mk_op name name (compressor_state_stride l ratio local_rli lslot kind)
                 (compressor_state_stride r ratio remote_rli rslot kind)
                 (compressor_state_row_bytes ratio kind))
          group).

Definition compressor_ops (nvlink : bool) (items : list (Z * Z * Z * Z * Z)) : result (list RdmaOp) :=
  res ← mapM_r (fun '(ratio, group) =>
          kinds ← mapM_r (fun '(kind, mrs) => compressor_kind_ops nvlink ratio group kind mrs)
                    [("kv", compressor_kv_mrs regions); ("score", compressor_score_mrs regions);
                     ("counts", compressor_counts_mrs regions)];
          Ok (concat kinds))
          (group_by ratio_of items);
  Ok (concat res).

Definition indexer_ops (nvlink : bool) (items : list (Z * Z * Z * Z)) : result (list RdmaOp) :=
  let c := context local in
  match items, indexer_cache c with
  | _ :: _, Some _ =>
      if negb (reachable nvlink "indexer_cache") then Err RuntimeError
      else
        l ← from_cache_context c;
        r ← remote c (peers t) engine 0;
        Ok ((fun '(ll, rl, rb, lb) =>
               mk_op "indexer_cache" "indexer_cache" (indexer_stride l ll lb) (indexer_stride r rl rb)
                 (indexer_page_bytes l)) <$> items)
  | _, _ => Ok []
  end.

(** The prepared operations of one peer: collected, coalesced and, except over NVLink,
    validated. *)
Definition prepare_read (a : Assigns) : result (list RdmaOp) :=
  if negb (is_connected agent peer) then Err RuntimeError
  else
    tr ← of_option RuntimeError (transport agent peer);
    let nvlink := bool_decide (tr = "nvlink") in
    kv ← kv_ops (batch (kv_assigns a) engine peer);
    gdn ← gdn_ops nvlink (batch (gdn_assigns a) engine peer);
    mtp ← mtp_ops nvlink (batch (mtp_handoff_assigns a) engine peer);
    comp ← compressed_ops nvlink (batch (compressed_assigns a) engine peer);
    cstate ← compressor_ops nvlink (batch (compressor_state_assigns a) engine peer);
    ix ← indexer_ops nvlink (batch (indexer_assigns a) engine peer);
    let rdma_ops := kv ++ gdn ++ mtp ++ comp ++ cstate ++ ix in
    if decide (rdma_ops = []) then Err RuntimeError
    else
      ops ← coalesce_rdma_ops rdma_ops MAX_COALESCED_RDMA_BYTES;
      _ ← (if nvlink then Ok tt
           else validate_named_region_ops (get_mr_info agent peer) (local_mr_sizes regions) ops);
      Ok ops.
End prepare.

(** The (engine, peer) pairs with any assignment. *)
Definition read_targets (a : Assigns) : list (string * string) :=
  remove_dups ((fst <$> kv_assigns a) ++ (fst <$> gdn_assigns a) ++ (fst <$> indexer_assigns a)
    ++ (fst <$> compressed_assigns a) ++ (fst <$> compressor_state_assigns a)
    ++ (fst <$> mtp_handoff_assigns a)).

(** The reads of all peers.  The source iterates over sets; [order] is the iteration
    order, some permutation of the targets. *)
Definition prepare_reads (local : LocalEngine) (regions : Regions) (agent : PeerAgent) (t : Tables)
    (a : Assigns) (order : list (string * string)) : result (list (string * list RdmaOp)) :=
  mapM_r (fun '(engine, peer) =>
            ops ← prepare_read local regions agent t engine peer a; Ok (peer, ops)) order.

(** * The engine-info cache: [_fetch_engine_info_from_ctrl] *)

Abbreviation InfoCache := (option (gmap string EngineInfo)).

(** [post id] is the non-empty metadata NanoCtrl returns for an engine, if it does;
    [ctrl] says whether a controller address is configured.  Entries never expire. *)
Definition fetch_engine_info (ctrl : bool) (post : string -> option EngineInfo)
    (engine_ids : gset string) (cache : InfoCache) : gmap string EngineInfo * InfoCache :=
  if decide (engine_ids = ∅) then (∅, cache)
  else
    let info_map := match cache with
                    | Some cached => filter (fun '(id, _) => id ∈ engine_ids) cached
                    | None => ∅
                    end in
    let missing := match cache with
                   | Some cached => engine_ids ∖ dom cached
                   | None => engine_ids
                   end in
    if decide (missing = ∅) then (info_map, cache)
    else if negb ctrl then (info_map, cache)
    else
      let fetched := map_imap (fun id _ => post id) (gset_to_gmap tt missing) in
      let cache := if decide (fetched = ∅) then cache else Some (fetched ∪ default ∅ cache) in
      (fetched ∪ info_map, cache).

(** * Lemmas *)

Lemma contiguous_tiles ranges a s0 e0 sl el :
  head ranges = Some (s0, e0) -> last ranges = Some (sl, el) -> s0 = a ->
  contiguous ranges = true -> sl < el ->
  tiles a el ranges /\ Forall (fun r => fst r < snd r) ranges.
Proof.
  revert a s0 e0. induction ranges as [|[s e] rest IH]; intros a s0 e0 Hh Hl Ha Hc Hlt; [done|].
  simpl in Hh. simplify_eq. destruct rest as [|[s' e'] rest].
  - simpl in Hl. simplify_eq. split; repeat constructor; simpl; lia.
  - simpl in Hc. apply andb_true_iff in Hc as [[H1%Z.ltb_lt H2%Z.eqb_eq]%andb_true_iff Hc].
    destruct (IH s' s' e' eq_refl Hl eq_refl Hc Hlt) as [Ht Hf].
    split; [constructor; [lia|by subst]|by constructor].
Qed.

Lemma ranges_ok_tiles pp L ranges :
  ranges_ok pp L ranges = true ->
  zlen ranges = pp /\ tiles 0 L ranges /\ Forall (fun r => fst r < snd r) ranges.
Proof.
  unfold ranges_ok. intros [Hp%Z.eqb_eq H]%andb_true_iff. split; [done|].
  destruct (head ranges) as [[s0 e0]|] eqn:Eh; [|done].
  destruct (last ranges) as [[sl el]|] eqn:El; [|done].
  apply andb_true_iff in H as [[[H0%Z.eqb_eq HL%Z.eqb_eq]%andb_true_iff Hc]%andb_true_iff Hlt%Z.ltb_lt].
  subst el. by eapply contiguous_tiles.
Qed.

Lemma check_stages_lookup pp L pred stage ranges layers i ls :
  check_stages pp L pred stage ranges layers = Ok tt -> layers !! i = Some ls ->
  exists r, ranges !! i = Some r /\ stage_layers_ok pp L pred (stage + Z.of_nat i) r ls = true.
Proof.
  revert stage ranges i. induction layers as [|l layers IH]; intros stage ranges i; [done|].
  intros Hc Hi. destruct ranges as [|r ranges]; simpl in Hc; [done|].
  destruct (stage_layers_ok pp L pred stage r l) eqn:E; simpl in Hc; [|done].
  destruct i as [|i]; simplify_eq/=.
  - exists r. by rewrite Z.add_0_r.
  - destruct (IH _ _ _ Hc Hi) as (r' & Hr & Hok). exists r'. split; [done|].
    by replace (stage + Z.of_nat (S i)) with (stage + 1 + Z.of_nat i) by lia.
Qed.

Lemma stage_layers_ok_spec pp L pred stage r ls :
  stage_layers_ok pp L pred stage r ls = true ->
  (forall x, x ∈ ls -> x < L -> fst r <= x < snd r) /\
  (forall x, x ∈ ls -> L <= x -> stage = pp - 1 /\ x ∈ pred).
Proof.
  unfold stage_layers_ok. intros [Ht Hp]%andb_true_iff. split.
  - intros x Hx HL. rewrite forallb_forall in Ht. specialize (Ht x).
    assert (In x (filter (fun x => x < L) ls)) as Hin
      by (apply list_elem_of_In, list_elem_of_filter; done).
    apply Ht in Hin. apply andb_true_iff in Hin as [?%Z.leb_le ?%Z.ltb_lt]. done.
  - intros x Hx HL. assert (x ∈ filter (fun x => x >= L) ls) as Hin
      by (apply list_elem_of_filter; split; [lia|done]).
    apply orb_true_iff in Hp as [Hp|Hp].
    + apply bool_decide_eq_true in Hp. rewrite Hp in Hin. by apply not_elem_of_nil in Hin.
    + apply andb_true_iff in Hp as [?%Z.eqb_eq Hp%bool_decide_eq_true]. by rewrite Hp in Hin.
Qed.

(** Positions in nested lists: [concat] at the flat position of (stage, idx). *)
Lemma concat_lookup_inv {A} (ls : list (list A)) n x :
  concat ls !! n = Some x -> exists i j l, ls !! i = Some l /\ l !! j = Some x.
Proof.
  revert n. induction ls as [|l ls IH]; intros n; simpl; [done|].
  rewrite lookup_app_Some. intros [H|[_ H]].
  - by exists 0%nat, n, l.
  - destruct (IH _ H) as (i & j & l' & ? & ?). by exists (S i), j, l'.
Qed.

Definition put_layers (m : gmap Z (Z * Z)) (stage : Z) (layers : list Z) : gmap Z (Z * Z) :=
  foldl (fun m '(idx, layer) => <[layer := (stage, idx)]> m) m (enumerate layers).

Lemma put_layers_snoc m stage layers y :
  put_layers m stage (layers ++ [y]) = <[y := (stage, zlen layers)]> (put_layers m stage layers).
Proof.
  unfold put_layers, enumerate. rewrite imap_app, foldl_app. simpl. by rewrite Nat.add_0_r.
Qed.

Lemma put_layers_in m stage layers i x :
  NoDup layers -> layers !! i = Some x -> put_layers m stage layers !! x = Some (stage, Z.of_nat i).
Proof.
  induction layers as [|y layers IH] using rev_ind; [done|].
  intros (Hn & Hy & _)%NoDup_app Hi. rewrite put_layers_snoc.
  apply lookup_app_Some in Hi as [Hi|[Hl Hi]].
  - rewrite lookup_insert_ne; [by apply IH|]. intros ->.
    apply (Hy x); [by eapply list_elem_of_lookup_2|by apply list_elem_of_singleton].
  - apply list_lookup_singleton_Some in Hi as [? <-]. rewrite lookup_insert_eq.
    unfold zlen. do 2 f_equal. lia.
Qed.

Lemma put_layers_notin m stage layers x :
  x ∉ layers -> put_layers m stage layers !! x = m !! x.
Proof.
  induction layers as [|y layers IH] using rev_ind; [done|].
  rewrite not_elem_of_app, not_elem_of_cons. intros (? & ? & _).
  rewrite put_layers_snoc, lookup_insert_ne by done. auto.
Qed.

Lemma layer_locations_snoc by_stage layers :
  layer_locations (by_stage ++ [layers]) =
  put_layers (layer_locations by_stage) (zlen by_stage) layers.
Proof.
  unfold layer_locations, enumerate. rewrite imap_app, foldl_app. simpl. by rewrite Nat.add_0_r.
Qed.

(** A layer is found where it is listed. *)
Lemma layer_locations_lookup by_stage s i ls x :
  NoDup (concat by_stage) -> by_stage !! s = Some ls -> ls !! i = Some x ->
  layer_locations by_stage !! x = Some (Z.of_nat s, Z.of_nat i).
Proof.
  induction by_stage as [|l by_stage IH] using rev_ind; [done|].
  rewrite concat_app. simpl. rewrite app_nil_r.
  intros (Hn & Hd & Hl)%NoDup_app Hs Hi. rewrite layer_locations_snoc.
  apply lookup_app_Some in Hs as [Hs|[Hlen Hs]].
  - rewrite put_layers_notin; [by eapply IH|]. apply Hd.
    apply list_elem_of_In, in_concat. exists ls.
    split; apply list_elem_of_In; by eapply list_elem_of_lookup_2.
  - apply list_lookup_singleton_Some in Hs as [? <-]. rewrite (put_layers_in _ _ _ i) by done.
    unfold zlen. do 2 f_equal. lia.
Qed.

(** Every listed layer has a location, and it is where the layer is listed. *)
Lemma layer_locations_total by_stage n x :
  NoDup (concat by_stage) -> concat by_stage !! n = Some x ->
  exists s i ls, layer_locations by_stage !! x = Some (Z.of_nat s, Z.of_nat i) /\
    by_stage !! s = Some ls /\ ls !! i = Some x.
Proof.
  intros Hn (s & i & ls & Hs & Hi)%concat_lookup_inv. exists s, i, ls.
  split_and!; [by eapply layer_locations_lookup|done|done].
Qed.

(** A peer layout as the routing needs it: no layer is listed twice, the rank inside a
    stage is a valid one, and there is an address for every stage and rank. *)
Record routable (p : Peer) (inner : Z) : Prop := mk_routable {
  rt_nodup : NoDup (concat (p_layers p));
  rt_inner : 0 <= inner < p_inner_world_size p;
  rt_addrs : zlen (p_layers p) * p_inner_world_size p <= zlen (p_addrs p)
}.

Lemma locate_total p inner n x :
  routable p inner -> concat (p_layers p) !! n = Some x ->
  exists s i ls alias, locate p (layer_locations (p_layers p)) inner x = Ok (alias, Z.of_nat s, Z.of_nat i) /\
    p_layers p !! s = Some ls /\ ls !! i = Some x /\
    p_addrs p !! Z.to_nat (Z.of_nat s * p_inner_world_size p + inner) = Some alias.
Proof.
  intros [Hn Hi Ha] Hx. destruct (layer_locations_total _ _ _ Hn Hx) as (s & i & ls & Hl & Hs & Hls).
  pose proof (lookup_lt_Some _ _ _ Hs) as Hlt.
  set (rank := Z.of_nat s * p_inner_world_size p + inner).
  assert (Z.of_nat s + 1 <= zlen (p_layers p)) as Hs1 by (zlen_lia).
  assert (0 <= rank < zlen (p_addrs p)) as Hr by (unfold rank; nia).
  destruct (lookup_lt_is_Some_2 (p_addrs p) (Z.to_nat rank)) as [alias Hal].
  { unfold zlen in Hr. lia. }
  exists s, i, ls, alias. split_and!; [|done|done|done].
  unfold locate. rewrite Hl. simpl. fold rank.
  rewrite <- (Z2Nat.id rank) at 1 by lia. by rewrite py_getitem_nat, Hal.
Qed.

Lemma mapM_r_total {A B} (f : A -> result B) l :
  Forall (fun x => is_ok (f x) = true) l -> is_ok (mapM_r f l) = true.
Proof.
  induction 1 as [|x l Hx Hl IH]; [done|]. simpl. destruct (f x); [|done]. by destruct (mapM_r f l).
Qed.

(** What it means that an assignment reads plane [kv] of local layer [n] from the stage
    that lists the layer in this position. *)
Definition routes_to (p : Peer) (inner rb sb : Z) (kv : Z) (n : nat) (x : string * string * KvAssign) : Prop :=
  exists layer s i ls alias,
    concat (p_layers p) !! n = Some layer /\
    p_layers p !! s = Some ls /\ ls !! i = Some layer /\
    p_addrs p !! Z.to_nat (Z.of_nat s * p_inner_world_size p + inner) = Some alias /\
    x = (p_engine p, alias, mk_kv kv (Z.of_nat n) (Z.of_nat i) (zlen ls) rb sb).

(** The reads of one plane. *)
Lemma kv_plane_assigns p inner rb sb kv :
  routable p inner ->
  exists l,
    mapM_r (fun '(local_layer_idx, layer) =>
              loc ← locate p (layer_locations (p_layers p)) inner layer;
              let '(alias, stage, idx) := loc in
              stage_layers ← (p_layers p).[stage]%py;
              Ok (p_engine p, alias, mk_kv kv local_layer_idx idx (zlen stage_layers) rb sb))
      (enumerate (concat (p_layers p))) = Ok l /\
    length l = length (concat (p_layers p)) /\
    forall n x, l !! n = Some x -> routes_to p inner rb sb kv n x.
Proof.
  intros Hr. set (f := fun '(local_layer_idx, layer) => _).
  assert (forall n layer, concat (p_layers p) !! n = Some layer ->
            exists x, f (Z.of_nat n, layer) = Ok x /\ routes_to p inner rb sb kv n x) as Hf.
  { intros n layer Hn. destruct (locate_total _ _ _ _ Hr Hn) as (s & i & ls & alias & Hl & Hs & Hi & Ha).
    eexists. split; [|by exists layer, s, i, ls, alias].
    unfold f. rewrite Hl. simpl. by rewrite py_getitem_nat, Hs. }
  destruct (mapM_r f (enumerate (concat (p_layers p)))) as [l|e] eqn:E.
  - exists l. split; [done|]. apply mapM_r_Ok in E. pose proof (Forall2_length _ _ _ E) as Hlen.
    unfold enumerate in Hlen. rewrite length_imap in Hlen. split; [done|].
    intros n x Hn. destruct (Forall2_lookup_r _ _ _ _ _ E Hn) as (y & Hy & Hfy).
    rewrite lookup_enumerate in Hy. destruct (concat (p_layers p) !! n) as [layer|] eqn:El; [|done].
    simpl in Hy. injection Hy as <-. destruct (Hf _ _ El) as (x' & Hx' & ?). by assert (x = x') as -> by congruence.
  - exfalso. assert (is_ok (mapM_r f (enumerate (concat (p_layers p)))) = true) as Ht.
    { apply mapM_r_total, Forall_forall. intros [i layer] (Hi & Hn)%elem_of_enumerate.
      destruct (Hf _ _ Hn) as (x & Hx & _). rewrite Z2Nat.id in Hx by done. by rewrite Hx. }
    by rewrite E in Ht.
Qed.

Lemma check_pp_layout_Ok local info pp total L ranges layers :
  check_pp_layout local info pp total L ranges layers = Ok tt ->
  zlen layers = pp /\ NoDup (concat layers) /\
  zlen (concat layers) = num_hidden_layers (cfg (context local)) /\
  forall s ls, layers !! s = Some ls ->
    exists r, ranges !! s = Some r /\
      stage_layers_ok pp L (seqZ L (default 0 (ei_mtp_num_kv_layers info))) (Z.of_nat s) r ls = true.
Proof.
  unfold check_pp_layout. repeat (case_decide; [done|]).
  destruct (negb (sortedZ (concat layers))); [done|]. case_decide; [done|]. intros Hc.
  split_and!; [lia|by destruct (decide (NoDup (concat layers)))|lia|].
  intros s ls Hs. by apply (check_stages_lookup _ _ _ _ _ _ _ _ Hc).
Qed.

Section fetch.
Context (ids : gset string) (cache : InfoCache).

Definition cached_part : gmap string EngineInfo :=
  match cache with Some cached => filter (fun '(id, _) => id ∈ ids) cached | None => ∅ end.

Definition missing_part : gset string :=
  match cache with Some cached => ids ∖ dom cached | None => ids end.

Lemma cached_part_lookup id :
  cached_part !! id = if decide (id ∈ ids) then default ∅ cache !! id else None.
Proof.
  unfold cached_part. destruct cache as [cached|]; simpl; [|rewrite lookup_empty; by case_decide].
  rewrite map_lookup_filter. destruct (cached !! id); simpl; [|by case_decide].
  case_decide; [by rewrite option_guard_True|by rewrite option_guard_False].
Qed.

Lemma elem_of_missing id : id ∈ missing_part <-> id ∈ ids /\ default ∅ cache !! id = None.
Proof.
  unfold missing_part. destruct cache as [cached|]; simpl.
  - by rewrite elem_of_difference, not_elem_of_dom.
  - rewrite lookup_empty. tauto.
Qed.

Context (ctrl : bool) (post : string -> option EngineInfo).

Definition fetched_part : gmap string EngineInfo :=
  map_imap (fun id _ => post id) (gset_to_gmap tt missing_part).

Lemma fetched_part_lookup id :
  fetched_part !! id = if decide (id ∈ ids /\ default ∅ cache !! id = None) then post id else None.
Proof.
  unfold fetched_part. rewrite map_lookup_imap, lookup_gset_to_gmap.
  pose proof (elem_of_missing id). case_decide.
  - rewrite option_guard_True by tauto. done.
  - rewrite option_guard_False by tauto. done.
Qed.

(** What a fetch returns, and what it leaves in the cache. *)
Lemma fetch_found id :
  (fetch_engine_info ctrl post ids cache).1 !! id =
  if decide (id ∈ ids)
  then match default ∅ cache !! id with
       | Some i => Some i
       | None => if ctrl then post id else None
       end
  else None.
Proof.
  unfold fetch_engine_info. fold cached_part missing_part fetched_part.
  destruct (decide (ids = ∅)) as [->|]; [simpl; by rewrite lookup_empty|].
  destruct (decide (missing_part = ∅)) as [Hm|Hm].
  - simpl. rewrite cached_part_lookup. case_decide as Hid; [|done].
    destruct (default ∅ cache !! id) eqn:E; [done|].
    assert (id ∈ missing_part) as Hin by (by apply elem_of_missing). rewrite Hm in Hin. set_solver.
  - destruct ctrl; simpl.
    + rewrite lookup_union, fetched_part_lookup, cached_part_lookup.
      repeat case_decide; destruct (default ∅ cache !! id) eqn:E; destruct (post id); naive_solver.
    + rewrite cached_part_lookup. case_decide; [|done]. by destruct (default ∅ cache !! id).
Qed.

Lemma fetch_cached id i :
  (fetch_engine_info ctrl post ids cache).1 !! id = Some i ->
  default ∅ (fetch_engine_info ctrl post ids cache).2 !! id = Some i.
Proof.
  unfold fetch_engine_info. fold cached_part missing_part fetched_part.
  destruct (decide (ids = ∅)) as [->|]; [simpl; by rewrite lookup_empty|].
  assert (cached_part !! id = Some i -> default ∅ cache !! id = Some i) as Hc.
  { rewrite cached_part_lookup. by case_decide. }
  destruct (decide (missing_part = ∅)); [done|]. destruct ctrl; simpl; [|done].
  rewrite lookup_union_Some_raw. destruct (decide (fetched_part = ∅)) as [->|].
  - rewrite lookup_empty. intros [?|[_ ?]]; auto. done.
  - simpl. rewrite lookup_union_Some_raw. intros [?|[? ?]]; auto.
Qed.
End fetch.

(** Looking up engines that are all cached. *)
Lemma fetch_hit ctrl post ids (found : gmap string EngineInfo) (cache : InfoCache) :
  (forall id i, found !! id = Some i -> default ∅ cache !! id = Some i) -> ids ⊆ dom found ->
  fetch_engine_info ctrl post ids cache = (filter (fun '(id, _) => id ∈ ids) found, cache).
Proof.
  intros Hc Hsub. unfold fetch_engine_info. fold (cached_part ids cache) (missing_part ids cache).
  destruct (decide (ids = ∅)) as [->|Hne].
  { f_equal. apply map_eq. intros id. rewrite lookup_empty, map_lookup_filter.
    destruct (found !! id); simpl; [by rewrite option_guard_False by set_solver|done]. }
  assert (forall id, id ∈ ids -> exists i, found !! id = Some i) as Hin.
  { intros id Hid%Hsub. by apply elem_of_dom in Hid. }
  assert (missing_part ids cache = ∅) as Hm.
  { apply set_eq. intros id. rewrite elem_of_missing. split; [|set_solver].
    intros [Hid Hn]. destruct (Hin _ Hid) as [i Hi]. by rewrite (Hc _ _ Hi) in Hn. }
  destruct (decide (missing_part ids cache = ∅)) as [_|?]; [|done].
  f_equal. apply map_eq. intros id. rewrite cached_part_lookup, map_lookup_filter.
  case_decide as Hid.
  - destruct (Hin _ Hid) as [i Hi]. rewrite (Hc _ _ Hi), Hi. simpl. by rewrite option_guard_True.
  - destruct (found !! id); simpl; [by rewrite option_guard_False|done].
Qed.

(** Sizes registered under other names do not affect a region. *)
Lemma add_ratio_sizes_other prefix bufs sizes name :
  (forall ratio, ratio_name prefix ratio <> name) -> add_ratio_sizes prefix bufs sizes !! name = sizes !! name.
Proof.
  intros Hne. unfold add_ratio_sizes. revert bufs.
  refine (map_fold_weak_ind (fun (m : gmap string Z) (_ : gmap Z Tensor) => m !! name = sizes !! name) _ _ eq_refl _).
  intros ratio t bufs m _ IH. by rewrite lookup_insert_ne.
Qed.

Lemma add_size_other name t bytes sizes name' :
  name <> name' -> add_size name t bytes sizes !! name' = sizes !! name'.
Proof. intros. destruct t; simpl; [by rewrite lookup_insert_ne|done]. Qed.

(** The sizes a registration records for the tensors whose region name is fixed. *)
Lemma registered_sizes mode_arg hs c r regs kv a b :
  register_memory_regions mode_arg hs c r = Ok regs -> mode_arg <> "hybrid" ->
  kv_cache c = Some kv -> gdn_conv_states (gdn c) = Some a -> gdn_recurrent_states (gdn c) = Some b ->
  local_mr_sizes regs !! "kv_cache" = Some (tensor_storage_span_num_bytes kv) /\
  local_mr_sizes regs !! "gdn_conv" = Some (num_bytes a) /\
  local_mr_sizes regs !! "gdn_recurrent" = Some (num_bytes b).
Proof.
  unfold register_memory_regions. intros H Hm Hkv Ha Hb. rewrite decide_False, Hkv, Ha, Hb in H by done.
  simpl in H. injection H as <-. simpl.
  rewrite !add_ratio_sizes_other by (intros ratio; unfold ratio_name; discriminate).
  rewrite !(add_size_other "indexer_cache") by done.
  split_and!.
  - rewrite !lookup_insert_ne by done. rewrite !add_size_other by done. by rewrite lookup_insert_eq.
  - rewrite lookup_insert_ne by done. by rewrite lookup_insert_eq.
  - by rewrite lookup_insert_eq.
Qed.

(** A slot of a contiguous pool lies in the pool. *)
Lemma pool_slot_bounds L S (row : list Z) sz layer slot :
  Forall (fun n => 0 < n) row -> 0 < sz -> 0 <= layer < L -> 0 <= slot < S ->
  let t := torch_empty (L :: S :: row) sz in
  stride t 1 <> 0 /\
  0 <= (layer * stride t 0 + slot * stride t 1) * element_size t /\
  (layer * stride t 0 + slot * stride t 1) * element_size t + stride t 1 * element_size t <= num_bytes t.
Proof.
  intros Hrow Hsz HL HS. unfold stride, num_bytes, numel. simpl.
  assert (0 < foldr Z.mul 1 row) as Hp by (induction Hrow; simpl; lia).
  assert (0 <= layer * S + slot < L * S) as Hn by nia.
  assert (0 < foldr Z.mul 1 row * sz) as Hp' by nia. split; [lia|].
  replace ((layer * (S * foldr Z.mul 1 row) + slot * foldr Z.mul 1 row) * sz)
    with ((layer * S + slot) * (foldr Z.mul 1 row * sz)) by ring.
  replace (L * (S * foldr Z.mul 1 row) * sz) with (L * S * (foldr Z.mul 1 row * sz)) by ring.
  nia.
Qed.

(** * Properties *)

(** C1. A migration reads every plane of every cache layer of a block exactly once, from
    the pipeline stage that lists the layer, at the layer's index in that stage's tensor
    and with that tensor's layer count, and stores it in the layer's local position. *)
Theorem kv_block_assigns_complete mode p inner rb sb :
  routable p inner ->
  exists planes, kv_block_assigns mode p inner rb sb = Ok (concat planes) /\
    zlen planes = cache_planes mode /\
    forall kv l, planes !! kv = Some l ->
      length l = length (concat (p_layers p)) /\
      forall n x, l !! n = Some x -> routes_to p inner rb sb (Z.of_nat kv) n x.
Proof.
  intros Hr. unfold kv_block_assigns, py_range.
  set (f := fun kv_idx => mapM_r _ (enumerate (concat (p_layers p)))).
  destruct (mapM_r f (seqZ 0 (cache_planes mode))) as [ls|e] eqn:E.
  - exists ls. split; [done|]. apply mapM_r_Ok in E. pose proof (Forall2_length _ _ _ E) as Hlen.
    rewrite length_seqZ in Hlen.
    split; [unfold zlen, cache_planes in *; case_decide; lia|].
    intros kv l Hl. destruct (Forall2_lookup_r _ _ _ _ _ E Hl) as (y & Hy & Hfy).
    apply lookup_seqZ in Hy as [-> _]. rewrite Z.add_0_l in Hfy.
    destruct (kv_plane_assigns p inner rb sb (Z.of_nat kv) Hr) as (l' & Hl' & ?).
    unfold f in Hfy. rewrite Hl' in Hfy. by injection Hfy as <-.
  - exfalso. assert (is_ok (mapM_r f (seqZ 0 (cache_planes mode))) = true) as Ht.
    { apply mapM_r_total, Forall_forall. intros kv _.
      destruct (kv_plane_assigns p inner rb sb kv Hr) as (l' & Hl' & _). unfold f. by rewrite Hl'. }
    by rewrite E in Ht.
Qed.

Definition two_stage_peer : Peer :=
  mk_peer "p0" ["a"; "b"; "c"; "d"] 2 [(0, 3); (3, 5)] [[0; 2]; [3; 4]] 1 2 2.

Lemma kv_block_assigns_complete_witness :
  exists planes, kv_block_assigns "gqa" two_stage_peer 1 7 9 = Ok (concat planes) /\
    zlen planes = 2 /\
    forall kv l, planes !! kv = Some l ->
      length l = 4%nat /\
      forall n x, l !! n = Some x -> routes_to two_stage_peer 1 7 9 (Z.of_nat kv) n x.
Proof.
  apply (kv_block_assigns_complete "gqa" two_stage_peer 1 7 9).
  split; [|simpl; lia|vm_compute; congruence]. apply (bool_decide_unpack _). vm_compute. exact I.
Defined.

(** Metadata of a pipeline-parallel prefill engine that the decode engine accepts is a
    routable layout: the stage ranges tile the model's layers, no layer has two cache
    slots, there are as many slots as the local cache has layers, a layer's slot lies on
    the stage whose range owns the layer, and predictor slots lie on the last stage. *)
Theorem recorded_pp_layout_consistent local v info t reqs t' :
  record_engine local v info t = (Ok reqs, t') -> default 1 (ei_pp info) > 1 ->
  let L := z_or (default 0 (ei_num_hidden_layers info)) (num_hidden_layers (cfg (context local))) in
  exists ranges layers,
    remote_pp_layer_ranges t' !! migrate_engine_id v = Some ranges /\
    remote_pp_cache_layer_indices t' !! migrate_engine_id v = Some layers /\
    zlen ranges = default 1 (ei_pp info) /\ zlen layers = default 1 (ei_pp info) /\
    tiles 0 L ranges /\ NoDup (concat layers) /\
    zlen (concat layers) = num_hidden_layers (cfg (context local)) /\
    forall s ls x, layers !! s = Some ls -> x ∈ ls ->
      (0 <= x < L -> pp_stage_of_layer x ranges = Ok (Z.of_nat s)) /\
      (L <= x -> Z.of_nat s = default 1 (ei_pp info) - 1).
Proof.
  intros H Hpp. cbv zeta. unfold record_engine in H. run_inv.
  rewrite decide_True in * by done. run_inv.
  match goal with H : negb _ = false |- _ => apply negb_false_iff, ranges_ok_tiles in H as (Hl & Ht & Hlt) end.
  eexists _, _. simpl. rewrite !lookup_insert_eq. split; [done|]. split; [done|].
  match goal with H : check_pp_layout _ _ _ _ _ _ _ = Ok ?u |- _ =>
    destruct u; apply check_pp_layout_Ok in H as (Hn & Hnd & Hlen & Hc) end.
  split_and!; [done..|]. intros s ls layer Hs Hx.
  destruct (Hc _ _ Hs) as (r & Hr & [Hin Hout]%stage_layers_ok_spec). split.
  - intros HL. specialize (Hin _ Hx (proj2 HL)).
    destruct (tiles_stage_total _ _ _ _ Ht HL) as (st & s' & e' & Hst & Hb & Hl' & Hse).
    rewrite Hst. f_equal. enough (s = Z.to_nat st) by lia. by eapply tiles_disjoint.
  - intros HL. by apply Hout in HL as [? _].
Qed.

(** A decode engine with four cache layers (a five-layer model, one layer without cache). *)
Definition decode_context : CacheContext :=
  mk_ctx (mk_cfg 64 4 2 2 "gqa" 0 0 false false 0 false None 8 0)
    4 128 None 100 0 "cuda" None None None (mk_gdn None None 0 0) None empty_csa 0 None.
Definition decode_engine : LocalEngine := mk_local decode_context (Some "Qwen3ForCausalLM") 0 1 1.
Definition prefill_info : EngineInfo :=
  mk_info (Some "Qwen3ForCausalLM") (Some 64) (Some 1) (Some 8) None None (Some 2) (Some 1)
    (Some 2) (Some 5) None [(0, 3); (3, 5)] [[0; 2]; [3; 4]] ∅ (Some 2) ∅ None ∅ ["a"; "b"; "c"; "d"].
Definition prefill_view : View := mk_view "p0" 1 0 50 [(0, 7); (0, 8)] [(0, 1); (0, 2)] [] ∅ (-1) (-1).

Lemma recorded_pp_layout_consistent_witness :
  exists ranges layers, ranges = [(0, 3); (3, 5)] /\ layers = [[0; 2]; [3; 4]] /\
    tiles 0 5 ranges /\ NoDup (concat layers).
Proof.
  destruct (record_engine decode_engine prefill_view prefill_info initialize_migration_state)
    as [[reqs|] t'] eqn:E; [|vm_compute in E; discriminate].
  destruct (recorded_pp_layout_consistent decode_engine prefill_view prefill_info
              initialize_migration_state reqs t' E ltac:(reflexivity))
    as (ranges & layers & H1 & H2 & _ & _ & Ht & Hn & _).
  exists ranges, layers.
  vm_compute in E. injection E as _ <-. vm_compute in H1, H2. injection H1 as <-. injection H2 as <-.
  split_and!; [reflexivity|reflexivity|exact Ht|exact Hn].
Defined.

(** C4. Between engines of the same model whose caches are allocated, and without a registered
    HiSparse cold cache, the operation built for a KV assignment copies the assigned block and
    nothing else: the bytes of its local side are exactly those of the block's sub-tensor in the
    local cache, the bytes of its remote side exactly those of the block's sub-tensor in the
    peer's cache, both inside the registered spans, and it is never skipped. *)
Theorem kv_op_copies_block local regions t engine r k h a :
  has_hisparse_cold_mr regions = false ->
  allocated (context local) k h -> allocated r k h ->
  peer_of (context local) r (peers t) engine (a_remote_num_layers a) ->
  block_coord (context local) k (a_kv_idx a) (a_local_layer_idx a) (a_source_block_idx a) ->
  block_coord r k (a_kv_idx a) (a_remote_layer_idx a) (a_remote_block_idx a) ->
  exists op tl tr, kv_op local regions t engine a = Ok (Some op) /\
    (local_name op, remote_name op) = ("kv_cache", "kv_cache") /\
    kv_cache (context local) = Some tl /\ kv_cache r = Some tr /\
    holds_subtensor tl (block_index k (a_kv_idx a) (a_local_layer_idx a) (a_source_block_idx a)) (local_off op) (op_length op) /\
    holds_subtensor tr (block_index k (a_kv_idx a) (a_remote_layer_idx a) (a_remote_block_idx a)) (remote_off op) (op_length op) /\
    local_off op + op_length op <= tensor_storage_span_num_bytes tl /\
    remote_off op + op_length op <= tensor_storage_span_num_bytes tr.
Proof.
  intros Hcold Hal Har Hp Hl Hr. set (c := context local) in *.
  destruct (local_kv_stride_eq _ _ _ _ _ _ Hal Hl) as [Es El].
  destruct (local_kv_stride_eq _ _ _ _ _ _ Har Hr) as [Er El'].
  assert (block_payload r k h = block_payload c k h) as Epay.
  { destruct Hp as [(Eb & Ed & _ & E8 & Eraw) _ [Ehd Ef] _ _ _ _ _ _ _ _].
    unfold block_payload, block_pitch. rewrite Eb, Ed, E8, Eraw, Ehd, Ef. done. }
  pose proof (block_span _ _ _ _ _ _ Hal Hl). pose proof (block_span _ _ _ _ _ _ Har Hr).
  pose proof (block_payload_bounds _ _ _ Hal).
  unfold kv_op. rewrite Hcold. fold c. rewrite Es. simpl. unfold remote_kv_stride.
  rewrite (remote_layout_eq _ _ _ _ _ Hp). unfold local_kv_stride in Er. rewrite Er. simpl.
  rewrite El. simpl. rewrite decide_False by lia.
  eexists _, (primary_layout k c h), (primary_layout k r h). split; [done|]. simpl.
  split_and!; [done|by apply al_cache|by apply al_cache|by apply primary_layout_block|rewrite <- Epay; by apply primary_layout_block|lia|lia].
Qed.

Lemma kv_op_copies_block_witness :
  exists op tl tr,
    kv_op (mk_local (mla_stage 61 10) None 0 0 1) (mk_regions true false ∅ ∅ ∅ ∅ ∅)
      (put_sizes "p0" 20 8 0 initialize_migration_state) "p0" (mk_kv 0 40 9 30 19 3) = Ok (Some op) /\
    (local_name op, remote_name op) = ("kv_cache", "kv_cache") /\
    kv_cache (mla_stage 61 10) = Some tl /\ kv_cache (mla_stage 30 20) = Some tr /\
    holds_subtensor tl [0; 40; 3] (local_off op) (op_length op) /\
    holds_subtensor tr [0; 9; 19] (remote_off op) (op_length op) /\
    local_off op + op_length op <= tensor_storage_span_num_bytes tl /\
    remote_off op + op_length op <= tensor_storage_span_num_bytes tr.
Proof.
  apply (kv_op_copies_block (mk_local (mla_stage 61 10) None 0 0 1) (mk_regions true false ∅ ∅ ∅ ∅ ∅)
           (put_sizes "p0" 20 8 0 initialize_migration_state) "p0" (mla_stage 30 20) MLA 1
           (mk_kv 0 40 9 30 19 3)).
  - reflexivity.
  - apply mla_stage_ok; lia.
  - apply mla_stage_ok; lia.
  - split; try (vm_compute; tauto); constructor.
  - split; simpl; lia.
  - split; simpl; lia.
Defined.

(** Nothing is submitted to a transport unchecked: each prepared batch goes to a
    connected peer with an endpoint, and, except over NVLink, each of its operations
    lies inside a registered local region and inside the peer's registered region. *)
Theorem prepared_reads_in_bounds local regions agent t a order reads :
  prepare_reads local regions agent t a order = Ok reads ->
  Forall (fun '(peer, ops) =>
            is_connected agent peer = true /\
            exists tr, transport agent peer = Some tr /\
              (tr <> "nvlink" ->
               Forall (in_bounds (get_mr_info agent peer) (local_mr_sizes regions)) ops)) reads.
Proof.
  unfold prepare_reads. intros H%mapM_r_Ok. induction H as [|[engine peer] y order reads Hx _ IH]; [done|].
  constructor; [|done]. run_inv. unfold prepare_read in *.
  destruct (is_connected agent peer) eqn:Hc; [|done]. simpl in *. run_inv.
  destruct (decide (_ = [])); [done|]. run_inv. split; [done|]. eexists. split; [done|]. intros Hnv.
  rewrite bool_decide_eq_false_2 in * by done.
  match goal with H : validate_named_region_ops _ _ _ = Ok ?u |- _ => destruct u; by apply validate_loop_Ok in H end.
Qed.

Definition example_agent : PeerAgent :=
  mk_agent (fun a => bool_decide (a = "a")) (fun _ => Some "rdma") (fun _ _ => Some 1000000000).

Lemma prepared_reads_in_bounds_witness :
  exists ops,
    prepare_reads (mk_local (mla_stage 61 10) None 0 0 1)
      (mk_regions true false ∅ ∅ ∅ ∅ {["kv_cache" := 61 * 10 * 65 * 656]}) example_agent
      (put_sizes "p0" 20 8 0 initialize_migration_state)
      (mk_assigns [("p0", "a", mk_kv 0 40 9 30 19 3)] [] [] [] [] []) [("p0", "a")] = Ok [("a", ops)] /\
    Forall (in_bounds (fun _ => Some 1000000000) {["kv_cache" := 61 * 10 * 65 * 656]}) ops.
Proof.
  destruct (prepare_reads _ _ _ _ _ _) as [reads|] eqn:E in |- *; [|vm_compute in E; discriminate].
  pose proof (prepared_reads_in_bounds _ _ _ _ _ _ _ E) as H.
  vm_compute in E. injection E as <-. eexists. split; [reflexivity|].
  apply Forall_cons in H as [(_ & tr & Htr & Hb) _]. apply Hb.
  vm_compute in Htr. injection Htr as <-. discriminate.
Defined.

(** Recurrent state of a layer is read from the stage owning the layer, at an index
    inside that stage's layers; without pipeline parallelism, from the same index. *)
Theorem gdn_location_in_stage p L layer :
  tiles 0 L (p_stage_ranges p) -> 0 <= layer < L ->
  exists stage idx, gdn_location p layer = Ok (stage, idx) /\
    if decide (p_pp p > 1)
    then exists s e, p_stage_ranges p !! Z.to_nat stage = Some (s, e) /\ 0 <= idx < e - s /\ s + idx = layer
    else stage = 0 /\ idx = layer.
Proof.
  intros Ht HL. unfold gdn_location. destruct (decide (p_pp p > 1)); [|by eexists _, _].
  destruct (tiles_stage_total _ _ _ _ Ht HL) as (st & s & e & Hst & Hb & Hl & Hse).
  rewrite Hst. simpl. exists st, (layer - s).
  rewrite <- (Z2Nat.id st) at 1 by lia. rewrite py_getitem_nat, Hl. simpl.
  split; [done|]. exists s, e. split_and!; [done|lia..].
Qed.

Lemma gdn_location_in_stage_witness :
  exists stage idx, gdn_location two_stage_peer 4 = Ok (stage, idx) /\
    exists s e, [(0, 3); (3, 5)] !! Z.to_nat stage = Some (s, e) /\ 0 <= idx < e - s /\ s + idx = 4.
Proof.
  apply (gdn_location_in_stage two_stage_peer 5 4); [|lia].
  repeat (constructor; [lia|]). constructor.
Defined.

(** Engine metadata is fetched at most once: a lookup returns, for each requested
    engine, the cached metadata or, failing that, what the controller returned, and
    whatever it returned is kept, so a later lookup of those engines returns the same
    without asking the controller. *)
Theorem engine_info_fetched_once ctrl post ids cache :
  let '(found, cache') := fetch_engine_info ctrl post ids cache in
  (forall id, found !! id =
     if decide (id ∈ ids)
     then match default ∅ cache !! id with
          | Some i => Some i
          | None => if ctrl then post id else None
          end
     else None) /\
  (forall ids' post', ids' ⊆ dom found ->
     fetch_engine_info ctrl post' ids' cache' = (filter (fun '(id, _) => id ∈ ids') found, cache')).
Proof.
  destruct (fetch_engine_info ctrl post ids cache) as [found cache'] eqn:E.
  pose proof (fetch_found ids cache ctrl post) as Hf.
  pose proof (fetch_cached ids cache ctrl post) as Hc. rewrite E in Hf, Hc. simpl in Hf, Hc.
  split; [done|]. intros ids' post' Hsub. by apply fetch_hit.
Qed.

(** The regions an engine registers cover what the transfer layer addresses: the KV
    region has the storage span of the cache tensor, and every (layer, slot) payload of
    the two GDN pools lies inside its region. *)
Theorem registered_regions_cover mode_arg hs c r regs lay kv L S crow csz rrow rsz slots active layer slot :
  register_memory_regions mode_arg hs c r = Ok regs -> mode_arg <> "hybrid" ->
  from_cache_context c = Ok lay -> kv_cache c = Some kv ->
  gdn c = mk_gdn (Some (torch_empty (L :: S :: crow) csz)) (Some (torch_empty (L :: S :: rrow) rsz))
            slots active ->
  Forall (fun n => 0 < n) crow -> Forall (fun n => 0 < n) rrow -> 0 < csz -> 0 < rsz ->
  0 <= layer < L -> 0 <= slot < S ->
  local_mr_sizes regs !! "kv_cache" = Some (tensor_storage_span_num_bytes kv) /\
  (exists n, local_mr_sizes regs !! "gdn_conv" = Some n /\ 0 <= gdn_conv_stride lay layer slot /\
     gdn_conv_stride lay layer slot + gdn_conv_slot_num_bytes lay <= n) /\
  (exists n, local_mr_sizes regs !! "gdn_recurrent" = Some n /\ 0 <= gdn_recurrent_stride lay layer slot /\
     gdn_recurrent_stride lay layer slot + gdn_recurrent_slot_num_bytes lay <= n).
Proof.
  intros Hreg Hm Hlay Hkv Hg Hc Hr Hcs Hrs HL HS.
  destruct (registered_sizes _ _ _ _ _ _ _ _ Hreg Hm Hkv ltac:(by rewrite Hg) ltac:(by rewrite Hg)) as (H1 & H2 & H3).
  unfold from_cache_context in Hlay. rewrite Hg in Hlay. run_inv. simpl in Hlay. run_inv.
  destruct (pool_slot_bounds _ _ _ _ _ _ Hc Hcs HL HS) as (N1 & P1 & Q1).
  destruct (pool_slot_bounds _ _ _ _ _ _ Hr Hrs HL HS) as (N2 & P2 & Q2).
  split; [done|].
  unfold gdn_conv_stride, gdn_conv_slot_num_bytes, gdn_recurrent_stride, gdn_recurrent_slot_num_bytes.
  unfold stride in *. simpl in *. rewrite (decide_False _ _ N1), (decide_False _ _ N2). split; eauto.
Qed.

Lemma registered_regions_cover_witness :
  exists regs lay n, register_memory_regions "decode" false (gdn_peer 9) no_regions = Ok regs /\
    from_cache_context (gdn_peer 9) = Ok lay /\ local_mr_sizes regs !! "gdn_conv" = Some n /\
    gdn_conv_stride lay 3 8 + gdn_conv_slot_num_bytes lay <= n.
Proof.
  destruct (register_memory_regions "decode" false (gdn_peer 9) no_regions) as [regs|] eqn:E;
    [|vm_compute in E; discriminate].
  destruct (from_cache_context (gdn_peer 9)) as [lay|] eqn:El; [|vm_compute in El; discriminate].
  destruct (registered_regions_cover "decode" false (gdn_peer 9) no_regions regs lay
              (primary_layout MLA (mla_stage 61 10) 1) 4 9 [96; 4] 2 [8; 16; 16] 4 9 0 3 8 E
              ltac:(discriminate) El eq_refl eq_refl ltac:(repeat constructor) ltac:(repeat constructor)
              ltac:(lia) ltac:(lia) ltac:(lia) ltac:(lia)) as (_ & (n & Hn & _ & Hp) & _).
  exists regs, lay, n. auto.
Defined.
