(* ===== verification/Registration.v ===== *)
(** What an engine publishes about itself
    ([dlengine/engine/llm_component.py]: [_pp_layer_ranges], [_mtp_num_kv_layers],
    [_pp_cache_layer_indices], [_pp_dsv4_ratio_layer_indices], [get_engine_info] and the
    metadata of [_register_with_nanoctrl]), and what a decode engine makes of it
    ([Migration.record_engine]). *)

From S2P Require Import Prelude HfConfig PipelineParallel Cache CacheLayout Migration.

Open Scope Z_scope.

(** The engine configuration as far as it is published. *)
Record EngineConfig := mk_engine_config {
  ec_hf : HfConfig;
  ec_pp : Z;
  ec_attention_dp : Z;
  ec_attention_sp : Z;
  ec_attention_tp : Z;
  ec_max_num_seqs : Z;
  ec_max_model_len : Z;
  ec_num_kvcache_blocks : Z;
  ec_kvcache_block_size : Z;
  ec_num_speculative_tokens : Z;
  ec_gdn_state_cache_slots : Z;
  ec_enable_hisparse : bool;
  ec_dsv4_pages_ratio4 : Z;
  ec_dsv4_pages_ratio128 : Z
}.

(** [_pp_layer_ranges] *)
Definition pp_layer_ranges (c : EngineConfig) : result (list (Z * Z)) :=
  let n := default 0 (HfConfig.num_hidden_layers (ec_hf c)) in
  f ← (if decide (ec_pp c > 1 /\ arch (ec_hf c) ∈ gemma4_archs)
       then get_gemma4_shared_kv_source_start (ec_hf c) else Ok None);
  pp_layer_partition n (ec_pp c) f.

Definition mtp_archs : list string :=
  ["DeepseekV3ForCausalLM"; "DeepseekV32ForCausalLM"; "GlmMoeDsaForCausalLM"].

(** [_mtp_num_kv_layers] *)
Definition mtp_num_kv_layers (c : EngineConfig) : Z :=
  if decide (ec_num_speculative_tokens c <= 0) then 0
  else if decide (arch (ec_hf c) ∈ mtp_archs) then
    Z.max 1 (Z.max (int_or (num_nextn_predict_layers (ec_hf c)) 0) (int_or (mtp_num_hidden_layers (ec_hf c)) 0))
  else 0.

(** [l\[-1\].extend(xs)] *)
Definition extend_last (xs : list Z) (l : list (list Z)) : result (list (list Z)) :=
  match last l with
  | Some ys => Ok (removelast l ++ [ys ++ xs])
  | None => Err IndexError
  end.

(** [_pp_cache_layer_indices] *)
Definition pp_cache_layer_indices (c : EngineConfig) : result (list (list Z)) :=
  ranges ← pp_layer_ranges c;
  target ← cache_layer_indices (ec_hf c) (ec_enable_hisparse c);
  layers ← partition_layer_indices target ranges;
  let m := mtp_num_kv_layers c in
  if decide (m = 0) then Ok layers else extend_last (seqZ (zlen target) m) layers.

(** [_pp_dsv4_ratio_layer_indices] *)
Definition pp_dsv4_ratio_layer_indices (c : EngineConfig) : result (gmap Z (list (list Z))) :=
  ranges ← pp_layer_ranges c;
  let ratios := list_attr (compress_ratios (ec_hf c)) in
  foldM_r (fun d ratio => layers ← partition_layer_indices (layers_of_ratio ratios ratio) ranges; Ok (<[ratio := layers]> d))
    ∅ (unique_ratios ratios).

(** [num_local_kv_heads] of both. *)
Definition published_kv_heads (c : EngineConfig) : result Z :=
  (default 1 (num_key_value_heads (ec_hf c)) // ec_attention_tp c)%py.

(** [gdn_num_slots] of the registration. *)
Definition published_gdn_num_slots (c : EngineConfig) : Z :=
  let max_bs := ec_max_num_seqs c + Z.max 0 (ec_gdn_state_cache_slots c) in
  if decide (ec_num_speculative_tokens c > 0) then max_bs * 2 + 1 else max_bs + 1.

(** [mtp_handoff_num_drafts] *)
Definition published_num_drafts (c : EngineConfig) : Z :=
  if decide (ec_num_speculative_tokens c > 1) then ec_num_speculative_tokens c else 0.

(** The metadata of [_register_with_nanoctrl] that peers read. *)
Definition registered_metadata (c : EngineConfig) (peer_addrs : list string) : result EngineInfo :=
  ranges ← pp_layer_ranges c;
  layers ← pp_cache_layer_indices c;
  ratio_layers ← pp_dsv4_ratio_layer_indices c;
  heads ← published_kv_heads c;
  Ok (Migration.mk_info (Some (arch (ec_hf c))) (Some (ec_kvcache_block_size c)) (Some (ec_attention_sp c))
        (Some (ec_max_num_seqs c)) (Some (published_gdn_num_slots c)) (Some (published_num_drafts c))
        (Some (ec_attention_tp c)) (Some (ec_attention_dp c)) (Some (ec_pp c))
        (Some (default 0 (HfConfig.num_hidden_layers (ec_hf c)))) (Some (mtp_num_kv_layers c))
        ranges layers ratio_layers (Some heads) ∅ None ∅ peer_addrs).

(** The override of a ratio's pool size. *)
Definition pool_override (c : EngineConfig) (ratio : Z) : Z :=
  if decide (ratio = 4) then ec_dsv4_pages_ratio4 c
  else if decide (ratio = 128) then ec_dsv4_pages_ratio128 c else 0.

Definition published_pages (c : EngineConfig) (ratio : Z) : Z :=
  let page_size := 2 in
  let max_compressed := (ec_max_model_len c / ratio + 63) / 64 * 64 in
  let max_blocks := (max_compressed + page_size - 1) / page_size in
  let worst := ec_max_num_seqs c * max_blocks in
  let override := pool_override c ratio in
  if decide (override > 0) then override else worst.

Definition published_pool_pages (c : EngineConfig) : gmap Z Z :=
  foldl (fun d ratio => <[ratio := published_pages c ratio]> d)
    ∅ (unique_ratios (list_attr (compress_ratios (ec_hf c)))).

Definition published_layers_per_ratio (c : EngineConfig) : gmap Z Z :=
  let ratios := list_attr (compress_ratios (ec_hf c)) in
  foldl (fun d ratio => <[ratio := zlen (filter (fun r => r = ratio) ratios)]> d) ∅ (unique_ratios ratios).

(** The fields of [get_engine_info] that peers could read; the DSv4 part is published only
    here.  An empty [architectures] raises. *)
Definition engine_info (c : EngineConfig) (peer_addrs : list string) : result EngineInfo :=
  ranges ← pp_layer_ranges c;
  layers ← pp_cache_layer_indices c;
  ratio_layers ← pp_dsv4_ratio_layer_indices c;
  heads ← published_kv_heads c;
  a ← of_option IndexError (head (list_attr (architectures (ec_hf c))));
  let dsv4 := bool_decide (a = "DeepseekV4ForCausalLM") in
  Ok (Migration.mk_info None None (Some (ec_attention_sp c))
        (Some (ec_max_num_seqs c)) None None
        (Some (ec_attention_tp c)) (Some (ec_attention_dp c)) (Some (ec_pp c))
        (Some (default 0 (HfConfig.num_hidden_layers (ec_hf c)))) (Some (mtp_num_kv_layers c))
        ranges layers ratio_layers (Some heads)
        (if dsv4 then published_pool_pages c else ∅)
        (if dsv4 then Some (ec_max_num_seqs c) else None)
        (if dsv4 then published_layers_per_ratio c else ∅) peer_addrs).

(** [update_num_kvcache_blocks]: the service length is clamped to the cache's capacity. *)
Definition update_num_kvcache_blocks (num_blocks : Z) (c : EngineConfig) : EngineConfig :=
  let capacity := num_blocks * ec_kvcache_block_size c in
  mk_engine_config (ec_hf c) (ec_pp c) (ec_attention_dp c) (ec_attention_sp c) (ec_attention_tp c)
    (ec_max_num_seqs c) (if decide (ec_max_model_len c > capacity) then capacity else ec_max_model_len c)
    num_blocks (ec_kvcache_block_size c) (ec_num_speculative_tokens c) (ec_gdn_state_cache_slots c)
    (ec_enable_hisparse c) (ec_dsv4_pages_ratio4 c) (ec_dsv4_pages_ratio128 c).

(** The overrides [_wire_dsv4_caches] (model_runner.py) passes to the allocation. *)
Definition wire_overrides (c : EngineConfig) : gmap Z Z :=
  let d := if decide (ec_dsv4_pages_ratio4 c > 0) then {[4 := ec_dsv4_pages_ratio4 c]} else ∅ in
  if decide (ec_dsv4_pages_ratio128 c > 0) then <[128 := ec_dsv4_pages_ratio128 c]> d else d.

(** The compressed pools a worker allocates, given the ratios of its model's attention
    layers. *)
Definition wire_dsv4_pools (c : EngineConfig) (module_ratios : list Z) (ctx : CacheContext) : CacheContext :=
  allocate_dsv4_compressed_caches module_ratios (ec_max_num_seqs c) (ec_max_model_len c)
    (Some (wire_overrides c)) ctx.

(** * Cache layers are listed in order *)

Lemma sorted_filter_lt (P : Z -> Prop) `{!forall x, Decision (P x)} l : StronglySorted Z.lt l -> StronglySorted Z.lt (filter P l).
Proof.
  induction 1 as [|x l Hs IH Hx]; [constructor|]. rewrite filter_cons. case_decide; [|done].
  constructor; [done|]. rewrite Forall_forall in *. intros y [_ Hy]%list_elem_of_filter. auto.
Qed.

Lemma seqZ_sorted n m : StronglySorted Z.lt (seqZ m n).
Proof.
  destruct (decide (n <= 0)) as [Hn|Hn]; [rewrite seqZ_nil by done; constructor|].
  revert m. pattern n. apply natlike_ind; [| |lia].
  - intros m. rewrite seqZ_nil by done. constructor.
  - intros k Hk IH m. rewrite seqZ_cons by lia. rewrite Z.pred_succ. constructor; [apply IH|].
    apply Forall_forall. intros y Hy%elem_of_seqZ. lia.
Qed.

Lemma indices_of_type_sorted kind types : StronglySorted Z.lt (indices_of_type kind types).
Proof.
  unfold indices_of_type, enumerate.
  assert (forall k, StronglySorted Z.lt (fst <$> filter (fun p : Z * string => snd p = kind) (imap (fun i x => (Z.of_nat (k + i), x)) types)) /\
    Forall (fun x => Z.of_nat k <= x) (fst <$> filter (fun p : Z * string => snd p = kind) (imap (fun i x => (Z.of_nat (k + i), x)) types))) as H.
  { induction types as [|t types IH]; intros k; [split; constructor|]. rewrite imap_cons, filter_cons. destruct (IH (S k)) as [H1 H2].
    assert (imap ((fun i x => (Z.of_nat (k + i), x)) ∘ S) types = imap (fun i x => (Z.of_nat (S k + i), x)) types) as ->.
    { apply imap_ext. intros. simpl. do 2 f_equal. lia. }
    case_decide; csimpl.
    - split; constructor; [done| |lia|].
      + eapply Forall_impl; [exact H2|]. simpl. intros. lia.
      + eapply Forall_impl; [exact H2|]. simpl. intros. lia.
    - split; [done|]. eapply Forall_impl; [exact H2|]. simpl. intros. lia. }
  apply (H 0%nat).
Qed.

Lemma cache_layer_indices_sorted hf b l : cache_layer_indices hf b = Ok l -> StronglySorted Z.lt l.
Proof.
  unfold cache_layer_indices. destruct (num_layers_of hf) as [n|]; [|done]. simpl.
  repeat case_decide; intros [= <-]; [destruct b|..]; (apply indices_of_type_sorted || apply seqZ_sorted).
Qed.

Lemma stable_sort_sorted l : StronglySorted Z.lt l -> stable_sort Z.leb l = l.
Proof.
  induction 1 as [|x l Hs IH Hx]; [done|]. change (stable_sort Z.leb (x :: l)) with (sort_insert Z.leb x (stable_sort Z.leb l)). rewrite IH.
  destruct l as [|y l]; [done|].
  simpl. apply Forall_cons in Hx as [Hxy _]. destruct (Z.leb_spec x y); [done|lia].
Qed.

Lemma sorted_nodup l : StronglySorted Z.lt l -> NoDup l.
Proof.
  induction 1 as [|x l Hs IH Hx]; constructor; [|done]. intros Hin. rewrite Forall_forall in Hx. apply Hx in Hin. lia.
Qed.

Lemma sorted_app l1 l2 :
  StronglySorted Z.lt l1 -> StronglySorted Z.lt l2 -> (forall x y, x ∈ l1 -> y ∈ l2 -> x < y) -> StronglySorted Z.lt (l1 ++ l2).
Proof.
  induction 1 as [|x l Hs IH Hx]; intros H2 Hlt; [done|]. simpl. constructor.
  - apply IH; [done|]. intros. apply Hlt; [by right|done].
  - apply Forall_app. split; [done|]. apply Forall_forall. intros y Hy. apply Hlt; [by left|done].
Qed.

(** Distributing an ordered list over tiling ranges keeps its order. *)
Lemma concat_filter_sorted a b ranges l :
  tiles a b ranges -> StronglySorted Z.lt l -> Forall (fun x => a <= x < b) l ->
  concat ((fun r => filter (fun x => fst r <= x < snd r) l) <$> ranges) = l.
Proof.
  intros Ht Hs. revert l Hs. induction Ht as [a|a b c ranges Hab Ht IH]; intros l Hs Hl.
  { destruct l as [|x l]; [done|]. apply Forall_cons in Hl as [? _]. lia. }
  csimpl. pose proof (tiles_le _ _ _ Ht) as Hbc.
  assert (forall r, r ∈ ranges -> filter (fun x => fst r <= x < snd r) l =
            filter (fun x => fst r <= x < snd r) (filter (fun x => b <= x) l)) as Hf.
  { intros [s e] Hr. pose proof (tiles_bounds _ _ _ _ _ Ht Hr) as Hb. simpl. clear -Hb.
    induction l as [|x l IHl]; [done|]. rewrite !filter_cons. destruct (decide (b <= x)).
    - rewrite filter_cons. case_decide; by rewrite IHl.
    - rewrite decide_False by lia. exact IHl. }
  assert ((fun r => filter (fun x => fst r <= x < snd r) l) <$> ranges =
          (fun r => filter (fun x => fst r <= x < snd r) (filter (fun x => b <= x) l)) <$> ranges) as ->.
  { apply list_fmap_ext. intros i r Hr. apply Hf. by apply list_elem_of_lookup_2 in Hr. }
  rewrite IH.
  - clear -Hs Hl Hab. induction Hs as [|x l Hs IHs Hx]; [done|]. apply Forall_cons in Hl as [Hx0 Hl].
    rewrite !filter_cons. destruct (decide (b <= x)) as [Hbx|Hbx].
    + rewrite decide_False by (simpl; lia).
      rewrite filter_none; [|apply Forall_forall; intros y Hy; rewrite Forall_forall in Hx; apply Hx in Hy; simpl; lia].
      simpl. f_equal. apply filter_all. eapply Forall_impl; [exact Hx|]. simpl. intros. lia.
    + rewrite decide_True by (simpl; lia). simpl. f_equal. by apply IHs.
  - by apply sorted_filter_lt.
  - apply Forall_forall. intros x [Hx Hin]%list_elem_of_filter. rewrite Forall_forall in Hl. apply Hl in Hin. lia.
Qed.

(** A partition that does not raise has all its layers in the ranges. *)
Lemma partition_layers_in l ranges res :
  partition_layer_indices l ranges = Ok res -> Forall (fun x => exists r, r ∈ ranges /\ fst r <= x < snd r) l.
Proof.
  unfold partition_layer_indices. generalize ((fun _ : Z * Z => @nil Z) <$> ranges). revert res.
  induction l as [|x l IH]; intros res acc; [constructor|]. simpl.
  destruct (pp_stage_of_layer x ranges) as [st|] eqn:Es; [|done]. simpl. intros H. constructor; [|by eapply IH].
  unfold pp_stage_of_layer in Es. apply stage_search_sound in Es. clear -Es.
  destruct Es as (s & e & _ & Hl & ?). exists (s, e). split; [by apply list_elem_of_lookup_2 in Hl|done].
Qed.

(** * The published ranges are accepted *)

Lemma split_loop_strict base r start stages : 0 < base -> Forall (fun x => fst x < snd x) (split_loop base r start stages).
Proof. intros Hb. revert start. induction stages as [|s stages IH]; intros start; constructor; [simpl; case_decide; lia|apply IH]. Qed.

Lemma pp_layer_partition_strict n p f l :
  1 <= p <= n -> pp_layer_partition n p f = Ok l -> Forall (fun x => fst x < snd x) l.
Proof.
  intros Hp. unfold pp_layer_partition. rewrite Z.max_r by lia. case_decide.
  { intros [= <-]. constructor; [simpl; lia|constructor]. }
  destruct f as [f|].
  - case_decide; [done|]. case_decide; [done|]. intros [= <-]. apply Forall_app. split.
    + apply split_loop_strict. apply Z.div_str_pos. lia.
    + constructor; [simpl; lia|constructor].
  - intros [= <-]. apply split_loop_strict. apply Z.div_str_pos. lia.
Qed.

Lemma tiles_contiguous a b l :
  tiles a b l -> Forall (fun x => fst x < snd x) l -> l <> [] ->
  (exists e, head l = Some (a, e)) /\ (exists s, last l = Some (s, b) /\ s < b) /\ contiguous l = true.
Proof.
  induction 1 as [a|a b c l Hab Ht IH]; [done|]. intros [Hlt Hl]%Forall_cons _. simpl in Hlt.
  split; [by exists b|]. destruct l as [|[s' e'] l].
  - inversion Ht; subst. split; [by exists a|done].
  - destruct IH as ((e0 & [= -> ->]) & (s & Hlast & Hs) & Hc); [done|done|].
    split; [exists s; by rewrite last_cons, Hlast|]. simpl in *.
    rewrite (proj2 (Z.ltb_lt _ _) Hlt), Z.eqb_refl. exact Hc.
Qed.

Lemma published_ranges_ok n p f l :
  1 <= p <= n -> pp_layer_partition n p f = Ok l -> ranges_ok p n l = true /\ tiles 0 n l /\ zlen l = p.
Proof.
  intros Hp Hl. pose proof (pp_layer_partition_strict _ _ _ _ Hp Hl) as Hst.
  destruct (pp_layer_partition_spec n p f l) as [Ht Hlen]; [lia|done|]. rewrite Z.max_r in Hlen by lia.
  split; [|done]. destruct (tiles_contiguous 0 n l Ht Hst) as ((e & Hh) & (s & Hla & Hs) & Hc).
  { intros ->. unfold zlen in Hlen. simpl in Hlen. lia. }
  unfold ranges_ok. rewrite Hh, Hla, Hc, Hlen, !Z.eqb_refl. simpl. by rewrite (proj2 (Z.ltb_lt _ _) Hs).
Qed.

(** ** Cache layers by stage *)

Lemma partition_as_filters a b ranges l res :
  tiles a b ranges -> partition_layer_indices l ranges = Ok res -> Forall (fun x => a <= x < b) l ->
  res = (fun r => filter (fun x => fst r <= x < snd r) l) <$> ranges.
Proof.
  intros Ht Hr Hl. destruct (partition_layer_indices_spec a b ranges l Ht Hl) as (res' & Hr' & Hlen & Hat).
  assert (res' = res) as -> by congruence. apply list_eq. intros i. rewrite list_lookup_fmap.
  destruct (ranges !! i) as [[s e]|] eqn:Hi; simpl; [by rewrite (Hat i s e)|].
  apply lookup_ge_None. rewrite Hlen. by apply lookup_ge_None.
Qed.

Lemma extend_last_Ok xs l res :
  extend_last xs l = Ok res ->
  concat res = concat l ++ xs /\ length res = length l /\
  (forall i ls, res !! i = Some ls -> exists ls0, l !! i = Some ls0 /\ (ls = ls0 \/ S i = length l /\ ls = ls0 ++ xs)).
Proof.
  unfold extend_last. destruct (last l) as [ys|] eqn:Hl; [|done]. intros [= <-].
  apply last_Some in Hl as [l' ->]. rewrite removelast_last. split_and!.
  - rewrite !concat_app. simpl. by rewrite !app_nil_r, app_assoc.
  - by rewrite !length_app.
  - intros i ls [Hi|[Hi Hls]]%lookup_app_Some.
    + exists ls. split; [|by left]. by apply lookup_app_l_Some.
    + apply list_lookup_singleton_Some in Hls as [Hz <-]. exists ys.
      rewrite lookup_app_r by done. rewrite Hz. split; [done|]. right. rewrite length_app. simpl. split; [lia|done].
Qed.

(** The cache layers an engine publishes, against the ranges it publishes. *)
Record published_layers_spec (c : EngineConfig) (n : Z) (ranges : list (Z * Z)) (layers : list (list Z)) : Prop := {
  pls_target : list Z;
  pls_sorted : StronglySorted Z.lt pls_target;
  pls_in : Forall (fun x => 0 <= x < n) pls_target;
  pls_flat : concat layers = pls_target ++ seqZ n (mtp_num_kv_layers c);
  pls_tiles : tiles 0 n ranges;
  pls_length : length layers = length ranges;
  pls_stage i ls r : layers !! i = Some ls -> ranges !! i = Some r ->
    exists own, Forall (fun x => fst r <= x < snd r) own /\
      (ls = own \/ S i = length ranges /\ ls = own ++ seqZ n (mtp_num_kv_layers c))
}.

Lemma tiles_in a b ranges x : tiles a b ranges -> (exists r, r ∈ ranges /\ fst r <= x < snd r) -> a <= x < b.
Proof. intros Ht ([s e] & Hr & Hx). pose proof (tiles_bounds _ _ _ _ _ Ht Hr). simpl in *. lia. Qed.

Lemma mtp_target c n target :
  mtp_num_kv_layers c <> 0 -> HfConfig.num_hidden_layers (ec_hf c) = Some n -> 0 <= n ->
  "linear_attention" ∉ list_attr (layer_types (ec_hf c)) ->
  cache_layer_indices (ec_hf c) (ec_enable_hisparse c) = Ok target -> zlen target = n.
Proof.
  unfold mtp_num_kv_layers. case_decide; [done|]. case_decide as Ha; [|done]. intros _ Hn Hpos Hlin.
  unfold cache_layer_indices, num_layers_of. rewrite Hn. simpl.
  rewrite decide_False; [rewrite decide_False by done|].
  2:{ intros Hg. revert Ha Hg. unfold mtp_archs, gemma4_archs. rewrite !elem_of_cons, !elem_of_nil.
      intros [->|[->|[->|[]]]] [?|[?|[]]]; done. }
  intros [= <-]. unfold py_range, zlen. rewrite length_seqZ. lia.
Qed.

Lemma published_layers c n ranges layers :
  HfConfig.num_hidden_layers (ec_hf c) = Some n -> 1 <= ec_pp c <= n ->
  (mtp_num_kv_layers c <> 0 -> "linear_attention" ∉ list_attr (layer_types (ec_hf c))) ->
  pp_layer_ranges c = Ok ranges -> pp_cache_layer_indices c = Ok layers ->
  ranges_ok (ec_pp c) n ranges = true /\ zlen ranges = ec_pp c /\ published_layers_spec c n ranges layers.
Proof.
  intros Hn Hpp Hlin Hr Hl. unfold pp_cache_layer_indices in Hl. rewrite Hr in Hl. simpl in Hl.
  assert (exists f, pp_layer_partition n (ec_pp c) f = Ok ranges) as [f Hf].
  { unfold pp_layer_ranges in Hr. rewrite Hn in Hr. apply result_bind_Ok in Hr as (f & _ & Hr). by exists f. }
  destruct (published_ranges_ok n (ec_pp c) f ranges Hpp Hf) as (Hok & Ht & Hlen). split_and!; [done|done|].
  destruct (cache_layer_indices _ _) as [target|] eqn:Ec; [|done]. simpl in Hl.
  destruct (partition_layer_indices target ranges) as [parts|] eqn:Ep; [|done]. simpl in Hl.
  pose proof (partition_layers_in _ _ _ Ep) as Hin.
  assert (Forall (fun x => 0 <= x < n) target) as Hin'.
  { eapply Forall_impl; [exact Hin|]. intros x Hx. by eapply tiles_in. }
  pose proof (cache_layer_indices_sorted _ _ _ Ec) as Hsort.
  pose proof (partition_as_filters 0 n ranges target parts Ht Ep Hin') as Hparts.
  assert (concat parts = target) as Hcat by (rewrite Hparts; by apply (concat_filter_sorted 0 n)).
  assert (length parts = length ranges) as Hlp by (rewrite Hparts; apply length_fmap).
  assert (forall i ls r, parts !! i = Some ls -> ranges !! i = Some r -> Forall (fun x => fst r <= x < snd r) ls) as Hown.
  { intros i ls r Hi Hri. rewrite Hparts, list_lookup_fmap, Hri in Hi. injection Hi as <-.
    apply Forall_forall. by intros x [? _]%list_elem_of_filter. }
  apply (Build_published_layers_spec c n ranges layers target); [done|done| |done|..].
  - case_decide as Hm; [injection Hl as <-; by rewrite Hm, app_nil_r|].
    apply extend_last_Ok in Hl as (-> & _). rewrite Hcat. by rewrite (mtp_target c n target Hm Hn) by (done || lia || auto).
  - case_decide as Hm; [by injection Hl as <-|]. by apply extend_last_Ok in Hl as (_ & -> & _).
  - intros i ls r Hi Hri. case_decide as Hm; [injection Hl as <-; eauto|].
    apply extend_last_Ok in Hl as (_ & _ & Hat). destruct (Hat i ls Hi) as (ls0 & H0 & Hls).
    exists ls0. split; [by eapply Hown|]. rewrite (mtp_target c n target Hm Hn) in Hls by (done || lia || auto).
    by rewrite Hlp in Hls.
Qed.

Lemma check_stages_intro pp L slots k ranges layers :
  length layers = length ranges ->
  (forall i ls r, layers !! i = Some ls -> ranges !! i = Some r -> stage_layers_ok pp L slots (k + Z.of_nat i) r ls = true) ->
  check_stages pp L slots k ranges layers = Ok tt.
Proof.
  revert k ranges. induction layers as [|ls layers IH]; intros k [|r ranges] Hlen Hok; try done.
  simpl. pose proof (Hok 0%nat ls r eq_refl eq_refl) as H0. rewrite Z.add_0_r in H0. rewrite H0.
  apply IH; [by injection Hlen|]. intros i ls' r' Hl Hr. specialize (Hok (S i) ls' r' Hl Hr).
  by replace (k + 1 + Z.of_nat i) with (k + Z.of_nat (S i)) by lia.
Qed.

Lemma py_from_app {A} (l1 l2 : list A) : l2 <> [] -> py_from (l1 ++ l2) (- zlen l2) = l2.
Proof.
  intros Hne. assert (0 < length l2)%nat by (destruct l2; [done|simpl; lia]).
  unfold py_from, slice_pos, zlen. rewrite length_app. rewrite decide_True by lia.
  rewrite drop_app_ge by lia. replace (_ - _)%nat with 0%nat by lia. done.
Qed.

(** The checks on the layout of a pipeline-parallel peer hold for what it published. *)
Lemma published_layout_checked local c n info ranges layers :
  ei_mtp_num_kv_layers info = Some (mtp_num_kv_layers c) -> 0 <= mtp_num_kv_layers c ->
  0 < n -> local_pp_world_size local <= 1 -> zlen ranges = ec_pp c ->
  num_hidden_layers (cfg (context local)) = zlen (concat layers) ->
  published_layers_spec c n ranges layers ->
  check_pp_layout local info (ec_pp c) n n ranges layers = Ok tt.
Proof.
  intros Hm Hm0 Hn Hlp Hr Hlen [target Hsort Hin Hflat Ht Hll Hst]. unfold check_pp_layout. rewrite Hm. simpl.
  assert (StronglySorted Z.lt (concat layers)) as Hs.
  { rewrite Hflat. apply sorted_app; [done|apply seqZ_sorted|]. intros x y Hx Hy%elem_of_seqZ.
    rewrite Forall_forall in Hin. apply Hin in Hx. lia. }
  rewrite decide_False by lia. rewrite decide_False by lia.
  rewrite decide_False by (unfold zlen in *; lia). rewrite decide_False by lia. rewrite decide_False by lia.
  rewrite decide_False by (intros Hx; by apply Hx, sorted_nodup).
  unfold sortedZ. rewrite bool_decide_eq_true_2 by (by rewrite stable_sort_sorted). simpl.
  rewrite decide_False.
  2:{ intros [Hm1 Hx]. apply Hx. rewrite Hflat. set (m := mtp_num_kv_layers c) in *.
      assert (zlen (seqZ n m) = m) as Hz by (unfold zlen; rewrite length_seqZ; lia). rewrite <- Hz at 2.
      apply py_from_app. intros Hx'. rewrite Hx' in Hz. unfold zlen in Hz. simpl in Hz. lia. }
  apply check_stages_intro; [done|]. intros i ls r Hi Hri. rewrite Z.add_0_l.
  destruct (Hst i ls r Hi Hri) as (own & Hown & Hls).
  assert (forall x, x ∈ own -> x < n) as Hlt.
  { intros x Hx. rewrite Forall_forall in Hown. apply Hown in Hx.
    apply (tiles_in 0 n ranges x Ht). exists r. by apply list_elem_of_lookup_2 in Hri. }
  assert (filter (fun x => x < n) own = own) as Ho1 by (apply filter_all, Forall_forall; apply Hlt).
  assert (filter (fun x => x >= n) own = []) as Ho2 by (apply filter_none, Forall_forall; intros x Hx%Hlt; lia).
  unfold stage_layers_ok. apply andb_true_iff. destruct Hls as [->|[Hlast ->]].
  - rewrite Ho1, Ho2. split; [|done]. apply forallb_forall. intros x Hx%list_elem_of_In.
    rewrite Forall_forall in Hown. apply Hown in Hx. lia.
  - rewrite !filter_app, Ho1, Ho2.
    assert (forall x, x ∈ seqZ n (mtp_num_kv_layers c) -> n <= x) as Hge by (intros x Hx%elem_of_seqZ; lia).
    rewrite (filter_none (fun x => x < n)) by (apply Forall_forall; intros x Hx%Hge; lia).
    rewrite (filter_all (fun x => x >= n)) by (apply Forall_forall; intros x Hx%Hge; lia). simpl. rewrite app_nil_r. split.
    + apply forallb_forall. intros x Hx%list_elem_of_In. rewrite Forall_forall in Hown. apply Hown in Hx. lia.
    + rewrite (bool_decide_eq_true_2 (seqZ _ _ = seqZ _ _)) by done.
      assert (Z.of_nat i =? ec_pp c - 1 = true) as -> by (apply Z.eqb_eq; unfold zlen in Hr; lia). apply orb_true_r.
Qed.

Lemma mtp_num_kv_layers_nonneg c : 0 <= mtp_num_kv_layers c.
Proof. unfold mtp_num_kv_layers. repeat case_decide; lia. Qed.

(** ** Acceptance *)

(** A decode engine for the same model: the same architecture, page size, sequence-parallel
    group, draft width and KV-head shard, one cache slot per published one, no pipeline of
    its own. *)
Record compatible_decode (local : LocalEngine) (v : View) (c : EngineConfig) (info : EngineInfo) : Prop := {
  cd_arch : arch_mismatch (Some (arch (ec_hf c))) (architecture local) = false;
  cd_block : block_size (cfg (context local)) = ec_kvcache_block_size c;
  cd_group : migrate_group_size v = ec_attention_sp c;
  cd_drafts : mtp_num_drafts (context local) = 0 \/ mtp_num_drafts (context local) = published_num_drafts c;
  cd_pp : local_pp_world_size local <= 1;
  cd_layers : num_hidden_layers (cfg (context local)) = zlen (concat (ei_pp_cache_layer_indices info));
  cd_heads : num_local_kv_heads (context local) = published_kv_heads c
}.

Lemma registered_metadata_Ok c addrs info :
  registered_metadata c addrs = Ok info ->
  exists ranges layers ratios heads,
    pp_layer_ranges c = Ok ranges /\ pp_cache_layer_indices c = Ok layers /\
    published_kv_heads c = Ok heads /\
    info = Migration.mk_info (Some (arch (ec_hf c))) (Some (ec_kvcache_block_size c)) (Some (ec_attention_sp c))
        (Some (ec_max_num_seqs c)) (Some (published_gdn_num_slots c)) (Some (published_num_drafts c))
        (Some (ec_attention_tp c)) (Some (ec_attention_dp c)) (Some (ec_pp c))
        (Some (default 0 (HfConfig.num_hidden_layers (ec_hf c)))) (Some (mtp_num_kv_layers c))
        ranges layers ratios (Some heads) ∅ None ∅ addrs.
Proof.
  unfold registered_metadata. intros (ranges & Hr & H)%result_bind_Ok. apply result_bind_Ok in H as (layers & Hl & H).
  apply result_bind_Ok in H as (ratios & _ & H). apply result_bind_Ok in H as (heads & Hh & H).
  injection H as <-. by exists ranges, layers, ratios, heads.
Qed.

(** * Properties *)

(** What a valid engine registers is accepted by every compatible decode engine: for any
    split of the layers over stages (Gemma4's reserved suffix and predictor layers
    included), the published ranges and cache layers pass all checks of the migration, and
    every published address is asked for a connection. *)
Theorem registered_metadata_accepted c addrs info n local v t :
  registered_metadata c addrs = Ok info ->
  HfConfig.num_hidden_layers (ec_hf c) = Some n -> 1 <= ec_pp c <= n ->
  (mtp_num_kv_layers c <> 0 -> "linear_attention" ∉ list_attr (layer_types (ec_hf c))) ->
  compatible_decode local v c info ->
  exists reqs t', record_engine local v info t = (Ok reqs, t') /\ cr_peer_alias <$> reqs = addrs.
Proof.
  intros Hm Hn Hpp Hlin [Harch Hblock Hgroup Hdrafts Hlpp Hlayers Hheads].
  apply registered_metadata_Ok in Hm as (ranges & layers & ratios & heads & Hr & Hl & Hh & ->). simpl in Hlayers.
  destruct (published_layers c n ranges layers Hn Hpp Hlin Hr Hl) as (Hok & Hlen & Hspec).
  assert (ranges <> []) as Hne by (intros ->; unfold zlen in Hlen; simpl in Hlen; lia).
  assert (layers <> []) as Hne'.
  { destruct Hspec as [? _ _ _ _ Hll _]. intros ->. destruct ranges; [done|by simpl in Hll]. }
  set (info := Migration.mk_info _ _ _ _ _ _ _ _ _ _ _ _ _ _ _ _ _ _ _).
  assert (stage_ranges_of info (ec_pp c) n = Ok ranges) as Hsr by (unfold stage_ranges_of; simpl; by destruct ranges).
  assert (cache_layers_of info ranges = layers) as Hcl by (unfold cache_layers_of; simpl; by destruct layers).
  assert (ec_pp c > 1 -> check_pp_layout local info (ec_pp c) n n ranges layers = Ok tt) as Hck.
  { intros _. apply (published_layout_checked local c); [by simpl|apply mtp_num_kv_layers_nonneg|lia|done|done|done|done]. }
  assert (z_or n (num_hidden_layers (cfg (context local))) = n) as Hz by (unfold z_or; rewrite decide_False by lia; done).
  assert (forall {A} (f : unit -> act Tables A) s,
    ((if decide (ec_pp c > 1) then lift (check_pp_layout local info (ec_pp c) n n ranges layers) else mret tt) ≫= f) s = f tt s) as Hif.
  { intros A f s. case_decide; [|done]. by apply lift_bind, Hck. }
  eexists _, _. split.
  - unfold record_engine. rewrite raise_if_bind by done.
    rewrite raise_if_bind by (apply bool_decide_eq_false_2; simpl; congruence).
    rewrite raise_if_bind by (apply bool_decide_eq_false_2; simpl; congruence). cbv zeta.
    rewrite raise_if_bind by (apply bool_decide_eq_false_2; simpl; destruct Hdrafts; naive_solver).
    rewrite !modify_bind. unfold info at 4. simpl default. rewrite Hn. simpl default. rewrite Hz.
    rewrite (lift_bind _ ranges) by done. rewrite raise_if_bind by (simpl; by rewrite Hok).
    rewrite Hcl, modify_bind. change (default 1 (ei_pp info)) with (ec_pp c). rewrite Hif.
    rewrite (lift_bind _ heads) by congruence. rewrite raise_if_bind by (apply bool_decide_eq_false_2; simpl; congruence).
    rewrite modify_bind. reflexivity.
  - rewrite <- list_fmap_compose. apply list_fmap_id.
Qed.

(** ** Compressed pools *)

Lemma foldl_insert_lookup {A} (f : Z -> A) l (d : gmap Z A) r :
  foldl (fun d r => <[r := f r]> d) d l !! r = if decide (r ∈ l) then Some (f r) else d !! r.
Proof.
  induction l as [|x l IH] using rev_ind; [done|]. rewrite foldl_app. simpl.
  destruct (decide (r = x)) as [->|Hne].
  - rewrite lookup_insert_eq, decide_True; [done|]. rewrite elem_of_app, list_elem_of_singleton. by right.
  - rewrite lookup_insert_ne by done. rewrite IH. apply decide_ext. rewrite elem_of_app, list_elem_of_singleton. naive_solver.
Qed.

Lemma allocated_pool ratios seqs len ov ctx r :
  dsv4_compressed_pool_config (csa (allocate_dsv4_compressed_caches ratios seqs len (Some ov) ctx)) !! r =
  if decide (r ∈ unique_ratios ratios)
  then Some (pool_pages seqs len r (default 0 (ov !! r)), DSV4_COMPRESSED_PAGE_SIZE, max_blocks_per_seq len r) else None.
Proof.
  unfold allocate_dsv4_compressed_caches. simpl. set (s0 := mk_csa _ _ _ _ _ _ _ _ _ _).
  assert (forall l s, dsv4_compressed_pool_config (foldl (csa_add_ratio ratios seqs len ov) s l) =
    foldl (fun d r => <[r := (pool_pages seqs len r (default 0 (ov !! r)), DSV4_COMPRESSED_PAGE_SIZE, max_blocks_per_seq len r)]> d)
      (dsv4_compressed_pool_config s) l) as H.
  { induction l as [|x l IH]; intros s; [done|]. cbn [foldl]. by rewrite IH. }
  rewrite H, foldl_insert_lookup. by case_decide.
Qed.

Lemma wire_override c r :
  pool_pages (ec_max_num_seqs c) (ec_max_model_len c) r (default 0 (wire_overrides c !! r)) =
  pool_pages (ec_max_num_seqs c) (ec_max_model_len c) r (pool_override c r).
Proof.
  unfold pool_pages, pool_override, wire_overrides.
  repeat case_decide; subst; rewrite ?lookup_insert_eq, ?lookup_insert_ne, ?lookup_singleton_eq, ?lookup_singleton_ne, ?lookup_empty in * by done;
    simpl in *; try done; lia.
Qed.

(** The pool sizes an engine reports are those its workers allocate, with and without
    configured overrides, when a worker holds all layers. *)
Lemma reported_pools_are_allocated c ctx ratio :
  published_pool_pages c !! ratio =
  (fun x => fst (fst x)) <$> dsv4_compressed_pool_config (csa (wire_dsv4_pools c (list_attr (compress_ratios (ec_hf c))) ctx)) !! ratio.
Proof.
  unfold published_pool_pages, wire_dsv4_pools. rewrite foldl_insert_lookup, allocated_pool.
  case_decide; [|by rewrite lookup_empty]. simpl. by rewrite wire_override.
Qed.

(** ** Gaps between what is registered and what the migration needs *)

Lemma mla_heads_rejected c addrs info local v t :
  registered_metadata c addrs = Ok info ->
  num_key_value_heads (ec_hf c) = Some 1 -> 1 < ec_attention_tp c -> mode (cfg (context local)) = "mla" ->
  ei_num_local_kv_heads info = Some 0 /\ exists e t', record_engine local v info t = (Err e, t').
Proof.
  intros Hm Hkv Htp Hmode. apply registered_metadata_Ok in Hm as (ranges & layers & ratios & heads & _ & _ & Hh & ->).
  unfold published_kv_heads, py_floordiv in Hh. rewrite Hkv in Hh. rewrite decide_False in Hh by lia.
  assert (heads = 0) as -> by (injection Hh as <-; simpl; apply Z.div_small; lia). split; [done|].
  destruct (record_engine _ _ _ _) as [[reqs|e] t'] eqn:E; [|by exists e, t'].
  exfalso. unfold record_engine in E. run_inv. unfold num_local_kv_heads in *.
  repeat match goal with H : context [decide (mode _ = "mla")] |- _ => rewrite decide_True in H by done end. simplify_eq.
Qed.

Lemma registered_pools_missing c addrs info local v t reqs t' :
  registered_metadata c addrs = Ok info -> record_engine local v info t = (Ok reqs, t') ->
  remote_compressed_pool_pages (peers t') !! migrate_engine_id v = Some ∅.
Proof.
  intros Hm E. apply registered_metadata_Ok in Hm as (ranges & layers & ratios & heads & _ & _ & _ & ->).
  unfold record_engine in E. run_inv. simpl. by rewrite lookup_insert_eq.
Qed.

(** Two things the migration needs are not registered faithfully.  An MLA cache holds one
    KV head on every rank, but the published number is divided by the tensor parallelism:
    with two or more ranks it is zero and a decode engine refuses the peer.  And the sizes
    of the compressed pools are not registered at all: every offset into a peer's pool
    comes out as -1. *)
Theorem registered_metadata_gaps c addrs info local v t :
  registered_metadata c addrs = Ok info ->
  (num_key_value_heads (ec_hf c) = Some 1 -> 1 < ec_attention_tp c -> mode (cfg (context local)) = "mla" ->
   ei_num_local_kv_heads info = Some 0 /\ exists e t', record_engine local v info t = (Err e, t')) /\
  (forall reqs t' layout n slots max_slots layers ratio i page,
     record_engine local v info t = (Ok reqs, t') ->
     compressed_stride (from_peer_metadata layout n slots
       (remote_compressed_pool_pages (peers t') !! migrate_engine_id v) max_slots layers) ratio i page = -1).
Proof.
  intros Hm. split; [by apply (mla_heads_rejected c addrs)|]. intros reqs t' layout n slots max_slots layers ratio i page E.
  rewrite (registered_pools_missing c addrs info local v t reqs t' Hm E).
  unfold compressed_stride. simpl. by rewrite lookup_empty.
Qed.

(** ** Witnesses *)

Definition hf_deepseek : HfConfig :=
  mk_hf (Some ["DeepseekV3ForCausalLM"]) (Some 5) None None None (Some 512) (Some 64) None None (Some 1) (Some 1) None
    None None None None None true None ∅.
Definition prefill_config (tp : Z) : EngineConfig := mk_engine_config hf_deepseek 2 1 1 tp 8 4096 50 64 1 0 false 0 0.
Definition mla_context (layers : Z) : CacheContext :=
  mk_ctx (mk_cfg 64 layers 1 2 "mla" 512 64 false false 0 false None 8 0)
    1 576 None 100 0 "cuda" None None None (mk_gdn None None 0 0) None empty_csa 0 None.
Definition mla_decode : LocalEngine := mk_local (mla_context 6) (Some "DeepseekV3ForCausalLM") 0 0 1.
Definition mla_view : View := mk_view "p0" 1 0 50 [(0, 7)] [(0, 1)] [] ∅ (-1) (-1).

Definition info_of (tp : Z) (addrs : list string) : EngineInfo :=
  match registered_metadata (prefill_config tp) addrs with Ok i => i | Err _ => Migration.no_info end.

Lemma registered_metadata_accepted_witness :
  exists reqs t', record_engine mla_decode mla_view (info_of 1 ["a"; "b"]) initialize_migration_state = (Ok reqs, t') /\
    cr_peer_alias <$> reqs = ["a"; "b"].
Proof.
  apply (registered_metadata_accepted (prefill_config 1) ["a"; "b"] (info_of 1 ["a"; "b"]) 5 mla_decode mla_view initialize_migration_state).
  - vm_compute. reflexivity.
  - reflexivity.
  - vm_compute. split; discriminate.
  - intros _. apply not_elem_of_nil.
  - split; try (vm_compute; reflexivity); [left; reflexivity|vm_compute; discriminate].
Defined.

Lemma registered_metadata_gaps_witness :
  ei_num_local_kv_heads (info_of 2 ["a"]) = Some 0 /\
  (exists e t', record_engine mla_decode mla_view (info_of 2 ["a"]) initialize_migration_state = (Err e, t')).
Proof.
  apply (proj1 (registered_metadata_gaps (prefill_config 2) ["a"] (info_of 2 ["a"]) mla_decode mla_view initialize_migration_state
    ltac:(vm_compute; reflexivity))); [reflexivity|vm_compute; reflexivity|reflexivity].
Defined.

(** The published layout of the sample: five decoder layers on two stages and the predictor
    layer at the end of the second. *)
Example info_layers : ei_pp_cache_layer_indices (info_of 1 ["a"; "b"]) = [[0; 1; 2]; [3; 4; 5]].
Proof. by vm_compute. Qed.
