(* ===== verification/EngineOptions.v ===== *)
(** The validation of engine options ([dlengine/config.py], [Config.validate_config] from the
    loaded model configuration on, and the world sizes).  Loading and flattening the model
    configuration is the work of [transformers] and [PretrainedConfig] and is not modelled:
    its attributes are given.  Pydantic turns a [ValueError] or [AssertionError] of the
    validator into its own error; the class raised in the validator is kept here. *)

From S2P Require Import Prelude PyStr HfConfig PipelineParallel Cache CacheLayout Peer Rdma Migration Registration.
Open Scope Z_scope.

Inductive Mode := Prefill | Decode | Hybrid.
#[export] Instance mode_eq_dec : EqDecision Mode.
Proof. solve_decision. Defined.

(** The value of [max_position_embeddings]. *)
Inductive ContextLen := IntLen (n : Z) | OddLen.

(** Attributes of the model configuration besides those of [HfConfig]; [None] is absent or
    null, and [mo_null] names the attributes that are there with the value [None]. *)
Record ModelAttrs := mk_model {
  mo_hf : HfConfig;
  mo_model_type : option string;
  mo_num_attention_heads : option Z;
  mo_n_routed_experts : option Z;
  mo_index_topk : option Z;
  mo_index_kpool : option Z;
  mo_max_position_embeddings : option ContextLen;
  mo_text_max_position_embeddings : option ContextLen;
  mo_head_dim : option Z;
  mo_global_head_dim : option Z;
  mo_null : list string
}.

(** The options the validator only reads.  [o_host_utilization] is a float, in units of
    [2 ^ -1074]; [o_blackwell] is what [torch.cuda] says of the device. *)
Record Options := mk_options {
  o_model : ModelAttrs;
  o_blackwell : bool;
  o_max_num_batched_tokens : Z;
  o_pp_prefill_scheduler_depth : Z;
  o_pp_prefill_pipeline_depth : Z;
  o_max_num_seqs : Z;
  o_host_utilization : Z;
  o_attention_tp : Z;
  o_attention_sp : Z;
  o_attention_dp : Z;
  o_ffn_ep : Z;
  o_ffn_tp : Z;
  o_ffn_dp : Z;
  o_pp : Z;
  o_mode : Mode;
  o_dummy_prefill : bool;
  o_num_speculative_tokens : Z;
  o_disable_nsa : bool;
  o_enable_hisparse : bool;
  o_hisparse_device_buffer_size : Z;
  o_hisparse_swap_in_block_size : Z;
  o_num_kvcache_blocks : Z;
  o_dsv4_pages_ratio4 : Z;
  o_dsv4_pages_ratio128 : Z
}.

(** The fields the validator assigns, of the options and of the model configuration. *)
Record Settings := mk_settings {
  s_ctrl_address : pystr;
  s_architectures : option (list string);
  s_gdn_state_cache_slots : Z;
  s_kvcache_block_size : Z;
  s_max_num_recv_seqs : Z;
  s_max_model_len : option Z;
  s_max_position_embeddings : option ContextLen;
  s_mega_moe : Z;
  s_kv_heads : option Z;
  s_l3_enable : bool;
  s_enforce_eager : bool
}.

Definition set_ctrl_address v s := mk_settings v (s_architectures s) (s_gdn_state_cache_slots s) (s_kvcache_block_size s) (s_max_num_recv_seqs s) (s_max_model_len s) (s_max_position_embeddings s) (s_mega_moe s) (s_kv_heads s) (s_l3_enable s) (s_enforce_eager s).
Definition set_architectures v s := mk_settings (s_ctrl_address s) v (s_gdn_state_cache_slots s) (s_kvcache_block_size s) (s_max_num_recv_seqs s) (s_max_model_len s) (s_max_position_embeddings s) (s_mega_moe s) (s_kv_heads s) (s_l3_enable s) (s_enforce_eager s).
Definition set_gdn_slots v s := mk_settings (s_ctrl_address s) (s_architectures s) v (s_kvcache_block_size s) (s_max_num_recv_seqs s) (s_max_model_len s) (s_max_position_embeddings s) (s_mega_moe s) (s_kv_heads s) (s_l3_enable s) (s_enforce_eager s).
Definition set_block_size v s := mk_settings (s_ctrl_address s) (s_architectures s) (s_gdn_state_cache_slots s) v (s_max_num_recv_seqs s) (s_max_model_len s) (s_max_position_embeddings s) (s_mega_moe s) (s_kv_heads s) (s_l3_enable s) (s_enforce_eager s).
Definition set_recv_seqs v s := mk_settings (s_ctrl_address s) (s_architectures s) (s_gdn_state_cache_slots s) (s_kvcache_block_size s) v (s_max_model_len s) (s_max_position_embeddings s) (s_mega_moe s) (s_kv_heads s) (s_l3_enable s) (s_enforce_eager s).
Definition set_context len pos s := mk_settings (s_ctrl_address s) (s_architectures s) (s_gdn_state_cache_slots s) (s_kvcache_block_size s) (s_max_num_recv_seqs s) len pos (s_mega_moe s) (s_kv_heads s) (s_l3_enable s) (s_enforce_eager s).
Definition set_mega_moe v s := mk_settings (s_ctrl_address s) (s_architectures s) (s_gdn_state_cache_slots s) (s_kvcache_block_size s) (s_max_num_recv_seqs s) (s_max_model_len s) (s_max_position_embeddings s) v (s_kv_heads s) (s_l3_enable s) (s_enforce_eager s).
Definition set_kv_heads v s := mk_settings (s_ctrl_address s) (s_architectures s) (s_gdn_state_cache_slots s) (s_kvcache_block_size s) (s_max_num_recv_seqs s) (s_max_model_len s) (s_max_position_embeddings s) (s_mega_moe s) v (s_l3_enable s) (s_enforce_eager s).
Definition set_l3 v s := mk_settings (s_ctrl_address s) (s_architectures s) (s_gdn_state_cache_slots s) (s_kvcache_block_size s) (s_max_num_recv_seqs s) (s_max_model_len s) (s_max_position_embeddings s) (s_mega_moe s) (s_kv_heads s) v (s_enforce_eager s).
Definition set_eager v s := mk_settings (s_ctrl_address s) (s_architectures s) (s_gdn_state_cache_slots s) (s_kvcache_block_size s) (s_max_num_recv_seqs s) (s_max_model_len s) (s_max_position_embeddings s) (s_mega_moe s) (s_kv_heads s) (s_l3_enable s) v.

(** [if cond: raise e] and [a % b] *)
Definition require (cond : bool) (e : exn) : result unit := if cond then Ok tt else Err e.
Definition py_mod (a b : Z) : result Z := if decide (b = 0) then Err ZeroDivisionError else Ok (a mod b).

(** [getattr(hf, name, 0) > 0], and [a or b] of such comparisons *)
Definition attr_positive (m : ModelAttrs) (name : string) (v : option Z) : result bool :=
  if decide (name ∈ mo_null m) then Err TypeError else Ok (0 <? default 0 v).
Definition py_or (a b : result bool) : result bool := match a with Ok true => Ok true | Ok false => b | Err e => Err e end.

(** [(getattr(hf, "architectures", None) or \[""\])\[0\]] *)
Definition first_arch (s : Settings) : string := match s_architectures s with Some (a :: _) => a | _ => "" end.
(** [hf.architectures\[0\]] *)
Definition architecture (s : Settings) : result string :=
  match s_architectures s with None => Err TypeError | Some [] => Err IndexError | Some (a :: _) => Ok a end.

Definition GLM5_NEXT : string := "Glm5NextForConditionalGeneration".
Definition KIMI_K3 : string := "KimiK3ForConditionalGeneration".
Definition mla_archs : list string :=
  ["DeepseekV2ForCausalLM"; "DeepseekV3ForCausalLM"; "DeepseekV32ForCausalLM"; "DeepseekV4ForCausalLM"; "GlmMoeDsaForCausalLM"; GLM5_NEXT].
Definition gqa_archs : list string :=
  ["Qwen3ForCausalLM"; "Qwen3MoeForCausalLM"; "Qwen3_5ForConditionalGeneration"; "Qwen3_5MoeForConditionalGeneration";
   "Gemma4ForCausalLM"; "Gemma4ForConditionalGeneration"].
Definition supported_pp_archs : list string :=
  ["Qwen3ForCausalLM"; "Qwen3MoeForCausalLM"; "Qwen3_5ForConditionalGeneration"; "Qwen3_5MoeForConditionalGeneration";
   "DeepseekV2ForCausalLM"; "DeepseekV3ForCausalLM"; "DeepseekV32ForCausalLM"; "GlmMoeDsaForCausalLM";
   "Gemma4ForCausalLM"; "Gemma4ForConditionalGeneration"; "DeepseekV4ForCausalLM"].

(** A scheme is added to a controller address without one; [None] and [""] are one. *)
Definition normalize_ctrl_address (a : pystr) : pystr :=
  if bool_decide (a <> []) && negb (startswith a (lit "http://")) && negb (startswith a (lit "https://"))
  then lit "http://" ++ a else a.

(** GLM-5.3: the architecture is inferred from the model type, and its topology checked. *)
Definition infer_architectures (o : Options) (s : Settings) : Settings :=
  match s_architectures s with
  | Some (_ :: _) => s
  | _ => if decide (mo_model_type (o_model o) = Some "glm5_next"%string) then set_architectures (Some [GLM5_NEXT]) s else s
  end.

Definition validate_glm5_next (o : Options) (s : Settings) : result Settings :=
  let m := o_model o in
  if decide (first_arch s = GLM5_NEXT) then
    let s := if decide (s_gdn_state_cache_slots s <= 0) then set_gdn_slots (Z.max 1 (o_max_num_seqs o)) s else s in
    _ ← require ((o_attention_tp o =? 1) && (o_attention_sp o =? 1)) ValueError;
    _ ← require ((o_ffn_dp o =? 1) && (o_ffn_tp o =? 1)) ValueError;
    _ ← require (o_attention_dp o =? o_ffn_ep o) ValueError;
    let n_experts := int_or (mo_n_routed_experts m) 0 in
    r ← (if decide (n_experts = 0) then Ok 0 else py_mod n_experts (o_ffn_ep o));
    _ ← require (r =? 0) ValueError;
    let index_topk := int_or (mo_index_topk m) 0 in
    let index_kpool := int_or (mo_index_kpool m) 1 in
    _ ← require (negb ((index_kpool <? 1) || (negb (index_topk =? 0) && negb (index_topk mod index_kpool =? 0)))) ValueError;
    _ ← require (o_pp o =? 1) ValueError;
    Ok s
  else Ok s.

(** The heads that tensor parallelism shards must divide evenly. *)
Definition check_heads (o : Options) (heads : option Z) : result unit :=
  match heads with
  | None => Ok tt
  | Some h => if decide (h < 1) then Err ValueError
              else r ← py_mod h (o_attention_tp o); require (r =? 0) ValueError
  end.

(** Block size and head sharding by architecture. *)
Definition validate_attention (o : Options) (s : Settings) : result Settings :=
  let arch := first_arch s in
  if decide (arch ∈ mla_archs) then
    s ← (if decide (arch = "DeepseekV4ForCausalLM"%string) then
           _ ← require (o_attention_sp o =? 1) AssertionError;
           _ ← require (o_ffn_tp o =? 1) AssertionError;
           _ ← (match mo_n_routed_experts (o_model o) with
                | None => Ok tt
                | Some n => r ← py_mod n (o_ffn_ep o); require (r =? 0) AssertionError
                end);
           Ok s
         else Ok (set_block_size 64 s));
    _ ← require (o_attention_tp o =? 1) ValueError;
    Ok s
  else
    _ ← require (s_kvcache_block_size s mod 64 =? 0) AssertionError;
    let s := if o_blackwell o then set_block_size 64 s
             else if decide (s_kvcache_block_size s mod 256 = 0) then s
             else set_block_size ((s_kvcache_block_size s + 255) / 256 * 256) s in
    _ ← (if decide (o_attention_tp o > 1) then
           _ ← check_heads o (mo_num_attention_heads (o_model o));
           if decide (arch ∈ gqa_archs) then check_heads o (s_kv_heads s) else Ok tt
         else Ok tt);
    Ok s.

(** The context length: the text model's limit, else the outer one, else 16384. *)
Definition validate_context (o : Options) (s : Settings) : result Settings :=
  let s := if decide (o_attention_sp o = 1) then set_recv_seqs 0 s else s in
  let found := match mo_text_max_position_embeddings (o_model o) with Some l => Some l | None => s_max_position_embeddings s end in
  found ← (match found with
           | None => Ok None
           | Some (IntLen n) => if decide (n <= 0) then Err ValueError else Ok (Some n)
           | Some OddLen => Err ValueError
           end);
  let len := match s_max_model_len s with Some n => n | None => default 16384 found end in
  let s := set_context (Some len) (Some (IntLen (Z.max len (default 0 found)))) s in
  _ ← require (1 <=? o_max_num_batched_tokens o) AssertionError;
  _ ← require (0 <=? o_host_utilization o) ValueError;
  Ok s.

(** HiSparse. *)
Definition validate_hisparse_mtp (o : Options) (arch : string) : result unit :=
  if decide (o_num_speculative_tokens o = 0) then Ok tt
  else
    _ ← require (bool_decide (arch ∈ ["GlmMoeDsaForCausalLM"%string; GLM5_NEXT])) ValueError;
    let verify_width := o_num_speculative_tokens o + 1 in
    _ ← require (verify_width * int_or (mo_index_topk (o_model o)) 0 <=? o_hisparse_device_buffer_size o) ValueError;
    require (verify_width <=? 64) ValueError.

Definition validate_hisparse (o : Options) (s : Settings) : result unit :=
  let m := o_model o in
  let arch := first_arch s in
  let layer_types := list_attr (HfConfig.layer_types (mo_hf m)) in
  if o_enable_hisparse o then
    _ ← require (o_attention_sp o =? 1) ValueError;
    _ ← require (o_attention_tp o =? 1) ValueError;
    _ ← validate_hisparse_mtp o arch;
    _ ← require (0 <? o_hisparse_device_buffer_size o) ValueError;
    _ ← require (0 <? o_hisparse_swap_in_block_size o) ValueError;
    if decide (arch ∈ ["DeepseekV32ForCausalLM"%string; "GlmMoeDsaForCausalLM"%string]) then
      _ ← require (bool_decide (o_mode o = Decode)) ValueError;
      _ ← require (o_dummy_prefill o || bool_decide (s_ctrl_address s <> [])) ValueError;
      _ ← require (bool_decide (s_ctrl_address s = []) || (0 <? o_host_utilization o)) ValueError;
      _ ← require (negb (o_disable_nsa o)) ValueError;
      head_dim ← attr_positive m "index_head_dim" (HfConfig.index_head_dim (mo_hf m));
      _ ← require head_dim ValueError;
      topk ← attr_positive m "index_topk" (mo_index_topk m);
      require topk ValueError
    else if decide (arch ∈ gemma4_archs) then require (bool_decide ("sliding_attention"%string ∈ layer_types)) ValueError
    else Err ValueError
  else if decide (arch ∈ gemma4_archs) then
    require (negb (bool_decide ("sliding_attention"%string ∈ layer_types) && bool_decide ("full_attention"%string ∈ layer_types) &&
                   match mo_global_head_dim m, mo_head_dim m with Some g, Some h => negb (g =? h) | _, _ => false end)) ValueError
  else Ok tt.

(** Speculative decoding. *)
Definition validate_mtp (o : Options) (s : Settings) : result unit :=
  let n := o_num_speculative_tokens o in
  let arch := first_arch s in
  let m := o_model o in
  _ ← require (0 <=? n) ValueError;
  _ ← require (negb (bool_decide (arch = GLM5_NEXT) && (5 <? n))) ValueError;
  if decide (n > 0) then
    has_mtp ← py_or (attr_positive m "num_nextn_predict_layers" (HfConfig.num_nextn_predict_layers (mo_hf m)))
                    (attr_positive m "mtp_num_hidden_layers" (HfConfig.mtp_num_hidden_layers (mo_hf m)));
    _ ← require has_mtp ValueError;
    if decide (n > 1) then
      _ ← require (bool_decide (arch ∈ ["GlmMoeDsaForCausalLM"%string; GLM5_NEXT])) ValueError;
      require (negb ((1 <? o_ffn_ep o) && (128 <? o_max_num_seqs o * (n + 1)))) ValueError
    else Ok tt
  else Ok tt.

(** The capacity of the MegaMoE buffers, and the KV heads of latent-attention models. *)
Definition required_capacity (o : Options) : Z :=
  let max_rows := Z.max (Z.max (o_max_num_batched_tokens o) (o_max_num_seqs o * (o_num_speculative_tokens o + 1))) 1 in
  (max_rows + o_attention_tp o - 1) / o_attention_tp o.

(** [hasattr(hf, "num_key_value_heads")] *)
Definition has_kv_heads (o : Options) (s : Settings) : bool :=
  bool_decide (is_Some (s_kv_heads s)) || bool_decide ("num_key_value_heads"%string ∈ mo_null (o_model o)).

Definition validate_mega_moe (o : Options) (s : Settings) : result Settings :=
  arch ← architecture s;
  s ← (if decide (arch = KIMI_K3) then
         if decide (s_mega_moe s = 0) then Ok (set_mega_moe (Z.max 256 (required_capacity o)) s)
         else if decide (s_mega_moe s < required_capacity o) then Err ValueError else Ok s
       else Ok (if decide (s_mega_moe s = 0) then set_mega_moe 256 s else s));
  Ok (if decide (arch ∈ mla_archs ++ [KIMI_K3])
      then if has_kv_heads o s then set_kv_heads (Some 1) s else s else s).

(** L3 is switched off where its reads could go to the wrong worker. *)
Definition validate_l3 (o : Options) (s : Settings) : Settings :=
  if s_l3_enable s then
    if decide (o_attention_sp o <> 1 \/ o_attention_tp o <> 1) then set_l3 false s
    else if decide (o_mode o = Decode) then set_l3 false s else s
  else s.

(** Pipeline parallelism. *)
Definition validate_pp (o : Options) (s : Settings) : result Settings :=
  let arch := first_arch s in
  let hf := mo_hf (o_model o) in
  _ ← require (1 <=? o_pp o) ValueError;
  _ ← require (0 <=? o_pp_prefill_scheduler_depth o) ValueError;
  _ ← require (0 <=? o_pp_prefill_pipeline_depth o) ValueError;
  if decide (o_pp o > 1) then
    _ ← require (bool_decide (arch ∈ supported_pp_archs)) ValueError;
    _ ← require (match HfConfig.num_hidden_layers hf with Some n => o_pp o <=? n | None => false end) ValueError;
    start ← (if decide (arch ∈ gemma4_archs) then get_gemma4_shared_kv_source_start hf else Ok None);
    _ ← require (match start with Some f => o_pp o - 1 <=? f | None => true end) ValueError;
    _ ← require (negb (0 <? o_num_speculative_tokens o) ||
                 (bool_decide (arch = "GlmMoeDsaForCausalLM"%string) && bool_decide (o_mode o = Prefill))) ValueError;
    _ ← require (negb (o_enable_hisparse o) || bool_decide (arch ∈ gemma4_archs)) ValueError;
    _ ← require (negb (bool_decide (o_mode o = Decode))) ValueError;
    Ok (set_eager true s)
  else Ok s.

(** [validate_config], from the loaded model configuration on. *)
Definition validate_config (o : Options) (s : Settings) : result Settings :=
  let s := set_ctrl_address (normalize_ctrl_address (s_ctrl_address s)) s in
  let s := infer_architectures o s in
  s ← validate_glm5_next o s;
  s ← validate_attention o s;
  s ← validate_context o s;
  _ ← validate_hisparse o s;
  _ ← validate_mtp o s;
  s ← validate_mega_moe o s;
  validate_pp o (validate_l3 o s).

(** The settings a model configuration and the given options start with. *)
Definition initial_settings (o : Options) (ctrl_address : pystr) (gdn_slots block_size recv_seqs : Z) (max_model_len : option Z)
    (mega_moe : Z) (l3 eager : bool) : Settings :=
  mk_settings ctrl_address (HfConfig.architectures (mo_hf (o_model o))) gdn_slots block_size recv_seqs max_model_len
    (mo_max_position_embeddings (o_model o)) mega_moe (HfConfig.num_key_value_heads (mo_hf (o_model o))) l3 eager.

(** [attn_world_size], [ffn_world_size], [world_size] *)
Definition attn_world_size (o : Options) : Z := o_attention_dp o * o_attention_sp o * o_attention_tp o.
Definition ffn_world_size (o : Options) : Z := o_ffn_dp o * o_ffn_ep o * o_ffn_tp o.
Definition world_size (o : Options) : Z := o_pp o * attn_world_size o.

(** The validated configuration as the rest of the engine reads it. *)
Definition model_config (o : Options) (s : Settings) : HfConfig :=
  let h := mo_hf (o_model o) in
  mk_hf (s_architectures s) (HfConfig.num_hidden_layers h) (HfConfig.layer_types h) (HfConfig.num_kv_shared_layers h) (HfConfig.compress_ratios h) (HfConfig.kv_lora_rank h)
    (HfConfig.qk_rope_head_dim h) (HfConfig.qk_nope_head_dim h) (HfConfig.index_head_dim h) (s_kv_heads s) (HfConfig.num_nextn_predict_layers h) (HfConfig.mtp_num_hidden_layers h)
    (HfConfig.linear_num_key_heads h) (HfConfig.linear_num_value_heads h) (HfConfig.linear_key_head_dim h) (HfConfig.linear_value_head_dim h) (HfConfig.linear_conv_kernel_dim h)
    (HfConfig.has_to_dict h) (HfConfig.sub_configs h) (HfConfig.children h).
Definition engine_config (o : Options) (s : Settings) : EngineConfig :=
  mk_engine_config (model_config o s) (o_pp o) (o_attention_dp o) (o_attention_sp o) (o_attention_tp o) (o_max_num_seqs o)
    (default 0 (s_max_model_len s)) (o_num_kvcache_blocks o) (s_kvcache_block_size s) (o_num_speculative_tokens o)
    (s_gdn_state_cache_slots s) (o_enable_hisparse o) (o_dsv4_pages_ratio4 o) (o_dsv4_pages_ratio128 o).

(** * What validated options guarantee *)

Lemma require_Ok c e x : require c e = Ok x -> c = true.
Proof. by destruct c. Qed.

Ltac ok_inv :=
  run_inv; repeat match goal with H : require _ _ = Ok _ |- _ => apply require_Ok in H end.

Lemma py_mod_Ok a b r : py_mod a b = Ok r -> b <> 0 /\ r = a mod b.
Proof. unfold py_mod. case_decide; [done|]. by intros [= <-]. Qed.

Lemma check_heads_Ok o h : check_heads o (Some h) = Ok tt -> 1 <= h /\ (o_attention_tp o | h).
Proof.
  unfold check_heads. case_decide; [done|]. intros H'. ok_inv. apply py_mod_Ok in H0 as [? ->].
  split; [lia|]. apply Z.mod_divide; lia.
Qed.

Lemma architecture_first s a : architecture s = Ok a -> a = first_arch s.
Proof. unfold architecture, first_arch. destruct (s_architectures s) as [[|]|]; intros [= <-]; done. Qed.

(** Each stage changes only its own settings. *)
Lemma validate_glm5_next_Ok o s s' :
  validate_glm5_next o s = Ok s' -> s' = s \/ s' = set_gdn_slots (Z.max 1 (o_max_num_seqs o)) s.
Proof.
  unfold validate_glm5_next. case_decide; [|intros [= <-]; by left]. intros H'. ok_inv. destruct (decide (s_gdn_state_cache_slots s <= 0)); auto.
Qed.

Lemma gqa_not_latent a : a ∈ gqa_archs -> a ∉ mla_archs ++ [KIMI_K3].
Proof.
  assert (Forall (fun a => a ∉ mla_archs ++ [KIMI_K3]) gqa_archs) as H by (apply (bool_decide_unpack _); vm_compute; exact I).
  rewrite Forall_forall in H. apply H.
Qed.

Lemma validate_attention_Ok o s s' :
  validate_attention o s = Ok s' ->
  (s' = s \/ exists b, s' = set_block_size b s) /\
  (first_arch s <> "DeepseekV4ForCausalLM"%string -> s_kvcache_block_size s' mod 64 = 0) /\
  (first_arch s ∈ mla_archs -> o_attention_tp o = 1) /\
  (first_arch s ∈ gqa_archs -> o_attention_tp o > 1 -> forall h, s_kv_heads s = Some h -> 1 <= h /\ (o_attention_tp o | h)).
Proof.
  unfold validate_attention. destruct (decide (first_arch s ∈ mla_archs)) as [Hm|Hm].
  - intros H. ok_inv. split_and!; [| |lia|].
    + destruct (decide (first_arch s = _)); ok_inv; subst; eauto.
    + intros Hne. rewrite decide_False in H0 by done. by injection H0 as <-.
    + intros Hg. exfalso. apply (gqa_not_latent _ Hg), elem_of_app. by left.
  - intros H. ok_inv. set (s1 := if o_blackwell o then _ else _) in *.
    assert (s1 = s \/ exists b, s1 = set_block_size b s) as Hs1.
    { unfold s1. destruct (o_blackwell o); [eauto|]. destruct (decide (s_kvcache_block_size s mod 256 = 0)); eauto. }
    split_and!; [done| |done|].
    + intros _. apply Z.eqb_eq in H0. unfold s1. destruct (o_blackwell o); [done|].
      destruct (decide (s_kvcache_block_size s mod 256 = 0)); [done|]. cbn [s_kvcache_block_size set_block_size].
      rewrite (Z.mul_comm _ 256). replace 256 with (64 * 4) by done. rewrite <- Z.mul_assoc, Z.mul_comm. apply Z.mod_mul. done.
    + intros Hg Htp h Hh. rewrite decide_True in H1 by lia. ok_inv. rewrite decide_True in H1 by done.
      apply check_heads_Ok. rewrite <- Hh. destruct Hs1 as [->|[b ->]]; [destruct x0; exact H1|destruct x0; exact H1].
Qed.

Lemma validate_context_Ok o s s' :
  validate_context o s = Ok s' ->
  exists len pos, s' = set_context (Some len) (Some (IntLen pos)) (if decide (o_attention_sp o = 1) then set_recv_seqs 0 s else s) /\
    len <= pos /\ (s_max_model_len s = None -> 0 < len) /\ (forall n, s_max_model_len s = Some n -> len = n) /\
    1 <= o_max_num_batched_tokens o.
Proof.
  unfold validate_context. set (s1 := if decide (o_attention_sp o = 1) then _ else _).
  assert (s_max_model_len s1 = s_max_model_len s) as Hl by (unfold s1; by case_decide).
  intros H. ok_inv. rewrite Hl. rename x into found.
  assert (forall n, found = Some n -> 0 < n) as Hpos.
  { intros n ->. repeat (match goal with H : match ?x with _ => _ end = Ok _ |- _ => destruct x end; try done); ok_inv; repeat case_decide; ok_inv; lia. }
  eexists _, _. split; [done|]. destruct (s_max_model_len s) as [n|]; cbn.
  - split_and!; [lia|done|by intros ? [= ->]|lia].
  - split_and!; [lia| |done|lia]. intros _. destruct found as [k|]; cbn; [by apply Hpos|lia].
Qed.

Lemma validate_hisparse_Ok o s :
  validate_hisparse o s = Ok tt -> o_enable_hisparse o = true ->
  o_attention_sp o = 1 /\ o_attention_tp o = 1 /\
  (o_num_speculative_tokens o <> 0 -> (o_num_speculative_tokens o + 1) * int_or (mo_index_topk (o_model o)) 0 <= o_hisparse_device_buffer_size o).
Proof.
  unfold validate_hisparse, validate_hisparse_mtp. intros H He. rewrite He in H. ok_inv. split_and!; [lia|lia|]. intros Hn.
  rewrite decide_False in * by done. ok_inv. lia.
Qed.

Lemma validate_mtp_Ok o s : validate_mtp o s = Ok tt -> 0 <= o_num_speculative_tokens o.
Proof. unfold validate_mtp. intros H. ok_inv. lia. Qed.

(** The capacity of the buffers of one rank, times the ranks the rows are sharded over. *)
Lemma required_capacity_enough o :
  1 <= o_attention_tp o ->
  o_max_num_batched_tokens o <= required_capacity o * o_attention_tp o /\
  o_max_num_seqs o * (o_num_speculative_tokens o + 1) <= required_capacity o * o_attention_tp o.
Proof.
  intros Htp. unfold required_capacity. set (rows := Z.max _ _). set (tp := o_attention_tp o) in *.
  pose proof (Z.div_mod (rows + tp - 1) tp ltac:(lia)). pose proof (Z.mod_pos_bound (rows + tp - 1) tp ltac:(lia)).
  split; lia.
Qed.

Lemma validate_mega_moe_Ok o s s' :
  validate_mega_moe o s = Ok s' ->
  exists a v, architecture s = Ok a /\
    s' = (if decide (a ∈ mla_archs ++ [KIMI_K3])
          then if has_kv_heads o s then set_kv_heads (Some 1) (set_mega_moe v s) else set_mega_moe v s
          else set_mega_moe v s) /\
    (a = KIMI_K3 -> required_capacity o <= v) /\ v <> 0.
Proof.
  unfold validate_mega_moe. intros H. ok_inv. exists x.
  assert (exists v, x0 = set_mega_moe v s /\ (x = KIMI_K3 -> required_capacity o <= v) /\ v <> 0) as (v & -> & ? & ?).
  { assert (forall t, t = set_mega_moe (s_mega_moe t) t) as Hid by by intros [].
    destruct (decide (x = KIMI_K3)) as [->|Hne].
    - destruct (decide (s_mega_moe s = 0)); [|destruct (decide (s_mega_moe s < required_capacity o)); [done|]]; ok_inv; eexists; split_and!; eauto; lia.
    - destruct (decide (s_mega_moe s = 0)); ok_inv; eexists; split_and!; eauto; done. }
  exists v. done.
Qed.

Lemma validate_l3_Ok o s :
  exists b, validate_l3 o s = set_l3 b s /\ (b = true -> o_attention_sp o = 1 /\ o_attention_tp o = 1 /\ o_mode o <> Decode).
Proof.
  assert (forall t, t = set_l3 (s_l3_enable t) t) as Hid by by intros [].
  unfold validate_l3. destruct (s_l3_enable s) eqn:Hl; [|exists false; split; [by rewrite <- Hl|done]].
  destruct (decide (o_attention_sp o <> 1 \/ o_attention_tp o <> 1)); [by exists false|].
  destruct (decide (o_mode o = Decode)); [by exists false|].
  exists true. split; [by rewrite <- Hl|]. intros _. split_and!; lia || done.
Qed.

Lemma validate_pp_Ok o s s' :
  validate_pp o s = Ok s' ->
  1 <= o_pp o /\ (s' = s \/ s' = set_eager true s) /\
  (o_pp o > 1 -> s' = set_eager true s /\ o_mode o <> Decode /\ first_arch s ∈ supported_pp_archs /\
    (exists n, HfConfig.num_hidden_layers (mo_hf (o_model o)) = Some n /\ o_pp o <= n) /\
    (first_arch s ∈ gemma4_archs -> exists start, get_gemma4_shared_kv_source_start (mo_hf (o_model o)) = Ok start /\
       match start with Some f => o_pp o - 1 <= f | None => True end)).
Proof.
  unfold validate_pp. intros H. ok_inv. split; [lia|].
  destruct (decide (o_pp o > 1)) as [Hp|Hp]; [|ok_inv; split; [by left|lia]]. ok_inv. split; [by right|]. intros _.
  repeat match goal with H : bool_decide _ = true |- _ => apply bool_decide_eq_true in H end.
  split_and!; [done| |done| |].
  - match goal with H : negb (bool_decide (o_mode o = Decode)) = true |- _ => by apply negb_true_iff, bool_decide_eq_false in H end.
  - destruct (HfConfig.num_hidden_layers _) as [n|]; [|done]. exists n. split; [done|lia].
  - intros Hg. rewrite decide_True in * by done. exists x4. split; [done|]. destruct x4; [lia|done].
Qed.

(** The settings a validation starts with: the address normalised, the architecture inferred. *)
Definition prepared (o : Options) (s : Settings) : Settings :=
  infer_architectures o (set_ctrl_address (normalize_ctrl_address (s_ctrl_address s)) s).

(** What validated settings promise the rest of the engine. *)
Record sound_settings (o : Options) (s' : Settings) : Prop := {
  (** KV pages hold a multiple of 64 tokens, except in the ratio pools of DeepSeek-V4. *)
  ss_block : first_arch s' <> "DeepseekV4ForCausalLM"%string -> s_kvcache_block_size s' mod 64 = 0;
  (** The published KV heads of a worker are an exact, positive share. *)
  ss_heads : first_arch s' ∈ gqa_archs -> o_attention_tp o > 1 -> forall h, s_kv_heads s' = Some h ->
    exists k, published_kv_heads (engine_config o s') = Ok k /\ 0 < k /\ k * o_attention_tp o = h;
  (** Latent attention is never sharded, and has one KV head. *)
  ss_mla : first_arch s' ∈ mla_archs -> o_attention_tp o = 1 /\ forall h, s_kv_heads s' = Some h -> h = 1;
  (** The context length is set, and the position table covers it. *)
  ss_context : exists len pos, s_max_model_len s' = Some len /\ s_max_position_embeddings s' = Some (IntLen pos) /\ 0 < len <= pos;
  (** The MegaMoE buffers of Kimi K3 hold the rows of any forward. *)
  ss_mega_moe : first_arch s' = KIMI_K3 ->
    o_max_num_batched_tokens o <= s_mega_moe s' * o_attention_tp o /\
    o_max_num_seqs o * (o_num_speculative_tokens o + 1) <= s_mega_moe s' * o_attention_tp o;
  (** A verification step's candidates fit the hot buffer. *)
  ss_hisparse : o_enable_hisparse o = true -> 0 < o_num_speculative_tokens o ->
    (o_num_speculative_tokens o + 1) * int_or (mo_index_topk (o_model o)) 0 <= o_hisparse_device_buffer_size o;
  ss_l3 : s_l3_enable s' = true -> o_attention_sp o = 1 /\ o_attention_tp o = 1 /\ o_mode o <> Decode;
  ss_pp : o_pp o > 1 -> s_enforce_eager s' = true /\ o_mode o <> Decode
}.

(** A decoder with the layers its configuration says, and a layer type for each where a
    shared-KV suffix is located by type. *)
Definition model_shape (o : Options) (s : Settings) (n : Z) : Prop :=
  let hf := mo_hf (o_model o) in
  0 <= n /\ default 0 (HfConfig.num_hidden_layers hf) = n /\
  (first_arch s ∈ gemma4_archs ->
   int_or (HfConfig.num_kv_shared_layers hf) 0 <= n /\ exists types, HfConfig.layer_types hf = Some types /\ zlen types = n).

(** The stages change only their own settings. *)
Lemma validate_config_stages o s s' :
  validate_config o s = Ok s' ->
  s_architectures s' = s_architectures (prepared o s) /\ (exists a, architecture (prepared o s) = Ok a) /\
  exists s1 s2 s3 s4, validate_glm5_next o (prepared o s) = Ok s1 /\ validate_attention o s1 = Ok s2 /\
    validate_context o s2 = Ok s3 /\ validate_hisparse o s3 = Ok tt /\ validate_mtp o s3 = Ok tt /\
    validate_mega_moe o s3 = Ok s4 /\ validate_pp o (validate_l3 o s4) = Ok s' /\
    s_architectures s1 = s_architectures s' /\ s_architectures s3 = s_architectures s' /\ s_architectures s4 = s_architectures s' /\
    s_kv_heads s3 = s_kv_heads s1 /\ s_kvcache_block_size s' = s_kvcache_block_size s2 /\ s_kv_heads s' = s_kv_heads s4 /\
    s_max_model_len s2 = s_max_model_len s /\ s_max_model_len s' = s_max_model_len s3 /\
    s_max_position_embeddings s' = s_max_position_embeddings s3 /\ s_mega_moe s' = s_mega_moe s4.
Proof.
  unfold validate_config. fold (prepared o s). intros H. ok_inv. rename x into s1, x0 into s2, x1 into s3, x4 into s4.
  pose proof (validate_glm5_next_Ok _ _ _ H0) as H1'. pose proof (validate_attention_Ok _ _ _ H1) as [H2' _].
  pose proof (validate_context_Ok _ _ _ H2) as (len & pos & Hs3 & _). pose proof (validate_mega_moe_Ok _ _ _ H5) as (a & v & Ha & Hs4 & _).
  destruct (validate_l3_Ok o s4) as (b & Hb & _). pose proof (validate_pp_Ok _ _ _ H) as (_ & Hs' & _). rewrite Hb in Hs'.
  assert (s_max_model_len (prepared o s) = s_max_model_len s) as Hp.
  { unfold prepared, infer_architectures. destruct (s_architectures _) as [[|]|]; [|done|];
      by destruct (decide (mo_model_type (o_model o) = Some "glm5_next"%string)). }
  assert (s_architectures s3 = s_architectures s2 /\ s_kv_heads s3 = s_kv_heads s2 /\ s_kvcache_block_size s3 = s_kvcache_block_size s2) as (E3 & K3 & B3).
  { rewrite Hs3. by destruct (decide (o_attention_sp o = 1)). }
  assert (s_architectures s2 = s_architectures s1 /\ s_kv_heads s2 = s_kv_heads s1 /\ s_max_model_len s2 = s_max_model_len s1) as (E2 & K2 & L2).
  { by destruct H2' as [->|[? ->]]. }
  assert (s_architectures s1 = s_architectures (prepared o s) /\ s_max_model_len s1 = s_max_model_len (prepared o s)) as (E1 & L1).
  { by destruct H1' as [->| ->]. }
  assert (s_architectures s4 = s_architectures s3 /\ s_kvcache_block_size s4 = s_kvcache_block_size s3 /\
          s_max_model_len s4 = s_max_model_len s3 /\ s_max_position_embeddings s4 = s_max_position_embeddings s3) as (E4 & B4 & L4 & P4).
  { rewrite Hs4. destruct (decide (a ∈ mla_archs ++ [KIMI_K3])); [|done]. by destruct (has_kv_heads o s3). }
  assert (s_architectures s' = s_architectures s4 /\ s_kvcache_block_size s' = s_kvcache_block_size s4 /\ s_kv_heads s' = s_kv_heads s4 /\
          s_max_model_len s' = s_max_model_len s4 /\ s_max_position_embeddings s' = s_max_position_embeddings s4 /\ s_mega_moe s' = s_mega_moe s4)
    as (E & B & K & L & P & M) by by destruct Hs' as [->| ->].
  split; [congruence|]. split; [exists a; rewrite <- Ha; unfold architecture; by rewrite E3, E2, E1|].
  exists s1, s2, s3, s4. destruct x2, x3. split_and!; congruence || assumption.
Qed.

Lemma gemma4_source_start_bound hf n types f :
  HfConfig.num_hidden_layers hf = Some n -> int_or (HfConfig.num_kv_shared_layers hf) 0 <= n ->
  HfConfig.layer_types hf = Some types -> zlen types = n ->
  get_gemma4_shared_kv_source_start hf = Ok (Some f) -> 0 <= f < n.
Proof.
  intros Hn Hsh Ht Hl Hf. destruct (decide (int_or (HfConfig.num_kv_shared_layers hf) 0 <= 0)) as [Hz|Hz].
  { exfalso. revert Hf. unfold get_gemma4_shared_kv_source_start, num_layers_of. rewrite Hn. cbn -[int_or]. by rewrite decide_True. }
  destruct (HfConfig.num_kv_shared_layers hf) as [sh|] eqn:Hs; [|cbn in Hz; lia].
  assert (sh <> 0) by (intros ->; by apply Hz). rewrite int_or_nonzero in Hz, Hsh by done.
  destruct (gemma4_source_start_spec hf n sh types f) as [Hb _]; try done; lia.
Qed.

(** A validated split of the layers never fails. *)
Lemma validated_ranges o s s' n :
  validate_pp o s = Ok s' -> model_shape o s' n ->
  exists ranges, pp_layer_ranges (engine_config o s') = Ok ranges /\ zlen ranges = o_pp o /\ tiles 0 n ranges.
Proof.
  intros Hv (Hn & Hdef & Hg). apply validate_pp_Ok in Hv as (Hpp & Hs' & Hv).
  assert (first_arch s' = first_arch s) as Ha by by destruct Hs' as [->| ->].
  unfold pp_layer_ranges. change (ec_pp (engine_config o s')) with (o_pp o). change (arch (ec_hf (engine_config o s'))) with (first_arch s').
  change (HfConfig.num_hidden_layers (ec_hf (engine_config o s'))) with (HfConfig.num_hidden_layers (mo_hf (o_model o))). rewrite Hdef.
  change (get_gemma4_shared_kv_source_start (ec_hf (engine_config o s'))) with (get_gemma4_shared_kv_source_start (mo_hf (o_model o))).
  enough (exists f ranges, (if decide (o_pp o > 1 /\ first_arch s' ∈ gemma4_archs) then get_gemma4_shared_kv_source_start (mo_hf (o_model o)) else Ok None) = Ok f /\
            pp_layer_partition n (o_pp o) f = Ok ranges) as (f & ranges & -> & Hr).
  { exists ranges. split; [done|]. apply pp_layer_partition_spec in Hr as [? ?]; [|done]. split; [lia|done]. }
  destruct (decide (o_pp o > 1 /\ first_arch s' ∈ gemma4_archs)) as [[Hp Hga]|Hno].
  - destruct (Hv Hp) as (_ & _ & _ & (n' & Hnl & Hle) & Hstart). rewrite Ha in Hga. destruct (Hstart Hga) as (f & Hf & Hfb).
    rewrite <- Ha in Hga. destruct (Hg Hga) as (Hsh & types & Ht & Hlen). exists f. rewrite Hf. rewrite Hnl in Hdef. cbn in Hdef. subst n'.
    enough (exists ranges, pp_layer_partition n (o_pp o) f = Ok ranges) as [r ?] by by exists r.
    unfold pp_layer_partition. rewrite Z.max_r by lia. rewrite decide_False by lia. destruct f as [f|]; [|eauto].
    assert (0 <= f < n) by by eapply gemma4_source_start_bound.
    rewrite !decide_False by lia. eauto.
  - exists None. unfold pp_layer_partition. destruct (decide (Z.max 1 (o_pp o) = 1)); eauto.
Qed.

(** C23. The options the validator accepts are the ones the rest of the engine can run: the
    layers split into one range per stage, every layer in exactly one range (whatever the
    model, Gemma4's shared suffix included), and the settings are [sound_settings] — page
    size, head shares, context length, MegaMoE and HiSparse capacities, L3 and pipeline
    restrictions. *)
Theorem validated_options_sound o s s' n :
  1 <= o_attention_tp o -> (forall len, s_max_model_len s = Some len -> 0 < len) ->
  validate_config o s = Ok s' -> model_shape o s' n ->
  (exists ranges, pp_layer_ranges (engine_config o s') = Ok ranges /\ zlen ranges = o_pp o /\ tiles 0 n ranges) /\
  sound_settings o s'.
Proof.
  intros Htp Hlen Hv Hshape.
  destruct (validate_config_stages _ _ _ Hv) as (Harch & [a Ha] & s1 & s2 & s3 & s4 & H1 & H2 & H3 & H4 & H5 & H6 & H7 &
    E1 & E3 & E4 & K3 & B & K & L2 & L & P & M).
  split; [by eapply validated_ranges|].
  assert (forall t, s_architectures t = s_architectures s' -> first_arch t = first_arch s') as Hfa by (intros t Ht; unfold first_arch; by rewrite Ht).
  assert (a = first_arch s') as ->.
  { unfold first_arch. rewrite Harch. by apply architecture_first. }
  apply validate_attention_Ok in H2 as (_ & Hblk & Hmla & Hgqa). rewrite (Hfa _ E1) in *.
  apply validate_context_Ok in H3 as (len & pos & -> & Hle & Hnone & Hsome & _).
  apply validate_mega_moe_Ok in H6 as (a & v & Ha' & Hs4 & Hcap & Hv0).
  assert (a = first_arch s') as ->.
  { rewrite <- (Hfa _ E3). by apply architecture_first. }
  destruct (validate_l3_Ok o s4) as (b & Hb & Hl3). pose proof (validate_pp_Ok _ _ _ H7) as (Hpp & Hs' & Hgt). rewrite Hb in *.
  set (s3 := set_context _ _ _) in *.
  constructor.
  - by rewrite B.
  - intros Hg Htp' h Hh. assert (s_kv_heads s4 = s_kv_heads s3) as K4.
    { rewrite Hs4, decide_False; [done|]. by apply gqa_not_latent. }
    destruct (Hgqa Hg Htp' h) as [Hh1 [k Hk]]; [by rewrite <- K3, <- K4, <- K|].
    exists k. unfold published_kv_heads. change (num_key_value_heads (ec_hf (engine_config o s'))) with (s_kv_heads s'). rewrite Hh. cbn.
    unfold py_floordiv. rewrite decide_False by lia. rewrite Hk, Z.div_mul by lia. split_and!; [done|nia|done].
  - intros Hm. split; [by apply Hmla|]. intros h. rewrite K, Hs4, decide_True by (apply elem_of_app; by left).
    destruct (has_kv_heads o s3) eqn:Hkh; cbn [s_kv_heads set_kv_heads set_mega_moe]; [by intros [= <-]|].
    intros Hh. unfold has_kv_heads in Hkh. by rewrite Hh in Hkh.
  - exists len, pos. rewrite L, P. split_and!; [done|done| |done].
    rewrite L2 in *. destruct (s_max_model_len s) as [l|] eqn:Hml; [rewrite (Hsome l) by done; by apply Hlen|by apply Hnone].
  - intros Hk. destruct (required_capacity_enough o Htp) as [HA HB]. specialize (Hcap Hk).
    assert (s_mega_moe s' = v) as ->.
    { rewrite M, Hs4. destruct (decide (first_arch s' ∈ mla_archs ++ [KIMI_K3])); [|done]. by destruct (has_kv_heads o s3). }
    split; nia.
  - intros He Hn. apply validate_hisparse_Ok in H4 as (_ & _ & Hh); [|done]. apply Hh. lia.
  - intros He. apply Hl3. destruct Hs' as [Hs'|Hs']; rewrite Hs' in He; exact He.
  - intros Hp. destruct (Hgt Hp) as (-> & ? & _). done.
Qed.

(** Six Gemma4 layers, the last two sharing KV, on two stages of two ranks each. *)
Definition gemma4_options : Options :=
  mk_options (mk_model gemma4_example None (Some 8) None None None (Some (IntLen 8192)) None (Some 256) (Some 256) [])
    false 4096 0 0 16 0 2 1 1 1 2 1 2 Hybrid false 0 false false 0 0 100 0 0.
Definition gemma4_settings : Settings := initial_settings gemma4_options (lit "ctrl:80") 0 64 4 None 0 true false.

Definition gemma4_validated : Settings :=
  mk_settings (lit "http://ctrl:80") (HfConfig.architectures gemma4_example) 0 256 0 (Some 8192) (Some (IntLen 8192)) 256
    (HfConfig.num_key_value_heads gemma4_example) false true.

Example gemma4_validates : validate_config gemma4_options gemma4_settings = Ok gemma4_validated.
Proof. vm_compute. reflexivity. Qed.

Lemma validated_options_sound_witness :
  exists ranges, pp_layer_ranges (engine_config gemma4_options gemma4_validated) = Ok ranges /\ zlen ranges = 2 /\ tiles 0 6 ranges.
Proof.
  apply (validated_options_sound gemma4_options gemma4_settings gemma4_validated 6).
  - vm_compute. discriminate.
  - intros len H. discriminate H.
  - vm_compute. reflexivity.
  - split; [lia|]. split; [reflexivity|]. intros _. split; [vm_compute; discriminate|]. eexists. split; vm_compute; reflexivity.
Defined.
