(* ===== verification/Microbatch.v ===== *)
(** Batches sent to the workers and their division into prefill microbatches
    ([rust/src/proto/wire.rs]: [WireBatch] and [prefill_microbatches], which
    [_run_static_pp_prefill_pipeline] of [dlengine/engine/llm_engine.py] calls on every
    batch).  Indices are [nat], as Rust's [usize]; a slice out of range panics. *)

From S2P Require Import Prelude.

(** A batch; floating-point temperatures are their bit patterns. *)
Record WireBatch := mk_batch {
  wb_is_prefill : bool;
  input_ids : list Z;
  positions : list Z;
  seq_lens : list Z;
  block_tables : list (list Z);
  temperatures : list Z;
  state_slots : list Z;
  compressed_block_tables : gmap Z (list (list Z));
  hisparse_slots : list Z;
  wb_seq_ids : list Z;
  sample_mask : list bool;
  any_return_completion_logprobs : bool;
  is_dummy : bool
}.

(** [WireBatch::empty] *)
Definition empty_batch (prefill : bool) : WireBatch := mk_batch prefill [] [] [] [] [] [] ∅ [] [] [] false false.

(** [WireBatch::dummy] *)
Definition dummy_batch (prefill : bool) : WireBatch :=
  mk_batch prefill [0%Z] [0%Z] [1%Z] [[]] [0%Z] [(-1)%Z] ∅ [(-1)%Z] [0%Z] [true] false true.

(** [&v\[start..stop\]] *)
Definition rust_slice {A} (v : list A) (start stop : nat) : result (list A) :=
  if decide (start <= stop <= length v) then Ok (take (stop - start) (drop start v)) else Err PanicException.

Notation fragment_metadata := (list (nat * bool)) (only parsing).

(** The state of the packing loop: the finished microbatches and the open one. *)
Record Packer := mk_packer {
  pk_result : list (WireBatch * fragment_metadata);
  pk_batch : WireBatch;
  pk_metadata : fragment_metadata
}.

(** [make_microbatch] *)
Definition make_microbatch (b : WireBatch) : WireBatch :=
  mk_batch true [] [] [] [] [] [] ((fun _ => []) <$> compressed_block_tables b) [] [] []
    (any_return_completion_logprobs b) false.

Definition flush (b : WireBatch) (p : Packer) : Packer :=
  mk_packer (pk_result p ++ [(pk_batch p, pk_metadata p)]) (make_microbatch b) [].

(** The open microbatch extended by the tokens [start..stop] of row [i]. *)
Definition push_fragment (b : WireBatch) (i start stop : nat) (is_last : bool) (m : WireBatch) : result WireBatch :=
  ids ← rust_slice (input_ids b) start stop;
  pos ← rust_slice (positions b) start stop;
  Ok (mk_batch (wb_is_prefill m) (input_ids m ++ ids) (positions m ++ pos)
        (seq_lens m ++ [Z.of_nat (stop - start)])
        (block_tables m ++ [default [] (block_tables b !! i)])
        (temperatures m ++ [default 0%Z (temperatures b !! i)])
        (state_slots m ++ [default (-1)%Z (state_slots b !! i)])
        (map_imap (fun ratio rows => Some (default [] (compressed_block_tables m !! ratio) ++ [default [] (rows !! i)]))
           (compressed_block_tables b))
        (hisparse_slots m ++ [default (-1)%Z (hisparse_slots b !! i)])
        (wb_seq_ids m ++ [default 0%Z (wb_seq_ids b !! i)])
        (sample_mask m ++ [is_last && default true (sample_mask b !! i)])
        (any_return_completion_logprobs m) (is_dummy m)).

(** The [while] loop over the fragments of one row.  Two iterations suffice per token
    ([pack_row_spec]). *)
Fixpoint pack_row (fuel : nat) (b : WireBatch) (max_tokens i seq_end start : nat) (p : Packer) : result Packer :=
  match fuel with
  | O => Ok p
  | S fuel =>
      if decide (start < seq_end) then
        let remaining := max_tokens - length (input_ids (pk_batch p)) in
        if decide (remaining = 0) then pack_row fuel b max_tokens i seq_end start (flush b p)
        else
          let stop := Nat.min (start + remaining) seq_end in
          let is_last := bool_decide (stop = seq_end) in
          m ← push_fragment b i start stop is_last (pk_batch p);
          let p := mk_packer (pk_result p) m (pk_metadata p ++ [(i, is_last)]) in
          let p := if decide (length (input_ids m) = max_tokens) then flush b p else p in
          pack_row fuel b max_tokens i seq_end stop p
      else Ok p
  end.

(** The [for] loop over the rows, from row [i] at [token_offset]. *)
Fixpoint pack_rows (b : WireBatch) (max_tokens i token_offset : nat) (lens : list Z) (p : Packer) : result Packer :=
  match lens with
  | [] => Ok p
  | l :: lens =>
      let seq_len := Z.to_nat l in
      if decide (seq_len = 0) then pack_rows b max_tokens (S i) token_offset lens p
      else
        let seq_end := token_offset + seq_len in
        p ← pack_row (2 * seq_len + 1) b max_tokens i seq_end token_offset p;
        pack_rows b max_tokens (S i) seq_end lens p
  end.

(** [prefill_microbatches] *)
Definition prefill_microbatches (max_tokens : nat) (b : WireBatch) : result (list (WireBatch * fragment_metadata)) :=
  if decide (wb_is_prefill b = false \/ is_dummy b = true \/ max_tokens = 0 \/ seq_lens b = []) then
    Ok [(b, omap (fun x : nat * Z => if decide (0 < snd x)%Z then Some (fst x, true) else None)
              (imap (fun i l => (i, l)) (seq_lens b)))]
  else
    p ← pack_rows b max_tokens 0 0 (seq_lens b) (mk_packer [] (make_microbatch b) []);
    let result := if decide (input_ids (pk_batch p) = []) then pk_result p
                  else pk_result p ++ [(pk_batch p, pk_metadata p)] in
    Ok (if decide (result = []) then [(b, [])] else result).

(** * What a division into microbatches is *)

(** A fragment: row, first token and end in [input_ids]. *)
Notation cut := (prod (prod nat nat) nat) (only parsing).

Section division.
Context (b : WireBatch).

(** Rows lie one after the other in [input_ids]. *)
Definition row_lens : list nat := Z.to_nat <$> seq_lens b.
Definition row_start (i : nat) : nat := sum_list (take i row_lens).
Definition row_end (i : nat) : nat := sum_list (take (S i) row_lens).
Definition span {A} (v : list A) (c : cut) : list A := let '(_, s, e) := c in take (e - s) (drop s v).
Definition is_last_cut (c : cut) : bool := let '(i, _, e) := c in bool_decide (e = row_end i).

(** Microbatch [m] consists of the fragments [cuts], each with the data of its row. *)
Record describes (m : WireBatch) (md : fragment_metadata) (cuts : list cut) : Prop := {
  de_metadata : md = (fun c => (fst (fst c), is_last_cut c)) <$> cuts;
  de_prefill : wb_is_prefill m = true;
  de_dummy : is_dummy m = false;
  de_logprobs : any_return_completion_logprobs m = any_return_completion_logprobs b;
  de_input_ids : input_ids m = concat (span (input_ids b) <$> cuts);
  de_positions : positions m = concat (span (positions b) <$> cuts);
  de_seq_lens : seq_lens m = (fun '(_, s, e) => Z.of_nat (e - s)) <$> cuts;
  de_block_tables : block_tables m = (fun c => default [] (block_tables b !! fst (fst c))) <$> cuts;
  de_temperatures : temperatures m = (fun c => default 0%Z (temperatures b !! fst (fst c))) <$> cuts;
  de_state_slots : state_slots m = (fun c => default (-1)%Z (state_slots b !! fst (fst c))) <$> cuts;
  de_compressed : forall ratio, compressed_block_tables m !! ratio =
    (fun rows => (fun c => default [] (rows !! fst (fst c))) <$> cuts) <$> compressed_block_tables b !! ratio;
  de_hisparse : hisparse_slots m = (fun c => default (-1)%Z (hisparse_slots b !! fst (fst c))) <$> cuts;
  de_seq_ids : wb_seq_ids m = (fun c => default 0%Z (wb_seq_ids b !! fst (fst c))) <$> cuts;
  de_sample_mask : sample_mask m = (fun c => is_last_cut c && default true (sample_mask b !! fst (fst c))) <$> cuts
}.

Lemma describes_nil : describes (make_microbatch b) [] [].
Proof. split; try done. intros ratio. simpl. by rewrite lookup_fmap. Qed.

Lemma describes_push m md cuts i start stop :
  describes m md cuts -> start <= stop <= length (input_ids b) -> length (positions b) = length (input_ids b) ->
  exists m', push_fragment b i start stop (bool_decide (stop = row_end i)) m = Ok m' /\
    describes m' (md ++ [(i, bool_decide (stop = row_end i))]) (cuts ++ [(i, start, stop)]) /\
    length (input_ids m') = length (input_ids m) + (stop - start).
Proof.
  intros [] Hs Hp. unfold push_fragment, rust_slice. rewrite !decide_True by lia. simpl. eexists. split; [done|]. split.
  - split; simpl; rewrite ?fmap_app, ?concat_app; simpl; rewrite ?app_nil_r; try congruence.
    intros ratio. rewrite map_lookup_imap, de_compressed0. destruct (compressed_block_tables b !! ratio); [|done]. simpl.
    by rewrite fmap_app.
  - simpl. rewrite length_app, length_take, length_drop. lia.
Qed.

(** The fragments of row [i] from [s] to [e], in order and without gaps. *)
Inductive row_cuts (i : nat) : nat -> nat -> list cut -> Prop :=
  | row_cuts_nil e : row_cuts i e e []
  | row_cuts_cons s m e cuts : s < m <= e -> row_cuts i m e cuts -> row_cuts i s e ((i, s, m) :: cuts).

(** The fragments of all rows from row [i] on. *)
Inductive all_cuts : nat -> list nat -> list cut -> Prop :=
  | all_cuts_nil i : all_cuts i [] []
  | all_cuts_cons i l lens cuts cuts' :
      row_cuts i (row_start i) (row_end i) cuts -> all_cuts (S i) lens cuts' -> all_cuts i (l :: lens) (cuts ++ cuts').

(** Every fragment but the last ends its row. *)
Definition ends_rows (cuts : list cut) : Prop := Forall (fun c => is_last_cut c = true) (removelast cuts).

(** Invariant of the packing loop: closed microbatches are full, the open one is not; only a
    full microbatch ends inside a row. *)
Record packed (max_tokens : nat) (p : Packer) (closed : list (list cut)) (cuts : list cut) : Prop := {
  pa_closed : Forall2 (fun x cs => describes (fst x) (snd x) cs /\ length (input_ids (fst x)) = max_tokens) (pk_result p) closed;
  pa_open : describes (pk_batch p) (pk_metadata p) cuts;
  pa_room : length (input_ids (pk_batch p)) < max_tokens;
  pa_ends : Forall ends_rows closed;
  pa_open_ends : Forall (fun c => is_last_cut c = true) cuts
}.

Lemma packed_flush max_tokens p closed cuts :
  0 < max_tokens -> Forall2 (fun x cs => describes (fst x) (snd x) cs /\ length (input_ids (fst x)) = max_tokens) (pk_result p) closed ->
  describes (pk_batch p) (pk_metadata p) cuts -> length (input_ids (pk_batch p)) = max_tokens ->
  Forall ends_rows closed -> ends_rows cuts ->
  packed max_tokens (flush b p) (closed ++ [cuts]) [].
Proof.
  intros H0 Hc Ho Hl He Hec. split; simpl; [|apply describes_nil|done|apply Forall_app; auto|constructor].
  apply Forall2_app; [done|]. constructor; [done|constructor].
Qed.

Lemma pack_row_spec max_tokens i fuel start p closed cuts :
  0 < max_tokens -> row_end i <= length (input_ids b) -> length (positions b) = length (input_ids b) ->
  start <= row_end i -> row_end i - start < fuel -> packed max_tokens p closed cuts ->
  exists p' closed' cuts' new, pack_row fuel b max_tokens i (row_end i) start p = Ok p' /\
    packed max_tokens p' closed' cuts' /\ concat closed' ++ cuts' = (concat closed ++ cuts) ++ new /\
    row_cuts i start (row_end i) new.
Proof.
  intros H0 Hend Hpos. revert start p closed cuts. induction fuel as [|fuel IH]; intros start p closed cuts Hs Hf Hp; [lia|].
  simpl. case_decide as Hlt; [|exists p, closed, cuts, []; assert (start = row_end i) as -> by lia; rewrite app_nil_r; auto using row_cuts].
  pose proof Hp as [Hc Ho Hr He Hoe]. rewrite decide_False by lia.
  set (stop := Nat.min _ _). assert (start < stop <= row_end i) as Hstop by lia.
  destruct (describes_push _ _ _ i start stop Ho) as (m & -> & Hm & Hl); [lia|done|]. simpl.
  destruct (decide (length (input_ids m) = max_tokens)) as [Hfull|Hfull].
  - destruct (IH stop (flush b (mk_packer (pk_result p) m (pk_metadata p ++ [(i, bool_decide (stop = row_end i))])))
      (closed ++ [cuts ++ [(i, start, stop)]]) []) as (p' & cl' & cu' & new & Hrun & Hp' & Hcat & Hnew); [lia|lia|apply packed_flush; [done|exact Hc|exact Hm|exact Hfull|exact He|unfold ends_rows; by rewrite removelast_last]|].
    exists p', cl', cu', ((i, start, stop) :: new). split; [done|]. split; [done|]. split; [|constructor; [lia|done]].
    rewrite Hcat, concat_app. simpl. rewrite !app_nil_r, <- !app_assoc. done.
  - destruct (IH stop (mk_packer (pk_result p) m (pk_metadata p ++ [(i, bool_decide (stop = row_end i))])) closed (cuts ++ [(i, start, stop)]))
      as (p' & cl' & cu' & new & Hrun & Hp' & Hcat & Hnew); [lia|lia|split; simpl; [done|done|lia|done|]|].
    { apply Forall_app. split; [done|]. constructor; [|constructor]. simpl. apply bool_decide_eq_true. lia. }
    exists p', cl', cu', ((i, start, stop) :: new). split; [done|]. split; [done|]. split; [|constructor; [lia|done]].
    rewrite Hcat, <- !app_assoc. done.
Qed.

Lemma row_end_next i l : row_lens !! i = Some l -> row_end i = row_start i + l.
Proof. intros Hl. unfold row_end, row_start. rewrite (take_S_r _ _ _ Hl), sum_list_with_app. simpl. lia. Qed.

Lemma sum_list_take_le (l : list nat) k : sum_list (take k l) <= sum_list l.
Proof. revert k. induction l as [|x l IH]; intros [|k]; simpl; [lia..|]. specialize (IH k). lia. Qed.

Lemma pack_rows_spec max_tokens i lens p closed cuts :
  0 < max_tokens -> sum_list row_lens = length (input_ids b) -> length (positions b) = length (input_ids b) ->
  drop i row_lens = Z.to_nat <$> lens -> packed max_tokens p closed cuts ->
  exists p' closed' cuts' new, pack_rows b max_tokens i (row_start i) lens p = Ok p' /\
    packed max_tokens p' closed' cuts' /\ concat closed' ++ cuts' = (concat closed ++ cuts) ++ new /\
    all_cuts i (Z.to_nat <$> lens) new.
Proof.
  intros H0 Hsum Hpos. revert i p closed cuts. induction lens as [|l lens IH]; intros i p closed cuts Hd Hp.
  { exists p, closed, cuts, []. rewrite app_nil_r. auto using all_cuts. }
  csimpl in Hd. assert (row_lens !! i = Some (Z.to_nat l)) as Hi.
  { rewrite <- (Nat.add_0_r i), <- lookup_drop, Hd. done. }
  assert (drop (S i) row_lens = Z.to_nat <$> lens) as Hd'.
  { rewrite <- Nat.add_1_r, <- drop_drop, Hd. done. }
  pose proof (row_end_next _ _ Hi) as He. simpl.
  assert (row_start (S i) = row_end i) as Hn by done.
  case_decide as Hz.
  - destruct (IH (S i) p closed cuts Hd' Hp) as (p' & cl' & cu' & new & Hrun & Hp' & Hcat & Hnew).
    exists p', cl', cu', new. rewrite Hn in Hrun. rewrite He, Hz, Nat.add_0_r in Hrun.
    split; [done|]. split; [done|]. split; [done|]. csimpl. rewrite <- (app_nil_l new). constructor; [|done].
    rewrite He, Hz, Nat.add_0_r. constructor.
  - rewrite <- He.
    destruct (pack_row_spec max_tokens i (2 * Z.to_nat l + 1) (row_start i) p closed cuts) as (p1 & cl1 & cu1 & new1 & Hrun1 & Hp1 & Hcat1 & Hnew1);
      [done|rewrite <- Hsum; apply sum_list_take_le|done|lia|lia|done|].
    simpl in Hrun1. rewrite Hrun1. simpl. rewrite <- Hn.
    destruct (IH (S i) p1 cl1 cu1 Hd' Hp1) as (p' & cl' & cu' & new & Hrun & Hp' & Hcat & Hnew).
    exists p', cl', cu', (new1 ++ new). split; [done|]. split; [done|]. split; [by rewrite Hcat, Hcat1, <- !app_assoc|].
    csimpl. by constructor.
Qed.

(** A batch as the scheduler serialises it. *)
Record wf_prefill : Prop := {
  wf_is_prefill : wb_is_prefill b = true;
  wf_not_dummy : is_dummy b = false;
  wf_tokens : sum_list row_lens = length (input_ids b);
  wf_positions : length (positions b) = length (input_ids b);
  wf_seq_ids : length (wb_seq_ids b) = length (seq_lens b);
  wf_masks : length (sample_mask b) = length (seq_lens b)
}.

Lemma packed_tokens max_tokens (res : list (WireBatch * fragment_metadata)) closed :
  Forall2 (fun x cs => describes (fst x) (snd x) cs /\ length (input_ids (fst x)) = max_tokens) res closed ->
  length (concat (span (input_ids b) <$> concat closed)) = length res * max_tokens.
Proof.
  induction 1 as [|x cs res closed [Hd Hl] _ IH]; [done|]. simpl.
  rewrite fmap_app, concat_app, length_app, IH, <- (de_input_ids _ _ _ Hd). lia.
Qed.

Lemma row_cuts_span {A} (v : list A) i s e cuts :
  row_cuts i s e cuts -> e <= length v -> concat (span v <$> cuts) = take (e - s) (drop s v).
Proof.
  induction 1 as [e|s m e cuts Hs _ IH]; intros He; [by rewrite Nat.sub_diag|].
  csimpl. rewrite IH by done. assert (e - s = (m - s) + (e - m)) as -> by lia. rewrite <- take_take_drop, drop_drop.
  do 3 f_equal. lia.
Qed.

Lemma row_cuts_le i s e cuts : row_cuts i s e cuts -> s <= e.
Proof. induction 1; lia. Qed.

Lemma all_cuts_span {A} (v : list A) i lens cuts :
  all_cuts i lens cuts -> drop i row_lens = lens -> sum_list row_lens = length v ->
  concat (span v <$> cuts) = drop (row_start i) v.
Proof.
  induction 1 as [i|i l lens cuts cuts' Hc _ IH]; intros Hd Hv.
  - unfold row_start. rewrite take_ge, Hv, drop_all; [done|].
    destruct (decide (length row_lens <= i)); [done|]. destruct (lookup_lt_is_Some_2 row_lens i) as [x Hx]; [lia|].
    rewrite (drop_S _ _ _ Hx) in Hd. done.
  - assert (drop (S i) row_lens = lens) as Hd' by (rewrite <- Nat.add_1_r, <- drop_drop, Hd; done).
    rewrite fmap_app, concat_app, IH by done. rewrite (row_cuts_span _ _ _ _ _ Hc) by (rewrite <- Hv; apply sum_list_take_le).
    pose proof (row_cuts_le _ _ _ _ Hc) as Hle. change (row_start (S i)) with (row_end i).
    rewrite <- (take_drop (row_end i - row_start i) (drop (row_start i) v)) at 2. f_equal. rewrite drop_drop. f_equal. lia.
Qed.

(** No fragment is empty. *)
Lemma row_cuts_nonempty i s e cuts c :
  row_cuts i s e cuts -> e <= length (input_ids b) -> c ∈ cuts -> span (input_ids b) c <> [].
Proof.
  induction 1 as [|s m e cuts Hs Hc IH]; intros Hle Hin; [by apply elem_of_nil in Hin|].
  pose proof (row_cuts_le _ _ _ _ Hc). apply elem_of_cons in Hin as [->|Hin]; [|by apply IH]. simpl. intros Hn%(f_equal length).
  rewrite length_take, length_drop in Hn. simpl in Hn. lia.
Qed.

Lemma all_cuts_nonempty i lens cuts :
  all_cuts i lens cuts -> sum_list row_lens = length (input_ids b) -> forall c, c ∈ cuts -> span (input_ids b) c <> [].
Proof.
  induction 1 as [|i l lens cuts cuts' Hc _ IH]; intros Hsum c Hin; [by apply elem_of_nil in Hin|].
  apply elem_of_app in Hin as [Hin|Hin]; [|by apply IH].
  apply (row_cuts_nonempty _ _ _ _ _ Hc); [|done]. rewrite <- Hsum. apply sum_list_take_le.
Qed.

Lemma prefill_microbatches_spec max_tokens :
  wf_prefill -> 0 < max_tokens -> 0 < length (input_ids b) ->
  exists res cutss, prefill_microbatches max_tokens b = Ok res /\
    Forall2 (fun x cs => describes (fst x) (snd x) cs) res cutss /\
    Forall (fun x => 0 < length (input_ids (fst x)) <= max_tokens) res /\
    (length res - 1) * max_tokens < length (input_ids b) <= length res * max_tokens /\
    all_cuts 0 row_lens (concat cutss) /\ Forall ends_rows cutss.
Proof.
  intros [Hp Hnd Hsum Hpos _ _] H0 Htok. unfold prefill_microbatches. rewrite decide_False; cycle 1.
  { rewrite Hp, Hnd. intros [?|[?|[?|Hn]]]; try (done || lia). unfold row_lens in Hsum. rewrite Hn in Hsum. simpl in Hsum. lia. }
  destruct (pack_rows_spec max_tokens 0 (seq_lens b) (mk_packer [] (make_microbatch b) []) [] [] H0 Hsum Hpos eq_refl)
    as (p & closed & cuts & new & Hrun & [Hc Ho Hr Hends Hopen] & Hcat & Hnew).
  { split; simpl; [constructor|apply describes_nil|done|constructor|constructor]. }
  unfold row_start in Hrun. simpl in Hrun, Hcat. rewrite Hrun. simpl. subst new. fold row_lens in Hnew.
  pose proof (all_cuts_span (input_ids b) _ _ _ Hnew eq_refl Hsum) as Hall. unfold row_start in Hall. simpl in Hall. rewrite drop_0 in Hall.
  assert (length (pk_result p) * max_tokens + length (input_ids (pk_batch p)) = length (input_ids b)) as Hlen.
  { rewrite <- Hall, fmap_app, concat_app, length_app, (packed_tokens _ _ _ Hc), <- (de_input_ids _ _ _ Ho). lia. }
  assert (Forall (fun x => 0 < length (input_ids (fst x)) <= max_tokens) (pk_result p)) as Hf.
  { eapply Forall2_Forall_l; [exact Hc|]. apply Forall_true. intros cs x [_ Hx]. lia. }
  assert (Forall2 (fun x cs => describes (fst x) (snd x) cs) (pk_result p) closed) as Hc2 by (eapply Forall2_impl; [exact Hc|]; by intros ?? [? _]).
  destruct (decide (input_ids (pk_batch p) = [])) as [He|He].
  - rewrite He in Hlen. simpl in Hlen. rewrite decide_False by (intros Hn; rewrite Hn in Hlen; simpl in Hlen; lia).
    assert (cuts = []) as ->.
    { destruct cuts as [|[[i s] e] cuts]; [done|]. exfalso. pose proof (de_input_ids _ _ _ Ho) as Hi. rewrite He in Hi. csimpl in Hi.
      symmetry in Hi. apply app_eq_nil in Hi as [Hi _].
      by apply (all_cuts_nonempty _ _ _ Hnew Hsum (i, s, e)); [apply elem_of_app; right; left|]. }
    rewrite app_nil_r in Hnew. exists (pk_result p), closed. split; [done|]. split; [done|]. split; [done|]. split; [|done]. nia.
  - rewrite decide_False by (intros [_ ?]%app_eq_nil; done).
    exists (pk_result p ++ [(pk_batch p, pk_metadata p)]), (closed ++ [cuts]). split; [done|].
    assert (0 < length (input_ids (pk_batch p))) by (destruct (input_ids (pk_batch p)); [done|simpl; lia]).
    split; [apply Forall2_app; [done|constructor; [done|constructor]]|].
    split; [apply Forall_app; split; [done|constructor; [simpl; lia|constructor]]|].
    split; [rewrite length_app; simpl; nia|]. split; [rewrite concat_app; simpl; by rewrite app_nil_r|].
    apply Forall_app. split; [done|]. constructor; [|constructor]. unfold ends_rows.
    destruct cuts as [|c cuts] using rev_ind; [constructor|]. rewrite removelast_last. by apply Forall_app in Hopen as [? _].
Qed.
End division.

(** * Rows as token streams *)

Fixpoint split_rows {A} (lens : list nat) (l : list A) : list (list A) :=
  match lens with
  | [] => []
  | n :: lens => take n l :: split_rows lens (drop n l)
  end.

(** The rows of a batch: the sequence and the tokens fed to it. *)
Definition batch_rows (b : WireBatch) : list (Z * list Z) := zip (wb_seq_ids b) (split_rows (row_lens b) (input_ids b)).

(** All tokens [rows] feed to a sequence. *)
Definition fed (id : Z) (rows : list (Z * list Z)) : list Z := concat (snd <$> filter (fun r => fst r = id) rows).

Definition row_tokens (b : WireBatch) (i : nat) : list Z := take (row_end b i - row_start b i) (drop (row_start b i) (input_ids b)).

Lemma fed_app id r1 r2 : fed id (r1 ++ r2) = fed id r1 ++ fed id r2.
Proof. unfold fed. by rewrite filter_app, fmap_app, concat_app. Qed.

Lemma split_rows_concat {A} (ls : list (list A)) : split_rows (length <$> ls) (concat ls) = ls.
Proof. induction ls as [|l ls IH]; [done|]. csimpl. rewrite take_app_length, drop_app_length. by rewrite IH. Qed.

Lemma length_split_rows {A} lens (l : list A) : length (split_rows lens l) = length lens.
Proof. revert l. induction lens as [|n lens IH]; intros l; [done|]. simpl. by rewrite IH. Qed.

Lemma split_rows_lookup {A} lens (l : list A) i n :
  lens !! i = Some n -> split_rows lens l !! i = Some (take n (drop (sum_list (take i lens)) l)).
Proof.
  revert l i. induction lens as [|m lens IH]; intros l [|i] Hi; simpl in *; [done..| |].
  - injection Hi as ->. by rewrite drop_0.
  - rewrite IH by done. by rewrite drop_drop.
Qed.

Lemma batch_rows_lookup b i id :
  wb_seq_ids b !! i = Some id -> (i < length (seq_lens b)) -> batch_rows b !! i = Some (id, row_tokens b i).
Proof.
  intros Hid Hi. unfold batch_rows. apply lookup_zip_Some. split; [done|].
  destruct (lookup_lt_is_Some_2 (row_lens b) i) as [n Hn]; [unfold row_lens; by rewrite length_fmap|].
  rewrite (split_rows_lookup _ _ _ _ Hn). unfold row_tokens. f_equal. f_equal. rewrite (row_end_next b _ _ Hn). lia.
Qed.

Lemma length_batch_rows b : wf_prefill b -> length (batch_rows b) = length (seq_lens b).
Proof.
  intros [_ _ _ _ Hid _]. unfold batch_rows. rewrite length_zip_with, length_split_rows. unfold row_lens. rewrite length_fmap. lia.
Qed.

Section cuts.
Context (b : WireBatch) (Hwf : wf_prefill b) (Hnd : NoDup (wb_seq_ids b)).

Notation seq_id c := (default 0%Z (wb_seq_ids b !! fst (fst (c : cut)))).

Lemma row_cuts_row i s e cuts : row_cuts i s e cuts -> Forall (fun c : cut => fst (fst c) = i) cuts.
Proof. induction 1; constructor; done. Qed.

Lemma row_cuts_bounded i s e cuts : row_cuts i s e cuts -> Forall (fun c : cut => let '(_, a, z) := c in a <= z /\ z <= e) cuts.
Proof. induction 1 as [|s m e cuts Hs H IH]; constructor; [lia|done]. Qed.

Lemma all_cuts_rows i lens cuts : all_cuts b i lens cuts -> Forall (fun c : cut => i <= fst (fst c) < i + length lens) cuts.
Proof.
  induction 1 as [|i l lens cuts cuts' Hc _ IH]; [constructor|]. apply Forall_app. split.
  - eapply Forall_impl; [by eapply row_cuts_row|]. simpl. intros c ->. lia.
  - eapply Forall_impl; [exact IH|]. simpl. intros c Hcc. lia.
Qed.

Lemma all_cuts_bounded i lens cuts :
  all_cuts b i lens cuts -> Forall (fun c : cut => let '(_, a, z) := c in a <= z <= length (input_ids b)) cuts.
Proof.
  destruct Hwf as [_ _ Hsum _ _ _]. induction 1 as [|i l lens cuts cuts' Hc _ IH]; [constructor|]. apply Forall_app. split; [|done].
  eapply Forall_impl; [by eapply row_cuts_bounded|]. intros [[? a] z] [Ha Hz].
  assert (row_end b i <= length (input_ids b)) by (rewrite <- Hsum; apply sum_list_take_le). lia.
Qed.

(** The rows of a microbatch are its fragments. *)
Lemma describes_rows m md cuts :
  describes b m md cuts -> Forall (fun c : cut => let '(_, a, z) := c in a <= z <= length (input_ids b)) cuts ->
  batch_rows m = (fun c => (seq_id c, span (input_ids b) c)) <$> cuts.
Proof.
  intros [] Hb. unfold batch_rows, row_lens. rewrite de_seq_ids0, de_seq_lens0, de_input_ids0.
  assert (Z.to_nat <$> ((fun '(_, s, e) => Z.of_nat (e - s)) <$> cuts) = length <$> (span (input_ids b) <$> cuts)) as ->.
  { rewrite <- !list_fmap_compose. apply list_fmap_ext. intros k [[i s] e] Hk. simpl. rewrite Nat2Z.id.
    rewrite Forall_forall in Hb. apply list_elem_of_lookup_2, Hb in Hk. rewrite length_take, length_drop. lia. }
  rewrite split_rows_concat. clear. induction cuts as [|c cuts IH]; [done|]. csimpl. by rewrite <- IH.
Qed.

(** The last fragment of a row that has tokens, and all before it. *)
Lemma row_cuts_last i s e cuts :
  row_cuts i s e cuts -> s < e -> exists pre a, cuts = pre ++ [(i, a, e)].
Proof.
  induction 1 as [|s m e cuts Hs Hc IH]; intros Hlt; [lia|]. destruct (decide (m < e)) as [Hm|Hm].
  - destruct (IH Hm) as (pre & a & ->). by exists ((i, s, m) :: pre), a.
  - assert (m = e) as -> by lia. inversion Hc; subst; [by exists [], s|lia].
Qed.

Lemma all_cuts_last i lens cuts j :
  all_cuts b i lens cuts -> i <= j < i + length lens -> row_start b j < row_end b j ->
  exists pre a post, cuts = pre ++ (j, a, row_end b j) :: post /\ Forall (fun c : cut => fst (fst c) <> j) post /\
    filter (fun c : cut => fst (fst c) = j) (pre ++ [(j, a, row_end b j)]) <> [] /\
    row_cuts j (row_start b j) (row_end b j) (filter (fun c : cut => fst (fst c) = j) (pre ++ [(j, a, row_end b j)])).
Proof.
  induction 1 as [|i l lens cuts cuts' Hc Hall IH]; intros Hj Hlt; [simpl in Hj; lia|]. simpl in Hj.
  pose proof (row_cuts_row _ _ _ _ Hc) as Hrow. destruct (decide (j = i)) as [->|Hne].
  - destruct (row_cuts_last _ _ _ _ Hc Hlt) as (pre & a & ->). exists pre, a, cuts'. split; [by rewrite <- app_assoc|]. split.
    + eapply Forall_impl; [by eapply all_cuts_rows|]. simpl. intros c Hcc. lia.
    + rewrite filter_all by done. split; [by destruct pre|done].
  - destruct IH as (pre & a & post & -> & Hpost & Hnn & Hr); [lia|done|]. exists (cuts ++ pre), a, post. split; [by rewrite app_assoc|]. split; [done|].
    rewrite <- app_assoc, filter_app, (filter_none _ cuts); [by split|]. eapply Forall_impl; [exact Hrow|]. simpl. intros c ->. done.
Qed.

(** Among rows with distinct ids, the tokens fed to row [j] are those of its own
    fragments. *)
Lemma fed_cuts j cuts :
  j < length (seq_lens b) -> Forall (fun c : cut => fst (fst c) < length (seq_lens b)) cuts ->
  fed (seq_id (j, 0, 0)) ((fun c => (seq_id c, span (input_ids b) c)) <$> cuts) =
  concat (span (input_ids b) <$> filter (fun c : cut => fst (fst c) = j) cuts).
Proof.
  intros Hj. induction 1 as [|c cuts Hc _ IH]; [done|]. destruct Hwf as [_ _ _ _ Hids _].
  destruct (lookup_lt_is_Some_2 (wb_seq_ids b) (fst (fst c))) as [x Hx]; [lia|].
  destruct (lookup_lt_is_Some_2 (wb_seq_ids b) j) as [y Hy]; [lia|].
  unfold fed in *. simpl in *. csimpl. rewrite !filter_cons. simpl. rewrite Hx, Hy in *. simpl in *.
  destruct (decide (fst (fst c) = j)) as [Heq|Hne].
  - rewrite decide_True by congruence. csimpl. by rewrite IH.
  - rewrite decide_False; [done|]. intros ->. apply Hne. by eapply NoDup_lookup.
Qed.

Lemma fed_row_before j :
  j < length (seq_lens b) -> fed (seq_id (j, 0, 0)) (take (S j) (batch_rows b)) = row_tokens b j.
Proof.
  intros Hj. pose proof Hwf as [_ _ _ _ Hids _]. destruct (lookup_lt_is_Some_2 (wb_seq_ids b) j) as [y Hy]; [lia|]. simpl. rewrite Hy. simpl.
  rewrite (take_S_r _ _ _ (batch_rows_lookup b j y Hy Hj)), fed_app.
  assert (fed y (take j (batch_rows b)) = []) as ->.
  { unfold fed. rewrite filter_none; [done|]. apply Forall_forall. intros [z t] Hin Hz. simpl in Hz. subst z.
    apply list_elem_of_lookup in Hin as [k Hk]. apply lookup_take_Some in Hk as [Hk Hlt].
    unfold batch_rows in Hk. apply lookup_zip_Some in Hk as [Hk _]. simpl in Hk.
    pose proof (NoDup_lookup _ _ _ _ Hnd Hk Hy). lia. }
  unfold fed. rewrite filter_cons_True by done. simpl. by rewrite app_nil_r.
Qed.

(** Over all fragments every sequence is fed what the unsplit batch feeds it. *)
Lemma fed_all_cuts i lens cuts id :
  all_cuts b i lens cuts -> drop i (row_lens b) = lens ->
  fed id ((fun c => (seq_id c, span (input_ids b) c)) <$> cuts) = fed id (drop i (batch_rows b)).
Proof.
  pose proof Hwf as [_ _ Hsum _ Hids _]. induction 1 as [i|i l lens cuts cuts' Hc _ IH]; intros Hd.
  - rewrite drop_ge; [done|]. rewrite (length_batch_rows b Hwf). apply (f_equal length) in Hd. unfold row_lens in Hd.
    rewrite length_drop, length_fmap in Hd. simpl in Hd. lia.
  - assert (drop (S i) (row_lens b) = lens) as Hd' by (rewrite <- Nat.add_1_r, <- drop_drop, Hd; done).
    assert (i < length (seq_lens b)) as Hi.
    { apply (f_equal length) in Hd. unfold row_lens in Hd. rewrite length_drop, length_fmap in Hd. simpl in Hd. lia. }
    destruct (lookup_lt_is_Some_2 (wb_seq_ids b) i) as [y Hy]; [lia|].
    rewrite (drop_S _ _ _ (batch_rows_lookup b i y Hy Hi)), fmap_app, fed_app, (IH Hd').
    change ((y, row_tokens b i) :: ?l) with ([(y, row_tokens b i)] ++ l). rewrite fed_app. f_equal.
    rewrite list_fmap_ext with (g := fun c => (y, span (input_ids b) c)); cycle 1.
    { intros k c Hk. apply list_elem_of_lookup_2 in Hk. pose proof (row_cuts_row _ _ _ _ Hc) as Hr. rewrite Forall_forall in Hr.
      by rewrite (Hr _ Hk), Hy. }
    unfold fed. rewrite filter_cons. simpl. destruct (decide (y = id)) as [->|Hne].
    + rewrite filter_all by (apply Forall_fmap, Forall_true; done). simpl. rewrite app_nil_r, <- list_fmap_compose.
      unfold compose. simpl. unfold row_tokens. apply (row_cuts_span _ _ _ _ _ Hc).
      rewrite <- Hsum. apply sum_list_take_le.
    + rewrite filter_none; [done|]. apply Forall_fmap, Forall_true. done.
Qed.
End cuts.

(** * A batch and its microbatches *)

(** A batch without tokens is sent as it is. *)
Lemma prefill_microbatches_empty max_tokens b :
  wf_prefill b -> 0 < max_tokens -> length (input_ids b) = 0 -> prefill_microbatches max_tokens b = Ok [(b, [])].
Proof.
  intros [Hp Hnd Hsum Hpos _ _] H0 Htok. unfold prefill_microbatches.
  destruct (seq_lens b) as [|l0 ls] eqn:Els; [rewrite decide_True by auto; done|].
  rewrite decide_False by (rewrite Hp, Hnd; intros [?|[?|[?|Hn]]]; (done || lia)).
  destruct (pack_rows_spec b max_tokens 0 (seq_lens b) (mk_packer [] (make_microbatch b) []) [] [] H0 Hsum Hpos eq_refl)
    as (p & closed & cuts & new & Hrun & [Hc Ho Hr Hends Hopen] & Hcat & Hnew).
  { split; simpl; [constructor|apply describes_nil|done|constructor|constructor]. }
  unfold row_start in Hrun. simpl in Hrun, Hcat. rewrite Els in Hrun. rewrite Hrun. simpl. subst new. fold (row_lens b) in Hnew.
  pose proof (all_cuts_span b (input_ids b) _ _ _ Hnew eq_refl Hsum) as Hall. apply (f_equal length) in Hall.
  rewrite length_drop, Htok, fmap_app, concat_app, length_app, (packed_tokens _ _ _ _ Hc), <- (de_input_ids _ _ _ _ Ho) in Hall.
  assert (pk_result p = []) as -> by (destruct (pk_result p); [done|simpl in Hall; lia]).
  assert (input_ids (pk_batch p) = []) as -> by (destruct (input_ids (pk_batch p)); [done|simpl in Hall; lia]).
  rewrite !decide_True by done. done.
Qed.

(** What the engine relies on of the division: the rows of the microbatches, in order, feed
    every sequence the tokens of the batch, and the last fragment of row [i], the only one
    marked for it, is reached when all tokens of the row have been fed. *)
Record division (b : WireBatch) (fs : list (WireBatch * fragment_metadata)) : Prop := {
  di_some : fs <> [];
  di_kind f : f ∈ fs -> wb_is_prefill (fst f) = true /\ is_dummy (fst f) = false;
  di_logprobs f : f ∈ fs -> any_return_completion_logprobs (fst f) = any_return_completion_logprobs b;
  di_fed id : fed id (concat ((fun f => batch_rows (fst f)) <$> fs)) = fed id (batch_rows b);
  di_aligned f : f ∈ fs -> row_lens b <> [] -> length (input_ids b) <> 0 ->
    length (snd f) = length (batch_rows (fst f)) /\ length (sample_mask (fst f)) = length (batch_rows (fst f));
  di_empty : length (input_ids b) = 0 -> fs = [(b, [])];
  di_last i id : wb_seq_ids b !! i = Some id -> row_start b i < row_end b i ->
    exists k pre post, concat (snd <$> fs) = pre ++ (i, true) :: post /\ length pre = k /\ (i, true) ∉ post /\
      concat ((fun f => sample_mask (fst f)) <$> fs) !! k = Some (default true (sample_mask b !! i)) /\
      (exists t, concat ((fun f => batch_rows (fst f)) <$> fs) !! k = Some (id, t)) /\
      fed id (take (S k) (concat ((fun f => batch_rows (fst f)) <$> fs))) = row_tokens b i
}.

Lemma describes_all b (fs : list (WireBatch * fragment_metadata)) cutss :
  wf_prefill b -> Forall2 (fun x cs => describes b (fst x) (snd x) cs) fs cutss ->
  Forall (fun c : cut => let '(_, a, z) := c in a <= z <= length (input_ids b)) (concat cutss) ->
  concat ((fun f => batch_rows (fst f)) <$> fs) = (fun c => (default 0%Z (wb_seq_ids b !! fst (fst c)), span (input_ids b) c)) <$> concat cutss /\
  concat ((fun f => sample_mask (fst f)) <$> fs) = (fun c => is_last_cut b c && default true (sample_mask b !! fst (fst c))) <$> concat cutss /\
  concat (snd <$> fs) = (fun c : cut => (fst (fst c), is_last_cut b c)) <$> concat cutss.
Proof.
  intros Hwf. induction 1 as [|f cs fs cutss Hd _ IH]; intros Hb; [done|]. csimpl. simpl in Hb. apply Forall_app in Hb as [Hb1 Hb2].
  destruct (IH Hb2) as (-> & -> & ->). rewrite !fmap_app. rewrite (describes_rows b _ _ _ Hd Hb1), (de_sample_mask _ _ _ _ Hd), (de_metadata _ _ _ _ Hd).
  done.
Qed.

Lemma prefill_microbatches_divide max_tokens b :
  wf_prefill b -> NoDup (wb_seq_ids b) -> 0 < max_tokens ->
  exists fs, prefill_microbatches max_tokens b = Ok fs /\ division b fs.
Proof.
  intros Hwf Hnd H0. pose proof Hwf as [Hp Hd Hsum _ Hids Hms]. destruct (decide (length (input_ids b) = 0)) as [Hz|Hz].
  { exists [(b, [])]. split; [by apply prefill_microbatches_empty|].
    split; try done; [by intros f ->%list_elem_of_singleton|by intros f ->%list_elem_of_singleton|intros id; simpl; by rewrite app_nil_r|].
    intros i id _ Hlt. pose proof (sum_list_take_le (row_lens b) (S i)). unfold row_end in Hlt. lia. }
  destruct (prefill_microbatches_spec b max_tokens Hwf H0) as (fs & cutss & Hfs & Hde & Hsz & Hn & Hall & _); [lia|].
  exists fs. split; [done|]. pose proof (all_cuts_bounded b Hwf _ _ _ Hall) as Hb.
  destruct (describes_all b fs cutss Hwf Hde Hb) as (Hrows & Hmasks & Hmd).
  assert (forall f, f ∈ fs -> exists cs, describes b (fst f) (snd f) cs /\
            Forall (fun c : cut => let '(_, a, z) := c in a <= z <= length (input_ids b)) cs) as Hf.
  { clear -Hde Hb. induction Hde as [|x cs fs cutss Hd _ IH]; intros f Hin; [by apply elem_of_nil in Hin|].
    simpl in Hb. apply Forall_app in Hb as [Hb1 Hb2]. apply elem_of_cons in Hin as [->|Hin]; [by exists cs|by apply IH]. }
  split.
  - intros ->. simpl in Hn. lia.
  - intros f Hin. destruct (Hf f Hin) as (cs & [] & _). done.
  - intros f Hin. destruct (Hf f Hin) as (cs & [] & _). done.
  - intros id. rewrite Hrows. by apply (fed_all_cuts b Hwf 0 (row_lens b)).
  - intros f Hin _ _. destruct (Hf f Hin) as (cs & Hde' & Hb'). rewrite (describes_rows b _ _ _ Hde' Hb').
    destruct Hde'. rewrite de_metadata0, de_sample_mask0, !length_fmap. done.
  - done.
  - intros i id Hid Hlt. assert (i < length (seq_lens b)) as Hi by (apply lookup_lt_Some in Hid; lia).
    destruct (all_cuts_last b 0 (row_lens b) (concat cutss) i Hall) as (pre & a & post & Hcut & Hpost & _ & Hr);
      [unfold row_lens; rewrite length_fmap; lia|done|].
    exists (length pre), ((fun c : cut => (fst (fst c), is_last_cut b c)) <$> pre), ((fun c : cut => (fst (fst c), is_last_cut b c)) <$> post).
    split; [rewrite Hmd, Hcut, fmap_app; csimpl; by rewrite bool_decide_eq_true_2 by done|].
    split; [by rewrite length_fmap|]. split.
    { intros (c & Hc & Hin)%list_elem_of_fmap. rewrite Forall_forall in Hpost. apply (Hpost c Hin). by injection Hc as <- _. }
    split. { rewrite Hmasks, Hcut, fmap_app, lookup_app_r; rewrite length_fmap; [|done]. rewrite Nat.sub_diag. csimpl. by rewrite bool_decide_eq_true_2 by done. }
    split. { eexists. rewrite Hrows, Hcut, fmap_app, lookup_app_r; rewrite length_fmap; [|done]. rewrite Nat.sub_diag. csimpl. by rewrite Hid. }
    rewrite Hrows, Hcut, cons_middle, app_assoc, fmap_app, take_app_le, take_ge; [|rewrite length_fmap, length_app; simpl; lia..].
    pose proof (fed_cuts b Hwf Hnd i (pre ++ [(i, a, row_end b i)]) Hi) as Hfed. simpl in Hfed. rewrite Hid in Hfed. simpl in Hfed.
    etransitivity; [apply Hfed|unfold row_tokens; apply (row_cuts_span _ _ _ _ _ Hr); rewrite <- Hsum; apply sum_list_take_le].
    pose proof (all_cuts_rows b _ _ _ Hall) as Hrs. rewrite Hcut, cons_middle, app_assoc in Hrs. apply Forall_app in Hrs as [Hrs _].
    eapply Forall_impl; [exact Hrs|]. simpl. intros c Hc. unfold row_lens in Hc. rewrite length_fmap in Hc. lia.
Qed.
