(* ===== verification/Scheduler.v ===== *)
(** The cache plan and the configuration of the scheduler
    ([dlengine/engine/scheduler.py], [dlengine/runtime/context/cache/plan.py]) and the part of
    [LLMEngine.__init__] that orders them around the allocation of the workers' caches.
    [CachePlan] and its specifications are the classes of [rust/src/config/mod.rs]. *)

From S2P Require Import Prelude HfConfig Cache Registration Microbatch.

Open Scope Z_scope.

(** * Cache plans *)

(** The bits of [CachePlanFlag]. *)
Definition Gqa : Z := Z.shiftl 1 0.
Definition Mla : Z := Z.shiftl 1 1.
Definition Gdn : Z := Z.shiftl 1 2.
Definition Hca : Z := Z.shiftl 1 3.
Definition Csa : Z := Z.shiftl 1 4.
Definition Indexer : Z := Z.shiftl 1 5.
Definition Hisparse : Z := Z.shiftl 1 6.

(** [HcaCacheSpec] and [CsaCacheSpec], as far as they are configured. *)
Record PoolSpec := mk_spec {
  compression_ratio : Z;
  spec_num_pages : Z;
  spec_page_size : Z;
  spec_max_blocks_per_seq : Z
}.

Definition new_spec : PoolSpec := mk_spec (-1) (-1) (-1) (-1).

Record CachePlan := mk_plan {
  flags : Z;
  plan_hca : PoolSpec;
  plan_csa : PoolSpec
}.

Definition has_flag (p : CachePlan) (flag : Z) : bool := negb (Z.land (flags p) flag =? 0).

(** [CachePlan.cache_mode] *)
Definition cache_mode (p : CachePlan) : string :=
  if has_flag p Hca || has_flag p Csa then "dsv4"
  else if has_flag p Mla || has_flag p Indexer then "mla"
  else "gqa".

(** [cache_plan(flags)] *)
Definition cache_plan (l : list Z) : CachePlan := mk_plan (foldl Z.lor 0 l) new_spec new_spec.

Definition gqa_cache_plan : CachePlan := cache_plan [Gqa].
Definition gqa_hisparse_cache_plan : CachePlan := cache_plan [Gqa; Hisparse].
Definition qwen35_cache_plan : CachePlan := cache_plan [Gqa; Gdn].
Definition kimi_k3_cache_plan : CachePlan := cache_plan [Mla; Gdn].
Definition glm5_next_cache_plan : CachePlan := cache_plan [Mla; Gdn; Indexer].
Definition deepseek_mla_cache_plan (use_indexer use_hisparse : bool) : CachePlan :=
  cache_plan ([Mla] ++ (if use_indexer then [Indexer] else []) ++ (if use_hisparse then [Hisparse] else [])).
Definition hca_csa_cache_plan : CachePlan := cache_plan [Hca; Csa].

(** * Configuration *)

Record Config := mk_config {
  cf_engine : EngineConfig;
  cf_max_num_batched_tokens : Z;
  cf_pp_prefill_scheduler_depth : Z;
  cf_disable_nsa : bool;
  cf_enable_prefix_cache : bool;
  cf_num_host_kvcache_blocks : Z;
  cf_cache_plan : option CachePlan
}.

Definition set_cache_plan (p : CachePlan) (c : Config) : Config :=
  mk_config (cf_engine c) (cf_max_num_batched_tokens c) (cf_pp_prefill_scheduler_depth c) (cf_disable_nsa c)
    (cf_enable_prefix_cache c) (cf_num_host_kvcache_blocks c) (Some p).

(** The pool of one ratio in [_configure_hca_csa_cache_plan], which computes the sizes by itself; the workers'
    are those of [allocate_dsv4_compressed_caches]. *)
Definition plan_page_size : Z := 2.

Definition plan_max_blocks_per_seq (c : EngineConfig) (ratio : Z) : Z :=
  let max_compressed := (ec_max_model_len c / ratio + 63) / 64 * 64 in
  (max_compressed + plan_page_size - 1) / plan_page_size.

Definition plan_override (c : EngineConfig) (ratio : Z) : Z :=
  if decide (ratio = 4) then ec_dsv4_pages_ratio4 c
  else if decide (ratio = 128) then ec_dsv4_pages_ratio128 c
  else 0.

Definition pool_spec (c : EngineConfig) (ratio : Z) : result PoolSpec :=
  let worst_case_pages := ec_max_num_seqs c * plan_max_blocks_per_seq c ratio in
  let override := plan_override c ratio in
  ratio' ← to_i32 ratio;
  pages ← to_i32 (if decide (override > 0) then override else worst_case_pages);
  blocks ← to_i32 (plan_max_blocks_per_seq c ratio);
  Ok (mk_spec ratio' pages plan_page_size blocks).

(** [_configure_hca_csa_cache_plan]: ratios from 64 on describe the HCA pool, the others the
    CSA pool. *)
Definition configure_hca_csa_cache_plan (p : CachePlan) (c : EngineConfig) : result CachePlan :=
  foldM_r (fun p ratio =>
      spec ← pool_spec c ratio;
      Ok (if decide (ratio >= 64) then mk_plan (flags p) spec (plan_csa p) else mk_plan (flags p) (plan_hca p) spec))
    p (unique_ratios (list_attr (compress_ratios (ec_hf c)))).

Definition linear_state_archs : list string := ["KimiK3ForConditionalGeneration"; "Glm5NextForConditionalGeneration"].
Definition gemma4_plan_archs : list string := ["Gemma4ForCausalLM"; "Gemma4ForConditionalGeneration"].

(** [_build_cache_plan_with_reason], without the text of the reason; [gdn] is
    [has_gdn_component(hf_config)]. *)
Definition build_cache_plan (c : Config) (gdn : bool) : result CachePlan :=
  let e := cf_engine c in let hf := ec_hf e in
  if has_hca_csa_cache hf then configure_hca_csa_cache_plan hca_csa_cache_plan e
  else if decide (arch hf ∈ linear_state_archs) then
    Ok (if decide (arch hf = "Glm5NextForConditionalGeneration") then glm5_next_cache_plan else kimi_k3_cache_plan)
  else if gdn then Ok qwen35_cache_plan
  else if decide (arch hf ∈ gemma4_plan_archs /\ ec_enable_hisparse e = true) then Ok gqa_hisparse_cache_plan
  else if decide (int_or (HfConfig.kv_lora_rank hf) 0 <> 0 \/ int_or (HfConfig.qk_rope_head_dim hf) 0 <> 0) then
    Ok (deepseek_mla_cache_plan (bool_decide (default 0 (HfConfig.index_head_dim hf) > 0) && negb (cf_disable_nsa c)) (ec_enable_hisparse e))
  else Ok gqa_cache_plan.

(** [ensure_cache_plan]: the plan is built once and kept in the configuration. *)
Definition ensure_cache_plan (gdn : bool) : act Config CachePlan := fun c =>
  match cf_cache_plan c with
  | Some p => (Ok p, c)
  | None => match build_cache_plan c gdn with
            | Ok p => (Ok p, set_cache_plan p c)
            | Err e => (Err e, c)
            end
  end.

(** [scheduler_token_budget] *)
Definition scheduler_depth (c : Config) : result Z :=
  let microbatch := cf_max_num_batched_tokens c in
  let pp := Z.max 1 (ec_pp (cf_engine c)) in
  if decide (cf_pp_prefill_scheduler_depth c > 0) then Ok (cf_pp_prefill_scheduler_depth c)
  else if decide (microbatch = 0) then Err ZeroDivisionError
  else
    let prompt := ec_max_model_len (cf_engine c) / microbatch + (if decide (ec_max_model_len (cf_engine c) mod microbatch > 0) then 1 else 0) in
    Ok (Z.min 64 (Z.max pp prompt)).

Definition scheduler_token_budget (c : Config) : result Z :=
  if decide (Z.max 1 (ec_pp (cf_engine c)) = 1) then Ok (cf_max_num_batched_tokens c)
  else
    depth ← scheduler_depth c;
    Ok (Z.min (ec_max_model_len (cf_engine c)) (cf_max_num_batched_tokens c * depth)).

(** [SchedulerConfig], its numeric fields. *)
Record SchedulerConfig := mk_scheduler_config {
  ss_num_speculative_tokens : Z;
  ss_max_num_seqs : Z;
  ss_max_num_batched_tokens : Z;
  ss_max_model_len : Z;
  ss_attention_dp : Z;
  ss_group_size : Z;
  ss_num_kvcache_blocks : Z;
  ss_num_host_kvcache_blocks : Z;
  ss_kvcache_block_size : Z;
  ss_gdn_state_cache_slots : Z;
  ss_enable_prefix_cache : bool;
  ss_cache_plan : CachePlan
}.

(** [build_scheduler_config] *)
Definition build_scheduler_config (c : Config) (p : CachePlan) : result SchedulerConfig :=
  budget ← scheduler_token_budget c;
  let e := cf_engine c in
  Ok (mk_scheduler_config (ec_num_speculative_tokens e) (ec_max_num_seqs e) budget (ec_max_model_len e) (ec_attention_dp e)
        (ec_attention_sp e) (ec_num_kvcache_blocks e) (cf_num_host_kvcache_blocks c) (ec_kvcache_block_size e)
        (Z.max 0 (ec_gdn_state_cache_slots e)) (cf_enable_prefix_cache c) p).

(** [init_scheduler] *)
Definition init_scheduler (gdn : bool) : act Config SchedulerConfig :=
  p ← ensure_cache_plan gdn;
  c ← get;
  lift (build_scheduler_config c p).

(** The start of an engine ([LLMEngine.__init__]): the plan, then the executor, whose workers
    receive the configuration as it is now and find [blocks] and [host_blocks], then the
    clamp of the service length, then the scheduler. *)
Definition engine_init (gdn : bool) (blocks host_blocks : Z) : act Config (EngineConfig * SchedulerConfig) :=
  _ ← ensure_cache_plan gdn;
  workers ← get;
  _ ← modify (fun c => mk_config (update_num_kvcache_blocks blocks (cf_engine c)) (cf_max_num_batched_tokens c)
                (cf_pp_prefill_scheduler_depth c) (cf_disable_nsa c) (cf_enable_prefix_cache c) host_blocks (cf_cache_plan c));
  s ← init_scheduler gdn;
  mret (cf_engine workers, s).

(** * Lemmas *)

Lemma two_ratios l :
  4 ∈ l -> 128 ∈ l -> Forall (fun r => r > 0 -> r = 4 \/ r = 128) l -> unique_ratios l = [4; 128].
Proof.
  intros H4 H128 Hf. rewrite Forall_forall in Hf. unfold unique_ratios.
  apply (StronglySorted_unique Z.le); [apply (StronglySorted_merge_sort Z.le)|repeat constructor; lia|].
  rewrite merge_sort_Permutation. apply NoDup_Permutation; [apply NoDup_remove_dups| |].
  - apply NoDup_cons. split; [rewrite list_elem_of_singleton; lia|apply NoDup_singleton].
  - intros x. rewrite elem_of_remove_dups, list_elem_of_filter, elem_of_cons, list_elem_of_singleton. split.
    + intros [Hp Hx]. by apply Hf.
    + intros [->| ->]; (split; [lia|done]).
Qed.

Lemma has_hca_csa_cache_ratios hf :
  has_hca_csa_cache hf = true -> 4 ∈ list_attr (compress_ratios hf) /\ 128 ∈ list_attr (compress_ratios hf).
Proof.
  unfold has_hca_csa_cache. rewrite bool_decide_eq_true. intros H.
  assert (forall r, r ∈ ({[4; 128]} : gset Z) -> r ∈ list_attr (compress_ratios hf)) as Hr.
  { intros r Hr. apply H in Hr. rewrite elem_of_list_to_set, list_elem_of_filter in Hr. tauto. }
  split; apply Hr; set_solver.
Qed.

Lemma pool_spec_Ok c ratio s :
  pool_spec c ratio = Ok s ->
  s = mk_spec ratio (if decide (plan_override c ratio > 0) then plan_override c ratio else ec_max_num_seqs c * plan_max_blocks_per_seq c ratio) plan_page_size
        (plan_max_blocks_per_seq c ratio).
Proof.
  unfold pool_spec. intros (r & Hr & H)%result_bind_Ok. apply result_bind_Ok in H as (p & Hp & H). apply result_bind_Ok in H as (b & Hb & H).
  apply to_i32_Ok in Hr, Hp, Hb. by injection H as <-; subst.
Qed.

(** The plan of a model with the two compressed pools. *)
Lemma compressed_plan c gdn p :
  has_hca_csa_cache (ec_hf (cf_engine c)) = true ->
  Forall (fun r => r > 0 -> r = 4 \/ r = 128) (list_attr (compress_ratios (ec_hf (cf_engine c)))) ->
  build_cache_plan c gdn = Ok p ->
  flags p = Z.lor Hca Csa /\ pool_spec (cf_engine c) 4 = Ok (plan_csa p) /\ pool_spec (cf_engine c) 128 = Ok (plan_hca p).
Proof.
  intros Hh Hf. unfold build_cache_plan. rewrite Hh. destruct (has_hca_csa_cache_ratios _ Hh) as [H4 H128].
  unfold configure_hca_csa_cache_plan. rewrite (two_ratios _ H4 H128 Hf). simpl.
  destruct (pool_spec (cf_engine c) 4) as [s4|]; [|done]. simpl. destruct (pool_spec (cf_engine c) 128) as [s128|]; [|done]. simpl.
  intros [= <-]. done.
Qed.

Lemma max_blocks_cover c ratio : 0 <= ec_max_model_len c -> 0 < ratio -> ec_max_model_len c / ratio <= plan_max_blocks_per_seq c ratio * plan_page_size.
Proof.
  intros Hl Hr. unfold plan_max_blocks_per_seq, plan_page_size. set (q := ec_max_model_len c / ratio).
  pose proof (Z.div_mod (q + 63) 64 ltac:(lia)). pose proof (Z.mod_pos_bound (q + 63) 64 ltac:(lia)).
  pose proof (Z.div_mod ((q + 63) / 64 * 64 + 2 - 1) 2 ltac:(lia)). pose proof (Z.mod_pos_bound ((q + 63) / 64 * 64 + 2 - 1) 2 ltac:(lia)). lia.
Qed.

(** The compression ratios of the attention modules of a stage with the layers from [start] to [stop]
    ([DeepseekV4Attention.__init__], collected by [_wire_dsv4_caches]). *)
Definition module_ratios (hf : HfConfig) (start stop : nat) : list Z :=
  (fun layer_idx => default 0 (list_attr (compress_ratios hf) !! layer_idx)) <$> seq start (stop - start).

(** The pool of a ratio on the workers of that stage. *)
Definition worker_pool (c : EngineConfig) (ctx : CacheContext) (start stop : nat) (ratio : Z) : option (Z * Z * Z) :=
  dsv4_compressed_pool_config (csa (wire_dsv4_pools c (module_ratios (ec_hf c) start stop) ctx)) !! ratio.

Lemma elem_of_unique_ratios r l : r ∈ unique_ratios l <-> r ∈ l /\ 0 < r.
Proof. unfold unique_ratios. rewrite merge_sort_Permutation, elem_of_remove_dups, list_elem_of_filter. naive_solver lia. Qed.

(** The ratios of a stage are those of its slice of the layers. *)
Lemma elem_of_module_ratios hf start stop ratio :
  0 < ratio -> ratio ∈ module_ratios hf start stop <-> ratio ∈ take (stop - start) (drop start (list_attr (compress_ratios hf))).
Proof.
  intros Hpos. unfold module_ratios. set (l := list_attr _). rewrite list_elem_of_fmap, list_elem_of_lookup. split.
  - intros (i & Hi & Hin%elem_of_seq). destruct (l !! i) as [r|] eqn:E; [|cbn in Hi; lia]. cbn in Hi. subst r. exists (i - start)%nat.
    rewrite lookup_take_lt, lookup_drop by lia. by replace (start + (i - start))%nat with i by lia.
  - intros [k Hk]. assert (k < stop - start)%nat by (apply lookup_lt_Some in Hk; rewrite length_take in Hk; lia). rewrite lookup_take_lt, lookup_drop in Hk by done.
    exists (start + k)%nat. rewrite Hk. split; [done|]. apply elem_of_seq. lia.
Qed.

(** The two computations of the sizes agree: the plan's and the allocation's. *)
Lemma worker_pool_spec c ctx start stop ratio s :
  0 < ratio -> pool_spec c ratio = Ok s ->
  worker_pool c ctx start stop ratio =
    if decide (ratio ∈ module_ratios (ec_hf c) start stop) then Some (spec_num_pages s, spec_page_size s, spec_max_blocks_per_seq s) else None.
Proof.
  intros Hpos ->%pool_spec_Ok. unfold worker_pool, wire_dsv4_pools. rewrite allocated_pool. cbn [spec_num_pages spec_page_size spec_max_blocks_per_seq].
  destruct (decide (ratio ∈ module_ratios (ec_hf c) start stop)) as [Hin|Hin]; [rewrite decide_True by (by apply elem_of_unique_ratios)|by rewrite decide_False by (rewrite elem_of_unique_ratios; tauto)].
  rewrite wire_override. unfold pool_pages, max_blocks_per_seq, plan_max_blocks_per_seq, plan_page_size, DSV4_COMPRESSED_PAGE_SIZE. done.
Qed.

(** * Properties *)

(** C30. The scheduler and the workers, which compute the sizes separately, agree on the compressed caches of a
    DeepSeek-V4 model: whatever number of KV blocks the workers find, and although the service length may be
    clamped to it before the scheduler is built, on every pipeline stage the CSA and HCA pools of the
    scheduler's plan have the pages, page size and blocks per sequence of the pool the workers of that
    stage allocated for the ratio, if a layer of the stage compresses by it, and no pool exists there
    otherwise; one sequence's blocks hold all its compressed entries, and the plan selects the DSv4 cache. *)
Theorem scheduler_pools_are_allocated c gdn blocks host_blocks ctx e s c' :
  cf_cache_plan c = None -> has_hca_csa_cache (ec_hf (cf_engine c)) = true ->
  Forall (fun r => r > 0 -> r = 4 \/ r = 128) (list_attr (compress_ratios (ec_hf (cf_engine c)))) -> 0 <= ec_max_model_len (cf_engine c) ->
  engine_init gdn blocks host_blocks c = (Ok (e, s), c') ->
  cache_mode (ss_cache_plan s) = "dsv4" /\
  forall ratio spec, (ratio, spec) ∈ [(4, plan_csa (ss_cache_plan s)); (128, plan_hca (ss_cache_plan s))] ->
    (forall start stop, worker_pool e ctx start stop ratio =
       if decide (ratio ∈ take (stop - start) (drop start (list_attr (compress_ratios (ec_hf e)))))
       then Some (spec_num_pages spec, spec_page_size spec, spec_max_blocks_per_seq spec) else None) /\
    compression_ratio spec = ratio /\
    ss_max_model_len s / ratio <= spec_max_blocks_per_seq spec * spec_page_size spec.
Proof.
  intros Hnone Hh Hf Hlen Hinit. unfold engine_init, init_scheduler, ensure_cache_plan in Hinit. unfold mbind, act_bind in Hinit.
  rewrite Hnone in Hinit. destruct (build_cache_plan c gdn) as [p|] eqn:Eb; [|done]. simpl in Hinit.
  destruct (compressed_plan _ _ _ Hh Hf Eb) as (Hfl & H4 & H128). unfold lift in Hinit.
  destruct (build_scheduler_config _ p) as [s0|] eqn:Es; [|done]. simpl in Hinit. injection Hinit as <- <- <-.
  unfold build_scheduler_config in Es. apply result_bind_Ok in Es as (budget & _ & Es). injection Es as <-. simpl.
  split; [unfold cache_mode, has_flag; by rewrite Hfl|].
  destruct (has_hca_csa_cache_ratios _ Hh) as [Hin4 Hin128].
  intros ratio spec Hin. rewrite elem_of_cons, list_elem_of_singleton in Hin.
  assert (ratio ∈ [4; 128] /\ pool_spec (cf_engine c) ratio = Ok spec) as [Hr Hs].
  { destruct Hin as [[= -> ->]|[= -> ->]]; (split; [|done]); [left|right; left]. }
  assert (0 < ratio) as Hpos by (destruct Hin as [[= -> _]|[= -> _]]; lia).
  split; [intros start stop; rewrite (worker_pool_spec _ _ _ _ _ spec) by done; apply decide_ext; by apply elem_of_module_ratios|].
  apply pool_spec_Ok in Hs as ->. cbn [compression_ratio spec_max_blocks_per_seq spec_page_size]. split; [done|].
  etransitivity; [|exact (max_blocks_cover (cf_engine c) ratio Hlen Hpos)].
  apply Z.div_le_mono; [done|]. clear. cbn. destruct (decide _); lia.
Qed.

(** The scheduler's window for one step of a pipelined engine: it never exceeds the
    longest sequence, a batch within it is cut into at most the configured number of
    microbatches, and with the automatic depth a whole prompt of maximal length fits in one
    window whenever it needs at most 64 microbatches. *)
Theorem token_budget_window c budget depth b fs :
  1 < ec_pp (cf_engine c) -> 1 <= cf_max_num_batched_tokens c -> 0 <= ec_max_model_len (cf_engine c) ->
  scheduler_depth c = Ok depth -> scheduler_token_budget c = Ok budget ->
  wf_prefill b -> NoDup (wb_seq_ids b) -> zlen (input_ids b) <= budget ->
  prefill_microbatches (Z.to_nat (cf_max_num_batched_tokens c)) b = Ok fs ->
  budget <= ec_max_model_len (cf_engine c) /\ 1 <= depth /\ zlen fs <= depth /\
  (cf_pp_prefill_scheduler_depth c <= 0 -> depth <= 64 /\
     (ec_max_model_len (cf_engine c) <= 64 * cf_max_num_batched_tokens c -> budget = ec_max_model_len (cf_engine c))).
Proof.
  intros Hpp Hmb Hlen Hd Hb Hwf Hnd Htok Hfs. unfold scheduler_token_budget in Hb. rewrite decide_False, Hd in Hb by lia. simpl in Hb.
  unfold scheduler_depth in Hd. remember (cf_max_num_batched_tokens c) as mb. remember (ec_max_model_len (cf_engine c)) as len. injection Hb as <-.
  pose proof (Z.div_mod len mb ltac:(lia)) as Hdm. pose proof (Z.mod_pos_bound len mb ltac:(lia)) as Hmod.
  assert (1 <= depth /\ (cf_pp_prefill_scheduler_depth c <= 0 -> depth <= 64 /\ (len <= 64 * mb -> len <= mb * depth))) as [Hd1 Hauto].
  { destruct (decide (cf_pp_prefill_scheduler_depth c > 0)); [injection Hd as <-; lia|].
    rewrite decide_False in Hd by lia. injection Hd as <-. split; [case_decide; lia|]. intros _. split; [lia|]. intros H64.
    destruct (decide (len mod mb > 0)); [|nia]. nia. }
  split; [lia|]. split; [done|]. split; [|intros Hp; destruct (Hauto Hp) as [? Hfit]; split; [done|]; intros H64; specialize (Hfit H64); lia].
  destruct (decide (length (input_ids b) = 0%nat)) as [Hz|Hz].
  - rewrite prefill_microbatches_empty in Hfs by (done || lia). injection Hfs as <-. unfold zlen. simpl. lia.
  - destruct (prefill_microbatches_spec b (Z.to_nat mb) Hwf ltac:(lia) ltac:(lia)) as (fs' & _ & Hfs' & _ & _ & Hn & _).
    rewrite Hfs in Hfs'. injection Hfs' as <-. unfold zlen in *. nia.
Qed.

(** ** Witnesses *)

Definition hf_ds4 : HfConfig :=
  mk_hf (Some ["DeepseekV4ForCausalLM"]) (Some 4) None None (Some [0; 4; 128; 4]) None None None None (Some 1) None None
    None None None None None true None ∅.

(** 8 sequences of up to 4096 tokens, of which the cache later turns out to hold 3200. *)
Definition ds4_config : Config :=
  mk_config (mk_engine_config hf_ds4 2 1 1 1 8 4096 0 64 0 0 false 0 40) 1024 0 false true 0 None.
Definition ds4_worker : EngineConfig := cf_engine ds4_config.
Definition ds4_scheduler : SchedulerConfig :=
  mk_scheduler_config 0 8 3200 3200 1 1 50 0 64 0 true (mk_plan 24 (mk_spec 128 40 2 32) (mk_spec 4 4096 2 512)).

Lemma scheduler_pools_are_allocated_witness :
  worker_pool ds4_worker (mla_context 4) 0 2 4 = Some (4096, 2, 512) /\ worker_pool ds4_worker (mla_context 4) 0 2 128 = None /\
  worker_pool ds4_worker (mla_context 4) 2 4 128 = Some (40, 2, 32).
Proof.
  destruct (scheduler_pools_are_allocated ds4_config false 50 0 (mla_context 4) ds4_worker ds4_scheduler
    (snd (engine_init false 50 0 ds4_config))) as [_ H].
  - reflexivity.
  - vm_compute. reflexivity.
  - repeat (constructor; [simpl; lia|]). constructor.
  - simpl. lia.
  - vm_compute. reflexivity.
  - destruct (H 4 (mk_spec 4 4096 2 512)) as [H4 _]; [left|]. destruct (H 128 (mk_spec 128 40 2 32)) as [H128 _]; [right; left|].
    split_and!; [rewrite (H4 0%nat 2%nat)|rewrite (H128 0%nat 2%nat)|rewrite (H128 2%nat 4%nat)]; reflexivity.
Defined.

Definition window_batch : WireBatch :=
  mk_batch true (replicate 2100 7) (seqZ 0 2100) [1200; 900] [[1]; [2]] [0; 0] [-1; -1] ∅ [-1; -1] [11; 12] [true; true] false false.
Definition window_fragments : list (WireBatch * list (nat * bool)) :=
  match prefill_microbatches (Z.to_nat (cf_max_num_batched_tokens ds4_config)) window_batch with Ok fs => fs | Err _ => [] end.

Lemma token_budget_window_witness :
  4096 <= 4096 /\ 1 <= 4 /\ zlen window_fragments <= 4 /\
  (cf_pp_prefill_scheduler_depth ds4_config <= 0 -> 4 <= 64 /\
     (ec_max_model_len (cf_engine ds4_config) <= 64 * cf_max_num_batched_tokens ds4_config -> 4096 = ec_max_model_len (cf_engine ds4_config))).
Proof.
  apply (token_budget_window ds4_config 4096 4 window_batch window_fragments); try (vm_compute; reflexivity || (vm_compute; discriminate)).
  - vm_compute. split; reflexivity.
  - apply NoDup_cons. split; [rewrite list_elem_of_singleton; lia|apply NoDup_singleton].
Defined.
