(* ===== verification/LlmEngine.v ===== *)
(** The execution half of an engine step ([dlengine/engine/llm_engine.py]:
    [_run_scheduled_step], [_run_static_pp_prefill_pipeline], [_replicate_for_pp] and the host
    swaps) over the executor's submit/wait calls ([dlengine/executor/ray_executor.py] and
    [dlslime_executor.py]).  The scheduler and the workers are parameters. *)

From S2P Require Import Prelude Microbatch.

Open Scope Z_scope.

(** [RunnerOut]; log-probabilities are their bit patterns. *)
Record RunnerOut := mk_out {
  token_ids : list (list Z);
  logprobs : option (list (list Z));
  server_handler_ns : Z
}.

(** The configuration read by a step; [max_inflight] is the mailbox capacity of an executor
    that has [max_inflight_requests] (DLSlime), [None] for one that has not (Ray). *)
Record StepConfig := mk_step_config {
  sc_pp : Z;
  sc_attention_tp : Z;
  sc_max_num_batched_tokens : nat;
  sc_pp_prefill_pipeline_depth : Z;
  sc_decode_mode : bool;
  max_inflight : option Z
}.

(** [l * n] *)
Definition py_repeat {A} (l : list A) (n : Z) : list A := concat (replicate (Z.to_nat n) l).

Fixpoint every_aux {A} (fuel skip : nat) (l : list A) : list A :=
  match fuel, l with
  | S fuel, x :: l => x :: every_aux fuel skip (drop skip l)
  | _, _ => []
  end.

(** [l\[::step\]] *)
Definition py_step {A} (l : list A) (step : Z) : result (list A) :=
  if decide (step = 0) then Err ValueError
  else if decide (0 < step) then Ok (every_aux (length l) (Z.to_nat step - 1) l)
  else Ok (every_aux (length l) (Z.to_nat (- step) - 1) (reverse l)).

(** [_replicate_for_pp] *)
Definition replicate_for_pp {A} (items : list A) (pp : Z) : list A :=
  if decide (pp <= 1) then items else py_repeat items pp.

(** [all_outs\[(pp_size - 1) * inner :\]\[::tp_size\]] *)
Definition last_stage_rows {A} (all_outs : list A) (pp inner tp : Z) : result (list A) :=
  py_step (py_from all_outs ((pp - 1) * inner)) tp.

(** A host-swap task: a sequence, its source and its destination blocks. *)
Definition Task : Type := Z * list Z * list Z.

(** Calls of the executor and the scheduler, in order.  Swaps and migrations carry what each
    worker receives. *)
Inductive Event :=
  | Submit (handle : nat)
  | Wait (handle : nat)
  | SwapOut (per_worker : list (list Task))
  | CompleteSwapOut (tasks : list (list Task))
  | SwapIn (per_worker : list (list Task))
  | CompleteSwapIn (tasks : list (list Task))
  | Migrate (per_worker : list (list Z))
  | Postprocess (outs : list RunnerOut).

(** Submitted rounds whose results are not yet collected. *)
Notation pending_list := (list (nat * list (option fragment_metadata))) (only parsing).

Section executor.
(** The workers as one machine: [forward] takes the payloads of all workers, in worker order.
    Every worker serves its requests in order of submission, so the machine runs the
    submitted batches in that order, whenever their results are waited for. *)
Context {S : Type} (forward : S -> list WireBatch -> S * list RunnerOut) (num_workers : nat).

Record Exec := mk_exec {
  cluster : S;
  replies : list (list RunnerOut);
  events : list Event
}.

(** [run_batch_bytes_async]: payloads are zipped with the workers. *)
Definition run_batch_bytes_async (payloads : list WireBatch) : act Exec nat := fun x =>
  let '(s, outs) := forward (cluster x) (take num_workers payloads) in
  let handle := length (replies x) in
  (Ok handle, mk_exec s (replies x ++ [outs]) (events x ++ [Submit handle])).

(** [run_wait_runner_outs] *)
Definition run_wait_runner_outs (handle : nat) : act Exec (list RunnerOut) := fun x =>
  (of_option KeyError (replies x !! handle), mk_exec (cluster x) (replies x) (events x ++ [Wait handle])).

(** What is collected for one group: the group's entries of [aggregated_tokens],
    [aggregated_logprobs], [has_logprobs] and [max_handler_ns]. *)
Record GroupAgg := mk_agg {
  ag_tokens : list (list Z);
  ag_logprobs : list (list Z);
  ag_has_logprobs : bool;
  ag_handler_ns : Z
}.

(** One row of [consume]. *)
Definition consume_row (out : RunnerOut) (a : GroupAgg) (x : nat * (nat * bool)) : GroupAgg :=
  let '(row_idx, (seq_idx, is_last)) := x in
  if negb is_last || bool_decide (length (ag_tokens a) <= seq_idx)%nat then a
  else
    let tokens := match token_ids out !! row_idx with Some t => <[seq_idx := t]> (ag_tokens a) | None => ag_tokens a end in
    match logprobs out ≫= (.!! row_idx) with
    | Some lp => mk_agg tokens (<[seq_idx := lp]> (ag_logprobs a)) true (ag_handler_ns a)
    | None => mk_agg tokens (ag_logprobs a) (ag_has_logprobs a) (ag_handler_ns a)
    end.

(** One group of [consume]: fragments of its first cell, folded into its entries. *)
Definition consume_group (metadata : list (option fragment_metadata)) (tp : Z) (aggs : list GroupAgg) (x : Z * RunnerOut) : result (list GroupAgg) :=
  let '(group_idx, out) := x in
  fragments ← py_getitem metadata (group_idx * tp);
  match fragments with
  | None | Some [] => Ok aggs
  | Some fragments =>
      a ← py_getitem aggs group_idx;
      let a := foldl (consume_row out) a (imap (fun i f => (i, f)) fragments) in
      Ok (<[Z.to_nat group_idx := mk_agg (ag_tokens a) (ag_logprobs a) (ag_has_logprobs a)
              (Z.max (ag_handler_ns a) (server_handler_ns out))]> aggs)
  end.

(** [consume] *)
Definition consume (pp inner tp : Z) (aggs : list GroupAgg) (item : nat * list (option fragment_metadata)) : act Exec (list GroupAgg) :=
  let '(handle, metadata) := item in
  all_outs ← run_wait_runner_outs handle;
  outs ← lift (last_stage_rows all_outs pp inner tp);
  lift (foldM_r (consume_group metadata tp) aggs (enumerate outs)).

(** The payloads and metadata of one round; cells that have run out of fragments get the
    dummy batch. *)
Definition build_round (cells : list (list (WireBatch * fragment_metadata))) (pp : Z) (round_idx : nat) :
    list WireBatch * list (option fragment_metadata) :=
  (py_repeat ((fun fs => match fs !! round_idx with Some f => fst f | None => dummy_batch true end) <$> cells) pp,
   (fun fs => snd <$> fs !! round_idx) <$> cells).

(** The number of rounds kept in flight. *)
Definition pipeline_depth (c : StepConfig) : result Z :=
  let depth := if decide (sc_pp_prefill_pipeline_depth c = 0) then Z.min (sc_pp c) 16 else sc_pp_prefill_pipeline_depth c in
  match max_inflight c with
  | None => Ok (Z.max 1 depth)
  | Some n =>
      let transport_depth := Z.max 1 n in
      if decide (transport_depth < 2) then Err RuntimeError else Ok (Z.max 1 (Z.min depth transport_depth))
  end.

(** The loop over the rounds: submit, then consume the oldest round once [depth] are
    pending. *)
Fixpoint submit_rounds (pp inner tp depth : Z) (rounds : list (list WireBatch * list (option fragment_metadata)))
    (pending : pending_list) (aggs : list GroupAgg) : act Exec (pending_list * list GroupAgg) :=
  match rounds with
  | [] => mret (pending, aggs)
  | (payloads, metadata) :: rounds =>
      handle ← run_batch_bytes_async payloads;
      let pending := pending ++ [(handle, metadata)] in
      if decide (depth <= zlen pending) then
        match pending with
        | [] => raise IndexError
        | item :: pending => aggs ← consume pp inner tp aggs item; submit_rounds pp inner tp depth rounds pending aggs
        end
      else submit_rounds pp inner tp depth rounds pending aggs
  end.

Fixpoint consume_all (pp inner tp : Z) (pending : pending_list) (aggs : list GroupAgg) : act Exec (list GroupAgg) :=
  match pending with
  | [] => mret aggs
  | item :: pending => aggs ← consume pp inner tp aggs item; consume_all pp inner tp pending aggs
  end.

Definition new_agg (seqs : nat) : GroupAgg := mk_agg (replicate seqs []) (replicate seqs []) false 0.
Definition out_of_agg (a : GroupAgg) : RunnerOut :=
  mk_out (ag_tokens a) (if ag_has_logprobs a then Some (ag_logprobs a) else None) (ag_handler_ns a).

(** [_run_static_pp_prefill_pipeline]; [groups] are the sequence ids of the groups. *)
Definition run_static_pp_prefill_pipeline (c : StepConfig) (batches : list WireBatch) (groups : list (list Z)) : act Exec (list RunnerOut) :=
  let inner := zlen batches in
  let pp := sc_pp c in let tp := sc_attention_tp c in
  cells ← lift (mapM_r (prefill_microbatches (sc_max_num_batched_tokens c)) batches);
  let num_rounds := match cells with [] => 1%nat | _ => foldr Nat.max 0%nat (length <$> cells) end in
  if decide (num_rounds <= 1)%nat then
    handle ← run_batch_bytes_async (py_repeat batches pp);
    all_outs ← run_wait_runner_outs handle;
    lift (last_stage_rows all_outs pp inner tp)
  else
    depth ← lift (pipeline_depth c);
    '(pending, aggs) ← submit_rounds pp inner tp depth (build_round cells pp <$> seq 0 num_rounds) []
                         ((fun ids => new_agg (length ids)) <$> groups);
    aggs ← consume_all pp inner tp pending aggs;
    mret (out_of_agg <$> aggs).

Definition record (e : Event) : act Exec unit := fun x => (Ok tt, mk_exec (cluster x) (replies x) (events x ++ [e])).

(** [per_worker_tasks] of the host swaps: every worker of a group, on every stage, gets the
    tasks of the group; zipped with the workers by the executor. *)
Definition per_worker_tasks (c : StepConfig) (tasks : list (list Task)) : list (list Task) :=
  replicate_for_pp (concat ((fun t => replicate (Z.to_nat (Z.max 1 (sc_attention_tp c))) t) <$> tasks)) (sc_pp c).

(** [any(tasks)] *)
Definition any_task (tasks : list (list Task)) : bool := existsb (fun t => negb (bool_decide (t = []))) tasks.

(** [_run_host_swap_outs] *)
Definition run_host_swap_outs (c : StepConfig) (tasks : list (list Task)) : act Exec unit :=
  if any_task tasks then
    _ ← record (SwapOut (take num_workers (per_worker_tasks c tasks)));
    record (CompleteSwapOut tasks)
  else mret tt.

(** [_run_host_swap_ins] *)
Definition run_host_swap_ins (c : StepConfig) (tasks : list (list Task)) : act Exec unit :=
  if any_task tasks then
    _ ← record (SwapIn (take num_workers (per_worker_tasks c tasks)));
    record (CompleteSwapIn tasks)
  else mret tt.

(** The result of [schedule()], with what the scheduler serialises for it:
    [serialize_run_batches_for_result] and [serialize_migrate_batches_for_result] at this
    tensor parallelism. *)
Record ScheduleResult := mk_schedule {
  sr_is_prefill : bool;
  sr_groups : list (list Z);
  sr_swap_out : list (list Task);
  sr_swap_in : list (list Task);
  sr_run_batches : list WireBatch;
  sr_migrate_batches : list (list Z)
}.

(** [_run_scheduled_step] *)
Definition run_scheduled_step (c : StepConfig) (sr : ScheduleResult) : act Exec (option (list RunnerOut)) :=
  _ ← run_host_swap_outs c (sr_swap_out sr);
  _ ← run_host_swap_ins c (sr_swap_in sr);
  if negb (sr_is_prefill sr && sc_decode_mode c) then
    let batches := sr_run_batches sr in
    outs ← (if sr_is_prefill sr && bool_decide (1 < sc_pp c) then run_static_pp_prefill_pipeline c batches (sr_groups sr)
            else
              handle ← run_batch_bytes_async (replicate_for_pp batches (sc_pp c));
              all_outs ← run_wait_runner_outs handle;
              lift (last_stage_rows all_outs (sc_pp c) (zlen batches) (sc_attention_tp c)));
    _ ← record (Postprocess outs);
    mret (Some outs)
  else
    _ ← record (Migrate (take num_workers (replicate_for_pp (sr_migrate_batches sr) (sc_pp c))));
    mret None.
End executor.

(** * List lemmas *)

Lemma every_aux_lookup {A} fuel skip (l : list A) g :
  (length l <= fuel)%nat -> every_aux fuel skip l !! g = l !! (g * Datatypes.S skip)%nat.
Proof.
  revert l g. induction fuel as [|fuel IH]; intros [|x l] g Hl; simpl in Hl; [done|lia|done|]. simpl.
  destruct g as [|g]; [done|]. simpl. rewrite IH by (rewrite length_drop; lia). rewrite lookup_drop. f_equal.
Qed.

Lemma py_step_lookup {A} (l : list A) (tp : nat) :
  (0 < tp)%nat -> exists l', py_step l (Z.of_nat tp) = Ok l' /\ forall g, l' !! g = l !! (g * tp)%nat.
Proof.
  intros Htp. unfold py_step. rewrite decide_False, decide_True by lia. eexists. split; [done|]. intros g.
  rewrite every_aux_lookup by done. rewrite Nat2Z.id. replace (Datatypes.S (tp - 1)) with tp by lia. done.
Qed.

Lemma lookup_py_repeat {A} (l : list A) (pp k i : nat) :
  (k < pp)%nat -> (i < length l)%nat -> py_repeat l (Z.of_nat pp) !! (k * length l + i)%nat = l !! i.
Proof.
  intros Hk Hi. unfold py_repeat. rewrite Nat2Z.id. revert k Hk. induction pp as [|pp IH]; intros k Hk; [lia|]. simpl.
  destruct k as [|k]; simpl; [by rewrite lookup_app_l|]. rewrite lookup_app_r by lia. rewrite <- IH with (k := k) by lia. f_equal. lia.
Qed.

Lemma length_py_repeat {A} (l : list A) (pp : nat) : length (py_repeat l (Z.of_nat pp)) = (pp * length l)%nat.
Proof. unfold py_repeat. rewrite Nat2Z.id. induction pp as [|pp IH]; [done|]. simpl. rewrite length_app. lia. Qed.

(** The rows of the last stage: one per group. *)
Lemma last_stage_rows_lookup {A} (outs : list A) (pp inner tp : nat) :
  (0 < tp)%nat -> (0 < pp)%nat -> exists l, last_stage_rows outs (Z.of_nat pp) (Z.of_nat inner) (Z.of_nat tp) = Ok l /\
    forall g, l !! g = outs !! ((pp - 1) * inner + g * tp)%nat.
Proof.
  intros Htp Hpp. unfold last_stage_rows, py_from.
  destruct (py_step_lookup (drop (slice_pos (zlen outs) ((Z.of_nat pp - 1) * Z.of_nat inner)) outs) tp Htp) as (l & Hl & Hg).
  exists l. split; [done|]. intros g. rewrite Hg, lookup_drop.
  assert (0 <= (Z.of_nat pp - 1) * Z.of_nat inner) by nia. unfold slice_pos. rewrite (decide_False (P := (_ < 0))) by lia.
  replace (Z.of_nat pp - 1) with (Z.of_nat (pp - 1)) by lia. rewrite <- Nat2Z.inj_mul.
  destruct (decide ((pp - 1) * inner <= length outs)%nat).
  - f_equal. unfold zlen. lia.
  - rewrite !lookup_ge_None_2; [done|lia|unfold zlen; lia].
Qed.

(** * Collecting the rows *)

(** A row of a reply: its fragment, tokens and log-probabilities. *)
Notation entry := (prod (prod (prod nat bool) (option (list Z))) (option (list Z))) (only parsing).

Definition entries (md : fragment_metadata) (out : RunnerOut) : list entry :=
  imap (fun k f => (f, token_ids out !! k, logprobs out ≫= (.!! k))) md.

Definition add_entry (a : GroupAgg) (e : entry) : GroupAgg :=
  let '((i, is_last), t, lp) := e in
  if negb is_last || bool_decide (length (ag_tokens a) <= i)%nat then a
  else
    let tokens := match t with Some t => <[i := t]> (ag_tokens a) | None => ag_tokens a end in
    match lp with
    | Some lp => mk_agg tokens (<[i := lp]> (ag_logprobs a)) true (ag_handler_ns a)
    | None => mk_agg tokens (ag_logprobs a) (ag_has_logprobs a) (ag_handler_ns a)
    end.

Lemma consume_rows_entries out a md : foldl (consume_row out) a (imap (fun i f => (i, f)) md) = foldl add_entry a (entries md out).
Proof.
  unfold entries.
  assert (forall k a, foldl (consume_row out) a (imap (fun i f => (k + i, f)%nat) md) =
    foldl add_entry a (imap (fun i f => (f, token_ids out !! (k + i)%nat, logprobs out ≫= (.!! (k + i)%nat))) md)) as H.
  { clear a. induction md as [|[i l] md IH]; intros k a; [done|]. csimpl. rewrite Nat.add_0_r.
    rewrite (imap_ext _ (fun j f => (Datatypes.S k + j, f)%nat)) by (intros; simpl; do 2 f_equal; lia).
    rewrite IH. f_equal. apply imap_ext. intros. simpl. by rewrite Nat.add_succ_r. }
  apply (H 0%nat).
Qed.

(** Entries for other sequences, and fragments that are not last, leave entry [i]. *)
Lemma add_entry_length a e : length (ag_tokens (add_entry a e)) = length (ag_tokens a).
Proof. destruct e as [[[i []] [t|]] [lp|]]; simpl; try case_bool_decide; simpl; rewrite ?length_insert; done. Qed.

Lemma add_entry_lp_length a e : length (ag_logprobs (add_entry a e)) = length (ag_logprobs a).
Proof. destruct e as [[[i []] [t|]] [lp|]]; simpl; try case_bool_decide; simpl; rewrite ?length_insert; done. Qed.

Lemma foldl_entries_length es a : length (ag_tokens (foldl add_entry a es)) = length (ag_tokens a).
Proof. revert a. induction es as [|e es IH]; intros a; [done|]. simpl. by rewrite IH, add_entry_length. Qed.

Lemma foldl_entries_lp_length es a : length (ag_logprobs (foldl add_entry a es)) = length (ag_logprobs a).
Proof. revert a. induction es as [|e es IH]; intros a; [done|]. simpl. by rewrite IH, add_entry_lp_length. Qed.

Lemma add_entry_other a e i :
  fst (fst e) <> (i, true) -> ag_tokens (add_entry a e) !! i = ag_tokens a !! i /\ ag_logprobs (add_entry a e) !! i = ag_logprobs a !! i.
Proof.
  destruct e as [[[j []] [t|]] [lp|]]; simpl; intros Hne; try case_bool_decide; simpl; rewrite ?list_lookup_insert_ne by congruence; done.
Qed.

Lemma foldl_entries_other es a i :
  Forall (fun e : entry => fst (fst e) <> (i, true)) es ->
  ag_tokens (foldl add_entry a es) !! i = ag_tokens a !! i /\ ag_logprobs (foldl add_entry a es) !! i = ag_logprobs a !! i.
Proof.
  revert a. induction es as [|e es IH]; intros a Hf; [done|]. apply Forall_cons in Hf as [He Hf]. simpl.
  destruct (IH (add_entry a e) Hf) as [-> ->]. by apply add_entry_other.
Qed.

Lemma foldl_entries_has es a : ag_has_logprobs a = true -> ag_has_logprobs (foldl add_entry a es) = true.
Proof.
  revert a. induction es as [|e es IH]; intros a Ha; [done|]. apply IH.
  destruct e as [[[i []] [t|]] [lp|]]; simpl; try case_bool_decide; done.
Qed.

Lemma foldl_entries_no_logprobs es a :
  Forall (fun e : entry => snd e = None) es -> ag_has_logprobs (foldl add_entry a es) = ag_has_logprobs a.
Proof.
  revert a. induction es as [|e es IH]; intros a Hf; [done|]. apply Forall_cons in Hf as [He Hf]. simpl. rewrite (IH _ Hf).
  destruct e as [[[i []] [t|]] [lp|]]; simpl in *; try done; try case_bool_decide; done.
Qed.

(** The last fragment of a sequence decides its tokens and log-probabilities. *)
Lemma foldl_entries_last pre post a i t lp :
  Forall (fun e : entry => fst (fst e) <> (i, true)) post -> (i < length (ag_tokens a))%nat -> length (ag_logprobs a) = length (ag_tokens a) ->
  let a' := foldl add_entry a (pre ++ ((i, true), Some t, lp) :: post) in
  ag_tokens a' !! i = Some t /\ (forall l, lp = Some l -> ag_logprobs a' !! i = Some l /\ ag_has_logprobs a' = true).
Proof.
  intros Hp Hi Hl. simpl. rewrite foldl_app. cbn [foldl]. set (a1 := foldl add_entry a pre).
  assert (length (ag_tokens a1) = length (ag_tokens a)) as Hl1 by apply foldl_entries_length.
  assert (length (ag_logprobs a1) = length (ag_tokens a)) as Hl2 by (unfold a1; by rewrite foldl_entries_lp_length).
  destruct (foldl_entries_other post (add_entry a1 ((i, true), Some t, lp)) i Hp) as [-> ->].
  simpl. rewrite bool_decide_eq_false_2 by lia.
  split; [destruct lp; simpl; by rewrite list_lookup_insert_eq by lia|].
  intros l ->. simpl. split; [by rewrite list_lookup_insert_eq by lia|by apply foldl_entries_has].
Qed.

(** * One round *)

Definition round_entries (md : option fragment_metadata) (out : RunnerOut) : list entry := entries (default [] md) out.

(** Agreement of what has been collected, the handler times aside. *)
Definition same_rows (a b : GroupAgg) : Prop :=
  ag_tokens a = ag_tokens b /\ ag_logprobs a = ag_logprobs b /\ ag_has_logprobs a = ag_has_logprobs b.

Lemma add_entry_same a b e : same_rows a b -> same_rows (add_entry a e) (add_entry b e).
Proof. intros (H1 & H2 & H3). destruct e as [[[i []] [t|]] [lp|]]; unfold same_rows; simpl; rewrite H1; try case_bool_decide; simpl; rewrite ?H1, ?H2, ?H3; done. Qed.

Lemma foldl_entries_same es a b : same_rows a b -> same_rows (foldl add_entry a es) (foldl add_entry b es).
Proof. revert a b. induction es as [|e es IH]; intros a b H; [done|]. simpl. by apply IH, add_entry_same. Qed.

Lemma consume_groups_spec md (tp : nat) outs aggs k :
  (k + length outs <= length aggs)%nat -> (forall g, g < k + length outs -> is_Some (md !! (g * tp)))%nat ->
  exists aggs', foldM_r (consume_group md (Z.of_nat tp)) aggs (imap (fun i o => (Z.of_nat (k + i), o)) outs) = Ok aggs' /\
    length aggs' = length aggs /\
    (forall g, (g < k)%nat -> aggs' !! g = aggs !! g) /\
    (forall g out a f, outs !! g = Some out -> aggs !! (k + g)%nat = Some a -> md !! ((k + g) * tp)%nat = Some f ->
       exists a', aggs' !! (k + g)%nat = Some a' /\ same_rows a' (foldl add_entry a (round_entries f out))).
Proof.
  revert k aggs. induction outs as [|o outs IH]; intros k aggs Hk Hmd; [by exists aggs|]. simpl in Hk.
  destruct (lookup_lt_is_Some_2 aggs k) as [a0 Ha0]; [lia|]. destruct (Hmd k) as [f0 Hf0]; [simpl; lia|].
  assert (exists a1, consume_group md (Z.of_nat tp) aggs (Z.of_nat k, o) = Ok (<[k := a1]> aggs) /\
            same_rows a1 (foldl add_entry a0 (round_entries f0 o))) as (a1 & Hstep & Hsame).
  { unfold consume_group. rewrite <- Nat2Z.inj_mul, (py_getitem_nat md). rewrite Hf0.
    destruct f0 as [[|p f]|]; [exists a0; simpl; by rewrite list_insert_id| |exists a0; simpl; by rewrite list_insert_id].
    cbn [of_option mbind result_bind]. rewrite py_getitem_nat, Ha0. cbn [of_option mbind result_bind].
    rewrite consume_rows_entries, Nat2Z.id. by eexists. }
  csimpl. rewrite Nat.add_0_r. simpl in Hstep. rewrite Hstep. simpl.
  assert (imap ((fun i o => (Z.of_nat (k + i), o)) ∘ Datatypes.S) outs = imap (fun i o => (Z.of_nat (Datatypes.S k + i), o)) outs) as ->.
  { apply imap_ext. intros. simpl. by rewrite Nat.add_succ_r. }
  destruct (IH (Datatypes.S k) (<[k := a1]> aggs)) as (aggs' & Hrun & Hlen & Hlow & Hat); [rewrite length_insert; lia|intros; apply Hmd; simpl; lia|].
  exists aggs'. split; [done|]. rewrite length_insert in Hlen. split; [done|]. split.
  - intros g Hg. rewrite Hlow by lia. by rewrite list_lookup_insert_ne by lia.
  - intros [|g] out a f Ho Ha Hf.
    + rewrite Nat.add_0_r in *. injection Ho as ->. rewrite Ha in Ha0. injection Ha0 as <-. rewrite Hf in Hf0. injection Hf0 as <-.
      exists a1. split; [|done]. rewrite Hlow by lia. apply list_lookup_insert_eq. lia.
    + rewrite Nat.add_succ_r in *. apply (Hat g out a f); [done| |done]. rewrite list_lookup_insert_ne by lia. done.
Qed.

(** * The order of submission and waiting does not matter *)

Section schedule.
Context {S : Type} (forward : S -> list WireBatch -> S * list RunnerOut) (num_workers : nat) (pp inner tp : Z).

Notation round := (list WireBatch * list (option fragment_metadata))%type.

(** The rounds run one after the other. *)
Fixpoint run_all (s : S) (rounds : list round) : S * list (list RunnerOut * list (option fragment_metadata)) :=
  match rounds with
  | [] => (s, [])
  | (payloads, md) :: rounds =>
      let '(s, outs) := forward s (take num_workers payloads) in
      let '(s, rest) := run_all s rounds in (s, (outs, md) :: rest)
  end.

(** Collecting a finished round. *)
Definition collect (aggs : list GroupAgg) (x : list RunnerOut * list (option fragment_metadata)) : result (list GroupAgg) :=
  outs ← last_stage_rows (fst x) pp inner tp; foldM_r (consume_group (snd x) tp) aggs (enumerate outs).

(** Pending handles whose replies are [items]. *)
Definition pending_ok (x : Exec (S := S)) (pending : pending_list) (items : list (list RunnerOut * list (option fragment_metadata))) : Prop :=
  Forall2 (fun p i => replies x !! fst p = Some (fst i) /\ snd p = snd i) pending items.

Definition waits (evs : list Event) : list nat := omap (fun e => match e with Wait h => Some h | _ => None end) evs.
Definition submits (evs : list Event) : list nat := omap (fun e => match e with Submit h => Some h | _ => None end) evs.

(** The requests in flight after the events [evs]. *)
Definition in_flight (evs : list Event) : Z := zlen (submits evs) - zlen (waits evs).

Lemma pending_ok_mono (x x' : Exec (S := S)) pending items :
  (exists new, replies x' = replies x ++ new) -> pending_ok x pending items -> pending_ok x' pending items.
Proof. intros [new Hn] H. eapply Forall2_impl; [exact H|]. intros [h md] i [Hl Hm]. split; [|done]. rewrite Hn. by apply lookup_app_l_Some. Qed.

Lemma consume_Ok (x : Exec (S := S)) h md i aggs aggs' :
  replies x !! h = Some (fst i) -> md = snd i -> collect aggs i = Ok aggs' ->
  consume pp inner tp aggs (h, md) x = (Ok aggs', mk_exec (cluster x) (replies x) (events x ++ [Wait h])).
Proof.
  intros Hh -> Hc. unfold consume, run_wait_runner_outs, collect in *. unfold mbind, act_bind. simpl. rewrite Hh. simpl.
  apply result_bind_Ok in Hc as (outs & Ho & Hc). unfold lift. rewrite Ho. by rewrite Hc.
Qed.

Lemma foldM_r_cons_Ok {A T} (f : T -> A -> result T) s x l t :
  foldM_r f s (x :: l) = Ok t -> exists s1, f s x = Ok s1 /\ foldM_r f s1 l = Ok t.
Proof. simpl. destruct (f s x); [eauto|done]. Qed.

Lemma consume_all_spec (x : Exec (S := S)) pending items aggs aggs' :
  pending_ok x pending items -> foldM_r collect aggs items = Ok aggs' ->
  consume_all pp inner tp pending aggs x = (Ok aggs', mk_exec (cluster x) (replies x) (events x ++ (Wait <$> (fst <$> pending)))).
Proof.
  revert x items aggs. induction pending as [|[h md] pending IH]; intros x items aggs Hp Hf.
  { inversion Hp; subst. injection Hf as ->. simpl. unfold mret, act_ret. destruct x. by rewrite app_nil_r. }
  inversion Hp as [|? i ? items' [Hh Hm] Hp']; subst. apply foldM_r_cons_Ok in Hf as (aggs1 & H1 & H2).
  cbn [consume_all]. unfold mbind, act_bind. rewrite (consume_Ok x h md i aggs aggs1) by done.
  rewrite (IH _ items' aggs1) by done. simpl. by rewrite <- app_assoc.
Qed.

Definition bounded_from (n depth : Z) (evs : list Event) : Prop := forall k, n + in_flight (take k evs) <= depth.

Lemma bounded_nil n depth : n <= depth -> bounded_from n depth [].
Proof. intros H [|k]; unfold in_flight, zlen; simpl; lia. Qed.

Lemma bounded_submit n depth h evs : n < depth -> bounded_from (n + 1) depth evs -> bounded_from n depth (Submit h :: evs).
Proof.
  intros H Hb [|k]; [unfold in_flight, zlen; simpl; lia|]. specialize (Hb k). unfold in_flight, zlen in *. simpl in *. lia.
Qed.

Lemma bounded_wait n depth h evs : n <= depth -> bounded_from (n - 1) depth evs -> bounded_from n depth (Wait h :: evs).
Proof.
  intros H Hb [|k]; [unfold in_flight, zlen; simpl; lia|]. specialize (Hb k). unfold in_flight, zlen in *. simpl in *. lia.
Qed.

Lemma bounded_waits n depth hs : n <= depth -> bounded_from n depth (Wait <$> hs).
Proof. revert n. induction hs as [|h hs IH]; intros n H; [by apply bounded_nil|]. csimpl. apply bounded_wait; [done|]. apply IH. lia. Qed.

(** Whatever the depth, the pipeline returns what the sequential run collects; it never has
    more than [depth] rounds in flight, and waits for every round once, in order. *)
Lemma pipeline_run (x : Exec (S := S)) depth rounds pending items aggs aggs' s' new :
  1 <= depth -> zlen pending < depth -> pending_ok x pending items ->
  run_all (cluster x) rounds = (s', new) -> foldM_r collect aggs (items ++ new) = Ok aggs' ->
  exists evs, (('(pending, aggs) ← submit_rounds forward num_workers pp inner tp depth rounds pending aggs;
     consume_all pp inner tp pending aggs) x =
    (Ok aggs', mk_exec s' (replies x ++ (fst <$> new)) (events x ++ evs))) /\
    bounded_from (zlen pending) depth evs /\ waits evs = (fst <$> pending) ++ seq (length (replies x)) (length rounds) /\
    submits evs = seq (length (replies x)) (length rounds).
Proof.
  intros Hd. revert x pending items aggs new. induction rounds as [|[payloads md] rounds IH]; intros x pending items aggs new Hn Hp Hr Hf.
  { simpl in Hr. injection Hr as <- <-. rewrite app_nil_r in Hf. exists (Wait <$> (fst <$> pending)). split.
    - simpl. unfold mbind at 1, act_bind. unfold mret, act_ret. rewrite (consume_all_spec x pending items aggs aggs') by done.
      by rewrite app_nil_r.
    - split; [apply bounded_waits; lia|]. simpl. rewrite app_nil_r. generalize (fst <$> pending). intros hs. split; induction hs; csimpl; congruence. }
  simpl in Hr. destruct (forward (cluster x) (take num_workers payloads)) as [s1 outs] eqn:Ef.
  destruct (run_all s1 rounds) as [s2 rest] eqn:Er. injection Hr as <- <-.
  set (x1 := mk_exec s1 (replies x ++ [outs]) (events x ++ [Submit (length (replies x))])).
  assert (pending_ok x1 (pending ++ [(length (replies x), md)]) (items ++ [(outs, md)])) as Hp1.
  { apply Forall2_app; [by apply (pending_ok_mono x); [exists [outs]|]|]. constructor; [|constructor]. split; [|done].
    unfold x1. simpl. by rewrite lookup_app_r, Nat.sub_diag by done. }
  assert (zlen (pending ++ [(length (replies x), md)]) = zlen pending + 1) as Hz by (unfold zlen; rewrite length_app; simpl; lia).
  assert (items ++ (outs, md) :: rest = (items ++ [(outs, md)]) ++ rest) as Hsplit by (by rewrite <- app_assoc).
  rewrite Hsplit in Hf. cbn [submit_rounds]. unfold mbind at 1, act_bind. unfold mbind at 1, act_bind, run_batch_bytes_async at 1.
  rewrite Ef. fold x1. rewrite Hz. destruct (decide (depth <= zlen pending + 1)) as [Hfull|Hroom].
  - destruct (pending ++ [(length (replies x), md)]) as [|[h m] pend] eqn:Epend; [by destruct pending|].
    destruct (items ++ [(outs, md)]) as [|i its] eqn:Eits; [by destruct items|]. inversion Hp1 as [|? ? ? ? [Hh Hm] Hp']; subst.
    simpl in Hf. destruct (collect aggs i) as [aggs1|] eqn:Ec; [|done]. unfold mbind at 1, act_bind.
    rewrite (consume_Ok x1 h _ i aggs aggs1) by done. cbv beta iota.
    destruct (IH (mk_exec (cluster x1) (replies x1) (events x1 ++ [Wait h])) pend its aggs1 rest) as (evs & Hrun & Hb & Hw & Hs);
      [unfold zlen in *; simpl in Hz; lia|done|done|done|].
    exists (Submit (length (replies x)) :: Wait h :: evs). unfold mbind at 1, act_bind in Hrun. rewrite Hrun. split; [|split; [|split]].
    + unfold x1. simpl. by rewrite <- !app_assoc.
    + apply bounded_submit; [lia|]. apply bounded_wait; [unfold zlen in *; lia|]. rewrite <- Hz. unfold zlen in *. simpl. by replace (Z.of_nat (Datatypes.S (length pend)) - 1) with (Z.of_nat (length pend)) by lia.
    + simpl. rewrite Hw. simpl. rewrite length_app. simpl. rewrite Nat.add_1_r.
      assert (h :: (fst <$> pend) = (fst <$> pending) ++ [length (replies x)]) as Hh'.
      { change (h :: (fst <$> pend)) with (fst <$> ((h, m) :: pend)). rewrite <- Epend, fmap_app. done. }
      rewrite app_comm_cons, Hh', <- app_assoc. done.
    + simpl. rewrite Hs. simpl. rewrite length_app. simpl. by rewrite Nat.add_1_r.
  - destruct (IH x1 (pending ++ [(length (replies x), md)]) (items ++ [(outs, md)]) aggs rest) as (evs & Hrun & Hb & Hw & Hs); [lia|done|done|done|].
    exists (Submit (length (replies x)) :: evs). unfold mbind at 1, act_bind in Hrun. rewrite Hrun. split; [|split; [|split]].
    + unfold x1. simpl. by rewrite <- !app_assoc.
    + apply bounded_submit; [lia|]. by rewrite <- Hz.
    + simpl. rewrite Hw, fmap_app. simpl. rewrite length_app. simpl. rewrite Nat.add_1_r, <- app_assoc. done.
    + simpl. rewrite Hs. simpl. rewrite length_app. simpl. by rewrite Nat.add_1_r.
Qed.
End schedule.

(** * What a forward computes *)

Section prefill.
Context {S : Type} (forward : S -> list WireBatch -> S * list RunnerOut).
Context (pp tp num_groups : nat).
(** The tokens a group's cache holds for a sequence, and what is sampled after them. *)
Context (kv : S -> nat -> Z -> list Z) (sample sample_lp : list Z -> list Z).

Notation inner := (num_groups * tp)%nat.

(** One batch per rank of a stage, equal within a tensor-parallel group. *)
Definition grouped (l : list WireBatch) : Prop :=
  length l = inner /\ forall g t, (t < tp)%nat -> l !! (g * tp + t)%nat = l !! (g * tp)%nat.

(** The rows of a reply are sampled from the sequence's cached tokens and those fed to it up
    to this row. *)
Record answers (base : Z -> list Z) (b : WireBatch) (out : RunnerOut) : Prop := {
  an_tokens k r : batch_rows b !! k = Some r -> sample_mask b !! k = Some true ->
    token_ids out !! k = Some (sample (base (fst r) ++ fed (fst r) (take (Datatypes.S k) (batch_rows b))));
  an_logprobs : if any_return_completion_logprobs b then
      forall k r, batch_rows b !! k = Some r -> sample_mask b !! k = Some true ->
        (logprobs out ≫= (.!! k)) = Some (sample_lp (base (fst r) ++ fed (fst r) (take (Datatypes.S k) (batch_rows b))))
    else logprobs out = None
}.

(** The interface of the workers: a prefill forward appends the tokens of its rows to the
    caches and the last stage answers; a dummy batch changes no sequence. *)
Class ForwardRuns : Prop := forward_runs : forall s l s' outs,
  grouped l -> forward s (py_repeat l (Z.of_nat pp)) = (s', outs) ->
  length outs = (pp * inner)%nat /\
  forall g b, (g < num_groups)%nat -> l !! (g * tp)%nat = Some b -> wb_is_prefill b = true ->
    (is_dummy b = true -> forall id, kv s' g id = kv s g id) /\
    (is_dummy b = false -> (forall id, kv s' g id = kv s g id ++ fed id (batch_rows b)) /\
       forall out, outs !! ((pp - 1) * inner + g * tp)%nat = Some out -> answers (kv s g) b out).

Context `{!ForwardRuns} (Hpp : (0 < pp)%nat) (Htp : (0 < tp)%nat).

Notation zpp := (Z.of_nat pp).
Notation run := (run_all forward (pp * inner)).

(** The last stage's worker of a group. *)
Definition group_pos (g : nat) : nat := ((pp - 1) * inner + g * tp)%nat.

Lemma group_pos_lt g : (g < num_groups)%nat -> (group_pos g < pp * inner)%nat.
Proof. intros Hg. unfold group_pos. assert (g * tp + tp <= inner)%nat by nia. assert ((pp - 1) * inner + inner = pp * inner)%nat by nia. lia. Qed.

(** Entries sampled from [base] and the rows before them. *)
Definition answered (base : Z -> list Z) (lp : bool) (rows : list (Z * list Z)) (mask : list bool) (es : list entry) : Prop :=
  length mask = length rows /\ length es = length rows /\
  (forall k r e, rows !! k = Some r -> mask !! k = Some true -> es !! k = Some e ->
    snd (fst e) = Some (sample (base (fst r) ++ fed (fst r) (take (Datatypes.S k) rows))) /\
    (lp = true -> snd e = Some (sample_lp (base (fst r) ++ fed (fst r) (take (Datatypes.S k) rows))))) /\
  (lp = false -> Forall (fun e : entry => snd e = None) es).

Lemma answered_nil base lp : answered base lp [] [] [].
Proof. by repeat split. Qed.

Lemma answered_app base lp r1 m1 e1 r2 m2 e2 :
  answered base lp r1 m1 e1 -> answered (fun id => base id ++ fed id r1) lp r2 m2 e2 -> answered base lp (r1 ++ r2) (m1 ++ m2) (e1 ++ e2).
Proof.
  intros (Hm1 & He1 & H1 & Hn1) (Hm2 & He2 & H2 & Hn2). split; [rewrite !length_app; lia|]. split; [rewrite !length_app; lia|]. split.
  - intros k r e Hr Hm He. destruct (decide (k < length r1)%nat) as [Hk|Hk].
    + rewrite lookup_app_l in Hr by lia. rewrite lookup_app_l in Hm by lia. rewrite lookup_app_l in He by lia. rewrite take_app_le by lia. by apply H1.
    + rewrite lookup_app_r in Hr by lia. rewrite lookup_app_r in Hm by lia. rewrite lookup_app_r in He by lia. rewrite Hm1 in Hm. rewrite He1 in He.
      destruct (H2 _ r e Hr Hm He) as [Ht Hl]. rewrite take_app_ge by lia.
      replace (Datatypes.S k - length r1)%nat with (Datatypes.S (k - length r1)) by lia.
      rewrite fed_app, app_assoc. done.
  - intros Hlp. apply Forall_app. auto.
Qed.

Lemma answers_answered base b md out :
  answers base b out -> length md = length (batch_rows b) -> length (sample_mask b) = length (batch_rows b) ->
  answered base (any_return_completion_logprobs b) (batch_rows b) (sample_mask b) (entries md out).
Proof.
  intros [Ht Hl] Hmd Hm. assert (length (entries md out) = length md) as Hlen by (unfold entries; apply length_imap).
  split; [done|]. split; [lia|]. split.
  - intros k r e Hr Hk He. unfold entries in He. rewrite list_lookup_imap in He. destruct (md !! k) as [f|]; [|done]. injection He as <-. simpl.
    split; [by apply Ht|]. intros Hlp. rewrite Hlp in Hl. by apply Hl.
  - intros Hlp. rewrite Hlp in Hl. unfold entries. rewrite Hl. simpl. apply Forall_forall. intros e He.
    apply list_elem_of_lookup in He as [k Hk]. rewrite list_lookup_imap in Hk. destruct (md !! k); [|done]. by injection Hk as <-.
Qed.

(** The entries of group [g] over the finished rounds. *)
Definition group_entries (g : nat) (items : list (list RunnerOut * list (option fragment_metadata))) : list entry :=
  concat ((fun x => match fst x !! group_pos g, snd x !! (g * tp)%nat with
                    | Some out, Some md => round_entries md out | _, _ => [] end) <$> items).

(** Collecting all rounds succeeds and gives every group its entries. *)
Lemma collect_all items aggs :
  (forall x, x ∈ items -> length (fst x) = (pp * inner)%nat /\ length (snd x) = inner) -> length aggs = num_groups ->
  exists aggs', foldM_r (collect zpp (Z.of_nat inner) (Z.of_nat tp)) aggs items = Ok aggs' /\ length aggs' = num_groups /\
    forall g a, aggs !! g = Some a -> exists a', aggs' !! g = Some a' /\ same_rows a' (foldl add_entry a (group_entries g items)).
Proof.
  revert aggs. induction items as [|x items IH]; intros aggs Hx Hl.
  { exists aggs. split; [done|]. split; [done|]. intros g a Ha. exists a. done. }
  destruct (Hx x) as [Ho Hm]; [by left|].
  destruct (last_stage_rows_lookup (fst x) pp inner tp Htp Hpp) as (outs & Hls & Hlook).
  assert (length outs <= num_groups)%nat as Hlo.
  { destruct (decide (length outs <= num_groups)%nat); [done|]. exfalso.
    destruct (lookup_lt_is_Some_2 outs num_groups) as [o Hoo]; [lia|]. rewrite Hlook in Hoo. apply lookup_lt_Some in Hoo. nia. }
  destruct (consume_groups_spec (snd x) tp outs aggs 0) as (aggs1 & H1 & Hl1 & _ & Hat); [simpl; lia| |].
  { intros g Hg. apply lookup_lt_is_Some_2. simpl in Hg. nia. }
  destruct (IH aggs1) as (aggs' & H2 & Hl2 & Hag); [intros y Hy; apply Hx; by right|lia|].
  exists aggs'. split; [|split; [done|]].
  - simpl. unfold collect at 1. rewrite Hls. simpl. unfold enumerate. simpl in H1. rewrite H1. exact H2.
  - intros g a Ha. assert (g < num_groups)%nat as Hg by (apply lookup_lt_Some in Ha; lia).
    destruct (lookup_lt_is_Some_2 (fst x) (group_pos g)) as [out Hout]; [rewrite Ho; by apply group_pos_lt|].
    destruct (lookup_lt_is_Some_2 (snd x) (g * tp)) as [f Hf]; [nia|].
    destruct (Hat g out a f) as (a1 & Ha1 & Hs1); [by rewrite Hlook|done|done|].
    destruct (Hag g a1 Ha1) as (a' & Ha' & Hs'). exists a'. split; [done|].
    unfold group_entries in *. csimpl. rewrite Hout, Hf. rewrite foldl_app.
    pose proof (foldl_entries_same (concat ((fun x => match fst x !! group_pos g, snd x !! (g * tp)%nat with
                    | Some out, Some md => round_entries md out | _, _ => [] end) <$> items)) _ _ Hs1) as Hs2.
    unfold same_rows in *. intuition congruence.
Qed.
(** ** The rounds *)

Context (cells : list (list (WireBatch * fragment_metadata))).
Context (Hcells : length cells = inner)
        (Hsame : forall g t, (t < tp)%nat -> cells !! (g * tp + t)%nat = cells !! (g * tp)%nat)
        (Hkind : forall g fs f, cells !! g = Some fs -> f ∈ fs -> wb_is_prefill (fst f) = true /\ is_dummy (fst f) = false).

Definition cell_payload (r : nat) (fs : list (WireBatch * fragment_metadata)) : WireBatch :=
  match fs !! r with Some f => fst f | None => dummy_batch true end.

Lemma round_grouped r : grouped (cell_payload r <$> cells).
Proof. split; [by rewrite length_fmap|]. intros g t Ht. rewrite !list_lookup_fmap. by rewrite Hsame. Qed.

Definition frag_rows (fs : list (WireBatch * fragment_metadata)) : list (Z * list Z) := concat ((fun f => batch_rows (fst f)) <$> fs).
Definition frag_masks (fs : list (WireBatch * fragment_metadata)) : list bool := concat ((fun f => sample_mask (fst f)) <$> fs).

Definition aligned (f : WireBatch * fragment_metadata) : Prop :=
  length (snd f) = length (batch_rows (fst f)) /\ length (sample_mask (fst f)) = length (batch_rows (fst f)).

Lemma run_rounds_spec n k s s' items :
  run s (build_round cells zpp <$> seq k n) = (s', items) ->
  length items = n /\
  (forall x, x ∈ items -> length (fst x) = (pp * inner)%nat /\ length (snd x) = inner) /\
  forall g fs, (g < num_groups)%nat -> cells !! (g * tp)%nat = Some fs ->
    (forall id, kv s' g id = kv s g id ++ fed id (frag_rows (take n (drop k fs)))) /\
    (forall lp, Forall (fun f => aligned f /\ any_return_completion_logprobs (fst f) = lp) fs ->
       answered (kv s g) lp (frag_rows (take n (drop k fs))) (frag_masks (take n (drop k fs))) (group_entries g items) /\
       fst <$> (fst <$> group_entries g items) = concat (snd <$> take n (drop k fs))).
Proof.
  revert k s s' items. induction n as [|n IH]; intros k s s' items Hrun.
  { simpl in Hrun. injection Hrun as <- <-. split; [done|]. split; [by intros x ?%elem_of_nil|]. intros g fs Hg Hfs. simpl.
    split; [intros id; by rewrite app_nil_r|]. intros lp _. split; [apply answered_nil|done]. }
  simpl in Hrun. rewrite take_ge in Hrun; cycle 1.
  { rewrite length_py_repeat. rewrite length_fmap, Hcells. done. }
  destruct (forward s _) as [s1 outs] eqn:Ef. destruct (run s1 _) as [s2 rest] eqn:Er. injection Hrun as <- <-.
  destruct (IH _ _ _ _ Er) as (Hlen & Hitems & Hg). destruct (forward_runs _ _ _ _ (round_grouped k) Ef) as [Hol Hstep].
  split; [simpl; by rewrite Hlen|]. split.
  { intros x [->|Hx]%elem_of_cons; [|by apply Hitems]. simpl. by rewrite length_fmap. }
  intros g fs Hlt Hfs. destruct (Hg g fs Hlt Hfs) as [Hkv Hans]. clear Hg.
  assert ((cell_payload k <$> cells) !! (g * tp)%nat = Some (cell_payload k fs)) as Hpay by (by rewrite list_lookup_fmap, Hfs).
  destruct (lookup_lt_is_Some_2 outs (group_pos g)) as [out Hout]; [rewrite Hol; by apply group_pos_lt|].
  assert (group_entries g ((outs, (fun fs => snd <$> fs !! k) <$> cells) :: rest) =
          entries (default [] (snd <$> fs !! k)) out ++ group_entries g rest) as Hge.
  { unfold group_entries. csimpl. rewrite Hout, list_lookup_fmap, Hfs. done. }
  unfold cell_payload in Hpay. destruct (fs !! k) as [f|] eqn:Ek.
  - destruct (Hkind _ _ f Hfs) as [Hpre Hnd]; [by apply list_elem_of_lookup_2 in Ek|].
    destruct (Hstep g (fst f) Hlt Hpay Hpre) as [_ Hf]. destruct (Hf Hnd) as [Hkv1 Ha]. specialize (Ha out Hout).
    rewrite (drop_S _ _ _ Ek). simpl. unfold frag_rows, frag_masks in *. csimpl. split.
    + intros id. rewrite Hkv, Hkv1, fed_app, app_assoc. done.
    + intros lp Hal. destruct (Hans lp Hal) as [H1 H2]. rewrite Hge. simpl.
      rewrite Forall_forall in Hal. destruct (Hal f) as [[Hl1 Hl2] <-]; [by apply list_elem_of_lookup_2 in Ek|]. split.
      * apply answered_app; [by apply answers_answered|].
        destruct H1 as (? & ? & H1 & ?). split; [done|]. split; [done|]. split; [|done]. intros j r e Hr Hm He.
        specialize (H1 j r e Hr Hm He). by rewrite !Hkv1 in H1.
      * rewrite !fmap_app, H2. f_equal. unfold entries. rewrite !fmap_imap. unfold compose. simpl. clear. induction (snd f) as [|x l IH]; [done|].
        csimpl. f_equal. exact IH.
  - destruct (Hstep g (dummy_batch true) Hlt Hpay eq_refl) as [Hd _]. specialize (Hd eq_refl).
    assert (drop k fs = [] /\ drop (Datatypes.S k) fs = []) as [-> Hdr] by (apply lookup_ge_None in Ek; split; apply drop_ge; lia).
    rewrite Hdr in *. rewrite take_nil in *. simpl. split.
    + intros id. by rewrite Hkv, Hd.
    + intros lp Hal. destruct (Hans lp Hal) as [H1 H2]. rewrite Hge. simpl. split; [|done].
      destruct H1 as (? & ? & H1 & ?). split; [done|]. split; [done|]. split; [|done]. intros j r e Hr Hm He.
      specialize (H1 j r e Hr Hm He). by rewrite !Hd in H1.
Qed.

End prefill.

(** * The pipeline *)

Section pipeline.
Context {S : Type} (forward : S -> list WireBatch -> S * list RunnerOut).
Context (pp tp num_groups : nat) (kv : S -> nat -> Z -> list Z) (sample sample_lp : list Z -> list Z).
Context `{!ForwardRuns forward pp tp num_groups kv sample sample_lp}.

Notation inner := (num_groups * tp)%nat.
Notation pipeline := (run_static_pp_prefill_pipeline forward (pp * inner)).
Notation pos g := (group_pos pp tp num_groups g).

(** A step's configuration, batches and groups as the engine passes them. *)
Record wf_step (c : StepConfig) (batches : list WireBatch) (groups : list (list Z)) : Prop := {
  ws_pp : sc_pp c = Z.of_nat pp;
  ws_pp_pos : (0 < pp)%nat;
  ws_tp : sc_attention_tp c = Z.of_nat tp;
  ws_tp_pos : (0 < tp)%nat;
  ws_tokens : (0 < sc_max_num_batched_tokens c)%nat;
  ws_groups : length groups = num_groups;
  ws_grouped : grouped tp num_groups batches;
  ws_batches b : b ∈ batches -> wf_prefill b /\ NoDup (wb_seq_ids b);
  ws_seqs g b ids : batches !! (g * tp)%nat = Some b -> groups !! g = Some ids -> length ids = length (seq_lens b)
}.

(** The result for group [g]: row [i] is sampled from the cached tokens of its sequence and
    all its tokens of this step, and the cache has grown by the batch. *)
Record exact_for (s s' : S) (g : nat) (b : WireBatch) (outs : list RunnerOut) : Prop := {
  ex_cache id : kv s' g id = kv s g id ++ fed id (batch_rows b);
  ex_rows i id : wb_seq_ids b !! i = Some id -> sample_mask b !! i = Some true -> (row_start b i < row_end b i)%nat ->
    exists out, outs !! g = Some out /\ token_ids out !! i = Some (sample (kv s g id ++ row_tokens b i)) /\
      (logprobs out ≫= (.!! i)) =
        (if any_return_completion_logprobs b then Some (sample_lp (kv s g id ++ row_tokens b i)) else None)
}.

Context (c : StepConfig) (batches : list WireBatch) (groups : list (list Z)) (Hws : wf_step c batches groups).

Lemma batch_of_group g : (g < num_groups)%nat -> exists b, batches !! (g * tp)%nat = Some b.
Proof. intros Hg. destruct Hws. destruct ws_grouped0 as [Hl _]. apply lookup_lt_is_Some_2. nia. Qed.

Lemma row_mask_bound b i id : wf_prefill b -> wb_seq_ids b !! i = Some id -> (i < length (seq_lens b))%nat.
Proof. intros [_ _ _ _ Hids _] Hid. apply lookup_lt_Some in Hid. lia. Qed.

(** One forward of the unsplit batches is exact. *)
Lemma direct_exact s s' all_outs outs g b :
  forward s (py_repeat batches (Z.of_nat pp)) = (s', all_outs) -> (forall g, outs !! g = all_outs !! pos g) ->
  (g < num_groups)%nat -> batches !! (g * tp)%nat = Some b -> exact_for s s' g b outs.
Proof.
  intros Hf Hlook Hg Hb. destruct Hws. destruct (forward_runs _ _ _ _ _ _ _ _ _ _ _ ws_grouped0 Hf) as [Hlen Hstep].
  destruct (ws_batches0 b) as [Hwf Hnd]; [by apply list_elem_of_lookup_2 in Hb|].
  destruct (Hstep g b Hg Hb (wf_is_prefill _ Hwf)) as [_ Hr]. destruct (Hr (wf_not_dummy _ Hwf)) as [Hkv Hans]. split; [done|].
  intros i id Hid Hm Hlt. destruct (lookup_lt_is_Some_2 all_outs (pos g)) as [out Hout]; [rewrite Hlen; by apply group_pos_lt|].
  destruct (Hans out Hout) as [Ht Hl]. exists out. rewrite Hlook. split; [done|].
  pose proof (row_mask_bound b i id Hwf Hid) as Hi. pose proof (fed_row_before b Hwf Hnd i Hi) as Hfed. simpl in Hfed. rewrite Hid in Hfed. simpl in Hfed.
  pose proof (batch_rows_lookup b i id Hid Hi) as Hrow. split.
  - rewrite (Ht _ _ Hrow Hm). simpl. by rewrite Hfed.
  - destruct (any_return_completion_logprobs b); [|by rewrite Hl]. rewrite (Hl _ _ Hrow Hm). simpl. by rewrite Hfed.
Qed.

(** The cells of a step. *)
Lemma step_cells :
  exists cells, mapM_r (prefill_microbatches (sc_max_num_batched_tokens c)) batches = Ok cells /\
    Forall2 division batches cells /\ length cells = inner /\
    (forall g t, (t < tp)%nat -> cells !! (g * tp + t)%nat = cells !! (g * tp)%nat) /\
    forall g fs f, cells !! g = Some fs -> f ∈ fs -> wb_is_prefill (fst f) = true /\ is_dummy (fst f) = false.
Proof.
  destruct Hws. destruct ws_grouped0 as [Hl Hs].
  assert (forall bs, (forall b, b ∈ bs -> wf_prefill b /\ NoDup (wb_seq_ids b)) ->
    exists cells, mapM_r (prefill_microbatches (sc_max_num_batched_tokens c)) bs = Ok cells /\
      Forall2 (fun b fs => prefill_microbatches (sc_max_num_batched_tokens c) b = Ok fs /\ division b fs) bs cells) as H.
  { induction bs as [|b bs IH]; intros Hbs; [by exists []|]. destruct IH as (cells & Hm & Hc); [intros; apply Hbs; by right|].
    destruct (Hbs b) as [Hwf Hnd]; [by left|]. destruct (prefill_microbatches_divide _ b Hwf Hnd ws_tokens0) as (fs & Hfs & Hd).
    exists (fs :: cells). simpl. rewrite Hfs, Hm. split; [done|]. by constructor. }
  destruct (H batches ws_batches0) as (cells & Hm & Hc). exists cells. split; [done|].
  pose proof (Forall2_length _ _ _ Hc) as Hlen.
  assert (forall k, cells !! k = (b ← batches !! k; match prefill_microbatches (sc_max_num_batched_tokens c) b with Ok fs => Some fs | Err _ => None end)) as Hlook.
  { intros k. destruct (batches !! k) as [b|] eqn:Eb.
    - destruct (Forall2_lookup_l _ _ _ _ _ Hc Eb) as (fs & -> & Hfs & _). simpl. by rewrite Hfs.
    - apply lookup_ge_None_2. apply lookup_ge_None in Eb. lia. }
  split; [eapply Forall2_impl; [exact Hc|]; by intros ?? [_ ?]|]. split; [lia|]. split.
  - intros g t Ht. rewrite !Hlook. by rewrite (Hs g t Ht).
  - intros g fs f Hg Hin. destruct (Forall2_lookup_r _ _ _ _ _ Hc Hg) as (b & _ & _ & Hd). by apply (di_kind _ _ Hd).
Qed.

(** What the rounds give group [g], from the entries collected for it. *)
Lemma rounds_exact s s' g b fs outs a a' es :
  (g < num_groups)%nat -> division b fs -> wf_prefill b ->
  (forall id, kv s' g id = kv s g id ++ fed id (frag_rows fs)) ->
  (Forall (fun f => aligned f /\ any_return_completion_logprobs (fst f) = any_return_completion_logprobs b) fs ->
     answered sample sample_lp (kv s g) (any_return_completion_logprobs b) (frag_rows fs) (frag_masks fs) es /\
     fst <$> (fst <$> es) = concat (snd <$> fs)) ->
  a = new_agg (length (seq_lens b)) -> same_rows a' (foldl add_entry a es) -> outs !! g = Some (out_of_agg a') ->
  exact_for s s' g b outs.
Proof.
  intros Hg Hd Hwf Hkv Hans -> (Hst & Hsl & Hsh) Hout. split; [intros id; rewrite Hkv; f_equal; apply (di_fed _ _ Hd)|].
  intros i id Hid Hm Hlt. pose proof (row_mask_bound b i id Hwf Hid) as Hi. exists (out_of_agg a'). split; [done|].
  assert (length (input_ids b) <> 0)%nat as Htok.
  { intros Hz. pose proof (sum_list_take_le (row_lens b) (Datatypes.S i)) as Hle. fold (row_end b i) in Hle. rewrite (wf_tokens _ Hwf) in Hle. lia. }
  assert (row_lens b <> []) as Hrl by (unfold row_lens; destruct (seq_lens b); [simpl in Hi; lia|done]).
  destruct Hans as [(Hlm & Hle & Hval & Hnone) Hmd].
  { apply Forall_forall. intros f Hf. split; [by apply (di_aligned _ _ Hd)|by apply (di_logprobs _ _ Hd)]. }
  destruct (di_last _ _ Hd i id Hid Hlt) as (k & pre & post & Hcut & Hk & Hpost & Hmask & (t & Hrow) & Hfed).
  rewrite Hm in Hmask. simpl in Hmask. rewrite Hcut in Hmd.
  apply fmap_app_inv in Hmd as (m1 & m2 & -> & Hm2 & Hes).
  destruct m2 as [|[f tk] m2]; [done|]. injection Hm2 as <- ->.
  apply fmap_app_inv in Hes as (e1 & e2 & -> & He2 & ->). destruct e2 as [|[p lp] e2]; [done|]. injection He2 as <- ->.
  assert (length e1 = k) as Hk1 by (rewrite !length_fmap in Hk; done).
  assert ((e1 ++ ((i, true), tk, lp) :: e2) !! k = Some ((i, true), tk, lp)) as Hat by (rewrite lookup_app_r by lia; by rewrite <- Hk1, Nat.sub_diag).
  destruct (Hval k (id, t) _ Hrow Hmask Hat) as [Htk Hlp]. simpl in Htk, Hlp. unfold frag_rows in Htk, Hlp. rewrite Hfed in Htk, Hlp. subst tk.
  assert (Forall (fun e : entry => fst (fst e) <> (i, true)) e2) as Hp2.
  { apply Forall_forall. intros e He Heq. apply Hpost. apply list_elem_of_fmap. exists (fst e). split; [done|]. apply list_elem_of_fmap. by exists e. }
  destruct (foldl_entries_last e1 e2 (new_agg (length (seq_lens b))) i (sample (kv s g id ++ row_tokens b i)) lp Hp2) as [Hti Hli];
    [simpl; by rewrite length_replicate|simpl; by rewrite !length_replicate|].
  simpl. rewrite Hst, Hsh, Hsl. split; [done|]. destruct (any_return_completion_logprobs b).
  - destruct (Hli _ (Hlp eq_refl)) as [Hl Hh]. rewrite Hh. simpl. done.
  - rewrite foldl_entries_no_logprobs by (by apply Hnone). done.
Qed.

Lemma max_rounds (cells : list (list (WireBatch * fragment_metadata))) fs :
  fs ∈ cells -> (length fs <= foldr Nat.max 0 (length <$> cells))%nat.
Proof.
  induction cells as [|x cells IH]; intros Hin; [by apply elem_of_nil in Hin|]. simpl.
  apply elem_of_cons in Hin as [->|Hin]; [lia|]. specialize (IH Hin). unfold fmap in IH. lia.
Qed.

Lemma lookup_length {A B} (l : list A) (l' : list B) (n : nat) (f : nat -> nat) :
  (forall g, is_Some (l !! g) <-> is_Some (l' !! f g)) -> (forall g, is_Some (l' !! f g) <-> (g < n)%nat) -> length l = n.
Proof.
  intros H1 H2. destruct (Nat.lt_trichotomy (length l) n) as [Hlt|[Heq|Hlt]]; [exfalso|done|exfalso].
  - apply H2, H1 in Hlt. apply lookup_lt_is_Some in Hlt. lia.
  - assert (n < n)%nat; [|lia]. by apply H2, H1, lookup_lt_is_Some_2.
Qed.

(** One forward of the unsplit batches, with its events. *)
Lemma one_forward x :
  exists outs x', (handle ← run_batch_bytes_async forward (pp * inner) (py_repeat batches (Z.of_nat pp));
      all_outs ← run_wait_runner_outs handle;
      lift (last_stage_rows all_outs (Z.of_nat pp) (Z.of_nat inner) (Z.of_nat tp))) x = (Ok outs, x') /\ length outs = num_groups /\
    (forall g b, (g < num_groups)%nat -> batches !! (g * tp)%nat = Some b -> exact_for (cluster x) (cluster x') g b outs) /\
    events x' = events x ++ [Submit (length (replies x)); Wait (length (replies x))].
Proof.
  pose proof Hws as [_ Hpp0 _ Htp0 _ _ [Hlb Hlg] _ _].
  unfold mbind, act_bind, run_batch_bytes_async. rewrite take_ge by (rewrite length_py_repeat, Hlb; done).
  destruct (forward (cluster x) (py_repeat batches (Z.of_nat pp))) as [s' all_outs] eqn:Ef. unfold run_wait_runner_outs. simpl.
  rewrite lookup_app_r, Nat.sub_diag by done. simpl.
  destruct (last_stage_rows_lookup all_outs pp inner tp Htp0 Hpp0) as (outs & Hls & Hlook). unfold lift. rewrite Hls.
  destruct (forward_runs _ _ _ _ _ _ _ _ _ _ _ (ws_grouped _ _ _ Hws) Ef) as [Hol _].
  exists outs. eexists. split; [done|]. split; [|split].
  - apply (lookup_length outs all_outs num_groups (group_pos pp tp num_groups)); [intros g; by rewrite Hlook|].
    intros g. rewrite lookup_lt_is_Some, Hol. unfold group_pos. split; [|intros Hg; apply (group_pos_lt pp tp num_groups); done].
    intros Hg. assert ((pp - 1) * inner + inner = pp * inner)%nat by nia. nia.
  - intros g b Hg Hb. simpl. by apply (direct_exact (cluster x) s' all_outs).
  - simpl. by rewrite <- app_assoc.
Qed.

(** A run of the pipeline, with its events. *)
Lemma pipeline_runs x :
  (forall n, max_inflight c = Some n -> 2 <= n) ->
  exists outs x' evs depth, pipeline c batches groups x = (Ok outs, x') /\ length outs = num_groups /\
    (forall g b, (g < num_groups)%nat -> batches !! (g * tp)%nat = Some b -> exact_for (cluster x) (cluster x') g b outs) /\
    events x' = events x ++ evs /\ pipeline_depth c = Ok depth /\ bounded_from 0 depth evs /\ waits evs = submits evs.
Proof.
  intros Hmi. destruct step_cells as (cells & Hm & Hdiv & Hlen & Hsame & Hkind). pose proof Hws as [Hpp Hpp0 Htp Htp0 Hmax Hng [Hlb Hlg] Hwfb Hseqs].
  assert (exists depth, pipeline_depth c = Ok depth /\ 1 <= depth) as (depth & Hdepth & Hd1).
  { unfold pipeline_depth. destruct (max_inflight c) as [n|]; [|eexists; split; [done|lia]]. specialize (Hmi n eq_refl).
    rewrite decide_False by lia. eexists. split; [done|]. lia. }
  unfold run_static_pp_prefill_pipeline. rewrite (lift_bind _ cells) by done. rewrite Hpp, Htp.
  assert (zlen batches = Z.of_nat inner) as Hzi by (unfold zlen; by rewrite Hlb). rewrite Hzi.
  set (n := match cells with [] => 1%nat | _ => foldr Nat.max 0%nat (length <$> cells) end). destruct (decide (n <= 1)%nat) as [Hn|Hn].
  - destruct (one_forward x) as (outs & x' & Hrun & Hlo & Hex & Hev).
    exists outs, x', [Submit (length (replies x)); Wait (length (replies x))], depth. do 5 (split; [done|]). split; [|done].
    apply bounded_submit; [lia|]. apply bounded_wait; [lia|]. apply bounded_nil. lia.
  - rewrite (lift_bind _ depth) by done.
    destruct (run_all forward (pp * inner) (cluster x) (build_round cells (Z.of_nat pp) <$> seq 0 n)) as [s' items] eqn:Er.
    destruct (run_rounds_spec forward pp tp num_groups kv sample sample_lp Hpp0 Htp0 cells Hlen Hsame Hkind n 0 _ _ _ Er) as (_ & Hitems & Hgr).
    set (aggs0 := (fun ids : list Z => new_agg (length ids)) <$> groups).
    destruct (collect_all pp tp num_groups Hpp0 Htp0 items aggs0) as (aggs & Hcol & Hal & Hag); [done|by unfold aggs0; rewrite length_fmap|].
    destruct (pipeline_run forward (pp * inner) (Z.of_nat pp) (Z.of_nat inner) (Z.of_nat tp) x depth _ [] [] aggs0 aggs s' items Hd1
      ltac:(unfold zlen; simpl; lia) ltac:(constructor) Er Hcol) as (evs & Hrun & Hbd & Hw & Hsb).
    exists (out_of_agg <$> aggs), (mk_exec s' (replies x ++ (fst <$> items)) (events x ++ evs)), evs, depth. split; [|split; [|split; [|split; [done|split; [done|split; [done|]]]]]].
    + revert Hrun. unfold mbind, act_bind. destruct (submit_rounds _ _ _ _ _ _ _ _ _ _) as [[[pend ags]|e] x1]; [|done]. by intros ->.
    + by rewrite length_fmap.
    + intros g b Hg Hb. simpl. destruct (Forall2_lookup_l _ _ _ _ _ Hdiv Hb) as (fs & Hfs & Hd).
      destruct (Hwfb b) as [Hwf _]; [by apply list_elem_of_lookup_2 in Hb|].
      destruct (lookup_lt_is_Some_2 groups g) as [ids Hids]; [lia|].
      destruct (Hag g (new_agg (length ids))) as (a' & Ha' & Hs'); [unfold aggs0; by rewrite list_lookup_fmap, Hids|].
      destruct (Hgr g fs Hg Hfs) as [Hkv Hans].
      assert (length fs <= n)%nat as Hfn.
      { unfold n. destruct cells; [done|]. apply max_rounds. by apply list_elem_of_lookup_2 in Hfs. }
      rewrite drop_0, take_ge in Hkv, Hans by done.
      eapply (rounds_exact (cluster x) s' g b fs _ (new_agg (length ids)) a' (group_entries pp tp num_groups g items));
        [done|done|done|done|by apply Hans|by rewrite (Hseqs g b ids Hb Hids)|done|]. by rewrite list_lookup_fmap, Ha'.
    + by rewrite Hw, Hsb.
Qed.
End pipeline.

(** * The step *)

Lemma lookup_concat_replicate {A} (l : list A) (n g t : nat) :
  (t < n)%nat -> concat ((fun x => replicate n x) <$> l) !! (g * n + t)%nat = l !! g.
Proof.
  intros Ht. revert g. induction l as [|x l IH]; intros [|g]; csimpl; [done..| |].
  - rewrite lookup_app_l by (rewrite length_replicate; lia). by apply lookup_replicate_2.
  - rewrite lookup_app_r by (rewrite length_replicate; lia). rewrite length_replicate, <- IH. f_equal. lia.
Qed.

Lemma length_concat_replicate {A} (l : list A) (n : nat) : length (concat ((fun x => replicate n x) <$> l)) = (length l * n)%nat.
Proof. induction l as [|x l IH]; [done|]. csimpl. rewrite length_app, length_replicate, IH. lia. Qed.

(** Workers are ordered by stage, then by group, then by tensor-parallel rank: each gets
    the swap tasks of its group. *)
Lemma per_worker_tasks_lookup c tasks (pp tp stage g t : nat) :
  sc_pp c = Z.of_nat pp -> sc_attention_tp c = Z.of_nat tp -> (stage < pp)%nat -> (g < length tasks)%nat -> (t < tp)%nat ->
  per_worker_tasks c tasks !! (stage * (length tasks * tp) + (g * tp + t))%nat = tasks !! g.
Proof.
  intros Hpp Htp Hs Hg Ht. unfold per_worker_tasks, replicate_for_pp. rewrite Hpp, Htp.
  replace (Z.to_nat (Z.max 1 (Z.of_nat tp))) with tp by lia. set (l := concat _).
  assert (length l = (length tasks * tp)%nat) as Hl by apply length_concat_replicate.
  assert (g * tp + t < length tasks * tp)%nat as Hlt by nia.
  case_decide.
  - assert (stage = 0%nat) as -> by lia. simpl. by apply lookup_concat_replicate.
  - rewrite <- Hl, lookup_py_repeat by lia. by apply lookup_concat_replicate.
Qed.

Section step.
Context {S : Type} (forward : S -> list WireBatch -> S * list RunnerOut).
Context (pp tp num_groups : nat) (kv : S -> nat -> Z -> list Z) (sample sample_lp : list Z -> list Z).

Notation workers := (pp * (num_groups * tp))%nat.

(** The swaps leave the caches' sequences and the replies alone. *)
Lemma swaps_run c sr x :
  exists evs, (_ ← run_host_swap_outs workers c (sr_swap_out sr); run_host_swap_ins workers c (sr_swap_in sr)) x =
    (Ok tt, mk_exec (S := S) (cluster x) (replies x) (events x ++ evs)).
Proof.
  unfold run_host_swap_outs, run_host_swap_ins, record, mbind, act_bind, mret, act_ret.
  destruct (any_task (sr_swap_out sr)), (any_task (sr_swap_in sr)); simpl.
  - eexists. by rewrite <- !app_assoc.
  - eexists. by rewrite <- !app_assoc.
  - eexists. by rewrite <- !app_assoc.
  - exists []. destruct x. by rewrite app_nil_r.
Qed.

Lemma bind_assoc_run {A B C} (m : act (Exec (S := S)) A) (f : A -> act Exec B) (g : B -> act Exec C) x :
  (m ≫= (fun a => f a ≫= g)) x = ((m ≫= f) ≫= g) x.
Proof. unfold mbind, act_bind. destruct (m x) as [[a|] x1]; done. Qed.

Context `{!ForwardRuns forward pp tp num_groups kv sample sample_lp}.

Lemma single_forward_runs c batches groups x :
  wf_step pp tp num_groups c batches groups ->
  exists outs x', (handle ← run_batch_bytes_async forward workers (replicate_for_pp batches (sc_pp c));
      all_outs ← run_wait_runner_outs handle;
      lift (last_stage_rows all_outs (sc_pp c) (zlen batches) (sc_attention_tp c))) x = (Ok outs, x') /\ length outs = num_groups /\
    forall g b, (g < num_groups)%nat -> batches !! (g * tp)%nat = Some b -> exact_for kv sample sample_lp (cluster x) (cluster x') g b outs.
Proof.
  intros Hws. pose proof Hws as [Hpp Hpp0 Htp Htp0 _ _ [Hlb Hlg] _ _].
  assert (replicate_for_pp batches (sc_pp c) = py_repeat batches (Z.of_nat pp)) as ->.
  { unfold replicate_for_pp. rewrite Hpp. case_decide; [|done]. assert (pp = 1%nat) as -> by lia. unfold py_repeat. simpl. by rewrite app_nil_r. }
  rewrite Hpp, Htp. unfold zlen. rewrite Hlb.
  destruct (one_forward forward pp tp num_groups kv sample sample_lp c batches groups Hws x) as (outs & x' & Hrun & Hl & He & _).
  by exists outs, x'.
Qed.

(** C12. A prefill step is exact: however its batches are cut into microbatches, padded with
    dummy rounds and kept in flight across the pipeline stages, every sequence that is to
    be sampled gets the tokens (and log-probabilities) that follow its cached tokens and
    all its tokens of this step, as one unsplit forward gives them, the caches end up with
    exactly the tokens of the batches, and the scheduler receives one result per group. *)
Theorem scheduled_prefill_exact c sr x :
  wf_step pp tp num_groups c (sr_run_batches sr) (sr_groups sr) ->
  sr_is_prefill sr = true -> sc_decode_mode c = false -> (forall n, max_inflight c = Some n -> 2 <= n) ->
  exists outs x', run_scheduled_step forward workers c sr x = (Ok (Some outs), x') /\ length outs = num_groups /\
    last (events x') = Some (Postprocess outs) /\
    forall g b, (g < num_groups)%nat -> sr_run_batches sr !! (g * tp)%nat = Some b ->
      exact_for kv sample sample_lp (cluster x) (cluster x') g b outs.
Proof.
  intros Hws Hpre Hdec Hmi. destruct (swaps_run c sr x) as (evs & Hsw). unfold run_scheduled_step. rewrite bind_assoc_run.
  set (x1 := mk_exec (cluster x) (replies x) (events x ++ evs)) in *. unfold mbind at 1, act_bind at 1. rewrite Hsw, Hpre, Hdec. simpl negb.
  assert (forall m : act Exec (list RunnerOut), (exists outs x', m x1 = (Ok outs, x') /\ length outs = num_groups /\
      forall g b, (g < num_groups)%nat -> sr_run_batches sr !! (g * tp)%nat = Some b -> exact_for kv sample sample_lp (cluster x1) (cluster x') g b outs) ->
    exists outs x', (outs ← m; _ ← record (Postprocess outs); mret (Some outs)) x1 = (Ok (Some outs), x') /\ length outs = num_groups /\
      last (events x') = Some (Postprocess outs) /\
      forall g b, (g < num_groups)%nat -> sr_run_batches sr !! (g * tp)%nat = Some b -> exact_for kv sample sample_lp (cluster x) (cluster x') g b outs) as Hpost.
  { intros m (outs & x' & Hm & Hl & He). exists outs. unfold mbind, act_bind. rewrite Hm. simpl. eexists. split; [done|].
    split; [done|]. split; [apply last_snoc|done]. }
  apply Hpost. simpl. case_bool_decide.
  - destruct (pipeline_runs forward pp tp num_groups kv sample sample_lp c _ _ Hws x1 Hmi) as (outs & x' & _ & _ & Hrun & Hl & He & _).
    by exists outs, x'.
  - exact (single_forward_runs c (sr_run_batches sr) (sr_groups sr) x1 Hws).
Qed.

(** The prefill pipeline never has more rounds in flight than its depth, hence never more
    than the mailboxes of the workers hold; it waits for every round exactly once, in the
    order of submission. *)
Theorem pipeline_inflight_bounded c batches groups x :
  wf_step pp tp num_groups c batches groups -> (forall n, max_inflight c = Some n -> 2 <= n) ->
  exists outs x' evs, run_static_pp_prefill_pipeline forward workers c batches groups x = (Ok outs, x') /\
    events x' = events x ++ evs /\ waits evs = submits evs /\
    forall k, (forall n, max_inflight c = Some n -> in_flight (take k evs) <= n) /\
      (0 < sc_pp_prefill_pipeline_depth c -> in_flight (take k evs) <= sc_pp_prefill_pipeline_depth c) /\
      (sc_pp_prefill_pipeline_depth c = 0 -> in_flight (take k evs) <= Z.min (sc_pp c) 16).
Proof.
  intros Hws Hmi. destruct (pipeline_runs forward pp tp num_groups kv sample sample_lp c batches groups Hws x Hmi)
    as (outs & x' & evs & depth & Hrun & _ & _ & Hev & Hd & Hb & Hw).
  exists outs, x', evs. do 3 (split; [done|]). intros k. specialize (Hb k). simpl in Hb. destruct Hws as [Hpp Hpp0 _ _ _ _ _ _ _].
  unfold pipeline_depth in Hd. destruct (max_inflight c) as [n|]; [specialize (Hmi n eq_refl); rewrite decide_False in Hd by lia|];
    injection Hd as <-; (split; [intros ? [= <-] || intros; try done; case_decide; lia|]); (split; intros; case_decide; lia).
Qed.
End step.

(** * Witnesses: workers that remember what they were fed *)

Section toy.
Context (pp tp num_groups : nat).

Definition toy_out (rows : list (Z * list Z)) (b : WireBatch) : RunnerOut :=
  let answer := imap (fun k r => let t := fed (fst r) rows ++ fed (fst r) (take (Datatypes.S k) (batch_rows b)) in
                                 [foldr Z.add 0 t; zlen t]) (batch_rows b) in
  mk_out answer (if any_return_completion_logprobs b then Some answer else None) 7.

(** The rows fed to every group. *)
Definition toy_forward (s : nat -> list (Z * list Z)) (l : list WireBatch) : (nat -> list (Z * list Z)) * list RunnerOut :=
  (fun g => match l !! (g * tp)%nat with Some b => if is_dummy b then s g else s g ++ batch_rows b | None => s g end,
   imap (fun w b => toy_out (s ((w mod (num_groups * tp)) / tp)%nat) b) l).

Definition toy_kv (s : nat -> list (Z * list Z)) (g : nat) (id : Z) : list Z := fed id (s g).
Definition toy_sample (t : list Z) : list Z := [foldr Z.add 0 t; zlen t].

Lemma toy_runs : (0 < pp)%nat -> (0 < tp)%nat -> ForwardRuns toy_forward pp tp num_groups toy_kv toy_sample toy_sample.
Proof.
  intros Hpp Htp s l s' outs [Hl Hg] Hf. unfold toy_forward in Hf. injection Hf as <- <-. split.
  { by rewrite length_imap, length_py_repeat, Hl. }
  intros g b Hlt Hb Hpre. assert (g * tp < length l)%nat as Hgl by nia.
  pose proof (lookup_py_repeat l pp 0 (g * tp) Hpp Hgl) as H0. simpl in H0.
  split.
  - intros Hd id. unfold toy_kv. by rewrite H0, Hb, Hd.
  - intros Hd. unfold toy_kv. rewrite H0, Hb, Hd. split; [intros id; apply fed_app|].
    intros out Hout. rewrite list_lookup_imap in Hout.
    pose proof (lookup_py_repeat l pp (pp - 1) (g * tp) ltac:(lia) Hgl) as H1. rewrite Hl in H1. rewrite H1, Hb in Hout. simpl in Hout.
    injection Hout as <-.
    assert ((((pp - 1) * (num_groups * tp) + g * tp) mod (num_groups * tp)) / tp = g)%nat as ->.
    { rewrite Nat.add_comm, Nat.Div0.mod_add, Nat.mod_small by nia. apply Nat.div_mul. lia. }
    assert (forall k r, batch_rows b !! k = Some r -> imap (fun k r => let t := fed (fst r) (s g) ++ fed (fst r) (take (Datatypes.S k) (batch_rows b)) in
                                 [foldr Z.add 0 t; zlen t]) (batch_rows b) !! k = Some (toy_sample (fed (fst r) (s g) ++ fed (fst r) (take (Datatypes.S k) (batch_rows b))))) as Hk.
    { intros k r Hr. rewrite list_lookup_imap, Hr. done. }
    split; [intros k r Hr _; by apply Hk|]. unfold toy_out. simpl. destruct (any_return_completion_logprobs b); [|done].
    intros k r Hr _. by apply Hk.
Qed.
End toy.

(** Two groups on two stages; the first has a prompt of six tokens and one of three, cut at
    four tokens per forward, the second a single token. *)
Definition toy_batch (ids lens tokens : list Z) : WireBatch :=
  mk_batch true tokens (seqZ 0 (zlen tokens)) lens ((fun _ => [1]) <$> ids) ((fun _ => 0) <$> ids) ((fun _ => -1) <$> ids) ∅
    ((fun _ => -1) <$> ids) ids ((fun _ => true) <$> ids) true false.
Definition toy_batches : list WireBatch := [toy_batch [7; 8] [6; 3] [1; 2; 3; 4; 5; 6; 10; 20; 30]; toy_batch [9] [1] [100]].
Definition toy_config : StepConfig := mk_step_config 2 1 4 0 false (Some 2).
Definition toy_schedule : ScheduleResult := mk_schedule true [[7; 8]; [9]] [] [] toy_batches [].
Definition toy_exec : Exec (S := nat -> list (Z * list Z)) := mk_exec (fun _ => []) [] [].

Lemma toy_wf : wf_step 2 1 2 toy_config toy_batches [[7; 8]; [9]].
Proof.
  split; [reflexivity|lia|reflexivity|lia|simpl; lia|reflexivity|split; [reflexivity|]| |].
  - intros g t Ht. f_equal. lia.
  - intros b Hb. unfold toy_batches in Hb. rewrite elem_of_cons, list_elem_of_singleton in Hb. destruct Hb as [->| ->].
    + split; [split; done|]. apply NoDup_cons. split; [rewrite list_elem_of_singleton; lia|apply NoDup_singleton].
    + split; [split; done|]. apply NoDup_singleton.
  - intros [|[|g]] b ids Hb Hi; simpl in *; [injection Hb as <-; by injection Hi as <-|injection Hb as <-; by injection Hi as <-|done].
Qed.

Lemma scheduled_prefill_exact_witness :
  exists outs x', run_scheduled_step (toy_forward 1 2) 4 toy_config toy_schedule toy_exec = (Ok (Some outs), x') /\ length outs = 2%nat /\
    last (events x') = Some (Postprocess outs) /\
    forall g b, (g < 2)%nat -> toy_batches !! (g * 1)%nat = Some b ->
      exact_for toy_kv toy_sample toy_sample (cluster toy_exec) (cluster x') g b outs.
Proof.
  pose proof (toy_runs 2 1 2 ltac:(lia) ltac:(lia)) as Ht.
  apply (scheduled_prefill_exact (toy_forward 1 2) 2 1 2 toy_kv toy_sample toy_sample toy_config toy_schedule toy_exec);
    [exact toy_wf|reflexivity|reflexivity|intros n [= <-]; vm_compute; discriminate].
Defined.

Lemma pipeline_inflight_bounded_witness :
  exists outs x' evs, run_static_pp_prefill_pipeline (toy_forward 1 2) 4 toy_config toy_batches [[7; 8]; [9]] toy_exec = (Ok outs, x') /\
    events x' = events toy_exec ++ evs /\ waits evs = submits evs /\
    forall k, (forall n, max_inflight toy_config = Some n -> in_flight (take k evs) <= n) /\
      (0 < sc_pp_prefill_pipeline_depth toy_config -> in_flight (take k evs) <= sc_pp_prefill_pipeline_depth toy_config) /\
      (sc_pp_prefill_pipeline_depth toy_config = 0 -> in_flight (take k evs) <= Z.min (sc_pp toy_config) 16).
Proof.
  pose proof (toy_runs 2 1 2 ltac:(lia) ltac:(lia)) as Ht.
  apply (pipeline_inflight_bounded (toy_forward 1 2) 2 1 2 toy_kv toy_sample toy_sample toy_config toy_batches [[7; 8]; [9]] toy_exec);
    [exact toy_wf|intros n [= <-]; vm_compute; discriminate].
Defined.

(** The step on the sample: three rounds, the second prompt sampled from all of its
    tokens. *)
Example toy_step_events :
  let '(_, x) := run_static_pp_prefill_pipeline (toy_forward 1 2) 4 toy_config toy_batches [[7; 8]; [9]] toy_exec in
  events x = [Submit 0; Submit 1; Wait 0; Submit 2; Wait 1; Wait 2].
Proof. by vm_compute. Qed.
