(* ===== verification/HiSparse.v ===== *)
(** The HiSparse hot tier ([dlengine/runtime/context/cache/hisparse.py]): sizing of the MLA and
    GQA hot buffers, the mapping of new tokens to hot slots, and the bookkeeping of which
    sequence owns a slot.  Index tensors are lists; the residency bytes and hash entries that
    the code clears are modelled with their contents, the caches by their shapes.  Of the
    CUDA kernels ([hisparse.cuh]) the slot arithmetic is modelled, and the programs of
    [load_mla_slot_kernel] one after another: which hot slot each selects, through the residency marks and
    the union table, and which it writes; the bytes of a token are represented by its sequence. *)

From S2P Require Import Prelude Cache.

Open Scope Z_scope.

Record HiSparseContext := mk_hisparse {
  enabled : bool;
  hs_max_num_seqs : Z;
  dummy_slot : Z;
  device_buffer_size : Z;
  tokens_per_seq : Z;
  hot_kv_cache : option Tensor;
  cold_kv_cache : option Tensor;
  hs_block_size : Z;
  hot_blocks_per_seq : Z;
  (** By layer, slot and token. *)
  resident_tokens : option (list (list (list Z)));
  (** By slot. *)
  union_hash_entries : option (list (list Z));
  union_hash_values : option (list (list Z));
  union_hash_capacity : Z;
  slot_owner_ids : option (list Z);
  num_real_reqs : option Z
}.

(** The defaults; [clear_context] and [reset_hisparse_context] restore them. *)
Definition empty_hisparse : HiSparseContext := mk_hisparse false 0 (-1) 0 0 None None 0 0 None None None 0 None None.

(** [torch.zeros] *)
Definition zeros (n : Z) : list Z := replicate (Z.to_nat n) 0.
Definition zeros2 (n m : Z) : list (list Z) := replicate (Z.to_nat n) (zeros m).

(** The conversion of an int64 tensor to int32. *)
Definition wrap32 (z : Z) : Z := (z + 2 ^ 31) mod 2 ^ 32 - 2 ^ 31.

(** [initialize_hisparse_context], on the current context. *)
Definition initialize_hisparse_context (max_seqs buffer_size : Z) (x : HiSparseContext) : HiSparseContext :=
  mk_hisparse true max_seqs max_seqs buffer_size buffer_size (hot_kv_cache x) (cold_kv_cache x) (hs_block_size x) (hot_blocks_per_seq x)
    (resident_tokens x) (union_hash_entries x) (union_hash_values x) (union_hash_capacity x) (slot_owner_ids x) (Some 0).

(** [while hash_capacity < 2 * max_union_entries: hash_capacity <<= 1] *)
Fixpoint grow_capacity (fuel : nat) (bound cap : Z) : Z :=
  match fuel with
  | O => cap
  | S fuel => if decide (cap < bound) then grow_capacity fuel bound (Z.shiftl cap 1) else cap
  end.

Definition hash_capacity_for (entries : Z) : Z :=
  let bound := 2 * Z.max 1 entries in grow_capacity (Z.to_nat bound) bound 1.

(** [initialize_mla_hisparse_cache] *)
Definition initialize_mla_hisparse_cache (cold : Tensor) (max_seqs buffer_size : Z) (x : HiSparseContext) : result HiSparseContext :=
  match shape cold with
  | [s0; s1; _; block; s4; s5] =>
      if decide (block = 0) then Err ZeroDivisionError
      else
        let slot_stride := buffer_size + block in
        let blocks_per_seq := Z.max 1 ((slot_stride + block - 1) / block) in
        let padded := torch_empty [s0; s1; max_seqs * blocks_per_seq; block + 1; s4; s5] (element_size cold) in
        let capacity := hash_capacity_for (device_buffer_size x) in
        Ok (mk_hisparse (enabled x) (hs_max_num_seqs x) (dummy_slot x) (device_buffer_size x) (blocks_per_seq * block)
              (Some (narrow 3 block padded)) (Some cold) block blocks_per_seq
              (Some (replicate (Z.to_nat s1) (zeros2 max_seqs (device_buffer_size x))))
              (Some (zeros2 max_seqs capacity)) (Some (zeros2 max_seqs capacity)) capacity
              (Some (replicate (Z.to_nat max_seqs) (-1))) (num_real_reqs x))
  | _ => Err ValueError
  end.

(** The checks of [stage_mla_sparse_indices] before the kernel runs; [rows] and [topk] are the
    shape of [sparse_indices], [width] is [num_tokens_per_seq]. *)
Definition stage_checks (rows topk slots_numel width : Z) (x : HiSparseContext) : result unit :=
  match hot_kv_cache x, cold_kv_cache x with
  | Some _, Some _ =>
      if decide (slots_numel <> rows) then Err ValueError
      else if decide (topk > device_buffer_size x) then Err RuntimeError
      else if decide (topk * Z.max 1 width > device_buffer_size x) then Err RuntimeError
      else if decide (Z.max 1 width > tokens_per_seq x - device_buffer_size x) then Err RuntimeError
      else match union_hash_entries x, union_hash_values x with
           | Some _, Some _ => Ok tt
           | _, _ => Err RuntimeError
           end
  | _, _ => Err RuntimeError
  end.

(** One row of [map_mla_output_slots]. *)
Definition output_slot (x : HiSparseContext) (width row slot len : Z) : Z :=
  let req_offset := row / width in
  let token_step := row - req_offset * width in
  let output_position := len - width + token_step in
  let valid := bool_decide (slot >= 0) && bool_decide (slot < hs_max_num_seqs x) && bool_decide (output_position >= 0) &&
               match num_real_reqs x with Some n => bool_decide (req_offset < n) | None => true end in
  let short := bool_decide (len > 0) && bool_decide (len <= device_buffer_size x) in
  let offset := if short then output_position else device_buffer_size x + token_step in
  wrap32 (if valid then slot * tokens_per_seq x + offset else -1).

(** [map_mla_output_slots] on flat CUDA tensors. *)
Definition map_mla_output_slots (slots lens : list Z) (width : Z) (x : HiSparseContext) : result (list Z) :=
  match hot_kv_cache x, cold_kv_cache x with
  | Some _, Some _ =>
      if decide (zlen slots <> zlen lens) then Err ValueError
      else Ok (imap (fun row p => output_slot x (Z.max 1 width) (Z.of_nat row) (fst p) (snd p)) (zip slots lens))
  | _, _ => Err RuntimeError
  end.

(** [t\[valid\] = 0] on rows. *)
Definition zero_rows (valid : list Z) (t : list (list Z)) : list (list Z) :=
  imap (fun i row => if decide (Z.of_nat i ∈ valid) then (fun _ => 0) <$> row else row) t.

(** [reset_mla_hisparse_slots] *)
Definition reset_mla_hisparse_slots (slots : list Z) (x : HiSparseContext) : HiSparseContext :=
  match resident_tokens x with
  | None => x
  | Some res =>
      let valid := filter (fun s => 0 <= s < hs_max_num_seqs x) slots in
      mk_hisparse (enabled x) (hs_max_num_seqs x) (dummy_slot x) (device_buffer_size x) (tokens_per_seq x) (hot_kv_cache x)
        (cold_kv_cache x) (hs_block_size x) (hot_blocks_per_seq x) (Some (zero_rows valid <$> res))
        (zero_rows valid <$> union_hash_entries x) (union_hash_values x) (union_hash_capacity x) (slot_owner_ids x) (num_real_reqs x)
  end.

Definition set_owners (owners : list Z) (x : HiSparseContext) : HiSparseContext :=
  mk_hisparse (enabled x) (hs_max_num_seqs x) (dummy_slot x) (device_buffer_size x) (tokens_per_seq x) (hot_kv_cache x)
    (cold_kv_cache x) (hs_block_size x) (hot_blocks_per_seq x) (resident_tokens x) (union_hash_entries x) (union_hash_values x)
    (union_hash_capacity x) (Some owners) (num_real_reqs x).

(** One iteration of [update_mla_hisparse_slot_owners]: the owners and the changed slots.  A
    valid slot beyond the list raises. *)
Definition update_owner (max_seqs : Z) (acc : list Z * list Z) (p : Z * Z) : result (list Z * list Z) :=
  let '(owners, changed) := acc in let '(slot, seq_id) := p in
  if decide (0 <= slot < max_seqs) then
    old ← py_getitem owners slot;
    Ok (if decide (old <> seq_id) then (<[Z.to_nat slot := seq_id]> owners, changed ++ [slot]) else (owners, changed))
  else Ok (owners, changed).

(** [update_mla_hisparse_slot_owners] *)
Definition update_mla_hisparse_slot_owners (slots seq_ids : list Z) (x : HiSparseContext) : result HiSparseContext :=
  match slot_owner_ids x with
  | None => Ok x
  | Some owners =>
      '(owners, changed) ← foldM_r (update_owner (hs_max_num_seqs x)) (owners, []) (zip slots seq_ids);
      Ok (reset_mla_hisparse_slots changed (set_owners owners x))
  end.

(** [allocate_gqa_hot_buffer] *)
Definition allocate_gqa_hot_buffer (num_layers kv_heads head_dim itemsize : Z) (x : HiSparseContext) : option Tensor * HiSparseContext :=
  let hot := if decide (enabled x = false \/ device_buffer_size x <= 0) then None
             else Some (torch_empty [2; num_layers; tokens_per_seq x * Z.max 1 (hs_max_num_seqs x); kv_heads; head_dim] itemsize) in
  (hot, mk_hisparse (enabled x) (hs_max_num_seqs x) (dummy_slot x) (device_buffer_size x) (tokens_per_seq x) hot
          (cold_kv_cache x) (hs_block_size x) (hot_blocks_per_seq x) (resident_tokens x) (union_hash_entries x) (union_hash_values x)
          (union_hash_capacity x) (slot_owner_ids x) (num_real_reqs x)).

(** One row of [build_hot_slot_mapping], without the CUDA kernel. *)
Definition ring_slot (x : HiSparseContext) (slot pos : Z) : Z :=
  wrap32 (if decide (slot < hs_max_num_seqs x) then slot * tokens_per_seq x + pos mod tokens_per_seq x else -1).

(** [build_hot_slot_mapping], without the CUDA kernel; [positions] is cut to the slots. *)
Definition build_hot_slot_mapping (slots positions : list Z) (x : HiSparseContext) : option (list Z) :=
  if decide (tokens_per_seq x <= 0) then None
  else Some ((fun p => ring_slot x (fst p) (snd p)) <$> zip slots positions).

(** * The kernels' slot arithmetic ([hisparse.cuh]) *)

(** [build_ring_slot_mapping_kernel]; C's [%] truncates. *)
Definition kernel_ring_slot (real max_seqs tps idx slot pos : Z) : Z :=
  if decide (idx >= real \/ slot < 0 \/ slot >= max_seqs \/ tps <= 0) then -1
  else
    let offset := Z.rem pos tps in
    let offset := if decide (offset < 0) then offset + tps else offset in
    wrap32 (slot * tps + offset).

(** [hot_output_slots\[row\]] of [load_mla_slot_kernel]. *)
Definition kernel_output_slot (real max_seqs capacity stride width row slot len : Z) : Z :=
  if decide (row >= real * width) then -1
  else
    let token_step := row - Z.quot row width * width in
    if decide (slot < 0 \/ slot >= max_seqs) then -1
    else
      let short := bool_decide (len > 0) && bool_decide (len <= capacity) in
      let output_pos := len - width + token_step in
      if decide (output_pos < 0) then -1 else wrap32 (slot * stride + (if short then output_pos else capacity + token_step)).

(** ** [load_mla_slot_kernel] *)

(** The epoch of an invocation: sequence length, layer and phase packed in 31 bits, never zero. *)
Definition epoch_of (len layer phase : Z) : Z :=
  let raw := Z.lor (Z.lor (Z.shiftl len 10 mod 2 ^ 32) (Z.shiftl (Z.land layer 127) 3)) (Z.land phase 7) in
  let e := Z.land raw (Z.ones 31) in if decide (e = 0) then 1 else e.

(** A cell of the union table: the key, the epoch and the ready bit. *)
Definition cell_epoch (cell : Z) : Z := Z.land (Z.shiftr cell 1) (Z.ones 31).
Definition cell_key (cell : Z) : Z := Z.land (Z.shiftr cell 32) (Z.ones 32).
Definition ready_cell (epoch logical : Z) : Z := Z.lor (Z.lor (Z.shiftl logical 32) (Z.shiftl epoch 1)) 1.

Inductive probed := Claimed (bucket : Z) | Found (bucket : Z) | Exhausted.

(** The probing loop: a cell of another epoch is taken, a cell of this epoch and key is shared.  The programs of an
    invocation run one after another, so that the exchange succeeds and a shared cell is ready. *)
Fixpoint probe (fuel : nat) (table : list Z) (capacity epoch logical bucket : Z) : probed :=
  match fuel with
  | O => Exhausted
  | S fuel =>
      let old := default 0 (table !! Z.to_nat bucket) in
      if decide (cell_epoch old <> epoch) then Claimed bucket
      else if decide (cell_key old = logical) then Found bucket
      else probe fuel table capacity epoch logical (Z.land (bucket + 1) (capacity - 1))
  end.

Definition first_bucket (capacity logical : Z) : Z := Z.land ((logical * 11400714819323198485) mod 2 ^ 64) (capacity - 1).

(** The arguments one program of the kernel reads: row and index of the selection, slot and length of the row, source and
    position of the token. *)
Record LoadArgs := mk_load_args {
  la_layer : nat;
  la_phase : Z;
  la_width : Z;
  la_topk : Z;
  la_row : Z;
  la_i : Z;
  la_slot : Z;
  la_len : Z;
  la_src : Z;
  la_logical : Z
}.

(** What a program does: the selected hot slot ([-1] for none), whether it copies the token there, the hot slot
    of the new token of its row if this program maps it. *)
Record Loaded := mk_loaded { ld_selected : Z; ld_copied : bool; ld_output : option Z }.

Definition set_tables (res : option (list (list (list Z)))) (entries values : option (list (list Z))) (x : HiSparseContext) : HiSparseContext :=
  mk_hisparse (enabled x) (hs_max_num_seqs x) (dummy_slot x) (device_buffer_size x) (tokens_per_seq x) (hot_kv_cache x)
    (cold_kv_cache x) (hs_block_size x) (hot_blocks_per_seq x) res entries values (union_hash_capacity x) (slot_owner_ids x) (num_real_reqs x).

(** [slot_resident\[pos\] = 1] *)
Definition mark_resident (layer : nat) (slot pos : Z) (x : HiSparseContext) : HiSparseContext :=
  set_tables (alter (alter (<[Z.to_nat pos := 1]>) (Z.to_nat slot)) layer <$> resident_tokens x) (union_hash_entries x) (union_hash_values x) x.

Definition resident_row (x : HiSparseContext) (layer slot : nat) : list Z := default [] (default [] (default [] (resident_tokens x) !! layer) !! slot).
Definition entries_row (x : HiSparseContext) (slot : nat) : list Z := default [] (default [] (union_hash_entries x) !! slot).
Definition values_row (x : HiSparseContext) (slot : nat) : list Z := default [] (default [] (union_hash_values x) !! slot).

Definition claim_cell (slot bucket cell entry : Z) (x : HiSparseContext) : HiSparseContext :=
  set_tables (resident_tokens x) (alter (<[Z.to_nat bucket := cell]>) (Z.to_nat slot) <$> union_hash_entries x)
    (alter (<[Z.to_nat bucket := entry]>) (Z.to_nat slot) <$> union_hash_values x) x.

(** The choice of the hot slot (thread 0). *)
Definition select_token (a : LoadArgs) (x : HiSparseContext) : HiSparseContext * Z * bool :=
  let token_step := la_row a - Z.quot (la_row a) (la_width a) * la_width a in
  let hot_base := la_slot a * tokens_per_seq x in
  let capacity := device_buffer_size x in
  let short := bool_decide (la_len a > 0) && bool_decide (la_len a <= capacity) in
  let output_start := la_len a - la_width a in
  let valid := bool_decide (la_src a >= 0) && bool_decide (la_logical a >= 0) && (negb short || bool_decide (la_logical a < la_len a)) in
  let output_span := bool_decide (la_logical a >= output_start) && bool_decide (la_logical a < la_len a) in
  if negb valid then (x, -1, false)
  else if short then
    (x, wrap32 (hot_base + la_logical a),
     negb output_span && bool_decide (default 0 (resident_row x (la_layer a) (Z.to_nat (la_slot a)) !! Z.to_nat (la_logical a)) = 0))
  else if output_span then (x, wrap32 (hot_base + capacity + la_logical a - output_start), false)
  else
    let epoch := epoch_of (la_len a) (Z.of_nat (la_layer a)) (la_phase a) in
    let entry := wrap32 (token_step * la_topk a + la_i a) in
    match probe (Z.to_nat (union_hash_capacity x)) (entries_row x (Z.to_nat (la_slot a))) (union_hash_capacity x) epoch (la_logical a)
            (first_bucket (union_hash_capacity x) (la_logical a)) with
    | Claimed bucket => (claim_cell (la_slot a) bucket (ready_cell epoch (la_logical a)) entry x, wrap32 (hot_base + entry), true)
    | Found bucket =>
        let canonical := default (-1) (values_row x (Z.to_nat (la_slot a)) !! Z.to_nat bucket) in
        (x, if decide (canonical >= 0) then wrap32 (hot_base + canonical) else -1, false)
    | Exhausted => (x, -1, false)
    end.

(** One program: nothing for padding rows and invalid slots; else the selection, the slot of the new token and the marks. *)
Definition load_mla_slot (real : Z) (a : LoadArgs) (x : HiSparseContext) : HiSparseContext * Loaded :=
  if decide (la_row a >= real * la_width a \/ la_slot a < 0 \/ la_slot a >= hs_max_num_seqs x) then (x, mk_loaded (-1) false None)
  else
    let token_step := la_row a - Z.quot (la_row a) (la_width a) * la_width a in
    let short := bool_decide (la_len a > 0) && bool_decide (la_len a <= device_buffer_size x) in
    let output_pos := la_len a - la_width a + token_step in
    let '(x, selected, copied) := select_token a x in
    let output := if decide (la_i a = 0 /\ 0 <= output_pos)
                  then Some (wrap32 (la_slot a * tokens_per_seq x + (if short then output_pos else device_buffer_size x + token_step))) else None in
    let x := if decide (la_i a = 0 /\ short = true /\ 0 <= output_pos < device_buffer_size x) then mark_resident (la_layer a) (la_slot a) output_pos x else x in
    let x := if copied && short then mark_resident (la_layer a) (la_slot a) (la_logical a) x else x in
    (x, mk_loaded selected copied output).

(** * Arithmetic *)

Lemma wrap32_small z : -2 ^ 31 <= z < 2 ^ 31 -> wrap32 z = z.
Proof. intros H. unfold wrap32. rewrite Z.mod_small; lia. Qed.

Lemma grow_capacity_spec fuel bound k :
  1 <= bound -> 0 <= k -> bound - 2 ^ k <= Z.of_nat fuel -> 2 ^ k < 2 * bound ->
  exists j, k <= j /\ grow_capacity fuel bound (2 ^ k) = 2 ^ j /\ bound <= 2 ^ j < 2 * bound.
Proof.
  intros Hb. revert k. induction fuel as [|fuel IH]; intros k Hk Hf Hlt; simpl.
  - exists k. split; [lia|]. split; [done|]. lia.
  - pose proof (Z.pow_pos_nonneg 2 k ltac:(lia) Hk). case_decide as Hc.
    + rewrite Z.shiftl_mul_pow2, Z.pow_1_r by lia. replace (2 ^ k * 2) with (2 ^ (k + 1)) by (rewrite Z.pow_add_r; lia).
      assert (2 ^ (k + 1) = 2 * 2 ^ k) as Hp by (rewrite Z.pow_add_r; lia).
      destruct (IH (k + 1)) as (j & Hj & Hg & Hbound); [lia|lia|lia|]. exists j. split; [lia|]. done.
    + exists k. split; [lia|]. split; [done|]. lia.
Qed.

(** The union table has a power of two of cells, at least twice and less than four times the
    entries; the loop ends. *)
Lemma hash_capacity_exact n :
  exists j, 0 <= j /\ hash_capacity_for n = 2 ^ j /\ 2 * Z.max 1 n <= 2 ^ j < 4 * Z.max 1 n.
Proof.
  unfold hash_capacity_for. destruct (grow_capacity_spec (Z.to_nat (2 * Z.max 1 n)) (2 * Z.max 1 n) 0) as (j & Hj & Hg & Hb); [lia|lia|simpl; lia|simpl; lia|].
  exists j. split; [lia|]. change (2 ^ 0) with 1 in Hg. split; [done|]. lia.
Qed.

(** * Hot slots *)

(** A hot tier as [initialize_hisparse_context] and [initialize_mla_hisparse_cache] leave it. *)
Record mla_ready (x : HiSparseContext) : Prop := {
  mr_seqs : 0 <= hs_max_num_seqs x;
  mr_buffer : 0 <= device_buffer_size x;
  mr_block : 0 < hs_block_size x;
  mr_tokens : tokens_per_seq x = hot_blocks_per_seq x * hs_block_size x;
  mr_reserve : device_buffer_size x + hs_block_size x <= tokens_per_seq x;
  mr_cold : is_Some (cold_kv_cache x);
  mr_hot : exists t s0 s1 s4 s5, hot_kv_cache x = Some t /\ shape t = [s0; s1; hs_max_num_seqs x * hot_blocks_per_seq x; hs_block_size x; s4; s5];
  mr_hash : is_Some (union_hash_entries x) /\ is_Some (union_hash_values x)
}.

Lemma initialize_ready cold max_seqs buffer x x' :
  0 <= max_seqs -> 0 <= buffer ->
  (forall s0 s1 n block s4 s5, shape cold = [s0; s1; n; block; s4; s5] -> 0 < block) ->
  initialize_mla_hisparse_cache cold max_seqs buffer (initialize_hisparse_context max_seqs buffer x) = Ok x' -> mla_ready x'.
Proof.
  intros Hm Hb Hblock. unfold initialize_mla_hisparse_cache. destruct (shape cold) as [|s0 [|s1 [|n [|block [|s4 [|s5 [|]]]]]]] eqn:Es; try done.
  specialize (Hblock _ _ _ _ _ _ eq_refl). rewrite decide_False by lia. intros [= <-].
  pose proof (Z.div_mod (buffer + block + block - 1) block ltac:(lia)). pose proof (Z.mod_pos_bound (buffer + block + block - 1) block ltac:(lia)).
  split; simpl; try done; [nia|].
  eexists _, s0, s1, s4, s5. split; [done|]. simpl. by rewrite Z.min_l by lia.
Qed.

(** The rows of a decode batch: [width] consecutive rows per request, which share its slot and
    length; requests hold different slots. *)
Record wf_rows (x : HiSparseContext) (width : Z) (slots lens : list Z) : Prop := {
  wr_len : zlen slots = zlen lens;
  wr_same r r' : Z.of_nat r / width = Z.of_nat r' / width -> (r < length slots)%nat -> (r' < length slots)%nat ->
    slots !! r = slots !! r' /\ lens !! r = lens !! r';
  wr_distinct r r' slot : slots !! r = Some slot -> slots !! r' = Some slot -> 0 <= slot < hs_max_num_seqs x ->
    Z.of_nat r / width = Z.of_nat r' / width
}.

Lemma output_slot_range x width row slot len :
  mla_ready x -> 1 <= width <= tokens_per_seq x - device_buffer_size x -> hs_max_num_seqs x * tokens_per_seq x < 2 ^ 31 -> 0 <= row ->
  output_slot x width row slot len <> -1 ->
  0 <= slot < hs_max_num_seqs x /\
  exists offset, output_slot x width row slot len = slot * tokens_per_seq x + offset /\ 0 <= offset < tokens_per_seq x /\
    (offset = len - width + row mod width /\ offset < device_buffer_size x \/
     offset = device_buffer_size x + row mod width /\ ~ 0 < len <= device_buffer_size x).
Proof.
  intros [Hs Hb Hbl Htok Hres _ _ _] Hw H31 Hrow. unfold output_slot.
  assert (row - row / width * width = row mod width) as -> by (pose proof (Z.div_mod row width ltac:(lia)); lia).
  pose proof (Z.mod_pos_bound row width ltac:(lia)) as Hmod.
  destruct (_ && _ && _ && _) eqn:Hv; [|intros []; by rewrite wrap32_small by lia].
  rewrite !andb_true_iff, !bool_decide_eq_true in Hv. destruct Hv as [[[H0 Hm] Hpos] _]. intros _. split; [lia|].
  set (offset := if bool_decide (len > 0) && bool_decide (len <= device_buffer_size x) then _ else _).
  assert (0 <= offset < tokens_per_seq x /\ (offset = len - width + row mod width /\ offset < device_buffer_size x \/
     offset = device_buffer_size x + row mod width /\ ~ 0 < len <= device_buffer_size x)) as [Ho Hcase].
  { unfold offset. destruct (bool_decide (len > 0) && bool_decide (len <= device_buffer_size x)) eqn:Hsh.
    - rewrite andb_true_iff, !bool_decide_eq_true in Hsh. split; [lia|]. left. split; [done|lia].
    - rewrite andb_false_iff, !bool_decide_eq_false in Hsh. split; [lia|]. right. split; [done|lia]. }
  exists offset. split; [|done]. apply wrap32_small. nia.
Qed.

(** A row of a real request that holds a slot, for a position that exists. *)
Definition has_output (x : HiSparseContext) (width row slot len : Z) : Prop :=
  0 <= slot < hs_max_num_seqs x /\ 0 <= len - width + row mod width /\
  match num_real_reqs x with Some n => row / width < n | None => True end.

Lemma output_slot_cases x width row slot len :
  mla_ready x -> 1 <= width <= tokens_per_seq x - device_buffer_size x -> hs_max_num_seqs x * tokens_per_seq x < 2 ^ 31 -> 0 <= row ->
  (has_output x width row slot len /\
   output_slot x width row slot len = slot * tokens_per_seq x +
     (if decide (0 < len <= device_buffer_size x) then len - width + row mod width else device_buffer_size x + row mod width)) \/
  (~ has_output x width row slot len /\ output_slot x width row slot len = -1).
Proof.
  intros [Hs Hb Hbl Htok Hres _ _ _] Hw H31 Hrow. unfold output_slot, has_output.
  assert (row - row / width * width = row mod width) as -> by (pose proof (Z.div_mod row width ltac:(lia)); lia).
  pose proof (Z.mod_pos_bound row width ltac:(lia)) as Hmod.
  destruct (_ && _ && _ && _) eqn:Hv.
  - left. rewrite !andb_true_iff, !bool_decide_eq_true in Hv. destruct Hv as [[[H0 Hm] Hpos] Hn].
    split; [split_and!; [lia|lia|lia|]; destruct (num_real_reqs x); [by apply bool_decide_eq_true in Hn|done]|].
    destruct (bool_decide (len > 0) && bool_decide (len <= device_buffer_size x)) eqn:Hsh.
    + rewrite andb_true_iff, !bool_decide_eq_true in Hsh. rewrite decide_True by lia. apply wrap32_small. nia.
    + rewrite andb_false_iff, !bool_decide_eq_false in Hsh. rewrite decide_False by lia. apply wrap32_small. nia.
  - right. split; [|by rewrite wrap32_small by lia]. intros (Hsl & Hpos & Hn). apply not_true_iff_false in Hv. apply Hv.
    rewrite !andb_true_iff, !bool_decide_eq_true. split_and!; [lia|lia|lia|]. destruct (num_real_reqs x); [by apply bool_decide_eq_true|done].
Qed.

(** * Ownership of slots *)

Section owners.
Variable max_seqs : Z.

Lemma update_owners_spec pairs owners changed owners' changed' :
  foldM_r (update_owner max_seqs) (owners, changed) pairs = Ok (owners', changed') ->
  length owners' = length owners /\ (forall s, s ∈ changed -> s ∈ changed') /\
  (forall s, (0 <= s) -> s ∉ changed' -> owners' !! Z.to_nat s = owners !! Z.to_nat s) /\
  (forall s, s ∈ changed' -> s ∈ changed \/ s ∈ (fst <$> pairs)).
Proof.
  revert owners changed. induction pairs as [|[slot id] pairs IH]; intros owners changed Hf.
  { simpl in Hf. injection Hf as <- <-. split; [done|]. split; [done|]. split; [done|]. auto. }
  simpl in Hf. destruct (decide (0 <= slot < max_seqs)) as [Hv|Hv].
  - destruct (py_getitem owners slot) as [old|] eqn:Eo; [|done]. simpl in Hf. destruct (decide (old <> id)) as [Hne|Heq].
    + destruct (IH _ _ Hf) as (Hl & Hc & Ho & Hr). rewrite length_insert in Hl. split; [done|].
      split; [intros s Hs; apply Hc, elem_of_app; by left|]. split.
      * intros s Hs Hns. rewrite Ho by done. apply list_lookup_insert_ne. intros Heq.
        apply Hns, Hc, elem_of_app. right. apply list_elem_of_singleton. lia.
      * intros s Hs. csimpl. rewrite elem_of_cons. destruct (Hr s Hs) as [Hin|Hin]; [|tauto].
        rewrite elem_of_app, list_elem_of_singleton in Hin. tauto.
    + destruct (IH _ _ Hf) as (Hl & Hc & Ho & Hr). split; [done|]. split; [done|]. split; [done|].
      intros s Hs. csimpl. rewrite elem_of_cons. destruct (Hr s Hs); tauto.
  - destruct (IH _ _ Hf) as (Hl & Hc & Ho & Hr). split; [done|]. split; [done|]. split; [done|].
    intros s Hs. csimpl. rewrite elem_of_cons. destruct (Hr s Hs); tauto.
Qed.

(** Every valid slot of the batch ends up with its sequence. *)
Lemma update_owners_assigned pairs owners changed owners' changed' slot id :
  foldM_r (update_owner max_seqs) (owners, changed) pairs = Ok (owners', changed') ->
  NoDup (fst <$> pairs) -> (slot, id) ∈ pairs -> 0 <= slot < max_seqs -> owners' !! Z.to_nat slot = Some id.
Proof.
  revert owners changed. induction pairs as [|[s i] pairs IH]; intros owners changed Hf Hnd Hin Hv; [by apply elem_of_nil in Hin|].
  csimpl in Hnd. apply NoDup_cons in Hnd as [Hnin Hnd]. apply elem_of_cons in Hin as [[= <- <-]|Hin]; cycle 1.
  { simpl in Hf. destruct (decide (0 <= s < max_seqs)); [|by eapply IH].
    destruct (py_getitem owners s); [|done]. simpl in Hf. destruct (decide (_ <> i)); by eapply IH. }
  simpl in Hf. rewrite decide_True in Hf by done. destruct (py_getitem owners slot) as [old|] eqn:Eo; [|done]. simpl in Hf.
  rewrite <- (Z2Nat.id slot), py_getitem_nat in Eo by lia. apply of_option_Ok in Eo.
  assert (slot ∉ fst <$> pairs) as Hni by done.
  enough (forall o ch, o !! Z.to_nat slot = Some id -> foldM_r (update_owner max_seqs) (o, ch) pairs = Ok (owners', changed') ->
    owners' !! Z.to_nat slot = Some id) as Hk.
  { destruct (decide (old <> id)) as [Hne|Heq]; [|apply (Hk owners changed); [destruct (decide (old = id)); [congruence|done]|done]].
    apply (Hk _ _ (list_lookup_insert_eq _ _ _ (lookup_lt_Some _ _ _ Eo)) Hf). }
  clear -Hni Hv. induction pairs as [|[s i] pairs IH]; intros o ch Ho Hf; [by injection Hf as <- _|].
  csimpl in Hni. rewrite elem_of_cons in Hni. simpl in Hf. destruct (decide (0 <= s < max_seqs)); [|eapply IH; [tauto|done|done]].
  destruct (py_getitem o s) as [z|]; [|done]. simpl in Hf. destruct (decide (z <> i)).
  - apply (IH ltac:(tauto) (<[Z.to_nat s := i]> o) (ch ++ [s])); [|done].
    rewrite list_lookup_insert_ne; [done|]. intros Heq. apply Hni. left. lia.
  - apply (IH ltac:(tauto) o ch); done.
Qed.
End owners.

(** * Residency *)

(** The context, and for every layer and hot slot the sequence whose token it holds. *)
Record World := mk_world {
  w_ctx : HiSparseContext;
  w_hot : gmap (nat * Z) Z
}.

Definition owner (x : HiSparseContext) (slot : nat) : option Z := default [] (slot_owner_ids x) !! slot.

(** The hot slots a program writes, for sequence [id]: the one it copies to, and the one of the new token, which the
    cache store fills later on the same stream. *)
Definition note_writes (layer : nat) (id : Z) (ld : Loaded) (hot : gmap (nat * Z) Z) : gmap (nat * Z) Z :=
  let hot := if ld_copied ld then <[(layer, ld_selected ld) := id]> hot else hot in
  match ld_output ld with Some q => <[(layer, q) := id]> hot | None => hot end.

(** A program of the kernel for a row whose slot belongs to [id], on a batch that passed the checks. *)
Record launched (x : HiSparseContext) (a : LoadArgs) (id : Z) : Prop := {
  lc_checks : exists rows, stage_checks rows (la_topk a) rows (la_width a) x = Ok tt;
  lc_width : 1 <= la_width a;
  lc_row : 0 <= la_row a;
  lc_i : 0 <= la_i a < la_topk a;
  lc_layer : (la_layer a < 128)%nat;
  lc_logical : la_logical a < 2 ^ 31;
  lc_owner : 0 <= la_slot a < hs_max_num_seqs x -> owner x (Z.to_nat (la_slot a)) = Some id
}.

(** The owners are updated with a batch; a program of the kernel runs for a row of a sequence that owns its slot; a new
    token of the owner is stored in its slot; slots are reset. *)
Inductive hs_step : World -> World -> Prop :=
  | step_update w slots seq_ids x :
      length slots = length seq_ids -> update_mla_hisparse_slot_owners slots seq_ids (w_ctx w) = Ok x ->
      hs_step w (mk_world x (w_hot w))
  | step_load w real a id x ld :
      launched (w_ctx w) a id -> load_mla_slot real a (w_ctx w) = (x, ld) ->
      hs_step w (mk_world x (note_writes (la_layer a) id ld (w_hot w)))
  | step_store w layer slot id pos :
      0 <= slot < hs_max_num_seqs (w_ctx w) -> owner (w_ctx w) (Z.to_nat slot) = Some id -> 0 <= pos < tokens_per_seq (w_ctx w) ->
      hs_step w (mk_world (w_ctx w) (<[(layer, slot * tokens_per_seq (w_ctx w) + pos) := id]> (w_hot w)))
  | step_reset w slots :
      hs_step w (mk_world (reset_mla_hisparse_slots slots (w_ctx w)) (w_hot w)).

(** The layer an epoch was made for. *)
Definition epoch_layer (epoch : Z) : nat := Z.to_nat (Z.land (Z.shiftr epoch 3) 127).

(** What is marked resident in a slot, and what its union table points to, is of the owner of the slot. *)
Record owned (w : World) : Prop := {
  ow_owners : is_Some (slot_owner_ids (w_ctx w));
  ow_geometry : 0 <= device_buffer_size (w_ctx w) <= tokens_per_seq (w_ctx w) /\ hs_max_num_seqs (w_ctx w) * tokens_per_seq (w_ctx w) < 2 ^ 31;
  ow_rows : forall slot, length (entries_row (w_ctx w) slot) = length (values_row (w_ctx w) slot);
  ow_resident : forall layer slot p b, resident_row (w_ctx w) layer slot !! p = Some b -> b <> 0 ->
    Z.of_nat slot < hs_max_num_seqs (w_ctx w) /\ Z.of_nat p < device_buffer_size (w_ctx w) /\
    exists id, owner (w_ctx w) slot = Some id /\ w_hot w !! (layer, Z.of_nat slot * tokens_per_seq (w_ctx w) + Z.of_nat p) = Some id;
  ow_union : forall slot k cell, entries_row (w_ctx w) slot !! k = Some cell -> cell_epoch cell <> 0 ->
    Z.of_nat slot < hs_max_num_seqs (w_ctx w) /\
    exists id v, owner (w_ctx w) slot = Some id /\ values_row (w_ctx w) slot !! k = Some v /\ 0 <= v < device_buffer_size (w_ctx w) /\
      w_hot w !! (epoch_layer (cell_epoch cell), Z.of_nat slot * tokens_per_seq (w_ctx w) + v) = Some id
}.

(** ** Cells *)

Lemma testbit_127 n : 0 <= n -> Z.testbit 127 n = (n <? 7).
Proof. intros Hn. change 127 with (Z.ones 7). by rewrite Z.testbit_ones_nonneg by lia. Qed.

Lemma testbit_7 n : 0 <= n -> Z.testbit 7 n = (n <? 3).
Proof. intros Hn. change 7 with (Z.ones 3). by rewrite Z.testbit_ones_nonneg by lia. Qed.

Lemma epoch_of_range len layer phase : 0 < epoch_of len layer phase < 2 ^ 31.
Proof.
  unfold epoch_of. cbv zeta. set (raw := Z.lor _ _). rewrite Z.land_ones by lia. pose proof (Z.mod_pos_bound raw (2 ^ 31) ltac:(lia)). case_decide; lia.
Qed.

Lemma epoch_of_layer len layer phase : (layer < 128)%nat -> epoch_layer (epoch_of len (Z.of_nat layer) phase) = layer.
Proof.
  intros Hl. unfold epoch_of. cbv zeta. set (raw := Z.lor _ _). set (e := Z.land raw (Z.ones 31)).
  assert (Z.land (Z.shiftr e 3) 127 = Z.of_nat layer) as He.
  { apply Z.bits_inj'. intros n Hn. rewrite Z.land_spec, testbit_127, Z.shiftr_spec by lia. unfold e, raw.
    rewrite Z.land_spec, !Z.lor_spec, Z.land_spec, testbit_7, Z.testbit_ones_nonneg by lia. rewrite Z.shiftl_spec, Z.land_spec by lia. replace (n + 3 - 3) with n by lia. rewrite testbit_127 by lia.
    destruct (Z.ltb_spec n 7) as [H7|H7].
    - rewrite !andb_true_r. rewrite Z.mod_pow2_bits_low, Z.shiftl_spec_low by lia.
      rewrite (proj2 (Z.ltb_ge (n + 3) 3)), (proj2 (Z.ltb_lt (n + 3) 31)) by lia. cbn. by rewrite andb_false_r, orb_false_r, andb_true_r.
    - rewrite !andb_false_r. symmetry. apply Z.bits_above_log2; [lia|]. destruct (decide (layer = 0%nat)) as [->|]; [change (Z.log2 (Z.of_nat 0)) with 0; lia|].
      apply Z.log2_lt_pow2; [lia|]. assert (2 ^ 7 <= 2 ^ n) by (apply Z.pow_le_mono_r; lia). lia. }
  unfold epoch_layer. case_decide as H0; [|by rewrite He, Nat2Z.id]. rewrite H0 in He. change (Z.land (Z.shiftr 0 3) 127) with 0 in He. change (Z.land (Z.shiftr 1 3) 127) with 0. lia.
Qed.

Lemma ready_cell_epoch epoch logical : 0 < epoch < 2 ^ 31 -> cell_epoch (ready_cell epoch logical) = epoch.
Proof.
  intros He. unfold cell_epoch, ready_cell. apply Z.bits_inj'. intros n Hn. rewrite Z.land_spec, Z.testbit_ones_nonneg, Z.shiftr_spec, !Z.lor_spec by lia.
  destruct (Z.ltb_spec n 31) as [H|H].
  - rewrite andb_true_r, Z.shiftl_spec_low, Z.shiftl_spec by lia. replace (n + 1 - 1) with n by lia. cbn [orb].
    assert (Z.testbit 1 (n + 1) = false) as -> by (apply Z.bits_above_log2; cbn; lia). by rewrite orb_false_r.
  - rewrite andb_false_r. symmetry. apply Z.bits_above_log2; [lia|]. apply Z.log2_lt_pow2; [lia|]. assert (2 ^ 31 <= 2 ^ n) by (apply Z.pow_le_mono_r; lia). lia.
Qed.

(** ** Slots *)

Lemma update_fields slots ids x x' :
  update_mla_hisparse_slot_owners slots ids x = Ok x' ->
  hs_max_num_seqs x' = hs_max_num_seqs x /\ tokens_per_seq x' = tokens_per_seq x /\ device_buffer_size x' = device_buffer_size x.
Proof.
  unfold update_mla_hisparse_slot_owners. destruct (slot_owner_ids x) as [owners|]; [|by intros [= <-]]. intros ([o ch] & _ & [= <-])%result_bind_Ok.
  unfold reset_mla_hisparse_slots. cbn. by destruct (resident_tokens x).
Qed.

Lemma zero_rows_lookup valid t s :
  zero_rows valid t !! s = (fun row => if decide (Z.of_nat s ∈ valid) then (fun _ => 0) <$> row else row) <$> t !! s.
Proof. unfold zero_rows. rewrite list_lookup_imap. by destruct (t !! s). Qed.

Lemma zeroed valid t s k b :
  default [] (zero_rows valid t !! s) !! k = Some b -> b <> 0 -> Z.of_nat s ∉ valid /\ default [] (t !! s) !! k = Some b.
Proof.
  rewrite zero_rows_lookup. destruct (t !! s) as [row|]; [|done]. cbn [fmap option_fmap option_map default from_option id]. case_decide as Hv; [|done].
  rewrite list_lookup_fmap. destruct (row !! k); [|done]. by intros [= <-].
Qed.

(** Resetting slots leaves marks and cells of other slots only. *)
Lemma reset_resident slots x layer s p b :
  resident_row (reset_mla_hisparse_slots slots x) layer s !! p = Some b -> b <> 0 ->
  resident_row x layer s !! p = Some b /\ (Z.of_nat s ∈ slots -> hs_max_num_seqs x <= Z.of_nat s).
Proof.
  unfold resident_row, reset_mla_hisparse_slots. destruct (resident_tokens x) as [res|] eqn:E; [|rewrite E; done]. cbn [resident_tokens union_hash_entries union_hash_values fmap option_fmap option_map default from_option id]. rewrite list_lookup_fmap.
  destruct (res !! layer) as [t|]; [|done]. cbn [resident_tokens union_hash_entries union_hash_values fmap option_fmap option_map default from_option id]. intros Hl Hb. apply zeroed in Hl as [Hv Hl]; [|done]. split; [done|]. intros Hs.
  destruct (decide (Z.of_nat s < hs_max_num_seqs x)); [|lia]. destruct Hv. apply list_elem_of_filter. split; [lia|done].
Qed.

Lemma reset_entries slots x s k cell :
  is_Some (resident_tokens x) -> entries_row (reset_mla_hisparse_slots slots x) s !! k = Some cell -> cell_epoch cell <> 0 ->
  entries_row x s !! k = Some cell /\ (Z.of_nat s ∈ slots -> hs_max_num_seqs x <= Z.of_nat s).
Proof.
  intros [res E]. unfold entries_row, reset_mla_hisparse_slots. rewrite E. cbn [resident_tokens union_hash_entries union_hash_values fmap option_fmap option_map default from_option id]. destruct (union_hash_entries x) as [t|]; [|done]. cbn [resident_tokens union_hash_entries union_hash_values fmap option_fmap option_map default from_option id]. intros Hl Hb.
  apply zeroed in Hl as [Hv Hl]; [|by intros ->]. split; [done|]. intros Hs.
  destruct (decide (Z.of_nat s < hs_max_num_seqs x)); [|lia]. destruct Hv. apply list_elem_of_filter. split; [lia|done].
Qed.

Lemma reset_lengths slots x s :
  length (entries_row (reset_mla_hisparse_slots slots x) s) = length (entries_row x s) /\ values_row (reset_mla_hisparse_slots slots x) s = values_row x s.
Proof.
  unfold entries_row, values_row, reset_mla_hisparse_slots. destruct (resident_tokens x); [|done]. cbn [resident_tokens union_hash_entries union_hash_values fmap option_fmap option_map default from_option id]. split; [|done].
  destruct (union_hash_entries x) as [t|]; [|done]. cbn [resident_tokens union_hash_entries union_hash_values fmap option_fmap option_map default from_option id]. rewrite zero_rows_lookup. destruct (t !! s) as [row|]; [|done]. cbn [resident_tokens union_hash_entries union_hash_values fmap option_fmap option_map default from_option id]. case_decide; [by rewrite length_fmap|done].
Qed.

(** Without residency bytes the union table is not reset: both are allocated together. *)
Definition paired (x : HiSparseContext) : Prop := is_Some (resident_tokens x).

Lemma owned_after_reset slots x hot : paired x -> owned (mk_world x hot) -> owned (mk_world (reset_mla_hisparse_slots slots x) hot).
Proof.
  intros Hp [Ho Hg Hl Hr Hu]. cbn [w_ctx w_hot] in *.
  assert (slot_owner_ids (reset_mla_hisparse_slots slots x) = slot_owner_ids x /\ hs_max_num_seqs (reset_mla_hisparse_slots slots x) = hs_max_num_seqs x /\
    tokens_per_seq (reset_mla_hisparse_slots slots x) = tokens_per_seq x /\ device_buffer_size (reset_mla_hisparse_slots slots x) = device_buffer_size x) as (E1 & E2 & E3 & E4)
    by (unfold reset_mla_hisparse_slots; by destruct (resident_tokens x)).
  assert (forall s, owner (reset_mla_hisparse_slots slots x) s = owner x s) as E5 by (intros s; unfold owner; by rewrite E1).
  split; cbn [w_ctx w_hot]; rewrite ?E1, ?E2, ?E3, ?E4; [done|done| | |].
  - intros s. destruct (reset_lengths slots x s) as [-> ->]. apply Hl.
  - intros layer s p b Hb Hne. rewrite E5. apply reset_resident in Hb as [Hb _]; [|done]. by apply (Hr layer s p b).
  - intros s k cell Hc Hne. rewrite E5. destruct (reset_lengths slots x s) as [_ ->]. apply reset_entries in Hc as [Hc _]; [|done|done]. by apply (Hu s k cell).
Qed.

(** After the owners are updated, what a slot holds is of its owner. *)
Lemma owned_after_update w slots seq_ids x :
  paired (w_ctx w) -> owned w -> length slots = length seq_ids ->
  update_mla_hisparse_slot_owners slots seq_ids (w_ctx w) = Ok x -> owned (mk_world x (w_hot w)).
Proof.
  intros Hp [[owners Ho] Hg Hl Hr Hun] Hlen Hu. unfold update_mla_hisparse_slot_owners in Hu. rewrite Ho in Hu.
  apply result_bind_Ok in Hu as ([owners' changed] & Hf & Hx). simpl in Hx. injection Hx as <-.
  destruct (update_owners_spec _ _ _ _ _ _ Hf) as (Hlo & _ & Hsame & Hch). set (y := set_owners owners' (w_ctx w)).
  assert (slot_owner_ids (reset_mla_hisparse_slots changed y) = Some owners' /\ hs_max_num_seqs (reset_mla_hisparse_slots changed y) = hs_max_num_seqs (w_ctx w) /\
    tokens_per_seq (reset_mla_hisparse_slots changed y) = tokens_per_seq (w_ctx w) /\ device_buffer_size (reset_mla_hisparse_slots changed y) = device_buffer_size (w_ctx w)) as (E1 & E2 & E3 & E4)
    by (unfold reset_mla_hisparse_slots; by destruct (resident_tokens y)).
  assert (forall s id, (Z.of_nat s ∈ changed -> hs_max_num_seqs (w_ctx w) <= Z.of_nat s) -> Z.of_nat s < hs_max_num_seqs (w_ctx w) -> owner (w_ctx w) s = Some id ->
    owner (reset_mla_hisparse_slots changed y) s = Some id) as E5.
  { intros s id Hn Hlt Hs. unfold owner in *. rewrite E1. rewrite Ho in Hs. cbn in Hs |- *. pose proof (Hsame (Z.of_nat s) ltac:(lia)) as Hsm. rewrite Nat2Z.id in Hsm. rewrite Hsm; [done|].
    intros Hin. specialize (Hn Hin). lia. }
  split; cbn [w_ctx w_hot]; rewrite ?E1, ?E2, ?E3, ?E4; [by eexists|done| | |].
  - intros s. destruct (reset_lengths changed y s) as [-> ->]. apply Hl.
  - intros layer s p b Hb Hne. apply reset_resident in Hb as [Hb Hn]; [|done]. destruct (Hr layer s p b Hb Hne) as (H1 & H2 & id & H3 & H4).
    split_and!; [done..|]. exists id. split; [by apply E5|done].
  - intros s k cell Hc Hne. destruct (reset_lengths changed y s) as [_ ->]. apply reset_entries in Hc as [Hc Hn]; [|exact Hp|done].
    destruct (Hun s k cell Hc Hne) as (H1 & id & v & H3 & H4). split; [done|]. exists id, v. split; [by apply E5|done].
Qed.

(** ** Programs *)

(** A hot slot written for the owner of its slot. *)
Lemma owned_write x hot layer slot id v :
  owned (mk_world x hot) -> owner x slot = Some id -> 0 <= v < tokens_per_seq x -> Z.of_nat slot < hs_max_num_seqs x ->
  owned (mk_world x (<[(layer, Z.of_nat slot * tokens_per_seq x + v) := id]> hot)).
Proof.
  intros [Ho Hg Hl Hr Hu] Hown Hv Hs. cbn [w_ctx w_hot] in *.
  assert (forall l s p i, 0 <= p < tokens_per_seq x -> owner x s = Some i -> hot !! (l, Z.of_nat s * tokens_per_seq x + p) = Some i ->
    <[(layer, Z.of_nat slot * tokens_per_seq x + v) := id]> hot !! (l, Z.of_nat s * tokens_per_seq x + p) = Some i) as Hkeep.
  { intros l s p i Hp Hi Hh. destruct (decide ((layer, Z.of_nat slot * tokens_per_seq x + v) = (l, Z.of_nat s * tokens_per_seq x + p))) as [He|He]; [|by rewrite lookup_insert_ne].
    injection He as -> He. rewrite He, lookup_insert_eq. apply radix_inj in He as [He _]; [|lia..]. assert (slot = s) as -> by lia. congruence. }
  split; cbn [w_ctx w_hot]; [done..| |].
  - intros l s p b Hb Hne. destruct (Hr l s p b Hb Hne) as (H1 & H2 & i & H3 & H4). split_and!; [done..|]. exists i. split; [done|]. apply Hkeep; [lia|done|done].
  - intros s k cell Hc Hne. destruct (Hu s k cell Hc Hne) as (H1 & i & u & H3 & H4 & H5 & H6). split; [done|]. exists i, u. split_and!; [done|done|lia|lia|]. apply Hkeep; [lia|done|done].
Qed.

Lemma mark_row layer slot pos x l s :
  resident_row (mark_resident layer slot pos x) l s = (if decide (l = layer /\ s = Z.to_nat slot) then <[Z.to_nat pos := 1]> (resident_row x l s) else resident_row x l s).
Proof.
  unfold resident_row, mark_resident. cbn. destruct (resident_tokens x) as [res|]; cbn; [|by case_decide]. destruct (decide (l = layer)) as [->|Hl].
  - rewrite list_lookup_alter_eq. destruct (res !! layer) as [t|]; cbn; [|by case_decide]. destruct (decide (s = Z.to_nat slot)) as [->|Hs].
    + rewrite list_lookup_alter_eq, decide_True by done. by destruct (t !! Z.to_nat slot).
    + rewrite list_lookup_alter_ne, decide_False by naive_solver. done.
  - rewrite list_lookup_alter_ne, decide_False by naive_solver. done.
Qed.

Lemma owned_mark x hot layer slot pos id :
  owned (mk_world x hot) -> owner x (Z.to_nat slot) = Some id -> 0 <= slot < hs_max_num_seqs x -> 0 <= pos < device_buffer_size x ->
  hot !! (layer, slot * tokens_per_seq x + pos) = Some id -> owned (mk_world (mark_resident layer slot pos x) hot).
Proof.
  intros [Ho Hg Hl Hr Hu] Hown Hs Hp Hh. cbn [w_ctx w_hot] in *. split; cbn [w_ctx w_hot]; try done. intros l s p b Hb Hne. rewrite mark_row in Hb.
  case_decide as Hd; [|by apply (Hr l s p b)]. destruct Hd as [-> ->]. destruct (decide (p = Z.to_nat pos)) as [->|Hpn].
  - cbn. rewrite !Z2Nat.id by lia. split_and!; [lia|lia|]. by exists id.
  - rewrite list_lookup_insert_ne in Hb by done. by apply (Hr layer (Z.to_nat slot) p b).
Qed.

Lemma alter_row (slot : nat) (f : list Z -> list Z) (t : list (list Z)) s :
  f [] = [] -> default [] (alter f slot t !! s) = (if decide (s = slot) then f (default [] (t !! s)) else default [] (t !! s)).
Proof.
  intros Hf. case_decide as Hs; [subst s|]; [rewrite list_lookup_alter_eq|by rewrite list_lookup_alter_ne]. destruct (t !! slot); [done|]. cbn. by rewrite Hf.
Qed.

Lemma claim_rows slot bucket cell entry x s :
  entries_row (claim_cell slot bucket cell entry x) s = (if decide (s = Z.to_nat slot) then <[Z.to_nat bucket := cell]> (entries_row x s) else entries_row x s) /\
  values_row (claim_cell slot bucket cell entry x) s = (if decide (s = Z.to_nat slot) then <[Z.to_nat bucket := entry]> (values_row x s) else values_row x s).
Proof.
  unfold entries_row, values_row, claim_cell. cbn. split.
  - destruct (union_hash_entries x); cbn; [by rewrite alter_row|by case_decide].
  - destruct (union_hash_values x); cbn; [by rewrite alter_row|by case_decide].
Qed.

Lemma owned_claim x hot layer slot bucket epoch logical entry id :
  owned (mk_world x hot) -> owner x (Z.to_nat slot) = Some id -> 0 <= slot < hs_max_num_seqs x -> 0 <= entry < device_buffer_size x ->
  0 < epoch < 2 ^ 31 -> epoch_layer epoch = layer -> hot !! (layer, slot * tokens_per_seq x + entry) = Some id ->
  owned (mk_world (claim_cell slot bucket (ready_cell epoch logical) entry x) hot).
Proof.
  intros [Ho Hg Hl Hr Hu] Hown Hs Hp He Hlay Hh. cbn [w_ctx w_hot] in *. split; cbn [w_ctx w_hot]; try done.
  - intros s. destruct (claim_rows slot bucket (ready_cell epoch logical) entry x s) as [-> ->]. case_decide; rewrite ?length_insert; apply Hl.
  - intros s k cell Hc Hne. destruct (claim_rows slot bucket (ready_cell epoch logical) entry x s) as [E1 ->]. rewrite E1 in Hc. case_decide as Hd; [|by apply (Hu s k cell)]. subst s.
    destruct (decide (k = Z.to_nat bucket)) as [->|Hk].
    + pose proof (lookup_lt_Some _ _ _ Hc) as Hlt. rewrite length_insert in Hlt. rewrite list_lookup_insert_eq in Hc by done. injection Hc as <-. cbn. rewrite Z2Nat.id by lia.
      split; [lia|]. exists id, entry. rewrite ready_cell_epoch, Hlay by done. split_and!; [done| |lia|lia|done]. apply list_lookup_insert_eq. by rewrite <- Hl.
    + rewrite list_lookup_insert_ne in Hc by done. rewrite list_lookup_insert_ne by done. by apply (Hu (Z.to_nat slot) k cell).
Qed.

Lemma probe_found fuel table capacity epoch logical bucket b :
  probe fuel table capacity epoch logical bucket = Found b -> epoch <> 0 -> exists cell, table !! Z.to_nat b = Some cell /\ cell_epoch cell = epoch.
Proof.
  intros Hp He. revert bucket Hp. induction fuel as [|fuel IH]; intros bucket Hp; [done|]. cbn [probe] in Hp. cbv zeta in Hp. case_decide as H1; [done|]. case_decide as H2; [|by apply (IH _ Hp)].
  injection Hp as <-. destruct (table !! Z.to_nat bucket) as [cell|]; [|by destruct H1]. exists cell. split; [done|]. cbn in H1. by destruct (decide (cell_epoch cell = epoch)).
Qed.

(** What a batch that passed the checks gives: the step of a row and the room for its entries. *)
Lemma launched_bounds x a id :
  launched x a id ->
  let ts := la_row a - Z.quot (la_row a) (la_width a) * la_width a in
  0 <= ts < la_width a /\ 0 <= ts * la_topk a + la_i a < device_buffer_size x /\ la_width a <= tokens_per_seq x - device_buffer_size x.
Proof.
  intros [(rows & Hc) Hw Hr Hi _ _ _] ts. assert (0 <= ts < la_width a) as Hts.
  { unfold ts. rewrite Z.quot_div_nonneg by lia. pose proof (Z.div_mod (la_row a) (la_width a) ltac:(lia)). pose proof (Z.mod_pos_bound (la_row a) (la_width a) ltac:(lia)). lia. }
  unfold stage_checks in Hc. destruct (hot_kv_cache x), (cold_kv_cache x); try done. repeat (case_decide; [done|]). split; [done|]. split; [nia|lia].
Qed.

Lemma hot_slot_small x slot v : 0 <= slot < hs_max_num_seqs x -> 0 <= v < tokens_per_seq x -> hs_max_num_seqs x * tokens_per_seq x < 2 ^ 31 ->
  wrap32 (slot * tokens_per_seq x + v) = slot * tokens_per_seq x + v.
Proof. intros Hs Hv Hm. apply wrap32_small. nia. Qed.

(** The selection: ownership is kept, and a token that is not one of the new ones is the sequence's own. *)
Lemma select_owned x hot a id x1 sel copied :
  owned (mk_world x hot) -> launched x a id -> 0 <= la_slot a < hs_max_num_seqs x -> select_token a x = (x1, sel, copied) ->
  let hot1 := if copied then <[(la_layer a, sel) := id]> hot else hot in
  owned (mk_world x1 hot1) /\
  (hs_max_num_seqs x1 = hs_max_num_seqs x /\ tokens_per_seq x1 = tokens_per_seq x /\ device_buffer_size x1 = device_buffer_size x /\ slot_owner_ids x1 = slot_owner_ids x /\
   (is_Some (resident_tokens x1) <-> is_Some (resident_tokens x))) /\
  (sel <> -1 -> exists v, sel = la_slot a * tokens_per_seq x + v /\ 0 <= v < tokens_per_seq x /\
     (~ la_len a - la_width a <= la_logical a < la_len a -> hot1 !! (la_layer a, sel) = Some id)) /\
  (copied = true -> 0 < la_len a <= device_buffer_size x -> sel = la_slot a * tokens_per_seq x + la_logical a /\ 0 <= la_logical a < device_buffer_size x).
Proof.
  intros Hw Hla Hs Hsel. pose proof (launched_bounds x a id Hla) as (Hts & Hen & Hwid). pose proof (lc_owner _ _ _ Hla Hs) as Hown.
  pose proof Hw as [Ho [Hg H31] Hl Hr Hu]. cbn [w_ctx w_hot] in *. unfold select_token in Hsel. cbv zeta in Hsel. set (ts := la_row a - _) in *. set (base := la_slot a * tokens_per_seq x) in *.
  assert (forall v, 0 <= v < tokens_per_seq x -> wrap32 (base + v) = base + v) as Hsm by (intros v Hv; by apply hot_slot_small).
  assert (forall v, base + v = Z.of_nat (Z.to_nat (la_slot a)) * tokens_per_seq x + v) as Hb by (intros v; unfold base; by rewrite Z2Nat.id by lia).
  assert (forall y h, (y, -1, false) = (x1, sel, copied) -> y = x -> h = hot -> owned (mk_world x1 (if copied then <[(la_layer a, sel) := id]> h else h)) /\ x1 = x /\ sel = -1 /\ copied = false) as Hnone
    by (intros y h [= <- <- <-] -> ->; done).
  destruct (negb _) eqn:Ev; [destruct (Hnone x hot Hsel eq_refl eq_refl) as (? & -> & -> & ->); split_and!; [done..|by intros|by intros]|]. clear Hnone.
  rewrite negb_false_iff, !andb_true_iff, !bool_decide_eq_true in Ev. destruct Ev as [[_ Hlg] Hvs].
  destruct (bool_decide (la_len a > 0) && bool_decide (la_len a <= device_buffer_size x)) eqn:Esh.
  { (* the whole sequence is hot *)
    rewrite andb_true_iff, !bool_decide_eq_true in Esh. cbn [negb orb] in Hvs. apply bool_decide_eq_true in Hvs. injection Hsel as <- <- <-. rewrite Hsm by lia.
    assert (forall c, owned (mk_world x (if c : bool then <[(la_layer a, base + la_logical a) := id]> hot else hot))) as How
      by (intros [|]; [rewrite Hb; apply owned_write; [done|done|lia|lia]|done]).
    split_and!; [apply How|done..| |intros; split; [done|lia]]. intros _. exists (la_logical a). split_and!; [done|lia|lia|]. intros Hout.
    assert (bool_decide (la_logical a >= la_len a - la_width a) = false) as -> by (apply bool_decide_eq_false; lia). cbn [andb negb].
    case_bool_decide as Hres; [apply lookup_insert_eq|]. destruct (resident_row x (la_layer a) (Z.to_nat (la_slot a)) !! Z.to_nat (la_logical a)) as [b|] eqn:Eb; [|done].
    destruct (Hr _ _ _ _ Eb Hres) as (_ & _ & i & Hi & Hh). rewrite Hown in Hi. injection Hi as <-. rewrite Hb. by rewrite (Z2Nat.id (la_logical a)) in Hh by lia. }
  destruct (bool_decide (la_logical a >= la_len a - la_width a) && bool_decide (la_logical a < la_len a)) eqn:Eo.
  { rewrite andb_true_iff, !bool_decide_eq_true in Eo. injection Hsel as <- <- <-. split_and!; [done..| |done]. intros _. exists (device_buffer_size x + (la_logical a - (la_len a - la_width a))).
    replace (base + device_buffer_size x + la_logical a - (la_len a - la_width a)) with (base + (device_buffer_size x + (la_logical a - (la_len a - la_width a)))) by lia.
    split_and!; [apply Hsm; lia|lia|lia|lia]. }
  assert (~ 0 < la_len a <= device_buffer_size x) as Hlong by (rewrite andb_false_iff, !bool_decide_eq_false in Esh; lia).
  set (epoch := epoch_of _ _ _) in *. pose proof (epoch_of_range (la_len a) (Z.of_nat (la_layer a)) (la_phase a)) as Hep. fold epoch in Hep.
  pose proof (epoch_of_layer (la_len a) (la_layer a) (la_phase a) (lc_layer _ _ _ Hla)) as Hel. fold epoch in Hel.
  assert (wrap32 (ts * la_topk a + la_i a) = ts * la_topk a + la_i a) as Hwe by (apply wrap32_small; nia). rewrite Hwe in Hsel. set (entry := ts * la_topk a + la_i a) in *.
  destruct (probe _ _ _ _ _ _) as [bk|bk|] eqn:Ep.
  - injection Hsel as <- <- <-. rewrite Hsm by lia. split_and!; [|done..| |lia].
    + apply (owned_claim x _ (la_layer a) (la_slot a) bk epoch (la_logical a) entry id); [|done|done|lia|done|done|apply lookup_insert_eq].
      rewrite Hb. apply owned_write; [done|done|lia|lia].
    + intros _. exists entry. split_and!; [done|lia|lia|]. intros _. apply lookup_insert_eq.
  - injection Hsel as <- <- <-. split_and!; [done..| |done]. destruct (probe_found _ _ _ _ _ _ _ Ep ltac:(lia)) as (cell & Hc & Hce).
    destruct (Hu _ _ _ Hc ltac:(lia)) as (_ & i & v & Hi & Hv & Hvr & Hh). rewrite Hv. cbn [default from_option Datatypes.id]. rewrite Hown in Hi. injection Hi as <-.
    rewrite decide_True by lia. rewrite Hsm by lia. intros _. exists v. split_and!; [done|lia|lia|]. intros _. rewrite Hb. by rewrite Hce, Hel in Hh.
  - injection Hsel as <- <- <-. split_and!; [done..|by intros|done].
Qed.

Lemma owner_keep x y s : slot_owner_ids y = slot_owner_ids x -> owner y s = owner x s.
Proof. unfold owner. by intros ->. Qed.

(** One program: ownership is kept, and the token it selects, unless it is one of the new ones, is the sequence's own. *)
Lemma load_owned real x hot a id x' ld :
  owned (mk_world x hot) -> launched x a id -> load_mla_slot real a x = (x', ld) ->
  let hot' := note_writes (la_layer a) id ld hot in
  owned (mk_world x' hot') /\ (paired x' <-> paired x) /\
  (ld_selected ld <> -1 ->
     la_slot a * tokens_per_seq x <= ld_selected ld < (la_slot a + 1) * tokens_per_seq x /\
     (~ la_len a - la_width a <= la_logical a < la_len a -> hot' !! (la_layer a, ld_selected ld) = Some id)).
Proof.
  intros Hw Hla Hld. unfold load_mla_slot in Hld. case_decide as Hg; [by injection Hld as <- <-|]. assert (0 <= la_slot a < hs_max_num_seqs x) as Hs by lia. clear Hg. cbv zeta in Hld.
  destruct (select_token a x) as [[x1 sel] copied] eqn:Esel. destruct (select_owned x hot a id x1 sel copied Hw Hla Hs Esel) as (Hw1 & (F1 & F2 & F3 & F4 & F5) & Hin & Hcp). cbv zeta in *.
  set (hot1 := if copied then _ else hot) in *. pose proof (launched_bounds x a id Hla) as (Hts & _ & Hwid). pose proof (lc_owner _ _ _ Hla Hs) as Hown.
  pose proof (ow_geometry _ Hw) as [Hgeo H31]. cbn [w_ctx] in Hgeo, H31. set (ts := la_row a - _) in *. set (pos := la_len a - la_width a + ts) in *. rewrite F2, F3 in Hld.
  set (short := bool_decide (la_len a > 0) && _) in *. set (v := if short then pos else device_buffer_size x + ts) in *.
  assert (short = true <-> 0 < la_len a <= device_buffer_size x) as Hsh by (unfold short; rewrite andb_true_iff, !bool_decide_eq_true; lia).
  assert (0 <= pos -> 0 <= v < tokens_per_seq x) as Hv by (unfold v; destruct short; [assert (0 < la_len a <= device_buffer_size x) by by apply Hsh|]; lia).
  set (output := if decide (la_i a = 0 /\ 0 <= pos) then _ else _) in Hld.
  set (hot2 := match output with Some q => <[(la_layer a, q) := id]> hot1 | None => hot1 end).
  assert (Hq : la_i a = 0 -> 0 <= pos -> output = Some (la_slot a * tokens_per_seq x + v)).
  { intros Hi Hp. unfold output. rewrite decide_True by done. f_equal. apply hot_slot_small; [done|by apply Hv|done]. }
  assert (Hsl : forall z, la_slot a * tokens_per_seq x + z = Z.of_nat (Z.to_nat (la_slot a)) * tokens_per_seq x1 + z) by (intros z; by rewrite F2, Z2Nat.id by lia).
  assert (owner x1 (Z.to_nat (la_slot a)) = Some id) as Hown1 by (by rewrite (owner_keep x)).
  assert (owned (mk_world x1 hot2)) as Hw2.
  { unfold hot2, output in *. case_decide as Hd; [|done]. destruct Hd as [Hi Hp]. injection (Hq Hi Hp) as ->. rewrite Hsl. apply owned_write; [done|done|rewrite F2; by apply Hv|rewrite Z2Nat.id, F1; lia]. }
  assert (Hk : forall k, hot1 !! k = Some id -> hot2 !! k = Some id).
  { intros k Hh. unfold hot2. destruct output as [q|]; [|done]. destruct (decide ((la_layer a, q) = k)) as [<-|]; [apply lookup_insert_eq|by rewrite lookup_insert_ne]. }
  injection Hld as <- <-. cbn [ld_selected]. assert (note_writes (la_layer a) id (mk_loaded sel copied output) hot = hot2) as -> by done.
  split_and!.
  - assert (owned (mk_world (if decide (la_i a = 0 /\ short = true /\ 0 <= pos < device_buffer_size x1) then mark_resident (la_layer a) (la_slot a) pos x1 else x1) hot2)) as Hw3.
    { case_decide as Hd; [|done]. destruct Hd as (Hi & Hst & Hp). apply (owned_mark x1 hot2 (la_layer a) (la_slot a) pos id); [done|done|by rewrite F1|done|].
      unfold hot2. rewrite (Hq Hi) by lia. unfold v. rewrite Hst, F2. apply lookup_insert_eq. }
    rewrite F3 in Hw3. set (x2 := if decide _ then _ else x1) in *.
    assert (hs_max_num_seqs x2 = hs_max_num_seqs x1 /\ tokens_per_seq x2 = tokens_per_seq x1 /\ device_buffer_size x2 = device_buffer_size x1 /\ slot_owner_ids x2 = slot_owner_ids x1) as (G1 & G2 & G3 & G4)
      by (unfold x2; by case_decide).
    destruct (copied && short) eqn:Ec; [|exact Hw3]. apply andb_true_iff in Ec as [Ec Est]. destruct (Hcp Ec) as [Hsel Hlg]; [by apply Hsh|].
    apply (owned_mark x2 hot2 (la_layer a) (la_slot a) (la_logical a) id); [done|by rewrite (owner_keep x1)|by rewrite G1, F1|by rewrite G3, F3|].
    rewrite G2, F2. apply Hk. rewrite <- Hsel. unfold hot1. rewrite Ec. apply lookup_insert_eq.
  - unfold paired in *. rewrite <- F5. destruct (copied && short); case_decide; cbn; rewrite ?fmap_is_Some; done.
  - intros Hne. destruct (Hin Hne) as (u & -> & Hu & Hout). split; [nia|]. intros Hn. by apply Hk, Hout.
Qed.

Lemma hs_step_owned w w' : hs_step w w' -> paired (w_ctx w) -> owned w -> owned w' /\ paired (w_ctx w').
Proof.
  destruct 1 as [w slots ids x Hl Hu|[x hot] real a id x' ld Hla Hld|[x hot] layer slot id pos Hs Hown Hp|[x hot] slots]; intros Hpr Ho.
  - split; [by apply (owned_after_update w slots ids)|]. unfold update_mla_hisparse_slot_owners in Hu. destruct (slot_owner_ids (w_ctx w)); [|by injection Hu as <-].
    apply result_bind_Ok in Hu as ([o ch] & _ & [= <-]). unfold paired, reset_mla_hisparse_slots in *. cbn [w_ctx set_owners resident_tokens]. destruct Hpr as [res ->]. by eexists.
  - destruct (load_owned real x hot a id x' ld Ho Hla Hld) as (H1 & H2 & _). split; [done|]. cbn. by apply H2.
  - split; [|done]. cbn in *. rewrite <- (Z2Nat.id slot) by lia. apply owned_write; [done|done|done|lia].
  - split; [by apply owned_after_reset|]. cbn in *. unfold paired, reset_mla_hisparse_slots in *. destruct Hpr as [res Hres]. rewrite Hres. by eexists.
Qed.

Lemma zeros2_lookup n m s k b : default [] (zeros2 n m !! s) !! k = Some b -> b = 0.
Proof. unfold zeros2. destruct (replicate _ _ !! s) as [row|] eqn:E; [|done]. apply lookup_replicate in E as [-> _]. cbn. unfold zeros. intros Hk. by apply lookup_replicate in Hk as [-> _]. Qed.

(** A freshly initialised tier has no resident tokens and an empty union table. *)
Lemma initial_owned cold max_seqs buffer x0 x :
  0 <= max_seqs -> 0 <= buffer -> (forall s0 s1 n block s4 s5, shape cold = [s0; s1; n; block; s4; s5] -> 0 < block) ->
  initialize_mla_hisparse_cache cold max_seqs buffer (initialize_hisparse_context max_seqs buffer x0) = Ok x ->
  hs_max_num_seqs x * tokens_per_seq x < 2 ^ 31 -> owned (mk_world x ∅) /\ paired x.
Proof.
  intros Hm Hb Hblk Hi H31. pose proof (initialize_ready cold max_seqs buffer x0 x Hm Hb Hblk Hi) as [_ R2 R3 _ R5 _ _ _]. revert Hi H31 R2 R3 R5.
  unfold initialize_mla_hisparse_cache. destruct (shape cold) as [|s0 [|s1 [|n [|block [|s4 [|s5 [|]]]]]]]; try done. case_decide; [done|]. intros [= <-] H31 R2 R3 R5.
  split; [|by eexists]. split; cbn [w_ctx w_hot].
  - by eexists.
  - split; [|done]. cbn in *. lia.
  - intros slot. unfold entries_row, values_row. cbn. done.
  - intros layer slot p b Hp Hne. exfalso. unfold resident_row in Hp. cbn [resident_tokens default from_option id] in Hp. destruct (replicate _ _ !! layer) as [t|] eqn:Et; [|done].
    apply lookup_replicate in Et as [-> _]. by apply zeros2_lookup in Hp.
  - intros slot k cell Hc Hne. exfalso. unfold entries_row in Hc. cbn [union_hash_entries default from_option id] in Hc. apply zeros2_lookup in Hc as ->. by apply Hne.
Qed.

(** * Properties *)

(** C29. A sequence never reads hot tokens of another one.  From the initialisation on, after any updates of the owners, programs
    of the loading kernel for rows of the owners (on batches that pass the checks, up to 128 layers), stores of
    new tokens and resets: updating the owners with a batch of distinct slots gives every valid slot to
    its sequence, and a program the kernel then runs for a row of that slot selects a hot slot in the range of
    its own sequence, and one that holds a token of this very sequence (copied by this program, or left by an
    earlier one and found through the residency marks or the union table), unless it selects one
    of the new tokens of this step, which the sequence is about to store. *)
Theorem resident_tokens_belong_to_sequence cold max_seqs buffer x0 x1 w slots seq_ids x :
  0 <= max_seqs -> 0 <= buffer -> (forall s0 s1 n block s4 s5, shape cold = [s0; s1; n; block; s4; s5] -> 0 < block) ->
  initialize_mla_hisparse_cache cold max_seqs buffer (initialize_hisparse_context max_seqs buffer x0) = Ok x1 -> hs_max_num_seqs x1 * tokens_per_seq x1 < 2 ^ 31 ->
  rtc hs_step (mk_world x1 ∅) w ->
  length slots = length seq_ids -> NoDup slots -> update_mla_hisparse_slot_owners slots seq_ids (w_ctx w) = Ok x ->
  forall slot id, (slot, id) ∈ zip slots seq_ids -> 0 <= slot < hs_max_num_seqs (w_ctx w) ->
    owner x (Z.to_nat slot) = Some id /\
    forall real a x' ld, la_slot a = slot -> launched x a id -> load_mla_slot real a x = (x', ld) -> ld_selected ld <> -1 ->
      slot * tokens_per_seq x <= ld_selected ld < (slot + 1) * tokens_per_seq x /\
      (~ la_len a - la_width a <= la_logical a < la_len a -> note_writes (la_layer a) id ld (w_hot w) !! (la_layer a, ld_selected ld) = Some id).
Proof.
  intros Hm Hb Hblk Hi H31 Hr Hl Hnd Hu slot id Hin Hv. destruct (initial_owned cold max_seqs buffer x0 x1 Hm Hb Hblk Hi H31) as [Hi0 Hp0].
  assert (owned w /\ paired (w_ctx w)) as [Ho Hp].
  { clear -Hr Hi0 Hp0. remember (mk_world x1 ∅) as w0 eqn:E. assert (paired (w_ctx w0)) as Hp by by subst. clear E Hp0. induction Hr as [|w1 w2 w3 Hs _ IH]; [done|].
    destruct (hs_step_owned w1 w2 Hs Hp Hi0). by apply IH. }
  split.
  - unfold owner. unfold update_mla_hisparse_slot_owners in Hu. destruct (slot_owner_ids (w_ctx w)) as [owners|] eqn:Eo; [|by destruct Ho as [[? ?] _]; congruence].
    apply result_bind_Ok in Hu as ([owners' changed] & Hf & Hx). simpl in Hx. injection Hx as <-.
    assert (slot_owner_ids (reset_mla_hisparse_slots changed (set_owners owners' (w_ctx w))) = Some owners') as -> by (unfold reset_mla_hisparse_slots; cbn; by destruct (resident_tokens (w_ctx w))).
    apply (update_owners_assigned _ _ _ _ _ _ slot id Hf); [|done|done]. rewrite fst_zip by lia. done.
  - intros real a x' ld <- Hla Hld Hne. pose proof (owned_after_update w slots seq_ids x Hp Ho Hl Hu) as Hw.
    destruct (load_owned real x (w_hot w) a id x' ld Hw Hla Hld) as (_ & _ & Hres). by apply Hres.
Qed.

(** C40. New tokens of a decode batch never collide in the hot tier.  With an initialised MLA
    cache whose slot numbers fit 32 bits, when the checks of the staging pass and the rows are
    those of a batch ([width] rows per request, requests in different slots): the mapping
    succeeds with one output per row; a row of a real request that holds a slot, for a position
    that exists, gets the hot slot of its position while the sequence fits the buffer, and one
    behind the buffer afterwards, and all other rows get -1; every slot given out lies in the
    range of its own sequence and inside the allocated hot blocks, and different rows get
    different slots. *)
Theorem hot_output_slots_disjoint x topk slots lens width :
  mla_ready x -> hs_max_num_seqs x * tokens_per_seq x < 2 ^ 31 ->
  stage_checks (zlen slots) topk (zlen slots) width x = Ok tt -> wf_rows x (Z.max 1 width) slots lens ->
  exists out, map_mla_output_slots slots lens width x = Ok out /\ length out = length slots /\
  (forall r slot len, slots !! r = Some slot -> lens !! r = Some len ->
     let w := Z.max 1 width in let step := Z.of_nat r mod w in
     (has_output x w (Z.of_nat r) slot len /\
      out !! r = Some (slot * tokens_per_seq x + if decide (0 < len <= device_buffer_size x) then len - w + step else device_buffer_size x + step)) \/
     (~ has_output x w (Z.of_nat r) slot len /\ out !! r = Some (-1))) /\
  (forall r o, out !! r = Some o -> o <> -1 -> exists slot, slots !! r = Some slot /\ 0 <= slot < hs_max_num_seqs x /\
     slot * tokens_per_seq x <= o < (slot + 1) * tokens_per_seq x /\
     exists t n, hot_kv_cache x = Some t /\ shape t !! 2%nat = Some n /\ 0 <= o / hs_block_size x < n) /\
  (forall r r' o, out !! r = Some o -> out !! r' = Some o -> o <> -1 -> r = r').
Proof.
  intros Hx H31 Hst [Hlen Hsame Hdist]. set (w := Z.max 1 width) in *.
  assert (1 <= w <= tokens_per_seq x - device_buffer_size x) as Hw.
  { unfold stage_checks in Hst. fold w in Hst. destruct (hot_kv_cache x), (cold_kv_cache x); try done. repeat (case_decide; [done|]). lia. }
  pose proof Hx as [Hs Hb Hbl Htok Hres [cold Hcold] (t & s0 & s1 & s4 & s5 & Hhot & Hshape) _].
  exists (imap (fun row p => output_slot x w (Z.of_nat row) (fst p) (snd p)) (zip slots lens)).
  split; [unfold map_mla_output_slots; rewrite Hhot, Hcold, decide_False by (intros Hn; by apply Hn); done|].
  split; [rewrite length_imap, length_zip_with; unfold zlen in Hlen; lia|].
  split.
  { intros r slot len Hsl Hln. cbv zeta. assert (zip slots lens !! r = Some (slot, len)) as Hz by (apply lookup_zip_Some; done).
    rewrite list_lookup_imap, Hz.
    cbn [fmap option_fmap option_map fst snd]. destruct (output_slot_cases x w (Z.of_nat r) slot len Hx Hw H31 ltac:(lia)) as [[? ->]|[? ->]]; auto. }
  assert (forall r o, imap (fun row p => output_slot x w (Z.of_nat row) (fst p) (snd p)) (zip slots lens) !! r = Some o ->
    exists slot len, slots !! r = Some slot /\ lens !! r = Some len /\ o = output_slot x w (Z.of_nat r) slot len) as Hrow.
  { intros r o Hr. rewrite list_lookup_imap in Hr. destruct (zip slots lens !! r) as [[slot len]|] eqn:Ez; [|done].
    apply lookup_zip_Some in Ez as [? ?]. injection Hr as <-. by exists slot, len. }
  split.
  - intros r o Hr Hne. destruct (Hrow r o Hr) as (slot & len & Hsl & Hln & ->).
    destruct (output_slot_range x w (Z.of_nat r) slot len Hx Hw H31 ltac:(lia) Hne) as (Hv & offset & Heq & Hoff & _).
    exists slot. split; [done|]. split; [done|]. rewrite Heq. split; [nia|]. exists t. eexists. split; [done|]. rewrite Hshape. split; [done|].
    split; [apply Z.div_pos; nia|]. apply Z.div_lt_upper_bound; [lia|]. nia.
  - intros r r' o Hr Hr' Hne. destruct (Hrow r o Hr) as (slot & len & Hsl & Hln & ->). destruct (Hrow r' _ Hr') as (slot' & len' & Hsl' & Hln' & Heq).
    destruct (output_slot_range x w (Z.of_nat r) slot len Hx Hw H31 ltac:(lia) Hne) as (Hv & offset & Ho & Hoff & Hcase).
    rewrite Heq in Hne. destruct (output_slot_range x w (Z.of_nat r') slot' len' Hx Hw H31 ltac:(lia) Hne) as (Hv' & offset' & Ho' & Hoff' & Hcase').
    assert (slot = slot' /\ offset = offset') as [<- <-].
    { apply (radix_inj (tokens_per_seq x)); [lia|lia|]. lia. }
    assert (Z.of_nat r / w = Z.of_nat r' / w) as Hdiv by (by apply (Hdist r r' slot)).
    destruct (Hsame r r' Hdiv) as [_ Hl]; [by eapply lookup_lt_Some|by eapply lookup_lt_Some|]. rewrite Hln, Hln' in Hl. injection Hl as <-.
    pose proof (Z.div_mod (Z.of_nat r) w ltac:(lia)). pose proof (Z.div_mod (Z.of_nat r') w ltac:(lia)).
    pose proof (Z.mod_pos_bound (Z.of_nat r) w ltac:(lia)). pose proof (Z.mod_pos_bound (Z.of_nat r') w ltac:(lia)).
    assert (Z.of_nat r mod w = Z.of_nat r' mod w) by lia. nia.
Qed.

(** The two implementations of the slot mappings agree: for every row of a real request
    the tensor code and the kernel compute the same output slot, and the ring mapping of the
    fallback is the kernel's on all rows whose slot is valid, or the dummy slot for padding. *)
Theorem hot_slot_paths_agree x real width row slot len idx pos :
  num_real_reqs x = Some real -> 1 <= width -> 0 <= row -> 0 <= idx -> 0 < tokens_per_seq x ->
  output_slot x width row slot len =
    kernel_output_slot real (hs_max_num_seqs x) (device_buffer_size x) (tokens_per_seq x) width row slot len /\
  (0 <= slot -> (real <= idx -> hs_max_num_seqs x <= slot) ->
   ring_slot x slot pos = kernel_ring_slot real (hs_max_num_seqs x) (tokens_per_seq x) idx slot pos).
Proof.
  intros Hreal Hw Hrow Hidx Htps. split.
  - unfold output_slot, kernel_output_slot. rewrite Hreal. rewrite Z.quot_div_nonneg by lia.
    pose proof (Z.div_mod row width ltac:(lia)). pose proof (Z.mod_pos_bound row width ltac:(lia)).
    assert (row / width < real <-> row < real * width) as Hr by (split; nia).
    repeat case_bool_decide; repeat case_decide; simpl; try done; lia.
  - intros Hs Hpad. unfold ring_slot, kernel_ring_slot. case_decide as H1; [rewrite decide_False by lia|rewrite decide_True by lia; done].
    f_equal. f_equal. cbv zeta. pose proof (Z.quot_rem' pos (tokens_per_seq x)) as Hq. pose proof (Z.rem_bound_abs pos (tokens_per_seq x) ltac:(lia)) as Habs.
    case_decide as Hneg.
    + symmetry. apply (Z.mod_unique_pos _ _ (Z.quot pos (tokens_per_seq x) - 1)); lia.
    + symmetry. apply (Z.mod_unique_pos _ _ (Z.quot pos (tokens_per_seq x))); lia.
Qed.

(** ** Witnesses: three slots of six tokens and a page of four, two layers *)

Definition sample_cold : Tensor := torch_empty [1; 2; 10; 4; 1; 8] 1.
Definition sample_start : HiSparseContext := initialize_hisparse_context 3 6 empty_hisparse.
Definition sample_ctx : HiSparseContext :=
  match initialize_mla_hisparse_cache sample_cold 3 6 sample_start with
  | Ok x => mk_hisparse (enabled x) (hs_max_num_seqs x) (dummy_slot x) (device_buffer_size x)
      (tokens_per_seq x) (hot_kv_cache x) (cold_kv_cache x) (hs_block_size x) (hot_blocks_per_seq x) (resident_tokens x)
      (union_hash_entries x) (union_hash_values x) (union_hash_capacity x) (slot_owner_ids x) (Some 2)
  | Err _ => empty_hisparse
  end.
Definition fresh_ctx : HiSparseContext := match initialize_mla_hisparse_cache sample_cold 3 6 sample_start with Ok x => x | Err _ => empty_hisparse end.
Definition batch_ctx : HiSparseContext := match update_mla_hisparse_slot_owners [0; 1] [11; 12] fresh_ctx with Ok x => x | Err _ => empty_hisparse end.
(** The kernel loads position 2 of sequence 11, of five tokens, into slot 0. *)
Definition first_load : LoadArgs := mk_load_args 0 0 1 2 0 0 0 5 7 2.
Definition loaded_ctx : HiSparseContext * Loaded := load_mla_slot 2 first_load batch_ctx.
Definition next_ctx : HiSparseContext := match update_mla_hisparse_slot_owners [0; 1] [11; 13] (fst loaded_ctx) with Ok x => x | Err _ => empty_hisparse end.

(** The next time, its token is found resident and not copied again; a sequence that takes over slot 0 copies its own. *)
Lemma resident_tokens_belong_to_sequence_witness :
  snd loaded_ctx = mk_loaded 2 true (Some 4) /\ snd (load_mla_slot 2 first_load next_ctx) = mk_loaded 2 false (Some 4) /\
  note_writes 0 11 (mk_loaded 2 false (Some 4)) (note_writes 0 11 (snd loaded_ctx) ∅) !! (0%nat, 2) = Some 11.
Proof.
  split; [vm_compute; reflexivity|]. split; [vm_compute; reflexivity|].
  assert (launched batch_ctx first_load 11) as Hla by (split; [by exists 2; vm_compute|cbn; lia..|intros _; vm_compute; reflexivity]).
  assert (launched next_ctx first_load 11) as Hln by (split; [by exists 2; vm_compute|cbn; lia..|intros _; vm_compute; reflexivity]).
  destruct (resident_tokens_belong_to_sequence sample_cold 3 6 empty_hisparse fresh_ctx
    (mk_world (fst loaded_ctx) (note_writes 0 11 (snd loaded_ctx) ∅)) [0; 1] [11; 13] next_ctx)
    with (slot := 0) (id := 11) as [_ Hres].
  - lia.
  - lia.
  - intros s0 s1 n block s4 s5 Hsh. vm_compute in Hsh. injection Hsh as _ _ _ <- _ _. lia.
  - vm_compute. reflexivity.
  - vm_compute. reflexivity.
  - apply (rtc_l _ _ (mk_world batch_ctx ∅)); [apply (step_update (mk_world fresh_ctx ∅) [0; 1] [11; 12]); vm_compute; reflexivity|].
    apply rtc_once. apply (step_load (mk_world batch_ctx ∅) 2 first_load 11 (fst loaded_ctx) (snd loaded_ctx)); [exact Hla|vm_compute; reflexivity].
  - reflexivity.
  - apply NoDup_cons. split; [rewrite list_elem_of_singleton; lia|apply NoDup_singleton].
  - vm_compute. reflexivity.
  - simpl. left.
  - vm_compute. split; [discriminate|reflexivity].
  - destruct (Hres 2 first_load (fst (load_mla_slot 2 first_load next_ctx)) (mk_loaded 2 false (Some 4))) as [_ Hh]; [reflexivity|exact Hln|vm_compute; reflexivity|discriminate|].
    apply Hh. cbn. lia.
Defined.

Lemma sample_ready : mla_ready sample_ctx.
Proof.
  split; [vm_compute; discriminate|vm_compute; discriminate|reflexivity|reflexivity|vm_compute; discriminate|by eexists| |split; by eexists].
  exists (narrow 3 4 (torch_empty [1; 2; 9; 5; 1; 8] 1)), 1, 2, 1, 8. split; vm_compute; reflexivity.
Qed.

Lemma hot_output_slots_disjoint_witness :
  exists out, map_mla_output_slots [0; 0; 2; 2] [5; 5; 20; 20] 2 sample_ctx = Ok out /\ out = [3; 4; 30; 31] /\
  (forall r r' o, out !! r = Some o -> out !! r' = Some o -> o <> -1 -> r = r').
Proof.
  destruct (hot_output_slots_disjoint sample_ctx 3 [0; 0; 2; 2] [5; 5; 20; 20] 2) as (out & Hm & _ & _ & _ & Hd).
  - exact sample_ready.
  - vm_compute. reflexivity.
  - vm_compute. reflexivity.
  - split.
    + reflexivity.
    + intros [|[|[|[|r]]]] [|[|[|[|r']]]] Hd Hr Hr'; simpl in Hr, Hr'; try lia; try (vm_compute in Hd; discriminate); split; reflexivity.
    + intros [|[|[|[|r]]]] [|[|[|[|r']]]] slot Hr Hr' _; simpl in Hr, Hr'; try discriminate; try reflexivity; congruence.
  - exists out. split; [exact Hm|]. split; [|exact Hd]. vm_compute in Hm. congruence.
Defined.

Lemma hot_slot_paths_agree_witness :
  output_slot sample_ctx 2 3 2 20 = kernel_output_slot 2 3 6 12 2 3 2 20 /\ (0 <= 2 -> (2 <= 1 -> 3 <= 2) -> ring_slot sample_ctx 2 29 = kernel_ring_slot 2 3 12 1 2 29).
Proof. apply (hot_slot_paths_agree sample_ctx 2 2 3 2 20 1 29); vm_compute; (reflexivity || discriminate). Defined.
