(* ===== verification/InputPreparer.v ===== *)
(** The inputs of a forward pass ([dlengine/runtime/runner/input_preparer.py], with the batch
    context it installs, [dlengine/runtime/context/batch.py], and the Rust functions that lay
    out a batch, [rust/src/proto/prepare.rs]).  Index tensors are lists of integers, those of
    more dimensions also have a shape; copies to the device are not modelled.  Arithmetic on
    [i32] wraps around, as in a release build.  The scheduling metadata of [flash_mla] is left
    out. *)

From S2P Require Import Prelude HfConfig PipelineParallel Cache HiSparse Microbatch.

Open Scope Z_scope.

(** * The layout of a batch *)

(** [PrefillMeta] *)
Record PrefillMeta := mk_prefill_meta {
  pm_input_ids : list Z;
  pm_positions : list Z;
  pm_cu_seqlens_q : list Z;
  pm_cu_seqlens_k : list Z;
  pm_slot_mapping : list Z;
  pm_use_block_tables : bool;
  pm_block_tables_flat : list Z;
  pm_max_num_blocks : nat;
  pm_max_seqlen_q : nat;
  pm_max_seqlen_k : nat;
  pm_sampling_token_indices : list Z;
  pm_sampling_seq_indices : list Z
}.

(** [DecodeMeta] *)
Record DecodeMeta := mk_decode_meta {
  dm_input_ids : list Z;
  dm_positions : list Z;
  dm_slot_mapping : list Z;
  dm_context_lens_flat : list Z;
  dm_block_tables_flat : list Z;
  dm_max_num_blocks : nat
}.

(** [blocks.iter().map(|b| b.len()).max().unwrap_or(0)] *)
Definition longest_row (rows : list (list Z)) : nat := foldr (fun r n => Nat.max (length r) n) 0%nat rows.

(** [for (j, block) in blocks.enumerate() { flat\[base + j\] = block }] *)
Definition write_blocks (flat : list Z) (w : nat * list Z) : result (list Z) :=
  let '(base, blocks) := w in
  if decide (blocks = [] \/ (base + length blocks <= length flat)%nat) then Ok (list_inserts base blocks flat) else Err PanicException.

(** The loops that copy the block tables of [rows] into every sequence-parallel part of a
    table with [width] rows of [max_blocks]. *)
Definition table_writes (sp_size width max_blocks : nat) (rows : list (list Z)) : list (nat * list Z) :=
  concat ((fun sp => imap (fun i blocks => ((sp * width + i) * max_blocks, blocks)%nat) rows) <$> seq 0 sp_size).
Definition fill_tables (sp_size width max_blocks : nat) (rows : list (list Z)) (flat : list Z) : result (list Z) :=
  foldM_r write_blocks flat (table_writes sp_size width max_blocks rows).

(** Where the token at position [pos] of a row with [block_table] is stored; [idx] is the
    index of the token in the batch.  Division and remainder truncate. *)
Definition token_slot (block_size : nat) (block_table : list Z) (idx : nat) (pos : Z) : Z :=
  let size := Z.max 1 (Z.of_nat block_size) in
  let logical_block := Z.to_nat (Z.max 0 (Z.quot pos size)) in
  let offset := wrap32 (Z.rem pos size) in
  match block_table !! logical_block with
  | Some block => wrap32 (wrap32 (block * wrap32 size) + offset)
  | None => wrap32 (Z.of_nat idx)
  end.

(** The loop over the rows of a prefill batch. *)
Record RowState := mk_rows {
  total_q : Z;
  total_k : Z;
  cu_q : list Z;
  cu_k : list Z;
  max_len_q : nat;
  max_len_k : nat;
  token_indices : list Z;
  seq_indices : list Z
}.

Definition saturate64 (z : Z) : Z := Z.min (2 ^ 63 - 1) (Z.max (- 2 ^ 63) z).

Definition row_step (b : WireBatch) (s : RowState) (row : nat * Z) : RowState :=
  let '(idx, len) := row in
  let q_len := Z.max 0 len in
  let tq := wrap32 (total_q s + q_len) in
  let last := match (if decide (0 < tq) then positions b !! Z.to_nat (tq - 1) else None) with Some p => p | None => tq - 1 end in
  let pos_end := if decide (0 < q_len) then wrap32 (Z.max 0 (saturate64 (last + 1))) else 0 in
  let tk := wrap32 (total_k s + pos_end) in
  let sampled := bool_decide (0 < len) && default true (sample_mask b !! idx) in
  mk_rows tq tk (cu_q s ++ [tq]) (cu_k s ++ [tk]) (Nat.max (max_len_q s) (Z.to_nat q_len))
    (Nat.max (max_len_k s) (Z.to_nat (Z.max 0 pos_end)))
    (if sampled then token_indices s ++ [tq - 1] else token_indices s)
    (if sampled then seq_indices s ++ [Z.of_nat idx] else seq_indices s).

Definition row_loop (b : WireBatch) (rows : list (nat * Z)) (s : RowState) : RowState := foldl (row_step b) s rows.
Definition rows_of (b : WireBatch) : list (nat * Z) := imap pair (seq_lens b).
Definition first_row : RowState := mk_rows 0 0 [0] [0] 0 0 [] [].

(** [token_seq_indices] *)
Definition token_rows (lens : list Z) : list nat := concat (imap (fun i len => replicate (Z.to_nat len) i) lens).

Definition prefill_slots (block_size : nat) (b : WireBatch) : list Z :=
  imap (fun idx pos => let row := default 0%nat (token_rows (seq_lens b) !! idx) in
                       token_slot block_size (default [] (block_tables b !! row)) idx pos) (positions b).

(** [runner_in_prefill] *)
Definition runner_in_prefill (b : WireBatch) (sp_size block_size max_num_seqs : nat) : result PrefillMeta :=
  let max_blocks := longest_row (block_tables b) in
  let width := Nat.max max_num_seqs 1 in
  flat ← (if decide (is_dummy b = false /\ (0 < max_blocks)%nat)
          then fill_tables sp_size width max_blocks (take max_num_seqs (block_tables b)) (replicate (sp_size * width * max_blocks) 0)
          else Ok []);
  let s := row_loop b (rows_of b) first_row in
  Ok (mk_prefill_meta (input_ids b) (positions b) (cu_q s) (cu_k s)
        (if is_dummy b then replicate (Z.to_nat (Z.max 0 (total_q s))) (-1) else prefill_slots block_size b)
        (negb (bool_decide (flat = []))) flat max_blocks (max_len_q s) (max_len_k s) (token_indices s) (seq_indices s)).

(** [for i in 0..n { v\[i\] = f(i) }] *)
Definition write_first (n : nat) (f : nat -> Z) (v : list Z) : result (list Z) :=
  if decide (n <= length v)%nat then Ok (list_inserts 0 (f <$> seq 0 n) v) else Err PanicException.

Definition decode_slots (block_size : nat) (b : WireBatch) : list Z :=
  imap (fun idx pos => token_slot block_size (default [] (block_tables b !! idx)) idx pos) (positions b).

(** [runner_in_decode] *)
Definition runner_in_decode (b : WireBatch) (sp_size block_size max_num_seqs : nat) : result DecodeMeta :=
  let num := length (seq_lens b) in
  let width := Nat.max num 1 in
  let max_num_blocks := Nat.max (longest_row (block_tables b)) 1 in
  let flat := replicate (sp_size * width * max_num_blocks) 0 in
  flat ← (if is_dummy b then Ok flat else fill_tables sp_size width max_num_blocks (take width (block_tables b)) flat);
  lens ← write_first (Nat.min num max_num_seqs) (fun i => wrap32 (wrap32 (default 0 (positions b !! i)) + 1))
           (replicate (sp_size * max_num_seqs) 0);
  Ok (mk_decode_meta (input_ids b) (positions b)
        (if is_dummy b then replicate num (-1) else decode_slots block_size b)
        lens (if is_dummy b then [] else flat) (if is_dummy b then 0%nat else max_num_blocks)).

(** * The batch context *)

Inductive Strategy := AUTO | FLASHINFER | FLASH_ATTN | FLASH_MLA.

(** An index tensor with its shape. *)
Record IntTensor := mk_int_tensor { it_shape : list nat; it_data : list Z }.

(** [t.reshape(dims)] *)
Definition reshape (dims : list nat) (data : list Z) : result IntTensor :=
  if decide (foldr Nat.mul 1%nat dims = length data) then Ok (mk_int_tensor dims data) else Err RuntimeError.

(** [t.reshape(a, -1, c)] *)
Definition reshape_infer (a c : nat) (data : list Z) : result IntTensor :=
  if decide (a * c = 0)%nat then Err RuntimeError else reshape [a; length data / (a * c); c]%nat data.

(** The fields of [BatchContext] that carry values; [None] is Python's [None]. *)
Record BatchContext := mk_batch_context {
  bc_is_prefill : bool;
  bc_max_bs : option Z;
  bc_cu_seqlens_q : option (list Z);
  bc_cu_seqlens_k : option (list Z);
  bc_max_seqlen_q : nat;
  bc_max_seqlen_k : nat;
  bc_slot_mapping : option (list Z);
  bc_context_lens : option IntTensor;
  bc_block_tables : option IntTensor;
  bc_is_dummy : bool;
  bc_num_tokens_per_seq : Z;
  bc_sampling_token_indices : option (list Z);
  bc_sampling_seq_indices : option (list Z);
  bc_paged_attention_strategy : option Strategy;
  bc_decode_page_plan_key : option (list Z);
  bc_mtp_draft_safe : bool;
  bc_gdn_state_slots : option (list Z);
  bc_dsv4_state_slots : option (list Z);
  bc_dsv4_compressed_block_tables : option (gmap Z (list (list Z)));
  bc_hisparse_slots : option (list Z);
  bc_hisparse_slot_mapping : option (list Z)
}.

(** * The preparation *)

(** What the preparer reads of the configuration. *)
Record PrepConfig := mk_prep_config {
  pc_block_size : nat;
  pc_max_num_seqs : nat;
  pc_num_speculative_tokens : Z;
  pc_max_model_len : Z;
  pc_enable_hisparse : bool;
  (** [cache_plan.has_gqa()], false without a plan *)
  pc_has_gqa : bool;
  pc_use_flashinfer_decode : bool;
  pc_hf : HfConfig
}.

(** [\[s if 0 <= s < dummy else dummy for s in slots\]] *)
Definition clamp_slot (dummy s : Z) : Z := if decide (0 <= s < dummy) then s else dummy.
Definition clamp_slots (dummy : Z) (slots : list Z) : list Z := clamp_slot dummy <$> slots.

Definition prepared_gdn_slots (c : CacheContext) (b : WireBatch) : option (list Z) :=
  (fun t => clamp_slots (default 0 (shape t !! 1%nat) - 1) (state_slots b)) <$> gdn_conv_states (gdn c).

(** The rows of one ratio, scattered by state slot; the loop stops with the state slots. *)
Definition scatter_row (max_slots max_blocks : nat) (rows : list (list Z)) (w : Z * list Z) : list (list Z) :=
  let '(slot, pages) := w in
  if decide (0 <= slot < Z.of_nat max_slots)
  then alter (list_inserts 0 (take max_blocks pages)) (Z.to_nat slot) rows else rows.

Definition compressed_rows (max_slots max_blocks : nat) (dummy : Z) (slots : list Z) (per_seq : list (list Z)) : list (list Z) :=
  foldl (scatter_row max_slots max_blocks) (replicate (S max_slots) (replicate max_blocks dummy)) (zip slots per_seq).

(** Both branches for DSv4: the state slots and the compressed block tables. *)
Definition prepared_dsv4_slots (p : PrepConfig) (c : CacheContext) (b : WireBatch) : option (list Z) :=
  if decide (mode (cfg c) = "dsv4"%string) then Some (clamp_slots (Z.of_nat (pc_max_num_seqs p)) (state_slots b)) else None.

Definition built_tables (p : PrepConfig) (c : CacheContext) (b : WireBatch) : gmap Z (list (list Z)) :=
  map_imap (fun ratio per_seq =>
              let '(num_pages, _, max_blocks) := default (0, 0, 0) (dsv4_compressed_pool_config (csa c) !! ratio) in
              if decide (max_blocks <= 0) then None
              else Some (compressed_rows (pc_max_num_seqs p) (Z.to_nat max_blocks)
                           (default num_pages (dsv4_compressed_dummy_page (csa c) !! ratio)) (state_slots b) per_seq))
    (compressed_block_tables b).

Definition prepared_tables (p : PrepConfig) (c : CacheContext) (b : WireBatch) : option (gmap Z (list (list Z))) :=
  if decide (mode (cfg c) = "dsv4"%string) then
    let built := built_tables p c b in if decide (built = ∅) then None else Some built
  else None.

(** [raw_slots], cut or padded to the sequences of the batch. *)
Definition raw_hisparse_slots (p : PrepConfig) (b : WireBatch) : list Z :=
  let n := length (seq_lens b) in
  let slots := take n (hisparse_slots b) in
  slots ++ replicate (n - length slots) (Z.of_nat (pc_max_num_seqs p)).

(** [num_real_reqs.fill_(n)] *)
Definition fill_real_reqs (n : nat) (x : HiSparseContext) : HiSparseContext :=
  mk_hisparse (enabled x) (hs_max_num_seqs x) (dummy_slot x) (device_buffer_size x) (tokens_per_seq x) (hot_kv_cache x)
    (cold_kv_cache x) (hs_block_size x) (hot_blocks_per_seq x) (resident_tokens x) (union_hash_entries x) (union_hash_values x)
    (union_hash_capacity x) (slot_owner_ids x) ((fun _ => Z.of_nat n) <$> num_real_reqs x).

(** [prepare_prefill_bytes] on a decoded batch: the input ids and positions, the installed
    context and the HiSparse context. *)
Definition prepare_prefill (p : PrepConfig) (c : CacheContext) (sp_size : nat) (b : WireBatch) (dummy : bool) (x : HiSparseContext)
    : result (list Z * list Z * BatchContext * HiSparseContext) :=
  meta ← runner_in_prefill b sp_size (pc_block_size p) (pc_max_num_seqs p);
  tables ← (if pm_use_block_tables meta
            then t ← reshape [sp_size; pc_max_num_seqs p; pm_max_num_blocks meta] (pm_block_tables_flat meta); Ok (Some t)
            else Ok None);
  let num_seqs := length (seq_lens b) in
  let selective := bool_decide (length (pm_sampling_token_indices meta) < num_seqs)%nat in
  let hs := pc_enable_hisparse p in
  Ok (pm_input_ids meta, pm_positions meta,
      mk_batch_context true (Some (Z.of_nat (pc_max_num_seqs p))) (Some (pm_cu_seqlens_q meta)) (Some (pm_cu_seqlens_k meta))
        (pm_max_seqlen_q meta) (pm_max_seqlen_k meta) (Some (pm_slot_mapping meta)) None tables dummy 1
        (if selective then Some (pm_sampling_token_indices meta) else None)
        (if selective then Some (pm_sampling_seq_indices meta) else None)
        (Some (match tables with Some _ => AUTO | None => FLASH_ATTN end)) None true
        (prepared_gdn_slots c b) (prepared_dsv4_slots p c b) (prepared_tables p c b)
        (if hs then Some (clamp_slots (Z.of_nat (pc_max_num_seqs p)) (raw_hisparse_slots p b)) else None) None,
      if hs then fill_real_reqs num_seqs x else x).

(** [prepare_decode_bytes] on a decoded batch. *)
Definition page_count (block_size len : Z) : result Z := ((len + block_size - 1) // block_size)%py.

Definition draft_safe (p : PrepConfig) (positions : list Z) : bool :=
  let n := pc_num_speculative_tokens p in
  bool_decide (n = 0) || bool_decide (match positions with [] => -1 | q :: qs => foldl Z.max q qs end + 2 * n + 1 < pc_max_model_len p).

Definition prepare_decode (p : PrepConfig) (c : CacheContext) (sp_size : nat) (b : WireBatch) (dummy : bool) (x : HiSparseContext)
    : result (list Z * list Z * BatchContext * HiSparseContext) :=
  meta ← runner_in_decode b sp_size (pc_block_size p) (pc_max_num_seqs p);
  let num_seqs := length (seq_lens b) in
  lens ← reshape [sp_size; pc_max_num_seqs p] (dm_context_lens_flat meta);
  key ← mapM_r (page_count (Z.of_nat (pc_block_size p))) (take num_seqs (take (pc_max_num_seqs p) (dm_context_lens_flat meta)));
  let safe := draft_safe p (take num_seqs (dm_positions meta)) in
  tables ← (if decide (dm_block_tables_flat meta = []) then Ok (mk_int_tensor [1; 0; 0]%nat [])
            else reshape_infer sp_size (dm_max_num_blocks meta) (dm_block_tables_flat meta));
  _ ← (match architectures (pc_hf p) with None => Err TypeError | Some [] => Err IndexError | Some _ => Ok tt end);
  let is_mla := bool_decide (0 < default 0 (HfConfig.kv_lora_rank (pc_hf p))) in
  let is_dsv4 := bool_decide (arch (pc_hf p) = "DeepseekV4ForCausalLM"%string) in
  let raw := raw_hisparse_slots p b in
  let slots := clamp_slots (Z.of_nat (pc_max_num_seqs p)) raw in
  x' ← (if pc_enable_hisparse p then update_mla_hisparse_slot_owners raw (take num_seqs (wb_seq_ids b)) x else Ok x);
  let hs := pc_enable_hisparse p in
  Ok (dm_input_ids meta, dm_positions meta,
      mk_batch_context false (Some (Z.of_nat (pc_max_num_seqs p))) None None 0 0 (Some (dm_slot_mapping meta)) (Some lens) (Some tables) dummy 1
        None None
        (Some (if is_mla || is_dsv4 then FLASH_MLA else if pc_use_flashinfer_decode p then FLASHINFER else FLASH_ATTN))
        (Some key) safe (prepared_gdn_slots c b) (prepared_dsv4_slots p c b) (prepared_tables p c b)
        (if hs then Some slots else None)
        (if hs then if pc_has_gqa p then build_hot_slot_mapping slots (dm_positions meta) x' else Some (dm_slot_mapping meta) else None),
      if hs then fill_real_reqs num_seqs x' else x').

Lemma reshape_Ok dims data : length data = foldr Nat.mul 1%nat dims -> reshape dims data = Ok (mk_int_tensor dims data).
Proof. intros H. unfold reshape. by rewrite decide_True. Qed.

(** * Block tables *)

Lemma write_blocks_lookup flat w flat' :
  write_blocks flat w = Ok flat' -> length flat' = length flat /\
  forall k, flat' !! k = (if decide (fst w <= k < fst w + length (snd w))%nat then snd w !! (k - fst w)%nat else flat !! k).
Proof.
  destruct w as [base blocks]. unfold write_blocks. destruct (decide _) as [Hb|]; [|done]. intros [= <-].
  split; [apply length_inserts|]. intros k. cbn. case_decide as Hk.
  - apply list_lookup_inserts; destruct Hb as [->|?]; simpl in *; lia.
  - destruct (decide (k < base)%nat); [apply list_lookup_inserts_lt; lia|apply list_lookup_inserts_ge; lia].
Qed.

(** Rows of [mb] entries. *)
Definition row_write (mb bound : nat) (w : nat * list Z) : Prop :=
  (length (snd w) <= mb)%nat /\ exists r, fst w = (r * mb)%nat /\ (r * mb + mb <= bound)%nat.

Lemma write_rows_keep mb bound ws flat flat' r j :
  foldM_r write_blocks flat ws = Ok flat' -> Forall (row_write mb bound) ws -> (j < mb)%nat -> (r * mb)%nat ∉ fst <$> ws ->
  flat' !! (r * mb + j)%nat = flat !! (r * mb + j)%nat.
Proof.
  intros Hr Hf Hj. revert flat Hr. induction Hf as [|w ws [Hl (rw & Hrw & _)] _ IH]; intros flat Hr Hni; [by injection Hr as <-|].
  csimpl in Hni. apply not_elem_of_cons in Hni as [Hne Hni]. cbn [foldM_r] in Hr.
  destruct (write_blocks flat w) as [f1|] eqn:E; [|done]. rewrite (IH _ Hr Hni). destruct (write_blocks_lookup _ _ _ E) as [_ ->].
  rewrite decide_False; [done|]. rewrite Hrw in *. assert (r <> rw) by (intros ->; done). nia.
Qed.

Lemma write_rows_spec mb ws flat :
  NoDup (fst <$> ws) -> Forall (row_write mb (length flat)) ws ->
  exists flat', foldM_r write_blocks flat ws = Ok flat' /\ length flat' = length flat /\
    forall r blocks j v, ((r * mb)%nat, blocks) ∈ ws -> blocks !! j = Some v -> flat' !! (r * mb + j)%nat = Some v.
Proof.
  revert flat. induction ws as [|[base blocks] ws IH]; intros flat Hnd Hf.
  { exists flat. split_and!; [done..|]. by intros r bl j v H%elem_of_nil. }
  csimpl in Hnd. apply NoDup_cons in Hnd as [Hnin Hnd]. apply Forall_cons in Hf as [[Hl (r0 & Hr0 & Hin)] Hf]. simpl in Hl, Hr0. subst base.
  assert (exists f1, write_blocks flat ((r0 * mb)%nat, blocks) = Ok f1) as [f1 H1].
  { unfold write_blocks. rewrite decide_True by (right; lia). eauto. }
  cbn [foldM_r]. rewrite H1. destruct (write_blocks_lookup _ _ _ H1) as [Hlen Hlk]. cbn [fst snd] in Hlk. rewrite <- Hlen in Hf.
  destruct (IH f1 Hnd Hf) as (f2 & H2 & Hlen2 & Hws).
  exists f2. split; [done|]. split; [lia|]. intros r bl j v Hel Hj. apply elem_of_cons in Hel as [[= Hr ->]|Hel]; [|by eapply Hws].
  pose proof (lookup_lt_Some _ _ _ Hj). rewrite (write_rows_keep mb _ ws f1 f2 r j H2 Hf) by (done || lia || by rewrite Hr).
  rewrite Hlk, Hr, decide_True by lia. by replace (r0 * mb + j - r0 * mb)%nat with j by lia.
Qed.

Lemma table_writes_elem sp_size width mb rows w :
  w ∈ table_writes sp_size width mb rows <->
  exists sp i blocks, (sp < sp_size)%nat /\ rows !! i = Some blocks /\ w = (((sp * width + i) * mb)%nat, blocks).
Proof.
  unfold table_writes. rewrite elem_of_concat. split.
  - intros (l & Hw & (sp & -> & Hsp)%list_elem_of_fmap). apply elem_of_seq in Hsp.
    apply elem_of_lookup_imap in Hw as (i & blocks & -> & Hi). exists sp, i, blocks. split_and!; [lia|done|done].
  - intros (sp & i & blocks & Hsp & Hi & ->). eexists. split; [|apply list_elem_of_fmap; exists sp; split; [done|apply elem_of_seq; lia]].
    apply elem_of_lookup_imap. eauto.
Qed.

Lemma table_writes_NoDup sp_size width mb rows :
  (length rows <= width)%nat -> (0 < mb)%nat -> NoDup (fst <$> table_writes sp_size width mb rows).
Proof.
  intros Hw Hmb. unfold table_writes. generalize 0%nat as s0. induction sp_size as [|n IH]; intros s0; [constructor|]. csimpl.
  rewrite fmap_app. apply NoDup_app. split_and!; [| |apply IH].
  - rewrite fmap_imap. apply NoDup_alt. intros i j x Hi Hj. rewrite list_lookup_imap in Hi, Hj.
    destruct (rows !! i), (rows !! j); try done. cbn in Hi, Hj. injection Hi as Hi. injection Hj as Hj. rewrite <- Hj in Hi.
    apply Nat.mul_cancel_r in Hi; lia.
  - intros x (w & -> & Hw1)%list_elem_of_fmap (w' & Heq & Hw2)%list_elem_of_fmap.
    apply elem_of_lookup_imap in Hw1 as (i & bl & -> & Hi). apply elem_of_concat in Hw2 as (l & Hl & (sp & -> & Hsp)%list_elem_of_fmap).
    apply elem_of_lookup_imap in Hl as (i' & bl' & -> & Hi'). apply elem_of_seq in Hsp. cbn in Heq.
    apply Nat.mul_cancel_r in Heq; [|lia]. apply lookup_lt_Some in Hi, Hi'. nia.
Qed.

(** Every part of the table holds the block tables of the rows. *)
Lemma fill_tables_spec sp_size width mb rows :
  (length rows <= width)%nat -> (0 < mb)%nat -> Forall (fun r => (length r <= mb)%nat) rows ->
  exists flat, fill_tables sp_size width mb rows (replicate (sp_size * width * mb) 0) = Ok flat /\
    length flat = (sp_size * width * mb)%nat /\
    forall sp i j blocks v, (sp < sp_size)%nat -> rows !! i = Some blocks -> blocks !! j = Some v ->
      flat !! ((sp * width + i) * mb + j)%nat = Some v.
Proof.
  intros Hw Hmb Hrows.
  destruct (write_rows_spec mb (table_writes sp_size width mb rows) (replicate (sp_size * width * mb) 0)) as (flat & Hf & Hl & Hv);
    [by apply table_writes_NoDup| |].
  - apply Forall_forall. intros w (sp & i & blocks & Hsp & Hi & ->)%table_writes_elem. rewrite Forall_forall in Hrows. split; cbn.
    + apply Hrows. by eapply list_elem_of_lookup_2.
    + exists (sp * width + i)%nat. split; [done|]. rewrite length_replicate. apply lookup_lt_Some in Hi.
      assert (sp * width + i < sp_size * width)%nat by nia. nia.
  - exists flat. rewrite length_replicate in Hl. split_and!; [exact Hf|done|]. intros sp i j blocks v Hsp Hi Hj.
    eapply Hv; [|exact Hj]. apply table_writes_elem. eauto 6.
Qed.

Lemma longest_row_bound rows : Forall (fun r => (length r <= longest_row rows)%nat) rows.
Proof.
  induction rows as [|r rows IH]; constructor; simpl; [lia|]. eapply Forall_impl; [exact IH|]. simpl. intros x ?. lia.
Qed.

(** * Rows and tokens *)

Lemma locate_row (lens : list nat) t :
  (t < sum_list lens)%nat -> exists i n k, lens !! i = Some n /\ (k < n)%nat /\ t = (sum_list (take i lens) + k)%nat.
Proof.
  revert t. induction lens as [|n lens IH]; intros t Ht; simpl in Ht; [lia|]. destruct (decide (t < n)%nat) as [Hlt|Hge].
  - exists 0%nat, n, t. done.
  - destruct (IH (t - n)%nat) as (i & m & k & Hi & Hk & He); [lia|]. exists (S i), m, k. split_and!; [done|done|]. simpl. lia.
Qed.

Lemma replicate_rows_lookup (lens : list Z) (f : nat -> nat) i n k :
  (Z.to_nat <$> lens) !! i = Some n -> (k < n)%nat ->
  concat (imap (fun i len => replicate (Z.to_nat len) (f i)) lens) !! (sum_list (take i (Z.to_nat <$> lens)) + k)%nat = Some (f i).
Proof.
  revert f i. induction lens as [|l lens IH]; intros f i Hi Hk; [done|]. rewrite imap_cons. cbn [concat]. destruct i as [|i]; csimpl in *.
  - injection Hi as <-. rewrite lookup_app_l by (rewrite length_replicate; lia). by apply lookup_replicate_2.
  - rewrite <- Nat.add_assoc, lookup_app_r by (rewrite length_replicate; lia). rewrite length_replicate.
    replace (Z.to_nat l + (sum_list (take i (Z.to_nat <$> lens)) + k) - Z.to_nat l)%nat with (sum_list (take i (Z.to_nat <$> lens)) + k)%nat by lia.
    apply (IH (f ∘ S) i Hi Hk).
Qed.

Lemma token_rows_at b i n k :
  row_lens b !! i = Some n -> (k < n)%nat -> token_rows (seq_lens b) !! (row_start b i + k)%nat = Some i.
Proof. apply (replicate_rows_lookup (seq_lens b) id). Qed.

Lemma token_slot_spec bs nb table idx pos blk :
  (0 < bs)%nat -> 0 <= pos -> table !! Z.to_nat (pos / Z.of_nat bs) = Some blk -> 0 <= blk < nb -> nb * Z.of_nat bs < 2 ^ 31 ->
  token_slot bs table idx pos = blk * Z.of_nat bs + pos mod Z.of_nat bs.
Proof.
  intros Hbs Hpos Ht Hblk Hnb. unfold token_slot. rewrite (Z.max_r 1 (Z.of_nat bs)) by lia. rewrite Z.quot_div_nonneg, Z.rem_mod_nonneg by lia.
  pose proof (Z.div_pos pos (Z.of_nat bs) Hpos ltac:(lia)). rewrite Z.max_r, Ht by lia.
  pose proof (Z.mod_pos_bound pos (Z.of_nat bs) ltac:(lia)). rewrite (wrap32_small (Z.of_nat bs)), (wrap32_small (pos mod _)) by nia.
  rewrite (wrap32_small (blk * _)) by nia. apply wrap32_small. nia.
Qed.

Definition sum_Z (l : list Z) : Z := foldr Z.add 0 l.

Lemma sum_Z_app l1 l2 : sum_Z (l1 ++ l2) = sum_Z l1 + sum_Z l2.
Proof. unfold sum_Z. induction l1 as [|x l1 IH]; simpl; [done|]. rewrite IH. lia. Qed.

Lemma sum_Z_take_le l n : Forall (fun x => 0 <= x) l -> 0 <= sum_Z (take n l) <= sum_Z l.
Proof.
  intros H. rewrite <- (take_drop n l) at 3. rewrite sum_Z_app.
  assert (forall k, Forall (fun x => 0 <= x) k -> 0 <= sum_Z k) as Hp by (induction 1; simpl; unfold sum_Z in *; simpl; lia).
  pose proof (Hp _ (Forall_take _ n _ H)). pose proof (Hp _ (Forall_drop _ n _ H)). lia.
Qed.

(** * A batch as the scheduler lays it out *)

(** Row [i] feeds the tokens from position [starts\[i\]] on. *)
Section paged.
Context (b : WireBatch) (bs : nat) (nb : Z) (starts : list Z).

(** Token [k] of row [i] is at position [pos]. *)
Definition token_at (i k : nat) (pos : Z) : Prop :=
  exists s n, starts !! i = Some s /\ row_lens b !! i = Some n /\ (k < n)%nat /\ pos = s + Z.of_nat k.

Definition page_of (i : nat) (pos blk : Z) : Prop :=
  exists table, block_tables b !! i = Some table /\ table !! Z.to_nat (pos / Z.of_nat bs) = Some blk.

(** The end of every row in the sequence it continues; 0 for a row without tokens. *)
Definition key_ends : list Z := zip_with (fun s len => if decide (0 < len) then s + len else 0) starts (seq_lens b).

(** Positions follow one another; every token has a page, and a page that is written belongs
    to one row and one place in its table (prefixes that are only read may be shared). *)
Record paged : Prop := {
  pg_wf : wf_prefill b;
  pg_block_size : (0 < bs)%nat;
  pg_starts : length starts = length (seq_lens b);
  pg_tables : length (block_tables b) = length (seq_lens b);
  pg_nonneg : Forall (fun s => 0 <= s) starts;
  pg_positions i k pos : token_at i k pos -> positions b !! (row_start b i + k)%nat = Some pos;
  pg_pages i k pos : token_at i k pos -> exists blk, page_of i pos blk /\ 0 <= blk < nb;
  pg_owned i j k k' pos pos' blk : token_at i k pos -> token_at j k' pos' -> page_of i pos blk -> page_of j pos' blk ->
    i = j /\ pos / Z.of_nat bs = pos' / Z.of_nat bs;
  pg_slots : nb * Z.of_nat bs < 2 ^ 31;
  pg_tokens : Z.of_nat (length (input_ids b)) < 2 ^ 31;
  pg_keys : sum_Z key_ends < 2 ^ 31
}.
End paged.

(** The slot of a token. *)
Definition slot_at (bs : nat) (blk pos : Z) : Z := blk * Z.of_nat bs + pos mod Z.of_nat bs.

Section paged_facts.
Context (b : WireBatch) (bs : nat) (nb : Z) (starts : list Z).
Hypothesis Hpg : paged b bs nb starts.

(** A row with tokens whose mask is set. *)
Definition sampled (i : nat) : bool := bool_decide (row_start b i < row_end b i)%nat && default true (sample_mask b !! i).

Lemma key_ends_nonneg : Forall (fun x => 0 <= x) (key_ends b starts).
Proof.
  apply Forall_lookup. intros i x Hx. unfold key_ends in Hx. apply lookup_zip_with_Some in Hx as (s & len & -> & Hs & _).
  pose proof (Forall_lookup_1 _ _ _ _ (pg_nonneg _ _ _ _ Hpg) Hs). simpl in *. case_decide; lia.
Qed.

(** The state of the row loop after [n] rows. *)
Lemma row_loop_spec n :
  (n <= length (seq_lens b))%nat ->
  let s := row_loop b (take n (rows_of b)) first_row in
  total_q s = Z.of_nat (row_start b n) /\ total_k s = sum_Z (take n (key_ends b starts)) /\
  cu_q s = (fun i => Z.of_nat (row_start b i)) <$> seq 0 (S n) /\
  cu_k s = (fun i => sum_Z (take i (key_ends b starts))) <$> seq 0 (S n) /\
  token_indices s = (fun i => Z.of_nat (row_end b i) - 1) <$> filter (fun i => sampled i = true) (seq 0 n) /\
  seq_indices s = Z.of_nat <$> filter (fun i => sampled i = true) (seq 0 n).
Proof.
  induction n as [|n IH]; intros Hn; [done|]. destruct (lookup_lt_is_Some_2 (seq_lens b) n) as [len Hlen]; [lia|].
  assert (rows_of b !! n = Some (n, len)) as Hrow by (unfold rows_of; rewrite list_lookup_imap, Hlen; done).
  rewrite (take_S_r _ _ _ Hrow). unfold row_loop in *. rewrite foldl_app. cbn [foldl].
  destruct IH as (Hq & Hk & Hcq & Hck & Hti & Hsi); [lia|]. set (s := foldl (row_step b) first_row (take n (rows_of b))) in *.
  pose proof (pg_wf _ _ _ _ Hpg) as [_ _ Hsum _ _ _].
  assert (row_lens b !! n = Some (Z.to_nat len)) as Hrl by (unfold row_lens; rewrite list_lookup_fmap, Hlen; done).
  pose proof (row_end_next b _ _ Hrl) as Hend. change (row_end b n) with (row_start b (S n)) in Hend.
  assert (row_start b (S n) <= length (input_ids b))%nat as Hle by (rewrite <- Hsum; apply sum_list_take_le).
  pose proof (pg_tokens _ _ _ _ Hpg) as Htok.
  destruct (lookup_lt_is_Some_2 starts n) as [st Hst]; [rewrite (pg_starts _ _ _ _ Hpg); lia|].
  assert (key_ends b starts !! n = Some (if decide (0 < len) then st + len else 0)) as Hke.
  { unfold key_ends. apply lookup_zip_with_Some. eauto. }
  pose proof (sum_Z_take_le (key_ends b starts) (S n) key_ends_nonneg) as Hkb. pose proof (pg_keys _ _ _ _ Hpg) as Hkeys.
  pose proof (sum_Z_take_le (key_ends b starts) n key_ends_nonneg) as Hkb'.
  assert (0 <= st) as Hst0 by apply (Forall_lookup_1 _ _ _ _ (pg_nonneg _ _ _ _ Hpg) Hst).
  assert (sum_Z (take (S n) (key_ends b starts)) = sum_Z (take n (key_ends b starts)) + (if decide (0 < len) then st + len else 0)) as Hsk.
  { rewrite (take_S_r _ _ _ Hke), sum_Z_app. unfold sum_Z at 2. simpl. lia. }
  assert (wrap32 (total_q s + Z.max 0 len) = Z.of_nat (row_start b (S n))) as Htq by (rewrite Hq, wrap32_small; lia).
  assert (bool_decide (0 < len) = bool_decide (row_start b n < row_end b n)%nat) as Hbd.
  { apply bool_decide_ext. change (row_end b n) with (row_start b (S n)). lia. }
  unfold row_step. rewrite !Htq, Hbd, Hsk.
  set (pos_end := if decide (0 < Z.max 0 len) then _ else 0).
  assert (pos_end = if decide (0 < len) then st + len else 0) as ->.
  { unfold pos_end. destruct (decide (0 < len)) as [Hp|Hp]; [|rewrite decide_False by lia; done]. rewrite !decide_True by lia.
    replace (Z.to_nat (Z.of_nat (row_start b (S n)) - 1)) with (row_start b n + (Z.to_nat len - 1))%nat by lia.
    rewrite (pg_positions _ _ _ _ Hpg n (Z.to_nat len - 1) (st + (len - 1))) by (exists st, (Z.to_nat len); split_and!; [done|done|lia|lia]).
    rewrite Hsk in Hkb. unfold saturate64. rewrite Z.max_r, Z.min_r by lia. rewrite Z.max_r, wrap32_small by lia. lia. }
  rewrite Hk. assert (forall z, 0 <= z < 2 ^ 31 -> wrap32 z = z) as Hw by (intros; apply wrap32_small; lia).
  rewrite Hw by lia. cbn [total_q total_k cu_q cu_k token_indices seq_indices].
  change (bool_decide (row_start b n < row_end b n)%nat && default true (sample_mask b !! n)) with (sampled n).
  rewrite (seq_S (S n)), !fmap_app, Hcq, Hck. cbn [fmap list_fmap Nat.add]. rewrite Hsk.
  rewrite (seq_S n 0), filter_app, filter_cons. cbn [Nat.add].
  split_and!; [done|done|done|done|..]; destruct (sampled n) eqn:Hsn; cbn [decide decide_rel];
    rewrite fmap_app, ?Hti, ?Hsi; cbn; rewrite ?app_nil_r; done.
Qed.
Lemma prefill_slots_at i k pos blk :
  token_at b starts i k pos -> page_of b bs i pos blk -> prefill_slots bs b !! (row_start b i + k)%nat = Some (slot_at bs blk pos).
Proof.
  intros Ht Hb. unfold prefill_slots. rewrite list_lookup_imap, (pg_positions _ _ _ _ Hpg _ _ _ Ht). cbn.
  pose proof Ht as (s & n & Hs & Hn & Hk & Hp). rewrite (token_rows_at b i n k Hn Hk). cbn.
  destruct Hb as (table & Htab & Hblk). rewrite Htab. cbn. f_equal. unfold slot_at.
  destruct (pg_pages _ _ _ _ Hpg _ _ _ Ht) as (blk' & (table' & Htab' & Hblk') & Hr). simplify_eq.
  pose proof (Forall_lookup_1 _ _ _ _ (pg_nonneg _ _ _ _ Hpg) Hs). simpl in *.
  eapply token_slot_spec; [apply Hpg|lia|done|done|apply Hpg].
Qed.

Lemma token_of_index t : (t < length (input_ids b))%nat -> exists i k pos, t = (row_start b i + k)%nat /\ token_at b starts i k pos.
Proof.
  intros Ht. pose proof (pg_wf _ _ _ _ Hpg) as [_ _ Hsum _ _ _]. rewrite <- Hsum in Ht.
  destruct (locate_row _ _ Ht) as (i & n & k & Hi & Hk & ->). assert (i < length starts)%nat as Hl.
  { rewrite (pg_starts _ _ _ _ Hpg). apply lookup_lt_Some in Hi. unfold row_lens in Hi. by rewrite length_fmap in Hi. }
  destruct (lookup_lt_is_Some_2 _ _ Hl) as [s Hs]. exists i, k, (s + Z.of_nat k). split; [done|]. by exists s, n.
Qed.

Lemma length_prefill_slots : length (prefill_slots bs b) = length (input_ids b).
Proof. unfold prefill_slots. rewrite length_imap. apply Hpg. Qed.

(** Every slot is that of a token. *)
Lemma prefill_slot_token t slot :
  prefill_slots bs b !! t = Some slot ->
  exists i k pos blk, t = (row_start b i + k)%nat /\ token_at b starts i k pos /\ page_of b bs i pos blk /\ 0 <= blk < nb /\ slot = slot_at bs blk pos.
Proof.
  intros Hs. destruct (token_of_index t) as (i & k & pos & -> & Ht); [rewrite <- length_prefill_slots; by eapply lookup_lt_Some|].
  destruct (pg_pages _ _ _ _ Hpg _ _ _ Ht) as (blk & Hb & Hr). rewrite (prefill_slots_at _ _ _ _ Ht Hb) in Hs. injection Hs as <-.
  exists i, k, pos, blk. done.
Qed.

Lemma slot_at_inj blk pos blk' pos' :
  slot_at bs blk pos = slot_at bs blk' pos' -> blk = blk' /\ pos mod Z.of_nat bs = pos' mod Z.of_nat bs.
Proof.
  pose proof (pg_block_size _ _ _ _ Hpg). unfold slot_at. intros He.
  pose proof (Z.mod_pos_bound pos (Z.of_nat bs) ltac:(lia)). pose proof (Z.mod_pos_bound pos' (Z.of_nat bs) ltac:(lia)).
  assert (blk = blk') by nia. subst. split; [done|]. nia.
Qed.

Lemma prefill_slots_NoDup : NoDup (prefill_slots bs b).
Proof.
  apply NoDup_alt. intros t t' slot H1 H2. pose proof (pg_block_size _ _ _ _ Hpg).
  destruct (prefill_slot_token _ _ H1) as (i & k & pos & blk & -> & Ht & Hb & _ & He).
  destruct (prefill_slot_token _ _ H2) as (j & k' & pos' & blk' & -> & Ht' & Hb' & _ & He').
  rewrite He in He'. apply slot_at_inj in He' as [-> Hmod]. destruct (pg_owned _ _ _ _ Hpg _ _ _ _ _ _ _ Ht Ht' Hb Hb') as [-> Hdiv].
  assert (pos = pos') as -> by (rewrite (Z.div_mod pos (Z.of_nat bs)), (Z.div_mod pos' (Z.of_nat bs)) by lia; congruence).
  destruct Ht as (s & n & Hs & _ & _ & ->), Ht' as (s' & n' & Hs' & _ & _ & He'). simplify_eq. f_equal. lia.
Qed.

Lemma prefill_slots_bounded : Forall (fun s => 0 <= s < nb * Z.of_nat bs) (prefill_slots bs b).
Proof.
  apply Forall_lookup. intros t slot Hs. destruct (prefill_slot_token _ _ Hs) as (i & k & pos & blk & _ & _ & _ & Hr & ->).
  pose proof (pg_block_size _ _ _ _ Hpg). pose proof (Z.mod_pos_bound pos (Z.of_nat bs) ltac:(lia)). unfold slot_at. nia.
Qed.
End paged_facts.

Lemma filter_full {A} (P : A -> Prop) `{!∀ x, Decision (P x)} (l : list A) :
  (length l <= length (filter P l))%nat -> filter P l = l.
Proof.
  induction l as [|x l IH]; [done|]. rewrite filter_cons. pose proof (length_filter P l). destruct (decide (P x)); simpl; intros Hl; [|lia].
  f_equal. apply IH. lia.
Qed.

(** The rows of hidden states that [ParallelLMHead.forward] projects, of [n] rows. *)
Definition lm_head_rows (ctx : BatchContext) (n : nat) : option (list Z) :=
  if bc_is_prefill ctx then
    match bc_sampling_token_indices ctx with
    | Some l => Some l
    | None => (fun cu => (fun e => e - 1) <$> drop 1 cu) <$> bc_cu_seqlens_q ctx
    end
  else Some (Z.of_nat <$> seq 0 n).

(** A context for the forward pass of a paged batch. *)
Record prefill_ready (b : WireBatch) (bs width sp_size : nat) (nb : Z) (starts : list Z) (ctx : BatchContext) : Prop := {
  (** Every token has a slot of its own, the one its block table names. *)
  pr_slots : exists slots, bc_slot_mapping ctx = Some slots /\ length slots = length (input_ids b) /\ NoDup slots /\
    Forall (fun s => 0 <= s < nb * Z.of_nat bs) slots /\
    forall i k pos blk, token_at b starts i k pos -> page_of b bs i pos blk -> slots !! (row_start b i + k)%nat = Some (slot_at bs blk pos);
  (** Attention finds the same pages: the table of row [i] in every sequence-parallel part. *)
  pr_tables : exists t mb, bc_block_tables ctx = Some t /\ it_shape t = [sp_size; width; mb] /\
    forall sp i table j v, (sp < sp_size)%nat -> block_tables b !! i = Some table -> table !! j = Some v ->
      it_data t !! ((sp * width + i) * mb + j)%nat = Some v;
  (** Row boundaries of queries and keys. *)
  pr_cu_q : bc_cu_seqlens_q ctx = Some ((fun i => Z.of_nat (row_start b i)) <$> seq 0 (S (length (seq_lens b))));
  pr_cu_k : bc_cu_seqlens_k ctx = Some ((fun i => sum_Z (take i (key_ends b starts))) <$> seq 0 (S (length (seq_lens b))));
  (** Logits are computed for the last token of every row that is to be sampled. *)
  pr_logits : lm_head_rows ctx (length (input_ids b)) =
    Some ((fun i => Z.of_nat (row_end b i) - 1) <$> filter (fun i => sampled b i = true) (seq 0 (length (seq_lens b))));
  pr_rows : forall l, bc_sampling_seq_indices ctx = Some l -> l = Z.of_nat <$> filter (fun i => sampled b i = true) (seq 0 (length (seq_lens b)))
}.

Lemma prefill_meta_spec b bs nb starts sp_size width :
  paged b bs nb starts -> (length (seq_lens b) <= width)%nat -> (0 < sp_size)%nat -> (0 < length (input_ids b))%nat ->
  exists flat, runner_in_prefill b sp_size bs width =
    Ok (mk_prefill_meta (input_ids b) (positions b)
          ((fun i => Z.of_nat (row_start b i)) <$> seq 0 (S (length (seq_lens b))))
          ((fun i => sum_Z (take i (key_ends b starts))) <$> seq 0 (S (length (seq_lens b))))
          (prefill_slots bs b) true flat (longest_row (block_tables b))
          (max_len_q (row_loop b (rows_of b) first_row)) (max_len_k (row_loop b (rows_of b) first_row))
          ((fun i => Z.of_nat (row_end b i) - 1) <$> filter (fun i => sampled b i = true) (seq 0 (length (seq_lens b))))
          (Z.of_nat <$> filter (fun i => sampled b i = true) (seq 0 (length (seq_lens b))))) /\
    length flat = (sp_size * width * longest_row (block_tables b))%nat /\
    forall sp i table j v, (sp < sp_size)%nat -> (i < width)%nat -> block_tables b !! i = Some table -> table !! j = Some v ->
      flat !! ((sp * width + i) * longest_row (block_tables b) + j)%nat = Some v.
Proof.
  intros Hpg Hw Hsp Htok. pose proof (pg_wf _ _ _ _ Hpg) as [Hp Hd _ _ _ _].
  destruct (token_of_index b bs nb starts Hpg 0 Htok) as (i0 & k0 & p0 & _ & Ht0).
  destruct (pg_pages _ _ _ _ Hpg _ _ _ Ht0) as (blk0 & (tab0 & Htab0 & Hblk0) & _).
  pose proof (longest_row_bound (block_tables b)) as Hlong. rewrite Forall_forall in Hlong.
  assert (0 < longest_row (block_tables b))%nat as Hmb.
  { apply lookup_lt_Some in Hblk0. pose proof (Hlong _ (list_elem_of_lookup_2 _ _ _ Htab0)). lia. }
  assert (i0 < length (seq_lens b))%nat as Hi0.
  { destruct Ht0 as (s & n & _ & Hn & _ & _). apply lookup_lt_Some in Hn. unfold row_lens in Hn. by rewrite length_fmap in Hn. }
  destruct (fill_tables_spec sp_size width (longest_row (block_tables b)) (take width (block_tables b))) as (flat & Hf & Hl & Hv);
    [rewrite length_take; lia|done|apply Forall_take, Forall_forall; done|].
  exists flat. unfold runner_in_prefill. rewrite decide_True by done. rewrite (Nat.max_l width 1) by lia. rewrite Hf, Hd. cbn [mbind result_bind].
  pose proof (row_loop_spec b bs nb starts Hpg (length (seq_lens b)) (Nat.le_refl _)) as Hr. cbv zeta in Hr.
  rewrite take_ge in Hr by (unfold rows_of; rewrite length_imap; lia). destruct Hr as (_ & _ & -> & -> & -> & ->).
  split_and!; [|done|].
  - rewrite (bool_decide_eq_false_2 (flat = [])); [done|]. intros ->. cbn in Hl. assert (0 < sp_size * width * longest_row (block_tables b))%nat by (repeat apply Nat.mul_pos_pos; lia). lia.
  - intros sp i table j v Hsp' Hi Ht Hj. eapply Hv; [done| |exact Hj]. rewrite lookup_take_lt by done. done.
Qed.

(** C13. A prefill batch is paged soundly: when every token has a page of its own row, the
    prepared batch gives every token the slot its block table names, no two tokens share a
    slot and none leaves the cache; the tables handed to attention name the same pages, the
    boundaries are those of the rows, and logits are computed for exactly the rows that are
    to be sampled. *)
Theorem prefill_tokens_paged p c sp_size b x nb starts :
  paged b (pc_block_size p) nb starts -> (length (seq_lens b) <= pc_max_num_seqs p)%nat -> (0 < sp_size)%nat ->
  (0 < length (input_ids b))%nat ->
  exists ctx x', prepare_prefill p c sp_size b false x = Ok (input_ids b, positions b, ctx, x') /\
    prefill_ready b (pc_block_size p) (pc_max_num_seqs p) sp_size nb starts ctx.
Proof.
  intros Hpg Hw Hsp Htok. destruct (prefill_meta_spec b _ nb starts sp_size _ Hpg Hw Hsp Htok) as (flat & Hm & Hl & Hv).
  unfold prepare_prefill. rewrite Hm. cbn [mbind result_bind pm_use_block_tables pm_max_num_blocks pm_block_tables_flat]. unfold reshape.
  rewrite decide_True by (cbn; rewrite Hl; lia). cbn [mbind result_bind]. eexists _, _. split; [done|].
  set (ti := (fun i => Z.of_nat (row_end b i) - 1) <$> _) in *. split; cbn.
  - exists (prefill_slots (pc_block_size p) b). split; [done|]. split_and!;
      [by eapply length_prefill_slots|by eapply prefill_slots_NoDup|by eapply prefill_slots_bounded|]. intros. by eapply prefill_slots_at.
  - eexists _, _. split; [done|]. split; [done|]. cbn. intros sp i table j v Hsp' Ht Hj. eapply Hv; [done| |done|done].
    apply lookup_lt_Some in Ht. rewrite (pg_tables _ _ _ _ Hpg) in Ht. lia.
  - done.
  - done.
  - unfold lm_head_rows. cbn. unfold ti. rewrite length_fmap. case_bool_decide as Hsel; [done|].
    rewrite filter_full by (rewrite length_seq; lia). f_equal. rewrite drop_0, <- fmap_S_seq, <- !list_fmap_compose. done.
  - intros l. case_bool_decide; [by intros [= <-]|done].
Qed.

(** * Microbatches *)

Lemma length_concat_sum {A} (ls : list (list A)) : length (concat ls) = sum_list (length <$> ls).
Proof. induction ls as [|l ls IH]; csimpl; [done|]. by rewrite length_app, IH. Qed.

Lemma concat_lookup {A} (ls : list (list A)) r l k :
  ls !! r = Some l -> (k < length l)%nat -> concat ls !! (sum_list (take r (length <$> ls)) + k)%nat = l !! k.
Proof.
  revert r. induction ls as [|l0 ls IH]; intros r Hr Hk; [done|]. destruct r as [|r]; csimpl in *.
  - injection Hr as ->. by rewrite lookup_app_l.
  - rewrite lookup_app_r by lia. rewrite <- Nat.add_assoc, Nat.add_comm, Nat.add_sub. by apply IH.
Qed.

Definition within_row (b : WireBatch) (c : nat * nat * nat) : Prop :=
  let '(i, s, e) := c in (row_start b i <= s)%nat /\ (s < e)%nat /\ (e <= row_end b i)%nat /\ (i < length (row_lens b))%nat.

Lemma row_cuts_within i s e cuts :
  row_cuts i s e cuts -> Forall (fun c : nat * nat * nat => let '(j, a, z) := c in j = i /\ (s <= a)%nat /\ (a < z)%nat /\ (z <= e)%nat) cuts.
Proof.
  induction 1 as [|s m e cuts Hm Hc IH]; constructor; [pose proof (row_cuts_le _ _ _ _ Hc); lia|].
  eapply Forall_impl; [exact IH|]. intros [[j a] z] (-> & ? & ? & ?). split_and!; lia.
Qed.

Lemma all_cuts_within b i lens cuts :
  all_cuts b i lens cuts -> (i + length lens <= length (row_lens b))%nat -> Forall (within_row b) cuts.
Proof.
  induction 1 as [|i l lens cuts cuts' Hc _ IH]; intros Hl; [constructor|]. simpl in Hl. apply Forall_app. split; [|apply IH; lia].
  eapply Forall_impl; [by eapply row_cuts_within|]. intros [[j a] z] (-> & ? & ? & ?). unfold within_row. split_and!; lia.
Qed.

Section microbatches.
Context (b : WireBatch) (bs : nat) (nb : Z) (starts : list Z).
Hypothesis Hpg : paged b bs nb starts.

Lemma cut_len {A} (v : list A) cuts :
  length v = length (input_ids b) -> Forall (within_row b) cuts ->
  length <$> (span v <$> cuts) = (fun c : nat * nat * nat => (snd c - snd (fst c))%nat) <$> cuts.
Proof.
  intros Hv Hc. rewrite <- list_fmap_compose. apply list_fmap_ext. intros r [[i s] e] Hr. cbn.
  pose proof (Forall_lookup_1 _ _ _ _ Hc Hr) as (? & ? & ? & ?). rewrite length_take, length_drop, Hv.
  pose proof (pg_wf _ _ _ _ Hpg) as [_ _ Hsum _ _ _]. pose proof (sum_list_take_le (row_lens b) (S i)).
  unfold row_end in *. lia.
Qed.

Lemma span_at {A} (v : list A) cuts r i s e k :
  length v = length (input_ids b) -> Forall (within_row b) cuts -> cuts !! r = Some (i, s, e) -> (k < e - s)%nat ->
  concat (span v <$> cuts) !! (sum_list (take r ((fun c : nat * nat * nat => (snd c - snd (fst c))%nat) <$> cuts)) + k)%nat = v !! (s + k)%nat.
Proof.
  intros Hv Hc Hr Hk. rewrite <- (cut_len v cuts Hv Hc). rewrite (concat_lookup _ r (span v (i, s, e))); [|by rewrite list_lookup_fmap, Hr|].
  - cbn. rewrite lookup_take_lt by lia. by rewrite lookup_drop.
  - pose proof (cut_len v [(i, s, e)] Hv ltac:(constructor; [by eapply Forall_lookup_1|constructor])) as Hl. cbn in Hl. injection Hl as Hl. cbn. lia.
Qed.

Lemma describes_lens m md cuts :
  describes b m md cuts -> row_lens m = (fun c : nat * nat * nat => (snd c - snd (fst c))%nat) <$> cuts.
Proof.
  intros Hd. unfold row_lens. rewrite (de_seq_lens _ _ _ _ Hd), <- list_fmap_compose. apply list_fmap_ext. intros r [[i s] e] _. cbn. lia.
Qed.

(** A token of a fragment is a token of its row. *)
Lemma cut_token i s e k :
  within_row b (i, s, e) -> (k < e - s)%nat ->
  exists pos blk, token_at b starts i (s - row_start b i + k) pos /\ page_of b bs i pos blk /\ 0 <= blk < nb /\ 0 <= pos /\
    positions b !! (s + k)%nat = Some pos /\ prefill_slots bs b !! (s + k)%nat = Some (slot_at bs blk pos).
Proof.
  intros (Hs1 & Hs2 & Hs3 & Hi) Hk. destruct (lookup_lt_is_Some_2 (row_lens b) i Hi) as [len Hlen]. pose proof (row_end_next b i len Hlen).
  assert (i < length starts)%nat as Hst by (rewrite (pg_starts _ _ _ _ Hpg); unfold row_lens in Hi; by rewrite length_fmap in Hi).
  destruct (lookup_lt_is_Some_2 _ _ Hst) as [st Hst'].
  assert (token_at b starts i (s - row_start b i + k) (st + Z.of_nat (s - row_start b i + k))) as Htok.
  { exists st, len. split_and!; [done|done|lia|done]. }
  destruct (pg_pages _ _ _ _ Hpg _ _ _ Htok) as (blk & Hblk & Hrng). exists (st + Z.of_nat (s - row_start b i + k)), blk.
  pose proof (Forall_lookup_1 _ _ _ _ (pg_nonneg _ _ _ _ Hpg) Hst'). simpl in *.
  replace (s + k)%nat with (row_start b i + (s - row_start b i + k))%nat by lia.
  split_and!; [done|done|lia|lia|lia|by apply (pg_positions _ _ _ _ Hpg)|by eapply prefill_slots_at].
Qed.

(** The slots of a microbatch are those of its fragments in the whole batch. *)
Lemma describes_slots m md cuts :
  describes b m md cuts -> Forall (within_row b) cuts -> prefill_slots bs m = concat (span (prefill_slots bs b) <$> cuts).
Proof.
  intros Hd Hc. pose proof (pg_wf _ _ _ _ Hpg) as [_ _ Hsum Hpos _ _].
  pose proof (length_prefill_slots b bs nb starts Hpg) as Hls. pose proof (describes_lens _ _ _ Hd) as Hlens.
  apply list_eq_same_length with (sum_list (row_lens m)).
  - rewrite length_concat_sum, (cut_len _ _ Hls Hc), Hlens. done.
  - unfold prefill_slots. rewrite length_imap, (de_positions _ _ _ _ Hd), length_concat_sum, (cut_len _ _ Hpos Hc), Hlens. done.
  - intros t x y Ht Hx Hy. destruct (locate_row _ _ Ht) as (r & n & k & Hn & Hk & ->).
    assert (exists i s e, cuts !! r = Some (i, s, e) /\ n = (e - s)%nat) as (i & s & e & Hr & ->).
    { rewrite Hlens, list_lookup_fmap in Hn. destruct (cuts !! r) as [[[i s] e]|]; [|done]. injection Hn as <-. by exists i, s, e. }
    rewrite Hlens, (span_at _ _ _ _ _ _ _ Hls Hc Hr Hk) in Hy.
    destruct (cut_token i s e k) as (pos & blk & Htok & (table & Htab & Hpage) & Hblk & H0 & Hp & Hs);
      [apply (Forall_lookup_1 _ _ _ _ Hc Hr)|done|]. rewrite Hs in Hy. injection Hy as <-.
    unfold prefill_slots in Hx. fold (row_start m r) in Hx. rewrite list_lookup_imap, (token_rows_at m r (e - s) k Hn Hk) in Hx.
    cbn in Hx. rewrite (de_block_tables _ _ _ _ Hd), list_lookup_fmap, Hr in Hx. cbn in Hx. rewrite Htab in Hx. cbn in Hx.
    unfold row_start in Hx. rewrite (de_positions _ _ _ _ Hd), Hlens, (span_at _ _ _ _ _ _ _ Hpos Hc Hr Hk), Hp in Hx. injection Hx as <-.
    eapply token_slot_spec; [apply Hpg|done|exact Hpage|exact Hblk|apply Hpg].
Qed.
End microbatches.

(** Dividing a prefill batch into pipeline microbatches changes neither what is computed
    nor where it is stored: the tokens, positions and cache slots prepared for the
    microbatches, in order, are those prepared for the whole batch. *)
Theorem microbatches_prepared_alike b bs nb starts max_tokens :
  paged b bs nb starts -> (0 < max_tokens)%nat -> (0 < length (input_ids b))%nat ->
  exists fs, prefill_microbatches max_tokens b = Ok fs /\
    concat ((fun f => input_ids (fst f)) <$> fs) = input_ids b /\
    concat ((fun f => positions (fst f)) <$> fs) = positions b /\
    concat ((fun f => prefill_slots bs (fst f)) <$> fs) = prefill_slots bs b.
Proof.
  intros Hpg Hmax Htok. pose proof (pg_wf _ _ _ _ Hpg) as Hwf. pose proof Hwf as [_ _ Hsum Hpos _ _].
  destruct (prefill_microbatches_spec b max_tokens Hwf Hmax Htok) as (fs & cutss & Hfs & Hde & _ & _ & Hall & _).
  exists fs. split; [done|].
  assert (Forall (within_row b) (concat cutss)) as Hwi by (by eapply (all_cuts_within b 0)).
  enough (concat ((fun f => input_ids (fst f)) <$> fs) = concat (span (input_ids b) <$> concat cutss) /\
          concat ((fun f => positions (fst f)) <$> fs) = concat (span (positions b) <$> concat cutss) /\
          concat ((fun f => prefill_slots bs (fst f)) <$> fs) = concat (span (prefill_slots bs b) <$> concat cutss)) as (-> & -> & ->).
  { rewrite !(all_cuts_span b _ _ _ _ Hall); rewrite ?Hsum, ?Hpos; try done. by rewrite (length_prefill_slots b bs nb starts Hpg). }
  clear -Hde Hwi Hpg. induction Hde as [|f cs fs cutss Hd _ IH]; [done|]. simpl in Hwi. apply Forall_app in Hwi as [Hw1 Hw2].
  destruct (IH Hw2) as (E1 & E2 & E3). csimpl. rewrite E1, E2, E3, !fmap_app, !concat_app.
  rewrite (de_input_ids _ _ _ _ Hd), (de_positions _ _ _ _ Hd), (describes_slots b bs nb starts Hpg _ _ _ Hd Hw1). done.
Qed.

(** * Decode *)

(** One token per row, at a position its block table covers, on a page no other row writes. *)
Record paged_decode (b : WireBatch) (bs : nat) (nb : Z) : Prop := {
  pd_not_dummy : is_dummy b = false;
  pd_block_size : (0 < bs)%nat;
  pd_positions : length (positions b) = length (seq_lens b);
  pd_tables : length (block_tables b) = length (seq_lens b);
  pd_range : Forall (fun p => 0 <= p < 2 ^ 31 - 1) (positions b);
  pd_pages i pos : positions b !! i = Some pos -> exists blk, page_of b bs i pos blk /\ 0 <= blk < nb;
  pd_owned i j pos pos' blk : positions b !! i = Some pos -> positions b !! j = Some pos' ->
    page_of b bs i pos blk -> page_of b bs j pos' blk -> i = j;
  pd_slots : nb * Z.of_nat bs < 2 ^ 31
}.

(** A context for the forward pass of one token per row. *)
Record decode_ready (b : WireBatch) (bs width sp_size : nat) (nb : Z) (ctx : BatchContext) : Prop := {
  dr_slots : exists slots, bc_slot_mapping ctx = Some slots /\ length slots = length (seq_lens b) /\ NoDup slots /\
    Forall (fun s => 0 <= s < nb * Z.of_nat bs) slots /\
    forall i pos blk, positions b !! i = Some pos -> page_of b bs i pos blk -> slots !! i = Some (slot_at bs blk pos);
  (** The lengths attention reads include the new token. *)
  dr_lens : exists t, bc_context_lens ctx = Some t /\ it_shape t = [sp_size; width] /\
    forall i pos, positions b !! i = Some pos -> it_data t !! i = Some (pos + 1);
  (** The plan key counts the pages of every row: all before the last are full. *)
  dr_pages : exists key, bc_decode_page_plan_key ctx = Some key /\ length key = length (seq_lens b) /\
    forall i n pos, key !! i = Some n -> positions b !! i = Some pos -> (n - 1) * Z.of_nat bs < pos + 1 <= n * Z.of_nat bs;
  dr_tables : exists t mb, bc_block_tables ctx = Some t /\ it_shape t = [sp_size; length (seq_lens b); mb] /\
    forall sp i table j v, (sp < sp_size)%nat -> block_tables b !! i = Some table -> table !! j = Some v ->
      it_data t !! ((sp * length (seq_lens b) + i) * mb + j)%nat = Some v
}.

Section decode_facts.
Context (b : WireBatch) (bs : nat) (nb : Z).
Hypothesis Hpd : paged_decode b bs nb.

Lemma decode_slots_at i pos blk :
  positions b !! i = Some pos -> page_of b bs i pos blk -> decode_slots bs b !! i = Some (slot_at bs blk pos).
Proof.
  intros Hp (table & Ht & Hblk). unfold decode_slots. rewrite list_lookup_imap, Hp. cbn. rewrite Ht. cbn. f_equal.
  destruct (pd_pages _ _ _ Hpd _ _ Hp) as (blk' & (table' & Ht' & Hblk') & Hr). simplify_eq.
  pose proof (Forall_lookup_1 _ _ _ _ (pd_range _ _ _ Hpd) Hp). simpl in *.
  eapply token_slot_spec; [apply Hpd|lia|done|done|apply Hpd].
Qed.

Lemma decode_slot_token i slot :
  decode_slots bs b !! i = Some slot ->
  exists pos blk, positions b !! i = Some pos /\ page_of b bs i pos blk /\ 0 <= blk < nb /\ slot = slot_at bs blk pos.
Proof.
  intros Hs. destruct (positions b !! i) as [pos|] eqn:Hp; cycle 1.
  { unfold decode_slots in Hs. by rewrite list_lookup_imap, Hp in Hs. }
  destruct (pd_pages _ _ _ Hpd _ _ Hp) as (blk & Hb & Hr). rewrite (decode_slots_at _ _ _ Hp Hb) in Hs. injection Hs as <-. by exists pos, blk.
Qed.

Lemma slot_at_block (blk pos blk' pos' : Z) : slot_at bs blk pos = slot_at bs blk' pos' -> blk = blk'.
Proof.
  pose proof (pd_block_size _ _ _ Hpd). unfold slot_at. intros He.
  pose proof (Z.mod_pos_bound pos (Z.of_nat bs) ltac:(lia)). pose proof (Z.mod_pos_bound pos' (Z.of_nat bs) ltac:(lia)). nia.
Qed.

Lemma decode_slots_sound : NoDup (decode_slots bs b) /\ Forall (fun s => 0 <= s < nb * Z.of_nat bs) (decode_slots bs b).
Proof.
  pose proof (pd_block_size _ _ _ Hpd). split.
  - apply NoDup_alt. intros i j slot H1 H2. destruct (decode_slot_token _ _ H1) as (pos & blk & Hp & Hb & _ & He).
    destruct (decode_slot_token _ _ H2) as (pos' & blk' & Hp' & Hb' & _ & He'). rewrite He in He'. apply slot_at_block in He' as ->.
    by eapply pd_owned.
  - apply Forall_lookup. intros i slot Hs. destruct (decode_slot_token _ _ Hs) as (pos & blk & _ & _ & Hr & ->).
    pose proof (Z.mod_pos_bound pos (Z.of_nat bs) ltac:(lia)). unfold slot_at. nia.
Qed.

Lemma page_count_spec len n : page_count (Z.of_nat bs) len = Ok n -> (n - 1) * Z.of_nat bs < len <= n * Z.of_nat bs.
Proof.
  pose proof (pd_block_size _ _ _ Hpd). unfold page_count. intros [? ->]%py_floordiv_Ok.
  pose proof (Z.div_mod (len + Z.of_nat bs - 1) (Z.of_nat bs) ltac:(lia)).
  pose proof (Z.mod_pos_bound (len + Z.of_nat bs - 1) (Z.of_nat bs) ltac:(lia)). lia.
Qed.

Lemma page_counts lens : exists key, mapM_r (page_count (Z.of_nat bs)) lens = Ok key.
Proof.
  pose proof (pd_block_size _ _ _ Hpd). induction lens as [|l lens [key IH]]; [by exists []|]. cbn. unfold page_count at 1, py_floordiv.
  rewrite decide_False by lia. rewrite IH. eauto.
Qed.
End decode_facts.

(** Owners are recorded for every slot, as [initialize_mla_hisparse_cache] leaves them. *)
Definition owners_sized (x : HiSparseContext) : Prop :=
  match slot_owner_ids x with Some owners => hs_max_num_seqs x <= zlen owners | None => True end.

Lemma update_owners_total slots ids x :
  owners_sized x -> exists x', update_mla_hisparse_slot_owners slots ids x = Ok x'.
Proof.
  unfold owners_sized, update_mla_hisparse_slot_owners. destruct (slot_owner_ids x) as [owners|]; [|eauto]. intros Hl.
  enough (exists r, foldM_r (update_owner (hs_max_num_seqs x)) (owners, []) (zip slots ids) = Ok r) as [[o ch] ->] by (cbn; eauto).
  generalize (@nil Z) as changed. revert owners Hl. induction (zip slots ids) as [|[s i] l IH]; intros owners Hl changed; [cbn; eauto|].
  cbn [foldM_r update_owner]. destruct (decide (0 <= s < hs_max_num_seqs x)) as [Hs|]; [|by apply IH].
  assert (exists o, py_getitem owners s = Ok o) as [o ->].
  { rewrite <- (Z2Nat.id s), py_getitem_nat by lia. destruct (lookup_lt_is_Some_2 owners (Z.to_nat s)) as [o ->]; [zlen_lia|]. by exists o. }
  cbn [mbind result_bind]. destruct (decide (o <> i)); apply IH; [unfold zlen in *; rewrite length_insert|]; done.
Qed.

Lemma decode_meta_spec b bs nb sp_size width :
  paged_decode b bs nb -> (0 < length (seq_lens b) <= width)%nat -> (0 < sp_size)%nat ->
  exists flat lens, let mb := Nat.max (longest_row (block_tables b)) 1 in
    runner_in_decode b sp_size bs width = Ok (mk_decode_meta (input_ids b) (positions b) (decode_slots bs b) lens flat mb) /\
    length flat = (sp_size * length (seq_lens b) * mb)%nat /\ length lens = (sp_size * width)%nat /\
    (forall i pos, positions b !! i = Some pos -> lens !! i = Some (pos + 1)) /\
    forall sp i table j v, (sp < sp_size)%nat -> block_tables b !! i = Some table -> table !! j = Some v ->
      flat !! ((sp * length (seq_lens b) + i) * mb + j)%nat = Some v.
Proof.
  intros Hpd Hn Hsp. set (mb := Nat.max (longest_row (block_tables b)) 1). set (num := length (seq_lens b)) in *.
  assert (take num (block_tables b) = block_tables b) as Htk by (apply take_ge; rewrite (pd_tables _ _ _ Hpd); lia).
  destruct (fill_tables_spec sp_size num mb (block_tables b)) as (flat & Hf & Hl & Hv);
    [rewrite (pd_tables _ _ _ Hpd); lia|lia|eapply Forall_impl; [apply longest_row_bound|]; intros r ?; cbn in *; lia|].
  set (lens := list_inserts 0 ((fun i => wrap32 (wrap32 (default 0 (positions b !! i)) + 1)) <$> seq 0 num) (replicate (sp_size * width) 0)).
  exists flat, lens. split_and!; [|done|unfold lens; by rewrite length_inserts, length_replicate| |].
  - unfold runner_in_decode. rewrite (pd_not_dummy _ _ _ Hpd). fold num. rewrite (Nat.max_l num 1) by lia. fold mb. rewrite Htk, Hf. cbn [mbind result_bind].
    unfold write_first. rewrite (Nat.min_l num width) by lia. rewrite decide_True by (rewrite length_replicate; nia). done.
  - intros i pos Hp. pose proof (Forall_lookup_1 _ _ _ _ (pd_range _ _ _ Hpd) Hp) as Hr. simpl in Hr.
    pose proof (lookup_lt_Some _ _ _ Hp) as Hi. rewrite (pd_positions _ _ _ Hpd) in Hi. fold num in Hi. unfold lens.
    rewrite list_lookup_inserts; [|rewrite length_fmap, length_seq; lia|rewrite length_replicate; nia].
    rewrite Nat.sub_0_r, list_lookup_fmap, lookup_seq_lt by done. cbn [fmap option_fmap option_map Nat.add]. rewrite Hp. change (default 0 (Some pos)) with pos.
    rewrite (wrap32_small pos), wrap32_small by lia. done.
  - intros. by eapply Hv.
Qed.

(** A decode batch is paged soundly: every row's token goes to the slot its block table
    names, no two rows share a slot; the lengths attention reads count the token, the page
    plan counts the pages up to it, and the tables name the pages of the rows. *)
Theorem decode_tokens_paged p c sp_size b x nb :
  paged_decode b (pc_block_size p) nb -> (0 < length (seq_lens b) <= pc_max_num_seqs p)%nat -> (0 < sp_size)%nat ->
  arch (pc_hf p) <> ""%string -> owners_sized x ->
  exists ctx x', prepare_decode p c sp_size b false x = Ok (input_ids b, positions b, ctx, x') /\
    decode_ready b (pc_block_size p) (pc_max_num_seqs p) sp_size nb ctx.
Proof.
  intros Hpd Hn Hsp Ha Hx. destruct (decode_meta_spec b _ nb sp_size _ Hpd Hn Hsp) as (flat & lens & Hm & Hlf & Hll & Hlens & Htab).
  set (mb := Nat.max (longest_row (block_tables b)) 1) in *. unfold prepare_decode. rewrite Hm.
  cbn [mbind result_bind dm_context_lens_flat dm_positions dm_block_tables_flat dm_max_num_blocks].
  rewrite (reshape_Ok [sp_size; pc_max_num_seqs p] lens) by (rewrite Hll; cbn; nia). cbn [mbind result_bind].
  rewrite take_take, Nat.min_l by lia. destruct (page_counts b (pc_block_size p) nb Hpd (take (length (seq_lens b)) lens)) as [key Hkey].
  rewrite Hkey. cbn [mbind result_bind]. rewrite decide_False by (intros ->; cbn in Hlf; assert (0 < sp_size * length (seq_lens b) * mb)%nat by (repeat apply Nat.mul_pos_pos; lia); lia).
  unfold reshape_infer. rewrite decide_False by lia.
  assert (length flat / (sp_size * mb) = length (seq_lens b))%nat as Hdiv.
  { rewrite Hlf. replace (sp_size * length (seq_lens b) * mb)%nat with (length (seq_lens b) * (sp_size * mb))%nat by lia. apply Nat.div_mul. lia. }
  rewrite Hdiv, reshape_Ok by (rewrite Hlf; cbn; nia). cbn [mbind result_bind].
  assert (exists a l, architectures (pc_hf p) = Some (a :: l)) as (a & l & ->).
  { unfold arch in Ha. destruct (architectures (pc_hf p)) as [[|a l]|]; [done|eauto|done]. }
  cbn [mbind result_bind].
  assert (exists x', (if pc_enable_hisparse p then update_mla_hisparse_slot_owners (raw_hisparse_slots p b) (take (length (seq_lens b)) (wb_seq_ids b)) x else Ok x) = Ok x') as [x' ->].
  { destruct (pc_enable_hisparse p); [by apply update_owners_total|eauto]. }
  cbn [mbind result_bind]. eexists _, _. split; [done|]. destruct (decode_slots_sound b _ nb Hpd) as [Hnd Hbd]. split; cbn.
  - exists (decode_slots (pc_block_size p) b). split_and!; [done| |done|done|].
    + unfold decode_slots. rewrite length_imap. apply Hpd.
    + intros. by eapply decode_slots_at.
  - eexists. split; [done|]. done.
  - exists key. split; [done|]. apply mapM_r_Ok in Hkey. split.
    + rewrite <- (Forall2_length _ _ _ Hkey), length_take. nia.
    + intros i n pos Hi Hp. destruct (Forall2_lookup_r _ _ _ _ _ Hkey Hi) as (len & Hl & Hc).
      apply lookup_take_Some in Hl as [Hl _]. rewrite (Hlens _ _ Hp) in Hl. injection Hl as <-. by eapply page_count_spec.
  - eexists _, _. split; [done|]. split; [done|]. done.
Qed.

(** * Examples *)

(** Two rows: three tokens of a new sequence, and two that continue a cached prefix. *)
Definition two_rows : WireBatch :=
  mk_batch true [10; 11; 12; 20; 21] [0; 1; 2; 4; 5] [3; 2] [[7]; [3; 5]] [0; 0] [0; 1] ∅ [-1; -1] [100; 101] [true; true] false false.

Definition small_config : PrepConfig := mk_prep_config 4 2 0 64 false false false empty_hf.

Ltac token_cases H :=
  destruct H as (? & ? & H1 & H2 & ? & ->);
  match type of H1 with _ !! ?i = _ => destruct i as [|[|?]] end; cbn in H1, H2; simplify_eq.

Lemma two_rows_page i k pos blk :
  token_at two_rows [0; 4] i k pos -> page_of two_rows 4 i pos blk ->
  (i = 0%nat /\ (k < 3)%nat /\ pos = Z.of_nat k /\ blk = 7) \/ (i = 1%nat /\ (k < 2)%nat /\ pos = 4 + Z.of_nat k /\ blk = 5).
Proof.
  intros Ht (table & Htab & Hblk). token_cases Ht; cbn in Htab; simplify_eq.
  - left. destruct k as [|[|[|]]]; [..|lia]; vm_compute in Hblk; injection Hblk as <-; split_and!; lia.
  - right. destruct k as [|[|]]; [..|lia]; vm_compute in Hblk; injection Hblk as <-; split_and!; lia.
Qed.

Lemma two_rows_paged : paged two_rows 4 8 [0; 4].
Proof.
  split; [split; done|lia|done|done|repeat constructor; lia|..|done|done|done].
  - intros i k pos Ht. token_cases Ht.
    + destruct k as [|[|[|]]]; [done..|lia].
    + destruct k as [|[|]]; [done..|lia].
  - intros i k pos Ht. token_cases Ht.
    + exists 7. split; [|lia]. exists [7]. split; [done|]. destruct k as [|[|[|]]]; [done..|lia].
    + exists 5. split; [|lia]. exists [3; 5]. split; [done|]. destruct k as [|[|]]; [done..|lia].
  - intros i j k k' pos pos' blk Ht Ht' Hb Hb'.
    destruct (two_rows_page _ _ _ _ Ht Hb) as [(-> & ? & -> & ->)|(-> & ? & -> & ->)],
             (two_rows_page _ _ _ _ Ht' Hb') as [(-> & ? & -> & ?)|(-> & ? & -> & ?)]; try lia; (split; [done|]).
    + rewrite !Z.div_small by lia. done.
    + assert (forall q, (q < 2)%nat -> (4 + Z.of_nat q) / Z.of_nat 4 = 1) as Hq; [|by rewrite !Hq].
      intros q ?. symmetry. apply Z.div_unique with (Z.of_nat q); lia.
Qed.

Lemma prefill_tokens_paged_witness :
  exists ctx x', prepare_prefill small_config (mk_ctx (mk_cfg 4 1 1 2 "gqa" 0 0 false false 0 false None 2 0) 1 1 None 8 0 "cuda" None None None
      (mk_gdn None None 0 0) None (mk_csa None ∅ ∅ ∅ ∅ ∅ ∅ ∅ ∅ ∅) 0 None) 1 two_rows false empty_hisparse
    = Ok (input_ids two_rows, positions two_rows, ctx, x') /\ bc_slot_mapping ctx = Some [28; 29; 30; 20; 21].
Proof.
  edestruct (prefill_tokens_paged small_config (mk_ctx (mk_cfg 4 1 1 2 "gqa" 0 0 false false 0 false None 2 0) 1 1 None 8 0 "cuda" None None None
      (mk_gdn None None 0 0) None (mk_csa None ∅ ∅ ∅ ∅ ∅ ∅ ∅ ∅ ∅) 0 None) 1 two_rows empty_hisparse 8 [0; 4]) as (ctx & x' & H & _);
    [exact two_rows_paged|cbn; lia|lia|cbn; lia|].
  exists ctx, x'. split; [exact H|]. vm_compute in H. injection H as <- _. reflexivity.
Defined.

Lemma microbatches_prepared_alike_witness :
  exists fs, prefill_microbatches 2 two_rows = Ok fs /\ concat ((fun f => prefill_slots 4 (fst f)) <$> fs) = [28; 29; 30; 20; 21].
Proof.
  destruct (microbatches_prepared_alike two_rows 4 8 [0; 4] 2) as (fs & H & _ & _ & Hs); [exact two_rows_paged|lia|cbn; lia|].
  exists fs. split; [exact H|]. rewrite Hs. vm_compute. reflexivity.
Defined.

(** Two sequences that decode one token each. *)
Definition two_tokens : WireBatch :=
  mk_batch false [10; 20] [6; 3] [1; 1] [[2; 7]; [5]] [0; 0] [0; 1] ∅ [-1; -1] [100; 101] [true; true] false false.

Lemma two_tokens_paged : paged_decode two_tokens 4 8.
Proof.
  split; [done|lia|done|done|repeat constructor; lia|..|done].
  - intros [|[|]] pos [= <-]; [exists 7; split; [by exists [2; 7]|lia]|exists 5; split; [by exists [5]|lia]].
  - intros [|[|]] [|[|]] pos pos' blk [= <-] [= <-] (t & [= <-] & [= <-]) (t' & [= <-] & Hb); done.
Qed.

Definition decode_config : PrepConfig := mk_prep_config 4 2 0 64 false false false gemma4_example.

Lemma decode_tokens_paged_witness :
  exists ctx x', prepare_decode decode_config (mk_ctx (mk_cfg 4 1 1 2 "gqa" 0 0 false false 0 false None 2 0) 1 1 None 8 0 "cuda" None None None
      (mk_gdn None None 0 0) None (mk_csa None ∅ ∅ ∅ ∅ ∅ ∅ ∅ ∅ ∅) 0 None) 1 two_tokens false empty_hisparse
    = Ok (input_ids two_tokens, positions two_tokens, ctx, x') /\ bc_slot_mapping ctx = Some [30; 23] /\ bc_decode_page_plan_key ctx = Some [2; 1].
Proof.
  edestruct (decode_tokens_paged decode_config (mk_ctx (mk_cfg 4 1 1 2 "gqa" 0 0 false false 0 false None 2 0) 1 1 None 8 0 "cuda" None None None
      (mk_gdn None None 0 0) None (mk_csa None ∅ ∅ ∅ ∅ ∅ ∅ ∅ ∅ ∅) 0 None) 1 two_tokens empty_hisparse 8) as (ctx & x' & H & _);
    [exact two_tokens_paged|cbn; lia|lia|vm_compute; discriminate|exact I|].
  exists ctx, x'. split; [exact H|]. vm_compute in H. injection H as <- _. split; reflexivity.
Defined.
