(* ===== verification/Sampling.v ===== *)
(** From logits to tokens: the sampling of a step
    ([dlengine/runtime/runner/model_runner.py], [_standard_sample]), of whole batches and of
    the microbatches of a pipeline.  The samplers, with their random draws and floating point,
    are parameters. *)

From S2P Require Import Prelude Cache HiSparse Microbatch InputPreparer.

Open Scope Z_scope.

(** * Standard sampling *)

Section sampling.
(** A row of logits, its [argmax], the [Sampler] on rows and temperatures with and without
    log probabilities, and [temperature < 1e-5]. *)
Context {L F : Type} (argmax : L -> Z) (sampler : list L -> list Z -> list Z) (sampler_lp : list L -> list Z -> list (Z * F))
  (is_greedy : Z -> bool) (f_zero : F).

(** [t\[indices\] = values] for an index tensor. *)
Definition index_put {A} (t : list A) (indices : list Z) (values : list A) : result (list A) :=
  if decide (length values <> length indices) then Err RuntimeError
  else foldM_r (fun t p => if decide (0 <= fst p < zlen t) then Ok (<[Z.to_nat (fst p) := snd p]> t) else Err IndexError) t (zip indices values).

(** [temperatures\[indices\]] *)
Definition index_get (t : list Z) (indices : list Z) : result (list Z) := mapM_r (fun i => py_getitem t i) indices.

(** [_standard_sample] *)
Definition standard_sample (tp_rank : Z) (ctx : BatchContext) (temperatures : list Z) (want_lp : bool) (logits : list L) (num_seqs : nat)
    (is_prefill : bool) : result (list Z * option (list F)) :=
  let zeros := (replicate num_seqs 0, if want_lp then Some (replicate num_seqs f_zero) else None) in
  if decide (tp_rank <> 0) then Ok zeros
  else match (if is_prefill then bc_sampling_seq_indices ctx else None) with
  | Some [] => Ok zeros
  | selected =>
      if negb want_lp && forallb is_greedy temperatures then Ok (argmax <$> logits, None)
      else match selected with
      | Some indices =>
          temps ← index_get temperatures indices;
          if want_lp then
            let sampled := sampler_lp logits temps in
            ids ← index_put (replicate num_seqs 0) indices (fst <$> sampled);
            lps ← index_put (replicate num_seqs f_zero) indices (snd <$> sampled);
            Ok (ids, Some lps)
          else ids ← index_put (replicate num_seqs 0) indices (sampler logits temps); Ok (ids, None)
      | None =>
          if want_lp then let sampled := sampler_lp logits temperatures in Ok (fst <$> sampled, Some (snd <$> sampled))
          else Ok (sampler logits temperatures, None)
      end
  end.
End sampling.

(** * Alignment of sampled tokens *)

Section alignment.
Context {L F : Type} (argmax : L -> Z) (sampler : list L -> list Z -> list Z) (sampler_lp : list L -> list Z -> list (Z * F))
  (is_greedy : Z -> bool) (f_zero : F).
Notation standard_sample := (standard_sample argmax sampler sampler_lp is_greedy f_zero).

Lemma index_put_fold {A} (indices : list Z) (values : list A) t :
  length values = length indices -> Forall (fun i => 0 <= i < zlen t) indices -> NoDup indices ->
  exists t', foldM_r (fun t p => if decide (0 <= fst p < zlen t) then Ok (<[Z.to_nat (fst p) := snd p]> t) else Err IndexError) t (zip indices values) = Ok t' /\
    length t' = length t /\
    (forall j i v, indices !! j = Some i -> values !! j = Some v -> t' !! Z.to_nat i = Some v) /\
    (forall i, 0 <= i -> i ∉ indices -> t' !! Z.to_nat i = t !! Z.to_nat i).
Proof.
  revert values t. induction indices as [|i indices IH]; intros values t Hl Hf Hnd; destruct values as [|v values]; try done.
  { exists t. done. }
  apply Forall_cons in Hf as [Hi Hf]. apply NoDup_cons in Hnd as [Hni Hnd]. cbn [zip zip_with foldM_r fst snd]. rewrite decide_True by done.
  destruct (IH values (<[Z.to_nat i := v]> t)) as (t' & Hr & Hlen & Hin & Hout); [simpl in Hl; lia| |done|].
  { unfold zlen in *. by rewrite length_insert. }
  exists t'. split; [exact Hr|]. rewrite length_insert in Hlen. split; [done|]. split.
  - intros [|j] i' v' Hj Hv; cbn in Hj, Hv; [|by eapply Hin]. injection Hj as <-. injection Hv as <-. rewrite Hout by (done || lia).
    apply list_lookup_insert_eq. unfold zlen in Hi. lia.
  - intros i' Hi' Hn. apply not_elem_of_cons in Hn as [Hne Hn]. rewrite Hout by done. apply list_lookup_insert_ne. lia.
Qed.

Lemma index_get_rows t (rows : list nat) :
  Forall (fun i => (i < length t)%nat) rows -> index_get t (Z.of_nat <$> rows) = Ok ((fun i => default 0 (t !! i)) <$> rows).
Proof.
  unfold index_get. induction 1 as [|i rows Hi _ IH]; [done|]. csimpl.
  destruct (lookup_lt_is_Some_2 t i Hi) as [x Hx]. rewrite py_getitem_nat, Hx. cbn. rewrite IH. done.
Qed.

(** Chosen rows are the first ones exactly when no other row precedes one of them. *)
Lemma filter_seq_prefix (P : nat -> bool) n :
  let rows := filter (fun i => P i = true) (seq 0 n) in
  (forall i, i ∈ rows -> (i < length rows)%nat) -> forall i j, (i <= j)%nat -> (j < n)%nat -> P j = true -> P i = true.
Proof.
  induction n as [|n IH]; intros rows Hr i j Hij Hj Hp; [lia|].
  assert (rows = filter (fun i => P i = true) (seq 0 n) ++ (if P n then [n] else [])) as Hrows.
  { unfold rows. rewrite seq_S, filter_app. f_equal. cbn [Nat.add]. rewrite filter_cons, filter_nil. by destruct (P n). }
  pose proof (length_filter (fun i => P i = true) (seq 0 n)) as Hlen. rewrite length_seq in Hlen.
  destruct (P n) eqn:Hn.
  - assert (n < length rows)%nat as Hlt. { apply Hr. rewrite Hrows. apply elem_of_app. right. left. }
    rewrite Hrows, length_app in Hlt. cbn in Hlt.
    assert (filter (fun i => P i = true) (seq 0 n) = seq 0 n) as Hfull by (apply filter_full; rewrite length_seq; lia).
    destruct (decide (i = n)) as [->|Hne]; [done|]. assert (i ∈ filter (fun i => P i = true) (seq 0 n)) as Hin by (rewrite Hfull; apply elem_of_seq; lia).
    by apply list_elem_of_filter in Hin as [? _].
  - rewrite app_nil_r in Hrows. assert (j <> n) by congruence. apply IH with j; try done; [|lia]. cbv zeta. rewrite <- Hrows. exact Hr.
Qed.

Lemma filter_seq_first (P : nat -> bool) n :
  (forall i j, (i <= j)%nat -> (j < n)%nat -> P j = true -> P i = true) ->
  exists k, (k <= n)%nat /\ filter (fun i => P i = true) (seq 0 n) = seq 0 k.
Proof.
  induction n as [|n IH]; intros Hp; [by exists 0%nat|]. destruct IH as (k & Hk & He); [intros i j ? ?; apply Hp; lia|].
  rewrite seq_S, filter_app, filter_cons, He. cbn [Nat.add]. destruct (P n) eqn:Hn.
  - exists (S n). split; [lia|]. rewrite decide_True by done. assert (filter (fun i => P i = true) (seq 0 n) = seq 0 n) as Hfull.
    { apply filter_all. apply Forall_forall. intros i Hi. apply elem_of_seq in Hi. apply (Hp i n); [lia|lia|done]. }
    rewrite <- He, Hfull, seq_S. done.
  - exists k. split; [lia|]. rewrite decide_False by done. rewrite filter_nil. apply app_nil_r.
Qed.

(** The rows of a prefill batch that are sampled. *)
Definition sampled_rows (b : WireBatch) : list nat := filter (fun i => sampled b i = true) (seq 0 (length (seq_lens b))).

(** The temperatures of the sampled rows. *)
Definition row_temperatures (b : WireBatch) (temperatures : list Z) : list Z :=
  (fun i : nat => default 0 (temperatures !! i)) <$> sampled_rows b.

(** Every sampled row finds the value of its own logits at its place. *)
Definition aligned {A} (b : WireBatch) (values out : list A) : Prop :=
  forall j i v, sampled_rows b !! j = Some i -> values !! j = Some v -> out !! i = Some v.

(** One value per row of the batch: that of its own logits for a sampled row, [zero] for the others. *)
Definition scattered {A} (b : WireBatch) (zero : A) (values out : list A) : Prop :=
  length out = length (seq_lens b) /\ length values = length (sampled_rows b) /\ aligned b values out /\
  (forall i, (i < length (seq_lens b))%nat -> sampled b i = false -> out !! i = Some zero).

Lemma sampled_rows_lt b i : i ∈ sampled_rows b -> (i < length (seq_lens b))%nat.
Proof. intros [_ Hi]%list_elem_of_filter. apply elem_of_seq in Hi. lia. Qed.

Lemma index_put_scattered {A} b (zero : A) values :
  length values = length (sampled_rows b) ->
  exists out, index_put (replicate (length (seq_lens b)) zero) (Z.of_nat <$> sampled_rows b) values = Ok out /\ scattered b zero values out.
Proof.
  intros Hl. unfold index_put. rewrite decide_False by (rewrite length_fmap; lia).
  destruct (index_put_fold (Z.of_nat <$> sampled_rows b) values (replicate (length (seq_lens b)) zero)) as (out & Hr & Hlen & Hin & Hout).
  { by rewrite length_fmap. }
  { apply Forall_fmap, Forall_forall. intros i Hi. cbn. unfold zlen. rewrite length_replicate. apply sampled_rows_lt in Hi. lia. }
  { apply NoDup_fmap_2; [apply _|]. apply NoDup_filter, NoDup_seq. }
  exists out. rewrite length_replicate in Hlen. split; [done|]. split_and!; [done|done| |].
  - intros j i v Hj Hv. rewrite <- (Nat2Z.id i). apply (Hin j); [|done]. by rewrite list_lookup_fmap, Hj.
  - intros i Hi Hs. rewrite <- (Nat2Z.id i), Hout by (lia || (intros (? & <-%Nat2Z.inj & [? _]%list_elem_of_filter)%list_elem_of_fmap; congruence)).
    rewrite Nat2Z.id. by apply lookup_replicate_2.
Qed.

(** C31. Sampling a prefill batch in which some rows are not sampled yet, when there is one
    row of logits per sampled row and the samplers return one result per row of logits.  With
    log probabilities, or when some temperature is not zero, the sampler is given the
    temperatures of the sampled rows in the order of the logits; every token, and every log
    probability if they are wanted, is put at the row its logits came from, and the rows that
    are not sampled get zeros.  When all temperatures are zero and no log probabilities are
    wanted, the most likely tokens are returned in the order of the logits, so they are right
    exactly when no unsampled row precedes a sampled one; otherwise some sampled row gets no
    token or that of another row. *)
Theorem prefill_sampling_alignment b ctx temperatures logits :
  bc_sampling_seq_indices ctx = Some (Z.of_nat <$> sampled_rows b) -> sampled_rows b <> [] ->
  length logits = length (sampled_rows b) -> length temperatures = length (seq_lens b) ->
  (forall rows temps, length (sampler rows temps) = length rows) ->
  (forall rows temps, length (sampler_lp rows temps) = length rows) ->
  (exists ids lps, standard_sample 0 ctx temperatures true logits (length (seq_lens b)) true = Ok (ids, Some lps) /\
     scattered b 0 (fst <$> sampler_lp logits (row_temperatures b temperatures)) ids /\
     scattered b f_zero (snd <$> sampler_lp logits (row_temperatures b temperatures)) lps) /\
  (forallb is_greedy temperatures = false ->
   exists ids, standard_sample 0 ctx temperatures false logits (length (seq_lens b)) true = Ok (ids, None) /\
     scattered b 0 (sampler logits (row_temperatures b temperatures)) ids) /\
  (forallb is_greedy temperatures = true ->
   standard_sample 0 ctx temperatures false logits (length (seq_lens b)) true = Ok (argmax <$> logits, None) /\
     (aligned b (argmax <$> logits) (argmax <$> logits) <->
      forall i j, (i <= j)%nat -> (j < length (seq_lens b))%nat -> sampled b j = true -> sampled b i = true)).
Proof.
  intros Hctx Hne Hl Ht Hsamp Hlp. unfold standard_sample. rewrite decide_False by lia. rewrite Hctx.
  assert (index_get temperatures (Z.of_nat <$> sampled_rows b) = Ok (row_temperatures b temperatures)) as Hget.
  { apply index_get_rows, Forall_forall. intros i Hi. rewrite Ht. by apply sampled_rows_lt. }
  assert (exists z zs, Z.of_nat <$> sampled_rows b = z :: zs) as (z & zs & Hz) by (destruct (sampled_rows b) as [|r rs]; [done|csimpl; eauto]).
  rewrite Hz in *. split_and!; [|intros Hg; rewrite Hg..]; cbn [negb andb]; rewrite ?Hget; cbn [mbind result_bind]; rewrite <- ?Hz.
  - destruct (index_put_scattered b 0 (fst <$> sampler_lp logits (row_temperatures b temperatures))) as (ids & -> & ?); [by rewrite length_fmap, Hlp|].
    destruct (index_put_scattered b f_zero (snd <$> sampler_lp logits (row_temperatures b temperatures))) as (lps & -> & ?); [by rewrite length_fmap, Hlp|].
    cbn. eauto.
  - destruct (index_put_scattered b 0 (sampler logits (row_temperatures b temperatures))) as (ids & -> & ?); [by rewrite Hsamp|]. cbn. eauto.
  - split; [done|]. split.
    + intros Hal. apply filter_seq_prefix. intros i Hi. fold (sampled_rows b) in Hi |- *.
      apply list_elem_of_lookup in Hi as [j Hj]. destruct (lookup_lt_is_Some_2 logits j) as [l Hlj]; [rewrite Hl; by eapply lookup_lt_Some|].
      specialize (Hal j i (argmax l) Hj ltac:(by rewrite list_lookup_fmap, Hlj)). apply lookup_lt_Some in Hal. rewrite length_fmap in Hal. lia.
    + intros Hp j i t Hj Hv. destruct (filter_seq_first (sampled b) (length (seq_lens b)) Hp) as (k & _ & Hk).
      unfold sampled_rows in Hj. rewrite Hk in Hj. apply lookup_seq in Hj as [-> _]. exact Hv.
Qed.
End alignment.

(** * Sampling of microbatches *)

(** As the scheduler builds batches: a row cut by the token budget is the last with tokens. *)
Definition cut_row_last (b : WireBatch) : Prop :=
  forall i j, (i < j)%nat -> (row_start b j < row_end b j)%nat -> default true (sample_mask b !! i) = true.

Lemma all_cuts_sorted b i lens cuts :
  all_cuts b i lens cuts -> StronglySorted Nat.le ((fun c : nat * nat * nat => fst (fst c)) <$> cuts).
Proof.
  induction 1 as [|i l lens cuts cuts' Hc Hall IH]; [constructor|]. rewrite fmap_app. apply StronglySorted_app. split_and!; [| |done].
  - intros x y (c & -> & Hx)%list_elem_of_fmap (d & -> & Hy)%list_elem_of_fmap.
    pose proof (row_cuts_row _ _ _ _ Hc) as Hr. pose proof (all_cuts_rows b _ _ _ Hall) as Hr'. rewrite Forall_forall in Hr, Hr'.
    rewrite (Hr _ Hx). specialize (Hr' _ Hy). cbn in Hr'. lia.
  - pose proof (row_cuts_row _ _ _ _ Hc) as Hr. clear -Hr. induction Hr as [|c cuts Hcr Hr IH]; csimpl; constructor; [exact IH|].
    apply Forall_fmap. eapply Forall_impl; [exact Hr|]. intros d Hd. cbn in *. lia.
Qed.

Lemma sorted_lookup (l : list nat) p q x y : StronglySorted Nat.le l -> (p < q)%nat -> l !! p = Some x -> l !! q = Some y -> (x <= y)%nat.
Proof.
  intros Hs Hpq Hx Hy. rewrite <- (take_drop q l) in Hs. apply StronglySorted_app in Hs as (H & _ & _). apply (H x y).
  - apply list_elem_of_lookup. exists p. by rewrite lookup_take_lt.
  - apply list_elem_of_lookup. exists 0%nat. by rewrite lookup_drop, Nat.add_0_r.
Qed.

Lemma removelast_lookup {A} (l : list A) p : (S p < length l)%nat -> removelast l !! p = l !! p.
Proof.
  destruct l as [|x l] using rev_ind; [simpl; lia|]. rewrite removelast_last, length_app. simpl. intros Hp. rewrite lookup_app_l by lia. done.
Qed.

Lemma describes_sampled b m md cuts r c :
  describes b m md cuts -> Forall (within_row b) cuts -> cuts !! r = Some c ->
  sampled m r = is_last_cut b c && default true (sample_mask b !! fst (fst c)).
Proof.
  intros Hd Hw Hr. unfold sampled. rewrite (de_sample_mask _ _ _ _ Hd), list_lookup_fmap, Hr. cbn [fmap option_fmap option_map default].
  pose proof (Forall_lookup_1 _ _ _ _ Hw Hr) as Hin. destruct c as [[i s] e]. destruct Hin as (? & ? & ? & ?).
  rewrite bool_decide_eq_true_2; [done|]. rewrite (row_end_next m r (e - s)%nat); [lia|].
  rewrite (describes_lens b m md cuts Hd), list_lookup_fmap, Hr. done.
Qed.

(** The microbatches of a pipeline prefill are safe for greedy sampling: when a row cut by
    the token budget comes last in the batch, in every microbatch the rows that are not
    sampled come after those that are. *)
Theorem microbatch_rows_sampled_first b max_tokens :
  wf_prefill b -> cut_row_last b -> (0 < max_tokens)%nat -> (0 < length (input_ids b))%nat ->
  exists fs, prefill_microbatches max_tokens b = Ok fs /\
    forall f i j, f ∈ fs -> (i <= j)%nat -> (j < length (seq_lens (fst f)))%nat -> sampled (fst f) j = true -> sampled (fst f) i = true.
Proof.
  intros Hwf Hcut Hmax Htok. destruct (prefill_microbatches_spec b max_tokens Hwf Hmax Htok) as (fs & cutss & Hfs & Hde & _ & _ & Hall & Hends).
  exists fs. split; [done|]. intros f i j Hf Hij Hj Hs.
  apply list_elem_of_lookup in Hf as [p Hp]. destruct (Forall2_lookup_l _ _ _ _ _ Hde Hp) as (cs & Hcs & Hd).
  pose proof (all_cuts_within b 0 _ _ Hall (Nat.le_refl _)) as Hw. pose proof (all_cuts_sorted _ _ _ _ Hall) as Hsort.
  apply list_elem_of_lookup_2 in Hcs as Hin. pose proof (Forall_lookup_1 _ _ _ _ Hends Hcs) as Hlast. apply list_elem_of_split in Hin as (pre & post & ->).
  rewrite concat_app in Hw, Hsort. cbn in Hw, Hsort. apply Forall_app in Hw as [_ Hw]. apply Forall_app in Hw as [Hw _].
  rewrite fmap_app in Hsort. apply StronglySorted_app_1_r in Hsort. rewrite fmap_app in Hsort. apply StronglySorted_app_1_l in Hsort.
  rewrite (de_seq_lens _ _ _ _ Hd), length_fmap in Hj. destruct (lookup_lt_is_Some_2 cs j Hj) as [cj Hcj].
  destruct (decide (i = j)) as [->|Hne]; [done|]. destruct (lookup_lt_is_Some_2 cs i) as [ci Hci]; [lia|].
  rewrite (describes_sampled b _ _ _ _ _ Hd Hw Hci). rewrite (describes_sampled b _ _ _ _ _ Hd Hw Hcj), andb_true_iff in Hs. destruct Hs as [Hlj Hmj].
  apply andb_true_iff. split.
  - unfold ends_rows in Hlast. rewrite Forall_forall in Hlast. apply Hlast. apply list_elem_of_lookup. exists i. by rewrite removelast_lookup by lia.
  - destruct (decide (fst (fst ci) = fst (fst cj))) as [->|Hr]; [done|]. apply (Hcut _ (fst (fst cj))).
    + pose proof (sorted_lookup _ i j (fst (fst ci)) (fst (fst cj)) Hsort ltac:(lia) ltac:(by rewrite list_lookup_fmap, Hci) ltac:(by rewrite list_lookup_fmap, Hcj)). lia.
    + pose proof (Forall_lookup_1 _ _ _ _ Hw Hcj) as Hin. destruct cj as [[a s] e]. destruct Hin as (? & ? & ? & ?). cbn [fst snd]. lia.
Qed.

(** Row 0 ends later, row 1 now. *)
Definition late_first : WireBatch :=
  mk_batch true [10; 20; 21] [0; 0; 1] [1; 2] [[7]; [3]] [0; 0] [0; 1] ∅ [-1; -1] [100; 101] [false; true] false false.

(** What the preparer makes of it. *)
Definition late_context : BatchContext :=
  mk_batch_context true None None None 0 0 None None None false 1 (Some [2]) (Some [1]) None None true None None None None None.

Lemma prefill_sampling_alignment_witness :
  let sample := standard_sample (L := Z) (F := Z) Datatypes.id (fun rows temps => zip_with Z.add rows (temps ++ replicate (length rows) 0))
      (fun rows temps => (fun r => (r, -r)) <$> rows) (fun t => t =? 0) 0 0 late_context in
  (exists ids lps, sample [0; 5] true [77] 2%nat true = Ok (ids, Some lps) /\ scattered late_first 0 [77] ids /\ scattered late_first 0 [-77] lps) /\
  (exists ids, sample [0; 5] false [77] 2%nat true = Ok (ids, None) /\ scattered late_first 0 [82] ids) /\
  (sample [0; 0] false [77] 2%nat true = Ok ([77], None) /\ ~ aligned late_first [77] [77]).
Proof.
  pose proof (fun temps => prefill_sampling_alignment (L := Z) (F := Z) Datatypes.id (fun rows temps => zip_with Z.add rows (temps ++ replicate (length rows) 0))
      (fun rows temps => (fun r => (r, -r)) <$> rows) (fun t => t =? 0) 0 late_first late_context temps [77] eq_refl ltac:(vm_compute; discriminate) eq_refl) as Hall.
  assert (forall rows temps : list Z, length (zip_with Z.add rows (temps ++ replicate (length rows) 0)) = length rows) as Hs.
  { intros rows temps. rewrite length_zip_with, length_app, length_replicate. lia. }
  assert (forall rows temps : list Z, length ((fun r => (r, -r)) <$> rows) = length rows) as Hp by (intros; apply length_fmap).
  destruct (Hall [0; 5] eq_refl Hs Hp) as (Hlp & Hgen & _). destruct (Hall [0; 0] eq_refl Hs Hp) as (_ & _ & Hgr).
  split_and!; [exact Hlp|exact (Hgen eq_refl)| |].
  - exact (proj1 (Hgr eq_refl)).
  - intros Ha. pose proof (proj1 (proj2 (Hgr eq_refl)) Ha 0%nat 1%nat) as Hf. vm_compute in Hf. discriminate Hf; [lia|lia|reflexivity].
Defined.

Lemma microbatch_rows_sampled_first_witness :
  exists fs, prefill_microbatches 2 two_rows = Ok fs /\
    forall f i j, f ∈ fs -> (i <= j)%nat -> (j < length (seq_lens (fst f)))%nat -> sampled (fst f) j = true -> sampled (fst f) i = true.
Proof.
  apply (microbatch_rows_sampled_first two_rows 2); [split; reflexivity| |lia|cbn; lia].
  intros [|[|i]] j _ _; reflexivity.
Defined.
