(* ===== verification/MtpRunner.v ===== *)
(** Speculative decoding ([dlengine/runtime/runner/mtp_runner.py]): the verification of drafts,
    the bookkeeping of drafts per sequence, the layout of a verification step and the handoff
    of drafts from a prefill to a decode engine, on the rank that samples (sequence
    parallelism is refused by the worker).  The target model, the draft predictor, the random
    draws and floating point are parameters; log probabilities are not modelled. *)

From S2P Require Import Prelude HiSparse Microbatch InputPreparer.

Open Scope Z_scope.

(** * Verification of a line of drafts *)

(** [accepts.to(int32).cumprod(dim=1)] *)
Fixpoint cumprod (acc : Z) (l : list bool) : list Z :=
  match l with
  | [] => []
  | b :: l => let acc := acc * (if b then 1 else 0) in acc :: cumprod acc l
  end.

(** [accepted_prefix.sum(dim=1)] *)
Definition accepted_count (accepts : list bool) : Z := sum_Z (cumprod 1 accepts).

Section verify.
(** A row of logits: its [argmax], and the row with one entry set to [-inf]. *)
Context {L : Type} (argmax : L -> Z) (mask : Z -> L -> L).

(** The checks of both verification functions. *)
Definition check_shapes (batch verify_width num_drafts : nat) (drafts : list (list Z)) : result unit :=
  if decide (length drafts <> batch \/ verify_width <> S num_drafts) then Err ValueError else Ok tt.

(** One row of [linear_greedy_verify]. *)
Definition greedy_verify_row (logits : list L) (drafts : list Z) : result (Z * Z) :=
  let target := argmax <$> logits in
  let accepted := accepted_count (zip_with (fun t d => bool_decide (t = d)) target drafts) in
  next ← py_getitem target accepted;
  Ok (next, accepted).

Definition linear_greedy_verify (verify_width num_drafts : nat) (logits : list (list L)) (drafts : list (list Z)) : result (list (Z * Z)) :=
  _ ← check_shapes (length logits) verify_width num_drafts drafts;
  mapM_r (fun p => greedy_verify_row (fst p) (snd p)) (zip logits drafts).

(** [coin i j l d] is [coins < draft_logprobs.exp()] and [draw i l] the sampled token, for row
    [i] with a temperature that is not greedy. *)
Context (coin : nat -> nat -> L -> Z -> bool) (draw : nat -> L -> Z).

(** One row of [linear_rejection_sample]. *)
Definition rejection_row (i : nat) (greedy : bool) (logits : list L) (drafts : list Z) : result (Z * Z) :=
  let num_drafts := length drafts in
  let accepts := imap (fun j p => if greedy then bool_decide (argmax (fst p) = snd p) else coin i j (fst p) (snd p)) (zip logits drafts) in
  let accepted := accepted_count accepts in
  selected ← py_getitem logits accepted;
  rejected ← py_getitem drafts (Z.min accepted (Z.of_nat num_drafts - 1));
  let selected := if decide (accepted = Z.of_nat num_drafts) then selected else mask rejected selected in
  Ok (if greedy then argmax selected else draw i selected, accepted).

Definition linear_rejection_sample (verify_width num_drafts : nat) (logits : list (list L)) (drafts : list (list Z)) (greedy : list bool) : result (list (Z * Z)) :=
  _ ← check_shapes (length logits) verify_width num_drafts drafts;
  if decide (length greedy <> length logits) then Err ValueError
  else mapM_r (fun x => x) (imap (fun i p => rejection_row i (fst p) (fst (snd p)) (snd (snd p))) (zip greedy (zip logits drafts))).
End verify.

(** * The state of [MTPRunner] *)

Record MTPRunner := mk_mtp {
  prev_seq_ids : option (list Z);
  (** [\[B, N\]] *)
  prev_drafts : option (list (list Z));
  selected_prev_drafts : option (list (list Z));
  (** The drafts of the last verification, by sequence, and how many were accepted. *)
  mtp_verified_tokens : option (list (list Z));
  mtp_num_accepted : option (list Z)
}.

Definition new_mtp_runner : MTPRunner := mk_mtp None None None None None.
(** [reset_lazy_verify_state] *)
Definition reset_lazy_verify_state (r : MTPRunner) : MTPRunner := new_mtp_runner.

Definition has_drafts (r : MTPRunner) : bool := bool_decide (is_Some (prev_drafts r)) && bool_decide (is_Some (prev_seq_ids r)).

(** [{seq_id: idx for idx, seq_id in enumerate(ids)}]: the last index wins. *)
Definition index_by_id (ids : list Z) : gmap Z nat := foldl (fun m p => <[snd p := fst p]> m) ∅ (imap pair ids).

(** [can_lazy_verify]; [safe] is [mtp_draft_safe] of the batch. *)
Definition can_lazy_verify (seq_ids : list Z) (num_seqs : nat) (safe : bool) (r : MTPRunner) : result (bool * MTPRunner) :=
  match prev_drafts r, prev_seq_ids r with
  | Some drafts, Some ids =>
      if decide (length seq_ids < num_seqs)%nat then Ok (false, r)
      else match mapM (fun id => index_by_id ids !! id) (take num_seqs seq_ids) with
           | None => Ok (false, r)
           | Some selected =>
               if safe then
                 rows ← mapM_r (fun i => of_option IndexError (drafts !! i)) selected;
                 Ok (true, mk_mtp (prev_seq_ids r) (prev_drafts r) (Some rows) (mtp_verified_tokens r) (mtp_num_accepted r))
               else Ok (false, r)
           end
  | _, _ => Ok (false, r)
  end.

(** [prepare_lazy_verify_decode]: input ids, positions and slots of the rows
    [base, d1, ..., dN] of every sequence, and the new context lengths.  [tables] are the rows
    of block tables; a page beyond them raises. *)
Definition verify_slot (block_size : nat) (table : list Z) (pos : Z) : result Z :=
  if decide (pos < 0) then Err RuntimeError
  else
    page ← of_option RuntimeError (table !! Z.to_nat (pos / Z.of_nat block_size));
    Ok (wrap32 (slot_at block_size page pos)).

Definition prepare_lazy_verify_decode (num_drafts block_size : nat) (input_ids positions lens : list Z) (tables : list (list Z)) (num_seqs : nat)
    (r : MTPRunner) : result (list Z * list Z * list Z * list Z) :=
  match selected_prev_drafts r with
  | None => Err RuntimeError
  | Some drafts =>
      let offsets := Z.of_nat <$> seq 0 (S num_drafts) in
      let ids := concat (zip_with cons (take num_seqs input_ids) (take num_seqs drafts)) in
      let pos := concat ((fun p => (fun o => p + o) <$> offsets) <$> take num_seqs positions) in
      slots ← mapM_r (fun p => mapM_r (verify_slot block_size (snd p)) ((fun o => fst p - 1 + o) <$> offsets)) (zip (take num_seqs lens) tables);
      Ok (ids, pos, concat slots, ((fun l => l + Z.of_nat num_drafts) <$> take num_seqs lens) ++ drop num_seqs lens)
  end.

(** The end of [lazy_verify_sample]: the outcome is kept, and the lengths go back to the
    accepted prefix. *)
Definition record_verification (accepted : list Z) (r : MTPRunner) : MTPRunner :=
  mk_mtp (prev_seq_ids r) (prev_drafts r) (selected_prev_drafts r) (selected_prev_drafts r) (Some accepted).
Definition rollback_lens (num_drafts : nat) (accepted lens : list Z) : list Z :=
  zip_with (fun l a => l - (Z.of_nat num_drafts - a)) (take (length accepted) lens) accepted ++ drop (length accepted) lens.

(** [generate_and_store] after the predictor produced [drafts]; near the length limit none are
    kept. *)
Definition store_drafts (safe : bool) (seq_ids : list Z) (num_seqs : nat) (drafts : list (list Z)) (r : MTPRunner) : MTPRunner :=
  if safe then mk_mtp (Some (take num_seqs seq_ids)) (Some drafts) None (mtp_verified_tokens r) (mtp_num_accepted r)
  else mk_mtp None None None (mtp_verified_tokens r) (mtp_num_accepted r).

(** [build_output_tokens] on the tokens [base] of one step. *)
Definition build_output_tokens (base : list Z) (r : MTPRunner) : result (list (list Z) * MTPRunner) :=
  match mtp_verified_tokens r with
  | None => Ok ((fun t => [t]) <$> base, r)
  | Some drafts =>
      accepted ← of_option TypeError (mtp_num_accepted r);
      out ← mapM_r (fun p => a ← of_option IndexError (accepted !! fst p); d ← of_option IndexError (drafts !! fst p);
                            Ok (py_upto d a ++ [snd p])) (imap pair base);
      Ok (out, mk_mtp (prev_seq_ids r) (prev_drafts r) (selected_prev_drafts r) None None)
  end.

(** * Handoff of drafts between engines *)

(** The handoff buffer: a row [seq_id, d1, ..., dN] per state slot. *)
Notation Handoff := (list (list Z)) (only parsing).

Definition handoff_entries (seq_ids state_slots : list Z) (num_seqs : nat) (h : Handoff) : list (Z * Z) :=
  filter (fun p => 0 <= snd p < zlen h) (take num_seqs (zip seq_ids state_slots)).

(** [handoff.index_fill_(0, slots, -1)] *)
Definition invalidate (slots : list Z) (h : Handoff) : Handoff :=
  imap (fun i row => if decide (Z.of_nat i ∈ slots) then (fun _ => -1) <$> row else row) h.

(** [publish_disagg_handoff]: the number of published rows and the buffer; [mtp_num_drafts] is
    that of the cache context. *)
Definition publish_disagg_handoff (seq_ids state_slots : list Z) (num_seqs mtp_num_drafts : nat) (r : MTPRunner) (h : Handoff) : result (nat * Handoff) :=
  let entries := handoff_entries seq_ids state_slots num_seqs h in
  if decide (entries = []) then Ok (0%nat, h)
  else
    let h := invalidate (snd <$> entries) h in
    match prev_drafts r, prev_seq_ids r with
    | Some drafts, Some ids =>
        if decide (Exists (fun d => length d <> mtp_num_drafts) drafts) then Ok (0%nat, h)
        else
          let resolved := omap (fun p => (fun i => (fst p, snd p, i)) <$> index_by_id ids !! fst p) entries in
          rows ← mapM_r (fun x => d ← of_option IndexError (drafts !! snd x); Ok (Z.to_nat (snd (fst x)), fst (fst x) :: d)) resolved;
          Ok (length resolved, foldl (fun h w => <[fst w := snd w]> h) h rows)
    | _, _ => Ok (0%nat, h)
    end.

(** [restore_disagg_handoff] with [num_speculative_tokens = n]: whether drafts were restored,
    the runner and the buffer. *)
Definition valid_row (id : Z) (row : list Z) : bool :=
  match row with x :: d => bool_decide (x = id) && forallb (fun t => 0 <=? t) d | [] => false end.

Definition restore_disagg_handoff (n : nat) (seq_ids state_slots : list Z) (num_seqs : nat) (r : MTPRunner) (h : Handoff) : result (bool * MTPRunner * Handoff) :=
  let current := take num_seqs seq_ids in
  if decide (length current <> num_seqs \/ num_seqs = 0%nat) then Ok (false, r, h)
  else
    let previous := match prev_drafts r, prev_seq_ids r with
                    | Some drafts, Some ids => if decide (Forall (fun d => length d = n) drafts) then index_by_id ids else ∅
                    | _, _ => ∅
                    end in
    let missing := filter (fun p => previous !! snd p = None) (imap pair current) in
    if decide (missing = []) then Ok (false, r, h)
    else if decide (Exists (fun row => length row <> S n) h \/ length state_slots < num_seqs)%nat then Ok (false, r, h)
    else
      let slots := (fun p => default (-1) (state_slots !! fst p)) <$> missing in
      if decide (Exists (fun s => s < 0 \/ s >= zlen h) slots) then Ok (false, r, h)
      else
        rows ← mapM_r (fun s => of_option IndexError (h !! Z.to_nat s)) slots;
        if negb (forallb (fun p => valid_row (snd (fst p)) (snd p)) (zip missing rows)) then Ok (false, r, h)
        else
          let migrated : gmap nat (list Z) := list_to_map (zip (fst <$> missing) (drop 1 <$> rows)) in
          resolved ← mapM_r (fun p => match migrated !! fst p with
                                      | Some d => Ok d
                                      | None => i ← of_option KeyError (previous !! snd p); drafts ← of_option TypeError (prev_drafts r); of_option IndexError (drafts !! i)
                                      end) (imap pair current);
          Ok (true, mk_mtp (Some current) (Some resolved) None (mtp_verified_tokens r) (mtp_num_accepted r),
              foldl (fun h s => alter (fun row => match row with _ :: d => -1 :: d | [] => [] end) (Z.to_nat s) h) h slots).

(** * Rows by sequence *)

Lemma index_by_id_sound ids id i : index_by_id ids !! id = Some i -> ids !! i = Some id.
Proof.
  unfold index_by_id.
  enough (forall k (m : gmap Z nat), foldl (fun m p => <[snd p := fst p]> m) m (imap (fun j x => ((k + j)%nat, x)) ids) !! id = Some i ->
            m !! id = Some i \/ exists j, i = (k + j)%nat /\ ids !! j = Some id) as H.
  { intros Hi. destruct (H 0%nat ∅ Hi) as [?|(j & -> & Hj)]; [done|exact Hj]. }
  induction ids as [|x ids IH]; intros k m Hi; [by left|]. rewrite imap_cons in Hi. cbn [foldl] in Hi.
  rewrite (imap_ext _ (fun j y => ((S k + j)%nat, y))) in Hi by (intros; unfold compose; f_equal; lia).
  destruct (IH _ _ Hi) as [Hm|(j & -> & Hj)]; [|right; exists (S j); split; [lia|done]]. cbn in Hm.
  destruct (decide (x = id)) as [->|Hne]; [rewrite lookup_insert_eq in Hm|rewrite lookup_insert_ne in Hm by done; by left].
  injection Hm as <-. right. exists 0%nat. split; [lia|done].
Qed.

Lemma index_by_id_complete ids id i : NoDup ids -> ids !! i = Some id -> index_by_id ids !! id = Some i.
Proof.
  intros Hnd Hi. unfold index_by_id.
  enough (forall k (m : gmap Z nat), foldl (fun m p => <[snd p := fst p]> m) m (imap (fun j x => ((k + j)%nat, x)) ids) !! id = Some (k + i)%nat) as H by apply (H 0%nat).
  revert i Hi. induction Hnd as [|x ids Hx Hnd IH]; intros i Hi k m; [done|]. rewrite imap_cons. cbn [foldl].
  rewrite (imap_ext _ (fun j y => ((S k + j)%nat, y))) by (intros; unfold compose; f_equal; lia).
  destruct i as [|i]; cbn in Hi; [|rewrite (IH i Hi (S k)); f_equal; lia]. injection Hi as ->. cbn [fst snd].
  rewrite Nat.add_0_r. clear IH. assert (forall q (m : gmap Z nat), id ∉ ids -> foldl (fun m p => <[snd p := fst p]> m) m (imap (fun j x => ((q + j)%nat, x)) ids) !! id = m !! id) as Hk.
  { clear. induction ids as [|y ids IH]; intros q m Hn; [done|]. apply not_elem_of_cons in Hn as [Hne Hn]. rewrite imap_cons. cbn [foldl].
    rewrite (imap_ext _ (fun j y => ((S q + j)%nat, y))) by (intros; unfold compose; f_equal; lia). rewrite IH by done. cbn. by rewrite lookup_insert_ne. }
  rewrite Hk by done. apply lookup_insert_eq.
Qed.

(** * Greedy decoding *)

Section lossless.
(** The logits the target model gives after a context. *)
Context {L : Type} (argmax : L -> Z) (target : list Z -> L).

(** Decoding one token at a time. *)
Fixpoint greedy (ctx : list Z) (n : nat) : list Z :=
  match n with
  | O => []
  | S n => let t := argmax (target ctx) in t :: greedy (ctx ++ [t]) n
  end.

(** The rows of a verification forward: after the context, and after every draft. *)
Fixpoint verify_logits (ctx drafts : list Z) : list L :=
  target ctx :: match drafts with [] => [] | d :: ds => verify_logits (ctx ++ [d]) ds end.

(** A decode step of the worker ([prepare_from_bytes] and [run_prepared]) on a batch of
    sequences with their contexts, all at temperature 0; the predictor then proposes
    [new_drafts]. *)
Definition decode_step (n : nat) (batch : list (Z * list Z)) (safe : bool) (new_drafts : list (list Z)) (r : MTPRunner) : result (list (list Z) * MTPRunner) :=
  let ids := fst <$> batch in
  '(verify, r) ← can_lazy_verify ids (length batch) safe r;
  if verify : bool then
    drafts ← of_option RuntimeError (selected_prev_drafts r);
    out ← linear_greedy_verify argmax (S n) n (zip_with (fun s d => verify_logits (snd s) d) batch drafts) drafts;
    let r := record_verification (snd <$> out) r in
    build_output_tokens (fst <$> out) (store_drafts safe ids (length batch) new_drafts r)
  else build_output_tokens ((fun s => argmax (target (snd s))) <$> batch) (store_drafts safe ids (length batch) new_drafts r).

(** ** Lemmas *)

Lemma cumprod_zero l : sum_Z (cumprod 0 l) = 0.
Proof. induction l as [|[] l IH]; [done|..]; cbn; exact IH. Qed.

Fixpoint true_prefix (l : list bool) : nat := match l with true :: l => S (true_prefix l) | _ => 0%nat end.

Lemma accepted_count_prefix l : accepted_count l = Z.of_nat (true_prefix l).
Proof.
  unfold accepted_count. induction l as [|[] l IH]; [done|..].
  - cbn [cumprod true_prefix]. change (1 * 1) with 1. unfold sum_Z in *. cbn [foldr]. rewrite IH. lia.
  - cbn [cumprod true_prefix]. change (1 * 0) with 0. unfold sum_Z. cbn [foldr]. change (0 + sum_Z (cumprod 0 l) = 0). by rewrite cumprod_zero.
Qed.

Lemma length_verify_logits ctx drafts : length (verify_logits ctx drafts) = S (length drafts).
Proof. revert ctx. induction drafts as [|d ds IH]; intros ctx; [done|]. cbn. by rewrite <- (IH (ctx ++ [d])). Qed.

(** The accepted drafts and the token after them are what greedy decoding produces. *)
Lemma verify_row_greedy ctx drafts :
  exists k t, greedy_verify_row argmax (verify_logits ctx drafts) drafts = Ok (t, Z.of_nat k) /\ (k <= length drafts)%nat /\
    take k drafts ++ [t] = greedy ctx (S k).
Proof.
  unfold greedy_verify_row. set (accepts := zip_with _ _ _). rewrite accepted_count_prefix, py_getitem_nat.
  assert (exists t, (true_prefix accepts <= length drafts)%nat /\ (argmax <$> verify_logits ctx drafts) !! true_prefix accepts = Some t /\
            take (true_prefix accepts) drafts ++ [t] = greedy ctx (S (true_prefix accepts))) as (t & Hk & Ht & Hg).
  { unfold accepts. clear accepts. revert ctx. induction drafts as [|d ds IH]; intros ctx; [by exists (argmax (target ctx))|].
    cbn [verify_logits]. csimpl. case_bool_decide as Hd; cbn [true_prefix].
    - destruct (IH (ctx ++ [d])) as (t & Hk & Ht & Hg). exists t. split; [simpl; lia|]. split; [exact Ht|].
      cbn [take app]. rewrite Hg. rewrite <- Hd at 1 2. reflexivity.
    - exists (argmax (target ctx)). split; [simpl; lia|]. done. }
  exists (true_prefix accepts), t. rewrite Ht. cbn. done.
Qed.

(** Drafts are stored with their sequences, [n] each, and no verification is pending. *)
Definition wf_mtp (n : nat) (r : MTPRunner) : Prop :=
  mtp_verified_tokens r = None /\
  forall ids drafts, prev_seq_ids r = Some ids -> prev_drafts r = Some drafts -> length drafts = length ids /\ Forall (fun d => length d = n) drafts.

Definition draft_shape (n : nat) (batch : list (Z * list Z)) (drafts : list (list Z)) : Prop :=
  length drafts = length batch /\ Forall (fun d => length d = n) drafts.

Lemma can_lazy_verify_spec n ids safe r :
  wf_mtp n r -> exists ok r', can_lazy_verify ids (length ids) safe r = Ok (ok, r') /\ mtp_verified_tokens r' = None /\
    (if ok : bool then exists rows, selected_prev_drafts r' = Some rows /\ length rows = length ids /\ Forall (fun d => length d = n) rows else r' = r).
Proof.
  intros [Hv Hd]. unfold can_lazy_verify. destruct (prev_drafts r) as [drafts|] eqn:Ed; [|eauto].
  destruct (prev_seq_ids r) as [pids|] eqn:Ei; [|eauto]. destruct (Hd _ _ eq_refl eq_refl) as [Hl Hf].
  rewrite decide_False by lia. rewrite take_ge by lia. destruct (mapM _ ids) as [sel|] eqn:Em; [|eauto]. destruct safe; [|eauto].
  apply mapM_Some in Em.
  assert (exists rows, mapM_r (fun i => of_option IndexError (drafts !! i)) sel = Ok rows /\ length rows = length ids /\ Forall (fun d => length d = n) rows)
    as (rows & -> & Hlen & Hrows).
  { clear -Em Hl Hf. induction Em as [|id i ids sel Hi _ (rows & IH & Hlen & Hr)]; [by exists []|]. apply index_by_id_sound, lookup_lt_Some in Hi.
    rewrite <- Hl in Hi. destruct (lookup_lt_is_Some_2 _ _ Hi) as [d Hdi]. exists (d :: rows). cbn. rewrite Hdi. cbn. rewrite IH.
    split_and!; [done|simpl; lia|]. constructor; [apply (Forall_lookup_1 _ _ _ _ Hf Hdi)|done]. }
  cbn. eexists _, _. split; [done|]. split; [done|]. eauto.
Qed.

Lemma greedy_verify_rows n (batch : list (Z * list Z)) drafts :
  length drafts = length batch -> Forall (fun d => length d = n) drafts ->
  exists out, linear_greedy_verify argmax (S n) n (zip_with (fun s d => verify_logits (snd s) d) batch drafts) drafts = Ok out /\ length out = length batch /\
    forall i s d o, batch !! i = Some s -> drafts !! i = Some d -> out !! i = Some o ->
      exists k, (k <= n)%nat /\ snd o = Z.of_nat k /\ take k d ++ [fst o] = greedy (snd s) (S k).
Proof.
  intros Hl Hf. unfold linear_greedy_verify, check_shapes. rewrite length_zip_with, Hl, Nat.min_id. rewrite decide_False by (intros [?|?]; lia). cbn [mbind result_bind].
  revert drafts Hl Hf. induction batch as [|s batch IH]; intros [|d drafts] Hl Hf; try done; [exists []; split_and!; [done|done|intros i ? ? ? Hi; done]|].
  apply Forall_cons in Hf as [Hd Hf]. destruct (IH drafts) as (out & Ho & Hlen & Hs); [simpl in Hl; lia|done|].
  destruct (verify_row_greedy (snd s) d) as (k & t & Hr & Hk & Hg). exists ((t, Z.of_nat k) :: out).
  cbn [zip_with zip mapM_r fst snd]. rewrite Hr, Ho. split; [done|]. split; [simpl; lia|].
  intros [|i] s' d' o Hs' Hd' Hoo; cbn in Hs', Hd', Hoo; [|by eapply Hs]. injection Hs' as <-. injection Hd' as <-. injection Hoo as <-.
  exists k. cbn. split_and!; [lia|done|done].
Qed.

Lemma store_drafts_wf n batch safe ids drafts r :
  ids = fst <$> batch -> mtp_verified_tokens r = None -> draft_shape n batch drafts -> wf_mtp n (store_drafts safe ids (length batch) drafts r).
Proof.
  intros -> Hv [Hl Hf]. unfold store_drafts. destruct safe; split; cbn; try done. intros ids' ds [= <-] [= <-].
  rewrite length_take, length_fmap. split; [lia|done].
Qed.

Lemma output_rows_spec (out : list (Z * Z)) (rows : list (list Z)) :
  length out = length rows ->
  exists outs, mapM_r (fun p => a ← of_option IndexError ((snd <$> out) !! fst p); d ← of_option IndexError (rows !! fst p); Ok (py_upto d a ++ [snd p]))
                 (imap pair (fst <$> out)) = Ok outs /\ length outs = length out /\
    forall i x d k o, out !! i = Some x -> rows !! i = Some d -> snd x = Z.of_nat k -> outs !! i = Some o -> (k <= length d)%nat -> o = take k d ++ [fst x].
Proof.
  intros Hl. destruct (mapM_r _ _) as [outs|e] eqn:Em.
  - exists outs. split; [done|]. apply mapM_r_Ok in Em. split; [by rewrite <- (Forall2_length _ _ _ Em), length_imap, length_fmap|].
    intros i x d k o Hx Hd Hk Ho Hle. destruct (Forall2_lookup_r _ _ _ _ _ Em Ho) as (p & Hp & Hr).
    rewrite list_lookup_imap, list_lookup_fmap, Hx in Hp. injection Hp as <-. cbn [fst snd] in Hr.
    rewrite list_lookup_fmap, Hx, Hd in Hr. cbn in Hr. injection Hr as <-. unfold py_upto, slice_pos, zlen. rewrite Hk, decide_False, Z.min_l, Nat2Z.id by lia. done.
  - exfalso. revert Em. assert (forall l : list (nat * Z), Forall (fun p => (fst p < length rows)%nat) l ->
      mapM_r (fun p => a ← of_option IndexError ((snd <$> out) !! fst p); d ← of_option IndexError (rows !! fst p); Ok (py_upto d a ++ [snd p])) l <> Err e) as H.
    { induction 1 as [|p l Hp _ IH]; [done|]. cbn [mapM_r]. destruct (lookup_lt_is_Some_2 rows (fst p) Hp) as [d ->].
      destruct (lookup_lt_is_Some_2 (snd <$> out) (fst p)) as [a ->]; [rewrite length_fmap; lia|]. cbn [of_option mbind result_bind].
      destruct (mapM_r _ l); [done|]. intros [= ->]. done. }
    apply H. apply Forall_lookup. intros i p Hp. rewrite list_lookup_imap in Hp. destruct ((fst <$> out) !! i) as [z|] eqn:Ez; [|done]. injection Hp as <-.
    apply lookup_lt_Some in Ez. rewrite length_fmap in Ez. cbn. lia.
Qed.

(** Every step gives every sequence between one and [n + 1] tokens, those of greedy
    decoding. *)
Lemma decode_step_greedy n batch safe new_drafts r :
  wf_mtp n r -> draft_shape n batch new_drafts ->
  exists outs r', decode_step n batch safe new_drafts r = Ok (outs, r') /\ wf_mtp n r' /\ length outs = length batch /\
    forall i s out, batch !! i = Some s -> outs !! i = Some out -> exists k, (k <= n)%nat /\ out = greedy (snd s) (S k).
Proof.
  intros Hwf Hshape. unfold decode_step.
  destruct (can_lazy_verify_spec n (fst <$> batch) safe r Hwf) as (ok & r1 & Hc & Hv1 & Hsel). rewrite length_fmap in Hc. rewrite Hc. cbn [mbind result_bind].
  destruct ok.
  - destruct Hsel as (rows & Hr & Hlen & Hf). rewrite length_fmap in Hlen. rewrite Hr. cbn [of_option mbind result_bind].
    destruct (greedy_verify_rows n batch rows Hlen Hf) as (out & Ho & Hlo & Hout). rewrite Ho. cbn [mbind result_bind].
    set (r2 := store_drafts _ _ _ _ _). unfold build_output_tokens.
    assert (mtp_verified_tokens r2 = Some rows /\ mtp_num_accepted r2 = Some (snd <$> out)) as [-> ->] by (unfold r2, store_drafts, record_verification; destruct safe; by rewrite Hr).
    cbn [of_option mbind result_bind].
    destruct (output_rows_spec out rows) as (outs & -> & Hlouts & Houts); [lia|]. cbn [mbind result_bind].
    eexists _, _. split; [done|]. split_and!; [|lia|].
    + destruct (store_drafts_wf n batch safe (fst <$> batch) new_drafts (mk_mtp None None None None None) eq_refl eq_refl Hshape) as [_ Hp].
      split; [done|]. unfold r2, store_drafts in *. destruct safe; exact Hp.
    + intros i s o Hs Hoi. pose proof (lookup_lt_Some _ _ _ Hs). destruct (lookup_lt_is_Some_2 rows i) as [d Hd]; [lia|].
      destruct (lookup_lt_is_Some_2 out i) as [x Hx]; [lia|]. destruct (Hout i s d x Hs Hd Hx) as (k & Hk & Ha & Hg).
      exists k. split; [done|]. rewrite <- Hg. apply (Houts i x d k o Hx Hd Ha Hoi).
      pose proof (Forall_lookup_1 _ _ _ _ Hf Hd) as Hdn. cbn in Hdn. lia.
  - subst r1. unfold build_output_tokens.
    assert (mtp_verified_tokens (store_drafts safe (fst <$> batch) (length batch) new_drafts r) = None) as -> by (unfold store_drafts; destruct safe; exact Hv1).
    eexists _, _. split; [done|]. split_and!; [by apply store_drafts_wf|by rewrite !length_fmap|].
    intros i s o Hs Hoi. rewrite !list_lookup_fmap, Hs in Hoi. injection Hoi as <-. exists 0%nat. split; [lia|done].
Qed.

(** ** Runs *)

(** A worker and the sequences it serves: their prompts and their tokens so far. *)
Record Engine := mk_engine { e_runner : MTPRunner; e_prompts : gmap Z (list Z); e_tokens : gmap Z (list Z) }.
Definition idle : Engine := mk_engine new_mtp_runner ∅ ∅.

Definition batch_of (e : Engine) (batch : list (Z * list Z)) : Prop :=
  NoDup (fst <$> batch) /\ Forall (fun s => e_tokens e !! fst s = Some (snd s)) batch.

Definition append_all (batch : list (Z * list Z)) (outs : list (list Z)) (tokens : gmap Z (list Z)) : gmap Z (list Z) :=
  list_to_map (zip_with (fun s o => (fst s, snd s ++ o)) batch outs) ∪ tokens.

(** Prefill of new sequences, decode steps on any of them with whatever drafts the predictor
    proposes, drafts replaced (by a prefill or a migration) or dropped, sequences ending. *)
Inductive step (n : nat) : Engine -> Engine -> Prop :=
  | step_prefill e (ps : list (Z * list Z)) r :
      NoDup (fst <$> ps) -> Forall (fun p => e_tokens e !! fst p = None) ps -> wf_mtp n r ->
      step n e (mk_engine r (list_to_map ps ∪ e_prompts e) (((fun p => p ++ greedy p 1) <$> (list_to_map ps : gmap Z (list Z))) ∪ e_tokens e))
  | step_decode e batch safe drafts outs r :
      batch_of e batch -> draft_shape n batch drafts -> decode_step n batch safe drafts (e_runner e) = Ok (outs, r) ->
      step n e (mk_engine r (e_prompts e) (append_all batch outs (e_tokens e)))
  | step_drafts e r : wf_mtp n r -> step n e (mk_engine r (e_prompts e) (e_tokens e))
  | step_finish e id : step n e (mk_engine (e_runner e) (e_prompts e) (delete id (e_tokens e))).

Lemma greedy_add p a c : greedy p (a + c) = greedy p a ++ greedy (p ++ greedy p a) c.
Proof.
  revert p. induction a as [|a IH]; intros p; [by rewrite app_nil_r|]. cbn. rewrite IH. do 2 f_equal. by rewrite <- app_assoc.
Qed.

Lemma greedy_length p k : length (greedy p k) = k.
Proof. revert p. induction k as [|k IH]; intros p; [done|]. cbn. by rewrite IH. Qed.

(** What holds of every reachable engine. *)
Definition lossless (n : nat) (e : Engine) : Prop :=
  wf_mtp n (e_runner e) /\
  forall id tokens, e_tokens e !! id = Some tokens ->
    exists prompt k, e_prompts e !! id = Some prompt /\ tokens = prompt ++ greedy prompt (S k).

Lemma step_lossless n e e' : step n e e' -> lossless n e -> lossless n e'.
Proof.
  intros Hs [Hwf Ht]. destruct Hs as [e ps r Hnd Hnew Hr|e batch safe drafts outs r [Hnd Hb] Hd Hstep|e r Hr|e id]; split; cbn [e_runner e_prompts e_tokens]; try done.
  - intros id tokens Hid. apply lookup_union_Some_raw in Hid as [Hid|[Hid Hold]].
    + rewrite lookup_fmap in Hid. destruct ((list_to_map ps : gmap Z (list Z)) !! id) as [p|] eqn:Ep; [|done]. injection Hid as <-.
      exists p, 0%nat. split; [|done]. apply lookup_union_Some_raw. by left.
    + destruct (Ht _ _ Hold) as (p & k & Hp & ->). exists p, k. split; [|done]. apply lookup_union_Some_raw. right. split; [|done].
      rewrite lookup_fmap in Hid. by destruct ((list_to_map ps : gmap Z (list Z)) !! id).
  - destruct (decode_step_greedy n batch safe drafts (e_runner e) Hwf Hd) as (outs' & r' & Hstep' & Hwf' & _). rewrite Hstep in Hstep'. by injection Hstep' as <- <-.
  - destruct (decode_step_greedy n batch safe drafts (e_runner e) Hwf Hd) as (outs' & r' & Hstep' & _ & Hlen & Hout).
    rewrite Hstep in Hstep'. injection Hstep' as <- <-. intros id tokens Hid. unfold append_all in Hid.
    apply lookup_union_Some_raw in Hid as [Hid|[_ Hold]]; [|by apply Ht].
    apply elem_of_list_to_map_2 in Hid. apply list_elem_of_lookup in Hid as [i Hi]. apply lookup_zip_with_Some in Hi as (s & o & [= -> ->] & Hs & Ho).
    destruct (Hout i s o Hs Ho) as (k & _ & ->). pose proof (Forall_lookup_1 _ _ _ _ Hb Hs) as Hctx. cbn in Hctx.
    destruct (Ht _ _ Hctx) as (p & k0 & Hp & Hc). exists p, (k0 + S k)%nat. split; [done|]. rewrite Hc, <- app_assoc. f_equal.
    change (S (k0 + S k)) with (S k0 + S k)%nat. by rewrite greedy_add.
  - intros i tokens Hi. apply lookup_delete_Some in Hi as [_ Hi]. by apply Ht.
Qed.

(** C5. Speculative decoding at temperature 0 is lossless: however drafts are proposed,
    stored, migrated, dropped or left over from other batches, the tokens of every sequence
    are those of decoding one token at a time, and every decode step succeeds and gives each
    sequence of the batch at least one token and at most [n + 1]. *)
Theorem speculative_decoding_lossless n e :
  rtc (step n) idle e ->
  (forall id tokens, e_tokens e !! id = Some tokens ->
     exists prompt k, e_prompts e !! id = Some prompt /\ tokens = prompt ++ greedy prompt (S k)) /\
  (forall batch safe drafts, batch_of e batch -> draft_shape n batch drafts ->
     exists outs r, decode_step n batch safe drafts (e_runner e) = Ok (outs, r) /\ length outs = length batch /\
       Forall (fun out => (1 <= length out <= n + 1)%nat) outs).
Proof.
  intros Hr. assert (lossless n e) as [Hwf Ht].
  { apply (rtc_ind_r (R := step n) (lossless n) idle); [|intros ? ? _ Hs; by apply step_lossless|done]. split; [split; [done|intros ? ? ?; done]|intros id tokens Hid; done]. }
  split; [done|]. intros batch safe drafts Hb Hd. destruct (decode_step_greedy n batch safe drafts (e_runner e) Hwf Hd) as (outs & r & Hstep & _ & Hlen & Hout).
  exists outs, r. split_and!; [done|done|]. apply Forall_lookup. intros i out Ho. destruct (lookup_lt_is_Some_2 batch i) as [s Hs]; [rewrite <- Hlen; by eapply lookup_lt_Some|].
  destruct (Hout i s out Hs Ho) as (k & Hk & ->). rewrite greedy_length. lia.
Qed.
End lossless.

(** A model over tokens modulo 5: the next token is the last one plus two. *)
Definition plus_two (ctx : list Z) : Z := (default 0 (last ctx) + 2) mod 5.

Lemma speculative_decoding_lossless_witness :
  exists e : Engine, e_tokens e !! 7 = Some [1; 3; 0; 2; 4] /\
    (exists prompt k, e_prompts e !! 7 = Some prompt /\ [1; 3; 0; 2; 4] = prompt ++ greedy (fun t => t) plus_two prompt (S k)).
Proof.
  set (r0 := mk_mtp (Some [7; 9]) (Some [[0; 2]; [4; 4]]) None None None).
  pose (e1 := mk_engine r0 (list_to_map [(7, [1])] ∪ e_prompts idle)
                (((fun p => p ++ greedy (fun t => t) plus_two p 1) <$> (list_to_map [(7, [1])] : gmap Z (list Z))) ∪ e_tokens idle)).
  pose (e2 := mk_engine (mk_mtp (Some [7]) (Some [[3; 3]]) None None None) (e_prompts e1) (append_all [(7, [1; 3])] [[0; 2; 4]] (e_tokens e1))).
  assert (wf_mtp 2 r0) as Hr0 by (split; [done|intros ids ds [= <-] [= <-]; split; [done|repeat constructor]]).
  assert (rtc (step (fun t => t) plus_two 2) idle e2) as Hr.
  { eapply rtc_l; [apply (step_prefill _ _ 2 idle [(7, [1])] r0)|]; [apply NoDup_singleton|by repeat constructor|exact Hr0|].
    eapply rtc_l; [|apply rtc_refl]. apply (step_decode _ _ 2 e1 [(7, [1; 3])] true [[3; 3]] [[0; 2; 4]]).
    - split; [apply NoDup_singleton|by repeat constructor].
    - split; [done|by repeat constructor].
    - vm_compute. reflexivity. }
  destruct (speculative_decoding_lossless (fun t => t) plus_two 2 e2 Hr) as [Ht _].
  exists e2. split; [vm_compute; reflexivity|]. apply (Ht 7). vm_compute. reflexivity.
Defined.

(** * Greedy rows of rejection sampling *)

Section rejection.
Context {L : Type} (argmax : L -> Z) (mask : Z -> L -> L) (coin : nat -> nat -> L -> Z -> bool) (draw : nat -> L -> Z).
(** A token that is not the maximum does not become it, nor does another, when it is set to
    [-inf]. *)
Hypothesis argmax_mask : forall d l, argmax l <> d -> argmax (mask d l) = argmax l.

Lemma true_prefix_stop (l : list bool) : (true_prefix l < length l)%nat -> l !! true_prefix l = Some false.
Proof. induction l as [|[] l IH]; cbn; [lia| |done]. intros. apply IH. lia. Qed.

Lemma true_prefix_le (l : list bool) : (true_prefix l <= length l)%nat.
Proof. induction l as [|[] l IH]; cbn; lia. Qed.

Lemma greedy_accepts (logits : list L) drafts :
  imap (fun j p => bool_decide (argmax (fst p) = snd p)) (zip logits drafts) = zip_with (fun t d => bool_decide (t = d)) (argmax <$> logits) drafts.
Proof.
  revert drafts. induction logits as [|l logits IH]; intros [|d drafts]; [done..|]. cbn [zip zip_with fmap list_fmap]. rewrite imap_cons. cbn. f_equal.
  rewrite <- IH. by apply imap_ext.
Qed.

Lemma rejection_row_greedy i logits drafts :
  length logits = S (length drafts) -> drafts <> [] -> rejection_row argmax mask coin draw i true logits drafts = greedy_verify_row argmax logits drafts.
Proof.
  intros Hl Hd. unfold rejection_row, greedy_verify_row. rewrite greedy_accepts. set (acc := zip_with _ _ _). rewrite accepted_count_prefix.
  pose proof (true_prefix_le acc) as Hle. assert (length acc = length drafts) as Ha by (unfold acc; rewrite length_zip_with, length_fmap; lia).
  assert (0 < length drafts)%nat by (destruct drafts; [done|simpl; lia]).
  destruct (lookup_lt_is_Some_2 logits (true_prefix acc)) as [l Hl']; [lia|]. rewrite !py_getitem_nat, list_lookup_fmap, Hl'. cbn [of_option fmap option_fmap option_map mbind result_bind].
  destruct (decide (true_prefix acc = length drafts)) as [He|He].
  - replace (Z.min _ _) with (Z.of_nat (length drafts - 1)) by lia. rewrite py_getitem_nat.
    destruct (lookup_lt_is_Some_2 drafts (length drafts - 1)) as [d ->]; [lia|]. cbn [of_option mbind result_bind]. by rewrite decide_True by lia.
  - rewrite Z.min_l by lia. rewrite py_getitem_nat. destruct (lookup_lt_is_Some_2 drafts (true_prefix acc)) as [d Hd']; [lia|].
    rewrite Hd'. cbn [of_option mbind result_bind]. rewrite decide_False by lia. rewrite argmax_mask; [done|]. pose proof (true_prefix_stop acc ltac:(lia)) as Hs. unfold acc at 2 in Hs.
    rewrite lookup_zip_with, list_lookup_fmap, Hl' in Hs. cbn in Hs. rewrite Hd' in Hs. cbn in Hs. injection Hs as Hs. by apply bool_decide_eq_false in Hs.
Qed.

(** On a batch of greedy rows the sampler that keeps log probabilities ([linear_rejection_sample])
    gives the tokens and accepted counts of the one that does not ([linear_greedy_verify]), errors
    included: asking for log probabilities, or batching with a stochastic sequence, changes no
    greedy sequence. *)
Theorem greedy_rejection_is_verify n logits drafts :
  (0 < n)%nat -> Forall (fun row => length row = S n) logits -> Forall (fun d => length d = n) drafts ->
  linear_rejection_sample argmax mask coin draw (S n) n logits drafts (replicate (length logits) true) = linear_greedy_verify argmax (S n) n logits drafts.
Proof.
  intros Hn Hl Hd. unfold linear_rejection_sample, linear_greedy_verify. rewrite length_replicate. unfold check_shapes.
  destruct (decide (length drafts <> length logits \/ S n <> S n)) as [?|Hlen]; [done|]. cbn [mbind result_bind]. destruct (decide (length logits <> length logits)) as [?|_]; [done|].
  assert (length drafts = length logits) as Hlen' by (destruct (decide (length drafts = length logits)); [done|destruct Hlen; by left]). clear Hlen.
  enough (forall k, mapM_r (fun x => x) (imap (fun i p => rejection_row argmax mask coin draw (k + i) (fst p) (fst (snd p)) (snd (snd p))) (zip (replicate (length logits) true) (zip logits drafts)))
                = mapM_r (fun p => greedy_verify_row argmax (fst p) (snd p)) (zip logits drafts)) as H by apply (H 0%nat).
  revert drafts Hd Hlen'. induction Hl as [|row logits Hrow Hl IH]; intros [|d drafts] Hd Hlen' k; try done.
  apply Forall_cons in Hd as [Hdn Hd]. cbn [length replicate zip zip_with]. rewrite imap_cons. cbn [mapM_r fst snd].
  rewrite rejection_row_greedy by (rewrite ?Hrow; destruct d; simpl in *; try lia; done).
  destruct (greedy_verify_row argmax row d); [|done]. cbn [mbind result_bind]. erewrite imap_ext; [rewrite (IH drafts Hd ltac:(simpl in Hlen'; lia) (S k)); reflexivity|].
  intros i p _. unfold compose. f_equal. lia.
Qed.
End rejection.

(** Rows of two logits: the maximum of a pair, an entry removed by making it smaller than the
    other. *)
Definition pair_argmax (l : Z * Z) : Z := if decide (fst l < snd l) then 1 else 0.
Definition pair_mask (d : Z) (l : Z * Z) : Z * Z := if decide (d = 0) then (Z.min (fst l) (snd l) - 1, snd l) else if decide (d = 1) then (fst l, Z.min (fst l) (snd l) - 1) else l.

Lemma greedy_rejection_is_verify_witness :
  linear_rejection_sample pair_argmax pair_mask (fun _ _ _ _ => false) (fun _ _ => 0) 3 2 [[(1, 2); (5, 3); (0, 9)]; [(1, 2); (3, 3); (2, 1)]] [[1; 1]; [1; 0]] [true; true]
    = linear_greedy_verify pair_argmax 3 2 [[(1, 2); (5, 3); (0, 9)]; [(1, 2); (3, 3); (2, 1)]] [[1; 1]; [1; 0]] /\
  linear_greedy_verify pair_argmax 3 2 [[(1, 2); (5, 3); (0, 9)]; [(1, 2); (3, 3); (2, 1)]] [[1; 1]; [1; 0]] = Ok [(0, 1); (0, 2)].
Proof.
  split; [|reflexivity]. apply (greedy_rejection_is_verify pair_argmax pair_mask (fun _ _ _ _ => false) (fun _ _ => 0)); [|lia|by repeat constructor|by repeat constructor].
  intros d [a b]. unfold pair_argmax, pair_mask. cbn [fst snd]. intros Hd. repeat case_decide; cbn [fst snd] in *; repeat case_decide; lia.
Defined.

(** * Handoff from prefill to decode *)

(** The drafts a runner holds for a sequence. *)
Definition draft_of (r : MTPRunner) (id : Z) : option (list Z) :=
  match prev_drafts r, prev_seq_ids r with Some drafts, Some ids => i ← index_by_id ids !! id; drafts !! i | _, _ => None end.

Lemma foldl_writes_other {A} (ws : list (nat * A)) (h : list A) i : (forall w, w ∈ ws -> fst w <> i) -> foldl (fun h w => <[fst w := snd w]> h) h ws !! i = h !! i.
Proof.
  revert h. induction ws as [|w ws IH]; intros h Hw; [done|]. cbn [foldl]. rewrite IH by (intros w' Hw'; apply Hw; by right).
  apply list_lookup_insert_ne. apply Hw. by left.
Qed.

Lemma foldl_writes_same {A} (ws : list (nat * A)) (h : list A) i v :
  (i < length h)%nat -> (forall w, w ∈ ws -> fst w = i -> snd w = v) -> (exists w, w ∈ ws /\ fst w = i) ->
  foldl (fun h w => <[fst w := snd w]> h) h ws !! i = Some v.
Proof.
  revert h. induction ws as [|w ws IH]; intros h Hi Hv (w' & Hw' & Hwi); [by apply elem_of_nil in Hw'|]. cbn [foldl].
  destruct (decide (Exists (fun w => fst w = i) ws)) as [Hex|Hno].
  - apply IH; [by rewrite length_insert|intros; apply Hv; [by right|done]|by apply Exists_exists].
  - rewrite foldl_writes_other by (intros x Hx He; apply Hno, Exists_exists; eauto).
    apply elem_of_cons in Hw' as [->|Hin]; [|destruct Hno; apply Exists_exists; eauto]. rewrite <- Hwi in *. rewrite list_lookup_insert_eq by done.
    f_equal. apply Hv; [by left|done].
Qed.

Lemma invalidate_lookup slots h i row :
  h !! i = Some row -> invalidate slots h !! i = Some (if decide (Z.of_nat i ∈ slots) then replicate (length row) (-1) else row).
Proof.
  intros Hi. unfold invalidate. rewrite list_lookup_imap, Hi. cbn. case_decide; [|done]. f_equal. clear.
  induction row as [|x row IH]; [done|]. cbn. by rewrite IH.
Qed.

Lemma fst_imap_pair {A} (l : list A) : fst <$> imap pair l = seq 0 (length l).
Proof. rewrite fmap_imap. rewrite <- (list_fmap_id (seq 0 (length l))). apply (imap_seq_0 l id). Qed.

Section handoff.
Context (n : nat) (r : MTPRunner).
Hypothesis Hwf : wf_mtp n r.

(** The rows written for the resolved entries. *)
Lemma publish_rows ids drafts (entries : list (Z * Z)) :
  prev_seq_ids r = Some ids -> prev_drafts r = Some drafts ->
  exists rows, mapM_r (fun x => d ← of_option IndexError (drafts !! snd x); Ok (Z.to_nat (snd (fst x)), fst (fst x) :: d))
                 (omap (fun p => (fun i => (fst p, snd p, i)) <$> index_by_id ids !! fst p) entries) = Ok rows /\
    forall w, w ∈ rows <-> exists id s d, (id, s) ∈ entries /\ draft_of r id = Some d /\ w = (Z.to_nat s, id :: d).
Proof.
  intros Ei Ed. destruct Hwf as [_ Hd]. destruct (Hd _ _ Ei Ed) as [Hl _].
  induction entries as [|[id s] entries (rows & IH & Hrows)]; [exists []; split; [done|intros w; split; [by intros ?%elem_of_nil|intros (? & ? & ? & ?%elem_of_nil & _); done]]|].
  cbn [omap list_omap fst snd]. destruct (index_by_id ids !! id) as [i|] eqn:Ex; cbn [fmap option_fmap option_map].
  - pose proof (index_by_id_sound _ _ _ Ex) as Hi. apply lookup_lt_Some in Hi. rewrite <- Hl in Hi. destruct (lookup_lt_is_Some_2 _ _ Hi) as [d Hdi].
    exists ((Z.to_nat s, id :: d) :: rows). cbn [mapM_r fst snd]. rewrite Hdi. cbn [of_option mbind result_bind]. rewrite IH. split; [done|].
    assert (draft_of r id = Some d) as Hdr by (unfold draft_of; rewrite Ei, Ed; cbn; by rewrite Ex).
    intros w. rewrite elem_of_cons, Hrows. split.
    + intros [->|(id' & s' & d' & Hin & ?)]; [exists id, s, d; split; [by left|done]|exists id', s', d'; split; [by right|done]].
    + intros (id' & s' & d' & [[= -> ->]|Hin]%elem_of_cons & Hd' & ->); [left; congruence|right; by exists id', s', d'].
  - exists rows. split; [done|]. intros w. rewrite Hrows. split; intros (id' & s' & d' & Hin & Hd' & ->); exists id', s', d'; split_and!; try done; [by right|].
    apply elem_of_cons in Hin as [[= -> ->]|?]; [|done]. unfold draft_of in Hd'. rewrite Ei, Ed in Hd'. cbn in Hd'. by rewrite Ex in Hd'.
Qed.

Lemma publish_lookup seq_ids slots h k h1 j id s :
  publish_disagg_handoff seq_ids slots (length seq_ids) n r h = Ok (k, h1) ->
  NoDup slots -> Forall (fun row => length row = S n) h -> seq_ids !! j = Some id -> slots !! j = Some s -> 0 <= s < zlen h ->
  h1 !! Z.to_nat s = Some (match draft_of r id with Some d => id :: d | None => replicate (S n) (-1) end).
Proof.
  intros Hp Hnd Hh Hid Hs Hr. unfold publish_disagg_handoff in Hp. set (entries := handoff_entries _ _ _ _) in *.
  assert ((id, s) ∈ entries) as Hin.
  { apply list_elem_of_filter. split; [done|]. rewrite take_ge by (rewrite length_zip; lia). apply list_elem_of_lookup. exists j. by apply lookup_zip_Some. }
  assert (forall id', (id', s) ∈ entries -> id' = id) as Huniq.
  { intros id' [_ Hin']%list_elem_of_filter. rewrite take_ge in Hin' by (rewrite length_zip; lia). apply list_elem_of_lookup in Hin' as [j' Hj'].
    apply lookup_zip_Some in Hj' as [Hj1 Hj2]. assert (j' = j) as -> by (eapply NoDup_lookup; [exact Hnd|done..]). congruence. }
  destruct (lookup_lt_is_Some_2 h (Z.to_nat s)) as [row Hrow]; [unfold zlen in Hr; lia|]. pose proof (Forall_lookup_1 _ _ _ _ Hh Hrow) as Hlen. cbn in Hlen.
  assert (invalidate (snd <$> entries) h !! Z.to_nat s = Some (replicate (S n) (-1))) as Hinv.
  { rewrite (invalidate_lookup _ _ _ _ Hrow), decide_True, Hlen; [done|]. rewrite Z2Nat.id by lia. apply list_elem_of_fmap. by exists (id, s). }
  destruct (decide (entries = [])) as [He|_]; [rewrite He in Hin; by apply elem_of_nil in Hin|].
  destruct (prev_drafts r) as [drafts|] eqn:Ed; [|unfold draft_of; rewrite Ed; by injection Hp as <- <-].
  destruct (prev_seq_ids r) as [ids|] eqn:Ei; [|unfold draft_of; rewrite Ed, Ei; by injection Hp as <- <-].
  destruct (proj2 Hwf _ _ Ei Ed) as [_ Hf]. destruct (decide (Exists _ drafts)) as [Hex|_].
  { apply Exists_exists in Hex as (d & Hd1 & Hd2). rewrite Forall_forall in Hf. by specialize (Hf d Hd1). }
  destruct (publish_rows ids drafts entries Ei Ed) as (rows & Hm & Hrows). rewrite Hm in Hp. cbn [mbind result_bind] in Hp. injection Hp as <- <-.
  assert (forall id' s', (id', s') ∈ entries -> 0 <= s') as Hpos by (intros id' s' [Hq _]%list_elem_of_filter; cbn in Hq; lia).
  destruct (draft_of r id) as [d|] eqn:Edr.
  - apply foldl_writes_same; [by eapply lookup_lt_Some| |exists (Z.to_nat s, id :: d); split; [apply Hrows; by exists id, s, d|done]].
    intros w Hw Hws. apply Hrows in Hw as (id' & s' & d' & Hin' & Hd' & ->). cbn in Hws. pose proof (Hpos _ _ Hin').
    assert (s' = s) as -> by lia. rewrite (Huniq id') in * by done. cbn. congruence.
  - rewrite foldl_writes_other; [done|]. intros w Hw. apply Hrows in Hw as (id' & s' & d' & Hin' & Hd' & ->). cbn. pose proof (Hpos _ _ Hin'). intros Heq.
    assert (s' = s) as -> by lia. rewrite (Huniq id') in * by done. congruence.
Qed.

(** What [handoff\[slot_tensor, 0\] = -1] leaves. *)
Definition consumed (slots : list Z) (h : Handoff) : Handoff :=
  foldl (fun h s => alter (fun row => match row with _ :: d => -1 :: d | [] => [] end) (Z.to_nat s) h) h slots.

Lemma restore_fresh (ids slots : list Z) (h rows : Handoff) :
  ids <> [] -> length ids = length slots -> Forall (fun row => length row = S n) h ->
  Forall2 (fun s row => 0 <= s < zlen h /\ h !! Z.to_nat s = Some row) slots rows ->
  restore_disagg_handoff n ids slots (length ids) new_mtp_runner h =
    if forallb (fun p => valid_row (fst p) (snd p)) (zip ids rows) then Ok (true, mk_mtp (Some ids) (Some (drop 1 <$> rows)) None None None, consumed slots h)
    else Ok (false, new_mtp_runner, h).
Proof.
  intros Hne Hl Hh Hrows. unfold restore_disagg_handoff. rewrite take_ge by lia. cbn [prev_drafts prev_seq_ids new_mtp_runner].
  rewrite decide_False by (destruct ids; simpl; [done|lia]). rewrite filter_all by (apply Forall_forall; intros; apply lookup_empty).
  rewrite decide_False by (destruct ids; [done|by rewrite imap_cons]). rewrite decide_False.
  2: { intros [(row & Hr1 & Hr2)%Exists_exists|?]; [|lia]. rewrite Forall_forall in Hh. by specialize (Hh row Hr1). }
  assert ((fun p => default (-1) (slots !! fst p)) <$> imap pair ids = slots) as ->.
  { apply list_eq. intros i. rewrite list_lookup_fmap, list_lookup_imap. destruct (ids !! i) as [x|] eqn:Ex.
    - apply lookup_lt_Some in Ex. destruct (lookup_lt_is_Some_2 slots i) as [y Hy]; [lia|]. cbn. by rewrite Hy.
    - apply lookup_ge_None in Ex. symmetry. apply lookup_ge_None. lia. }
  rewrite decide_False.
  2: { intros (x & Hx & Hbad)%Exists_exists. apply list_elem_of_lookup in Hx as [i Hi]. destruct (Forall2_lookup_l _ _ _ _ _ Hrows Hi) as (row & _ & Hb & _). lia. }
  assert (mapM_r (fun s => of_option IndexError (h !! Z.to_nat s)) slots = Ok rows) as ->.
  { clear -Hrows. induction Hrows as [|s row slots rows [_ Hr] _ IH]; [done|]. cbn [mapM_r]. rewrite Hr. cbn. by rewrite IH. }
  cbn [mbind result_bind]. assert (length rows = length ids) as Hlr by (rewrite Hl; symmetry; by eapply Forall2_length).
  assert (forallb (fun p => valid_row (snd (fst p)) (snd p)) (zip (imap pair ids) rows) = forallb (fun p => valid_row (fst p) (snd p)) (zip ids rows)) as ->.
  { clear. enough (forall k, forallb (fun p => valid_row (snd (fst p)) (snd p)) (zip (imap (fun i x => ((k + i)%nat, x)) ids) rows) = forallb (fun p => valid_row (fst p) (snd p)) (zip ids rows)) as H by apply (H 0%nat).
    revert rows. induction ids as [|x ids IH]; intros [|row rows] k; [done..|]. rewrite imap_cons. cbn. f_equal.
    rewrite (imap_ext _ (fun i x => ((S k + i)%nat, x))) by (intros; unfold compose; f_equal; lia). apply IH. }
  destruct (forallb _ _); [|done]. cbn [negb].
  enough (mapM_r _ (imap pair ids) = Ok (drop 1 <$> rows)) as -> by done.
  assert (forall i row, rows !! i = Some row -> (list_to_map (zip (fst <$> imap pair ids) (drop 1 <$> rows)) : gmap nat (list Z)) !! i = Some (drop 1 row)) as Hmig.
  { intros i row Hi. apply elem_of_list_to_map_1; [rewrite fst_zip by (rewrite !length_fmap, length_imap; lia); rewrite fst_imap_pair; apply NoDup_seq|].
    apply list_elem_of_lookup. exists i. apply lookup_zip_Some. rewrite !list_lookup_fmap, list_lookup_imap, Hi. split; [|done].
    destruct (lookup_lt_is_Some_2 ids i) as [x ->]; [rewrite <- Hlr; by eapply lookup_lt_Some|]. done. }
  apply mapM_r_Ok, Forall2_same_length_lookup. split; [by rewrite length_imap, length_fmap|].
  intros i p d Hp Hd. rewrite list_lookup_imap in Hp. destruct (ids !! i) as [x|]; [|done]. injection Hp as <-. cbn [fst].
  rewrite list_lookup_fmap in Hd. destruct (rows !! i) as [row|] eqn:Er; [|done]. injection Hd as <-. by rewrite (Hmig _ _ Er).
Qed.

Lemma consumed_length slots (h : Handoff) : length (consumed slots h) = length h.
Proof. revert h. unfold consumed. induction slots as [|s slots IH]; intros h; [done|]. cbn [foldl]. rewrite IH. apply length_alter. Qed.

Lemma consumed_row slots (h : Handoff) i row :
  h !! i = Some row -> exists row', consumed slots h !! i = Some row' /\ length row' = length row /\
    (Forall (fun s => 0 <= s) slots -> (Z.of_nat i ∈ slots -> head row' = Some (-1) \/ row' = []) /\ (head row = Some (-1) -> head row' = Some (-1))).
Proof.
  revert h row. unfold consumed. induction slots as [|s slots IH]; intros h row Hi; [exists row; split_and!; [done..|]; intros _; split; [by intros ?%elem_of_nil|done]|].
  cbn [foldl]. destruct (decide (Z.to_nat s = i)) as [Hs|Hs].
  - set (row1 := match row with _ :: d => -1 :: d | [] => [] end). destruct (IH (alter (fun row => match row with _ :: d => -1 :: d | [] => [] end) (Z.to_nat s) h) row1) as (row' & Hr & Hl & Hh).
    { rewrite Hs, list_lookup_alter_eq, Hi. done. }
    exists row'. split; [done|]. assert (length row1 = length row) as Hl1 by (by destruct row). split; [lia|]. intros [_ Hf]%Forall_cons. destruct (Hh Hf) as [Hh1 Hh2].
    split; [intros _|intros Hm; apply Hh2; by destruct row]. destruct row as [|x row]; [right; by destruct row'|left; by apply Hh2].
  - destruct (IH (alter (fun row => match row with _ :: d => -1 :: d | [] => [] end) (Z.to_nat s) h) row) as (row' & Hr & Hl & Hh); [by rewrite list_lookup_alter_ne|].
    exists row'. split_and!; [done..|]. intros [H0 Hf]%Forall_cons. destruct (Hh Hf) as [Hh1 Hh2]. split; [|done].
    intros [Heq|Hin]%elem_of_cons; [lia|by apply Hh1].
Qed.
End handoff.

Definition published (n : nat) (r : MTPRunner) (id : Z) : list Z := match draft_of r id with Some d => id :: d | None => replicate (S n) (-1) end.

Lemma draft_of_length n r id d : wf_mtp n r -> draft_of r id = Some d -> length d = n.
Proof.
  intros [_ Hwf]. unfold draft_of. destruct (prev_drafts r) as [ds|] eqn:Ed; [|done]. destruct (prev_seq_ids r) as [ids|] eqn:Ei; [|done].
  destruct (Hwf _ _ eq_refl eq_refl) as [_ Hf]. intros (i & _ & Hi)%bind_Some. apply (Forall_lookup_1 _ _ _ _ Hf Hi).
Qed.

Lemma published_valid n r ids :
  Forall (fun id => 0 <= id) ids -> (forall id d, draft_of r id = Some d -> Forall (fun t => 0 <= t) d) ->
  if forallb (fun p => valid_row (fst p) (snd p)) (zip ids (published n r <$> ids)) then mapM (draft_of r) ids = Some (drop 1 <$> (published n r <$> ids))
  else mapM (draft_of r) ids = None.
Proof.
  intros Hids Hd. induction Hids as [|id ids Hid Hids IH]; [done|]. cbn. unfold published at 1. destruct (draft_of r id) as [d|] eqn:Ed; cbn.
  - rewrite bool_decide_true by done. cbn [andb]. replace (forallb (fun t => 0 <=? t) d) with true.
    2: { symmetry. apply forallb_forall. intros t Ht. apply Z.leb_le. specialize (Hd _ _ Ed). rewrite Forall_forall in Hd. by apply Hd, list_elem_of_In. }
    cbn [andb]. destruct (forallb _ _); rewrite IH; [|done]. cbn. unfold published at 2. by rewrite Ed.
  - by rewrite bool_decide_false by lia.
Qed.

(** Round trip of the drafts of a disaggregated prefill: when the decode engine's rows are
    copies of the rows the prefill engine published, [restore_disagg_handoff] gives a fresh
    runner the drafts the prefill runner held, in batch order, if it held some for every sequence; if it held
    none for one of them (its row is then invalidated, whatever it contained before) nothing is restored.  Restored
    rows are consumed: they are not restored a second time. *)
Theorem handoff_roundtrip n r seq_ids slots (h : Handoff) slots' (h' : Handoff) k h1 :
  wf_mtp n r -> seq_ids <> [] -> length slots = length seq_ids -> NoDup slots -> Forall (fun id => 0 <= id) seq_ids ->
  (forall id d, draft_of r id = Some d -> Forall (fun t => 0 <= t) d) ->
  Forall (fun s => 0 <= s < zlen h) slots -> Forall (fun row => length row = S n) h -> Forall (fun row => length row = S n) h' ->
  publish_disagg_handoff seq_ids slots (length seq_ids) n r h = Ok (k, h1) ->
  Forall2 (fun s s' => 0 <= s' < zlen h' /\ h' !! Z.to_nat s' = h1 !! Z.to_nat s) slots slots' ->
  restore_disagg_handoff n seq_ids slots' (length seq_ids) new_mtp_runner h' =
    match mapM (draft_of r) seq_ids with
    | Some ds => Ok (true, mk_mtp (Some seq_ids) (Some ds) None None None, consumed slots' h')
    | None => Ok (false, new_mtp_runner, h')
    end /\
  restore_disagg_handoff n seq_ids slots' (length seq_ids) new_mtp_runner (consumed slots' h') = Ok (false, new_mtp_runner, consumed slots' h').
Proof.
  intros Hwf Hne Hl Hnd Hids Hd Hin Hh Hh' Hp Hcopy. pose proof (Forall2_length _ _ _ Hcopy) as Hl'.
  assert (Forall2 (fun s row => 0 <= s < zlen h' /\ h' !! Z.to_nat s = Some row) slots' (published n r <$> seq_ids)) as Hrows.
  { apply Forall2_same_length_lookup. split; [rewrite length_fmap; lia|]. intros i s' row Hs' Hr. rewrite list_lookup_fmap in Hr.
    destruct (seq_ids !! i) as [id|] eqn:Eid; [|done]. injection Hr as <-. destruct (Forall2_lookup_r _ _ _ _ _ Hcopy Hs') as (s & Hs & Hr' & Heq).
    split; [done|]. rewrite Heq. eapply publish_lookup; [done..|]. apply (Forall_lookup_1 _ _ _ _ Hin Hs). }
  split.
  - rewrite (restore_fresh n seq_ids slots' h' (published n r <$> seq_ids) Hne ltac:(lia) Hh' Hrows).
    pose proof (published_valid n r seq_ids Hids Hd) as Hv. destruct (forallb _ _); by rewrite Hv.
  - assert (Forall (fun s => 0 <= s) slots') as Hpos.
    { apply Forall_lookup. intros i s' Hs'. destruct (Forall2_lookup_r _ _ _ _ _ Hcopy Hs') as (s & _ & Hr & _). lia. }
    assert (forall s', s' ∈ slots' -> exists row, 0 <= s' < zlen h' /\ consumed slots' h' !! Z.to_nat s' = Some (-1 :: row)) as Hc.
    { intros s' Hs'. pose proof Hs' as Hin'. apply list_elem_of_lookup in Hs' as [i Hs']. destruct (Forall2_lookup_l _ _ _ _ _ Hrows Hs') as (row & _ & Hr & Hrow).
      destruct (consumed_row slots' h' (Z.to_nat s') row Hrow) as (row' & Hr1 & Hr2 & Hr3). destruct (Hr3 Hpos) as [Hr4 _].
      pose proof (Forall_lookup_1 _ _ _ _ Hh' Hrow) as Hlen. cbn in Hlen. destruct Hr4 as [Hhd| ->]; [by rewrite Z2Nat.id by lia| |simpl in Hr2; lia].
      destruct row' as [|x row']; [done|]. injection Hhd as ->. by exists row'. }
    assert (exists rows, Forall2 (fun s row => 0 <= s < zlen (consumed slots' h') /\ consumed slots' h' !! Z.to_nat s = Some row) slots' rows /\ Forall (fun row => head row = Some (-1)) rows) as (rows & Hr & Hm).
    { assert (zlen (consumed slots' h') = zlen h') as -> by (unfold zlen; by rewrite consumed_length). revert Hc. generalize (consumed slots' h'). clear. intros h.
      induction slots' as [|s slots' IH]; intros Hc; [by exists []|]. destruct IH as (rows & Hr & Hm); [intros s' Hs'; apply Hc; by right|].
      destruct (Hc s) as (row & Hb & Hrow); [by left|]. exists ((-1 :: row) :: rows). split; (constructor; [done|done]). }
    rewrite (restore_fresh n seq_ids slots' _ rows Hne ltac:(lia)); [|apply Forall_lookup|exact Hr].
    + replace (forallb _ _) with false; [done|]. destruct seq_ids as [|id ids]; [done|]. destruct rows as [|row rows]; [apply Forall2_length in Hr; simpl in *; lia|].
      apply Forall_cons in Hm as [Hm _]. apply Forall_cons in Hids as [Hid _]. destruct row as [|x row]; [done|]. injection Hm as ->. cbn.
      by rewrite bool_decide_false by lia.
    + intros i row Hi. destruct (lookup_lt_is_Some_2 h' i) as [row0 H0]; [rewrite <- (consumed_length slots'); by eapply lookup_lt_Some|].
      destruct (consumed_row slots' h' i row0 H0) as (row' & Hr' & Hlen & _). rewrite Hi in Hr'. injection Hr' as ->. rewrite Hlen. apply (Forall_lookup_1 _ _ _ _ Hh' H0).
Qed.

Lemma handoff_roundtrip_witness :
  let r := mk_mtp (Some [11; 12]) (Some [[5; 6]; [7; 8]]) None None None in
  let h := [[3; 1; 1]; [12; 9; 9]; [0; 0; 0]] in
  let h' := [[4; 2; 2]; [12; 7; 8]; [11; 5; 6]; [0; 0; 0]] in
  restore_disagg_handoff 2 [12; 11] [1; 2] 2 new_mtp_runner h' = Ok (true, mk_mtp (Some [12; 11]) (Some [[7; 8]; [5; 6]]) None None None, consumed [1; 2] h').
Proof.
  set (r := mk_mtp (Some [11; 12]) (Some [[5; 6]; [7; 8]]) None None None).
  refine (proj1 (handoff_roundtrip 2 r [12; 11] [0; 1] [[3; 1; 1]; [12; 9; 9]; [0; 0; 0]] [1; 2] [[4; 2; 2]; [12; 7; 8]; [11; 5; 6]; [0; 0; 0]] 2 [[12; 7; 8]; [11; 5; 6]; [0; 0; 0]] _ _ _ _ _ _ _ _ _ _ _)).
  - split; [done|]. intros ids ds [= <-] [= <-]. split; [done|by repeat constructor].
  - done.
  - done.
  - by apply (bool_decide_unpack _).
  - repeat constructor; lia.
  - intros id d Hd. unfold draft_of in Hd. cbn [r prev_drafts prev_seq_ids] in Hd. apply bind_Some in Hd as (i & _ & Hi).
    destruct i as [|[|i]]; cbn in Hi; [injection Hi as <-|injection Hi as <-|done]; repeat constructor; lia.
  - repeat constructor; cbn; lia.
  - by repeat constructor.
  - by repeat constructor.
  - vm_compute. reflexivity.
  - repeat constructor; cbn; lia.
Defined.
