(* ===== verification/MtpPredictor.v ===== *)
(** The draft predictor of speculative decoding ([dlengine/runtime/runner/mtp_runner.py]): which
    forwards of the predictor a step runs, on which tokens, positions and cache slots, for a
    decode batch ([generate_and_store]), a prefill batch ([generate_prefill_and_store]) and a
    batch without requests ([_run_uncached_collective_padding]).  The predictor is a parameter:
    its hidden states are any function of the forwards run so far.  The rank shown samples the
    drafts (the others receive them by an all-reduce) and runs without the captured graphs;
    the shared top-k of the sparse indexer is not modelled. *)

From S2P Require Import Prelude HiSparse Microbatch InputPreparer MtpRunner.

Open Scope Z_scope.

(** [x + 1] on a tensor *)
Definition plus_one (l : list Z) : list Z := (fun x => x + 1) <$> l.

(** The cache of a forward: none, the slots of decode rows with the context lengths, rows per
    sequence and HiSparse phase, or the slots of ragged prefill rows. *)
Inductive CacheView :=
  | Uncached
  | PagedDecode (slots lens : list Z) (width phase : nat)
  | PagedPrefill (slots cu_q cu_k : list Z).

Section predictor.
Context {H : Type} (zero_hidden : H).

(** A call of the predictor: its rows, and the cache the batch context shows it. *)
Record Forward := mk_forward { fw_step : nat; fw_ids : list Z; fw_positions : list Z; fw_hidden : list H; fw_cache : CacheView }.

(** The hidden states of the last forward of a history, and [compute_logits(...).argmax(-1)]. *)
Context (mtp_model : list Forward -> list H) (draft_token : nat -> H -> Z).

Definition forward (f : Forward) : act (list Forward) (list H) := fun tr => (Ok (mtp_model (tr ++ [f])), tr ++ [f]).

(** * The chain of drafts *)

Section cached.
Context (block_size : nat) (tables : list (list Z)).

(** [_set_cached_mtp_context]: the slot of the last position of every length. *)
Definition set_cached_mtp_context (cache_lens : list Z) (phase : nat) : result CacheView :=
  slots ← mapM_r (fun p => verify_slot block_size (snd p) (fst p - 1)) (zip cache_lens tables);
  Ok (PagedDecode slots cache_lens 1 phase).

(** The loop of [_continue_cached_mtp_drafts] (without the chain graph). *)
Fixpoint continue_cached_mtp_drafts (num_steps step : nat) (ids positions : list Z) (hidden : list H) (cache_lens : list Z) : act (list Forward) (list (list Z)) :=
  match num_steps with
  | O => mret []
  | S num_steps =>
      let cache_lens := plus_one cache_lens in
      view ← lift (set_cached_mtp_context cache_lens (step + 1));
      hidden ← forward (mk_forward step ids positions hidden view);
      let draft_ids := draft_token step <$> hidden in
      rest ← continue_cached_mtp_drafts num_steps (S step) draft_ids (plus_one positions) hidden cache_lens;
      mret (draft_ids :: rest)
  end.

Definition generate_cached_mtp_drafts (n : nat) (sampled positions : list Z) (hidden : list H) (cache_lens : list Z) : act (list Forward) (list (list Z)) :=
  continue_cached_mtp_drafts n 0 sampled positions hidden cache_lens.

(** [_refresh_and_generate_cached_mtp_drafts]: the drafts and the sampled token of one sequence,
    the token repeated after the accepted prefix. *)
Definition refresh_row (accepted : Z) (drafts : list Z) (sampled : Z) : list Z :=
  imap (fun j c => if decide (Z.of_nat j < accepted) then c else sampled) (drafts ++ [sampled]).

Definition refresh_and_generate_cached_mtp_drafts (n : nat) (selected : option (list (list Z))) (sampled : list Z)
    (verify_positions : list (list Z)) (verify_hidden : list (list H)) (target_lens accepted : list Z) : act (list Forward) (list (list Z)) :=
  drafts ← lift (of_option RuntimeError selected);
  let width := S n in
  let prefix_lens := zip_with (fun l a => l - (a + 1)) target_lens accepted in
  let ids := zip_with (fun a p => refresh_row a (fst p) (snd p)) accepted (zip drafts sampled) in
  let positions := plus_one <$> verify_positions in
  slots ← lift (mapM_r (fun p => mapM_r (fun o => verify_slot block_size (snd p) (fst p + o)) (Z.of_nat <$> seq 0 width)) (zip prefix_lens tables));
  refreshed ← forward (mk_forward 0 (concat ids) (concat positions) (concat verify_hidden)
                         (PagedDecode (concat slots) ((fun l => l + Z.of_nat width) <$> prefix_lens) width width));
  last_hidden ← lift (mapM_r (fun p => py_getitem refreshed (Z.of_nat (fst p) * Z.of_nat width + snd p)) (imap pair accepted));
  last_positions ← lift (mapM_r (fun p => py_getitem (fst p) (snd p)) (zip positions accepted));
  let first_draft := draft_token 0 <$> last_hidden in
  rest ← continue_cached_mtp_drafts (n - 1) 1 first_draft (plus_one last_positions) last_hidden target_lens;
  mret (first_draft :: rest).
End cached.

(** The loop of [_generate_mtp_drafts], and that of the padding: rows without a cache. *)
Fixpoint uncached_drafts (num_steps step : nat) (ids positions : list Z) (hidden : list H) : act (list Forward) (list (list Z)) :=
  match num_steps with
  | O => mret []
  | S num_steps =>
      hidden ← forward (mk_forward step ids positions hidden Uncached);
      let draft_ids := draft_token step <$> hidden in
      rest ← uncached_drafts num_steps (S step) draft_ids (plus_one positions) hidden;
      mret (draft_ids :: rest)
  end.

Definition generate_mtp_drafts (n : nat) (sampled positions : list Z) (hidden : list H) : act (list Forward) (list (list Z)) :=
  uncached_drafts n 0 sampled (plus_one positions) hidden.

(** [l\[:n\]], or [l] completed to [n] rows. *)
Definition pad_rows {A} (d : A) (n : nat) (l : list A) : list A := take n l ++ replicate (n - length l) d.

Definition run_uncached_collective_padding (n : nat) (ids positions : list Z) (hidden : option (list H)) (num_seqs : nat) : act (list Forward) unit :=
  let rows := Nat.max 1 num_seqs in
  _ ← uncached_drafts n 0 (pad_rows 0 rows ids) (pad_rows 1 rows (plus_one positions))
        (pad_rows zero_hidden rows (default [] hidden));
  mret tt.

(** * A decode batch *)

(** What the batch context says of the batch. *)
Record DecodeBatch := mk_decode_batch { db_dummy : bool; db_safe : bool; db_tables : list (list Z); db_lens : list Z }.

(** [x.reshape(num_seqs, width)] *)
Definition reshape_rows {A} (num_seqs width : nat) (l : list A) : result (list (list A)) :=
  if decide (length l = (num_seqs * width)%nat) then Ok ((fun i => take width (drop (i * width) l)) <$> seq 0 num_seqs) else Err RuntimeError.

(** [torch.stack(drafts, dim=1)] *)
Definition stack_drafts (num_seqs : nat) (drafts : list (list Z)) : result (list (list Z)) :=
  mapM_r (fun i => mapM_r (fun d => of_option RuntimeError (d !! i)) drafts) (seq 0 num_seqs).

(** [generate_and_store]; [accepted] is given when the step verified drafts. *)
Definition generate_and_store (n block_size : nat) (b : DecodeBatch) (seq_ids input_ids positions : list Z) (last_hidden : list H) (num_seqs : nat)
    (accepted : option (list Z)) (r : MTPRunner) : act (list Forward) MTPRunner :=
  if db_dummy b then
    _ ← run_uncached_collective_padding n input_ids positions (Some last_hidden) num_seqs;
    mret (reset_lazy_verify_state r)
  else
    rows ← lift (match accepted with
                 | Some acc => hidden ← reshape_rows num_seqs (S n) last_hidden; pos ← reshape_rows num_seqs (S n) positions; Ok (Some (acc, hidden, pos))
                 | None => Ok None
                 end);
    if negb (db_safe b) then mret (store_drafts false seq_ids num_seqs [] r)
    else
      let target_lens := take num_seqs (db_lens b) in
      drafts ← (if decide (1 < n)%nat then
                  match rows with
                  | Some (acc, hidden, pos) =>
                      refresh_and_generate_cached_mtp_drafts block_size (db_tables b) n (take num_seqs <$> selected_prev_drafts r) (take num_seqs input_ids) pos hidden target_lens acc
                  | None => generate_cached_mtp_drafts block_size (db_tables b) n input_ids (plus_one positions) last_hidden ((fun l => l - 1) <$> target_lens)
                  end
                else
                  match rows with
                  | Some (acc, hidden, pos) =>
                      h ← lift (mapM_r (fun p => py_getitem (fst p) (snd p)) (zip hidden acc));
                      base ← lift (mapM_r (fun p => q ← py_getitem (fst p) 0; Ok (q + snd p)) (zip pos acc));
                      generate_mtp_drafts n input_ids base h
                  | None => generate_mtp_drafts n input_ids positions last_hidden
                  end);
      stacked ← lift (stack_drafts num_seqs drafts);
      mret (store_drafts true seq_ids num_seqs stacked r).

(** * A prefill batch *)

(** [cu\[1:\] - cu\[:-1\]] and [x.cumsum(0)] *)
Definition diffs (cu : list Z) : list Z := zip_with Z.sub (tail cu) cu.
Fixpoint cumsum (acc : Z) (l : list Z) : list Z := match l with [] => [] | x :: l => acc + x :: cumsum (acc + x) l end.

Definition index_select {A} (l : list A) (rows : list Z) : result (list A) :=
  mapM_r (fun i => if decide (i < 0) then Err IndexError else of_option IndexError (l !! Z.to_nat i)) rows.

Definition nonempty_ragged_bounds (cu : list Z) (num_seqs : nat) : option (list Z) :=
  if decide (length cu < num_seqs + 1)%nat then None
  else
    let bounds := take (num_seqs + 1) cu in
    if decide (Exists (fun d => d <= 0) (diffs bounds)) then None else Some bounds.

Definition active_ragged_last_rows (cu : list Z) (num_seqs : nat) : list Z := (fun x => x - 1) <$> take num_seqs (drop 1 cu).

(** [_select_ragged_rows]: the indices of the tokens of the selected rows, and their bounds. *)
Definition select_ragged_rows (cu rows : list Z) : result (list Z * list Z) :=
  if decide (length cu <= 1 \/ rows = [])%nat then Ok ([], [0])
  else
    let lengths := diffs cu in
    if decide (Exists (fun l => l < 0) lengths) then Err RuntimeError
    else
      selected ← index_select lengths rows;
      let token_indices := omap (fun p => if decide (Z.of_nat (snd p) ∈ rows) then Some (Z.of_nat (fst p)) else None) (imap pair (token_rows lengths)) in
      Ok (token_indices, 0 :: cumsum 0 selected).

(** What the prefill context says of the batch. *)
Record PrefillBatch := mk_prefill_batch {
  pb_cu_q : option (list Z);
  pb_cu_k : option (list Z);
  pb_tables : option (list (list Z));
  pb_slots : option (list Z);
  (** [sampling_seq_indices] *)
  pb_rows : option (list Z)
}.

(** The batch that seeds the predictor. *)
Record Seed := mk_seed {
  sd_ids : list Z; sd_positions : list Z; sd_sampled : list Z; sd_hidden : list H;
  sd_cu_q : list Z; sd_cu_k : list Z; sd_tables : list (list Z); sd_slots : list Z;
  sd_seq_ids : list Z; sd_num_seqs : nat
}.

Definition select_prefill_seed_batch (pb : PrefillBatch) (ids positions sampled : list Z) (last_hidden : option (list H)) (seq_ids : list Z) (num_seqs : nat) : result (option Seed) :=
  match last_hidden, pb_cu_q pb, pb_cu_k pb, pb_tables pb, pb_slots pb with
  | Some hidden, Some cu_q, Some cu_k, Some tables, Some slots =>
      if decide (length sampled < num_seqs)%nat then Ok None
      else match pb_rows pb with
           | None => Ok (Some (mk_seed ids positions sampled hidden cu_q cu_k tables slots (take num_seqs seq_ids) num_seqs))
           | Some [] => Ok None
           | Some rows =>
               let cu_q := take (num_seqs + 1) cu_q in
               let cu_k := take (num_seqs + 1) cu_k in
               '(tokens, compact_q) ← select_ragged_rows cu_q rows;
               if decide (tokens = []) then Ok None
               else
                 keys ← index_select (diffs cu_k) rows;
                 slots ← index_select slots tokens;
                 tables ← index_select tables rows;
                 ids ← index_select ids tokens;
                 positions ← index_select positions tokens;
                 sampled ← index_select sampled rows;
                 hidden ← index_select hidden tokens;
                 seq_ids ← mapM_r (py_getitem seq_ids) rows;
                 Ok (Some (mk_seed ids positions sampled hidden compact_q (0 :: cumsum 0 keys) tables slots seq_ids (length rows)))
           end
  | _, _, _, _, _ => Ok None
  end.

(** The segments, each shifted left and ended by its sampled token. *)
Definition shifted_part (ids sampled cu : list Z) (i : nat) : result (list Z) :=
  start ← of_option IndexError (cu !! i);
  stop ← of_option IndexError (cu !! S i);
  Ok (py_from (py_upto ids stop) (start + 1) ++ take 1 (drop i sampled)).

Definition generate_prefill_and_store (n block_size : nat) (pb : PrefillBatch) (ids positions sampled : list Z) (last_hidden : option (list H)) (seq_ids : list Z)
    (num_seqs : nat) (r : MTPRunner) : act (list Forward) MTPRunner :=
  if decide (n = 1)%nat then mret (reset_lazy_verify_state r)
  else
    seed ← lift (select_prefill_seed_batch pb ids positions sampled last_hidden seq_ids num_seqs);
    match seed with
    | None =>
        _ ← run_uncached_collective_padding n ids positions last_hidden num_seqs;
        mret (reset_lazy_verify_state r)
    | Some s =>
        match nonempty_ragged_bounds (sd_cu_q s) (sd_num_seqs s) with
        | None =>
            _ ← run_uncached_collective_padding n (sd_ids s) (sd_positions s) last_hidden (sd_num_seqs s);
            mret (reset_lazy_verify_state r)
        | Some _ =>
            let m := sd_num_seqs s in
            parts ← lift (mapM_r (shifted_part (sd_ids s) (sd_sampled s) (sd_cu_q s)) (seq 0 m));
            let positions := plus_one (sd_positions s) in
            let cu_k := take (m + 1) (sd_cu_k s) in
            hidden ← forward (mk_forward 0 (concat parts) positions (sd_hidden s) (PagedPrefill (sd_slots s) (take (m + 1) (sd_cu_q s)) cu_k));
            let last_rows := active_ragged_last_rows (sd_cu_q s) m in
            last_hidden ← lift (index_select hidden last_rows);
            last_positions ← lift (index_select positions last_rows);
            let first_draft := draft_token 0 <$> last_hidden in
            rest ← continue_cached_mtp_drafts block_size (sd_tables s) (n - 1) 1 first_draft (plus_one last_positions) last_hidden (diffs cu_k);
            stacked ← lift (stack_drafts m (first_draft :: rest));
            mret (mk_mtp (Some (sd_seq_ids s)) (Some stacked) None (mtp_verified_tokens r) (mtp_num_accepted r))
        end
    end.
End predictor.

Arguments Forward : clear implicits.

(** * How many forwards *)

Section count.
Context {H : Type} (zero_hidden : H) (mtp_model : list (Forward H) -> list H) (draft_token : nat -> H -> Z).

Lemma forward_Ok f tr h tr' : forward mtp_model f tr = (Ok h, tr') -> tr' = tr ++ [f].
Proof. unfold forward. by intros [= _ <-]. Qed.

Lemma lift_Ok {A} (x : result A) (tr tr' : list (Forward H)) a : lift x tr = (Ok a, tr') -> x = Ok a /\ tr' = tr.
Proof. unfold lift. by intros [= -> ->]. Qed.

Lemma mret_Ok {A} (x : A) (tr tr' : list (Forward H)) a : (mret x : act (list (Forward H)) A) tr = (Ok a, tr') -> a = x /\ tr' = tr.
Proof. unfold mret, act_ret. by intros [= -> ->]. Qed.

Lemma continue_steps bs tables k : forall step ids pos hidden lens tr drafts tr',
  continue_cached_mtp_drafts mtp_model draft_token bs tables k step ids pos hidden lens tr = (Ok drafts, tr') -> fw_step <$> tr' = (fw_step <$> tr) ++ seq step k.
Proof.
  induction k as [|k IH]; intros step ids pos hidden lens tr drafts tr' Hr; cbn [continue_cached_mtp_drafts] in Hr.
  - apply mret_Ok in Hr as [_ ->]. by rewrite app_nil_r.
  - apply act_bind_Ok in Hr as (view & t1 & [_ ->]%lift_Ok & Hr). apply act_bind_Ok in Hr as (h & t2 & ->%forward_Ok & Hr).
    apply act_bind_Ok in Hr as (rest & t3 & Hc & [_ ->]%mret_Ok). apply IH in Hc. by rewrite Hc, fmap_app, <- app_assoc.
Qed.

Lemma uncached_steps k : forall step ids pos hidden tr,
  exists drafts tr', uncached_drafts mtp_model draft_token k step ids pos hidden tr = (Ok drafts, tr') /\ fw_step <$> tr' = (fw_step <$> tr) ++ seq step k.
Proof.
  induction k as [|k IH]; intros step ids pos hidden tr; cbn [uncached_drafts].
  - exists [], tr. by rewrite app_nil_r.
  - unfold mbind, act_bind, forward. cbv beta iota. set (f := mk_forward _ _ _ _ _).
    destruct (IH (S step) (draft_token step <$> mtp_model (tr ++ [f])) (plus_one pos) (mtp_model (tr ++ [f])) (tr ++ [f])) as (drafts & tr' & Hr & Hs).
    unfold mbind, act_bind, forward in Hr. rewrite Hr. eexists _, tr'. split; [done|]. by rewrite Hs, fmap_app, <- app_assoc.
Qed.

Lemma uncached_steps_Ok k step ids pos hidden tr drafts tr' :
  uncached_drafts mtp_model draft_token k step ids pos hidden tr = (Ok drafts, tr') -> fw_step <$> tr' = (fw_step <$> tr) ++ seq step k.
Proof. destruct (uncached_steps k step ids pos hidden tr) as (d & t & -> & Hs). by intros [= _ <-]. Qed.

(** The padding always ends. *)
Lemma padding_steps n ids pos hidden num_seqs tr :
  exists tr', run_uncached_collective_padding zero_hidden mtp_model draft_token n ids pos hidden num_seqs tr = (Ok tt, tr') /\ fw_step <$> tr' = (fw_step <$> tr) ++ seq 0 n.
Proof.
  unfold run_uncached_collective_padding. edestruct (uncached_steps n 0) as (d & t & Hr & Hs). exists t. unfold mbind at 1, act_bind at 1. by rewrite Hr.
Qed.

Lemma padding_steps_Ok n ids pos hidden num_seqs tr u tr' :
  run_uncached_collective_padding zero_hidden mtp_model draft_token n ids pos hidden num_seqs tr = (Ok u, tr') -> fw_step <$> tr' = (fw_step <$> tr) ++ seq 0 n.
Proof. destruct (padding_steps n ids pos hidden num_seqs tr) as (t & -> & Hs). by intros [= _ <-]. Qed.

Lemma refresh_steps bs tables n sel sampled pos hidden lens acc tr drafts tr' :
  (0 < n)%nat -> refresh_and_generate_cached_mtp_drafts mtp_model draft_token bs tables n sel sampled pos hidden lens acc tr = (Ok drafts, tr') ->
  fw_step <$> tr' = (fw_step <$> tr) ++ seq 0 n.
Proof.
  intros Hn Hr. unfold refresh_and_generate_cached_mtp_drafts in Hr. apply act_bind_Ok in Hr as (ds & t1 & [_ ->]%lift_Ok & Hr).
  apply act_bind_Ok in Hr as (sl & t2 & [_ ->]%lift_Ok & Hr). apply act_bind_Ok in Hr as (h & t3 & ->%forward_Ok & Hr).
  apply act_bind_Ok in Hr as (lh & t4 & [_ ->]%lift_Ok & Hr). apply act_bind_Ok in Hr as (lp & t5 & [_ ->]%lift_Ok & Hr).
  apply act_bind_Ok in Hr as (rest & t6 & Hc & [_ ->]%mret_Ok). apply continue_steps in Hc. rewrite Hc, fmap_app, <- app_assoc.
  destruct n as [|n]; [lia|]. by rewrite Nat.sub_succ, Nat.sub_0_r.
Qed.

Lemma decode_steps n bs b seq_ids ids pos hidden num_seqs acc r tr r' tr' :
  generate_and_store zero_hidden mtp_model draft_token n bs b seq_ids ids pos hidden num_seqs acc r tr = (Ok r', tr') ->
  fw_step <$> tr' = (fw_step <$> tr) ++ (if db_dummy b || db_safe b then seq 0 n else []).
Proof.
  unfold generate_and_store. destruct (db_dummy b).
  { intros (u & t1 & Hp & [_ ->]%mret_Ok)%act_bind_Ok. by eapply padding_steps_Ok. }
  intros (rows & t1 & [_ ->]%lift_Ok & Hr)%act_bind_Ok. destruct (db_safe b); [|cbn [negb orb] in *; apply mret_Ok in Hr as [_ ->]; by rewrite app_nil_r].
  cbn [negb orb] in *. apply act_bind_Ok in Hr as (drafts & t2 & Hd & Hr). apply act_bind_Ok in Hr as (st & t3 & [_ ->]%lift_Ok & [_ ->]%mret_Ok).
  destruct (decide (1 < n)%nat); destruct rows as [[[a h] p]|].
  - eapply refresh_steps; [|exact Hd]. lia.
  - by eapply continue_steps.
  - apply act_bind_Ok in Hd as (x & t4 & [_ ->]%lift_Ok & Hd). apply act_bind_Ok in Hd as (y & t5 & [_ ->]%lift_Ok & Hd). by eapply uncached_steps_Ok.
  - by eapply uncached_steps_Ok.
Qed.

Lemma prefill_steps n bs pb ids pos sampled hidden seq_ids num_seqs r tr r' tr' :
  (0 < n)%nat -> generate_prefill_and_store zero_hidden mtp_model draft_token n bs pb ids pos sampled hidden seq_ids num_seqs r tr = (Ok r', tr') ->
  fw_step <$> tr' = (fw_step <$> tr) ++ (if decide (n = 1)%nat then [] else seq 0 n).
Proof.
  intros Hn. unfold generate_prefill_and_store. destruct (decide (n = 1)%nat); [intros [_ ->]%mret_Ok; by rewrite app_nil_r|].
  intros (seed & t1 & [_ ->]%lift_Ok & Hr)%act_bind_Ok. destruct seed as [s|]; [|apply act_bind_Ok in Hr as (u & t2 & Hp & [_ ->]%mret_Ok); by eapply padding_steps_Ok].
  destruct (nonempty_ragged_bounds _ _); [|apply act_bind_Ok in Hr as (u & t2 & Hp & [_ ->]%mret_Ok); by eapply padding_steps_Ok].
  apply act_bind_Ok in Hr as (parts & t2 & [_ ->]%lift_Ok & Hr). apply act_bind_Ok in Hr as (h & t3 & ->%forward_Ok & Hr).
  apply act_bind_Ok in Hr as (lh & t4 & [_ ->]%lift_Ok & Hr). apply act_bind_Ok in Hr as (lp & t5 & [_ ->]%lift_Ok & Hr).
  apply act_bind_Ok in Hr as (rest & t6 & Hc & Hr). apply act_bind_Ok in Hr as (st & t7 & [_ ->]%lift_Ok & [_ ->]%mret_Ok).
  apply continue_steps in Hc. rewrite Hc, fmap_app, <- app_assoc. destruct n as [|n]; [lia|]. by rewrite Nat.sub_succ, Nat.sub_0_r.
Qed.

(** C36. Lockstep of the predictor's expert-parallel collectives, with [n] drafts per step.
    Every prefill step that returns enters the predictor's steps 0 to [n - 1] in order,
    whatever part of the batch can seed drafts (none at all if [n] is 1); a batch in which no
    row is sampled always returns.  A decode step of a rank without requests always returns
    and enters the same steps; so does every decode step with requests that returns, except
    that a rank whose batch is near the length limit returns without entering any, so that it
    falls out of step with the others. *)
Theorem predictor_ranks_lockstep n bs :
  (0 < n)%nat ->
  (forall pb ids pos sampled hidden seq_ids num r,
     (forall r' tr, generate_prefill_and_store zero_hidden mtp_model draft_token n bs pb ids pos sampled hidden seq_ids num r [] = (Ok r', tr) ->
        fw_step <$> tr = if decide (n = 1)%nat then [] else seq 0 n) /\
     (pb_rows pb = Some [] -> exists tr,
        generate_prefill_and_store zero_hidden mtp_model draft_token n bs pb ids pos sampled hidden seq_ids num r [] = (Ok (reset_lazy_verify_state r), tr))) /\
  (forall b seq_ids ids pos hidden num acc r,
     (db_dummy b = true -> exists tr,
        generate_and_store zero_hidden mtp_model draft_token n bs b seq_ids ids pos hidden num acc r [] = (Ok (reset_lazy_verify_state r), tr) /\
        fw_step <$> tr = seq 0 n) /\
     (db_dummy b = false -> forall r' tr,
        generate_and_store zero_hidden mtp_model draft_token n bs b seq_ids ids pos hidden num acc r [] = (Ok r', tr) ->
        fw_step <$> tr = if db_safe b then seq 0 n else []) /\
     (db_dummy b = false -> db_safe b = false -> acc = None ->
        generate_and_store zero_hidden mtp_model draft_token n bs b seq_ids ids pos hidden num acc r [] = (Ok (store_drafts false seq_ids num [] r), []))).
Proof.
  intros Hn. split; intros *; split_and!.
  - intros r' tr Hr. by rewrite (prefill_steps _ _ _ _ _ _ _ _ _ _ _ _ _ Hn Hr).
  - intros Hrows. unfold generate_prefill_and_store. destruct (decide (n = 1)%nat); [by eexists|].
    assert (select_prefill_seed_batch pb ids pos sampled hidden seq_ids num = Ok None) as Hsel.
    { unfold select_prefill_seed_batch. repeat case_match; try done; simplify_eq. }
    rewrite (lift_bind _ _ _ _ Hsel). destruct (padding_steps n ids pos hidden num []) as (t & Hp & _). exists t. unfold mbind, act_bind. by rewrite Hp.
  - intros Hd. unfold generate_and_store. rewrite Hd. destruct (padding_steps n ids pos (Some hidden) num []) as (t & Hp & Hs).
    exists t. unfold mbind, act_bind. rewrite Hp. done.
  - intros Hd r' tr Hr. rewrite (decode_steps _ _ _ _ _ _ _ _ _ _ _ _ _ Hr), Hd. done.
  - intros Hd Hs ->. unfold generate_and_store. by rewrite Hd, Hs.
Qed.
End count.

(** A predictor whose hidden states are the tokens it was given. *)
Definition echo (tr : list (Forward Z)) : list Z := match last tr with Some f => fw_ids f | None => [] end.

Definition near_limit := generate_and_store 0 echo (fun _ t => t) 2 4 (mk_decode_batch false false [[3]] [1]) [5] [7] [0] [0] 1 None new_mtp_runner [].
Definition no_request := generate_and_store 0 echo (fun _ t => t) 2 4 (mk_decode_batch true true [] [0]) [0] [0] [0] [0] 1 None new_mtp_runner [].

(** A verification step of one sequence that accepts one of its two drafts. *)
Definition one_request :=
  generate_and_store 0 echo (fun _ t => t) 2 4 (mk_decode_batch false true [[10; 11; 12]] [7; 0]) [5] [9] [5; 6; 7] [0; 0; 0] 1 (Some [1])
    (mk_mtp None None (Some [[1; 2]]) None None) [].

Lemma predictor_ranks_lockstep_witness :
  fw_step <$> snd no_request = [0; 1]%nat /\ fw_step <$> snd one_request = [0; 1]%nat /\ near_limit = (Ok (store_drafts false [5] 1 [] new_mtp_runner), []).
Proof.
  destruct (predictor_ranks_lockstep 0 echo (fun _ t => t) 2 4 ltac:(lia)) as [_ Hd]. split_and!.
  - destruct (Hd (mk_decode_batch true true [] [0]) [0] [0] [0] [0] 1%nat None new_mtp_runner) as [H1 _].
    destruct (H1 eq_refl) as (tr & Hr & Hs). unfold no_request. rewrite Hr. exact Hs.
  - destruct (Hd (mk_decode_batch false true [[10; 11; 12]] [7; 0]) [5] [9] [5; 6; 7] [0; 0; 0] 1%nat (Some [1]) (mk_mtp None None (Some [[1; 2]]) None None)) as (_ & H2 & _).
    unfold one_request. eapply (H2 eq_refl). vm_compute. reflexivity.
  - destruct (Hd (mk_decode_batch false false [[3]] [1]) [5] [7] [0] [0] 1%nat None new_mtp_runner) as (_ & _ & H3). by apply H3.
Defined.

(** * Alignment of the predictor's cache *)

Lemma verify_slot_ok bs table pos : (0 < bs)%nat -> 0 <= pos < Z.of_nat bs * Z.of_nat (length table) -> exists slot, verify_slot bs table pos = Ok slot.
Proof.
  intros Hbs Hp. unfold verify_slot. rewrite decide_False by lia.
  destruct (lookup_lt_is_Some_2 table (Z.to_nat (pos / Z.of_nat bs))) as [page ->]; [|eauto].
  assert (pos / Z.of_nat bs < Z.of_nat (length table)) by (apply Z.div_lt_upper_bound; lia). pose proof (Z.div_pos pos (Z.of_nat bs)). lia.
Qed.

(** Every row of a decode forward writes the slot of the position before its own: slot [q] of
    the predictor's cache belongs to the token at [q + 1]. *)
Definition aligned {H} (bs : nat) (tables : list (list Z)) (f : Forward H) : Prop :=
  exists slots lens width phase, fw_cache f = PagedDecode slots lens width phase /\ length slots = length (fw_positions f) /\ length (fw_ids f) = length (fw_positions f) /\
    forall row pos slot, fw_positions f !! row = Some pos -> slots !! row = Some slot ->
      exists table, tables !! (row / width)%nat = Some table /\ verify_slot bs table (pos - 1) = Ok slot.

Section aligned.
Context {H : Type} (zero_hidden : H) (mtp_model : list (Forward H) -> list H) (draft_token : nat -> H -> Z) (bs : nat).
Hypothesis Hmodel : forall tr f, length (mtp_model (tr ++ [f])) = length (fw_ids f).
Hypothesis Hbs : (0 < bs)%nat.

Lemma cached_context_ok tables lens phase :
  length tables = length lens -> (forall i l t, lens !! i = Some l -> tables !! i = Some t -> 1 <= l <= Z.of_nat bs * Z.of_nat (length t)) ->
  exists slots, set_cached_mtp_context bs tables lens phase = Ok (PagedDecode slots lens 1 phase) /\ length slots = length lens /\
    forall i l t s, lens !! i = Some l -> tables !! i = Some t -> slots !! i = Some s -> verify_slot bs t (l - 1) = Ok s.
Proof.
  intros Hl Hp. unfold set_cached_mtp_context.
  enough (exists slots, mapM_r (fun p => verify_slot bs (snd p) (fst p - 1)) (zip lens tables) = Ok slots) as [slots Hs].
  { rewrite Hs. exists slots. split; [done|]. apply mapM_r_Ok in Hs. pose proof (Forall2_length _ _ _ Hs) as Hlen. rewrite length_zip_with in Hlen. split; [lia|].
    intros i l t s Hi Ht Hsi. destruct (Forall2_lookup_r _ _ _ _ _ Hs Hsi) as ([l' t'] & Hpi & Hv). apply lookup_zip_Some in Hpi as [H1 H2].
    rewrite Hi in H1. rewrite Ht in H2. by simplify_eq. }
  revert tables Hl Hp. induction lens as [|l lens IH]; intros [|t tables] Hl Hp; [by exists []|done|done|].
  destruct (IH tables) as [slots Hs]; [simpl in Hl; lia|intros i l' t' H1 H2; apply (Hp (S i) l' t' H1 H2)|].
  destruct (verify_slot_ok bs t (l - 1) Hbs) as [s Hv]; [specialize (Hp 0%nat l t eq_refl eq_refl); lia|].
  exists (s :: slots). cbn [zip zip_with mapM_r fst snd]. by rewrite Hv, Hs.
Qed.

(** The chain: [k] forwards on the previous drafts, each one position further. *)
Lemma continue_aligned tables k : forall step ids pos hidden lens tr,
  length tables = length lens -> length ids = length lens -> pos = plus_one lens ->
  (forall i l t, lens !! i = Some l -> tables !! i = Some t -> 0 <= l /\ l + Z.of_nat k <= Z.of_nat bs * Z.of_nat (length t)) ->
  exists drafts fs, continue_cached_mtp_drafts mtp_model draft_token bs tables k step ids pos hidden lens tr = (Ok drafts, tr ++ fs) /\
    length drafts = k /\ length fs = k /\ Forall (fun d => length d = length lens) drafts /\ Forall (aligned bs tables) fs /\
    forall j f, fs !! j = Some f -> (ids :: drafts) !! j = Some (fw_ids f) /\ fw_positions f = (fun l => l + 1 + Z.of_nat j) <$> lens.
Proof.
  induction k as [|k IH]; intros step ids pos hidden lens tr Hlt Hli -> Hp; cbn [continue_cached_mtp_drafts].
  { exists [], []. rewrite app_nil_r. split_and!; done. }
  destruct (cached_context_ok tables (plus_one lens) (step + 1)) as (slots & Hs & Hls & Hslots); [unfold plus_one; rewrite length_fmap; lia|..].
  { intros i l t Hi Ht. unfold plus_one in Hi. rewrite list_lookup_fmap in Hi. destruct (lens !! i) as [l0|] eqn:E; [|done]. injection Hi as <-. specialize (Hp i l0 t E Ht). lia. }
  rewrite (lift_bind _ _ _ _ Hs). set (f := mk_forward _ _ _ _ _). unfold forward at 1. unfold mbind at 1, act_bind at 1. cbn [fst snd].
  set (hidden' := mtp_model (tr ++ [f])). assert (length hidden' = length lens) as Hh by (unfold hidden'; rewrite Hmodel; cbn; lia).
  destruct (IH (S step) (draft_token step <$> hidden') (plus_one (plus_one lens)) hidden' (plus_one lens) (tr ++ [f])) as (drafts & fs & Hr & Hld & Hlf & Hfd & Hfa & Hch).
  - unfold plus_one. rewrite length_fmap. done.
  - unfold plus_one. rewrite !length_fmap. done.
  - done.
  - intros i l t Hi Ht. unfold plus_one in Hi. rewrite list_lookup_fmap in Hi. destruct (lens !! i) as [l0|] eqn:E; [|done]. injection Hi as <-. specialize (Hp i l0 t E Ht). lia.
  - exists ((draft_token step <$> hidden') :: drafts), (f :: fs). unfold mbind at 1, act_bind at 1. rewrite Hr. unfold mret, act_ret. cbn [fst snd].
    rewrite <- app_assoc. split; [done|]. unfold plus_one in Hfd. rewrite length_fmap in Hfd. split_and!; [simpl; lia|simpl; lia|constructor; [by rewrite length_fmap|done]|constructor; [|done]|].
    + exists slots, (plus_one lens), 1%nat, (step + 1)%nat. cbn [fw_cache fw_positions fw_ids f]. unfold plus_one in *. rewrite !length_fmap in *. split_and!; [done|lia|lia|].
      intros row p s Hr' Hsr. rewrite Nat.div_1_r. pose proof (lookup_lt_Some _ _ _ Hr') as Hrow. rewrite length_fmap in Hrow.
      destruct (lookup_lt_is_Some_2 tables row) as [t Ht]; [lia|]. exists t. split; [done|]. by eapply Hslots.
    + intros [|j] g Hg; cbn in Hg.
      * injection Hg as <-. cbn. split; [done|]. unfold plus_one. apply list_fmap_ext. intros; lia.
      * destruct (Hch j g Hg) as [Hg1 Hg2]. split; [done|]. rewrite Hg2. unfold plus_one. rewrite <- list_fmap_compose. apply list_fmap_ext. intros; unfold compose; lia.
Qed.

(** ** Rows of a tensor *)

Lemma lookup_concat_rows {A} w (ls : list (list A)) i j :
  Forall (fun l => length l = w) ls -> (j < w)%nat -> concat ls !! (i * w + j)%nat = ls !! i ≫= (fun l => l !! j).
Proof.
  intros Hf Hj. revert i. induction Hf as [|l ls Hl _ IH]; intros i; [done|]. cbn [concat]. destruct i as [|i].
  - rewrite lookup_app_l by lia. done.
  - rewrite lookup_app_r by lia. replace (S i * w + j - length l)%nat with (i * w + j)%nat by lia. apply IH.
Qed.

Lemma length_concat_rows {A} w (ls : list (list A)) : Forall (fun l => length l = w) ls -> length (concat ls) = (length ls * w)%nat.
Proof. induction 1 as [|l ls Hl _ IH]; [done|]. cbn [concat length]. rewrite length_app. lia. Qed.

Lemma reshape_rows_concat {A} w (ls : list (list A)) : Forall (fun l => length l = w) ls -> reshape_rows (length ls) w (concat ls) = Ok ls.
Proof.
  intros Hf. unfold reshape_rows. rewrite decide_True by (by apply length_concat_rows). f_equal.
  induction Hf as [|l ls Hl Hf IH]; [done|]. cbn [length seq fmap list_fmap concat]. f_equal.
  - rewrite drop_0, take_app_le by lia. apply take_ge. lia.
  - rewrite <- IH at 2. rewrite <- fmap_S_seq, <- list_fmap_compose. apply list_fmap_ext. intros i x _. unfold compose.
    f_equal. rewrite drop_app_ge by lia. f_equal. lia.
Qed.

Lemma stack_drafts_ok m drafts :
  Forall (fun d => length d = m) drafts ->
  exists st, stack_drafts m drafts = Ok st /\ length st = m /\ Forall (fun d => length d = length drafts) st /\
    forall i d k, st !! i = Some d -> d !! k = drafts !! k ≫= (fun l => l !! i).
Proof.
  intros Hf. unfold stack_drafts.
  assert (forall i, (i < m)%nat -> exists d, mapM_r (fun d => of_option RuntimeError (d !! i)) drafts = Ok d) as Hrow.
  { intros i Hi. induction Hf as [|d ds Hd _ [x IH]]; [by exists []|]. destruct (lookup_lt_is_Some_2 d i) as [v Hv]; [lia|]. exists (v :: x). cbn. rewrite Hv. cbn. by rewrite IH. }
  assert (exists st, mapM_r (fun i => mapM_r (fun d => of_option RuntimeError (d !! i)) drafts) (seq 0 m) = Ok st) as [st Hst].
  { assert (Forall (fun i => i < m)%nat (seq 0 m)) as Hs by (apply Forall_forall; intros i Hi%elem_of_seq; lia). revert Hs. generalize (seq 0 m). clear Hf.
    induction 1 as [|i l Hi _ [x IH]]; [by exists []|]. destruct (Hrow i Hi) as [d Hd]. exists (d :: x). cbn [mapM_r]. by rewrite Hd, IH. }
  exists st. split; [done|]. apply mapM_r_Ok in Hst. split; [by rewrite <- (Forall2_length _ _ _ Hst), length_seq|].
  assert (forall i d, st !! i = Some d -> Forall2 (fun l y => of_option RuntimeError (l !! i) = Ok y) drafts d) as Hd.
  { intros i d Hi. destruct (Forall2_lookup_r _ _ _ _ _ Hst Hi) as (i' & Hi' & Hm). apply lookup_seq in Hi' as [-> _]. by apply mapM_r_Ok in Hm. }
  split; [apply Forall_lookup; intros i d Hi; symmetry; by eapply Forall2_length, Hd|].
  intros i d k Hi. specialize (Hd i d Hi). destruct (drafts !! k) as [l|] eqn:El.
  - destruct (Forall2_lookup_l _ _ _ _ _ Hd El) as (y & Hy & Ho). rewrite Hy. cbn. by apply of_option_Ok in Ho.
  - apply lookup_ge_None in El. cbn. apply lookup_ge_None. by rewrite <- (Forall2_length _ _ _ Hd).
Qed.

Lemma zip_with_fmap_same {A B C D} (f : B -> C -> D) (g : A -> B) (h : A -> C) l : zip_with f (g <$> l) (h <$> l) = (fun x => f (g x) (h x)) <$> l.
Proof. induction l as [|x l IH]; [done|]. cbn. by rewrite IH. Qed.

(** ** A verification step *)

(** A sequence of the step: the position of its input token, its page table, the drafts it was
    verified with, how many were accepted, and the token sampled after them. *)
Record Verified := mk_verified { v_base : Z; v_table : list Z; v_drafts : list Z; v_accepted : nat; v_next : Z }.

Definition verified_ok (n : nat) (v : Verified) : Prop :=
  length (v_drafts v) = n /\ (v_accepted v <= n)%nat /\ 0 <= v_base v /\ v_base v + 2 * Z.of_nat n < Z.of_nat bs * Z.of_nat (length (v_table v)).

(** Its context length after the rollback, and the positions of its rows. *)
Definition v_len (v : Verified) : Z := v_base v + 1 + Z.of_nat (v_accepted v).
Definition v_positions (n : nat) (v : Verified) : list Z := (fun o => v_base v + Z.of_nat o) <$> seq 0 (S n).

Lemma refresh_row_lookup v n j tok :
  verified_ok n v -> (take (v_accepted v) (v_drafts v) ++ [v_next v]) !! j = Some tok -> refresh_row (Z.of_nat (v_accepted v)) (v_drafts v) (v_next v) !! j = Some tok.
Proof.
  intros (Hl & Ha & _) Hj. unfold refresh_row. rewrite list_lookup_imap. pose proof (lookup_lt_Some _ _ _ Hj) as Hlt. rewrite length_app, length_take in Hlt. simpl in Hlt.
  destruct (decide (j < v_accepted v)%nat) as [Hja|Hja].
  - rewrite lookup_app_l, lookup_take_lt in Hj by (rewrite ?length_take; lia). rewrite lookup_app_l by lia. rewrite Hj. cbn. by rewrite decide_True by lia.
  - assert (j = v_accepted v) as -> by lia. rewrite lookup_app_r in Hj by (rewrite length_take; lia). rewrite length_take, Nat.min_l, Nat.sub_diag in Hj by lia. injection Hj as <-.
    destruct (lookup_lt_is_Some_2 (v_drafts v ++ [v_next v]) (v_accepted v)) as [x ->]; [rewrite length_app; simpl; lia|]. cbn. by rewrite decide_False by lia.
Qed.

Lemma refresh_slots_ok n vs :
  Forall (verified_ok n) vs ->
  exists slots, mapM_r (fun p => mapM_r (fun o => verify_slot bs (snd p) (fst p + o)) (Z.of_nat <$> seq 0 (S n))) (zip (v_base <$> vs) (v_table <$> vs)) = Ok slots /\
    Forall (fun l => length l = S n) slots /\ length slots = length vs /\
    forall i v row j s, vs !! i = Some v -> slots !! i = Some row -> row !! j = Some s -> verify_slot bs (v_table v) (v_base v + Z.of_nat j) = Ok s.
Proof.
  induction 1 as [|v vs Hv _ (slots & IH & Hw & Hl & Hs)]; [exists []; split_and!; [done..|]; intros i ? ? ? ? Hi; done|].
  destruct Hv as (Hd & Ha & Hb & Hp).
  assert (forall l, Forall (fun o => (o <= n)%nat) l -> exists row, mapM_r (fun o => verify_slot bs (v_table v) (v_base v + o)) (Z.of_nat <$> l) = Ok row) as Hrow.
  { induction 1 as [|o l Ho _ [x IHl]]; [by exists []|]. destruct (verify_slot_ok bs (v_table v) (v_base v + Z.of_nat o) Hbs) as [s Hsl]; [lia|]. exists (s :: x). cbn. by rewrite Hsl, IHl. }
  destruct (Hrow (seq 0 (S n))) as [row Hr]; [apply Forall_forall; intros o Ho%elem_of_seq; lia|]. exists (row :: slots). cbn [fmap list_fmap zip zip_with mapM_r fst snd].
  cbn [fmap list_fmap] in Hr. unfold fmap in *. rewrite Hr. rewrite IH. apply mapM_r_Ok in Hr. pose proof (Forall2_length _ _ _ Hr) as Hlr. split; [done|].
  split; [constructor; [|done]|]; [rewrite <- Hlr; simpl; rewrite length_fmap, length_seq; done|]. split; [simpl; lia|].
  intros [|i] v' row' j s Hv' Hr' Hj; cbn in Hv', Hr'; [|by eapply Hs]. injection Hv' as <-. injection Hr' as <-.
  destruct (Forall2_lookup_r _ _ _ _ _ Hr Hj) as (o & Ho & Hsl). change (Z.of_nat 0 :: (fix go l := match l with [] => [] | x :: l => Z.of_nat x :: go l end) (seq 1 n)) with (Z.of_nat <$> seq 0 (S n)) in Ho.
  rewrite list_lookup_fmap in Ho. destruct (seq 0 (S n) !! j) as [o'|] eqn:Eo; [|done]. injection Ho as <-. apply lookup_seq in Eo as [-> _]. done.
Qed.

(** The refreshing forward. *)
Definition refresh_forward (n : nat) (vs : list Verified) (hidden : list (list H)) (slots : list (list Z)) : Forward H :=
  mk_forward 0 (concat ((fun v => refresh_row (Z.of_nat (v_accepted v)) (v_drafts v) (v_next v)) <$> vs)) (concat ((fun v => plus_one (v_positions n v)) <$> vs))
    (concat hidden) (PagedDecode (concat slots) ((fun v => v_base v + Z.of_nat (S n)) <$> vs) (S n) (S n)).

Lemma refresh_widths n vs :
  Forall (verified_ok n) vs ->
  Forall (fun l => length l = S n) ((fun v => refresh_row (Z.of_nat (v_accepted v)) (v_drafts v) (v_next v)) <$> vs) /\
  Forall (fun l => length l = S n) ((fun v => plus_one (v_positions n v)) <$> vs).
Proof.
  intros Hv. split; apply Forall_fmap; (eapply Forall_impl; [exact Hv|]); intros v (Hd & _); cbn.
  - unfold refresh_row. rewrite length_imap, length_app. simpl. lia.
  - unfold plus_one, v_positions. by rewrite !length_fmap, length_seq.
Qed.

Lemma refresh_aligned n vs hidden slots :
  Forall (verified_ok n) vs -> Forall (fun l => length l = S n) slots -> length slots = length vs ->
  (forall i v row j s, vs !! i = Some v -> slots !! i = Some row -> row !! j = Some s -> verify_slot bs (v_table v) (v_base v + Z.of_nat j) = Ok s) ->
  aligned bs (v_table <$> vs) (refresh_forward n vs hidden slots).
Proof.
  intros Hv Hw Hl Hs. destruct (refresh_widths n vs Hv) as [Hwi Hwp]. eexists _, _, _, _. split; [done|]. cbn [fw_positions fw_ids refresh_forward].
  rewrite (length_concat_rows _ _ Hw), (length_concat_rows _ _ Hwi), (length_concat_rows _ _ Hwp), !length_fmap. split_and!; [lia|done|].
  intros row pos slot Hp Hsl. pose proof (Nat.div_mod_eq row (S n)) as Hdm. rewrite (Nat.mul_comm (S n)) in Hdm. pose proof (Nat.mod_upper_bound row (S n) ltac:(lia)) as Hj.
  set (i := (row / S n)%nat) in *. set (j := (row mod S n)%nat) in *. rewrite Hdm in Hp, Hsl. rewrite (lookup_concat_rows _ _ _ _ Hwp Hj) in Hp. rewrite (lookup_concat_rows _ _ _ _ Hw Hj) in Hsl.
  apply bind_Some in Hp as (prow & Hprow & Hp). apply bind_Some in Hsl as (srow & Hsrow & Hsl). rewrite list_lookup_fmap in Hprow.
  destruct (vs !! i) as [v|] eqn:Ev; [|done]. change (Some (plus_one (v_positions n v)) = Some prow) in Hprow. apply (inj Some) in Hprow as <-. exists (v_table v). split; [by rewrite list_lookup_fmap, Ev|].
  cbn beta in Hp. unfold plus_one, v_positions in Hp. rewrite !list_lookup_fmap in Hp. destruct (seq 0 (S n) !! j) as [o|] eqn:Eo; [|done]. injection Hp as <-. apply lookup_seq in Eo as [-> _].
  rewrite <- (Hs i v srow j slot Ev Hsrow Hsl). f_equal. lia.
Qed.

Lemma last_rows_ok n (vs : list Verified) (hidden : list H) :
  Forall (verified_ok n) vs -> length hidden = (length vs * S n)%nat ->
  exists rows, mapM_r (fun p => py_getitem hidden (Z.of_nat (fst p) * Z.of_nat (S n) + snd p)) (imap pair ((fun v => Z.of_nat (v_accepted v)) <$> vs)) = Ok rows /\ length rows = length vs.
Proof.
  intros Hv Hl. enough (exists rows, mapM_r (fun p => py_getitem hidden (Z.of_nat (fst p) * Z.of_nat (S n) + snd p)) (imap pair ((fun v => Z.of_nat (v_accepted v)) <$> vs)) = Ok rows) as [rows Hr].
  { exists rows. split; [done|]. apply mapM_r_Ok, Forall2_length in Hr. by rewrite length_imap, length_fmap in Hr. }
  assert (Forall (fun p : nat * Z => exists k, snd p = Z.of_nat k /\ (fst p * S n + k < length hidden)%nat) (imap pair ((fun v => Z.of_nat (v_accepted v)) <$> vs))) as Hf.
  { apply Forall_lookup. intros i [i' a] Hi. rewrite list_lookup_imap, list_lookup_fmap in Hi. destruct (vs !! i) as [v|] eqn:Ev; [|done]. injection Hi as <- <-.
    exists (v_accepted v). split; [done|]. destruct (Forall_lookup_1 _ _ _ _ Hv Ev) as (_ & Ha & _). apply lookup_lt_Some in Ev. cbn [fst]. nia. }
  induction Hf as [|[i a] l (k & Hk & Hlt) _ [x IH]]; [by exists []|]. cbn [fst snd] in Hk, Hlt. destruct (lookup_lt_is_Some_2 hidden _ Hlt) as [h Hh]. exists (h :: x).
  cbn [mapM_r fst snd]. rewrite Hk. replace (Z.of_nat i * Z.of_nat (S n) + Z.of_nat k) with (Z.of_nat (i * S n + k)) by lia. rewrite py_getitem_nat, Hh. cbn [of_option]. by rewrite IH.
Qed.

Lemma last_positions_ok n vs :
  Forall (verified_ok n) vs ->
  mapM_r (fun p => py_getitem (fst p) (snd p)) (zip (plus_one <$> (v_positions n <$> vs)) ((fun v => Z.of_nat (v_accepted v)) <$> vs)) = Ok (v_len <$> vs).
Proof.
  intros Hv. rewrite <- list_fmap_compose. rewrite zip_with_fmap_same. apply mapM_r_Ok, Forall2_fmap, Forall_Forall2_diag.
  eapply Forall_impl; [exact Hv|]. intros v (_ & Ha & _). cbn [fst snd]. rewrite py_getitem_nat. unfold compose, plus_one, v_positions.
  rewrite !list_lookup_fmap, lookup_seq_lt by lia. cbn. unfold v_len. f_equal. lia.
Qed.

Lemma refresh_ok n vs hidden tr :
  (0 < n)%nat -> Forall (verified_ok n) vs -> Forall (fun l => length l = S n) hidden -> length hidden = length vs ->
  exists slots fs drafts,
    refresh_and_generate_cached_mtp_drafts mtp_model draft_token bs (v_table <$> vs) n (Some (v_drafts <$> vs)) (v_next <$> vs) (v_positions n <$> vs) hidden
      (v_len <$> vs) ((fun v => Z.of_nat (v_accepted v)) <$> vs) tr = (Ok drafts, tr ++ refresh_forward n vs hidden slots :: fs) /\
    S (length fs) = n /\ length drafts = n /\ Forall (fun d => length d = length vs) drafts /\ Forall (aligned bs (v_table <$> vs)) (refresh_forward n vs hidden slots :: fs) /\
    forall k f, fs !! k = Some f -> drafts !! k = Some (fw_ids f) /\ fw_positions f = (fun v => v_len v + 1 + Z.of_nat k) <$> vs.
Proof.
  intros Hn Hv Hh Hlh. destruct (refresh_slots_ok n vs Hv) as (slots & Hs & Hw & Hl & Hsl). destruct (refresh_widths n vs Hv) as [Hwi Hwp].
  unfold refresh_and_generate_cached_mtp_drafts. rewrite (lift_bind (of_option RuntimeError (Some (v_drafts <$> vs))) (v_drafts <$> vs) _ _ eq_refl). cbv zeta.
  assert (zip_with (fun l a => l - (a + 1)) (v_len <$> vs) ((fun v => Z.of_nat (v_accepted v)) <$> vs) = v_base <$> vs) as ->.
  { rewrite zip_with_fmap_same. apply list_fmap_ext. intros i v _. unfold v_len. lia. }
  rewrite (lift_bind _ _ _ _ Hs). rewrite (zip_with_fmap_same pair v_drafts v_next), (zip_with_fmap_same (fun a p => refresh_row a (fst p) (snd p))). cbn [fst snd].
  rewrite <- !list_fmap_compose. unfold forward at 1. unfold mbind at 1, act_bind at 1. cbv beta iota.
  change (mk_forward 0 _ _ _ _) with (refresh_forward n vs hidden slots). set (f0 := refresh_forward n vs hidden slots). set (out := mtp_model (tr ++ [f0])).
  assert (length out = (length vs * S n)%nat) as Hlo by (unfold out; rewrite Hmodel; cbn [f0 refresh_forward fw_ids]; rewrite (length_concat_rows _ _ Hwi), length_fmap; done).
  destruct (last_rows_ok n vs out Hv Hlo) as (rows & Hrows & Hlr). rewrite (lift_bind _ _ _ _ Hrows).
  rewrite (list_fmap_compose (v_positions n) plus_one). rewrite (lift_bind _ _ _ _ (last_positions_ok n vs Hv)).
  destruct (continue_aligned (v_table <$> vs) (n - 1) 1 (draft_token 0 <$> rows) (plus_one (v_len <$> vs)) rows (v_len <$> vs) (tr ++ [f0]))
    as (drafts & fs & Hc & Hld & Hlf & Hfd & Hfa & Hch).
  - by rewrite !length_fmap.
  - by rewrite !length_fmap.
  - done.
  - intros i l t (v & -> & Ev)%list_lookup_fmap_Some (v' & -> & Ev')%list_lookup_fmap_Some. rewrite Ev in Ev'. injection Ev' as <-.
    destruct (Forall_lookup_1 _ _ _ _ Hv Ev) as (_ & Ha & Hb & Hp). unfold v_len. lia.
  - exists slots, fs, ((draft_token 0 <$> rows) :: drafts). unfold mbind at 1, act_bind at 1. rewrite Hc. unfold mret, act_ret. fold f0.
    rewrite <- app_assoc. rewrite length_fmap in Hfd. split_and!; [done|lia|simpl; lia|constructor; [by rewrite length_fmap|done]|constructor; [by apply refresh_aligned|done]|].
    intros k f Hf. destruct (Hch k f Hf) as [H1 H2]. split; [exact H1|]. rewrite H2, <- list_fmap_compose. done.
Qed.

(** C26. After a verification step the predictor's cache is exact up to the newly sampled token:
    the first forward of [generate_and_store] puts the accepted drafts and the sampled token at
    their positions, next to the target's hidden state of the position before, and every later
    forward the draft just produced one position further; all of them write slot [q] for the
    token at position [q + 1].  The step stores [n] drafts for every sequence, and finds every
    page it needs if the page tables cover [2 n] positions after the base. *)
Theorem predictor_refresh_exact n vs hidden seq_ids lens_rest r tr :
  (1 < n)%nat -> Forall (verified_ok n) vs -> Forall (fun l => length l = S n) hidden -> length hidden = length vs ->
  selected_prev_drafts r = Some (v_drafts <$> vs) ->
  exists f0 fs drafts,
    generate_and_store zero_hidden mtp_model draft_token n bs (mk_decode_batch false true (v_table <$> vs) ((v_len <$> vs) ++ lens_rest)) seq_ids (v_next <$> vs)
      (concat (v_positions n <$> vs)) (concat hidden) (length vs) (Some ((fun v => Z.of_nat (v_accepted v)) <$> vs)) r tr
    = (Ok (store_drafts true seq_ids (length vs) drafts r), tr ++ f0 :: fs) /\
    S (length fs) = n /\ length drafts = length vs /\ Forall (fun d => length d = n) drafts /\ Forall (aligned bs (v_table <$> vs)) (f0 :: fs) /\
    (forall i v j tok, vs !! i = Some v -> (take (v_accepted v) (v_drafts v) ++ [v_next v]) !! j = Some tok ->
       fw_ids f0 !! (i * S n + j)%nat = Some tok /\ fw_positions f0 !! (i * S n + j)%nat = Some (v_base v + 1 + Z.of_nat j) /\
       fw_hidden f0 !! (i * S n + j)%nat = hidden !! i ≫= (fun row => row !! j)) /\
    (forall k f i v d, fs !! k = Some f -> vs !! i = Some v -> drafts !! i = Some d ->
       fw_ids f !! i = d !! k /\ fw_positions f !! i = Some (v_len v + 1 + Z.of_nat k)).
Proof.
  intros Hn Hv Hh Hlh Hsel. destruct (refresh_ok n vs hidden tr ltac:(lia) Hv Hh Hlh) as (slots & fs & drafts & Hr & Hlf & Hld & Hfd & Hal & Hch).
  destruct (refresh_widths n vs Hv) as [Hwi Hwp]. destruct (stack_drafts_ok (length vs) drafts Hfd) as (st & Hst & Hls & Hws & Hstk).
  exists (refresh_forward n vs hidden slots), fs, st. split; [|split_and!; [done|done|by rewrite Hld in Hws|done|..]].
  - unfold generate_and_store. cbn [db_dummy db_safe db_lens db_tables negb].
    assert (Forall (fun l => length l = S n) (v_positions n <$> vs)) as Hwv by (apply Forall_fmap, Forall_true; intros v; cbn; unfold v_positions; by rewrite length_fmap, length_seq).
    pose proof (reshape_rows_concat (S n) hidden Hh) as Hrh. rewrite Hlh in Hrh. pose proof (reshape_rows_concat (S n) _ Hwv) as Hrp. rewrite length_fmap in Hrp.
    rewrite Hrh, Hrp. cbn [mbind result_bind]. rewrite (lift_bind _ _ _ _ eq_refl). rewrite decide_True by done. rewrite Hsel. cbn [fmap option_fmap option_map].
    rewrite !take_ge by (rewrite length_fmap; lia). rewrite take_app_length' by (by rewrite length_fmap). unfold mbind at 1, act_bind at 1. rewrite Hr.
    rewrite (lift_bind _ _ _ _ Hst). done.
  - intros i v j tok Hi Hj. assert (j < S n)%nat as Hjn.
    { apply lookup_lt_Some in Hj. rewrite length_app, length_take in Hj. simpl in Hj. destruct (Forall_lookup_1 _ _ _ _ Hv Hi) as (? & ? & _). lia. }
    cbn [refresh_forward fw_ids fw_positions fw_hidden]. rewrite (lookup_concat_rows _ _ _ _ Hwi Hjn), (lookup_concat_rows _ _ _ _ Hwp Hjn), (lookup_concat_rows _ _ _ _ Hh Hjn).
    rewrite !list_lookup_fmap, Hi. cbn [fmap option_fmap option_map mbind option_bind]. split_and!; [|unfold plus_one, v_positions|done].
    + eapply refresh_row_lookup; [exact (Forall_lookup_1 _ _ _ _ Hv Hi)|done].
    + rewrite !list_lookup_fmap, lookup_seq_lt by lia. cbn. f_equal. lia.
  - intros k f i v d Hf Hi Hd. destruct (Hch k f Hf) as [H1 H2]. rewrite (Hstk i d k Hd), H1, H2, list_lookup_fmap, Hi. done.
Qed.
End aligned.

Lemma predictor_refresh_exact_witness :
  exists f0 fs drafts,
    generate_and_store 0 echo (fun _ t => t + 1) 2 4 (mk_decode_batch false true [[10; 11; 12]] [7; 0]) [5] [9] [5; 6; 7] [0; 0; 0] 1 (Some [1])
      (mk_mtp None None (Some [[1; 2]]) None None) [] = (Ok (store_drafts true [5] 1 drafts (mk_mtp None None (Some [[1; 2]]) None None)), f0 :: fs) /\
    drafts = [[10; 11]] /\ fw_ids f0 = [1; 9; 9] /\ fw_positions f0 !! 1%nat = Some 7.
Proof.
  set (v := mk_verified 5 [10; 11; 12] [1; 2] 1 9).
  destruct (predictor_refresh_exact 0 echo (fun _ t => t + 1) 4 (fun tr f => eq_trans (f_equal (fun o => length (match o with Some g => fw_ids g | None => [] end)) (last_snoc f tr)) eq_refl) ltac:(lia)
              2 [v] [[0; 0; 0]] [5] [0] (mk_mtp None None (Some [[1; 2]]) None None) []) as (f0 & fs & drafts & Hr & _ & _ & _ & _ & Hf & _).
  - lia.
  - repeat constructor; cbn; lia.
  - by repeat constructor.
  - done.
  - done.
  - assert (Hr' := Hr). vm_compute in Hr'. injection Hr' as Hd H0 Hfs. exists f0, fs, drafts. split; [exact Hr|]. rewrite <- Hd, <- H0. split_and!; [done|done|].
    rewrite H0. by destruct (Hf 0%nat v 1%nat 9 eq_refl eq_refl) as (_ & Hp & _).
Defined.
