(* ===== verification/DecodeGraph.v ===== *)
(** Decode through captured CUDA graphs: the batch sizes and persistent buffers of
    [DecodeGraphRunner] ([dlengine/runtime/runner/graph_runner.py]) and the FlashInfer plans kept
    with them ([dlengine/runtime/context/graph.py]).  A captured graph is a parameter: it
    applies the model to the rows the buffers hold when it is replayed.  Sequence parallelism
    is one, as for the buffers; per-layer token parts, scheduler metadata of FlashMLA and the
    kernels' workspaces are not modelled. *)

From S2P Require Import Prelude HfConfig PipelineParallel Cache HiSparse Microbatch InputPreparer.

Open Scope Z_scope.

(** * Batch sizes *)

(** [_make_bs_list] *)
Definition make_bs_list (max_bs : nat) : list nat :=
  filter (fun x => x <= max_bs)%nat [1; 2; 4; 8]%nat ++ ((fun k => 16 * S k)%nat <$> seq 0 (max_bs / 16)).

(** [next(x for x in l if x >= bs)] *)
Definition next_bs (l : list nat) (bs : nat) : result nat := of_option StopIteration (snd <$> list_find (fun x => bs <= x)%nat l).

(** * FlashInfer plans *)

(** [paged_decode_metadata]: row bounds, pages and lengths of last pages of the first [bs] rows. *)
Definition ceil_pages (page_size len : Z) : Z := (len + page_size - 1) / page_size.

Fixpoint cumsum_pages (acc : Z) (l : list Z) : list Z := match l with [] => [] | x :: l => acc + x :: cumsum_pages (acc + x) l end.

Record PageMeta := mk_page_meta { pg_indptr : list Z; pg_indices : list Z; pg_last_page_len : list Z }.

Definition last_page (page_size len : Z) : Z := let r := len mod page_size in if decide (r = 0) then page_size else r.

Definition paged_decode_metadata (tables : list (list Z)) (lens : list Z) (bs : nat) (page_size : Z) : PageMeta :=
  let seq_lens := take bs lens in
  let pages := ceil_pages page_size <$> seq_lens in
  mk_page_meta (0 :: cumsum_pages 0 pages)
    (concat (zip_with (fun row p => take (Z.to_nat p) row) (take bs tables) pages))
    (last_page page_size <$> seq_lens).

(** [FlashInferDecodeGraphState] for one captured batch size: the wrapper's buffers, the key of
    the last plan, and the arguments of the last call of [wrapper.plan]. *)
Record PlanState := mk_plan_state {
  fs_indptr : list Z;
  fs_indices : list Z;
  fs_last_page_len : list Z;
  fs_plan_key : option (nat * option Z * list Z);
  fs_planned : option PageMeta
}.

(** [dst\[: len(src)\].copy_(src)] *)
Definition overwrite (src dst : list Z) : list Z := src ++ drop (length src) dst.

(** [bs, page_plan_key\[:bs\]], or the counts read back from the device. *)
Definition plan_key_of (bs : nat) (key : option (list Z)) (m : PageMeta) : nat * option Z * list Z :=
  match key with
  | Some k => (bs, None, take bs k)
  | None => (bs, Some (default 0 (last (pg_indptr m))), zip_with Z.sub (tail (pg_indptr m)) (pg_indptr m))
  end.

Definition plan (reuse : bool) (page_size : Z) (bs : nat) (tables : list (list Z)) (lens : list Z) (key : option (list Z)) (s : PlanState) : PlanState :=
  let m := paged_decode_metadata tables lens bs page_size in
  if reuse then
    let s := mk_plan_state (overwrite (pg_indptr m) (fs_indptr s)) (overwrite (pg_indices m) (fs_indices s)) (overwrite (pg_last_page_len m) (fs_last_page_len s))
               (fs_plan_key s) (fs_planned s) in
    let k := plan_key_of bs key m in
    if decide (fs_plan_key s = Some k) then s
    else mk_plan_state (fs_indptr s) (fs_indices s) (fs_last_page_len s) (Some k) (Some m)
  else mk_plan_state (fs_indptr s) (fs_indices s) (fs_last_page_len s) (fs_plan_key s) (Some m).

(** * Persistent buffers *)

(** What [DecodeGraphRunner.__init__] fixes. *)
Record GraphConfig := mk_graph_config {
  gc_max_num_seqs : nat;
  gc_max_bs : nat;
  gc_block_size : nat;
  gc_max_num_blocks : nat;
  gc_flashinfer : bool;
  gc_reuse_page_plan : bool;
  (** [cache_plan.has_gqa()] is irrelevant at replay; the slot dimension of the GDN states *)
  gc_dummy_gdn_slot : option Z;
  gc_is_dsv4 : bool;
  (** dummy page and blocks per row, per ratio *)
  gc_compressed : gmap Z (Z * nat)
}.

Record GraphBuffers := mk_graph_buffers {
  gb_input_ids : list Z;
  gb_positions : list Z;
  gb_slot_mapping : list Z;
  gb_context_lens : list Z;
  gb_block_tables : list (list Z);
  gb_hisparse_slots : list Z;
  gb_hisparse_slot_mapping : list Z;
  gb_gdn_state_slots : option (list Z);
  gb_dsv4_state_slots : option (list Z);
  gb_compressed_tables : gmap Z (list (list Z))
}.

(** The ratios with persistent tables: dummy page and blocks per row. *)
Definition graph_compressed (dsv4 : bool) (c : CacheContext) : gmap Z (Z * nat) :=
  if dsv4
  then map_imap (fun ratio (pool : Z * Z * Z) => let '(num_pages, _, max_blocks) := pool in
                   if decide (max_blocks <= 0) then None else Some (default num_pages (dsv4_compressed_dummy_page (csa c) !! ratio), Z.to_nat max_blocks))
         (dsv4_compressed_pool_config (csa c))
  else ∅.

(** [DecodeGraphRunner.__init__] *)
Definition graph_config (max_num_seqs max_model_len : nat) (mla dsv4 flashinfer_env reuse : bool) (c : CacheContext) : GraphConfig :=
  mk_graph_config max_num_seqs (Nat.min max_num_seqs 512) (Z.to_nat (block_size (cfg c)))
    ((max_model_len + Z.to_nat (block_size (cfg c)) - 1) / Z.to_nat (block_size (cfg c)))
    (flashinfer_env && negb mla && negb dsv4) reuse
    ((fun t => default 0 (shape t !! 1%nat) - 1) <$> gdn_conv_states (gdn c)) dsv4
    (graph_compressed dsv4 c).

Definition new_buffers (g : GraphConfig) : GraphBuffers :=
  let n := gc_max_bs g in
  mk_graph_buffers (replicate n 0) (replicate n 0) (replicate n 0) (replicate n 0) (replicate n (replicate (gc_max_num_blocks g) 0))
    (replicate n (Z.of_nat (gc_max_num_seqs g))) (replicate n (-1))
    (replicate n <$> gc_dummy_gdn_slot g) (if gc_is_dsv4 g then Some (replicate n (Z.of_nat (gc_max_num_seqs g))) else None)
    ((fun p => replicate (S n) (replicate (snd p) (fst p))) <$> gc_compressed g).

(** [dst\[:n\] = src], with broadcasting of a single element. *)
Definition broadcast {A} (n : nat) (src : list A) : result (list A) :=
  if decide (length src = n) then Ok src
  else match src with [x] => Ok (replicate n x) | _ => Err RuntimeError end.

Definition set_prefix {A} (n : nat) (src dst : list A) : result (list A) :=
  let n := Nat.min n (length dst) in
  src ← broadcast n src;
  Ok (src ++ drop n dst).

(** What the batch context gives to a replay, for one sequence-parallel rank. *)
Record GraphInput := mk_graph_input {
  gi_slot_mapping : list Z;
  gi_context_lens : list Z;
  (** rows, and the width of the table *)
  gi_block_tables : list (list Z);
  gi_width : nat;
  gi_hisparse_slots : option (list Z);
  gi_hisparse_slot_mapping : option (list Z);
  gi_gdn_state_slots : option (list Z);
  gi_dsv4_state_slots : option (list Z);
  gi_compressed_tables : option (gmap Z (list (list Z)));
  gi_plan_key : option (list Z)
}.

Definition rows_of_tensor (n w : nat) (data : list Z) : list (list Z) := (fun i => take w (drop (i * w) data)) <$> seq 0 n.

Definition graph_input (ctx : BatchContext) : result GraphInput :=
  slots ← of_option AttributeError (bc_slot_mapping ctx);
  lens ← of_option AttributeError (bc_context_lens ctx);
  tables ← of_option AttributeError (bc_block_tables ctx);
  match it_shape lens, it_shape tables with
  | [1%nat; _], [1%nat; n; w] =>
      Ok (mk_graph_input slots (it_data lens) (rows_of_tensor n w (it_data tables)) w (bc_hisparse_slots ctx) (bc_hisparse_slot_mapping ctx)
            (bc_gdn_state_slots ctx) (bc_dsv4_state_slots ctx) (bc_dsv4_compressed_block_tables ctx) (bc_decode_page_plan_key ctx))
  | _, _ => Err RuntimeError
  end.

(** [g.block_tables.zero_()], then the upper left corner. *)
Definition write_tables (g : GraphConfig) (rows : list (list Z)) (w : nat) : result (list (list Z)) :=
  if decide (length rows <= gc_max_bs g /\ w <= gc_max_num_blocks g)%nat
  then Ok (((fun row => row ++ replicate (gc_max_num_blocks g - length row) 0) <$> rows) ++ replicate (gc_max_bs g - length rows) (replicate (gc_max_num_blocks g) 0))
  else Err RuntimeError.

(** [fill_(dummy)], then [\[:bs\].copy_(slots)] when there are some. *)
Definition write_slots (dummy : Z) (bs : nat) (slots : option (list Z)) (buf : list Z) : result (list Z) :=
  let buf := (fun _ => dummy) <$> buf in
  match slots with Some s => set_prefix bs s buf | None => Ok buf end.

(** One row of [persistent\[:n\].copy_(src\[:n\])] into rows of [w] entries. *)
Definition copy_row (w : nat) (row : list Z) : result (list Z) := broadcast w row.

Definition write_ratio (g : GraphConfig) (src : option (gmap Z (list (list Z)))) (ratio : Z) (buf : list (list Z)) : result (list (list Z)) :=
  let '(dummy, w) := default (0, 0%nat) (gc_compressed g !! ratio) in
  let buf := (fun row : list Z => (fun _ => dummy) <$> row) <$> buf in
  match src ≫= (fun t => t !! ratio) with
  | Some rows =>
      let n := Nat.min (length rows) (length buf) in
      rows ← mapM_r (copy_row w) (take n rows);
      Ok (rows ++ drop n buf)
  | None => Ok buf
  end.

Definition write_compressed (g : GraphConfig) (src : option (gmap Z (list (list Z)))) (bufs : gmap Z (list (list Z))) : result (gmap Z (list (list Z))) :=
  done ← mapM_r (fun e : Z * list (list Z) => buf ← write_ratio g src (fst e) (snd e); Ok (fst e, buf)) (map_to_list bufs);
  Ok (list_to_map done).

(** The buffers [DecodeGraphRunner.run] leaves for the replay of the graph of [master] rows. *)
Definition write_buffers (g : GraphConfig) (x : HiSparseContext) (master : nat) (ids pos : list Z) (c : GraphInput) (b : GraphBuffers) : result GraphBuffers :=
  let bs := length ids in
  input_ids ← set_prefix bs ids (gb_input_ids b);
  positions ← set_prefix bs pos (gb_positions b);
  slots ← set_prefix bs (gi_slot_mapping c) ((fun _ => -1) <$> gb_slot_mapping b);
  hslots ← write_slots (Z.of_nat (gc_max_num_seqs g)) bs (take bs <$> gi_hisparse_slots c) (gb_hisparse_slots b);
  let mapping := match gi_hisparse_slot_mapping c with
                 | Some _ => match build_hot_slot_mapping (take master hslots) (take master positions) (fill_real_reqs bs x) with
                             | Some m => overwrite m (gb_hisparse_slot_mapping b)
                             | None => gb_hisparse_slot_mapping b
                             end
                 | None => gb_hisparse_slot_mapping b
                 end in
  lens ← set_prefix (length (gi_context_lens c)) (gi_context_lens c) ((fun _ => 0) <$> gb_context_lens b);
  tables ← write_tables g (gi_block_tables c) (gi_width c);
  let lens := if gc_flashinfer g && bool_decide (bs < master)%nat then imap (fun i l => if decide (bs <= i < master)%nat then 1 else l) lens else lens in
  gdn ← (match gb_gdn_state_slots b, gc_dummy_gdn_slot g with
         | Some buf, Some dummy => s ← write_slots dummy bs (gi_gdn_state_slots c) buf; Ok (Some s)
         | o, _ => Ok o
         end);
  dsv4 ← (match gb_dsv4_state_slots b with
          | Some buf => s ← write_slots (Z.of_nat (gc_max_num_seqs g)) bs (gi_dsv4_state_slots c) buf; Ok (Some s)
          | None => Ok None
          end);
  compressed ← write_compressed g (gi_compressed_tables c) (gb_compressed_tables b);
  Ok (mk_graph_buffers input_ids positions slots lens tables hslots mapping gdn dsv4 compressed).

(** The key of the padded batch. *)
Definition padded_key (bs master : nat) (key : option (list Z)) : option (list Z) := (fun k => take bs k ++ replicate (master - bs) 1) <$> key.

(** The runner: buffers and the plan state of every captured size. *)
Record GraphRunner := mk_graph_runner { gr_buffers : GraphBuffers; gr_plans : gmap nat PlanState }.

Definition new_plan_state (g : GraphConfig) (master : nat) : PlanState :=
  mk_plan_state (replicate (S master) 0) (replicate (master * gc_max_num_blocks g) 0) (replicate master 0) None None.

Definition plan_graph (g : GraphConfig) (master : nat) (key : option (list Z)) (r : GraphRunner) : GraphRunner :=
  if gc_flashinfer g then
    let b := gr_buffers r in
    let s := default (new_plan_state g master) (gr_plans r !! master) in
    mk_graph_runner b (<[master := plan (gc_reuse_page_plan g) (Z.of_nat (gc_block_size g)) master (take master (gb_block_tables b)) (take master (gb_context_lens b)) key s]> (gr_plans r))
  else r.

(** [DecodeGraphRunner.run] up to the replay: the size of the graph, the runner and the HiSparse context. *)
Definition run (g : GraphConfig) (x : HiSparseContext) (ids pos : list Z) (c : GraphInput) (r : GraphRunner) : result (nat * GraphRunner * HiSparseContext) :=
  let bs := length ids in
  master ← next_bs (make_bs_list (gc_max_bs g)) bs;
  b ← write_buffers g x master ids pos c (gr_buffers r);
  Ok (master, plan_graph g master (padded_key bs master (gi_plan_key c)) (mk_graph_runner b (gr_plans r)), fill_real_reqs bs x).

(** * Which batches are replayed *)

(** The largest captured batch. *)
Definition top_bs (max_bs : nat) : nat := if decide (max_bs < 16)%nat then foldr (fun x m => if decide (x <= max_bs)%nat then Nat.max x m else m) 0%nat [1; 2; 4; 8]%nat else (16 * (max_bs / 16))%nat.

Lemma elem_of_make_bs_list max_bs x :
  x ∈ make_bs_list max_bs <-> (x ∈ [1; 2; 4; 8]%nat /\ x <= max_bs)%nat \/ exists k, x = (16 * S k)%nat /\ (k < max_bs / 16)%nat.
Proof.
  unfold make_bs_list. rewrite elem_of_app, list_elem_of_filter, list_elem_of_fmap. split.
  - intros [[H1 H2]|(k & -> & Hk%elem_of_seq)]; [by left|]. right. exists k. split; [done|lia].
  - intros [[H1 H2]|(k & -> & Hk)]; [by left|]. right. exists k. split; [done|]. apply elem_of_seq. lia.
Qed.

Lemma bs_list_bound max_bs x : x ∈ make_bs_list max_bs -> (1 <= x <= max_bs)%nat.
Proof.
  intros [[Hx Hle]|(k & -> & Hk)]%elem_of_make_bs_list.
  - split; [|done]. repeat (apply elem_of_cons in Hx as [->|Hx]; [lia|]). by apply elem_of_nil in Hx.
  - pose proof (Nat.div_mod_eq max_bs 16). lia.
Qed.

Lemma bs_list_top max_bs bs : (0 < max_bs)%nat -> (exists x, x ∈ make_bs_list max_bs /\ bs <= x)%nat <-> (bs <= top_bs max_bs)%nat.
Proof.
  intros Hpos. unfold top_bs. destruct (decide (max_bs < 16)%nat) as [Hlt|Hge].
  - split.
    + intros (x & [[Hx Hle]|(k & -> & Hk)]%elem_of_make_bs_list & Hb); [|rewrite Nat.div_small in Hk by lia; lia]. cbn [foldr].
      repeat (apply elem_of_cons in Hx as [->|Hx]; [repeat case_decide; lia|]). by apply elem_of_nil in Hx.
    + intros Hb. exists (foldr (fun x m => if decide (x <= max_bs)%nat then Nat.max x m else m) 0%nat [1; 2; 4; 8]%nat). split; [|done].
      apply elem_of_make_bs_list. left. cbn [foldr] in *. split; [|repeat case_decide; lia].
      destruct (decide (8 <= max_bs)%nat); [rewrite !decide_True by lia; simpl; set_solver|].
      destruct (decide (4 <= max_bs)%nat); [rewrite !decide_True by lia; simpl; set_solver|].
      destruct (decide (2 <= max_bs)%nat); [rewrite !decide_True by lia; simpl; set_solver|]. rewrite !decide_True by lia. simpl. set_solver.
  - pose proof (Nat.div_mod_eq max_bs 16) as Hdm. pose proof (Nat.mod_upper_bound max_bs 16 ltac:(lia)). assert (1 <= max_bs / 16)%nat by lia. split.
    + intros (x & [[Hx Hle]|(k & -> & Hk)]%elem_of_make_bs_list & Hb); [|lia]. repeat (apply elem_of_cons in Hx as [->|Hx]; [lia|]). by apply elem_of_nil in Hx.
    + intros Hb. exists (16 * S (max_bs / 16 - 1))%nat. split; [|lia]. apply elem_of_make_bs_list. right. exists (max_bs / 16 - 1)%nat. split; [done|lia].
Qed.

Lemma next_bs_ok max_bs bs : (0 < max_bs)%nat -> (bs <= top_bs max_bs)%nat -> exists m, next_bs (make_bs_list max_bs) bs = Ok m /\ (bs <= m <= max_bs)%nat /\ m ∈ make_bs_list max_bs.
Proof.
  intros Hpos Ht. apply bs_list_top in Ht as (x & Hx & Hb); [|done]. unfold next_bs.
  destruct (list_find (fun x => bs <= x)%nat (make_bs_list max_bs)) as [[i m]|] eqn:Hf; [|apply list_find_None in Hf; rewrite Forall_forall in Hf; by destruct (Hf x Hx)].
  apply list_find_Some in Hf as (Hi & Hm & _).
  exists m. split; [done|]. apply list_elem_of_lookup_2 in Hi. split; [|done]. split; [done|]. apply bs_list_bound in Hi. lia.
Qed.

Lemma next_bs_stop max_bs bs : (0 < max_bs)%nat -> (top_bs max_bs < bs)%nat -> next_bs (make_bs_list max_bs) bs = Err StopIteration.
Proof.
  intros Hpos Ht. unfold next_bs. destruct (list_find _ _) as [[i m]|] eqn:Hf; [|done]. apply list_find_Some in Hf as (Hi & Hm & _).
  assert (bs <= top_bs max_bs)%nat; [|lia]. apply bs_list_top; [done|]. exists m. split; [by eapply list_elem_of_lookup_2|done].
Qed.

(** * The rows a graph sees *)

Record wf_buffers (g : GraphConfig) (b : GraphBuffers) : Prop := mk_wf_buffers {
  wb_ids : length (gb_input_ids b) = gc_max_bs g;
  wb_positions : length (gb_positions b) = gc_max_bs g;
  wb_slots : length (gb_slot_mapping b) = gc_max_bs g;
  wb_lens : length (gb_context_lens b) = gc_max_bs g;
  wb_tables : length (gb_block_tables b) = gc_max_bs g;
  wb_hslots : length (gb_hisparse_slots b) = gc_max_bs g;
  wb_mapping : length (gb_hisparse_slot_mapping b) = gc_max_bs g;
  wb_gdn : match gc_dummy_gdn_slot g with Some _ => exists s, gb_gdn_state_slots b = Some s /\ length s = gc_max_bs g | None => gb_gdn_state_slots b = None end;
  wb_dsv4 : if gc_is_dsv4 g then exists s, gb_dsv4_state_slots b = Some s /\ length s = gc_max_bs g else gb_dsv4_state_slots b = None;
  wb_compressed : forall ratio, match gc_compressed g !! ratio with
                    | Some (_, w) => exists rows, gb_compressed_tables b !! ratio = Some rows /\ length rows = S (gc_max_bs g) /\ Forall (fun row => length row = w) rows
                    | None => gb_compressed_tables b !! ratio = None
                    end
}.

(** A decode context of [bs] sequences ([prepare_decode]): lengths of [max_num_seqs] columns, the unused ones
    zero, and one table row per sequence. *)
Record wf_input (g : GraphConfig) (bs : nat) (pos : list Z) (c : GraphInput) : Prop := mk_wf_input {
  wi_positions : length pos = bs;
  wi_slots : length (gi_slot_mapping c) = bs;
  wi_lens : exists lens, length lens = bs /\ gi_context_lens c = lens ++ replicate (gc_max_num_seqs g - bs) 0;
  wi_fits : (bs <= gc_max_num_seqs g)%nat;
  wi_rows : (length (gi_block_tables c) <= Nat.max bs 1)%nat;
  wi_width : (gi_width c <= gc_max_num_blocks g)%nat;
  wi_hslots : match gi_hisparse_slots c with Some s => length s = bs | None => True end;
  wi_gdn : match gi_gdn_state_slots c with Some s => length s = bs | None => True end;
  wi_dsv4 : match gi_dsv4_state_slots c with Some s => length s = bs | None => True end
}.

(** [l] completed to [n] rows with [d]. *)
Definition pad_to {A} (n : nat) (d : A) (l : list A) : list A := l ++ replicate (n - length l) d.

Lemma set_prefix_ok {A} n (src dst : list A) : length src = n -> (n <= length dst)%nat -> set_prefix n src dst = Ok (src ++ drop n dst).
Proof. intros <- Hl. unfold set_prefix, broadcast. rewrite Nat.min_l by done. by rewrite decide_True. Qed.

Lemma fmap_const {A B} (d : B) (l : list A) : (fun _ => d) <$> l = replicate (length l) d.
Proof. induction l as [|x l IH]; [done|]. cbn. by rewrite IH. Qed.

Lemma set_prefix_fill {A B} n (src : list A) (d : A) (dst : list B) :
  length src = n -> (n <= length dst)%nat -> set_prefix n src ((fun _ => d) <$> dst) = Ok (pad_to (length dst) d src).
Proof. intros <- Hl. rewrite (set_prefix_ok (length src)) by (by rewrite ?length_fmap). by rewrite fmap_const, drop_replicate. Qed.

Lemma write_slots_ok dummy bs slots buf n :
  length buf = n -> (bs <= n)%nat -> match slots with Some s => length s = bs | None => True end ->
  write_slots dummy bs slots buf = Ok (pad_to n dummy (default [] slots)).
Proof.
  intros <- Hbs Hs. unfold write_slots. destruct slots as [s|]; [|by rewrite fmap_const; unfold pad_to; cbn; rewrite Nat.sub_0_r].
  by apply set_prefix_fill.
Qed.

(** What the replay of [m] rows reads: the rows of the batch, then rows that write no cache slot
    and only touch the dummy state slots. *)
Record replay_rows (g : GraphConfig) (m : nat) (ids pos : list Z) (c : GraphInput) (b : GraphBuffers) : Prop := mk_replay_rows {
  rr_ids : take (length ids) (gb_input_ids b) = ids;
  rr_positions : take (length ids) (gb_positions b) = pos;
  rr_slots : gb_slot_mapping b = pad_to (gc_max_bs g) (-1) (gi_slot_mapping c);
  rr_hslots : gb_hisparse_slots b = pad_to (gc_max_bs g) (Z.of_nat (gc_max_num_seqs g)) (default [] (gi_hisparse_slots c));
  rr_lens : take (length ids) (gb_context_lens b) = take (length ids) (gi_context_lens c);
  rr_pad_lens : forall i, (length ids <= i < m)%nat -> gb_context_lens b !! i = Some (if gc_flashinfer g then 1 else 0);
  rr_tables : gb_block_tables b = pad_to (gc_max_bs g) (replicate (gc_max_num_blocks g) 0) ((fun row => pad_to (gc_max_num_blocks g) 0 row) <$> gi_block_tables c);
  rr_gdn : gb_gdn_state_slots b = (fun d => pad_to (gc_max_bs g) d (default [] (gi_gdn_state_slots c))) <$> gc_dummy_gdn_slot g;
  rr_dsv4 : gb_dsv4_state_slots b = if gc_is_dsv4 g then Some (pad_to (gc_max_bs g) (Z.of_nat (gc_max_num_seqs g)) (default [] (gi_dsv4_state_slots c))) else None
}.

(** The HiSparse mapping a replay of [m] rows reads when the context has one: the ring slots of the
    batch's sequences at its positions, and no slot for the rows after them. *)
Record replay_mapping (g : GraphConfig) (x : HiSparseContext) (m : nat) (ids pos : list Z) (c : GraphInput) (b : GraphBuffers) : Prop := mk_replay_mapping {
  rm_rows : forall i p, is_Some (gi_hisparse_slot_mapping c) -> 0 < tokens_per_seq x -> pos !! i = Some p ->
    gb_hisparse_slot_mapping b !! i = Some (ring_slot x (default (Z.of_nat (gc_max_num_seqs g)) (default [] (gi_hisparse_slots c) !! i)) p);
  rm_pad : forall i, is_Some (gi_hisparse_slot_mapping c) -> 0 < tokens_per_seq x -> hs_max_num_seqs x <= Z.of_nat (gc_max_num_seqs g) ->
    (length ids <= i < m)%nat -> gb_hisparse_slot_mapping b !! i = Some (-1)
}.

(** The compressed tables it reads: the context's, and dummy pages for a ratio the context has none for. *)
Definition replay_compressed (g : GraphConfig) (c : GraphInput) (b : GraphBuffers) : Prop :=
  forall ratio, gb_compressed_tables b !! ratio =
    (fun d => default (replicate (S (gc_max_bs g)) (replicate (snd d) (fst d))) (gi_compressed_tables c ≫= (fun t => t !! ratio))) <$> gc_compressed g !! ratio.

(** The context's tables have the shape of the persistent ones. *)
Definition wf_compressed (g : GraphConfig) (c : GraphInput) : Prop :=
  forall ratio d w t rows, gc_compressed g !! ratio = Some (d, w) -> gi_compressed_tables c = Some t -> t !! ratio = Some rows ->
    length rows = S (gc_max_num_seqs g) /\ Forall (fun row => length row = w) rows.

Lemma length_pad_to {A} n (d : A) l : (length l <= n)%nat -> length (pad_to n d l) = n.
Proof. intros Hl. unfold pad_to. rewrite length_app, length_replicate. lia. Qed.

Lemma padded_lens g bs m (lens : list Z) :
  length lens = bs -> (bs <= m <= gc_max_num_seqs g)%nat ->
  let lens' := if gc_flashinfer g && bool_decide (bs < m)%nat then imap (fun i l => if decide (bs <= i < m)%nat then 1 else l) (lens ++ replicate (gc_max_num_seqs g - bs) 0)
               else lens ++ replicate (gc_max_num_seqs g - bs) 0 in
  length lens' = gc_max_num_seqs g /\ take bs lens' = lens /\ forall i, (bs <= i < m)%nat -> lens' !! i = Some (if gc_flashinfer g then 1 else 0).
Proof.
  intros Hl Hm lens'. assert (length lens' = gc_max_num_seqs g) as Hlen by (unfold lens'; destruct (_ && _); rewrite ?length_imap, length_app, length_replicate; lia).
  split; [done|]. assert (forall i, (bs <= i < gc_max_num_seqs g)%nat -> (lens ++ replicate (gc_max_num_seqs g - bs) 0) !! i = Some 0) as Hz.
  { intros i Hi. rewrite lookup_app_r by lia. apply lookup_replicate_2. lia. }
  split.
  - apply list_eq. intros i. destruct (decide (i < bs)%nat) as [Hi|Hi]; [|rewrite !lookup_ge_None_2; [done|lia|rewrite length_take; lia]].
    rewrite lookup_take_lt by lia. unfold lens'. destruct (_ && _); [rewrite list_lookup_imap|]; rewrite lookup_app_l by lia; [|done].
    destruct (lookup_lt_is_Some_2 lens i) as [l Hli]; [lia|]. rewrite Hli. cbn. by rewrite decide_False by lia.
  - intros i Hi. unfold lens'. destruct (gc_flashinfer g); cbn [andb].
    + rewrite bool_decide_true by lia. rewrite list_lookup_imap, Hz by lia. cbn. by rewrite decide_True by lia.
    + apply Hz. lia.
Qed.

Lemma write_compressed_lookup g src bufs bufs' ratio :
  write_compressed g src bufs = Ok bufs' ->
  match bufs !! ratio with Some buf => exists buf', write_ratio g src ratio buf = Ok buf' /\ bufs' !! ratio = Some buf' | None => bufs' !! ratio = None end.
Proof.
  unfold write_compressed. intros (l & Hl%mapM_r_Ok & [= <-])%result_bind_Ok.
  assert (l.*1 = (map_to_list bufs).*1) as Hk.
  { clear -Hl. induction Hl as [|e e' es es' He _ IH]; [done|]. csimpl. rewrite IH. f_equal. by apply result_bind_Ok in He as (b & _ & [= <-]). }
  assert (NoDup l.*1) as Hnd by (rewrite Hk; apply NoDup_fst_map_to_list). destruct (bufs !! ratio) as [buf|] eqn:E.
  - apply elem_of_map_to_list, list_elem_of_lookup_1 in E as (i & Hi). destruct (Forall2_lookup_l _ _ _ _ _ Hl Hi) as (e' & Hi' & He).
    apply result_bind_Ok in He as (b & Hb & [= <-]). exists b. split; [exact Hb|]. apply elem_of_list_to_map_1; [done|]. by eapply list_elem_of_lookup_2.
  - apply not_elem_of_list_to_map_1. rewrite Hk. intros ([r buf] & Hr & Hin)%list_elem_of_fmap. cbn in Hr. subst r. apply elem_of_map_to_list in Hin. congruence.
Qed.

Lemma write_compressed_ok g src bufs :
  (forall ratio buf, bufs !! ratio = Some buf -> exists buf', write_ratio g src ratio buf = Ok buf') -> exists bufs', write_compressed g src bufs = Ok bufs'.
Proof.
  intros Hb. unfold write_compressed. assert (forall l, (forall e, e ∈ l -> exists buf', write_ratio g src (fst e) (snd e) = Ok buf') ->
    exists done, mapM_r (fun e : Z * list (list Z) => buf ← write_ratio g src (fst e) (snd e); Ok (fst e, buf)) l = Ok done) as Hm.
  { intros l. induction l as [|e l IH]; intros Hl; [by exists []|]. destruct (Hl e) as (b & Hwb); [apply list_elem_of_here|]. destruct IH as (ys & Hys); [intros e' He'; apply Hl; by apply list_elem_of_further|].
    cbn [mapM_r]. rewrite Hwb. cbn [mbind result_bind]. rewrite Hys. eauto. }
  destruct (Hm (map_to_list bufs)) as (ys & ->); [|cbn [mbind result_bind]; eauto]. intros [r buf] Hin%elem_of_map_to_list. by apply Hb.
Qed.

Lemma broadcast_length {A} n (src out : list A) : broadcast n src = Ok out -> length out = n.
Proof. unfold broadcast. case_decide; [by intros [= <-]|]. destruct src as [|y [|]]; [done|intros [= <-]; apply length_replicate|done]. Qed.

Lemma fill_rows (dummy : Z) w (buf : list (list Z)) :
  Forall (fun row => length row = w) buf -> ((fun row : list Z => (fun _ => dummy) <$> row) <$> buf) = replicate (length buf) (replicate w dummy).
Proof. intros Hf. induction Hf as [|row buf Hr _ IH]; [done|]. cbn. rewrite IH. f_equal. rewrite <- Hr. apply fmap_const. Qed.

Lemma write_ratio_shape g src ratio dummy w buf buf' :
  gc_compressed g !! ratio = Some (dummy, w) -> Forall (fun row => length row = w) buf -> write_ratio g src ratio buf = Ok buf' ->
  length buf' = length buf /\ Forall (fun row => length row = w) buf'.
Proof.
  intros Hg Hb. unfold write_ratio. rewrite Hg. cbn [default from_option id]. rewrite (fill_rows dummy w) by done.
  assert (forall n, Forall (fun row : list Z => length row = w) (replicate n (replicate w dummy))) as Hrep by (intros n; apply Forall_replicate, length_replicate).
  destruct (src ≫= _) as [rows|]; [|intros [= <-]; split; [apply length_replicate|apply Hrep]].
  intros (out & Hm%mapM_r_Ok & [= <-])%result_bind_Ok. pose proof (Forall2_length _ _ _ Hm) as Hl. rewrite length_take, length_replicate in *. rewrite drop_replicate. split.
  - rewrite length_app, length_replicate. lia.
  - apply Forall_app. split; [|apply Hrep]. clear -Hm. induction Hm as [|row row' rs rs' Ho _ IH]; constructor; [by eapply broadcast_length|done].
Qed.

Lemma write_ratio_exact g src ratio dummy w buf :
  gc_compressed g !! ratio = Some (dummy, w) -> Forall (fun row => length row = w) buf ->
  (forall rows, src ≫= (fun t => t !! ratio) = Some rows -> length rows = length buf /\ Forall (fun row => length row = w) rows) ->
  write_ratio g src ratio buf = Ok (default (replicate (length buf) (replicate w dummy)) (src ≫= (fun t => t !! ratio))).
Proof.
  intros Hg Hb Hs. unfold write_ratio. rewrite Hg. cbn [default from_option id]. rewrite (fill_rows dummy w) by done. destruct (src ≫= _) as [rows|]; [|done].
  destruct (Hs rows eq_refl) as [Hl Hf]. rewrite length_replicate, Hl, Nat.min_id, take_ge, drop_replicate, Nat.sub_diag by lia.
  assert (mapM_r (copy_row w) rows = Ok rows) as ->; [|cbn [mbind result_bind]; by rewrite app_nil_r].
  apply mapM_r_Ok. clear -Hf. induction Hf; constructor; [|done]. unfold copy_row, broadcast. by rewrite decide_True.
Qed.

Lemma zip_ring x slots pos i : ((fun p : Z * Z => ring_slot x (fst p) (snd p)) <$> zip slots pos) !! i = (slot ← slots !! i; p ← pos !! i; Some (ring_slot x slot p)).
Proof. rewrite list_lookup_fmap, lookup_zip_with. destruct (slots !! i); [|done]. cbn. by destruct (pos !! i). Qed.

(** The mapping the runner writes. *)
Lemma written_mapping g x m ids pos c b buf mapping :
  length buf = gc_max_bs g -> (length ids <= m <= gc_max_bs g)%nat -> length pos = length ids ->
  match gi_hisparse_slots c with Some s => length s = length ids | None => True end -> length (gb_positions b) = gc_max_bs g ->
  let hslots := pad_to (gc_max_bs g) (Z.of_nat (gc_max_num_seqs g)) (default [] (gi_hisparse_slots c)) in
  let positions := pos ++ drop (length ids) (gb_positions b) in
  mapping = match gi_hisparse_slot_mapping c with
            | Some _ => match build_hot_slot_mapping (take m hslots) (take m positions) (fill_real_reqs (length ids) x) with Some mp => overwrite mp buf | None => buf end
            | None => buf
            end ->
  length mapping = gc_max_bs g /\ forall b', gb_hisparse_slot_mapping b' = mapping -> replay_mapping g x m ids pos c b'.
Proof.
  intros Hbuf Hm Hp Hs Hb hslots positions Hmap. assert (length hslots = gc_max_bs g) as Hlh by (apply length_pad_to; destruct (gi_hisparse_slots c); simpl in *; lia).
  assert (length positions = gc_max_bs g) as Hlp by (unfold positions; rewrite length_app, length_drop; lia).
  destruct (gi_hisparse_slot_mapping c) as [mp|] eqn:Emp.
  2: { subst mapping. split; [done|]. intros b' _. constructor; intros * Hsome; rewrite Emp in Hsome; by destruct Hsome. }
  unfold build_hot_slot_mapping in Hmap. cbn [tokens_per_seq fill_real_reqs] in Hmap. destruct (decide (tokens_per_seq x <= 0)) as [Ht|Ht].
  { subst mapping. split; [done|]. intros b' _. constructor; intros; lia. }
  set (rows := (fun p : Z * Z => _) <$> _) in Hmap. assert (length rows = m) as Hlr by (unfold rows; rewrite length_fmap, length_zip_with, !length_take; lia).
  split; [subst mapping; unfold overwrite; rewrite length_app, length_drop; lia|].
  assert (forall i p, (i < m)%nat -> positions !! i = Some p -> mapping !! i = (slot ← hslots !! i; Some (ring_slot x slot p))) as Hlk.
  { intros i p Hi Hpi. subst mapping. unfold overwrite. rewrite lookup_app_l by lia. unfold rows. rewrite zip_ring, !lookup_take_lt by lia. rewrite Hpi. done. }
  intros b' Hb'. constructor.
  - intros i p _ _ Hpi. pose proof (lookup_lt_Some _ _ _ Hpi). rewrite Hb', (Hlk i p) by (lia || (unfold positions; by rewrite lookup_app_l by lia)).
    unfold hslots, pad_to. destruct (default [] (gi_hisparse_slots c) !! i) as [slot|] eqn:Es.
    + by rewrite (lookup_app_l_Some _ _ _ _ Es).
    + apply lookup_ge_None in Es. rewrite lookup_app_r, lookup_replicate_2 by lia. done.
  - intros i _ _ Hx Hi. destruct (lookup_lt_is_Some_2 positions i) as [p Hpi]; [lia|]. rewrite Hb', (Hlk i p) by (lia || done).
    assert (hslots !! i = Some (Z.of_nat (gc_max_num_seqs g))) as ->.
    { unfold hslots, pad_to. rewrite lookup_app_r by (destruct (gi_hisparse_slots c); simpl in *; lia). apply lookup_replicate_2. destruct (gi_hisparse_slots c); simpl in *; lia. }
    cbn. unfold ring_slot. by rewrite decide_False by lia.
Qed.

Lemma write_buffers_ok g x m ids pos c b cbt :
  wf_buffers g b -> wf_input g (length ids) pos c -> gc_max_bs g = gc_max_num_seqs g -> (0 < gc_max_bs g)%nat -> (length ids <= m <= gc_max_bs g)%nat ->
  write_compressed g (gi_compressed_tables c) (gb_compressed_tables b) = Ok cbt ->
  exists b', write_buffers g x m ids pos c b = Ok b' /\ wf_buffers g b' /\ replay_rows g m ids pos c b' /\ replay_mapping g x m ids pos c b' /\ gb_compressed_tables b' = cbt.
Proof.
  intros [Wi Wp Ws Wl Wt Wh Wm Wg Wd Wc] [Ip Is (lens & Hll & Il) If Ir Iw Ih Ig Id] Hmax Hpos Hm Hcbt. unfold write_buffers. set (bs := length ids) in *.
  rewrite (set_prefix_ok bs ids) by (rewrite ?Wi; lia). cbn [mbind result_bind]. rewrite (set_prefix_ok bs pos) by (rewrite ?Wp; lia). cbn [mbind result_bind].
  rewrite (set_prefix_fill bs (gi_slot_mapping c)) by (rewrite ?Ws; lia). cbn [mbind result_bind]. rewrite Ws.
  rewrite (write_slots_ok _ _ _ _ (gc_max_bs g) Wh) by (lia || (destruct (gi_hisparse_slots c); cbn; [rewrite length_take; lia|done])). cbn [mbind result_bind].
  rewrite (set_prefix_fill (length (gi_context_lens c))) by (done || rewrite Il, length_app, length_replicate, Wl; lia). cbn [mbind result_bind].
  assert (pad_to (length (gb_context_lens b)) 0 (gi_context_lens c) = lens ++ replicate (gc_max_num_seqs g - bs) 0) as ->.
  { unfold pad_to. rewrite Il, Wl, length_app, length_replicate. replace (gc_max_bs g - _)%nat with 0%nat by lia. by rewrite app_nil_r. }
  unfold write_tables. rewrite decide_True by lia. cbn [mbind result_bind].
  pose proof (padded_lens g bs m lens Hll ltac:(lia)) as Hpl. cbv zeta in Hpl. set (lens' := if gc_flashinfer g && _ then _ else _) in *. destruct Hpl as (Hl1 & Hl2 & Hl3).
  assert (exists gdn, (match gb_gdn_state_slots b, gc_dummy_gdn_slot g with Some buf, Some dummy => s ← write_slots dummy bs (gi_gdn_state_slots c) buf; Ok (Some s) | o, _ => Ok o end) = Ok gdn /\
            gdn = (fun d => pad_to (gc_max_bs g) d (default [] (gi_gdn_state_slots c))) <$> gc_dummy_gdn_slot g) as (gdn & -> & Hgdn).
  { destruct (gc_dummy_gdn_slot g) as [d|]; [destruct Wg as (s & -> & Hs)|rewrite Wg; eauto]. rewrite (write_slots_ok _ _ _ _ _ Hs) by (lia || done). eauto. }
  cbn [mbind result_bind].
  assert (exists dsv4, (match gb_dsv4_state_slots b with Some buf => s ← write_slots (Z.of_nat (gc_max_num_seqs g)) bs (gi_dsv4_state_slots c) buf; Ok (Some s) | None => Ok None end) = Ok dsv4 /\
            dsv4 = if gc_is_dsv4 g then Some (pad_to (gc_max_bs g) (Z.of_nat (gc_max_num_seqs g)) (default [] (gi_dsv4_state_slots c))) else None) as (dsv4 & -> & Hdsv4).
  { destruct (gc_is_dsv4 g); [destruct Wd as (s & -> & Hs)|rewrite Wd; eauto]. rewrite (write_slots_ok _ _ _ _ _ Hs) by (lia || done). eauto. }
  cbn [mbind result_bind]. rewrite Hcbt. cbn [mbind result_bind].
  assert (take bs <$> gi_hisparse_slots c = gi_hisparse_slots c) as -> by (destruct (gi_hisparse_slots c); [cbn; by rewrite take_ge by lia|done]).
  destruct (written_mapping g x m ids pos c b (gb_hisparse_slot_mapping b) _ Wm Hm Ip Ih Wp eq_refl) as [Lm Hmap]. fold bs in Lm, Hmap.
  eexists. split; [done|].
  assert (forall d, length (pad_to (gc_max_bs g) d (default [] (gi_gdn_state_slots c))) = gc_max_bs g) as Lg by (intros d; apply length_pad_to; destruct (gi_gdn_state_slots c); simpl in *; lia).
  assert (length (pad_to (gc_max_bs g) (Z.of_nat (gc_max_num_seqs g)) (default [] (gi_dsv4_state_slots c))) = gc_max_bs g) as Ld by (apply length_pad_to; destruct (gi_dsv4_state_slots c); simpl in *; lia).
  split_and!; [constructor; cbn|constructor; cbn|by apply Hmap|done].
  - rewrite length_app, length_drop, Wi. lia.
  - rewrite length_app, length_drop, Wp, Ip. lia.
  - apply length_pad_to. lia.
  - lia.
  - rewrite length_app, length_fmap, length_replicate. lia.
  - apply length_pad_to. destruct (gi_hisparse_slots c); simpl in *; lia.
  - exact Lm.
  - subst gdn. destruct (gc_dummy_gdn_slot g); [eauto|done].
  - subst dsv4. destruct (gc_is_dsv4 g); [eauto|done].
  - intros ratio. specialize (Wc ratio). pose proof (write_compressed_lookup g _ _ _ ratio Hcbt) as Hlk. destruct (gc_compressed g !! ratio) as [[d w]|] eqn:Eg; [|by rewrite Wc in Hlk].
    destruct Wc as (rows & Hr & Hlr & Hf). rewrite Hr in Hlk. destruct Hlk as (buf' & Hw & Hb'). exists buf'. destruct (write_ratio_shape g _ ratio d w rows buf' Eg Hf Hw) as [Hl' Hf']. split_and!; [done|lia|done].
  - by rewrite take_app_length.
  - by rewrite take_app_length'.
  - done.
  - done.
  - etrans; [exact Hl2|]. rewrite Il. symmetry. by apply take_app_length'.
  - exact Hl3.
  - unfold pad_to. by rewrite length_fmap.
  - exact Hgdn.
  - exact Hdsv4.
Qed.

(** * Plans *)

Lemma cumsum_diffs a l : zip_with Z.sub (tail (a :: cumsum_pages a l)) (a :: cumsum_pages a l) = l.
Proof.
  revert a. induction l as [|x l IH]; intros a; [done|]. cbn [cumsum_pages tail zip_with]. specialize (IH (a + x)). cbn [tail] in IH. rewrite IH. f_equal. lia.
Qed.

Lemma length_cumsum_pages a l : length (cumsum_pages a l) = length l.
Proof. revert a. induction l as [|x l IH]; intros a; [done|]. cbn. by rewrite IH. Qed.

(** The last plan was computed from the page counts its key lists. *)
Record plan_ok (m : nat) (s : PlanState) : Prop := mk_plan_ok {
  po_indptr : length (fs_indptr s) = S m;
  po_last : length (fs_last_page_len s) = m;
  po_key : forall k, fs_plan_key s = Some k -> exists p, fs_planned s = Some p /\ pg_indptr p = 0 :: cumsum_pages 0 (snd k)
}.

(** The wrapper holds the page tables of the rows about to be replayed, and the plan it will use was
    made for their page counts. *)
Record plan_current (m : nat) (meta : PageMeta) (s : PlanState) : Prop := mk_plan_current {
  pl_indptr : fs_indptr s = pg_indptr meta;
  pl_indices : take (length (pg_indices meta)) (fs_indices s) = pg_indices meta;
  pl_last : fs_last_page_len s = pg_last_page_len meta;
  pl_planned : exists p, fs_planned s = Some p /\ pg_indptr p = pg_indptr meta
}.

Definition key_ok (ps : Z) (m : nat) (lens : list Z) (key : option (list Z)) : Prop :=
  match key with Some k => take m k = ceil_pages ps <$> take m lens | None => True end.

Lemma plan_key_counts ps m tables lens key :
  key_ok ps m lens key -> snd (plan_key_of m key (paged_decode_metadata tables lens m ps)) = ceil_pages ps <$> take m lens.
Proof. unfold key_ok, plan_key_of. destruct key as [k|]; [done|]. intros _. cbn [snd paged_decode_metadata pg_indptr]. apply cumsum_diffs. Qed.

Lemma overwrite_same (src dst : list Z) : length src = length dst -> overwrite src dst = src.
Proof. intros Hl. unfold overwrite. rewrite drop_ge by lia. apply app_nil_r. Qed.

Lemma plan_reuse_ok ps m tables lens key s :
  plan_ok m s -> (m <= length lens)%nat -> key_ok ps m lens key ->
  plan_ok m (plan true ps m tables lens key s) /\ plan_current m (paged_decode_metadata tables lens m ps) (plan true ps m tables lens key s).
Proof.
  intros [Hi Hl Hk] Hm Hkey. unfold plan. set (meta := paged_decode_metadata tables lens m ps).
  pose proof (plan_key_counts ps m tables lens key Hkey) as Hc. fold meta in Hc. set (k := plan_key_of m key meta) in *.
  assert (pg_indptr meta = 0 :: cumsum_pages 0 (snd k)) as Hip by (by rewrite Hc).
  assert (overwrite (pg_indptr meta) (fs_indptr s) = pg_indptr meta) as Ho1 by (apply overwrite_same; unfold meta; cbn; rewrite length_cumsum_pages, length_fmap, length_take; lia).
  assert (overwrite (pg_last_page_len meta) (fs_last_page_len s) = pg_last_page_len meta) as Ho2 by (apply overwrite_same; unfold meta; cbn; rewrite length_fmap, length_take; lia).
  assert (length (pg_indptr meta) = S m) as L1 by (rewrite Hip, Hc; cbn; rewrite length_cumsum_pages, length_fmap, length_take; lia).
  assert (length (pg_last_page_len meta) = m) as L2 by (unfold meta; cbn; rewrite length_fmap, length_take; lia).
  assert (forall i, take (length (pg_indices meta)) (overwrite (pg_indices meta) i) = pg_indices meta) as L3 by (intros i; unfold overwrite; by rewrite take_app_length).
  cbn [fs_plan_key]. destruct (decide (fs_plan_key s = Some k)) as [He|He]; cbn [fs_indptr fs_indices fs_last_page_len fs_planned].
  - rewrite Ho1, Ho2. destruct (Hk k He) as (p & Hp & Hpi). split; constructor; cbn [fs_indptr fs_indices fs_last_page_len fs_planned fs_plan_key]; [done..| |done|apply L3|done|exists p; split; [done|by rewrite Hpi]].
    intros k' Hk'. apply Hk. done.
  - rewrite Ho1, Ho2. split; constructor; cbn [fs_indptr fs_indices fs_last_page_len fs_planned fs_plan_key]; [done..| |done|apply L3|done|by exists meta].
    intros k' [= <-]. by exists meta.
Qed.

(** * Runs of the graph runner *)

(** [DecodeGraphRunner.capture] plans each captured size on dummy rows. *)
Definition capture_lens (m : nat) (b : GraphBuffers) : GraphBuffers :=
  mk_graph_buffers (gb_input_ids b) (gb_positions b) (gb_slot_mapping b) (imap (fun i l => if decide (i < m)%nat then 1 else l) (gb_context_lens b)) (gb_block_tables b)
    (gb_hisparse_slots b) (gb_hisparse_slot_mapping b) (gb_gdn_state_slots b) (gb_dsv4_state_slots b) (gb_compressed_tables b).

Definition capture (g : GraphConfig) (m : nat) (r : GraphRunner) : GraphRunner :=
  let r := if gc_flashinfer g then mk_graph_runner (capture_lens m (gr_buffers r)) (gr_plans r) else r in
  plan_graph g m None (plan_graph g m None r).

Inductive graph_step (g : GraphConfig) : GraphRunner -> GraphRunner -> Prop :=
  | step_capture r m : m ∈ make_bs_list (gc_max_bs g) -> graph_step g r (capture g m r)
  | step_run r x ids pos c m r' x' :
      wf_input g (length ids) pos c -> key_ok (Z.of_nat (gc_block_size g)) (length ids) (gi_context_lens c) (gi_plan_key c) ->
      run g x ids pos c r = Ok (m, r', x') -> graph_step g r r'.

(** The states of a runner since its construction. *)
Definition reached (g : GraphConfig) (r : GraphRunner) : Prop := rtc (graph_step g) (mk_graph_runner (new_buffers g) ∅) r.

(** [max_bs = min(config.max_num_seqs, 512)] *)
Definition wf_graph (g : GraphConfig) : Prop := gc_max_bs g = Nat.min (gc_max_num_seqs g) 512 /\ (0 < gc_max_num_seqs g)%nat /\ (0 < gc_block_size g)%nat.

Definition wf_runner (g : GraphConfig) (r : GraphRunner) : Prop :=
  wf_buffers g (gr_buffers r) /\ (gc_reuse_page_plan g = true -> forall m s, gr_plans r !! m = Some s -> plan_ok m s).

(** The metadata of the rows [m] of the buffers. *)
Definition current_meta (g : GraphConfig) (m : nat) (b : GraphBuffers) : PageMeta :=
  paged_decode_metadata (take m (gb_block_tables b)) (take m (gb_context_lens b)) m (Z.of_nat (gc_block_size g)).

Lemma plan_graph_ok g m key r :
  wf_runner g r -> (m <= gc_max_bs g)%nat -> (gc_flashinfer g = true -> key_ok (Z.of_nat (gc_block_size g)) m (gb_context_lens (gr_buffers r)) key) ->
  wf_runner g (plan_graph g m key r) /\ gr_buffers (plan_graph g m key r) = gr_buffers r /\
  (gc_flashinfer g = true -> gc_reuse_page_plan g = true -> exists s, gr_plans (plan_graph g m key r) !! m = Some s /\ plan_current m (current_meta g m (gr_buffers r)) s).
Proof.
  intros [Hb Hp] Hm Hkey. unfold plan_graph. destruct (gc_flashinfer g); [specialize (Hkey eq_refl)|split_and!; done]. split_and!; [|done|].
  - split; [done|]. intros Hre m' s' Hs'. cbn [gr_plans] in Hs'. destruct (decide (m' = m)) as [->|Hne]; [rewrite lookup_insert_eq in Hs'|rewrite lookup_insert_ne in Hs' by done; by apply Hp].
    injection Hs' as <-. rewrite Hre. apply plan_reuse_ok.
    + destruct (gr_plans r !! m) as [s|] eqn:E; [by apply Hp|]. cbn. constructor; cbn; rewrite ?length_replicate; done.
    + rewrite length_take, (wb_lens _ _ Hb). lia.
    + unfold key_ok in *. destruct key; [|done]. by rewrite take_take, Nat.min_id.
  - intros _ Hre. cbn [gr_plans]. rewrite lookup_insert_eq. eexists. split; [done|]. rewrite Hre. apply plan_reuse_ok.
    + destruct (gr_plans r !! m) as [s|] eqn:E; [by apply Hp|]. cbn. constructor; cbn; rewrite ?length_replicate; done.
    + rewrite length_take, (wb_lens _ _ Hb). lia.
    + unfold key_ok in *. destruct key; [|done]. by rewrite take_take, Nat.min_id.
Qed.

Lemma padded_key_ok g m bs lens lens' key :
  (0 < gc_block_size g)%nat -> (bs <= m <= length lens')%nat -> take bs lens' = take bs lens ->
  (forall i, (bs <= i < m)%nat -> lens' !! i = Some 1) -> (bs <= length lens)%nat ->
  key_ok (Z.of_nat (gc_block_size g)) bs lens key -> key_ok (Z.of_nat (gc_block_size g)) m lens' (padded_key bs m key).
Proof.
  intros Hbs Hm Ht Hpad Hl. destruct key as [k|]; [|done]. cbn. intros Hk. rewrite Hk. rewrite take_ge by (rewrite length_app, length_fmap, length_take, length_replicate; lia).
  replace (take m lens') with (take bs lens ++ replicate (m - bs) 1).
  - rewrite fmap_app, fmap_replicate. do 2 f_equal. unfold ceil_pages. replace (1 + Z.of_nat (gc_block_size g) - 1) with (Z.of_nat (gc_block_size g)) by lia. symmetry. apply Z.div_same. lia.
  - rewrite <- Ht. apply list_eq. intros i. destruct (decide (i < bs)%nat) as [Hi|Hi].
    + rewrite lookup_app_l by (rewrite length_take; lia). by rewrite !lookup_take_lt by lia.
    + rewrite lookup_app_r by (rewrite length_take; lia). rewrite length_take, Nat.min_l by lia. destruct (decide (i < m)%nat) as [Hj|Hj].
      * rewrite lookup_replicate_2 by lia. rewrite lookup_take_lt by lia. symmetry. apply Hpad. lia.
      * rewrite !lookup_ge_None_2; [done|rewrite length_take; lia|rewrite length_replicate; lia].
Qed.

Lemma run_ok g x ids pos c r :
  wf_graph g -> wf_runner g r -> wf_input g (length ids) pos c -> key_ok (Z.of_nat (gc_block_size g)) (length ids) (gi_context_lens c) (gi_plan_key c) ->
  (length ids <= top_bs (gc_max_bs g))%nat -> (gc_max_num_seqs g <= 512)%nat ->
  forall cbt, write_compressed g (gi_compressed_tables c) (gb_compressed_tables (gr_buffers r)) = Ok cbt ->
  exists m r', run g x ids pos c r = Ok (m, r', fill_real_reqs (length ids) x) /\ (length ids <= m)%nat /\ m ∈ make_bs_list (gc_max_bs g) /\ wf_runner g r' /\
    replay_rows g m ids pos c (gr_buffers r') /\ replay_mapping g x m ids pos c (gr_buffers r') /\ gb_compressed_tables (gr_buffers r') = cbt /\
    (gc_flashinfer g = true -> gc_reuse_page_plan g = true -> exists s, gr_plans r' !! m = Some s /\ plan_current m (current_meta g m (gr_buffers r')) s).
Proof.
  intros (Hmax & Hpos & Hbs) [Wb Wp] Hin Hkey Htop H512 cbt Hcbt. unfold run.
  destruct (next_bs_ok (gc_max_bs g) (length ids)) as (m & -> & Hm & Hel); [lia|done|]. cbn [mbind result_bind].
  destruct (write_buffers_ok g x m ids pos c (gr_buffers r) cbt Wb Hin ltac:(lia) ltac:(lia) Hm Hcbt) as (b' & -> & Wb' & Hrows & Hmap & Hb'c). cbn [mbind result_bind].
  destruct (plan_graph_ok g m (padded_key (length ids) m (gi_plan_key c)) (mk_graph_runner b' (gr_plans r))) as (Hwf & Hb & Hcur); [by split|lia| |].
  - intros Hfi. cbn [gr_buffers]. destruct (wi_lens _ _ _ _ Hin) as (lens & Hll & Hl). apply (padded_key_ok g m (length ids) (gi_context_lens c)); [done| | | | |done].
    + rewrite (wb_lens _ _ Wb'). lia.
    + apply (rr_lens _ _ _ _ _ _ Hrows).
    + intros i Hi. rewrite (rr_pad_lens _ _ _ _ _ _ Hrows i Hi). by rewrite Hfi.
    + rewrite Hl, length_app. lia.
  - eexists _, _. split; [done|]. rewrite Hb in *. split_and!; [lia|done|done|done|done|done|exact Hcur].
Qed.

Lemma run_stops g x ids pos c r : wf_graph g -> (top_bs (gc_max_bs g) < length ids)%nat -> run g x ids pos c r = Err StopIteration.
Proof. intros (Hmax & Hpos & _) Ht. unfold run. rewrite next_bs_stop by lia. done. Qed.

Lemma run_mismatch g x ids pos c r :
  wf_graph g -> wf_buffers g (gr_buffers r) -> wf_input g (length ids) pos c -> (length ids <= top_bs (gc_max_bs g))%nat -> (512 < gc_max_num_seqs g)%nat ->
  run g x ids pos c r = Err RuntimeError.
Proof.
  intros (Hmax & Hpos & _) [Wi Wp Ws Wl Wt Wh Wm Wg Wd Wc] [Ip Is (lens & Hll & Il) If Ir Iw Ih Ig Id] Ht H512. unfold run.
  destruct (next_bs_ok (gc_max_bs g) (length ids)) as (m & -> & Hm & Hel); [lia|done|]. cbn [mbind result_bind]. unfold write_buffers. set (bs := length ids) in *.
  rewrite (set_prefix_ok bs ids) by (rewrite ?Wi; lia). cbn [mbind result_bind]. rewrite (set_prefix_ok bs pos) by (rewrite ?Wp; lia). cbn [mbind result_bind].
  rewrite (set_prefix_fill bs (gi_slot_mapping c)) by (rewrite ?Ws; lia). cbn [mbind result_bind].
  rewrite (write_slots_ok _ _ _ _ (gc_max_bs g) Wh) by (lia || (destruct (gi_hisparse_slots c); cbn; [rewrite length_take; lia|done])). cbn [mbind result_bind].
  unfold set_prefix. assert (length (gi_context_lens c) = gc_max_num_seqs g) as Hlc by (rewrite Il, length_app, length_replicate; lia). rewrite length_fmap, Wl, Hlc. unfold broadcast.
  rewrite decide_False by lia. destruct (gi_context_lens c) as [|y [|z l]]; [done|simpl in Hlc; lia|done].
Qed.

Lemma new_runner_wf g : wf_runner g (mk_graph_runner (new_buffers g) ∅).
Proof.
  split; [|intros _ m s Hs; cbn in Hs; by rewrite lookup_empty in Hs]. constructor; cbn; rewrite ?length_replicate; try done.
  - destruct (gc_dummy_gdn_slot g); cbn; [eexists; split; [done|by rewrite length_replicate]|done].
  - destruct (gc_is_dsv4 g); [eexists; split; [done|by rewrite length_replicate]|done].
  - intros ratio. rewrite lookup_fmap. destruct (gc_compressed g !! ratio) as [[d w]|]; [|done]. exists (replicate (S (gc_max_bs g)) (replicate w d)). split; [done|]. split; [apply length_replicate|].
    apply Forall_replicate, length_replicate.
Qed.

Lemma run_compressed g x ids pos c r out : run g x ids pos c r = Ok out -> exists cbt, write_compressed g (gi_compressed_tables c) (gb_compressed_tables (gr_buffers r)) = Ok cbt.
Proof. unfold run, write_buffers. intros (m & _ & (b' & Hw & _)%result_bind_Ok)%result_bind_Ok. repeat (apply result_bind_Ok in Hw as (? & ? & Hw)). eauto. Qed.

Lemma reached_wf g r : wf_graph g -> reached g r -> wf_runner g r.
Proof.
  intros Hg Hr. apply (rtc_ind_r (R := graph_step g) (wf_runner g) (mk_graph_runner (new_buffers g) ∅)); [apply new_runner_wf| |done].
  intros r1 r2 _ Hs Hwf. destruct Hs as [r1 m Hm|r1 x ids pos c m r2 x' Hin Hkey Hrun].
  - apply bs_list_bound in Hm. unfold capture. set (r0 := if gc_flashinfer g then _ else _). assert (wf_runner g r0) as H0.
    { unfold r0. destruct (gc_flashinfer g); [|done]. destruct Hwf as [[] Hp]. split; [|done]. constructor; cbn; try done. by rewrite length_imap. }
    apply plan_graph_ok; [apply plan_graph_ok; [done|lia|done]|lia|done].
  - destruct (decide (length ids <= top_bs (gc_max_bs g))%nat) as [Ht|Ht]; [|by rewrite run_stops in Hrun by (done || lia)].
    destruct (decide (gc_max_num_seqs g <= 512)%nat) as [H5|H5]; [|rewrite run_mismatch in Hrun by (done || lia || apply Hwf); done].
    destruct (run_compressed _ _ _ _ _ _ _ Hrun) as [cbt Hcbt].
    destruct (run_ok g x ids pos c r1 Hg Hwf Hin Hkey Ht H5 cbt Hcbt) as (m' & r' & Hrun' & _ & _ & Hwf' & _). rewrite Hrun in Hrun'. by injection Hrun' as -> -> ->.
Qed.

(** * From the input preparer *)

(** A decode batch of one token per sequence that fits the configuration. *)
Record decode_batch_ok (g : GraphConfig) (p : PrepConfig) (b : WireBatch) : Prop := mk_decode_batch_ok {
  do_positions : length (positions b) = length (seq_lens b);
  do_ids : length (input_ids b) = length (seq_lens b);
  do_states : length (state_slots b) = length (seq_lens b);
  do_fits : (length (seq_lens b) <= pc_max_num_seqs p)%nat;
  do_tables : (Nat.max (longest_row (block_tables b)) 1 <= gc_max_num_blocks g)%nat;
  do_seqs : gc_max_num_seqs g = pc_max_num_seqs p;
  do_block : gc_block_size g = pc_block_size p
}.

Lemma write_first_ok n f v out :
  write_first n f v = Ok out -> out = (f <$> seq 0 n) ++ drop n v.
Proof.
  unfold write_first. case_decide as Hn; [|done]. intros [= <-]. apply list_eq. intros i. destruct (decide (i < n)%nat) as [Hi|Hi].
  - rewrite lookup_app_l by (rewrite length_fmap, length_seq; lia). rewrite list_lookup_inserts by (rewrite ?length_fmap, ?length_seq; lia). by rewrite Nat.sub_0_r.
  - rewrite lookup_app_r by (rewrite length_fmap, length_seq; lia). rewrite length_fmap, length_seq, lookup_drop. rewrite list_lookup_inserts_ge by (rewrite length_fmap, length_seq; lia). f_equal. lia.
Qed.

Lemma page_counts_ceil ps lens key : mapM_r (page_count ps) lens = Ok key -> key = ceil_pages ps <$> lens.
Proof.
  revert key. induction lens as [|l lens IH]; intros key Hk; cbn in Hk; [by injection Hk as <-|]. unfold page_count at 1 in Hk.
  destruct ((l + ps - 1) // ps)%py as [q|] eqn:Eq; [|done]. apply py_floordiv_Ok in Eq as [_ ->]. destruct (mapM_r (page_count ps) lens) as [ks|]; [|done]. injection Hk as <-. cbn. by rewrite <- (IH ks).
Qed.

Lemma clamp_slots_length d s : length (clamp_slots d s) = length s.
Proof. apply length_fmap. Qed.

Lemma length_raw_hisparse p b : length (raw_hisparse_slots p b) = length (seq_lens b).
Proof. unfold raw_hisparse_slots. rewrite length_app, length_take, length_replicate. lia. Qed.

Lemma foldM_write_length ws flat flat' : foldM_r write_blocks flat ws = Ok flat' -> length flat' = length flat.
Proof.
  revert flat. induction ws as [|w ws IH]; intros flat Hf; cbn in Hf; [by injection Hf as <-|]. destruct (write_blocks flat w) as [f1|] eqn:E; [|done].
  rewrite (IH _ Hf). by destruct (write_blocks_lookup _ _ _ E).
Qed.

Lemma prepared_input g p c b dummy x ids pos ctx x1 :
  decode_batch_ok g p b -> prepare_decode p c 1 b dummy x = Ok (ids, pos, ctx, x1) ->
  exists gi, graph_input ctx = Ok gi /\ length ids = length (seq_lens b) /\ wf_input g (length ids) pos gi /\
    key_ok (Z.of_nat (gc_block_size g)) (length ids) (gi_context_lens gi) (gi_plan_key gi).
Proof.
  intros [Hp Hi Hs Hf Ht Hg Hb] H. unfold prepare_decode in H. apply result_bind_Ok in H as (meta & Hmeta & H).
  unfold runner_in_decode in Hmeta. apply result_bind_Ok in Hmeta as (flat & Hflat & Hmeta). apply result_bind_Ok in Hmeta as (lens & Hlens & [= <-]).
  cbn [dm_context_lens_flat dm_positions dm_block_tables_flat dm_max_num_blocks dm_input_ids dm_slot_mapping] in H. apply write_first_ok in Hlens. rewrite Nat.min_l in Hlens by lia.
  set (num := length (seq_lens b)) in *. set (mx := pc_max_num_seqs p) in *. cbn [Nat.mul] in *. rewrite Nat.add_0_r, drop_replicate in Hlens.
  apply result_bind_Ok in H as (lt & Hlt & H). apply result_bind_Ok in H as (key & Hkey & H). apply result_bind_Ok in H as (tables & Htab & H).
  apply result_bind_Ok in H as (u & _ & H). apply result_bind_Ok in H as (x' & _ & H). injection H as <- <- <- _.
  unfold reshape in Hlt. destruct (decide _) as [_|]; [|done]. injection Hlt as <-. apply page_counts_ceil in Hkey.
  assert (length flat = (Nat.max num 1 * Nat.max (longest_row (block_tables b)) 1)%nat) as Hfl.
  { destruct (is_dummy b); [injection Hflat as <-|apply foldM_write_length in Hflat; rewrite Hflat]; rewrite length_replicate; lia. }
  assert (exists n w, it_shape tables = [1%nat; n; w] /\ (n <= Nat.max num 1)%nat /\ (w <= gc_max_num_blocks g)%nat) as (n & w & Hshape & Hn & Hw).
  { destruct (decide _) as [_|Hne]; [injection Htab as <-; exists 0%nat, 0%nat; split_and!; [done|lia|lia]|]. destruct (is_dummy b); [done|].
    set (w := Nat.max (longest_row (block_tables b)) 1) in *. unfold reshape_infer in Htab. destruct (decide _); [done|]. unfold reshape in Htab. destruct (decide _); [|done]. injection Htab as <-.
    exists (length flat / (w + 0))%nat, w. cbn [it_shape]. split_and!; [done| |done]. rewrite Nat.add_0_r, Hfl, Nat.div_mul by lia. done. }
  unfold graph_input. cbn [bc_slot_mapping bc_context_lens bc_block_tables of_option mbind result_bind it_shape it_data]. rewrite Hshape. eexists. split; [done|]. split; [done|].
  rewrite Hi. set (f := fun i : nat => _) in Hlens. assert (length (f <$> seq 0 num) = num) as Hls by (by rewrite length_fmap, length_seq). split.
  - constructor; cbn [gi_slot_mapping gi_context_lens gi_block_tables gi_width gi_hisparse_slots gi_gdn_state_slots gi_dsv4_state_slots bc_hisparse_slots bc_gdn_state_slots bc_dsv4_state_slots].
    + done.
    + destruct (is_dummy b); [apply length_replicate|unfold decode_slots; by rewrite length_imap].
    + exists (f <$> seq 0 num). split; [done|]. by rewrite Hg.
    + lia.
    + unfold rows_of_tensor. rewrite length_fmap, length_seq. done.
    + done.
    + destruct (pc_enable_hisparse p); [|done]. cbv beta iota. by rewrite clamp_slots_length, length_raw_hisparse.
    + unfold prepared_gdn_slots. destruct (gdn_conv_states _); cbn; [|done]. by rewrite clamp_slots_length.
    + unfold prepared_dsv4_slots. destruct (decide (mode (cfg c) = _)); cbv beta iota; [by rewrite clamp_slots_length|done].
  - cbn [gi_context_lens gi_plan_key key_ok bc_decode_page_plan_key]. rewrite Hkey, Hb. rewrite take_take, Nat.min_l by lia. apply take_ge. rewrite length_fmap, length_take. lia.
Qed.

Lemma compressed_rows_shape max_slots w dummy slots per_seq :
  length (compressed_rows max_slots w dummy slots per_seq) = S max_slots /\ Forall (fun row => length row = w) (compressed_rows max_slots w dummy slots per_seq).
Proof.
  unfold compressed_rows. assert (forall l rows, length rows = S max_slots -> Forall (fun row : list Z => length row = w) rows ->
    length (foldl (scatter_row max_slots w) rows l) = S max_slots /\ Forall (fun row => length row = w) (foldl (scatter_row max_slots w) rows l)) as Hf.
  { intros l. induction l as [|[slot pages] l IH]; intros rows Hl Hr; [done|]. cbn [foldl]. unfold scatter_row at 2 4. case_decide as Hs; [|by apply IH].
    apply IH; [by rewrite length_alter|]. apply Forall_alter; [done|]. intros row _ Hrow. by rewrite length_inserts. }
  apply Hf; [apply length_replicate|apply Forall_replicate, length_replicate].
Qed.

Lemma prepared_compressed g p c b dummy x ids pos ctx x1 gi :
  gc_max_num_seqs g = pc_max_num_seqs p -> gc_compressed g = graph_compressed (gc_is_dsv4 g) c ->
  prepare_decode p c 1 b dummy x = Ok (ids, pos, ctx, x1) -> graph_input ctx = Ok gi -> wf_compressed g gi.
Proof.
  intros Hn Hg H Hgi. unfold prepare_decode in H. do 6 (apply result_bind_Ok in H as (? & _ & H)). injection H as _ _ <- _.
  unfold graph_input in Hgi. cbn [bc_slot_mapping bc_context_lens bc_block_tables of_option mbind result_bind] in Hgi.
  assert (gi_compressed_tables gi = prepared_tables p c b) as Ht by (repeat case_match; try done; by injection Hgi as <-). intros ratio d w t rows Hc Hs Hr. rewrite Ht in Hs. clear Hgi Ht.
  rewrite Hg in Hc. unfold graph_compressed in Hc. destruct (gc_is_dsv4 g); [|by rewrite lookup_empty in Hc]. rewrite map_lookup_imap in Hc.
  unfold prepared_tables in Hs. destruct (decide _); [|done]. destruct (decide _); [done|]. injection Hs as <-. unfold built_tables in Hr. rewrite map_lookup_imap in Hr.
  destruct (compressed_block_tables b !! ratio) as [per_seq|]; [|done]. cbn in Hr. destruct (dsv4_compressed_pool_config (csa c) !! ratio) as [[[np ps] mb]|]; [|done]. cbn in Hc, Hr.
  destruct (decide (mb <= 0)); [done|]. injection Hc as <- <-. injection Hr as <-. rewrite Hn. apply compressed_rows_shape.
Qed.

Lemma prepared_mapping p c b dummy x ids pos ctx x1 gi mp :
  prepare_decode p c 1 b dummy x = Ok (ids, pos, ctx, x1) -> graph_input ctx = Ok gi -> pc_has_gqa p = true -> gi_hisparse_slot_mapping gi = Some mp ->
  0 < tokens_per_seq x1 /\ exists slots, gi_hisparse_slots gi = Some slots /\ mp = (fun q => ring_slot x1 (fst q) (snd q)) <$> zip slots pos.
Proof.
  intros H Hgi Hq Hm. unfold prepare_decode in H. apply result_bind_Ok in H as (meta & _ & H). do 4 (apply result_bind_Ok in H as (? & _ & H)). apply result_bind_Ok in H as (x' & _ & H). injection H as _ <- <- <-.
  unfold graph_input in Hgi. cbn [bc_slot_mapping bc_context_lens bc_block_tables of_option mbind result_bind] in Hgi.
  assert (gi_hisparse_slot_mapping gi = (if pc_enable_hisparse p then build_hot_slot_mapping (clamp_slots (Z.of_nat (pc_max_num_seqs p)) (raw_hisparse_slots p b)) (dm_positions meta) x' else None) /\
    gi_hisparse_slots gi = if pc_enable_hisparse p then Some (clamp_slots (Z.of_nat (pc_max_num_seqs p)) (raw_hisparse_slots p b)) else None) as [Hm' Hs].
  { rewrite Hq in Hgi. repeat match type of Hgi with match ?l with _ => _ end = _ => destruct l; try done end. all: by injection Hgi as <-. }
  rewrite Hs. rewrite Hm' in Hm. destruct (pc_enable_hisparse p); [|done]. unfold build_hot_slot_mapping in Hm. destruct (decide _) as [|Ht]; [done|]. injection Hm as <-. split; [cbn; lia|]. by eexists.
Qed.

Lemma replay_compressed_ok g c b cbt b' :
  wf_buffers g b -> gc_max_bs g = gc_max_num_seqs g -> wf_compressed g c -> write_compressed g (gi_compressed_tables c) (gb_compressed_tables b) = Ok cbt ->
  gb_compressed_tables b' = cbt -> replay_compressed g c b'.
Proof.
  intros Hw Hmax Hc Hcbt Hb' ratio. pose proof (write_compressed_lookup g _ _ _ ratio Hcbt) as Hlk. pose proof (wb_compressed _ _ Hw ratio) as Hr. rewrite Hb'.
  destruct (gc_compressed g !! ratio) as [[d w]|] eqn:Eg; [|by rewrite Hr in Hlk]. destruct Hr as (rows & Hrows & Hl & Hf). rewrite Hrows in Hlk. destruct Hlk as (buf' & Hwr & ->).
  rewrite (write_ratio_exact g _ ratio d w) in Hwr; [|done|done|].
  - injection Hwr as <-. cbn. by rewrite Hl.
  - intros rs Hrs. destruct (gi_compressed_tables c) as [t|] eqn:Et; [|done]. cbn in Hrs. rewrite Hl, Hmax. by apply (Hc ratio d w t rs).
Qed.

Lemma write_compressed_shaped g c b :
  wf_buffers g b -> gc_max_bs g = gc_max_num_seqs g -> wf_compressed g c -> exists cbt, write_compressed g (gi_compressed_tables c) (gb_compressed_tables b) = Ok cbt.
Proof.
  intros Hw Hmax Hc. apply write_compressed_ok. intros ratio buf Hb. pose proof (wb_compressed _ _ Hw ratio) as Hr. destruct (gc_compressed g !! ratio) as [[d w]|] eqn:Eg; [|congruence].
  destruct Hr as (rows & Hrows & Hl & Hf). assert (rows = buf) as -> by congruence. eexists. apply (write_ratio_exact g _ ratio d w); [done..|].
  intros rs Hrs. destruct (gi_compressed_tables c) as [t|] eqn:Et; [|done]. cbn in Hrs. rewrite Hl, Hmax. by apply (Hc ratio d w t rs).
Qed.


(** C37. The batches a graph runner refuses: a decode batch above the largest captured size (which
    is smaller than [max_num_seqs] unless it is 1, 2, 4, 8 or a multiple of 16) ends in [StopIteration], and
    with [max_num_seqs] above 512 every batch ends in a shape error, the buffers of
    context lengths being shorter than the context's. *)
Theorem decode_replay_errors g p c b dummy x ids pos ctx x1 r :
  wf_graph g -> reached g r -> decode_batch_ok g p b -> prepare_decode p c 1 b dummy x = Ok (ids, pos, ctx, x1) ->
  exists gi, graph_input ctx = Ok gi /\
    ((top_bs (gc_max_bs g) < length (seq_lens b))%nat -> run g x1 ids pos gi r = Err StopIteration) /\
    ((length (seq_lens b) <= top_bs (gc_max_bs g))%nat -> (512 < gc_max_num_seqs g)%nat -> run g x1 ids pos gi r = Err RuntimeError).
Proof.
  intros Hg Hr Hb Hp. destruct (prepared_input g p c b dummy x ids pos ctx x1 Hb Hp) as (gi & Hgi & Hl & Hin & Hkey). exists gi. split; [done|]. rewrite <- Hl. split.
  - by apply run_stops.
  - apply run_mismatch; [done|by apply reached_wf|done].
Qed.

(** [n] sequences of one token on a small model. *)
Definition many_tokens (n : nat) : WireBatch :=
  mk_batch false (replicate n 10) (replicate n 3) (replicate n 1) ((fun i => [Z.of_nat i]) <$> seq 0 n) (replicate n 0) (Z.of_nat <$> seq 0 n) ∅ (replicate n (-1)) (Z.of_nat <$> seq 0 n)
    (replicate n true) false false.
Definition small_cache : CacheContext :=
  mk_ctx (mk_cfg 4 1 1 2 "gqa" 0 0 false false 0 false None 2 0) 1 1 None 8 0 "cuda" None None None (mk_gdn None None 0 0) None (mk_csa None ∅ ∅ ∅ ∅ ∅ ∅ ∅ ∅ ∅) 0 None.
Definition prep_of (max_num_seqs : nat) : PrepConfig := mk_prep_config 4 max_num_seqs 0 64 false false false gemma4_example.
Definition graph_of (max_num_seqs : nat) : GraphConfig := graph_config max_num_seqs 64 false false true true small_cache.

Lemma many_tokens_ok n m : (n <= m)%nat -> (longest_row (block_tables (many_tokens n)) <= 16)%nat -> decode_batch_ok (graph_of m) (prep_of m) (many_tokens n).
Proof.
  intros Hn Hl. constructor; cbn [many_tokens positions seq_lens input_ids state_slots]; rewrite ?length_fmap, ?length_replicate, ?length_seq; try done.
  change (gc_max_num_blocks (graph_of m)) with 16%nat. lia.
Qed.


Lemma decode_replay_errors_witness :
  exists gi, run (graph_of 12) empty_hisparse (replicate 9 10) (replicate 9 3) gi (mk_graph_runner (new_buffers (graph_of 12)) ∅) = Err StopIteration.
Proof.
  edestruct (decode_replay_errors (graph_of 12) (prep_of 12) small_cache (many_tokens 9) false empty_hisparse (replicate 9 10) (replicate 9 3)) with (r := mk_graph_runner (new_buffers (graph_of 12)) ∅)
    as (gi & _ & Hstop & _).
  - split_and!; [done|cbn; lia|cbn; lia].
  - apply rtc_refl.
  - apply many_tokens_ok; [lia|vm_compute; lia].
  - vm_compute. reflexivity.
  - exists gi. apply Hstop. vm_compute. lia.
Defined.
