(* ===== verification/EmbeddingPool.v ===== *)
(** Slot accounting of the vision-embedding buffer
    ([dlengine/runtime/context/cache/emb.py]). *)

From S2P Require Import Prelude.

Open Scope Z_scope.

(** [EmbeddingPool].  [free_slots] is the heap as a multiset of its elements: [heappush]
    adds one, [heapify] keeps them, and [heappop] removes the smallest, which is what
    [heapq] documents for a list that only these functions arrange. *)
Record EmbeddingPool := mk_pool {
  num_slots : Z;
  max_tokens_per_slot : Z;
  hidden_size : Z;
  dtype_itemsize : Z;
  free_slots : list Z;
  slot_token_counts : gmap Z Z
}.

Definition set_free (f : list Z) (m : gmap Z Z) (p : EmbeddingPool) : EmbeddingPool :=
  mk_pool (num_slots p) (max_tokens_per_slot p) (hidden_size p) (dtype_itemsize p) f m.

(** [__post_init__] *)
Definition new_pool (slots max_tokens hidden itemsize : Z) : EmbeddingPool :=
  mk_pool slots max_tokens hidden itemsize (py_range slots) ∅.

Definition available_slots (p : EmbeddingPool) : Z := zlen (free_slots p).

(** The smallest element of a non-empty list, and the list without one occurrence of it. *)
Definition minimum (x : Z) (l : list Z) : Z := foldr Z.min x l.

Fixpoint remove_one (x : Z) (l : list Z) : list Z :=
  match l with
  | [] => []
  | y :: l => if decide (x = y) then l else y :: remove_one x l
  end.

Definition allocate (num_tokens : Z) (p : EmbeddingPool) : result (Z * EmbeddingPool) :=
  if decide (num_tokens > max_tokens_per_slot p) then Err RuntimeError
  else match free_slots p with
       | [] => Err RuntimeError
       | x :: l =>
           let slot_idx := minimum x l in
           Ok (slot_idx, set_free (remove_one slot_idx (x :: l))
                           (<[slot_idx := num_tokens]> (slot_token_counts p)) p)
       end.

Definition free (slot_idx : Z) (p : EmbeddingPool) : EmbeddingPool :=
  match slot_token_counts p !! slot_idx with
  | Some _ => set_free (slot_idx :: free_slots p) (delete slot_idx (slot_token_counts p)) p
  | None => p
  end.

(** [free_many]: the loop appends, and the heap is rebuilt at the end. *)
Definition free_many (slot_indices : list Z) (p : EmbeddingPool) : EmbeddingPool :=
  foldl (fun p idx => match slot_token_counts p !! idx with
                      | Some _ => set_free (free_slots p ++ [idx]) (delete idx (slot_token_counts p)) p
                      | None => p
                      end) p slot_indices.

(** [write_slot] with [n] rows of [hidden_size] elements: the index must exist (a negative
    one counts from the end) and the rows must fit the slot. *)
Definition write_slot (slot_idx n : Z) (p : EmbeddingPool) : result EmbeddingPool :=
  if decide (~ (- num_slots p <= slot_idx < num_slots p)) then Err IndexError
  else if decide (n > max_tokens_per_slot p) then Err RuntimeError
  else Ok (set_free (free_slots p) (<[slot_idx := n]> (slot_token_counts p)) p).

Definition slot_byte_offset (slot_idx : Z) (p : EmbeddingPool) : Z :=
  slot_idx * max_tokens_per_slot p * hidden_size p * dtype_itemsize p.

Definition slot_num_bytes (slot_idx : Z) (p : EmbeddingPool) : Z :=
  default 0 (slot_token_counts p !! slot_idx) * hidden_size p * dtype_itemsize p.

(** The size registered by [register_mr]. *)
Definition buffer_num_bytes (p : EmbeddingPool) : Z :=
  num_slots p * max_tokens_per_slot p * hidden_size p * dtype_itemsize p.

(** * Runs *)

(** The calls an encoder makes: writes only go to slots it was given. *)
Inductive step : EmbeddingPool -> EmbeddingPool -> Prop :=
  | step_allocate n p s p' : 0 <= n -> allocate n p = Ok (s, p') -> step p p'
  | step_free i p : step p (free i p)
  | step_free_many l p : step p (free_many l p)
  | step_write i n p p' : 0 <= n -> is_Some (slot_token_counts p !! i) ->
      write_slot i n p = Ok p' -> step p p'.

(** Slot accounting is exact: each slot is either free, once, or allocated with a token
    count that fits. *)
Record wf (p : EmbeddingPool) : Prop := mk_wf {
  wf_nodup : NoDup (free_slots p);
  wf_slots : forall i, 0 <= i < num_slots p <-> i ∈ free_slots p \/ is_Some (slot_token_counts p !! i);
  wf_disjoint : forall i, i ∈ free_slots p -> slot_token_counts p !! i = None;
  wf_counts : forall i n, slot_token_counts p !! i = Some n -> 0 <= n <= max_tokens_per_slot p
}.

(** * Lemmas *)

Lemma minimum_le x l : minimum x l <= x /\ Forall (fun y => minimum x l <= y) l.
Proof.
  unfold minimum. induction l as [|y l [IH1 IH2]]; simpl; [split; [lia|constructor]|].
  split; [lia|]. constructor; [lia|]. eapply Forall_impl; [exact IH2|]. simpl. lia.
Qed.

Lemma minimum_in x l : minimum x l ∈ x :: l.
Proof.
  unfold minimum. induction l as [|y l IH]; simpl; [set_solver|].
  destruct (Z.min_spec y (foldr Z.min x l)) as [[_ ->]|[_ ->]]; set_solver.
Qed.

Lemma remove_one_perm x l : x ∈ l -> x :: remove_one x l ≡ₚ l.
Proof.
  induction l as [|y l IH]; [by intros ?%not_elem_of_nil|]. simpl. intros Hx.
  case_decide as E; [by subst|]. apply elem_of_cons in Hx as [?|Hx]; [done|].
  rewrite perm_swap. by rewrite IH.
Qed.

Lemma pool_allocate_Ok n p s p' :
  allocate n p = Ok (s, p') ->
  n <= max_tokens_per_slot p /\ s ∈ free_slots p /\ (forall i, i ∈ free_slots p -> s <= i) /\
  exists f, s :: f ≡ₚ free_slots p /\ p' = set_free f (<[s := n]> (slot_token_counts p)) p.
Proof.
  unfold allocate. case_decide; [done|]. destruct (free_slots p) as [|x l] eqn:E; [done|].
  intros [= <- <-]. pose proof (minimum_in x l). pose proof (minimum_le x l) as [H1 H2].
  split; [lia|]. split; [done|]. split.
  - intros i [->|Hi]%elem_of_cons; [done|]. by apply (proj1 (Forall_forall _ _) H2).
  - eexists. split; [by apply (remove_one_perm (minimum x l))|done].
Qed.

(** Freeing one allocated slot, wherever it is put on the free list. *)
Lemma wf_free_one p i f :
  wf p -> is_Some (slot_token_counts p !! i) -> f ≡ₚ i :: free_slots p ->
  wf (set_free f (delete i (slot_token_counts p)) p).
Proof.
  intros [Hn Hs Hd Hc] Hi Hf. split; simpl.
  - rewrite Hf. apply NoDup_cons. split; [|done]. intros Hin. rewrite (Hd _ Hin) in Hi. by destruct Hi.
  - intros j. rewrite Hs, Hf, elem_of_cons. destruct (decide (j = i)) as [->|].
    + tauto.
    + rewrite lookup_delete_ne by done. tauto.
  - intros j. rewrite Hf, elem_of_cons. intros [->|Hj]; [by rewrite lookup_delete_eq|].
    destruct (decide (j = i)) as [->|]; [by rewrite lookup_delete_eq|]. rewrite lookup_delete_ne by done. auto.
  - intros j n. rewrite lookup_delete_Some. intros [_ ?]. eauto.
Qed.

Lemma wf_new slots max_tokens hidden itemsize : wf (new_pool slots max_tokens hidden itemsize).
Proof.
  split; simpl.
  - apply NoDup_seqZ.
  - intros i. unfold py_range. rewrite elem_of_seqZ, lookup_empty. split; [intros; left; lia|].
    intros [?|[? ?]]; [lia|done].
  - intros. by rewrite lookup_empty.
  - intros i n. by rewrite lookup_empty.
Qed.

Lemma wf_allocate n p s p' : wf p -> 0 <= n -> allocate n p = Ok (s, p') -> wf p'.
Proof.
  intros [Hn Hs Hd Hc] Hpos (Hle & Hin & _ & f & Hf & ->)%pool_allocate_Ok.
  rewrite <- Hf in Hn. apply NoDup_cons in Hn as [Hsf Hn].
  assert (forall j, j ∈ f -> j <> s) as Hne by (intros j Hj ->; done).
  split; simpl.
  - done.
  - intros i. rewrite Hs, <- Hf, elem_of_cons. destruct (decide (i = s)) as [->|].
    + rewrite lookup_insert_eq. split; [right; by eexists|tauto].
    + rewrite lookup_insert_ne by done. tauto.
  - intros i Hi. rewrite lookup_insert_ne by (apply not_eq_sym; auto). apply Hd. rewrite <- Hf. by right.
  - intros i m. rewrite lookup_insert_Some. intros [[<- <-]|[_ ?]]; [lia|eauto].
Qed.

Lemma wf_free i p : wf p -> wf (free i p).
Proof.
  intros Hw. unfold free. destruct (slot_token_counts p !! i) eqn:E; [|done].
  by apply wf_free_one; [|rewrite E; eexists|].
Qed.

Lemma wf_free_many l p : wf p -> wf (free_many l p).
Proof.
  unfold free_many. revert p. induction l as [|i l IH]; intros p Hw; simpl; [done|]. apply IH.
  destruct (slot_token_counts p !! i) eqn:E; [|done].
  apply wf_free_one; [done|rewrite E; by eexists|]. by rewrite Permutation_app_comm.
Qed.

Lemma wf_write i n p p' :
  wf p -> 0 <= n -> is_Some (slot_token_counts p !! i) -> write_slot i n p = Ok p' -> wf p'.
Proof.
  intros [Hn Hs Hd Hc] Hpos Hi. unfold write_slot. repeat (case_decide; [done|]). intros [= <-].
  split; simpl; [done| | |].
  - intros j. rewrite Hs. destruct (decide (j = i)) as [->|].
    + rewrite lookup_insert_eq. split; [right; by eexists|tauto].
    + by rewrite lookup_insert_ne.
  - intros j Hj. destruct (decide (j = i)) as [->|]; [rewrite (Hd _ Hj) in Hi; by destruct Hi|].
    rewrite lookup_insert_ne by done. auto.
  - intros j m. rewrite lookup_insert_Some. intros [[<- <-]|[_ ?]]; [lia|eauto].
Qed.

Lemma step_consts p p' :
  step p p' -> (num_slots p', max_tokens_per_slot p', hidden_size p', dtype_itemsize p') =
               (num_slots p, max_tokens_per_slot p, hidden_size p, dtype_itemsize p).
Proof.
  destruct 1 as [n p s p' _ (_ & _ & _ & f & _ & ->)%pool_allocate_Ok|i p|l p|i n p p' _ _ H].
  - done.
  - unfold free. by destruct (slot_token_counts p !! i).
  - unfold free_many. revert p. induction l as [|i l IH]; intros p; simpl; [done|]. rewrite IH.
    by destruct (slot_token_counts p !! i).
  - unfold write_slot in H. repeat (case_decide; [done|]). by injection H as <-.
Qed.

Lemma wf_step p p' : step p p' -> wf p -> wf p'.
Proof. destruct 1; eauto using wf_allocate, wf_free, wf_free_many, wf_write. Qed.

Lemma wf_reachable p p' : rtc step p p' -> wf p -> wf p'.
Proof. induction 1; eauto using wf_step. Qed.

(** * Properties *)

(** C34. In every pool an encoder can reach from a new one by allocating, freeing (also slots it
    does not hold, or twice) and writing slots it holds, each slot is free exactly once or
    allocated, never both; [allocate] succeeds exactly when the request fits a slot and some
    slot is not allocated, and then hands out the lowest slot that is not allocated and
    records the request for it, leaving the others as they are. *)
Theorem embedding_slots_never_shared slots max_tokens hidden itemsize p n :
  rtc step (new_pool slots max_tokens hidden itemsize) p ->
  NoDup (free_slots p) /\
  (forall i, 0 <= i < num_slots p <-> (i ∈ free_slots p <-> slot_token_counts p !! i = None)
                                      /\ (i ∈ free_slots p \/ is_Some (slot_token_counts p !! i))) /\
  match allocate n p with
  | Ok (s, p') => n <= max_tokens_per_slot p /\ 0 <= s < num_slots p /\ slot_token_counts p !! s = None /\
      slot_token_counts p' = <[s := n]> (slot_token_counts p) /\
      (forall i, 0 <= i < s -> is_Some (slot_token_counts p !! i))
  | Err _ => n > max_tokens_per_slot p \/
      (forall i, 0 <= i < num_slots p -> is_Some (slot_token_counts p !! i))
  end.
Proof.
  intros Hr. pose proof (wf_reachable _ _ Hr (wf_new _ _ _ _)) as [Hn Hs Hd Hc].
  split; [done|]. split.
  - intros i. rewrite Hs. split; [|tauto]. intros H. split; [|done]. split; [auto|].
    intros Hnone. destruct H as [|[? H]]; [done|]. by rewrite Hnone in H.
  - destruct (allocate n p) as [[s p']|e] eqn:E.
    + apply pool_allocate_Ok in E as (Hle & Hin & Hmin & f & _ & ->).
      split; [done|]. split; [apply Hs; by left|]. split; [by apply Hd|]. split; [done|].
      intros i Hi. assert (0 <= i < num_slots p) as Hb.
      { split; [lia|]. assert (0 <= s < num_slots p) by (apply Hs; by left). lia. }
      apply Hs in Hb as [Hf|]; [|done]. specialize (Hmin _ Hf). lia.
    + unfold allocate in E. case_decide as Hgt; [by left|]. right. intros i Hi%Hs.
      destruct (free_slots p); [|done]. destruct Hi as [?%not_elem_of_nil|]; done.
Qed.

Lemma embedding_slots_never_shared_witness :
  exists p, rtc step (new_pool 4 16 8 2) p /\ allocate 5 p = Ok (0, mk_pool 4 16 8 2 [2; 3] {[0 := 5; 1 := 9]}) /\
    slot_token_counts p !! 0 = None.
Proof.
  set (p := mk_pool 4 16 8 2 [0; 2; 3] {[1 := 9]}).
  assert (rtc step (new_pool 4 16 8 2) p) as Hr.
  { apply (rtc_l _ _ (mk_pool 4 16 8 2 [1; 2; 3] {[0 := 7]}));
      [apply (step_allocate 7 _ 0); [lia|reflexivity]|].
    apply (rtc_l _ _ (mk_pool 4 16 8 2 [2; 3] {[0 := 7; 1 := 9]}));
      [apply (step_allocate 9 _ 1); [lia|reflexivity]|].
    apply (rtc_l _ _ p); [|constructor]. exact (step_free 0 (mk_pool 4 16 8 2 [2; 3] {[0 := 7; 1 := 9]})). }
  destruct (embedding_slots_never_shared 4 16 8 2 p 5 Hr) as (_ & _ & _ & _ & Hs & _).
  exists p. split; [exact Hr|]. split; [reflexivity|exact Hs].
Defined.

(** Published embeddings never overlap: the byte ranges of two allocated slots are
    disjoint and inside the registered buffer. *)
Theorem embedding_slot_ranges_disjoint slots max_tokens hidden itemsize p i j :
  rtc step (new_pool slots max_tokens hidden itemsize) p -> 0 <= hidden -> 0 <= itemsize ->
  is_Some (slot_token_counts p !! i) -> is_Some (slot_token_counts p !! j) -> i < j ->
  0 <= slot_byte_offset i p /\
  slot_byte_offset i p + slot_num_bytes i p <= slot_byte_offset j p /\
  slot_byte_offset j p + slot_num_bytes j p <= buffer_num_bytes p.
Proof.
  intros Hr Hh Hz [n Hi] [m Hj] Hij. pose proof (wf_reachable _ _ Hr (wf_new _ _ _ _)) as [_ Hs _ Hc].
  assert (hidden_size p = hidden /\ dtype_itemsize p = itemsize) as [Eh Ez].
  { clear -Hr. remember (new_pool slots max_tokens hidden itemsize) as q eqn:Eq.
    assert (hidden_size q = hidden /\ dtype_itemsize q = itemsize) as Hq by by subst.
    clear Eq. induction Hr as [|q q' p Hst _ IH]; [done|]. apply IH. apply step_consts in Hst. naive_solver. }
  pose proof (Hc _ _ Hi). pose proof (Hc _ _ Hj).
  assert (0 <= i < num_slots p) by (apply Hs; right; by eexists).
  assert (0 <= j < num_slots p) by (apply Hs; right; by eexists).
  unfold slot_byte_offset, slot_num_bytes, buffer_num_bytes. rewrite Hi, Hj, Eh, Ez. simpl.
  set (w := hidden * itemsize). assert (0 <= w) by (unfold w; nia).
  rewrite <- !Z.mul_assoc. fold w. rewrite !Z.mul_assoc, <- !Z.mul_add_distr_r.
  split; [apply Z.mul_nonneg_nonneg; nia|]. split; apply Z.mul_le_mono_nonneg_r; nia.
Qed.

Lemma embedding_slot_ranges_disjoint_witness :
  let p := mk_pool 4 16 8 2 [2; 3] {[0 := 7; 1 := 9]} in
  0 <= slot_byte_offset 0 p /\ slot_byte_offset 0 p + slot_num_bytes 0 p <= slot_byte_offset 1 p /\
  slot_byte_offset 1 p + slot_num_bytes 1 p <= buffer_num_bytes p.
Proof.
  apply (embedding_slot_ranges_disjoint 4 16 8 2 (mk_pool 4 16 8 2 [2; 3] {[0 := 7; 1 := 9]}) 0 1);
    [|lia|lia|by eexists|by eexists|lia].
  apply (rtc_l _ _ (mk_pool 4 16 8 2 [1; 2; 3] {[0 := 7]}));
    [apply (step_allocate 7 _ 0); [lia|reflexivity]|].
  apply (rtc_l _ _ (mk_pool 4 16 8 2 [2; 3] {[0 := 7; 1 := 9]}));
    [apply (step_allocate 9 _ 1); [lia|reflexivity]|constructor].
Defined.
