(* ===== verification/Streaming.v ===== *)
(** Turning engine tokens into a text stream ([dlengine/server/openai_server.py]): stop
    strings, hold-back of partial matches, reasoning regions, tool-call markers, and the
    incremental detokenizer. *)

From S2P Require Import Prelude PyStr.

(** * String helpers *)

Section strings.
Context {C : Type} `{!EqDecision C}.
Implicit Types (text s : list C) (stops : list (list C)).

(** [_earliest_stop] *)
Definition earliest_stop text stops : option nat :=
  foldl (fun best s =>
           match find s text, best with
           | Some idx, Some b => if decide (idx < b) then Some idx else best
           | Some idx, None => Some idx
           | None, _ => best
           end) None stops.

(** The inner loop of [_partial_stop_holdback]: the largest [k <= n] such that [text] ends
    with [s\[:k\]], if any. *)
Fixpoint partial_match text s (n : nat) : option nat :=
  match n with
  | 0 => None
  | S n' => if endswith text (take n s) then Some n else partial_match text s n'
  end.

Definition partial_stop_holdback text stops : nat :=
  foldl (fun max_hold s =>
           match partial_match text s (Nat.min (length s - 1) (length text)) with
           | Some k => Nat.max max_hold k
           | None => max_hold
           end) 0 stops.

(** [_skip_redundant_think_openers] with [marker] for ["<think>"]: the [while] loop, bounded
    by the length of the text since each round consumes at least one character. *)
Fixpoint skip_openers (marker text : list C) (fuel pos : nat) : nat :=
  match fuel with
  | 0 => pos
  | S fuel => if startswith (drop pos text) marker
              then skip_openers marker text fuel (pos + length marker) else pos
  end.

Definition skip_redundant_think_openers (marker text : list C) (start : nat) : nat * bool :=
  let pos := skip_openers marker text (length text) start in
  let suffix := drop pos text in
  (pos, bool_decide (suffix = []) || startswith marker suffix).

(** [text\[i:j\]] *)
Definition slice text (i j : nat) : list C := drop i (take j text).

(** * The raw stream: [_stream_text_raw] *)

(** What a request is parsed with: stop strings, hold markers, the closing and the
    opening tag of a reasoning region. *)
Record Markers := mk_markers {
  stops_of : list (list C);
  hold_markers : list (list C);
  think_close : list C;
  think_open : list C
}.

(** The local variables of the generator.  [in_reasoning] is [gen.in_reasoning]. *)
Record RawState := mk_raw {
  rs_text : list C;
  emitted : nat;
  holding_marker : bool;
  reasoning_active : bool;
  drop_openers : bool;
  in_reasoning : bool
}.

(** [reasoning_open] *)
Definition raw_init (reasoning_open : bool) : RawState :=
  mk_raw [] 0 false reasoning_open reasoning_open false.

(** A yielded chunk with the channel the consumer routes it to: [true] is reasoning. *)
Abbreviation Event := (bool * list C)%type.

(** [if to > emitted: yield text\[emitted:to\]] with [emitted = to] *)
Definition yield_upto (channel : bool) (text : list C) (from to : nat) : list Event :=
  if decide (from < to) then [(channel, slice text from to)] else [].

(** The search for the closing tag from [pos] on: reasoning is streamed, except for a
    trailing partial closing tag; when the tag is there the region closes and the rest of
    the delta is handled as content.  The flag says whether the loop continues with the
    next item. *)
Definition reasoning_scan (m : Markers) (text : list C) (pos : nat) (holding in_r : bool)
    : list Event * RawState * bool :=
  match find_from (think_close m) text pos with
  | None =>
      let safe := length text - partial_stop_holdback text [think_close m] in
      (yield_upto true text pos safe,
       mk_raw text (Nat.max pos safe) holding true false (in_r || bool_decide (pos < safe)), true)
  | Some close =>
      (yield_upto true text pos close,
       mk_raw text (close + length (think_close m)) holding false false false, false)
  end.

(** The [if reasoning_active] block. *)
Definition reasoning_part (m : Markers) (st : RawState) : list Event * RawState * bool :=
  if negb (reasoning_active st) then ([], st, false)
  else
    let text := rs_text st in
    if drop_openers st then
      let '(pos, need_more) := skip_redundant_think_openers (think_open m) text (emitted st) in
      if need_more then
        ([], mk_raw text pos (holding_marker st) true true (in_reasoning st), true)
      else reasoning_scan m text pos (holding_marker st) (in_reasoning st)
    else reasoning_scan m text (emitted st) (holding_marker st) (in_reasoning st).

(** One decoded delta.  The final flag says that a stop string ended the stream. *)
Definition raw_delta (m : Markers) (st : RawState) (delta : list C) : list Event * RawState * bool :=
  if decide (delta = []) then ([], st, false)
  else
    let text := rs_text st ++ delta in
    let st := mk_raw text (emitted st) (holding_marker st) (reasoning_active st) (drop_openers st)
                (in_reasoning st) in
    let '(evs, st, continue) := reasoning_part m st in
    if continue then (evs, st, false)
    else
      let set_emitted e h := mk_raw text e h (reasoning_active st) (drop_openers st) (in_reasoning st) in
      match earliest_stop text (stops_of m) with
      | Some idx =>
          (evs ++ yield_upto (in_reasoning st) text (emitted st) idx,
           set_emitted (Nat.max (emitted st) idx) (holding_marker st), true)
      | None =>
          let midx := if holding_marker st then None else earliest_stop text (hold_markers m) in
          match midx with
          | Some idx =>
              (evs ++ yield_upto (in_reasoning st) text (emitted st) idx,
               set_emitted (Nat.max (emitted st) idx) true, false)
          | None =>
              if holding_marker st then (evs, st, false)
              else
                let safe := length text - partial_stop_holdback text (stops_of m ++ hold_markers m) in
                (evs ++ yield_upto (in_reasoning st) text (emitted st) safe,
                 set_emitted (Nat.max (emitted st) safe) false, false)
          end
      end.

(** The flush after the queue ended without a stop hit. *)
Definition raw_flush (st : RawState) : list Event :=
  let text := rs_text st in
  if reasoning_active st then yield_upto true text (emitted st) (length text)
  else if holding_marker st then []
  else yield_upto false text (emitted st) (length text).

(** The chunks of a list of deltas, the state reached, and whether a stop string ended it. *)
Fixpoint raw_deltas (m : Markers) (st : RawState) (ds : list (list C)) : list Event * RawState * bool :=
  match ds with
  | [] => ([], st, false)
  | d :: ds =>
      let '(evs, st, stopped) := raw_delta m st d in
      if stopped then (evs, st, true)
      else let '(evs', st, stopped) := raw_deltas m st ds in (evs ++ evs', st, stopped)
  end.

(** The whole generator on decoded deltas; a stream that held a marker from the start ends
    with an empty state-only chunk. *)
Definition raw_stream (m : Markers) (reasoning_open : bool) (ds : list (list C)) : list Event * bool :=
  let '(evs, st, stopped) := raw_deltas m (raw_init reasoning_open) ds in
  let flush := if stopped then [] else raw_flush st in
  let final := if holding_marker st && bool_decide (emitted st = 0) then [(in_reasoning st, [])] else [] in
  (evs ++ flush ++ final, stopped).

(** Everything yielded on a channel. *)
Definition on_channel (channel : bool) (evs : list Event) : list C :=
  concat (omap (fun e => if bool_decide (fst e = channel) then Some (snd e) else None) evs).
End strings.
Arguments Markers : clear implicits.
Arguments RawState : clear implicits.

(** * Tokens to deltas *)

Section tokens.
Context {C : Type} `{!EqDecision C}.
(** [tokenizer.decode] with the flags of the tool parser, and U+FFFD. *)
Context (decode : list Z -> list C) (replacement : C).

(** [_Generation] (detokenizer part) *)
Record Generation := mk_gen {
  token_ids : list Z;
  prefix_offset : nat;
  read_offset : nat
}.

Definition new_generation : Generation := mk_gen [] 0 0.

(** [_incremental_detokenize] *)
Definition incremental_detokenize (g : Generation) : list C * Generation :=
  let ids := token_ids g in
  let prefix_text := decode (slice ids (prefix_offset g) (read_offset g)) in
  let new_text := decode (drop (prefix_offset g) ids) in
  if decide (length prefix_text < length new_text) then
    if endswith new_text [replacement] then ([], g)
    else (drop (length prefix_text) new_text, mk_gen ids (read_offset g) (length ids))
  else ([], g).

(** An item of a request's queue. *)
Inductive Item := ItemEnd | ItemError | ItemTokens (tokens : list Z) | ItemOther.

(** How a generator ends: a stop hit (after asking the engine to abort), the queue's end
    with its finish reason, an engine error, or still waiting for the queue. *)
Inductive Outcome := Stopped | Ended (reason : string) | Raised | Waiting.

(** The loop of [_stream_text_raw] over the queue's items. *)
Fixpoint stream_items (m : Markers C) (max_tokens : Z) (st : RawState C) (g : Generation)
    (items : list Item) : list (bool * list C) * RawState C * Generation * Outcome :=
  match items with
  | [] => ([], st, g, Waiting)
  | ItemEnd :: _ =>
      (raw_flush st, st, g,
       Ended (if decide (max_tokens <= zlen (token_ids g))%Z then "length" else "stop"))
  | ItemError :: _ => ([], st, g, Raised)
  | ItemOther :: items => stream_items m max_tokens st g items
  | ItemTokens tokens :: items =>
      let remaining := (max_tokens - zlen (token_ids g))%Z in
      if decide (remaining <= 0)%Z then stream_items m max_tokens st g items
      else
        let g := mk_gen (token_ids g ++ take (Z.to_nat remaining) tokens) (prefix_offset g) (read_offset g) in
        let '(delta, g) := incremental_detokenize g in
        let '(evs, st, stopped) := raw_delta m st delta in
        if stopped then (evs, st, g, Stopped)
        else let '(evs', st, g, out) := stream_items m max_tokens st g items in (evs ++ evs', st, g, out)
  end.

Definition stream_text_raw (m : Markers C) (reasoning_open : bool) (max_tokens : Z) (items : list Item)
    : list (bool * list C) * Generation * Outcome :=
  let '(evs, st, g, out) := stream_items m max_tokens (raw_init reasoning_open) new_generation items in
  let final := if holding_marker st && bool_decide (emitted st = 0) then [(in_reasoning st, [])] else [] in
  match out with
  | Stopped | Ended _ => (evs ++ final, g, out)
  | Raised | Waiting => (evs, g, out)
  end.
End tokens.

(** * Deltas of a queue *)

Section deltas.
Context {C : Type} `{!EqDecision C} (decode : list Z -> list C) (replacement : C).

(** The deltas the loop decodes from a queue, with the generation and how it ends when no
    stop string intervenes. *)
Fixpoint item_deltas (max_tokens : Z) (g : Generation) (items : list Item) : list (list C) * Generation * Outcome :=
  match items with
  | [] => ([], g, Waiting)
  | ItemEnd :: _ => ([], g, Ended (if decide (max_tokens <= zlen (token_ids g))%Z then "length" else "stop"))
  | ItemError :: _ => ([], g, Raised)
  | ItemOther :: items => item_deltas max_tokens g items
  | ItemTokens tokens :: items =>
      let remaining := (max_tokens - zlen (token_ids g))%Z in
      if decide (remaining <= 0)%Z then item_deltas max_tokens g items
      else
        let g := mk_gen (token_ids g ++ take (Z.to_nat remaining) tokens) (prefix_offset g) (read_offset g) in
        let '(delta, g) := incremental_detokenize decode replacement g in
        let '(ds, g, out) := item_deltas max_tokens g items in (delta :: ds, g, out)
  end.

(** The raw generator over the queue is the one over these deltas. *)
Lemma stream_items_deltas m max_tokens st g items :
  let '(ds, g', out) := item_deltas max_tokens g items in
  let '(evs, st', stopped) := raw_deltas m st ds in
  exists g'', stream_items decode replacement m max_tokens st g items =
    if stopped then (evs, st', g'', Stopped)
    else (evs ++ match out with Ended _ => raw_flush st' | _ => [] end, st', g', out).
Proof.
  revert st g. induction items as [|it items IH]; intros st g; [by exists g|].
  destruct it as [| |tokens|]; cbn [item_deltas stream_items]; try (by exists g); [|apply IH].
  case_decide; [apply IH|]. destruct (incremental_detokenize _ _ _) as [delta g1].
  specialize (IH (raw_delta m st delta).1.2 g1). destruct (item_deltas max_tokens g1 items) as [[ds g'] out].
  cbn [raw_deltas]. destruct (raw_delta m st delta) as [[evs st1] stopped1]. cbn [fst snd] in IH.
  destruct stopped1; [by exists g1|].
  destruct (raw_deltas m st1 ds) as [[evs' st'] stopped]. destruct IH as (g'' & ->). exists g''.
  destruct stopped; [done|]. by rewrite app_assoc.
Qed.

(** The tokens of a queue up to its end. *)
Fixpoint item_tokens (items : list Item) : list Z :=
  match items with
  | [] | ItemEnd :: _ | ItemError :: _ => []
  | ItemTokens tokens :: items => tokens ++ item_tokens items
  | ItemOther :: items => item_tokens items
  end.

Lemma detokenize_tokens g : token_ids (incremental_detokenize decode replacement g).2 = token_ids g.
Proof. unfold incremental_detokenize. case_decide; [|done]. by destruct (endswith _ _). Qed.

Lemma item_deltas_tokens max_tokens g items :
  (zlen (token_ids g) <= max_tokens)%Z ->
  token_ids (item_deltas max_tokens g items).1.2 = take (Z.to_nat max_tokens) (token_ids g ++ item_tokens items).
Proof.
  revert g. induction items as [|it items IH]; intros g Hg.
  { simpl. rewrite app_nil_r, take_ge; [done|]. unfold zlen in Hg. lia. }
  assert (token_ids g = take (Z.to_nat max_tokens) (token_ids g ++ [])) as Hend
    by (rewrite app_nil_r, take_ge; [done|unfold zlen in Hg; lia]).
  destruct it as [| |tokens|]; cbn [item_deltas item_tokens]; [done|done| |by apply IH].
  case_decide as Hr.
  - rewrite IH by done. unfold zlen in *. rewrite !take_app_ge by lia.
    replace (Z.to_nat max_tokens - length (token_ids g)) with 0 by lia. by rewrite !take_0.
  - set (g0 := mk_gen _ _ _). pose proof (detokenize_tokens g0) as Ht.
    destruct (incremental_detokenize decode replacement g0) as [delta g1]. cbn [snd] in Ht.
    specialize (IH g1). destruct (item_deltas max_tokens g1 items) as [[ds g'] out]. cbn [fst snd] in *.
    rewrite IH, Ht; unfold g0, zlen in *; cbn [token_ids]; rewrite ?Ht; cbn [token_ids].
    2:{ rewrite length_app, length_take. lia. }
    set (n := Z.to_nat (max_tokens - Z.of_nat (length (token_ids g)))).
    destruct (decide (length tokens <= n)) as [Hl|Hl].
    + by rewrite (take_ge tokens) by done; rewrite app_assoc.
    + assert (Z.to_nat max_tokens = length (token_ids g) + n) as -> by (unfold n; lia).
      rewrite (take_app_le (token_ids g ++ take n tokens)) by (rewrite length_app, length_take; lia).
      rewrite !take_app_add, take_take, Nat.min_id, take_app_le by lia. done.
Qed.
End deltas.

(** * Lemmas *)

Section lemmas.
Context {C : Type} `{!EqDecision C}.
Implicit Types (text s d : list C) (stops : list (list C)).

(** [earliest_stop] is the least index at which some stop string occurs. *)
Definition stop_at stops text (i : nat) : Prop := exists s, s ∈ stops /\ occurs_at s text i.

Lemma earliest_stop_snoc text stops s :
  earliest_stop text (stops ++ [s]) =
  match find s text, earliest_stop text stops with
  | Some idx, Some b => if decide (idx < b) then Some idx else Some b
  | Some idx, None => Some idx
  | None, best => best
  end.
Proof. unfold earliest_stop. rewrite foldl_app. simpl. destruct (find s text), (foldl _ _ _); done. Qed.

Lemma stop_at_snoc stops s text i : stop_at (stops ++ [s]) text i <-> stop_at stops text i \/ occurs_at s text i.
Proof.
  unfold stop_at. split.
  - intros (x & [Hx|Hx]%elem_of_app & Ho); [by left; exists x|].
    apply list_elem_of_singleton in Hx as ->. by right.
  - intros [(x & Hx & Ho)|Ho]; [exists x|exists s]; rewrite elem_of_app, list_elem_of_singleton; auto.
Qed.

Lemma earliest_stop_spec text stops :
  match earliest_stop text stops with
  | Some i => stop_at stops text i /\ forall j, stop_at stops text j -> i <= j
  | None => forall j, ~ stop_at stops text j
  end.
Proof.
  induction stops as [|s stops IH] using rev_ind; [intros j (s & ?%not_elem_of_nil & _); done|].
  rewrite earliest_stop_snoc.
  assert (forall j, stop_at (stops ++ [s]) text j <-> stop_at stops text j \/ occurs_at s text j) as Hs
    by (intros; apply stop_at_snoc).
  destruct (find s text) as [idx|] eqn:Ef.
  - apply find_Some in Ef as [Ho Hmin].
    assert (forall j, occurs_at s text j -> idx <= j) as Hmin'.
    { intros j Hj. destruct (decide (idx <= j)); [done|]. exfalso. apply (Hmin j); [lia|done]. }
    destruct (earliest_stop text stops) as [b|].
    + destruct IH as [Hb Hbm]. case_decide; (split; [apply Hs; tauto|]); intros j [Hj|Hj]%Hs;
        [apply Hbm in Hj|apply Hmin' in Hj|apply Hbm in Hj|apply Hmin' in Hj]; lia.
    + split; [apply Hs; tauto|]. intros j [Hj|Hj]%Hs; [by apply IH in Hj|auto].
  - rewrite find_None in Ef. destruct (earliest_stop text stops) as [b|].
    + destruct IH as [Hb Hbm]. split; [apply Hs; tauto|]. intros j [Hj|Hj]%Hs; [auto|by apply Ef in Hj].
    + intros j [Hj|Hj]%Hs; [by apply IH in Hj|by apply Ef in Hj].
Qed.

Lemma earliest_stop_Some text stops i :
  earliest_stop text stops = Some i -> stop_at stops text i /\ forall j, stop_at stops text j -> i <= j.
Proof. intros E. pose proof (earliest_stop_spec text stops) as H. by rewrite E in H. Qed.

Lemma earliest_stop_None text stops : earliest_stop text stops = None <-> forall j, ~ stop_at stops text j.
Proof.
  pose proof (earliest_stop_spec text stops) as H. destruct (earliest_stop text stops) as [i|]; [|tauto].
  split; [done|]. intros Hn. destruct H as [H _]. by apply Hn in H.
Qed.

(** Hold-back: every proper prefix of a stop string that ends the text is held. *)
Lemma partial_match_complete text s n k :
  k <= n -> 0 < k -> take k s `suffix_of` text -> exists k', partial_match text s n = Some k' /\ k <= k' <= n.
Proof.
  induction n as [|n IH]; intros Hk Hpos Hs; [lia|]. simpl. unfold endswith. case_bool_decide as E.
  - exists (S n). split; [done|lia].
  - assert (k <> S n) by (intros ->; done). destruct IH as (k' & ? & ?); [lia|done|done|]. exists k'. split; [done|lia].
Qed.

Lemma partial_match_bound text s n k : partial_match text s n = Some k -> k <= n.
Proof. induction n as [|n IH]; simpl; [done|]. destruct (endswith _ _); [intros [= <-]; lia|]. intros H%IH. lia. Qed.

Lemma holdback_snoc text stops s :
  partial_stop_holdback text (stops ++ [s]) =
  Nat.max (partial_stop_holdback text stops)
    (default 0 (partial_match text s (Nat.min (length s - 1) (length text)))).
Proof. unfold partial_stop_holdback. rewrite foldl_app. simpl. destruct (partial_match _ _ _); simpl; lia. Qed.

Lemma holdback_complete text stops s k :
  s ∈ stops -> 0 < k < length s -> k <= length text -> take k s `suffix_of` text ->
  k <= partial_stop_holdback text stops.
Proof.
  induction stops as [|s' stops IH] using rev_ind; [by intros ?%not_elem_of_nil|].
  rewrite elem_of_app, list_elem_of_singleton, holdback_snoc. intros [Hs| ->] Hk Hl Hsuf.
  - specialize (IH Hs Hk Hl Hsuf). lia.
  - destruct (partial_match_complete text s' (Nat.min (length s' - 1) (length text)) k) as (k' & -> & ?);
      [lia|lia|done|]. simpl. lia.
Qed.

Lemma holdback_le text stops : partial_stop_holdback text stops <= length text.
Proof.
  induction stops as [|s stops IH] using rev_ind; [unfold partial_stop_holdback; simpl; lia|].
  rewrite holdback_snoc. destruct (partial_match _ _ _) as [k|] eqn:E; simpl; [|lia].
  apply partial_match_bound in E. lia.
Qed.

(** A stop string that completes later starts at or after what is held back. *)
Lemma holdback_safe_at text stops s d i :
  s ∈ stops -> ~ occurs_at s text i -> occurs_at s (text ++ d) i ->
  length text - partial_stop_holdback text stops <= i.
Proof.
  intros Hs Hn Ho. destruct (decide (length text <= i)) as [|Hi]; [lia|].
  assert (~ i + length s <= length text) as Hl.
  { intros Hl. apply Hn. by eapply occurs_at_app_inv. }
  enough (length text - i <= partial_stop_holdback text stops) by lia.
  apply (holdback_complete _ _ s); [done|lia|lia|].
  destruct Ho as [_ [k Hk]]. rewrite drop_app_le in Hk by lia.
  assert (take (length text - i) s = drop i text) as ->; [|exists (take i text); by rewrite take_drop].
  apply (f_equal (take (length text - i))) in Hk. rewrite take_app_le in Hk by (rewrite length_drop; lia).
  rewrite take_ge in Hk by (rewrite length_drop; lia). by rewrite take_app_le in Hk by lia.
Qed.

Lemma holdback_safe text stops d i :
  (forall j, ~ stop_at stops text j) -> stop_at stops (text ++ d) i ->
  length text - partial_stop_holdback text stops <= i.
Proof.
  intros Hn (s & Hs & Ho). apply (holdback_safe_at _ _ s d); [done| |done].
  intros Ho'. apply (Hn i). by exists s.
Qed.

(** * Content without a reasoning region *)

(** Emitting up to [e] is safe: no stop string of a continuation starts before [e]. *)
Definition safe_upto stops text (e : nat) : Prop := forall d i, stop_at stops (text ++ d) i -> e <= i.

Lemma safe_upto_app stops text d e : safe_upto stops text e -> safe_upto stops (text ++ d) e.
Proof. intros H d' i. rewrite <- app_assoc. apply H. Qed.

Lemma safe_upto_holdback stops all text e :
  (forall j, ~ stop_at all text j) -> stops ⊆ all ->
  safe_upto stops text e -> safe_upto stops text (Nat.max e (length text - partial_stop_holdback text all)).
Proof.
  intros Hn Hsub He d i Hi. specialize (He d i Hi).
  enough (length text - partial_stop_holdback text all <= i) by lia.
  apply (holdback_safe _ _ d); [done|]. destruct Hi as (s & Hs & Ho). exists s. split; [by apply Hsub|done].
Qed.

(** What is held back starts where a continuation could complete a marker. *)
Lemma holdback_witness text ms :
  0 < partial_stop_holdback text ms ->
  exists m, m ∈ ms /\ partial_stop_holdback text ms < length m /\
    take (partial_stop_holdback text ms) m `suffix_of` text.
Proof.
  assert (forall (m : list C) n k, partial_match text m n = Some k -> take k m `suffix_of` text) as Hpm.
  { intros m n k. induction n as [|n IH]; simpl; [done|]. unfold endswith.
    case_bool_decide; [by intros [= <-]|done]. }
  induction ms as [|m ms IH] using rev_ind; [unfold partial_stop_holdback; simpl; lia|].
  rewrite holdback_snoc. destruct (partial_match text m _) as [k|] eqn:Ek; simpl.
  - intros Hpos. destruct (decide (partial_stop_holdback text ms <= k)) as [Hle|Hgt].
    + rewrite Nat.max_r by done. exists m. rewrite elem_of_app, list_elem_of_singleton.
      pose proof (partial_match_bound _ _ _ _ Ek). split_and!; [by right|lia|by eapply Hpm].
    + rewrite Nat.max_l in * by lia. destruct (IH Hpos) as (m' & Hm & ? & ?). exists m'.
      rewrite elem_of_app. auto.
  - rewrite Nat.max_0_r. intros Hpos. destruct (IH Hpos) as (m' & Hm & ? & ?). exists m'.
    rewrite elem_of_app. auto.
Qed.

Lemma safe_before_holdback ms text e :
  safe_upto ms text e -> e <= length text -> e <= length text - partial_stop_holdback text ms.
Proof.
  intros Hs He. destruct (decide (0 < partial_stop_holdback text ms)) as [Hpos|]; [|lia].
  destruct (holdback_witness text ms Hpos) as (m & Hm & Hlt & [k Hk]).
  pose proof (holdback_le text ms) as Hle. set (h := partial_stop_holdback text ms) in *.
  apply (Hs (drop h m)). exists m. split; [done|].
  assert (length k = length text - h) as Hlk.
  { apply (f_equal length) in Hk. rewrite length_app, length_take in Hk. lia. }
  split; [rewrite length_app; lia|].
  rewrite drop_app_le by lia. rewrite <- Hlk. rewrite Hk, drop_app_length, take_drop. done.
Qed.

(** Text that no marker can reach back into does not change what is held back. *)
Lemma holdback_drop ms t r :
  safe_upto ms (t ++ r) (length t) -> partial_stop_holdback (t ++ r) ms = partial_stop_holdback r ms.
Proof.
  intros Hs. pose proof (safe_before_holdback _ _ _ Hs ltac:(rewrite length_app; lia)) as Hle.
  pose proof (holdback_le (t ++ r) ms). rewrite length_app in *. apply Nat.le_antisymm.
  - destruct (decide (0 < partial_stop_holdback (t ++ r) ms)) as [Hpos|]; [|lia].
    destruct (holdback_witness _ _ Hpos) as (m & Hm & Hlt & Hsuf).
    apply (holdback_complete _ _ m); [done|lia|lia|]. destruct (suffix_weak_total _ r (t ++ r) Hsuf) as [Hsuf'|Hsuf']; [by exists t| |].
    + done.
    + exists []. simpl. destruct Hsuf' as [k Hk]. apply (f_equal length) in Hk as Hl.
      rewrite length_app, length_take in Hl. destruct k; [by rewrite Hk|simpl in Hl; lia].
  - destruct (decide (0 < partial_stop_holdback r ms)) as [Hpos|]; [|lia].
    destruct (holdback_witness _ _ Hpos) as (m & Hm & Hlt & Hsuf). pose proof (holdback_le r ms).
    apply (holdback_complete _ _ m); [done|lia|rewrite length_app; lia|]. by apply suffix_app_r.
Qed.

(** The search may skip text that no stop string can reach back into. *)
Lemma earliest_stop_shift stops t r :
  (forall j, stop_at stops (t ++ r) j -> length t <= j) ->
  earliest_stop r stops = (fun i => i - length t) <$> earliest_stop (t ++ r) stops.
Proof.
  intros Hs. assert (forall j, stop_at stops r j <-> stop_at stops (t ++ r) (length t + j)) as Hsh.
  { intros j. split; intros (m & Hm & Ho); exists m; (split; [done|]); by apply (occurs_at_shift m t r j). }
  pose proof (earliest_stop_spec (t ++ r) stops) as H. pose proof (earliest_stop_spec r stops) as H'.
  destruct (earliest_stop (t ++ r) stops) as [i|], (earliest_stop r stops) as [i'|]; csimpl; [| | |done].
  - destruct H as [Hi Hmin], H' as [Hi' Hmin']. specialize (Hs _ Hi). f_equal. apply Nat.le_antisymm.
    + apply Hmin', Hsh. by replace (length t + (i - length t)) with i by lia.
    + enough (i <= length t + i') by lia. by apply Hmin, Hsh.
  - destruct H as [Hi _]. specialize (Hs _ Hi). exfalso. apply (H' (i - length t)), Hsh.
    by replace (length t + (i - length t)) with i by lia.
  - destruct H' as [Hi _]. exfalso. by eapply H, Hsh.
Qed.

(** The first cumulative text with a cut, and the cut. *)
Fixpoint first_cut (cuts : list (list C)) text (ds : list (list C)) : option (list C * nat) :=
  match ds with
  | [] => None
  | d :: ds =>
      match earliest_stop (text ++ d) cuts with
      | Some i => Some (text ++ d, i)
      | None => first_cut cuts (text ++ d) ds
      end
  end.

Lemma slice_take text i j : i <= j -> take i text ++ slice text i j = take j text.
Proof.
  intros. unfold slice. trans (take i (take j text) ++ drop i (take j text)); [|apply take_drop].
  by rewrite take_take, Nat.min_l.
Qed.

Lemma on_channel_app c (e1 e2 : list (bool * list C)) : on_channel c (e1 ++ e2) = on_channel c e1 ++ on_channel c e2.
Proof. unfold on_channel. by rewrite omap_app, concat_app. Qed.

Lemma yield_upto_content text e i :
  e <= length text ->
  take e text ++ on_channel false (yield_upto false text e i) = take (Nat.max e i) text /\
  on_channel true (yield_upto false text e i) = [].
Proof.
  intros He. unfold yield_upto. case_decide; unfold on_channel; simpl.
  - rewrite app_nil_r, slice_take by lia. split; [f_equal; lia|done].
  - rewrite app_nil_r. split; [f_equal; lia|done].
Qed.

(** The state between deltas while no cut was seen and no reasoning is open. *)
Record plain (m : Markers C) (st : RawState C) : Prop := mk_plain {
  pl_flags : holding_marker st = false /\ reasoning_active st = false /\ in_reasoning st = false;
  pl_emitted : emitted st <= length (rs_text st);
  pl_none : forall j, ~ stop_at (stops_of m ++ hold_markers m) (rs_text st) j;
  pl_stops : safe_upto (stops_of m) (rs_text st) (emitted st);
  pl_marks : safe_upto (hold_markers m) (rs_text st) (emitted st)
}.

Lemma stop_at_app stops1 stops2 text j :
  stop_at (stops1 ++ stops2) text j <-> stop_at stops1 text j \/ stop_at stops2 text j.
Proof.
  unfold stop_at. split.
  - intros (s & [?|?]%elem_of_app & ?); eauto.
  - intros [(s & ? & ?)|(s & ? & ?)]; exists s; rewrite elem_of_app; auto.
Qed.

Lemma stop_at_le stops text i : stop_at stops text i -> i <= length text.
Proof. intros (s & _ & [? _]). done. Qed.

(** One delta in the plain state. *)
Lemma raw_delta_plain m st d :
  plain m st -> d <> [] ->
  let t := rs_text st ++ d in
  match earliest_stop t (stops_of m) with
  | Some i => raw_delta m st d = (yield_upto false t (emitted st) i,
                                  mk_raw t i false false (drop_openers st) false, true)
              /\ emitted st <= i <= length t
  | None =>
      match earliest_stop t (hold_markers m) with
      | Some i => raw_delta m st d = (yield_upto false t (emitted st) i,
                                      mk_raw t i true false (drop_openers st) false, false)
                  /\ emitted st <= i <= length t
      | None => exists st', raw_delta m st d = (yield_upto false t (emitted st) (emitted st'), st', false)
                  /\ rs_text st' = t /\ emitted st <= emitted st' /\ plain m st'
      end
  end.
Proof.
  intros [(Hh & Hr & Hi) He Hn Hs Hm] Hd. cbv zeta. unfold raw_delta. rewrite decide_False by done.
  unfold reasoning_part. simpl. rewrite Hr, Hh, Hi. simpl. set (t := rs_text st ++ d).
  destruct (earliest_stop t (stops_of m)) as [i|] eqn:Es.
  { apply earliest_stop_Some in Es as [Hat _]. pose proof (Hs _ _ Hat). apply stop_at_le in Hat.
    rewrite Nat.max_r by done. done. }
  destruct (earliest_stop t (hold_markers m)) as [i|] eqn:Em.
  { apply earliest_stop_Some in Em as [Hat _]. pose proof (Hm _ _ Hat). apply stop_at_le in Hat.
    rewrite Nat.max_r by done. done. }
  rewrite earliest_stop_None in Es, Em.
  assert (forall j, ~ stop_at (stops_of m ++ hold_markers m) t j) as Hn'.
  { intros j. rewrite stop_at_app. intros [?|?]; [by eapply Es|by eapply Em]. }
  pose proof (holdback_le t (stops_of m ++ hold_markers m)).
  exists (mk_raw t (Nat.max (emitted st) (length t - partial_stop_holdback t (stops_of m ++ hold_markers m)))
            false false (drop_openers st) false).
  split; [|split; [reflexivity|split; [simpl; lia|]]].
  - f_equal. f_equal. unfold yield_upto. simpl.
    destruct (decide (emitted st < length t - partial_stop_holdback t (stops_of m ++ hold_markers m))).
    + rewrite decide_True by lia. by rewrite Nat.max_r by lia.
    + by rewrite decide_False by lia.
  - assert (length t = length (rs_text st) + length d) by apply length_app.
    split; simpl; [done|lia|done| |].
    + apply safe_upto_holdback; [done|set_solver|]. by apply safe_upto_app.
    + apply safe_upto_holdback; [done|set_solver|]. by apply safe_upto_app.
Qed.

Lemma raw_delta_nil m (st : RawState C) : raw_delta m st [] = ([], st, false).
Proof. unfold raw_delta. by rewrite decide_True. Qed.

(** Deltas in the plain state, without hold markers: what is emitted is the text up to the
    first cut. *)
Lemma raw_deltas_stops m st ds evs st' stopped :
  hold_markers m = [] -> plain m st -> raw_deltas m st ds = (evs, st', stopped) ->
  on_channel true evs = [] /\
  match first_cut (stops_of m) (rs_text st) ds with
  | Some (t, i) => stopped = true /\ holding_marker st' = false /\
      take (emitted st) (rs_text st) ++ on_channel false evs = take i t
  | None => stopped = false /\ plain m st' /\ rs_text st' = rs_text st ++ concat ds /\
      take (emitted st) (rs_text st) ++ on_channel false evs = take (emitted st') (rs_text st')
  end.
Proof.
  intros Hm. revert st evs st' stopped. induction ds as [|d ds IH]; intros st evs st' stopped Hp; simpl.
  { intros [= <- <- <-]. rewrite !app_nil_r. done. }
  destruct (decide (d = [])) as [->|Hd].
  { rewrite raw_delta_nil, app_nil_r. destruct (raw_deltas m st ds) as [[evs' st''] stopped'] eqn:E.
    intros [= <- <- <-]. assert (earliest_stop (rs_text st) (stops_of m) = None) as ->.
    { apply earliest_stop_None. intros j Hj. apply (pl_none _ _ Hp j), stop_at_app. by left. }
    by apply IH. }
  pose proof (raw_delta_plain m st d Hp Hd) as Hstep. cbv zeta in Hstep. rewrite Hm in Hstep.
  pose proof (pl_emitted _ _ Hp) as He.
  set (t := rs_text st ++ d) in *.
  assert (take (emitted st) (rs_text st) = take (emitted st) t) as Et.
  { unfold t. by rewrite take_app_le. }
  assert (emitted st <= length t) as Hlt by (unfold t; rewrite length_app; lia).
  destruct (earliest_stop t (stops_of m)) as [i|].
  - destruct Hstep as [-> Hi]. intros [= <- <- <-].
    destruct (yield_upto_content t (emitted st) i Hlt) as [Hc ->].
    rewrite Et, Hc, Nat.max_r by lia. done.
  - destruct Hstep as (st1 & -> & Ht & Hle & Hp1).
    destruct (raw_deltas m st1 ds) as [[evs' st''] stopped'] eqn:E. intros [= <- <- <-].
    specialize (IH _ _ _ _ Hp1 E). rewrite Ht in IH. rewrite !on_channel_app.
    destruct (yield_upto_content t (emitted st) (emitted st1) Hlt) as [Hc ->].
    rewrite Et, app_assoc, Hc, Nat.max_r by lia. rewrite app_assoc. exact IH.
Qed.

(** While a marker is held and there are no stop strings, nothing is emitted. *)
Lemma raw_deltas_held (m : Markers C) st ds evs st' stopped :
  stops_of m = [] -> holding_marker st = true -> reasoning_active st = false ->
  raw_deltas m st ds = (evs, st', stopped) ->
  evs = [] /\ stopped = false /\ holding_marker st' = true /\ reasoning_active st' = false /\
  emitted st' = emitted st.
Proof.
  intros Hs. revert st evs st' stopped. induction ds as [|d ds IH]; intros st evs st' stopped Hh Hr; simpl.
  { by intros [= <- <- <-]. }
  assert (exists t, raw_delta m st d =
            ([], mk_raw t (emitted st) true false (drop_openers st) (in_reasoning st), false)) as [t ->].
  { unfold raw_delta. case_decide; [exists (rs_text st); destruct st; simpl in *; by subst|].
    unfold reasoning_part. simpl. rewrite Hr, Hs. simpl. rewrite Hh. by eexists. }
  destruct (raw_deltas m _ ds) as [[evs' st''] stopped'] eqn:E. intros [= <- <- <-].
  by apply IH in E.
Qed.

(** Deltas in the plain state without stop strings: emission freezes at the first marker. *)
Lemma raw_deltas_marks m st ds evs st' stopped :
  stops_of m = [] -> plain m st -> raw_deltas m st ds = (evs, st', stopped) ->
  stopped = false /\ on_channel true evs = [] /\ reasoning_active st' = false /\
  match first_cut (hold_markers m) (rs_text st) ds with
  | Some (t, i) => holding_marker st' = true /\ emitted st' = i /\
      take (emitted st) (rs_text st) ++ on_channel false evs = take i t
  | None => plain m st' /\ rs_text st' = rs_text st ++ concat ds /\
      take (emitted st) (rs_text st) ++ on_channel false evs = take (emitted st') (rs_text st')
  end.
Proof.
  intros Hs. revert st evs st' stopped. induction ds as [|d ds IH]; intros st evs st' stopped Hp; simpl.
  { intros [= <- <- <-]. rewrite !app_nil_r. split_and!; try done. by destruct (pl_flags _ _ Hp) as (? & ? & ?). }
  destruct (decide (d = [])) as [->|Hd].
  { rewrite raw_delta_nil, app_nil_r. destruct (raw_deltas m st ds) as [[evs' st''] stopped'] eqn:E.
    intros [= <- <- <-]. assert (earliest_stop (rs_text st) (hold_markers m) = None) as ->.
    { apply earliest_stop_None. intros j Hj. apply (pl_none _ _ Hp j), stop_at_app. by right. }
    by apply IH. }
  pose proof (raw_delta_plain m st d Hp Hd) as Hstep. cbv zeta in Hstep. rewrite Hs in Hstep. simpl in Hstep.
  pose proof (pl_emitted _ _ Hp) as He. set (t := rs_text st ++ d) in *.
  assert (take (emitted st) (rs_text st) = take (emitted st) t) as Et by (unfold t; by rewrite take_app_le).
  assert (emitted st <= length t) as Hlt by (unfold t; rewrite length_app; lia).
  destruct (earliest_stop t (hold_markers m)) as [i|].
  - destruct Hstep as [-> Hi]. destruct (raw_deltas m _ ds) as [[evs' st''] stopped'] eqn:E.
    intros [= <- <- <-]. apply raw_deltas_held in E as (-> & -> & ? & ? & ?); [|done..].
    rewrite app_nil_r. destruct (yield_upto_content t (emitted st) i Hlt) as [Hc ->].
    rewrite Et, Hc, Nat.max_r by lia. done.
  - destruct Hstep as (st1 & -> & Ht & Hle & Hp1).
    destruct (raw_deltas m st1 ds) as [[evs' st''] stopped'] eqn:E. intros [= <- <- <-].
    specialize (IH _ _ _ _ Hp1 E). rewrite Ht in IH. rewrite !on_channel_app.
    destruct (yield_upto_content t (emitted st) (emitted st1) Hlt) as [Hc ->].
    rewrite Et, app_assoc, Hc, Nat.max_r by lia. rewrite app_assoc. exact IH.
Qed.

Lemma plain_init (m : Markers C) :
  Forall (fun s => s <> []) (stops_of m ++ hold_markers m) -> plain m (raw_init false).
Proof.
  intros Hne. split; simpl; [done|lia| |intros d i _; lia|intros d i _; lia].
  intros j (s & Hs & Ho). apply occurs_at_length in Ho. simpl in Ho.
  apply (proj1 (Forall_forall _ _) Hne) in Hs. destruct s; [done|simpl in Ho; lia].
Qed.

Lemma first_cut_Some cuts text ds t i :
  first_cut cuts text ds = Some (t, i) -> earliest_stop t cuts = Some i /\ exists k, t = text ++ concat (take k ds).
Proof.
  revert text. induction ds as [|d ds IH]; intros text; simpl; [done|].
  destruct (earliest_stop (text ++ d) cuts) as [j|] eqn:E.
  - intros [= <- <-]. split; [done|]. exists 1. simpl. by rewrite app_nil_r.
  - intros (? & k & ->)%IH. split; [done|]. exists (S k). simpl. by rewrite app_assoc.
Qed.

Lemma first_cut_None cuts text ds :
  (forall j, ~ stop_at cuts text j) -> first_cut cuts text ds = None ->
  forall j, ~ stop_at cuts (text ++ concat ds) j.
Proof.
  revert text. induction ds as [|d ds IH]; intros text Hn; simpl; [by rewrite app_nil_r|].
  destruct (earliest_stop (text ++ d) cuts) eqn:E; [done|]. rewrite app_assoc. intros H.
  apply IH; [by apply earliest_stop_None|done].
Qed.

(** No cut string occurs in the text before the earliest one. *)
Lemma take_cut_clean cuts t i :
  Forall (fun s => s <> []) cuts -> earliest_stop t cuts = Some i -> forall j, ~ stop_at cuts (take i t) j.
Proof.
  intros Hne (_ & Hmin)%earliest_stop_Some j (s & Hs & Ho).
  apply (proj1 (Forall_forall _ _) Hne) in Hs as Hs0.
  pose proof (occurs_at_length _ _ _ Ho) as Hl. rewrite length_take in Hl.
  assert (stop_at cuts t j) as Hat.
  { exists s. split; [done|]. rewrite <- (take_drop i t). by apply occurs_at_app. }
  specialize (Hmin _ Hat). destruct s; [done|simpl in Hl; lia].
Qed.

Lemma yield_rest (st : RawState C) :
  emitted st <= length (rs_text st) ->
  take (emitted st) (rs_text st) ++ on_channel false (yield_upto false (rs_text st) (emitted st) (length (rs_text st)))
    = rs_text st /\ on_channel true (yield_upto false (rs_text st) (emitted st) (length (rs_text st))) = [].
Proof.
  intros He. destruct (yield_upto_content (rs_text st) (emitted st) (length (rs_text st)) He) as [-> ->].
  split; [|done]. apply take_ge. lia.
Qed.
End lemmas.

(** * Reasoning regions *)

Section reasoning.
Context {C : Type} `{!EqDecision C} (close opener : list C).
Hypothesis opener_ne : opener <> [].

(** [opens t p q]: skipping opening tags from [p] ends at [q]. *)
Inductive opens (t : list C) : nat -> nat -> Prop :=
  | opens_done p : ~ opener `prefix_of` drop p t -> opens t p p
  | opens_step p q : opener `prefix_of` drop p t -> opens t (p + length opener) q -> opens t p q.

Lemma opener_pos : 0 < length opener.
Proof. destruct opener; [done|simpl; lia]. Qed.

Lemma skip_opens t fuel p : length t <= p + fuel -> opens t p (skip_openers opener t fuel p).
Proof.
  pose proof opener_pos. revert p. induction fuel as [|fuel IH]; intros p Hp; simpl.
  - constructor. rewrite drop_ge by lia. by intros ?%prefix_nil_inv.
  - unfold startswith. case_bool_decide; [|by constructor]. apply opens_step; [done|]. apply IH. lia.
Qed.

Lemma opens_det t p q1 q2 : opens t p q1 -> opens t p q2 -> q1 = q2.
Proof. intros H1. revert q2. induction H1; inversion 1; subst; try done; auto. Qed.

Lemma opens_app t d p q r : opens t p q -> opens (t ++ d) q r -> opens (t ++ d) p r.
Proof.
  induction 1 as [p Hn|p q Hp Hq IH]; [done|]. intros Hr. apply opens_step; [|auto].
  destruct (decide (p <= length t)).
  - rewrite drop_app_le by done. by apply prefix_app_r.
  - rewrite drop_ge in Hp by lia. by apply prefix_nil_inv in Hp.
Qed.

Lemma opens_bound t p q : opens t p q -> p <= length t -> p <= q <= length t.
Proof.
  induction 1 as [p Hn|p q Hp Hq IH]; [lia|]. intros Hl.
  apply prefix_length in Hp. rewrite length_drop in Hp. pose proof opener_pos. lia.
Qed.

(** Once the text after the tags is not a prefix of a tag, no tag follows. *)
Lemma opens_decided t d p q :
  opens t p q -> q <= length t -> ~ drop q t `prefix_of` opener -> opens (t ++ d) p q.
Proof.
  intros Ho Hq Hnp. apply (opens_app t d p q q Ho). constructor.
  assert (~ opener `prefix_of` drop q t) as Hno by (clear -Ho; by induction Ho).
  rewrite drop_app_le by done. intros Hpre.
  destruct (prefix_weak_total opener (drop q t) (drop q t ++ d)) as [?|?]; [done|by eexists|done|done].
Qed.

Lemma find_from_Some p t q i :
  find_from p t q = Some i <->
  q <= i /\ occurs_at p t i /\ forall j, q <= j < i -> ~ occurs_at (C := C) p t j.
Proof.
  unfold find_from. destruct (decide (q <= length t)) as [Hq|Hq].
  - assert (forall k, occurs_at p (drop q t) k <-> occurs_at p t (q + k)) as Hd.
    { intros k. unfold occurs_at. rewrite length_drop, drop_drop. split; intros [? ?]; split; try done; lia. }
    rewrite fmap_Some. setoid_rewrite find_Some. split.
    + intros (k & [Hk Hmin] & ->). rewrite Hd in Hk. split_and!; [lia|done|].
      intros j Hj Ho. apply (Hmin (j - q)); [lia|]. rewrite Hd. by replace (q + (j - q)) with j by lia.
    + intros (Hqi & Ho & Hmin). exists (i - q). rewrite Hd. replace (q + (i - q)) with i by lia.
      split_and!; [done| |done]. intros j Hj. rewrite Hd. apply Hmin. lia.
  - split; [done|]. intros (Hqi & [Hl _] & _). lia.
Qed.

Lemma find_from_None p t q :
  find_from p t q = None <-> forall i, q <= i -> ~ occurs_at (C := C) p t i.
Proof.
  split.
  - intros H i. induction i as [i IH] using lt_wf_ind. intros Hq Ho.
    assert (find_from p t q = Some i) as E by (apply find_from_Some; split_and!; [done|done|]; intros j [? ?]; auto).
    congruence.
  - intros H. destruct (find_from p t q) as [i|] eqn:E; [|done].
    apply find_from_Some in E as (? & Ho & _). by apply H in Ho.
Qed.

(** An occurrence found first in a prefix is the first one of the whole text. *)
Lemma find_from_app p t d q i : find_from p t q = Some i -> find_from (C := C) p (t ++ d) q = Some i.
Proof.
  rewrite !find_from_Some. intros (Hq & Ho & Hmin). split_and!; [done|by apply occurs_at_app|].
  intros j Hj Hoj. apply (Hmin j Hj). apply (occurs_at_app_inv _ _ d); [done|].
  apply occurs_at_length in Ho. lia.
Qed.

(** No stop strings and no hold markers. *)
Definition bare : Markers C := mk_markers [] [] close opener.

Definition rest_events (st : RawState C) (ds : list (list C)) : list (bool * list C) :=
  let '(evs, st', _) := raw_deltas bare st ds in evs ++ raw_flush st'.

(** What is left to stream once the region closed: everything after [e]. *)
Lemma rest_content st ds :
  plain bare st ->
  on_channel true (rest_events st ds) = [] /\
  on_channel false (rest_events st ds) = drop (emitted st) (rs_text st ++ concat ds).
Proof.
  intros Hp. unfold rest_events. destruct (raw_deltas bare st ds) as [[evs st'] stopped] eqn:E.
  apply raw_deltas_stops in E as [Hr Hc]; [|done|done]. simpl in Hc.
  assert (forall t, first_cut [] t ds = None) as Hnone by (clear; induction ds; intros; simpl; auto).
  rewrite Hnone in Hc. destruct Hc as (_ & Hp' & Ht & Hc).
  destruct (pl_flags _ _ Hp') as (Hh & Ha & _). unfold raw_flush. rewrite Hh, Ha, !on_channel_app, Hr.
  destruct (yield_rest st' (pl_emitted _ _ Hp')) as [Hy ->]. split; [done|].
  rewrite <- Ht. set (y := on_channel false (yield_upto _ _ _ _)) in *. pose proof (pl_emitted _ _ Hp).
  trans (drop (emitted st) (take (emitted st) (rs_text st) ++ (on_channel false evs ++ y))).
  - rewrite drop_app_ge; rewrite length_take, Nat.min_l by lia; [|lia]. by rewrite Nat.sub_diag, drop_0.
  - f_equal. by rewrite app_assoc, Hc.
Qed.

Lemma plain_bare t e drp : e <= length t -> plain bare (mk_raw t e false false drp false).
Proof.
  intros He. split; simpl; [done|done| | |].
  - intros j (s & ?%not_elem_of_nil & _); done.
  - intros d i (s & ?%not_elem_of_nil & _); done.
  - intros d i (s & ?%not_elem_of_nil & _); done.
Qed.

(** The events from a scan on. *)
Definition scan_events (t : list C) (pos : nat) (in_r : bool) (ds : list (list C)) : list (bool * list C) :=
  let '(evs, st, continue) := reasoning_scan bare t pos false in_r in
  if continue then evs ++ rest_events st ds
  else evs ++ yield_upto false t (emitted st) (length t) ++
       rest_events (mk_raw t (Nat.max (emitted st) (length t)) false false false false) ds.

(** What a reasoning stream at [pos], with the region starting at [q], must still emit. *)
Definition reasoning_spec (t : list C) (q pos : nat) (evs : list (bool * list C)) : Prop :=
  match find_from close t q with
  | Some c => on_channel true evs = slice t pos c /\ on_channel false evs = drop (c + length close) t
  | None => on_channel true evs = drop pos t /\ on_channel false evs = []
  end.

(** Reasoning emitted up to [e]: no closing tag between [q] and [e], now or later. *)
Definition reasoning_safe (t : list C) (q e : nat) : Prop :=
  q <= e <= length t /\ forall d i, q <= i -> occurs_at close (t ++ d) i -> e <= i.

Lemma on_channel_yield c c' (t : list C) i j :
  i <= j -> on_channel c (yield_upto c' t i j) = if bool_decide (c' = c) then slice t i j else [].
Proof.
  intros Hij. unfold yield_upto, on_channel. case_decide; simpl.
  - case_bool_decide; simpl; by rewrite ?app_nil_r.
  - unfold slice. rewrite (drop_ge (take j t)) by (rewrite length_take; lia). by case_bool_decide.
Qed.

Lemma slice_app (t : list C) i j k : i <= j -> j <= k -> slice t i j ++ slice t j k = slice t i k.
Proof.
  intros. unfold slice. rewrite <- (take_drop j (take k t)) at 2.
  rewrite take_take, Nat.min_l by lia. rewrite drop_app.
  destruct (decide (j <= length t)).
  - rewrite length_take, Nat.min_l by lia. replace (i - j) with 0 by lia. done.
  - rewrite length_take, Nat.min_r by lia. rewrite !(drop_ge (take k t)) by (rewrite length_take; lia).
    by rewrite drop_nil.
Qed.

Lemma slice_full (t : list C) i : slice t i (length t) = drop i t.
Proof. unfold slice. by rewrite firstn_all. Qed.

Lemma slice_prefix (t d : list C) i j : j <= length t -> slice (t ++ d) i j = slice t i j.
Proof. intros. unfold slice. by rewrite take_app_le. Qed.

(** A position emitted up to is not before the tag, wherever it is searched from. *)
Lemma find_from_safe t q e : reasoning_safe t q e -> find_from close t e = find_from close t q.
Proof.
  intros [Hq Hs]. specialize (Hs []). rewrite app_nil_r in Hs.
  destruct (find_from close t q) as [c|] eqn:E.
  - apply find_from_Some in E as (Hc & Ho & Hmin). apply find_from_Some.
    split_and!; [by apply Hs|done|]. intros j Hj. apply Hmin. lia.
  - rewrite find_from_None in E. apply find_from_None. intros i Hi. apply E. lia.
Qed.

(** The state while reasoning is being streamed. *)
Definition reasoning_state (t : list C) (e : nat) (in_r : bool) : RawState C :=
  mk_raw t e false true false in_r.

Lemma rest_events_cons st d ds :
  rest_events st (d :: ds) =
  (raw_delta bare st d).1.1 ++ rest_events (raw_delta bare st d).1.2 ds.
Proof.
  unfold rest_events. simpl.
  assert ((raw_delta bare st d).2 = false) as Hst.
  { unfold raw_delta. case_decide; [done|]. destruct (reasoning_part bare _) as [[? ?] []]; [done|]. simpl.
    by destruct (holding_marker _). }
  destruct (raw_delta bare st d) as [[evs st1] stopped]. simpl in *. rewrite Hst.
  destruct (raw_deltas bare st1 ds) as [[evs' st2] stopped']. by rewrite app_assoc.
Qed.

Lemma rest_events_scan t e in_r d ds :
  d <> [] -> rest_events (reasoning_state t e in_r) (d :: ds) = scan_events (t ++ d) e in_r ds.
Proof.
  intros Hd. rewrite rest_events_cons. unfold raw_delta. rewrite decide_False by done.
  unfold reasoning_part, scan_events, reasoning_scan. simpl.
  destruct (find_from close (t ++ d) e) as [c|]; simpl; [|done].
  unfold partial_stop_holdback at 1 2. simpl. rewrite Nat.sub_0_r, <- app_assoc. done.
Qed.

Definition streams_reasoning (ds : list (list C)) : Prop :=
  forall t q e in_r, reasoning_safe t q e -> (forall i, q <= i -> ~ occurs_at close t i) ->
    reasoning_spec (t ++ concat ds) q e (rest_events (reasoning_state t e in_r) ds).

(** Extending the emitted reasoning by a chunk. *)
Lemma reasoning_spec_prepend t d q e e' evs evs' :
  q <= e <= e' -> e' <= length t -> (forall i, find_from close (t ++ d) q = Some i -> e' <= i) ->
  on_channel true evs = slice t e e' -> on_channel false evs = [] ->
  reasoning_spec (t ++ d) q e' evs' -> reasoning_spec (t ++ d) q e (evs ++ evs').
Proof.
  intros He Hl Hc H1 H2. unfold reasoning_spec. rewrite !on_channel_app, H1, H2.
  destruct (find_from close (t ++ d) q) as [c|]; intros [-> ->]; (split; [|done]).
  - rewrite <- (slice_prefix t d e e') by done. apply slice_app; [lia|by apply Hc].
  - rewrite <- (slice_prefix t d e e') by done. rewrite <- !slice_full. apply slice_app; [lia|].
    rewrite length_app. lia.
Qed.

Lemma scan_step ds t q pos in_r :
  streams_reasoning ds -> reasoning_safe t q pos ->
  reasoning_spec (t ++ concat ds) q pos (scan_events t pos in_r ds).
Proof.
  intros IH Hsafe. pose proof Hsafe as [Hq Hs]. unfold scan_events, reasoning_scan. simpl.
  rewrite (find_from_safe t q pos Hsafe). destruct (find_from close t q) as [c|] eqn:E.
  - simpl. pose proof (find_from_app _ _ (concat ds) _ _ E) as E'.
    apply find_from_Some in E as (Hqc & Ho & _). pose proof (occurs_at_length _ _ _ Ho) as Hl.
    assert (pos <= c) as Hpc by (apply (Hs []); [done|]; by rewrite app_nil_r).
    rewrite Nat.max_r by lia.
    destruct (rest_content (mk_raw t (length t) false false false false) ds) as [Ht Hf]; [by apply plain_bare|].
    unfold reasoning_spec. rewrite E', !on_channel_app, Ht, Hf, !on_channel_yield by lia. simpl.
    rewrite app_nil_r. split.
    + symmetry. apply slice_prefix. lia.
    + rewrite slice_full, drop_app_length, drop_app_le by lia. done.
  - rewrite find_from_None in E. set (safe := length t - partial_stop_holdback t [close]).
    assert (forall d i, q <= i -> occurs_at close (t ++ d) i -> safe <= i) as Hsafe'.
    { intros d i Hi Ho. apply (holdback_safe_at _ _ close d); [set_solver|by apply E|done]. }
    apply (reasoning_spec_prepend _ _ _ _ (Nat.max pos safe)); [lia|unfold safe; lia| | | |].
    + intros i (Hi & Ho & _)%find_from_Some. apply Nat.max_lub; eauto.
    + unfold yield_upto, on_channel, slice. case_decide; simpl.
      * by rewrite app_nil_r, Nat.max_r by lia.
      * rewrite drop_ge; [done|]. rewrite length_take. lia.
    + unfold yield_upto, on_channel. by case_decide.
    + apply IH; [|done]. split; [unfold safe; lia|]. intros d i Hi Ho. apply Nat.max_lub; eauto.
Qed.

Lemma all_streams_reasoning ds : streams_reasoning ds.
Proof.
  induction ds as [|d ds IH]; intros t q e in_r Hsafe Hn; simpl.
  - rewrite app_nil_r. unfold reasoning_spec.
    assert (find_from close t q = None) as -> by by apply find_from_None.
    unfold rest_events. simpl. unfold raw_flush. simpl. destruct Hsafe as [? _].
    rewrite !on_channel_yield, slice_full by lia. done.
  - destruct (decide (d = [])) as [->|Hd].
    + rewrite rest_events_cons, raw_delta_nil. simpl. by apply IH.
    + rewrite rest_events_scan by done. rewrite app_assoc. apply scan_step; [done|].
      destruct Hsafe as [Hq Hs]. split; [rewrite length_app; lia|].
      intros d' i. rewrite <- app_assoc. apply Hs.
Qed.

(** The closing tag does not occur in a prefix of the opening tag. *)
Hypothesis close_free : forall k i, ~ occurs_at close (take k opener) i.

Definition opening_state (t : list C) (p : nat) : RawState C := mk_raw t p false true true false.

Lemma rest_events_opening t p d ds :
  d <> [] ->
  let q := skip_openers opener (t ++ d) (length (t ++ d)) p in
  rest_events (opening_state t p) (d :: ds) =
  if decide (drop q (t ++ d) `prefix_of` opener) then rest_events (opening_state (t ++ d) q) ds
  else scan_events (t ++ d) q false ds.
Proof.
  intros Hd q. rewrite rest_events_cons. unfold raw_delta. rewrite decide_False by done.
  unfold reasoning_part, skip_redundant_think_openers. simpl. fold q. unfold startswith.
  destruct (decide (drop q (t ++ d) `prefix_of` opener)) as [Hp|Hp].
  - rewrite (bool_decide_eq_true_2 _ Hp), orb_true_r. done.
  - rewrite (bool_decide_eq_false_2 _ Hp), bool_decide_eq_false_2 by (intros E; rewrite E in Hp; by apply Hp, prefix_nil).
    simpl. unfold scan_events, reasoning_scan. simpl.
    destruct (find_from close (t ++ d) q) as [c|]; simpl; [|done].
    unfold partial_stop_holdback at 1 2. simpl. rewrite Nat.sub_0_r, <- app_assoc. done.
Qed.

Lemma no_close_in_opener t p i :
  drop p t `prefix_of` opener -> p <= i -> p <= length t -> ~ occurs_at close t i.
Proof.
  intros [k Hk] Hi Hp [Hl Ho]. apply (close_free (length (drop p t)) (i - p)).
  rewrite Hk, take_app_length. split; [rewrite length_drop; lia|].
  rewrite drop_drop. by replace (p + (i - p)) with i by lia.
Qed.

Lemma opening_stream ds t p :
  opens t 0 p -> p <= length t -> drop p t `prefix_of` opener ->
  exists q, opens (t ++ concat ds) 0 q /\
    reasoning_spec (t ++ concat ds) q q (rest_events (opening_state t p) ds).
Proof.
  revert t p. induction ds as [|d ds IH]; intros t p Ho Hp Hpre; simpl.
  - exists p. rewrite app_nil_r. split; [done|]. unfold reasoning_spec.
    assert (find_from close t p = None) as ->.
    { apply find_from_None. intros i Hi. by apply (no_close_in_opener t p i). }
    unfold rest_events. simpl. unfold raw_flush. simpl. rewrite !on_channel_yield, slice_full by done. done.
  - destruct (decide (d = [])) as [->|Hd].
    { rewrite rest_events_cons, raw_delta_nil. simpl. by apply IH. }
    rewrite rest_events_opening by done. cbv zeta. set (q := skip_openers _ _ _ p).
    assert (opens (t ++ d) p q) as Hq by (apply skip_opens; lia).
    pose proof (opens_app _ _ _ _ _ Ho Hq) as Hq0.
    assert (q <= length (t ++ d)) as Hql.
    { apply (opens_bound _ _ _ Hq). rewrite length_app. lia. }
    rewrite app_assoc. case_decide as Hdec; [by apply IH|].
    exists q. split; [by apply opens_decided|]. apply scan_step; [apply all_streams_reasoning|].
    split; [lia|]. intros d' i Hi _. done.
Qed.

(** Without stop strings or markers a stream neither stops nor holds. *)
Lemma raw_deltas_bare st ds :
  holding_marker st = false ->
  let '(_, st', stopped) := raw_deltas bare st ds in stopped = false /\ holding_marker st' = false.
Proof.
  revert st. induction ds as [|d ds IH]; intros st Hh; simpl; [done|].
  assert ((raw_delta bare st d).2 = false /\ holding_marker (raw_delta bare st d).1.2 = false) as [H1 H2].
  { unfold raw_delta. case_decide; [done|]. unfold reasoning_part, reasoning_scan. simpl. rewrite Hh.
    destruct (reasoning_active st), (drop_openers st); simpl; try done;
      repeat match goal with
      | |- context [if ?a || ?b then _ else _] => destruct (a || b); simpl
      | |- context [find_from ?a ?b ?c] => destruct (find_from a b c); simpl
      end; done. }
  destruct (raw_delta bare st d) as [[evs st1] stopped]. simpl in *. rewrite H1.
  specialize (IH st1 H2). by destruct (raw_deltas bare st1 ds) as [[? ?] ?].
Qed.
End reasoning.

(** * Properties *)

(** C15. For a request whose stream has no reasoning region open and no hold markers (no tool
    markers to wait for), and whose stop strings are all non-empty: the streamed content is exactly
    the decoded text up to the earliest stop string in the first cumulative text that contains one,
    and all of the text when none ever does; it never contains a stop string, nothing goes to the
    reasoning channel, and the stream reports a stop hit exactly when one occurred.  (With an open
    reasoning region or hold markers this fails: [cumulative_search_defects].) *)
Theorem stop_strings_cut_exactly {C} `{!EqDecision C} (stops : list (list C)) close opener ds :
  Forall (fun s => s <> []) stops ->
  let '(evs, stopped) := raw_stream (mk_markers stops [] close opener) false ds in
  let content := on_channel false evs in
  on_channel true evs = [] /\ (forall j, ~ stop_at stops content j) /\
  match first_cut stops [] ds with
  | Some (t, i) => stopped = true /\ content = take i t
  | None => stopped = false /\ content = concat ds
  end.
Proof.
  intros Hne. set (m := mk_markers stops [] close opener). unfold raw_stream.
  destruct (raw_deltas m (raw_init false) ds) as [[evs st] stopped] eqn:E.
  assert (plain m (raw_init false)) as Hp0 by (apply plain_init; simpl; by rewrite app_nil_r).
  pose proof (pl_none _ _ Hp0) as Hn0. simpl in Hn0. rewrite app_nil_r in Hn0.
  apply raw_deltas_stops in E as [Hr Hc]; [|done|done]. simpl in Hc.
  destruct (first_cut stops [] ds) as [[t i]|] eqn:Ef.
  - destruct Hc as (-> & -> & Hc). simpl. rewrite app_nil_r. rewrite Hc.
    apply first_cut_Some in Ef as [Ei _]. split_and!; [done|by apply take_cut_clean|done|done].
  - destruct Hc as (-> & Hp & Ht & Hc). destruct (pl_flags _ _ Hp) as (Hh & Ha & _).
    unfold raw_flush. rewrite Hh, Ha. simpl. rewrite app_nil_r, !on_channel_app, Hr, Hc.
    destruct (yield_rest st (pl_emitted _ _ Hp)) as [-> ->]. rewrite Ht.
    split_and!; [done|by apply (first_cut_None stops [] ds)|done|done].
Qed.

Lemma stop_strings_cut_exactly_witness :
  let ds := [lit "The answer is 4. Que"; lit "sti"; lit "on: next"] in
  on_channel false (raw_stream (mk_markers [lit "Question:"; lit "</s>"] [] (lit "</think>") (lit "<think>"))
                      false ds).1 = take 17 (concat ds).
Proof.
  intros ds. destruct (raw_stream _ false ds) as [evs stopped] eqn:E.
  pose proof (stop_strings_cut_exactly [lit "Question:"; lit "</s>"] (lit "</think>") (lit "<think>") ds
                ltac:(repeat constructor; discriminate)) as H.
  rewrite E in H. destruct H as (_ & _ & _ & H). exact H.
Defined.

(** With hold markers and no stop strings, the streamed content is exactly the decoded
    text before the earliest marker in the first cumulative text that contains one (so
    neither a marker nor a fragment of it is streamed), and all of the text when there
    is none; the generation is never aborted. *)
Theorem hold_markers_freeze_exactly {C} `{!EqDecision C} (marks : list (list C)) close opener ds :
  Forall (fun s => s <> []) marks ->
  let '(evs, stopped) := raw_stream (mk_markers [] marks close opener) false ds in
  let content := on_channel false evs in
  stopped = false /\ on_channel true evs = [] /\ (forall j, ~ stop_at marks content j) /\
  content = match first_cut marks [] ds with
            | Some (t, i) => take i t
            | None => concat ds
            end.
Proof.
  intros Hne. set (m := mk_markers [] marks close opener). unfold raw_stream.
  destruct (raw_deltas m (raw_init false) ds) as [[evs st] stopped] eqn:E.
  assert (plain m (raw_init false)) as Hp0 by by apply plain_init.
  pose proof (pl_none _ _ Hp0) as Hn0. simpl in Hn0.
  apply raw_deltas_marks in E as (-> & Hr & Ha & Hc); [|done|done]. simpl in Hc.
  unfold raw_flush. rewrite Ha.
  destruct (first_cut marks [] ds) as [[t i]|] eqn:Ef.
  - destruct Hc as (Hh & He & Hc). rewrite Hh. simpl. rewrite !on_channel_app.
    assert (forall c, on_channel c (if bool_decide (emitted st = 0) then [(in_reasoning st, [])] else [] : list (bool * list C)) = []) as Hz.
    { intros c. case_bool_decide; [|done]. unfold on_channel. simpl. by case_bool_decide. }
    rewrite !Hz, !app_nil_r, Hc, Hr. apply first_cut_Some in Ef as [Ei _].
    split_and!; [done|done|by apply take_cut_clean|done].
  - destruct Hc as (Hp & Ht & Hc). destruct (pl_flags _ _ Hp) as (-> & _ & _). simpl.
    rewrite app_nil_r, !on_channel_app, Hr, Hc.
    destruct (yield_rest st (pl_emitted _ _ Hp)) as [-> ->]. rewrite Ht.
    split_and!; [done|done|by apply (first_cut_None marks [] ds)|done].
Qed.

Definition qwen_markers (stops : list pystr) : Markers ascii :=
  mk_markers stops [lit "<tool_call>"; lit "<think>"] (lit "</think>") (lit "<think>").

Lemma hold_markers_freeze_exactly_witness :
  let ds := [lit "Let me look. <tool"; lit "_call>{}"; lit "</tool_call>"] in
  on_channel false (raw_stream (qwen_markers []) false ds).1 = take 13 (concat ds).
Proof.
  intros ds. destruct (raw_stream (qwen_markers []) false ds) as [evs stopped] eqn:E.
  pose proof (hold_markers_freeze_exactly [lit "<tool_call>"; lit "<think>"] (lit "</think>") (lit "<think>") ds
                ltac:(repeat constructor; discriminate)) as H.
  unfold qwen_markers in E. rewrite E in H. destruct H as (_ & _ & _ & H). exact H.
Defined.

(** With a reasoning region that the prompt opened, however the text is split into
    deltas: repeated opening tags are dropped, the text up to the first closing tag is
    streamed as reasoning and the text after it as content, and neither tag nor a
    fragment of the closing tag reaches the client; without a closing tag everything is
    reasoning. *)
Theorem reasoning_region_split {C} `{!EqDecision C} (close opener : list C) ds :
  opener <> [] -> (forall k i, ~ occurs_at close (take k opener) i) ->
  let t := concat ds in
  let q := skip_openers opener t (length t) 0 in
  let '(evs, stopped) := raw_stream (mk_markers [] [] close opener) true ds in
  stopped = false /\
  match find_from close t q with
  | Some c => on_channel true evs = slice t q c /\ on_channel false evs = drop (c + length close) t
  | None => on_channel true evs = drop q t /\ on_channel false evs = []
  end.
Proof.
  intros Hne Hfree t q.
  destruct (opening_stream close opener Hne Hfree ds [] 0) as (q' & Hq & Hspec).
  { constructor. by intros ?%prefix_nil_inv. } { simpl. lia. } { apply prefix_nil. }
  simpl in Hq, Hspec. fold t in Hq, Hspec.
  assert (q' = q) as ->.
  { apply (opens_det opener t 0); [done|]. by apply skip_opens; [|lia]. }
  unfold raw_stream. unfold rest_events, bare, opening_state in Hspec. unfold raw_init.
  pose proof (raw_deltas_bare close opener (mk_raw [] 0 false true true false) ds eq_refl) as Hb.
  destruct (raw_deltas _ _ ds) as [[evs st] stopped]. destruct Hb as [-> Hh]. rewrite Hh. simpl.
  rewrite app_nil_r. split; [done|]. exact Hspec.
Qed.

Lemma reasoning_region_split_witness :
  let ds := [lit "<thi"; lit "nk>plan: 2+2</th"; lit "ink>The answer"; lit " is 4."] in
  on_channel true (raw_stream (mk_markers [] [] (lit "</think>") (lit "<think>")) true ds).1 = lit "plan: 2+2".
Proof.
  intros ds. destruct (raw_stream _ true ds) as [evs stopped] eqn:E.
  pose proof (reasoning_region_split (lit "</think>") (lit "<think>") ds ltac:(discriminate)) as H.
  rewrite E in H. apply H. intros k i Ho.
  pose proof (occurs_at_length _ _ _ Ho) as Hl. rewrite length_take in Hl. simpl in Hl. lia.
Defined.

(** Searching markers over the cumulative text has three visible effects.  A redundant
    opener that was skipped in the reasoning region freezes the content once the region
    closes, so the answer is never streamed.  A stop string after a tool-call marker emits
    the buffered tool-call text as content.  A stop string in the reasoning ends the stream
    before any content when the region closes. *)
Lemma cumulative_search_defects :
  (exists ds, concat ds = lit "<think>plan</think>The answer is 4." /\
     let evs := (raw_stream (qwen_markers []) true ds).1 in
     on_channel true evs = lit "plan" /\ on_channel false evs = []) /\
  (exists ds, concat ds = lit "Hi <tool_call>{a}###</tool_call>" /\
     on_channel false (raw_stream (qwen_markers [lit "###"]) false ds).1 = lit "Hi <tool_call>{a}") /\
  (exists ds, concat ds = lit "x###y</think>The answer" /\
     raw_stream (qwen_markers [lit "###"]) true ds = ([(true, lit "x###"); (true, lit "y")], true)).
Proof.
  split_and!.
  - exists [lit "<think>plan"; lit "</think>The "; lit "answer is 4."]. by vm_compute.
  - exists [lit "Hi <tool_call>"; lit "{a}###</tool_call>"]. by vm_compute.
  - exists [lit "x###"; lit "y</think>The answer"]. by vm_compute.
Qed.
