(* ===== verification/KimiK3.v ===== *)
(** The incremental parser of Kimi K3's XTML channels
    ([dlengine/server/kimi_k3_parser.py], with its grammar from
    [dlengine/server/tool_parser.py]): channel transitions, tool-call containers,
    and arguments.  The main theorem is that the parse does not
    depend on how the text is cut into deltas. *)

From S2P Require Import Prelude PyStr Streaming.

(** * The grammar: [KimiK3ToolParser] *)

Definition THINK_OPEN : pystr := lit "<|open|>think<|sep|>".
Definition THINK_CLOSE : pystr := lit "<|close|>think<|sep|>".
Definition RESPONSE_OPEN : pystr := lit "<|open|>response<|sep|>".
Definition RESPONSE_CLOSE : pystr := lit "<|close|>response<|sep|>".
Definition TOOLS_OPEN : pystr := lit "<|open|>tools<|sep|>".
Definition MESSAGE_CLOSE : pystr := lit "<|close|>message<|sep|>".
Definition END_OF_MESSAGE : pystr := lit "<|end_of_msg|>".
Definition OPEN : pystr := lit "<|open|>".
Definition CLOSE : pystr := lit "<|close|>".
Definition SEP : pystr := lit "<|sep|>".
Definition ARGUMENT_CLOSE : pystr := lit "<|close|>argument<|sep|>".

(** [\w] on a code point below 256. *)
Definition is_word (c : ascii) : bool :=
  let n := code c in
  is_digit c || ((65 <=? n) && (n <=? 90)) || ((97 <=? n) && (n <=? 122)) || (n =? 95)
  || bool_decide (n ∈ [170; 178; 179; 181; 185; 186; 188; 189; 190])
  || ((192 <=? n) && negb (n =? 215) && negb (n =? 247)).

Fixpoint span_while (f : ascii -> bool) (s : pystr) : pystr :=
  match s with
  | [] => []
  | c :: s => if f c then c :: span_while f s else []
  end.

Definition quote : ascii := ascii_of_nat 34.

(** One match of the attribute pattern (a word, an equals sign and a quoted value without
    quotes) at the start of [s]: key, value, and the rest. *)
Definition match_attr (s : pystr) : option (pystr * pystr * pystr) :=
  let k := span_while is_word s in
  let s1 := drop (length k) s in
  if bool_decide (k = []) then None
  else if startswith s1 (lit "=" ++ [quote]) then
    let s2 := drop 2 s1 in
    let v := span_while (fun c => negb (bool_decide (c = quote))) s2 in
    match drop (length v) s2 with
    | [] => None
    | _ :: rest => Some (k, v, rest)
    end
  else None.

(** [finditer]: the matches from the left; [fuel] bounds the number of positions. *)
Fixpoint find_attrs (fuel : nat) (s : pystr) : list (pystr * pystr) :=
  match fuel, s with
  | S fuel, _ :: s' =>
      match match_attr s with
      | Some (k, v, rest) => (k, v) :: find_attrs fuel rest
      | None => find_attrs fuel s'
      end
  | _, _ => []
  end.

Definition unescape (v : pystr) : pystr :=
  replace (lit "&amp;") (lit "&") (replace (lit "&quot;") [quote] v).

(** [_attrs]; a repeated key keeps its last value. *)
Definition attrs (raw : pystr) : gmap pystr pystr :=
  foldl (fun d '(k, v) => <[k := unescape v]> d) ∅ (find_attrs (length raw) raw).

(** * The parser's state *)

Inductive Channel := Start | Between | Think | Response | Tools | Call | Argument | Done.

#[export] Instance channel_eq_dec : EqDecision Channel.
Proof. solve_decision. Defined.

(** [_overlap], the inner loop: the largest size in [(longest, n\]] of a prefix of
    [marker] that ends [text], or [longest]. *)
Fixpoint overlap_marker (text marker : pystr) (longest n : nat) : nat :=
  match n with
  | 0 => longest
  | S n' => if decide (n <= longest) then longest
            else if endswith text (take n marker) then n
            else overlap_marker text marker longest n'
  end.

Definition overlap (text : pystr) (markers : list pystr) : nat :=
  foldl (fun longest marker =>
           overlap_marker text marker longest (Nat.min (length text) (length marker - 1))) 0 markers.

Section parser.
(** [json.loads] and [json.dumps(arguments, ensure_ascii=False)]. *)
Context {V : Type} (json_loads : pystr -> option V).

(** An argument: its text, or the value it was decoded to. *)
Inductive ArgValue := Raw (s : pystr) | Parsed (v : V).

Context (json_dumps : list (pystr * ArgValue) -> pystr).

(** [KimiK3StreamParser]; [argument_text] is the join of [argument_parts]. *)
Record Parser := mk_parser {
  state : Channel;
  pending : pystr;
  reasoning_emitted : bool;
  call_name : pystr;
  arguments : list (pystr * ArgValue);
  argument_attrs : gmap pystr pystr;
  argument_text : pystr
}.

(** [ParsedDelta]: the modelled code fills one field at a time.  The random call id is left
    out. *)
Inductive Delta :=
  | Content (t : pystr)
  | Reasoning (t : pystr)
  | ToolCall (name json_arguments : pystr).

Definition new_parser (reasoning_open : bool) : Parser :=
  mk_parser (if reasoning_open then Think else Start) [] false [] [] ∅ [].

Definition set_pending (t : pystr) (p : Parser) : Parser :=
  mk_parser (state p) t (reasoning_emitted p) (call_name p) (arguments p) (argument_attrs p) (argument_text p).
Definition set_state (s : Channel) (p : Parser) : Parser :=
  mk_parser s (pending p) (reasoning_emitted p) (call_name p) (arguments p) (argument_attrs p) (argument_text p).
Definition set_reasoning (p : Parser) : Parser :=
  mk_parser (state p) (pending p) true (call_name p) (arguments p) (argument_attrs p) (argument_text p).
Definition set_call (name : pystr) (args : list (pystr * ArgValue)) (p : Parser) : Parser :=
  mk_parser (state p) (pending p) (reasoning_emitted p) name args (argument_attrs p) (argument_text p).
Definition set_argument (a : gmap pystr pystr) (t : pystr) (p : Parser) : Parser :=
  mk_parser (state p) (pending p) (reasoning_emitted p) (call_name p) (arguments p) a t.

Definition preamble (s : Channel) : bool := match s with Start | Between => true | _ => false end.

(** [_text] *)
Definition text_events (t : pystr) (p : Parser) : list Delta * Parser :=
  if bool_decide (t = []) then ([], p)
  else match state p with
       | Think => ([Reasoning t], set_reasoning p)
       | Start | Between => if blank t then ([], p) else ([Content t], set_state Response p)
       | _ => ([Content t], p)
       end.

(** [_transitions] *)
Definition transitions (p : Parser) : list (pystr * Channel) :=
  [(MESSAGE_CLOSE, Done); (END_OF_MESSAGE, Done); (TOOLS_OPEN, Tools)] ++
  match state p with
  | Think => [(THINK_CLOSE, Between); (RESPONSE_OPEN, Response)] ++
             (if reasoning_emitted p then [] else [(THINK_OPEN, Think)])
  | Response => [(RESPONSE_CLOSE, Between)]
  | _ => [(THINK_OPEN, Think); (THINK_CLOSE, Between); (RESPONSE_OPEN, Response); (RESPONSE_CLOSE, Between)]
  end.

(** [min(found)] over (position, marker) pairs, with what the marker leads to. *)
Definition found_ltb {A} (x y : nat * pystr * A) : bool :=
  (x.1.1 <? y.1.1) || ((x.1.1 =? y.1.1) && str_ltb x.1.2 y.1.2).

Definition first_marker {A} (text : pystr) (markers : list (pystr * A)) : option (nat * pystr * A) :=
  foldl (fun best '(m, a) =>
           match find m text with
           | None => best
           | Some i => match best with
                       | None => Some (i, m, a)
                       | Some b => if found_ltb (i, m, a) b then Some (i, m, a) else best
                       end
           end) None markers.

(** [_channel_step]: the events, the parser and whether it progressed. *)
Definition channel_step (p : Parser) : list Delta * Parser * bool :=
  match first_marker (pending p) (transitions p) with
  | Some (position, marker, next) =>
      let prefix := take position (pending p) in
      if preamble (state p) && negb (blank prefix) then
        let '(events, p') := text_events prefix p in
        (events, set_pending (drop position (pending p)) p', true)
      else
        let '(events, p') := text_events prefix p in
        (events, set_state next (set_pending (drop (position + length marker) (pending p)) p'), true)
  | None =>
      let keep := overlap (pending p) (fst <$> transitions p) in
      let size := length (pending p) - keep in
      if bool_decide (size = 0) || (preamble (state p) && isspace (take size (pending p)))
      then ([], p, false)
      else let '(events, p') := text_events (take size (pending p)) p in
           (events, set_pending (drop size (pending p)) p', true)
  end.

(** [d\[k\] = v] on an insertion-ordered dict. *)
Fixpoint dict_set (k : pystr) (v : ArgValue) (d : list (pystr * ArgValue)) : list (pystr * ArgValue) :=
  match d with
  | [] => [(k, v)]
  | (k', v') :: d => if decide (k = k') then (k, v) :: d else (k', v') :: dict_set k v d
  end.

(** The value of a completed argument: JSON unless it is declared a string or malformed. *)
Definition argument_value (a : gmap pystr pystr) (raw : pystr) : ArgValue :=
  if decide (default (lit "string") (a !! lit "type") = lit "string") then Raw raw
  else match json_loads raw with Some v => Parsed v | None => Raw raw end.

(** [_argument_step] *)
Definition argument_step (p : Parser) : list Delta * Parser * bool :=
  match find ARGUMENT_CLOSE (pending p) with
  | None =>
      let size := length (pending p) - overlap (pending p) [ARGUMENT_CLOSE] in
      ([], set_pending (drop size (pending p))
             (set_argument (argument_attrs p) (argument_text p ++ take size (pending p)) p),
       negb (bool_decide (size = 0)))
  | Some end_ =>
      let raw := argument_text p ++ take end_ (pending p) in
      let args := match argument_attrs p !! lit "key" with
                  | Some ((_ :: _) as key) => dict_set key (argument_value (argument_attrs p) raw) (arguments p)
                  | _ => arguments p
                  end in
      ([], set_state Call (set_call (call_name p) args (set_argument (argument_attrs p) []
             (set_pending (drop (end_ + length ARGUMENT_CLOSE) (pending p)) p))), true)
  end.

Definition container_markers : list (pystr * unit) := [(OPEN, tt); (CLOSE, tt); (END_OF_MESSAGE, tt)].

(** What a complete header [name attrs] after [marker] does. *)
Definition container_header (marker name : pystr) (a : gmap pystr pystr) (p : Parser) : list Delta * Parser :=
  if decide (marker = OPEN /\ name = lit "call") then
    ([], set_state Call (set_call (default [] (a !! lit "tool")) [] p))
  else if decide (state p = Call /\ marker = OPEN /\ name = lit "argument") then
    ([], set_state Argument (set_argument a [] p))
  else if decide (state p = Call /\ marker = CLOSE /\ name = lit "call") then
    match call_name p with
    | [] => ([], set_state Tools p)
    | _ => ([ToolCall (call_name p) (json_dumps (arguments p))], set_state Tools (set_call [] [] p))
    end
  else if decide (marker = CLOSE /\ name = lit "tools") then
    ([], set_state Between (set_call [] [] p))
  else if decide (marker = CLOSE /\ name = lit "message") then ([], set_state Done p)
  else ([], p).

(** [_container_step] *)
Definition container_step (p : Parser) : list Delta * Parser * bool :=
  match first_marker (pending p) container_markers with
  | None =>
      let keep := overlap (pending p) (fst <$> container_markers) in
      ([], set_pending (drop (length (pending p) - keep) (pending p)) p, false)
  | Some (position, marker, _) =>
      let text := drop position (pending p) in
      if decide (marker = END_OF_MESSAGE) then ([], set_state Done (set_pending [] p), true)
      else match find_from SEP text (length marker) with
           | None => ([], set_pending text p, false)
           | Some end_ =>
               let header := split_head (strip (slice text (length marker) end_)) in
               let p := set_pending (drop (end_ + length SEP) text) p in
               match header with
               | None => ([], p, true)
               | Some (name, rest) =>
                   let '(events, p) := container_header marker name (attrs (default [] rest)) p in
                   (events, p, true)
               end
           end
  end.

Definition parser_step (p : Parser) : list Delta * Parser * bool :=
  match state p with
  | Argument => argument_step p
  | Tools | Call => container_step p
  | _ => channel_step p
  end.

(** The [while] loop of [feed]; [None] when [fuel] runs out. *)
Fixpoint feed_loop (fuel : nat) (p : Parser) : option (list Delta * Parser) :=
  match fuel with
  | 0 => None
  | S fuel =>
      if bool_decide (pending p = []) then Some ([], p)
      else if decide (state p = Done) then Some ([], set_pending [] p)
      else
        let '(events, p', progressed) := parser_step p in
        if progressed then
          match feed_loop fuel p' with
          | Some (events', p'') => Some (events ++ events', p'')
          | None => None
          end
        else Some (events, p')
  end.

(** [feed]: every round that progresses consumes a character, so the bound is never hit
    ([feed_total]). *)
Definition feed (delta : pystr) (p : Parser) : option (list Delta * Parser) :=
  feed_loop (S (length (pending p ++ delta))) (set_pending (pending p ++ delta) p).

(** [finish] *)
Definition finish (p : Parser) : list Delta :=
  match state p with
  | Start | Between | Think | Response =>
      if startswith (pending p) (lit "<|") then [] else fst (text_events (pending p) p)
  | _ => []
  end.

(** Feeding deltas one after the other, then [finish]. *)
Fixpoint feed_all (p : Parser) (ds : list pystr) : option (list Delta) :=
  match ds with
  | [] => Some (finish p)
  | d :: ds => match feed d p with
               | Some (events, p') => (app events) <$> feed_all p' ds
               | None => None
               end
  end.

End parser.

(** * Hold-back and marker search *)

Lemma overlap_marker_max text m longest n :
  overlap_marker text m longest n = Nat.max longest (default 0 (partial_match text m n)).
Proof.
  induction n as [|n IH]; simpl; [lia|]. case_decide as E.
  - destruct (endswith text (take (S n) m)); simpl; [lia|].
    destruct (partial_match text m n) as [k|] eqn:Ek; simpl; [|lia]. apply partial_match_bound in Ek. lia.
  - destruct (endswith text (take (S n) m)); simpl; [lia|exact IH].
Qed.

(** The parser holds back what the raw stream's hold-back would. *)
Lemma overlap_holdback text ms : overlap text ms = partial_stop_holdback text ms.
Proof.
  induction ms as [|m ms IH] using rev_ind; [done|].
  rewrite holdback_snoc. unfold overlap in *. rewrite foldl_app. simpl.
  by rewrite overlap_marker_max, IH, Nat.min_comm.
Qed.

Section first_marker.
Context {A : Type}.
Implicit Types (ms : list (pystr * A)) (text : pystr).

Lemma first_marker_snoc text ms m a :
  first_marker text (ms ++ [(m, a)]) =
  match find m text with
  | None => first_marker text ms
  | Some i => match first_marker text ms with
              | None => Some (i, m, a)
              | Some b => if found_ltb (i, m, a) b then Some (i, m, a) else first_marker text ms
              end
  end.
Proof. unfold first_marker. by rewrite foldl_app. Qed.

Lemma found_ltb_le (x y : nat * pystr * A) : if found_ltb x y then x.1.1 <= y.1.1 else y.1.1 <= x.1.1.
Proof.
  unfold found_ltb. destruct (Nat.ltb_spec x.1.1 y.1.1), (Nat.eqb_spec x.1.1 y.1.1); simpl;
    try destruct (str_ltb _ _); lia.
Qed.

Lemma first_marker_spec text ms :
  match first_marker text ms with
  | Some (i, m, a) => (m, a) ∈ ms /\ occurs_at m text i /\ forall j, stop_at (fst <$> ms) text j -> i <= j
  | None => forall j, ~ stop_at (fst <$> ms) text j
  end.
Proof.
  induction ms as [|[m a] ms IH] using rev_ind; [intros j (s & ?%not_elem_of_nil & _); done|].
  rewrite first_marker_snoc, fmap_app. csimpl.
  destruct (find m text) as [i|] eqn:Ef.
  - apply find_Some in Ef as [Ho Hmin].
    assert (forall j, occurs_at m text j -> i <= j) as Hmin'.
    { intros j Hj. destruct (decide (i <= j)); [done|]. exfalso. apply (Hmin j); [lia|done]. }
    destruct (first_marker text ms) as [[[i0 m0] a0]|].
    + destruct IH as (Hin & Ho0 & H0). pose proof (found_ltb_le (i, m, a) (i0, m0, a0)) as Hlt. simpl in Hlt.
      destruct (found_ltb _ _); (split; [rewrite elem_of_app, ?list_elem_of_singleton; auto|]);
        (split; [done|]); intros j [Hj|Hj]%stop_at_snoc; (apply H0 in Hj || apply Hmin' in Hj); lia.
    + split; [rewrite elem_of_app, list_elem_of_singleton; auto|]. split; [done|].
      intros j [Hj|Hj]%stop_at_snoc; [by apply IH in Hj|auto].
  - rewrite find_None in Ef. destruct (first_marker text ms) as [[[i0 m0] a0]|].
    + destruct IH as (Hin & Ho0 & H0). split; [rewrite elem_of_app; auto|]. split; [done|].
      intros j [Hj|Hj]%stop_at_snoc; [auto|by apply Ef in Hj].
    + intros j [Hj|Hj]%stop_at_snoc; [by apply IH in Hj|by apply Ef in Hj].
Qed.
End first_marker.

(** * Markers do not overlap *)

Definition compatible (a b : pystr) : bool := startswith a b || startswith b a.

Definition shifts_ok (m m' : pystr) : bool :=
  forallb (fun d => implb (compatible (drop d m) m') (bool_decide (d = 0 /\ m = m'))) (seq 0 (length m)).

(** No marker of the family starts inside another one. *)
Definition separated (ms : list pystr) : bool := forallb (fun m => forallb (shifts_ok m) ms) ms.

Lemma prefix_compatible (a b t : pystr) : a `prefix_of` t -> b `prefix_of` t -> compatible a b = true.
Proof.
  intros Ha Hb. unfold compatible, startswith. destruct (prefix_weak_total a b t Ha Hb) as [H|H].
  - rewrite (bool_decide_eq_true_2 (a `prefix_of` b)) by done. apply orb_true_r.
  - by rewrite bool_decide_eq_true_2.
Qed.

Lemma separated_occurs ms text m m' i j :
  separated ms = true -> m ∈ ms -> m' ∈ ms -> occurs_at m text i -> occurs_at m' text j ->
  i <= j < i + length m -> i = j /\ m = m'.
Proof.
  intros Hs Hm Hm' [Hi Hp] [Hj Hp'] Hij. unfold separated in Hs. rewrite forallb_forall in Hs.
  specialize (Hs m (proj1 (list_elem_of_In _ _) Hm)). rewrite forallb_forall in Hs.
  specialize (Hs m' (proj1 (list_elem_of_In _ _) Hm')). unfold shifts_ok in Hs. rewrite forallb_forall in Hs.
  specialize (Hs (j - i) ltac:(apply in_seq; lia)).
  assert (compatible (drop (j - i) m) m' = true) as Hc.
  { apply (prefix_compatible _ _ (drop j text)); [|done]. destruct Hp as [k Hk].
    exists k. replace j with (i + (j - i)) at 1 by lia. rewrite <- drop_drop, Hk, drop_app_le by lia. done. }
  rewrite Hc in Hs. simpl in Hs. apply bool_decide_eq_true in Hs as [? ->]. split; [lia|done].
Qed.

Lemma marker_target {A} (ms : list (pystr * A)) m a a' :
  NoDup (fst <$> ms) -> (m, a) ∈ ms -> (m, a') ∈ ms -> a = a'.
Proof.
  intros Hn [x Hx]%list_elem_of_lookup [y Hy]%list_elem_of_lookup. assert (x = y) as ->; [|congruence].
  eapply NoDup_lookup; [exact Hn| |]; rewrite list_lookup_fmap; [rewrite Hx|rewrite Hy]; done.
Qed.

(** The search is stable under extension of the text. *)
Lemma first_marker_app {A} (ms : list (pystr * A)) text b i m a :
  separated (fst <$> ms) = true -> NoDup (fst <$> ms) ->
  first_marker text ms = Some (i, m, a) -> first_marker (text ++ b) ms = Some (i, m, a).
Proof.
  intros Hs Hn Hf. pose proof (first_marker_spec text ms) as H. rewrite Hf in H. destruct H as (Hin & Ho & Hmin).
  assert (m ∈ fst <$> ms) as Hm by (apply list_elem_of_fmap; by exists (m, a)).
  pose proof (occurs_at_app _ _ b _ Ho) as Ho'.
  pose proof (first_marker_spec (text ++ b) ms) as H'.
  destruct (first_marker (text ++ b) ms) as [[[i' m'] a']|]; [|exfalso; eapply H'; by exists m].
  destruct H' as (Hin' & Hoc & Hmin'). assert (i' <= i) as Hle by (apply Hmin'; by exists m).
  assert (m' ∈ fst <$> ms) as Hm' by (apply list_elem_of_fmap; by exists (m', a')).
  assert (i' = i /\ m' = m) as [-> ->].
  { destruct (decide (i < i' + length m')) as [Hlt|Hge].
    - apply (separated_occurs _ _ _ _ _ _ Hs Hm' Hm Hoc Ho'). lia.
    - assert (occurs_at m' text i') as Hold.
      { apply (occurs_at_app_inv _ _ b); [done|]. apply occurs_at_length in Ho. lia. }
      assert (i <= i') by (apply Hmin; by exists m'). assert (i' = i) as -> by lia. split; [done|].
      assert (length m' = 0) as Hl by lia. destruct m' as [|c m']; [|simpl in Hl; lia].
      destruct m as [|d m]; [done|]. exfalso.
      destruct (separated_occurs _ _ (d :: m) [] i i Hs Hm Hm' Ho' Hoc) as [_ ?]; [simpl; lia|done]. }
  do 2 f_equal. by apply (marker_target ms m).
Qed.

(** Text that no marker can start in may be dropped before the search. *)
Lemma first_marker_shift {A} (ms : list (pystr * A)) t r :
  separated (fst <$> ms) = true -> NoDup (fst <$> ms) -> Forall (fun x => x.1 <> []) ms ->
  (forall j, stop_at (fst <$> ms) (t ++ r) j -> length t <= j) ->
  first_marker r ms = (fun x => (x.1.1 - length t, x.1.2, x.2)) <$> first_marker (t ++ r) ms.
Proof.
  intros Hs Hn Hne Hsafe. pose proof (first_marker_spec (t ++ r) ms) as H. pose proof (first_marker_spec r ms) as H'.
  destruct (first_marker (t ++ r) ms) as [[[i m] a]|], (first_marker r ms) as [[[i' m'] a']|]; csimpl; [| | |done].
  - destruct H as (Hin & Ho & Hmin), H' as (Hin' & Ho' & Hmin').
    assert (m ∈ fst <$> ms) as Hm by (apply list_elem_of_fmap; by exists (m, a)).
    assert (m' ∈ fst <$> ms) as Hm' by (apply list_elem_of_fmap; by exists (m', a')).
    assert (length t <= i) as Hi by (apply Hsafe; by exists m).
    replace i with (length t + (i - length t)) in Ho by lia. apply occurs_at_shift in Ho.
    assert (i' = i - length t) as ->.
    { apply Nat.le_antisymm; [apply Hmin'; by exists m|]. enough (i <= length t + i') by lia.
      apply Hmin. exists m'. split; [done|]. by apply occurs_at_shift. }
    rewrite Forall_forall in Hne. specialize (Hne _ Hin). simpl in Hne.
    destruct (separated_occurs _ _ _ _ _ _ Hs Hm Hm' Ho Ho') as [_ <-]; [destruct m; [done|simpl; lia]|].
    do 2 f_equal. by apply (marker_target ms m).
  - destruct H as (Hin & Ho & _). exfalso. assert (m ∈ fst <$> ms) as Hm by (apply list_elem_of_fmap; by exists (m, a)).
    assert (length t <= i) as Hi by (apply Hsafe; by exists m).
    replace i with (length t + (i - length t)) in Ho by lia. apply occurs_at_shift in Ho. eapply H'. by exists m.
  - destruct H' as (Hin & Ho & _). exfalso. apply (H (length t + i')). exists m'.
    split; [apply list_elem_of_fmap; by exists (m', a')|]. by apply occurs_at_shift.
Qed.

Lemma find_app (m text b : pystr) i : find m text = Some i -> find m (text ++ b) = Some i.
Proof.
  intros [Ho Hmin]%find_Some. apply find_Some. split; [by apply occurs_at_app|]. intros j Hj Hoj.
  apply (Hmin j Hj). apply (occurs_at_app_inv _ _ b); [done|]. apply occurs_at_length in Ho. lia.
Qed.

Lemma transitions_separated {V} (p : Parser (V := V)) :
  separated (fst <$> transitions p) = true /\ NoDup (fst <$> transitions p).
Proof.
  unfold transitions. destruct (state p), (reasoning_emitted p); (split; [by vm_compute|]);
    apply (bool_decide_unpack _); by vm_compute.
Qed.

Lemma container_separated :
  separated (fst <$> container_markers) = true /\ NoDup (fst <$> container_markers).
Proof. split; [by vm_compute|]. apply (bool_decide_unpack _). by vm_compute. Qed.

(** * Termination *)

Section run.
Context {V : Type} (json_loads : pystr -> option V) (json_dumps : list (pystr * ArgValue (V := V)) -> pystr).
Notation Parser := (Parser (V := V)).
Notation step := (parser_step json_loads json_dumps).
Implicit Types (p q : Parser) (t : pystr).

Lemma text_events_pending t p : pending (snd (text_events t p)) = pending p.
Proof. unfold text_events. case_bool_decide; [done|]. destruct (state p); try done; by destruct (blank t). Qed.

Lemma container_header_pending m name a p : pending (snd (container_header json_dumps m name a p)) = pending p.
Proof. unfold container_header. repeat case_decide; try done. by destruct (call_name p). Qed.

Lemma marker_nonempty {A} text (ms : list (pystr * A)) i m a :
  Forall (fun x => x.1 <> []) ms ->
  first_marker text ms = Some (i, m, a) -> 0 < length m /\ i + length m <= length text.
Proof.
  intros Hne Hf. pose proof (first_marker_spec text ms) as H. rewrite Hf in H. destruct H as (Hin & Ho & _).
  rewrite Forall_forall in Hne. apply Hne in Hin. simpl in Hin. apply occurs_at_length in Ho.
  destruct m; [done|simpl in *; lia].
Qed.

Lemma transitions_nonempty p : Forall (fun x => x.1 <> []) (transitions p).
Proof. unfold transitions. destruct (state p), (reasoning_emitted p); by repeat constructor. Qed.

Lemma container_nonempty : Forall (fun x => x.1 <> []) container_markers.
Proof. by repeat constructor. Qed.

(** [q] has a suffix of the pending text of [p], a proper one when [b] holds. *)
Definition consumes p q (b : bool) : Prop :=
  exists k, k <= length (pending p) /\ pending q = drop k (pending p) /\ (b = true -> 0 < k).

Lemma channel_consumes p e q b : channel_step p = (e, q, b) -> consumes p q b.
Proof.
  unfold channel_step, consumes. destruct (first_marker _ _) as [[[i m] a]|] eqn:Ef.
  - destruct (marker_nonempty _ _ _ _ _ (transitions_nonempty p) Ef) as [Hm Hl].
    destruct (preamble (state p) && negb (blank (take i (pending p)))) eqn:Eb;
      pose proof (text_events_pending (take i (pending p)) p); destruct (text_events _ _) as [ev p'];
      intros [= <- <- <-].
    + exists i. split_and!; [lia|done|]. intros _. destruct i; [|lia]. by rewrite take_0, andb_false_r in Eb.
    + exists (i + length m). split_and!; [done|done|lia].
  - set (size := length (pending p) - _). destruct (bool_decide (size = 0) || _) eqn:Eb.
    + intros [= <- <- <-]. exists 0. by split_and!; [lia|rewrite drop_0|].
    + pose proof (text_events_pending (take size (pending p)) p). destruct (text_events _ _) as [ev p'].
      intros [= <- <- <-]. exists size. apply orb_false_iff in Eb as [Eb _]. apply bool_decide_eq_false in Eb.
      split_and!; [unfold size; lia|done|lia].
Qed.

Lemma container_consumes p e q b :
  pending p <> [] -> container_step json_dumps p = (e, q, b) -> consumes p q b.
Proof.
  intros Hne. unfold container_step, consumes. destruct (first_marker _ _) as [[[i m] a]|] eqn:Ef.
  - destruct (marker_nonempty _ _ _ _ _ container_nonempty Ef) as [Hm Hl]. case_decide.
    { intros [= <- <- <-]. exists (length (pending p)). rewrite drop_all.
      split_and!; [done|done|]. intros _. destruct (pending p); [done|simpl; lia]. }
    destruct (find_from SEP _ _) as [end_|] eqn:Es.
    2:{ intros [= <- <- <-]. exists i. split_and!; [lia|done|done]. }
    apply find_from_Some in Es as (Hs & Ho%occurs_at_length & _). rewrite length_drop in Ho.
    assert (forall q' : Parser, pending q' = drop (end_ + length SEP) (drop i (pending p)) ->
      exists k, k <= length (pending p) /\ pending q' = drop k (pending p) /\ (true = true -> 0 < k)) as Hq.
    { intros q' ->. exists (i + (end_ + length SEP)). rewrite drop_drop. split_and!; [lia|done|lia]. }
    destruct (split_head _) as [[name rest]|]; [|intros [= <- <- <-]; by apply Hq].
    pose proof (container_header_pending m name (attrs (default [] rest))
      (set_pending (drop (end_ + length SEP) (drop i (pending p))) p)) as Hp.
    destruct (container_header _ _ _ _ _) as [ev p']. intros [= <- <- <-]. by apply Hq.
  - intros [= <- <- <-]. eexists. split_and!; [|done|done]. lia.
Qed.

Lemma argument_consumes p e q b : argument_step json_loads p = (e, q, b) -> consumes p q b.
Proof.
  unfold argument_step, consumes. destruct (find _ _) as [i|] eqn:Ef; intros [= <- <- <-].
  - apply find_Some in Ef as [Ho%occurs_at_length _]. exists (i + length ARGUMENT_CLOSE).
    split_and!; [done|done|]. change (length ARGUMENT_CLOSE) with 24. lia.
  - eexists. split_and!; [|done|]; [lia|]. intros H%negb_true_iff%bool_decide_eq_false. lia.
Qed.

Lemma step_consumes p e q b : pending p <> [] -> step p = (e, q, b) -> consumes p q b.
Proof.
  intros Hne. unfold parser_step.
  destruct (state p); eauto using channel_consumes, container_consumes, argument_consumes.
Qed.

(** The loop of [feed] as a total function. *)
Definition run p : list Delta * Parser := default ([], p) (feed_loop json_loads json_dumps (S (length (pending p))) p).

Lemma feed_loop_total n p :
  length (pending p) < n ->
  exists r, feed_loop json_loads json_dumps n p = Some r /\
    forall n', length (pending p) < n' -> feed_loop json_loads json_dumps n' p = Some r.
Proof.
  revert p. induction n as [n IH] using lt_wf_ind. intros p Hn. destruct n as [|n]; [lia|].
  cbn [feed_loop]. case_bool_decide as Hne.
  { eexists. split; [done|]. intros [|n'] Hn'; [lia|]. cbn [feed_loop]. by rewrite bool_decide_eq_true_2. }
  case_decide as Hd.
  { eexists. split; [done|]. intros [|n'] Hn'; [lia|]. cbn [feed_loop].
    by rewrite bool_decide_eq_false_2, decide_True. }
  destruct (step p) as [[e q] b] eqn:Es. pose proof (step_consumes _ _ _ _ Hne Es) as (k & Hk & Hq & Hb).
  destruct b.
  - assert (length (pending q) < length (pending p)) as Hlt by (rewrite Hq, length_drop; specialize (Hb eq_refl); lia).
    destruct (IH n ltac:(lia) q ltac:(lia)) as ([e' q'] & -> & Hr). eexists. split; [done|].
    intros [|n'] Hn'; [lia|]. cbn [feed_loop]. rewrite bool_decide_eq_false_2, decide_False by done.
    rewrite Es, Hr by lia. done.
  - eexists. split; [done|]. intros [|n'] Hn'; [lia|]. cbn [feed_loop].
    by rewrite bool_decide_eq_false_2, decide_False, Es by done.
Qed.

Lemma feed_loop_run n p : length (pending p) < n -> feed_loop json_loads json_dumps n p = Some (run p).
Proof.
  intros Hn. unfold run. destruct (feed_loop_total (S (length (pending p))) p) as (r & -> & Hr); [lia|].
  by rewrite Hr.
Qed.

Lemma run_nil p : pending p = [] -> run p = ([], p).
Proof. intros H. unfold run. cbn [feed_loop]. by rewrite bool_decide_eq_true_2. Qed.

Lemma run_done p : state p = Done -> run p = ([], set_pending [] p).
Proof.
  intros H. unfold run. cbn [feed_loop]. case_bool_decide as Hp; [|by rewrite decide_True].
  simpl. destruct p. simpl in *. by subst.
Qed.

Lemma run_step p e q b :
  pending p <> [] -> state p <> Done -> step p = (e, q, b) ->
  run p = if b then (e ++ (run q).1, (run q).2) else (e, q).
Proof.
  intros Hne Hd Es. unfold run at 1. cbn [feed_loop]. rewrite bool_decide_eq_false_2, decide_False, Es by done.
  destruct b; [|done]. pose proof (step_consumes _ _ _ _ Hne Es) as (k & Hk & Hq & Hb).
  rewrite feed_loop_run by (rewrite Hq, length_drop; specialize (Hb eq_refl); lia).
  by destruct (run q).
Qed.

(** * Runs up to the cutting of text *)

(** Events character by character: what a client that joins the deltas sees. *)
Inductive Atom := CChar (c : ascii) | RChar (c : ascii) | ICall (name json_arguments : pystr).

Definition flat (es : list Delta) : list Atom :=
  es ≫= fun e => match e with
                 | Content t => CChar <$> t
                 | Reasoning t => RChar <$> t
                 | ToolCall n a => [ICall n a]
                 end.

Lemma flat_app a b : flat (a ++ b) = flat a ++ flat b.
Proof. apply bind_app. Qed.

(** Equal results, up to the cutting of text into events. *)
Definition same (x y : list Delta * Parser) : Prop := flat x.1 = flat y.1 /\ x.2 = y.2.

#[local] Instance same_equiv : Equivalence same.
Proof. unfold same. split; [by intros ?|by intros ? ? [? ?]|intros ? ? ? [? ?] [? ?]; split; congruence]. Qed.

Definition emit (e : list Delta) (x : list Delta * Parser) : list Delta * Parser := (e ++ x.1, x.2).

#[local] Instance emit_proper e : Proper (same ==> same) (emit e).
Proof. intros x y [H1 H2]. split; cbn [emit fst snd]; [|done]. by rewrite !flat_app, H1. Qed.

Lemma emit_emit e e' x : emit e (emit e' x) = emit (e ++ e') x.
Proof. unfold emit. simpl. by rewrite app_assoc. Qed.

Lemma emit_flat e e' x : flat e = flat e' -> same (emit e x) (emit e' x).
Proof. intros H. split; cbn [emit fst snd]; [|done]. by rewrite !flat_app, H. Qed.

Lemma run_step_emit p e q b :
  pending p <> [] -> state p <> Done -> step p = (e, q, b) -> run p = if b then emit e (run q) else (e, q).
Proof. intros. rewrite (run_step p e q b) by done. done. Qed.

Definition is_channel (s : Channel) : bool :=
  match s with Start | Between | Think | Response => true | _ => false end.

(** Text that [text_events] reports: nonempty, and not blank between channels. *)
Definition reportable p t : Prop := t <> [] /\ (preamble (state p) = true -> blank t = false).

Definition after t p : Parser := snd (text_events t p).

Lemma reportable_after p t u :
  is_channel (state p) = true -> reportable p t ->
  reportable p (t ++ u) /\ (u <> [] -> reportable (after t p) u) /\ is_channel (state (after t p)) = true /\
  after (t ++ u) p = after t p /\ after u (after t p) = after t p /\ pending (after t p) = pending p /\
  flat (text_events (t ++ u) p).1 = flat (text_events t p).1 ++ flat (text_events u (after t p)).1.
Proof.
  intros Hc [Ht Hb]. assert (reportable p (t ++ u)) as Hr.
  { split; [by intros [-> _]%app_nil|]. intros H. rewrite blank_app, Hb by done. done. }
  destruct Hr as [Htu Hbu]. unfold reportable, after, text_events in *.
  rewrite !(bool_decide_eq_false_2 (t = [])), !(bool_decide_eq_false_2 (t ++ u = [])) by done.
  destruct (bool_decide (u = [])) eqn:Hu; [apply bool_decide_eq_true in Hu as ->|apply bool_decide_eq_false in Hu];
    destruct (state p) eqn:Es; try done; cbn in *;
    rewrite ?(Hb eq_refl), ?(Hbu eq_refl); cbn; rewrite ?Es, ?app_nil_r, ?fmap_app; split_and!; try done;
    cbn; by rewrite app_nil_r.
Qed.

Lemma transitions_after t p m a :
  (m, a) ∈ transitions (after t p) -> (m, a) ∈ transitions p.
Proof.
  unfold after, text_events. case_bool_decide; [done|].
  destruct (state p) eqn:Es; try done; [destruct (blank t); [done|]..|].
  all: unfold transitions; rewrite ?Es; cbn [snd set_state set_reasoning state reasoning_emitted];
    rewrite ?Es; destruct (reasoning_emitted p); rewrite ?elem_of_app, ?elem_of_cons, ?elem_of_nil; tauto.
Qed.

(** The markers of the current state, and what is known of them. *)
Definition markers p : list pystr := fst <$> transitions p.

Lemma elem_of_markers p m : m ∈ markers p <-> exists a, (m, a) ∈ transitions p.
Proof.
  unfold markers. rewrite list_elem_of_fmap. split; [intros ([m' a] & -> & ?); eauto|].
  intros (a & ?). by exists (m, a).
Qed.

Lemma stop_at_after t p text j : stop_at (markers (after t p)) text j -> stop_at (markers p) text j.
Proof.
  intros (m & (a & Hm%transitions_after)%elem_of_markers & Ho). exists m. split; [|done].
  apply elem_of_markers. eauto.
Qed.

(** The marker a non-preamble channel stops at is still one after text was reported. *)
Lemma transitions_stay t p m a :
  preamble (state p) = false -> is_channel (state p) = true ->
  (state p = Think -> reasoning_emitted p = false -> m <> THINK_OPEN) ->
  (m, a) ∈ transitions p -> (m, a) ∈ transitions (after t p).
Proof.
  intros Hp Hc Hto. unfold after, text_events. case_bool_decide; [done|].
  destruct (state p) eqn:Es; try done. unfold transitions. rewrite Es.
  cbn [snd set_reasoning state reasoning_emitted]. rewrite Es.
  destruct (reasoning_emitted p); rewrite ?elem_of_app, ?elem_of_cons, ?elem_of_nil; [tauto|].
  specialize (Hto eq_refl eq_refl). intros Hin. assert ((m, a) <> (THINK_OPEN, Think)) by congruence. tauto.
Qed.

Lemma channel_not_done p : is_channel (state p) = true -> state p <> Done /\ step p = channel_step p.
Proof. unfold parser_step. by destruct (state p). Qed.

(** The first step on text [t ++ r] none of whose continuations has a marker before [t]
    ends: it reports [t] and possibly more, then stands at the rest, where it may have
    consumed a marker. *)
Lemma channel_first_step p t r :
  is_channel (state p) = true -> pending p = t ++ r -> reportable p t ->
  safe_upto (markers p) (t ++ r) (length t) ->
  exists u r2, r = u ++ r2 /\ safe_upto (markers p) r (length u) /\
    ((step p = ((text_events (t ++ u) p).1, set_pending r2 (after t p), true)) \/
     (exists m a r3, preamble (state p) = false /\ (m, a) ∈ transitions p /\ r2 = m ++ r3 /\
        step p = ((text_events (t ++ u) p).1, set_state a (set_pending r3 (after t p)), true))).
Proof.
  intros Hc Hp Hr Hs. destruct (channel_not_done p Hc) as [_ ->]. unfold channel_step.
  assert (forall u, after (t ++ u) p = after t p) as Hat by (intros u; by apply reportable_after).
  assert (forall u, reportable p (t ++ u)) as Hru by (intros u; by apply reportable_after).
  assert (forall e, length t <= e -> take e (t ++ r) = t ++ take (e - length t) r /\
                    drop e (t ++ r) = drop (e - length t) r) as Hsplit.
  { intros e He. rewrite take_app_ge, drop_app_ge by done. done. }
  assert (forall e, length t <= e -> safe_upto (markers p) (t ++ r) e -> safe_upto (markers p) r (e - length t)) as Hsafe.
  { intros e He Hse d i (m & Hm & Ho). enough (e <= length t + i) by lia.
    apply (Hse d). exists m. split; [done|]. rewrite <- app_assoc. by apply occurs_at_shift. }
  destruct (transitions_separated p) as [Hsep Hnd].
  rewrite Hp. destruct (first_marker (t ++ r) (transitions p)) as [[[i m] a]|] eqn:Ef.
  - pose proof (first_marker_spec (t ++ r) (transitions p)) as H. rewrite Ef in H. destruct H as (Hin & Ho & _).
    assert (length t <= i) as Hi.
    { apply (Hs [] i). rewrite app_nil_r. exists m. split; [apply elem_of_markers; eauto|done]. }
    assert (safe_upto (markers p) (t ++ r) i) as Hsi.
    { intros d j Hj. pose proof (first_marker_app _ _ d _ _ _ Hsep Hnd Ef) as Ef'.
      pose proof (first_marker_spec ((t ++ r) ++ d) (transitions p)) as H. rewrite Ef' in H. by apply H. }
    destruct (Hsplit i Hi) as [-> Hdi]. set (u := take (i - length t) r) in *.
    destruct Ho as [Hil [r3 Hr3]]. rewrite Hdi in Hr3.
    assert (length u = i - length t) as Hlu.
    { unfold u. rewrite length_take. rewrite length_app in Hil. lia. }
    exists u, (drop (i - length t) r). split; [unfold u; by rewrite take_drop|]. split; [rewrite Hlu; by apply Hsafe|].
    pose proof (Hat u) as Hau. unfold after in Hau at 1. destruct (preamble (state p)) eqn:Epre.
    + left. destruct (Hru u) as [_ Hb]. rewrite Epre in Hb. rewrite (Hb eq_refl). simpl.
      destruct (text_events (t ++ u) p) as [ev p'] eqn:Et. simpl in *. by rewrite Hdi, Hau.
    + right. exists m, a, r3. split_and!; [done|done|done|]. simpl.
      destruct (text_events (t ++ u) p) as [ev p'] eqn:Et. simpl in *. rewrite Hau. do 3 f_equal.
      rewrite <- drop_drop, Hdi, Hr3. by rewrite drop_app_length.
  - pose proof (first_marker_spec (t ++ r) (transitions p)) as Hnone. rewrite Ef in Hnone. change (fst <$> transitions p) with (markers p) in *.
    rewrite overlap_holdback. set (h := partial_stop_holdback (t ++ r) (markers p)).
    assert (length t <= length (t ++ r) - h) as Hsz.
    { apply safe_before_holdback; [done|rewrite length_app; lia]. }
    set (size := length (t ++ r) - h) in *. destruct (Hsplit size Hsz) as [-> Hdi].
    set (u := take (size - length t) r) in *.
    assert (length u = size - length t) as Hlu.
    { unfold u. rewrite length_take. unfold size. rewrite length_app. lia. }
    exists u, (drop (size - length t) r). split; [unfold u; by rewrite take_drop|].
    split; [rewrite Hlu; apply Hsafe; [done|]; intros d j Hj; by apply (holdback_safe _ _ d)|].
    left. destruct (Hru u) as [Hne Hb].
    assert (bool_decide (size = 0) || preamble (state p) && isspace (t ++ u) = false) as ->.
    { destruct Hr as [Ht _]. rewrite bool_decide_eq_false_2 by (destruct t; [done|simpl in Hsz; lia]). simpl.
      destruct (preamble (state p)); [|done]. unfold isspace. rewrite (Hb eq_refl). by rewrite andb_false_r. }
    pose proof (Hat u) as Hau. unfold after in Hau at 1.
    destruct (text_events (t ++ u) p) as [ev p'] eqn:Et. simpl in *. by rewrite Hdi, Hau.
Qed.

Lemma text_events_set_pending t x p :
  text_events t (set_pending x p) = ((text_events t p).1, set_pending x (text_events t p).2).
Proof. unfold text_events. case_bool_decide; [done|]. simpl. destruct (state p); try done; by destruct (blank t). Qed.

Lemma first_marker_here {A} (ms : list (pystr * A)) m a r :
  separated (fst <$> ms) = true -> NoDup (fst <$> ms) -> (m, a) ∈ ms -> m <> [] ->
  first_marker (m ++ r) ms = Some (0, m, a).
Proof.
  intros Hs Hn Hin Hne. rewrite <- (app_nil_l r), app_assoc, app_nil_r.
  apply first_marker_app; [done|done|].
  assert (m ∈ fst <$> ms) as Hm by (apply list_elem_of_fmap; by exists (m, a)).
  assert (occurs_at m m 0) as Ho by (by apply occurs_at_0).
  pose proof (first_marker_spec m ms) as H. destruct (first_marker m ms) as [[[i m'] a']|].
  2:{ exfalso. eapply H. by exists m. }
  destruct H as (Hin' & Ho' & Hmin). assert (i = 0) as -> by (specialize (Hmin 0 ltac:(by exists m)); lia).
  assert (m' ∈ fst <$> ms) as Hm' by (apply list_elem_of_fmap; by exists (m', a')).
  destruct (separated_occurs _ _ _ _ _ _ Hs Hm Hm' Ho Ho') as [_ <-]; [destruct m; [done|simpl; lia]|].
  do 2 f_equal. by apply (marker_target ms m).
Qed.

(** A marker at the head of the pending text of a channel that is not a preamble. *)
Lemma run_marker p m a r :
  is_channel (state p) = true -> preamble (state p) = false -> (m, a) ∈ transitions p -> pending p = m ++ r ->
  run p = run (set_state a (set_pending r p)).
Proof.
  intros Hc Hpre Hin Hp. destruct (channel_not_done p Hc) as [Hd Hst].
  destruct (transitions_separated p) as [Hsep Hnd].
  assert (m <> []) as Hm.
  { pose proof (transitions_nonempty p) as H. rewrite Forall_forall in H. by apply H in Hin. }
  rewrite (run_step p [] (set_state a (set_pending r p)) true).
  - by destruct (run _).
  - rewrite Hp. by destruct m.
  - done.
  - rewrite Hst. unfold channel_step. rewrite Hp, (first_marker_here _ m a r) by done.
    rewrite Hpre. simpl. by rewrite drop_app_length.
Qed.

(** Splitting off text that no marker can reach back into. *)
Lemma text_split p t r :
  is_channel (state p) = true -> pending p = t ++ r -> reportable p t ->
  safe_upto (markers p) (t ++ r) (length t) ->
  (state p = Think -> reasoning_emitted p = false -> forall j, ~ occurs_at THINK_OPEN (pending p) j) ->
  same (run p) (emit (text_events t p).1 (run (set_pending r (after t p)))).
Proof.
  revert p t. remember (length r) as n eqn:Hn. revert r Hn. induction n as [n IH] using lt_wf_ind.
  intros r -> p t Hc Hp Hr Hs Hto.
  destruct (channel_not_done p Hc) as [Hd _].
  assert (pending p <> []) as Hne by (rewrite Hp; destruct Hr as [Hr _]; by destruct t).
  destruct (channel_first_step p t r Hc Hp Hr Hs) as (u & r2 & -> & Hsu & Hstep).
  destruct (reportable_after p t u Hc Hr) as (_ & Hru & Hca & _ & Hauu & _ & Hfl).
  assert (state (after t p) = Think -> reasoning_emitted (after t p) = true) as Hemit.
  { destruct Hr as [Ht Hb]. unfold after, text_events. rewrite bool_decide_eq_false_2 by done.
    destruct (state p) eqn:Es; simpl; rewrite ?Es; try done; by rewrite (Hb eq_refl). }
  assert (same (run (set_pending (u ++ r2) (after t p)))
            (emit (text_events u (after t p)).1 (run (set_pending r2 (after t p))))) as Hmore.
  { destruct (decide (u = [])) as [->|Hu].
    { simpl. unfold emit. by destruct (run _). }
    set (p' := set_pending (u ++ r2) (after t p)).
    assert (same (run p') (emit (text_events u p').1 (run (set_pending r2 (after u p'))))) as H.
    { apply (IH (length r2)); [rewrite length_app; destruct u; [done|simpl; lia]|done|done|done|by apply Hru| |].
      - intros d i Hi. apply (Hsu d). by apply (stop_at_after t p).
      - intros H1 H2. simpl in H1, H2. rewrite Hemit in H2 by done. done. }
    unfold after in H at 1. unfold p' in H at 2 3. rewrite text_events_set_pending in H. simpl in H.
    change (snd (text_events u (after t p))) with (after u (after t p)) in H. by rewrite Hauu in H. }
  destruct Hstep as [Hst|(m & a & r3 & Hpre & Hin & -> & Hst)];
    rewrite (run_step_emit p _ _ true Hne Hd Hst).
  - rewrite Hmore, emit_emit. apply emit_flat. by rewrite flat_app.
  - rewrite Hmore, emit_emit. rewrite (run_marker (set_pending (m ++ r3) (after t p)) m a r3).
    + apply emit_flat. by rewrite flat_app.
    + done.
    + change (preamble (state (after t p)) = false). unfold after, text_events. case_bool_decide; [done|].
      by destruct (state p) eqn:Es; simpl; rewrite ?Es.
    + apply (transitions_stay t p); [done|done| |done]. intros H1 H2 ->. apply (Hto H1 H2 (length (t ++ u))).
      rewrite Hp. split; [rewrite !length_app; lia|]. rewrite app_assoc, drop_app_length. by apply prefix_app_r.
    + done.
Qed.

(** * Extending the pending text *)

Definition ext (b : pystr) p : Parser := set_pending (pending p ++ b) p.

(** Argument text may be taken over in pieces. *)
Lemma argument_split p t r :
  state p = Argument -> safe_upto [ARGUMENT_CLOSE] (t ++ r) (length t) ->
  run (set_pending (t ++ r) p) =
  run (set_pending r (set_argument (argument_attrs p) (argument_text p ++ t) p)).
Proof.
  revert p t. remember (length r) as n eqn:Hn. revert r Hn. induction n as [n IH] using lt_wf_ind.
  intros r -> p t Hst Hs. destruct (decide (t = [])) as [->|Ht].
  { simpl. rewrite app_nil_r. by destruct p. }
  destruct (find ARGUMENT_CLOSE (t ++ r)) as [i|] eqn:Ef.
  - assert (length t <= i) as Hi.
    { apply (Hs []). rewrite app_nil_r. exists ARGUMENT_CLOSE. split; [by left|]. by apply find_Some in Ef as [? _]. }
    pose proof (find_shift _ _ _ _ Ef Hi) as Ef'.
    assert (r <> []) as Hr by (intros ->; done).
    erewrite (run_step (set_pending (t ++ r) p) [] _ true); cycle 1.
    { simpl. by intros [? ?]%app_nil. }
    { simpl. by rewrite Hst. }
    { unfold parser_step, argument_step. simpl. rewrite Hst, Ef. reflexivity. }
    erewrite (run_step (set_pending r _) [] _ true); cycle 1.
    { done. }
    { simpl. by rewrite Hst. }
    { unfold parser_step, argument_step. simpl. rewrite Hst, Ef'. reflexivity. }
    simpl. rewrite take_app_ge, <- app_assoc by done.
    replace (drop (i - length t + 24) r) with (drop (i + 24) (t ++ r)); [done|].
    rewrite drop_app_ge by lia. f_equal. lia.
  - assert (forall j, ~ stop_at [ARGUMENT_CLOSE] (t ++ r) j) as Hnone.
    { intros j (m & ->%list_elem_of_singleton & Ho). rewrite find_None in Ef. by apply (Ef j). }
    set (h := partial_stop_holdback (t ++ r) [ARGUMENT_CLOSE]). set (size := length (t ++ r) - h).
    assert (length t <= size) as Hsz by (apply safe_before_holdback; [done|rewrite length_app; lia]).
    erewrite (run_step (set_pending (t ++ r) p) [] _ true); cycle 1.
    { simpl. by intros [? ?]%app_nil. }
    { simpl. by rewrite Hst. }
    { unfold parser_step, argument_step. simpl. rewrite Hst, Ef, overlap_holdback. fold h. fold size.
      rewrite bool_decide_eq_false_2 by (destruct t; [done|simpl in Hsz; lia]). reflexivity. }
    rewrite take_app_ge, drop_app_ge by done. set (u := take (size - length t) r). set (r2 := drop (size - length t) r).
    assert (r = u ++ r2) as Er by (unfold u, r2; by rewrite take_drop).
    assert (same_run : run (set_pending r (set_argument (argument_attrs p) (argument_text p ++ t) p)) =
      run (set_pending r2 (set_argument (argument_attrs p) ((argument_text p ++ t) ++ u) p))).
    { rewrite Er at 1. destruct (decide (u = [])) as [Eu|Hu]; [by rewrite Eu, app_nil_r|].
      rewrite (IH (length r2) ltac:(rewrite Er, length_app; destruct u; [done|simpl; lia]) r2 eq_refl
                 (set_argument (argument_attrs p) (argument_text p ++ t) p) u); [done|done|].
      rewrite <- Er. intros d i (m & Hm & Ho).
      enough (size <= length t + i) by (unfold u; rewrite length_take; lia).
      apply (holdback_safe _ _ d); [done|]. exists m. split; [done|]. rewrite <- app_assoc.
      by apply occurs_at_shift. }
    rewrite same_run, app_assoc. simpl. symmetry. apply surjective_pairing.
Qed.

(** Between calls, text before a marker is dropped without effect. *)
Lemma container_step_shift p t r :
  safe_upto (fst <$> container_markers) (t ++ r) (length t) ->
  container_step json_dumps (set_pending (t ++ r) p) = container_step json_dumps (set_pending r p).
Proof.
  intros Hs. destruct container_separated as [Hsep Hnd].
  assert (forall j, stop_at (fst <$> container_markers) (t ++ r) j -> length t <= j) as Hj.
  { intros j Hj. apply (Hs []). by rewrite app_nil_r. }
  pose proof (first_marker_shift _ _ _ Hsep Hnd container_nonempty Hj) as Hshift.
  unfold container_step. simpl pending. rewrite Hshift. pose proof (first_marker_spec (t ++ r) container_markers) as H.
  destruct (first_marker (t ++ r) container_markers) as [[[i m] []]|]; csimpl.
  - destruct H as (Hin & Ho & _).
    assert (length t <= i) as Hi by (apply Hj; exists m; split; [apply list_elem_of_fmap; by exists (m, tt)|done]).
    by rewrite (drop_app_ge t r i).
  - rewrite !overlap_holdback. change ([OPEN; CLOSE; END_OF_MESSAGE]) with (fst <$> container_markers).
    pose proof (safe_before_holdback _ _ _ Hs ltac:(rewrite length_app; lia)) as Hle.
    rewrite (holdback_drop _ _ _ Hs) in *. rewrite drop_app_ge by done. rewrite length_app.
    set (h := partial_stop_holdback r _). by replace (length t + length r - h - length t) with (length r - h) by lia.
Qed.

Definition is_container (s : Channel) : bool := match s with Tools | Call => true | _ => false end.

Lemma container_not_done p :
  is_container (state p) = true -> state p <> Done /\ step p = container_step json_dumps p.
Proof. unfold parser_step. by destruct (state p). Qed.

Lemma container_split p t r :
  is_container (state p) = true -> safe_upto (fst <$> container_markers) (t ++ r) (length t) ->
  run (set_pending (t ++ r) p) = run (set_pending r p).
Proof.
  intros Hc Hs. destruct (decide (t = [])) as [->|Ht]; [done|].
  destruct (container_not_done (set_pending (t ++ r) p) Hc) as [Hd Hst].
  destruct (container_not_done (set_pending r p) Hc) as [Hd' Hst'].
  pose proof (container_step_shift p t r Hs) as Hsh.
  destruct (container_step json_dumps (set_pending r p)) as [[e q] b] eqn:E.
  rewrite (run_step (set_pending (t ++ r) p) e q b); [|simpl; by intros [? ?]%app_nil|done|congruence].
  destruct (decide (r = [])) as [->|Hr].
  - unfold container_step in E. simpl in E. injection E as <- <- <-. by rewrite run_nil.
  - by rewrite (run_step (set_pending r p) e q b); [|done|done|congruence].
Qed.

(** * Extending the text before or after a step *)

(** [THINK_OPEN] is a transition of the think channel only until reasoning was emitted, so
    a parse may depend on the cutting when it occurs there: it must not, or must not matter. *)
Definition openers_ok p : Prop :=
  reasoning_emitted p = true \/
  (forall i j, occurs_at THINK_OPEN (pending p) i -> occurs_at THINK_OPEN (pending p) j -> i = j) /\
  (state p = Think -> forall i, ~ occurs_at THINK_OPEN (pending p) i).

Lemma text_events_emitted t p : reasoning_emitted p = true -> reasoning_emitted (after t p) = true.
Proof. unfold after, text_events. case_bool_decide; [done|]. destruct (state p); try done; by destruct (blank t). Qed.

Lemma text_events_think t p : state (after t p) = Think -> reasoning_emitted (after t p) = false ->
  state p = Think /\ t = [].
Proof.
  unfold after, text_events. case_bool_decide; [done|].
  destruct (state p) eqn:Es; simpl; try done; try (destruct (blank t); simpl; congruence); congruence.
Qed.

Lemma container_header_emitted m name a p :
  reasoning_emitted (container_header json_dumps m name a p).2 = reasoning_emitted p /\
  (state (container_header json_dumps m name a p).2 = Think -> state p = Think).
Proof. unfold container_header. repeat case_decide; try done. by destruct (call_name p). Qed.

(** A step does not forget emitted reasoning, and enters the think channel over its opener. *)
Lemma step_think p e q b :
  pending p <> [] -> step p = (e, q, b) ->
  (reasoning_emitted p = true -> reasoning_emitted q = true) /\
  (state q = Think -> reasoning_emitted q = false ->
   state p = Think \/ exists i k, occurs_at THINK_OPEN (pending p) i /\ i < k <= length (pending p) /\
                                 pending q = drop k (pending p)).
Proof.
  intros Hne. unfold parser_step.
  assert (container_step json_dumps p = (e, q, b) ->
    (reasoning_emitted p = true -> reasoning_emitted q = true) /\ (state q = Think -> state p = Think)) as Hcont.
  { unfold container_step. destruct (first_marker _ _) as [[[i m] a]|]; [|by intros [= <- <- <-]].
    case_decide; [by intros [= <- <- <-]|]. destruct (find_from _ _ _) as [end_|]; [|by intros [= <- <- <-]].
    destruct (split_head _) as [[name rest]|]; [|by intros [= <- <- <-]].
    pose proof (container_header_emitted m name (attrs (default [] rest))
      (set_pending (drop (end_ + length SEP) (drop i (pending p))) p)) as [H1 H2].
    destruct (container_header _ _ _ _ _) as [ev p']. intros [= <- <- <-]. simpl in *. split; [congruence|done]. }
  assert (argument_step json_loads p = (e, q, b) ->
    (reasoning_emitted p = true -> reasoning_emitted q = true) /\ (state q = Think -> state p = Think)) as Harg.
  { unfold argument_step. destruct (find _ _); intros [= <- <- <-]; by simpl. }
  assert (channel_step p = (e, q, b) ->
    (reasoning_emitted p = true -> reasoning_emitted q = true) /\
    (state q = Think -> reasoning_emitted q = false -> state p = Think \/
      exists i k, occurs_at THINK_OPEN (pending p) i /\ i < k <= length (pending p) /\ pending q = drop k (pending p))) as Hch.
  { unfold channel_step. destruct (first_marker _ _) as [[[i m] a]|] eqn:Ef.
    - pose proof (text_events_emitted (take i (pending p)) p) as He.
      pose proof (text_events_think (take i (pending p)) p) as Ht. unfold after in *.
      destruct (text_events _ _) as [ev p'] eqn:Et. simpl in He, Ht.
      destruct (preamble _ && _); intros [= <- <- <-]; (split; [done|]); simpl.
      + intros H1 H2. left. by apply Ht.
      + intros -> H2. right. pose proof (first_marker_spec (pending p) (transitions p)) as H. rewrite Ef in H.
        destruct H as (Hin & Ho & _). assert (m = THINK_OPEN) as ->.
        { revert Hin. unfold transitions. destruct (state p), (reasoning_emitted p); cbn [app];
            rewrite ?elem_of_cons, ?elem_of_nil; naive_solver. }
        exists i, (i + length THINK_OPEN). pose proof (occurs_at_length _ _ _ Ho).
        split_and!; [done|change (length THINK_OPEN) with 20; lia|done|done].
    - destruct (bool_decide _ || _); [intros [= <- <- <-]; by auto|].
      set (t := take _ _). pose proof (text_events_emitted t p) as He. pose proof (text_events_think t p) as Ht.
      unfold after in *. destruct (text_events _ _) as [ev p'] eqn:Et. intros [= <- <- <-]. simpl in *.
      split; [done|]. intros H1 H2. left. by apply Ht. }
  destruct (state p) eqn:Es; try (apply Hch); intros H; (apply Hcont in H || apply Harg in H);
    (split; [apply H|]); intros H1; apply H in H1; done.
Qed.

Lemma ext_consumes b p q k :
  k <= length (pending p) -> pending q = drop k (pending p) -> pending (ext b q) = drop k (pending (ext b p)).
Proof. intros Hk Hq. unfold ext. simpl. by rewrite Hq, drop_app_le. Qed.

Lemma step_openers b p e q pr :
  pending p <> [] -> step p = (e, q, pr) -> openers_ok (ext b p) -> openers_ok (ext b q).
Proof.
  intros Hne Hst Hok. pose proof (step_consumes _ _ _ _ Hne Hst) as (k & Hk & Hq & _).
  destruct (step_think _ _ _ _ Hne Hst) as [Hem Hth]. pose proof (ext_consumes b _ _ _ Hk Hq) as Hx.
  destruct Hok as [Hok|[Huniq Hno]]; [left; by apply Hem|].
  destruct (reasoning_emitted q) eqn:Eq; [by left|]. right. rewrite Hx.
  assert (k <= length (pending (ext b p))) as Hk' by (unfold ext; simpl; rewrite length_app; lia).
  split.
  - intros i j Hi Hj. rewrite !occurs_at_drop in Hi, Hj by done. specialize (Huniq _ _ Hi Hj). lia.
  - intros Hs i Hi. rewrite occurs_at_drop in Hi by done. simpl in Hs.
    destruct (Hth Hs eq_refl) as [Hp|(i0 & k0 & Hi0 & Hk0 & Hq0)]; [by apply (Hno Hp) in Hi|].
    assert (k0 = k) as ->.
    { assert (length (drop k0 (pending p)) = length (drop k (pending p))) as Hl by congruence.
      rewrite !length_drop in Hl. lia. }
    specialize (Huniq _ _ (occurs_at_app _ _ b _ Hi0) Hi). lia.
Qed.

Lemma drop_ext b p n :
  n <= length (pending p) -> drop n (pending p ++ b) = drop n (pending p) ++ b.
Proof. apply drop_app_le. Qed.

Lemma container_header_set_pending m name a x p :
  container_header json_dumps m name a (set_pending x p) =
  ((container_header json_dumps m name a p).1, set_pending x (container_header json_dumps m name a p).2).
Proof. unfold container_header. simpl. repeat case_decide; try done. by destruct (call_name p). Qed.

Lemma channel_ext b p e q pr :
  is_channel (state p) = true -> openers_ok (ext b p) -> pending p <> [] ->
  channel_step p = (e, q, pr) -> same (run (ext b p)) (emit e (run (ext b q))).
Proof.
  intros Hc Hok Hne Hst. destruct (channel_not_done (ext b p) Hc) as [Hd Hch].
  assert (pending (ext b p) <> []) as Hne' by (simpl; by intros [? _]%app_nil).
  destruct (transitions_separated p) as [Hsep Hnd].
  unfold channel_step in Hst. destruct (first_marker (pending p) (transitions p)) as [[[i m] a]|] eqn:Ef.
  - destruct (marker_nonempty _ _ _ _ _ (transitions_nonempty p) Ef) as [_ Hl].
    apply reflexive_eq. assert (pr = true) as ->.
    { destruct (preamble _ && _), (text_events _ _); by injection Hst as <- <- <-. }
    rewrite (run_step_emit (ext b p) e (ext b q) true Hne' Hd); [done|]. rewrite Hch. unfold channel_step.
    simpl pending. change (transitions (ext b p)) with (transitions p).
    rewrite (first_marker_app _ _ _ _ _ _ Hsep Hnd Ef), take_app_le, !drop_ext by lia.
    change (state (ext b p)) with (state p). unfold ext. rewrite text_events_set_pending.
    pose proof (text_events_pending (take i (pending p)) p).
    destruct (preamble _ && _), (text_events _ _) as [ev p']; injection Hst as <- <-; done.
  - change (fst <$> transitions p) with (markers p) in Hst. rewrite overlap_holdback in Hst.
    set (size := length (pending p) - _) in Hst. destruct (bool_decide (size = 0) || _) eqn:Eb.
    { injection Hst as <- <- <-. unfold emit. simpl. by destruct (run _). }
    apply orb_false_iff in Eb as [Hsz Hsp]. apply bool_decide_eq_false in Hsz.
    set (t := take size (pending p)) in *. set (r := drop size (pending p)) in *.
    assert (size <= length (pending p)) as Hle by (unfold size; lia).
    assert (t <> []) as Ht by (intros Ht%(f_equal length); unfold t in Ht; rewrite length_take in Ht; simpl in Ht; lia).
    assert (pending (ext b p) = t ++ (r ++ b)) as Hpe by (unfold ext, t, r; simpl; by rewrite app_assoc, take_drop).
    rewrite (text_split (ext b p) t (r ++ b) Hc Hpe).
    + unfold after, ext. rewrite text_events_set_pending. simpl.
      pose proof (text_events_pending t p). destruct (text_events t p) as [ev p']. by injection Hst as <- <- <-.
    + split; [done|]. intros Hpre. simpl in Hpre. rewrite Hpre in Hsp. unfold isspace in Hsp.
      rewrite bool_decide_eq_false_2 in Hsp by done. done.
    + rewrite <- Hpe. apply safe_upto_app. intros d j Hj. unfold t. rewrite length_take_le by done.
      apply (holdback_safe _ _ d); [|done]. pose proof (first_marker_spec (pending p) (transitions p)) as H.
      by rewrite Ef in H.
    + intros H1 H2 j Hj. destruct Hok as [Hok|[_ Hok]]; [simpl in *; congruence|]. by apply (Hok H1 j).
Qed.

Lemma argument_ext b p e q pr :
  state p = Argument -> pending p <> [] ->
  argument_step json_loads p = (e, q, pr) -> run (ext b p) = emit e (run (ext b q)).
Proof.
  intros Hs Hne Hst. assert (pending (ext b p) <> []) as Hne' by (simpl; by intros [? _]%app_nil).
  unfold argument_step in Hst. destruct (find ARGUMENT_CLOSE (pending p)) as [i|] eqn:Ef; injection Hst as <- <- <-.
  - pose proof (find_Some ARGUMENT_CLOSE (pending p) i) as [H _]. destruct (H Ef) as [Ho%occurs_at_length _].
    erewrite (run_step_emit (ext b p) [] _ true Hne'); [reflexivity|simpl; congruence|].
    unfold parser_step, argument_step. simpl pending. change (state (ext b p)) with (state p).
    rewrite Hs, (find_app _ _ b _ Ef), take_app_le, drop_ext by lia. done.
  - rewrite overlap_holdback. set (size := length (pending p) - _).
    assert (size <= length (pending p)) as Hle by (unfold size; lia).
    assert (ext b p = set_pending (take size (pending p) ++ (drop size (pending p) ++ b)) p) as ->
      by (unfold ext; by rewrite app_assoc, take_drop).
    rewrite argument_split; [simpl; unfold emit; apply surjective_pairing|done|].
    rewrite app_assoc, take_drop. apply safe_upto_app. intros d j Hj. rewrite length_take_le by done.
    apply (holdback_safe _ _ d); [|done]. intros j' (m & ->%list_elem_of_singleton & Ho).
    rewrite find_None in Ef. by apply (Ef j').
Qed.

Lemma container_ext b p e q pr :
  is_container (state p) = true -> pending p <> [] ->
  container_step json_dumps p = (e, q, pr) -> run (ext b p) = emit e (run (ext b q)).
Proof.
  intros Hc Hne Hst. assert (pending (ext b p) <> []) as Hne' by (simpl; by intros [? _]%app_nil).
  destruct (container_not_done (ext b p) Hc) as [Hd Hcs]. destruct container_separated as [Hsep Hnd].
  assert (forall n, n <= length (pending p) -> safe_upto (fst <$> container_markers) (pending p ++ b) n ->
    run (ext b p) = emit [] (run (ext b (set_pending (drop n (pending p)) p)))) as Hsplit.
  { intros n Hn Hsafe.
    assert (ext b p = set_pending (take n (pending p) ++ (drop n (pending p) ++ b)) p) as ->
      by (unfold ext; by rewrite app_assoc, take_drop).
    rewrite container_split; [unfold emit; simpl; apply surjective_pairing|done|].
    by rewrite app_assoc, take_drop, length_take_le. }
  unfold container_step in Hst. destruct (first_marker (pending p) _) as [[[i m] a]|] eqn:Ef.
  - destruct (marker_nonempty _ _ _ _ _ container_nonempty Ef) as [_ Hl].
    destruct (decide (m = END_OF_MESSAGE)) as [->|Hm].
    { injection Hst as <- <- <-. erewrite (run_step_emit (ext b p) [] _ true Hne' Hd); cycle 1.
      { rewrite Hcs. unfold container_step. simpl pending.
        by rewrite (first_marker_app _ _ _ _ _ _ Hsep Hnd Ef), decide_True. }
      rewrite !run_done by done. done. }
    destruct (find_from SEP _ _) as [end_|] eqn:Es.
    2:{ injection Hst as <- <- <-. apply Hsplit; [lia|]. apply safe_upto_app. intros d j Hj.
        pose proof (first_marker_spec (pending p ++ d) container_markers) as H.
        rewrite (first_marker_app _ _ _ _ _ _ Hsep Hnd Ef) in H. by apply H. }
    assert (length m <= length (drop i (pending p))) as Hlm by (rewrite length_drop; lia).
    pose proof (find_from_app _ _ b _ _ Es) as Es'.
    apply find_from_Some in Es as (Hge & Ho%occurs_at_length & _).
    assert (step (ext b p) = (e, ext b q, true) /\ pr = true) as [Hstep ->].
    { rewrite Hcs. unfold container_step. simpl pending.
      rewrite (first_marker_app _ _ _ _ _ _ Hsep Hnd Ef), decide_False, drop_ext, Es' by (done || lia).
      rewrite (drop_app_le _ b) by lia. unfold slice in *. rewrite take_app_le by lia.
      destruct (split_head _) as [[name rest]|]; [|by injection Hst as <- <- <-].
      unfold ext. rewrite container_header_set_pending in Hst. rewrite !container_header_set_pending.
      simpl in Hst. by injection Hst as <- <- <-. }
    rewrite (run_step_emit (ext b p) e (ext b q) true Hne' Hd Hstep). done.
  - injection Hst as <- <- <-. rewrite overlap_holdback. apply Hsplit; [lia|]. apply safe_upto_app.
    intros d j Hj. apply (holdback_safe _ _ d); [|done]. pose proof (first_marker_spec (pending p) container_markers) as H.
    by rewrite Ef in H.
Qed.

Lemma step_ext b p e q pr :
  state p <> Done -> openers_ok (ext b p) -> pending p <> [] ->
  step p = (e, q, pr) -> same (run (ext b p)) (emit e (run (ext b q))).
Proof.
  intros Hd Hok Hne. unfold parser_step.
  destruct (state p) eqn:Es; try done; intros Hst;
    first [by eapply channel_ext; [rewrite Es|..]
          |by apply reflexive_eq; eapply argument_ext
          |by apply reflexive_eq; eapply container_ext; [rewrite Es|..]].
Qed.

(** A run on longer text is the run on its beginning followed by a run on the rest. *)
Lemma run_ext b p :
  openers_ok (ext b p) ->
  same (run (ext b p)) (emit (run p).1 (run (ext b (run p).2))) /\ openers_ok (ext b (run p).2).
Proof.
  remember (length (pending p)) as n eqn:Hn. revert p Hn. induction n as [n IH] using lt_wf_ind. intros p -> Hok.
  destruct (decide (pending p = [])) as [Hp|Hp].
  { rewrite (run_nil p Hp). split; [|done]. apply reflexive_eq, surjective_pairing. }
  destruct (decide (state p = Done)) as [Hd|Hd].
  { rewrite (run_done p Hd). split; [apply reflexive_eq; by rewrite !run_done|].
    destruct Hok as [Hok|[Hu _]]; [by left|right]. split; [|simpl; congruence]. simpl in *.
    intros i j Hi Hj. enough (length (pending p) + i = length (pending p) + j) by lia.
    apply Hu; by apply occurs_at_shift. }
  destruct (step p) as [[e q] pr] eqn:Hst. pose proof (step_ext b p e q pr Hd Hok Hp Hst) as Hse.
  pose proof (step_openers b p e q pr Hp Hst Hok) as Hoq. rewrite (run_step_emit p e q pr Hp Hd Hst).
  destruct pr; [|done]. pose proof (step_consumes _ _ _ _ Hp Hst) as (k & Hk & Hq & Hpos).
  destruct (IH (length (pending q))) with (p := q) as [H1 H2]; [rewrite Hq, length_drop; specialize (Hpos eq_refl); lia|done|done|].
  cbn [emit fst snd]. split; [|done]. rewrite Hse, H1, emit_emit. done.
Qed.

Lemma feed_run delta p : feed json_loads json_dumps delta p = Some (run (ext delta p)).
Proof. unfold feed. by rewrite feed_loop_run by (simpl; lia). Qed.

Lemma ext_ext a b p : ext b (ext a p) = ext (a ++ b) p.
Proof. unfold ext. simpl. by rewrite <- app_assoc. Qed.

Notation feed_all := (feed_all json_loads json_dumps).

Lemma feed_all_one p d :
  feed_all p [d] = Some ((run (ext d p)).1 ++ finish (run (ext d p)).2).
Proof. cbn [KimiK3.feed_all]. rewrite feed_run. by destruct (run _). Qed.

Lemma feed_all_join p d ds :
  openers_ok (ext (d ++ concat ds) p) ->
  exists es es', feed_all p (d :: ds) = Some es /\ feed_all p [d ++ concat ds] = Some es' /\ flat es = flat es'.
Proof.
  revert p d. induction ds as [|d' ds IH]; intros p d Hok.
  { simpl concat in *. rewrite app_nil_r. eexists _, _. by rewrite feed_all_one. }
  cbn [concat] in *. rewrite <- ext_ext in Hok.
  destruct (run_ext _ _ Hok) as [[H1 H2] Hok'].
  change (feed_all p (d :: d' :: ds)) with
    (match feed json_loads json_dumps d p with
     | Some (events, p') => (app events) <$> feed_all p' (d' :: ds) | None => None end).
  rewrite feed_run. destruct (run (ext d p)) as [e q] eqn:Er. cbn [fst snd] in *.
  destruct (IH q d' Hok') as (es & es' & -> & Hes' & Hfl). rewrite feed_all_one in *. rewrite <- ext_ext.
  injection Hes' as <-. eexists _, _. split_and!; [done|done|].
  cbn [emit fst snd] in H1, H2. by rewrite !flat_app, H1, H2, Hfl, !flat_app, <- app_assoc.
Qed.
End run.

(** * Properties *)

(** C39. [feed] returns on every parser state and delta, and the parser keeps a suffix of the
    text it was given: each round of its loop that progresses consumes a character. *)
Theorem feed_total {V} (json_loads : pystr -> option V) json_dumps (delta : pystr) (p : Parser (V := V)) :
  exists events q, feed json_loads json_dumps delta p = Some (events, q) /\
    pending q `suffix_of` pending p ++ delta.
Proof.
  rewrite feed_run. destruct (run _ _ _) as [e q] eqn:Er. exists e, q. split; [done|].
  change (pending p ++ delta) with (pending (ext delta p)). revert Er. generalize (ext delta p). clear p. intros p Er.
  assert (q = (run json_loads json_dumps p).2) as -> by (by rewrite Er). clear Er e.
  remember (length (pending p)) as n eqn:Hn. revert p Hn. induction n as [n IH] using lt_wf_ind. intros p ->.
  destruct (decide (pending p = [])) as [Hp|Hp]; [by rewrite run_nil|].
  destruct (decide (state p = Done)) as [Hd|Hd]; [rewrite run_done by done; apply suffix_nil|].
  destruct (parser_step json_loads json_dumps p) as [[e q] pr] eqn:Hst.
  rewrite (run_step_emit _ _ p e q pr Hp Hd Hst).
  pose proof (step_consumes _ _ _ _ _ _ Hp Hst) as (k & Hk & Hq & Hpos).
  assert (pending q `suffix_of` pending p) as Hs by (rewrite Hq; apply suffix_drop).
  destruct pr; [|done]. cbn [emit snd]. etrans; [|exact Hs].
  apply (IH (length (pending q))); [rewrite Hq, length_drop; specialize (Hpos eq_refl); lia|done].
Qed.

(** C17. Kimi K3 output parses to the same reasoning, content and tool calls however the
    stream is cut into deltas, as long as the think opener does not occur again inside a
    think channel: feeding the pieces and feeding their concatenation give the same events
    up to the splitting of text. *)
Theorem kimi_k3_chunk_invariance {V} (json_loads : pystr -> option V) json_dumps (reasoning_open : bool) (ds : list pystr) :
  (forall i j, occurs_at THINK_OPEN (concat ds) i -> occurs_at THINK_OPEN (concat ds) j -> i = j) ->
  (reasoning_open = true -> forall i, ~ occurs_at THINK_OPEN (concat ds) i) ->
  exists es es', feed_all json_loads json_dumps (new_parser reasoning_open) ds = Some es /\
    feed_all json_loads json_dumps (new_parser reasoning_open) [concat ds] = Some es' /\ flat es = flat es'.
Proof.
  intros Hu Hno. destruct ds as [|d ds].
  { eexists _, _. rewrite feed_all_one. split_and!; [done|done|]. by destruct reasoning_open. }
  apply feed_all_join. right. split; [exact Hu|]. destruct reasoning_open; [|done]. intros _. by apply Hno.
Qed.

(** An instance of the JSON parameters: digits are the only JSON values. *)
Definition toy_loads (s : pystr) : option nat := if forallb is_digit s then Some (length s) else None.
Definition toy_dumps (args : list (pystr * ArgValue (V := nat))) : pystr :=
  concat ((fun '(k, v) => k ++ lit ":" ++ (match v with Raw s => s | Parsed _ => lit "n" end) ++ lit ";") <$> args).

Definition k3_sample : list pystr :=
  [lit "<|open|>think<|sep|>why<"; lit "|close|>think<|sep|><|open|>resp"; lit "onse<|sep|>hi<|close|>response<|sep|><|open|>too";
   lit "ls<|sep|><|open|>call tool=" ++ [quote] ++ lit "f" ++ [quote] ++ lit "<|sep|><|open|>argument key=" ++ [quote];
   lit "x" ++ [quote] ++ lit " type=" ++ [quote] ++ lit "number" ++ [quote] ++ lit "<|se"; lit "p|>4"; lit "2<|close|>argu";
   lit "ment<|sep|><|close|>call<|sep|><|close|>tools<|sep|><|end_of_msg|>tail"].

Definition positions (m s : pystr) : list nat := filter (occurs_at m s) (seq 0 (S (length s))).

Lemma positions_spec m s i : occurs_at m s i <-> i ∈ positions m s.
Proof.
  unfold positions. rewrite list_elem_of_filter, elem_of_seq. split; [|tauto]. intros H. split; [done|].
  apply occurs_at_length in H. lia.
Qed.

Lemma kimi_k3_chunk_invariance_witness :
  exists es es', feed_all toy_loads toy_dumps (new_parser false) k3_sample = Some es /\
    feed_all toy_loads toy_dumps (new_parser false) [concat k3_sample] = Some es' /\ flat es = flat es'.
Proof.
  apply (kimi_k3_chunk_invariance toy_loads toy_dumps false k3_sample); [|done].
  intros i j. rewrite !positions_spec.
  assert (positions THINK_OPEN (concat k3_sample) = [0]) as -> by (by vm_compute).
  rewrite !list_elem_of_singleton. congruence.
Defined.

Example k3_sample_parse :
  flat <$> feed_all toy_loads toy_dumps (new_parser false) k3_sample =
  Some ((RChar <$> lit "why") ++ (CChar <$> lit "hi") ++ [ICall (lit "f") (lit "x:n;")]).
Proof. by vm_compute. Qed.

(** Inside a think channel the opener is a transition only until reasoning was emitted,
    so the result depends on the cutting: fed at once the second opener is dropped, fed
    after the text before it the opener is reported as reasoning. *)
Theorem kimi_k3_opener_depends_on_chunks :
  let rest := lit "<|open|>think<|sep|>de<|close|>think<|sep|>x" in
  flat <$> feed_all toy_loads toy_dumps (new_parser true) [lit "abc" ++ rest] =
    Some ((RChar <$> lit "abcde") ++ (CChar <$> lit "x")) /\
  flat <$> feed_all toy_loads toy_dumps (new_parser true) [lit "abc"; rest] =
    Some ((RChar <$> lit "abc<|open|>think<|sep|>de") ++ (CChar <$> lit "x")).
Proof. split; by vm_compute. Qed.
