(* ===== verification/StructuredStream.v ===== *)
(** Streaming a structured protocol ([_stream_structured_text], [_apply_parsed_delta] and
    [parse_generation] of [dlengine/server/openai_server.py]) with the incremental parser of
    [KimiK3] behind the stop strings of [Streaming], and the whole-text parse
    [KimiK3ToolParser.parse_full] of [dlengine/server/tool_parser.py] it agrees with. *)

From S2P Require Import Prelude PyStr Streaming KimiK3.

(** [x or None] on a string. *)
Definition or_none (s : pystr) : option pystr := match s with [] => None | _ => Some s end.

(** [ParsedOutput] *)
Record ParsedOutput := mk_parsed {
  po_content : option pystr;
  po_reasoning : option pystr;
  po_calls : list (pystr * pystr)
}.

Section structured.
Context {V : Type} (json_loads : pystr -> option V) (json_dumps : list (pystr * ArgValue (V := V)) -> pystr).
Notation Parser := (Parser (V := V)).
Notation feed := (feed json_loads json_dumps).
Notation feed_all := (feed_all json_loads json_dumps).

(** ** Collecting parser events *)

Definition contents (es : list Delta) : pystr := es ≫= fun e => match e with Content t => t | _ => [] end.
Definition reasonings (es : list Delta) : pystr := es ≫= fun e => match e with Reasoning t => t | _ => [] end.
Definition calls (es : list Delta) : list (pystr * pystr) :=
  es ≫= fun e => match e with ToolCall n a => [(n, a)] | _ => [] end.

(** The end of [parse_full]. *)
Definition output_of (es : list Delta) : ParsedOutput :=
  mk_parsed (or_none (contents es)) (or_none (reasonings es)) (calls es).

(** [parse_full]: whether the text starts inside the think channel, then one feed. *)
Definition opens_in_think (text : pystr) : bool :=
  let first_channel := default (length text) (earliest_stop text [THINK_OPEN; RESPONSE_OPEN; TOOLS_OPEN]) in
  match find THINK_CLOSE text with Some close => bool_decide (close < first_channel) | None => false end.

Definition parse_full (text : pystr) : option ParsedOutput :=
  output_of <$> feed_all (new_parser (opens_in_think text)) [text].

(** The parsed part of [_Generation]. *)
Record Output := mk_out {
  content_parts : list pystr;
  reasoning : option pystr;
  tool_calls : list (pystr * pystr);
  out_in_reasoning : bool
}.

Definition new_output : Output := mk_out [] None [] false.

(** [_apply_parsed_delta]: the yielded text with its channel, and the new generation. *)
Definition apply_parsed_delta (o : Output) (d : Delta) : (bool * pystr) * Output :=
  match d with
  | Reasoning t => ((true, t), mk_out (content_parts o) (Some (default [] (reasoning o) ++ t)) (tool_calls o) true)
  | Content t => ((false, t), mk_out (content_parts o ++ [t]) (reasoning o) (tool_calls o) false)
  | ToolCall n a => ((false, []), mk_out (content_parts o) (reasoning o) (tool_calls o ++ [(n, a)]) false)
  end.

Fixpoint apply_deltas (o : Output) (ds : list Delta) : list (bool * pystr) * Output :=
  match ds with
  | [] => ([], o)
  | d :: ds => let '(y, o) := apply_parsed_delta o d in let '(ys, o) := apply_deltas o ds in (y :: ys, o)
  end.

(** [parse_generation] on a generation with parsed output. *)
Definition parse_generation (o : Output) : ParsedOutput :=
  mk_parsed (or_none (concat (content_parts o))) (reasoning o) (tool_calls o).

(** ** The generator *)

(** One decoded delta: what the parser reports, the text held back, the parser, and whether
    a stop string ended the stream. *)
Definition structured_delta (stops : list pystr) (held : pystr) (p : Parser) (delta : pystr)
    : option (list Delta * pystr * Parser * bool) :=
  let text := held ++ delta in
  let cut := earliest_stop text stops in
  let safe := match cut with Some i => i | None => length text - partial_stop_holdback text stops end in
  match feed (take safe text) p with
  | Some (es, p) => Some (match cut with
                          | Some _ => (es, [], p, true)
                          | None => (es, drop safe text, p, false)
                          end)
  | None => None
  end.

Context (decode : list Z -> pystr) (replacement : ascii).

(** The loop over the queue's items. *)
Fixpoint structured_items (stops : list pystr) (max_tokens : Z) (held : pystr) (p : Parser) (g : Generation)
    (items : list Item) : option (list Delta * pystr * Parser * Generation * Outcome) :=
  match items with
  | [] => Some ([], held, p, g, Waiting)
  | ItemEnd :: _ => Some ([], held, p, g, Ended (if decide (max_tokens <= zlen (token_ids g))%Z then "length" else "stop"))
  | ItemError :: _ => Some ([], held, p, g, Raised)
  | ItemOther :: items => structured_items stops max_tokens held p g items
  | ItemTokens tokens :: items =>
      let remaining := (max_tokens - zlen (token_ids g))%Z in
      if decide (remaining <= 0)%Z then structured_items stops max_tokens held p g items
      else
        let g := mk_gen (token_ids g ++ take (Z.to_nat remaining) tokens) (prefix_offset g) (read_offset g) in
        let '(delta, g) := incremental_detokenize decode replacement g in
        match structured_delta stops held p delta with
        | None => None
        | Some (es, held, p, true) => Some (es, held, p, g, Stopped)
        | Some (es, held, p, false) =>
            match structured_items stops max_tokens held p g items with
            | Some (es', held, p, g, out) => Some (es ++ es', held, p, g, out)
            | None => None
            end
        end
  end.

(** The parser events of a whole stream: after the loop the held text is fed and the parser
    finished.  The flag says that the stream got to its end. *)
Definition structured_events (stops : list pystr) (reasoning_open : bool) (max_tokens : Z) (items : list Item)
    : option (list Delta * bool * Generation * Outcome) :=
  match structured_items stops max_tokens [] (new_parser reasoning_open) new_generation items with
  | None => None
  | Some (es, held, p, g, out) =>
      match out with
      | Raised | Waiting => Some (es, false, g, out)
      | Stopped | Ended _ =>
          match feed held p with
          | None => None
          | Some (es', p) => Some (es ++ es' ++ finish p, true, g, out)
          end
      end
  end.

(** The generator: the events are yielded through [_apply_parsed_delta], then an empty chunk
    ends the stream. *)
Definition stream_structured_text (stops : list pystr) (reasoning_open : bool) (max_tokens : Z) (items : list Item)
    : option (list (bool * pystr) * Output * Generation * Outcome) :=
  match structured_events stops reasoning_open max_tokens items with
  | None => None
  | Some (es, at_end, g, out) =>
      let '(ys, o) := apply_deltas new_output es in
      Some (ys ++ (if at_end then [(out_in_reasoning o, [])] else []), o, g, out)
  end.

(** ** Outputs depend on the events character by character *)

Lemma output_of_flat es es' : flat es = flat es' -> output_of es = output_of es'.
Proof.
  assert (forall es, contents es = flat es ≫= fun x => match x with CChar c => [c] | _ => [] end) as Hc.
  { clear. induction es as [|[t|t|n a] es IH]; [done|..]; unfold contents, flat in *; rewrite !bind_cons, bind_app, IH;
      [|f_equal; by induction t|done]. f_equal. induction t as [|c t IHt]; [done|]. csimpl. by f_equal. }
  assert (forall es, reasonings es = flat es ≫= fun x => match x with RChar c => [c] | _ => [] end) as Hr.
  { clear. induction es as [|[t|t|n a] es IH]; [done|..]; unfold reasonings, flat in *; rewrite !bind_cons, bind_app, IH;
      [f_equal; by induction t| |done]. f_equal. induction t as [|c t IHt]; [done|]. csimpl. by f_equal. }
  assert (forall es, calls es = flat es ≫= fun x => match x with ICall n a => [(n, a)] | _ => [] end) as Hk.
  { clear. induction es as [|[t|t|n a] es IH]; [done|..]; unfold calls, flat in *; rewrite !bind_cons, bind_app, IH;
      [f_equal; by induction t|f_equal; by induction t|done]. }
  intros H. unfold output_of. by rewrite !Hc, !Hr, !Hk, H.
Qed.

(** Events that carry text carry some. *)
Definition nonempty_event (d : Delta) : Prop := match d with Content t | Reasoning t => t <> [] | ToolCall _ _ => True end.

Lemma apply_deltas_output es o r :
  Forall nonempty_event es -> reasoning o = or_none r ->
  let o' := (apply_deltas o es).2 in
  concat (content_parts o') = concat (content_parts o) ++ contents es /\
  reasoning o' = or_none (r ++ reasonings es) /\ tool_calls o' = tool_calls o ++ calls es.
Proof.
  intros Hne. revert o r. induction Hne as [|d es Hd _ IH]; intros o r Hr.
  { cbn. by rewrite !app_nil_r. }
  cbn [apply_deltas]. destruct d as [t|t|n a]; unfold contents, reasonings, calls in *; rewrite !bind_cons.
  - specialize (IH (apply_parsed_delta o (Content t)).2 r Hr). cbn [apply_parsed_delta snd] in *.
    destruct (apply_deltas _ es) as [ys o']. cbn in *. rewrite concat_app in IH. cbn in IH.
    rewrite app_nil_r, <- app_assoc in IH. exact IH.
  - specialize (IH (apply_parsed_delta o (Reasoning t)).2 (r ++ t)). cbn [apply_parsed_delta snd] in *.
    destruct (apply_deltas _ es) as [ys o']. cbn in *. rewrite <- app_assoc in IH. apply IH. rewrite Hr.
    cbn in Hd. destruct r as [|c r]; cbn; [by destruct t|done].
  - specialize (IH (apply_parsed_delta o (ToolCall n a)).2 r Hr). cbn [apply_parsed_delta snd] in *.
    destruct (apply_deltas _ es) as [ys o']. cbn in *. rewrite <- app_assoc in IH. exact IH.
Qed.

Lemma parse_generation_output es :
  Forall nonempty_event es -> parse_generation (apply_deltas new_output es).2 = output_of es.
Proof.
  intros Hne. destruct (apply_deltas_output es new_output [] Hne eq_refl) as (Hc & Hr & Hk).
  unfold parse_generation, output_of. by rewrite Hc, Hr, Hk.
Qed.

Lemma text_events_nonempty t (p : Parser) : Forall nonempty_event (text_events t p).1.
Proof.
  unfold text_events. case_bool_decide; [constructor|].
  destruct (state p); try destruct (blank t); repeat constructor; done.
Qed.

Lemma step_nonempty (p : Parser) e q b : parser_step json_loads json_dumps p = (e, q, b) -> Forall nonempty_event e.
Proof.
  assert (channel_step p = (e, q, b) -> Forall nonempty_event e) as Hch.
  { unfold channel_step. destruct (first_marker _ _) as [[[i m] a]|].
    - pose proof (text_events_nonempty (take i (pending p)) p). destruct (text_events _ _) as [ev p'].
      destruct (preamble _ && _); by intros [= <- <- <-].
    - destruct (bool_decide _ || _); [intros [= <- <- <-]; constructor|]. set (t := take _ _).
      pose proof (text_events_nonempty t p). destruct (text_events _ _) as [ev p']. by intros [= <- <- <-]. }
  assert (argument_step json_loads p = (e, q, b) -> Forall nonempty_event e) as Harg.
  { unfold argument_step. destruct (find _ _); intros [= <- <- <-]; constructor. }
  assert (container_step json_dumps p = (e, q, b) -> Forall nonempty_event e) as Hco.
  { unfold container_step. destruct (first_marker _ _) as [[[i m] a]|]; [|intros [= <- <- <-]; constructor].
    case_decide; [intros [= <- <- <-]; constructor|]. destruct (find_from _ _ _); [|intros [= <- <- <-]; constructor].
    destruct (split_head _) as [[name rest]|]; [|intros [= <- <- <-]; constructor].
    unfold container_header. repeat case_decide; try (intros [= <- <- <-]; constructor).
    destruct (call_name _); intros [= <- <- <-]; repeat constructor. }
  unfold parser_step. by destruct (state p).
Qed.

Lemma run_nonempty (p : Parser) : Forall nonempty_event (run json_loads json_dumps p).1.
Proof.
  remember (length (pending p)) as n eqn:Hn. revert p Hn. induction n as [n IH] using lt_wf_ind. intros p ->.
  destruct (decide (pending p = [])) as [Hp|Hp]; [rewrite run_nil by done; constructor|].
  destruct (decide (state p = Done)) as [Hd|Hd]; [rewrite run_done by done; constructor|].
  destruct (parser_step json_loads json_dumps p) as [[e q] b] eqn:Hst.
  rewrite (run_step_emit _ _ p e q b Hp Hd Hst). pose proof (step_nonempty _ _ _ _ Hst) as He.
  destruct b; [|done]. pose proof (step_consumes _ _ _ _ _ _ Hp Hst) as (k & Hk & Hq & Hpos).
  cbn [emit fst]. apply Forall_app. split; [done|].
  apply (IH (length (pending q))); [rewrite Hq, length_drop; specialize (Hpos eq_refl); lia|done].
Qed.

Lemma finish_nonempty (p : Parser) : Forall nonempty_event (finish p).
Proof.
  unfold finish. destruct (state p); try constructor; (destruct (startswith _ _); [constructor|]); apply text_events_nonempty.
Qed.

(** ** Feeding in pieces *)

Fixpoint feeds (p : Parser) (ds : list pystr) : list Delta * Parser :=
  match ds with
  | [] => ([], p)
  | d :: ds => let '(es, q) := run json_loads json_dumps (ext d p) in
               let '(es', q) := feeds q ds in (es ++ es', q)
  end.

Lemma feeds_app p ds ds' :
  feeds p (ds ++ ds') = ((feeds p ds).1 ++ (feeds (feeds p ds).2 ds').1, (feeds (feeds p ds).2 ds').2).
Proof.
  revert p. induction ds as [|d ds IH]; intros p; [simpl; by destruct (feeds p ds')|].
  cbn [feeds app]. destruct (run _ _ _) as [es q]. rewrite IH. destruct (feeds q ds) as [es1 q1]. cbn [fst snd].
  by rewrite app_assoc.
Qed.

Lemma feed_all_feeds p ds : feed_all p ds = Some ((feeds p ds).1 ++ finish (feeds p ds).2).
Proof.
  revert p. induction ds as [|d ds IH]; intros p; [done|]. cbn [KimiK3.feed_all feeds]. rewrite feed_run.
  destruct (run _ _ _) as [es q]. rewrite IH. destruct (feeds q ds). cbn. by rewrite app_assoc.
Qed.

Lemma feeds_nonempty p ds : Forall nonempty_event (feeds p ds).1.
Proof.
  revert p. induction ds as [|d ds IH]; intros p; [constructor|]. cbn [feeds].
  pose proof (run_nonempty (ext d p)). destruct (run _ _ _) as [es q]. specialize (IH q).
  destruct (feeds q ds). by apply Forall_app.
Qed.

(** The loop on decoded deltas. *)
Fixpoint structured_deltas (stops : list pystr) (held : pystr) (p : Parser) (ds : list pystr)
    : option (list Delta * pystr * Parser * bool) :=
  match ds with
  | [] => Some ([], held, p, false)
  | d :: ds =>
      match structured_delta stops held p d with
      | None => None
      | Some (es, held, p, true) => Some (es, held, p, true)
      | Some (es, held, p, false) =>
          match structured_deltas stops held p ds with
          | Some (es', held, p, stopped) => Some (es ++ es', held, p, stopped)
          | None => None
          end
      end
  end.

Lemma structured_items_deltas stops max_tokens held p g items :
  let '(ds, g', out) := item_deltas decode replacement max_tokens g items in
  match structured_deltas stops held p ds with
  | Some (es, held', p', true) =>
      exists g'', structured_items stops max_tokens held p g items = Some (es, held', p', g'', Stopped)
  | Some (es, held', p', false) =>
      structured_items stops max_tokens held p g items = Some (es, held', p', g', out)
  | None => structured_items stops max_tokens held p g items = None
  end.
Proof.
  revert held p g. induction items as [|it items IH]; intros held p g; [done|].
  destruct it as [| |tokens|]; cbn [item_deltas structured_items]; [done|done| |apply IH].
  case_decide; [apply IH|]. destruct (incremental_detokenize _ _ _) as [delta g1].
  destruct (item_deltas decode replacement max_tokens g1 items) as [[ds g'] out] eqn:Ei.
  cbn [structured_deltas]. destruct (structured_delta _ _ _ _) as [[[[es held1] p1] []]|]; [by exists g1| |done].
  specialize (IH held1 p1 g1). rewrite Ei in IH.
  destruct (structured_deltas stops held1 p1 ds) as [[[[es' held'] p'] []]|].
  - destruct IH as (g'' & ->). by exists g''.
  - by rewrite IH.
  - by rewrite IH.
Qed.

(** What is fed is the text up to the first stop string, in pieces. *)
Lemma structured_deltas_pieces stops fed held p ds :
  (forall j, ~ stop_at stops (fed ++ held) j) -> safe_upto stops (fed ++ held) (length fed) ->
  exists pieces held' stopped,
    structured_deltas stops held p ds = Some ((feeds p pieces).1, held', (feeds p pieces).2, stopped) /\
    match first_cut stops (fed ++ held) ds with
    | Some (t, i) => stopped = true /\ held' = [] /\ fed ++ concat pieces = take i t
    | None => stopped = false /\ fed ++ concat pieces ++ held' = fed ++ held ++ concat ds
    end.
Proof.
  revert fed held p. induction ds as [|d ds IH]; intros fed held p Hn Hs.
  { exists [], held, false. cbn. by rewrite app_nil_r. }
  cbn [structured_deltas first_cut]. set (r := held ++ d).
  assert ((fed ++ held) ++ d = fed ++ r) as -> by (unfold r; by rewrite app_assoc).
  assert (safe_upto stops (fed ++ r) (length fed)) as Hs'.
  { unfold r. rewrite app_assoc. by apply safe_upto_app. }
  assert (forall j, stop_at stops (fed ++ r) j -> length fed <= j) as Hj.
  { intros j Hj. apply (Hs' []). by rewrite app_nil_r. }
  unfold structured_delta. fold r. rewrite (earliest_stop_shift stops fed r Hj), feed_run.
  destruct (earliest_stop (fed ++ r) stops) as [i|] eqn:Ec; cbn [fmap option_fmap option_map].
  - assert (length fed <= i) as Hi by (apply Hj; by apply earliest_stop_Some in Ec as [? _]).
    exists [take (i - length fed) r], [], true. cbn [feeds]. destruct (run _ _ _) as [es q]. cbn [fst snd].
    split; [by rewrite app_nil_r|]. cbn. by rewrite app_nil_r, take_app_ge.
  - pose proof (holdback_drop _ _ _ Hs') as Hh. pose proof (holdback_le r stops) as Hle.
    set (safe := length r - partial_stop_holdback r stops).
    destruct (IH (fed ++ take safe r) (drop safe r) (run json_loads json_dumps (ext (take safe r) p)).2) as (pieces & held' & stopped & Hd & Hm).
    + rewrite <- app_assoc, take_drop. by apply earliest_stop_None.
    + rewrite <- app_assoc, take_drop. intros e j Hj'.
      rewrite length_app, length_take. enough (length (fed ++ r) - partial_stop_holdback (fed ++ r) stops <= j) as Hx.
      { rewrite Hh, length_app in Hx. unfold safe. lia. }
      apply (holdback_safe _ _ e); [by apply earliest_stop_None|done].
    + rewrite <- app_assoc, take_drop in Hm. exists (take safe r :: pieces), held', stopped. cbn [feeds concat].
      destruct (run _ _ _) as [es q]. cbn [snd] in Hd. rewrite Hd. destruct (feeds q pieces) as [es' q']. split; [done|].
      destruct (first_cut stops (fed ++ r) ds) as [[t i]|].
      * by rewrite <- app_assoc in Hm.
      * destruct Hm as [? Hm]. split; [done|]. rewrite <- !app_assoc in *. rewrite Hm.
        rewrite !app_assoc. f_equal. rewrite <- !app_assoc, take_drop. unfold r. by rewrite app_assoc.
Qed.

(** The text a stream shows: what precedes the first stop string. *)
Definition shown (stops : list pystr) (ds : list pystr) : pystr :=
  match first_cut stops [] ds with Some (t, i) => take i t | None => concat ds end.

Lemma stream_structured_feeds stops reasoning_open max_tokens items ds g reason :
  Forall (fun s => s <> []) stops ->
  item_deltas decode replacement max_tokens new_generation items = (ds, g, Ended reason) ->
  exists ys o g' out pieces,
    stream_structured_text stops reasoning_open max_tokens items = Some (ys, o, g', out) /\
    Some (parse_generation o) = output_of <$> feed_all (new_parser reasoning_open) pieces /\
    concat pieces = shown stops ds /\ pieces <> [] /\
    out = (match first_cut stops [] ds with Some _ => Stopped | None => Ended reason end).
Proof.
  intros Hne Hi. unfold stream_structured_text, structured_events.
  pose proof (structured_items_deltas stops max_tokens [] (new_parser reasoning_open) new_generation items) as Hd.
  rewrite Hi in Hd.
  destruct (structured_deltas_pieces stops [] [] (new_parser reasoning_open) ds) as (pieces & held & stopped & Hp & Hc).
  { intros j (m & Hm & Ho%occurs_at_length). simpl in Ho. rewrite Forall_forall in Hne. apply Hne in Hm.
    destruct m; [done|simpl in Ho; lia]. }
  { intros e j _. simpl. lia. }
  rewrite Hp in Hd. simpl in Hc. set (q := new_parser reasoning_open) in *.
  assert (exists g' out, structured_items stops max_tokens [] q new_generation items =
            Some ((feeds q pieces).1, held, (feeds q pieces).2, g', out) /\
          out = match first_cut stops [] ds with Some _ => Stopped | None => Ended reason end /\
          concat (pieces ++ [held]) = shown stops ds) as (g' & out & -> & Hout & Hcat).
  { unfold shown. rewrite concat_app. cbn [concat]. rewrite app_nil_r.
    destruct (first_cut stops [] ds) as [[t i]|].
    - destruct Hc as (-> & -> & <-). destruct Hd as (g' & ->). exists g', Stopped. by rewrite app_nil_r.
    - destruct Hc as (-> & <-). rewrite Hd. by eexists _, _. }
  rewrite feed_run. set (x := run json_loads json_dumps (ext held (feeds q pieces).2)).
  assert (feed_all q (pieces ++ [held]) = Some ((feeds q pieces).1 ++ x.1 ++ finish x.2)) as Hfa.
  { rewrite feed_all_feeds, feeds_app. cbn [feeds fst snd]. fold x. destruct x as [es' p']. cbn [fst snd].
    by rewrite app_nil_r, app_assoc. }
  destruct x as [es' p'] eqn:Ex. cbn [fst snd] in Hfa.
  pose proof (parse_generation_output ((feeds q pieces).1 ++ es' ++ finish p')) as Hpg.
  destruct (apply_deltas new_output _) as [ys o] eqn:Ea. cbn [snd] in Hpg.
  exists (ys ++ [(out_in_reasoning o, [])]), o, g', out, (pieces ++ [held]).
  split_and!; [|rewrite Hfa; cbn; rewrite Hpg; [done|]|done|by destruct pieces|done].
  - rewrite Hout. destruct (first_cut stops [] ds); by rewrite Ea.
  - apply Forall_app. split; [apply feeds_nonempty|]. apply Forall_app. split; [|apply finish_nonempty].
    pose proof (run_nonempty (ext held (feeds q pieces).2)) as Hr. unfold x in Ex. by rewrite Ex in Hr.
Qed.
(** The events of a structured stream that carry text carry some. *)
Lemma structured_items_nonempty stops max_tokens held p g items es held' p' g' out :
  structured_items stops max_tokens held p g items = Some (es, held', p', g', out) -> Forall nonempty_event es.
Proof.
  revert held p g es. induction items as [|it items IH]; intros held p g es; [intros [= <-]; constructor|].
  destruct it as [| |tokens|]; cbn [structured_items]; try (intros [= <-]; constructor); [|apply IH].
  case_decide; [apply IH|]. destruct (incremental_detokenize _ _ _) as [delta g1]. unfold structured_delta.
  rewrite feed_run. pose proof (run_nonempty (ext (take (match earliest_stop (held ++ delta) stops with
    Some i => i | None => length (held ++ delta) - partial_stop_holdback (held ++ delta) stops end) (held ++ delta)) p)) as Hr.
  destruct (run _ _ _) as [es1 p1]. destruct (earliest_stop _ _); [by intros [= <-]|].
  destruct (structured_items _ _ _ p1 g1 items) as [[[[[es2 h2] p2] g2] out2]|] eqn:E; [|done]. intros [= <- <- <- <- <-].
  apply Forall_app. split; [done|]. by apply (IH _ _ _ _ E).
Qed.

Lemma structured_events_nonempty stops reasoning_open max_tokens items es at_end g out :
  structured_events stops reasoning_open max_tokens items = Some (es, at_end, g, out) -> Forall nonempty_event es.
Proof.
  unfold structured_events. destruct (structured_items _ _ _ _ _ _) as [[[[[es1 held] p] g1] out1]|] eqn:E; [|done].
  apply structured_items_nonempty in E. destruct out1; try (by intros [= <- <- <- <-]); rewrite feed_run;
    pose proof (run_nonempty (ext held p)) as Hr; destruct (run _ _ _) as [es2 p2]; intros [= <- <- <- <-];
    rewrite !Forall_app; auto using finish_nonempty.
Qed.
End structured.

(** * Properties *)

(** C16. For non-empty stop strings and tokens whose generation ends (no error item), if the generated text up to
    the first stop string has at most one think opener, and none when the prompt already left
    the reasoning open: the structured stream ends with a result, and its parsed output is that of
    the parser run once on that text, so that the hold-back of stop strings and the chunking of the
    tokens leave no trace in reasoning, content and tool calls.  When the prompt's reasoning
    state matches the text's, it is the output of the whole-text parse.  (With a second
    opener the chunking can show: whether it is dropped depends on where the stream is cut.) *)
Theorem structured_stream_parses {V} (json_loads : pystr -> option V) json_dumps decode replacement
    (stops : list pystr) (reasoning_open : bool) max_tokens items ds g reason :
  Forall (fun s => s <> []) stops ->
  item_deltas decode replacement max_tokens new_generation items = (ds, g, Ended reason) ->
  let text := shown stops ds in
  (forall i j, occurs_at THINK_OPEN text i -> occurs_at THINK_OPEN text j -> i = j) ->
  (reasoning_open = true -> forall i, ~ occurs_at THINK_OPEN text i) ->
  exists ys o g' out,
    stream_structured_text json_loads json_dumps decode replacement stops reasoning_open max_tokens items = Some (ys, o, g', out) /\
    Some (parse_generation o) = output_of <$> feed_all json_loads json_dumps (new_parser reasoning_open) [text] /\
    (reasoning_open = opens_in_think text -> Some (parse_generation o) = parse_full json_loads json_dumps text) /\
    out = (match first_cut stops [] ds with Some _ => Stopped | None => Ended reason end).
Proof.
  intros Hne Hi text Hu Hno.
  destruct (stream_structured_feeds json_loads json_dumps decode replacement stops reasoning_open max_tokens items ds g reason Hne Hi)
    as (ys & o & g' & out & pieces & Hst & Hout & Hcat & Hp & Hend).
  assert (output_of <$> feed_all json_loads json_dumps (new_parser reasoning_open) pieces =
          output_of <$> feed_all json_loads json_dumps (new_parser reasoning_open) [text]) as Heq.
  { destruct pieces as [|d pieces]; [done|].
    destruct (feed_all_join json_loads json_dumps (new_parser reasoning_open) d pieces) as (es & es' & -> & Hj & Hf).
    { right. cbn [ext set_pending pending state new_parser app]. change (d ++ concat pieces) with (concat (d :: pieces)).
      rewrite Hcat. split; [exact Hu|]. destruct reasoning_open; [|done]. intros _. by apply Hno. }
    change (d ++ concat pieces) with (concat (d :: pieces)) in Hj. rewrite Hcat in Hj. fold text in Hj. rewrite Hj.
    cbn. f_equal. by apply output_of_flat. }
  exists ys, o, g', out. rewrite Heq in Hout. split_and!; [done|done| |done]. intros ->. exact Hout.
Qed.

(** A tokenizer whose tokens are code points. *)
Definition toy_decode (ids : list Z) : pystr := ascii_of_nat ∘ Z.to_nat <$> ids.
Definition toy_tokens (s : pystr) : list Z := Z.of_nat ∘ nat_of_ascii <$> s.

Definition structured_items_sample : list Item :=
  [ItemTokens (toy_tokens (lit "<|open|>think<|sep|>why<|clo")); ItemTokens (toy_tokens (lit "se|>think<|sep|>answer ST"));
   ItemOther; ItemTokens (toy_tokens (lit "OP more")); ItemEnd].

Lemma structured_stream_parses_witness :
  exists ys o g' out,
    stream_structured_text toy_loads toy_dumps toy_decode "?"%char [lit "STOP"] false 200 structured_items_sample = Some (ys, o, g', out) /\
    Some (parse_generation o) = parse_full toy_loads toy_dumps (lit "<|open|>think<|sep|>why<|close|>think<|sep|>answer ").
Proof.
  destruct (structured_stream_parses toy_loads toy_dumps toy_decode "?"%char [lit "STOP"] false 200 structured_items_sample
    (item_deltas toy_decode "?"%char 200 new_generation structured_items_sample).1.1
    (item_deltas toy_decode "?"%char 200 new_generation structured_items_sample).1.2 "stop")
    as (ys & o & g' & out & Hs & _ & Hp & _).
  - repeat constructor. discriminate.
  - vm_compute. reflexivity.
  - intros i j. rewrite !positions_spec.
    assert (positions THINK_OPEN (shown [lit "STOP"] (item_deltas toy_decode "?"%char 200 new_generation structured_items_sample).1.1) = [0])
      as -> by (vm_compute; reflexivity).
    rewrite !list_elem_of_singleton. congruence.
  - discriminate.
  - exists ys, o, g', out. split; [exact Hs|]. rewrite Hp by (vm_compute; reflexivity).
    f_equal.
Defined.
