(* ===== verification/ToolParser.v ===== *)
(** Tool-call parsers of the XML and JSON formats ([dlengine/server/tool_parser.py]: the
    reasoning split, the Hermes, Qwen3 and GLM parsers, the typing of GLM arguments by the
    tools' schemas, and the choice of a parser).  The regular expressions are written out as
    the searches they denote: alternatives are tried from the left, a lazy group ends at the
    first place where the rest matches, and a greedy run of a character class followed by a
    character outside it cannot be cut shorter.  [json] is a parameter. *)

From S2P Require Import Prelude PyStr StructuredStream.

(** * JSON values *)

(** What [json.loads] returns; floats are their bit patterns and objects keep their order. *)
Inductive Json :=
  | JNull
  | JBool (b : bool)
  | JInt (z : Z)
  | JFloat (bits : Z)
  | JStr (s : pystr)
  | JArr (l : list Json)
  | JObj (fields : list (pystr * Json)).

(** [d.get(k)] *)
Definition dict_get {A} (k : pystr) (d : list (pystr * A)) : option A := snd <$> (snd <$> list_find (fun p => fst p = k) d).

(** [d\[k\] = v] *)
Fixpoint dict_put {A} (k : pystr) (v : A) (d : list (pystr * A)) : list (pystr * A) :=
  match d with
  | [] => [(k, v)]
  | (k', v') :: d => if decide (k = k') then (k, v) :: d else (k', v') :: dict_put k v d
  end.

(** [bool(x)]; a float is false when all bits but the sign are zero. *)
Definition truthy (j : Json) : bool :=
  match j with
  | JNull => false
  | JBool b => b
  | JInt z => negb (z =? 0)%Z
  | JFloat bits => negb (bits mod 2 ^ 63 =? 0)%Z
  | JStr s => negb (bool_decide (s = []))
  | JArr l => match l with [] => false | _ => true end
  | JObj l => match l with [] => false | _ => true end
  end.

(** * Reasoning *)

Definition THINK : pystr := lit "<think>".
Definition END_THINK : pystr := lit "</think>".

(** [while s.startswith("<think>"): s = s\[len("<think>"):\].lstrip()] *)
Fixpoint drop_openers (fuel : nat) (s : pystr) : pystr :=
  match fuel with
  | 0 => s
  | S fuel => if startswith s THINK then drop_openers fuel (lstrip (drop (length THINK) s)) else s
  end.

(** [_extract_reasoning] *)
Definition extract_reasoning (text : pystr) : option pystr * pystr :=
  match find END_THINK text with
  | None =>
      let unfinished := strip text in
      if startswith unfinished THINK then (or_none (drop_openers (length unfinished) unfinished), [])
      else (None, text)
  | Some close =>
      let '(reasoning, rest) :=
        match find THINK text with
        | Some i => if decide (i < close)
                    then (take (close - (i + length THINK)) (drop (i + length THINK) text), take i text ++ drop (close + length END_THINK) text)
                    else (take close text, drop (close + length END_THINK) text)
        | None => (take close text, drop (close + length END_THINK) text)
        end in
      let reasoning := strip reasoning in
      (or_none (drop_openers (length reasoning) reasoning), rest)
  end.

(** * Tool-call blocks *)

Definition TOOL_OPEN : pystr := lit "<tool_call>".
Definition TOOL_CLOSE : pystr := lit "</tool_call>".

(** [<tool_call>\s*(.*?)\s*</tool_call>]: the groups of all matches, and the text without
    them. *)
Fixpoint tool_blocks (fuel : nat) (s : pystr) : list pystr * pystr :=
  match fuel with
  | 0 => ([], s)
  | S fuel =>
      match find TOOL_OPEN s with
      | None => ([], s)
      | Some i =>
          let after := drop (i + length TOOL_OPEN) s in
          match find TOOL_CLOSE after with
          | None => ([], s)
          | Some j =>
              let '(blocks, rest) := tool_blocks fuel (drop (j + length TOOL_CLOSE) after) in
              (strip (take j after) :: blocks, take i s ++ rest)
          end
      end
  end.

(** ** Hermes: [<tool_call>\s*(\{.*?\})\s*</tool_call>] *)

Definition LBRACE : ascii := ascii_of_nat 123.
Definition RBRACE : ascii := ascii_of_nat 125.

(** The shortest text up to a closing brace that ends the block, and what follows it. *)
Fixpoint brace_end (s : pystr) : option (pystr * pystr) :=
  match s with
  | [] => None
  | c :: s' =>
      if decide (c = RBRACE /\ startswith (lstrip s') TOOL_CLOSE = true) then Some ([c], drop (length TOOL_CLOSE) (lstrip s'))
      else match brace_end s' with Some (g, rest) => Some (c :: g, rest) | None => None end
  end.

(** A match right after the opener. *)
Definition json_block (after : pystr) : option (pystr * pystr) :=
  match lstrip after with
  | c :: s => if decide (c = LBRACE) then match brace_end s with Some (g, rest) => Some (c :: g, rest) | None => None end else None
  | [] => None
  end.

Fixpoint json_blocks (fuel : nat) (s : pystr) : list pystr * pystr :=
  match fuel with
  | 0 => ([], s)
  | S fuel =>
      match find TOOL_OPEN s with
      | None => ([], s)
      | Some i =>
          match json_block (drop (i + length TOOL_OPEN) s) with
          | Some (g, rest) => let '(gs, out) := json_blocks fuel rest in (g :: gs, take i s ++ out)
          | None => let '(gs, out) := json_blocks fuel (drop (S i) s) in (gs, take (S i) s ++ out)
          end
      end
  end.

(** ** Qwen3: [<function=([^>\s]+)\s*>(.*?)</function>] and the same for parameters *)

Definition GT : ascii := ascii_of_nat 62.

(** [[^>\s]+] *)
Fixpoint span_name (s : pystr) : pystr :=
  match s with
  | [] => []
  | c :: s => if decide (c = GT \/ is_space c = true) then [] else c :: span_name s
  end.

(** A match right after the opener: name, body, rest. *)
Definition tag_at (close after : pystr) : option (pystr * pystr * pystr) :=
  match span_name after with
  | [] => None
  | name =>
      match lstrip (drop (length name) after) with
      | c :: s => if decide (c = GT)
                  then (fun j => (name, take j s, drop (j + length close) s)) <$> find close s
                  else None
      | [] => None
      end
  end.

(** [re.search] *)
Fixpoint search_tag (fuel : nat) (open close s : pystr) : option (pystr * pystr * pystr) :=
  match fuel with
  | 0 => None
  | S fuel =>
      match find open s with
      | None => None
      | Some i => match tag_at close (drop (i + length open) s) with
                  | Some m => Some m
                  | None => search_tag fuel open close (drop (S i) s)
                  end
      end
  end.

(** [re.finditer]: name and body of every match. *)
Fixpoint all_tags (fuel : nat) (open close s : pystr) : list (pystr * pystr) :=
  match fuel with
  | 0 => []
  | S fuel => match search_tag (S (length s)) open close s with
              | Some (name, body, rest) => (name, body) :: all_tags fuel open close rest
              | None => []
              end
  end.

(** ** GLM: [<arg_key>\s*(.*?)\s*</arg_key>\s*<arg_value>\s*(.*?)\s*</arg_value>] *)

Definition KEY_OPEN : pystr := lit "<arg_key>".
Definition KEY_CLOSE : pystr := lit "</arg_key>".
Definition VAL_OPEN : pystr := lit "<arg_value>".
Definition VAL_CLOSE : pystr := lit "</arg_value>".

(** The shortest key whose end is followed by a value, and the text of the value on. *)
Fixpoint key_end (s : pystr) : option (pystr * pystr) :=
  if startswith s KEY_CLOSE && startswith (lstrip (drop (length KEY_CLOSE) s)) VAL_OPEN
  then Some ([], drop (length VAL_OPEN) (lstrip (drop (length KEY_CLOSE) s)))
  else match s with
       | [] => None
       | c :: s => match key_end s with Some (k, rest) => Some (c :: k, rest) | None => None end
       end.

(** A match right after [<arg_key>]: key, value, rest. *)
Definition arg_at (after : pystr) : option (pystr * pystr * pystr) :=
  match key_end after with
  | None => None
  | Some (key, s) => (fun j => (strip key, strip (take j s), drop (j + length VAL_CLOSE) s)) <$> find VAL_CLOSE s
  end.

Fixpoint all_args (fuel : nat) (s : pystr) : list (pystr * pystr) :=
  match fuel with
  | 0 => []
  | S fuel =>
      match find KEY_OPEN s with
      | None => []
      | Some i => match arg_at (drop (i + length KEY_OPEN) s) with
                  | Some (key, value, rest) => (key, value) :: all_args fuel rest
                  | None => all_args fuel (drop (S i) s)
                  end
      end
  end.

(** * Types of arguments *)

Definition field (k : string) (d : list (pystr * Json)) : option Json := dict_get (lit k) d.

(** The type of an [enum] member. *)
Definition enum_type (v : Json) : string :=
  match v with
  | JNull => "null" | JBool _ => "boolean" | JInt _ => "integer" | JFloat _ => "number"
  | JStr _ => "string" | JArr _ => "array" | JObj _ => "object"
  end.

(** [x or y] on optional JSON values. *)
Definition json_or (x y : option Json) : option Json :=
  match x with Some j => if truthy j then Some j else y | None => y end.

(** The value of a [type] list: its first member that is not ["null"]. *)
Definition not_null (j : Json) : bool := match j with JStr s => bool_decide (s <> lit "null") | _ => true end.
Definition type_of_list (l : list Json) : Json := default (JStr (lit "string")) (head (filter (fun j => not_null j = true) l)).

(** [_infer_json_schema_type].  Fields that hold lists are paired with the types inferred for
    their members ([inferred]), so that the recursion follows the schema.  The result is a JSON value, as a
    [type] list may hold other values than strings, which JSON Schema forbids; among several
    inferred types such a value counts as different from the others. *)
Definition infer_fields (fields : list (pystr * Json)) (inferred : list (pystr * list (option Json))) : option Json :=
  let items_of (k : string) := default [] (dict_get (lit k) inferred) in
  match field "type" fields with
  | Some (JStr s) => Some (JStr s)
  | Some (JArr (x :: l)) => Some (type_of_list (x :: l))
  | _ =>
      let alternatives := json_or (field "anyOf" fields) (field "oneOf" fields) in
      let types := match alternatives with
                   | Some (JArr _) =>
                       omap id (if default false (truthy <$> field "anyOf" fields) then items_of "anyOf" else items_of "oneOf")
                   | _ => []
                   end in
      match types with
      | t :: ts =>
          if forallb (fun u => match u, t with JStr a, JStr b => bool_decide (a = b) | _, _ => false end) ts then Some t
          else if existsb (fun u => match u with JStr a => bool_decide (a = lit "string") | _ => false end) types then Some (JStr (lit "string"))
          else Some t
      | [] =>
          match field "enum" fields with
          | Some (JArr []) => Some (JStr (lit "string"))
          | Some (JArr (v :: vs)) =>
              if forallb (fun w => bool_decide (enum_type w = enum_type v)) vs then Some (JStr (lit (enum_type v)))
              else Some (JStr (lit "string"))
          | _ =>
              match field "allOf" fields with
              | Some (JArr _) =>
                  Some (default (JStr (lit "string")) (head (omap (fun o : option Json =>
                    match o with
                    | Some (JStr s) => if decide (s = [] \/ s = lit "string") then None else Some (JStr s)
                    | Some j => if truthy j then Some j else None
                    | None => None
                    end) (items_of "allOf"))))
              | _ => if bool_decide (is_Some (field "properties" fields)) then Some (JStr (lit "object"))
                     else if bool_decide (is_Some (field "items" fields)) then Some (JStr (lit "array"))
                     else None
              end
          end
      end
  end.

Fixpoint infer_json_schema_type (schema : Json) : option Json :=
  match schema with
  | JObj fields =>
      infer_fields fields ((fix go (fs : list (pystr * Json)) : list (pystr * list (option Json)) :=
        match fs with
        | [] => []
        | (k, JArr items) :: fs =>
            (k, (fix each (l : list Json) : list (option Json) :=
                   match l with [] => [] | x :: l => infer_json_schema_type x :: each l end) items) :: go fs
        | (k, _) :: fs => (k, []) :: go fs
        end) fields)
  | _ => None
  end.

(** Name and parameters of one tool of a request, OpenAI's or Anthropic's form. *)
Definition tool_signature (fields : list (pystr * Json)) : option Json * option Json :=
  match field "function" fields with
  | Some (JObj f) => (field "name" f, field "parameters" f)
  | _ => (field "name" fields, field "input_schema" fields)
  end.

(** [_get_argument_type] *)
Fixpoint get_argument_type (fname aname : pystr) (tools : list Json) : option Json :=
  match tools with
  | [] => None
  | JObj fields :: tools =>
      match tool_signature fields with
      | (Some (JStr n), Some (JObj parameters)) =>
          if decide (n = fname) then
            match field "properties" parameters with
            | Some (JObj properties) => dict_get aname properties ≫= infer_json_schema_type
            | _ => None
            end
          else get_argument_type fname aname tools
      | _ => get_argument_type fname aname tools
      end
  | _ :: tools => get_argument_type fname aname tools
  end.

(** * The parsers *)

Section parsers.
(** [json.loads] ([None] when it raises), [json.dumps] with [ensure_ascii] and [str] of a
    scalar. *)
Context (json_loads : pystr -> option Json) (json_dumps : bool -> Json -> pystr) (py_str : Json -> pystr).

(** [_coerce_value] *)
Definition coerce_value (raw : pystr) : Json := default (JStr (strip raw)) (json_loads (strip raw)).

(** [_coerce_glm_value] *)
Definition coerce_glm_value (raw fname aname : pystr) (tools : option (list Json)) : Json :=
  let parsed := coerce_value raw in
  match tools ≫= get_argument_type fname aname with
  | Some (JStr t) =>
      if decide (t = lit "string") then
        match parsed with
        | JStr _ => parsed
        | JObj _ | JArr _ => JStr (json_dumps false parsed)
        | _ => JStr (py_str parsed)
        end
      else parsed
  | _ => parsed
  end.

(** One match of the Hermes parser; a JSON value without fields raises when it is asked for
    its name, but a text in braces can only be an object. *)
Definition hermes_call (raw : pystr) : option (pystr * pystr) :=
  match json_loads (strip raw) with
  | Some (JObj fields) =>
      match field "name" fields with
      | Some (JStr name) =>
          if decide (name = []) then None
          else Some (name, match default (JObj []) (field "arguments" fields) with JStr s => s | j => json_dumps true j end)
      | _ => None
      end
  | _ => None
  end.

(** [HermesToolParser.parse_full] *)
Definition parse_hermes (text : pystr) : ParsedOutput :=
  let '(reasoning, text) := extract_reasoning text in
  let '(blocks, rest) := json_blocks (S (length text)) text in
  mk_parsed (or_none (strip rest)) reasoning (omap hermes_call blocks).

Definition FUNC_OPEN : pystr := lit "<function=".
Definition FUNC_CLOSE : pystr := lit "</function>".
Definition PARAM_OPEN : pystr := lit "<parameter=".
Definition PARAM_CLOSE : pystr := lit "</parameter>".

(** One block of the Qwen3 parser. *)
Definition qwen_call (block : pystr) : option (pystr * pystr) :=
  match search_tag (S (length block)) FUNC_OPEN FUNC_CLOSE block with
  | None => None
  | Some (name, body, _) =>
      if decide (strip name = []) then None
      else Some (strip name, json_dumps true (JObj (foldl (fun d p => dict_put (strip (fst p)) (coerce_value (snd p)) d) []
                                                      (all_tags (S (length body)) PARAM_OPEN PARAM_CLOSE body))))
  end.

(** [Qwen3XMLToolParser.parse_full] *)
Definition parse_qwen (text : pystr) : ParsedOutput :=
  let '(reasoning, text) := extract_reasoning text in
  let '(blocks, rest) := tool_blocks (S (length text)) text in
  mk_parsed (or_none (strip rest)) reasoning (omap qwen_call blocks).

(** One block of the GLM parser. *)
Definition glm_call (tools : option (list Json)) (block : pystr) : option (pystr * pystr) :=
  let block := strip block in
  let '(name, arg_text) := match find KEY_OPEN block with
                           | None => (strip block, [])
                           | Some i => (strip (take i block), drop i block)
                           end in
  if decide (name = []) then None
  else Some (name, json_dumps false (JObj (foldl (fun d p => if decide (strip (fst p) = []) then d
                                                    else dict_put (strip (fst p)) (coerce_glm_value (snd p) name (strip (fst p)) tools) d)
                                             [] (all_args (S (length arg_text)) arg_text)))).

(** [GLMXMLToolParser.parse_full] *)
Definition parse_glm (tools : option (list Json)) (text : pystr) : ParsedOutput :=
  let '(reasoning, text) := extract_reasoning text in
  let '(blocks, rest) := tool_blocks (S (length text)) text in
  mk_parsed (or_none (strip rest)) reasoning (omap (glm_call tools) blocks).
End parsers.

(** * Choosing a parser *)

Inductive ParserClass := HermesToolParser | Qwen3XMLToolParser | GLMXMLToolParser | KimiK3ToolParser.

(** [_REGISTRY] *)
Definition REGISTRY : list (pystr * ParserClass) :=
  [(lit "hermes", HermesToolParser); (lit "qwen3_xml", Qwen3XMLToolParser); (lit "qwen3_coder", Qwen3XMLToolParser);
   (lit "glm", GLMXMLToolParser); (lit "glm45", GLMXMLToolParser); (lit "glm47", GLMXMLToolParser); (lit "glm5", GLMXMLToolParser);
   (lit "kimi_k3", KimiK3ToolParser)].

(** [str.lower] on code points below 256. *)
Definition lower_char (c : ascii) : ascii :=
  let n := code c in
  if ((65 <=? n) && (n <=? 90)) || ((192 <=? n) && (n <=? 222) && negb (n =? 215)) then ascii_of_nat (n + 32) else c.
Definition lower (s : pystr) : pystr := lower_char <$> s.

(** [get_tool_parser] *)
Definition get_tool_parser (name : option pystr) : ParserClass :=
  let key := lower (match name with Some (c :: s) => c :: s | _ => lit "hermes" end) in
  default HermesToolParser (dict_get key REGISTRY).

(** [detect_parser_name] *)
Definition detect_parser_name (model_path served_model_name : pystr) (chat_template : option pystr) : pystr :=
  let ident := lower (model_path ++ lit " " ++ served_model_name) in
  let has := contains ident in
  if has (lit "kimi-k3") || has (lit "kimi_k3") then lit "kimi_k3"
  else if has (lit "glm-5") || has (lit "glm_5") || has (lit "glm5") then lit "glm47"
  else
    let fallback := if has (lit "glm") then lit "glm"
                    else if has (lit "qwen3.5") || has (lit "qwen3-coder") || has (lit "qwen3_coder") then lit "qwen3_xml"
                    else lit "hermes" in
    match chat_template with
    | Some t => if contains t (lit "<arg_key>") || contains t (lit "<arg_value>") then lit "glm"
                else if contains t (lit "<function=") then lit "qwen3_xml"
                else if contains t (lit "<tool_call>") then lit "hermes"
                else fallback
    | None => fallback
    end.

(** * Rendering and parsing *)

(** A block of a tool call in the text. *)
Definition wrap (block : pystr) : pystr := TOOL_OPEN ++ block ++ TOOL_CLOSE.

Lemma solid_of (c : ascii) m : negb (existsb (Ascii.eqb c) m) = true -> solid (c :: m).
Proof.
  intros H. exists c, m. split; [done|]. intros Hin%list_elem_of_In. apply negb_true_iff in H.
  assert (existsb (Ascii.eqb c) m = true) as E; [|congruence]. apply existsb_exists. exists c. split; [done|]. apply Ascii.eqb_refl.
Qed.

Ltac solve_solid := apply solid_of; vm_compute; reflexivity.

(** The blocks of a text are found in order and cut out. *)
Lemma tool_blocks_wrap fuel content blocks :
  length blocks < fuel -> find TOOL_OPEN content = None -> Forall (fun b => find TOOL_CLOSE b = None) blocks ->
  tool_blocks fuel (content ++ concat (wrap <$> blocks)) = (strip <$> blocks, content).
Proof.
  revert content blocks. induction fuel as [|fuel IH]; intros content blocks Hf Hc Hb; [lia|]. destruct blocks as [|b blocks].
  - simpl. rewrite app_nil_r, Hc. done.
  - apply Forall_cons in Hb as [Hb Hbs]. change (concat (wrap <$> b :: blocks)) with ((TOOL_OPEN ++ b ++ TOOL_CLOSE) ++ concat (wrap <$> blocks)). rewrite <- !app_assoc.
    cbn [tool_blocks]. rewrite (find_marker TOOL_OPEN content) by (done || solve_solid).
    rewrite <- drop_drop, drop_app_length, drop_app_length.
    rewrite (find_marker TOOL_CLOSE b) by (done || solve_solid).
    rewrite <- drop_drop, !drop_app_length, !take_app_length.
    rewrite <- (app_nil_l (concat _)), IH by (done || simpl in Hf; lia). by rewrite app_nil_r.
Qed.

(** Text up to the closing tag is reasoning. *)
Lemma extract_reasoning_closed r rest :
  find END_THINK r = None -> find THINK r = None ->
  extract_reasoning (r ++ END_THINK ++ rest) = (or_none (strip r), rest).
Proof.
  intros He Ht. unfold extract_reasoning. rewrite find_marker by (done || solve_solid).
  assert (drop (length r + length END_THINK) (r ++ END_THINK ++ rest) = rest) as Hd by (rewrite <- drop_drop, !drop_app_length; done).
  assert (find THINK (strip r) = None) as Hts.
  { assert (exists a b, r = a ++ strip r ++ b) as (a & b & E).
    { assert (forall s, exists a, s = a ++ lstrip s) as Hl.
      { clear. induction s as [|c s [a IH]]; [by exists []|]. simpl. destruct (is_space c); [|by exists []]. exists (c :: a). by rewrite IH at 1. }
      destruct (Hl r) as [a Ha]. destruct (Hl (reverse (lstrip r))) as [b Hb]. exists a, (reverse b). unfold strip, rstrip.
      apply (f_equal reverse) in Hb. rewrite reverse_involutive, reverse_app in Hb. by rewrite <- Hb. }
    rewrite E in Ht. apply find_suffix_None in Ht. by apply find_prefix_None in Ht. }
  assert (drop_openers (length (strip r)) (strip r) = strip r) as Hdo.
  { destruct (strip r) as [|c s] eqn:Es; [done|]. simpl. unfold startswith. rewrite bool_decide_eq_false_2; [done|].
    intros Hp. rewrite find_None in Hts. apply (Hts 0). by apply occurs_at_0. }
  destruct (find THINK (r ++ END_THINK ++ rest)) as [i|] eqn:Ei.
  - rewrite decide_False; [rewrite take_app_length, Hdo, Hd; done|]. intros Hlt. apply find_Some in Ei as [Ho _].
    (* an opener before the closing tag would lie in [r], as the tags do not overlap *)
    destruct (decide (i + length THINK <= length r)) as [Hle|Hgt].
    { rewrite find_None in Ht. by apply (Ht i), (occurs_at_app_inv _ _ (END_THINK ++ rest)). }
    destruct Ho as [_ [k Hk]].
    assert ((r ++ END_THINK ++ rest) !! length r = Some (ascii_of_nat 60)) as H1 by (rewrite lookup_app_r, Nat.sub_diag by lia; done).
    assert ((r ++ END_THINK ++ rest) !! length r = (THINK ++ k) !! (length r - i)) as H2 by (rewrite <- Hk, lookup_drop; f_equal; lia).
    rewrite H1, lookup_app_l in H2 by lia. clear -H2 Hlt Hgt. assert (length THINK = 7) as HT by done.
    assert (exists n, length r - i = S n /\ n < 6) as (n & Hn' & Hn) by (exists (length r - i - 1); lia). rewrite Hn' in H2. clear Hn' Hlt Hgt.
    do 6 (destruct n as [|n]; [vm_compute in H2; discriminate|]). lia.
  - rewrite take_app_length, Hdo, Hd. done.
Qed.

Lemma length_concat_fmap {A B} (f : A -> list B) (l : list A) : (forall x, f x <> []) -> length l <= length (concat (f <$> l)).
Proof.
  intros Hf. induction l as [|x l IH]; [done|]. change (concat (f <$> x :: l)) with (f x ++ concat (f <$> l)). rewrite length_app.
  specialize (Hf x). destruct (f x); [done|]. simpl. lia.
Qed.

Lemma foldl_dict_put {A} (d l : list (pystr * A)) :
  NoDup ((fst <$> d) ++ (fst <$> l)) -> foldl (fun d p => dict_put (fst p) (snd p) d) d l = d ++ l.
Proof.
  revert d. induction l as [|[k v] l IH]; intros d Hnd; [by rewrite app_nil_r|]. simpl.
  assert (dict_put k v d = d ++ [(k, v)]) as ->.
  { csimpl in Hnd. clear IH. induction d as [|[k' v'] d IH]; [done|]. csimpl in Hnd. apply NoDup_cons in Hnd as [Hn Hnd]. simpl.
    rewrite decide_False by (intros ->; apply Hn, elem_of_app; right; left). by rewrite (IH Hnd). }
  rewrite IH; [by rewrite <- app_assoc|]. rewrite fmap_app. csimpl. by rewrite <- app_assoc.
Qed.

(** ** Declared types *)

(** [t] is a tool of this name, in OpenAI's or Anthropic's form, with these parameters. *)
Definition tool_named (name : pystr) (params : list (pystr * Json)) (t : Json) : Prop :=
  exists fields, t = JObj fields /\
    ((exists f, field "function" fields = Some (JObj f) /\ field "name" f = Some (JStr name) /\ field "parameters" f = Some (JObj params)) \/
     ((forall f, field "function" fields <> Some (JObj f)) /\ field "name" fields = Some (JStr name) /\ field "input_schema" fields = Some (JObj params))).

(** Schemas of strings: by [type], by a [type] list, by an alternative, by an [enum] of strings or of several types. *)
Inductive string_schema : Json -> Prop :=
  | schema_type fields : field "type" fields = Some (JStr (lit "string")) -> string_schema (JObj fields)
  | schema_types fields nulls l :
      field "type" fields = Some (JArr (nulls ++ JStr (lit "string") :: l)) -> Forall (fun j => j = JStr (lit "null")) nulls -> string_schema (JObj fields)
  | schema_any_of fields items f :
      field "type" fields = None -> field "anyOf" fields = Some (JArr items) -> JObj f ∈ items -> field "type" f = Some (JStr (lit "string")) ->
      string_schema (JObj fields)
  | schema_enum fields v vs :
      field "type" fields = None -> field "anyOf" fields = None -> field "oneOf" fields = None -> field "enum" fields = Some (JArr (v :: vs)) ->
      (exists w, w ∈ vs /\ enum_type w <> enum_type v) \/ (exists w, v = JStr w) -> string_schema (JObj fields).

(** The request's tools declare the argument to be a string: the first tool of that name does. *)
Definition declared_string (tools : option (list Json)) (name key : pystr) : Prop :=
  exists pre t post params props schema, tools = Some (pre ++ t :: post) /\ Forall (fun u => forall ps, ~ tool_named name ps u) pre /\ tool_named name params t /\
    field "properties" params = Some (JObj props) /\ dict_get key props = Some schema /\ string_schema schema.

(** They do not: there are no tools, none of that name, or the first of that name does not list the argument or
    gives it another [type]. *)
Inductive not_declared_string (tools : option (list Json)) (name key : pystr) : Prop :=
  | no_tools : tools = None -> not_declared_string tools name key
  | no_such_tool ts : tools = Some ts -> Forall (fun u => forall ps, ~ tool_named name ps u) ts -> not_declared_string tools name key
  | not_a_property pre t post params props :
      tools = Some (pre ++ t :: post) -> Forall (fun u => forall ps, ~ tool_named name ps u) pre -> tool_named name params t ->
      field "properties" params = Some (JObj props) -> dict_get key props = None -> not_declared_string tools name key
  | other_type pre t post params props fields ty :
      tools = Some (pre ++ t :: post) -> Forall (fun u => forall ps, ~ tool_named name ps u) pre -> tool_named name params t ->
      field "properties" params = Some (JObj props) -> dict_get key props = Some (JObj fields) -> field "type" fields = Some (JStr ty) -> ty <> lit "string" ->
      not_declared_string tools name key.

Lemma signature_named name params t :
  tool_named name params t <-> exists fields, t = JObj fields /\ tool_signature fields = (Some (JStr name), Some (JObj params)).
Proof.
  unfold tool_named, tool_signature. split; intros (fields & -> & H); exists fields; (split; [done|]).
  - destruct H as [(f & -> & -> & ->)|(Hn & -> & ->)]; [done|]. destruct (field "function" fields) as [[]|]; try done. by destruct (Hn fields0).
  - destruct (field "function" fields) as [[]|] eqn:E; try (right; by injection H as -> ->). left. exists fields0. by injection H as -> ->.
Qed.

(** The tools before the first of that name are skipped. *)
Lemma skip_tools name key pre ts : Forall (fun u => forall ps, ~ tool_named name ps u) pre -> get_argument_type name key (pre ++ ts) = get_argument_type name key ts.
Proof.
  intros Hp. induction Hp as [|u pre Hu _ IH]; [done|]. cbn [app get_argument_type]. destruct u; try exact IH.
  destruct (tool_signature fields) as [[[]|] [[]|]] eqn:E; try exact IH. case_decide as Hs; [|exact IH]. subst s. destruct (Hu fields0). apply signature_named. eauto.
Qed.

Lemma first_tool name key params t ts props :
  tool_named name params t -> field "properties" params = Some (JObj props) -> get_argument_type name key (t :: ts) = dict_get key props ≫= infer_json_schema_type.
Proof. intros (fields & -> & Hs)%signature_named Hp. cbn [get_argument_type]. rewrite Hs, decide_True by done. by rewrite Hp. Qed.

(** The types inferred for the members of a list field. *)
Definition list_types (fields : list (pystr * Json)) : list (pystr * list (option Json)) :=
  (fun p => (fst p, match snd p with JArr items => infer_json_schema_type <$> items | _ => [] end)) <$> fields.

Lemma dict_get_fmap {A B} (f : A -> B) k (d : list (pystr * A)) : dict_get k ((fun p => (fst p, f (snd p))) <$> d) = f <$> dict_get k d.
Proof.
  unfold dict_get. induction d as [|[k' v] d IH]; [done|]. cbn [fmap list_fmap list_find fst]. destruct (decide (k' = k)); [done|].
  destruct (list_find _ (_ <$> d)) as [[]|], (list_find _ d) as [[]|]; cbn in *; congruence.
Qed.

Lemma any_of_types fields items :
  field "anyOf" fields = Some (JArr items) -> default [] (dict_get (lit "anyOf") (list_types fields)) = infer_json_schema_type <$> items.
Proof. intros Hf. unfold list_types. rewrite (dict_get_fmap (fun j => match j with JArr items => infer_json_schema_type <$> items | _ => [] end)). unfold field in Hf. by rewrite Hf. Qed.

Lemma type_of_nulls nulls l : Forall (fun j => j = JStr (lit "null")) nulls -> type_of_list (nulls ++ JStr (lit "string") :: l) = JStr (lit "string").
Proof. intros Hn. induction Hn as [|j nulls -> _ IH]; [reflexivity|exact IH]. Qed.

Lemma infer_unfold fields : infer_json_schema_type (JObj fields) = infer_fields fields (list_types fields).
Proof.
  cbn [infer_json_schema_type]. f_equal. induction fields as [|[k v] fields IH]; [done|]. cbn [list_types fmap list_fmap fst snd]. unfold list_types in IH.
  destruct v; by rewrite IH.
Qed.

Lemma string_schema_inferred schema : string_schema schema -> infer_json_schema_type schema = Some (JStr (lit "string")).
Proof.
  intros Hs. destruct Hs as [fields Ht|fields nulls l Ht Hn|fields items f Ht Ha Hf Hft|fields v vs Ht Ha Ho He Hv]; rewrite infer_unfold; unfold infer_fields; rewrite Ht.
  - done.
  - pose proof (type_of_nulls nulls l Hn) as Hl. destruct (nulls ++ _) as [|x l'] eqn:E; [by destruct nulls|]. by rewrite Hl.
  - rewrite Ha. cbn [json_or fmap option_fmap option_map default from_option]. assert (truthy (JArr items) = true) as -> by (by destruct items; [apply elem_of_nil in Hf|]).
    cbn [id]. rewrite (any_of_types fields items Ha).
    assert (JStr (lit "string") ∈ omap id (infer_json_schema_type <$> items)) as Hin.
    { apply list_elem_of_omap. exists (Some (JStr (lit "string"))). split; [|done]. apply list_elem_of_fmap. exists (JObj f). split; [|done]. rewrite infer_unfold. unfold infer_fields. by rewrite Hft. }
    destruct (omap id _) as [|t ts] eqn:E; [by apply elem_of_nil in Hin|].
    assert (existsb (fun u => match u with JStr a => bool_decide (a = lit "string") | _ => false end) (t :: ts) = true) as ->.
    { apply existsb_exists. exists (JStr (lit "string")). split; [by apply list_elem_of_In|by apply bool_decide_eq_true_2]. }
    destruct (forallb _ ts) eqn:Ef; [|done]. apply elem_of_cons in Hin as [->|Hin]; [done|]. rewrite forallb_forall in Ef. apply list_elem_of_In, Ef in Hin.
    destruct t; try done. by apply bool_decide_eq_true in Hin as <-.
  - rewrite Ha, Ho. cbn [json_or]. rewrite He. destruct (forallb _ vs) eqn:Ef; [|done]. destruct Hv as [(w & Hw & Hne)|(w & ->)]; [|done].
    rewrite forallb_forall in Ef. apply list_elem_of_In, Ef, bool_decide_eq_true in Hw. done.
Qed.

Lemma declared_string_found tools name key : declared_string tools name key -> tools ≫= get_argument_type name key = Some (JStr (lit "string")).
Proof.
  intros (pre & t & post & params & props & schema & -> & Hp & Ht & Hpr & Hd & Hs). cbn [mbind option_bind]. rewrite skip_tools by done. erewrite first_tool by done. rewrite Hd. by apply string_schema_inferred.
Qed.

Lemma not_declared_found tools name key : not_declared_string tools name key -> tools ≫= get_argument_type name key <> Some (JStr (lit "string")).
Proof.
  intros [->|ts -> Hn|pre t post params props -> Hp Ht Hpr Hd|pre t post params props fields ty -> Hp Ht Hpr Hd Hty Hne]; [done|..]; cbn [mbind option_bind].
  - rewrite <- (app_nil_r ts), skip_tools by done. done.
  - rewrite skip_tools by done. erewrite first_tool by done. by rewrite Hd.
  - rewrite skip_tools by done. erewrite first_tool by done. rewrite Hd. cbn [mbind option_bind]. rewrite infer_unfold. unfold infer_fields. rewrite Hty. congruence.
Qed.

Section round_trip.
Context (json_loads : pystr -> option Json) (json_dumps : bool -> Json -> pystr) (py_str : Json -> pystr).

(** ** GLM *)

(** A call: its name, and for each argument its key, the text written for it and the value meant. *)
Definition values (args : list (pystr * (pystr * Json))) : list (pystr * Json) := (fun p => (fst p, snd (snd p))) <$> args.

Definition glm_arg (p : pystr * (pystr * Json)) : pystr := KEY_OPEN ++ fst p ++ KEY_CLOSE ++ VAL_OPEN ++ fst (snd p) ++ VAL_CLOSE.
Definition glm_block (call : pystr * list (pystr * (pystr * Json))) : pystr := fst call ++ concat (glm_arg <$> snd call).

(** What a text means for an argument: a text that is not JSON is a string; a JSON text is its
    value; where the tools declare a string, it is a string all the same: of the JSON string, of the JSON text of an
    array or an object, and of [str] of another value. *)
Inductive reads (tools : option (list Json)) (name key : pystr) (text : pystr) : Json -> Prop :=
  | reads_text : json_loads text = None -> reads tools name key text (JStr text)
  | reads_json j : json_loads text = Some j -> not_declared_string tools name key -> reads tools name key text j
  | reads_string s : json_loads text = Some (JStr s) -> reads tools name key text (JStr s)
  | reads_array l : json_loads text = Some (JArr l) -> declared_string tools name key -> reads tools name key text (JStr (json_dumps false (JArr l)))
  | reads_object f : json_loads text = Some (JObj f) -> declared_string tools name key -> reads tools name key text (JStr (json_dumps false (JObj f)))
  | reads_scalar j : json_loads text = Some j -> (match j with JStr _ | JArr _ | JObj _ => False | _ => True end) -> declared_string tools name key ->
      reads tools name key text (JStr (py_str j)).

(** Arguments the format can carry: no closing tag inside and no outer whitespace. *)
Record glm_carries (tools : option (list Json)) (name : pystr) (p : pystr * (pystr * Json)) : Prop := {
  gc_key : trimmed (fst p) /\ fst p <> [] /\ find KEY_CLOSE (fst p) = None;
  gc_value : trimmed (fst (snd p)) /\ find VAL_CLOSE (fst (snd p)) = None;
  gc_reads : reads tools name (fst p) (fst (snd p)) (snd (snd p))
}.

Record glm_sendable (tools : option (list Json)) (call : pystr * list (pystr * (pystr * Json))) : Prop := {
  gs_name : trimmed (fst call) /\ fst call <> [] /\ find KEY_OPEN (fst call) = None;
  gs_args : Forall (glm_carries tools (fst call)) (snd call);
  gs_keys : NoDup (fst <$> snd call);
  gs_close : find TOOL_CLOSE (glm_block call) = None
}.

Lemma key_end_render k rest : find KEY_CLOSE k = None -> key_end (k ++ KEY_CLOSE ++ VAL_OPEN ++ rest) = Some (k, rest).
Proof.
  induction k as [|c k IH]; intros Hk; [reflexivity|].
  assert (startswith ((c :: k) ++ KEY_CLOSE ++ VAL_OPEN ++ rest) KEY_CLOSE = false) as Hs.
  { unfold startswith. apply bool_decide_eq_false_2. intros Hp.
    pose proof (find_marker KEY_CLOSE (c :: k) (VAL_OPEN ++ rest) ltac:(solve_solid) Hk) as Hf.
    apply find_Some in Hf as [_ Hmin]. apply (Hmin 0); [simpl; lia|]. by apply occurs_at_0. }
  change ((c :: k) ++ KEY_CLOSE ++ VAL_OPEN ++ rest) with (c :: (k ++ KEY_CLOSE ++ VAL_OPEN ++ rest)) in *. cbn [key_end]. rewrite Hs. cbn [andb].
  rewrite IH; [done|]. by apply (find_suffix_None _ [c]).
Qed.

Lemma all_args_render tools name fuel args :
  length args < fuel -> Forall (glm_carries tools name) args ->
  all_args fuel (concat (glm_arg <$> args)) = (fun p => (fst p, fst (snd p))) <$> args.
Proof.
  revert args. induction fuel as [|fuel IH]; intros [|[k [v w]] args] Hf Ha; [simpl in Hf; lia|simpl in Hf; lia|done|].
  apply Forall_cons in Ha as [[(Hk & Hk0 & Hkc) [Hv Hvc] _] Ha]. cbn [fst snd] in *.
  change (concat (glm_arg <$> (k, (v, w)) :: args)) with ((KEY_OPEN ++ k ++ KEY_CLOSE ++ VAL_OPEN ++ v ++ VAL_CLOSE) ++ concat (glm_arg <$> args)).
  rewrite <- !app_assoc. cbn [all_args]. rewrite find_here. cbn [Nat.add]. rewrite drop_app_length.
  unfold arg_at. rewrite key_end_render by done. rewrite find_marker by (done || solve_solid). cbn [fmap option_fmap option_map].
  rewrite take_app_length, <- drop_drop, !drop_app_length. rewrite IH by (done || simpl in Hf; lia).
  csimpl. by rewrite !trimmed_strip by done.
Qed.

Lemma glm_value_kept tools name p :
  glm_carries tools name p -> coerce_glm_value json_loads json_dumps py_str (fst (snd p)) name (fst p) tools = snd (snd p).
Proof.
  destruct p as [k [v w]]. intros [_ [Hv _] Hr]. cbn [fst snd] in *. unfold coerce_glm_value, coerce_value. rewrite (trimmed_strip _ Hv).
  destruct Hr as [Hj|j Hj Hn%not_declared_found|st Hj|l Hj Hd%declared_string_found|f Hj Hd%declared_string_found|j Hj Hs Hd%declared_string_found]; rewrite Hj; cbn [default from_option id].
  - destruct (tools ≫= _) as [[]|]; try done. by case_decide.
  - destruct (tools ≫= _) as [[]|]; try done. case_decide; [congruence|done].
  - destruct (tools ≫= _) as [[]|]; try done. by case_decide.
  - by rewrite Hd.
  - by rewrite Hd.
  - rewrite Hd, decide_True by done. by destruct j.
Qed.

Lemma glm_call_render tools call :
  glm_sendable tools call ->
  glm_call json_loads json_dumps py_str tools (strip (glm_block call)) = Some (fst call, json_dumps false (JObj (values (snd call)))).
Proof.
  destruct call as [name args]. intros [(Hn & Hn0 & Hnk) Ha Hnd _]. cbn [fst snd] in *. unfold glm_block. cbn [fst snd].
  assert (trimmed (name ++ concat (glm_arg <$> args))) as Ht.
  { destruct args as [|a args] using rev_ind; [by rewrite app_nil_r|]. clear IHargs. destruct Hn as [Hn _].
    assert (concat (glm_arg <$> args ++ [a]) = (concat (glm_arg <$> args) ++ KEY_OPEN ++ fst a ++ KEY_CLOSE ++ VAL_OPEN ++ fst (snd a)) ++ VAL_CLOSE) as ->.
    { rewrite fmap_app, concat_app. cbn [fmap list_fmap concat]. unfold glm_arg. by rewrite app_nil_r, <- !app_assoc. }
    apply trimmed_app; [done| |done|apply rstrip_trimmed_app; [done|vm_compute; reflexivity]].
    intros [_ E]%app_eq_nil. done. }
  unfold glm_call. rewrite !(trimmed_strip _ Ht).
  assert (match find KEY_OPEN (name ++ concat (glm_arg <$> args)) with
          | Some i => (strip (take i (name ++ concat (glm_arg <$> args))), drop i (name ++ concat (glm_arg <$> args)))
          | None => (name ++ concat (glm_arg <$> args), [])
          end = (name, concat (glm_arg <$> args))) as ->.
  { destruct args as [|[k [v w]] args]; [cbn [fmap list_fmap concat]; by rewrite app_nil_r, Hnk|].
    change (concat (glm_arg <$> (k, (v, w)) :: args)) with ((KEY_OPEN ++ k ++ KEY_CLOSE ++ VAL_OPEN ++ v ++ VAL_CLOSE) ++ concat (glm_arg <$> args)).
    rewrite <- !app_assoc, find_marker by (done || solve_solid). by rewrite take_app_length, drop_app_length, trimmed_strip. }
  rewrite decide_False by done. do 4 f_equal.
  rewrite (all_args_render tools name); cycle 1.
  { pose proof (length_concat_fmap glm_arg args ltac:(done)). lia. }
  { done. }
  transitivity (foldl (fun d p => dict_put (fst p) (snd p) d) [] (values args)); [|rewrite foldl_dict_put; [done|]; unfold values; by rewrite <- list_fmap_compose].
  generalize (@nil (pystr * Json)). clear Hnd Ht. induction args as [|p args IH]; intros d; [done|]. apply Forall_cons in Ha as [Hp Ha]. csimpl.
  destruct Hp as [(Hk & Hk0 & Hkc) Hv Hj] eqn:Ep. rewrite (trimmed_strip _ Hk), decide_False by done. rewrite (glm_value_kept tools name p) by done. by apply IH.
Qed.

(** A completion in GLM's form is parsed back. *)
Lemma glm_calls_parsed tools r content calls :
  find END_THINK r = None -> find THINK r = None -> find TOOL_OPEN content = None -> Forall (glm_sendable tools) calls ->
  parse_glm json_loads json_dumps py_str tools (r ++ END_THINK ++ content ++ concat (wrap <$> (glm_block <$> calls))) =
  mk_parsed (or_none (strip content)) (or_none (strip r)) ((fun call => (fst call, json_dumps false (JObj (values (snd call))))) <$> calls).
Proof.
  intros He Ht Hc Hs. unfold parse_glm. rewrite extract_reasoning_closed by done. rewrite tool_blocks_wrap; cycle 1.
  - pose proof (length_concat_fmap wrap (glm_block <$> calls) ltac:(done)). rewrite length_app. lia.
  - done.
  - apply Forall_fmap. eapply Forall_impl; [exact Hs|]. by intros call [_ _ _ ?].
  - f_equal. clear -Hs. induction Hs as [|call calls Hcall _ IH]; [done|]. csimpl. rewrite (glm_call_render tools call Hcall). f_equal. exact IH.
Qed.

(** ** Qwen3 *)

Definition NL : ascii := ascii_of_nat 10.

Definition qwen_param (p : pystr * (pystr * Json)) : pystr :=
  PARAM_OPEN ++ fst p ++ [GT] ++ ([NL] ++ fst (snd p) ++ [NL]) ++ PARAM_CLOSE ++ [NL].
Definition qwen_body (args : list (pystr * (pystr * Json))) : pystr := [NL] ++ concat (qwen_param <$> args).
Definition qwen_inner (call : pystr * list (pystr * (pystr * Json))) : pystr := FUNC_OPEN ++ fst call ++ [GT] ++ qwen_body (snd call) ++ FUNC_CLOSE.
Definition qwen_block (call : pystr * list (pystr * (pystr * Json))) : pystr := [NL] ++ qwen_inner call ++ [NL].

(** A name of the format: not empty, without whitespace and [>]. *)
Definition plain_name (s : pystr) : Prop := s <> [] /\ Forall (fun c => c <> GT /\ is_space c = false) s.

Record qwen_carries (p : pystr * (pystr * Json)) : Prop := {
  qc_key : plain_name (fst p);
  qc_value : trimmed (fst (snd p)) /\ find PARAM_CLOSE ([NL] ++ fst (snd p) ++ [NL]) = None;
  qc_reads : reads None [] (fst p) (fst (snd p)) (snd (snd p))
}.

Record qwen_sendable (call : pystr * list (pystr * (pystr * Json))) : Prop := {
  qs_name : plain_name (fst call);
  qs_args : Forall qwen_carries (snd call);
  qs_keys : NoDup (fst <$> snd call);
  qs_func : find FUNC_CLOSE (qwen_body (snd call)) = None;
  qs_close : find TOOL_CLOSE (qwen_block call) = None
}.

Lemma span_plain name rest : plain_name name -> span_name (name ++ GT :: rest) = name.
Proof.
  intros [_ H]. induction H as [|c name [Hc Hs] _ IH]; [reflexivity|].
  cbn [span_name app]. rewrite decide_False by (intros [?|?]; congruence). by rewrite IH.
Qed.

Lemma plain_trimmed name : plain_name name -> trimmed name.
Proof.
  intros [H0 H]. split.
  - destruct H as [|c name [_ Hs] _]; [done|]. by apply lstrip_nonspace.
  - unfold rstrip. rewrite <- (reverse_involutive name) at 2. f_equal. destruct (reverse name) as [|c l] eqn:E; [done|].
    apply lstrip_nonspace. rewrite Forall_forall in H. apply H. apply elem_of_reverse. rewrite E. left.
Qed.

Lemma strip_newlines v : trimmed v -> strip ([NL] ++ v ++ [NL]) = v.
Proof.
  intros [Hl Hr]. unfold strip. change (lstrip ([NL] ++ v ++ [NL])) with (lstrip (v ++ [NL])). destruct (decide (v = [])) as [->|Hv]; [reflexivity|].
  rewrite lstrip_trimmed_app by done. unfold rstrip. rewrite reverse_app. change (lstrip (reverse [NL] ++ reverse v)) with (lstrip (reverse v)). exact Hr.
Qed.

Lemma tag_at_render close name body rest :
  plain_name name -> solid close -> find close body = None -> tag_at close (name ++ [GT] ++ body ++ close ++ rest) = Some (name, body, rest).
Proof.
  intros Hn Hs Hb. unfold tag_at. change ([GT] ++ body ++ close ++ rest) with (GT :: (body ++ close ++ rest)). rewrite span_plain by done.
  destruct name as [|c name]; [by destruct Hn|]. rewrite drop_app_length. rewrite lstrip_nonspace by reflexivity. rewrite decide_True by done.
  rewrite find_marker by done. simpl. by rewrite take_app_length, <- drop_drop, !drop_app_length.
Qed.

Lemma all_tags_render fuel args :
  length args < fuel -> Forall qwen_carries args ->
  all_tags fuel PARAM_OPEN PARAM_CLOSE (qwen_body args) = (fun p => (fst p, [NL] ++ fst (snd p) ++ [NL])) <$> args.
Proof.
  revert args. induction fuel as [|fuel IH]; intros [|[k [v w]] args] Hf Ha; [simpl in Hf; lia|simpl in Hf; lia|reflexivity|].
  apply Forall_cons in Ha as [[Hk [Hv Hvc] _] Ha]. cbn [fst snd] in *.
  assert (qwen_body ((k, (v, w)) :: args) = [NL] ++ PARAM_OPEN ++ k ++ [GT] ++ ([NL] ++ v ++ [NL]) ++ PARAM_CLOSE ++ qwen_body args) as ->.
  { unfold qwen_body. change (concat (qwen_param <$> (k, (v, w)) :: args)) with (qwen_param (k, (v, w)) ++ concat (qwen_param <$> args)). unfold qwen_param. cbn [fst snd].
    by rewrite <- !app_assoc. }
  cbn [all_tags]. cbn [search_tag]. rewrite (find_marker PARAM_OPEN [NL]) by (reflexivity || solve_solid).
  change (length [NL]) with 1. rewrite <- drop_drop. change (drop 1 ([NL] ++ ?l)) with l. rewrite drop_app_length.
  rewrite tag_at_render by (done || solve_solid). rewrite IH by (done || simpl in Hf; lia). done.
Qed.

Lemma qwen_value_kept p : qwen_carries p -> coerce_value json_loads ([NL] ++ fst (snd p) ++ [NL]) = snd (snd p).
Proof.
  destruct p as [k [v w]]. intros [_ [Hv _] Hr]. cbn [fst snd] in *. unfold coerce_value. rewrite strip_newlines by done.
  destruct Hr as [Hj|j Hj _|st Hj|l Hj Hd|f Hj Hd|j Hj _ Hd]; try (by rewrite Hj); by apply declared_string_found in Hd.
Qed.

Lemma qwen_call_render call :
  qwen_sendable call -> qwen_call json_loads json_dumps (strip (qwen_block call)) = Some (fst call, json_dumps true (JObj (values (snd call)))).
Proof.
  destruct call as [name args]. intros [Hn Ha Hnd Hf _]. cbn [fst snd] in *. unfold qwen_block.
  rewrite strip_newlines; cycle 1.
  { unfold qwen_inner. split; [by apply lstrip_trimmed_app|]. rewrite !app_assoc. by apply rstrip_trimmed_app. }
  unfold qwen_call, qwen_inner. cbn [fst snd]. cbn [search_tag]. rewrite find_here. cbn [Nat.add]. rewrite drop_app_length.
  pose proof (tag_at_render FUNC_CLOSE name (qwen_body args) [] Hn ltac:(solve_solid) Hf) as Ht. rewrite app_nil_r in Ht. rewrite Ht.
  rewrite trimmed_strip by (by apply plain_trimmed). rewrite decide_False by apply Hn. do 4 f_equal.
  rewrite all_tags_render; [|unfold qwen_body; rewrite length_app; pose proof (length_concat_fmap qwen_param args ltac:(done)); lia|done].
  transitivity (foldl (fun d p => dict_put (fst p) (snd p) d) [] (values args)); [|rewrite foldl_dict_put; [done|]; unfold values; by rewrite <- list_fmap_compose].
  generalize (@nil (pystr * Json)). clear Hnd Hf Ht. induction args as [|p args IH]; intros d; [done|]. apply Forall_cons in Ha as [Hp Ha].
  pose proof (qwen_value_kept p Hp) as Hv. destruct Hp as [Hk _ _]. cbn [fmap list_fmap foldl fst snd].
  rewrite (trimmed_strip _ (plain_trimmed _ Hk)), Hv. by apply IH.
Qed.

(** A completion in Qwen3's form is parsed back. *)
Lemma qwen_calls_parsed r content calls :
  find END_THINK r = None -> find THINK r = None -> find TOOL_OPEN content = None -> Forall qwen_sendable calls ->
  parse_qwen json_loads json_dumps (r ++ END_THINK ++ content ++ concat (wrap <$> (qwen_block <$> calls))) =
  mk_parsed (or_none (strip content)) (or_none (strip r)) ((fun call => (fst call, json_dumps true (JObj (values (snd call))))) <$> calls).
Proof.
  intros He Ht Hc Hs. unfold parse_qwen. rewrite extract_reasoning_closed by done. rewrite tool_blocks_wrap; cycle 1.
  - pose proof (length_concat_fmap wrap (qwen_block <$> calls) ltac:(done)). rewrite length_app. lia.
  - done.
  - apply Forall_fmap. eapply Forall_impl; [exact Hs|]. by intros call [_ _ _ _ ?].
  - f_equal. clear -Hs. induction Hs as [|call calls Hcall _ IH]; [done|]. csimpl. rewrite (qwen_call_render call Hcall). f_equal. exact IH.
Qed.

(** C18. Tool calls survive both XML formats.  A completion made of reasoning and its closing tag, text without
    a tool tag and any number of calls, written as GLM's key and value elements or as Qwen3's function and
    parameter elements, is parsed back into the trimmed reasoning, the trimmed text and the same calls in
    order, each with its arguments as one JSON object.  The texts of arguments have no outer whitespace
    and no closing tag of the format inside; otherwise they are arbitrary.  A text that is not
    JSON is kept as a string and a JSON text becomes its value; for GLM, when the first tool of
    that name in the request declares the argument a string (by [type], a [type] list, an alternative or an [enum]) a
    JSON text stays a string: of the text of an array or object as dumped again, and of
    [str] of a number, boolean or null. *)
Theorem tool_calls_round_trip tools r content calls :
  find END_THINK r = None -> find THINK r = None -> find TOOL_OPEN content = None ->
  (Forall (glm_sendable tools) calls ->
   parse_glm json_loads json_dumps py_str tools (r ++ END_THINK ++ content ++ concat (wrap <$> (glm_block <$> calls))) =
   mk_parsed (or_none (strip content)) (or_none (strip r)) ((fun call => (fst call, json_dumps false (JObj (values (snd call))))) <$> calls)) /\
  (Forall qwen_sendable calls ->
   parse_qwen json_loads json_dumps (r ++ END_THINK ++ content ++ concat (wrap <$> (qwen_block <$> calls))) =
   mk_parsed (or_none (strip content)) (or_none (strip r)) ((fun call => (fst call, json_dumps true (JObj (values (snd call))))) <$> calls)).
Proof. intros He Ht Hc. split; intros Hs; [by apply glm_calls_parsed|by apply qwen_calls_parsed]. Qed.
End round_trip.

(** ** Witness: two calls, one with a string, a number and a number declared as a string *)

Definition toy_loads (s : pystr) : option Json := if decide (s = lit "3") then Some (JInt 3) else None.
Definition toy_dumps (ascii_only : bool) (j : Json) : pystr :=
  match j with
  | JObj [(_, JStr _); (_, JInt 3); (_, JStr t)] => lit "{city, 3, '" ++ t ++ lit "'}"
  | JObj [(_, JStr _); (_, JInt 3); (_, JInt 3)] => lit "{city, 3, 3}"
  | _ => lit "{...}"
  end.
Definition toy_str (j : Json) : pystr := match j with JInt 3 => lit "3" | _ => [] end.
Definition toy_tools : list Json :=
  [JObj [(lit "type", JStr (lit "function")); (lit "function", JObj [(lit "name", JStr (lit "stop"))])];
   JObj [(lit "function", JObj [(lit "name", JStr (lit "weather"));
     (lit "parameters", JObj [(lit "properties", JObj [(lit "city", JObj [(lit "type", JStr (lit "string"))]); (lit "days", JObj [(lit "type", JStr (lit "integer"))]);
                                                       (lit "id", JObj [(lit "type", JArr [JStr (lit "null"); JStr (lit "string")])])])])])]].
Definition toy_calls (id : Json) : list (pystr * list (pystr * (pystr * Json))) :=
  [(lit "weather", [(lit "city", (lit "Tokyo < Osaka", JStr (lit "Tokyo < Osaka"))); (lit "days", (lit "3", JInt 3)); (lit "id", (lit "3", id))]); (lit "stop", [])].

Lemma toy_skipped : Forall (fun u => forall ps, ~ tool_named (lit "weather") ps u) (take 1 toy_tools).
Proof. apply Forall_singleton. intros ps (fields & [= <-] & [(f & [= <-] & [=] & _)|(Hn & _)]). by eapply Hn. Qed.

Lemma toy_named : tool_named (lit "weather") [(lit "properties", JObj [(lit "city", JObj [(lit "type", JStr (lit "string"))]); (lit "days", JObj [(lit "type", JStr (lit "integer"))]);
  (lit "id", JObj [(lit "type", JArr [JStr (lit "null"); JStr (lit "string")])])])] (default JNull (toy_tools !! 1)).
Proof. eexists. split; [reflexivity|]. left. eexists. split_and!; reflexivity. Qed.

Lemma toy_glm : Forall (glm_sendable toy_loads toy_dumps toy_str (Some toy_tools)) (toy_calls (JStr (lit "3"))).
Proof.
  repeat (apply Forall_cons; split); [| |constructor].
  - split; [repeat split; (vm_compute; reflexivity) || (vm_compute; discriminate)| | |vm_compute; reflexivity].
    + repeat (apply Forall_cons; split); [| | |constructor]; (split; [repeat split; (vm_compute; reflexivity) || (vm_compute; discriminate)|repeat split; vm_compute; reflexivity|]).
      * apply reads_text. vm_compute. reflexivity.
      * apply reads_json; [vm_compute; reflexivity|]. eapply (other_type _ _ _ (take 1 toy_tools) _ []); [reflexivity|apply toy_skipped|apply toy_named|reflexivity|reflexivity|reflexivity|vm_compute; discriminate].
      * apply (reads_scalar toy_loads toy_dumps toy_str _ _ _ _ (JInt 3)); [vm_compute; reflexivity|exact I|]. exists (take 1 toy_tools), (default JNull (toy_tools !! 1)), []. do 3 eexists.
        split_and!; [reflexivity|apply toy_skipped|apply toy_named|reflexivity|reflexivity|]. eapply (schema_types _ [JStr (lit "null")] []); [reflexivity|by apply Forall_singleton].
    + repeat (apply NoDup_cons; split); rewrite ?not_elem_of_cons; split_and?; try apply not_elem_of_nil; try (vm_compute; discriminate). constructor.
  - split; [repeat split; (vm_compute; reflexivity) || (vm_compute; discriminate)|constructor|constructor|vm_compute; reflexivity].
Qed.

Lemma toy_qwen : Forall (qwen_sendable toy_loads toy_dumps toy_str) (toy_calls (JInt 3)).
Proof.
  assert (forall s, negb (bool_decide (s = [])) && forallb (fun c => negb (bool_decide (c = GT)) && negb (is_space c)) s = true -> plain_name s) as Hp.
  { intros s [H0 H]%andb_true_iff. split; [by intros ->|]. apply Forall_forall. intros c Hc%list_elem_of_In. rewrite forallb_forall in H.
    apply H, andb_true_iff in Hc as [H1 H2]. apply negb_true_iff, bool_decide_eq_false in H1. by apply negb_true_iff in H2. }
  repeat (apply Forall_cons; split); [| |constructor].
  - split; [apply Hp; vm_compute; reflexivity| | |vm_compute; reflexivity|vm_compute; reflexivity].
    + repeat (apply Forall_cons; split); [| | |constructor]; (split; [apply Hp; vm_compute; reflexivity|repeat split; vm_compute; reflexivity|]).
      * apply reads_text. vm_compute. reflexivity.
      * apply reads_json; [vm_compute; reflexivity|by apply no_tools].
      * apply reads_json; [vm_compute; reflexivity|by apply no_tools].
    + repeat (apply NoDup_cons; split); rewrite ?not_elem_of_cons; split_and?; try apply not_elem_of_nil; try (vm_compute; discriminate). constructor.
  - split; [apply Hp; vm_compute; reflexivity|constructor|constructor|vm_compute; reflexivity|vm_compute; reflexivity].
Qed.

Lemma tool_calls_round_trip_witness :
  parse_glm toy_loads toy_dumps toy_str (Some toy_tools) (lit "plan " ++ END_THINK ++ lit " Hello " ++ concat (wrap <$> (glm_block <$> toy_calls (JStr (lit "3"))))) =
    mk_parsed (Some (lit "Hello")) (Some (lit "plan")) [(lit "weather", lit "{city, 3, '3'}"); (lit "stop", lit "{...}")] /\
  parse_qwen toy_loads toy_dumps (lit "plan " ++ END_THINK ++ lit " Hello " ++ concat (wrap <$> (qwen_block <$> toy_calls (JInt 3)))) =
    mk_parsed (Some (lit "Hello")) (Some (lit "plan")) [(lit "weather", lit "{city, 3, 3}"); (lit "stop", lit "{...}")].
Proof.
  destruct (tool_calls_round_trip toy_loads toy_dumps toy_str (Some toy_tools) (lit "plan ") (lit " Hello ") (toy_calls (JStr (lit "3")))) as [Hg _];
    [vm_compute; reflexivity|vm_compute; reflexivity|vm_compute; reflexivity|].
  destruct (tool_calls_round_trip toy_loads toy_dumps toy_str None (lit "plan ") (lit " Hello ") (toy_calls (JInt 3))) as [_ Hq];
    [vm_compute; reflexivity|vm_compute; reflexivity|vm_compute; reflexivity|].
  split; [exact (Hg toy_glm)|exact (Hq toy_qwen)].
Defined.

(** A JSON text with a closing tag inside a string is read to its real end. *)
Example hermes_nested :
  json_blocks 100 (lit "a<tool_call> {1}</tool_call2>}  </tool_call>b") = ([lit "{1}</tool_call2>}"], lit "ab").
Proof. vm_compute. reflexivity. Qed.

(** The declared type of an argument in a schema with alternatives. *)
Example infer_alternatives :
  infer_json_schema_type (JObj [(lit "anyOf", JArr [JObj [(lit "type", JStr (lit "array"))]; JObj [(lit "type", JArr [JStr (lit "null"); JStr (lit "string")])]])]) =
  Some (JStr (lit "string")).
Proof. vm_compute. reflexivity. Qed.

Example detect_glm5 : detect_parser_name (lit "/models/GLM-5.3") (lit "chat") (Some (lit "<function=")) = lit "glm47".
Proof. vm_compute. reflexivity. Qed.
