(* ===== verification/EngineIpc.v ===== *)
(** The engine process and its client: the backend loop and frontend of
    [dlengine/server/engine_server.py], the peer-to-peer control sends of
    [dlengine/engine/llm_component.py], the message helpers of [dlengine/server/wire.py],
    the client [dlengine/server/zmq_engine_client.py], and the request operations of
    [dlengine/server/openai_server.py] that drive it.

    The engine (a Rust scheduler behind [LLMComponent]) and the binary encoding (Rust) are
    interfaces: the classes [EngineOps] and [Wire], with the laws of [WireLaws]. *)

From S2P Require Import Prelude PyStr.

(** * [wire.py] *)

Inductive SequenceStatus := WAITING | RUNNING | FINISHED | TO_BE_MIGRATED | PREFILLING.

#[export] Instance status_eq_dec : EqDecision SequenceStatus.
Proof. solve_decision. Defined.

(** [int(status)] *)
Definition status_code (s : SequenceStatus) : Z :=
  match s with WAITING => 0 | RUNNING => 1 | FINISHED => 2 | TO_BE_MIGRATED => 3 | PREFILLING => 4 end.

Definition is_terminal (s : SequenceStatus) : bool := bool_decide (s = FINISHED).

(** The encoding of packets and of their payloads; [None] is a raised exception.  A step
    output is a sequence id, its tokens and a status. *)
Class Wire (B : Type) := {
  encode_packet : Z -> B -> B;
  decode_packet : B -> option (Z * B);
  encode_stepout : Z -> list Z -> Z -> option B;
  decode_stepout : B -> option (Z * list Z * Z);
  encode_free_sequences : list Z -> pystr -> option B;
  decode_free_sequences : B -> option (list Z * pystr);
  encode_free_vision_slots : pystr -> list Z -> pystr -> option B;
  (** [pd.RequestIn.from_bytes] succeeds *)
  is_request_in : B -> bool;
  (** [pd.RequestMigrate.from_bytes(payload).metadata]: sequence id and first token *)
  migrate_metadata : B -> option (Z * Z)
}.

(** What a step output can hold: an unsigned 64-bit id and signed 32-bit tokens. *)
Definition stepout_in_range (seq_id : Z) (token_ids : list Z) : Prop :=
  (0 <= seq_id < 2 ^ 64)%Z /\ Forall (fun t => - 2 ^ 31 <= t < 2 ^ 31)%Z token_ids.

Class WireLaws (B : Type) `{Wire B} := {
  packet_roundtrip a p : decode_packet (encode_packet a p) = Some (a, p);
  stepout_roundtrip s ts st : stepout_in_range s ts ->
    exists b, encode_stepout s ts (status_code st) = Some b /\ decode_stepout b = Some (s, ts, status_code st)
}.

(** [StepOut.token_id]: the last token, 0 when there is none. *)
Definition token_id (token_ids : list Z) : Z := default 0%Z (last token_ids).

(** * Peer-to-peer control messages: [LLMComponent] *)

(** The JSON object a peer publishes. *)
Record Info := mk_info {
  i_id : option pystr; i_num_blocks : option Z; i_world_size : option Z;
  i_peer_addrs : option (list pystr); i_p2p_host : option pystr; i_p2p_port : option Z
}.

Record PeerInfo := mk_peer {
  num_blocks : Z; world_size : Z; peer_addrs : list pystr; p2p_host : pystr; p2p_port : Z
}.

(** What the registry answers: an exception, nothing, or an entity with its metadata. *)
Inductive Fetch := FetchRaises | NotFound | Found (entity_id : option pystr) (metadata : option Info).

(** A control packet on its way: the endpoint, the action and the ids. *)
Record Sent := mk_sent { s_host : pystr; s_port : Z; s_action : Z; s_ids : list Z }.

Record Component := mk_component {
  engine_id : pystr;
  has_nanoctrl : bool;
  peer_info : gmap pystr PeerInfo;
  p2p_clients : gmap pystr (pystr * Z);
  sent : list Sent
}.

(** [set_peer_info] *)
Definition set_peer_info (i : Info) (c : Component) : Component :=
  mk_component (engine_id c) (has_nanoctrl c)
    (<[default [] (i_id i) :=
       mk_peer (default 0%Z (i_num_blocks i)) (default 1%Z (i_world_size i)) (default [] (i_peer_addrs i))
               (default [] (i_p2p_host i)) (default 0%Z (i_p2p_port i))]> (peer_info c))
    (p2p_clients c) (sent c).

Definition no_info : Info := mk_info None None None None None None.

(** [engine_info.setdefault("id", ...)] *)
Definition setdefault_id (d : pystr) (i : Info) : Info :=
  mk_info (Some (default d (i_id i))) (i_num_blocks i) (i_world_size i) (i_peer_addrs i) (i_p2p_host i) (i_p2p_port i).

(** [_fetch_peer_info_from_ctrl]; [None] when the registry call raises. *)
Definition fetch_peer_info (get_entity_info : pystr -> Fetch) (target : pystr) (c : Component) : option (bool * Component) :=
  if has_nanoctrl c then
    match get_entity_info target with
    | FetchRaises => None
    | NotFound => Some (false, c)
    | Found entity metadata =>
        Some (true, set_peer_info (setdefault_id (default target entity) (default no_info metadata)) c)
    end
  else Some (false, c).

(** The common body of [send_free_sequences] and [send_free_vision_slots] after the check
    for an empty list: find the peer, connect, send.  [send_ok] is whether the socket
    accepts the packet.  The result tells whether an exception was raised. *)
Definition p2p_send (get_entity_info : pystr -> Fetch) (send_ok : bool) (action : Z)
    (target : pystr) (ids : list Z) (c : Component) : bool * Component :=
  let found := match peer_info c !! target with
               | Some _ => Some (true, c)
               | None => fetch_peer_info get_entity_info target c
               end in
  match found with
  | None => (true, c)
  | Some (false, c) => (false, c)
  | Some (true, c) =>
      match peer_info c !! target with
      | None => (true, c)
      | Some p =>
          if bool_decide (p2p_host p = []) || (p2p_port p =? 0)%Z then (false, c)
          else
            let endpoint := default (p2p_host p, p2p_port p) (p2p_clients c !! target) in
            if send_ok then
              (false, mk_component (engine_id c) (has_nanoctrl c) (peer_info c)
                        (<[target := endpoint]> (p2p_clients c))
                        (sent c ++ [mk_sent endpoint.1 endpoint.2 action ids]))
            else (false, mk_component (engine_id c) (has_nanoctrl c) (peer_info c)
                           (delete target (p2p_clients c)) (sent c))
      end
  end.

Definition send_free_sequences get_entity_info send_ok (target : pystr) (seq_ids : list Z) (c : Component) :=
  if bool_decide (seq_ids = []) then (false, c) else p2p_send get_entity_info send_ok 3 target seq_ids c.

Definition send_free_vision_slots get_entity_info send_ok (target : pystr) (slots : list Z) (c : Component) :=
  if bool_decide (slots = []) then (false, c) else p2p_send get_entity_info send_ok 4 target slots c.

(** * The backend loop: [BackendService] and [run_engine_backend] *)

Section backend.
Context {B : Type} `{Wire B}.

(** One entry of [result.outputs]. *)
Record Event := mk_event {
  seq_id : Z;
  token_ids : option (list Z);
  last_token : Z;
  num_tokens : Z;
  is_finished : bool;
  is_to_be_migrated : bool;
  is_new_running : bool;
  source_engine_id : pystr;
  migration_payload : option B;
  vision_slots : list (pystr * Z)
}.

(** [_event_token_ids] *)
Definition event_token_ids (e : Event) : list Z :=
  match token_ids e with
  | Some ((_ :: _) as ts) => ts
  | _ => if is_new_running e then []
         else if (0 <? num_tokens e)%Z then [last_token e] else []
  end.

(** The engine as the backend uses it.  Every operation returns the engine it leaves, and
    [None] or [false] when it raises. *)
Class EngineOps (E : Type) := {
  add_request_payload : B -> E -> E * bool;
  free_to_be_migrated_ids : Z -> E -> E * bool;
  abort : list Z -> E -> E * option (list Z);
  get_engine_info : E -> option B;
  has_scheduler : E -> bool;
  metrics_prometheus : E -> option B;
  start_profiler : B -> E -> E * B;
  stop_profiler : E -> E * B;
  empty_bytes : B;
  has_runnable_work : E -> bool;
  engine_step : bool -> gset Z -> E -> E * option (list Event)
}.

Context {E : Type} `{EngineOps E}.

(** What is put on [results_queue]. *)
Inductive Result :=
  | Response (action : Z) (payload : B)
  | StepoutBatch (entries : list (Z * list Z * SequenceStatus)).

Record Backend := mk_backend {
  engine : E;
  component : Component;
  results : list Result;
  previous_running : gset Z;
  freed : gset Z
}.

Definition set_engine (e : E) (b : Backend) : Backend :=
  mk_backend e (component b) (results b) (previous_running b) (freed b).
Definition set_component (c : Component) (b : Backend) : Backend :=
  mk_backend (engine b) c (results b) (previous_running b) (freed b).
Definition put_results (rs : list Result) (b : Backend) : Backend :=
  mk_backend (engine b) (component b) (results b ++ rs) (previous_running b) (freed b).
Definition set_freed (f : gset Z) (b : Backend) : Backend :=
  mk_backend (engine b) (component b) (results b) (previous_running b) f.
Definition set_previous (r : gset Z) (b : Backend) : Backend :=
  mk_backend (engine b) (component b) (results b) r (freed b).

Definition send_response (action : Z) (payload : B) (b : Backend) : Backend := put_results [Response action payload] b.

(** The handlers; a flag tells whether an exception leaves them (it is then logged by the
    loop). *)

Definition handle_add_request (payload : B) (b : Backend) : Backend * bool :=
  if is_request_in payload || bool_decide (is_Some (migrate_metadata payload)) then
    let '(e, ok) := add_request_payload payload (engine b) in (set_engine e b, ok)
  else (b, false).

Definition handle_get_info (b : Backend) : Backend * bool :=
  match get_engine_info (engine b) with
  | Some payload => (send_response 2 payload b, true)
  | None => (b, false)
  end.

Definition handle_get_metrics (b : Backend) : Backend * bool :=
  let payload := if has_scheduler (engine b) then default empty_bytes (metrics_prometheus (engine b))
                 else empty_bytes in
  (send_response 6 payload b, true).

(** [_handle_profiler_control]; the response (success or failure as JSON) is the engine's. *)
Definition handle_profiler_control (action : Z) (payload : B) (b : Backend) : Backend * bool :=
  let '(e, response) := if (action =? 7)%Z then start_profiler payload (engine b) else stop_profiler (engine b) in
  (send_response action response (set_engine e b), true).

(** [_handle_free_sequences]: a failure for one id is logged and the others still freed. *)
Definition handle_free_sequences (payload : B) (b : Backend) : Backend * bool :=
  match decode_free_sequences payload with
  | Some (seq_ids, _) =>
      (foldl (fun b s => set_engine (fst (free_to_be_migrated_ids s (engine b))) b) b seq_ids, true)
  | None => (b, true)
  end.

(** The [for] loop of [_handle_abort]; encoding a step output may raise, which ends it. *)
Fixpoint abort_stepouts (aborted : list Z) (b : Backend) : Backend :=
  match aborted with
  | [] => b
  | s :: aborted =>
      match encode_stepout s [] (status_code FINISHED) with
      | Some payload =>
          let b := send_response 0 payload b in abort_stepouts aborted (set_freed (freed b ∖ {[s]}) b)
      | None => b
      end
  end.

Definition handle_abort (payload : B) (b : Backend) : Backend * bool :=
  match decode_free_sequences payload with
  | Some ([], _) | None => (b, true)
  | Some (seq_ids, _) =>
      match abort seq_ids (engine b) with
      | (e, Some aborted) => (abort_stepouts aborted (set_engine e b), true)
      | (e, None) => (set_engine e b, true)
      end
  end.

(** The dispatch of one drained request. *)
Definition handle_request (action : Z) (payload : B) (b : Backend) : Backend * bool :=
  if (action =? 1)%Z then handle_add_request payload b
  else if (action =? 2)%Z then handle_get_info b
  else if (action =? 6)%Z then handle_get_metrics b
  else if (action =? 7)%Z || (action =? 8)%Z then handle_profiler_control action payload b
  else if (action =? 3)%Z then handle_free_sequences payload b
  else if (action =? 5)%Z then handle_abort payload b
  else (b, true).

(** [_send_p2p_free_if_migrated] *)
Definition send_p2p_free_if_migrated (get_entity_info : pystr -> Fetch) (send_ok : bool)
    (s : Z) (source : pystr) (b : Backend) : Backend :=
  if decide (s ∈ freed b) then b
  else if bool_decide (source = []) then b
  else match send_free_sequences get_entity_info send_ok source [s] (component b) with
       | (true, c) => set_component c b
       | (false, c) => set_freed ({[s]} ∪ freed b) (set_component c b)
       end.

(** What the loop over a step's events collects. *)
Record StepAcc := mk_acc {
  current_running : gset Z;
  newly_appeared : list (Z * pystr);
  stepout_batch : list (Z * list Z * SequenceStatus);
  vision_free : list (pystr * list Z)
}.

(** The body of the loop over [result.outputs]. *)
Definition process_event (track_running : bool) (ab : StepAcc * Backend) (e : Event) : StepAcc * Backend :=
  let '(a, b) := ab in
  (* [vision_free_by_encoder\[encoder\].append(slot)] on a [defaultdict(list)] *)
  let vision := foldl (fun d '(enc, slot) => assoc_append enc slot d) (vision_free a) (vision_slots e) in
  let running := if track_running then {[seq_id e]} ∪ current_running a else current_running a in
  let newly := if is_new_running e then newly_appeared a ++ [(seq_id e, source_engine_id e)] else newly_appeared a in
  if is_finished e then
    (mk_acc running newly (stepout_batch a ++ [(seq_id e, event_token_ids e, FINISHED)]) vision,
     set_freed (freed b ∖ {[seq_id e]}) b)
  else if is_to_be_migrated e then
    (mk_acc running newly (stepout_batch a) vision,
     match migration_payload e with Some p => send_response 1 p b | None => b end)
  else match event_token_ids e with
       | [] => (mk_acc running newly (stepout_batch a) vision, b)
       | ts => (mk_acc running newly (stepout_batch a ++ [(seq_id e, ts, RUNNING)]) vision, b)
       end.

Definition send_stepout_batch (entries : list (Z * list Z * SequenceStatus)) (b : Backend) : Backend :=
  match entries with [] => b | _ => put_results [StepoutBatch entries] b end.

(** Everything the loop does with a step's events; [send_ok] says for each target whether
    its socket accepts a packet. *)
Definition emit_step (get_entity_info : pystr -> Fetch) (send_ok : pystr -> bool) (track_running : bool)
    (outputs : list Event) (b : Backend) : Backend :=
  let '(a, b) := foldl (process_event track_running) (mk_acc ∅ [] [] [], b) outputs in
  let b := send_stepout_batch (stepout_batch a) b in
  let b := foldl (fun b '(s, source) =>
                    if bool_decide (source = []) then b
                    else send_p2p_free_if_migrated get_entity_info (send_ok source) s source b) b (newly_appeared a) in
  let b := foldl (fun b '(enc, slots) =>
                    set_component (snd (send_free_vision_slots get_entity_info (send_ok enc) enc slots (component b))) b)
             b (vision_free a) in
  set_previous (current_running a) b.

(** One round of [run_engine_backend] after draining the given requests. *)
Definition backend_round (get_entity_info : pystr -> Fetch) (send_ok : pystr -> bool) (track_running : bool)
    (requests : list (Z * B)) (b : Backend) : Backend :=
  let b := foldl (fun b '(action, payload) => fst (handle_request action payload b)) b requests in
  if has_runnable_work (engine b) then
    match engine_step track_running (previous_running b) (engine b) with
    | (e, Some outputs) => emit_step get_entity_info send_ok track_running outputs (set_engine e b)
    | (e, None) => set_engine e b
    end
  else b.

(** * The frontend's [results_loop] *)

(** The packets sent for a step's batch, and whether all were: encoding may raise, which
    ends the loop. *)
Fixpoint send_batch (entries : list (Z * list Z * SequenceStatus)) : list B * bool :=
  match entries with
  | [] => ([], true)
  | (s, ts, st) :: entries =>
      match encode_stepout s ts (status_code st) with
      | Some payload => let '(ps, ok) := send_batch entries in (encode_packet 0 payload :: ps, ok)
      | None => ([], false)
      end
  end.

Fixpoint results_loop (rs : list Result) : list B :=
  match rs with
  | [] => []
  | Response action payload :: rs => encode_packet action payload :: results_loop rs
  | StepoutBatch entries :: rs =>
      let '(ps, ok) := send_batch entries in if ok then ps ++ results_loop rs else ps
  end.
End backend.

(** * The client: [ZmqEngineWorker] *)

Section client.
Context {B : Type} `{Wire B} {SP : Type}.

(** Items of a request's queue; [Close] is the [None] that ends it. *)
Inductive Item :=
  | Tokens (ts : list Z)
  | Finish
  | Migration (payload : B) (first_token : Z) (seq : Z)
  | Close.

(** A future: unresolved, resolved, or failed. *)
Inductive Future := Pending | Resolved (payload : B) | Failed.

(** What [_outbox] holds: a request object, or encoded bytes. *)
Inductive OutItem :=
  | ORequestIn (seq : Z) (prompt_ids : list Z) (sampling_params : SP) (affinity_key : Z)
  | ORequestMigrate (payload : B)
  | OBytes (payload : B).

(** The worker.  Requests are objects: [queues] holds the queue of each, by its number,
    and [active] maps a sequence id to the number of a request. *)
Record Worker := mk_worker {
  queues : list (list Item);
  active : gmap Z nat;
  outbox : list (Z * OutItem);
  worker_engine_id : option pystr;
  ready : bool;
  metrics_future : option Future;
  profiler_future : option Future
}.

Definition set_queues (q : list (list Item)) (a : gmap Z nat) (w : Worker) : Worker :=
  mk_worker q a (outbox w) (worker_engine_id w) (ready w) (metrics_future w) (profiler_future w).
Definition put_outbox (action : Z) (item : OutItem) (w : Worker) : Worker :=
  mk_worker (queues w) (active w) (outbox w ++ [(action, item)]) (worker_engine_id w) (ready w)
    (metrics_future w) (profiler_future w).
Definition set_metrics (f : option Future) (w : Worker) : Worker :=
  mk_worker (queues w) (active w) (outbox w) (worker_engine_id w) (ready w) f (profiler_future w).
Definition set_profiler (f : option Future) (w : Worker) : Worker :=
  mk_worker (queues w) (active w) (outbox w) (worker_engine_id w) (ready w) (metrics_future w) f.

(** [__init__] and the queueing of [start]. *)
Definition new_worker (empty : B) : Worker := mk_worker [] ∅ [(2%Z, OBytes empty)] None false None None.

(** [_push] *)
Definition push (h : nat) (items : list Item) (w : Worker) : Worker :=
  set_queues (alter (fun q => q ++ items) h (queues w)) (active w) w.

Definition pop_active (s : Z) (w : Worker) : Worker := set_queues (queues w) (delete s (active w)) w.

(** [submit] on a new request object whose queue already holds [q]. *)
Definition submit (s : Z) (q : list Item) (payload : OutItem) (w : Worker) : Worker :=
  put_outbox 1 payload (set_queues (queues w ++ [q]) (<[s := length (queues w)]> (active w)) w).

(** [free_sequences] and the engine-side part of [abort]; [None] when encoding raises. *)
Definition free_sequences (seq_ids : list Z) (w : Worker) : option Worker :=
  if bool_decide (seq_ids = []) then Some w
  else (fun p => put_outbox 3 (OBytes p) w) <$> encode_free_sequences seq_ids (default [] (worker_engine_id w)).

Definition abort_local (s : Z) (w : Worker) : Worker :=
  match active w !! s with
  | Some h => push h [Finish; Close] (pop_active s w)
  | None => w
  end.

(** [abort]: the request is finalised even when queueing the packet raises. *)
Definition worker_abort (s : Z) (w : Worker) : Worker :=
  let w := abort_local s w in
  match encode_free_sequences [s] (default [] (worker_engine_id w)) with
  | Some p => put_outbox 5 (OBytes p) w
  | None => w
  end.

(** [get_metrics] and [_profiler_control] up to the wait, and their [finally]. *)
Definition metrics_begin (empty : B) (w : Worker) : Worker := put_outbox 6 (OBytes empty) (set_metrics (Some Pending) w).
Definition metrics_end (w : Worker) : Worker := set_metrics None w.
Definition profiler_begin (action : Z) (payload : B) (w : Worker) : Worker :=
  put_outbox action (OBytes payload) (set_profiler (Some Pending) w).
Definition profiler_end (w : Worker) : Worker := set_profiler None w.

(** [_handle_stepout]: [step.token_ids or \[step.token_id\]]. *)
Definition step_tokens (ts : list Z) : list Z := match ts with [] => [token_id ts] | _ => ts end.

Definition handle_stepout (payload : B) (w : Worker) : Worker :=
  match decode_stepout payload with
  | None => w
  | Some (s, ts, status) =>
      match active w !! s with
      | None => w
      | Some h =>
          let w := match step_tokens ts with [] => w | tokens => push h [Tokens tokens] w end in
          if (status =? status_code FINISHED)%Z then pop_active s (push h [Finish; Close] w) else w
      end
  end.

Definition handle_migration (payload : B) (w : Worker) : Worker :=
  match migrate_metadata payload with
  | None => w
  | Some (s, first_token) =>
      match active w !! s with
      | None => w
      | Some h => pop_active s (push h [Migration payload first_token s; Close] w)
      end
  end.

(** [_handle_engine_info]; [parse_info] is the id in the JSON, [None] when it does not parse. *)
Definition handle_engine_info (parse_info : B -> option (option pystr)) (payload : B) (w : Worker) : Worker :=
  let id := match parse_info payload with Some id => id | None => worker_engine_id w end in
  mk_worker (queues w) (active w) (outbox w) id true (metrics_future w) (profiler_future w).

(** Resolving a future once; [valid] is whether the payload decodes. *)
Definition resolve (valid : B -> bool) (payload : B) (f : option Future) : option Future :=
  match f with
  | Some Pending => Some (if valid payload then Resolved payload else Failed)
  | _ => f
  end.

Definition handle_engine_metrics (is_utf8 : B -> bool) (payload : B) (w : Worker) : Worker :=
  set_metrics (resolve is_utf8 payload (metrics_future w)) w.
Definition handle_profiler_response (is_json : B -> bool) (payload : B) (w : Worker) : Worker :=
  set_profiler (resolve is_json payload (profiler_future w)) w.

Context (parse_info : B -> option (option pystr)) (is_utf8 is_json : B -> bool).

(** The body of [_recv_loop]. *)
Definition recv (data : B) (w : Worker) : Worker :=
  match decode_packet data with
  | None => w
  | Some (action, payload) =>
      if (action =? 0)%Z then handle_stepout payload w
      else if (action =? 1)%Z then handle_migration payload w
      else if (action =? 2)%Z then handle_engine_info parse_info payload w
      else if (action =? 6)%Z then handle_engine_metrics is_utf8 payload w
      else if (action =? 7)%Z || (action =? 8)%Z then handle_profiler_response is_json payload w
      else w
  end.

(** The body of [_send_loop]: the next packet, if any; a payload that cannot be encoded is
    logged and skipped. *)
Definition send_next (to_bytes : OutItem -> option B) (w : Worker) : option (option B * Worker) :=
  match outbox w with
  | [] => None
  | (action, item) :: rest =>
      Some ((encode_packet action) <$> to_bytes item,
            mk_worker (queues w) (active w) rest (worker_engine_id w) (ready w) (metrics_future w) (profiler_future w))
  end.

(** * The server's requests: [OpenAIServer.submit], [submit_migrated], [await_migration] *)

Record Server := mk_server { worker : Worker; next_seq_id : Z }.

Definition SEQ_ID_BASE : Z := 1024.

Definition server_submit (prompt_ids : list Z) (sampling_params : SP) (affinity_key : Z) (sv : Server) : Server :=
  mk_server (submit (next_seq_id sv) [] (ORequestIn (next_seq_id sv) prompt_ids sampling_params affinity_key) (worker sv))
    (next_seq_id sv + 1).

(** [submit_migrated]: the prefill token is queued first; [None] when the payload does not
    decode, which raises before the request is registered. *)
Definition server_submit_migrated (payload : B) (s : Z) (first_token : option Z) (sv : Server) : option Server :=
  match migrate_metadata payload with
  | None => None
  | Some _ =>
      let q := match first_token with Some t => [Tokens [t]] | None => [] end in
      Some (mk_server (submit s q (ORequestMigrate payload) (worker sv)) (next_seq_id sv))
  end.

(** [await_migration] over the items of the queue; [None] while it waits for more. *)
Inductive Handoff := Migrated (payload : B) (first_token seq : Z) | FinishedLocally (tokens : list Z).

Fixpoint await_migration (tokens : list Z) (q : list Item) : option Handoff :=
  match q with
  | [] => None
  | Close :: _ => Some (FinishedLocally tokens)
  | Migration p t s :: _ => Some (Migrated p t s)
  | Tokens ts :: q => await_migration (tokens ++ ts) q
  | Finish :: q => await_migration tokens q
  end.
End client.

(** * The request protocol, abstractly *)

Section protocol.
Context {B : Type} `{Wire B} {SP : Type}.
Notation Item := (Item (B := B)).
Notation Worker := (Worker (B := B) (SP := SP)).
Notation Queues := (list (list Item) * gmap Z nat)%type.

Definition is_tokens (it : Item) : bool := match it with Tokens _ => true | _ => false end.

(** A queue that may still grow, the items that end one, and an ended queue. *)
Definition open_q (q : list Item) : Prop := Forall is_tokens q.
Inductive closing : list Item -> Prop :=
  | closing_finish : closing [Finish; Close]
  | closing_migration p t s : closing [Migration p t s; Close].
Definition closed_q (q : list Item) : Prop := exists q0 end_, open_q q0 /\ closing end_ /\ q = q0 ++ end_.

(** The protocol: a new request, tokens for an active one, or its end. *)
Inductive qio : Queues -> Queues -> Prop :=
  | q_tokens qs a s h ts : a !! s = Some h -> qio (qs, a) (alter (fun q => q ++ [Tokens ts]) h qs, a)
  | q_close qs a s h end_ : a !! s = Some h -> closing end_ ->
      qio (qs, a) (alter (fun q => q ++ end_) h qs, delete s a).
Inductive qstep : Queues -> Queues -> Prop :=
  | q_new qs a s q : open_q q -> qstep (qs, a) (qs ++ [q], <[s := length qs]> a)
  | q_io x y : qio x y -> qstep x y.

Record qinv (x : Queues) : Prop := {
  qi_active s h : x.2 !! s = Some h -> exists q, x.1 !! h = Some q /\ open_q q;
  qi_inj s s' h : x.2 !! s = Some h -> x.2 !! s' = Some h -> s = s';
  qi_shape h q : x.1 !! h = Some q -> open_q q \/ closed_q q
}.

Lemma open_not_closed q : open_q q -> ~ closed_q q.
Proof.
  intros Ho (q0 & end_ & _ & Hc & ->). unfold open_q in Ho. apply Forall_app in Ho as [_ Ho].
  destruct Hc; apply Forall_cons in Ho as [? _]; done.
Qed.

Lemma open_tokens q ts : open_q q -> open_q (q ++ [Tokens ts]).
Proof. intros Ho. apply Forall_app. split; [done|]. by constructor. Qed.

Lemma closed_by q end_ : open_q q -> closing end_ -> closed_q (q ++ end_).
Proof. intros. by exists q, end_. Qed.

#[local] Hint Resolve open_tokens closed_by : core.

Lemma qstep_inv x y : qstep x y -> qinv x -> qinv y.
Proof.
  intros [qs a s q Hq|? ? [qs a s h ts Hs|qs a s h end_ Hs Hc]] [Ha Hi Hsh]; simpl in *; split; simpl.
  - intros s0 h0. rewrite lookup_insert_Some. intros [[<- <-]|[Hne H0]].
    + exists q. by rewrite lookup_app_r, Nat.sub_diag.
    + destruct (Ha _ _ H0) as (q0 & Hq0 & ?). exists q0. by rewrite lookup_app_l by eauto using lookup_lt_Some.
  - intros s0 s1 h0. rewrite !lookup_insert_Some.
    assert (forall s', a !! s' <> Some (length qs)) as Hfresh.
    { intros s' (q0 & Hq0%lookup_lt_Some & _)%Ha. lia. }
    intros [[<- <-]|[_ Hx]] [[<- Hl]|[_ Hy]]; subst; eauto; exfalso; by eapply Hfresh.
  - intros h0 q0 [H0|[_ H0]]%lookup_app_Some; [eauto|].
    apply list_lookup_singleton_Some in H0 as [_ ->]. by left.
  - intros s0 h0 H0. destruct (Ha _ _ H0) as (q0 & Hq0 & Ho).
    destruct (decide (h = h0)) as [->|Hne]; [rewrite list_lookup_alter_eq|rewrite list_lookup_alter_ne by done];
      rewrite Hq0; simpl; eauto.
  - eauto.
  - intros h0 q0. destruct (decide (h = h0)) as [->|Hne]; [|rewrite list_lookup_alter_ne by done; eauto].
    rewrite list_lookup_alter_eq. destruct (Ha _ _ Hs) as (q1 & -> & Ho). intros [= <-]. eauto.
  - intros s0 h0 [Hne H0]%lookup_delete_Some. destruct (Ha _ _ H0) as (q0 & Hq0 & Ho).
    assert (h <> h0) by (intros <-; by apply Hne, (Hi s s0 h)).
    rewrite list_lookup_alter_ne by done. eauto.
  - intros s0 s1 h0 [_ H0]%lookup_delete_Some [_ H1]%lookup_delete_Some. eauto.
  - intros h0 q0. destruct (decide (h = h0)) as [->|Hne]; [|rewrite list_lookup_alter_ne by done; eauto].
    rewrite list_lookup_alter_eq. destruct (Ha _ _ Hs) as (q1 & -> & Ho). intros [= <-]. eauto.
Qed.

(** A queue that ended is not touched again. *)
Lemma qstep_closed x y h q : qstep x y -> qinv x -> x.1 !! h = Some q -> closed_q q -> y.1 !! h = Some q.
Proof.
  intros Hst [Ha Hi Hsh] Hq Hc.
  assert (forall s, x.2 !! s <> Some h) as Hno.
  { intros s (q0 & Hq0 & Ho)%Ha. assert (q0 = q) as -> by congruence. by eapply open_not_closed. }
  destruct Hst as [qs a s q' Hq'|? ? [qs a s h' ts Hs|qs a s h' end_ Hs _]]; simpl in *.
  - rewrite lookup_app_l; eauto using lookup_lt_Some.
  - rewrite list_lookup_alter_ne; [done|]. intros ->. by apply (Hno s).
  - rewrite list_lookup_alter_ne; [done|]. intros ->. by apply (Hno s).
Qed.

Definition view (w : Worker) : Queues := (queues w, active w).

Lemma qsteps_inv x y : rtc qstep x y -> qinv x -> qinv y.
Proof. induction 1; eauto using qstep_inv. Qed.

Lemma qsteps_closed x y h q :
  rtc qstep x y -> qinv x -> x.1 !! h = Some q -> closed_q q -> y.1 !! h = Some q.
Proof. induction 1; eauto using qstep_inv, qstep_closed. Qed.

Lemma qinv_new (e : B) : qinv (view (new_worker (SP := SP) e)).
Proof. by split; unfold view; simpl; [intros ? ? ?%lookup_empty_Some|intros ? ? ? ?%lookup_empty_Some|]. Qed.

(** * The worker refines the protocol *)

Context (parse_info : B -> option (option pystr)) (is_utf8 is_json : B -> bool).
Context (to_bytes : OutItem (B := B) (SP := SP) -> option B).
Notation recv := (recv parse_info is_utf8 is_json).

(** One operation of the worker other than a new request: a call of the server, a packet,
    or a turn of the send loop. *)
Inductive worker_io : Worker -> Worker -> Prop :=
  | w_free w ids w' : free_sequences ids w = Some w' -> worker_io w w'
  | w_abort w s : worker_io w (worker_abort s w)
  | w_metrics w e : worker_io w (metrics_begin e w)
  | w_metrics_end w : worker_io w (metrics_end w)
  | w_profiler w a p : worker_io w (profiler_begin a p w)
  | w_profiler_end w : worker_io w (profiler_end w)
  | w_recv w data : worker_io w (recv data w)
  | w_send w pkt w' : send_next to_bytes w = Some (pkt, w') -> worker_io w w'.

Inductive worker_step : Worker -> Worker -> Prop :=
  | w_submit w s q p : open_q q -> worker_step w (submit s q p w)
  | w_io w w' : worker_io w w' -> worker_step w w'.

Lemma stepout_steps payload (w : Worker) : rtc qio (view w) (view (handle_stepout payload w)).
Proof.
  unfold handle_stepout. destruct (decode_stepout payload) as [[[s ts] status]|]; [|done].
  destruct (active w !! s) as [h|] eqn:Hs; [|done].
  assert (exists t ts', step_tokens ts = t :: ts') as (t & ts' & ->) by (destruct ts; simpl; eauto).
  eapply rtc_l; [by apply (q_tokens _ _ s h (t :: ts'))|].
  destruct (_ =? _)%Z; [|done]. apply rtc_once. by apply (q_close _ _ s h); [|constructor].
Qed.

Lemma recv_steps data (w : Worker) : rtc qio (view w) (view (recv data w)).
Proof.
  unfold EngineIpc.recv. destruct (decode_packet data) as [[a p]|]; [|done].
  destruct (_ =? 0)%Z; [apply stepout_steps|]. destruct (_ =? 1)%Z.
  - unfold handle_migration. destruct (migrate_metadata p) as [[s t]|]; [|done].
    destruct (active w !! s) as [h|] eqn:Hs; [|done]. apply rtc_once. by apply (q_close _ _ s h); [|constructor].
  - destruct (_ =? 2)%Z; [done|]. destruct (_ =? 6)%Z; [done|]. by destruct (_ || _).
Qed.

Lemma worker_io_refines w w' : worker_io w w' -> rtc qio (view w) (view w').
Proof.
  destruct 1 as [w ids w' Hw|w s| | | | |w data|w pkt w' Hw]; try done.
  - unfold free_sequences in Hw. case_bool_decide; [by injection Hw as <-|].
    destruct (encode_free_sequences _ _); [|done]. by injection Hw as <-.
  - unfold worker_abort. trans (view (abort_local s w)).
    + unfold abort_local. destruct (active w !! s) as [h|] eqn:Hs; [|done].
      apply rtc_once. by apply (q_close _ _ s h); [|constructor].
    + by destruct (encode_free_sequences _ _).
  - apply recv_steps.
  - unfold send_next in Hw. destruct (outbox w) as [|[a i] rest]; [done|]. by injection Hw as <- <-.
Qed.

Lemma workers_refine w w' : rtc worker_step w w' -> rtc qstep (view w) (view w').
Proof.
  induction 1 as [|w0 w1 w2 [w s q p Hq|w w1' Hio] _ IH]; [done| |].
  - by eapply rtc_l; [apply q_new|exact IH].
  - trans (view w1'); [|done]. apply (rtc_subrel qio qstep); [by constructor|by apply worker_io_refines].
Qed.

(** A request that no id refers to is not touched by the engine's packets. *)
Lemma qio_orphan x y h :
  rtc qio x y -> (forall s, x.2 !! s <> Some h) -> y.1 !! h = x.1 !! h /\ forall s, y.2 !! s <> Some h.
Proof.
  induction 1 as [x|x x1 y Hst _ IH]; [done|]. intros Hno.
  enough (x1.1 !! h = x.1 !! h /\ forall s, x1.2 !! s <> Some h) as [<- Hno'] by auto.
  destruct Hst as [qs a s h' ts Hs|qs a s h' end_ Hs _]; simpl in *;
    (split; [apply list_lookup_alter_ne; intros ->; by apply (Hno s)|]); [done|].
  intros s0 [_ H0]%lookup_delete_Some. by apply (Hno s0).
Qed.

Lemma orphan_untouched datas (w : Worker) h :
  (forall s, active w !! s <> Some h) -> queues (foldl (fun w d => recv d w) w datas) !! h = queues w !! h.
Proof.
  revert w. induction datas as [|d datas IH]; intros w Hno; [done|]. cbn [foldl].
  destruct (qio_orphan _ _ h (recv_steps d w) Hno) as [Hq Hno']. rewrite IH by done. exact Hq.
Qed.

(** * Requests of a server that assigns its own ids *)

Notation Server := (Server (B := B) (SP := SP)).

Definition new_server (e : B) : Server := mk_server (new_worker e) SEQ_ID_BASE.

Inductive server_step : Server -> Server -> Prop :=
  | sv_submit sv ids sp key : server_step sv (server_submit ids sp key sv)
  | sv_io w w' n : worker_io w w' -> server_step (mk_server w n) (mk_server w' n).

(** Every queue that may still grow belongs to an active id below the counter. *)
Definition tracked (x : Queues) (n : Z) : Prop :=
  (forall h q, x.1 !! h = Some q -> open_q q -> exists s, x.2 !! s = Some h) /\
  (forall s h, x.2 !! s = Some h -> (s < n)%Z).

Lemma qio_tracked x y n : qio x y -> qinv x -> tracked x n -> tracked y n.
Proof.
  intros [qs a s h ts Hs|qs a s h end_ Hs Hc] [Ha Hi _] [Ht Hn]; simpl in *; (split; simpl; [|try done]).
  - intros h0 q0. destruct (decide (h = h0)) as [->|Hne]; [by eauto|].
    rewrite list_lookup_alter_ne by done. apply Ht.
  - intros h0 q0. destruct (decide (h = h0)) as [->|Hne].
    + rewrite list_lookup_alter_eq. destruct (Ha _ _ Hs) as (q & -> & Ho). intros [= <-] Hcl.
      exfalso. eapply open_not_closed; [exact Hcl|]. by apply closed_by.
    + rewrite list_lookup_alter_ne by done. intros Hq Ho. destruct (Ht _ _ Hq Ho) as [s0 Hs0]. exists s0.
      rewrite lookup_delete_ne; [done|]. intros <-. congruence.
  - intros s0 h0 [_ ?]%lookup_delete_Some. eauto.
Qed.

Lemma server_tracked e sv :
  rtc server_step (new_server e) sv -> qinv (view (worker sv)) /\ tracked (view (worker sv)) (next_seq_id sv).
Proof.
  revert sv. apply rtc_ind_r; [|intros sv sv2 _ Hst IH; destruct Hst as [sv ids sp key|w w' n Hio]].
  - split; [apply qinv_new|]. by split; simpl; [|intros ? ? ?%lookup_empty_Some].
  - destruct IH as [Hinv [Ht Hn]]. split; [by eapply qstep_inv; [apply q_new; constructor|]|].
    split; simpl in *.
    + intros h q [Hq|[Hl Hq]]%lookup_app_Some Ho.
      * destruct (Ht _ _ Hq Ho) as [s Hs]. exists s. rewrite lookup_insert_ne; [done|].
        intros <-. apply Hn in Hs. lia.
      * apply list_lookup_singleton_Some in Hq as [Hh <-]. exists (next_seq_id sv).
        rewrite lookup_insert_eq. f_equal. lia.
    + intros s h [[<- _]|[_ Hs]]%lookup_insert_Some; [lia|]. apply Hn in Hs. lia.
  - apply worker_io_refines in Hio. simpl in *. destruct IH as [Hinv Ht].
    induction Hio as [|x y z Hxy _ IH]; [done|].
    apply IH; [by eapply qstep_inv; [by constructor|]|by eapply qio_tracked].
Qed.

(** The tokens a queue holds. *)
Definition tokens_of (q : list Item) : list Z := q ≫= fun it => match it with Tokens ts => ts | _ => [] end.

Lemma await_open q acc rest : open_q q -> await_migration acc (q ++ rest) = await_migration (acc ++ tokens_of q) rest.
Proof.
  intros Ho. revert acc. induction Ho as [|it q Hit _ IH]; intros acc; [by rewrite app_nil_r|].
  destruct it as [ts| | |]; try done. simpl. rewrite IH. unfold tokens_of. csimpl. by rewrite app_assoc.
Qed.
End protocol.

(** * From the engine's events to a request's queue *)

Section delivery.
Context {B : Type} `{WireLaws B} {E SP : Type}.
Context (get_entity_info : pystr -> Fetch) (send_ok : pystr -> bool) (track_running : bool).
Context (parse_info : B -> option (option pystr)) (is_utf8 is_json : B -> bool).
Notation Event := (Event (B := B)).
Notation Result := (Result (B := B)).
Notation Backend := (Backend (B := B) (E := E)).
Notation Worker := (Worker (B := B) (SP := SP)).
Notation emit := (emit_step get_entity_info send_ok track_running).
Notation recv := (recv parse_info is_utf8 is_json).

(** What one event contributes to the queue of results. *)
Definition event_migration (e : Event) : list B :=
  if is_finished e then [] else if is_to_be_migrated e then option_list (migration_payload e) else [].

Definition event_entry (e : Event) : list (Z * list Z * SequenceStatus) :=
  if is_finished e then [(seq_id e, event_token_ids e, FINISHED)]
  else if is_to_be_migrated e then []
  else match event_token_ids e with [] => [] | ts => [(seq_id e, ts, RUNNING)] end.

Lemma process_events_results evs a (b : Backend) :
  stepout_batch (foldl (process_event track_running) (a, b) evs).1 = stepout_batch a ++ (evs ≫= event_entry) /\
  results (foldl (process_event track_running) (a, b) evs).2 =
    results b ++ (Response 1 <$> (evs ≫= event_migration)).
Proof.
  revert a b. induction evs as [|e evs IH]; intros a b; [by rewrite !app_nil_r|].
  rewrite !bind_cons. cbn [foldl]. unfold process_event at 2 4. unfold event_entry at 1, event_migration at 1.
  rewrite fmap_app.
  destruct (is_finished e); [|destruct (is_to_be_migrated e); [destruct (migration_payload e)|destruct (event_token_ids e)]];
    (match goal with |- context [foldl (process_event track_running) (?a1, ?b1) evs] => destruct (IH a1 b1) as [-> ->] end);
    cbn; rewrite <- ?app_assoc; done.
Qed.

Lemma p2p_frees_results (l : list (Z * pystr)) (b : Backend) :
  results (foldl (fun b '(s, source) =>
     if bool_decide (source = []) then b
     else send_p2p_free_if_migrated get_entity_info (send_ok source) s source b) b l) = results b.
Proof.
  revert b. induction l as [|[s source] l IH]; intros b; [done|]. cbn [foldl]. rewrite IH.
  case_bool_decide; [done|]. unfold send_p2p_free_if_migrated. case_decide; [done|].
  case_bool_decide; [done|]. by destruct (send_free_sequences _ _ _ _ _) as [[] c].
Qed.

Lemma vision_frees_results (l : list (pystr * list Z)) (b : Backend) :
  results (foldl (fun b '(enc, slots) =>
     set_component (snd (send_free_vision_slots get_entity_info (send_ok enc) enc slots (component b))) b) b l) = results b.
Proof. revert b. induction l as [|[enc slots] l IH]; intros b; [done|]. cbn [foldl]. by rewrite IH. Qed.

(** A step puts its migrations, then one batch of its step outputs. *)
Definition step_results (evs : list Event) : list Result :=
  (Response 1 <$> (evs ≫= event_migration)) ++
  match evs ≫= event_entry with [] => [] | l => [StepoutBatch l] end.

Lemma emit_step_results evs (b : Backend) : results (emit evs b) = results b ++ step_results evs.
Proof.
  unfold emit_step, step_results. pose proof (process_events_results evs (mk_acc ∅ [] [] []) b) as [Hs Hr].
  destruct (foldl _ _ evs) as [a b']. cbn [fst snd stepout_batch app] in Hs, Hr. cbn [results set_previous].
  rewrite vision_frees_results, p2p_frees_results, Hs. unfold send_stepout_batch.
  destruct (evs ≫= event_entry); simpl; rewrite Hr; [by rewrite app_nil_r|by rewrite app_assoc].
Qed.

Lemma emit_steps_results steps (b : Backend) :
  results (foldl (fun b evs => emit evs b) b steps) = results b ++ (steps ≫= step_results).
Proof.
  revert b. induction steps as [|evs steps IH]; intros b; [by rewrite app_nil_r|].
  cbn [foldl]. by rewrite IH, emit_step_results, bind_cons, app_assoc.
Qed.

(** ** Messages and packets *)

Inductive Msg := MStep (s : Z) (ts : list Z) (st : SequenceStatus) | MMigration (p : B).

Definition packet_of (m : Msg) (data : B) : Prop :=
  match m with
  | MStep s ts st => exists p, decode_packet data = Some (0%Z, p) /\ decode_stepout p = Some (s, ts, status_code st)
  | MMigration p => decode_packet data = Some (1%Z, p)
  end.

Definition entry_ok (x : Z * list Z * SequenceStatus) : Prop := stepout_in_range x.1.1 x.1.2.
Definition entry_msg (x : Z * list Z * SequenceStatus) : Msg := MStep x.1.1 x.1.2 x.2.

Definition result_ok (r : Result) : Prop :=
  match r with Response a _ => a = 1%Z | StepoutBatch l => Forall entry_ok l end.
Definition result_msgs (r : Result) : list Msg :=
  match r with Response _ p => [MMigration p] | StepoutBatch l => entry_msg <$> l end.

Lemma send_batch_ok l : Forall entry_ok l -> exists ps, send_batch l = (ps, true) /\ Forall2 packet_of (entry_msg <$> l) ps.
Proof.
  induction 1 as [|[[s ts] st] l Hok _ (ps & Hps & IH)]; [by exists []|].
  cbn [send_batch]. destruct (stepout_roundtrip s ts st Hok) as (b & -> & Hb). rewrite Hps.
  exists (encode_packet 0 b :: ps). split; [done|]. csimpl. constructor; [|done]. exists b. split; [apply packet_roundtrip|done].
Qed.

Lemma results_loop_ok rs : Forall result_ok rs -> Forall2 packet_of (rs ≫= result_msgs) (results_loop rs).
Proof.
  induction 1 as [|[a p|l] rs Hok _ IH]; [done| |]; rewrite bind_cons; cbn [results_loop result_msgs app].
  - simpl in Hok. subst a. constructor; [apply packet_roundtrip|done].
  - simpl in Hok. destruct (send_batch_ok l Hok) as (ps & -> & Hps). by apply Forall2_app.
Qed.

(** ** What the client makes of messages *)

Definition about (s : Z) (m : Msg) : Prop :=
  match m with MStep s' _ _ => s' = s | MMigration p => exists t, migrate_metadata p = Some (s, t) end.

#[local] Instance about_dec s m : Decision (about s m).
Proof.
  destruct m as [s' ts st|p]; simpl; [apply _|]. destruct (migrate_metadata p) as [[s' t]|].
  - destruct (decide (s' = s)) as [->|Hne]; [left; by exists t|right; intros [? [=]]; done].
  - right. by intros [? ?].
Defined.

Definition closes (m : Msg) : bool := match m with MStep _ _ st => bool_decide (st = FINISHED) | MMigration _ => true end.

Definition msg_items (s : Z) (m : Msg) : list (Item (B := B)) :=
  match m with
  | MStep _ ts st => Tokens (step_tokens ts) :: if bool_decide (st = FINISHED) then [Finish; Close] else []
  | MMigration p => match migrate_metadata p with Some (_, t) => [Migration p t s; Close] | None => [] end
  end.

Fixpoint deliver (s : Z) (ms : list Msg) : list (Item (B := B)) :=
  match ms with
  | [] => []
  | m :: ms => if decide (about s m) then msg_items s m ++ (if closes m then [] else deliver s ms) else deliver s ms
  end.

Lemma deliver_filter s ms : deliver s (filter (about s) ms) = deliver s ms.
Proof.
  induction ms as [|m ms IH]; [done|]. rewrite filter_cons. cbn [deliver].
  destruct (decide (about s m)) as [Ha|Ha]; [|done]. cbn [deliver]. rewrite decide_True by done. by rewrite IH.
Qed.

Lemma status_finished st : (status_code st =? status_code FINISHED)%Z = bool_decide (st = FINISHED).
Proof. by destruct st. Qed.

Lemma recv_other s h q m data (w : Worker) :
  qinv (view w) -> active w !! s = Some h -> queues w !! h = Some q -> packet_of m data -> ~ about s m ->
  active (recv data w) !! s = Some h /\ queues (recv data w) !! h = Some q.
Proof.
  intros [_ Hinj _] Hs Hq Hp Hna. unfold EngineIpc.recv. unfold view in Hinj. cbn [snd] in Hinj.
  assert (forall s' h', active w !! s' = Some h' -> s' <> s -> h' <> h) as Hne by (intros s' h' Ha Hn ->; eauto).
  destruct m as [s' ts st|p]; simpl in *.
  - destruct Hp as (p & -> & Hd). simpl. unfold handle_stepout. rewrite Hd.
    destruct (active w !! s') as [h'|] eqn:Ha; [|done]. specialize (Hne _ _ Ha Hna).
    destruct (step_tokens ts), (_ =? _)%Z; simpl; rewrite ?lookup_delete_ne, ?list_lookup_alter_ne by done; done.
  - rewrite Hp. simpl. unfold handle_migration. destruct (migrate_metadata p) as [[s' t]|] eqn:Em; [|done].
    assert (s' <> s) as Hn by (intros ->; eauto). destruct (active w !! s') as [h'|] eqn:Ha; [|done].
    specialize (Hne _ _ Ha Hn). simpl. by rewrite lookup_delete_ne, list_lookup_alter_ne by done.
Qed.

Lemma recv_about s h q m data (w : Worker) :
  active w !! s = Some h -> queues w !! h = Some q -> packet_of m data -> about s m ->
  active (recv data w) !! s = (if closes m then None else Some h) /\
  queues (recv data w) !! h = Some (q ++ msg_items s m).
Proof.
  intros Hs Hq Hp Ha. unfold EngineIpc.recv. destruct m as [s' ts st|p]; simpl in *.
  - subst s'. destruct Hp as (p & -> & Hd). simpl. unfold handle_stepout. rewrite Hd, Hs, status_finished.
    assert (exists t ts', step_tokens ts = t :: ts') as (t & ts' & ->) by (destruct ts; simpl; eauto).
    destruct (bool_decide (st = FINISHED)); simpl;
      rewrite ?lookup_delete_eq, !list_lookup_alter_eq, Hq; simpl; rewrite <- ?app_assoc; done.
  - destruct Ha as [t Ht]. rewrite Hp. simpl. unfold handle_migration. rewrite Ht, Hs. simpl.
    by rewrite lookup_delete_eq, list_lookup_alter_eq, Hq.
Qed.

Lemma recv_inv data (w : Worker) : qinv (view w) -> qinv (view (recv data w)).
Proof.
  apply qsteps_inv. apply (rtc_subrel qio qstep); [by constructor|]. apply recv_steps.
Qed.

Lemma recv_all_closed datas (w : Worker) h q :
  qinv (view w) -> queues w !! h = Some q -> closed_q q -> queues (foldl (fun w d => recv d w) w datas) !! h = Some q.
Proof.
  revert w. induction datas as [|d datas IH]; intros w Hi Hq Hc; [done|]. cbn [foldl].
  apply IH; [by apply recv_inv| |done]. change (queues (recv d w)) with (view (recv d w)).1.
  apply (qsteps_closed (view w)); [|done..]. apply (rtc_subrel qio qstep); [by constructor|]. apply recv_steps.
Qed.

Lemma deliver_ok s h q ms datas (w : Worker) :
  qinv (view w) -> active w !! s = Some h -> queues w !! h = Some q -> Forall2 packet_of ms datas ->
  queues (foldl (fun w d => recv d w) w datas) !! h = Some (q ++ deliver s ms).
Proof.
  intros Hi Hs Hq Hp. revert w q Hi Hs Hq. induction Hp as [|m d ms datas Hm _ IH]; intros w q Hi Hs Hq.
  { by rewrite app_nil_r. }
  cbn [foldl deliver]. case_decide as Ha.
  - destruct (recv_about s h q m d w Hs Hq Hm Ha) as [Hs' Hq']. destruct (closes m) eqn:Ec.
    + rewrite app_nil_r. apply recv_all_closed; [by apply recv_inv|done|].
      destruct (qi_active _ Hi s h Hs) as (q1 & Hq1 & Ho). simpl in Hq1. assert (q1 = q) as -> by congruence.
      destruct m as [s' ts st|p]; simpl in *.
      * rewrite Ec. change (Tokens (step_tokens ts) :: [Finish; Close]) with ([Tokens (step_tokens ts)] ++ [Finish; Close (B := B)]).
        rewrite app_assoc. apply closed_by; [by apply open_tokens|constructor].
      * destruct Ha as [t ->]. apply closed_by; [done|constructor].
    + rewrite app_assoc. apply IH; [by apply recv_inv|done|done].
  - destruct (recv_other s h q m d w Hi Hs Hq Hm Ha) as [Hs' Hq']. apply IH; [by apply recv_inv|done|done].
Qed.

(** ** What the client makes of events *)

Fixpoint expected (s : Z) (evs : list Event) : list (Item (B := B)) :=
  match evs with
  | [] => []
  | e :: evs =>
      if decide (seq_id e = s) then
        if is_finished e then [Tokens (step_tokens (event_token_ids e)); Finish; Close]
        else if is_to_be_migrated e then
          match migration_payload e with
          | Some p => match migrate_metadata p with
                      | Some (_, t) => [Migration p t s; Close]
                      | None => expected s evs
                      end
          | None => expected s evs
          end
        else match event_token_ids e with
             | [] => expected s evs
             | ts => Tokens ts :: expected s evs
             end
      else expected s evs
  end.

(** Ids and tokens that are sent fit the encoding, and a migration payload is for its own
    sequence. *)
Definition event_ok (e : Event) : Prop :=
  (is_finished e = true \/ is_to_be_migrated e = false -> stepout_in_range (seq_id e) (event_token_ids e)) /\
  (is_finished e = false -> is_to_be_migrated e = true ->
   forall p, migration_payload e = Some p -> exists t, migrate_metadata p = Some (seq_id e, t)).

Definition event_msgs (e : Event) : list Msg :=
  (MMigration <$> event_migration e) ++ (entry_msg <$> event_entry e).

Definition step_msgs (evs : list Event) : list Msg :=
  (MMigration <$> (evs ≫= event_migration)) ++ (entry_msg <$> (evs ≫= event_entry)).

Lemma step_results_msgs evs : step_results evs ≫= result_msgs = step_msgs evs.
Proof.
  unfold step_results, step_msgs. rewrite bind_app. f_equal.
  - generalize (evs ≫= event_migration). induction l as [|p l IH]; [done|]. csimpl. by f_equal.
  - destruct (evs ≫= event_entry); [done|]. csimpl. by rewrite app_nil_r.
Qed.

Lemma step_results_ok evs : Forall event_ok evs -> Forall result_ok (step_results evs).
Proof.
  intros Hok. unfold step_results. apply Forall_app. split.
  - apply Forall_fmap. by apply Forall_forall.
  - assert (Forall entry_ok (evs ≫= event_entry)) as He; [|destruct (evs ≫= event_entry); [constructor|by constructor]].
    apply Forall_bind. eapply Forall_impl; [exact Hok|]. intros e [Hr _]. simpl. unfold event_entry.
    destruct (is_finished e) eqn:Ef; [apply Forall_singleton, Hr; by left|]. destruct (is_to_be_migrated e) eqn:Em; [constructor|].
    destruct (event_token_ids e) as [|t ts] eqn:Et; [constructor|]. apply Forall_singleton. unfold entry_ok. cbn. apply Hr. by right.
Qed.

Lemma event_msgs_about s e m : event_ok e -> m ∈ event_msgs e -> about s m -> seq_id e = s.
Proof.
  intros [_ Hp]. unfold event_msgs, event_migration, event_entry.
  destruct (is_finished e) eqn:Ef; [|destruct (is_to_be_migrated e) eqn:Em].
  - simpl. rewrite list_elem_of_singleton. by intros ->.
  - destruct (migration_payload e) as [p|]; simpl; [|by intros ?%not_elem_of_nil].
    rewrite list_elem_of_singleton. intros -> [t Ht]. destruct (Hp eq_refl eq_refl p eq_refl) as [t' Ht']. congruence.
  - destruct (event_token_ids e); simpl; [by intros ?%not_elem_of_nil|]. rewrite list_elem_of_singleton. by intros ->.
Qed.

Lemma event_not_about s e : event_ok e -> seq_id e <> s -> filter (about s) (event_msgs e) = [].
Proof.
  intros Hok Hne. apply filter_none, Forall_forall. intros m Hm Ha. by eapply Hne, event_msgs_about.
Qed.

(** Within a step the order of the messages does not matter to one sequence. *)
Lemma filter_step_msgs s evs :
  Forall event_ok evs -> NoDup (seq_id <$> evs) ->
  filter (about s) (step_msgs evs) = filter (about s) (evs ≫= event_msgs).
Proof.
  intros Hok. induction Hok as [|e evs He Hevs IH]; [done|]. csimpl. rewrite NoDup_cons. intros [Hni Hnd].
  specialize (IH Hnd). unfold step_msgs in *. rewrite !bind_cons, !fmap_app, !filter_app in *.
  pose proof (event_not_about s e He) as Hno. unfold event_msgs in Hno. rewrite filter_app in Hno.
  unfold event_msgs at 1. rewrite filter_app.
  destruct (decide (seq_id e = s)) as [Es|Hne].
  - assert (filter (about s) (evs ≫= event_msgs) = []) as Hrest.
    { apply filter_none, Forall_forall. intros m (e' & Hm & He')%list_elem_of_bind Ha. apply Hni.
      rewrite Forall_forall in Hevs. rewrite Es, <- (event_msgs_about s e' m (Hevs e' He') Hm Ha).
      by apply list_elem_of_fmap_2. }
    rewrite Hrest in *. apply app_nil in IH as [-> ->]. by rewrite !app_nil_r.
  - apply app_nil in Hno as [-> ->]; [|done]. done.
Qed.

Lemma deliver_expected s evs : Forall event_ok evs -> deliver s (evs ≫= event_msgs) = expected s evs.
Proof.
  induction 1 as [|e evs He Hevs IH]; [done|]. rewrite bind_cons. cbn [expected].
  rewrite <- deliver_filter, filter_app. case_decide as Es.
  - destruct He as [_ Hp]. unfold event_msgs at 1, event_migration, event_entry.
    destruct (is_finished e) eqn:Ef; [|destruct (is_to_be_migrated e) eqn:Em].
    + simpl. rewrite filter_cons, decide_True by done. simpl. by rewrite decide_True.
    + destruct (migration_payload e) as [p|]; simpl; [|by rewrite deliver_filter].
      destruct (Hp eq_refl eq_refl p eq_refl) as [t Ht]. rewrite Ht. subst s.
      assert (about (seq_id e) (MMigration p)) as Ha by (simpl; eauto).
      rewrite filter_cons, decide_True by done. cbn [app deliver]. rewrite decide_True by done. simpl. by rewrite Ht.
    + destruct (event_token_ids e) as [|t ts] eqn:Et; simpl; [by rewrite deliver_filter|].
      rewrite filter_cons, decide_True by done. simpl. rewrite decide_True by done. f_equal.
      by rewrite deliver_filter.
  - rewrite event_not_about by done. simpl. by rewrite deliver_filter.
Qed.

Lemma steps_msgs_expected s steps :
  Forall (Forall event_ok) steps -> Forall (fun evs => NoDup (seq_id <$> evs)) steps ->
  deliver s ((steps ≫= step_results) ≫= result_msgs) = expected s (concat steps).
Proof.
  intros Hok Hnd. rewrite <- (deliver_expected s (concat steps)).
  2:{ clear Hnd. induction Hok; [constructor|]. cbn [concat]. by apply Forall_app. }
  rewrite <- deliver_filter. rewrite <- (deliver_filter s (concat steps ≫= _)). f_equal.
  induction Hok as [|evs steps He _ IH]; [done|]. apply Forall_cons in Hnd as [Hn Hnd].
  rewrite bind_cons. cbn [concat]. rewrite !bind_app, !filter_app, step_results_msgs, filter_step_msgs by done.
  by rewrite IH.
Qed.
(** ** The specification *)

(** What a step of the engine did to a sequence. *)
Inductive Outcome :=
  | Sampled (t : Z) (ts : list Z)
  | Ended (t : Z) (ts : list Z)
  | EndedWithoutToken
  | HandedOver (payload : B) (first_token : Z)
  | Resumed
  | Idle.

(** The scheduler lists no tokens for the sequence. *)
Definition no_token_ids (e : Event) : Prop := token_ids e = None \/ token_ids e = Some [].

(** How a scheduler reports the tokens it sampled: in [token_ids]; a legacy scheduler leaves them
    out and reports the last token of a sequence that has some. *)
Inductive reports_tokens (e : Event) : list Z -> Prop :=
  | by_token_ids t ts : token_ids e = Some (t :: ts) -> reports_tokens e (t :: ts)
  | by_last_token : no_token_ids e -> is_new_running e = false -> (0 < num_tokens e)%Z -> reports_tokens e [last_token e].

(** A sequence taken over from a prefill engine has sampled nothing in the step that first runs
    it, though its event carries the token of the prefill as its last one. *)
Inductive reports_no_token (e : Event) : Prop :=
  | by_taking_over : no_token_ids e -> is_new_running e = true -> reports_no_token e
  | by_no_tokens : no_token_ids e -> (num_tokens e <= 0)%Z -> reports_no_token e.

Inductive reports : Z * Outcome -> Event -> Prop :=
  | rep_sampled e t ts : is_finished e = false -> is_to_be_migrated e = false -> reports_tokens e (t :: ts) ->
      reports (seq_id e, Sampled t ts) e
  | rep_ended e t ts : is_finished e = true -> reports_tokens e (t :: ts) -> reports (seq_id e, Ended t ts) e
  | rep_ended_no_token e : is_finished e = true -> reports_no_token e -> reports (seq_id e, EndedWithoutToken) e
  | rep_handed_over e p t : is_finished e = false -> is_to_be_migrated e = true -> migration_payload e = Some p ->
      migrate_metadata p = Some (seq_id e, t) -> reports (seq_id e, HandedOver p t) e
  | rep_not_packed e : is_finished e = false -> is_to_be_migrated e = true -> migration_payload e = None -> reports (seq_id e, Idle) e
  | rep_resumed e : is_finished e = false -> is_to_be_migrated e = false -> no_token_ids e -> is_new_running e = true ->
      reports (seq_id e, Resumed) e
  | rep_idle e : is_finished e = false -> is_to_be_migrated e = false -> no_token_ids e -> (num_tokens e <= 0)%Z ->
      reports (seq_id e, Idle) e.

(** The id and the tokens of an outcome fit the encoding. *)
Definition outcome_tokens (o : Outcome) : list Z :=
  match o with Sampled t ts | Ended t ts => t :: ts | _ => [] end.
Definition outcome_ok (x : Z * Outcome) : Prop := stepout_in_range x.1 (outcome_tokens x.2).

(** What the request of sequence [s] receives for a history: every token sampled for it, in
    order and once, up to its end or its handover.  A sequence that ends in a step without a
    token is sent the token 0 before its end. *)
Fixpoint received (s : Z) (hist : list (Z * Outcome)) : list (Item (B := B)) :=
  match hist with
  | [] => []
  | (s', o) :: hist =>
      if decide (s' = s) then
        match o with
        | Sampled t ts => Tokens (t :: ts) :: received s hist
        | Ended t ts => [Tokens (t :: ts); Finish; Close]
        | EndedWithoutToken => [Tokens [0%Z]; Finish; Close]
        | HandedOver p t => [Migration p t s; Close]
        | Resumed | Idle => received s hist
        end
      else received s hist
  end.

Lemma reports_tokens_eq e ts : reports_tokens e ts -> event_token_ids e = ts.
Proof.
  unfold event_token_ids, no_token_ids. destruct 1 as [t ts ->|Ht Hn Hp]; [done|].
  destruct Ht as [-> | ->]; rewrite Hn; by replace (0 <? num_tokens e)%Z with true by lia.
Qed.

Lemma reports_no_token_eq e : reports_no_token e -> event_token_ids e = [].
Proof.
  unfold event_token_ids, no_token_ids. destruct 1 as [Ht Hn|Ht Hp]; destruct Ht as [-> | ->]; rewrite ?Hn; try done;
    (replace (0 <? num_tokens e)%Z with false by lia); by destruct (is_new_running e).
Qed.

#[local] Hint Resolve reports_tokens_eq reports_no_token_eq by_taking_over by_no_tokens : core.

(** An outcome that is sent has the tokens of its event. *)
Lemma reports_spec x e :
  reports x e ->
  seq_id e = x.1 /\
  (is_finished e = true \/ is_to_be_migrated e = false -> event_token_ids e = outcome_tokens x.2) /\
  (is_finished e = false -> is_to_be_migrated e = true ->
   match migration_payload e with
   | Some p => exists t, x.2 = HandedOver p t /\ migrate_metadata p = Some (seq_id e, t)
   | None => x.2 = Idle
   end).
Proof.
  destruct 1 as [e t ts Hf Hm Ht|e t ts Hf Ht|e Hf Ht|e p t Hf Hm Hp Hd|e Hf Hm Hp|e Hf Hm Ht Hn|e Hf Hm Ht Hn];
    cbn [fst snd outcome_tokens]; rewrite ?Hf, ?Hm, ?Hp; split_and!; try done; eauto; try (intros [|]; done).
Qed.

Lemma reports_ok x e : reports x e -> outcome_ok x -> event_ok e.
Proof.
  intros (Hs & Ht & Hm)%reports_spec Hok. unfold outcome_ok in Hok. split.
  - intros Hsent. by rewrite Hs, Ht.
  - intros Hf Hmig p Hp. specialize (Hm Hf Hmig). rewrite Hp in Hm. destruct Hm as (t & _ & ?). by exists t.
Qed.

Lemma expected_received s hist evs : Forall2 reports hist evs -> expected s evs = received s hist.
Proof.
  induction 1 as [|x e hist evs Hr _ IH]; [done|].
  destruct Hr as [e t ts Hf Hm Ht%reports_tokens_eq|e t ts Hf Ht%reports_tokens_eq|e Hf Ht%reports_no_token_eq|e p t Hf Hm Hp Hd|e Hf Hm Hp
    |e Hf Hm Ht Hn|e Hf Hm Ht Hn]; cbn [expected received]; case_decide; try done; rewrite Hf, ?Hm, ?Ht, ?Hp, ?Hd, ?IH; try done.
  - rewrite (reports_no_token_eq e) by eauto. done.
  - rewrite (reports_no_token_eq e) by eauto. done.
Qed.
End delivery.

(** * Peer-to-peer frees *)

Section frees.
Context {B E : Type}.
Context (get_entity_info : pystr -> Fetch) (send_ok : pystr -> bool) (track_running : bool).
Notation Event := (Event (B := B)).
Notation Backend := (Backend (B := B) (E := E)).

Definition is_free (s : Z) (x : Sent) : Prop := s_action x = 3%Z /\ s_ids x = [s].

#[local] Instance is_free_dec s x : Decision (is_free s x).
Proof. unfold is_free. apply _. Defined.

(** The free instructions sent for a sequence. *)
Definition frees (s : Z) (c : Component) : nat := length (filter (is_free s) (sent c)).

(** Those sent, and one more while the sequence is not marked as freed. *)
Definition potential (s : Z) (b : Backend) : nat :=
  frees s (component b) + if decide (s ∈ freed b) then 0 else 1.

Lemma p2p_send_sent gi ok action target ids c :
  (p2p_send gi ok action target ids c).1 = true /\ sent (p2p_send gi ok action target ids c).2 = sent c \/
  (p2p_send gi ok action target ids c).1 = false /\
  (sent (p2p_send gi ok action target ids c).2 = sent c \/
   exists host port, sent (p2p_send gi ok action target ids c).2 = sent c ++ [mk_sent host port action ids]).
Proof.
  unfold p2p_send.
  destruct (peer_info c !! target) as [p|] eqn:Ep; [|unfold fetch_peer_info; destruct (has_nanoctrl c); [|by auto];
    destruct (gi target) as [| |entity metadata]; [by auto..|]]; rewrite ?Ep;
    (match goal with |- context [peer_info ?c' !! target] => destruct (peer_info c' !! target) as [p'|] | _ => idtac end);
    try (destruct (bool_decide _ || _); [by auto|]; destruct ok; right; simpl; eauto); auto.
Qed.

Lemma p2p_free_potential s ok s' source (b : Backend) :
  potential s (send_p2p_free_if_migrated get_entity_info ok s' source b) <= potential s b.
Proof.
  unfold send_p2p_free_if_migrated. case_decide as Hf; [done|]. case_bool_decide; [done|].
  unfold send_free_sequences. rewrite bool_decide_eq_false_2 by done.
  pose proof (p2p_send_sent get_entity_info ok 3 source [s'] (component b)) as Hs.
  destruct (p2p_send _ _ _ _ _ _) as [r c]. simpl in Hs. unfold potential, frees.
  destruct Hs as [[-> Hs]|[-> Hs]]; simpl; [by rewrite Hs|].
  destruct (decide (s = s')) as [<-|Hne].
  - rewrite (decide_True (P := s ∈ {[s]} ∪ freed b)), (decide_False (P := s ∈ freed b)) by set_solver.
    destruct Hs as [->|(host & port & ->)]; [lia|]. rewrite filter_app, length_app.
    rewrite filter_cons, filter_nil. case_decide; simpl; lia.
  - assert (length (filter (is_free s) (sent c)) = length (filter (is_free s) (sent (component b)))) as ->.
    { destruct Hs as [->|(host & port & ->)]; [done|]. rewrite filter_app, filter_cons, filter_nil, decide_False.
      - by rewrite app_nil_r.
      - intros [_ [= ?]]. done. }
    destruct (decide (s ∈ freed b)) as [Hin|Hin].
    + rewrite decide_True by set_solver. lia.
    + rewrite decide_False by set_solver. lia.
Qed.

Lemma vision_frees_potential s l (b : Backend) :
  potential s (foldl (fun b '(enc, slots) =>
     set_component (snd (send_free_vision_slots get_entity_info (send_ok enc) enc slots (component b))) b) b l) = potential s b.
Proof.
  revert b. induction l as [|[enc slots] l IH]; intros b; [done|]. cbn [foldl]. rewrite IH. clear IH.
  unfold send_free_vision_slots. case_bool_decide; [done|].
  pose proof (p2p_send_sent get_entity_info (send_ok enc) 4 enc slots (component b)) as Hs.
  destruct (p2p_send _ _ _ _ _ _) as [r c]. simpl in Hs. unfold potential, frees. simpl. f_equal.
  destruct Hs as [[_ ->]|[_ [->|(host & port & ->)]]]; [done|done|].
  rewrite filter_app, filter_cons, filter_nil, decide_False; [by rewrite app_nil_r|]. by intros [? _].
Qed.

Lemma process_events_potential s evs a (b : Backend) :
  Forall (fun e => is_finished e = true -> seq_id e <> s) evs ->
  potential s (foldl (process_event track_running) (a, b) evs).2 = potential s b.
Proof.
  intros Hno. revert a b. induction Hno as [|e evs He _ IH]; intros a b; [done|]. cbn [foldl].
  unfold process_event at 2. destruct (is_finished e) eqn:Ef; [|destruct (is_to_be_migrated e)].
  - rewrite IH. unfold potential. simpl. specialize (He eq_refl). f_equal.
    destruct (decide (s ∈ freed b)); [rewrite decide_True by set_solver|rewrite decide_False by set_solver]; done.
  - rewrite IH. by destruct (migration_payload e).
  - by destruct (event_token_ids e); rewrite IH.
Qed.

Lemma emit_potential s evs (b : Backend) :
  Forall (fun e => is_finished e = true -> seq_id e <> s) evs ->
  potential s (emit_step get_entity_info send_ok track_running evs b) <= potential s b.
Proof.
  intros Hno. unfold emit_step. pose proof (process_events_potential s evs (mk_acc ∅ [] [] []) b Hno) as Hp.
  destruct (foldl _ _ evs) as [a b']. cbn [snd] in Hp. rewrite <- Hp. clear Hp Hno.
  unfold potential at 1. cbn [component freed set_previous].
  match goal with |- frees s (component ?x) + _ <= _ => change (potential s x <= potential s b') end.
  rewrite vision_frees_potential. etrans; [|apply Nat.eq_le_incl; symmetry; instantiate (1 := potential s (send_stepout_batch (stepout_batch a) b'));
    by destruct (stepout_batch a)].
  generalize (send_stepout_batch (stepout_batch a) b'). induction (newly_appeared a) as [|[s' source] l IH]; intros b1; [done|].
  cbn [foldl]. etrans; [apply IH|]. case_bool_decide; [done|]. apply p2p_free_potential.
Qed.

Lemma emits_potential s steps (b : Backend) :
  Forall (Forall (fun e => is_finished e = true -> seq_id e <> s)) steps ->
  potential s (foldl (fun b evs => emit_step get_entity_info send_ok track_running evs b) b steps) <= potential s b.
Proof.
  intros Hno. revert b. induction Hno as [|evs steps He _ IH]; intros b; [done|]. cbn [foldl].
  etrans; [apply IH|]. by apply emit_potential.
Qed.
End frees.

(** * Properties *)

(** However the server's calls and the engine's packets interleave, a request's queue
    holds token batches and then at most one end (finish or migration, then the closing
    [None]); the requests still registered are those that may grow, and a queue that ended
    never changes again. *)
Theorem request_queue_protocol {B SP : Type} `{Wire B} parse_info is_utf8 is_json to_bytes (e : B) (w : Worker (SP := SP)) :
  rtc (worker_step parse_info is_utf8 is_json to_bytes) (new_worker e) w ->
  (forall h q, queues w !! h = Some q -> open_q q \/ closed_q q) /\
  (forall s h, active w !! s = Some h -> exists q, queues w !! h = Some q /\ open_q q) /\
  (forall w' h q, rtc (worker_step parse_info is_utf8 is_json to_bytes) w w' ->
     queues w !! h = Some q -> closed_q q -> queues w' !! h = Some q).
Proof.
  intros Hr%workers_refine. pose proof (qsteps_inv _ _ Hr (qinv_new e)) as Hi. split_and!.
  - apply (qi_shape _ Hi).
  - apply (qi_active _ Hi).
  - intros w' h q Hr'%workers_refine Hq Hc. by apply (qsteps_closed (view w) (view w')).
Qed.

(** C33. On a server that assigns its own sequence ids, waiting for a prefill to be handed over
    or to finish ends for every request that is no longer registered.  When its queue holds a
    migration, the wait returns exactly that migration, its payload, first token and sequence;
    otherwise it returns that the request finished here, with all the tokens of its queue. *)
Theorem await_migration_returns {B SP : Type} `{Wire B} parse_info is_utf8 is_json to_bytes (e : B) (sv : Server (SP := SP)) h q :
  rtc (server_step parse_info is_utf8 is_json to_bytes) (new_server e) sv ->
  queues (worker sv) !! h = Some q -> (forall s, active (worker sv) !! s <> Some h) ->
  (forall p t s, Migration p t s ∈ q -> await_migration [] q = Some (Migrated p t s)) /\
  ((forall p t s, Migration p t s ∉ q) -> await_migration [] q = Some (FinishedLocally (tokens_of q))).
Proof.
  intros Hr Hq Hna. apply server_tracked in Hr as [Hi [Ht _]].
  destruct (qi_shape _ Hi h q Hq) as [Ho|(q0 & end_ & Ho & Hc & ->)].
  { destruct (Ht h q Hq Ho) as [s Hs]. by apply Hna in Hs. }
  rewrite (await_open q0 [] end_ Ho).
  assert (forall p t s, Migration p t s ∉ q0) as Hno by (intros p t s Hin; unfold open_q in Ho; rewrite Forall_forall in Ho; by specialize (Ho _ Hin)).
  destruct Hc as [|p t s]; split.
  - intros p t s [Hin|Hin]%elem_of_app; [by apply Hno in Hin|]. by do 2 (apply elem_of_cons in Hin as [?|Hin]; [done|]); apply not_elem_of_nil in Hin.
  - intros _. simpl. unfold tokens_of. rewrite bind_app. csimpl. by rewrite app_nil_r.
  - intros p' t' s' [Hin|Hin]%elem_of_app; [by apply Hno in Hin|]. apply elem_of_cons in Hin as [[= -> -> ->]|Hin]; [done|].
    apply elem_of_cons in Hin as [?|Hin]; [done|by apply not_elem_of_nil in Hin].
  - intros Hnone. exfalso. apply (Hnone p t s), elem_of_app. right. apply elem_of_cons. by left.
Qed.


(** The engine that took over a sequence asks its source to free it at most once: over
    any steps in which the sequence does not finish, at most one free instruction is sent,
    and none once it is marked as freed. *)
Theorem p2p_free_at_most_once {B E : Type} gi send_ok track (b : Backend (B := B) (E := E)) (steps : list (list Event)) s :
  Forall (Forall (fun ev => is_finished ev = true -> seq_id ev <> s)) steps ->
  let c' := component (foldl (fun b evs => emit_step gi send_ok track evs b) b steps) in
  frees s c' <= frees s (component b) + 1 /\ (s ∈ freed b -> frees s c' <= frees s (component b)).
Proof.
  intros Hno. simpl. pose proof (emits_potential gi send_ok track s steps b Hno) as Hp.
  unfold potential in Hp. split; [|intros Hf; rewrite (decide_True (P := s ∈ freed b)) in Hp by done];
    repeat case_decide; lia.
Qed.

(** ** A concrete encoding *)

(** Bytes as lists of numbers; requests and migrations carry a tag. *)
#[export] Instance toy_wire : Wire (list Z) := {|
  encode_packet a p := a :: p;
  decode_packet d := match d with a :: p => Some (a, p) | [] => None end;
  encode_stepout s ts st := if decide (stepout_in_range s ts) then Some (s :: st :: ts) else None;
  decode_stepout d := match d with s :: st :: ts => Some (s, ts, st) | _ => None end;
  encode_free_sequences ids _ := Some ids;
  decode_free_sequences d := Some (d, []);
  encode_free_vision_slots _ slots _ := Some slots;
  is_request_in d := match d with 10%Z :: _ => true | _ => false end;
  migrate_metadata d := match d with 11%Z :: s :: t :: _ => Some (s, t) | _ => None end
|}.

#[export] Instance toy_wire_laws : WireLaws (list Z).
Proof.
  split; [done|]. intros s ts st Hr. exists (s :: status_code st :: ts). simpl. by rewrite decide_True.
Qed.

Definition ev (s : Z) (ts : list Z) (fin new : bool) (source : pystr) : Event (B := list Z) :=
  mk_event s (Some ts) 0 1 fin false new source None [].
Definition ev_migrate (s t : Z) : Event (B := list Z) :=
  mk_event s (Some []) t 1 false true false [] (Some [11; s; t]%Z) [].

Definition no_json (_ : list Z) : option (option pystr) := None.
Definition any (_ : list Z) : bool := true.
Definition any_target (_ : pystr) : bool := true.
Definition no_bytes (_ : OutItem (B := list Z) (SP := unit)) : option (list Z) := None.
Definition registry (_ : pystr) : Fetch :=
  Found None (Some (mk_info None None None None (Some (lit "host")) (Some 7%Z))).

Definition sample_worker : Worker (B := list Z) (SP := unit) :=
  submit 1025 [] (ORequestIn 1025 [5]%Z tt 0) (submit 1024 [] (ORequestIn 1024 [4]%Z tt 0) (new_worker [])).
Definition sample_backend : Backend (B := list Z) (E := unit) :=
  mk_backend tt (mk_component [] true ∅ ∅ []) [] ∅ ∅.
Definition sample_steps : list (list (Event (B := list Z))) :=
  [[ev 1024 [1; 2]%Z false true (lit "p"); ev_migrate 1025 9]; [ev 1024 [3]%Z true false (lit "p")]].

Lemma sample_reachable : rtc (worker_step no_json any any no_bytes) (new_worker []) sample_worker.
Proof. eapply rtc_l; [apply w_submit; constructor|]. apply rtc_once, w_submit. constructor. Qed.

Lemma request_queue_protocol_witness : queues sample_worker !! 1 = Some [] /\ (open_q (B := list Z) [] \/ closed_q (B := list Z) []).
Proof.
  split; [reflexivity|].
  apply (proj1 (request_queue_protocol no_json any any no_bytes [] sample_worker sample_reachable) 1 []). reflexivity.
Defined.

Lemma await_migration_returns_witness :
  await_migration [] [Tokens [6]%Z; Migration [11; 1024; 6]%Z 6 1024; Close] = Some (Migrated [11; 1024; 6]%Z 6%Z 1024%Z).
Proof.
  apply (await_migration_returns no_json any any no_bytes []
    (mk_server (recv no_json any any [1; 11; 1024; 6]%Z (recv no_json any any [0; 1024; 1; 6]%Z (worker (server_submit [] tt 0 (new_server (SP := unit) []))))) 1025) 0).
  - eapply rtc_l; [apply (sv_submit _ _ _ _ _ [] tt 0)|]. unfold server_submit. eapply rtc_l; [apply sv_io, w_recv|]. apply rtc_once, sv_io, w_recv.
  - reflexivity.
  - intros s. vm_compute. intros Hx. destruct s as [|p|p]; [discriminate|discriminate|discriminate].
  - apply elem_of_cons. right. apply elem_of_cons. left. reflexivity.
Defined.

(** The same steps as the engine saw them. *)
Definition sample_history : list (list (Z * Outcome (B := list Z))) :=
  [[(1024, Sampled 1 [2]); (1025, HandedOver [11; 1025; 9] 9)]; [(1024, Ended 3 [])]]%Z.

Lemma sample_reported : Forall2 (Forall2 reports) sample_history sample_steps.
Proof.
  constructor; [constructor; [|constructor; [|constructor]]|constructor; [constructor; [|constructor]|constructor]].
  - apply (rep_sampled (ev 1024 [1; 2]%Z false true (lit "p"))); [done..|]. by apply by_token_ids.
  - by apply (rep_handed_over (ev_migrate 1025 9)).
  - apply (rep_ended (ev 1024 [3]%Z true false (lit "p"))); [done|]. by apply by_token_ids.
Qed.


Example sample_received :
  received 1024 (concat sample_history) = [Tokens [1; 2]%Z; Tokens [3]%Z; Finish; Close] /\
  received 1025 (concat sample_history) = [Migration [11; 1025; 9]%Z 9 1025; Close].
Proof. by vm_compute. Qed.

Lemma p2p_free_at_most_once_witness :
  let c' := component (foldl (fun b evs => emit_step registry any_target true evs b) sample_backend (take 1 sample_steps)) in
  frees 1024 c' <= frees 1024 (component sample_backend) + 1 /\
  (1024%Z ∈ freed sample_backend -> frees 1024 c' <= frees 1024 (component sample_backend)).
Proof.
  apply (p2p_free_at_most_once registry any_target true sample_backend (take 1 sample_steps) 1024).
  repeat constructor; by vm_compute.
Defined.

(** The free of the sample does go out, to the published address. *)
Example sample_free_sent :
  sent (component (foldl (fun b evs => emit_step registry any_target true evs b) sample_backend sample_steps)) =
  [mk_sent (lit "host") 7 3 [1024%Z]].
Proof. by vm_compute. Qed.

(** Of two requests with the same id the first is never ended. *)
Lemma migrated_id_collision_orphans (steps : list (list (Event (B := list Z)))) :
  let w := submit 1024 [Tokens [8]%Z] (ORequestMigrate [11; 1024; 8]%Z)
             (submit 1024 [Tokens [7]%Z] (ORequestMigrate [11; 1024; 7]%Z) (new_worker (SP := unit) [])) in
  let b := foldl (fun b evs => emit_step registry any_target true evs b) sample_backend steps in
  queues (foldl (fun w d => recv no_json any any d w) w (results_loop (results b))) !! 0 = Some [Tokens [7]%Z].
Proof.
  simpl. rewrite orphan_untouched; [done|]. simpl. intros s. rewrite lookup_insert_Some.
  intros [[_ ?]|[Hne Hl]]; [done|]. apply lookup_insert_Some in Hl as [[? _]|[_ Hl]]; [done|].
  by apply lookup_empty_Some in Hl.
Qed.

(** Two defects of migrated requests.  A migrated sequence that finishes in its first step
    on the decode engine: the step output carries no token, the client reads the default
    token 0 from it and the request receives a token the model never sampled.  And migrated
    requests keep the id their prefill server gave them while every server counts from the
    same base: of two requests with the same id the first is never ended, whatever the
    engine reports for that id. *)
Theorem migrated_request_defects (steps : list (list (Event (B := list Z)))) :
  (let b := emit_step registry any_target true [ev 1024 [] true true (lit "p")] sample_backend in
   let w := worker <$> server_submit_migrated [11; 1024; 7]%Z 1024 (Some 7%Z) (new_server (SP := unit) []) in
   (fun w => queues (foldl (fun w d => recv no_json any any d w) w (results_loop (results b)))) <$> w =
     Some [[Tokens [7]%Z; Tokens [0]%Z; Finish; Close]]) /\
  (let w := submit 1024 [Tokens [8]%Z] (ORequestMigrate [11; 1024; 8]%Z)
              (submit 1024 [Tokens [7]%Z] (ORequestMigrate [11; 1024; 7]%Z) (new_worker (SP := unit) [])) in
   let b := foldl (fun b evs => emit_step registry any_target true evs b) sample_backend steps in
   queues (foldl (fun w d => recv no_json any any d w) w (results_loop (results b))) !! 0 = Some [Tokens [7]%Z]).
Proof. split; [by vm_compute|]. apply migrated_id_collision_orphans. Qed.
