(* ===== verification/Http.v ===== *)
(** The OpenAI-compatible HTTP front end ([dlengine/server/openai_server.py]): reading a
    request body, building the prompt, submitting the request to the engine, and turning the
    text stream of [Streaming] and [StructuredStream] into a response or into a stream of
    server-sent events.  Identifiers and time stamps of responses are left out, and so are clients
    that leave before the end of a stream. *)

From S2P Require Import Prelude PyStr EngineIpc Streaming KimiK3 StructuredStream ToolParser.

(** * Python conversions of JSON values *)

(** [int(s)] on a string: surrounding white space, a sign, and digits that single underscores
    may separate; more than 4300 digits are refused. *)
Fixpoint int_digits (after_digit : bool) (acc : Z) (s : pystr) : option Z :=
  match s with
  | [] => if after_digit then Some acc else None
  | c :: s => if is_digit c then int_digits true (acc * 10 + (Z.of_nat (code c) - 48))%Z s
              else if bool_decide (c = "_"%char) && after_digit then int_digits false acc s
              else None
  end.

Definition int_of_str (s : pystr) : result Z :=
  let s := strip s in
  let '(sign, digits) := match s with
                         | "+"%char :: s => (1%Z, s)
                         | "-"%char :: s => ((-1)%Z, s)
                         | _ => (1%Z, s)
                         end in
  if decide (4300 < length (filter (fun c => is_digit c = true) digits)) then Err ValueError
  else of_option ValueError ((fun v => sign * v)%Z <$> int_digits false 0 digits).

(** [int(x)] on a float given by its bits: truncation; infinities and NaN raise. *)
Definition int_of_float (bits : Z) : result Z :=
  let e := (Z.shiftr bits 52 mod 2 ^ 11)%Z in
  let m := (bits mod 2 ^ 52)%Z in
  if (e =? 2047)%Z then Err (if (m =? 0)%Z then OverflowError else ValueError)
  else
    let '(m, x) := if (e =? 0)%Z then (m, -1074)%Z else (m + 2 ^ 52, e - 1075)%Z in
    let a := if decide (0 <= x)%Z then (m * 2 ^ x)%Z else (m / 2 ^ (- x))%Z in
    Ok (if Z.testbit bits 63 then - a else a)%Z.

(** [int(j)] *)
Definition py_int (j : Json) : result Z :=
  match j with
  | JInt z => Ok z
  | JBool b => Ok (Z.b2z b)
  | JFloat bits => int_of_float bits
  | JStr s => int_of_str s
  | JNull | JArr _ | JObj _ => Err TypeError
  end.

(** Iterating over a JSON value. *)
Definition py_iter (j : Json) : result (list Json) :=
  match j with
  | JArr l => Ok l
  | JStr s => Ok ((fun c => JStr [c]) <$> s)
  | JObj fields => Ok (JStr ∘ fst <$> fields)
  | _ => Err TypeError
  end.

(** [s.rstrip("/")] and [s.split("/")\[-1\]] *)
Fixpoint drop_slashes (s : pystr) : pystr :=
  match s with "/"%char :: s => drop_slashes s | _ => s end.
Definition rstrip_slash (s : pystr) : pystr := reverse (drop_slashes (reverse s)).

Fixpoint until_slash (s : pystr) : pystr :=
  match s with [] | "/"%char :: _ => [] | c :: s => c :: until_slash s end.
Definition last_segment (s : pystr) : pystr := reverse (until_slash (reverse s)).

(** [s.rfind(p)]; [None] stands for -1. *)
Fixpoint rfind (p s : pystr) : option nat :=
  match s with
  | [] => if startswith s p then Some 0 else None
  | _ :: s' => match rfind p s' with
               | Some i => Some (S i)
               | None => if startswith s p then Some 0 else None
               end
  end.

(** * Reading a request body *)

(** [_is_token_id_list]; [type(item) is int] excludes booleans. *)
Fixpoint token_id_list (l : list Json) : option (list Z) :=
  match l with
  | [] => Some []
  | JInt z :: l => cons z <$> token_id_list l
  | _ => None
  end.
Definition is_token_id_list (j : Json) : option (list Z) :=
  match j with JArr l => token_id_list l | _ => None end.

Abbreviation Body := (list (pystr * Json)).

(** [_stream_includes_usage] *)
Definition stream_includes_usage (body : Body) : bool :=
  match field "stream_options" body with
  | Some (JObj options) => match field "include_usage" options with Some (JBool true) => true | _ => false end
  | _ => false
  end.

(** [_migration_metadata] *)
Definition migration_metadata (kv : Body) : result (Z * option Z) :=
  seq_id ← py_int (default (JInt 0) (json_or (field "seq_id" kv) (Some (JInt 0))));
  if decide (seq_id <= 0)%Z then Err ValueError
  else match field "first_token" kv with
       | None | Some JNull => Ok (seq_id, None)
       | Some j => t ← py_int j; Ok (seq_id, Some t)
       end.

(** [_parse_stop] *)
Definition stop_strings (l : list Json) : list pystr :=
  omap (fun j => match j with JStr (c :: s) => Some (c :: s) | _ => None end) l.
Definition parse_stop (body : Body) : list pystr :=
  match field "stop" body with
  | Some (JStr s) => stop_strings [JStr s]
  | Some (JArr l) => stop_strings l
  | _ => []
  end.

(** [flatten_content] *)
Definition flatten_content (content : Json) : Json :=
  match content with
  | JArr parts =>
      JStr (concat (omap (fun part => match part with
                                      | JStr s => Some s
                                      | JObj fields => match field "text" fields with Some (JStr t) => Some t | _ => None end
                                      | _ => None
                                      end) parts))
  | _ => content
  end.

Section requests.
(** [json.loads], [json.dumps] with [ensure_ascii], [str] and [float] of a JSON value, the
    digest of [hashlib.blake2b(digest_size=8)], the file-system functions of [os.path], and
    the tokenizer.  [apply_chat_template] gets the messages and the tools, if any. *)
Context (json_loads : pystr -> option Json) (json_dumps : bool -> Json -> pystr) (py_str : Json -> pystr).
Context {F : Type} (py_float : Json -> result F) (blake2b : pystr -> list Z).
Context (expanduser : pystr -> pystr) (realpath : pystr -> option pystr).
Context (encode : pystr -> list Z) (apply_chat_template : list Json -> option Json -> result pystr).

(** The part of [OpenAIServer] requests read. *)
Record ServerConfig := mk_server_config {
  served_model_name : pystr;
  model_path : pystr;
  default_max_tokens : Z;
  max_model_len : Z;
  tool_parser : ParserClass
}.

(** [__init__] *)
Definition new_server_config (served model_path : pystr) (chat_template tool_call_parser : option pystr)
    (default_max_tokens max_model_len : Z) : ServerConfig :=
  let detected := detect_parser_name model_path served chat_template in
  let name := match tool_call_parser with Some (c :: s) => c :: s | _ => detected end in
  mk_server_config served (rstrip_slash model_path) default_max_tokens max_model_len (get_tool_parser (Some name)).

(** [_build_model_aliases] *)
Definition path_aliases (raw : pystr) : list pystr :=
  rstrip_slash raw :: match realpath raw with Some p => [rstrip_slash p] | None => [] end.
Definition model_aliases (c : ServerConfig) : list pystr :=
  served_model_name c :: path_aliases (model_path c) ++ path_aliases (expanduser (model_path c)) ++
  match last_segment (model_path c) with [] => [] | base => [base] end.

(** [resolve_request_model] *)
Definition is_alias (c : ServerConfig) (key : pystr) : bool :=
  bool_decide (key ∈ model_aliases c) || bool_decide (lower key ∈ lower <$> model_aliases c).
Definition resolve_request_model (c : ServerConfig) (requested : option Json) : result (option pystr) :=
  if negb (default false (truthy <$> requested)) then Ok None
  else match requested with
       | Some (JStr s) =>
           let key := rstrip_slash (strip s) in
           let expanded := expanduser key in
           Ok (if is_alias c key || is_alias c (rstrip_slash expanded) ||
                  match realpath expanded with Some p => is_alias c (rstrip_slash p) | None => false end
               then Some (served_model_name c) else None)
       | _ => Err AttributeError
       end.

(** [_normalize_messages] *)
Definition normalize_arguments (fn : Body) : Body :=
  match field "arguments" fn with
  | Some (JStr args) =>
      dict_put (lit "arguments")
        (match (if bool_decide (strip args = []) then Some (JObj []) else json_loads args) with
         | Some (JObj o) => JObj o
         | _ => JObj []
         end) fn
  | None | Some JNull => dict_put (lit "arguments") (JObj []) fn
  | Some _ => fn
  end.
Definition normalize_call (call : Json) : Json :=
  match call with
  | JObj fields => match field "function" fields with
                   | Some (JObj fn) => JObj (dict_put (lit "function") (JObj (normalize_arguments fn)) fields)
                   | _ => call
                   end
  | _ => call
  end.
Definition normalize_message (message : Json) : Json :=
  match message with
  | JObj fields =>
      let fields := match field "content" fields with
                    | Some content => dict_put (lit "content") (flatten_content content) fields
                    | None => fields
                    end in
      JObj (match field "tool_calls" fields with
            | Some (JArr calls) => dict_put (lit "tool_calls") (JArr (normalize_call <$> calls)) fields
            | _ => fields
            end)
  | _ => message
  end.
Definition normalize_messages (messages : list Json) : list Json := normalize_message <$> messages.

(** [_prompt_opens_thinking] *)
Definition leaves_open (opener closer prompt : pystr) : bool :=
  match rfind opener prompt with
  | None => false
  | Some i => match rfind closer prompt with Some j => bool_decide (j < i) | None => true end
  end.
Definition prompt_opens_thinking (prompt : pystr) : bool :=
  leaves_open (lit "<think>") (lit "</think>") prompt ||
  leaves_open (lit "<|open|>think<|sep|>") (lit "<|close|>think<|sep|>") prompt.

(** [_encode_chat]: the prompt without a template lists the messages. *)
Definition py_format (j : Json) : pystr := match j with JStr s => s | _ => py_str j end.
Definition plain_message (m : Json) : result pystr :=
  match m with
  | JObj fields => Ok (py_format (default (JStr (lit "user")) (field "role" fields)) ++ lit ": " ++
                       py_format (default (JStr []) (field "content" fields)))
  | _ => Err AttributeError
  end.
Fixpoint join (sep : pystr) (l : list pystr) : pystr :=
  match l with [] => [] | [s] => s | s :: l => s ++ sep ++ join sep l end.
Definition NEWLINE : pystr := [ascii_of_nat 10].

Definition chat_prompt (messages : list Json) (tools : option Json) : result pystr :=
  let tools := match tools with Some t => if truthy t then Some t else None | None => None end in
  match apply_chat_template messages tools with
  | Ok prompt => Ok prompt
  | Err (ValueError | TypeError | NotImplementedError) =>
      parts ← mapM_r plain_message messages;
      Ok (join NEWLINE parts ++ NEWLINE ++ lit "assistant:")
  | Err e => Err e
  end.
Definition encode_chat (messages : list Json) (tools : option Json) : result (list Z * bool) :=
  prompt ← chat_prompt (normalize_messages messages) tools;
  Ok (encode prompt, prompt_opens_thinking prompt).

(** [SamplingParams]: [max_tokens] is a signed 32-bit integer. *)
Record SamplingParams := mk_params { temperature : F; max_tokens : Z; ignore_eos : bool }.

Definition FLOAT_ONE : Json := JFloat (1023 * 2 ^ 52).

(** The temperature of a request; 1.0 when it is absent or null. *)
Definition request_temperature (body : Body) : result F :=
  py_float (match field "temperature" body with None | Some JNull => FLOAT_ONE | Some j => j end).

(** [_build_sampling_params] *)
Definition build_sampling_params (c : ServerConfig) (body : Body) : result SamplingParams :=
  let requested := json_or (field "max_tokens" body) (json_or (field "max_completion_tokens" body) (Some (JInt (default_max_tokens c)))) in
  temperature ← request_temperature body;
  n ← py_int (default JNull requested);
  n ← to_i32 n;
  Ok (mk_params temperature n (default false (truthy <$> field "ignore_eos" body))).

(** [session_affinity_key]; [headers] is [request.headers.get]. *)
Definition SESSION_HEADERS : list pystr := [lit "x-session-id"; lit "x-dlengine-session"; lit "anthropic-session-id"].
Definition some_text (j : option Json) : option pystr := match j with Some (JStr (c :: s)) => Some (c :: s) | _ => None end.
Definition session_name (headers : pystr -> option pystr) (body : Body) : option pystr :=
  match head (omap (fun h => headers h ≫= or_none) SESSION_HEADERS) with
  | Some raw => Some raw
  | None =>
      match some_text (field "user" body) with
      | Some user => Some user
      | None => match field "metadata" body with Some (JObj meta) => some_text (field "user_id" meta) | _ => None end
      end
  end.
Definition session_affinity_key (headers : pystr -> option pystr) (body : Body) : Z :=
  match session_name headers body with
  | None => 0
  | Some raw =>
      let key := Z.land (foldl (fun acc b => acc * 256 + b)%Z 0%Z (blake2b raw)) (2 ^ 64 - 1) in
      if (key =? 0)%Z then 1 else key
  end.

(** [validate_request_length]: whether the request is accepted. *)
Definition validate_request_length (c : ServerConfig) (prompt_ids : list Z) (p : SamplingParams) : bool :=
  bool_decide (zlen prompt_ids <= max_model_len c)%Z &&
  bool_decide (zlen prompt_ids + max_tokens p <= max_model_len c)%Z.
End requests.
Arguments mk_params {F} temperature max_tokens ignore_eos.
Arguments temperature {F} s.
Arguments max_tokens {F} s.
Arguments ignore_eos {F} s.

(** * The text stream of a request *)

(** What a consumer of [stream_text] sees at one yield: the delta, [gen.in_reasoning] and
    [gen.tool_calls]. *)
Record Chunk := mk_chunk { c_text : pystr; c_reasoning : bool; c_calls : list (pystr * pystr) }.

(** [_Generation]; the object is shared, so a consumer that has seen it once sees its final
    fields.  [g_out] holds the fields a structured parser fills. *)
Record Gen := mk_g { g_tokens : list Z; g_finish : string; g_parsed : bool; g_out : Output }.
Definition fresh_gen : Gen := mk_g [] "stop" false new_output.

(** A finished run of [stream_text]: the chunks, the generation, whether it raised
    [RuntimeError], and whether it asked the engine to abort the sequence. *)
Record StreamRun := mk_run { chunks : list Chunk; gen : Gen; raised : bool; aborted : bool }.

(** [open_markers], [reasoning_close_marker] and [create_stream_parser] of a parser. *)
Definition open_markers (cls : ParserClass) : list pystr :=
  match cls with KimiK3ToolParser => [THINK_OPEN; TOOLS_OPEN] | _ => [TOOL_OPEN; THINK] end.
Definition reasoning_close_marker (cls : ParserClass) : pystr :=
  match cls with KimiK3ToolParser => THINK_CLOSE | _ => END_THINK end.
Definition creates_stream_parser (cls : ParserClass) : bool :=
  match cls with KimiK3ToolParser => true | _ => false end.

(** The chunks of a structured stream with the tool calls collected at each of them. *)
Fixpoint event_chunks (o : Output) (ds : list Delta) : list Chunk * Output :=
  match ds with
  | [] => ([], o)
  | d :: ds => let '((r, t), o) := apply_parsed_delta o d in
               let '(cs, o') := event_chunks o ds in (mk_chunk t r (tool_calls o) :: cs, o')
  end.

(** The items of a request's queue as the generator tells them apart. *)
Definition queue_item {B} (it : EngineIpc.Item (B := B)) : Streaming.Item :=
  match it with
  | Tokens ts => ItemTokens ts
  | Close => ItemEnd
  | Finish | Migration _ _ _ => ItemOther
  end.

Section streams.
Context (json_loads : pystr -> option Json) (json_dumps : bool -> Json -> pystr) (py_str : Json -> pystr).
(** [tokenizer.decode(ids, skip_special_tokens=True)], the decoding of the incremental
    detokenizer, and U+FFFD. *)
Context (decode : list Z -> pystr) (stream_decode : list Z -> pystr) (replacement : ascii).

(** [json.dumps(arguments, ensure_ascii=False)] of a structured call. *)
Definition dump_arguments (args : list (pystr * ArgValue (V := Json))) : pystr :=
  json_dumps false (JObj ((fun '(k, v) => (k, match v with Raw s => JStr s | Parsed j => j end)) <$> args)).

(** [tool_parser.parse_full] *)
Definition parse_text (cls : ParserClass) (tools : option (list Json)) (text : pystr) : ParsedOutput :=
  match cls with
  | HermesToolParser => parse_hermes json_loads json_dumps text
  | Qwen3XMLToolParser => parse_qwen json_loads json_dumps text
  | GLMXMLToolParser => parse_glm json_loads json_dumps py_str tools text
  | KimiK3ToolParser => default (mk_parsed None None []) (StructuredStream.parse_full json_loads dump_arguments text)
  end.

(** [OpenAIServer.parse_generation] *)
Definition server_parse_generation (cls : ParserClass) (g : Gen) (text : pystr) (tools : option Json) : ParsedOutput :=
  if g_parsed g then StructuredStream.parse_generation (g_out g)
  else parse_text cls (match tools with Some (JArr l) => Some l | _ => None end) text.

(** The run of a raw stream that has ended. *)
Definition raw_run (cls : ParserClass) (stop hold : list pystr) (reasoning_open : bool) (max_tokens : Z)
    (items : list Streaming.Item) : option StreamRun :=
  let '(evs, g, out) := stream_text_raw stream_decode replacement
                          (mk_markers stop hold (reasoning_close_marker cls) THINK) reasoning_open max_tokens items in
  let run finish := mk_run ((fun '(r, t) => mk_chunk t r []) <$> evs)
                      (mk_g (Streaming.token_ids g) finish false new_output) in
  match out with
  | Waiting => None
  | Stopped => Some (run "stop" false true)
  | Ended reason => Some (run reason false false)
  | Raised => Some (run "stop" true false)
  end.

(** The run of a structured stream that has ended. *)
Definition structured_run (stop : list pystr) (reasoning_open : bool) (max_tokens : Z) (items : list Streaming.Item)
    : option StreamRun :=
  match structured_events json_loads dump_arguments stream_decode replacement stop reasoning_open max_tokens items with
  | None | Some (_, _, _, Waiting) => None
  | Some (es, _, g, Raised) =>
      let '(cs, o) := event_chunks new_output es in
      Some (mk_run cs (mk_g (Streaming.token_ids g) "stop" true o) true false)
  | Some (es, _, g, (Stopped | Ended _) as out) =>
      let '(cs, o) := event_chunks new_output es in
      let '(finish, stopped) := match out with Ended reason => (reason, false) | _ => ("stop", true) end in
      Some (mk_run (cs ++ [mk_chunk [] (out_in_reasoning o) (tool_calls o)])
              (mk_g (Streaming.token_ids g) finish true o) false stopped)
  end.

(** [stream_text] *)
Definition stream_text (cls : ParserClass) (stop hold : list pystr) (reasoning_open : bool) (max_tokens : Z)
    (items : list Streaming.Item) : option StreamRun :=
  if creates_stream_parser cls then structured_run stop reasoning_open max_tokens items
  else raw_run cls stop hold reasoning_open max_tokens items.

(** The generation a consumer holds after the loop: its initial one when nothing was yielded. *)
Definition seen_gen {A} (initial : A) (f : Gen -> A) (run : StreamRun) : A :=
  match chunks run with [] => initial | _ => f (gen run) end.

(** * Responses *)

Record Usage := mk_usage { prompt_tokens : Z; completion_tokens : Z }.

(** A chunk's [delta] *)
Record ChatDelta := mk_delta {
  d_role : bool;
  d_reasoning : option pystr;
  d_content : option pystr;
  d_calls : list (nat * (pystr * pystr))
}.
Definition empty_delta : ChatDelta := mk_delta false None None [].

Inductive ChatEvent :=
  | ChatChunk (delta : ChatDelta) (finish_reason : option string)
  | ChatUsage (u : Usage)
  | ChatError
  | ChatDone.

Record ChatMessage := mk_message {
  m_content : pystr;
  m_reasoning : option pystr;
  m_calls : list (pystr * pystr);
  m_finish : string;
  m_usage : Usage
}.

(** [\[{"index": i, **call} for i, call in enumerate(calls, start)\]] *)
Definition indexed (start : nat) (calls : list (pystr * pystr)) : list (nat * (pystr * pystr)) :=
  imap (fun i call => (start + i, call)) calls.

(** One round of the loop of the chat [event_stream]: its event, if any, with
    [streamed_reasoning] and [streamed_call_count]. *)
Definition chat_chunk (use_tools parsed : bool) (c : Chunk) (s : bool * nat) : list ChatEvent * (bool * nat) :=
  let '(streamed_reasoning, count) := s in
  let text := or_none (c_text c) in
  let new_calls := if use_tools && parsed then drop count (c_calls c) else [] in
  let delta := mk_delta false (if c_reasoning c then text else None) (if c_reasoning c then None else text) (indexed count new_calls) in
  let s := (streamed_reasoning || (c_reasoning c && bool_decide (is_Some text)),
            match new_calls with [] => count | _ => length (c_calls c) end) in
  (match text, new_calls with None, [] => [] | _, _ => [ChatChunk delta None] end, s).

Fixpoint chat_chunks (use_tools parsed : bool) (cs : list Chunk) (s : bool * nat) : list ChatEvent * (bool * nat) :=
  match cs with
  | [] => ([], s)
  | c :: cs => let '(e, s) := chat_chunk use_tools parsed c s in
               let '(es, s) := chat_chunks use_tools parsed cs s in (e ++ es, s)
  end.

(** The chunk that carries what the loop did not stream, and the finish reason. *)
Definition chat_tail (cls : ParserClass) (use_tools : bool) (tools : option Json) (g : Gen) (s : bool * nat)
    : list ChatEvent * string :=
  if negb use_tools then ([], g_finish g)
  else
    let full_text := if g_parsed g then [] else decode (g_tokens g) in
    let parsed := server_parse_generation cls g full_text tools in
    let reasoning := if s.1 then None else po_reasoning parsed in
    let remaining := drop s.2 (po_calls parsed) in
    (match reasoning, remaining with
     | None, [] => []
     | _, _ => [ChatChunk (mk_delta false reasoning None (indexed s.2 remaining)) None]
     end,
     match po_calls parsed with [] => g_finish g | _ => "tool_calls" end).

(** [event_stream] of [chat_completions] *)
Definition chat_event_stream (cls : ParserClass) (use_tools : bool) (tools : option Json) (include_usage : bool)
    (prompt_len : Z) (run : StreamRun) : list ChatEvent :=
  let '(body, s) := chat_chunks use_tools (g_parsed (gen run)) (chunks run) (false, 0) in
  [ChatChunk (mk_delta true None None []) None] ++ body ++
  if raised run then [ChatError; ChatDone]
  else
    let g := seen_gen fresh_gen id run in
    let '(tail, finish) := chat_tail cls use_tools tools g s in
    tail ++ [ChatChunk empty_delta (Some finish)] ++
    (if include_usage then [ChatUsage (mk_usage prompt_len (zlen (g_tokens g)))] else []) ++ [ChatDone].

(** The text of the chunks on a channel. *)
Definition channel_text (reasoning : bool) (cs : list Chunk) : pystr :=
  concat (c_text <$> filter (fun c => c_reasoning c = reasoning) cs).

(** The non-streaming reply of [chat_completions]; [None] is the error 500. *)
Definition chat_response (cls : ParserClass) (use_tools : bool) (tools : option Json) (prompt_len : Z) (run : StreamRun)
    : option ChatMessage :=
  if raised run then None
  else
    let g := seen_gen fresh_gen id run in
    let parsed := server_parse_generation cls g (channel_text false (chunks run)) (if use_tools then tools else None) in
    let reasoning := match channel_text true (chunks run) with [] => po_reasoning parsed | t => Some t end in
    let calls := if use_tools then po_calls parsed else [] in
    Some (mk_message (default [] (po_content parsed)) (reasoning ≫= or_none) calls
            (match calls with [] => g_finish g | _ => "tool_calls" end)
            (mk_usage prompt_len (zlen (g_tokens g)))).

(** [event_stream] and the non-streaming reply of [completions] *)
Inductive TextEvent :=
  | TextChunk (text : pystr) (finish_reason : option string)
  | TextUsage (u : Usage)
  | TextError
  | TextDone.

Definition completion_event_stream (include_usage : bool) (prompt_len : Z) (run : StreamRun) : list TextEvent :=
  ((fun c => TextChunk (c_text c) None) <$> chunks run) ++
  if raised run then [TextError; TextDone]
  else
    let g := seen_gen fresh_gen id run in
    [TextChunk [] (Some (g_finish g))] ++
    (if include_usage then [TextUsage (mk_usage prompt_len (zlen (g_tokens g)))] else []) ++ [TextDone].

Definition completion_response (prompt_len : Z) (run : StreamRun) : option (pystr * string * Usage) :=
  if raised run then None
  else
    let g := seen_gen fresh_gen id run in
    Some (concat (c_text <$> chunks run), g_finish g, mk_usage prompt_len (zlen (g_tokens g))).
End streams.

(** * The handlers *)

Section handlers.
Context (json_loads : pystr -> option Json) (json_dumps : bool -> Json -> pystr) (py_str : Json -> pystr).
Context {F : Type} (py_float : Json -> result F) (blake2b : pystr -> list Z).
Context (expanduser : pystr -> pystr) (realpath : pystr -> option pystr).
Context (encode : pystr -> list Z) (apply_chat_template : list Json -> option Json -> result pystr).
Context (decode : list Z -> pystr) (stream_decode : list Z -> pystr) (replacement : ascii).
(** [tokenizer.encode] of a value that is no text. *)
Context (encode_other : Json -> result (list Z)).
(** Packets, [base64.b64encode], and [base64.b64decode] with [None] when it raises. *)
Context {B : Type} `{Wire B} (b64encode : B -> pystr) (b64decode : Json -> option B).
Notation Server := (Server (B := B) (SP := SamplingParams (F := F))).

(** A reply.  [Crash] is an exception no handler catches, which the framework answers with
    status 500. *)
Inductive Reply :=
  | ErrorReply (status : Z) (code : option string)
  | Crash (e : exn)
  | ChatReply (m : ChatMessage)
  | ChatStream (yields : list ChatEvent)
  | TextReply (text : pystr) (finish : string) (u : Usage)
  | TextStream (yields : list TextEvent)
  | FinishedReply (text : pystr) (u : Usage)
  | MigratedReply (migration : pystr) (first_token seq : Z) (prompt_len : Z)
  | FreedReply (seq_ids : list Z).

(** A request that was submitted: what the rest of the handler needs. *)
Record Submitted := mk_submitted {
  s_seq : Z;
  s_prompt_len : Z;
  s_max_tokens : Z;
  s_stop : list pystr;
  s_reasoning_open : bool;
  s_use_tools : bool;
  s_tools : option Json;
  s_stream : bool;
  s_include_usage : bool;
  s_remote : bool
}.

(** [body.get("kv_transfer_params") or {}], then its [do_remote_decode] and [migration]. *)
Definition kv_transfer_params (body : Body) : result Body :=
  match json_or (field "kv_transfer_params" body) (Some (JObj [])) with
  | Some (JObj kv) => Ok kv
  | _ => Err AttributeError
  end.
Definition flag (k : string) (kv : Body) : bool := default false (truthy <$> field k kv).

(** The submission shared by the two handlers: a prefill request whose cache another engine
    takes over, a sequence taken over from a prefill engine, or a plain request. *)
Definition submit_request (prompt_ids : list Z) (p : SamplingParams (F := F)) (key : Z) (kv : Body) (sv : Server)
    : Server * (Reply + (Z * bool)) :=
  if flag "do_remote_decode" kv then (server_submit prompt_ids p key sv, inr (next_seq_id sv, true))
  else if flag "migration" kv then
    match migration_metadata kv with
    | Err _ => (sv, inl (ErrorReply 400 None))
    | Ok (seq_id, first_token) =>
        match field "migration" kv ≫= b64decode with
        | None => (sv, inl (Crash ValueError))
        | Some payload =>
            match server_submit_migrated payload seq_id first_token sv with
            | None => (sv, inl (Crash ValueError))
            | Some sv' => (sv', inr (seq_id, false))
            end
        end
    end
  else (server_submit prompt_ids p key sv, inr (next_seq_id sv, false)).

(** The checks common to both handlers; a body that is not JSON is [None]. *)
Definition check_body (c : ServerConfig) (body : option Json) : Reply + Body :=
  match body with
  | Some (JObj fields) =>
      match resolve_request_model expanduser realpath c (field "model" fields) with
      | Err e => inl (Crash e)
      | Ok None => inl (ErrorReply 404 (Some "model_not_found"))
      | Ok (Some _) => inr fields
      end
  | _ => inl (ErrorReply 400 None)
  end.

(** The end of both handlers' preparation: the length check and the submission. *)
Definition admit_prompt (c : ServerConfig) (headers : pystr -> option pystr) (body : Body) (p : SamplingParams (F := F))
    (prompt_ids : list Z) (reasoning_open use_tools : bool) (tools : option Json) (sv : Server)
    : Server * (Reply + Submitted) :=
  if negb (validate_request_length c prompt_ids p) then (sv, inl (ErrorReply 400 (Some "context_length_exceeded")))
  else match kv_transfer_params body with
       | Err e => (sv, inl (Crash e))
       | Ok kv =>
           match submit_request prompt_ids p (session_affinity_key blake2b headers body) kv sv with
           | (sv', inl r) => (sv', inl r)
           | (sv', inr (seq, remote)) =>
               (sv', inr (mk_submitted seq (zlen prompt_ids) (max_tokens p) (parse_stop body) reasoning_open use_tools tools
                            (flag "stream" body) (stream_includes_usage body) remote))
           end
       end.

(** [chat_completions] up to its first [await]. *)
Definition is_none_choice (j : option Json) : bool :=
  match j with Some (JStr s) => bool_decide (s = lit "none") | _ => false end.

Definition chat_prompt_ids (c : ServerConfig) (body : Body) : result (SamplingParams (F := F) * (list Z * bool)) :=
  p ← build_sampling_params py_float c body;
  messages ← py_iter (default JNull (json_or (field "messages" body) (Some (JArr []))));
  ids ← encode_chat json_loads py_str encode apply_chat_template messages (field "tools" body);
  Ok (p, ids).

Definition chat_prepare (c : ServerConfig) (headers : pystr -> option pystr) (body : option Json) (sv : Server)
    : Server * (Reply + Submitted) :=
  match check_body c body with
  | inl r => (sv, inl r)
  | inr fields =>
      match chat_prompt_ids c fields with
      | Err e => (sv, inl (Crash e))
      | Ok (p, (ids, reasoning_open)) =>
          admit_prompt c headers fields p ids reasoning_open
            (flag "tools" fields && negb (is_none_choice (field "tool_choice" fields))) (field "tools" fields) sv
      end
  end.

(** [completions] up to its first [await]: token ids, or a text; of a list of texts the
    first. *)
Definition encode_json (j : Json) : result (list Z) :=
  match j with JStr s => Ok (encode s) | _ => encode_other j end.

Definition completion_prompt_ids (body : Body) : Reply + list Z :=
  let of_result r := match r with Ok ids => inr ids | Err e => inl (Crash e) end in
  match field "input_ids" body with
  | Some ((JBool _ | JInt _ | JFloat _ | JStr _ | JArr _ | JObj _) as j) =>
      match is_token_id_list j with Some ids => inr ids | None => inl (ErrorReply 400 None) end
  | None | Some JNull =>
      let prompt := default (JStr []) (field "prompt" body) in
      match is_token_id_list prompt with
      | Some ids => inr ids
      | None => match prompt with
                | JArr l => of_result (encode_json (default (JStr []) (head l)))
                | _ => of_result (encode_json prompt)
                end
      end
  end.

Definition completion_prepare (c : ServerConfig) (headers : pystr -> option pystr) (body : option Json) (sv : Server)
    : Server * (Reply + Submitted) :=
  match check_body c body with
  | inl r => (sv, inl r)
  | inr fields =>
      match build_sampling_params py_float c fields with
      | Err e => (sv, inl (Crash e))
      | Ok p => match completion_prompt_ids fields with
                | inl r => (sv, inl r)
                | inr ids => admit_prompt c headers fields p ids false false None sv
                end
      end
  end.

(** The reply to a prefill request once its queue has ended or handed the sequence over. *)
Definition remote_reply (s : Submitted) (queue : list (EngineIpc.Item (B := B))) : option Reply :=
  (fun h => match h with
            | Migrated payload first_token seq =>
                match b64encode payload with
                | [] => FinishedReply (decode []) (mk_usage (s_prompt_len s) 0)
                | migration => MigratedReply migration first_token seq (s_prompt_len s)
                end
            | FinishedLocally tokens => FinishedReply (decode tokens) (mk_usage (s_prompt_len s) (zlen tokens))
            end) <$> await_migration [] queue.

(** The effect of a run on the server: the abort of a sequence whose text reached a stop
    string. *)
Definition after_run (s : Submitted) (run : StreamRun) (sv : Server) : Server :=
  if aborted run then mk_server (worker_abort (s_seq s) (worker sv)) (next_seq_id sv) else sv.

(** The rest of [chat_completions] over the items of the request's queue; [None] while it
    waits for more. *)
Definition chat_reply (c : ServerConfig) (s : Submitted) (queue : list (EngineIpc.Item (B := B))) (sv : Server)
    : option (Server * Reply) :=
  let cls := tool_parser c in
  if s_remote s then (fun r => (sv, r)) <$> remote_reply s queue
  else
    let hold := if s_stream s && s_use_tools s then open_markers cls else [] in
    run ← stream_text json_loads json_dumps stream_decode replacement cls (s_stop s) hold (s_reasoning_open s)
            (s_max_tokens s) (queue_item <$> queue);
    Some (after_run s run sv,
          if s_stream s then
            ChatStream (chat_event_stream json_loads json_dumps py_str decode cls (s_use_tools s) (s_tools s)
                          (s_include_usage s) (s_prompt_len s) run)
          else match chat_response json_loads json_dumps py_str cls (s_use_tools s) (s_tools s) (s_prompt_len s) run with
               | Some m => ChatReply m
               | None => ErrorReply 500 None
               end).

(** The rest of [completions]. *)
Definition completion_reply (c : ServerConfig) (s : Submitted) (queue : list (EngineIpc.Item (B := B))) (sv : Server)
    : option (Server * Reply) :=
  if s_remote s then (fun r => (sv, r)) <$> remote_reply s queue
  else
    run ← stream_text json_loads json_dumps stream_decode replacement (tool_parser c) (s_stop s) [] false
            (s_max_tokens s) (queue_item <$> queue);
    Some (after_run s run sv,
          if s_stream s then TextStream (completion_event_stream (s_include_usage s) (s_prompt_len s) run)
          else match completion_response (s_prompt_len s) run with
               | Some (text, finish, u) => TextReply text finish u
               | None => ErrorReply 500 None
               end).

(** [pd_free] *)
Definition pd_free (body : option Json) (sv : Server) : Server * Reply :=
  match body with
  | Some (JObj fields) =>
      match field "seq_ids" fields with
      | Some (JArr l) =>
          match mapM_r py_int l with
          | Ok ids => match free_sequences ids (worker sv) with
                      | Some w => (mk_server w (next_seq_id sv), FreedReply ids)
                      | None => (sv, Crash ValueError)
                      end
          | Err (TypeError | ValueError) => (sv, ErrorReply 400 None)
          | Err e => (sv, Crash e)
          end
      | _ => (sv, ErrorReply 400 None)
      end
  | _ => (sv, ErrorReply 400 None)
  end.
End handlers.

(** * Reading a stream of chat events *)

(** What a client has assembled: texts are appended, tool calls are placed by their index. *)
Record Reader := mk_reader {
  k_content : pystr;
  k_reasoning : pystr;
  k_calls : list (pystr * pystr);
  k_finish : option string;
  k_usage : option Usage;
  k_done : bool
}.
Definition new_reader : Reader := mk_reader [] [] [] None None false.

(** Tool calls must continue the ones already there. *)
Fixpoint place_calls (calls : list (pystr * pystr)) (l : list (nat * (pystr * pystr))) : option (list (pystr * pystr)) :=
  match l with
  | [] => Some calls
  | (i, call) :: l => if decide (i = length calls) then place_calls (calls ++ [call]) l else None
  end.

(** One event; [None] when it breaks the protocol: nothing follows the finish reason but the
    usage and the end mark, which is the last. *)
Definition read_event (k : Reader) (e : ChatEvent) : option Reader :=
  if k_done k then None
  else match e, k_finish k with
       | ChatChunk d finish, None =>
           calls ← place_calls (k_calls k) (d_calls d);
           Some (mk_reader (k_content k ++ default [] (d_content d)) (k_reasoning k ++ default [] (d_reasoning d)) calls finish None false)
       | ChatUsage u, Some f => match k_usage k with
                                | None => Some (mk_reader (k_content k) (k_reasoning k) (k_calls k) (Some f) (Some u) false)
                                | Some _ => None
                                end
       | ChatDone, Some f => Some (mk_reader (k_content k) (k_reasoning k) (k_calls k) (Some f) (k_usage k) true)
       | _, _ => None
       end.
Definition read_events (k : Reader) (es : list ChatEvent) : option Reader := foldl (fun k e => k ≫= fun k => read_event k e) (Some k) es.

Lemma read_events_None es : foldl (fun k e => k ≫= fun k => read_event k e) None es = None.
Proof. by induction es. Qed.

Lemma read_events_app k es es' : read_events k (es ++ es') = read_events k es ≫= fun k => read_events k es'.
Proof.
  unfold read_events. rewrite foldl_app. destruct (foldl _ (Some k) es) as [k'|]; [done|]. apply read_events_None.
Qed.

Lemma place_calls_indexed calls l : place_calls calls (indexed (length calls) l) = Some (calls ++ l).
Proof.
  revert calls. induction l as [|x l IH]; intros calls; [by rewrite app_nil_r|].
  unfold indexed. cbn [imap]. rewrite Nat.add_0_r. cbn [place_calls]. rewrite decide_True by done.
  specialize (IH (calls ++ [x])). rewrite <- app_assoc in IH. cbn [app] in IH. rewrite <- IH. f_equal. unfold indexed. apply imap_ext.
  intros i y _. rewrite length_app. simpl. f_equal. lia.
Qed.

(** A reader that has seen what a structured generation holds so far. *)
Definition shows (use_tools : bool) (o : Output) (k : Reader) (s : bool * nat) : Prop :=
  k = mk_reader (concat (content_parts o)) (default [] (reasoning o)) (if use_tools then tool_calls o else []) None None false /\
  s = (bool_decide (is_Some (reasoning o)), length (k_calls k)).

Lemma chat_chunk_shows use_tools o k s d :
  nonempty_event d -> shows use_tools o k s ->
  let '((r, t), o') := apply_parsed_delta o d in
  let '(es, s') := chat_chunk use_tools true (mk_chunk t r (tool_calls o')) s in
  exists k', read_events k es = Some k' /\ shows use_tools o' k' s'.
Proof.
  intros Hd [-> ->]. destruct d as [t|t|n a]; cbn [apply_parsed_delta]; unfold chat_chunk; cbn [c_text c_reasoning c_calls tool_calls k_calls].
  - assert (forall x, (if use_tools && true then drop (length (if use_tools then x else [])) x else []) = [] :> list (pystr * pystr)) as ->
      by (intros x; destruct use_tools; [by rewrite drop_all|done]).
    destruct t as [|c t]; [done|]. cbn. eexists. split; [reflexivity|]. split; cbn [content_parts reasoning tool_calls k_calls].
    + by rewrite concat_app, app_nil_r; cbn; rewrite app_nil_r.
    + by rewrite orb_false_r.
  - assert (forall x, (if use_tools && true then drop (length (if use_tools then x else [])) x else []) = [] :> list (pystr * pystr)) as ->
      by (intros x; destruct use_tools; [by rewrite drop_all|done]).
    destruct t as [|c t]; [done|]. cbn. eexists. split; [reflexivity|]. split; cbn [content_parts reasoning tool_calls k_calls].
    + by rewrite app_nil_r.
    + rewrite orb_true_r. done.
  - destruct use_tools; cbn [andb].
    + rewrite drop_app_length. unfold read_events, read_event. cbn [foldl k_done k_finish mbind option_bind or_none].
      cbn [d_calls k_calls]. rewrite place_calls_indexed. cbn. eexists. split; [reflexivity|].
      split; cbn [content_parts reasoning tool_calls k_calls]; [by rewrite !app_nil_r|].
      by rewrite orb_false_r.
    + cbn. eexists. split; [reflexivity|]. split; [done|]. by rewrite orb_false_r.
Qed.

Lemma chat_chunks_app use_tools parsed cs cs' s :
  chat_chunks use_tools parsed (cs ++ cs') s =
  let '(es, s) := chat_chunks use_tools parsed cs s in
  let '(es', s) := chat_chunks use_tools parsed cs' s in (es ++ es', s).
Proof.
  revert s. induction cs as [|c cs IH]; intros s; cbn [chat_chunks app].
  { by destruct (chat_chunks use_tools parsed cs' s). }
  destruct (chat_chunk use_tools parsed c s) as [e s1]. rewrite IH.
  destruct (chat_chunks use_tools parsed cs s1) as [es s2]. destruct (chat_chunks use_tools parsed cs' s2). by rewrite app_assoc.
Qed.

Lemma event_chunks_shows use_tools o k s ds :
  Forall nonempty_event ds -> shows use_tools o k s ->
  let '(cs, o') := event_chunks o ds in
  let '(es, s') := chat_chunks use_tools true cs s in
  exists k', read_events k es = Some k' /\ shows use_tools o' k' s'.
Proof.
  intros Hds. revert o k s. induction Hds as [|d ds Hd _ IH]; intros o k s Hs; cbn [event_chunks].
  { by exists k. }
  pose proof (chat_chunk_shows use_tools o k s d Hd Hs) as H1.
  destruct (apply_parsed_delta o d) as [[r t] o1]. destruct (event_chunks o1 ds) as [cs o'] eqn:E. cbn [chat_chunks].
  destruct (chat_chunk _ _ _ s) as [e s1]. destruct H1 as (k1 & Hk1 & Hs1).
  specialize (IH o1 k1 s1 Hs1). rewrite E in IH. destruct (chat_chunks use_tools true cs s1) as [es s2].
  destruct IH as (k2 & Hk2 & Hs2). exists k2. split; [|done]. rewrite read_events_app, Hk1. exact Hk2.
Qed.

(** The texts of the chunks are those the generation collects. *)
Lemma channel_text_cons r c cs :
  channel_text r (c :: cs) = (if decide (c_reasoning c = r) then c_text c else []) ++ channel_text r cs.
Proof. unfold channel_text. rewrite filter_cons. by case_decide. Qed.

Lemma channel_text_app r cs cs' : channel_text r (cs ++ cs') = channel_text r cs ++ channel_text r cs'.
Proof. unfold channel_text. by rewrite filter_app, fmap_app, concat_app. Qed.

Lemma event_chunks_text o ds :
  let '(cs, o') := event_chunks o ds in
  concat (content_parts o') = concat (content_parts o) ++ channel_text false cs /\
  default [] (reasoning o') = default [] (reasoning o) ++ channel_text true cs.
Proof.
  revert o. induction ds as [|d ds IH]; intros o; cbn [event_chunks].
  { unfold channel_text. simpl. by rewrite !app_nil_r. }
  destruct (apply_parsed_delta o d) as [[r t] o1] eqn:Ed. specialize (IH o1). destruct (event_chunks o1 ds) as [cs o'].
  destruct IH as [-> ->]. rewrite !channel_text_cons. cbn [c_reasoning c_text].
  destruct d; injection Ed as <- <- <-; cbn [content_parts reasoning]; rewrite ?concat_app; cbn; rewrite ?app_nil_r, <- ?app_assoc; done.
Qed.

(** The reader of a complete stream without an error. *)
Definition reads_as (yields : list ChatEvent) (m : ChatMessage) (include_usage : bool) : Prop :=
  exists reasoning, m_reasoning m = or_none reasoning /\
  read_events new_reader yields =
    Some (mk_reader (m_content m) reasoning (m_calls m) (Some (m_finish m)) (if include_usage then Some (m_usage m) else None) true).

Section equivalence.
Context (json_loads : pystr -> option Json) (json_dumps : bool -> Json -> pystr) (py_str : Json -> pystr).
Context (decode : list Z -> pystr) (stream_decode : list Z -> pystr) (replacement : ascii).

(** A run of a structured stream that did not raise. *)
Lemma structured_run_shape stop reasoning_open max_tokens items run :
  structured_run json_loads json_dumps stream_decode replacement stop reasoning_open max_tokens items = Some run ->
  raised run = false ->
  exists ds cs o, Forall nonempty_event ds /\ event_chunks new_output ds = (cs, o) /\
    chunks run = cs ++ [mk_chunk [] (out_in_reasoning o) (tool_calls o)] /\ g_parsed (gen run) = true /\ g_out (gen run) = o.
Proof.
  unfold structured_run.
  destruct (structured_events _ _ _ _ _ _ _ _) as [[[[es b] g] out]|] eqn:E; [|done]. apply structured_events_nonempty in E.
  destruct (event_chunks new_output es) as [cs o] eqn:Ec.
  destruct out; try done; intros [= <-] Hr; try done; by exists es, cs, o.
Qed.

Lemma structured_run_text stop reasoning_open max_tokens items run :
  structured_run json_loads json_dumps stream_decode replacement stop reasoning_open max_tokens items = Some run ->
  raised run = false ->
  g_parsed (gen run) = true /\ channel_text false (chunks run) = concat (content_parts (g_out (gen run))) /\
  channel_text true (chunks run) = default [] (reasoning (g_out (gen run))) /\
  forall A (x : A) f, seen_gen x f run = f (gen run).
Proof.
  intros Hrun Hra. destruct (structured_run_shape _ _ _ _ _ Hrun Hra) as (ds & cs & o & _ & Ec & Hch & Hp & ->).
  pose proof (event_chunks_text new_output ds) as Ht. rewrite Ec in Ht. cbn in Ht. destruct Ht as [-> ->].
  rewrite Hch, !channel_text_app, !channel_text_cons. cbn [c_text]. split_and!; [done|..].
  - case_decide; by rewrite !app_nil_r.
  - case_decide; by rewrite !app_nil_r.
  - intros A x f. unfold seen_gen. rewrite Hch. by destruct cs.
Qed.

Lemma chat_stream_reads use_tools tools include_usage prompt_len stop reasoning_open max_tokens items run m :
  let cls := KimiK3ToolParser in
  structured_run json_loads json_dumps stream_decode replacement stop reasoning_open max_tokens items = Some run ->
  chat_response json_loads json_dumps py_str cls use_tools tools prompt_len run = Some m ->
  reads_as (chat_event_stream json_loads json_dumps py_str decode cls use_tools tools include_usage prompt_len run) m include_usage.
Proof.
  intros cls Hrun. unfold chat_response, chat_event_stream. destruct (raised run) eqn:Hra; [done|].
  destruct (structured_run_shape _ _ _ _ _ Hrun Hra) as (ds & cs & o & Hds & Ec & Hch & Hp & Ho).
  destruct (structured_run_text _ _ _ _ _ Hrun Hra) as (_ & Htc & Htr & Hseen). rewrite Ho in Htc, Htr.
  rewrite !Hseen, Hp. unfold id. unfold server_parse_generation. rewrite Hp, Ho.
  pose proof (event_chunks_shows use_tools new_output new_reader (false, 0) ds Hds) as Hs. rewrite Ec in Hs.
  rewrite Hch, chat_chunks_app. destruct (chat_chunks use_tools true cs (false, 0)) as [es s].
  destruct Hs as (k & Hk & Hsh). { split; [|done]. by destruct use_tools. }
  destruct Hsh as [Hk' Hs']. cbn [chat_chunks].
  assert (chat_chunk use_tools true (mk_chunk [] (out_in_reasoning o) (tool_calls o)) s = ([], s)) as ->.
  { subst s k. unfold chat_chunk. cbn [c_text c_calls c_reasoning k_calls or_none].
    destruct use_tools; cbn [andb]; [rewrite drop_all|]; cbn; by rewrite andb_false_r, orb_false_r. }
  rewrite !app_nil_r. intros [= <-]. unfold reads_as.
  exists (default [] (reasoning o)). cbn [m_reasoning m_content m_calls m_finish m_usage].
  split.
  - rewrite <- Hch, Htr. cbn [parse_generation po_reasoning]. destruct (reasoning o) as [[|c r]|]; done.
  - assert (chat_tail json_loads json_dumps py_str decode cls use_tools tools (gen run) s =
            ([], match (if use_tools then tool_calls o else []) with [] => g_finish (gen run) | _ => "tool_calls" end)) as ->.
    { unfold chat_tail. destruct use_tools; [|done]. unfold server_parse_generation. rewrite Hp, Ho. subst s k.
      cbn [negb fst snd parse_generation po_reasoning po_calls k_calls]. rewrite drop_all. by destruct (reasoning o). }
    rewrite read_events_app.
    change (read_events new_reader [ChatChunk (mk_delta true None None []) None]) with (Some new_reader).
    cbn [mbind option_bind]. rewrite read_events_app, Hk. subst k. cbn [mbind option_bind].
    destruct include_usage; cbn; rewrite !app_nil_r; by destruct (concat (content_parts o)).
Qed.

Lemma raw_run_parsed cls stop hold reasoning_open max_tokens items run :
  raw_run stream_decode replacement cls stop hold reasoning_open max_tokens items = Some run -> g_parsed (gen run) = false.
Proof.
  unfold raw_run. destruct (stream_text_raw _ _ _ _ _ _) as [[evs g] out]. by destruct out; intros [= <-].
Qed.

(** Without tools the events carry the chunks' texts. *)
Lemma plain_chunks_read parsed cs content reasoning s :
  read_events (mk_reader content reasoning [] None None false) (chat_chunks false parsed cs s).1 =
  Some (mk_reader (content ++ channel_text false cs) (reasoning ++ channel_text true cs) [] None None false).
Proof.
  revert content reasoning s. induction cs as [|c cs IH]; intros content reasoning s.
  { cbn. unfold channel_text. cbn. by rewrite !app_nil_r. }
  cbn [chat_chunks]. destruct (chat_chunk false parsed c s) as [e s1] eqn:Ec.
  assert (read_events (mk_reader content reasoning [] None None false) e =
          Some (mk_reader (content ++ (if decide (c_reasoning c = false) then c_text c else []))
                  (reasoning ++ (if decide (c_reasoning c = true) then c_text c else [])) [] None None false)) as He.
  { destruct s as [sr n]. unfold chat_chunk in Ec. cbn [andb] in Ec. injection Ec as <- _.
    destruct (c_text c) as [|x t]; cbn [or_none].
    - cbn. destruct (c_reasoning c); cbn; by rewrite !app_nil_r.
    - by destruct (c_reasoning c); cbn; rewrite !app_nil_r. }
  specialize (IH (content ++ (if decide (c_reasoning c = false) then c_text c else []))
                 (reasoning ++ (if decide (c_reasoning c = true) then c_text c else [])) s1).
  destruct (chat_chunks false parsed cs s1) as [es s2]. cbn [fst] in *.
  rewrite read_events_app, He. cbn [mbind option_bind]. rewrite IH, !channel_text_cons, !app_assoc. done.
Qed.

Lemma plain_stream_reads cls tools include_usage prompt_len run m :
  chat_response json_loads json_dumps py_str cls false tools prompt_len run = Some m ->
  exists content reasoning,
    read_events new_reader (chat_event_stream json_loads json_dumps py_str decode cls false tools include_usage prompt_len run) =
      Some (mk_reader content reasoning [] (Some (m_finish m)) (if include_usage then Some (m_usage m) else None) true) /\
    let parsed := server_parse_generation json_loads json_dumps py_str cls (seen_gen fresh_gen id run) content None in
    m = mk_message (default [] (po_content parsed)) (match reasoning with [] => po_reasoning parsed ≫= or_none | _ => Some reasoning end)
          [] (m_finish m) (m_usage m).
Proof.
  unfold chat_response, chat_event_stream. destruct (raised run); [done|]. intros [= <-].
  exists (channel_text false (chunks run)), (channel_text true (chunks run)). cbn [m_finish m_usage]. split.
  - pose proof (plain_chunks_read (g_parsed (gen run)) (chunks run) [] [] (false, 0)) as Hr.
    destruct (chat_chunks _ _ _ _) as [es s]. cbn [chat_tail negb fst] in *. rewrite read_events_app.
    change (read_events new_reader [ChatChunk (mk_delta true None None []) None]) with (Some new_reader).
    cbn [mbind option_bind]. unfold new_reader. rewrite read_events_app, Hr. destruct include_usage; cbn; by rewrite !app_nil_r.
  - f_equal. by destruct (channel_text true (chunks run)).
Qed.

(** The events of a completion carry the text of its response. *)
Lemma completion_stream_reads include_usage prompt_len run text finish u :
  completion_response prompt_len run = Some (text, finish, u) ->
  exists texts, completion_event_stream include_usage prompt_len run =
    ((fun t => TextChunk t None) <$> texts) ++ [TextChunk [] (Some finish)] ++ (if include_usage then [TextUsage u] else []) ++ [TextDone] /\
    concat texts = text.
Proof.
  unfold completion_response, completion_event_stream. destruct (raised run); [done|]. intros [= <- <- <-].
  exists (c_text <$> chunks run). split; [|done]. rewrite <- list_fmap_compose. by destruct include_usage.
Qed.
End equivalence.

(** * Messages for the chat template *)

Lemma dict_get_cons {A} k k' (v : A) d : dict_get k ((k', v) :: d) = if decide (k' = k) then Some v else dict_get k d.
Proof. unfold dict_get. cbn [list_find fst]. case_decide; [done|]. by destruct (list_find _ d) as [[i x]|]. Qed.

Lemma dict_get_put_eq {A} k (v : A) d : dict_get k (dict_put k v d) = Some v.
Proof.
  induction d as [|[k' v'] d IH]; cbn [dict_put]; [by rewrite dict_get_cons, decide_True|].
  case_decide; rewrite dict_get_cons; [by rewrite decide_True|]. by rewrite decide_False by congruence.
Qed.

Lemma dict_get_put_ne {A} k k' (v : A) d : k <> k' -> dict_get k (dict_put k' v d) = dict_get k d.
Proof.
  intros Hk. induction d as [|[k2 v2] d IH]; cbn [dict_put]; [by rewrite dict_get_cons, decide_False by congruence|].
  case_decide as E; rewrite !dict_get_cons; [subst k2; by rewrite !decide_False by congruence|]. by rewrite IH.
Qed.

Lemma dict_put_same {A} k (v : A) d : dict_get k d = Some v -> dict_put k v d = d.
Proof.
  induction d as [|[k' v'] d IH]; [done|]. rewrite dict_get_cons. cbn [dict_put]. case_decide as E.
  - intros [= ->]. rewrite decide_True by congruence. by rewrite E.
  - intros Hd. rewrite decide_False by congruence. by rewrite IH.
Qed.

(** What templates accept: the content of a message is no list of parts, and the arguments of
    a call are neither text nor absent. *)
Definition normal_arguments (fn : Body) : Prop :=
  match field "arguments" fn with None | Some JNull | Some (JStr _) => False | Some _ => True end.
Definition normal_call (call : Json) : Prop :=
  match call with
  | JObj fields => match field "function" fields with Some (JObj fn) => normal_arguments fn | _ => True end
  | _ => True
  end.
Definition normal_message (m : Json) : Prop :=
  match m with
  | JObj fields =>
      match field "content" fields with Some (JArr _) => False | _ => True end /\
      match field "tool_calls" fields with Some (JArr calls) => Forall normal_call calls | _ => True end
  | _ => True
  end.

Section messages.
Context (json_loads : pystr -> option Json).

Lemma normalize_arguments_normal fn : normal_arguments (normalize_arguments json_loads fn).
Proof.
  unfold normal_arguments, normalize_arguments, field. destruct (dict_get _ fn) as [[]|] eqn:E; rewrite ?dict_get_put_eq; rewrite ?E; try done.
  destruct (if bool_decide _ then _ else _) as [[]|]; done.
Qed.

Lemma normalize_arguments_id fn : normal_arguments fn -> normalize_arguments json_loads fn = fn.
Proof. unfold normal_arguments, normalize_arguments. destruct (field _ fn) as [[]|]; done. Qed.

Lemma normalize_call_normal call : normal_call (normalize_call json_loads call).
Proof.
  destruct call as [| | | | | |fields]; try done. cbn [normalize_call]. unfold field.
  destruct (dict_get (lit "function") fields) as [j|] eqn:E; [|cbn [normal_call]; unfold field; by rewrite E].
  destruct j; try (cbn [normal_call]; unfold field; by rewrite E).
  cbn [normal_call]. unfold field. rewrite dict_get_put_eq. apply normalize_arguments_normal.
Qed.

Lemma normalize_call_id call : normal_call call -> normalize_call json_loads call = call.
Proof.
  destruct call as [| | | | | |fields]; try done. cbn [normalize_call normal_call]. unfold field.
  destruct (dict_get _ fields) as [[]|] eqn:E; try done. intros Hn. rewrite normalize_arguments_id by done. by rewrite dict_put_same.
Qed.

Lemma normalize_message_normal m : normal_message (normalize_message json_loads m).
Proof.
  destruct m as [| | | | | |fields]; try done. cbn [normalize_message normal_message]. unfold field.
  set (fields1 := match dict_get (lit "content") fields with Some c => _ | None => _ end).
  assert (match dict_get (lit "content") fields1 with Some (JArr _) => False | _ => True end) as Hc.
  { unfold fields1. destruct (dict_get (lit "content") fields) as [c|] eqn:E; [rewrite dict_get_put_eq; by destruct c|by rewrite E]. }
  destruct (dict_get (lit "tool_calls") fields1) as [j|] eqn:Et; [|by rewrite Et].
  destruct j as [| | | | |l|]; rewrite ?Et; try done.
  rewrite dict_get_put_ne, dict_get_put_eq by (by vm_compute). split; [done|]. apply Forall_fmap, Forall_true. intros. apply normalize_call_normal.
Qed.

Lemma normalize_message_id m : normal_message m -> normalize_message json_loads m = m.
Proof.
  destruct m as [| | | | | |fields]; try done. cbn [normalize_message normal_message]. unfold field. intros [Hc Ht].
  assert (match dict_get (lit "content") fields with Some c => dict_put (lit "content") (flatten_content c) fields | None => fields end = fields) as ->.
  { destruct (dict_get _ fields) as [c|] eqn:E; [|done]. by destruct c; rewrite dict_put_same. }
  destruct (dict_get (lit "tool_calls") fields) as [j|] eqn:Et; [|done]. destruct j; try done. f_equal. apply dict_put_same.
  rewrite Et. do 2 f_equal. symmetry. apply fmap_id_Forall. eapply Forall_impl; [exact Ht|]. intros. by apply normalize_call_id.
Qed.
End messages.

(** * Properties *)

Definition with_stream (s : Submitted) : Submitted :=
  mk_submitted (s_seq s) (s_prompt_len s) (s_max_tokens s) (s_stop s) (s_reasoning_open s) (s_use_tools s) (s_tools s)
    true (s_include_usage s) (s_remote s).

Section properties.
Context (json_loads : pystr -> option Json) (json_dumps : bool -> Json -> pystr) (py_str : Json -> pystr).
Context {F : Type} (decode stream_decode : list Z -> pystr) (replacement : ascii).
Context {B : Type} `{Wire B} (b64encode : B -> pystr).
Notation Server := (Server (B := B) (SP := SamplingParams (F := F))).
Notation chat_reply := (chat_reply json_loads json_dumps py_str decode stream_decode replacement b64encode).
Notation completion_reply := (completion_reply json_loads json_dumps decode stream_decode replacement b64encode).

(** C19. A streamed reply carries what the reply without streaming would have said.  For the
    same request and the same engine output: with a structured parser the chat events follow
    the protocol and assemble to the content, reasoning, tool calls, finish reason and usage
    of the message; with the other parsers, and without tools, they assemble to the text
    and reasoning the message is parsed from; and the chunks of a completion concatenate to its text.  The
    server is left in the same state. *)
Theorem streaming_equals_response (c : ServerConfig) (s : Submitted) (queue : list EngineIpc.Item) (sv sv' : Server) :
  s_stream s = false -> s_remote s = false ->
  (forall m, chat_reply c s queue sv = Some (sv', ChatReply m) ->
     (tool_parser c = KimiK3ToolParser ->
      exists yields, chat_reply c (with_stream s) queue sv = Some (sv', ChatStream yields) /\ reads_as yields m (s_include_usage s)) /\
     (tool_parser c <> KimiK3ToolParser -> s_use_tools s = false ->
      exists yields content reasoning, chat_reply c (with_stream s) queue sv = Some (sv', ChatStream yields) /\
        read_events new_reader yields =
          Some (mk_reader content reasoning [] (Some (m_finish m)) (if s_include_usage s then Some (m_usage m) else None) true) /\
        let parsed := parse_text json_loads json_dumps py_str (tool_parser c) None content in
        m_content m = default [] (po_content parsed) /\
        m_reasoning m = match reasoning with [] => po_reasoning parsed ≫= or_none | _ => Some reasoning end)) /\
  (forall text finish u, completion_reply c s queue sv = Some (sv', TextReply text finish u) ->
     exists yields texts, completion_reply c (with_stream s) queue sv = Some (sv', TextStream yields) /\ concat texts = text /\
       yields = ((fun t => TextChunk t None) <$> texts) ++ [TextChunk [] (Some finish)] ++
                        (if s_include_usage s then [TextUsage u] else []) ++ [TextDone]).
Proof.
  intros Hst Hrem. unfold Http.chat_reply, Http.completion_reply, with_stream. cbn [s_stream s_remote s_use_tools s_stop s_reasoning_open
    s_max_tokens s_tools s_prompt_len s_include_usage]. rewrite Hst, Hrem. cbn [andb]. split.
  - intros m Hm. destruct (stream_text _ _ _ _ _ _ _ _ _ _) as [run|] eqn:Hrun; [|done]. cbn in Hm.
    destruct (chat_response _ _ _ _ _ _ _ run) as [m'|] eqn:Hc; [|done]. injection Hm as <- <-. split.
    + intros Hk. rewrite Hk in *. unfold stream_text in Hrun |- *. cbn [creates_stream_parser] in *. rewrite Hrun. cbn.
      eexists. split; [reflexivity|]. by eapply chat_stream_reads.
    + intros Hk Ht. rewrite Ht in *. rewrite Hrun. cbn. assert (g_parsed (seen_gen fresh_gen id run) = false) as Hg.
      { unfold seen_gen. destruct (chunks run); [done|]. unfold stream_text in Hrun. unfold id.
        destruct (tool_parser c); try done; exact (raw_run_parsed _ _ _ _ _ _ _ _ _ Hrun). }
      destruct (plain_stream_reads json_loads json_dumps py_str decode _ _ (s_include_usage s) _ _ _ Hc) as (content & reasoning & Hr & Hm).
      unfold server_parse_generation in Hm. rewrite Hg in Hm.
      eexists _, content, reasoning. split; [reflexivity|]. split; [exact Hr|]. rewrite Hm. cbn [m_content m_reasoning]. done.
  - intros text finish u Hm. destruct (stream_text _ _ _ _ _ _ _ _ _ _) as [run|]; [|done]. cbn in *.
    destruct (completion_response _ run) as [[[text' finish'] u']|] eqn:Hc; [|done]. injection Hm as <- <- <- <-.
    destruct (completion_stream_reads (s_include_usage s) _ _ _ _ _ Hc) as (texts & He & Ht).
    by eexists _, texts.
Qed.
End properties.

(** ** Admission *)

Section admission.
Context (json_loads : pystr -> option Json) (py_str : Json -> pystr).
Context {F : Type} (py_float : Json -> result F) (blake2b : pystr -> list Z).
Context (expanduser : pystr -> pystr) (realpath : pystr -> option pystr).
Context (encode : pystr -> list Z) (apply_chat_template : list Json -> option Json -> result pystr).
Context (encode_other : Json -> result (list Z)).
Context {B : Type} `{Wire B} (b64encode : B -> pystr) (b64decode : Json -> option B).
Notation Server := (Server (B := B) (SP := SamplingParams (F := F))).

(** The outcome of preparing a request: refused without a trace, or exactly one request
    queued for the engine. *)
Definition admitted (c : ServerConfig) (body : option Json) (sv : Server) (x : Server * (Reply + Submitted)) : Prop :=
  match x with
  | (sv', inl _) => sv' = sv
  | (sv', inr s) =>
      exists fields name queue item, body = Some (JObj fields) /\
        resolve_request_model expanduser realpath c (field "model" fields) = Ok (Some name) /\
        (s_prompt_len s <= max_model_len c /\ s_prompt_len s + s_max_tokens s <= max_model_len c)%Z /\
        worker sv' = submit (s_seq s) queue item (worker sv)
  end.

Lemma submit_request_spec prompt_ids p key kv (sv : Server) :
  match submit_request b64decode prompt_ids p key kv sv with
  | (sv', inl _) => sv' = sv
  | (sv', inr (seq, _)) => exists queue item, worker sv' = submit seq queue item (worker sv)
  end.
Proof.
  unfold submit_request, server_submit. destruct (flag "do_remote_decode" kv); [by eexists _, _|].
  destruct (flag "migration" kv); [|by eexists _, _]. destruct (migration_metadata kv) as [[seq first]|]; [|done].
  destruct (_ ≫= b64decode) as [payload|]; [|done]. unfold server_submit_migrated.
  destruct (migrate_metadata payload); [|done]. by eexists _, _.
Qed.

Lemma admit_prompt_admitted c headers fields p ids reasoning_open use_tools tools (sv : Server) name :
  resolve_request_model expanduser realpath c (field "model" fields) = Ok (Some name) ->
  admitted c (Some (JObj fields)) sv (admit_prompt blake2b b64decode c headers fields p ids reasoning_open use_tools tools sv).
Proof.
  intros Hname. unfold admit_prompt. destruct (validate_request_length c ids p) eqn:Hv; [|done]. cbn [negb].
  destruct (kv_transfer_params fields) as [kv|]; [|done].
  pose proof (submit_request_spec ids p (session_affinity_key blake2b headers fields) kv sv) as Hs.
  destruct (submit_request _ _ _ _ _ _) as [sv' [r|[seq remote]]]; [done|]. destruct Hs as (queue & item & Hw).
  unfold validate_request_length in Hv. apply andb_true_iff in Hv as [?%bool_decide_eq_true ?%bool_decide_eq_true].
  by exists fields, name, queue, item.
Qed.

Lemma check_body_inr c body fields :
  check_body expanduser realpath c body = inr fields ->
  body = Some (JObj fields) /\ exists name, resolve_request_model expanduser realpath c (field "model" fields) = Ok (Some name).
Proof.
  unfold check_body. destruct body as [[]|]; try done. destruct (resolve_request_model _ _ _ _) as [[name|]|] eqn:E; try done.
  intros [= <-]. eauto.
Qed.

(** Whatever the body of a chat or completion request, a request is either answered
    without any effect on the server, or exactly one request is queued for the engine under
    the sequence id the handler waits on, and then the body is an object that names a model
    of this server and the prompt together with [max_tokens] fits the context length. *)
Theorem admission_leaves_no_trace (c : ServerConfig) (headers : pystr -> option pystr) (body : option Json) (sv : Server) :
  admitted c body sv (chat_prepare json_loads py_str py_float blake2b expanduser realpath encode apply_chat_template b64decode c headers body sv) /\
  admitted c body sv (completion_prepare py_float blake2b expanduser realpath encode encode_other b64decode c headers body sv).
Proof.
  unfold chat_prepare, completion_prepare.
  destruct (check_body expanduser realpath c body) as [r|fields] eqn:E; [done|]. apply check_body_inr in E as (-> & name & Hn). split.
  - destruct (chat_prompt_ids _ _ _ _ _ _ _) as [[p [ids ro]]|]; [|done]. by eapply admit_prompt_admitted.
  - destruct (build_sampling_params _ _ _) as [p|]; [|done]. destruct (completion_prompt_ids _ _ _) as [r|ids]; [done|].
    by eapply admit_prompt_admitted.
Qed.

(** ** Handing a sequence over *)

(** The [kv_transfer_params] of a prefill reply, which the router passes to a decode server. *)
Definition handoff_params (migration : pystr) (first_token seq : Z) : Body :=
  [(lit "migration", JStr migration); (lit "first_token", JInt first_token); (lit "seq_id", JInt seq)].

Lemma handoff_fields migration t seq :
  field "do_remote_decode" (handoff_params migration t seq) = None /\
  field "migration" (handoff_params migration t seq) = Some (JStr migration) /\
  field "first_token" (handoff_params migration t seq) = Some (JInt t) /\
  field "seq_id" (handoff_params migration t seq) = Some (JInt seq).
Proof. by vm_compute. Qed.

Lemma await_migration_Migrated tokens queue payload t seq :
  await_migration (B := B) tokens queue = Some (Migrated payload t seq) -> Migration payload t seq ∈ queue.
Proof.
  revert tokens. induction queue as [|it queue IH]; intros tokens; [done|]. destruct it; cbn; try done; intros Hm.
  - apply list_elem_of_further. by eapply IH.
  - apply list_elem_of_further. by eapply IH.
  - injection Hm as <- <- <-. apply list_elem_of_here.
Qed.

(** The parameters a prefill server returns for a request that is handed over resume it:
    a decode server that gets them registers the sequence under the same id, with the token
    the prefill engine sampled already in its queue, and queues the very payload the prefill
    engine produced.  They come from a migration message of the request's queue. *)
Theorem pd_handoff_resumes decode (s : Submitted) (queue : list (EngineIpc.Item (B := B))) migration t seq prompt_len
    prompt_ids p key (sv : Server) :
  (forall payload, b64decode (JStr (b64encode payload)) = Some payload) ->
  Forall (fun it => match it with Migration payload t seq => migrate_metadata payload = Some (seq, t) | _ => True end) queue ->
  remote_reply decode b64encode s queue = Some (MigratedReply migration t seq prompt_len) -> (0 < seq)%Z ->
  exists payload, Migration payload t seq ∈ queue /\
    submit_request b64decode prompt_ids p key (handoff_params migration t seq) sv =
      (mk_server (submit seq [Tokens [t]] (ORequestMigrate payload) (worker sv)) (next_seq_id sv), inr (seq, false)).
Proof.
  intros Hb Hq Hr Hseq. unfold remote_reply in Hr. destruct (await_migration [] queue) as [h|] eqn:Ea; [|done].
  destruct h as [payload t' seq'|]; [|done]. cbn in Hr. destruct (b64encode payload) as [|ch m] eqn:Ee; [done|].
  injection Hr as <- <- <- _. pose proof (await_migration_Migrated _ _ _ _ _ Ea) as Hin. exists payload. split; [done|].
  rewrite Forall_forall in Hq. specialize (Hq _ Hin). cbn in Hq. specialize (Hb payload). rewrite Ee in Hb.
  destruct (handoff_fields (ch :: m) t' seq') as (Hd & Hm & Ht & Hs).
  unfold submit_request, flag, migration_metadata. rewrite Hd, Hm, Ht, Hs. cbn [fmap option_fmap option_map default truthy negb json_or].
  rewrite bool_decide_eq_false_2 by done. cbn [negb]. rewrite (proj2 (Z.eqb_neq seq' 0)) by lia.
  cbn [negb from_option]. unfold id. cbn [mbind result_bind py_int]. rewrite decide_False by lia.
  cbn [option_bind]. rewrite Hb. unfold server_submit_migrated. by rewrite Hq.
Qed.
End admission.

(** * Examples *)

(** A JSON library that knows one text. *)
Definition call_loads (s : pystr) : option Json :=
  if decide (s = lit "{f}") then Some (JObj [(lit "name", JStr (lit "f")); (lit "arguments", JObj [])]) else None.
Definition call_dumps (_ : bool) (_ : Json) : pystr := lit "{}".
Definition no_str (_ : Json) : pystr := [].

Definition sample_config (cls : ParserClass) : ServerConfig := mk_server_config (lit "m") (lit "/models/m") 16 4096 cls.
Definition sample_request (stop : list pystr) (reasoning_open stream : bool) : Submitted :=
  mk_submitted 1024 3 1000 stop reasoning_open true (Some (JArr [])) stream true false.
Definition sample_server : Server (B := list Z) (SP := SamplingParams (F := unit)) := mk_server (new_worker []) 1024.
Definition sample_queue (texts : list pystr) : list (EngineIpc.Item (B := list Z)) :=
  ((fun t => Tokens (toy_tokens t)) <$> texts) ++ [Finish; Close].

Definition sample_reply (cls : ParserClass) (stop : list pystr) (reasoning_open stream : bool) (texts : list pystr) : option Reply :=
  snd <$> chat_reply call_loads call_dumps no_str toy_decode toy_decode "?"%char (fun _ => lit "b64") (sample_config cls)
            (sample_request stop reasoning_open stream) (sample_queue texts) sample_server.

(** What the message, and what a reader of the stream, hold. *)
Definition message_of (r : option Reply) : option (pystr * list (pystr * pystr) * string) :=
  match r with Some (ChatReply m) => Some (m_content m, m_calls m, m_finish m) | _ => None end.
Definition reader_of (r : option Reply) : option (pystr * list (pystr * pystr) * string) :=
  match r with
  | Some (ChatStream yields) => k ← read_events new_reader yields; f ← k_finish k; Some (k_content k, k_calls k, f)
  | _ => None
  end.

(** With tools and a parser of the XML formats the two kinds of reply can disagree.  A
    tool call that follows a stop string in the same engine step is reported by the stream
    only; so is one inside reasoning that was never closed; a tool call directly after the
    end of an empty reasoning region is lost in the stream, since no chunk ever hands the
    generation to the handler; and text from a marker on that opens no tool call is never
    streamed.  Each entry has the message first, then what a reader of the stream gets.  The
    text stream itself errs where markers are searched in the cumulative text: the answer
    after a redundant opener is lost, text from a marker on is emitted when a stop string
    follows, and a stop string of the reasoning ends the stream before the answer. *)
Theorem streaming_reply_defects :
  (fun x => let '(stop, reasoning_open, text) := x in
            (message_of (sample_reply HermesToolParser stop reasoning_open false [text]),
             reader_of (sample_reply HermesToolParser stop reasoning_open true [text]))) <$>
  [([lit "###"], false, lit "Hi ###<tool_call>{f}</tool_call>");
   ([], true, lit "I may <tool_call>{f}</tool_call>");
   ([], true, lit "</think><tool_call>{f}</tool_call>");
   ([], false, lit "Use <think> tags")] =
  (let call := (lit "f", lit "{}") in
  [(Some (lit "Hi", [], "stop"), Some (lit "Hi ", [call], "tool_calls"));
   (Some ([], [], "stop"), Some ([], [call], "tool_calls"));
   (Some ([], [call], "tool_calls"), Some ([], [], "stop"));
   (Some (lit "Use <think> tags", [], "stop"), Some (lit "Use ", [], "stop"))]) /\
  (exists ds, concat ds = lit "<think>plan</think>The answer is 4." /\
     let evs := (raw_stream (qwen_markers []) true ds).1 in
     on_channel true evs = lit "plan" /\ on_channel false evs = []) /\
  (exists ds, concat ds = lit "Hi <tool_call>{a}###</tool_call>" /\
     on_channel false (raw_stream (qwen_markers [lit "###"]) false ds).1 = lit "Hi <tool_call>{a}") /\
  (exists ds, concat ds = lit "x###y</think>The answer" /\
     raw_stream (qwen_markers [lit "###"]) true ds = ([(true, lit "x###"); (true, lit "y")], true)).
Proof. split; [vm_compute; reflexivity|]. exact cumulative_search_defects. Qed.

Definition kimi_text : list pystr :=
  [lit "<|open|>think<|sep|>why<|close|>think"; lit "<|sep|><|open|>response<|sep|>yes"].

Definition kimi_reply (stream : bool) :=
  chat_reply call_loads call_dumps no_str toy_decode toy_decode "?"%char (fun _ => lit "b64") (sample_config KimiK3ToolParser)
    (sample_request [] false stream) (sample_queue kimi_text) sample_server.

Lemma streaming_equals_response_witness :
  exists sv m yields, kimi_reply false = Some (sv, ChatReply m) /\ m_content m = lit "yes" /\
    kimi_reply true = Some (sv, ChatStream yields) /\ reads_as yields m true.
Proof.
  assert (exists sv m, kimi_reply false = Some (sv, ChatReply m) /\ m_content m = lit "yes") as (sv & m & Hm & Hc)
    by (vm_compute; eauto).
  unfold kimi_reply in *. destruct (proj1 (proj1 (streaming_equals_response call_loads call_dumps no_str toy_decode toy_decode "?"%char (fun _ => lit "b64")
    (sample_config KimiK3ToolParser) (sample_request [] false false) (sample_queue kimi_text) sample_server sv eq_refl eq_refl) m Hm) eq_refl)
    as (yields & Hy & Hr).
  exists sv, m, yields. auto.
Defined.

(** A packet format over text. *)
Definition text_wire : Wire pystr := {|
  encode_packet a p := p;
  decode_packet d := None;
  encode_stepout s ts st := None;
  decode_stepout d := None;
  encode_free_sequences ids _ := None;
  decode_free_sequences d := None;
  encode_free_vision_slots _ slots _ := None;
  is_request_in d := false;
  migrate_metadata d := match d with s :: t :: _ => Some (Z.of_nat (code s), Z.of_nat (code t)) | _ => None end
|}.

Lemma pd_handoff_resumes_witness :
  exists payload, Migration payload 66 65 ∈ [Tokens [66]%Z; Migration (lit "AB") 66 65; Close] /\
    @submit_request unit pystr text_wire (fun j => match j with JStr s => Some s | _ => None end) [] (mk_params tt 5 false) 0
      (handoff_params (lit "AB") 66 65) (mk_server (new_worker []) 1024) =
    (mk_server (submit 65 [Tokens [66]%Z] (ORequestMigrate payload) (new_worker [])) 1024, inr (65%Z, false)).
Proof.
  apply (@pd_handoff_resumes unit pystr text_wire id (fun j => match j with JStr s => Some s | _ => None end) toy_decode
    (sample_request [] false false) [Tokens [66]%Z; Migration (lit "AB") 66 65; Close] (lit "AB") 66 65 3).
  - done.
  - repeat constructor.
  - vm_compute. reflexivity.
  - lia.
Defined.
