(* ===== verification/AnthropicApi.v ===== *)
(** The Anthropic Messages front end ([dlengine/server/anthropic_api.py]): converting a
    request to chat messages, and shaping the reply as a message or as a stream of events.
    It uses the request handling and the text streams of [Http]. *)

From S2P Require Import Prelude PyStr EngineIpc Streaming KimiK3 StructuredStream ToolParser Http.

(** * Volatile headers *)

(** [_BILLING_HEADER_RE]: the header name in any case, white space, then one or more
    [name=value;] runs with white space after each. *)
Definition BILLING_HEADER : pystr := lit "x-anthropic-billing-header:".

(** One [\[\w.\-\]+=\[^;\]*;\s*]: the text after it. *)
Definition header_pair (s : pystr) : option pystr :=
  let name := span_while (fun c => is_word c || bool_decide (c = "."%char) || bool_decide (c = "-"%char)) s in
  if bool_decide (name = []) then None
  else match drop (length name) s with
       | "="%char :: rest => (fun i => lstrip (drop (S i) rest)) <$> find [";"%char] rest
       | _ => None
       end.

Fixpoint header_pairs (fuel : nat) (s : pystr) : pystr :=
  match fuel with
  | 0 => s
  | S fuel => match header_pair s with Some rest => header_pairs fuel rest | None => s end
  end.

(** A match at the start of the text: what follows it. *)
Definition header_at (s : pystr) : option pystr :=
  if startswith (lower s) BILLING_HEADER then
    header_pairs (length s) <$> header_pair (lstrip (drop (length BILLING_HEADER) s))
  else None.

(** [_BILLING_HEADER_RE.sub("", text)] *)
Fixpoint strip_headers (fuel : nat) (s : pystr) : pystr :=
  match fuel with
  | 0 => s
  | S fuel => match header_at s with
              | Some rest => strip_headers fuel rest
              | None => match s with [] => [] | c :: s => c :: strip_headers fuel s end
              end
  end.
Definition strip_volatile_headers (text : pystr) : pystr := strip_headers (S (length text)) text.

(** * Requests *)

(** [block.get("type") == t] *)
Definition type_is (t : string) (fields : Body) : bool :=
  match field "type" fields with Some (JStr s) => bool_decide (s = lit t) | _ => false end.

Definition block_text (fields : Body) : option pystr :=
  if type_is "text" fields then match field "text" fields with Some (JStr t) => Some t | _ => None end else None.

(** [_text_from_blocks] *)
Definition text_from_blocks (content : option Json) : pystr :=
  match content with
  | Some (JStr s) => s
  | Some (JArr blocks) =>
      concat (omap (fun b => match b with JStr s => Some s | JObj fields => block_text fields | _ => None end) blocks)
  | _ => []
  end.

(** [_convert_tools] *)
Definition convert_tool (t : Json) : option Json :=
  match t with
  | JObj fields =>
      match field "name" fields with
      | Some name =>
          if truthy name then
            Some (JObj [(lit "type", JStr (lit "function"));
                        (lit "function", JObj [(lit "name", name);
                                               (lit "description", default (JStr []) (field "description" fields));
                                               (lit "parameters", default JNull (json_or (field "input_schema" fields)
                                                  (Some (JObj [(lit "type", JStr (lit "object")); (lit "properties", JObj [])]))))])])
          else None
      | None => None
      end
  | _ => None
  end.
Definition convert_tools (tools : option Json) : option (list Json) :=
  match tools with
  | Some (JArr l) => match omap convert_tool l with [] => None | out => Some out end
  | _ => None
  end.

(** [uses_tools] *)
Definition uses_tools (tools : option (list Json)) (tool_choice : option Json) : bool :=
  match tools with
  | None | Some [] => false
  | Some _ => negb (match tool_choice with Some (JObj choice) => type_is "none" choice | _ => false end)
  end.

(** [parse_stop_sequences]; unlike the entries of a list, a single string may be empty. *)
Definition parse_stop_sequences (body : Body) : list pystr :=
  match field "stop_sequences" body with
  | Some (JStr s) => [s]
  | Some (JArr l) => stop_strings l
  | _ => []
  end.

(** [role == r] *)
Definition is_role (r : string) (role : option Json) : bool :=
  match role with Some (JStr s) => bool_decide (s = lit r) | _ => false end.

Section requests.
Context (json_dumps : bool -> Json -> pystr).

Definition simple_message (role content : Json) : Json := JObj [(lit "role", role); (lit "content", content)].

Definition dict_blocks (content : list Json) : list Body := omap (fun b => match b with JObj fields => Some fields | _ => None end) content.

(** A [tool_use] block as a tool call, and a [tool_result] block as a [tool] message. *)
Definition tool_use_call (fields : Body) : option Json :=
  if type_is "tool_use" fields then
    Some (JObj [(lit "id", default JNull (field "id" fields)); (lit "type", JStr (lit "function"));
                (lit "function", JObj [(lit "name", default JNull (field "name" fields));
                                       (lit "arguments", JStr (json_dumps true (default JNull (json_or (field "input" fields) (Some (JObj []))))))])])
  else None.
Definition tool_result_message (fields : Body) : option Json :=
  if type_is "tool_result" fields then
    Some (JObj [(lit "role", JStr (lit "tool")); (lit "tool_call_id", default JNull (field "tool_use_id" fields));
                (lit "content", JStr (text_from_blocks (field "content" fields)))])
  else None.

(** The messages of one turn whose content is a list of blocks; [None] is the error for an
    image. *)
Definition convert_blocks (role : option Json) (content : list Json) : option (list Json) :=
  let blocks := dict_blocks content in
  if existsb (type_is "image") blocks then None
  else
    let text := JStr (concat (omap block_text blocks)) in
    if is_role "assistant" role then
      Some [JObj ([(lit "role", JStr (lit "assistant")); (lit "content", text)] ++
                  match omap tool_use_call blocks with [] => [] | calls => [(lit "tool_calls", JArr calls)] end)]
    else
      let results := omap tool_result_message blocks in
      Some (results ++ (if truthy text || bool_decide (results = []) then [simple_message (JStr (lit "user")) text] else [])).

(** One round of the loop: system texts and messages to add. *)
Definition convert_message (m : Json) : option (list pystr * list Json) :=
  match m with
  | JObj fields =>
      let role := field "role" fields in
      let content := field "content" fields in
      if is_role "system" role then
        Some (match text_from_blocks content with [] => [] | t => [t] end, [])
      else match content with
           | Some (JStr s) => Some ([], [simple_message (default JNull role) (JStr s)])
           | Some (JArr blocks) => (fun l => ([], l)) <$> convert_blocks role blocks
           | _ => Some ([], [simple_message (default JNull role) (JStr [])])
           end
  | _ => Some ([], [])
  end.

(** [anthropic_to_openai_messages]; [None] is [AnthropicError(400, ...)]. *)
Definition anthropic_to_openai_messages (body : Body) : option (list Json * option (list Json) * option Json) :=
  let top := match text_from_blocks (field "system" body) with [] => [] | t => [t] end in
  match field "messages" body with
  | Some (JArr raw) =>
      parts ← mapM convert_message raw;
      let system_texts := top ++ concat (fst <$> parts) in
      let messages := concat (snd <$> parts) in
      let system := match system_texts with
                    | [] => []
                    | _ => [simple_message (JStr (lit "system")) (JStr (strip_volatile_headers (join (NEWLINE ++ NEWLINE) system_texts)))]
                    end in
      Some (system ++ messages, convert_tools (field "tools" body), field "tool_choice" body)
  | _ => None
  end.
End requests.

Section replies.
Context (json_loads : pystr -> option Json) (json_dumps : bool -> Json -> pystr) (py_str : Json -> pystr).
Context (decode : list Z -> pystr).

(** [_tool_input] *)
Definition tool_input (args : pystr) : Json :=
  match args with [] => JObj [] | _ => default (JObj []) (json_loads args) end.

Inductive Block := TextBlock (text : pystr) | ToolUse (name : pystr) (input : Json).

Record AMessage := mk_amessage { a_content : list Block; a_stop_reason : string; a_usage : Usage }.

(** [gen.finish_reason == "length"] of a generation that may be [None]. *)
Definition end_reason (g : option Gen) : string :=
  match g with Some g => if decide (g_finish g = "length") then "max_tokens" else "end_turn" | None => "end_turn" end.
Definition output_tokens (g : option Gen) : Z := match g with Some g => zlen (g_tokens g) | None => 0 end.
Definition call_block (call : pystr * pystr) : Block := ToolUse (fst call) (tool_input (snd call)).

(** [format_messages_response] *)
Definition format_messages_response (cls : ParserClass) (text : pystr) (g : option Gen) (use_tools : bool) (tools : option (list Json))
    (input_tokens : Z) : AMessage :=
  let parsed := server_parse_generation json_loads json_dumps py_str cls (default fresh_gen g) text
                  (if use_tools then JArr <$> tools else None) in
  let tool_calls := if use_tools then po_calls parsed else [] in
  let blocks := match po_content parsed with Some (c :: t) => [TextBlock (c :: t)] | _ => [] end ++ (call_block <$> tool_calls) in
  mk_amessage (match blocks with [] => [TextBlock []] | _ => blocks end)
    (match tool_calls with [] => end_reason g | _ => "tool_use" end)
    (mk_usage input_tokens (output_tokens g)).

(** Server-sent events *)
Inductive AEvent :=
  | MessageStart (input_tokens : Z)
  | TextStart (index : Z)
  | ToolStart (index : Z) (name : pystr)
  | TextDelta (index : Z) (text : pystr)
  | JsonDelta (index : Z) (partial_json : pystr)
  | BlockStop (index : Z)
  | MessageDelta (stop_reason : string) (output_tokens : Z)
  | MessageStop
  | ErrorEvent.

(** One round of the loop over the text stream, with [index] and [text_block_open]. *)
Definition chunk_events (c : Chunk) (s : Z * bool) : list AEvent * (Z * bool) :=
  let '(index, opened) := s in
  if c_reasoning c || bool_decide (c_text c = []) then ([], s)
  else if opened then ([TextDelta index (c_text c)], s)
  else ([TextStart (index + 1); TextDelta (index + 1) (c_text c)], ((index + 1)%Z, true)).

Fixpoint all_text_events (cs : list Chunk) (s : Z * bool) : list AEvent * (Z * bool) :=
  match cs with
  | [] => ([], s)
  | c :: cs => let '(e, s) := chunk_events c s in let '(es, s) := all_text_events cs s in (e ++ es, s)
  end.

(** One tool call. *)
Definition tool_events (index : Z) (call : pystr * pystr) : list AEvent :=
  [ToolStart index (fst call); JsonDelta index (json_dumps true (tool_input (snd call))); BlockStop index].

Fixpoint all_tool_events (index : Z) (calls : list (pystr * pystr)) : list AEvent :=
  match calls with [] => [] | call :: calls => tool_events (index + 1) call ++ all_tool_events (index + 1) calls end.

(** The tool calls after the loop. *)
Definition stream_calls (cls : ParserClass) (use_tools : bool) (tools : option (list Json)) (g : option Gen) : list (pystr * pystr) :=
  match g with
  | Some g => if use_tools
              then po_calls (server_parse_generation json_loads json_dumps py_str cls g
                               (if g_parsed g then [] else decode (g_tokens g)) (JArr <$> tools))
              else []
  | None => []
  end.

(** [event_stream] *)
Definition event_stream (cls : ParserClass) (use_tools : bool) (tools : option (list Json)) (input_tokens : Z) (run : StreamRun)
    : list AEvent :=
  let '(texts, (index, opened)) := all_text_events (chunks run) ((-1)%Z, false) in
  [MessageStart input_tokens] ++ texts ++
  if raised run then [ErrorEvent]
  else
    let g := seen_gen None Some run in
    let calls := stream_calls cls use_tools tools g in
    let '(start, index, opened) := match opened, calls with
                                   | false, [] => ([TextStart (index + 1)], (index + 1)%Z, true)
                                   | _, _ => ([], index, opened)
                                   end in
    start ++ (if opened then [BlockStop index] else []) ++ all_tool_events index calls ++
    [MessageDelta (match calls with [] => end_reason g | _ => "tool_use" end) (output_tokens g); MessageStop].
End replies.

(** * The handlers *)

Section handlers.
Context (json_loads : pystr -> option Json) (json_dumps : bool -> Json -> pystr) (py_str : Json -> pystr).
Context {F : Type} (py_float : Json -> result F) (blake2b : pystr -> list Z).
Context (encode : pystr -> list Z) (apply_chat_template : list Json -> option Json -> result pystr).
Context (decode : list Z -> pystr) (stream_decode : list Z -> pystr) (replacement : ascii).
Context {B : Type} `{Wire B} (b64encode : B -> pystr) (b64decode : Json -> option B).
Notation Server := (Server (B := B) (SP := SamplingParams (F := F))).

Inductive AReply :=
  | ARefused (status : Z)
  | ACrash (e : exn)
  | AReplied (m : AMessage)
  | AHandedOver (m : AMessage) (migration : pystr) (first_token seq : Z)
  | AStream (yields : list AEvent)
  | ATokens (input_tokens : Z).

(** [build_sampling_params]; a boolean counts as an integer. *)
Definition anthropic_params (body : Body) : AReply + SamplingParams (F := F) :=
  let with_max (n : Z) :=
    if decide (n <= 0)%Z then inl (ARefused 400)
    else match request_temperature py_float body with
         | Err e => inl (ACrash e)
         | Ok t => match to_i32 n with Err e => inl (ACrash e) | Ok n => inr (mk_params t n false) end
         end in
  match field "max_tokens" body with
  | Some (JInt n) => with_max n
  | Some (JBool b) => with_max (Z.b2z b)
  | _ => inl (ARefused 400)
  end.

(** [_migration_metadata]; only its own error is answered with status 400. *)
Definition anthropic_migration_metadata (kv : Body) : AReply + (Z * option Z) :=
  match py_int (default (JInt 0) (json_or (field "seq_id" kv) (Some (JInt 0)))) with
  | Err e => inl (ACrash e)
  | Ok seq_id =>
      if decide (seq_id <= 0)%Z then inl (ARefused 400)
      else match field "first_token" kv with
           | None | Some JNull => inr (seq_id, None)
           | Some j => match py_int j with Ok t => inr (seq_id, Some t) | Err e => inl (ACrash e) end
           end
  end.

(** A submitted request. *)
Record ASubmitted := mk_asubmitted {
  as_seq : Z;
  as_input_tokens : Z;
  as_max_tokens : Z;
  as_stop : list pystr;
  as_reasoning_open : bool;
  as_use_tools : bool;
  as_tools : option (list Json);
  as_stream : bool;
  as_remote : bool
}.

(** The submission of [handle_messages]. *)
Definition anthropic_submit (prompt_ids : list Z) (p : SamplingParams (F := F)) (key : Z) (kv : Body) (sv : Server)
    : Server * (AReply + (Z * bool)) :=
  if flag "do_remote_decode" kv then (server_submit prompt_ids p key sv, inr (next_seq_id sv, true))
  else if flag "migration" kv then
    match anthropic_migration_metadata kv with
    | inl r => (sv, inl r)
    | inr (seq_id, first_token) =>
        match (field "migration" kv ≫= b64decode) ≫= (fun payload => server_submit_migrated payload seq_id first_token sv) with
        | None => (sv, inl (ACrash ValueError))
        | Some sv' => (sv', inr (seq_id, false))
        end
    end
  else (server_submit prompt_ids p key sv, inr (next_seq_id sv, false)).

(** [handle_messages] up to its first [await]; it checks neither the model nor the length. *)
Definition messages_prepare (headers : pystr -> option pystr) (body : Body) (sv : Server) : Server * (AReply + ASubmitted) :=
  match anthropic_to_openai_messages json_dumps body with
  | None => (sv, inl (ARefused 400))
  | Some (messages, tools, tool_choice) =>
      match anthropic_params body with
      | inl r => (sv, inl r)
      | inr p =>
          let use_tools := uses_tools tools tool_choice in
          match encode_chat json_loads py_str encode apply_chat_template messages (if use_tools then JArr <$> tools else None) with
          | Err e => (sv, inl (ACrash e))
          | Ok (ids, reasoning_open) =>
              let kv := match json_or (field "kv_transfer_params" body) (Some (JObj [])) with Some (JObj kv) => kv | _ => [] end in
              match anthropic_submit ids p (session_affinity_key blake2b headers body) kv sv with
              | (sv', inl r) => (sv', inl r)
              | (sv', inr (seq, remote)) =>
                  (sv', inr (mk_asubmitted seq (zlen ids) (max_tokens p) (parse_stop_sequences body) reasoning_open use_tools tools
                               (flag "stream" body) remote))
              end
          end
      end
  end.

(** The reply to a prefill request. *)
Definition messages_remote_reply (cls : ParserClass) (s : ASubmitted) (queue : list (EngineIpc.Item (B := B))) : option AReply :=
  let format := format_messages_response json_loads json_dumps py_str cls in
  let finished tokens := AReplied (format (decode tokens) (Some (mk_g tokens "stop" false new_output)) (as_use_tools s) (as_tools s) (as_input_tokens s)) in
  (fun h => match h with
            | Migrated payload first_token seq =>
                match b64encode payload with
                | [] => finished []
                | migration => AHandedOver (format [] None (as_use_tools s) (as_tools s) (as_input_tokens s)) migration first_token seq
                end
            | FinishedLocally tokens => finished tokens
            end) <$> await_migration [] queue.

(** The rest of [handle_messages]; [None] while it waits for more of the queue. *)
Definition messages_reply (cls : ParserClass) (s : ASubmitted) (queue : list (EngineIpc.Item (B := B))) (sv : Server)
    : option (Server * AReply) :=
  if as_remote s then (fun r => (sv, r)) <$> messages_remote_reply cls s queue
  else
    let hold := if as_stream s && as_use_tools s then open_markers cls else [] in
    run ← stream_text json_loads json_dumps stream_decode replacement cls (as_stop s) hold (as_reasoning_open s)
            (as_max_tokens s) (queue_item <$> queue);
    let sv := if aborted run then mk_server (worker_abort (as_seq s) (worker sv)) (next_seq_id sv) else sv in
    Some (sv,
          if as_stream s then
            AStream (event_stream json_loads json_dumps py_str decode cls (as_use_tools s) (as_tools s) (as_input_tokens s) run)
          else if raised run then ARefused 500
          else AReplied (format_messages_response json_loads json_dumps py_str cls (channel_text false (chunks run)) (seen_gen None Some run)
                           (as_use_tools s) (as_tools s) (as_input_tokens s))).

(** [handle_count_tokens] *)
Definition count_tokens (body : Body) : AReply :=
  match anthropic_to_openai_messages json_dumps body with
  | None => ARefused 400
  | Some (messages, tools, tool_choice) =>
      match encode_chat json_loads py_str encode apply_chat_template messages
              (if uses_tools tools tool_choice then JArr <$> tools else None) with
      | Err e => ACrash e
      | Ok (ids, _) => ATokens (zlen ids)
      end
  end.

(** The routes: a body that is not a JSON object is refused. *)
Definition anthropic_messages (headers : pystr -> option pystr) (body : option Json) (sv : Server) : Server * (AReply + ASubmitted) :=
  match body with Some (JObj fields) => messages_prepare headers fields sv | _ => (sv, inl (ARefused 400)) end.
Definition anthropic_count_tokens (body : option Json) : AReply :=
  match body with Some (JObj fields) => count_tokens fields | _ => ARefused 400 end.
End handlers.

(** * Reading an event stream *)

(** A content block as a client builds it: a text, or a tool name with the text of its input. *)
Inductive Part := PText (text : pystr) | PTool (name json : pystr).

Record AReader := mk_areader {
  r_started : bool;
  r_parts : list Part;
  r_open : option Part;
  r_end : option (string * Z);
  r_stopped : bool
}.
Definition new_areader : AReader := mk_areader false [] None None false.

(** One event; [None] when it breaks the protocol: blocks are numbered from 0, do not
    overlap and get only deltas of their kind, the message ends after at least one block. *)
Definition aread_event (r : AReader) (e : AEvent) : option AReader :=
  let at_next (i : Z) := bool_decide (i = zlen (r_parts r)) in
  match e, r with
  | MessageStart _, mk_areader false [] None None false => Some (mk_areader true [] None None false)
  | TextStart i, mk_areader true parts None None false => if at_next i then Some (mk_areader true parts (Some (PText [])) None false) else None
  | ToolStart i n, mk_areader true parts None None false => if at_next i then Some (mk_areader true parts (Some (PTool n [])) None false) else None
  | TextDelta i t, mk_areader true parts (Some (PText u)) None false =>
      if at_next i then Some (mk_areader true parts (Some (PText (u ++ t))) None false) else None
  | JsonDelta i t, mk_areader true parts (Some (PTool n u)) None false =>
      if at_next i then Some (mk_areader true parts (Some (PTool n (u ++ t))) None false) else None
  | BlockStop i, mk_areader true parts (Some b) None false => if at_next i then Some (mk_areader true (parts ++ [b]) None None false) else None
  | MessageDelta reason n, mk_areader true ((_ :: _) as parts) None None false => Some (mk_areader true parts None (Some (reason, n)) false)
  | MessageStop, mk_areader true parts None (Some x) false => Some (mk_areader true parts None (Some x) true)
  | _, _ => None
  end.
Definition aread_events (r : option AReader) (es : list AEvent) : option AReader := foldl (fun r e => r ≫= fun r => aread_event r e) r es.

Lemma aread_events_app r es es' : aread_events r (es ++ es') = aread_events (aread_events r es) es'.
Proof. apply foldl_app. Qed.

Definition reading (parts : list Part) (open : option Part) : option AReader := Some (mk_areader true parts open None false).

Lemma all_text_events_opened cs i u parts :
  i = zlen parts ->
  (all_text_events cs (i, true)).2 = (i, true) /\
  aread_events (reading parts (Some (PText u))) (all_text_events cs (i, true)).1 = reading parts (Some (PText (u ++ channel_text false cs))).
Proof.
  intros ->. revert u. induction cs as [|c cs IH]; intros u.
  { split; [done|]. unfold channel_text. cbn. by rewrite app_nil_r. }
  cbn [all_text_events]. unfold chunk_events. rewrite channel_text_cons.
  destruct (c_reasoning c); cbn [orb]; [|case_bool_decide as Ht].
  - specialize (IH u). destruct (all_text_events cs _) as [es s]. cbn [fst snd app] in *. rewrite decide_False by done. exact IH.
  - specialize (IH u). destruct (all_text_events cs _) as [es s]. cbn [fst snd app] in *. rewrite decide_True, Ht by done. exact IH.
  - specialize (IH (u ++ c_text c)). destruct (all_text_events cs _) as [es s]. cbn [fst snd] in *.
    rewrite decide_True, aread_events_app by done. rewrite <- app_assoc in IH. destruct IH as [-> IH]. split; [done|].
    unfold aread_events at 1. cbn. unfold reading. rewrite bool_decide_eq_true_2 by done. exact IH.
Qed.

Lemma all_text_events_closed cs i parts :
  (i + 1)%Z = zlen parts ->
  let visible := channel_text false cs in
  (all_text_events cs (i, false)).2 = match visible with [] => (i, false) | _ => ((i + 1)%Z, true) end /\
  aread_events (reading parts None) (all_text_events cs (i, false)).1 =
    reading parts (match visible with [] => None | _ => Some (PText visible) end).
Proof.
  intros Hi. induction cs as [|c cs IH]; [done|]. cbn zeta in *. cbn [all_text_events]. unfold chunk_events. rewrite channel_text_cons.
  destruct (c_reasoning c); cbn [orb]; [|case_bool_decide as Ht].
  - destruct (all_text_events cs (i, false)) as [es s]. cbn [fst snd app] in *. rewrite decide_False by done. exact IH.
  - destruct (all_text_events cs (i, false)) as [es s]. cbn [fst snd app] in *. rewrite decide_True, Ht by done. exact IH.
  - clear IH. rewrite decide_True by done. destruct (all_text_events_opened cs (i + 1) (c_text c) parts Hi) as [Hs Hr].
    destruct (all_text_events cs ((i + 1)%Z, true)) as [es s]. cbn [fst snd] in *. destruct (c_text c) as [|x t] eqn:E; [done|].
    cbn [app] in *. split; [done|]. rewrite <- Hr. unfold aread_events, reading. cbn.
    rewrite !bool_decide_eq_true_2 by done. cbn. rewrite bool_decide_eq_true_2 by done. done.
Qed.

Section reading.
Context (json_loads : pystr -> option Json) (json_dumps : bool -> Json -> pystr) (py_str : Json -> pystr).
Context (decode : list Z -> pystr).

Definition call_part (call : pystr * pystr) : Part := PTool (fst call) (json_dumps true (tool_input json_loads (snd call))).

Lemma tool_events_read i call parts :
  i = zlen parts -> aread_events (reading parts None) (tool_events json_loads json_dumps i call) = reading (parts ++ [call_part call]) None.
Proof.
  intros ->. unfold tool_events, aread_events, reading, aread_event. cbn. rewrite !bool_decide_eq_true_2 by done. cbn.
  rewrite !bool_decide_eq_true_2 by done. cbn. by rewrite !bool_decide_eq_true_2 by done.
Qed.

Lemma all_tool_events_read i calls parts :
  (i + 1)%Z = zlen parts ->
  aread_events (reading parts None) (all_tool_events json_loads json_dumps i calls) = reading (parts ++ (call_part <$> calls)) None.
Proof.
  revert i parts. induction calls as [|call calls IH]; intros i parts Hi; [by rewrite app_nil_r|].
  cbn [all_tool_events]. rewrite aread_events_app, tool_events_read by done.
  rewrite IH; [csimpl; by rewrite <- app_assoc|]. unfold zlen in *. rewrite length_app. simpl. lia.
Qed.

(** The blocks of a stream: the visible text, if any, then the calls; never none. *)
Definition stream_parts (visible : pystr) (calls : list (pystr * pystr)) : list Part :=
  match visible, calls with
  | [], [] => [PText []]
  | [], _ => call_part <$> calls
  | _, _ => PText visible :: (call_part <$> calls)
  end.

Lemma event_stream_read cls use_tools tools input_tokens run :
  raised run = false ->
  let g := seen_gen None Some run in
  let calls := stream_calls json_loads json_dumps py_str decode cls use_tools tools g in
  aread_events (Some new_areader) (event_stream json_loads json_dumps py_str decode cls use_tools tools input_tokens run) =
  Some (mk_areader true (stream_parts (channel_text false (chunks run)) calls) None
          (Some (match calls with [] => end_reason g | _ => "tool_use" end, output_tokens g)) true).
Proof.
  intros Hra g calls. unfold event_stream.
  destruct (all_text_events_closed (chunks run) (-1) [] eq_refl) as [Hs Hr]. fold g. rewrite Hra. fold calls.
  destruct (all_text_events (chunks run) ((-1)%Z, false)) as [texts [index opened]]. cbn [fst snd] in *.
  set (visible := channel_text false (chunks run)) in *. clearbody visible calls g.
  set (reason := match calls with [] => end_reason g | _ => "tool_use" end).
  rewrite !aread_events_app.
  change (aread_events (Some new_areader) [MessageStart input_tokens]) with (reading [] None).
  rewrite Hr. destruct visible as [|c t]; injection Hs as -> ->.
  - destruct calls as [|call calls].
    + done.
    + cbn [app]. rewrite aread_events_app, all_tool_events_read by done. done.
  - cbn [app]. change (aread_events ?r (?a :: ?l)) with (aread_events (aread_events r [a]) l).
    change (aread_events (reading [] (Some (PText (c :: t)))) [BlockStop (-1 + 1)]) with (reading [PText (c :: t)] None).
    rewrite aread_events_app, all_tool_events_read by done. done.
Qed.
End reading.

(** * Properties *)

Definition with_stream (s : ASubmitted) : ASubmitted :=
  mk_asubmitted (as_seq s) (as_input_tokens s) (as_max_tokens s) (as_stop s) (as_reasoning_open s) (as_use_tools s) (as_tools s)
    true (as_remote s).

Section properties.
Context (json_loads : pystr -> option Json) (json_dumps : bool -> Json -> pystr) (py_str : Json -> pystr).
Context {F : Type} (decode stream_decode : list Z -> pystr) (replacement : ascii).
Context {B : Type} `{Wire B} (b64encode : B -> pystr).
Notation Server := (Server (B := B) (SP := SamplingParams (F := F))).
Notation messages_reply := (messages_reply json_loads json_dumps py_str decode stream_decode replacement b64encode).

(** A block as a client of the stream sees it. *)
Definition block_part (b : Block) : Part :=
  match b with TextBlock t => PText t | ToolUse n input => PTool n (json_dumps true input) end.

Lemma call_block_part (calls : list (pystr * pystr)) : block_part <$> (call_block json_loads <$> calls) = call_part json_loads json_dumps <$> calls.
Proof. by rewrite <- list_fmap_compose. Qed.

Lemma structured_parts cls use_tools tools input_tokens g visible :
  g_parsed g = true -> visible = concat (content_parts (g_out g)) ->
  let calls := stream_calls json_loads json_dumps py_str decode cls use_tools tools (Some g) in
  let m := format_messages_response json_loads json_dumps py_str cls visible (Some g) use_tools tools input_tokens in
  stream_parts json_loads json_dumps visible calls = block_part <$> a_content m /\
  a_stop_reason m = match calls with [] => end_reason (Some g) | _ => "tool_use" end /\
  completion_tokens (a_usage m) = output_tokens (Some g).
Proof.
  intros Hp Hv calls m. assert (calls = if use_tools then tool_calls (g_out g) else []) as Hc.
  { unfold calls, stream_calls, server_parse_generation. by rewrite Hp. }
  unfold m, format_messages_response, server_parse_generation. cbn [default from_option]. unfold id. rewrite Hp.
  cbn [parse_generation po_content po_calls a_content a_stop_reason a_usage completion_tokens]. rewrite <- Hv, <- Hc. split_and!; [|done|done].
  destruct visible as [|c t]; cbn [or_none app stream_parts].
  - destruct calls as [|call calls']; [done|]. by rewrite <- call_block_part.
  - cbn [fmap list_fmap block_part]. by rewrite <- call_block_part.
Qed.

(** C32. The event stream of a message is well formed and carries the message.  For every
    parser and every engine output, the events of a stream that ends without an engine error
    are read by a client as one complete message with at least one content block, numbered in
    order; with a structured parser its blocks, stop reason and token count are those the
    reply without streaming has for the same engine output. *)
Theorem anthropic_stream_is_message (cls : ParserClass) (s : ASubmitted) (queue : list EngineIpc.Item) (sv sv' : Server) :
  as_stream s = false -> as_remote s = false ->
  (forall yields, messages_reply cls (with_stream s) queue sv = Some (sv', AStream yields) ->
     ErrorEvent ∉ yields ->
     exists parts reason n, parts <> [] /\
       aread_events (Some new_areader) yields = Some (mk_areader true parts None (Some (reason, n)) true)) /\
  (forall m, messages_reply cls s queue sv = Some (sv', AReplied m) -> cls = KimiK3ToolParser ->
     exists yields, messages_reply cls (with_stream s) queue sv = Some (sv', AStream yields) /\
       aread_events (Some new_areader) yields =
         Some (mk_areader true (block_part <$> a_content m) None (Some (a_stop_reason m, completion_tokens (a_usage m))) true)).
Proof.
  intros Hst Hrem. unfold AnthropicApi.messages_reply, with_stream. cbn [as_stream as_remote as_use_tools as_stop as_reasoning_open
    as_max_tokens as_tools as_input_tokens as_seq]. rewrite Hst, Hrem. cbn [andb]. split.
  - intros yields Hy Herr. destruct (stream_text _ _ _ _ _ _ _ _ _ _) as [run|]; [|done]. cbn in Hy. injection Hy as _ <-.
    destruct (raised run) eqn:Hra.
    + exfalso. apply Herr. unfold event_stream. destruct (all_text_events _ _) as [texts [i o]]. rewrite Hra, !elem_of_app.
      right. right. apply list_elem_of_here.
    + eexists _, _, _. split; [|by apply event_stream_read]. unfold stream_parts.
      destruct (channel_text false (chunks run)); [|done]. by destruct (stream_calls _ _ _ _ _ _ _ _).
  - intros m Hm ->. unfold stream_text in *. cbn [creates_stream_parser] in *.
    destruct (structured_run _ _ _ _ _ _ _ _) as [run|] eqn:Hrun; [|done]. cbn in Hm |- *.
    destruct (raised run) eqn:Hra; [done|]. injection Hm as <- <-. eexists. split; [reflexivity|].
    destruct (structured_run_text _ _ _ _ _ _ _ _ _ Hrun Hra) as (Hp & Hv & _ & Hne).
    rewrite event_stream_read by done. cbn zeta. rewrite Hne.
    destruct (structured_parts KimiK3ToolParser (as_use_tools s) (as_tools s) (as_input_tokens s) (gen run) _ Hp Hv) as (-> & -> & ->).
    done.
Qed.
End properties.

(** ** Converted messages *)

(** The role of a message. *)
Definition message_role (m : Json) : option Json := match m with JObj fields => field "role" fields | _ => None end.

Section conversion.
Context (json_loads : pystr -> option Json) (json_dumps : bool -> Json -> pystr).

Lemma simple_message_role role content : message_role (simple_message role content) = Some role.
Proof. done. Qed.

Lemma convert_blocks_roles role content l :
  convert_blocks json_dumps role content = Some l -> Forall (fun m => is_role "system" (message_role m) = false) l.
Proof.
  unfold convert_blocks. destruct (existsb _ _); [done|]. destruct (is_role "assistant" role).
  - intros [= <-]. repeat constructor.
  - intros [= <-]. apply Forall_app. split.
    + apply Forall_forall. intros m (fields & _ & Hm)%list_elem_of_omap. unfold tool_result_message in Hm.
      destruct (type_is _ fields); [|done]. injection Hm as <-. by vm_compute.
    + destruct (_ || _); repeat constructor.
Qed.

Lemma convert_message_roles m texts l :
  convert_message json_dumps m = Some (texts, l) -> Forall (fun m => is_role "system" (message_role m) = false) l.
Proof.
  destruct m as [| | | | | |fields]; cbn [convert_message]; try (intros [= <- <-]; constructor).
  destruct (is_role "system" (field "role" fields)) eqn:Er; [intros [= <- <-]; constructor|].
  assert (forall t, Forall (fun m => is_role "system" (message_role m) = false) [simple_message (default JNull (field "role" fields)) t]) as Hs.
  { intros t. constructor; [|constructor]. rewrite simple_message_role. by destruct (field "role" fields). }
  destruct (field "content" fields) as [[]|]; try (intros [= <- <-]; apply Hs).
  destruct (convert_blocks _ _ _) as [l'|] eqn:Eb; [|done]. intros [= <- <-]. by eapply convert_blocks_roles.
Qed.

Lemma converted_roles raw parts :
  mapM (convert_message json_dumps) raw = Some parts ->
  Forall (fun m => is_role "system" (message_role m) = false) (concat (snd <$> parts)).
Proof.
  intros Hm%mapM_Some. induction Hm as [|m [texts l] raw parts Hc _ IH]; [constructor|].
  csimpl. apply Forall_app. split; [|done]. by eapply convert_message_roles.
Qed.

(** A tool input survives being printed and read again. *)
Lemma tool_use_arguments fields o :
  (forall s, strip s = [] -> json_loads s = None) ->
  json_loads (json_dumps true (JObj o)) = Some (JObj o) ->
  type_is "tool_use" fields = true -> field "input" fields = Some (JObj o) ->
  normalize_call json_loads <$> tool_use_call json_dumps fields =
    Some (JObj [(lit "id", default JNull (field "id" fields)); (lit "type", JStr (lit "function"));
                (lit "function", JObj [(lit "name", default JNull (field "name" fields)); (lit "arguments", JObj o)])]).
Proof.
  intros Hblank Hrt Ht Hi. unfold tool_use_call. rewrite Ht, Hi.
  assert (default JNull (json_or (Some (JObj o)) (Some (JObj []))) = JObj o) as -> by (by destruct o).
  set (args := json_dumps true (JObj o)) in *. set (id := default JNull (field "id" fields)).
  set (name := default JNull (field "name" fields)). cbn [fmap option_fmap option_map normalize_call].
  change (field "function" _) with (Some (JObj [(lit "name", name); (lit "arguments", JStr args)])).
  cbn beta iota. unfold normalize_arguments. change (field "arguments" _) with (Some (JStr args)). cbn beta iota.
  assert ((if bool_decide (strip args = []) then Some (JObj []) else json_loads args) = Some (JObj o)) as ->.
  { case_bool_decide as E; [|done]. apply Hblank in E. congruence. }
  reflexivity.
Qed.

(** The chat template gets messages of the shape it can render.  From any Anthropic
    request that is accepted, at most one message has the role [system] and it is the first,
    wherever the request put its system texts; after normalisation no message has a list of
    parts as its content and no call has textual or missing arguments, and normalising again
    changes nothing; and the input of a tool-use block, which [json.loads] reads back from what
    [json.dumps] prints, reaches the template as the object the client sent. *)
Theorem template_messages_wellformed (body : Body) messages tools tool_choice :
  (forall s, strip s = [] -> json_loads s = None) ->
  anthropic_to_openai_messages json_dumps body = Some (messages, tools, tool_choice) ->
  (forall i m, messages !! i = Some m -> is_role "system" (message_role m) = true -> i = 0) /\
  Forall normal_message (normalize_messages json_loads messages) /\
  normalize_messages json_loads (normalize_messages json_loads messages) = normalize_messages json_loads messages /\
  (forall fields o, type_is "tool_use" fields = true -> field "input" fields = Some (JObj o) ->
     json_loads (json_dumps true (JObj o)) = Some (JObj o) ->
     exists call fn, normalize_call json_loads <$> tool_use_call json_dumps fields = Some (JObj call) /\
       field "function" call = Some (JObj fn) /\ field "arguments" fn = Some (JObj o)).
Proof.
  intros Hblank Hm. assert (Forall normal_message (normalize_messages json_loads messages)) as Hn.
  { apply Forall_fmap, Forall_true. intros. apply normalize_message_normal. }
  split_and!; [|done| |].
  - unfold anthropic_to_openai_messages in Hm. destruct (field "messages" body) as [[]|]; try done.
    destruct (mapM _ l) as [parts|] eqn:Ep; [|done]. apply converted_roles in Ep. cbn in Hm. injection Hm as <- _ _.
    rewrite Forall_forall in Ep. intros i m Hi Hr. destruct i as [|i]; [done|]. exfalso.
    destruct (_ ++ concat (fst <$> parts)) as [|t ts]; cbn [app] in Hi; [|simpl in Hi];
      apply list_elem_of_lookup_2, Ep in Hi; congruence.
  - apply fmap_id_Forall. eapply Forall_impl; [exact Hn|]. intros. by apply normalize_message_id.
  - intros fields o Ht Hi Hrt. eexists _, _. split; [by apply tool_use_arguments|]. done.
Qed.
End conversion.

(** ** Volatile headers *)

Lemma lstrip_length s : length (lstrip s) <= length s.
Proof. induction s as [|c s IH]; [done|]. cbn [lstrip]. destruct (is_space c); simpl in *; lia. Qed.

Lemma header_pair_shrinks s rest : header_pair s = Some rest -> length rest < length s.
Proof.
  unfold header_pair. set (name := span_while _ s). case_bool_decide as Hn; [done|].
  destruct (drop (length name) s) as [|c r] eqn:Ed; [done|]. intros H.
  assert (length rest <= length r) as Hl.
  { destruct c as [[] [] [] [] [] [] [] []]; try done. destruct (find _ r) as [i|]; [|done]. injection H as <-.
    pose proof (lstrip_length (drop (S i) r)). rewrite length_drop in *. lia. }
  apply (f_equal length) in Ed. rewrite length_drop in Ed. simpl in Ed. destruct name; [done|simpl in *]; lia.
Qed.

(** Enough fuel is enough. *)
Lemma header_pairs_fuel n m s : length s <= n -> length s <= m -> header_pairs n s = header_pairs m s.
Proof.
  revert m s. induction n as [|n IH]; intros m s Hn Hm.
  { destruct s; [|simpl in Hn; lia]. by destruct m. }
  destruct m as [|m]; [destruct s; [done|simpl in Hm; lia]|]. cbn [header_pairs].
  destruct (header_pair s) as [rest|] eqn:E; [|done]. apply header_pair_shrinks in E. apply IH; lia.
Qed.

Lemma header_pairs_length n s : length (header_pairs n s) <= length s.
Proof.
  revert s. induction n as [|n IH]; intros s; [done|]. cbn [header_pairs].
  destruct (header_pair s) as [rest|] eqn:E; [|done]. apply header_pair_shrinks in E. specialize (IH rest). lia.
Qed.

Lemma header_at_shrinks s rest : header_at s = Some rest -> length rest < length s.
Proof.
  unfold header_at. destruct (startswith _ _); [|done]. destruct (header_pair _) as [r|] eqn:E; [|done]. intros [= <-].
  apply header_pair_shrinks in E. pose proof (header_pairs_length (length s) r).
  pose proof (lstrip_length (drop (length BILLING_HEADER) s)). rewrite length_drop in *. lia.
Qed.

Lemma strip_headers_fuel n m s : length s < n -> length s < m -> strip_headers n s = strip_headers m s.
Proof.
  revert m s. induction n as [|n IH]; intros m s Hn Hm; [lia|]. destruct m as [|m]; [lia|]. cbn [strip_headers].
  destruct (header_at s) as [rest|] eqn:E; [apply header_at_shrinks in E; apply IH; lia|].
  destruct s as [|c s]; [done|]. f_equal. simpl in *. apply IH; lia.
Qed.

Lemma strip_headers_match n s rest : header_at s = Some rest -> strip_headers (S n) s = strip_headers n rest.
Proof. intros H. cbn [strip_headers]. by rewrite H. Qed.

(** A billing header with one volatile token. *)
Definition billing (token rest : pystr) : pystr := BILLING_HEADER ++ lit " cch=" ++ token ++ [";"%char] ++ rest.

Lemma header_at_billing token rest :
  ";"%char ∉ token -> header_at (billing token rest) = Some (header_pairs (length rest) (lstrip rest)).
Proof.
  intros Ht. unfold header_at. assert (startswith (lower (billing token rest)) BILLING_HEADER = true) as ->.
  { unfold startswith, billing, lower. rewrite fmap_app. apply bool_decide_eq_true. exists (lower_char <$> lit " cch=" ++ token ++ [";"%char] ++ rest).
    f_equal. }
  unfold billing at 2. rewrite drop_app_length.
  assert (header_pair (lstrip (lit " cch=" ++ token ++ [";"%char] ++ rest)) = Some (lstrip rest)) as ->.
  { change (lstrip (lit " cch=" ++ token ++ [";"%char] ++ rest)) with (lit "cch" ++ "="%char :: token ++ [";"%char] ++ rest).
    change (header_pair (lit "cch" ++ "="%char :: token ++ [";"%char] ++ rest))
      with ((fun i => lstrip (drop (S i) (token ++ [";"%char] ++ rest))) <$> find [";"%char] (token ++ [";"%char] ++ rest)).
    rewrite (find_marker [";"%char] token rest).
    - cbn. rewrite <- Nat.add_1_r, <- drop_drop, drop_app_length. done.
    - exists ";"%char, []. split; [done|]. set_solver.
    - apply find_None. intros i [Hi [k Hk]]. apply Ht. apply (list_elem_of_lookup_2 _ i).
      rewrite <- (Nat.add_0_r i), <- lookup_drop, Hk. done. }
  cbn [fmap option_fmap option_map]. f_equal. pose proof (lstrip_length rest). apply header_pairs_fuel; [|done]. unfold billing. rewrite !length_app. simpl. lia.
Qed.

Lemma strip_billing token rest :
  ";"%char ∉ token -> strip_volatile_headers (billing token rest) = strip_volatile_headers (header_pairs (length rest) (lstrip rest)).
Proof.
  intros Ht. unfold strip_volatile_headers. pose proof (header_at_billing token rest Ht) as Hh.
  rewrite (strip_headers_match _ _ _ Hh).
  apply strip_headers_fuel; [|lia]. by apply header_at_shrinks in Hh.
Qed.

(** The billing header of a request does not reach the prompt: two requests that differ
    only in the random token of a header at the start of their system text are converted to
    the same messages, so that they share their prefix in the cache. *)
Theorem prompt_ignores_billing_token json_dumps (token1 token2 rest : pystr) (fields : Body) :
  ";"%char ∉ token1 -> ";"%char ∉ token2 ->
  anthropic_to_openai_messages json_dumps ((lit "system", JStr (billing token1 rest)) :: fields) =
  anthropic_to_openai_messages json_dumps ((lit "system", JStr (billing token2 rest)) :: fields).
Proof.
  intros H1 H2. set (s1 := JStr (billing token1 rest)). set (s2 := JStr (billing token2 rest)).
  assert (forall k s, lit k <> lit "system" -> field k ((lit "system", s) :: fields) = field k fields) as Hk.
  { intros k s Hk. unfold field. rewrite dict_get_cons. by rewrite decide_False by congruence. }
  assert (forall s, field "system" ((lit "system", s) :: fields) = Some s) as Hs.
  { intros s. unfold field. rewrite dict_get_cons. by rewrite decide_True. }
  unfold anthropic_to_openai_messages. rewrite !Hs, !(Hk "messages"), !(Hk "tools"), !(Hk "tool_choice") by (by vm_compute).
  destruct (field "messages" fields) as [[]|]; try done. destruct (mapM _ l) as [parts|]; [|done]. cbn [mbind option_bind].
  assert (forall t texts, exists suffix, join (NEWLINE ++ NEWLINE) (t :: texts) = t ++ suffix /\
            forall t', join (NEWLINE ++ NEWLINE) (t' :: texts) = t' ++ suffix) as Hj.
  { intros t [|u texts]; [exists []; cbn; split; [by rewrite app_nil_r|intros; by rewrite app_nil_r]|]. by eexists. }
  assert (forall token, match text_from_blocks (Some (JStr (billing token rest))) with [] => [] | t => [t] end = [billing token rest]) as Ht.
  { intros token. by unfold billing. }
  unfold s1, s2. rewrite !Ht. cbn [app].
  destruct (Hj (billing token1 rest) (concat (fst <$> parts))) as (suffix & -> & ->).
  assert (forall token, billing token rest ++ suffix = billing token (rest ++ suffix)) as -> by (intros; unfold billing; by rewrite <- !app_assoc).
  assert (billing token2 rest ++ suffix = billing token2 (rest ++ suffix)) as -> by (unfold billing; by rewrite <- !app_assoc).
  by rewrite !strip_billing.
Qed.

(** * Examples *)

(** A JSON library that reads and prints the empty object. *)
Definition empty_loads (s : pystr) : option Json := if decide (s = lit "{}") then Some (JObj []) else None.
Definition empty_dumps (_ : bool) (_ : Json) : pystr := lit "{}".

Definition sample_turn (role : string) (content : Json) : Json := simple_message (JStr (lit role)) content.
Definition sample_body : Body :=
  [(lit "system", JStr (billing (lit "r4nd0m") (lit "Be brief.")));
   (lit "messages", JArr [sample_turn "user" (JStr (lit "hi"));
                          sample_turn "system" (JStr (lit "late"));
                          sample_turn "assistant" (JArr [JObj [(lit "type", JStr (lit "tool_use")); (lit "name", JStr (lit "f")); (lit "input", JObj [])]])])].

Lemma template_messages_wellformed_witness :
  exists m1 m2 m3, anthropic_to_openai_messages empty_dumps sample_body = Some ([m1; m2; m3], None, None) /\
    is_role "system" (message_role m1) = true /\ Forall normal_message (normalize_messages empty_loads [m1; m2; m3]).
Proof.
  assert (exists m1 m2 m3, anthropic_to_openai_messages empty_dumps sample_body = Some ([m1; m2; m3], None, None) /\
    is_role "system" (message_role m1) = true) as (m1 & m2 & m3 & Hm & Hr)
    by (do 3 eexists; split; [vm_compute; reflexivity|vm_compute; reflexivity]).
  exists m1, m2, m3. split; [exact Hm|]. split; [exact Hr|].
  refine (proj1 (proj2 (template_messages_wellformed empty_loads empty_dumps sample_body _ None None _ Hm))).
  intros s Hs. unfold empty_loads. case_decide as E; [|done]. subst s. by vm_compute in Hs.
Defined.

Lemma prompt_ignores_billing_token_witness :
  anthropic_to_openai_messages empty_dumps ((lit "system", JStr (billing (lit "a1") (lit "Be brief."))) :: tail sample_body) =
  anthropic_to_openai_messages empty_dumps ((lit "system", JStr (billing (lit "b2") (lit "Be brief."))) :: tail sample_body).
Proof. apply prompt_ignores_billing_token; intros Hin%list_elem_of_In; vm_compute in Hin; intuition discriminate. Defined.

Definition kimi_submitted : ASubmitted := mk_asubmitted 1024 3 1000 [] false false None false false.
Definition kimi_message (stream : bool) :=
  messages_reply call_loads call_dumps no_str toy_decode toy_decode "?"%char (fun _ => lit "b64") KimiK3ToolParser
    (if stream then with_stream kimi_submitted else kimi_submitted) (sample_queue kimi_text) sample_server.

Lemma anthropic_stream_is_message_witness :
  exists sv m yields, kimi_message false = Some (sv, AReplied m) /\ a_content m = [TextBlock (lit "yes")] /\
    kimi_message true = Some (sv, AStream yields) /\
    aread_events (Some new_areader) yields = Some (mk_areader true [PText (lit "yes")] None (Some (a_stop_reason m, completion_tokens (a_usage m))) true).
Proof.
  assert (exists sv m, kimi_message false = Some (sv, AReplied m) /\ a_content m = [TextBlock (lit "yes")]) as (sv & m & Hm & Hc)
    by (vm_compute; eauto).
  unfold kimi_message in *.
  destruct (proj2 (anthropic_stream_is_message call_loads call_dumps no_str toy_decode toy_decode "?"%char (fun _ => lit "b64")
    KimiK3ToolParser kimi_submitted (sample_queue kimi_text) sample_server sv eq_refl eq_refl) m Hm eq_refl) as (yields & Hy & Hr).
  exists sv, m, yields. split; [exact Hm|]. split; [exact Hc|]. split; [exact Hy|]. by rewrite Hc in Hr.
Defined.
