(* ===== verification/Eplb.v ===== *)
(** Expert-parallel load balancing
    ([dlengine/runtime/layers/backends/experts/eplb.py]): packing expert groups onto nodes,
    replicating hot experts, packing replicas onto GPUs, and the dispatch tables.  The
    layers of the source's tensors are independent rows; the definitions treat one row. *)

From S2P Require Import Prelude.

Open Scope Z_scope.

(** * Tensor rows *)

(** [src.gather(-1, idx)]: an index out of range raises. *)
Definition gather {A} (src : list A) (idx : list Z) : result (list A) :=
  mapM_r (fun i => if decide (i < 0) then Err RuntimeError
                   else of_option RuntimeError (src !! Z.to_nat i)) idx.

(** [dst.scatter_(-1, idx, arange(len(idx)))]: later writes win. *)
Definition scatter_arange (dst : list Z) (idx : list Z) : list Z :=
  foldl (fun d p => <[Z.to_nat (snd p) := fst p]> d) dst (enumerate idx).

(** The nested [inverse]; the cells of [torch.empty_like] are all overwritten when [perm]
    is a permutation. *)
Definition inverse (perm : list Z) : list Z := scatter_arange (replicate (length perm) 0) perm.

(** Rows of [size] consecutive elements: [view(-1, size)] of [count] rows. *)
Definition rows {A} (size : Z) (count : Z) (l : list A) : list (list A) :=
  (fun n => take (Z.to_nat size) (drop (Z.to_nat (n * size)) l)) <$> seqZ 0 count.

Section eplb.
(** Weights are floating-point numbers: their sum, quotient by a replica count and order,
    the index of a maximum, and the indices of a descending sort are parameters. *)
Context {W : Type} (w0 : W) (wadd : W -> W -> W) (wdiv : W -> Z -> W) (wlt : W -> W -> bool).
Context (argmax : list W -> Z) (sort_desc : list W -> list Z).

(** [min((k for k in range(num_packs) if items\[k\] < cap), key=weights.__getitem__)]: the
    first candidate of least weight. *)
Definition pick_step (weights : list W) (items : list Z) (cap : Z) (best : option Z) (k : Z) : option Z :=
  match items !! Z.to_nat k, weights !! Z.to_nat k with
  | Some n, Some w =>
      if decide (n < cap) then
        match best with
        | Some b => match weights !! Z.to_nat b with
                    | Some wb => if wlt w wb then Some k else Some b
                    | None => Some b
                    end
        | None => Some k
        end
      else best
  | _, _ => best
  end.

Definition pick_pack (weights : list W) (items : list Z) (cap num_packs : Z) : result Z :=
  of_option ValueError (foldl (pick_step weights items cap) None (seqZ 0 num_packs)).

(** The variables of the packing loop. *)
Record Packing := mk_packing {
  pack_weights : list W;
  pack_items : list Z;
  pack_index : list Z;
  rank_in_pack : list Z
}.

Definition pack_group (weight : list W) (cap num_packs : Z) (s : Packing) (group : Z) : result Packing :=
  pack ← pick_pack (pack_weights s) (pack_items s) cap num_packs;
  n ← of_option IndexError (pack_items s !! Z.to_nat pack);
  w ← of_option IndexError (weight !! Z.to_nat group);
  pw ← of_option IndexError (pack_weights s !! Z.to_nat pack);
  if decide (n < cap) then
    Ok (mk_packing (<[Z.to_nat pack := wadd pw w]> (pack_weights s))
          (<[Z.to_nat pack := n + 1]> (pack_items s))
          (<[Z.to_nat group := pack]> (pack_index s))
          (<[Z.to_nat group := n]> (rank_in_pack s)))
  else Err AssertionError.

(** [balanced_packing]: pack index and rank in the pack of every group. *)
Definition balanced_packing (weight : list W) (num_packs : Z) : result (list Z * list Z) :=
  let num_groups := zlen weight in
  if decide (num_packs = 0) then Err ZeroDivisionError
  else if decide (num_groups `mod` num_packs <> 0) then Err AssertionError
  else
    let groups_per_pack := num_groups / num_packs in
    if decide (groups_per_pack = 1)
    then Ok (seqZ 0 num_groups, replicate (length weight) 0)
    else
      let s0 := mk_packing (replicate (Z.to_nat num_packs) w0) (replicate (Z.to_nat num_packs) 0)
                  (replicate (length weight) (-1)) (replicate (length weight) (-1)) in
      s ← foldM_r (pack_group weight groups_per_pack num_packs) s0 (sort_desc weight);
      Ok (pack_index s, rank_in_pack s).

(** One redundant replica: the expert with the largest load per replica gets it. *)
Definition add_replica (weight : list W) (s : list Z * list Z * list Z) (i : Z)
    : result (list Z * list Z * list Z) :=
  let '(phy2log, rank, logcnt) := s in
  let e := argmax (zip_with wdiv weight logcnt) in
  if decide (weight = []) then Err IndexError
  else
    n ← of_option IndexError (logcnt !! Z.to_nat e);
    Ok (<[Z.to_nat i := e]> phy2log, <[Z.to_nat i := n]> rank, <[Z.to_nat e := n + 1]> logcnt).

(** [replicate_experts] *)
Definition replicate_experts (weight : list W) (num_phy : Z) : result (list Z * list Z * list Z) :=
  let num_log := zlen weight in
  if decide (num_phy - num_log < 0) then Err AssertionError
  else
    foldM_r (add_replica weight)
      (seqZ 0 num_phy, replicate (Z.to_nat num_phy) 0, replicate (length weight) 1)
      (seqZ num_log (num_phy - num_log)).

(** [tokens_per_group]: the weight of each group of experts. *)
Definition group_weights (weight : list W) (num_groups group_size : Z) : list W :=
  foldl wadd w0 <$> rows group_size num_groups weight.

(** The experts in the order of the nodes and groups they are packed on. *)
Definition log2mlog_of (groups_per_node group_size : Z) (pack rank : list Z) : list Z :=
  zip pack rank ≫= fun '(p, r) =>
    (fun j => (p * groups_per_node + r) * group_size + j) <$> seqZ 0 group_size.

(** One node: replicate its experts and pack the replicas onto its GPUs; the replicas'
    experts (numbered inside the node), ranks and the experts' counts. *)
Definition balance_node (weight : list W) (num_phy gpus phy_per_gpu : Z)
    : result (list Z * list Z * list Z) :=
  rep ← replicate_experts weight num_phy;
  let '(phy2mlog, phyrank, mlogcnt) := rep in
  tokens_per_phy ← gather (zip_with wdiv weight mlogcnt) phy2mlog;
  packs ← balanced_packing tokens_per_phy gpus;
  let phy2pphy := zip_with (fun k r => k * phy_per_gpu + r) (fst packs) (snd packs) in
  let pphy2phy := inverse phy2pphy in
  pphy2mlog ← gather phy2mlog pphy2phy;
  pphyrank ← gather phyrank pphy2phy;
  Ok (pphy2mlog, pphyrank, mlogcnt).

(** [rebalance_experts_hierarchical].  [%] by zero raises. *)
Definition rebalance_experts_hierarchical (weight : list W)
    (num_physical_experts num_groups num_nodes num_gpus : Z) : result (list Z * list Z * list Z) :=
  let num_log := zlen weight in
  if decide (num_groups = 0 \/ num_nodes = 0 \/ num_gpus = 0) then Err ZeroDivisionError
  else if decide (num_log `mod` num_groups <> 0 \/ num_groups `mod` num_nodes <> 0
                  \/ num_gpus `mod` num_nodes <> 0 \/ num_physical_experts `mod` num_gpus <> 0)
  then Err AssertionError
  else
    let group_size := num_log / num_groups in
    let groups_per_node := num_groups / num_nodes in
    let phy_per_gpu := num_physical_experts / num_gpus in
    let node_experts := num_log / num_nodes in
    gp ← balanced_packing (group_weights weight num_groups group_size) num_nodes;
    let log2mlog := log2mlog_of groups_per_node group_size (fst gp) (snd gp) in
    let mlog2log := inverse log2mlog in
    tokens_per_mlog ← gather weight mlog2log;
    nodes ← mapM_r (fun row => balance_node row (num_physical_experts / num_nodes)
                                 (num_gpus / num_nodes) phy_per_gpu)
              (rows node_experts num_nodes tokens_per_mlog);
    let pphy2mlog := concat (imap (fun n '(l, _, _) => (fun m => m + Z.of_nat n * node_experts) <$> l) nodes) in
    pphy2log ← gather mlog2log pphy2mlog;
    logcnt ← gather (concat (snd <$> nodes)) log2mlog;
    Ok (pphy2log, concat ((fun '(_, r, _) => r) <$> nodes), logcnt).

(** The policy choice of [rebalance_experts]. *)
Definition balance (weight : list W) (num_replicas num_groups num_nodes num_gpus : Z)
    : result (list Z * list Z * list Z) :=
  if decide (num_nodes = 0) then Err ZeroDivisionError
  else if decide (num_groups `mod` num_nodes = 0)
  then rebalance_experts_hierarchical weight num_replicas num_groups num_nodes num_gpus
  else replicate_experts weight num_replicas.

(** [log2phy] of one row; [maxlogcnt] is the largest replica count of any row. *)
Definition log2phy_of (num_log maxlogcnt : Z) (phy2log phyrank : list Z) : list (list Z) :=
  rows maxlogcnt num_log
    (scatter_arange (replicate (Z.to_nat (num_log * maxlogcnt)) (-1))
       (zip_with (fun l r => l * maxlogcnt + r) phy2log phyrank)).

(** [rebalance_experts]: the maps of every layer; [max] of an empty tensor raises. *)
Definition rebalance_experts (weight : list (list W)) (num_replicas num_groups num_nodes num_gpus : Z)
    : result (list (list Z) * list (list (list Z)) * list (list Z)) :=
  layers ← mapM_r (fun row => balance row num_replicas num_groups num_nodes num_gpus) weight;
  let logcnt := snd <$> layers in
  if decide (concat logcnt = []) then Err RuntimeError
  else
    let maxlogcnt := foldr Z.max 0 (concat logcnt) in
    Ok ((fun '(phy2log, _, _) => phy2log) <$> layers,
        (fun '(phy2log, phyrank, cnt) => log2phy_of (zlen cnt) maxlogcnt phy2log phyrank) <$> layers,
        logcnt).
End eplb.

(** * Dispatch tables *)

(** [logical_to_all_physical_raw] *)
Definition logical_to_all_physical_raw (row : list Z) : list Z := filter (fun p => p <> -1) row.

(** [_compute_gpu_id_of_physical_expert] *)
Definition gpu_of (p num_local : Z) : Z := p / num_local.

Section dispatch.
(** [random.Random]: its state, [r.sample(arr, k)] and [r.shuffle(res)]. *)
Context {R : Type} (sample : R -> list Z -> nat -> list Z * R) (shuffle : R -> list Z -> list Z * R).

(** [_fair_choices] *)
Definition fair_choices (arr : list Z) (k : nat) : act R (list Z) := fun r =>
  if decide (arr = []) then (Err ZeroDivisionError, r)
  else
    let quotient := (k / length arr)%nat in
    let remainder := (k `mod` length arr)%nat in
    let '(picked, r) := sample r arr remainder in
    let '(res, r) := shuffle r (concat (replicate quotient arr) ++ picked) in
    (Ok res, r).

(** [output_partial\[output_partial == -1\] = values]: the cells are filled in order. *)
Fixpoint fill_missing (cells : list Z) (values : list Z) : list Z :=
  match cells with
  | [] => []
  | c :: cells =>
      if decide (c = -1) then
        match values with
        | v :: values => v :: fill_missing cells values
        | [] => c :: fill_missing cells []
        end
      else c :: fill_missing cells values
  end.

(** The replica of one expert on each GPU, -1 where the GPU has none. *)
Definition own_replicas (num_gpus num_local : Z) (candidates : list Z) : list Z :=
  (fun g => default (-1) (head (filter (fun p => gpu_of p num_local = g) candidates))) <$> seqZ 0 num_gpus.

(** The replica each GPU sends the tokens of one expert to: its own when it has one. *)
Definition dispatch_expert (num_gpus num_local : Z) (row : list Z) : act R (list Z) :=
  let candidates := logical_to_all_physical_raw row in
  _ ← raise_if (bool_decide (num_local = 0 /\ candidates <> [])) ZeroDivisionError;
  let own := own_replicas num_gpus num_local candidates in
  choices ← fair_choices candidates (length (filter (fun c => c = -1) own));
  mret (fill_missing own choices).

Fixpoint act_mapM {A B} (f : A -> act R B) (l : list A) : act R (list B) :=
  match l with
  | [] => mret []
  | x :: l => y ← f x; ys ← act_mapM f l; mret (y :: ys)
  end.

(** [compute_logical_to_rank_dispatch_physical_map]; the table is indexed by layer, expert
    and GPU (the tensor by GPU, layer and expert). *)
Definition dispatch_map (num_gpus num_physical : Z) (log2phy : list (list (list Z)))
    : act R (list (list (list Z))) :=
  _ ← raise_if (bool_decide (num_gpus = 0)) ZeroDivisionError;
  _ ← raise_if (bool_decide (num_gpus < 0)) RuntimeError;
  res ← act_mapM (act_mapM (dispatch_expert num_gpus (num_physical / num_gpus))) log2phy;
  _ ← raise_if (bool_decide (Exists (fun c => c = -1) (concat (concat res)))) AssertionError;
  mret res.

(** [EPLBMetadata] *)
Record EPLBMetadata := mk_metadata {
  physical_to_logical_map : list (list Z);
  logical_to_all_physical_map : list (list (list Z));
  logical_to_all_physical_map_num_valid : list (list Z);
  logical_to_rank_dispatch_physical_map : list (list (list Z))
}.

(** [F.pad(row, (0, n - len(row)), value=-1)]: a negative padding crops. *)
Definition pad (n : nat) (row : list Z) : list Z := take n row ++ replicate (n - length row) (-1).

(** [EPLBMetadata.__post_init__]: layers, experts and slots of the maps agree. *)
Definition metadata_post_init (num_physical : Z) (m : EPLBMetadata) : act R unit :=
  let log2phy := logical_to_all_physical_map m in
  let num_valid := logical_to_all_physical_map_num_valid m in
  let dispatch := logical_to_rank_dispatch_physical_map m in
  _ ← raise_if (negb (bool_decide (length (physical_to_logical_map m) = length log2phy
                                   /\ length log2phy = length num_valid
                                   /\ length num_valid = length dispatch))) AssertionError;
  _ ← raise_if (negb (bool_decide (map length log2phy = map length num_valid
                                   /\ map length num_valid = map length dispatch))) AssertionError;
  raise_if (negb (bool_decide (Forall (Forall (fun row => zlen row = num_physical)) log2phy))) AssertionError.

(** [EPLBMetadata._init_raw] *)
Definition init_raw (ep_size num_physical : Z) (phy2log : list (list Z)) (log2phy : list (list (list Z)))
    : act R EPLBMetadata :=
  dispatch ← dispatch_map ep_size num_physical log2phy;
  let m := mk_metadata phy2log
             (map (map (pad (Z.to_nat num_physical))) log2phy)
             (map (map (fun row => zlen (logical_to_all_physical_raw row))) log2phy)
             dispatch in
  _ ← metadata_post_init num_physical m;
  mret m.
End dispatch.

(** * Permutations of index ranges *)

(** [l\[i\]] with a default, for indices known to be in range. *)
Definition at_ (l : list Z) (i : Z) : Z := default 0 (l !! Z.to_nat i).

(** [l] lists each index below [n] exactly once. *)
Definition is_perm (n : Z) (l : list Z) : Prop := l ≡ₚ seqZ 0 n.

Lemma is_perm_length n l : 0 <= n -> is_perm n l -> zlen l = n.
Proof. intros Hn H. unfold zlen. rewrite H, length_seqZ. lia. Qed.

Lemma is_perm_range n l x : is_perm n l -> x ∈ l <-> 0 <= x < n.
Proof. intros H. rewrite H, elem_of_seqZ. lia. Qed.

Lemma is_perm_nodup n l : is_perm n l -> NoDup l.
Proof. intros H. rewrite H. apply NoDup_seqZ. Qed.

(** Distinct indices below [n], as many as [n], are all of them. *)
Lemma is_perm_intro n l : 0 <= n -> zlen l = n -> NoDup l -> Forall (fun x => 0 <= x < n) l -> is_perm n l.
Proof.
  intros Hn Hl Hd Hr. apply submseteq_length_Permutation.
  - apply NoDup_submseteq; [done|]. intros x Hx. apply elem_of_seqZ.
    apply (proj1 (Forall_forall _ _) Hr) in Hx. lia.
  - rewrite length_seqZ. unfold zlen in Hl. lia.
Qed.

Lemma at_lookup l i x : l !! i = Some x -> at_ l (Z.of_nat i) = x.
Proof. intros H. unfold at_. by rewrite Nat2Z.id, H. Qed.

Lemma fmap_at l : (fun i => at_ l i) <$> seqZ 0 (zlen l) = l.
Proof.
  apply list_eq. intros i. rewrite list_lookup_fmap. destruct (decide (i < length l)%nat) as [Hi|Hi].
  - rewrite (proj2 (lookup_seqZ 0 (zlen l) i (Z.of_nat i))) by (zlen_lia). simpl.
    destruct (lookup_lt_is_Some_2 l i Hi) as [x Hx]. by rewrite (at_lookup _ _ _ Hx).
  - rewrite lookup_ge_None_2 by (rewrite length_seqZ; zlen_lia). simpl.
    symmetry. apply lookup_ge_None_2. lia.
Qed.

Lemma scatter_snoc dst idx x :
  scatter_arange dst (idx ++ [x]) = <[Z.to_nat x := zlen idx]> (scatter_arange dst idx).
Proof. unfold scatter_arange, enumerate. rewrite imap_app, foldl_app. simpl. by rewrite Nat.add_0_r. Qed.

Lemma scatter_length dst idx : length (scatter_arange dst idx) = length dst.
Proof.
  induction idx as [|x idx IH] using rev_ind; [done|]. by rewrite scatter_snoc, length_insert.
Qed.

(** Scattering to distinct cells: a cell holds the position that was scattered to it. *)
Lemma scatter_hit dst idx i x :
  NoDup idx -> Forall (fun y => 0 <= y < zlen dst) idx -> idx !! i = Some x ->
  scatter_arange dst idx !! Z.to_nat x = Some (Z.of_nat i).
Proof.
  induction idx as [|y idx IH] using rev_ind; [done|].
  intros (Hn & Hy & _)%NoDup_app [Hr Hry]%Forall_app Hi. rewrite scatter_snoc.
  rewrite Forall_singleton in Hry.
  apply lookup_app_Some in Hi as [Hi|[Hl Hi]].
  - assert (0 <= x < zlen dst) by (apply (proj1 (Forall_forall _ _) Hr); by eapply list_elem_of_lookup_2).
    rewrite list_lookup_insert_ne; [by apply IH|]. intros E.
    apply (Hy x); [by eapply list_elem_of_lookup_2|]. apply list_elem_of_singleton. lia.
  - apply list_lookup_singleton_Some in Hi as [? <-].
    rewrite list_lookup_insert_eq by (rewrite scatter_length; zlen_lia).
    unfold zlen. f_equal. lia.
Qed.

Lemma scatter_miss dst idx j :
  Forall (fun y => 0 <= y) idx -> Z.of_nat j ∉ idx -> scatter_arange dst idx !! j = dst !! j.
Proof.
  induction idx as [|y idx IH] using rev_ind; [done|].
  intros [Hr Hry]%Forall_app [Hn Hy]%not_elem_of_app. rewrite scatter_snoc.
  rewrite Forall_singleton in Hry. rewrite list_lookup_insert_ne; [by apply IH|].
  intros <-. apply Hy, list_elem_of_singleton. lia.
Qed.

Lemma inverse_lookup n perm i x :
  0 <= n -> is_perm n perm -> perm !! i = Some x -> inverse perm !! Z.to_nat x = Some (Z.of_nat i).
Proof.
  intros Hn Hp Hi. apply scatter_hit; [by eapply is_perm_nodup| |done].
  apply Forall_forall. intros y Hy. apply (is_perm_range _ _ _ Hp) in Hy.
  unfold zlen. rewrite length_replicate. pose proof (is_perm_length _ _ Hn Hp). zlen_lia.
Qed.

Lemma inverse_length perm : zlen (inverse perm) = zlen perm.
Proof. unfold zlen, inverse. by rewrite scatter_length, length_replicate. Qed.

(** The inverse read as a function: [perm] at [inverse perm] at [x] is [x], and back. *)
Lemma inverse_at n perm x :
  0 <= n -> is_perm n perm -> 0 <= x < n ->
  0 <= at_ (inverse perm) x < n /\ at_ perm (at_ (inverse perm) x) = x.
Proof.
  intros Hn Hp Hx. apply (is_perm_range _ _ _ Hp) in Hx as Hin.
  apply list_elem_of_lookup in Hin as [i Hi]. pose proof (inverse_lookup _ _ _ _ Hn Hp Hi) as Hinv.
  unfold at_ at 1 2 4. rewrite Hinv. simpl. rewrite (at_lookup _ _ _ Hi).
  pose proof (lookup_lt_Some _ _ _ Hi). pose proof (is_perm_length _ _ Hn Hp). zlen_lia.
Qed.

Lemma at_inverse n perm i :
  0 <= n -> is_perm n perm -> 0 <= i < n ->
  0 <= at_ perm i < n /\ at_ (inverse perm) (at_ perm i) = i.
Proof.
  intros Hn Hp Hi. pose proof (is_perm_length _ _ Hn Hp) as Hl.
  destruct (lookup_lt_is_Some_2 perm (Z.to_nat i)) as [x Hx]; [zlen_lia|].
  assert (at_ perm i = x) as -> by (unfold at_; by rewrite Hx).
  pose proof (inverse_lookup _ _ _ _ Hn Hp Hx) as Hinv. unfold at_. rewrite Hinv. simpl.
  split; [|lia]. apply (is_perm_range _ _ _ Hp). by eapply list_elem_of_lookup_2.
Qed.

Lemma inverse_perm n perm : 0 <= n -> is_perm n perm -> is_perm n (inverse perm).
Proof.
  intros Hn Hp. pose proof (is_perm_length _ _ Hn Hp) as Hl.
  rewrite <- (fmap_at (inverse perm)), inverse_length, Hl.
  apply is_perm_intro; [done|zlen_lia| |].
  - apply NoDup_fmap_2_strong; [|apply NoDup_seqZ]. intros x y Hx%elem_of_seqZ Hy%elem_of_seqZ E.
    destruct (inverse_at n perm x Hn Hp ltac:(lia)) as [_ <-].
    destruct (inverse_at n perm y Hn Hp ltac:(lia)) as [_ <-]. by rewrite E.
  - apply Forall_fmap, Forall_forall. intros x Hx%elem_of_seqZ. apply (inverse_at n perm); [done|done|lia].
Qed.

(** Gathering in-range indices succeeds and reads the elements. *)
Lemma gather_Ok (src idx : list Z) :
  Forall (fun i => 0 <= i < zlen src) idx -> gather src idx = Ok (at_ src <$> idx).
Proof.
  intros H. unfold gather. apply mapM_r_Ok. apply Forall2_fmap_r.
  induction H as [|i idx Hi Hf IH]; constructor; [|exact IH]. simpl. rewrite decide_False by lia.
  destruct (lookup_lt_is_Some_2 src (Z.to_nat i)) as [x Hx]; [zlen_lia|].
  unfold at_. rewrite Hx. reflexivity.
Qed.

Lemma gather_ok_any {A} (src : list A) (idx : list Z) :
  Forall (fun i => 0 <= i < zlen src) idx ->
  exists out, gather src idx = Ok out /\ length out = length idx.
Proof.
  intros H. unfold gather. induction H as [|i idx Hi Hf (out & IH & Hl)]; [by exists []|]. simpl.
  rewrite decide_False by lia.
  destruct (lookup_lt_is_Some_2 src (Z.to_nat i)) as [x Hx]; [zlen_lia|].
  rewrite Hx. simpl. rewrite IH. exists (x :: out). split; [done|simpl; lia].
Qed.

(** * Packing *)

Section packing.
Context {W : Type} (w0 : W) (wadd : W -> W -> W) (wlt : W -> W -> bool) (sort_desc : list W -> list Z).
Hypothesis sort_desc_perm : forall l, is_perm (zlen l) (sort_desc l).

Definition candidate (items : list Z) (cap P b : Z) : Prop := 0 <= b < P /\ at_ items b < cap.

Lemma pick_fold weights items cap P ks best :
  zlen weights = P -> zlen items = P -> Forall (fun k => 0 <= k < P) ks ->
  (forall b, best = Some b -> candidate items cap P b) ->
  (is_Some best \/ Exists (candidate items cap P) ks) ->
  exists b, foldl (pick_step wlt weights items cap) best ks = Some b /\ candidate items cap P b.
Proof.
  intros Hw Hi Hks. revert best. induction Hks as [|k ks Hk Hks IH]; intros best Hb Hex; simpl.
  - destruct Hex as [[b ->]|Hex]; [|by apply Exists_nil in Hex]. exists b. auto.
  - destruct (lookup_lt_is_Some_2 items (Z.to_nat k)) as [n Hn]; [zlen_lia|].
    destruct (lookup_lt_is_Some_2 weights (Z.to_nat k)) as [w Hw']; [zlen_lia|].
    assert (at_ items k = n) as Hat by (unfold at_; by rewrite Hn).
    apply IH; unfold pick_step; rewrite Hn, Hw'.
    + intros b. destruct (decide (n < cap)); [|auto].
      assert (candidate items cap P k) by (split; [done|by rewrite Hat]).
      destruct best as [b0|]; [|by intros [= <-]].
      destruct (weights !! Z.to_nat b0); [|auto]. destruct (wlt w w1); [by intros [= <-]|auto].
    + destruct (decide (n < cap)) as [Hlt|Hlt].
      * left. destruct best as [b0|]; [|by eexists]. destruct (weights !! Z.to_nat b0); [|by eexists].
        destruct (wlt w w1); by eexists.
      * destruct Hex as [?|Hex]; [by left|]. apply Exists_cons in Hex as [[_ Hc]|?]; [lia|by right].
Qed.

Definition sum (l : list Z) : Z := foldr Z.add 0 l.

Lemma sum_insert l i n m : l !! i = Some n -> sum (<[i := m]> l) = sum l - n + m.
Proof.
  revert i. induction l as [|x l IH]; intros [|i] H; simplify_eq/=; [lia|]. rewrite (IH _ H). lia.
Qed.

Lemma sum_zeros n : sum (replicate n 0) = 0.
Proof. induction n as [|n IH]; [done|]. exact IH. Qed.

Lemma sum_lt_candidate items cap P :
  zlen items = P -> sum items < P * cap -> Exists (candidate items cap P) (seqZ 0 P).
Proof.
  intros Hl Hs. destruct (decide (Exists (fun k => at_ items k < cap) (seqZ 0 P))) as [He|Hn].
  - apply Exists_exists in He as (k & Hk & Hc). apply Exists_exists. exists k. split; [done|].
    apply elem_of_seqZ in Hk. split; [lia|done].
  - exfalso. assert (Forall (fun x => cap <= x) items) as Hall.
    { apply Forall_forall. intros x [i Hi]%list_elem_of_lookup.
      destruct (decide (cap <= x)); [done|]. exfalso. apply Hn, Exists_exists. exists (Z.of_nat i).
      rewrite (at_lookup _ _ _ Hi). pose proof (lookup_lt_Some _ _ _ Hi).
      split; [apply elem_of_seqZ; zlen_lia|lia]. }
    assert (zlen items * cap <= sum items); [|rewrite Hl in *; lia].
    clear -Hall. unfold zlen. induction Hall as [|x l Hx Hl IH]; cbn [length sum foldr] in *; [lia|].
    rewrite Nat2Z.inj_succ. unfold sum in IH. lia.
Qed.

(** What the loop maintains after packing the groups of [done]. *)
Record packed (G P cap : Z) (s : Packing (W := W)) (done_ : list Z) : Prop := mk_packed {
  pk_weights : zlen (pack_weights s) = P;
  pk_items : zlen (pack_items s) = P;
  pk_index : zlen (pack_index s) = G;
  pk_rank : zlen (rank_in_pack s) = G;
  pk_sum : sum (pack_items s) = zlen done_;
  pk_bound : Forall (fun n => 0 <= n <= cap) (pack_items s);
  pk_range : forall g, g ∈ done_ -> 0 <= at_ (pack_index s) g < P /\
               0 <= at_ (rank_in_pack s) g < at_ (pack_items s) (at_ (pack_index s) g);
  pk_inj : forall g g', g ∈ done_ -> g' ∈ done_ ->
             at_ (pack_index s) g = at_ (pack_index s) g' ->
             at_ (rank_in_pack s) g = at_ (rank_in_pack s) g' -> g = g'
}.

Lemma at_insert_eq l i x : 0 <= i < zlen l -> at_ (<[Z.to_nat i := x]> l) i = x.
Proof. intros Hi. unfold at_. rewrite list_lookup_insert_eq; [done|zlen_lia]. Qed.

Lemma at_insert_ne l i j x : 0 <= i -> 0 <= j -> i <> j -> at_ (<[Z.to_nat i := x]> l) j = at_ l j.
Proof. intros Hi Hj Hne. unfold at_. rewrite list_lookup_insert_ne by lia. done. Qed.

Lemma pack_group_step weight G P cap s done_ g :
  zlen weight = G -> 0 < cap -> packed G P cap s done_ -> zlen done_ < P * cap ->
  0 <= g < G -> g ∉ done_ -> Forall (fun x => 0 <= x) done_ ->
  exists s', pack_group wadd wlt weight cap P s g = Ok s' /\ packed G P cap s' (done_ ++ [g]).
Proof.
  intros Hw Hcap [H1 H2 H3 H4 H5 H6 H7 H8] Hlt Hg Hnew Hpos.
  destruct (pick_fold (pack_weights s) (pack_items s) cap P (seqZ 0 P) None) as (b & Hb & Hbr & Hbc);
    [done|done|apply Forall_forall; intros k Hk%elem_of_seqZ; lia|done| |].
  { right. apply sum_lt_candidate; [done|lia]. }
  unfold pack_group, pick_pack. rewrite Hb. simpl.
  destruct (lookup_lt_is_Some_2 (pack_items s) (Z.to_nat b)) as [n Hn]; [zlen_lia|].
  destruct (lookup_lt_is_Some_2 weight (Z.to_nat g)) as [w Hw']; [zlen_lia|].
  destruct (lookup_lt_is_Some_2 (pack_weights s) (Z.to_nat b)) as [pw Hpw]; [zlen_lia|].
  assert (at_ (pack_items s) b = n) as Hat by (unfold at_; by rewrite Hn).
  rewrite Hn, Hw', Hpw. simpl. rewrite decide_True by lia. eexists. split; [done|].
  assert (0 <= n) by (apply (proj1 (Forall_forall _ _) H6 n); by eapply list_elem_of_lookup_2).
  assert (forall x, x ∈ done_ -> 0 <= x /\ g <> x) as Hold.
  { intros x Hx. split; [by apply (proj1 (Forall_forall _ _) Hpos)|by intros ->]. }
  split; simpl; unfold zlen; rewrite ?length_insert, ?length_app; try done.
  - rewrite (sum_insert _ _ _ _ Hn). simpl. unfold zlen in H5. lia.
  - apply Forall_insert; [done|lia].
  - intros x [Hx| ->%list_elem_of_singleton]%elem_of_app.
    + destruct (Hold _ Hx), (H7 _ Hx) as [? ?]. rewrite !at_insert_ne by lia. split; [done|].
      destruct (decide (at_ (pack_index s) x = b)) as [E|].
      * rewrite E, at_insert_eq by lia. rewrite E in *. lia.
      * rewrite at_insert_ne by lia. done.
    + rewrite !at_insert_eq by lia. lia.
  - intros x y [Hx|Hx]%elem_of_app [Hy|Hy]%elem_of_app.
    + destruct (Hold _ Hx), (Hold _ Hy). rewrite !at_insert_ne by lia. auto.
    + apply list_elem_of_singleton in Hy as ->. destruct (Hold _ Hx), (H7 _ Hx).
      rewrite !at_insert_eq, !at_insert_ne by lia. intros Ep Er. rewrite Ep in *. lia.
    + apply list_elem_of_singleton in Hx as ->. destruct (Hold _ Hy), (H7 _ Hy).
      rewrite !at_insert_eq, !at_insert_ne by lia. intros Ep Er. rewrite <- Ep in *. lia.
    + apply list_elem_of_singleton in Hx as ->. by apply list_elem_of_singleton in Hy as ->.
Qed.

Lemma pack_all weight G P cap s done_ todo :
  zlen weight = G -> 0 < cap -> G = P * cap -> is_perm G (done_ ++ todo) -> packed G P cap s done_ ->
  exists s', foldM_r (pack_group wadd wlt weight cap P) s todo = Ok s' /\ packed G P cap s' (done_ ++ todo).
Proof.
  intros Hw Hcap HG. assert (0 <= G) as HG0 by (rewrite <- Hw; zlen_lia).
  revert s done_. induction todo as [|g todo IH]; intros s done_ Hp Hs; simpl.
  { exists s. by rewrite app_nil_r. }
  pose proof (is_perm_length _ _ HG0 Hp) as Hl. unfold zlen in Hl. rewrite length_app in Hl. simpl in Hl.
  assert (Forall (fun x => 0 <= x < G) (done_ ++ g :: todo)) as Hr.
  { apply Forall_forall. intros x. by apply is_perm_range. }
  apply Forall_app in Hr as [Hrd [Hrg _]%Forall_cons].
  destruct (pack_group_step weight G P cap s done_ g) as (s' & -> & Hs'); try done.
  { unfold zlen. lia. }
  { intros Hin. apply is_perm_nodup, NoDup_app in Hp as (_ & Hd & _). apply (Hd g Hin). by left. }
  { eapply Forall_impl; [exact Hrd|]. simpl. lia. }
  replace (done_ ++ g :: todo) with ((done_ ++ [g]) ++ todo) in * by (by rewrite <- app_assoc).
  by apply IH.
Qed.

Lemma packed_slots G P cap s order :
  0 <= G -> G = P * cap -> is_perm G order -> packed G P cap s order ->
  is_perm G (zip_with (fun k r => k * cap + r) (pack_index s) (rank_in_pack s)).
Proof.
  intros HG0 HG Hord [H1 H2 H3 H4 H5 H6 H7 H8].
  assert (forall x, 0 <= x < G -> 0 <= at_ (pack_index s) x < P /\ 0 <= at_ (rank_in_pack s) x < cap) as Hr.
  { intros x Hx%(is_perm_range _ _ _ Hord). destruct (H7 _ Hx) as [Hp Hrk]. split; [done|].
    assert (at_ (pack_items s) (at_ (pack_index s) x) <= cap); [|lia].
    destruct (lookup_lt_is_Some_2 (pack_items s) (Z.to_nat (at_ (pack_index s) x))) as [n Hn];
      [zlen_lia|].
    unfold at_ at 1. rewrite Hn. simpl. apply (proj1 (Forall_forall _ _) H6). by eapply list_elem_of_lookup_2. }
  assert (zip_with (fun k r => k * cap + r) (pack_index s) (rank_in_pack s) =
          (fun x => at_ (pack_index s) x * cap + at_ (rank_in_pack s) x) <$> seqZ 0 G) as ->.
  { rewrite <- (fmap_at (pack_index s)), <- (fmap_at (rank_in_pack s)) at 1. rewrite H3, H4.
    rewrite zip_with_fmap_l, zip_with_fmap_r, zip_with_diag. done. }
  apply is_perm_intro; [done|zlen_lia| |].
  - apply NoDup_fmap_2_strong; [|apply NoDup_seqZ]. intros x y Hx%elem_of_seqZ Hy%elem_of_seqZ E.
    destruct (Hr x), (Hr y); [lia..|]. apply radix_inj in E as [E1 E2]; [|done..].
    apply H8; [apply (is_perm_range _ _ _ Hord); lia..|done|done].
  - apply Forall_fmap, Forall_forall. intros x Hx%elem_of_seqZ. destruct (Hr x); [lia|]. simpl. nia.
Qed.

(** Packing always succeeds when the packs divide the groups, and puts the groups on
    distinct places of the packs. *)
Lemma balanced_packing_perm weight P :
  let G := zlen weight in
  0 < P -> G `mod` P = 0 ->
  exists pk rk, balanced_packing w0 wadd wlt sort_desc weight P = Ok (pk, rk) /\
    zlen pk = G /\ zlen rk = G /\ is_perm G (zip_with (fun k r => k * (G / P) + r) pk rk).
Proof.
  intros G HP Hmod. unfold balanced_packing. fold G.
  rewrite decide_False by lia. rewrite decide_False by lia.
  assert (0 <= G) as HG0 by (unfold G, zlen; lia).
  assert (G = P * (G / P)) as HG by (apply Z.div_exact; [lia|done]).
  destruct (decide (G / P = 1)) as [E1|E1].
  - eexists _, _. split; [done|]. rewrite E1. split; [zlen_lia|].
    split; [unfold zlen; rewrite length_replicate; unfold G, zlen; lia|].
    rewrite zip_with_replicate_r_eq by (rewrite length_seqZ; unfold G, zlen; lia).
    unfold is_perm. replace ((fun x => x * 1 + 0) <$> seqZ 0 G) with (seqZ 0 G); [done|].
    rewrite <- (list_fmap_id (seqZ 0 G)) at 1. apply list_fmap_ext. intros _ x _. unfold id. lia.
  - destruct (decide (G = 0)) as [E0|E0].
    + assert (weight = []) as -> by (destruct weight; [done|unfold G, zlen in E0; simpl in E0; lia]).
      assert (sort_desc [] = []) as ->.
      { apply Permutation_nil_r. exact (sort_desc_perm []). }
      simpl. eexists _, _. split; [done|]. subst G. simpl. unfold is_perm. done.
    + assert (0 < G / P) as Hcap by (apply Z.div_str_pos; nia).
      set (s0 := mk_packing _ _ _ _).
      assert (packed G P (G / P) s0 []) as Hs0.
      { split; simpl; unfold zlen; rewrite ?length_replicate; try (unfold G, zlen; lia).
        - apply sum_zeros.
        - apply Forall_replicate. lia.
        - intros g ?%not_elem_of_nil. done.
        - intros g g' ?%not_elem_of_nil. done. }
      destruct (pack_all weight G P (G / P) s0 [] (sort_desc weight)) as (s' & Hs' & Hp'); try done.
      { apply sort_desc_perm. }
      rewrite Hs'. simpl. eexists _, _. split; [done|].
      split; [apply Hp'|]. split; [apply Hp'|].
      apply (packed_slots G P (G / P) s' (sort_desc weight)); [done|done|apply sort_desc_perm|exact Hp'].
Qed.
End packing.

(** * Replicas *)

(** The (expert, rank) pairs of experts numbered from [o] with the given replica counts. *)
Fixpoint pairs_from (o : Z) (cnt : list Z) : list (Z * Z) :=
  match cnt with
  | [] => []
  | c :: cnt => ((fun r => (o, r)) <$> seqZ 0 c) ++ pairs_from (o + 1) cnt
  end.

(** The replicas realise the counts: physical slots hold each (expert, rank) exactly once,
    and every expert has a replica. *)
Definition realises (phy2log rank cnt : list Z) : Prop :=
  length phy2log = length rank /\ zip phy2log rank ≡ₚ pairs_from 0 cnt /\ Forall (fun c => 1 <= c) cnt.

Lemma pairs_from_app o a b : pairs_from o (a ++ b) = pairs_from o a ++ pairs_from (o + zlen a) b.
Proof.
  revert o. induction a as [|c a IH]; intros o; simpl; [by rewrite Z.add_0_r|].
  rewrite IH, <- app_assoc.
  by replace (o + 1 + zlen a) with (o + zlen (c :: a)) by (unfold zlen; simpl; lia).
Qed.

Lemma pairs_from_shift k o cnt :
  (fun p => (fst p + k, snd p)) <$> pairs_from o cnt = pairs_from (o + k) cnt.
Proof.
  revert o. induction cnt as [|c cnt IH]; intros o; simpl; [done|].
  rewrite fmap_app, IH, <- list_fmap_compose. by replace (o + 1 + k) with (o + k + 1) by lia.
Qed.

Lemma elem_of_pairs_from o cnt l r :
  (l, r) ∈ pairs_from o cnt <-> 0 <= l - o < zlen cnt /\ 0 <= r < at_ cnt (l - o).
Proof.
  revert o. induction cnt as [|c cnt IH]; intros o; simpl.
  - split; [by intros ?%not_elem_of_nil|]. unfold zlen. simpl. lia.
  - rewrite elem_of_app, list_elem_of_fmap, IH. unfold zlen, at_. simpl. split.
    + intros [(r' & [= -> ->] & Hr%elem_of_seqZ)|[Hl Hr]].
      * rewrite Z.sub_diag. simpl. lia.
      * destruct (Z.to_nat (l - o)) as [|n] eqn:E; [lia|]. simpl.
        replace n with (Z.to_nat (l - (o + 1))) by lia. lia.
    + intros [Hl Hr]. destruct (decide (l = o)) as [->|Hne].
      * left. exists r. split; [done|]. rewrite Z.sub_diag in Hr. simpl in Hr. apply elem_of_seqZ. lia.
      * right. destruct (Z.to_nat (l - o)) as [|m] eqn:E; [lia|]. simpl in Hr.
        replace (Z.to_nat (l - (o + 1))) with m by lia. lia.
Qed.

Lemma pairs_from_nodup o cnt : NoDup (pairs_from o cnt).
Proof.
  revert o. induction cnt as [|c cnt IH]; intros o; simpl; [constructor|].
  apply NoDup_app. split_and!; [|intros [l r] H1 H2|done].
  - apply NoDup_fmap_2; [by intros ? ? [= ->]|apply NoDup_seqZ].
  - apply list_elem_of_fmap in H1 as (? & [= -> ->] & _). apply elem_of_pairs_from in H2. lia.
Qed.

(** One more replica of expert [e]. *)
Lemma pairs_from_insert o cnt e n :
  cnt !! e = Some n -> 0 <= n ->
  pairs_from o (<[e := n + 1]> cnt) ≡ₚ pairs_from o cnt ++ [(o + Z.of_nat e, n)].
Proof.
  revert o e. induction cnt as [|c cnt IH]; intros o [|e] He Hn; simplify_eq/=.
  - rewrite seqZ_app by lia. simpl. rewrite fmap_app. simpl. rewrite Z.add_0_r.
    rewrite <- !app_assoc. f_equiv. apply Permutation_app_comm.
  - rewrite (IH _ _ He Hn), <- app_assoc. do 3 f_equiv. f_equal. lia.
Qed.

(** The pairs as a function of the expert. *)
Lemma pairs_from_bind o cnt :
  pairs_from o cnt = seqZ o (zlen cnt) ≫= fun l => (fun r => (l, r)) <$> seqZ 0 (at_ cnt (l - o)).
Proof.
  revert o. induction cnt as [|c cnt IH]; intros o; simpl; [done|].
  unfold zlen. cbn [length]. rewrite Nat2Z.inj_succ, (seqZ_cons o) by lia. simpl.
  rewrite Z.sub_diag. unfold at_ at 1. simpl. f_equal. rewrite IH.
  replace (Z.pred (Z.succ (Z.of_nat (length cnt)))) with (zlen cnt) by (zlen_lia).
  replace (Z.succ o) with (o + 1) by lia. apply Forall_bind_ext, Forall_forall.
  intros l Hl%elem_of_seqZ. unfold at_.
  replace (Z.to_nat (l - o)) with (S (Z.to_nat (l - (o + 1)))) by lia. done.
Qed.

Lemma take_insert_S (l : list Z) i x : (i < length l)%nat -> take (S i) (<[i := x]> l) = take i l ++ [x].
Proof.
  intros Hi. rewrite (take_S_r _ _ x) by by apply list_lookup_insert_eq. by rewrite take_insert_ge.
Qed.

Section replicate.
Context {W : Type} (wdiv : W -> Z -> W) (argmax : list W -> Z).
Hypothesis argmax_range : forall l, l <> [] -> 0 <= argmax l < zlen l.

(** The invariant of the loop, after the first [i] physical slots are filled. *)
Record replicated (N num_phy i : Z) (s : list Z * list Z * list Z) : Prop := mk_replicated {
  rp_log : zlen (fst (fst s)) = num_phy;
  rp_rank : zlen (snd (fst s)) = num_phy;
  rp_cnt : zlen (snd s) = N;
  rp_pairs : zip (take (Z.to_nat i) (fst (fst s))) (take (Z.to_nat i) (snd (fst s))) ≡ₚ pairs_from 0 (snd s);
  rp_pos : Forall (fun c => 1 <= c) (snd s)
}.

Lemma add_replica_step weight N num_phy i s :
  zlen weight = N -> 0 < N -> 0 <= i < num_phy -> replicated N num_phy i s ->
  exists s', add_replica wdiv argmax weight s i = Ok s' /\ replicated N num_phy (i + 1) s'.
Proof.
  intros Hw HN Hi. destruct s as [[phy2log rank] cnt]. intros [H1 H2 H3 H4 H5]. simpl in *.
  assert (zlen (zip_with wdiv weight cnt) = N) as Hz by (zlen_lia).
  destruct (argmax_range (zip_with wdiv weight cnt)) as [Hlo Hhi].
  { intros E. rewrite E in Hz. unfold zlen in Hz. simpl in Hz. lia. }
  set (e := argmax (zip_with wdiv weight cnt)) in *.
  destruct (lookup_lt_is_Some_2 cnt (Z.to_nat e)) as [n Hn]; [zlen_lia|].
  rewrite decide_False by (intros ->; unfold zlen in Hw; simpl in Hw; lia). rewrite Hn. simpl.
  assert (1 <= n) by (apply (proj1 (Forall_forall _ _) H5); by eapply list_elem_of_lookup_2).
  eexists. split; [done|]. split; simpl; unfold zlen; rewrite ?length_insert; try done.
  - replace (Z.to_nat (i + 1)) with (S (Z.to_nat i)) by lia. unfold zlen in *.
    rewrite !take_insert_S by lia. rewrite zip_with_app by (rewrite !length_take; lia). simpl.
    rewrite H4, (pairs_from_insert 0 cnt (Z.to_nat e) n) by (done || lia).
    rewrite Z2Nat.id by lia. done.
  - apply Forall_insert; [done|lia].
Qed.

Lemma replicated_all weight N num_phy i k s :
  zlen weight = N -> 0 < N -> 0 <= i -> 0 <= k -> i + k = num_phy -> replicated N num_phy i s ->
  exists s', foldM_r (add_replica wdiv argmax weight) s (seqZ i k) = Ok s' /\ replicated N num_phy num_phy s'.
Proof.
  intros Hw HN Hi Hk. revert i s Hi. 
  assert (exists n, k = Z.of_nat n) as [n ->] by (exists (Z.to_nat k); lia). clear Hk.
  induction n as [|n IH]; intros i s Hi Hik Hs.
  - simpl. exists s. split; [done|]. assert (i = num_phy) as -> by lia. done.
  - rewrite Nat2Z.inj_succ, seqZ_cons by lia. cbn [foldM_r].
    destruct (add_replica_step weight N num_phy i s Hw HN ltac:(lia) Hs) as (s' & -> & Hs').
    replace (Z.pred (Z.succ (Z.of_nat n))) with (Z.of_nat n) by lia. apply IH; [lia|lia|done].
Qed.

Lemma pairs_from_ones o n : pairs_from o (replicate n 1) = (fun l => (l, 0)) <$> seqZ o (Z.of_nat n).
Proof.
  revert o. induction n as [|n IH]; intros o; [done|]. rewrite Nat2Z.inj_succ, (seqZ_cons o) by lia. simpl.
  rewrite IH. by replace (Z.pred (Z.succ (Z.of_nat n))) with (Z.of_nat n) by lia.
Qed.

(** Replication always succeeds, fills [num_phy] slots and realises its counts. *)
Lemma replicate_experts_realises weight num_phy :
  0 < zlen weight <= num_phy ->
  exists phy2log rank cnt, replicate_experts wdiv argmax weight num_phy = Ok (phy2log, rank, cnt) /\
    zlen phy2log = num_phy /\ zlen cnt = zlen weight /\ realises phy2log rank cnt.
Proof.
  intros HN. unfold replicate_experts. rewrite decide_False by lia.
  set (s0 := (_, _, _)).
  assert (replicated (zlen weight) num_phy (zlen weight) s0) as Hs0.
  { split; simpl; [zlen_lia|zlen_lia
                  |unfold zlen; by rewrite length_replicate| |apply Forall_replicate; lia].
    rewrite pairs_from_ones. replace num_phy with (zlen weight + (num_phy - zlen weight)) at 1 by lia.
    rewrite seqZ_app, take_app_le by (rewrite ?length_seqZ; lia). rewrite take_ge by (rewrite length_seqZ; lia).
    rewrite take_replicate, Nat.min_l by lia.
    rewrite zip_with_replicate_r_eq by (rewrite length_seqZ; lia). fold (zlen weight). done. }
  destruct (replicated_all weight (zlen weight) num_phy (zlen weight) (num_phy - zlen weight) s0)
    as ([[phy2log rank] cnt] & -> & [H1 H2 H3 H4 H5]); [done|lia|zlen_lia|lia|lia|done|]. simpl in *.
  exists phy2log, rank, cnt. split_and!; [done|done|done|]. unfold realises, zlen in *.
  rewrite !take_ge in H4 by lia. split_and!; [lia|done|done].
Qed.
End replicate.

(** * Relabelling *)

(** The slots of a realisation may be listed in any order. *)
Lemma realises_reorder a b c p :
  realises a b c -> is_perm (zlen a) p -> realises (at_ a <$> p) (at_ b <$> p) c.
Proof.
  intros (Hl & Hz & Hc) Hp. unfold realises. rewrite !length_fmap. split_and!; [done| |done].
  rewrite <- Hz. rewrite zip_with_fmap_l, zip_with_fmap_r, zip_with_diag.
  unfold is_perm in Hp. rewrite Hp.
  assert (zip a b = (fun i => (at_ a i, at_ b i)) <$> seqZ 0 (zlen a)) as ->; [|done].
  rewrite <- (fmap_at a), <- (fmap_at b) at 1.
  assert (zlen b = zlen a) as -> by (zlen_lia).
  by rewrite zip_with_fmap_l, zip_with_fmap_r, zip_with_diag.
Qed.

Lemma realises_range a b c l : realises a b c -> l ∈ a -> 0 <= l < zlen c.
Proof.
  intros (Hl & Hz & _) [i Hi]%list_elem_of_lookup.
  destruct (lookup_lt_is_Some_2 b i) as [r Hr]; [rewrite <- Hl; by eapply lookup_lt_Some|].
  assert ((l, r) ∈ pairs_from 0 c) as Hin.
  { rewrite <- Hz. eapply list_elem_of_lookup_2. rewrite lookup_zip_with, Hi, Hr. done. }
  apply elem_of_pairs_from in Hin. lia.
Qed.

Lemma zip_fmap_fst (f : Z -> Z) (a b : list Z) :
  zip (f <$> a) b = (fun p => (f (fst p), snd p)) <$> zip a b.
Proof. revert b. induction a as [|x a IH]; intros [|y b]; simpl; [done..|]. by rewrite IH. Qed.

Lemma fmap_bind_list {A B C} (f : B -> C) (g : A -> list B) (l : list A) :
  f <$> (l ≫= g) = l ≫= fun x => f <$> g x.
Proof. induction l as [|x l IH]; simpl; [done|]. rewrite fmap_app. f_equal. exact IH. Qed.

(** Experts renumbered by the inverse of a permutation of them. *)
Lemma realises_relabel a b c q :
  realises a b c -> is_perm (zlen c) q ->
  realises (at_ (inverse q) <$> a) b (at_ c <$> q).
Proof.
  intros (Hl & Hz & Hc) Hq. assert (0 <= zlen c) as H0 by (zlen_lia).
  pose proof (is_perm_length _ _ H0 Hq) as Hql.
  unfold realises. rewrite length_fmap. split_and!; [done| |].
  - rewrite zip_fmap_fst, Hz, !pairs_from_bind. unfold zlen at 2. rewrite length_fmap. fold (zlen q). rewrite Hql.
    assert (at_ (inverse q) <$> seqZ 0 (zlen c) ≡ₚ seqZ 0 (zlen c)) as Hinv.
    { pose proof (fmap_at (inverse q)) as E. rewrite inverse_length, Hql in E.
      change (fun i => at_ (inverse q) i) with (at_ (inverse q)) in E. rewrite E. by apply inverse_perm. }
    etransitivity; [|by apply bind_Permutation, Hinv].
    rewrite fmap_bind_list, list_fmap_bind. apply reflexive_eq.
    apply Forall_bind_ext, Forall_forall. intros m Hm%elem_of_seqZ. simpl.
    rewrite <- list_fmap_compose. destruct (inverse_at _ q m H0 Hq ltac:(lia)) as [Hr Hm'].
    assert (at_ (at_ c <$> q) (at_ (inverse q) m - 0) = at_ c (m - 0)) as ->; [|done].
    rewrite !Z.sub_0_r. unfold at_ at 1. rewrite list_lookup_fmap.
    destruct (lookup_lt_is_Some_2 q (Z.to_nat (at_ (inverse q) m))) as [x Hx]; [zlen_lia|].
    rewrite Hx. simpl. f_equal. rewrite <- Hm'. unfold at_ at 1. by rewrite Hx.
  - apply Forall_fmap, Forall_forall. intros i Hi%(is_perm_range _ _ _ Hq).
    destruct (lookup_lt_is_Some_2 c (Z.to_nat i)) as [x Hx]; [zlen_lia|].
    simpl. unfold at_. rewrite Hx. simpl. apply (proj1 (Forall_forall _ _) Hc). by eapply list_elem_of_lookup_2.
Qed.

(** A permutation of blocks, expanded to the elements of the blocks. *)
Lemma expand_seqZ gs n :
  0 <= gs -> (seqZ 0 (Z.of_nat n) ≫= fun s => (fun j => s * gs + j) <$> seqZ 0 gs) = seqZ 0 (Z.of_nat n * gs).
Proof.
  intros Hgs. induction n as [|n IH]; [done|].
  rewrite Nat2Z.inj_succ. replace (Z.succ (Z.of_nat n)) with (Z.of_nat n + 1) by lia.
  rewrite seqZ_app, bind_app, IH by lia. rewrite Z.mul_add_distr_r, seqZ_app by lia. f_equal.
  simpl. rewrite app_nil_r, Z.add_0_l, Z.mul_1_l. etransitivity; [apply fmap_add_seqZ|].
  by rewrite Z.add_0_r.
Qed.

Lemma log2mlog_perm G gpn gs pk rk :
  0 <= G -> 0 <= gs -> is_perm G (zip_with (fun k r => k * gpn + r) pk rk) ->
  is_perm (G * gs) (log2mlog_of gpn gs pk rk).
Proof.
  intros HG Hgs Hp. unfold is_perm, log2mlog_of.
  transitivity (zip_with (fun k r => k * gpn + r) pk rk ≫= fun s => (fun j => s * gs + j) <$> seqZ 0 gs).
  - apply reflexive_eq. clear. revert rk. induction pk as [|p pk IH]; intros [|r rk]; simpl; [done..|].
    by rewrite IH.
  - unfold is_perm in Hp. rewrite Hp. rewrite <- (Z2Nat.id G HG), expand_seqZ by lia. done.
Qed.

(** * The hierarchical policy *)

Section hierarchical.
Context {W : Type} (w0 : W) (wadd : W -> W -> W) (wdiv : W -> Z -> W) (wlt : W -> W -> bool).
Context (argmax : list W -> Z) (sort_desc : list W -> list Z).
Hypothesis sort_desc_perm : forall l, is_perm (zlen l) (sort_desc l).
Hypothesis argmax_range : forall l, l <> [] -> 0 <= argmax l < zlen l.

(** A result of [n] slots over [m] experts that realises its counts. *)
Definition placed (n m : Z) (res : list Z * list Z * list Z) : Prop :=
  zlen (fst (fst res)) = n /\ zlen (snd res) = m /\ realises (fst (fst res)) (snd (fst res)) (snd res).

Lemma balance_node_placed weight num_phy gpus ppg :
  0 < zlen weight <= num_phy -> 0 < gpus -> num_phy = gpus * ppg ->
  exists res, balance_node w0 wadd wdiv wlt argmax sort_desc weight num_phy gpus ppg = Ok res /\
    placed num_phy (zlen weight) res.
Proof.
  intros Hw Hg Hdiv. unfold balance_node.
  destruct (replicate_experts_realises wdiv argmax argmax_range weight num_phy Hw)
    as (phy2log & rank & cnt & -> & Hl & Hc & Hr). simpl.
  destruct (gather_ok_any (zip_with wdiv weight cnt) phy2log) as (tokens & -> & Ht).
  { apply Forall_forall. intros l Hin%(realises_range _ _ _ _ Hr).
    zlen_lia. }
  assert (zlen tokens = num_phy) as Htl by (zlen_lia). simpl.
  destruct (balanced_packing_perm w0 wadd wlt sort_desc sort_desc_perm tokens gpus Hg)
    as (pk & rk & -> & Hpk & Hrk & Hp).
  { rewrite Htl, Hdiv, Z.mul_comm. by apply Z.mod_mul; lia. }
  rewrite Htl in Hp. replace (num_phy / gpus) with ppg in Hp by (rewrite Hdiv, Z.mul_comm, Z.div_mul; lia).
  simpl. set (p := inverse _). assert (is_perm num_phy p) as Hpp by (apply inverse_perm; [lia|done]).
  assert (Forall (fun i => 0 <= i < zlen phy2log) p /\ Forall (fun i => 0 <= i < zlen rank) p) as [H1 H2].
  { split; apply Forall_forall; intros i Hi%(is_perm_range _ _ _ Hpp); destruct Hr as (Hrl & _);
      zlen_lia. }
  rewrite (gather_Ok _ _ H1), (gather_Ok _ _ H2). simpl. eexists. split; [done|].
  split_and!; simpl; [|done|].
  - unfold zlen. rewrite length_fmap. apply is_perm_length; [lia|done].
  - apply realises_reorder; [done|by rewrite Hl].
Qed.

(** The nodes' results side by side, experts numbered consecutively. *)
Lemma nodes_realise n m nodes k :
  Forall (placed n m) nodes ->
  let slots := concat (imap (fun i '(l, _, _) => (fun x => x + Z.of_nat (k + i) * m) <$> l) nodes) in
  let ranks := concat ((fun '(_, r, _) => r) <$> nodes) in
  let cnt := concat (snd <$> nodes) in
  zlen slots = zlen nodes * n /\ zlen cnt = zlen nodes * m /\ length slots = length ranks /\
  zip slots ranks ≡ₚ pairs_from (Z.of_nat k * m) cnt /\ Forall (fun c => 1 <= c) cnt.
Proof.
  intros H. revert k. induction H as [|[[l r] c] nodes (Hn & Hm & Hl & Hz & Hc) Hf IH]; intros k; [done|].
  csimpl in *. destruct (IH (S k)) as (I1 & I2 & I3 & I4 & I5).
  erewrite (imap_ext _ (fun i '(l, _, _) => (fun x => x + Z.of_nat (S k + i) * m) <$> l));
    [|intros i [[? ?] ?] _; simpl; by rewrite Nat.add_succ_r].
  unfold zlen in *. rewrite !length_app, !length_fmap. cbn [length].
  rewrite !Nat2Z.inj_succ, !Z.mul_succ_l.
  split_and!; [lia|lia|lia| |by apply Forall_app].
  rewrite zip_with_app by (by rewrite length_fmap). rewrite I4, pairs_from_app, zip_fmap_fst, Hz.
  rewrite (pairs_from_shift (Z.of_nat (k + 0) * m)). unfold zlen. rewrite Hm, Nat.add_0_r.
  apply reflexive_eq. f_equal; f_equal; lia.
Qed.

Lemma rows_lengths {A} size count (l : list A) :
  0 <= size -> zlen l = count * size -> Forall (fun row => zlen row = size) (rows size count l).
Proof.
  intros Hs Hl. apply Forall_fmap, Forall_forall. intros n Hn%elem_of_seqZ. simpl. unfold zlen in *.
  rewrite length_take, length_drop. nia.
Qed.

Lemma mapM_r_placed {A} (f : A -> result (list Z * list Z * list Z)) (P : A -> Prop) Q l :
  Forall P l -> (forall x, P x -> exists res, f x = Ok res /\ Q res) ->
  exists out, mapM_r f l = Ok out /\ length out = length l /\ Forall Q out.
Proof.
  intros H HQ. induction H as [|x l Hx Hl (out & IH & Hlen & Hall)]; [by exists []|]. simpl.
  destruct (HQ x Hx) as (res & -> & Hres). simpl. rewrite IH. exists (res :: out).
  split_and!; [done|simpl; lia|by constructor].
Qed.

(** The sizes the hierarchical policy requires. *)
Record topology (num_log num_phy num_groups num_nodes num_gpus : Z) : Prop := mk_topology {
  tp_groups : 0 < num_groups;
  tp_nodes : 0 < num_nodes;
  tp_gpus : 0 < num_gpus;
  tp_log : num_log `mod` num_groups = 0;
  tp_group_nodes : num_groups `mod` num_nodes = 0;
  tp_gpu_nodes : num_gpus `mod` num_nodes = 0;
  tp_phy : num_phy `mod` num_gpus = 0
}.

(** The sizes of one node. *)
Lemma topology_factors L P G N D :
  topology L P G N D -> 0 < L <= P ->
  let gs := L / G in let gpn := G / N in let ppg := P / D in let gpus := D / N in
  L = G * gs /\ G = N * gpn /\ L / N = gpn * gs /\ P / N = gpus * ppg /\
  L = N * (gpn * gs) /\ P = N * (gpus * ppg) /\ 0 < gs /\ 0 < gpn /\ 0 < gpus /\ gpn * gs <= gpus * ppg.
Proof.
  intros [Hg Hn Hgpu Hlog Hgn Hgpn Hphy] Hpos gs gpn ppg gpus.
  apply Z.div_exact in Hlog, Hgn, Hgpn, Hphy; try lia. fold gs in Hlog. fold gpn in Hgn.
  fold ppg in Hphy. fold gpus in Hgpn. clearbody gs gpn ppg gpus.
  assert (L = N * (gpn * gs)) as HL by nia. assert (P = N * (gpus * ppg)) as HP by nia.
  assert (0 < gs /\ 0 < gpn /\ 0 < gpus) as (? & ? & ?) by nia.
  assert (gpn * gs <= gpus * ppg) by (apply (Z.mul_le_mono_pos_l _ _ N); lia).
  assert (L / N = gpn * gs) by (rewrite HL, Z.mul_comm, Z.div_mul; lia).
  assert (P / N = gpus * ppg) by (rewrite HP, Z.mul_comm, Z.div_mul; lia).
  split_and!; done.
Qed.

Lemma hierarchical_placed weight num_phy num_groups num_nodes num_gpus :
  let num_log := zlen weight in
  topology num_log num_phy num_groups num_nodes num_gpus -> 0 < num_log <= num_phy ->
  exists res, rebalance_experts_hierarchical w0 wadd wdiv wlt argmax sort_desc weight num_phy
                num_groups num_nodes num_gpus = Ok res /\ placed num_phy num_log res.
Proof.
  intros num_log Ht Hpos. destruct (topology_factors _ _ _ _ _ Ht Hpos)
    as (Hlog & Hgn & Hln & Hpn & Hlog' & Hphy & ? & ? & ? & Hfit).
  destruct Ht as [Hg Hn Hgpu Hm1 Hm2 Hm3 Hm4]. unfold rebalance_experts_hierarchical.
  fold num_log. rewrite decide_False by lia. rewrite decide_False by lia. rewrite Hln, Hpn.
  set (gs := num_log / num_groups) in *. set (gpn := num_groups / num_nodes) in *.
  set (ppg := num_phy / num_gpus) in *. set (gpus := num_gpus / num_nodes) in *.
  assert (zlen (group_weights w0 wadd weight num_groups gs) = num_groups) as Hgw.
  { unfold group_weights, rows, zlen. rewrite !length_fmap, length_seqZ. lia. }
  destruct (balanced_packing_perm w0 wadd wlt sort_desc sort_desc_perm
              (group_weights w0 wadd weight num_groups gs) num_nodes Hn)
    as (pk & rk & -> & _ & _ & Hp).
  { by rewrite Hgw. }
  rewrite Hgw in Hp. fold gpn in Hp. simpl.
  apply (log2mlog_perm num_groups gpn gs) in Hp; [|lia..]. rewrite <- Hlog in Hp.
  set (q := log2mlog_of gpn gs pk rk) in *. pose proof (inverse_perm num_log q ltac:(lia) Hp) as Hinv.
  destruct (gather_ok_any weight (inverse q)) as (tokens & -> & Ht).
  { apply Forall_forall. intros i. by apply is_perm_range. }
  apply is_perm_length in Hinv as Hil; [|lia]. simpl.
  destruct (mapM_r_placed
    (fun row => balance_node w0 wadd wdiv wlt argmax sort_desc row (gpus * ppg) gpus ppg)
    (fun row => zlen row = gpn * gs) (placed (gpus * ppg) (gpn * gs)) (rows (gpn * gs) num_nodes tokens))
    as (nodes & -> & Hnl & Hnodes).
  { apply rows_lengths; [nia|]. unfold zlen at 1. rewrite Ht. fold (zlen (inverse q)). lia. }
  { intros row Hrow. rewrite <- Hrow. apply balance_node_placed; [rewrite Hrow; nia|done|done]. }
  assert (zlen nodes = num_nodes) as Hnl'.
  { unfold zlen. rewrite Hnl. unfold rows. rewrite length_fmap, length_seqZ. lia. }
  destruct (nodes_realise _ _ _ 0 Hnodes) as (S1 & S2 & S3 & S4 & S5). cbn [Nat.add] in *. simpl.
  rewrite Hnl' in *. set (slots := concat (imap _ nodes)) in *. set (cnt := concat (snd <$> nodes)) in *.
  assert (realises slots (concat ((fun '(_, r, _) => r) <$> nodes)) cnt) as Hreal by done.
  assert (zlen cnt = num_log) as Hcnt by lia.
  rewrite (gather_Ok (inverse q) slots).
  2:{ apply Forall_forall. intros i Hi%(realises_range _ _ _ _ Hreal). lia. }
  simpl. rewrite (gather_Ok cnt q).
  2:{ apply Forall_forall. intros i Hi%(is_perm_range _ _ _ Hp). lia. }
  simpl. eexists. split; [done|]. split_and!; simpl.
  - unfold zlen in *. rewrite length_fmap. nia.
  - unfold zlen. rewrite length_fmap. apply is_perm_length; [lia|done].
  - apply realises_relabel; [done|by rewrite Hcnt].
Qed.
End hierarchical.

(** * From experts to slots *)

Lemma rows_lookup size count l e :
  0 <= size -> zlen l = count * size -> 0 <= e < count ->
  rows size count l !! Z.to_nat e = Some ((fun r => at_ l (e * size + r)) <$> seqZ 0 size).
Proof.
  intros Hs Hl He. unfold rows. rewrite list_lookup_fmap.
  assert (0 <= e * size /\ e * size + size <= count * size) as [? ?] by nia.
  rewrite (proj2 (lookup_seqZ 0 count (Z.to_nat e) e)) by lia. simpl. f_equal.
  apply list_eq. intros i. rewrite list_lookup_fmap. destruct (decide (i < Z.to_nat size)%nat) as [Hi|Hi].
  - rewrite (proj2 (lookup_seqZ 0 size i (Z.of_nat i))) by lia. simpl.
    rewrite lookup_take_lt, lookup_drop by lia. unfold at_.
    replace (Z.to_nat (e * size + Z.of_nat i)) with (Z.to_nat (e * size) + i)%nat by lia.
    destruct (lookup_lt_is_Some_2 l (Z.to_nat (e * size) + i)%nat) as [x ->]; [zlen_lia|done].
  - rewrite lookup_take_ge by lia. rewrite lookup_ge_None_2; [done|]. rewrite length_seqZ. lia.
Qed.

(** The slots of expert [e], by rank: what the cells of one expert hold. *)
Definition replicas_of (phy2log rank cnt : list Z) (e : Z) (ps : list Z) : Prop :=
  zlen ps = at_ cnt e /\
  (forall r p, ps !! r = Some p -> 0 <= p /\ phy2log !! Z.to_nat p = Some e /\ rank !! Z.to_nat p = Some (Z.of_nat r)) /\
  (forall p, phy2log !! p = Some e -> Z.of_nat p ∈ ps).

Section log2phy.
Context (phy2log rank cnt : list Z) (M : Z).
Hypothesis Hreal : realises phy2log rank cnt.
Hypothesis Hmax : Forall (fun c => c <= M) cnt.
Let N := zlen cnt.
Let cells := zip_with (fun l r => l * M + r) phy2log rank.
Let flat := scatter_arange (replicate (Z.to_nat (N * M)) (-1)) cells.

Lemma cnt_at e : 0 <= e < N -> 1 <= at_ cnt e <= M.
Proof.
  intros He. destruct (lookup_lt_is_Some_2 cnt (Z.to_nat e)) as [c Hc]; [unfold N, zlen in He; lia|].
  unfold at_. rewrite Hc. simpl. destruct Hreal as (_ & _ & H1).
  apply list_elem_of_lookup_2 in Hc. rewrite Forall_forall in H1, Hmax. auto.
Qed.

Lemma slot_pair p e r :
  phy2log !! p = Some e -> rank !! p = Some r -> 0 <= e < N /\ 0 <= r < at_ cnt e.
Proof.
  intros He Hr. destruct Hreal as (_ & Hz & _).
  assert ((e, r) ∈ pairs_from 0 cnt) as Hin%elem_of_pairs_from.
  { rewrite <- Hz. eapply list_elem_of_lookup_2. rewrite lookup_zip_with, He, Hr. done. }
  rewrite Z.sub_0_r in Hin. exact Hin.
Qed.

Lemma cells_lookup i x :
  cells !! i = Some x <->
  exists e r, phy2log !! i = Some e /\ rank !! i = Some r /\ x = e * M + r.
Proof.
  unfold cells. rewrite lookup_zip_with. split.
  - destruct (phy2log !! i), (rank !! i); intros [= <-]; eauto.
  - intros (e & r & -> & -> & ->). done.
Qed.

Lemma cells_distinct : NoDup cells /\ Forall (fun y => 0 <= y < N * M) cells.
Proof.
  split.
  - apply NoDup_alt. intros i j x (e & r & He & Hr & ->)%cells_lookup (e' & r' & He' & Hr' & E)%cells_lookup.
    destruct (slot_pair _ _ _ He Hr) as [Hb Hc], (slot_pair _ _ _ He' Hr') as [Hb' Hc'].
    pose proof (cnt_at _ Hb). pose proof (cnt_at _ Hb').
    apply radix_inj in E as [<- <-]; [|lia..]. destruct Hreal as (_ & Hz & _).
    assert (NoDup (zip phy2log rank)) as Hnd by (rewrite Hz; apply pairs_from_nodup).
    eapply NoDup_lookup; [exact Hnd| |]; rewrite lookup_zip_with; [rewrite He, Hr|rewrite He', Hr']; done.
  - apply Forall_forall. intros y [i (e & r & He & Hr & ->)%cells_lookup]%list_elem_of_lookup.
    destruct (slot_pair _ _ _ He Hr) as [Hb Hc]. pose proof (cnt_at _ Hb). nia.
Qed.

Lemma flat_hit i e r : phy2log !! i = Some e -> rank !! i = Some r -> at_ flat (e * M + r) = Z.of_nat i.
Proof.
  intros He Hr. destruct cells_distinct as [Hn Hf]. unfold at_, flat.
  rewrite (scatter_hit _ cells i); [done|done| |apply cells_lookup; eauto].
  eapply Forall_impl; [exact Hf|]. intros y Hy. simpl in Hy.
  zlen_lia.
Qed.

Lemma flat_miss e r : 0 <= e < N -> at_ cnt e <= r < M -> at_ flat (e * M + r) = -1.
Proof.
  intros He Hr. destruct cells_distinct as [Hn Hf]. pose proof (cnt_at _ He). unfold at_, flat.
  rewrite scatter_miss.
  - rewrite lookup_replicate_2; [done|nia].
  - eapply Forall_impl; [exact Hf|]. simpl. lia.
  - intros [i (e' & r' & He' & Hr' & E)%cells_lookup]%list_elem_of_lookup.
    destruct (slot_pair _ _ _ He' Hr') as [Hb Hc]. pose proof (cnt_at _ Hb).
    rewrite Z2Nat.id in E by nia. apply radix_inj in E as [-> ->]; lia.
Qed.

Lemma pair_slot e r : 0 <= e < N -> 0 <= r < at_ cnt e ->
  exists i, phy2log !! i = Some e /\ rank !! i = Some r.
Proof.
  intros He Hr. destruct Hreal as (_ & Hz & _).
  assert ((e, r) ∈ zip phy2log rank) as [i Hi]%list_elem_of_lookup.
  { rewrite Hz. apply elem_of_pairs_from. rewrite Z.sub_0_r. done. }
  exists i. rewrite lookup_zip_with in Hi.
  destruct (phy2log !! i), (rank !! i); simplify_eq/=; done.
Qed.

(** Row [e] lists the slots of [e] by rank, then padding. *)
Lemma log2phy_row e :
  0 <= e < N -> exists ps, log2phy_of N M phy2log rank !! Z.to_nat e =
    Some (ps ++ replicate (Z.to_nat (M - at_ cnt e)) (-1)) /\ replicas_of phy2log rank cnt e ps.
Proof.
  intros He. pose proof (cnt_at _ He) as Hc. unfold log2phy_of. fold cells flat.
  rewrite rows_lookup; [|lia|unfold flat, zlen; rewrite scatter_length, length_replicate; nia|done].
  exists ((fun r => at_ flat (e * M + r)) <$> seqZ 0 (at_ cnt e)). split.
  - assert (seqZ 0 M = seqZ 0 (at_ cnt e) ++ seqZ (at_ cnt e) (M - at_ cnt e)) as ->.
    { pose proof (seqZ_app 0 (at_ cnt e) (M - at_ cnt e) ltac:(lia) ltac:(lia)) as E.
      rewrite Z.add_0_l in E. rewrite <- E. f_equal. lia. }
    rewrite fmap_app. do 2 f_equal. symmetry. apply replicate_as_elem_of. rewrite length_fmap, length_seqZ.
    split; [done|]. intros x (r & -> & Hr%elem_of_seqZ)%list_elem_of_fmap. apply flat_miss; [done|lia].
  - split_and!; [zlen_lia| |].
    + intros r p. rewrite list_lookup_fmap. intros (r' & [-> Hlt]%lookup_seqZ & ->)%fmap_Some. simpl.
      destruct (pair_slot e (Z.of_nat r) He ltac:(lia)) as (i & Hi & Hri).
      rewrite Z.add_0_l, (flat_hit _ _ _ Hi Hri), Nat2Z.id. split; [lia|done].
    + intros p Hp. destruct (lookup_lt_is_Some_2 rank p) as [r Hr].
      { destruct Hreal as (<- & _). by eapply lookup_lt_Some. }
      destruct (slot_pair _ _ _ Hp Hr) as [_ Hrb]. apply list_elem_of_fmap. exists r.
      rewrite (flat_hit _ _ _ Hp Hr). split; [done|]. apply elem_of_seqZ. lia.
Qed.

Lemma raw_row e :
  0 <= e < N -> exists row, log2phy_of N M phy2log rank !! Z.to_nat e = Some row /\
    replicas_of phy2log rank cnt e (logical_to_all_physical_raw row).
Proof.
  intros He. destruct (log2phy_row e He) as (ps & Hrow & Hps). eexists. split; [exact Hrow|].
  unfold logical_to_all_physical_raw. rewrite filter_app, filter_all, filter_none, app_nil_r; [done| |].
  - apply Forall_replicate. lia.
  - apply Forall_forall. intros p [r Hr]%list_elem_of_lookup. destruct Hps as (_ & H & _).
    apply H in Hr as [? _]. lia.
Qed.
End log2phy.

(** The replicas are distinct, one of them at least, and exactly the expert's slots. *)
Lemma replicas_of_facts phy2log rank cnt e ps :
  replicas_of phy2log rank cnt e ps -> 1 <= at_ cnt e ->
  ps <> [] /\ NoDup ps /\ (forall p, p ∈ ps <-> 0 <= p /\ phy2log !! Z.to_nat p = Some e).
Proof.
  intros (Hl & Hps & Hall) Hc. split_and!.
  - intros ->. unfold zlen in Hl. simpl in Hl. lia.
  - apply NoDup_alt. intros i j p Hi Hj. apply Hps in Hi as (_ & _ & Hi), Hj as (_ & _ & Hj).
    rewrite Hi in Hj. injection Hj. lia.
  - intros p. split; [intros [r Hr]%list_elem_of_lookup; naive_solver|]. intros [Hp H].
    apply Hall in H. by rewrite Z2Nat.id in H.
Qed.

(** * Dispatch *)


Section dispatching.
Context {R : Type} (sample : R -> list Z -> nat -> list Z * R) (shuffle : R -> list Z -> list Z * R).
(** [random.sample] draws [k] elements of the population; [random.shuffle] permutes. *)
Hypothesis sample_spec : forall r arr k, (k <= length arr)%nat ->
  length (fst (sample r arr k)) = k /\ Forall (fun x => x ∈ arr) (fst (sample r arr k)).
Hypothesis shuffle_perm : forall r l, fst (shuffle r l) ≡ₚ l.

Lemma fair_choices_Ok arr k r :
  arr <> [] -> exists res r', fair_choices sample shuffle arr k r = (Ok res, r') /\
    length res = k /\ Forall (fun x => x ∈ arr) res.
Proof.
  intros Ha. assert (length arr <> 0)%nat as Hl by (by destruct arr).
  unfold fair_choices. rewrite decide_False by done.
  destruct (sample_spec r arr (k `mod` length arr)) as [Hs1 Hs2];
    [pose proof (Nat.mod_upper_bound k (length arr) Hl); lia|].
  destruct (sample r arr _) as [picked r1]. simpl in *.
  pose proof (shuffle_perm r1 (concat (replicate (k / length arr) arr) ++ picked)) as Hp.
  destruct (shuffle r1 _) as [res r2]. simpl in *. exists res, r2. split_and!; [done| |].
  - rewrite Hp, length_app, Hs1.
    assert (forall n, length (concat (replicate n arr)) = n * length arr)%nat as ->.
    { induction n as [|n IH]; [done|]. simpl. rewrite length_app. lia. }
    pose proof (Nat.div_mod k (length arr) Hl). lia.
  - rewrite Hp. apply Forall_app. split; [|done]. apply Forall_concat, Forall_replicate, Forall_forall. done.
Qed.

Lemma fill_missing_spec (P : Z -> Prop) cells values :
  length values = length (filter (fun c => c = -1) cells) -> Forall P values ->
  Forall2 (fun c x => if decide (c = -1) then P x else x = c) cells (fill_missing cells values).
Proof.
  revert values. induction cells as [|c cells IH]; intros values Hl HP; simpl; [constructor|].
  rewrite filter_cons in Hl. destruct (decide (c = -1)) as [->|Hne]; simpl in *.
  - destruct values as [|v values]; [done|]. apply Forall_cons in HP as [Hv HP].
    constructor; [by rewrite decide_True|]. apply IH; [simpl in Hl; lia|done].
  - constructor; [by rewrite decide_False|]. by apply IH.
Qed.

(** Where a GPU sends an expert's tokens: to a replica, on the GPU itself if it has one. *)
Definition local_first (num_local : Z) (candidates : list Z) (g p : Z) : Prop :=
  p ∈ candidates /\ ((exists q, q ∈ candidates /\ gpu_of q num_local = g) -> gpu_of p num_local = g).

Lemma own_replica_cases num_local candidates g :
  Forall (fun p => 0 <= p) candidates ->
  let c := default (-1) (head (filter (fun p => gpu_of p num_local = g) candidates)) in
  (c = -1 /\ forall q, q ∈ candidates -> gpu_of q num_local <> g) \/
  (c <> -1 /\ c ∈ candidates /\ gpu_of c num_local = g).
Proof.
  intros Hpos. destruct (filter _ candidates) as [|p l] eqn:E; simpl.
  - left. split; [done|]. intros q Hq Hg.
    assert (q ∈ filter (fun p => gpu_of p num_local = g) candidates) as H by (by apply list_elem_of_filter).
    rewrite E in H. by apply not_elem_of_nil in H.
  - right. assert (p ∈ filter (fun p => gpu_of p num_local = g) candidates) as H by (rewrite E; by left).
    apply list_elem_of_filter in H as [Hg Hp]. rewrite Forall_forall in Hpos. specialize (Hpos _ Hp).
    split_and!; [lia|done|done].
Qed.

Lemma dispatch_expert_Ok num_gpus num_local row r :
  0 < num_local -> logical_to_all_physical_raw row <> [] ->
  Forall (fun p => 0 <= p) (logical_to_all_physical_raw row) ->
  exists out r', dispatch_expert sample shuffle num_gpus num_local row r = (Ok out, r') /\
    Forall2 (local_first num_local (logical_to_all_physical_raw row)) (seqZ 0 num_gpus) out.
Proof.
  intros Hloc Hne Hpos. unfold dispatch_expert. set (cand := logical_to_all_physical_raw row) in *.
  unfold raise_if. rewrite bool_decide_eq_false_2 by lia.
  set (own := own_replicas num_gpus num_local cand).
  destruct (fair_choices_Ok cand (length (filter (fun c => c = -1) own)) r Hne) as (res & r' & Hres & Hl & Hin).
  exists (fill_missing own res), r'. unfold mbind, act_bind, mret, act_ret. rewrite Hres. split; [done|].
  pose proof (fill_missing_spec _ own res Hl Hin) as Hf. revert Hf. generalize (fill_missing own res).
  intros out Hf. unfold own, own_replicas in Hf. apply Forall2_fmap_l in Hf.
  eapply Forall2_impl; [exact Hf|]. intros g p Hgp. simpl in Hgp.
  destruct (own_replica_cases num_local cand g Hpos) as [[Hc Hno]|(Hc & Hin' & Hg)].
  - rewrite decide_True in Hgp by done. split; [done|]. intros (q & Hq & Hg). by destruct (Hno q Hq).
  - rewrite decide_False in Hgp by done. rewrite Hgp. split; [done|by intros _].
Qed.

Lemma act_mapM_Ok {A B} (f : A -> act R B) (P : A -> Prop) (Q : A -> B -> Prop) l r :
  Forall P l -> (forall x r, P x -> exists y r', f x r = (Ok y, r') /\ Q x y) ->
  exists ys r', act_mapM f l r = (Ok ys, r') /\ Forall2 Q l ys.
Proof.
  intros H Hf. revert r. induction H as [|x l Hx Hl IH]; intros r; [by exists [], r|].
  destruct (Hf x r Hx) as (y & r1 & Hy & HQ). destruct (IH r1) as (ys & r2 & Hys & HQs).
  exists (y :: ys), r2. simpl. unfold mbind, act_bind, mret, act_ret. rewrite Hy, Hys. split; [done|by constructor].
Qed.

Lemma dispatch_map_Ok num_gpus num_physical log2phy r :
  0 < num_gpus <= num_physical ->
  Forall (Forall (fun row => logical_to_all_physical_raw row <> [] /\
                             Forall (fun p => 0 <= p) (logical_to_all_physical_raw row))) log2phy ->
  exists out r', dispatch_map sample shuffle num_gpus num_physical log2phy r = (Ok out, r') /\
    Forall2 (Forall2 (fun row targets =>
      Forall2 (local_first (num_physical / num_gpus) (logical_to_all_physical_raw row)) (seqZ 0 num_gpus) targets))
      log2phy out.
Proof.
  intros Hg Hrows. set (num_local := num_physical / num_gpus).
  assert (0 < num_local) by (apply Z.div_str_pos; lia).
  destruct (act_mapM_Ok (act_mapM (dispatch_expert sample shuffle num_gpus num_local)) _
    (Forall2 (fun row targets =>
       Forall2 (local_first num_local (logical_to_all_physical_raw row)) (seqZ 0 num_gpus) targets))
    log2phy r Hrows) as (out & r' & Hout & HQ).
  { intros rows_ r0 Hr0. eapply act_mapM_Ok; [exact Hr0|]. intros row r1 [H1 H2]. by apply dispatch_expert_Ok. }
  exists out, r'. split; [|exact HQ]. unfold dispatch_map, raise_if. fold num_local.
  rewrite !bool_decide_eq_false_2 with (P := num_gpus = 0) by lia.
  rewrite !bool_decide_eq_false_2 with (P := num_gpus < 0) by lia.
  unfold mbind, act_bind, mret, act_ret. rewrite Hout. rewrite bool_decide_eq_false_2; [done|].
  intros (c & Hc & ->)%Exists_exists. apply elem_of_concat in Hc as (targets & Ht & Hin).
  apply elem_of_concat in Hin as (layer & Hlay & Hin).
  apply list_elem_of_lookup in Hin as [i Hi].
  destruct (Forall2_lookup_r _ _ _ _ _ HQ Hi) as (rows_ & Hr1 & HQ1).
  apply list_elem_of_lookup in Hlay as [j Hj]. destruct (Forall2_lookup_r _ _ _ _ _ HQ1 Hj) as (row & Hr2 & HQ2).
  apply list_elem_of_lookup in Ht as [k Hk]. destruct (Forall2_lookup_r _ _ _ _ _ HQ2 Hk) as (g & _ & Hp & _).
  rewrite Forall_forall in Hrows. specialize (Hrows _ (list_elem_of_lookup_2 _ _ _ Hr1)).
  rewrite Forall_forall in Hrows. destruct (Hrows _ (list_elem_of_lookup_2 _ _ _ Hr2)) as [_ Hpos].
  rewrite Forall_forall in Hpos. specialize (Hpos _ Hp). lia.
Qed.
End dispatching.

(** * The balancer's contract *)

Section contract.
Context {W : Type} (w0 : W) (wadd : W -> W -> W) (wdiv : W -> Z -> W) (wlt : W -> W -> bool).
Context (argmax : list W -> Z) (sort_desc : list W -> list Z).
Hypothesis sort_desc_perm : forall l, is_perm (zlen l) (sort_desc l).
Hypothesis argmax_range : forall l, l <> [] -> 0 <= argmax l < zlen l.

(** What one layer of the maps says: every slot holds an expert, every expert has [cnt]
    distinct slots, and the expert's row lists exactly these. *)
Record layer_maps (num_log num_phy : Z) (phy2log : list Z) (log2phy : list (list Z)) (cnt : list Z)
    : Prop := mk_layer_maps {
  lm_slots : zlen phy2log = num_phy;
  lm_range : Forall (fun e => 0 <= e < num_log) phy2log;
  lm_experts : zlen log2phy = num_log;
  lm_cnt : zlen cnt = num_log;
  lm_rows : forall e, 0 <= e < num_log -> exists row, log2phy !! Z.to_nat e = Some row /\
    let ps := logical_to_all_physical_raw row in
    ps <> [] /\ NoDup ps /\ zlen ps = at_ cnt e /\
    forall p, p ∈ ps <-> 0 <= p /\ phy2log !! Z.to_nat p = Some e
}.

Lemma placed_maps num_log num_phy a b c M :
  placed num_phy num_log (a, b, c) -> Forall (fun n => n <= M) c ->
  layer_maps num_log num_phy a (log2phy_of (zlen c) M a b) c.
Proof.
  intros (Ha & Hc & Hr) HM. simpl in *. split; [done| | |done|].
  - apply Forall_forall. intros e He%(realises_range _ _ _ _ Hr). lia.
  - rewrite <- Hc. unfold log2phy_of, rows, zlen. rewrite length_fmap, length_seqZ. lia.
  - intros e He. rewrite <- Hc in He. destruct (raw_row a b c M Hr HM e He) as (row & Hrow & Hps).
    exists row. split; [done|].
    destruct (replicas_of_facts _ _ _ _ _ Hps) as (H1 & H2 & H3); [by apply (cnt_at a b c M)|].
    split_and!; [done|done|by destruct Hps|exact H3].
Qed.

(** The sizes [rebalance_experts] is called with. *)
Record sizes (weight : list (list W)) (num_log num_phy num_groups num_nodes num_gpus : Z) : Prop := mk_sizes {
  sz_layers : weight <> [];
  sz_rows : Forall (fun row => zlen row = num_log) weight;
  sz_log : 0 < num_log <= num_phy;
  sz_nodes : 0 < num_nodes;
  sz_topology : num_groups `mod` num_nodes = 0 -> topology num_log num_phy num_groups num_nodes num_gpus
}.

Lemma balance_placed row num_phy num_groups num_nodes num_gpus :
  0 < zlen row <= num_phy -> 0 < num_nodes ->
  (num_groups `mod` num_nodes = 0 -> topology (zlen row) num_phy num_groups num_nodes num_gpus) ->
  exists res, balance w0 wadd wdiv wlt argmax sort_desc row num_phy num_groups num_nodes num_gpus = Ok res /\
    placed num_phy (zlen row) res.
Proof.
  intros Hl Hn Ht. unfold balance. rewrite decide_False by lia. case_decide as Hg.
  - apply hierarchical_placed; auto.
  - destruct (replicate_experts_realises wdiv argmax argmax_range row num_phy Hl)
      as (a & b & c & -> & H1 & H2 & H3). eexists. split; [done|]. done.
Qed.

Lemma foldr_max_ge l x : x ∈ l -> x <= foldr Z.max 0 l.
Proof. induction l as [|y l IH]; [by intros ?%not_elem_of_nil|]. intros [->|H]%elem_of_cons; simpl; [lia|]. specialize (IH H). lia. Qed.

Lemma rebalance_layers weight num_log num_phy num_groups num_nodes num_gpus :
  sizes weight num_log num_phy num_groups num_nodes num_gpus ->
  exists phy2log log2phy logcnt,
    rebalance_experts w0 wadd wdiv wlt argmax sort_desc weight num_phy num_groups num_nodes num_gpus
      = Ok (phy2log, log2phy, logcnt) /\
    length phy2log = length weight /\
    Forall3 (layer_maps num_log num_phy) phy2log log2phy logcnt.
Proof.
  intros [Hne Hrows Hlog Hn Ht]. unfold rebalance_experts.
  destruct (mapM_r_placed
    (fun row => balance w0 wadd wdiv wlt argmax sort_desc row num_phy num_groups num_nodes num_gpus)
    _ (placed num_phy num_log) weight Hrows) as (layers & -> & Hlen & Hall).
  { intros row <-. by apply balance_placed. }
  simpl. rewrite decide_False.
  2:{ destruct layers as [|[[a b] c] layers]; [by destruct weight|]. apply Forall_cons in Hall as [(_ & Hc & _) _].
      simpl in *. intros [-> _]%app_nil. unfold zlen in Hc. simpl in Hc. lia. }
  eexists _, _, _. split; [done|]. split; [by rewrite length_fmap|].
  set (M := foldr Z.max 0 _).
  assert (Forall (fun res => Forall (fun n => n <= M) (snd res)) layers) as HM.
  { apply Forall_forall. intros res Hres. apply Forall_forall. intros n Hin. apply foldr_max_ge.
    apply elem_of_concat. exists (snd res). split; [done|]. by apply list_elem_of_fmap_2. }
  clearbody M. clear Hlen. induction layers as [|[[a b] c] layers IH]; csimpl; constructor.
  - apply Forall_cons in Hall as [? _], HM as [? _]. by apply placed_maps.
  - apply Forall_cons in Hall as [_ ?], HM as [_ ?]. by apply IH.
Qed.

(** C35. [rebalance_experts] never fails on a valid topology, under both policies: in every
    layer each physical slot holds a logical expert, every expert has at least one replica,
    exactly as many as [logcnt] says, and [log2phy] lists exactly the slots [phy2log]
    assigns to the expert, once each. *)
Theorem rebalance_experts_sound weight num_log num_phy num_groups num_nodes num_gpus :
  sizes weight num_log num_phy num_groups num_nodes num_gpus ->
  exists phy2log log2phy logcnt,
    rebalance_experts w0 wadd wdiv wlt argmax sort_desc weight num_phy num_groups num_nodes num_gpus
      = Ok (phy2log, log2phy, logcnt) /\
    length phy2log = length weight /\ Forall3 (layer_maps num_log num_phy) phy2log log2phy logcnt.
Proof. apply rebalance_layers. Qed.

Context {R : Type} (sample : R -> list Z -> nat -> list Z * R) (shuffle : R -> list Z -> list Z * R).
Hypothesis sample_spec : forall r arr k, (k <= length arr)%nat ->
  length (fst (sample r arr k)) = k /\ Forall (fun x => x ∈ arr) (fst (sample r arr k)).
Hypothesis shuffle_perm : forall r l, fst (shuffle r l) ≡ₚ l.

(** A layer's dispatch targets: expert [e] on GPU [g] goes to a slot that holds [e], and
    to one of GPU [g] when the GPU holds a replica. *)
Definition targets_ok (num_log num_gpus num_local : Z) (phy2log : list Z) (targets : list (list Z)) : Prop :=
  forall e g, 0 <= e < num_log -> 0 <= g < num_gpus ->
  exists row p, targets !! Z.to_nat e = Some row /\ row !! Z.to_nat g = Some p /\
    phy2log !! Z.to_nat p = Some e /\
    ((exists q, 0 <= q /\ phy2log !! Z.to_nat q = Some e /\ gpu_of q num_local = g) -> gpu_of p num_local = g).

Lemma layer_maps_rows num_log num_phy a rows_ c :
  layer_maps num_log num_phy a rows_ c ->
  Forall (fun row => logical_to_all_physical_raw row <> [] /\
                     Forall (fun p => 0 <= p) (logical_to_all_physical_raw row)) rows_.
Proof.
  intros [_ _ He _ Hr]. apply Forall_forall. intros row [i Hi]%list_elem_of_lookup.
  pose proof (lookup_lt_Some _ _ _ Hi). destruct (Hr (Z.of_nat i)) as (row' & Hrow & Hne & _ & _ & Hin).
  { unfold zlen in He. lia. }
  rewrite Nat2Z.id in Hrow. simplify_eq. split; [done|]. apply Forall_forall. intros p. by intros [? _]%Hin.
Qed.

Lemma layer_targets num_log num_phy num_gpus a rows_ c targets :
  layer_maps num_log num_phy a rows_ c ->
  Forall2 (fun row ts => Forall2 (local_first (num_phy / num_gpus) (logical_to_all_physical_raw row))
                           (seqZ 0 num_gpus) ts) rows_ targets ->
  targets_ok num_log num_gpus (num_phy / num_gpus) a targets.
Proof.
  intros [_ _ _ _ Hr] HF e g He Hg. destruct (Hr e He) as (row & Hrow & _ & _ & _ & Hin).
  destruct (Forall2_lookup_l _ _ _ _ _ HF Hrow) as (ts & Hts & HF2).
  assert (seqZ 0 num_gpus !! Z.to_nat g = Some g) as Hgl by (apply lookup_seqZ; lia).
  destruct (Forall2_lookup_l _ _ _ _ _ HF2 Hgl) as (p & Hp & Hpc & Hloc).
  exists ts, p. split_and!; [done|done|by apply Hin in Hpc as [_ ?]|].
  intros (q & Hq0 & Hq & Hgq). apply Hloc. exists q. split; [by apply Hin|done].
Qed.

Lemma layer_num_valid num_log num_phy a rows_ c :
  layer_maps num_log num_phy a rows_ c -> map (fun row => zlen (logical_to_all_physical_raw row)) rows_ = c.
Proof.
  intros [_ _ He Hc Hr]. rewrite <- (fmap_at c), Hc. apply list_eq. intros i. rewrite list_lookup_fmap.
  change (map ?f rows_ !! i) with ((f <$> rows_) !! i). rewrite list_lookup_fmap.
  destruct (decide (i < length rows_)%nat) as [Hi|Hi].
  - rewrite (proj2 (lookup_seqZ 0 num_log i (Z.of_nat i))) by (zlen_lia). simpl.
    destruct (Hr (Z.of_nat i)) as (row & Hrow & _ & _ & Hl & _); [zlen_lia|].
    rewrite Nat2Z.id in Hrow. rewrite Hrow. simpl. by rewrite Hl.
  - rewrite !lookup_ge_None_2; [done| |lia]. rewrite length_seqZ. unfold zlen in He. lia.
Qed.

(** Maps of one rebalancing have the shapes [__post_init__] asserts. *)
Lemma init_raw_Ok num_gpus num_phy a rows_ out r r' :
  0 <= num_phy -> length a = length rows_ ->
  dispatch_map sample shuffle num_gpus num_phy rows_ r = (Ok out, r') ->
  map length rows_ = map length out ->
  init_raw sample shuffle num_gpus num_phy a rows_ r =
    (Ok (mk_metadata a (map (map (pad (Z.to_nat num_phy))) rows_)
           (map (map (fun row => zlen (logical_to_all_physical_raw row))) rows_) out), r').
Proof.
  intros Hp Hl Hout Hs. unfold init_raw, mbind, act_bind, mret, act_ret. rewrite Hout.
  assert (length rows_ = length out) as Hlo by (by apply (f_equal length) in Hs; rewrite !length_map in Hs).
  assert (forall {B} (f : list Z -> B) (l : list (list (list Z))), map length (map (map f) l) = map length l) as Hml.
  { intros B f l. rewrite map_map. apply map_ext. intros x. apply length_map. }
  unfold metadata_post_init, raise_if. cbn [physical_to_logical_map logical_to_all_physical_map
    logical_to_all_physical_map_num_valid logical_to_rank_dispatch_physical_map].
  rewrite !length_map, !Hml.
  rewrite (bool_decide_eq_true_2 (length a = _ /\ _)) by done.
  rewrite (bool_decide_eq_true_2 (map length rows_ = _ /\ _)) by done.
  rewrite (bool_decide_eq_true_2 (Forall _ _)); [done|].
  apply Forall_forall. intros rs (x & -> & _)%list_elem_of_fmap. apply Forall_forall.
  intros row (y & -> & _)%list_elem_of_fmap. unfold pad. zlen_lia.
Qed.

(** From the expert statistics to the dispatch table: building the balancer's metadata
    succeeds, and on every GPU each expert is dispatched to a slot that holds it, to a
    replica of the GPU itself whenever the GPU has one. *)
Theorem eplb_dispatch_reaches_replicas weight num_log num_phy num_groups num_nodes num_gpus r :
  sizes weight num_log num_phy num_groups num_nodes num_gpus -> 0 < num_gpus <= num_phy ->
  exists phy2log log2phy logcnt meta r',
    rebalance_experts w0 wadd wdiv wlt argmax sort_desc weight num_phy num_groups num_nodes num_gpus
      = Ok (phy2log, log2phy, logcnt) /\
    init_raw sample shuffle num_gpus num_phy phy2log log2phy r = (Ok meta, r') /\
    physical_to_logical_map meta = phy2log /\
    logical_to_all_physical_map_num_valid meta = logcnt /\
    Forall2 (targets_ok num_log num_gpus (num_phy / num_gpus)) phy2log
      (logical_to_rank_dispatch_physical_map meta).
Proof.
  intros Hs Hg. destruct (rebalance_layers _ _ _ _ _ _ Hs) as (a & rows_ & c & Hrb & _ & HF).
  destruct (dispatch_map_Ok sample shuffle sample_spec shuffle_perm num_gpus num_phy rows_ r Hg)
    as (out & r' & Hout & HQ).
  { clear -HF. induction HF; constructor; [|done]. by eapply layer_maps_rows. }
  eexists a, rows_, c, _, r'. split; [done|]. split.
  { eapply init_raw_Ok; [lia| |done|].
    - clear -HF. induction HF; simpl; [done|]. by f_equal.
    - clear -HQ. induction HQ as [|x y l k Hxy HQ IH]; simpl; [done|]. f_equal; [|done].
      by eapply Forall2_length. }
  simpl. split; [done|]. split.
  - clear -HF. induction HF as [|x y z l k k' Hm HF IH]; simpl; [done|].
    by rewrite (layer_num_valid _ _ _ _ _ Hm), IH.
  - clear -HF HQ. revert out HQ. induction HF as [|x y z l k k' Hm HF IH]; intros out HQ.
    + inversion HQ. constructor.
    + inversion HQ; subst. constructor; [by eapply layer_targets|by apply IH].
Qed.
End contract.

(** Integer weights, for evaluation. *)
Definition sort_desc_Z (l : list Z) : list Z :=
  stable_sort (fun i j => at_ l j <=? at_ l i) (seqZ 0 (zlen l)).
Definition argmax_Z (l : list Z) : Z := hd 0 (sort_desc_Z l).

Lemma sort_desc_Z_perm l : is_perm (zlen l) (sort_desc_Z l).
Proof. apply stable_sort_perm. Qed.

Lemma argmax_Z_range l : l <> [] -> 0 <= argmax_Z l < zlen l.
Proof.
  intros Hl. unfold argmax_Z. pose proof (sort_desc_Z_perm l) as Hp.
  apply (is_perm_range _ _ _ Hp). destruct (sort_desc_Z l); [|by left].
  apply Permutation_nil_l in Hp. destruct l as [|x l]; [done|]. unfold zlen in Hp. simpl length in Hp.
  rewrite Nat2Z.inj_succ, seqZ_cons in Hp by lia. done.
Qed.

(** Two layers of four experts, two groups on two nodes of one GPU each, six slots. *)
Definition demo_weights : list (list Z) := [[90; 40; 20; 10]; [5; 5; 100; 7]].

Lemma demo_sizes : sizes demo_weights 4 6 2 2 2.
Proof. split; [done|by repeat constructor|lia|lia|]. intros _. split; by vm_compute. Qed.

Lemma rebalance_experts_sound_witness :
  exists phy2log log2phy logcnt,
    rebalance_experts 0 Z.add Z.div Z.ltb argmax_Z sort_desc_Z demo_weights 6 2 2 2
      = Ok (phy2log, log2phy, logcnt) /\
    length phy2log = length demo_weights /\ Forall3 (layer_maps 4 6) phy2log log2phy logcnt.
Proof.
  exact (rebalance_experts_sound 0 Z.add Z.div Z.ltb argmax_Z sort_desc_Z sort_desc_Z_perm argmax_Z_range
           demo_weights 4 6 2 2 2 demo_sizes).
Defined.

(** The first [k] elements, and no shuffling. *)
Definition sample_first (r : nat) (arr : list Z) (k : nat) : list Z * nat := (take k arr, S r).
Definition shuffle_none (r : nat) (l : list Z) : list Z * nat := (l, S r).

Lemma sample_first_spec r arr k : (k <= length arr)%nat ->
  length (fst (sample_first r arr k)) = k /\ Forall (fun x => x ∈ arr) (fst (sample_first r arr k)).
Proof.
  intros Hk. simpl. split; [rewrite length_take; lia|]. apply Forall_forall. intros x Hx.
  rewrite <- (take_drop k arr). apply elem_of_app. by left.
Qed.

Lemma eplb_dispatch_reaches_replicas_witness :
  exists phy2log log2phy logcnt meta r',
    rebalance_experts 0 Z.add Z.div Z.ltb argmax_Z sort_desc_Z demo_weights 6 2 2 2
      = Ok (phy2log, log2phy, logcnt) /\
    init_raw sample_first shuffle_none 2 6 phy2log log2phy 0%nat = (Ok meta, r') /\
    physical_to_logical_map meta = phy2log /\
    logical_to_all_physical_map_num_valid meta = logcnt /\
    Forall2 (targets_ok 4 2 (6 / 2)) phy2log (logical_to_rank_dispatch_physical_map meta).
Proof.
  refine (eplb_dispatch_reaches_replicas 0 Z.add Z.div Z.ltb argmax_Z sort_desc_Z
           sort_desc_Z_perm argmax_Z_range sample_first shuffle_none sample_first_spec _
           demo_weights 4 6 2 2 2 0%nat demo_sizes _).
  - intros r l. reflexivity.
  - lia.
Defined.
