(* ===== verification/Experts.v ===== *)
(** Routed experts: the mixture-of-experts layer of
    [dlengine/runtime/layers/backends/experts/generic.py] on expert-parallel and
    tensor-parallel ranks, and the padded dispatch of its decode path
    ([experts/local_dispatch.py] with the kernels of
    [kernel/triton/generic/local_dispatch.py]).

    Numbers are exact, in a commutative semiring ([Semiring]); [F.silu] is a parameter.  The
    programs of the dispatch kernel run in any order: the order in which they claim slots is an
    argument.  A group of ranks runs in lock step between its collectives. *)

From S2P Require Import Prelude TensorParallel.

Open Scope nat_scope.

(** What routing needs of arithmetic beyond [Arith]: the weight of an expert may be multiplied
    on either side and distributes over the partial results of the ranks. *)
Class Semiring (R : Type) `{Arith R} := {
  rmul_comm :: Comm (=) rmul;
  rmul_radd : forall a b c : R, rmul (radd a b) c = radd (rmul a c) (rmul b c)
}.

#[export] Instance Z_semiring : Semiring Z.
Proof. constructor; [intros a b|intros a b c]; cbn; lia. Defined.

(** * Masks *)

(** [l\[mask\]] *)
Fixpoint select {A} (m : list bool) (l : list A) : list A :=
  match m, l with
  | b :: m, x :: l => if b then x :: select m l else select m l
  | _, _ => []
  end.

(** [l\[mask\] = new] *)
Fixpoint assign {A} (m : list bool) (new l : list A) : list A :=
  match m, l with
  | true :: m, _ :: l => match new with y :: new => y :: assign m new l | [] => l end
  | false :: m, x :: l => x :: assign m new l
  | _, _ => l
  end.

(** * The padded dispatcher *)

Section dispatcher.
Context {R : Type} `{Arith R}.
Notation mat := (list (list R)) (only parsing).

Definition ALIGNMENT : nat := 128.

Definition align_up (x align : nat) : nat := (x + align - 1) / align * align.

Record LocalPaddedDispatcher := mk_dispatcher {
  d_E : nat;
  d_max_m : nat;
  d_H : nat;
  d_K : nat;
  d_max_T : nat;
  padded_buf : list mat;
  masked_m : list Z;
  slot_map : list (list Z);
  out_buf : mat
}.

Definition LocalPaddedDispatcher_init (num_local_experts max_m hidden_size top_k max_num_tokens : nat) : LocalPaddedDispatcher :=
  let max_m := align_up (max_m `max` ALIGNMENT) ALIGNMENT in
  {| d_E := num_local_experts; d_max_m := max_m; d_H := hidden_size; d_K := top_k; d_max_T := max_num_tokens;
     padded_buf := replicate num_local_experts (replicate max_m (replicate hidden_size r0));
     masked_m := replicate num_local_experts 0%Z;
     slot_map := replicate max_num_tokens (replicate top_k (-1)%Z);
     out_buf := replicate max_num_tokens (replicate hidden_size r0) |}.

(** [get_runner_config().max_num_seqs or 512] *)
Definition seqs_or_default (max_num_seqs : option nat) : nat :=
  match max_num_seqs with Some n => if decide (n = 0) then 512 else n | None => 512 end.

Definition from_experts (max_num_seqs : option nat) (num_local_experts top_k hidden_size : nat) : result LocalPaddedDispatcher :=
  let max_num_seqs := seqs_or_default max_num_seqs in
  if decide (num_local_experts = 0) then Err ZeroDivisionError
  else let capacity_factor := 2 in
       let raw_max_m := max_num_seqs * top_k / num_local_experts * capacity_factor in
       let max_m := raw_max_m `max` 128 in
       Ok (LocalPaddedDispatcher_init num_local_experts max_m hidden_size top_k max_num_seqs).

(** [slot_map\[t, k\] = v] *)
Definition store_slot (sm : list (list Z)) (t k : nat) (v : Z) : list (list Z) := alter (fun row => <[k := v]> row) t sm.

(** One program of [local_dispatch_kernel]; its writes are private to it, so only the order of
    the atomic additions matters. *)
Definition dispatch_program (hidden : mat) (topk_ids : list (list Z)) (d : LocalPaddedDispatcher) (pid : nat) : LocalPaddedDispatcher :=
  let t := pid / d_K d in
  let k := pid mod d_K d in
  let e := default 0%Z (topk_ids !! t ≫= (.!! k)) in
  if decide (e < 0 \/ Z.of_nat (d_E d) <= e)%Z then
    mk_dispatcher (d_E d) (d_max_m d) (d_H d) (d_K d) (d_max_T d) (padded_buf d) (masked_m d) (store_slot (slot_map d) t k (-1)) (out_buf d)
  else
    let e := Z.to_nat e in
    let slot := default 0%Z (masked_m d !! e) in
    let masked := <[e := (slot + 1)%Z]> (masked_m d) in
    if decide (Z.of_nat (d_max_m d) <= slot)%Z then
      mk_dispatcher (d_E d) (d_max_m d) (d_H d) (d_K d) (d_max_T d) (padded_buf d) masked (store_slot (slot_map d) t k (-1)) (out_buf d)
    else
      mk_dispatcher (d_E d) (d_max_m d) (d_H d) (d_K d) (d_max_T d)
        (alter (fun buf => <[Z.to_nat slot := take (d_H d) (default [] (hidden !! t))]> buf) e (padded_buf d))
        masked (store_slot (slot_map d) t k slot) (out_buf d).

(** The in-place reset at the start of [dispatch]. *)
Definition reset_buffers (T : nat) (d : LocalPaddedDispatcher) : LocalPaddedDispatcher :=
  mk_dispatcher (d_E d) (d_max_m d) (d_H d) (d_K d) (d_max_T d)
    ((fun buf : mat => (fun row : list R => replicate (length row) r0) <$> buf) <$> padded_buf d)
    ((fun _ => 0%Z) <$> masked_m d)
    (((fun row : list Z => replicate (length row) (-1)%Z) <$> take T (slot_map d)) ++ drop T (slot_map d))
    (out_buf d).

(** [LocalPaddedDispatcher.dispatch]: the state it leaves, whose buffers it returns, and
    [expected_m].  [order] lists the programs of the kernel as they claim slots.  The number of
    columns of a tensor without rows is taken to be the right one. *)
Definition dispatch (d : LocalPaddedDispatcher) (order : list nat) (hidden : mat) (topk_ids : list (list Z)) :
    result (LocalPaddedDispatcher * nat) :=
  let T := length hidden in
  let K := cols topk_ids in
  if decide (0 < T /\ K <> d_K d) then Err AssertionError
  else if decide (d_max_T d < T) then Err AssertionError
  else
    let d := foldl (dispatch_program hidden topk_ids) (reset_buffers T d) order in
    let d := mk_dispatcher (d_E d) (d_max_m d) (d_H d) (d_K d) (d_max_T d) (padded_buf d)
      ((fun m => m `min` Z.of_nat (d_max_m d))%Z <$> masked_m d) (slot_map d) (out_buf d) in
    Ok (d, (T * d_K d + d_E d - 1) / d_E d `min` d_max_m d).

(** The programs of [local_combine_kernel] for token [t], all blocks of columns together. *)
Definition combine_token (d : LocalPaddedDispatcher) (H_out : nat) (expert_out : list mat) (topk_ids : list (list Z)) (topk_weights : mat) (t : nat) : list R :=
  foldl (fun acc k =>
    let slot := default (-1)%Z (slot_map d !! t ≫= (.!! k)) in
    if decide (0 <= slot)%Z then
      let e := default 0%Z (topk_ids !! t ≫= (.!! k)) in
      let w := default r0 (topk_weights !! t ≫= (.!! k)) in
      let val := default [] (expert_out !! Z.to_nat e ≫= (.!! Z.to_nat slot)) in
      vadd acc (rmul w <$> val)
    else acc) (replicate H_out r0) (seq 0 (d_K d)).

(** [LocalPaddedDispatcher.combine]: the rows it returns are a view of [out_buf]. *)
Definition combine (d : LocalPaddedDispatcher) (H_out : nat) (expert_out : list mat) (topk_ids : list (list Z)) (topk_weights : mat) (num_tokens : nat) :
    result (LocalPaddedDispatcher * mat) :=
  if decide (d_max_T d < num_tokens) then Err AssertionError
  else let out := combine_token d H_out expert_out topk_ids topk_weights <$> seq 0 num_tokens in
       Ok (mk_dispatcher (d_E d) (d_max_m d) (d_H d) (d_K d) (d_max_T d) (padded_buf d) (masked_m d) (slot_map d) (set_slice 0 out (out_buf d)), out).
End dispatcher.
Arguments LocalPaddedDispatcher : clear implicits.

(** * The expert layer *)

Section experts.
Context {R : Type} `{Semiring R} (silu : R -> R).
Notation mat := (list (list R)) (only parsing).

Record GenericExperts := mk_experts {
  hidden_size : nat;
  intermediate_size : nat;
  num_experts : nat;
  top_k : nat;
  ep_size : nat;
  tp_size : nat;
  ep_rank : nat;
  tp_rank : nat;
  num_local_experts : nat;
  local_intermediate_size : nat;
  gate_up_proj : list mat;
  down_proj : list mat;
  local_dispatcher : option (LocalPaddedDispatcher R)
}.

(** [torch.empty(n, rows, columns)] *)
Definition empty_experts (uninit : nat -> nat -> nat -> R) (n rows columns : nat) : list mat :=
  (fun e => (fun i => uninit e i <$> seq 0 columns) <$> seq 0 rows) <$> seq 0 n.

Definition GenericExperts_init (uninit : nat -> nat -> nat -> R)
    (hidden_size intermediate_size num_experts top_k ep_size tp_size ep_rank tp_rank : nat) : result GenericExperts :=
  if decide (ep_size = 0) then Err ZeroDivisionError
  else if decide (num_experts mod ep_size <> 0) then Err AssertionError
  else if decide (tp_size = 0) then Err ZeroDivisionError
  else if decide ((intermediate_size * 2) mod tp_size <> 0) then Err AssertionError
  else
    let num_local_experts := num_experts / ep_size in
    let local_intermediate_size := intermediate_size / tp_size in
    Ok (mk_experts hidden_size intermediate_size num_experts top_k ep_size tp_size ep_rank tp_rank
          num_local_experts local_intermediate_size
          (empty_experts uninit num_local_experts (local_intermediate_size * 2) hidden_size)
          (empty_experts uninit num_local_experts hidden_size local_intermediate_size) None).

(** [gate, up = gate_up.chunk(2, dim=-1); F.silu(gate) * up] on a row of even length. *)
Definition swiglu (row : list R) : list R :=
  let half := (length row + 1) / 2 in
  zip_with (fun g u => rmul (silu g) u) (take half row) (drop half row).

(** The body of the loop of [_compute_local_prefill] over local experts. *)
Definition prefill_expert (x : GenericExperts) (flat_expert_ids : list Z) (repeated_hidden output : mat) (expert_id : nat) : result mat :=
  let mask := (fun id => bool_decide (id = Z.of_nat (ep_rank x * num_local_experts x + expert_id))) <$> flat_expert_ids in
  if existsb id mask then
    gu ← of_option IndexError (gate_up_proj x !! expert_id);
    gate_up ← F_linear (select mask repeated_hidden) (Mat gu) None;
    dn ← of_option IndexError (down_proj x !! expert_id);
    expert_out ← F_linear (swiglu <$> gate_up) (Mat dn) None;
    Ok (assign mask expert_out output)
  else Ok output.

(** [_compute_local_prefill] up to its all-reduce. *)
Definition compute_local_prefill (x : GenericExperts) (hidden_states : mat) (topk_ids : list (list Z)) (topk_weights : mat) : result mat :=
  let num_tokens := length hidden_states in
  let top_k := cols topk_ids in
  let flat_expert_ids := concat topk_ids in
  let flat_weights := concat topk_weights in
  let repeated_hidden := concat (replicate top_k <$> hidden_states) in
  let output := (fun row : list R => replicate (length row) r0) <$> repeated_hidden in
  output ← foldM_r (prefill_expert x flat_expert_ids repeated_hidden) output (seq 0 (num_local_experts x));
  let output := zip_with (fun (row : list R) w => (fun a => rmul a w) <$> row) output flat_weights in
  Ok ((fun t => foldr vadd (replicate (hidden_size x) r0) (lslice (t * top_k) top_k output)) <$> seq 0 num_tokens).

(** [torch.bmm(a, w.transpose(-1, -2))] *)
Definition bmm_transposed (a w : list mat) : result (list mat) :=
  if decide (length a = length w) then mapM_r (fun '(x, m) => F_linear x (Mat m) None) (zip a w) else Err RuntimeError.

(** [_get_or_create_local_dispatcher], with the dispatcher kept. *)
Definition get_or_create_local_dispatcher (max_num_seqs : option nat) (x : GenericExperts) : result (LocalPaddedDispatcher R) :=
  match local_dispatcher x with
  | Some d => Ok d
  | None => from_experts max_num_seqs (num_local_experts x) (top_k x) (hidden_size x)
  end.

Definition set_dispatcher (x : GenericExperts) (d : LocalPaddedDispatcher R) : GenericExperts :=
  mk_experts (hidden_size x) (intermediate_size x) (num_experts x) (top_k x) (ep_size x) (tp_size x) (ep_rank x) (tp_rank x)
    (num_local_experts x) (local_intermediate_size x) (gate_up_proj x) (down_proj x) (Some d).

(** [_compute_local_decode] up to its all-reduce, with the layer it leaves. *)
Definition compute_local_decode (max_num_seqs : option nat) (order : list nat) (x : GenericExperts)
    (hidden_states : mat) (topk_ids : list (list Z)) (topk_weights : mat) : result (GenericExperts * mat) :=
  disp ← get_or_create_local_dispatcher max_num_seqs x;
  let T := length hidden_states in
  '(disp, _) ← dispatch disp order hidden_states topk_ids;
  gateup ← bmm_transposed (padded_buf disp) (gate_up_proj x);
  let down_input := (fun m : mat => swiglu <$> m) <$> gateup in
  down_output ← bmm_transposed down_input (down_proj x);
  '(disp, out) ← combine disp (hidden_size x) down_output topk_ids topk_weights T;
  Ok (set_dispatcher x disp, out).

(** * Groups of ranks *)

(** What a rank is called with. *)
Record moe_input := mk_input { in_hidden : mat; in_ids : list (list Z); in_weights : mat }.

(** [_pad(t, fill)] for rows of [width] columns. *)
Definition pad_to {A} (max_count width : nat) (fill : A) (t : list (list A)) : list (list A) :=
  if decide (length t = max_count) then t else t ++ replicate (max_count - length t) (replicate width fill).

(** [max(counts_list)] *)
Definition max_count (inputs : list moe_input) : nat := foldr Nat.max 0 ((fun i => length (in_hidden i)) <$> inputs).

(** What [_compute_ep] computes on the ranks of an expert-parallel group before the all-reduce
    of the tensor-parallel groups. *)
Definition ep_reduced (group : list (GenericExperts * moe_input)) : result (list mat) :=
  let n := max_count (group.*2) in
  partials ← mapM_r (fun '(x, _) =>
    let gathered_hidden := concat ((fun i => pad_to n (hidden_size x) r0 (in_hidden i)) <$> group.*2) in
    let gathered_ids := concat ((fun i => pad_to n (top_k x) (-1)%Z (in_ids i)) <$> group.*2) in
    let gathered_weights := concat ((fun i => pad_to n (top_k x) r0 (in_weights i)) <$> group.*2) in
    compute_local_prefill x gathered_hidden gathered_ids gathered_weights) group;
  Ok (all_reduce madd partials).

(** [_compute_ep] on all ranks: [grid] lists the tensor-parallel ranks, each with its
    expert-parallel group; the tensor-parallel all-reduces of all expert ranks are made
    together. *)
Definition compute_ep (grid : list (list (GenericExperts * moe_input))) : result (list (list mat)) :=
  reduced ← mapM_r ep_reduced grid;
  let summed := if decide (1 < length grid) then all_reduce (zip_with madd) reduced else reduced in
  Ok (zip_with (fun (group : list (GenericExperts * moe_input)) (ms : list mat) =>
        zip_with (fun '(x, i) m => lslice (ep_rank x * max_count (group.*2)) (length (in_hidden i)) m) group ms) grid summed).

(** [_compute_local] on the ranks of a tensor-parallel group.  [orders] are the orders of the
    dispatch kernels. *)
Definition compute_local (max_num_seqs : option nat) (orders : list (list nat)) (is_prefill : bool)
    (group : list (GenericExperts * moe_input)) : result (list (GenericExperts * mat)) :=
  outs ← (if is_prefill then
            mapM_r (fun '(x, i) => m ← compute_local_prefill x (in_hidden i) (in_ids i) (in_weights i); Ok (x, m)) group
          else
            mapM_r (fun '(order, (x, i)) => compute_local_decode max_num_seqs order x (in_hidden i) (in_ids i) (in_weights i)) (zip orders group));
  Ok (if decide (1 < length group) then zip (outs.*1) (all_reduce madd (outs.*2)) else outs).

(** [GenericExperts.forward] on the ranks of a grid of [ep] expert-parallel ranks for each
    tensor-parallel rank, with the layers it leaves. *)
Definition forward (max_num_seqs : option nat) (orders : list (list nat)) (is_prefill : bool) (ep : nat)
    (grid : list (list (GenericExperts * moe_input))) : result (list (list (GenericExperts * mat))) :=
  if decide (1 < ep) then
    (fun outs : list (list mat) => zip_with (fun (group : list (GenericExperts * moe_input)) (ms : list mat) => zip (group.*1) ms) grid outs)
    <$> compute_ep grid
  else
    (fun outs : list (GenericExperts * mat) => (fun o : GenericExperts * mat => [o]) <$> outs)
    <$> compute_local max_num_seqs orders is_prefill (concat grid).
End experts.
Arguments GenericExperts : clear implicits.
Arguments moe_input : clear implicits.

(** * Sums of sums *)

Section sums.
Context {R : Type} `{Semiring R}.

Lemma radd_swap (a b c d : R) : radd (radd a b) (radd c d) = radd (radd a c) (radd b d).
Proof. rewrite <- !(assoc radd). f_equal. rewrite !(assoc radd). f_equal. apply (comm radd). Qed.

Lemma rsum_add {A} (f g : A -> R) (l : list A) :
  radd (rsum (f <$> l)) (rsum (g <$> l)) = rsum ((fun a => radd (f a) (g a)) <$> l).
Proof.
  induction l as [|a l IH]; cbn [fmap list_fmap]; [by rewrite !rsum_nil, (left_id r0 radd)|].
  rewrite !rsum_cons, <- IH. apply radd_swap.
Qed.

Lemma rsum_swap {A B} (f : A -> B -> R) (l : list A) (k : list B) :
  rsum ((fun a => rsum (f a <$> k)) <$> l) = rsum ((fun b => rsum ((fun a => f a b) <$> l)) <$> k).
Proof.
  induction l as [|a l IH]; cbn [fmap list_fmap].
  - rewrite rsum_nil. symmetry. apply rsum_zeros, Forall_fmap, Forall_true. done.
  - by rewrite rsum_cons, IH, rsum_add.
Qed.

Lemma rsum_mul (l : list R) w : rmul (rsum l) w = rsum ((fun a => rmul a w) <$> l).
Proof.
  induction l as [|a l IH]; cbn [fmap list_fmap]; [by rewrite !rsum_nil, (left_absorb r0 rmul)|].
  by rewrite !rsum_cons, rmul_radd, IH.
Qed.

(** [v\[j\]] *)
Definition at_ (v : list R) (j : nat) : R := default r0 (v !! j).

Lemma at_fmap_seq (f : nat -> R) n j : j < n -> at_ (f <$> seq 0 n) j = f j.
Proof. intros. unfold at_. by rewrite list_lookup_fmap, lookup_seq_lt. Qed.

(** A sum of rows, column by column. *)
Lemma foldr_vadd n (rows : list (list R)) : Forall (fun row => length row = n) rows ->
  foldr vadd (replicate n r0) rows = (fun j => rsum ((fun row => at_ row j) <$> rows)) <$> seq 0 n.
Proof.
  induction 1 as [|row rows Hrow _ IH]; cbn [foldr fmap list_fmap].
  - apply list_eq. intros j. rewrite list_lookup_fmap. destruct (decide (j < n)).
    + by rewrite lookup_replicate_2, lookup_seq_lt.
    + rewrite lookup_seq_ge by lia. apply lookup_ge_None. rewrite length_replicate. lia.
  - rewrite IH. rewrite (row_as_seq row n) at 1 by done. unfold vadd. rewrite zip_with_fmap_fmap. done.
Qed.
End sums.

Lemma fmap_concat {A B} (f : A -> B) (ls : list (list A)) : f <$> concat ls = concat ((fun l : list A => f <$> l) <$> ls).
Proof. induction ls as [|l ls IH]; [done|]. cbn. by rewrite fmap_app, IH. Qed.

(** * The reference layer *)

Section reference.
Context {R : Type} `{Semiring R} (silu : R -> R).
Notation mat := (list (list R)) (only parsing).

(** A token: its hidden state, the experts chosen for it and their weights. *)
Record token := mk_token { t_row : list R; t_ids : list Z; t_weights : list R }.

(** The weighted sum of what the chosen experts give; [expert id x] is a row of [n] numbers. *)
Definition routed (expert : Z -> list R -> list R) (n : nat) (tok : token) : list R :=
  (fun j => rsum (zip_with (fun id w => rmul (at_ (expert id (t_row tok)) j) w) (t_ids tok) (t_weights tok))) <$> seq 0 n.

(** The checkpoint's weights of an expert: gate, up and down projection. *)
Record expert_weights := mk_expert { w_gate : mat; w_up : mat; w_down : mat }.

(** One expert on one token. *)
Definition ref_expert (e : expert_weights) (x : list R) : list R :=
  rdot (zip_with (fun g u => rmul (silu g) u) (rdot x <$> w_gate e) (rdot x <$> w_up e)) <$> w_down e.

(** The layer on one device: an id that names no expert contributes nothing. *)
Definition ref_choice (experts : list expert_weights) (n : nat) (id : Z) (x : list R) : list R :=
  if decide (0 <= id)%Z then match experts !! Z.to_nat id with Some e => ref_expert e x | None => replicate n r0 end
  else replicate n r0.

Definition ref_moe (experts : list expert_weights) (n : nat) : token -> list R := routed (ref_choice experts n) n.
End reference.
Arguments expert_weights : clear implicits.
Arguments token : clear implicits.

(** * One rank *)

Section local.
Context {R : Type} `{Semiring R} (silu : R -> R).
Notation mat := (list (list R)) (only parsing).

(** An expert held by a rank, with gate and up projections stacked. *)
Definition local_expert (gu dn : mat) (x : list R) : list R := rdot (swiglu silu (rdot x <$> gu)) <$> dn.

(** What a rank computes for an id. *)
Definition local_choice (x : GenericExperts R) (id : Z) (row : list R) : list R :=
  let start := Z.of_nat (ep_rank x * num_local_experts x) in
  if decide (start <= id < start + Z.of_nat (num_local_experts x))%Z then
    local_expert (default [] (gate_up_proj x !! Z.to_nat (id - start))) (default [] (down_proj x !! Z.to_nat (id - start))) row
  else replicate (hidden_size x) r0.

(** The shapes of a rank's weights. *)
Record experts_wf (x : GenericExperts R) : Prop := {
  wf_hidden : 0 < hidden_size x;
  wf_inter : 0 < local_intermediate_size x;
  wf_gu_len : length (gate_up_proj x) = num_local_experts x;
  wf_dn_len : length (down_proj x) = num_local_experts x;
  wf_gu : Forall (is_mat (local_intermediate_size x * 2) (hidden_size x)) (gate_up_proj x);
  wf_dn : Forall (is_mat (hidden_size x) (local_intermediate_size x)) (down_proj x)
}.

Definition token_wf (h k : nat) (tok : token R) : Prop := length (t_row tok) = h /\ length (t_ids tok) = k /\ length (t_weights tok) = k.

Lemma assign_select {A B} (p : A -> bool) (f : B -> B) (g : A -> B -> B) (ids : list A) (rows : list B) :
  assign (p <$> ids) (f <$> select (p <$> ids) rows) (zip_with g ids rows)
  = zip_with (fun id row => if p id then f row else g id row) ids rows.
Proof.
  revert rows. induction ids as [|id ids IH]; intros [|row rows]; cbn; [done..| |].
  - by destruct (p id).
  - destruct (p id); cbn; by rewrite IH.
Qed.

Lemma existsb_select {A B} (p : A -> bool) (f g : A -> B -> B) (ids : list A) (rows : list B) :
  existsb id (p <$> ids) = false ->
  zip_with g ids rows = zip_with (fun id row => if p id then f id row else g id row) ids rows.
Proof.
  revert rows. induction ids as [|i ids IH]; intros [|row rows] He; cbn in *; [done..|].
  apply orb_false_iff in He as [Hp He]. unfold id in Hp. rewrite Hp. f_equal. by apply IH.
Qed.

Lemma Forall_select {A} (P : A -> Prop) (m : list bool) (l : list A) : Forall P l -> Forall P (select m l).
Proof. intros Hl. revert m. induction Hl as [|a l Ha _ IH]; intros [|[] m]; cbn; auto. Qed.

Lemma length_swiglu row n : length row = n * 2 -> length (swiglu silu row) = n.
Proof.
  intros Hl. unfold swiglu. rewrite length_zip_with, length_take, length_drop, Hl.
  rewrite <- (Nat.div_unique (n * 2 + 1) 2 n 1); lia.
Qed.

Lemma local_expert_forward x n gu dn : experts_wf x -> gate_up_proj x !! n = Some gu -> down_proj x !! n = Some dn ->
  is_mat (local_intermediate_size x * 2) (hidden_size x) gu /\ is_mat (hidden_size x) (local_intermediate_size x) dn.
Proof. intros Hwf Hg Hd. split; [eapply Forall_lookup_1; [apply Hwf|done]|eapply Forall_lookup_1; [apply Hwf|done]]. Qed.

(** What one step of the loop does to the rows of its expert. *)
Lemma prefill_expert_step x ids rows g n : experts_wf x -> n < num_local_experts x ->
  Forall (fun row => length row = hidden_size x) rows ->
  prefill_expert silu x ids rows (zip_with g ids rows) n
  = Ok (zip_with (fun id row => if bool_decide (id = Z.of_nat (ep_rank x * num_local_experts x + n)) then local_choice x id row
                                else g id row) ids rows).
Proof.
  intros Hwf Hn Hrows. unfold prefill_expert.
  destruct (lookup_lt_is_Some_2 (gate_up_proj x) n) as [gu Hg]; [by rewrite (wf_gu_len x Hwf)|].
  destruct (lookup_lt_is_Some_2 (down_proj x) n) as [dn Hd]; [by rewrite (wf_dn_len x Hwf)|].
  destruct (local_expert_forward x n gu dn Hwf Hg Hd) as [Hgu Hdn]. pose proof (wf_hidden x Hwf). pose proof (wf_inter x Hwf).
  set (p := fun id => bool_decide (id = _)). destruct (existsb id (p <$> ids)) eqn:He.
  - rewrite Hg, Hd. cbn [of_option mbind result_bind].
    rewrite (F_linear_mat _ gu (hidden_size x)); [|rewrite (proj1 Hgu); lia|apply Hgu|by apply Forall_select]. cbn [mbind result_bind].
    rewrite (F_linear_mat _ dn (local_intermediate_size x)); [|rewrite (proj1 Hdn); lia|apply Hdn|].
    2: { rewrite !Forall_fmap. apply Forall_true. intros row. unfold compose. apply length_swiglu. by rewrite length_fmap, (proj1 Hgu). }
    cbn [mbind result_bind]. rewrite <- !list_fmap_compose. f_equal.
    rewrite (assign_select p (local_expert gu dn)). apply zip_with_ext; [|done..]. intros id row.
    unfold p. case_bool_decide as Hid; [|done]. unfold local_choice. rewrite decide_True by lia.
    replace (Z.to_nat _) with n by lia. by rewrite Hg, Hd.
  - f_equal. by apply existsb_select.
Qed.

(** The loop over the first [n] local experts. *)
Lemma prefill_loop x ids rows n : experts_wf x -> n <= num_local_experts x ->
  Forall (fun row => length row = hidden_size x) rows ->
  let start := Z.of_nat (ep_rank x * num_local_experts x) in
  foldM_r (prefill_expert silu x ids rows) (zip_with (fun _ _ => replicate (hidden_size x) r0) ids rows) (seq 0 n)
  = Ok (zip_with (fun id row => if decide (start <= id < start + Z.of_nat n)%Z then local_choice x id row
                                else replicate (hidden_size x) r0) ids rows).
Proof.
  intros Hwf Hn Hrows start. induction n as [|n IH].
  - cbn. f_equal. apply zip_with_ext; [|done..]. intros id row. by rewrite decide_False by lia.
  - rewrite seq_S, foldM_r_app, IH by lia. cbn [foldM_r]. rewrite prefill_expert_step by (done || lia).
    f_equal. apply zip_with_ext; [|done..]. intros id row. case_bool_decide as Hid.
    + by rewrite decide_True by (unfold start; lia).
    + by rewrite (decide_ext (start <= id < start + Z.of_nat n)%Z (start <= id < start + Z.of_nat (S n))%Z) by (unfold start in *; lia).
Qed.

Lemma slice_concat {A} k (ls : list (list A)) t l : Forall (fun l => length l = k) ls -> ls !! t = Some l ->
  lslice (t * k) k (concat ls) = l.
Proof.
  intros Hls. revert t. induction Hls as [|l' ls Hl' Hls IH]; intros [|t] Ht; cbn in Ht; [done..| |].
  - injection Ht as ->. cbn [concat]. rewrite slice_app_l by lia. cbn [Nat.mul]. by rewrite <- Hl', slice_all.
  - cbn [concat]. rewrite slice_app_r by lia. rewrite <- (IH t Ht). f_equal. lia.
Qed.

Lemma length_concat_uniform {A} k (ls : list (list A)) : Forall (fun l => length l = k) ls -> length (concat ls) = length ls * k.
Proof. induction 1 as [|l ls Hl _ IH]; [done|]. cbn. rewrite length_app, IH, Hl. lia. Qed.

Lemma length_local_choice x id row : experts_wf x -> length (local_choice x id row) = hidden_size x.
Proof.
  intros Hwf. unfold local_choice. case_decide as Hid; [|by rewrite length_replicate]. set (n := Z.to_nat _).
  destruct (lookup_lt_is_Some_2 (gate_up_proj x) n) as [gu Hg]; [rewrite (wf_gu_len x Hwf); lia|].
  destruct (lookup_lt_is_Some_2 (down_proj x) n) as [dn Hd]; [rewrite (wf_dn_len x Hwf); lia|].
  rewrite Hg, Hd. cbn. unfold local_expert. rewrite length_fmap. apply (local_expert_forward x n gu dn Hwf Hg Hd).
Qed.

Lemma at_scale (w : R) row j : at_ ((fun a => rmul a w) <$> row) j = rmul (at_ row j) w.
Proof. unfold at_. rewrite list_lookup_fmap. destruct (row !! j); [done|]. cbn. by rewrite (left_absorb r0 rmul). Qed.

(** The weighted sum over the [k] choices of a token. *)
Lemma token_sum (E : Z -> list R -> list R) n row ids (ws : list R) : (forall id, length (E id row) = n) ->
  foldr vadd (replicate n r0)
    (zip_with (fun (r : list R) w => (fun a => rmul a w) <$> r) (zip_with E ids (replicate (length ids) row)) ws)
  = routed E n (mk_token row ids ws).
Proof.
  intros HE. rewrite foldr_vadd.
  - unfold routed. cbn. apply list_fmap_ext. intros _ j _. f_equal. revert ws.
    induction ids as [|id ids IH]; intros [|w ws]; cbn; [done..|]. f_equal; [apply at_scale|apply IH].
  - revert ws. induction ids as [|id ids IH]; intros [|w ws]; cbn; constructor; [|apply IH]. by rewrite length_fmap.
Qed.

(** On one rank the prefill path gives every token the weighted sum of its local experts. *)
Lemma compute_local_prefill_exact x k toks : experts_wf x -> Forall (token_wf (hidden_size x) k) toks ->
  compute_local_prefill silu x (t_row <$> toks) (t_ids <$> toks) (t_weights <$> toks)
  = Ok (routed (local_choice x) (hidden_size x) <$> toks).
Proof.
  intros Hwf Htoks. unfold compute_local_prefill. rewrite length_fmap.
  destruct (decide (toks = [])) as [->|Hne].
  { cbn [fmap list_fmap concat]. pose proof (prefill_loop x [] [] (num_local_experts x) Hwf) as Hloop. cbn [zip_with] in Hloop.
    rewrite Hloop by (done || lia). done. }
  assert (Hk : cols (t_ids <$> toks) = k).
  { destruct toks as [|tok toks]; [done|]. inversion Htoks as [|? ? [_ [Hl _]] _]. exact Hl. }
  rewrite Hk. set (rows := concat (replicate k <$> (t_row <$> toks))). set (ids := concat (t_ids <$> toks)).
  set (ws := concat (t_weights <$> toks)).
  assert (Hids : Forall (fun l : list Z => length l = k) (t_ids <$> toks)).
  { apply Forall_fmap. eapply Forall_impl; [exact Htoks|]. intros t Ht. apply Ht. }
  assert (Hws : Forall (fun l : list R => length l = k) (t_weights <$> toks)).
  { apply Forall_fmap. eapply Forall_impl; [exact Htoks|]. intros t Ht. apply Ht. }
  assert (Hreps : Forall (fun l : list (list R) => length l = k) (replicate k <$> (t_row <$> toks))).
  { apply Forall_fmap, Forall_true. intros t. apply length_replicate. }
  assert (Hrows : Forall (fun row => length row = hidden_size x) rows).
  { apply Forall_concat, Forall_fmap, Forall_fmap. eapply Forall_impl; [exact Htoks|]. intros t Ht. apply Forall_replicate, Ht. }
  replace ((fun row : list R => replicate (length row) r0) <$> rows) with (zip_with (fun _ _ => replicate (hidden_size x) (r0 : R)) ids rows).
  2: { assert (length ids = length rows) as Hl by (unfold ids, rows; by rewrite !(length_concat_uniform k), !length_fmap).
       clearbody ids rows. clear -Hrows Hl. revert ids Hl. induction Hrows as [|row rows Hrow _ IH]; intros [|id ids] Hl; [done..|].
       cbn. f_equal; [by rewrite Hrow|]. apply IH. cbn in Hl. lia. }
  rewrite prefill_loop by (done || lia). cbn [mbind result_bind]. f_equal.
  apply list_eq. intros t. rewrite !list_lookup_fmap. destruct (toks !! t) as [tok|] eqn:Ht.
  2: { apply lookup_ge_None in Ht. by rewrite lookup_seq_ge by done. }
  rewrite lookup_seq_lt by by eapply lookup_lt_Some. cbn [fmap option_fmap option_map]. f_equal. cbn [Nat.add].
  rewrite !slice_zip_with. unfold ids, rows, ws.
  rewrite (slice_concat k _ t (t_ids tok)), (slice_concat k _ t (replicate k (t_row tok))), (slice_concat k _ t (t_weights tok));
    [|done|by rewrite list_lookup_fmap, Ht|done|by rewrite !list_lookup_fmap, Ht|done|by rewrite list_lookup_fmap, Ht].
  pose proof (proj1 (Forall_lookup _ _) Htoks t tok Ht) as [_ [Hl _]]. rewrite <- Hl.
  destruct tok as [row ids' ws']. cbn [t_row t_ids t_weights] in *. rewrite <- token_sum by (intros; by apply length_local_choice).
  do 2 f_equal. apply zip_with_ext; [|done..]. intros id row'. case_decide as Hd; [done|]. unfold local_choice. by rewrite decide_False.
Qed.
End local.

(** * Ranks that share the experts *)

Section shards.
Context {R : Type} `{Semiring R} (silu : R -> R).
Notation mat := (list (list R)) (only parsing).

(** The weights of expert-parallel rank [r] and tensor-parallel rank [c], of [n] experts and
    [s] intermediate columns each. *)
Record holds_shard (experts : list (expert_weights R)) (h k n s r c : nat) (x : GenericExperts R) : Prop := {
  hs_hidden : hidden_size x = h;
  hs_top_k : top_k x = k;
  hs_rank : ep_rank x = r;
  hs_local : num_local_experts x = n;
  hs_inter : local_intermediate_size x = s;
  hs_gate_up : gate_up_proj x = (fun e => lslice (c * s) s (w_gate e) ++ lslice (c * s) s (w_up e)) <$> lslice (r * n) n experts;
  hs_down : down_proj x = (fun e => lslice (c * s) s <$> w_down e) <$> lslice (r * n) n experts
}.

Definition expert_shape (i h : nat) (e : expert_weights R) : Prop :=
  is_mat i h (w_gate e) /\ is_mat i h (w_up e) /\ is_mat h i (w_down e).

Context (experts : list (expert_weights R)) (h k n s ep tp : nat).
Context (Hh : 0 < h) (Hs : 0 < s) (Hep : 0 < ep) (Htp : 0 < tp).
Context (Hlen : length experts = ep * n) (Hshape : Forall (expert_shape (tp * s) h) experts).

Lemma shard_wf r c x : r < ep -> c < tp -> holds_shard experts h k n s r c x -> experts_wf x.
Proof.
  intros Hr Hc [Hx1 Hx2 Hx3 Hx4 Hx5 Hx6 Hx7]. pose proof (shard_bound c tp s Hc) as Hb. pose proof (shard_bound r ep n Hr) as Hb'.
  assert (Hsub : Forall (expert_shape (tp * s) h) (lslice (r * n) n experts)) by by apply Forall_take, Forall_drop.
  split; rewrite ?Hx1, ?Hx4, ?Hx5, ?Hx6, ?Hx7; [done|done|rewrite length_fmap, length_slice; lia|rewrite length_fmap, length_slice; lia| |];
    apply Forall_fmap; (eapply Forall_impl; [exact Hsub|]); intros e (Hg & Hu & Hd); unfold compose.
  - destruct (is_mat_slice _ _ _ (c * s) s Hg Hb) as [Hl1 Hf1], (is_mat_slice _ _ _ (c * s) s Hu Hb) as [Hl2 Hf2].
    split; [rewrite length_app; lia|by apply Forall_app].
  - by apply is_mat_cols_slice with (tp * s).
Qed.

Lemma default_lookup_fmap {A B} (f : A -> list B) (l : list A) i a : l !! i = Some a -> default [] ((f <$> l) !! i) = f a.
Proof. intros Hl. by rewrite list_lookup_fmap, Hl. Qed.

Lemma swiglu_app (a b : list R) : length a = length b -> swiglu silu (a ++ b) = zip_with (fun g u => rmul (silu g) u) a b.
Proof.
  clear. intros Hl. unfold swiglu. rewrite length_app, <- Hl.
  rewrite <- (Nat.div_unique (length a + length a + 1) 2 (length a) 1) by lia. by rewrite take_app_length, drop_app_length.
Qed.

(** The part of an entry of an expert's output that a rank contributes. *)
Lemma local_entry r c x id row j : r < ep -> c < tp -> j < h -> holds_shard experts h k n s r c x ->
  at_ (local_choice silu x id row) j
  = if decide (Z.of_nat (r * n) <= id < Z.of_nat (r * n) + Z.of_nat n)%Z then
      match experts !! Z.to_nat id with
      | Some e => rdot (lslice (c * s) s (zip_with (fun g u => rmul (silu g) u) (rdot row <$> w_gate e) (rdot row <$> w_up e)))
                       (lslice (c * s) s (default [] (w_down e !! j)))
      | None => r0
      end
    else r0.
Proof.
  intros Hr Hc Hj [Hx1 Hx2 Hx3 Hx4 Hx5 Hx6 Hx7]. unfold local_choice. rewrite Hx1, Hx3, Hx4. case_decide as Hid.
  2: { unfold at_. by rewrite lookup_replicate_2 by done. }
  assert (He : lslice (r * n) n experts !! Z.to_nat (id - Z.of_nat (r * n)) = experts !! Z.to_nat id).
  { rewrite lookup_slice, decide_True by lia. f_equal. lia. }
  pose proof (shard_bound r ep n Hr) as Hb. pose proof (shard_bound c tp s Hc) as Hb'.
  destruct (experts !! Z.to_nat id) as [e|] eqn:He'; [|apply lookup_ge_None in He'; lia].
  rewrite Hx6, Hx7, !(default_lookup_fmap _ _ _ e) by done.
  destruct (proj1 (Forall_lookup _ _) Hshape _ _ He') as (Hg & Hu & Hd).
  unfold local_expert, at_. rewrite fmap_app, !list_lookup_fmap, swiglu_app, <- !(slice_fmap (rdot row)), <- slice_zip_with.
  2: { rewrite !length_fmap. rewrite !length_slice; [done|rewrite (proj1 Hu); lia|rewrite (proj1 Hg); lia]. }
  destruct (w_down e !! j) eqn:Hj'; [done|]. apply lookup_ge_None in Hj'. rewrite (proj1 Hd) in Hj'. lia.
Qed.

Context (x : nat -> nat -> GenericExperts R).
Context (Hx : forall r c, r < ep -> c < tp -> holds_shard experts h k n s r c (x r c)).

Lemma rsum_ext {A} (f g : A -> R) l : (forall a, a ∈ l -> f a = g a) -> rsum (f <$> l) = rsum (g <$> l).
Proof. intros Hfg. f_equal. apply list_fmap_ext. intros i a Ha. apply Hfg. by eapply list_elem_of_lookup_2. Qed.

(** Over all ranks the contributions to an entry add up to the expert's output. *)
Lemma choice_sum id row j : j < h ->
  rsum ((fun c => rsum ((fun r => at_ (local_choice silu (x r c) id row) j) <$> seq 0 ep)) <$> seq 0 tp)
  = at_ (ref_choice silu experts h id row) j.
Proof.
  intros Hj. unfold ref_choice. destruct (decide (0 <= id < Z.of_nat (ep * n))%Z) as [Hid|Hid].
  - rewrite decide_True by lia. destruct (lookup_lt_is_Some_2 experts (Z.to_nat id)) as [e He]; [lia|]. rewrite He.
    destruct (proj1 (Forall_lookup _ _) Hshape _ _ He) as (Hg & Hu & Hd).
    assert (Hn : n <> 0) by (intros ->; lia).
    pose proof (Nat.div_mod (Z.to_nat id) n Hn) as Hdm. pose proof (Nat.mod_upper_bound (Z.to_nat id) n Hn) as Hm.
    set (q := Z.to_nat id / n) in *. assert (Hq : q < ep) by nia.
    set (act := zip_with (fun g u => rmul (silu g) u) (rdot row <$> w_gate e) (rdot row <$> w_up e)).
    transitivity (rsum ((fun c => rdot (lslice (c * s) s act) (lslice (c * s) s (default [] (w_down e !! j)))) <$> seq 0 tp)).
    + apply rsum_ext. intros c Hc%elem_of_seq. rewrite (rsum_single _ ep q Hq).
      * rewrite (local_entry q c) by (done || lia || apply Hx; lia). rewrite decide_True by nia. by rewrite He.
      * intros r Hr Hne. rewrite (local_entry r c) by (done || lia || apply Hx; lia). rewrite decide_False; [done|]. nia.
    + unfold at_, ref_expert. rewrite list_lookup_fmap.
      destruct (w_down e !! j) as [dn|] eqn:Hdn; [|apply lookup_ge_None in Hdn; rewrite (proj1 Hd) in Hdn; lia].
      cbn [fmap option_fmap option_map from_option]. unfold Datatypes.id. apply dot_slices.
      * rewrite length_zip_with, !length_fmap, (proj1 Hg), (proj1 Hu). lia.
      * by apply (proj1 (Forall_lookup _ _) (proj2 Hd) j).
  - replace (at_ _ j) with (r0 : R).
    2: { case_decide; [|unfold at_; by rewrite lookup_replicate_2]. rewrite lookup_ge_None_2 by lia.
         unfold at_. by rewrite lookup_replicate_2. }
    apply rsum_zeros, Forall_fmap, Forall_forall. intros c Hc%elem_of_seq. unfold compose.
    apply rsum_zeros, Forall_fmap, Forall_forall. intros r Hr%elem_of_seq. unfold compose.
    rewrite (local_entry r c) by (done || lia || apply Hx; lia). rewrite decide_False; [done|]. nia.
Qed.

(** The same for a token's weighted sum. *)
Lemma routed_sum tok j : j < h ->
  rsum ((fun c => rsum ((fun r => rsum (zip_with (fun id w => rmul (at_ (local_choice silu (x r c) id (t_row tok)) j) w)
          (t_ids tok) (t_weights tok))) <$> seq 0 ep)) <$> seq 0 tp)
  = rsum (zip_with (fun id w => rmul (at_ (ref_choice silu experts h id (t_row tok)) j) w) (t_ids tok) (t_weights tok)).
Proof.
  intros Hj. rewrite (zip_with_zip _ (t_ids tok)). set (choices := zip (t_ids tok) (t_weights tok)).
  transitivity (rsum ((fun c => rsum ((fun ch : Z * R => rsum ((fun r => rmul (at_ (local_choice silu (x r c) ch.1 (t_row tok)) j) ch.2) <$> seq 0 ep)) <$> choices)) <$> seq 0 tp)).
  { apply rsum_ext. intros c _. rewrite rsum_swap. apply rsum_ext. intros r _. rewrite zip_with_zip. fold choices.
    apply rsum_ext. by intros [id w] _. }
  rewrite rsum_swap. apply rsum_ext. intros [id w] _. cbn [fst snd uncurry]. rewrite <- choice_sum, rsum_mul, <- list_fmap_compose by done.
  apply rsum_ext. intros c _. unfold compose. by rewrite rsum_mul, <- list_fmap_compose.
Qed.

(** ** Expert-parallel groups *)

Definition tokens_input (toks : list (token R)) : moe_input R := mk_input (t_row <$> toks) (t_ids <$> toks) (t_weights <$> toks).

Definition pad_token : token R := mk_token (replicate h r0) (replicate k (-1)%Z) (replicate k r0).

Definition pad_tokens (m : nat) (toks : list (token R)) : list (token R) := toks ++ replicate (m - length toks) pad_token.

Lemma pad_to_tokens {A} m width (fill : A) (f : token R -> list A) toks :
  length toks <= m -> f pad_token = replicate width fill -> pad_to m width fill (f <$> toks) = f <$> pad_tokens m toks.
Proof.
  intros Hm Hf. unfold pad_to, pad_tokens. rewrite length_fmap, fmap_app, fmap_replicate, Hf. case_decide as Hd; [|done].
  rewrite <- Hd, Nat.sub_diag. cbn. by rewrite app_nil_r.
Qed.

Context (toks : nat -> list (token R)) (Htoks : forall r, r < ep -> Forall (token_wf h k) (toks r)).

Definition ep_inputs : list (moe_input R) := (fun r => tokens_input (toks r)) <$> seq 0 ep.

Definition gathered (m : nat) : list (token R) := concat ((fun r => pad_tokens m (toks r)) <$> seq 0 ep).

Lemma max_count_le r : r < ep -> length (toks r) <= max_count ep_inputs.
Proof.
  intros Hr. unfold max_count, ep_inputs. rewrite <- list_fmap_compose.
  assert (Hin : length (toks r) ∈ (fun r => length (in_hidden (tokens_input (toks r)))) <$> seq 0 ep).
  { apply list_elem_of_fmap. exists r. cbn. rewrite length_fmap. split; [done|]. apply elem_of_seq. lia. }
  revert Hin. unfold compose. generalize ((fun r => length (in_hidden (tokens_input (toks r)))) <$> seq 0 ep) as l. generalize (length (toks r)) as a.
  induction l as [|b l IH]; intros Hin; [by apply elem_of_nil in Hin|]. cbn. apply elem_of_cons in Hin as [->|Hin]; [lia|]. specialize (IH Hin). lia.
Qed.

Lemma gathered_wf m : Forall (token_wf h k) (gathered m).
Proof.
  apply Forall_concat, Forall_fmap, Forall_forall. intros r Hr%elem_of_seq. unfold compose, pad_tokens.
  apply Forall_app. split; [apply Htoks; lia|]. apply Forall_replicate. split; [|split]; cbn; apply length_replicate.
Qed.

Lemma gather_pad {A} width (fill : A) (f : token R -> list A) (g : moe_input R -> list (list A)) :
  f pad_token = replicate width fill -> (forall ts, g (tokens_input ts) = f <$> ts) ->
  concat ((fun i => pad_to (max_count ep_inputs) width fill (g i)) <$> ep_inputs) = f <$> gathered (max_count ep_inputs).
Proof.
  intros Hf Hg. unfold gathered. rewrite fmap_concat. f_equal. unfold ep_inputs at 2. rewrite <- !list_fmap_compose.
  apply list_fmap_ext. intros i r Hr. apply lookup_seq in Hr as [-> Hr]. unfold compose. rewrite Hg. apply pad_to_tokens; [|done].
  by apply max_count_le.
Qed.

(** After the all-reduce of an expert-parallel group every rank has the sums of all tokens. *)
Lemma ep_reduced_exact c : c < tp ->
  ep_reduced silu ((fun r => (x r c, tokens_input (toks r))) <$> seq 0 ep)
  = Ok (replicate ep ((fun tok => (fun j => rsum ((fun r => rsum (zip_with (fun id w => rmul (at_ (local_choice silu (x r c) id (t_row tok)) j) w)
          (t_ids tok) (t_weights tok))) <$> seq 0 ep)) <$> seq 0 h) <$> gathered (max_count ep_inputs))).
Proof.
  intros Hc. unfold ep_reduced. replace (((fun r => (x r c, tokens_input (toks r))) <$> seq 0 ep).*2) with ep_inputs.
  2: { unfold ep_inputs. by rewrite <- list_fmap_compose. }
  rewrite (mapM_r_fmap_seq _ _ (fun r => routed (local_choice silu (x r c)) h <$> gathered (max_count ep_inputs))).
  - cbn [mbind result_bind]. f_equal.
    apply (all_reduce_fmap (fun r tok j => rsum (zip_with (fun id w => rmul (at_ (local_choice silu (x r c) id (t_row tok)) j) w) (t_ids tok) (t_weights tok)))
             (gathered (max_count ep_inputs)) (fun _ => seq 0 h) ep Hep).
  - intros r Hr. pose proof (Hx r c Hr Hc) as Hs'. rewrite (hs_hidden _ _ _ _ _ _ _ _ Hs'), (hs_top_k _ _ _ _ _ _ _ _ Hs').
    rewrite (gather_pad h r0 t_row), (gather_pad k (-1)%Z t_ids), (gather_pad k r0 t_weights) by done.
    rewrite (compute_local_prefill_exact silu (x r c) k); [by rewrite (hs_hidden _ _ _ _ _ _ _ _ Hs')|by apply (shard_wf r c)|].
    rewrite (hs_hidden _ _ _ _ _ _ _ _ Hs'). apply gathered_wf.
Qed.

Definition ep_grid : list (list (GenericExperts R * moe_input R)) :=
  (fun c => (fun r => (x r c, tokens_input (toks r))) <$> seq 0 ep) <$> seq 0 tp.

Lemma fmap_const_seq {A} a m (y : A) : (fun _ => y) <$> seq a m = replicate m y.
Proof. revert a. induction m as [|m IH]; intros a; [done|]. cbn. f_equal. apply IH. Qed.

(** An all-reduce of lists whose elements are the same. *)
Lemma all_reduce_rows (M : nat -> mat) m (S : mat) : all_reduce madd (M <$> seq 0 tp) = replicate tp S ->
  all_reduce (zip_with madd) ((fun c => replicate m (M c)) <$> seq 0 tp) = replicate tp (replicate m S).
Proof.
  destruct tp as [|t]; [done|]. unfold all_reduce. cbn [seq fmap list_fmap length]. rewrite !length_fmap, !length_seq.
  intros HS. cbn [replicate] in HS. injection HS as HS _. rewrite <- HS. f_equal.
  rewrite <- (fmap_const_seq 0 m (M 0)). rewrite (list_fmap_ext (fun c => replicate m (M c)) (fun c => (fun _ => M c) <$> seq 0 m)).
  2: { intros. by rewrite fmap_const_seq. }
  rewrite (foldl_zip_with_fmap madd (fun c _ => M c) (seq 0 m) (seq 1 t)). apply fmap_const_seq.
Qed.

Lemma summed_exact : (if decide (1 < tp) then all_reduce (zip_with madd) else id)
    ((fun c => replicate ep ((fun tok => (fun j => rsum ((fun r => rsum (zip_with (fun id w => rmul (at_ (local_choice silu (x r c) id (t_row tok)) j) w)
       (t_ids tok) (t_weights tok))) <$> seq 0 ep)) <$> seq 0 h) <$> gathered (max_count ep_inputs))) <$> seq 0 tp)
  = replicate tp (replicate ep (ref_moe silu experts h <$> gathered (max_count ep_inputs))).
Proof.
  set (f := fun c tok j => rsum ((fun r => rsum (zip_with (fun id w => rmul (at_ (local_choice silu (x r c) id (t_row tok)) j) w) (t_ids tok) (t_weights tok))) <$> seq 0 ep)).
  assert (Hf : forall tok, (fun j => rsum ((fun c => f c tok j) <$> seq 0 tp)) <$> seq 0 h = ref_moe silu experts h tok).
  { intros tok. unfold ref_moe, routed. apply list_fmap_ext. intros i j Hj. apply lookup_seq in Hj as [-> Hj]. by apply routed_sum. }
  case_decide as Hd.
  - apply (all_reduce_rows (fun c => (fun tok => f c tok <$> seq 0 h) <$> gathered (max_count ep_inputs))).
    rewrite (all_reduce_fmap f _ (fun _ => seq 0 h)) by done. f_equal. apply list_fmap_ext. intros _ tok _. apply Hf.
  - assert (tp = 1) as Htp1 by lia. rewrite Htp1 in *. cbn [seq fmap list_fmap replicate]. unfold id. do 2 f_equal.
    apply list_fmap_ext. intros _ tok _. rewrite <- Hf. apply list_fmap_ext. intros _ j _. fold (f 0 tok j).
    cbn [seq fmap list_fmap]. rewrite rsum_cons, rsum_nil. by rewrite (right_id r0 radd).
Qed.

Lemma compute_ep_exact : compute_ep silu ep_grid = Ok (replicate tp ((fun r => ref_moe silu experts h <$> toks r) <$> seq 0 ep)).
Proof.
  unfold compute_ep, ep_grid. erewrite mapM_r_fmap_seq by (intros c Hc; apply (ep_reduced_exact c Hc)). cbn [mbind result_bind].
  rewrite length_fmap, length_seq. pose proof summed_exact as Hsum.
  assert (Hred : forall l : list (list mat), (if decide (1 < tp) then all_reduce (zip_with madd) l else l) = (if decide (1 < tp) then all_reduce (zip_with madd) else id) l)
    by (intros l; by case_decide).
  cbv zeta. rewrite Hred, Hsum. clear Hred Hsum. f_equal. rewrite <- !(fmap_const_seq 0 tp). rewrite zip_with_fmap_fmap. apply list_fmap_ext. intros c ? Hc.
  apply lookup_seq in Hc as [-> Hc]. rewrite <- (fmap_const_seq 0 ep), zip_with_fmap_fmap. apply list_fmap_ext. intros i r Hr. apply lookup_seq in Hr as [-> Hr].
  cbn [Nat.add] in *. pose proof (max_count_le i Hr) as Hm.
  rewrite (hs_rank _ _ _ _ _ _ _ _ (Hx i _ Hr Hc)). rewrite <- list_fmap_compose. change (_ <$> seq 0 ep) with ep_inputs.
  set (m := max_count ep_inputs) in *. cbn [in_hidden tokens_input]. rewrite length_fmap, slice_fmap. f_equal.
  assert (Hpad : lslice (i * m) m (gathered m) = pad_tokens m (toks i)).
  { apply slice_concat; [|by rewrite list_lookup_fmap, lookup_seq_lt]. apply Forall_fmap, Forall_forall.
    intros r Hr'%elem_of_seq. unfold compose, pad_tokens. rewrite length_app, length_replicate. unfold m. pose proof (max_count_le r). lia. }
  replace (i * m) with (i * m + 0) by lia. rewrite <- (slice_slice _ m) by lia. rewrite Hpad. unfold lslice, pad_tokens.
  by rewrite drop_0, take_app_length.
Qed.

Lemma forward_ep_exact mns orders is_prefill : 1 < ep ->
  forward silu mns orders is_prefill ep ep_grid = Ok ((fun c => (fun r => (x r c, ref_moe silu experts h <$> toks r)) <$> seq 0 ep) <$> seq 0 tp).
Proof.
  intros Hep1. unfold forward. rewrite decide_True, compute_ep_exact by done. cbn [fmap result_fmap]. f_equal. unfold ep_grid.
  rewrite <- (fmap_const_seq 0 tp), zip_with_fmap_fmap. apply list_fmap_ext. intros _ c _. rewrite <- list_fmap_compose, zip_fmap_fmap. done.
Qed.
End shards.

(** * The slots claimed by a dispatch *)

Section slots.
Context (E max_m : nat) (f : nat -> Z).

(** The programs that claim before program [p]. *)
Fixpoint before (order : list nat) (p : nat) : list nat :=
  match order with
  | [] => []
  | q :: order => if decide (q = p) then [] else q :: before order p
  end.

(** How many of the programs [l] claim a slot of expert [e]. *)
Definition claims (l : list nat) (e : Z) : nat := length (filter (fun q => f q = e) l).

(** The slot of program [p], or -1. *)
Definition slot_of (order : list nat) (p : nat) : Z :=
  if decide (f p < 0 \/ Z.of_nat E <= f p)%Z then (-1)%Z
  else if decide (max_m <= claims (before order p) (f p)) then (-1)%Z
  else Z.of_nat (claims (before order p) (f p)).

Lemma before_app l k p : p ∈ l -> before (l ++ k) p = before l p.
Proof.
  induction l as [|q l IH]; intros Hp; [by apply elem_of_nil in Hp|]. cbn. case_decide as Hd; [done|]. f_equal. apply IH.
  apply elem_of_cons in Hp as [->|Hp]; done.
Qed.

Lemma before_fresh l p : p ∉ l -> before (l ++ [p]) p = l.
Proof.
  induction l as [|q l IH]; intros Hp; cbn; [by rewrite decide_True|].
  rewrite decide_False by (intros ->; apply Hp; left). f_equal. apply IH. intros ?. apply Hp. by right.
Qed.

Lemma claims_snoc l q e : claims (l ++ [q]) e = claims l e + if decide (f q = e) then 1 else 0.
Proof. unfold claims. rewrite filter_app, length_app. f_equal. rewrite filter_cons. by case_decide. Qed.

Lemma claims_before_lt l p : p ∈ l -> claims (before l p) (f p) < claims l (f p).
Proof.
  induction l as [|q l IH]; intros Hp; [by apply elem_of_nil in Hp|]. cbn [before]. unfold claims in *.
  destruct (decide (q = p)) as [->|Hd].
  - rewrite filter_cons, decide_True by done. cbn. lia.
  - apply elem_of_cons in Hp as [->|Hp]; [done|]. specialize (IH Hp). rewrite !filter_cons. case_decide; cbn; lia.
Qed.

Lemma slot_of_app l k p : p ∈ l -> slot_of (l ++ k) p = slot_of l p.
Proof. intros Hp. unfold slot_of. by rewrite before_app. Qed.

(** A program is served when its expert is not asked for more often than it has slots. *)
Lemma slot_of_served order p : p ∈ order -> (0 <= f p < Z.of_nat E)%Z -> claims order (f p) <= max_m ->
  slot_of order p = Z.of_nat (claims (before order p) (f p)).
Proof.
  intros Hp Hv Hc. unfold slot_of. rewrite decide_False by lia. pose proof (claims_before_lt order p Hp). by rewrite decide_False by lia.
Qed.
End slots.

Section dispatching.
Context {R : Type} `{Semiring R}.
Notation mat := (list (list R)) (only parsing).
Context (hidden : mat) (topk_ids : list (list Z)) (E M h K : nat).

(** The expert program [pid] asks for. *)
Definition pid_id (pid : nat) : Z := default 0%Z (topk_ids !! (pid / K) ≫= (.!! (pid mod K))).

(** The shapes of a dispatcher's buffers. *)
Record dispatcher_wf (d : LocalPaddedDispatcher R) : Prop := {
  dw_E : d_E d = E;
  dw_M : d_max_m d = M;
  dw_H : d_H d = h;
  dw_K : d_K d = K;
  dw_buf_len : length (padded_buf d) = E;
  dw_buf : Forall (is_mat M h) (padded_buf d);
  dw_masked : length (masked_m d) = E;
  dw_slots_len : length (slot_map d) = d_max_T d;
  dw_slots : Forall (fun row => length row = K) (slot_map d);
  dw_out : is_mat (d_max_T d) h (out_buf d)
}.

(** What the buffers hold after the programs [done]. *)
Record dispatched (done : list nat) (d : LocalPaddedDispatcher R) : Prop := {
  di_wf : dispatcher_wf d;
  di_masked : forall e, e < E -> masked_m d !! e = Some (Z.of_nat (claims pid_id done (Z.of_nat e)));
  di_slot : forall p, p ∈ done -> slot_map d !! (p / K) ≫= (.!! (p mod K)) = Some (slot_of E M pid_id done p);
  di_row : forall p, p ∈ done -> (0 <= slot_of E M pid_id done p)%Z ->
    padded_buf d !! Z.to_nat (pid_id p) ≫= (.!! Z.to_nat (slot_of E M pid_id done p)) = hidden !! (p / K)
}.

Lemma store_slot_lookup (sm : list (list Z)) t k v t' k' : Forall (fun row => length row = K) sm -> t < length sm -> k < K ->
  store_slot sm t k v !! t' ≫= (.!! k') = if decide (t' = t /\ k' = k) then Some v else sm !! t' ≫= (.!! k').
Proof.
  intros Hsm Ht Hk. unfold store_slot. destruct (decide (t' = t)) as [->|Hne].
  - rewrite list_lookup_alter_eq. destruct (lookup_lt_is_Some_2 sm t Ht) as [row Hrow]. rewrite Hrow. cbn.
    pose proof (proj1 (Forall_lookup _ _) Hsm t row Hrow) as Hl. cbn beta in Hl. destruct (decide (k' = k)) as [->|Hk'].
    + rewrite decide_True by done. apply list_lookup_insert_eq. lia.
    + rewrite decide_False by naive_solver. by apply list_lookup_insert_ne.
  - rewrite list_lookup_alter_ne by done. by rewrite decide_False by naive_solver.
Qed.

Lemma store_slot_wf (sm : list (list Z)) t k v : Forall (fun row => length row = K) sm ->
  length (store_slot sm t k v) = length sm /\ Forall (fun row => length row = K) (store_slot sm t k v).
Proof.
  intros Hsm. unfold store_slot. split; [apply length_alter|]. apply Forall_alter; [done|]. intros row _ Hrow. by rewrite length_insert.
Qed.

Lemma same_pid p q : 0 < K -> p / K = q / K -> p mod K = q mod K -> p = q.
Proof. intros HK H1 H2. rewrite (Nat.div_mod p K), (Nat.div_mod q K), H1, H2 by lia. done. Qed.

Lemma dispatcher_wf_mk T buf masked sm out : length buf = E -> Forall (is_mat M h) buf -> length masked = E -> length sm = T ->
  Forall (fun row => length row = K) sm -> is_mat T h out -> dispatcher_wf (mk_dispatcher E M h K T buf masked sm out).
Proof. by split. Qed.

Lemma slot_of_old l p q : q ∈ l -> slot_of E M pid_id (l ++ [p]) q = slot_of E M pid_id l q.
Proof. apply slot_of_app. Qed.

Lemma slot_of_bound l q : (0 <= slot_of E M pid_id l q)%Z -> q ∈ l ->
  (0 <= pid_id q < Z.of_nat E)%Z /\ (slot_of E M pid_id l q < Z.of_nat M)%Z /\ (slot_of E M pid_id l q < Z.of_nat (claims pid_id l (pid_id q)))%Z.
Proof.
  intros Hs Hq. pose proof (claims_before_lt pid_id l q Hq). unfold slot_of in *. repeat case_decide; try lia.
Qed.

(** One program, when its slot is written. *)
Lemma slots_step done d p v : 0 < K -> p ∉ done -> p < d_max_T d * K -> dispatched done d -> slot_of E M pid_id (done ++ [p]) p = v ->
  forall q, q ∈ done ++ [p] -> store_slot (slot_map d) (p / K) (p mod K) v !! (q / K) ≫= (.!! (q mod K)) = Some (slot_of E M pid_id (done ++ [p]) q).
Proof.
  intros HK Hp Hb Hd Hv q Hq. pose proof (di_wf _ _ Hd) as Hwf. rewrite store_slot_lookup.
  - apply elem_of_app in Hq as [Hq|Hq%list_elem_of_singleton].
    + rewrite decide_False; [by rewrite slot_of_old, (di_slot _ _ Hd)|]. intros [H1 H2]. apply Hp. by rewrite <- (same_pid q p HK H1 H2).
    + subst q. rewrite decide_True by done. by rewrite Hv.
  - apply Hwf.
  - rewrite (dw_slots_len _ Hwf). apply Nat.Div0.div_lt_upper_bound. lia.
  - apply Nat.mod_upper_bound. lia.
Qed.

Lemma dispatch_program_step done d p : 0 < K -> p ∉ done -> p < length hidden * K -> length hidden <= d_max_T d ->
  Forall (fun row => length row = h) hidden -> dispatched done d ->
  dispatched (done ++ [p]) (dispatch_program hidden topk_ids d p) /\ d_max_T (dispatch_program hidden topk_ids d p) = d_max_T d.
Proof.
  intros HK Hp Hb HT Hrows Hd. pose proof (di_wf _ _ Hd) as Hwf. destruct (Hwf) as [W1 W2 W3 W4 W5 W6 W7 W8 W9 W10].
  pose proof (fun v => store_slot_wf (slot_map d) (p / K) (p mod K) v W9) as Hsw.
  assert (Hb' : p < d_max_T d * K) by nia.
  unfold dispatch_program. rewrite W1, W2, W3, W4. fold (pid_id p).
  assert (Hslot : slot_of E M pid_id (done ++ [p]) p
     = if decide (pid_id p < 0 \/ Z.of_nat E <= pid_id p)%Z then (-1)%Z
       else if decide (M <= claims pid_id done (pid_id p)) then (-1)%Z else Z.of_nat (claims pid_id done (pid_id p))).
  { unfold slot_of. by rewrite before_fresh. }
  destruct (decide (pid_id p < 0 \/ Z.of_nat E <= pid_id p)%Z) as [Hinv|Hval].
  - split; [|done]. split.
    + destruct (Hsw (-1)%Z). apply dispatcher_wf_mk; (done || congruence).
    + intros e He. cbn. rewrite claims_snoc, decide_False, Nat.add_0_r by lia. by apply (di_masked _ _ Hd).
    + by apply slots_step.
    + intros q Hq Hs. apply elem_of_app in Hq as [Hq|Hq%list_elem_of_singleton]; [|subst; lia].
      rewrite slot_of_old in * by done. by apply (di_row _ _ Hd).
  - assert (He : Z.to_nat (pid_id p) < E) by lia. rewrite (di_masked _ _ Hd _ He). cbn [from_option]. unfold Datatypes.id.
    rewrite Z2Nat.id by lia. set (c := claims pid_id done (pid_id p)) in *.
    assert (Hmask : forall e, e < E -> <[Z.to_nat (pid_id p) := (Z.of_nat c + 1)%Z]> (masked_m d) !! e
       = Some (Z.of_nat (claims pid_id (done ++ [p]) (Z.of_nat e)))).
    { intros e He'. rewrite claims_snoc. destruct (decide (e = Z.to_nat (pid_id p))) as [->|Hne].
      - rewrite list_lookup_insert_eq by lia. rewrite decide_True by lia. f_equal. unfold c. rewrite Z2Nat.id by lia. lia.
      - rewrite list_lookup_insert_ne by done. rewrite decide_False, Nat.add_0_r by lia. by apply (di_masked _ _ Hd). }
    destruct (decide (M <= c)) as [Hfull|Hfree].
    + rewrite decide_True by lia. split; [|done]. split; [|done|by apply slots_step|].
      * destruct (Hsw (-1)%Z). apply dispatcher_wf_mk; rewrite ?length_insert; (done || congruence).
      * intros q Hq Hs. apply elem_of_app in Hq as [Hq|Hq%list_elem_of_singleton]; [|subst; lia].
        rewrite slot_of_old in * by done. by apply (di_row _ _ Hd).
    + rewrite decide_False by lia. split; [|done]. split; [|done|by apply slots_step|].
      * destruct (Hsw (Z.of_nat c)). apply dispatcher_wf_mk; rewrite ?length_insert, ?length_alter; try (done || congruence).
        apply Forall_alter; [done|]. intros buf _ [Hl Hf]. split; [by rewrite length_insert|]. apply Forall_insert; [done|].
        destruct (lookup_lt_is_Some_2 hidden (p / K)) as [row Hrow]; [by apply Nat.Div0.div_lt_upper_bound; lia|]. rewrite Hrow. cbn.
        pose proof (proj1 (Forall_lookup _ _) Hrows _ _ Hrow) as Hlr. cbn beta in Hlr. rewrite length_take. lia.
      * intros q Hq Hs. cbn [padded_buf]. destruct (lookup_lt_is_Some_2 hidden (p / K)) as [row Hrow]; [by apply Nat.Div0.div_lt_upper_bound; lia|].
        pose proof (proj1 (Forall_lookup _ _) Hrows _ _ Hrow) as Hlr. cbn beta in Hlr. rewrite Hrow. cbn [from_option]. unfold Datatypes.id. rewrite take_ge by lia.
        apply elem_of_app in Hq as [Hq|Hq%list_elem_of_singleton].
        -- rewrite slot_of_old in * by done. destruct (slot_of_bound done q Hs Hq) as (Hq1 & Hq2 & Hq3). rewrite <- (di_row _ _ Hd q Hq Hs).
           destruct (decide (pid_id q = pid_id p)) as [Heq|Hne]; [|by rewrite list_lookup_alter_ne by lia].
           rewrite Heq, list_lookup_alter_eq. destruct (padded_buf d !! Z.to_nat (pid_id p)) as [buf|]; [|done]. cbn.
           apply list_lookup_insert_ne. rewrite Heq in Hq3. fold c in Hq3. lia.
        -- subst q. rewrite Hslot, list_lookup_alter_eq. destruct (lookup_lt_is_Some_2 (padded_buf d) (Z.to_nat (pid_id p))) as [buf Hbuf]; [lia|].
           rewrite Hbuf. cbn. rewrite Hrow. apply list_lookup_insert_eq. rewrite (proj1 (proj1 (Forall_lookup _ _) W6 _ _ Hbuf)). lia.
Qed.

Lemma dispatch_programs done order d : 0 < K -> NoDup (done ++ order) -> Forall (fun p => p < length hidden * K) order ->
  length hidden <= d_max_T d -> Forall (fun row => length row = h) hidden -> dispatched done d ->
  dispatched (done ++ order) (foldl (dispatch_program hidden topk_ids) d order)
  /\ d_max_T (foldl (dispatch_program hidden topk_ids) d order) = d_max_T d.
Proof.
  intros HK. revert done d. induction order as [|p order IH]; intros done d Hnd Hb HT Hrows Hd; [by rewrite app_nil_r|].
  inversion Hb as [|? ? Hp Hb']; subst. cbn [foldl].
  destruct (dispatch_program_step done d p) as [Hd' HT']; [done| |done..|].
  { intros Hin. apply NoDup_app in Hnd as (_ & Hnd & _). apply (Hnd p Hin). left. }
  replace (done ++ p :: order) with ((done ++ [p]) ++ order) in * by by rewrite <- app_assoc.
  destruct (IH (done ++ [p]) (dispatch_program hidden topk_ids d p)) as [H1 H2]; rewrite ?HT'; [done..|]. split; [done|]. congruence.
Qed.

(** A dispatch serves the programs as [slot_of] says, whatever the buffers held. *)
Lemma dispatch_exact d order : 0 < K -> NoDup order -> Forall (fun p => p < length hidden * K) order ->
  length hidden <= d_max_T d -> (length hidden = 0 \/ cols topk_ids = K) -> Forall (fun row => length row = h) hidden -> dispatcher_wf d ->
  exists d' m, dispatch d order hidden topk_ids = Ok (d', m) /\ dispatcher_wf d' /\ d_max_T d' = d_max_T d /\
    (forall p, p ∈ order -> slot_map d' !! (p / K) ≫= (.!! (p mod K)) = Some (slot_of E M pid_id order p)) /\
    (forall p, p ∈ order -> (0 <= slot_of E M pid_id order p)%Z ->
       padded_buf d' !! Z.to_nat (pid_id p) ≫= (.!! Z.to_nat (slot_of E M pid_id order p)) = hidden !! (p / K)) /\
    (forall e, e < E -> masked_m d' !! e = Some (Z.of_nat (claims pid_id order (Z.of_nat e) `min` M))).
Proof.
  intros HK Hnd Hb HT Hcols Hrows Hwf. unfold dispatch. rewrite decide_False, decide_False by (rewrite ?(dw_K _ Hwf); lia).
  set (reset := reset_buffers _ d). destruct (Hwf) as [W1 W2 W3 W4 W5 W6 W7 W8 W9 W10].
  assert (Hreset : dispatched [] reset).
  { split; [| |by intros p ?%elem_of_nil|by intros p ?%elem_of_nil].
    - unfold reset, reset_buffers. rewrite W1, W2, W3, W4. apply dispatcher_wf_mk; [by rewrite length_fmap| |by rewrite length_fmap| | |done].
      + apply Forall_fmap. eapply Forall_impl; [exact W6|]. intros buf [Hl Hf]. split; [by rewrite length_fmap|].
        apply Forall_fmap. eapply Forall_impl; [exact Hf|]. intros row Hrow. unfold compose. by rewrite length_replicate.
      + rewrite length_app, length_fmap, length_take, length_drop. lia.
      + apply Forall_app. split; [|by apply Forall_drop]. apply Forall_fmap. eapply Forall_impl; [by apply Forall_take|].
        intros row Hrow. unfold compose. by rewrite length_replicate.
    - intros e He. cbn. rewrite list_lookup_fmap. destruct (lookup_lt_is_Some_2 (masked_m d) e) as [z Hz]; [lia|]. by rewrite Hz. }
  destruct (dispatch_programs [] order reset HK Hnd Hb HT Hrows Hreset) as [[D1 D2 D3 D4] HT'].
  destruct (D1) as [V1 V2 V3 V4 V5 V6 V7 V8 V9 V10]. eexists _, _. split; [done|]. split_and!; cbn [slot_map padded_buf d_max_T masked_m].
  - rewrite V1, V2, V3, V4. apply dispatcher_wf_mk; rewrite ?length_fmap; done.
  - done.
  - exact D3.
  - exact D4.
  - intros e He. rewrite list_lookup_fmap, (D2 e He), V2, Nat2Z.inj_min. done.
Qed.
End dispatching.

(** * The decode path *)

Section decode.
Context {R : Type} `{Semiring R} (silu : R -> R).
Notation mat := (list (list R)) (only parsing).

(** A token without the choices for which the dispatch had no slot. *)
Definition kept_token (E M K : nat) (ids : list (list Z)) (order : list nat) (t : nat) (tok : token R) : token R :=
  mk_token (t_row tok)
    (imap (fun j id => if decide (0 <= slot_of E M (pid_id ids K) order (t * K + j))%Z then id else (-1)%Z) (t_ids tok))
    (t_weights tok).

Definition kept_tokens (E M K : nat) (order : list nat) (toks : list (token R)) : list (token R) :=
  imap (kept_token E M K (t_ids <$> toks) order) toks.

Lemma bmm_exact (a w : list mat) n j : length a = length w -> 0 < n -> Forall (is_mat n j) w ->
  Forall (Forall (fun row => length row = j)) a ->
  bmm_transposed a w = Ok (zip_with (fun x m => (fun row : list R => rdot row <$> m) <$> x) a w).
Proof.
  intros Hl Hn Hw Ha. unfold bmm_transposed. rewrite decide_True by done. revert w Hl Hw.
  induction Ha as [|x a Hx _ IH]; intros [|m w] Hl Hw; [done..|]. inversion Hw as [|? ? Hm Hw']; subst. cbn [zip_with mapM_r].
  rewrite (F_linear_mat x m j); [|rewrite (proj1 Hm); lia|apply Hm|done]. rewrite IH; [done|cbn in Hl; lia|done].
Qed.

Lemma foldl_choices (body : list R -> nat -> list R) (v : nat -> list R) n l acc : length acc = n ->
  (forall acc j, length acc = n -> j ∈ l -> length (v j) = n /\ body acc j = vadd acc (v j)) ->
  foldl body acc l = (fun i => radd (at_ acc i) (rsum ((fun j => at_ (v j) i) <$> l))) <$> seq 0 n.
Proof.
  revert acc. induction l as [|j l IH]; intros acc Hacc Hbody; cbn [foldl fmap list_fmap].
  - rewrite (row_as_seq acc n) at 1 by done. apply list_fmap_ext. intros _ i _. rewrite rsum_nil. by rewrite (right_id r0 radd).
  - destruct (Hbody acc j Hacc) as [Hv ->]; [left|].
    assert (Hl : length (vadd acc (v j)) = n) by (unfold vadd; rewrite length_zip_with; lia).
    rewrite IH; [|done|intros acc' j' ??; apply Hbody; [done|by right]]. apply list_fmap_ext. intros i' i Hi. apply lookup_seq in Hi as [-> Hi].
    rewrite rsum_cons, (assoc radd). f_equal. unfold at_, vadd. rewrite lookup_zip_with.
    destruct (lookup_lt_is_Some_2 acc i') as [a Ha]; [lia|]. destruct (lookup_lt_is_Some_2 (v j) i') as [b Hb]; [lia|]. cbn [Nat.add]. by rewrite Ha, Hb.
Qed.

Lemma vadd_zeros n (acc : list R) : length acc = n -> vadd acc (replicate n r0) = acc.
Proof.
  intros <-. induction acc as [|a acc IH]; [done|]. cbn. f_equal; [by rewrite (right_id r0 radd)|]. exact IH.
Qed.

Lemma zip_with_seq {A B} (f : A -> B -> R) (l : list A) (k : list B) n da db : length l = n -> length k = n ->
  zip_with f l k = (fun j => f (default da (l !! j)) (default db (k !! j))) <$> seq 0 n.
Proof.
  intros Hl Hk. apply list_eq. intros j. rewrite lookup_zip_with, list_lookup_fmap. destruct (decide (j < n)).
  - rewrite lookup_seq_lt by done. destruct (lookup_lt_is_Some_2 l j) as [a Ha]; [lia|]. destruct (lookup_lt_is_Some_2 k j) as [b Hb]; [lia|].
    cbn [Nat.add fmap option_fmap option_map]. by rewrite Ha, Hb.
  - rewrite lookup_seq_ge by lia. by rewrite (lookup_ge_None_2 l) by lia.
Qed.

Lemma pid_split K t j : j < K -> (t * K + j) / K = t /\ (t * K + j) mod K = j.
Proof.
  intros Hj. split; [symmetry; apply (Nat.div_unique _ K t j); lia|symmetry; apply (Nat.mod_unique _ K t j); lia].
Qed.

Context (x : GenericExperts R) (K : nat) (toks : list (token R)) (M : nat) (order : list nat).
Context (Hwf : experts_wf x) (Hrank : ep_rank x = 0) (HK : 0 < K).
Context (Htoks : Forall (token_wf (hidden_size x) K) toks) (Horder : order ≡ₚ seq 0 (length toks * K)).

Let E := num_local_experts x.
Let h := hidden_size x.
Let ids := t_ids <$> toks.

Lemma pid_id_token t tok j : toks !! t = Some tok -> j < K -> pid_id ids K (t * K + j) = default 0%Z (t_ids tok !! j).
Proof.
  intros Ht Hj. unfold pid_id. destruct (pid_split K t j Hj) as [-> ->]. unfold ids. by rewrite list_lookup_fmap, Ht.
Qed.

Lemma pid_in_order t tok j : toks !! t = Some tok -> j < K -> t * K + j ∈ order.
Proof.
  intros Ht%lookup_lt_Some Hj. rewrite Horder. apply elem_of_seq. nia.
Qed.

(** The output of the grouped products for a row of the padded buffer. *)
Lemma expert_out_lookup (buf : list mat) e slot row : length buf = E -> e < E ->
  buf !! e ≫= (.!! slot) = Some row ->
  zip_with (fun y m => (fun row : list R => rdot row <$> m) <$> y)
    ((fun m : mat => swiglu silu <$> m) <$> zip_with (fun y m => (fun row : list R => rdot row <$> m) <$> y) buf (gate_up_proj x)) (down_proj x)
    !! e ≫= (.!! slot) = Some (local_choice silu x (Z.of_nat e) row).
Proof.
  intros Hbuf He Hrow. destruct (lookup_lt_is_Some_2 (gate_up_proj x) e) as [gu Hg]; [by rewrite (wf_gu_len x Hwf)|].
  destruct (lookup_lt_is_Some_2 (down_proj x) e) as [dn Hd]; [by rewrite (wf_dn_len x Hwf)|].
  destruct (buf !! e) as [b|] eqn:Hb; [|done]. cbn in Hrow.
  rewrite lookup_zip_with, list_lookup_fmap, lookup_zip_with, Hb, Hg, Hd.
  cbn [mbind option_bind fmap option_fmap option_map]. rewrite !list_lookup_fmap, Hrow. cbn [fmap option_fmap option_map]. f_equal.
  unfold local_choice. rewrite Hrank, decide_True by (fold E; lia). replace (Z.to_nat _) with e by lia. by rewrite Hg, Hd.
Qed.

(** The combination gives a token the sum over the choices that were kept. *)
Lemma combine_token_exact d t tok out :
  d_K d = K -> length (padded_buf d) = E -> toks !! t = Some tok ->
  (forall p, p ∈ order -> slot_map d !! (p / K) ≫= (.!! (p mod K)) = Some (slot_of E M (pid_id ids K) order p)) ->
  (forall p, p ∈ order -> (0 <= slot_of E M (pid_id ids K) order p)%Z ->
     padded_buf d !! Z.to_nat (pid_id ids K p) ≫= (.!! Z.to_nat (slot_of E M (pid_id ids K) order p)) = (t_row <$> toks) !! (p / K)) ->
  out = zip_with (fun y m => (fun row : list R => rdot row <$> m) <$> y)
    ((fun m : mat => swiglu silu <$> m) <$> zip_with (fun y m => (fun row : list R => rdot row <$> m) <$> y) (padded_buf d) (gate_up_proj x)) (down_proj x) ->
  combine_token d h out ids (t_weights <$> toks) t = routed (local_choice silu x) h (kept_token E M K ids order t tok).
Proof.
  intros HdK Hbuf Ht Hslots Hrows ->. destruct (proj1 (Forall_lookup _ _) Htoks t tok Ht) as (Hl1 & Hl2 & Hl3).
  unfold combine_token. rewrite HdK.
  rewrite (foldl_choices _ (fun j => (fun a => rmul a (default r0 (t_weights tok !! j))) <$>
     local_choice silu x (default (-1)%Z (t_ids (kept_token E M K ids order t tok) !! j)) (t_row tok)) h).
  - unfold routed. apply list_fmap_ext. intros i' i Hi. apply lookup_seq in Hi as [-> Hi]. cbn [Nat.add].
    replace (at_ (replicate h r0) i') with (r0 : R) by (unfold at_; by rewrite lookup_replicate_2). rewrite (left_id r0 radd). f_equal.
    rewrite (zip_with_seq _ _ _ K (-1)%Z r0); [|cbn; by rewrite length_imap|done]. apply list_fmap_ext. intros _ j _. apply at_scale.
  - apply length_replicate.
  - intros acc j Hacc Hj%elem_of_seq. split; [by rewrite length_fmap, length_local_choice|].
    assert (Hin : t * K + j ∈ order) by (eapply pid_in_order; [done|lia]). destruct (pid_split K t j) as [Hp1 Hp2]; [lia|].
    pose proof (Hslots _ Hin) as Hslot. pose proof (Hrows _ Hin) as Hrow. rewrite Hp1, Hp2 in Hslot. rewrite Hp1 in Hrow.
    destruct (lookup_lt_is_Some_2 (t_ids tok) j) as [id Hid]; [lia|].
    pose proof (pid_id_token t tok j Ht ltac:(lia)) as Hpid. rewrite Hid in Hpid. cbn in Hpid. rewrite Hpid in Hrow.
    cbn [kept_token t_ids]. rewrite list_lookup_imap, Hid. cbn [fmap option_fmap option_map from_option]. unfold Datatypes.id. rewrite Hslot. cbn [from_option].
    case_decide as Hs.
    + assert (Hv : (0 <= id < Z.of_nat E)%Z) by (rewrite <- Hpid; by apply (slot_of_bound ids E M K order)).
      rewrite list_lookup_fmap, Ht in Hrow. cbn [fmap option_fmap option_map] in Hrow. specialize (Hrow Hs).
      unfold ids. rewrite !list_lookup_fmap, Ht. cbn [fmap option_fmap option_map mbind option_bind]. rewrite Hid. cbn [from_option].
      rewrite (expert_out_lookup _ _ _ (t_row tok)); [|done|lia|done]. cbn [from_option]. rewrite Z2Nat.id by lia. f_equal.
      apply list_fmap_ext. intros _ a _. apply (comm rmul).
    + unfold local_choice at 1. rewrite decide_False by lia. rewrite fmap_replicate, (left_absorb r0 rmul). symmetry. by apply vadd_zeros.
Qed.

Lemma order_bound : Forall (fun p => p < length (t_row <$> toks) * K) order.
Proof. rewrite Horder. apply Forall_forall. intros p Hp%elem_of_seq. rewrite length_fmap. lia. Qed.

Lemma order_nodup : NoDup order.
Proof. rewrite Horder. apply NoDup_seq. Qed.

(** The decode path, whatever the dispatcher's buffers hold and in whatever order its kernel
    runs. *)
Lemma compute_local_decode_exact mns d : get_or_create_local_dispatcher mns x = Ok d -> dispatcher_wf E M h K d -> length toks <= d_max_T d ->
  exists d', compute_local_decode silu mns order x (t_row <$> toks) ids (t_weights <$> toks)
      = Ok (set_dispatcher x d', routed (local_choice silu x) h <$> kept_tokens E M K order toks)
    /\ dispatcher_wf E M h K d' /\ d_max_T d' = d_max_T d.
Proof.
  intros Hget Hd HT. unfold compute_local_decode. rewrite Hget. cbn [mbind result_bind].
  destruct (dispatch_exact (t_row <$> toks) ids E M h K d order HK order_nodup order_bound) as (d1 & m & Heq & Hd1 & HT1 & Hslots & Hrows & _).
  { by rewrite length_fmap. }
  { destruct toks as [|tok toks']; [by left|right]. inversion Htoks as [|? ? (_ & Hl & _) _]. exact Hl. }
  { apply Forall_fmap. eapply Forall_impl; [exact Htoks|]. intros tok Hl. apply Hl. }
  { done. }
  rewrite Heq. cbn [mbind result_bind]. pose proof (dw_buf_len _ _ _ _ _ Hd1) as Hbuf. pose proof (wf_hidden x Hwf). pose proof (wf_inter x Hwf).
  rewrite (bmm_exact _ _ (local_intermediate_size x * 2) h); [|by rewrite Hbuf, (wf_gu_len x Hwf)|lia|apply Hwf|].
  2: { eapply Forall_impl; [apply (dw_buf _ _ _ _ _ Hd1)|]. intros buf Hb. apply Hb. }
  cbn [mbind result_bind].
  rewrite (bmm_exact _ _ h (local_intermediate_size x)); [|rewrite length_fmap, length_zip_with, Hbuf, (wf_gu_len x Hwf), (wf_dn_len x Hwf); fold E; lia|done|apply Hwf|].
  2: { apply Forall_fmap, Forall_forall. intros m' Hm'. unfold compose. apply Forall_fmap, Forall_forall. intros row Hrow. unfold compose.
       apply length_swiglu. apply elem_of_lookup_zip_with in Hm' as (i & b & gu & -> & Hb & Hg). apply list_elem_of_fmap in Hrow as (r & -> & _).
       rewrite length_fmap. exact (proj1 (proj1 (Forall_lookup _ _) (wf_gu x Hwf) i gu Hg)). }
  cbn [mbind result_bind]. unfold combine. rewrite decide_False by (rewrite length_fmap, HT1; lia). cbn [mbind result_bind].
  assert (Hout : combine_token d1 (hidden_size x)
     (zip_with (fun y m => (fun row : list R => rdot row <$> m) <$> y)
       ((fun m : mat => swiglu silu <$> m) <$> zip_with (fun y m => (fun row : list R => rdot row <$> m) <$> y) (padded_buf d1) (gate_up_proj x)) (down_proj x))
     ids (t_weights <$> toks) <$> seq 0 (length (t_row <$> toks)) = routed (local_choice silu x) h <$> kept_tokens E M K order toks).
  { apply list_eq. intros t. rewrite !list_lookup_fmap, length_fmap. unfold kept_tokens. rewrite list_lookup_imap.
    destruct (toks !! t) as [tok|] eqn:Ht; [|apply lookup_ge_None in Ht; by rewrite lookup_seq_ge].
    rewrite lookup_seq_lt by by eapply lookup_lt_Some. cbn [fmap option_fmap option_map Nat.add]. f_equal.
    apply combine_token_exact; [apply Hd1|done..]. }
  rewrite Hout. eexists. split; [done|]. split; [|done]. destruct Hd1 as [V1 V2 V3 V4 V5 V6 V7 V8 V9 V10].
  rewrite V1, V2, V3, V4. apply dispatcher_wf_mk; try done.
  assert (Hko : is_mat (length toks) h (routed (local_choice silu x) h <$> kept_tokens E M K order toks)).
  { split; [unfold kept_tokens; by rewrite length_fmap, length_imap|]. apply Forall_fmap, Forall_true. intros tok. unfold compose, routed. by rewrite length_fmap, length_seq. }
  by apply (is_mat_set_slice _ _ _ _ (length toks)); [|done|rewrite HT1].
Qed.

(** Nothing is dropped when no expert is asked for more often than it has slots. *)
Lemma kept_all : (forall e, (0 <= e < Z.of_nat E)%Z -> claims (pid_id ids K) order e <= M) ->
  routed (local_choice silu x) h <$> kept_tokens E M K order toks = routed (local_choice silu x) h <$> toks.
Proof.
  intros Hload. apply list_eq. intros t. unfold kept_tokens. rewrite !list_lookup_fmap, list_lookup_imap.
  destruct (toks !! t) as [tok|] eqn:Ht; [|done]. cbn [fmap option_fmap option_map]. f_equal. unfold routed. apply list_fmap_ext. intros _ i _.
  f_equal. destruct (proj1 (Forall_lookup _ _) Htoks t tok Ht) as (Hl1 & Hl2 & Hl3). cbn [kept_token t_ids t_row t_weights].
  rewrite !(zip_with_seq _ _ _ K 0%Z r0) by by rewrite ?length_imap. apply list_fmap_ext. intros j' j Hj. apply lookup_seq in Hj as [-> Hj]. cbn [Nat.add] in *.
  rewrite list_lookup_imap. destruct (lookup_lt_is_Some_2 (t_ids tok) j') as [id Hid]; [lia|]. rewrite Hid. cbn [fmap option_fmap option_map from_option].
  unfold Datatypes.id. pose proof (pid_id_token t tok j' Ht Hj) as Hpid. rewrite Hid in Hpid. cbn in Hpid.
  case_decide as Hs; [done|]. f_equal. f_equal. unfold local_choice. rewrite Hrank. rewrite (decide_False (P := (_ <= -1 < _)%Z)) by lia.
  rewrite decide_False; [done|]. intros Hv. apply Hs. change (t_ids <$> toks) with ids. rewrite slot_of_served; [lia|by eapply pid_in_order|rewrite Hpid; fold E in Hv; lia|].
  rewrite Hpid. apply Hload. fold E in Hv. lia.
Qed.
End decode.

(** * The layer on all ranks *)

Section layer.
Context {R : Type} `{Semiring R} (silu : R -> R).
Notation mat := (list (list R)) (only parsing).

(** The dispatcher a decode step uses has the right shapes, [M] slots per expert and room for
    [T] tokens. *)
Definition ready (mns : option nat) (M T : nat) (x : GenericExperts R) : Prop :=
  exists d, get_or_create_local_dispatcher mns x = Ok d
    /\ dispatcher_wf (num_local_experts x) M (hidden_size x) (top_k x) d /\ T <= d_max_T d.

(** A layer with another dispatcher, of the same sizes. *)
Definition redispatched (mns : option nat) (M T : nat) (x x' : GenericExperts R) : Prop :=
  x' = x \/ exists d, x' = set_dispatcher x d /\ (ready mns M T x -> ready mns M T x').

Lemma finite_choice {A} (P : nat -> A -> Prop) m (a : nat -> A) : (forall c, c < m -> exists b, P c b) -> exists f, forall c, c < m -> P c (f c).
Proof.
  induction m as [|m IH]; intros HP; [by exists a; lia|]. destruct IH as [f Hf]; [intros c ?; apply HP; lia|]. destruct (HP m) as [b Hb]; [lia|].
  exists (fun c => if decide (c = m) then b else f c). intros c Hc. case_decide as He; [by subst|]. apply Hf. lia.
Qed.

Lemma claims_perm f l k e : l ≡ₚ k -> claims f l e = claims f k e.
Proof. intros Hp. unfold claims. by rewrite Hp. Qed.

(** The tensor-parallel sum of one expert-parallel rank. *)
Lemma tp_reduced experts h k n s tp (x : nat -> GenericExperts R) toks :
  0 < h -> 0 < s -> 0 < tp -> length experts = n -> Forall (expert_shape (tp * s) h) experts ->
  (forall c, c < tp -> holds_shard experts h k n s 0 c (x c)) ->
  let outs := (fun c => routed (local_choice silu (x c)) h <$> toks) <$> seq 0 tp in
  (if decide (1 < tp) then all_reduce madd outs else outs) = replicate tp (ref_moe silu experts h <$> toks).
Proof.
  intros Hh Hs Htp Hlen Hshape Hx outs.
  assert (Hsum : forall tok, (fun j => rsum ((fun c => rsum (zip_with (fun id w => rmul (at_ (local_choice silu (x c) id (t_row tok)) j) w)
      (t_ids tok) (t_weights tok))) <$> seq 0 tp)) <$> seq 0 h = ref_moe silu experts h tok).
  { intros tok. unfold ref_moe, routed. apply list_fmap_ext. intros i j Hj. apply lookup_seq in Hj as [-> Hj]. cbn [Nat.add] in *.
    rewrite <- (routed_sum silu experts h k n s 1 tp Hh Hs ltac:(lia) Htp ltac:(lia) Hshape (fun _ => x)); [|intros [|r] c ??; [by apply Hx|lia]|done].
    apply rsum_ext. intros c _. cbn [seq fmap list_fmap]. rewrite rsum_cons, rsum_nil. by rewrite (right_id r0 radd). }
  unfold outs. case_decide as Hd.
  - unfold routed. rewrite (all_reduce_fmap (fun c tok j => rsum (zip_with (fun id w => rmul (at_ (local_choice silu (x c) id (t_row tok)) j) w)
      (t_ids tok) (t_weights tok))) toks (fun _ => seq 0 h)) by done.
    f_equal. apply list_fmap_ext. intros _ tok _. apply Hsum.
  - assert (tp = 1) as -> by lia. cbn [seq fmap list_fmap replicate]. f_equal. apply list_fmap_ext. intros _ tok _. rewrite <- Hsum.
    unfold routed. apply list_fmap_ext. intros _ j _. cbn [seq fmap list_fmap]. rewrite rsum_cons, rsum_nil. by rewrite (right_id r0 radd).
Qed.

Lemma from_experts_ready mns x M T : local_dispatcher x = None -> 0 < num_local_experts x -> T <= seqs_or_default mns ->
  M = align_up ((seqs_or_default mns * top_k x / num_local_experts x * 2) `max` 128 `max` ALIGNMENT) ALIGNMENT -> ready mns M T x.
Proof.
  intros Hd Hn HT ->. unfold ready, get_or_create_local_dispatcher. rewrite Hd. unfold from_experts. rewrite decide_False by lia.
  eexists. split; [done|]. split; [|done].
  split; try done; cbn; rewrite ?length_replicate; try done; try (apply Forall_replicate; rewrite ?length_replicate; try done).
  - split; [by rewrite length_replicate|]. apply Forall_replicate. by rewrite length_replicate.
  - split; [by rewrite length_replicate|]. apply Forall_replicate. by rewrite length_replicate.
Qed.

Section forward.
Context (experts : list (expert_weights R)) (h k n s tp : nat) (x : nat -> nat -> GenericExperts R) (toks : nat -> list (token R)).
Context (Hh : 0 < h) (Hs : 0 < s) (Hk : 0 < k) (Htp : 0 < tp).
Context (Hlen : length experts = n) (Hshape : Forall (expert_shape (tp * s) h) experts).
Context (Hx : forall c, c < tp -> holds_shard experts h k n s 0 c (x 0 c)) (Htoks : Forall (token_wf h k) (toks 0)).

Lemma local_shard_wf c : c < tp -> experts_wf (x 0 c).
Proof. intros Hc. apply (shard_wf experts h k n s 1 tp Hh Hs ltac:(lia) Htp ltac:(lia) Hshape 0 c); [lia|done|by apply Hx]. Qed.

Lemma concat_single_grid : concat (ep_grid 1 tp x toks) = (fun c => (x 0 c, tokens_input (toks 0))) <$> seq 0 tp.
Proof.
  unfold ep_grid. cbn [seq fmap list_fmap]. induction (seq 0 tp) as [|c l IH]; [done|]. cbn. f_equal. apply IH.
Qed.

(** What the ranks return when each has computed its share. *)
Lemma local_reduced (y : nat -> GenericExperts R) :
  let outs := (fun c => (y c, routed (local_choice silu (x 0 c)) h <$> toks 0)) <$> seq 0 tp in
  (if decide (1 < tp) then zip (outs.*1) (all_reduce madd (outs.*2)) else outs) = (fun c => (y c, ref_moe silu experts h <$> toks 0)) <$> seq 0 tp.
Proof.
  pose proof (tp_reduced experts h k n s tp (x 0) (toks 0) Hh Hs Htp Hlen Hshape Hx) as Hred. cbv zeta in *.
  rewrite <- !list_fmap_compose. case_decide as Hd.
  - unfold compose. cbn [fst snd]. rewrite Hred. rewrite <- (fmap_const_seq 0 tp), zip_fmap_fmap. done.
  - assert (tp = 1) as Htp1 by lia. rewrite Htp1 in *. cbn [seq fmap list_fmap replicate] in *. injection Hred as Hred. by rewrite Hred.
Qed.

Lemma compute_local_prefill_group mns orders :
  compute_local silu mns orders true ((fun c => (x 0 c, tokens_input (toks 0))) <$> seq 0 tp)
  = Ok ((fun c => (x 0 c, ref_moe silu experts h <$> toks 0)) <$> seq 0 tp).
Proof.
  unfold compute_local. rewrite (mapM_r_fmap_seq _ _ (fun c => (x 0 c, routed (local_choice silu (x 0 c)) h <$> toks 0))).
  2: { intros c Hc. pose proof (hs_hidden _ _ _ _ _ _ _ _ (Hx c Hc)) as Hc1. cbn [tokens_input in_hidden in_ids in_weights].
       rewrite (compute_local_prefill_exact silu (x 0 c) k); [cbn; by rewrite Hc1|by apply local_shard_wf|by rewrite Hc1]. }
  cbn [mbind result_bind]. rewrite length_fmap, length_seq. f_equal. apply local_reduced.
Qed.

Lemma compute_local_decode_group mns orders M : length orders = tp -> Forall (fun o => o ≡ₚ seq 0 (length (toks 0) * k)) orders ->
  (forall c, c < tp -> ready mns M (length (toks 0)) (x 0 c)) ->
  (forall e, claims (pid_id (t_ids <$> toks 0) k) (seq 0 (length (toks 0) * k)) e <= M) ->
  exists x', compute_local silu mns orders false ((fun c => (x 0 c, tokens_input (toks 0))) <$> seq 0 tp)
      = Ok ((fun c => (x' c, ref_moe silu experts h <$> toks 0)) <$> seq 0 tp)
    /\ forall c, c < tp -> redispatched mns M (length (toks 0)) (x 0 c) (x' c).
Proof.
  intros Hol Hperm Hready Hload.
  assert (Hrank : forall c, c < tp -> exists xc, compute_local_decode silu mns (default [] (orders !! c)) (x 0 c) (t_row <$> toks 0) (t_ids <$> toks 0) (t_weights <$> toks 0)
     = Ok (xc, routed (local_choice silu (x 0 c)) h <$> toks 0) /\ redispatched mns M (length (toks 0)) (x 0 c) xc).
  { intros c Hc. destruct (Hx c Hc) as [X1 X2 X3 X4 _ _ _]. destruct (Hready c Hc) as (d & Hget & Hd & HT).
    destruct (lookup_lt_is_Some_2 orders c) as [o Ho]; [lia|]. rewrite Ho. cbn [from_option]. unfold Datatypes.id.
    pose proof (proj1 (Forall_lookup _ _) Hperm c o Ho) as Hp. cbn beta in Hp.
    pose proof (local_shard_wf c Hc) as Hwf. rewrite X2 in Hd. rewrite <- X1 in Htoks.
    destruct (compute_local_decode_exact silu (x 0 c) k (toks 0) M o Hwf X3 Hk Htoks Hp mns d Hget Hd HT) as (d' & Heq & Hd' & HT').
    exists (set_dispatcher (x 0 c) d'). split.
    - rewrite Heq, (kept_all silu (x 0 c) k (toks 0) M o X3 Hk Htoks Hp), X1; [done|]. intros e _. rewrite (claims_perm _ _ _ e Hp). apply Hload.
    - right. exists d'. split; [done|]. intros _. exists d'. split; [done|]. cbn. rewrite X2. split; [done|]. by rewrite HT'. }
  destruct (finite_choice _ tp (x 0) Hrank) as [x' Hx']. exists x'. split; [|intros c Hc; by apply Hx'].
  unfold compute_local. replace orders with ((fun c => default [] (orders !! c)) <$> seq 0 tp).
  2: { apply list_eq. intros c. rewrite list_lookup_fmap. destruct (decide (c < tp)).
       - rewrite lookup_seq_lt by done. destruct (lookup_lt_is_Some_2 orders c) as [o Ho]; [lia|]. cbn. by rewrite Ho.
       - rewrite lookup_seq_ge by lia. cbn. symmetry. apply lookup_ge_None. lia. }
  rewrite zip_fmap_fmap. rewrite (mapM_r_fmap_seq _ _ (fun c => (x' c, routed (local_choice silu (x 0 c)) h <$> toks 0))) by (intros c Hc; apply Hx', Hc).
  cbn [mbind result_bind]. rewrite length_fmap, length_seq. f_equal. apply local_reduced.
Qed.

Lemma forward_local_exact mns orders is_prefill M :
  (is_prefill = false -> length orders = tp /\ Forall (fun o => o ≡ₚ seq 0 (length (toks 0) * k)) orders /\
     (forall c, c < tp -> ready mns M (length (toks 0)) (x 0 c)) /\
     (forall e, claims (pid_id (t_ids <$> toks 0) k) (seq 0 (length (toks 0) * k)) e <= M)) ->
  exists x', forward silu mns orders is_prefill 1 (ep_grid 1 tp x toks) = Ok ((fun c => [(x' c, ref_moe silu experts h <$> toks 0)]) <$> seq 0 tp)
    /\ forall c, c < tp -> redispatched mns M (length (toks 0)) (x 0 c) (x' c).
Proof.
  intros Hdec. unfold forward. rewrite decide_False, concat_single_grid by lia. destruct is_prefill.
  - exists (x 0). split; [|by left]. rewrite compute_local_prefill_group. cbn [fmap result_fmap]. f_equal. by rewrite <- list_fmap_compose.
  - destruct (Hdec eq_refl) as (Hol & Hperm & Hready & Hload). destruct (compute_local_decode_group mns orders M Hol Hperm Hready Hload) as (x' & -> & Hx').
    exists x'. split; [|done]. cbn [fmap result_fmap]. f_equal. by rewrite <- list_fmap_compose.
Qed.
End forward.
End layer.

(** ** How often an expert is asked for *)

Section load.
Context {R : Type} `{Semiring R}.

Lemma NoDup_equal_le {A} (l : list A) : NoDup l -> (forall a b, a ∈ l -> b ∈ l -> a = b) -> length l <= 1.
Proof.
  intros Hnd Heq. destruct l as [|a [|b l]]; cbn; [lia..|]. exfalso. apply NoDup_cons in Hnd as [Hn _]. apply Hn.
  rewrite (Heq a b); [left|left|right; left].
Qed.

Lemma claims_block (toks : list (token R)) k t tok e : toks !! t = Some tok -> length (t_ids tok) = k -> NoDup (t_ids tok) ->
  claims (pid_id (t_ids <$> toks) k) (seq (t * k) k) e <= 1.
Proof.
  intros Ht Hl Hnd. unfold claims. apply NoDup_equal_le; [apply NoDup_filter, NoDup_seq|].
  assert (Hid : forall p, t * k <= p < t * k + k -> exists j, p = t * k + j /\ t_ids tok !! j = Some (pid_id (t_ids <$> toks) k p)).
  { intros p Hp. exists (p - t * k). split; [lia|]. destruct (pid_split k t (p - t * k)) as [H1 H2]; [lia|].
    replace (t * k + (p - t * k)) with p in H1, H2 by lia. unfold pid_id. rewrite H1, H2, list_lookup_fmap, Ht. cbn.
    destruct (lookup_lt_is_Some_2 (t_ids tok) (p - t * k)) as [id Hid]; [lia|]. by rewrite Hid. }
  intros p q [Hp1 Hp2%elem_of_seq]%list_elem_of_filter [Hq1 Hq2%elem_of_seq]%list_elem_of_filter.
  destruct (Hid p Hp2) as (i & -> & Hi), (Hid q Hq2) as (j & -> & Hj). rewrite Hp1 in Hi. rewrite Hq1 in Hj. f_equal.
  by apply (NoDup_lookup _ _ _ _ Hnd Hi Hj).
Qed.

(** With different experts for each token, no expert is asked for more often than there are
    tokens. *)
Lemma claims_distinct (toks : list (token R)) h k e : Forall (token_wf h k) toks -> Forall (fun tok => NoDup (t_ids tok)) toks ->
  claims (pid_id (t_ids <$> toks) k) (seq 0 (length toks * k)) e <= length toks.
Proof.
  intros Hwf Hnd. assert (Hm : forall m, m <= length toks -> claims (pid_id (t_ids <$> toks) k) (seq 0 (m * k)) e <= m); [|by apply Hm].
  induction m as [|m IH]; intros Hm; [done|]. replace (S m * k) with (m * k + k) by lia. rewrite seq_app. unfold claims in *. rewrite filter_app, length_app.
  destruct (lookup_lt_is_Some_2 toks m) as [tok Ht]; [lia|]. cbn [Nat.add].
  pose proof (claims_block toks k m tok e Ht (proj1 (proj2 (proj1 (Forall_lookup _ _) Hwf m tok Ht))) (proj1 (Forall_lookup _ _) Hnd m tok Ht)) as Hb.
  unfold claims in Hb. specialize (IH ltac:(lia)). lia.
Qed.
End load.

(** C8. The routed experts of a layer, shared by [ep] expert-parallel and [tp] tensor-parallel
    ranks, compute on every rank what one device with all experts computes for the tokens of
    that rank: with expert parallelism for any numbers of tokens on the ranks, none included;
    without it in prefill, and in decode through the padded dispatcher, whatever earlier steps
    left in its buffers and in whatever order the dispatch kernel runs, as long as no expert is
    asked for more often than it has slots.  Only the dispatcher of a layer changes, and it can
    be used again. *)
Theorem routed_experts_exact {R} `{Semiring R} silu (experts : list (expert_weights R)) h k n s ep tp x toks mns orders is_prefill M :
  0 < h -> 0 < s -> 0 < k -> 0 < ep -> 0 < tp -> length experts = ep * n -> Forall (expert_shape (tp * s) h) experts ->
  (forall r c, r < ep -> c < tp -> holds_shard experts h k n s r c (x r c)) ->
  (forall r, r < ep -> Forall (token_wf h k) (toks r)) ->
  (ep = 1 -> is_prefill = false ->
     length orders = tp /\ Forall (fun o => o ≡ₚ seq 0 (length (toks 0) * k)) orders /\
     (forall c, c < tp -> ready mns M (length (toks 0)) (x 0 c)) /\
     (forall e, claims (pid_id (t_ids <$> toks 0) k) (seq 0 (length (toks 0) * k)) e <= M)) ->
  exists x', forward silu mns orders is_prefill ep (ep_grid ep tp x toks)
      = Ok ((fun c => (fun r => (x' r c, ref_moe silu experts h <$> toks r)) <$> seq 0 ep) <$> seq 0 tp)
    /\ forall r c, r < ep -> c < tp -> redispatched mns M (length (toks r)) (x r c) (x' r c).
Proof.
  intros Hh Hs Hk Hep Htp Hlen Hshape Hx Htoks Hdec. destruct (decide (1 < ep)) as [Hep1|Hep1].
  - exists x. split; [|by left]. by apply (forward_ep_exact silu experts h k n s ep tp).
  - assert (ep = 1) as -> by lia. rewrite Nat.mul_1_l in Hlen.
    destruct (forward_local_exact silu experts h k n s tp x toks Hh Hs Hk Htp Hlen Hshape (fun c => Hx 0 c ltac:(lia)) (Htoks 0 ltac:(lia)) mns orders is_prefill M)
      as (x' & Heq & Hx'); [by apply Hdec|].
    exists (fun _ => x'). rewrite Heq. split; [done|]. intros r c Hr Hc. replace r with 0 by lia. by apply Hx'.
Qed.

(** A layer that holds its shard. *)
Definition shard_layer (experts : list (expert_weights Z)) (h k n s ep tp r c : nat) : GenericExperts Z :=
  mk_experts h (tp * s) (length experts) k ep tp r c n s
    ((fun e => lslice (c * s) s (w_gate e) ++ lslice (c * s) s (w_up e)) <$> lslice (r * n) n experts)
    ((fun e => lslice (c * s) s <$> w_down e) <$> lslice (r * n) n experts) None.

Definition demo_experts : list (expert_weights Z) :=
  [mk_expert [[1; 2]; [3; 4]] [[1; 0]; [0; 1]] [[1; 1]; [2; -1]];
   mk_expert [[0; 1]; [1; 0]] [[2; 2]; [1; 1]] [[1; 0]; [0; 1]]]%Z.

Definition demo_tokens : list (token Z) :=
  [mk_token [1; 2]%Z [0; 1]%Z [2; 1]%Z; mk_token [3; 1]%Z [1; 0]%Z [1; 1]%Z; mk_token [0; 5]%Z [1; -1]%Z [3; 4]%Z].

Lemma routed_experts_exact_witness :
  (exists x', forward Z.abs None [] true 2 (ep_grid 2 2 (shard_layer demo_experts 2 2 1 1 2 2) (fun r => if decide (r = 0) then demo_tokens else []))
     = Ok ((fun c => (fun r => (x' r c, ref_moe Z.abs demo_experts 2 <$> (if decide (r = 0) then demo_tokens else []))) <$> seq 0 2) <$> seq 0 2))
  /\ (exists x', forward Z.abs None [[5; 0; 3; 1; 2; 4]; [0; 1; 2; 3; 4; 5]] false 1 (ep_grid 1 2 (shard_layer demo_experts 2 2 2 1 1 2) (fun _ => demo_tokens))
     = Ok ((fun c => (fun r => (x' r c, ref_moe Z.abs demo_experts 2 <$> demo_tokens)) <$> seq 0 1) <$> seq 0 2)).
Proof.
  assert (Htoks : Forall (token_wf 2 2) demo_tokens) by (repeat (constructor; [by repeat split|]); constructor).
  assert (Hshape : Forall (expert_shape 2 2) demo_experts).
  { repeat (constructor; [repeat split; repeat constructor|]). constructor. }
  split.
  - destruct (routed_experts_exact Z.abs demo_experts 2 2 1 1 2 2 (shard_layer demo_experts 2 2 1 1 2 2)
      (fun r => if decide (r = 0) then demo_tokens else []) None [] true 0) as (x' & Heq & _); [lia..|reflexivity|exact Hshape|by split|by intros r _; case_decide|intros; lia|].
    by exists x'.
  - destruct (routed_experts_exact Z.abs demo_experts 2 2 2 1 1 2 (shard_layer demo_experts 2 2 2 1 1 2) (fun _ => demo_tokens) None
      [[5; 0; 3; 1; 2; 4]; [0; 1; 2; 3; 4; 5]] false 1024) as (x' & Heq & _); [lia..|reflexivity|exact Hshape| | | |].
    + intros r c Hr Hc. replace r with 0 by lia. by split.
    + done.
    + intros _ _. split; [done|]. split; [|split].
      * constructor; [|constructor; [done|constructor]]. apply NoDup_Permutation; [by apply (bool_decide_unpack _)|apply NoDup_seq|].
        intros p. rewrite elem_of_seq. set_unfold. lia.
      * intros c Hc. apply from_experts_ready; [done|cbn; lia|vm_compute; lia|reflexivity].
      * intros e. unfold claims. etransitivity; [apply length_filter|]. vm_compute. lia.
    + by exists x'.
Defined.

(** ** What a full expert drops *)

(** The programs of an expert that get a slot. *)
Definition served (E M : nat) (f : nat -> Z) (order l : list nat) (e : Z) : nat :=
  length (filter (fun p => f p = e /\ (0 <= slot_of E M f order p)%Z) l).

Lemma served_prefix E M f order l k e : order = l ++ k -> NoDup order -> (0 <= e < Z.of_nat E)%Z ->
  served E M f order l e = claims f l e `min` M.
Proof.
  revert k. induction l as [|p l IH] using rev_ind; intros k -> Hnd He; [done|]. unfold served in *.
  rewrite <- app_assoc in *. rewrite filter_app, length_app, (IH ([p] ++ k)), claims_snoc by done.
  assert (Hslot : slot_of E M f (l ++ [p] ++ k) p = if decide (f p < 0 \/ Z.of_nat E <= f p)%Z then (-1)%Z
     else if decide (M <= claims f l (f p)) then (-1)%Z else Z.of_nat (claims f l (f p))).
  { rewrite app_assoc, slot_of_app by (apply elem_of_app; right; left). unfold slot_of. rewrite before_fresh; [done|].
    intros Hin. apply NoDup_app in Hnd as (_ & Hnd & _). apply (Hnd p Hin). left. }
  rewrite filter_cons. rewrite Hslot. destruct (decide (f p = e)) as [Hfe|Hne].
  - subst e. rewrite (decide_False (P := (_ \/ _))) by lia. destruct (decide (M <= claims f l (f p))).
    + rewrite decide_False by (intros [_ ?]; lia). cbn. lia.
    + rewrite decide_True by (split; [done|lia]). cbn. lia.
  - rewrite decide_False by (by intros [? _]). cbn. lia.
Qed.

(** C25. The decode path of a rank serves every expert as often as it has slots and no more: for
    every order in which the dispatch kernel runs, exactly the smaller of its choices and its
    slots are served, and the result is the weighted sum over the choices that were served.
    When the tokens choose different experts and are no more than the slots of an expert, the
    result is that of the prefill path; more tokens than the dispatcher was made for are
    refused. *)
Theorem decode_capacity {R} `{Semiring R} silu (x : GenericExperts R) toks M order mns d :
  experts_wf x -> ep_rank x = 0 -> 0 < top_k x -> Forall (token_wf (hidden_size x) (top_k x)) toks ->
  order ≡ₚ seq 0 (length toks * top_k x) -> get_or_create_local_dispatcher mns x = Ok d ->
  dispatcher_wf (num_local_experts x) M (hidden_size x) (top_k x) d ->
  let ids := t_ids <$> toks in
  let f := pid_id ids (top_k x) in
  let E := num_local_experts x in
  (forall e, (0 <= e < Z.of_nat E)%Z -> served E M f order order e = claims f order e `min` M) /\
  (length toks <= d_max_T d -> exists d',
     compute_local_decode silu mns order x (t_row <$> toks) ids (t_weights <$> toks)
     = Ok (set_dispatcher x d', routed (local_choice silu x) (hidden_size x) <$> kept_tokens E M (top_k x) order toks)) /\
  (length toks <= d_max_T d -> length toks <= M -> Forall (fun tok => NoDup (t_ids tok)) toks ->
     snd <$> compute_local_decode silu mns order x (t_row <$> toks) ids (t_weights <$> toks)
     = compute_local_prefill silu x (t_row <$> toks) ids (t_weights <$> toks)) /\
  (d_max_T d < length toks ->
     compute_local_decode silu mns order x (t_row <$> toks) ids (t_weights <$> toks) = Err AssertionError).
Proof.
  intros Hwf Hrank HK Htoks Hp Hget Hd ids f E. split_and!.
  - intros e He. apply (served_prefix E M f order order []); [by rewrite app_nil_r|by rewrite Hp; apply NoDup_seq|done].
  - intros HT. destruct (compute_local_decode_exact silu x (top_k x) toks M order Hwf Hrank HK Htoks Hp mns d Hget Hd HT) as (d' & Heq & _). by exists d'.
  - intros HT HM Hnd. destruct (compute_local_decode_exact silu x (top_k x) toks M order Hwf Hrank HK Htoks Hp mns d Hget Hd HT) as (d' & Heq & _).
    unfold ids. rewrite Heq, (compute_local_prefill_exact silu x (top_k x) toks Hwf Htoks). cbn [fmap result_fmap snd]. f_equal.
    apply (kept_all silu x (top_k x) toks M order Hrank HK Htoks Hp). intros e _. rewrite (claims_perm _ _ _ e Hp).
    etransitivity; [by eapply claims_distinct|done].
  - intros HT. unfold compute_local_decode. rewrite Hget. cbn [mbind result_bind]. unfold dispatch. rewrite length_fmap.
    case_decide; [done|]. by rewrite decide_True.
Qed.

Lemma decode_capacity_witness :
  snd <$> compute_local_decode Z.abs None [3; 0; 2; 1] (shard_layer demo_experts 2 2 2 2 1 1 0 0)
    (t_row <$> take 2 demo_tokens) (t_ids <$> take 2 demo_tokens) (t_weights <$> take 2 demo_tokens)
  = compute_local_prefill Z.abs (shard_layer demo_experts 2 2 2 2 1 1 0 0)
    (t_row <$> take 2 demo_tokens) (t_ids <$> take 2 demo_tokens) (t_weights <$> take 2 demo_tokens).
Proof.
  destruct (from_experts_ready None (shard_layer demo_experts 2 2 2 2 1 1 0 0) 1024 2) as (d & Hget & Hd & HT); [done|cbn; lia|vm_compute; lia|reflexivity|].
  eapply (decode_capacity Z.abs (shard_layer demo_experts 2 2 2 2 1 1 0 0) (take 2 demo_tokens) 1024 [3; 0; 2; 1] None d); [| |cbn; lia| | |exact Hget|exact Hd|exact HT|vm_compute; lia|].
  - split; [cbn; lia..|done|done|repeat (constructor; [repeat split; repeat constructor|]); constructor|repeat (constructor; [repeat split; repeat constructor|]); constructor].
  - done.
  - repeat (constructor; [by repeat split|]). constructor.
  - apply NoDup_Permutation; [by apply (bool_decide_unpack _)|apply NoDup_seq|]. intros p. rewrite elem_of_seq. set_unfold. lia.
  - repeat (constructor; [by apply (bool_decide_unpack _)|]). constructor.
Defined.

(** Eight experts, one chosen per token, and a dispatcher for the default of 512 sequences. *)
Definition overflow_layer : GenericExperts Z := shard_layer (replicate 8 (mk_expert [[1]] [[1]] [[1]])%Z) 1 1 8 1 1 1 0 0.

(** 129 tokens that choose the same expert. *)
Definition overflow_tokens : list (token Z) := replicate 129 (mk_token [1]%Z [0]%Z [1]%Z).

(** With the sizes the engine derives for 512 sequences and eight experts of which one is
    chosen, a decode batch of 129 tokens that choose the same expert loses the contribution of
    one token, whichever program of the kernel comes last; the prefill path computes all. *)
Theorem decode_overflow :
  let run order := snd <$> compute_local_decode Z.abs None order overflow_layer
    (t_row <$> overflow_tokens) (t_ids <$> overflow_tokens) (t_weights <$> overflow_tokens) in
  run (seq 0 129) = Ok (replicate 128 [1] ++ [[0]])%Z /\
  run (reverse (seq 0 129)) = Ok ([0] :: replicate 128 [1])%Z /\
  compute_local_prefill Z.abs overflow_layer (t_row <$> overflow_tokens) (t_ids <$> overflow_tokens) (t_weights <$> overflow_tokens)
  = Ok (replicate 129 [1])%Z.
Proof. split_and!; vm_compute; reflexivity. Qed.
