(* ===== verification/WeightLoader.v ===== *)
(** Loading checkpoints: [dlengine/runtime/runner/loader.py].  Which weights of a checkpoint
    the base model and the draft (MTP) model read, which experts a rank reads from disk, and
    how the weights of experts, stored one by one or packed, become the parameters of a
    rank.

    A checkpoint is a list of files, each with its named tensors.  The parameters of a model
    are kept by their dotted name; shapes are checked as [copy_] does. *)

From S2P Require Import Prelude PyStr PipelineParallel TensorParallel Qwen3 Qwen3Load KimiK3 Experts.

Open Scope nat_scope.

(** * Names *)

Definition MTP_PATTERNS : list pystr := [lit "eh_proj"; lit "enorm"; lit "hnorm"; lit "shared_head"; lit "mtp."].

Definition SKIP_PATTERNS : list pystr :=
  [lit "visual."; lit "rotary_emb.inv_freq"; lit "rotary_emb.cos_cached"; lit "rotary_emb.sin_cached"].

Definition contains_any (pats : list pystr) (name : pystr) : bool := existsb (contains name) pats.

(** [re.search(r"layers\.\d+\.embed_tokens\.", name)] *)
Definition layer_embed_here (name : pystr) : bool :=
  startswith name (lit "layers.")
  && (let rest := drop (length (lit "layers.")) name in
      let digits := span_digits rest in
      negb (bool_decide (digits = [])) && startswith (drop (length digits) rest) (lit ".embed_tokens.")).

Fixpoint search_layer_embed (name : pystr) : bool :=
  layer_embed_here name || match name with [] => false | _ :: name => search_layer_embed name end.

(** The layer of a name is not one of the base model's. *)
Definition beyond_layers (weight_name : pystr) (num_hidden_layers : option Z) : bool :=
  match num_hidden_layers with
  | None => false
  | Some n => match search_layer_digits weight_name with
              | Some digits => (n <=? int_of_digits digits)%Z
              | None => false
              end
  end.

Definition should_skip_weight (weight_name : pystr) (num_hidden_layers : option Z) : bool :=
  if contains_any MTP_PATTERNS weight_name then true
  else if contains_any SKIP_PATTERNS weight_name then true
  else if search_layer_embed weight_name then true
  else beyond_layers weight_name num_hidden_layers.

Definition is_mtp_weight (weight_name : pystr) (num_hidden_layers : option Z) : bool :=
  if contains_any MTP_PATTERNS weight_name then true
  else if search_layer_embed weight_name then true
  else beyond_layers weight_name num_hidden_layers.

Definition strip_vlm_prefix (weight_name : pystr) : pystr :=
  if startswith weight_name (lit "model.language_model.") then lit "model." ++ drop (length (lit "model.language_model.")) weight_name
  else weight_name.

(** * Reading a checkpoint *)

Section checkpoint.
Context {T : Type}.
Notation file := (pystr * list (pystr * T))%type (only parsing).

(** [sorted(glob(...))] *)
Fixpoint insert_file (f : file) (l : list file) : list file :=
  match l with
  | [] => [f]
  | g :: l' => if str_ltb f.1 g.1 then f :: g :: l' else g :: insert_file f l'
  end.

Definition discover_weight_files (found : list file) : result (list file) :=
  match found with
  | [] => Err FileNotFoundError
  | _ => Ok (foldr insert_file [] found)
  end.

(** The tensors yielded by [iterate_weights]: stripped name, raw name, tensor. *)
Definition iterate_weights (found : list file) (num_hidden_layers : option Z) (weight_name_filter : option (pystr -> bool)) :
    result (list (pystr * pystr * T)) :=
  files ← discover_weight_files found;
  Ok (omap (fun '(raw, t) =>
        if should_skip_weight raw num_hidden_layers then None
        else let weight_name := strip_vlm_prefix raw in
             if match weight_name_filter with Some f => negb (f weight_name) | None => false end then None
             else Some (weight_name, raw, t)) (concat (snd <$> files))).

(** The tensors yielded by [iterate_mtp_weights]. *)
Definition iterate_mtp_weights (found : list file) (num_hidden_layers : option Z) : result (list (pystr * pystr * T)) :=
  files ← discover_weight_files found;
  Ok (omap (fun '(raw, t) =>
        if contains_any SKIP_PATTERNS raw then None
        else let is_mtp := is_mtp_weight raw num_hidden_layers in
             let is_embed_or_head := contains raw (lit "embed_tokens") || contains raw (lit "lm_head") in
             if is_mtp || is_embed_or_head then Some (strip_vlm_prefix raw, raw, t) else None) (concat (snd <$> files))).
End checkpoint.

(** * Experts *)

(** The part of the distributed context and of the model configuration the loader reads; a
    number that is absent is [None]. *)
Record ExpertCtx := mk_ctx { ffn_ep_world_size : nat; ffn_ep_rank : nat; ffn_tp_world_size : nat; ffn_tp_rank : nat }.
Record MoeConfig := mk_moe { cfg_num_experts : option nat; cfg_n_routed_experts : option nat }.

(** [re.search(r"\.mlp\.experts\.(\d+)\.", name)], with the captured digits. *)
Definition expert_digits_here (name : pystr) : option pystr :=
  if startswith name (lit ".mlp.experts.") then
    let rest := drop (length (lit ".mlp.experts.")) name in
    let digits := span_digits rest in
    if decide (digits = []) then None
    else if startswith (drop (length digits) rest) (lit ".") then Some digits else None
  else None.

Fixpoint search_expert_digits (name : pystr) : option pystr :=
  match expert_digits_here name with
  | Some digits => Some digits
  | None => match name with [] => None | _ :: name => search_expert_digits name end
  end.

(** [a or b] on numbers that may be absent. *)
Definition num_or (a b : option nat) : option nat :=
  match a with Some (S n) => Some (S n) | _ => b end.

Definition make_ep_weight_filter (ctx : ExpertCtx) (config : MoeConfig) : option (pystr -> bool) :=
  let ep_size := ffn_ep_world_size ctx in
  if decide (ep_size <= 1) then None
  else
    let num_experts := default 0 (num_or (cfg_num_experts config) (cfg_n_routed_experts config)) in
    if decide (num_experts = 0 \/ num_experts mod ep_size <> 0) then None
    else
      let local_experts := num_experts / ep_size in
      let start := ffn_ep_rank ctx * local_experts in
      let stop := start + local_experts in
      Some (fun weight_name =>
              match search_expert_digits weight_name with
              | None => true
              | Some digits => (Z.of_nat start <=? int_of_digits digits)%Z && (int_of_digits digits <? Z.of_nat stop)%Z
              end).

Definition newline : ascii := ascii_of_nat 10.

(** What [$] allows before the end of the text. *)
Definition drop_newline (s : pystr) : pystr :=
  match reverse s with c :: r => if decide (c = newline) then reverse r else s | [] => s end.

(** The group [(.+\.mlp)] followed by [tail]. *)
Definition mlp_prefix (s tail : pystr) : option pystr :=
  if endswith s (lit ".mlp" ++ tail) then
    let p := take (length s - length tail) s in
    if decide (length (lit ".mlp") < length p) then
      if existsb (fun c => bool_decide (c = newline)) (take (length p - length (lit ".mlp")) p) then None else Some p
    else None
  else None.

Definition EXPERT_SUFFIXES : list pystr :=
  [lit "weight"; lit "weight_scale_inv"; lit "weight_scale_2"; lit "weight_scale"; lit "input_scale"].

(** [EXPERT_RE.match(name)]: the last three fields between dots decide. *)
Definition expert_match (name : pystr) : option (pystr * Z * pystr * pystr) :=
  '(a, suffix) ← rpartition (drop_newline name);
  if decide (suffix ∈ EXPERT_SUFFIXES) then
    '(b, proj) ← rpartition a;
    if negb (bool_decide (proj = [])) && forallb is_word proj then
      '(c, digits) ← rpartition b;
      if negb (bool_decide (digits = [])) && forallb is_digit digits then
        p ← mlp_prefix c (lit ".experts");
        Some (p, int_of_digits digits, proj, suffix)
      else None
    else None
  else None.

(** [PACKED_EXPERT_RE.match(name)] and [PACKED_EXPERT_SCALE_RE.match(name)]: the prefix and
    whether the projection is [gate_up_proj]. *)
Definition packed_match (tail name : pystr) : option (pystr * bool) :=
  '(a, proj) ← rpartition (drop_newline name);
  if decide (proj = lit "gate_up_proj" ++ tail) then p ← mlp_prefix a (lit ".experts"); Some (p, true)
  else if decide (proj = lit "down_proj" ++ tail) then p ← mlp_prefix a (lit ".experts"); Some (p, false)
  else None.

(** * Parameters *)

Section loading.
Context {R : Type} `{Arith R}.
Notation mat := (list (list R)) (only parsing).

(** A tensor of one, two or three dimensions. *)
Inductive ptensor :=
  | P1 (v : list R)
  | P2 (m : mat)
  | P3 (ms : list mat).

Definition numel (t : ptensor) : nat :=
  match t with
  | P1 v => length v
  | P2 m => length m * cols m
  | P3 ms => length ms * match ms with [] => 0 | m :: _ => length m * cols m end
  end.

(** [t.shape\[dim\]] *)
Definition shape (t : ptensor) (dim : nat) : result nat :=
  match t, dim with
  | P1 v, 0 => Ok (length v)
  | P2 m, 0 => Ok (length m)
  | P2 m, 1 => Ok (cols m)
  | P3 ms, 0 => Ok (length ms)
  | P3 ms, 1 => Ok (match ms with [] => 0 | m :: _ => length m end)
  | P3 ms, 2 => Ok (match ms with [] => 0 | m :: _ => cols m end)
  | _, _ => Err IndexError
  end.

(** [view.copy_(src)] on a view of two dimensions, or of one. *)
Definition copy_mat_ (view : mat) (src : tensor R) : result mat :=
  t ← copy_ (Mat view) src; match t with Mat m => Ok m | Vec _ => Err RuntimeError end.

Definition copy_vec_ (view : list R) (src : tensor R) : result (list R) :=
  t ← copy_ (Vec view) src; match t with Vec v => Ok v | Mat _ => Err RuntimeError end.

(** [param.data\[local_idx, start:stop, :\].copy_(tensor)] *)
Definition copy_expert_rows (param : ptensor) (local_idx start stop : nat) (src : tensor R) : result ptensor :=
  match param with
  | P3 ms =>
      m ← of_option IndexError (ms !! local_idx);
      new ← copy_mat_ (lslice start (stop - start) m) src;
      Ok (P3 (<[local_idx := set_slice start new m]> ms))
  | _ => Err IndexError
  end.

(** [tensor.view(-1)], on a contiguous tensor. *)
Definition flat (t : tensor R) : tensor R := match t with Vec v => Vec v | Mat m => Vec (concat m) end.

(** [param.data\[local_idx, start:stop\].copy_(tensor.view(-1))] on a parameter of two dimensions. *)
Definition copy_expert_cells (m : mat) (local_idx start stop : nat) (src : tensor R) : result ptensor :=
  row ← of_option IndexError (m !! local_idx);
  new ← copy_vec_ (lslice start (stop - start) row) (flat src);
  Ok (P2 (<[local_idx := set_slice start new row]> m)).

(** [param.data\[local_idx\].copy_(tensor)] *)
Definition copy_expert (param : ptensor) (local_idx : nat) (src : tensor R) : result ptensor :=
  match param with
  | P3 ms => m ← of_option IndexError (ms !! local_idx); new ← copy_mat_ m src; Ok (P3 (<[local_idx := new]> ms))
  | P2 m => row ← of_option IndexError (m !! local_idx); new ← copy_vec_ row src; Ok (P2 (<[local_idx := new]> m))
  | P1 v => if decide (local_idx < length v) then Err RuntimeError else Err IndexError
  end.

(** [torch.zeros((n, rows * f, ...))] with the other dimensions of [t]. *)
Definition zeros_like_experts (n f : nat) (t : tensor R) : ptensor :=
  match t with
  | Vec v => P2 (replicate n (replicate (length v * f) r0))
  | Mat m => P3 (replicate n (replicate (length m * f) (replicate (cols m) r0)))
  end.

(** The tensor-parallel slice of [load_per_expert_weight]. *)
Definition tp_slice (ctx : ExpertCtx) (proj_name : pystr) (t : tensor R) : result (tensor R) :=
  let tp := ffn_tp_world_size ctx in
  let r := ffn_tp_rank ctx in
  if decide (1 < tp) then
    if decide (proj_name = lit "gate_proj" \/ proj_name = lit "up_proj") then
      d ← size t 0; let chunk := d / tp in Ok (tslice t 0 (r * chunk) chunk)
    else if decide (proj_name = lit "down_proj") then
      match t with
      | Vec _ => Ok t
      | Mat _ => d ← size t 1; let chunk := d / tp in Ok (tslice t 1 (r * chunk) chunk)
      end
    else Ok t
  else Ok t.

(** The first or second half of [gate_up_proj] or its scale. *)
Definition load_gate_up (is_scale is_gate : bool) (experts_per_rank local_idx : nat) (param : ptensor) (t : tensor R) : result ptensor :=
  let param := if is_scale && bool_decide (numel param = 0) then zeros_like_experts experts_per_rank 2 t else param in
  total_dim1 ← shape param 1;
  let half := total_dim1 / 2 in
  let '(start, stop) := if is_gate then (0, half) else (half, total_dim1) in
  match is_scale, param with
  | true, P2 m => copy_expert_cells m local_idx start stop t
  | _, _ => copy_expert_rows param local_idx start stop t
  end.

(** [down_proj] or its scale. *)
Definition load_down (is_scale : bool) (experts_per_rank local_idx : nat) (param : ptensor) (t : tensor R) : result ptensor :=
  let param := if is_scale && bool_decide (numel param = 0) then zeros_like_experts experts_per_rank 1 t else param in
  match is_scale, param with
  | true, P2 _ => copy_expert param local_idx (flat t)
  | _, _ => copy_expert param local_idx t
  end.

Definition routed_param (prefix suffix : pystr) : pystr := prefix ++ lit ".routed_experts." ++ suffix.

(** [load_per_expert_weight]: whether the weight was handled, and the parameters. *)
Definition load_per_expert_weight (ctx : ExpertCtx) (config : MoeConfig) (params : gmap pystr ptensor) (weight_name : pystr) (t : tensor R) :
    result (bool * gmap pystr ptensor) :=
  match expert_match weight_name with
  | None => Ok (false, params)
  | Some (prefix, expert_idx, proj_name, suffix) =>
      match num_or (cfg_n_routed_experts config) (cfg_num_experts config) with
      | None => Ok (false, params)
      | Some num_experts =>
          if decide (ffn_ep_world_size ctx = 0) then Err ZeroDivisionError
          else
            let experts_per_rank := num_experts / ffn_ep_world_size ctx in
            let expert_start := ffn_ep_rank ctx * experts_per_rank in
            let expert_end := expert_start + experts_per_rank in
            if decide (expert_idx < Z.of_nat expert_start \/ Z.of_nat expert_end <= expert_idx)%Z then Ok (true, params)
            else
              let local_idx := Z.to_nat expert_idx - expert_start in
              let is_scale := contains suffix (lit "scale_inv") in
              t ← tp_slice ctx proj_name t;
              if decide (proj_name = lit "gate_proj" \/ proj_name = lit "up_proj") then
                let param_name := routed_param prefix (if is_scale then lit "gate_up_scale_inv" else lit "gate_up_proj") in
                match params !! param_name with
                | None => Ok (true, params)
                | Some param => new ← load_gate_up is_scale (bool_decide (proj_name = lit "gate_proj")) experts_per_rank local_idx param t;
                                Ok (true, <[param_name := new]> params)
                end
              else if decide (proj_name = lit "down_proj") then
                let param_name := routed_param prefix (if is_scale then lit "down_scale_inv" else lit "down_proj") in
                match params !! param_name with
                | None => Ok (true, params)
                | Some param => new ← load_down is_scale experts_per_rank local_idx param t;
                                Ok (true, <[param_name := new]> params)
                end
              else Ok (false, params)
      end
  end.

(** The slices of a packed tensor for a rank: experts along the first dimension, and the
    intermediate dimension of the projection. *)
Definition ep_slice (ctx : ExpertCtx) (ms : list mat) : list mat :=
  let experts_per_rank := length ms / ffn_ep_world_size ctx in
  lslice (ffn_ep_rank ctx * experts_per_rank) experts_per_rank ms.

Definition packed_tp_slice (ctx : ExpertCtx) (gate_up : bool) (ms : list mat) : list mat :=
  let tp := ffn_tp_world_size ctx in
  let r := ffn_tp_rank ctx in
  if decide (1 < tp) then
    if gate_up then
      let full_inter := match ms with [] => 0 | m :: _ => length m / 2 end in
      let chunk := full_inter / tp in
      (fun m => lslice (r * chunk) chunk m ++ lslice (full_inter + r * chunk) chunk m) <$> ms
    else
      let chunk := match ms with [] => 0 | m :: _ => cols m / tp end in
      (fun m : mat => lslice (r * chunk) chunk <$> m) <$> ms
  else ms.

(** [dst.copy_(src)] on tensors of three dimensions. *)
Definition copy3_ (dst src : list mat) : result (list mat) :=
  src ← expand (length dst) src;
  mapM_r (fun '(d, s) => copy_mat_ d (Mat s)) (zip dst src).

Definition load_packed_expert_weight (ctx : ExpertCtx) (params : gmap pystr ptensor) (weight_name : pystr) (t : list mat) :
    result (bool * gmap pystr ptensor) :=
  match packed_match [] weight_name with
  | None => Ok (false, params)
  | Some (prefix, gate_up) =>
      let param_name := routed_param prefix (if gate_up then lit "gate_up_proj" else lit "down_proj") in
      match params !! param_name with
      | None => Ok (false, params)
      | Some param =>
          if decide (ffn_ep_world_size ctx = 0) then Err ZeroDivisionError
          else
            let t := packed_tp_slice ctx gate_up (ep_slice ctx t) in
            match param with
            | P3 ms => new ← copy3_ ms t; Ok (true, <[param_name := P3 new]> params)
            | _ => Err RuntimeError
            end
      end
  end.

(** A packed scale replaces the parameter. *)
Definition load_packed_expert_scale (ctx : ExpertCtx) (params : gmap pystr ptensor) (weight_name : pystr) (t : list mat) :
    result (bool * gmap pystr ptensor) :=
  match packed_match (lit "_scale_inv") weight_name with
  | None => Ok (false, params)
  | Some (prefix, gate_up) =>
      let param_name := routed_param prefix (if gate_up then lit "gate_up_scale_inv" else lit "down_scale_inv") in
      match params !! param_name with
      | None => Ok (false, params)
      | Some _ =>
          if decide (ffn_ep_world_size ctx = 0) then Err ZeroDivisionError
          else Ok (true, <[param_name := P3 (packed_tp_slice ctx gate_up (ep_slice ctx t))]> params)
      end
  end.

(** [_dequant_fp8_block]: the padded weight in blocks, each multiplied by its scale, cut back to
    its size.  [scale] is given by block. *)
Definition dequant_fp8_block (w : mat) (scale : mat) (bn bk : nat) : result mat :=
  let N := length w in
  let K := cols w in
  if decide (bn = 0 \/ bk = 0) then Err ZeroDivisionError
  else
    let N_blocks := (N + bn - 1) / bn in
    let K_blocks := (K + bk - 1) / bk in
    let padded := (fun row : list R => row ++ replicate (K_blocks * bk - K) r0) <$> w in
    let padded := padded ++ replicate (N_blocks * bn - N) (replicate (K_blocks * bk) r0) in
    scale ← mapM_r (expand K_blocks) scale;
    scale ← expand N_blocks scale;
    let dequant := imap (fun i (row : list R) => imap (fun j a => rmul a (default r0 (scale !! (i / bn) ≫= (.!! (j / bk))))) row) padded in
    Ok ((fun row => take K row) <$> take N dequant).
End loading.
Arguments ptensor : clear implicits.

(** * The loader of the Qwen3 mixture-of-experts model *)

Section moe.
Context {R : Type} `{Arith R}.
Notation LoadState := (@LoadState R) (only parsing).

(** [_PACKED_MODULES_MAPPING] of [qwen3_moe_loader.py] *)
Definition MOE_PACKED_MODULES_MAPPING : list (pystr * (pystr * shard_id)) :=
  [(lit "q_proj", (lit "qkv_proj", ShardStr "q"));
   (lit "k_proj", (lit "qkv_proj", ShardStr "k"));
   (lit "v_proj", (lit "qkv_proj", ShardStr "v"));
   (lit "gate_proj", (lit "gate_up_proj", ShardInt 0));
   (lit "up_proj", (lit "gate_up_proj", ShardInt 1));
   (lit "gate_scale_inv", (lit "gate_up_scale_inv", ShardInt 0));
   (lit "up_scale_inv", (lit "gate_up_scale_inv", ShardInt 1))].

(** A weight of a module, with any mapping. *)
Definition load_module_weight (mapping : list (pystr * (pystr * shard_id))) (st : LoadState) (name : pystr) (t : tensor R) : result LoadState :=
  match packed_parameter (ls_modules st) name mapping with
  | Some (param, shard) => loaded st <$> run_loader (ls_modules st) param t (Some shard)
  | None =>
      match get_parameter (ls_modules st) name with
      | None => Ok (mk_load (ls_modules st) (loaded_count st) (not_found_names st ++ [name]))
      | Some param => loaded st <$> run_loader (ls_modules st) param t None
      end
  end.

(** [_load_model_generic], for models without a loader of their own. *)
Definition load_model_generic (packed_modules_mapping : list (pystr * (pystr * shard_id))) (ms : gmap pystr (module R)) (num_hidden_layers : option Z)
    (found : list (pystr * list (pystr * tensor R))) : result LoadState :=
  files ← discover_weight_files found;
  foldM_r (fun st '(raw, t) =>
      let weight_name := strip_vlm_prefix raw in
      if should_skip_weight raw num_hidden_layers then Ok st
      else load_module_weight packed_modules_mapping st weight_name t)
    (mk_load ms 0 []) (concat (snd <$> files)).

(** The modules without experts, and the parameters of the experts. *)
Record MoeState := mk_state { ms_dense : LoadState; ms_experts : gmap pystr (ptensor R) }.

(** The first entry of the mapping that leads to a parameter: one of a module, or an expert's
    ([inr]). *)
Fixpoint moe_packed_parameter (st : MoeState) (name : pystr) (mapping : list (pystr * (pystr * shard_id))) :
    option ((pystr * module R * bool * shard_id) + unit) :=
  match mapping with
  | [] => None
  | (k, (v, shard)) :: mapping =>
      if contains name k then
        match get_parameter (ls_modules (ms_dense st)) (replace k v name) with
        | Some param => Some (inl (param, shard))
        | None => if decide (is_Some (ms_experts st !! replace k v name)) then Some (inr tt) else moe_packed_parameter st name mapping
        end
      else moe_packed_parameter st name mapping
  end.

(** [param.data.copy_(tensor)] *)
Definition copy_param (param : ptensor R) (t : tensor R) : result (ptensor R) :=
  match param with
  | P1 v => P1 <$> copy_vec_ v t
  | P2 m => P2 <$> copy_mat_ m t
  | P3 ms => P3 <$> mapM_r (fun m => copy_mat_ m t) ms
  end.

(** A weight that is not stored as an expert's.  The parameters of the experts have no
    [weight_loader] of their own. *)
Definition moe_load_dense (st : MoeState) (name : pystr) (t : tensor R) : result MoeState :=
  let dense := ms_dense st in
  let with_dense d := mk_state d (ms_experts st) in
  match moe_packed_parameter st name MOE_PACKED_MODULES_MAPPING with
  | Some (inl (param, shard)) => (with_dense ∘ loaded dense) <$> run_loader (ls_modules dense) param t (Some shard)
  | Some (inr _) => Err AttributeError
  | None =>
      match get_parameter (ls_modules dense) name with
      | Some param => (with_dense ∘ loaded dense) <$> run_loader (ls_modules dense) param t None
      | None =>
          match ms_experts st !! name with
          | Some param => new ← copy_param param t; Ok (mk_state (loaded dense (ls_modules dense)) (<[name := new]> (ms_experts st)))
          | None => Ok (with_dense (mk_load (ls_modules dense) (loaded_count dense) (not_found_names dense ++ [name])))
          end
      end
  end.

Definition is_expert_weight (name : pystr) : bool := contains name (lit "experts.") && bool_decide (is_Some (expert_match name)).

(** One iteration of the loop of [load_weights] of [qwen3_moe_loader.py]. *)
Definition moe_load_one (ctx : ExpertCtx) (config : MoeConfig) (m : Model R) (st : MoeState) (entry : pystr * tensor R) : result MoeState :=
  let '(name, t) := entry in
  let dense := moe_load_dense st name t in
  own ← (if decide (1 < Dist.pp_world_size (pc_dist (m_ctx m)))%Z
         then pp_weight_belongs_to_stage (pc_dist (m_ctx m)) name (Z.of_nat (start_layer m)) (Z.of_nat (end_layer m))
         else Ok true);
  if own : bool then
    if is_expert_weight name then
      '(handled, params) ← load_per_expert_weight ctx config (ms_experts st) name t;
      if handled : bool then Ok (mk_state (loaded (ms_dense st) (ls_modules (ms_dense st))) params) else dense
    else dense
  else (fun d => mk_state d (ms_experts st)) <$> load_foreign_weight m (ms_dense st) name t.

Definition moe_load_weights (ctx : ExpertCtx) (config : MoeConfig) (m : Model R) (params : gmap pystr (ptensor R)) (weights : list (pystr * tensor R)) :
    result MoeState :=
  foldM_r (moe_load_one ctx config m) (mk_state (mk_load (modules m) 0 []) params) weights.

(** [load_model] for a model with [load_weights]: the checkpoint's weights, those of the
    experts of other ranks left on disk. *)
Definition load_model (ctx : ExpertCtx) (config : MoeConfig) (num_hidden_layers : option Z) (m : Model R) (params : gmap pystr (ptensor R))
    (found : list (pystr * list (pystr * tensor R))) : result MoeState :=
  weights ← iterate_weights found num_hidden_layers (make_ep_weight_filter ctx config);
  moe_load_weights ctx config m params ((fun '(name, _, t) => (name, t)) <$> weights).
End moe.
Arguments MoeState : clear implicits.

(** * Names of expert weights *)

Inductive eproj := EGate | EUp | EDown.

#[export] Instance eproj_eq_dec : EqDecision eproj.
Proof. solve_decision. Defined.

Definition eproj_str (p : eproj) : pystr :=
  match p with EGate => lit "gate_proj" | EUp => lit "up_proj" | EDown => lit "down_proj" end.

(** The layer's prefix of its mlp. *)
Definition mlp_path (i : nat) : pystr := layer_prefix i ++ lit "mlp".

Definition expert_name (i e : nat) (p : eproj) : pystr :=
  mlp_path i ++ lit ".experts." ++ str_nat e ++ lit "." ++ eproj_str p ++ lit ".weight".

Section names.
Lemma rpartition_last (pre s : pystr) : "."%char ∉ s -> rpartition (pre ++ "."%char :: s) = Some (pre, s).
Proof.
  intros Hs. replace pre with (pre ++ []) at 2 by apply app_nil_r. apply (rpartition_skip pre _ [] s).
  assert (Hn : forall s, "."%char ∉ s -> rpartition s = None).
  { clear. induction s as [|c s IH]; intros Hc; [done|]. apply not_elem_of_cons in Hc as [Hc Hs]. cbn. rewrite IH by done. by rewrite decide_False. }
  cbn [rpartition]. by rewrite Hn.
Qed.

Lemma drop_newline_snoc s c : c <> newline -> drop_newline (s ++ [c]) = s ++ [c].
Proof. intros Hc. unfold drop_newline. rewrite reverse_snoc. by rewrite decide_False. Qed.

Lemma str_nat_chars c n : is_digit c = false -> c ∉ str_nat n.
Proof.
  intros Hc Hin. destruct (str_nat_spec n) as (Hd & _ & _). rewrite forallb_forall in Hd. specialize (Hd c). rewrite Hd in Hc; [done|]. by apply list_elem_of_In.
Qed.

Lemma mlp_prefix_path i : mlp_prefix (mlp_path i ++ lit ".experts") (lit ".experts") = Some (mlp_path i).
Proof.
  unfold mlp_prefix, endswith. rewrite bool_decide_eq_true_2.
  2: { unfold mlp_path. exists (lit "model.layers." ++ str_nat i). unfold layer_prefix. by rewrite <- !app_assoc. }
  rewrite length_app, Nat.add_sub, take_app_length. rewrite decide_True.
  2: { unfold mlp_path, layer_prefix. rewrite !length_app. cbn. lia. }
  replace (existsb _ _) with false; [done|]. symmetry. apply not_true_is_false. intros (c & Hin%list_elem_of_In & Hc%bool_decide_eq_true_1)%existsb_exists. subst.
  assert (Hin' : newline ∈ mlp_path i) by (rewrite <- (take_drop (length (mlp_path i) - length (lit ".mlp")) (mlp_path i)); apply elem_of_app; by left).
  unfold mlp_path in Hin'. apply elem_of_app in Hin' as [Hin'|Hin']; [|by vm_compute in Hin'; set_solver].
  by apply (layer_prefix_chars newline i) in Hin'; [| |vm_compute; set_solver].
Qed.

Lemma expert_match_name i e p : expert_match (expert_name i e p) = Some (mlp_path i, Z.of_nat e, eproj_str p, lit "weight").
Proof.
  unfold expert_match, expert_name. destruct (str_nat_spec e) as (Hd & Hne & Hv).
  replace (mlp_path i ++ lit ".experts." ++ str_nat e ++ lit "." ++ eproj_str p ++ lit ".weight")
    with ((mlp_path i ++ lit ".experts." ++ str_nat e ++ lit "." ++ eproj_str p) ++ "."%char :: lit "weight") by (rewrite <- !app_assoc; done).
  replace (drop_newline _) with ((mlp_path i ++ lit ".experts." ++ str_nat e ++ lit "." ++ eproj_str p) ++ "."%char :: lit "weight").
  2: { change ("."%char :: lit "weight") with (lit ".weigh" ++ ["t"%char]). rewrite app_assoc. by rewrite drop_newline_snoc. }
  rewrite rpartition_last by (vm_compute; set_solver). cbn [mbind option_bind]. rewrite decide_True by (vm_compute; set_solver).
  change (lit "." ++ eproj_str p) with ("."%char :: eproj_str p). rewrite !app_assoc.
  rewrite rpartition_last by (destruct p; vm_compute; set_solver). cbn [mbind option_bind].
  replace (negb (bool_decide (eproj_str p = [])) && forallb is_word (eproj_str p)) with true by (by destruct p).
  change (lit ".experts.") with (lit ".experts" ++ ["."%char]). rewrite app_assoc, <- (app_assoc _ ["."%char]). cbn [app].
  rewrite rpartition_last by (by apply str_nat_chars). cbn [mbind option_bind].
  rewrite bool_decide_eq_false_2 by done. rewrite Hd. cbn [negb andb]. by rewrite mlp_prefix_path, Hv.
Qed.

Lemma contains_experts i e p : contains (expert_name i e p) (lit "experts.") = true.
Proof.
  unfold contains. apply bool_decide_eq_true_2. destruct (find (lit "experts.") (expert_name i e p)) eqn:Hf; [by eexists|].
  exfalso. rewrite find_None in Hf. apply (Hf (length (mlp_path i ++ lit "."))).
  assert (Heq : expert_name i e p = (mlp_path i ++ lit ".") ++ lit "experts." ++ str_nat e ++ lit "." ++ eproj_str p ++ lit ".weight") by (unfold expert_name; by rewrite <- app_assoc).
  rewrite Heq. split; [rewrite (length_app (mlp_path i ++ lit ".")); lia|]. rewrite drop_app_length. by eexists.
Qed.

Lemma search_expert_cons c s : ~ lit ".mlp.experts." `prefix_of` c :: s -> search_expert_digits (c :: s) = search_expert_digits s.
Proof. intros Hn. cbn [search_expert_digits]. unfold expert_digits_here, startswith. by rewrite bool_decide_eq_false_2. Qed.

Lemma search_expert_skip (pre s : pystr) : "."%char ∉ pre -> search_expert_digits (pre ++ s) = search_expert_digits s.
Proof.
  induction pre as [|c pre IH]; intros Hc; [done|]. apply not_elem_of_cons in Hc as [Hc Hpre]. cbn [app].
  rewrite search_expert_cons; [by apply IH|]. intros [r Hr]. apply Hc. cbn in Hr. injection Hr as Hr _. done.
Qed.

Lemma search_expert_digits_name i e p : search_expert_digits (expert_name i e p) = Some (str_nat e).
Proof.
  destruct (str_nat_spec e) as (Hd & Hne & _). unfold expert_name, mlp_path, layer_prefix. rewrite <- !app_assoc.
  set (rest := lit "." ++ eproj_str p ++ lit ".weight").
  assert (Hhere : search_expert_digits (lit ".mlp.experts." ++ str_nat e ++ rest) = Some (str_nat e)).
  { assert (Hh : expert_digits_here (lit ".mlp.experts." ++ str_nat e ++ rest) = Some (str_nat e)).
    { unfold expert_digits_here, startswith. rewrite bool_decide_eq_true_2 by (by eexists). rewrite drop_app_length.
      unfold rest. cbn [lit String.list_ascii_of_string app]. rewrite span_digits_app by done. rewrite decide_False by done.
      rewrite drop_app_length, bool_decide_eq_true_2; [done|]. by eexists. }
    destruct (lit ".mlp.experts." ++ str_nat e ++ rest) as [|c l] eqn:El; [done|]. cbn [search_expert_digits]. by rewrite Hh. }
  change (lit "model.layers.") with (lit "model" ++ lit ".layers" ++ ["."%char]). rewrite <- !app_assoc. rewrite search_expert_skip by (vm_compute; set_solver).
  change (lit ".layers" ++ ["."%char] ++ str_nat i ++ lit "." ++ lit "mlp" ++ lit ".experts." ++ str_nat e ++ rest)
    with ("."%char :: lit "layers" ++ "."%char :: str_nat i ++ lit ".mlp.experts." ++ str_nat e ++ rest).
  rewrite search_expert_cons by (intros [l Hl]; discriminate Hl). rewrite search_expert_skip by (vm_compute; set_solver).
  rewrite search_expert_cons.
  - rewrite search_expert_skip by (by apply str_nat_chars). exact Hhere.
  - intros [l Hl]. destruct (str_nat_spec i) as (Hdi & Hni & _). destruct (str_nat i) as [|c l'] eqn:Es; [done|]. cbn in Hl. injection Hl as Hc _.
    subst. cbn in Hdi. done.
Qed.

Lemma expert_layer_digits i e p : search_layer_digits (expert_name i e p) = Some (str_nat i).
Proof. unfold expert_name, mlp_path. rewrite <- app_assoc. apply search_layer_digits_layer. Qed.

Lemma expert_name_inj i e p i' e' p' : expert_name i e p = expert_name i' e' p' -> i = i' /\ e = e' /\ p = p'.
Proof.
  intros Heq. pose proof (f_equal expert_match Heq) as Hm. rewrite !expert_match_name in Hm. apply (inj Some) in Hm. apply pair_eq in Hm as [Hm _]. apply pair_eq in Hm as [Hm Hp]. apply pair_eq in Hm as [Hi He]. split_and!; [|lia|].
  - unfold mlp_path in Hi. by apply layer_prefix_inj in Hi as [-> _].
  - by destruct p, p'.
Qed.

Lemma routed_param_inj i j a b : routed_param (mlp_path i) a = routed_param (mlp_path j) b -> i = j /\ a = b.
Proof.
  unfold routed_param, mlp_path. rewrite <- !app_assoc. intros [-> Heq]%layer_prefix_inj. split; [done|]. by do 2 apply app_inv_head in Heq.
Qed.

(** A text without digits is found on one side of a number. *)
Lemma contains_split (a d b k : pystr) : d <> [] -> k <> [] -> (forall x, x ∈ d -> x ∉ k) ->
  contains (a ++ d ++ b) k = contains a k || contains b k.
Proof.
  intros Hd Hk Hdk. assert (Hiff : forall s : pystr, contains s k = true <-> exists i, occurs_at k s i).
  { intros s. unfold contains. rewrite bool_decide_eq_true. split.
    - intros [i Hi]. exists i. by apply find_Some in Hi as [? _].
    - intros [i Hi]. destruct (find k s) eqn:Hf; [by eexists|]. rewrite find_None in Hf. by destruct (Hf i). }
  apply eq_bool_prop_intro. rewrite !Is_true_true, orb_true_iff, !Hiff. split.
  - intros [i Hi]. destruct (decide (i + length k <= length a)) as [Ha|Ha].
    { left. exists i. by apply (occurs_at_app_inv k a (d ++ b)). }
    destruct (decide (length (a ++ d) <= i)) as [Hb|Hb].
    { right. exists (i - length (a ++ d)). rewrite app_assoc in Hi. replace i with (length (a ++ d) + (i - length (a ++ d))) in Hi by lia.
      by apply occurs_at_shift in Hi. }
    exfalso. rewrite length_app in Hb. destruct Hi as [Hil [rest Hrest]]. set (j := i `max` length a).
    assert (Hj : length a <= j < length a + length d /\ i <= j < i + length k) by (unfold j; destruct d, k; cbn in *; try done; lia).
    destruct (lookup_lt_is_Some_2 d (j - length a)) as [x Hx]; [lia|]. apply (Hdk x); [by eapply list_elem_of_lookup_2|].
    apply (list_elem_of_lookup_2 _ (j - i)). assert (Hlk : (k ++ rest) !! (j - i) = Some x).
    { rewrite <- Hrest, lookup_drop. replace (i + (j - i)) with j by lia. rewrite lookup_app_r by lia. by rewrite lookup_app_l by lia. }
    by rewrite lookup_app_l in Hlk by lia.
  - intros [[i Hi]|[i Hi]]; [exists i; by apply occurs_at_app|]. exists (length (a ++ d) + i). rewrite app_assoc. by apply occurs_at_shift.
Qed.

Lemma contains_expert_name i e p k : k <> [] -> forallb (fun x => negb (is_digit x)) k = true ->
  contains (expert_name i e p) k = contains (lit "model.layers.") k || (contains (lit ".mlp.experts.") k || contains (lit "." ++ eproj_str p ++ lit ".weight") k).
Proof.
  intros Hk Hnd. unfold expert_name, mlp_path, layer_prefix. rewrite <- !app_assoc.
  assert (Hdig : forall n x, x ∈ str_nat n -> x ∉ k).
  { intros n x Hx Hxk. rewrite forallb_forall in Hnd. specialize (Hnd x). destruct (is_digit x) eqn:Hdx; [|by apply (str_nat_chars x n)].
    by discriminate Hnd; apply list_elem_of_In. }
  rewrite contains_split; [|apply str_nat_spec|done|apply Hdig]. f_equal.
  change (lit "." ++ lit "mlp" ++ lit ".experts." ++ str_nat e ++ lit "." ++ eproj_str p ++ lit ".weight")
    with (lit ".mlp.experts." ++ str_nat e ++ (lit "." ++ eproj_str p ++ lit ".weight")).
  by rewrite contains_split; [|apply str_nat_spec|done|apply Hdig].
Qed.

Lemma search_layer_embed_contains s : search_layer_embed s = true -> contains s (lit "embed_tokens") = true.
Proof.
  intros Hs. unfold contains. apply bool_decide_eq_true_2. destruct (find (lit "embed_tokens") s) eqn:Hf; [by eexists|]. exfalso. rewrite find_None in Hf.
  induction s as [|x s IH]; [done|]. cbn [search_layer_embed] in Hs. apply orb_true_iff in Hs as [Hs|Hs].
  - unfold layer_embed_here in Hs. apply andb_true_iff in Hs as [Hl Hs]. apply andb_true_iff in Hs as [_ Hs].
    apply bool_decide_eq_true_1 in Hl as [s1 Hs1]. rewrite Hs1, drop_app_length in Hs. apply bool_decide_eq_true_1 in Hs as [s2 Hs2].
    apply (Hf (length (lit "layers.") + length (span_digits s1) + 1)). rewrite Hs1. split.
    + rewrite length_app. pose proof (f_equal length Hs2) as Hl2. rewrite length_drop, length_app in Hl2. cbn in Hl2 |- *. lia.
    + rewrite <- Nat.add_assoc, <- drop_drop, drop_app_length, <- drop_drop, Hs2. by exists (lit "." ++ s2).
  - apply IH; [done|]. intros i Hi. apply (Hf (S i)). by apply occurs_at_S.
Qed.

(** The weights of experts belong to the base model. *)
Lemma expert_not_skipped i e p n : i < n -> should_skip_weight (expert_name i e p) (Some (Z.of_nat n)) = false.
Proof.
  intros Hi. unfold should_skip_weight.
  assert (Hany : forall pats, Forall (fun k => k <> [] /\ forallb (fun x => negb (is_digit x)) k = true /\
      contains (lit "model.layers.") k || (contains (lit ".mlp.experts.") k || contains (lit "." ++ eproj_str p ++ lit ".weight") k) = false) pats ->
    contains_any pats (expert_name i e p) = false).
  { intros pats Hp. unfold contains_any. induction Hp as [|k pats (Hk & Hnd & Hc) _ IH]; [done|]. cbn [existsb]. by rewrite contains_expert_name, Hc, IH. }
  rewrite !Hany by (unfold MTP_PATTERNS, SKIP_PATTERNS; repeat (constructor; [destruct p; by vm_compute|]); constructor).
  destruct (search_layer_embed (expert_name i e p)) eqn:Hse.
  - apply search_layer_embed_contains in Hse. rewrite contains_expert_name in Hse by done. by destruct p; vm_compute in Hse.
  - unfold beyond_layers. rewrite expert_layer_digits. destruct (str_nat_spec i) as (_ & _ & ->). lia.
Qed.

Lemma strip_vlm_expert i e p : strip_vlm_prefix (expert_name i e p) = expert_name i e p.
Proof.
  unfold strip_vlm_prefix, startswith. rewrite bool_decide_eq_false_2; [done|]. unfold expert_name, mlp_path, layer_prefix. rewrite <- !app_assoc.
  intros [l Hl]. change (lit "model.layers.") with (lit "model.la" ++ lit "yers.") in Hl. change (lit "model.language_model.") with (lit "model.la" ++ lit "nguage_model.") in Hl.
  rewrite <- !app_assoc in Hl. apply app_inv_head in Hl. by injection Hl.
Qed.
End names.

(** * Loading weights of modules *)

Section modules.
Context {R : Type} `{Arith R}.

(** The name of a weight leads to the parameter of an expert. *)
Definition names_expert_param (params : gmap pystr (ptensor R)) (name : pystr) : bool :=
  existsb (fun n => bool_decide (is_Some (params !! n)))
    (name :: ((fun '(k, (v, _)) => replace k v name) <$> filter (fun e => contains name e.1 = true) MOE_PACKED_MODULES_MAPPING)).

Lemma names_expert_param_mono params params' name : (forall k, params !! k = None -> params' !! k = None) ->
  names_expert_param params name = false -> names_expert_param params' name = false.
Proof.
  intros Hmono. unfold names_expert_param. set (l := name :: (_ <$> _)). clearbody l. induction l as [|k l IH]; [done|]. cbn [existsb].
  rewrite !orb_false_iff, !bool_decide_eq_false, <- !eq_None_not_Some. intros [Hk Hl]. auto.
Qed.

Lemma moe_packed_module (st : MoeState R) name mapping :
  existsb (fun n => bool_decide (is_Some (ms_experts st !! n))) ((fun '(k, (v, _)) => replace k v name) <$> filter (fun e : pystr * (pystr * shard_id) => contains name e.1 = true) mapping) = false ->
  moe_packed_parameter st name mapping = inl <$> packed_parameter (ls_modules (ms_dense st)) name mapping.
Proof.
  induction mapping as [|[k [v sh]] mapping IH]; [done|]. cbn [moe_packed_parameter packed_parameter]. rewrite filter_cons. cbn [fst].
  destruct (contains name k); [|rewrite decide_False by done; exact IH]. rewrite decide_True by done. cbn [fmap list_fmap existsb].
  rewrite orb_false_iff, bool_decide_eq_false. intros [Hk Hm]. destruct (get_parameter _ _); [done|]. rewrite decide_False by done. by apply IH.
Qed.

Lemma moe_load_module (st : MoeState R) name t : names_expert_param (ms_experts st) name = false ->
  moe_load_dense st name t = (fun d => mk_state d (ms_experts st)) <$> load_module_weight MOE_PACKED_MODULES_MAPPING (ms_dense st) name t.
Proof.
  unfold names_expert_param, moe_load_dense, load_module_weight. cbn [existsb]. rewrite orb_false_iff, bool_decide_eq_false, <- eq_None_not_Some. intros [Hn Hm].
  rewrite moe_packed_module by done. destruct (packed_parameter _ _ _) as [[param shard]|]; cbn [fmap option_fmap option_map].
  - by destruct (run_loader _ _ _ _).
  - rewrite Hn. destruct (get_parameter _ _) as [param|]; [|done]. by destruct (run_loader _ _ _ _).
Qed.

(** The generic loader on a model of one stage does what the model's own loader does. *)
Lemma generic_loader_agrees (m : Model R) num_hidden_layers found : ~ (1 < Dist.pp_world_size (pc_dist (m_ctx m)))%Z ->
  modules <$> (weights ← iterate_weights found num_hidden_layers None; load_weights m ((fun '(name, _, t) => (name, t)) <$> weights))
  = ls_modules <$> load_model_generic PACKED_MODULES_MAPPING (modules m) num_hidden_layers found.
Proof.
  intros Hpp. unfold iterate_weights, load_model_generic. destruct (discover_weight_files found) as [files|e]; [|done]. cbn [mbind result_bind].
  unfold load_weights. generalize (mk_load (modules m) 0 []) as st. induction (concat (snd <$> files)) as [|[raw t] l IH]; intros st; [done|].
  cbn [omap list_omap foldM_r]. destruct (should_skip_weight raw num_hidden_layers); [apply IH|]. cbn [fmap list_fmap foldM_r].
  unfold load_one at 1. rewrite decide_False by done.
  change (load_own_weight st (strip_vlm_prefix raw) t) with (load_module_weight PACKED_MODULES_MAPPING st (strip_vlm_prefix raw) t).
  destruct (load_module_weight _ _ _ _) as [st'|e]; [apply IH|done].
Qed.
End modules.

(** * Loading experts *)

Section experts.
Context {R : Type} `{Arith R}.
Notation mat := (list (list R)) (only parsing).
Context (ctx : ExpertCtx) (config : MoeConfig) (h n s : nat) (ck : nat -> list (expert_weights R)).

Let ep := ffn_ep_world_size ctx.
Let r := ffn_ep_rank ctx.
Let tp := ffn_tp_world_size ctx.
Let c := ffn_tp_rank ctx.

Context (Hh : 0 < h) (Hs : 0 < s) (Hr : r < ep) (Hc : c < tp).
Context (Hconfig : num_or (cfg_n_routed_experts config) (cfg_num_experts config) = Some (ep * n)).
Context (Hck : forall i, length (ck i) = ep * n /\ Forall (expert_shape (tp * s) h) (ck i)).

(** The tensor of an expert's weight in the checkpoint. *)
Definition ck_weight (i e : nat) (p : eproj) : mat :=
  match ck i !! e with
  | Some w => match p with EGate => w_gate w | EUp => w_up w | EDown => w_down w end
  | None => []
  end.

(** The shard of this rank. *)
Definition ck_shard (i e : nat) (p : eproj) : mat :=
  match p with EDown => lslice (c * s) s <$> ck_weight i e p | _ => lslice (c * s) s (ck_weight i e p) end.

Lemma ck_weight_shape i e p : e < ep * n ->
  match p with EDown => is_mat h (tp * s) (ck_weight i e p) | _ => is_mat (tp * s) h (ck_weight i e p) end.
Proof.
  intros He. destruct (Hck i) as [Hl Hf]. unfold ck_weight. destruct (lookup_lt_is_Some_2 (ck i) e) as [w Hw]; [lia|]. rewrite Hw.
  destruct (proj1 (Forall_lookup _ _) Hf e w Hw) as (Hg & Hu & Hd). by destruct p.
Qed.

Lemma ck_shard_shape i e p : e < ep * n ->
  match p with EDown => is_mat h s (ck_shard i e p) | _ => is_mat s h (ck_shard i e p) end.
Proof.
  intros He. pose proof (ck_weight_shape i e p He) as Hw. pose proof (shard_bound c tp s Hc) as Hb. unfold ck_shard.
  destruct p; [by eapply is_mat_slice|by eapply is_mat_slice|by eapply is_mat_cols_slice].
Qed.

Lemma tp_slice_exact i e p : e < ep * n -> tp_slice ctx (eproj_str p) (Mat (ck_weight i e p)) = Ok (Mat (ck_shard i e p)).
Proof.
  intros He. pose proof (ck_weight_shape i e p He) as Hw. unfold tp_slice. fold tp c.
  destruct (decide (1 < tp)) as [Htp|Htp].
  - assert (Hdiv : tp * s / tp = s) by (rewrite Nat.mul_comm; apply Nat.div_mul; lia). destruct p.
    + rewrite decide_True by (by left). cbn [size mbind result_bind tslice]. by rewrite (proj1 Hw), Hdiv.
    + rewrite decide_True by (by right). cbn [size mbind result_bind tslice]. by rewrite (proj1 Hw), Hdiv.
    + rewrite decide_False by (intros [Hp|Hp]; discriminate Hp). rewrite decide_True by done. cbn [size mbind result_bind tslice].
      by rewrite (is_mat_cols h (tp * s)), Hdiv.
  - assert (Htp1 : tp = 1) by lia. rewrite Htp1, Nat.mul_1_l in Hw. f_equal. f_equal. unfold ck_shard. replace c with 0 by lia. cbn [Nat.mul].
    destruct p; [by rewrite <- (proj1 Hw), slice_all|by rewrite <- (proj1 Hw), slice_all|].
    rewrite <- (list_fmap_id (ck_weight i e EDown)) at 1. apply list_fmap_ext. intros j row Hrow.
    pose proof (proj1 (Forall_lookup _ _) (proj2 Hw) j row Hrow) as Hl. cbn beta in Hl. by rewrite <- Hl, slice_all.
Qed.

Lemma copy_mat_exact a b (view w : mat) : is_mat a b view -> is_mat a b w -> copy_mat_ view (Mat w) = Ok w.
Proof. intros Hv Hw. unfold copy_mat_. by rewrite (copy_mat a b). Qed.

(** Writing one half of the stacked projections of a local expert. *)
Lemma load_gate_up_exact (is_gate : bool) (ms : list mat) e m w : ms !! e = Some m -> Forall (is_mat (s * 2) h) ms -> is_mat s h w ->
  load_gate_up false is_gate n e (P3 ms) (Mat w) = Ok (P3 (<[e := set_slice (if is_gate then 0 else s) w m]> ms)).
Proof.
  intros He Hms Hw. unfold load_gate_up. cbn [andb]. destruct ms as [|m0 ms']; [done|]. cbn [shape mbind result_bind].
  pose proof (proj1 (Forall_inv Hms)) as Hm0. rewrite Hm0. rewrite Nat.div_mul by lia.
  pose proof (proj1 (Forall_lookup _ _) Hms e m He) as Hm. destruct is_gate.
  - unfold copy_expert_rows. rewrite He. cbn [of_option mbind result_bind]. rewrite Nat.sub_0_r.
    rewrite (copy_mat_exact s h); [done| |done]. apply (is_mat_slice _ _ _ _ _ Hm). lia.
  - unfold copy_expert_rows. rewrite He. cbn [of_option mbind result_bind]. replace (s * 2 - s) with s by lia.
    rewrite (copy_mat_exact s h); [done| |done]. apply (is_mat_slice _ _ _ _ _ Hm). lia.
Qed.

Lemma load_down_exact (ms : list mat) e m w : ms !! e = Some m -> Forall (is_mat h s) ms -> is_mat h s w ->
  load_down false n e (P3 ms) (Mat w) = Ok (P3 (<[e := w]> ms)).
Proof.
  intros He Hms Hw. unfold load_down. cbn [andb]. unfold copy_expert. rewrite He. cbn [of_option mbind result_bind].
  by rewrite (copy_mat_exact h s); [|apply (proj1 (Forall_lookup _ _) Hms e m He)|].
Qed.

Definition gate_up_name (i : nat) : pystr := routed_param (mlp_path i) (lit "gate_up_proj").
Definition down_name (i : nat) : pystr := routed_param (mlp_path i) (lit "down_proj").

(** What a layer's parameters hold once the weights in [seen] were loaded. *)
Record layer_inv (seen : nat -> nat -> eproj -> Prop) (params : gmap pystr (ptensor R)) (i : nat) : Prop := {
  li_params : exists gu dn, params !! gate_up_name i = Some (P3 gu) /\ params !! down_name i = Some (P3 dn) /\
    length gu = n /\ length dn = n /\ Forall (is_mat (s * 2) h) gu /\ Forall (is_mat h s) dn /\
    forall e m d, gu !! e = Some m -> dn !! e = Some d ->
      (seen i (r * n + e) EGate -> lslice 0 s m = ck_shard i (r * n + e) EGate) /\
      (seen i (r * n + e) EUp -> lslice s s m = ck_shard i (r * n + e) EUp) /\
      (seen i (r * n + e) EDown -> d = ck_shard i (r * n + e) EDown)
}.

Definition also (seen : nat -> nat -> eproj -> Prop) (i e : nat) (p : eproj) : nat -> nat -> eproj -> Prop :=
  fun i' e' p' => seen i' e' p' \/ (i' = i /\ e' = e /\ p' = p).

(** A weight of an expert of another rank. *)
Lemma load_other_expert params i e p t : ~ (r * n <= e < r * n + n) -> load_per_expert_weight ctx config params (expert_name i e p) t = Ok (true, params).
Proof.
  intros He. unfold load_per_expert_weight. rewrite expert_match_name, Hconfig. fold ep r. rewrite decide_False by lia.
  rewrite (Nat.mul_comm ep), Nat.div_mul by lia. by rewrite decide_True by lia.
Qed.

Lemma gate_down_names i j : gate_up_name i <> down_name j.
Proof. unfold gate_up_name, down_name. intros [_ Heq]%routed_param_inj. discriminate Heq. Qed.

(** The halves of stacked projections after a write. *)
Lemma written_halves (is_gate : bool) (m w : mat) : is_mat (s * 2) h m -> is_mat s h w ->
  let m' := set_slice (if is_gate then 0 else s) w m in
  lslice 0 s m' = (if is_gate then w else lslice 0 s m) /\ lslice s s m' = (if is_gate then lslice s s m else w).
Proof.
  intros Hm Hw m'. unfold m'. destruct is_gate.
  - pose proof (slice_set_slice 0 w m ltac:(lia)) as Hs1. rewrite (proj1 Hw) in Hs1. split; [done|].
    apply slice_set_slice_disjoint; rewrite (proj1 Hw), ?(proj1 Hm); lia.
  - pose proof (slice_set_slice s w m ltac:(rewrite (proj1 Hm); lia)) as Hs1. rewrite (proj1 Hw) in Hs1. split; [|done].
    apply slice_set_slice_disjoint; rewrite (proj1 Hw), ?(proj1 Hm); lia.
Qed.

Lemma load_half (seen : nat -> nat -> eproj -> Prop) (params : gmap pystr (ptensor R)) (i e : nat) (gu : list mat) (is_gate : bool) : let p := if is_gate then EGate else EUp in
  e < n -> layer_inv seen params i -> params !! gate_up_name i = Some (P3 gu) -> is_mat s h (ck_shard i (r * n + e) p) ->
  exists params' : gmap pystr (ptensor R), (load_gate_up false is_gate n e (P3 gu) (Mat (ck_shard i (r * n + e) p))
      ≫= (fun new : ptensor R => Ok (true, <[gate_up_name i := new]> params))) = Ok (true, params')
    /\ layer_inv (also seen i (r * n + e) p) params' i /\ forall k, k <> gate_up_name i -> params' !! k = params !! k.
Proof.
  intros p He [(gu' & dn & Hgu' & Hdn & Hlg & Hld & Hfg & Hfd & Hseen)] Hgu Hw. rewrite Hgu in Hgu'. injection Hgu' as <-.
  destruct (lookup_lt_is_Some_2 gu e) as [m Hm]; [lia|]. pose proof (proj1 (Forall_lookup _ _) Hfg e m Hm) as Hmm.
  rewrite (load_gate_up_exact is_gate gu e m _ Hm Hfg Hw). eexists. split; [done|].
  split; [|intros k Hk; by rewrite lookup_insert_ne]. destruct (written_halves is_gate m _ Hmm Hw) as [Hlo Hhi]. set (m' := set_slice _ _ m) in *.
  split. exists (<[e := m']> gu), dn. rewrite lookup_insert_eq, lookup_insert_ne by apply gate_down_names. rewrite length_insert. split_and!; try done.
  { apply Forall_insert; [done|]. unfold m'. apply is_mat_set_slice with s; [done|done|]. destruct is_gate; lia. }
  intros e2 m2 d2 Hm2 Hd2. unfold also. destruct (decide (e2 = e)) as [->|Hne].
  - rewrite list_lookup_insert_eq in Hm2 by lia. injection Hm2 as <-. destruct (Hseen e m d2 Hm Hd2) as (S1 & S2 & S3). rewrite Hlo, Hhi.
    unfold p. destruct is_gate; split_and!; intros [Hs'|(_ & _ & Hp')]; first [discriminate Hp'|done|auto].
  - rewrite list_lookup_insert_ne in Hm2 by done. destruct (Hseen e2 m2 d2 Hm2 Hd2) as (S1 & S2 & S3).
    split_and!; intros [Hs'|(_ & He2 & _)]; auto; lia.
Qed.

(** A weight of an expert of this rank, in a layer that has experts. *)
Lemma load_local_expert seen params i e p : e < n -> layer_inv seen params i ->
  exists params', load_per_expert_weight ctx config params (expert_name i (r * n + e) p) (Mat (ck_weight i (r * n + e) p)) = Ok (true, params')
    /\ layer_inv (also seen i (r * n + e) p) params' i
    /\ forall k, k <> gate_up_name i -> k <> down_name i -> params' !! k = params !! k.
Proof.
  intros He [(gu & dn & Hgu & Hdn & Hlg & Hld & Hfg & Hfd & Hseen)]. pose proof (shard_bound r ep n Hr) as Hb.
  assert (He' : r * n + e < ep * n) by lia. pose proof (ck_shard_shape i (r * n + e) p He') as Hshape.
  unfold load_per_expert_weight. rewrite expert_match_name, Hconfig. fold ep r. rewrite decide_False by lia.
  rewrite (Nat.mul_comm ep), Nat.div_mul by lia. rewrite decide_False by lia. replace (Z.to_nat (Z.of_nat (r * n + e)) - r * n) with e by lia.
  replace (contains (lit "weight") (lit "scale_inv")) with false by reflexivity. rewrite tp_slice_exact by done. cbn [mbind result_bind].
  destruct (lookup_lt_is_Some_2 gu e) as [m Hm]; [lia|]. destruct (lookup_lt_is_Some_2 dn e) as [d Hd]; [lia|].
  assert (Hinv : layer_inv seen params i) by (split; exists gu, dn; split_and!; done).
  destruct p.
  - rewrite decide_True by (by left). fold (gate_up_name i). rewrite Hgu. rewrite bool_decide_eq_true_2 by done.
    destruct (load_half seen params i e gu true He Hinv Hgu Hshape) as (params' & Heq & Hinv' & Hother). exists params'. split; [exact Heq|]. split; [done|by intros k Hk _; apply Hother].
  - rewrite decide_True by (by right). fold (gate_up_name i). rewrite Hgu. rewrite bool_decide_eq_false_2 by (intros Hp; discriminate Hp).
    destruct (load_half seen params i e gu false He Hinv Hgu Hshape) as (params' & Heq & Hinv' & Hother). exists params'. split; [exact Heq|]. split; [done|by intros k Hk _; apply Hother].
  - rewrite decide_False by (intros [Hp|Hp]; discriminate Hp). rewrite decide_True by done. fold (down_name i). rewrite Hdn.
    rewrite (load_down_exact dn e d _ Hd Hfd Hshape). eexists. split; [done|]. split; [|intros k _ Hk; by rewrite lookup_insert_ne].
    split. exists gu, (<[e := ck_shard i (r * n + e) EDown]> dn). rewrite lookup_insert_eq, lookup_insert_ne by (intros Hk; by apply (gate_down_names i i)).
    rewrite length_insert. split_and!; try done; [by apply Forall_insert|].
    intros e2 m2 d2 Hm2 Hd2. unfold also. destruct (decide (e2 = e)) as [->|Hne].
    + rewrite list_lookup_insert_eq in Hd2 by lia. injection Hd2 as <-. destruct (Hseen e m2 d Hm2 Hd) as (S1 & S2 & S3).
      split_and!; intros [Hs'|(_ & _ & Hp')]; first [discriminate Hp'|done|auto].
    + rewrite list_lookup_insert_ne in Hd2 by done. destruct (Hseen e2 m2 d2 Hm2 Hd2) as (S1 & S2 & S3).
      split_and!; intros [Hs'|(_ & He2 & _)]; auto; lia.
Qed.

(** ** Whole checkpoints *)

Context (m : Model R) (L : nat).

(** The layers of this stage. *)
Definition in_stage (i : nat) : Prop :=
  (1 < Dist.pp_world_size (pc_dist (m_ctx m)))%Z -> start_layer m <= i < end_layer m.

Lemma is_expert_weight_name i e p : is_expert_weight (expert_name i e p) = true.
Proof. unfold is_expert_weight. rewrite contains_experts, expert_match_name. done. Qed.

Lemma expert_name_no_embed i e p : contains (expert_name i e p) (lit "embed_tokens") = false.
Proof.
  rewrite contains_expert_name by done. by destruct p.
Qed.

(** A state after the weight of an expert. *)
Lemma load_expert_step seen st i e p : e < ep * n -> (in_stage i -> layer_inv seen (ms_experts st) i) ->
  exists st', moe_load_one ctx config m st (expert_name i e p, Mat (ck_weight i e p)) = Ok st'
    /\ ls_modules (ms_dense st') = ls_modules (ms_dense st)
    /\ (in_stage i -> layer_inv (also seen i e p) (ms_experts st') i)
    /\ (forall k, k <> gate_up_name i -> k <> down_name i -> ms_experts st' !! k = ms_experts st !! k)
    /\ forall k, ms_experts st !! k = None -> ms_experts st' !! k = None.
Proof.
  intros He Hinv. unfold moe_load_one. rewrite is_expert_weight_name.
  assert (Hown : forall (own : bool), (own = true -> in_stage i) -> (own = false -> ~ in_stage i) -> exists st',
    (if own then '(handled, params) ← load_per_expert_weight ctx config (ms_experts st) (expert_name i e p) (Mat (ck_weight i e p));
       if handled : bool then Ok (mk_state (loaded (ms_dense st) (ls_modules (ms_dense st))) params)
       else moe_load_dense st (expert_name i e p) (Mat (ck_weight i e p))
     else (fun d => mk_state d (ms_experts st)) <$> load_foreign_weight m (ms_dense st) (expert_name i e p) (Mat (ck_weight i e p))) = Ok st'
    /\ ls_modules (ms_dense st') = ls_modules (ms_dense st)
    /\ (in_stage i -> layer_inv (also seen i e p) (ms_experts st') i)
    /\ (forall k, k <> gate_up_name i -> k <> down_name i -> ms_experts st' !! k = ms_experts st !! k)
    /\ forall k, ms_experts st !! k = None -> ms_experts st' !! k = None).
  { intros [] Ht Hf.
    - destruct (decide (r * n <= e < r * n + n)) as [Hl|Hl].
      + destruct (load_local_expert seen (ms_experts st) i (e - r * n) p) as (params' & Heq & Hinv' & Hframe); [lia|by apply Hinv, Ht|].
        replace (r * n + (e - r * n)) with e in * by lia. rewrite Heq. eexists. split; [done|]. split; [done|]. split; [by intros _|]. split; [done|].
        intros k Hk. cbn [ms_experts]. destruct (Hinv (Ht eq_refl)) as [(gu & dn & Hgu & Hdn & _)]. rewrite Hframe; [done|congruence|congruence].
      + rewrite load_other_expert by done. eexists. split; [done|]. split; [done|]. split; [|split; done]. intros Hst.
        destruct (Hinv Hst) as [(gu & dn & ? & ? & ? & ? & ? & ? & Hseen)]. split. exists gu, dn. split_and!; try done.
        intros e2 m2 d2 Hm2 Hd2. destruct (Hseen e2 m2 d2 Hm2 Hd2) as (S1 & S2 & S3). pose proof (lookup_lt_Some _ _ _ Hm2). unfold also.
        split_and!; intros [Hs'|(_ & He2 & _)]; auto; lia.
    - unfold load_foreign_weight. rewrite expert_name_no_embed, andb_false_r. eexists. split; [done|]. split; [done|].
      split; [intros Hst; by destruct (Hf eq_refl)|split; done]. }
  case_decide as Hpp.
  - unfold pp_weight_belongs_to_stage. rewrite expert_layer_digits. destruct (str_nat_spec i) as (_ & _ & ->). cbn [mbind result_bind].
    apply Hown; intros Hb; [apply bool_decide_eq_true_1 in Hb; unfold in_stage; lia|apply bool_decide_eq_false_1 in Hb; intros Hst; specialize (Hst Hpp); lia].
  - cbn [mbind result_bind]. apply (Hown true); [by intros _ ?|done].
Qed.

Lemma layer_inv_frame seen params params' i j e p : (forall k, k <> gate_up_name i -> k <> down_name i -> params' !! k = params !! k) -> j <> i ->
  layer_inv seen params j -> layer_inv (also seen i e p) params' j.
Proof.
  intros Hframe Hne [(gu & dn & Hgu & Hdn & ? & ? & ? & ? & Hseen)]. split. exists gu, dn.
  rewrite !Hframe; try done; try apply gate_down_names; try (intros Heq; by apply (gate_down_names i j));
    try (unfold gate_up_name, down_name; intros [? _]%routed_param_inj; done).
  split_and!; try done. intros e2 m2 d2 Hm2 Hd2. destruct (Hseen e2 m2 d2 Hm2 Hd2) as (S1 & S2 & S3). unfold also.
  split_and!; intros [Hs'|(Hi & _ & _)]; auto; done.
Qed.

Context (params0 : gmap pystr (ptensor R)).

(** A checkpoint entry: the weight of an expert, or one that is not an expert's. *)
Definition entry_ok (entry : pystr * tensor R) : Prop :=
  (is_expert_weight entry.1 = false /\ names_expert_param params0 entry.1 = false) \/
  exists i e p, i < L /\ e < ep * n /\ entry = (expert_name i e p, Mat (ck_weight i e p)).

(** Two outcomes that agree on the modules without experts. *)
Definition same_dense (a b : result (MoeState R)) : Prop :=
  match a, b with
  | Ok a, Ok b => ls_modules (ms_dense a) = ls_modules (ms_dense b)
  | Err e, Err e' => e = e'
  | _, _ => False
  end.

Lemma load_dense_agrees (d d0 : @LoadState R) name t : ls_modules d = ls_modules d0 ->
  match load_module_weight MOE_PACKED_MODULES_MAPPING d name t, load_module_weight MOE_PACKED_MODULES_MAPPING d0 name t with
  | Ok a, Ok b => ls_modules a = ls_modules b | Err e, Err e' => e = e' | _, _ => False
  end.
Proof.
  intros Heq. unfold load_module_weight. rewrite Heq. destruct (packed_parameter _ _ _) as [[param shard]|].
  - by destruct (run_loader _ _ _ _).
  - destruct (get_parameter _ _); [by destruct (run_loader _ _ _ _)|done].
Qed.

Lemma load_foreign_agrees (d d0 : @LoadState R) name t : ls_modules d = ls_modules d0 ->
  match load_foreign_weight m d name t, load_foreign_weight m d0 name t with
  | Ok a, Ok b => ls_modules a = ls_modules b | Err e, Err e' => e = e' | _, _ => False
  end.
Proof.
  intros Heq. unfold load_foreign_weight. rewrite Heq. destruct (_ && _); [|done].
  destruct (ls_modules d0 !! lit "lm_head"); [by destruct (run_loader _ _ _ _)|done].
Qed.

Lemma dense_step st st0 entry : is_expert_weight entry.1 = false -> names_expert_param (ms_experts st) entry.1 = false ->
  names_expert_param (ms_experts st0) entry.1 = false -> ls_modules (ms_dense st) = ls_modules (ms_dense st0) ->
  same_dense (moe_load_one ctx config m st entry) (moe_load_one ctx config m st0 entry)
  /\ (forall st', moe_load_one ctx config m st entry = Ok st' -> ms_experts st' = ms_experts st)
  /\ forall st', moe_load_one ctx config m st0 entry = Ok st' -> ms_experts st' = ms_experts st0.
Proof.
  destruct entry as [name t]. cbn [fst]. intros Hd Hn Hn0 Heq. unfold moe_load_one. rewrite Hd, !moe_load_module by done.
  pose proof (load_dense_agrees (ms_dense st) (ms_dense st0) name t Heq) as H1. pose proof (load_foreign_agrees (ms_dense st) (ms_dense st0) name t Heq) as H2.
  destruct (if decide _ then _ else _) as [own|e]; [|done]. cbn [mbind result_bind]. destruct own.
  - destruct (load_module_weight _ (ms_dense st) name t), (load_module_weight _ (ms_dense st0) name t); try done. split; [done|]. by split; intros st' [= <-].
  - destruct (load_foreign_weight m (ms_dense st) name t), (load_foreign_weight m (ms_dense st0) name t); try done. split; [done|]. by split; intros st' [= <-].
Qed.

Lemma layer_inv_mono (seen seen' : nat -> nat -> eproj -> Prop) params i : (forall e p, seen' i e p -> seen i e p) -> layer_inv seen params i -> layer_inv seen' params i.
Proof.
  intros Hsub [(gu & dn & ? & ? & ? & ? & ? & ? & Hseen)]. split. exists gu, dn. split_and!; try done.
  intros e2 m2 d2 Hm2 Hd2. destruct (Hseen e2 m2 d2 Hm2 Hd2) as (S1 & S2 & S3). split_and!; intros Hs'%Hsub; auto.
Qed.

(** No expert parameter is added. *)
Definition no_new_params (params : gmap pystr (ptensor R)) : Prop := forall k, params0 !! k = None -> params !! k = None.

Lemma load_entries ws st st0 seen : Forall entry_ok ws -> ls_modules (ms_dense st) = ls_modules (ms_dense st0) ->
  no_new_params (ms_experts st) -> no_new_params (ms_experts st0) ->
  (forall i, i < L -> in_stage i -> layer_inv seen (ms_experts st) i) ->
  same_dense (foldM_r (moe_load_one ctx config m) st ws)
    (foldM_r (moe_load_one ctx config m) st0 (filter (fun entry => is_expert_weight entry.1 = false) ws)) /\
  forall st', foldM_r (moe_load_one ctx config m) st ws = Ok st' -> forall i, i < L -> in_stage i ->
    layer_inv (fun i e p => seen i e p \/ expert_name i e p ∈ ws.*1) (ms_experts st') i.
Proof.
  revert st st0 seen. induction ws as [|entry ws IH]; intros st st0 seen Hws Heq Hnew Hnew0 Hinv.
  { split; [done|]. intros st' [= <-] i Hi Hst. apply (layer_inv_mono seen); [|by apply Hinv]. by intros e p [?|?%elem_of_nil]. }
  inversion Hws as [|? ? Hentry Hws']; subst. cbn [foldM_r]. rewrite filter_cons. destruct Hentry as [[Hd Hn]|(i & e & p & Hi & He & ->)].
  - rewrite decide_True by done. cbn [foldM_r].
    destruct (dense_step st st0 entry Hd) as (Hsame & Hexp & Hexp0); [by eapply names_expert_param_mono|by eapply names_expert_param_mono|done|].
    destruct (moe_load_one ctx config m st entry) as [st1|x] eqn:E1, (moe_load_one ctx config m st0 entry) as [st2|y] eqn:E2; try done.
    destruct (IH st1 st2 seen) as [IH1 IH2]; [done|exact Hsame|by rewrite (Hexp st1 eq_refl)|by rewrite (Hexp0 st2 eq_refl)|by rewrite (Hexp st1 eq_refl)|].
    split; [done|]. intros st' Hst' j Hj Hjst.
    eapply layer_inv_mono; [|by apply (IH2 st')]. intros e2 p2 [Hs'|[Hs'|Hs']%elem_of_cons]; [by left| |by right].
    rewrite <- Hs', is_expert_weight_name in Hd. done.
  - cbn [fst]. rewrite decide_False by (by rewrite is_expert_weight_name).
    destruct (load_expert_step seen st i e p He (fun Hst => Hinv i Hi Hst)) as (st1 & E1 & Hmod & Hinv1 & Hframe & Hnone). rewrite E1.
    destruct (IH st1 st0 (also seen i e p)) as [IH1 IH2]; [done|congruence|intros k Hk; by apply Hnone, Hnew|done| |].
    { intros j Hj Hjst. destruct (decide (j = i)) as [->|Hne]; [by apply Hinv1|]. by eapply layer_inv_frame; [exact Hframe|done|apply Hinv]. }
    split; [done|]. intros st' Hst' j Hj Hjst. eapply layer_inv_mono; [|by apply (IH2 st')]. unfold also.
    intros e2 p2 [Hs'|[Hs'|Hs']%elem_of_cons]; [by left; left| |by right]. apply expert_name_inj in Hs' as (-> & -> & ->). left. by right.
Qed.
End experts.

(** * Which weights are read *)

Lemma insert_file_perm {T} (f : pystr * list (pystr * T)) l : insert_file f l ≡ₚ f :: l.
Proof.
  induction l as [|g l IH]; [done|]. cbn. destruct (str_ltb f.1 g.1); [done|]. rewrite IH. apply Permutation_swap.
Qed.

Lemma concat_perm {A B} (f : A -> list B) l k : l ≡ₚ k -> concat (f <$> l) ≡ₚ concat (f <$> k).
Proof.
  induction 1 as [|a l k _ IH|a b l|l k j _ IH1 _ IH2]; cbn; [done|by rewrite IH| |by rewrite IH1].
  rewrite !(assoc_L (++)). by rewrite (Permutation_app_comm (f b)).
Qed.

Lemma discovered_entries {T} (found files : list (pystr * list (pystr * T))) : discover_weight_files found = Ok files ->
  concat (snd <$> files) ≡ₚ concat (snd <$> found).
Proof.
  unfold discover_weight_files. destruct found as [|f found]; [done|]. intros [= <-].
  assert (Hp : forall l : list (pystr * list (pystr * T)), foldr insert_file [] l ≡ₚ l).
  { induction l as [|g l IH]; [done|]. cbn. by rewrite insert_file_perm, IH. }
  pose proof (Hp (f :: found)) as Hp'. cbn [foldr] in Hp'. change (insert_file f (foldr insert_file [] found) ≡ₚ f :: found) in Hp'.
  by apply concat_perm.
Qed.

(** The base model and the draft model read complementary parts of a checkpoint.  A weight
    of the vision tower or a cached rotary table is read by neither; of the others the base
    model reads exactly those that are not draft weights, and the draft model exactly the draft
    weights, the embedding and the head.  Both fail when a worker sees no checkpoint files. *)
Theorem checkpoint_partition {T} (found : list (pystr * list (pystr * T))) num_hidden_layers :
  match iterate_weights found num_hidden_layers None, iterate_mtp_weights found num_hidden_layers with
  | Ok base, Ok mtp =>
      found <> [] /\
      (forall name raw t, (name, raw, t) ∈ base <->
         name = strip_vlm_prefix raw /\ (raw, t) ∈ concat (snd <$> found) /\
         contains_any SKIP_PATTERNS raw = false /\ is_mtp_weight raw num_hidden_layers = false) /\
      (forall name raw t, (name, raw, t) ∈ mtp <->
         name = strip_vlm_prefix raw /\ (raw, t) ∈ concat (snd <$> found) /\ contains_any SKIP_PATTERNS raw = false /\
         (is_mtp_weight raw num_hidden_layers = true \/ contains raw (lit "embed_tokens") = true \/ contains raw (lit "lm_head") = true))
  | Err e, Err e' => found = [] /\ e = FileNotFoundError /\ e' = FileNotFoundError
  | _, _ => False
  end.
Proof.
  unfold iterate_weights, iterate_mtp_weights. destruct (discover_weight_files found) as [files|e] eqn:Hd.
  2: { cbn. unfold discover_weight_files in Hd. destruct found; [|done]. by injection Hd as <-. }
  pose proof (discovered_entries found files Hd) as Hp. cbn [mbind result_bind]. split; [by intros ->|].
  assert (Hskip : forall raw, should_skip_weight raw num_hidden_layers = contains_any SKIP_PATTERNS raw || is_mtp_weight raw num_hidden_layers).
  { intros raw. unfold should_skip_weight, is_mtp_weight. destruct (contains_any MTP_PATTERNS raw); [by rewrite orb_true_r|]. by destruct (contains_any SKIP_PATTERNS raw). }
  split; intros name raw t; rewrite list_elem_of_omap; split.
  - intros ([raw' t'] & Hin & Hq). rewrite Hskip in Hq. destruct (contains_any SKIP_PATTERNS raw') eqn:Hs; [done|].
    destruct (is_mtp_weight raw' num_hidden_layers) eqn:Hm; [done|]. cbn in Hq. injection Hq as <- <- <-. by rewrite <- Hp.
  - intros (-> & Hin & Hs & Hm). exists (raw, t). rewrite Hp. split; [done|]. by rewrite Hskip, Hs, Hm.
  - intros ([raw' t'] & Hin & Hq). destruct (contains_any SKIP_PATTERNS raw') eqn:Hs; [done|].
    destruct (is_mtp_weight raw' num_hidden_layers || (contains raw' (lit "embed_tokens") || contains raw' (lit "lm_head"))) eqn:Hm; [|done].
    injection Hq as <- <- <-. rewrite <- Hp. split_and!; try done. apply orb_true_iff in Hm as [?|Hm]; [by left|right]. by apply orb_true_iff in Hm.
  - intros (-> & Hin & Hs & Hm). exists (raw, t). rewrite Hp. split; [done|]. rewrite Hs.
    replace (is_mtp_weight raw num_hidden_layers || (contains raw (lit "embed_tokens") || contains raw (lit "lm_head"))) with true; [done|].
    symmetry. rewrite !orb_true_iff. tauto.
Qed.

(** * Experts from a checkpoint *)

(** The parameters of a layer's experts before loading: the shapes of its rank. *)
Definition experts_allocated {R} (params : gmap pystr (ptensor R)) (h n s i : nat) : Prop :=
  exists gu dn, params !! gate_up_name i = Some (P3 gu) /\ params !! down_name i = Some (P3 dn) /\
    length gu = n /\ length dn = n /\ Forall (is_mat (s * 2) h) gu /\ Forall (is_mat h s) dn.

Section loaded.
Context {R : Type} `{Arith R}.

Lemma stacked_halves s h (m : list (list R)) : is_mat (s * 2) h m -> m = lslice 0 s m ++ lslice s s m.
Proof. intros [Hl _]. rewrite <- (Nat.add_0_l s) at 2. rewrite <- slice_plus. replace (s + s) with (length m) by lia. by rewrite slice_all. Qed.

(** A layer all of whose local experts were seen. *)
Lemma layer_inv_complete ctx h n s (ck : nat -> list (expert_weights R)) seen params i :
  ffn_ep_rank ctx < ffn_ep_world_size ctx -> length (ck i) = ffn_ep_world_size ctx * n ->
  (forall e p, e < n -> seen i (ffn_ep_rank ctx * n + e) p) -> layer_inv ctx h n s ck seen params i ->
  let c := ffn_tp_rank ctx in
  params !! gate_up_name i = Some (P3 ((fun e => lslice (c * s) s (w_gate e) ++ lslice (c * s) s (w_up e)) <$> lslice (ffn_ep_rank ctx * n) n (ck i))) /\
  params !! down_name i = Some (P3 ((fun e => lslice (c * s) s <$> w_down e) <$> lslice (ffn_ep_rank ctx * n) n (ck i))).
Proof.
  intros Hr Hlen Hall [(gu & dn & Hgu & Hdn & Hlg & Hld & Hfg & Hfd & Hseen)] c. rewrite Hgu, Hdn.
  pose proof (shard_bound _ _ n Hr) as Hb. set (r := ffn_ep_rank ctx) in *.
  assert (Hck : forall e w, e < n -> ck i !! (r * n + e) = Some w -> forall p, ck_weight ck i (r * n + e) p = match p with EGate => w_gate w | EUp => w_up w | EDown => w_down w end).
  { intros e w He Hw p. unfold ck_weight. by rewrite Hw. }
  split; do 2 f_equal; apply list_eq; intros e; rewrite list_lookup_fmap, lookup_slice; (destruct (decide (e < n)) as [He|He]; [|cbn; apply lookup_ge_None; lia]);
    destruct (lookup_lt_is_Some_2 (ck i) (r * n + e)) as [w Hw]; try lia; rewrite Hw; cbn [fmap option_fmap option_map];
    destruct (lookup_lt_is_Some_2 gu e) as [m Hm]; try lia; destruct (lookup_lt_is_Some_2 dn e) as [d Hd]; try lia;
    destruct (Hseen e m d Hm Hd) as (S1 & S2 & S3); rewrite ?Hm, ?Hd; f_equal.
  - rewrite (stacked_halves s h m) by by apply (proj1 (Forall_lookup _ _) Hfg e). rewrite S1, S2 by by apply Hall.
    unfold ck_shard. by rewrite !(Hck e w).
  - rewrite S3 by by apply Hall. unfold ck_shard. by rewrite (Hck e w).
Qed.

(** The names a rank needs are not left on disk. *)
Lemma filter_keeps_local ctx config n i e p : 0 < n -> ffn_ep_rank ctx < ffn_ep_world_size ctx ->
  num_or (cfg_num_experts config) (cfg_n_routed_experts config) = Some (ffn_ep_world_size ctx * n) ->
  ffn_ep_rank ctx * n <= e < ffn_ep_rank ctx * n + n ->
  match make_ep_weight_filter ctx config with Some f => f (expert_name i e p) = true | None => True end.
Proof.
  intros Hn Hr Hcfg He. unfold make_ep_weight_filter. case_decide; [done|]. rewrite Hcfg. cbn [from_option]. unfold Datatypes.id. case_decide; [done|].
  rewrite search_expert_digits_name. destruct (str_nat_spec e) as (_ & _ & ->). rewrite (Nat.mul_comm (ffn_ep_world_size ctx)), Nat.div_mul by lia.
  rewrite andb_true_iff, Z.leb_le, Z.ltb_lt. lia.
Qed.
End loaded.

(** C10. Loading a checkpoint gives every rank its experts.  Whatever files hold the weights and
    in whatever order, with the weights of other ranks' experts left on disk or not, after
    loading the layers of the stage hold, for the local experts, the tensor-parallel slices of
    gate and up projection stacked and of the down projection; the other modules of the model
    are what loading only the other weights gives, or the same exception is raised. *)
Theorem experts_loaded {R} `{Arith R} ctx config (m : Model R) L h n s (ck : nat -> list (expert_weights R)) params found :
  let ep := ffn_ep_world_size ctx in
  let r := ffn_ep_rank ctx in
  let c := ffn_tp_rank ctx in
  let tp := ffn_tp_world_size ctx in
  0 < h -> 0 < n -> 0 < s -> r < ep -> c < tp ->
  num_or (cfg_n_routed_experts config) (cfg_num_experts config) = Some (ep * n) ->
  num_or (cfg_num_experts config) (cfg_n_routed_experts config) = Some (ep * n) ->
  (forall i, length (ck i) = ep * n /\ Forall (expert_shape (tp * s) h) (ck i)) ->
  found <> [] ->
  Forall (fun '(raw, t) =>
    (is_expert_weight (strip_vlm_prefix raw) = false /\ names_expert_param params (strip_vlm_prefix raw) = false) \/
    exists i e p, i < L /\ e < ep * n /\ (raw, t) = (expert_name i e p, Mat (ck_weight ck i e p))) (concat (snd <$> found)) ->
  (forall i e p, i < L -> in_stage m i -> r * n <= e < r * n + n -> expert_name i e p ∈ (concat (snd <$> found)).*1) ->
  (forall i, i < L -> in_stage m i -> experts_allocated params h n s i) ->
  exists weights : list (pystr * tensor R),
    (fun l : list (pystr * pystr * tensor R) => (fun '(name, _, t) => (name, t)) <$> l)
      <$> iterate_weights found (Some (Z.of_nat L)) (make_ep_weight_filter ctx config) = Ok weights /\
    same_dense (load_model ctx config (Some (Z.of_nat L)) m params found)
      (moe_load_weights ctx config m params (filter (fun entry => is_expert_weight entry.1 = false) weights)) /\
    forall st, load_model ctx config (Some (Z.of_nat L)) m params found = Ok st -> forall i, i < L -> in_stage m i ->
      ms_experts st !! gate_up_name i = Some (P3 ((fun e => lslice (c * s) s (w_gate e) ++ lslice (c * s) s (w_up e)) <$> lslice (r * n) n (ck i))) /\
      ms_experts st !! down_name i = Some (P3 ((fun e => lslice (c * s) s <$> w_down e) <$> lslice (r * n) n (ck i))).
Proof.
  intros ep r c tp Hh Hn Hs Hr Hc Hcfg Hcfg' Hck Hfound Hentries Howned Halloc. unfold load_model, iterate_weights.
  destruct (discover_weight_files found) as [files|e] eqn:Hd; [|by destruct found].
  pose proof (discovered_entries found files Hd) as Hp. cbn [mbind result_bind fmap result_fmap]. eexists. split; [done|].
  set (weights := _ <$> omap _ (concat (snd <$> files))).
  assert (Hok : Forall (entry_ok ctx n ck L params) weights).
  { unfold weights. apply Forall_fmap, Forall_forall. intros [[name raw] t] ([raw' t'] & Hin & Hq)%list_elem_of_omap. cbn in Hq.
    destruct (should_skip_weight raw' _); [done|]. destruct (match make_ep_weight_filter ctx config with Some _ => _ | None => _ end); [done|]. injection Hq as <- <- <-.
    rewrite Hp in Hin. rewrite Forall_forall in Hentries. destruct (Hentries _ Hin) as [Hd'|(i & e & p & Hi & He & [= -> ->])]; [by left|].
    right. exists i, e, p. unfold compose. by rewrite strip_vlm_expert. }
  assert (Hin : forall i e p, i < L -> in_stage m i -> r * n <= e < r * n + n -> expert_name i e p ∈ weights.*1).
  { intros i e p Hi Hst He. specialize (Howned i e p Hi Hst He). apply list_elem_of_fmap in Howned as ([raw t] & Heq & Hraw). cbn in Heq. subst raw.
    unfold weights. rewrite <- list_fmap_compose. apply list_elem_of_fmap. exists (expert_name i e p, expert_name i e p, t). split; [done|].
    apply list_elem_of_omap. exists (expert_name i e p, t). rewrite Hp. split; [done|]. cbn beta iota. rewrite expert_not_skipped, strip_vlm_expert by done.
    pose proof (filter_keeps_local ctx config n i e p Hn Hr Hcfg' He) as Hf. destruct (make_ep_weight_filter ctx config); [by rewrite Hf|done]. }
  destruct (load_entries ctx config h n s ck Hh Hs Hr Hc Hcfg Hck m L params weights (mk_state (mk_load (modules m) 0 []) params) (mk_state (mk_load (modules m) 0 []) params) (fun _ _ _ => False)) as [Hsame Hinv]; [done|done|by intros k|by intros k| |].
  { intros i Hi Hst. destruct (Halloc i Hi Hst) as (gu & dn & ? & ? & ? & ? & ? & ?). split. exists gu, dn. by split_and!. }
  split; [exact Hsame|]. intros st Hst i Hi Hstage. apply (layer_inv_complete ctx h n s ck _ _ i Hr (proj1 (Hck i))) with (2 := Hinv st Hst i Hi Hstage).
  intros e p He. right. apply Hin; [done|done|lia].
Qed.

(** The weights of the experts of a layer, in some order. *)
Definition demo_entries (i : nat) : list (pystr * tensor Z) :=
  e ← [1; 0]; p ← [EDown; EGate; EUp]; [(expert_name i e p, Mat (ck_weight (fun _ => demo_experts) i e p))].

Definition demo_found : list (pystr * list (pystr * tensor Z)) :=
  [(lit "b", demo_entries 1 ++ [(lit "model.norm.weight", Vec [1; 1]%Z)]); (lit "a", demo_entries 0)].

Definition demo_params : gmap pystr (ptensor Z) :=
  <[gate_up_name 0 := P3 [[[9; 9]; [9; 9]]]%Z]> (<[down_name 0 := P3 [[[9]; [9]]]%Z]> ∅).

(** The second expert-parallel and the first tensor-parallel rank of a first pipeline stage
    with one of two layers. *)
Definition demo_model : Model Z := mk_model (z_ctx 0 0) z_config true false 0 1 ∅.

Lemma experts_loaded_witness :
  exists st, load_model (mk_ctx 2 1 2 0) (mk_moe (Some 2) None) (Some 2%Z) demo_model demo_params demo_found = Ok st
    /\ ms_experts st !! gate_up_name 0 = Some (P3 [[[0; 1]; [2; 2]]]%Z) /\ ms_experts st !! down_name 0 = Some (P3 [[[1]; [0]]]%Z).
Proof.
  destruct (experts_loaded (mk_ctx 2 1 2 0) (mk_moe (Some 2) None) demo_model 2 2 1 1 (fun _ => demo_experts) demo_params demo_found) as (ws & Hws & Hsame & Hst);
    [vm_compute; lia..|reflexivity|reflexivity| |discriminate| | | |].
  - intros i. split; [done|]. repeat (constructor; [repeat split; repeat constructor|]). constructor.
  - unfold demo_found, demo_entries. cbn [fmap list_fmap snd concat mbind list_bind app].
    repeat (constructor; [first [left; split; vm_compute; reflexivity|right; do 3 eexists; split; [|split; [|reflexivity]]; cbn; lia]|]). constructor.
  - intros i e p Hi Hstage He. assert (i = 0) as -> by (unfold in_stage in Hstage; specialize (Hstage ltac:(vm_compute; done)); cbn in Hstage; lia).
    cbn in He. assert (e = 1) as -> by lia. unfold demo_found, demo_entries. cbn [fmap list_fmap snd fst concat mbind list_bind app]. destruct p; set_solver.
  - intros i Hi Hstage. assert (i = 0) as -> by (unfold in_stage in Hstage; specialize (Hstage ltac:(vm_compute; done)); cbn in Hstage; lia).
    exists [[[9; 9]; [9; 9]]]%Z, [[[9]; [9]]]%Z. split; [reflexivity|]. split; [reflexivity|]. repeat split; repeat constructor.
  - destruct (load_model (mk_ctx 2 1 2 0) (mk_moe (Some 2) None) (Some (Z.of_nat 2)) demo_model demo_params demo_found) as [st|e] eqn:E.
    + exists st. split; [exact E|]. apply (Hst st eq_refl 0); [lia|]. intros _. cbn. lia.
    + exfalso. vm_compute in Hws. injection Hws as <-. vm_compute in Hsame. exact Hsame.
Defined.

(** * Packed checkpoints *)

Definition packed_name (i : nat) (gate_up : bool) : pystr := mlp_path i ++ lit ".experts." ++ (if gate_up then lit "gate_up_proj" else lit "down_proj").

Lemma packed_match_name i gate_up : packed_match [] (packed_name i gate_up) = Some (mlp_path i, gate_up).
Proof.
  unfold packed_match, packed_name. set (proj := if gate_up then _ else _).
  replace (mlp_path i ++ lit ".experts." ++ proj) with ((mlp_path i ++ lit ".experts") ++ "."%char :: proj) by (rewrite <- app_assoc; done).
  replace (drop_newline _) with ((mlp_path i ++ lit ".experts") ++ "."%char :: proj).
  2: { assert (exists l, "."%char :: proj = l ++ ["j"%char]) as [l ->].
       { destruct gate_up; [by exists (lit ".gate_up_pro")|by exists (lit ".down_pro")]. }
       rewrite app_assoc. by rewrite drop_newline_snoc. }
  rewrite rpartition_last by (destruct gate_up; vm_compute; set_solver). cbn [mbind option_bind]. unfold proj. destruct gate_up.
  - by rewrite decide_True, mlp_prefix_path.
  - rewrite decide_False by (intros Hp; discriminate Hp). by rewrite decide_True, mlp_prefix_path.
Qed.

Section packed.
Context {R : Type} `{Arith R}.
Notation mat := (list (list R)) (only parsing).

Lemma copy3_exact a b (dst src : list mat) : length dst = length src -> Forall (is_mat a b) dst -> Forall (is_mat a b) src -> copy3_ dst src = Ok src.
Proof.
  intros Hl Hd Hs. unfold copy3_. rewrite expand_same by done. cbn [mbind result_bind]. revert src Hl Hs.
  induction Hd as [|d dst Hd _ IH]; intros [|x src] Hl Hs; [done..|]. inversion Hs as [|? ? Hx Hs']; subst. cbn [zip_with mapM_r].
  rewrite (copy_mat_exact a b) by done. rewrite IH; [done|cbn in Hl; lia|done].
Qed.

(** The packed tensors of a layer and the shards of a rank. *)
Definition packed_tensor (gate_up : bool) (ws : list (expert_weights R)) : list mat :=
  if gate_up then (fun e => w_gate e ++ w_up e) <$> ws else w_down <$> ws.

Definition shard_tensor (gate_up : bool) (c s : nat) (ws : list (expert_weights R)) : list mat :=
  if gate_up then (fun e => lslice (c * s) s (w_gate e) ++ lslice (c * s) s (w_up e)) <$> ws else (fun e => lslice (c * s) s <$> w_down e) <$> ws.

Lemma slice_whole {A} s (l : list A) : length l = s -> lslice (0 * s) s l = l.
Proof. intros <-. apply slice_all. Qed.

Lemma packed_slices ctx h n s (ws : list (expert_weights R)) gate_up :
  0 < h -> 0 < n -> 0 < s -> ffn_ep_rank ctx < ffn_ep_world_size ctx -> ffn_tp_rank ctx < ffn_tp_world_size ctx ->
  length ws = ffn_ep_world_size ctx * n -> Forall (expert_shape (ffn_tp_world_size ctx * s) h) ws ->
  packed_tp_slice ctx gate_up (ep_slice ctx (packed_tensor gate_up ws))
  = shard_tensor gate_up (ffn_tp_rank ctx) s (lslice (ffn_ep_rank ctx * n) n ws).
Proof.
  intros Hh Hn Hs Hr Hc Hlen Hshape. set (tp := ffn_tp_world_size ctx) in *. set (c := ffn_tp_rank ctx) in *. pose proof (shard_bound c tp s Hc) as Hb.
  assert (Hep : ep_slice ctx (packed_tensor gate_up ws) = packed_tensor gate_up (lslice (ffn_ep_rank ctx * n) n ws)).
  { unfold ep_slice, packed_tensor. destruct gate_up; rewrite length_fmap, Hlen, (Nat.mul_comm (ffn_ep_world_size ctx)), Nat.div_mul by lia; apply slice_fmap. }
  rewrite Hep. assert (Hsub : Forall (expert_shape (tp * s) h) (lslice (ffn_ep_rank ctx * n) n ws)) by by apply Forall_take, Forall_drop.
  revert Hsub. generalize (lslice (ffn_ep_rank ctx * n) n ws) as l. intros l Hl. unfold packed_tp_slice. fold tp c. case_decide as Htp.
  - assert (Hdiv : tp * s / tp = s) by (rewrite Nat.mul_comm; apply Nat.div_mul; lia). unfold packed_tensor, shard_tensor. destruct gate_up.
    + rewrite <- list_fmap_compose. apply list_fmap_ext. intros j e He. unfold compose.
      assert (Hinter : (match (fun e0 : expert_weights R => w_gate e0 ++ w_up e0) <$> l with [] => 0 | m :: _ => length m / 2 end) = tp * s).
      { destruct l as [|e0 l']; [done|]. cbn [fmap list_fmap]. destruct (Forall_inv Hl) as (Hg & Hu & _). rewrite length_app, (proj1 Hg), (proj1 Hu).
        replace (tp * s + tp * s) with (tp * s * 2) by lia. apply Nat.div_mul. lia. }
      rewrite Hinter, Hdiv. destruct (proj1 (Forall_lookup _ _) Hl j e He) as (Hg & Hu & _).
      rewrite slice_app_l by (rewrite (proj1 Hg); lia). rewrite slice_app_r by (rewrite (proj1 Hg); lia). rewrite (proj1 Hg). do 2 f_equal. lia.
    + rewrite <- list_fmap_compose. apply list_fmap_ext. intros j e He. unfold compose.
      assert (Hcols : (match w_down <$> l with [] => 0 | m :: _ => cols m / tp end) = s).
      { destruct l as [|e0 l']; [done|]. cbn [fmap list_fmap]. destruct (Forall_inv Hl) as (_ & _ & Hd). by rewrite (is_mat_cols h (tp * s)). }
      by rewrite Hcols.
  - assert (Htp1 : tp = 1) by lia. rewrite Htp1, Nat.mul_1_l in Hl. replace c with 0 by lia. unfold packed_tensor, shard_tensor.
    destruct gate_up; apply list_fmap_ext; intros j e He; destruct (proj1 (Forall_lookup _ _) Hl j e He) as (Hg & Hu & Hd).
    + by rewrite (slice_whole s _ (proj1 Hg)), (slice_whole s _ (proj1 Hu)).
    + rewrite <- (list_fmap_id (w_down e)) at 1. apply list_fmap_ext. intros q row Hrow.
      pose proof (proj1 (Forall_lookup _ _) (proj2 Hd) q row Hrow) as Hlr. cbn beta in Hlr. by rewrite (slice_whole s row Hlr).
Qed.
End packed.

(** Experts that a checkpoint stores packed give a rank the parameters that experts stored
    one by one give it: the slice of the packed tensor for the rank is the stack of the slices
    of its experts. *)
Theorem packed_experts_loaded {R} `{Arith R} ctx params h n s i (ws : list (expert_weights R)) gate_up :
  let r := ffn_ep_rank ctx in
  let c := ffn_tp_rank ctx in
  0 < h -> 0 < n -> 0 < s -> r < ffn_ep_world_size ctx -> c < ffn_tp_world_size ctx ->
  length ws = ffn_ep_world_size ctx * n -> Forall (expert_shape (ffn_tp_world_size ctx * s) h) ws -> experts_allocated params h n s i ->
  load_packed_expert_weight ctx params (packed_name i gate_up) (packed_tensor gate_up ws)
  = Ok (true, <[(if gate_up then gate_up_name i else down_name i) := P3 (shard_tensor gate_up c s (lslice (r * n) n ws))]> params).
Proof.
  intros r c Hh Hn Hs Hr Hc Hlen Hshape (gu & dn & Hgu & Hdn & Hlg & Hld & Hfg & Hfd). unfold load_packed_expert_weight. rewrite packed_match_name.
  pose proof (shard_bound _ _ n Hr) as Hb. pose proof (shard_bound _ _ s Hc) as Hb'.
  assert (Hsub : Forall (expert_shape (ffn_tp_world_size ctx * s) h) (lslice (r * n) n ws)) by by apply Forall_take, Forall_drop.
  assert (Hsl : length (lslice (r * n) n ws) = n) by (apply length_slice; fold r in Hb; lia).
  cbv zeta. rewrite (packed_slices ctx h n s) by done. fold r c. destruct gate_up.
  - fold (gate_up_name i). rewrite Hgu, decide_False by lia. rewrite (copy3_exact (s * 2) h); [done|cbn [shard_tensor]; by rewrite length_fmap, Hsl|done|]. cbn [shard_tensor].
    apply Forall_fmap. eapply Forall_impl; [exact Hsub|]. intros e (Hg & Hu & _). unfold compose.
    destruct (is_mat_slice _ _ _ (c * s) s Hg Hb') as [Hl1 Hf1], (is_mat_slice _ _ _ (c * s) s Hu Hb') as [Hl2 Hf2].
    split; [rewrite length_app; lia|by apply Forall_app].
  - fold (down_name i). rewrite Hdn, decide_False by lia. rewrite (copy3_exact h s); [done|cbn [shard_tensor]; by rewrite length_fmap, Hsl|done|]. cbn [shard_tensor].
    apply Forall_fmap. eapply Forall_impl; [exact Hsub|]. intros e (_ & _ & Hd). by apply is_mat_cols_slice with (ffn_tp_world_size ctx * s).
Qed.

Lemma packed_experts_loaded_witness :
  load_packed_expert_weight (mk_ctx 2 1 2 0) demo_params (packed_name 0 true) (packed_tensor true demo_experts)
  = Ok (true, <[gate_up_name 0 := P3 (shard_tensor true 0 1 (lslice 1 1 demo_experts))]> demo_params).
Proof.
  apply (packed_experts_loaded (mk_ctx 2 1 2 0) demo_params 2 1 1 0 demo_experts true); [vm_compute; lia..|reflexivity| |].
  - repeat (constructor; [repeat split; repeat constructor|]). constructor.
  - exists [[[9; 9]; [9; 9]]]%Z, [[[9]; [9]]]%Z. split; [reflexivity|]. split; [reflexivity|]. repeat split; repeat constructor.
Defined.
