(* ===== verification/BlockTiers.v ===== *)
(** The tiers below the GPU cache: blocks swapped to the host cache
    ([swap_out_blocks_to_host] and [swap_in_blocks_from_host] of
    [dlengine/runtime/runner/model_runner.py]) and blocks kept in files of a distributed file
    system ([dlengine/runtime/disagg/storage/l3_hf3fs.py]).

    Memory is a map from byte addresses to bytes; a view is an offset with a shape and strides
    into the storage of a tensor.  The transfer engine of the file system is an interface
    ([Usrbio]); the calls of the operating system (open, truncate, close, making the
    directory) succeed. *)

From S2P Require Import Prelude PyStr TensorParallel Qwen3 Qwen3Load HfConfig Cache.

Open Scope Z_scope.

(** * Views *)

Record MemView := mk_view {
  v_offset : Z;
  v_shape : list Z;
  v_strides : list Z;
  v_size : Z
}.

Definition whole (t : Tensor) : MemView := mk_view 0 (shape t) (strides t) (element_size t).

(** [v\[:, ..., i\]] at dimension [d] *)
Definition select_dim (d : nat) (i : Z) (v : MemView) : result MemView :=
  match v_shape v !! d, v_strides v !! d with
  | Some n, Some s =>
      let j := if decide (i < 0) then n + i else i in
      if decide (0 <= j < n) then Ok (mk_view (v_offset v + j * s) (delete d (v_shape v)) (delete d (v_strides v)) (v_size v))
      else Err IndexError
  | _, _ => Err IndexError
  end.

(** The offsets of the elements, in row-major order. *)
Fixpoint offsets (shape strides : list Z) : list Z :=
  match shape, strides with
  | n :: shape, s :: strides => i ← seqZ 0 n; Z.add (i * s) <$> offsets shape strides
  | _, _ => [0]
  end.

(** The addresses of the bytes of a view: those of [v.contiguous().view(torch.uint8)]. *)
Definition element_bytes (size o : Z) : list Z := Z.add (o * size) <$> seqZ 0 size.

Definition addresses (v : MemView) : list Z :=
  o ← offsets (v_shape v) (v_strides v); element_bytes (v_size v) (v_offset v + o).

(** [v.numel() * v.element_size()] *)
Definition nbytes (v : MemView) : Z := foldr Z.mul 1 (v_shape v) * v_size v.

(** A byte-addressed memory. *)
Notation memory := (Z -> Z) (only parsing).

Definition read (m : memory) (addrs : list Z) : list Z := m <$> addrs.

Definition poke (m : memory) (a v : Z) : memory := fun x => if decide (x = a) then v else m x.

Fixpoint write (m : memory) (addrs vals : list Z) : memory :=
  match addrs, vals with
  | a :: addrs, v :: vals => write (poke m a v) addrs vals
  | _, _ => m
  end.

(** The strides with which a view is read when it is broadcast to a shape. *)
Fixpoint broadcast_strides (dst src strides : list Z) : result (list Z) :=
  match dst, src, strides with
  | n :: dst, m :: src, s :: strides =>
      if decide (m = n) then cons s <$> broadcast_strides dst src strides
      else if decide (m = 1) then cons 0 <$> broadcast_strides dst src strides
      else Err RuntimeError
  | _, _, _ => Ok []
  end.

(** [dst.copy_(src)] between tensors of the same type: the bytes written to [dst]. *)
Definition copy_view (m_dst m_src : memory) (dst src : MemView) : result memory :=
  let missing := (length (v_shape dst) - length (v_shape src))%nat in
  if decide (length (v_shape dst) < length (v_shape src))%nat then Err RuntimeError
  else
    s ← broadcast_strides (v_shape dst) (replicate missing 1 ++ v_shape src) (replicate missing 0 ++ v_strides src);
    Ok (write m_dst (addresses dst) (read m_src (addresses (mk_view (v_offset src) (v_shape dst) s (v_size src))))).

(** * The host cache *)

(** The device cache and the host cache of a worker. *)
Record Caches := mk_caches { c_ctx : CacheContext; gpu : memory; host : memory }.

Definition set_gpu (m : memory) (c : Caches) : Caches := mk_caches (c_ctx c) m (host c).
Definition set_host (m : memory) (c : Caches) : Caches := mk_caches (c_ctx c) (gpu c) m.

(** The view of a block: [t\[:, block\]] or [t\[:, :, block\]]. *)
Definition block_view (c : CacheContext) (t : option Tensor) (block : Z) : result MemView :=
  t ← of_option TypeError t;
  select_dim (if decide (mode (cfg c) = "dsv4") then 1 else 2)%nat block (whole t).

Definition copy_kv_block_to_host (gpu_block host_block : Z) : act Caches unit :=
  s ← get;
  dst ← lift (block_view (c_ctx s) (host_kv_cache (c_ctx s)) host_block);
  src ← lift (block_view (c_ctx s) (kv_cache (c_ctx s)) gpu_block);
  m ← lift (copy_view (host s) (gpu s) dst src);
  modify (set_host m).

Definition copy_kv_block_from_host (host_block gpu_block : Z) : act Caches unit :=
  s ← get;
  dst ← lift (block_view (c_ctx s) (kv_cache (c_ctx s)) gpu_block);
  src ← lift (block_view (c_ctx s) (host_kv_cache (c_ctx s)) host_block);
  m ← lift (copy_view (gpu s) (host s) dst src);
  modify (set_gpu m).

(** [for a, b in pairs: copy(a, b)] *)
Fixpoint copy_blocks (copy : Z -> Z -> act Caches unit) (pairs : list (Z * Z)) : act Caches unit :=
  match pairs with
  | [] => mret tt
  | (a, b) :: pairs => _ ← copy a b; copy_blocks copy pairs
  end.

(** The tasks of both directions: the tables of source and target blocks of a sequence. *)
Notation swap_task := (Z * list Z * list Z)%type (only parsing).

Fixpoint run_swaps (copy : Z -> Z -> act Caches unit) (tasks : list swap_task) (copied : Z) : act Caches Z :=
  match tasks with
  | [] => mret copied
  | (_, from, to) :: tasks =>
      _ ← raise_if (negb (bool_decide (length from = length to))) ValueError;
      _ ← copy_blocks copy (zip from to);
      run_swaps copy tasks (copied + zlen (zip from to))
  end.

Definition swap_blocks (copy : Z -> Z -> act Caches unit) (tasks : list swap_task) : act Caches Z :=
  s ← get;
  match host_kv_cache (c_ctx s) with
  | None => match tasks with [] => mret 0 | _ => raise RuntimeError end
  | Some _ => run_swaps copy tasks 0
  end.

Definition swap_out_blocks_to_host : list swap_task -> act Caches Z := swap_blocks copy_kv_block_to_host.
Definition swap_in_blocks_from_host : list swap_task -> act Caches Z := swap_blocks copy_kv_block_from_host.

(** * Files *)

(** [path.rstrip("/")] and [os.path.join(a, b)] *)
Fixpoint lstrip_slash (s : pystr) : pystr :=
  match s with c :: s' => if decide (c = "/"%char) then lstrip_slash s' else s | [] => [] end.
Definition rstrip_path (s : pystr) : pystr := reverse (lstrip_slash (reverse s)).

Definition path_join (a b : pystr) : pystr :=
  if startswith b (lit "/") then b
  else if bool_decide (a = []) || endswith a (lit "/") then a ++ b
  else a ++ lit "/" ++ b.

(** The last [k] hexadecimal digits of a number. *)
Definition hex_char (d : Z) : ascii := ascii_of_nat (Z.to_nat (if decide (d < 10) then 48 + d else 87 + d)).

Fixpoint hex (k : nat) (n : Z) : pystr :=
  match k with O => [] | S k => hex k (n / 16) ++ [hex_char (n mod 16)] end.

(** [f"{h & 0xFFFFFFFFFFFFFFFF:016x}.kv"] *)
Definition hash_name (block_hash : Z) : pystr := hex 16 (Z.land block_hash (Z.ones 64)) ++ lit ".kv".

(** The transfer engine: writing a buffer to a file and reading a file into a buffer, each
    with the number of the operation, which may decide on its outcome.  The result is the
    number of bytes or a negative error, with the new contents of the target. *)
Class Usrbio := {
  io_write : nat -> list Z -> list Z -> Z * list Z;
  io_read : nat -> list Z -> list Z -> Z * list Z
}.

(** [Hf3fsL3Store] *)
Record L3Store := mk_l3 {
  l3_dir : pystr;
  staging_blocks : Z;
  block_nbytes : Z;
  staging : list Z;
  bytes_stored : Z;
  bytes_loaded : Z;
  n_store : Z;
  n_load : Z
}.

(** A worker with its caches, the files of the shared file system and the number of
    transfers so far. *)
Record L3Worker := mk_worker {
  caches : Caches;
  store_ : L3Store;
  files : gmap pystr (list Z);
  tick : nat
}.

Definition set_caches (c : Caches) (w : L3Worker) : L3Worker := mk_worker c (store_ w) (files w) (tick w).
Definition set_store (s : L3Store) (w : L3Worker) : L3Worker := mk_worker (caches w) s (files w) (tick w).
Definition set_files (f : gmap pystr (list Z)) (w : L3Worker) : L3Worker := mk_worker (caches w) (store_ w) f (tick w).
Definition next_tick (w : L3Worker) : L3Worker := mk_worker (caches w) (store_ w) (files w) (S (tick w)).
Definition set_staging (b : list Z) (w : L3Worker) : L3Worker :=
  let s := store_ w in
  set_store (mk_l3 (l3_dir s) (staging_blocks s) (block_nbytes s) b (bytes_stored s) (bytes_loaded s) (n_store s) (n_load s)) w.

Section l3.
Context `{Usrbio}.

Definition compute_block_nbytes (c : CacheContext) : result Z :=
  let g := cfg c in
  let bs := block_size g in
  if decide (mode g = "dsv4") then
    let per_layer := bs * 584 in
    Ok (num_hidden_layers g * per_layer)
  else if decide (mode g = "mla" /\ is_fp8_kvcache g = true) then
    f ← of_option AttributeError (fp8_head_dim c);
    let per_layer := bs * f in
    Ok (num_hidden_layers g * per_layer)
  else
    let kv_count := if decide (mode g = "gqa") then 2 else 1 in
    h ← num_local_kv_heads c;
    let per_layer := bs * h * head_dim c * dtype_itemsize g in
    Ok (kv_count * num_hidden_layers g * per_layer).

(** The constructor, up to the import of the bindings.  The directory of a rank is made. *)
Definition l3_init (c : CacheContext) (mountpoint : pystr) (dir : option pystr) (blocks : Z) (rank : nat) : result L3Store :=
  let mountpoint := rstrip_path mountpoint in
  let blocks := Z.max 1 blocks in
  let dir := match dir with Some d => d | None => path_join mountpoint (lit "dlengine_l3") end in
  let dir := path_join dir (lit "rank" ++ str_nat rank) in
  n ← compute_block_nbytes c;
  let total := n * blocks in
  if decide (total <= 0) then Err ValueError
  else Ok (mk_l3 dir blocks n (replicate (Z.to_nat total) 0) 0 0 0 0).

Definition kv_count (c : CacheContext) : Z := if decide (mode (cfg c) = "gqa") then 2 else 1.

(** One iteration of [_subviews]. *)
Definition subview (c : CacheContext) (block_id kv_idx : Z) : result MemView :=
  t ← of_option TypeError (kv_cache c);
  if decide (mode (cfg c) = "dsv4") then select_dim 1 block_id (whole t)
  else if decide (mode (cfg c) = "mla") then v ← select_dim 0 0 (whole t); select_dim 1 block_id v
  else v ← select_dim 0 kv_idx (whole t); select_dim 1 block_id v.

Definition path (s : L3Store) (block_hash : Z) : pystr := path_join (l3_dir s) (hash_name block_hash).

Definition present (w : L3Worker) (block_hash : Z) : bool := bool_decide (is_Some (files w !! path (store_ w) block_hash)).

Definition exists_ (w : L3Worker) (hashes : list Z) : list Z := filter (fun h => present w h = true) hashes.

(** [buf\[start : start + n\]] and [buf\[start : start + n\].copy_(src)] *)
Definition buf_slice (start n : Z) (buf : list Z) : list Z := take (Z.to_nat n) (drop (Z.to_nat start) buf).

Definition buf_set (start : Z) (src buf : list Z) : list Z := take (Z.to_nat start) buf ++ src ++ drop (Z.to_nat start + length src) buf.

Definition buf_copy (start n : Z) (src buf : list Z) : result (list Z) :=
  let dst := buf_slice start n buf in
  if decide (length dst = length src) then Ok (buf_set start src buf)
  else match src with [x] => Ok (buf_set start (replicate (length dst) x) buf) | _ => Err RuntimeError end.

(** The loop of [store] over the subviews of a block: GPU to staging buffer. *)
Fixpoint gather_block (base off block_id : Z) (kvs : list Z) : act L3Worker unit :=
  match kvs with
  | [] => mret tt
  | kv :: kvs =>
      w ← get;
      sub ← lift (subview (c_ctx (caches w)) block_id kv);
      let n := nbytes sub in
      b ← lift (buf_copy (base + off) n (read (gpu (caches w)) (addresses sub)) (staging (store_ w)));
      _ ← modify (set_staging b);
      gather_block base (off + n) block_id kvs
  end.

(** The loop of [load]: staging buffer to GPU. *)
Fixpoint scatter_block (base off block_id : Z) (kvs : list Z) : act L3Worker unit :=
  match kvs with
  | [] => mret tt
  | kv :: kvs =>
      w ← get;
      sub ← lift (subview (c_ctx (caches w)) block_id kv);
      let n := nbytes sub in
      let raw := buf_slice (base + off) n (staging (store_ w)) in
      _ ← raise_if (negb (bool_decide (zlen raw = n))) RuntimeError;
      _ ← modify (set_caches (set_gpu (write (gpu (caches w)) (addresses sub) raw) (caches w)));
      scatter_block base (off + n) block_id kvs
  end.

(** [os.ftruncate(fd, n)] *)
Definition ftruncate (n : Z) (contents : list Z) : list Z :=
  take (Z.to_nat n) contents ++ replicate (Z.to_nat n - length contents) 0.

Definition stored_one (w : L3Worker) : L3Worker :=
  let s := store_ w in
  set_store (mk_l3 (l3_dir s) (staging_blocks s) (block_nbytes s) (staging s) (bytes_stored s + block_nbytes s) (bytes_loaded s) (n_store s + 1) (n_load s)) w.

Definition loaded_one (w : L3Worker) : L3Worker :=
  let s := store_ w in
  set_store (mk_l3 (l3_dir s) (staging_blocks s) (block_nbytes s) (staging s) (bytes_stored s) (bytes_loaded s + block_nbytes s) (n_store s) (n_load s + 1)) w.

(** Opening a file for writing, and the transfer of the staging buffer to it. *)
Definition write_file (p : pystr) (base : Z) : act L3Worker unit :=
  w ← get;
  let s := store_ w in
  let opened := ftruncate (block_nbytes s) (default [] (files w !! p)) in
  let '(r, new) := io_write (tick w) (buf_slice base (block_nbytes s) (staging s)) opened in
  _ ← modify (next_tick ∘ set_files (<[p := new]> (files w)));
  raise_if (r <? 0) OSError.

(** The transfer of a file to the staging buffer. *)
Definition read_file (p : pystr) (base : Z) : act L3Worker unit :=
  w ← get;
  let s := store_ w in
  let '(r, new) := io_read (tick w) (default [] (files w !! p)) (buf_slice base (block_nbytes s) (staging s)) in
  _ ← modify (next_tick ∘ set_staging (buf_set base new (staging s)));
  raise_if (r <? 0) OSError.

(** The body of the loop of [store]. *)
Definition store_block (skip_existing : bool) (p : Z * Z) : act L3Worker unit :=
  let '(block_hash, block_id) := p in
  w ← get;
  let base := 0 * block_nbytes (store_ w) in
  if skip_existing && present w block_hash then mret tt
  else
    _ ← gather_block base 0 block_id (seqZ 0 (kv_count (c_ctx (caches w))));
    _ ← write_file (path (store_ w) block_hash) base;
    modify stored_one.

Fixpoint store (pairs : list (Z * Z)) (skip_existing : bool) : act L3Worker (list Z) :=
  match pairs with
  | [] => mret []
  | p :: pairs => _ ← store_block skip_existing p; stored ← store pairs skip_existing; mret (p.1 :: stored)
  end.

(** The body of the loop of [load]. *)
Definition load_block (p : Z * Z) : act L3Worker unit :=
  let '(block_hash, block_id) := p in
  w ← get;
  let base := 0 * block_nbytes (store_ w) in
  _ ← raise_if (negb (present w block_hash)) FileNotFoundError;
  _ ← read_file (path (store_ w) block_hash) base;
  _ ← scatter_block base 0 block_id (seqZ 0 (kv_count (c_ctx (caches w))));
  modify loaded_one.

Fixpoint load (pairs : list (Z * Z)) : act L3Worker Z :=
  match pairs with
  | [] => mret 0
  | p :: pairs => _ ← load_block p; n ← load pairs; mret (1 + n)
  end.

(** The calls of a model runner, whose store may be missing. *)
Definition l3_store_blocks (enabled : bool) (pairs : list (Z * Z)) : act L3Worker Z :=
  if negb enabled || bool_decide (pairs = []) then mret 0 else stored ← store pairs true; mret (zlen stored).

Definition l3_load_blocks (enabled : bool) (pairs : list (Z * Z)) : act L3Worker Z :=
  if negb enabled || bool_decide (pairs = []) then mret 0 else load pairs.
End l3.

(** * Memory *)

Lemma write_other m addrs vals a : a ∉ addrs -> write m addrs vals a = m a.
Proof.
  revert m vals. induction addrs as [|x addrs IH]; intros m [|v vals]; try done. rewrite not_elem_of_cons. intros [Hx Hin]. cbn [write].
  rewrite IH by done. unfold poke. by rewrite decide_False.
Qed.

Lemma read_write_same m addrs vals : NoDup addrs -> length addrs = length vals -> read (write m addrs vals) addrs = vals.
Proof.
  intros Hnd. revert m vals. induction Hnd as [|x addrs Hx _ IH]; intros m [|v vals] Hl; try done. cbn [write]. unfold read in *. csimpl.
  rewrite IH by (cbn in Hl; lia). f_equal. rewrite write_other by done. unfold poke. by rewrite decide_True.
Qed.

Lemma read_write_disjoint m addrs vals others : (forall a, a ∈ others -> a ∉ addrs) -> read (write m addrs vals) others = read m others.
Proof. intros Hd. apply list_fmap_ext. intros i a Ha. apply write_other, Hd. by eapply list_elem_of_lookup_2. Qed.

Lemma write_app m l1 l2 v1 v2 : length l1 = length v1 -> write m (l1 ++ l2) (v1 ++ v2) = write (write m l1 v1) l2 v2.
Proof. revert m v1. induction l1 as [|x l1 IH]; intros m [|v v1] Hl; try done. cbn [app write]. apply IH. cbn in Hl. lia. Qed.

(** * Addresses *)

(** Consecutive runs of equal length. *)
Lemma seqZ_runs n p : 0 <= n -> 0 <= p -> (seqZ 0 n ≫= fun i => Z.add (i * p) <$> seqZ 0 p) = seqZ 0 (n * p).
Proof.
  intros Hn Hp. pattern n. apply natlike_ind; [done| |done]. clear n Hn. intros n Hn IH.
  rewrite <- Z.add_1_r, seqZ_app by lia. rewrite bind_app, IH. replace ((n + 1) * p) with (n * p + p) by lia. rewrite (seqZ_app 0 (n * p) p) by nia.
  f_equal. change (seqZ (0 + n) 1) with [0 + n]. cbn [mbind list_bind]. rewrite app_nil_r, fmap_add_seqZ. f_equal. lia.
Qed.

Lemma bind_assoc_list {A B C} (f : A -> list B) (g : B -> list C) l : ((l ≫= f) ≫= g) = (l ≫= fun x => f x ≫= g).
Proof. induction l as [|x l IH]; csimpl; [done|by rewrite bind_app, IH]. Qed.

Lemma fmap_bind_out {A B C} (f : A -> list B) (g : B -> C) l : g <$> (l ≫= f) = (l ≫= fun x => g <$> f x).
Proof. induction l as [|x l IH]; csimpl; [done|by rewrite fmap_app, IH]. Qed.

Lemma bind_ext_in {A B} (f g : A -> list B) l : (forall x, x ∈ l -> f x = g x) -> (l ≫= f) = (l ≫= g).
Proof.
  induction l as [|x l IH]; intros Hfg; csimpl; [done|]. rewrite Hfg by apply list_elem_of_here. f_equal. apply IH. intros y Hy. apply Hfg. by apply list_elem_of_further.
Qed.

Lemma prod_nonneg dims : Forall (Z.le 0) dims -> 0 <= foldr Z.mul 1 dims.
Proof. induction 1; cbn; nia. Qed.

Lemma offsets_row_major dims : Forall (Z.le 0) dims -> offsets dims (row_major dims) = seqZ 0 (foldr Z.mul 1 dims).
Proof.
  induction 1 as [|n dims Hn Hd IH]; [done|]. cbn [offsets row_major foldr]. rewrite IH. apply seqZ_runs; [done|by apply prod_nonneg].
Qed.

Lemma element_bytes_run z base n : 0 <= n -> 0 <= z -> (seqZ 0 n ≫= fun i => element_bytes z (base + i)) = Z.add (base * z) <$> seqZ 0 (n * z).
Proof.
  intros Hn Hz. rewrite <- (seqZ_runs n z) by done. rewrite fmap_bind_out. apply bind_ext_in. intros i _. unfold element_bytes.
  rewrite <- list_fmap_compose. apply list_fmap_ext. intros j x _. unfold compose. lia.
Qed.

Lemma offsets_merge a b s dims strs : 0 <= a -> 0 <= b -> offsets (a :: b :: dims) (b * s :: s :: strs) = offsets (a * b :: dims) (s :: strs).
Proof.
  intros Ha Hb. cbn [offsets]. rewrite <- (seqZ_runs a b) by done. rewrite bind_assoc_list. apply bind_ext_in. intros i _.
  rewrite fmap_bind_out, list_fmap_bind. apply bind_ext_in. intros j _. unfold compose. rewrite <- list_fmap_compose. apply list_fmap_ext.
  intros k x _. unfold compose. lia.
Qed.

(** A view whose inner dimensions are contiguous is a sequence of runs. *)
Lemma addresses_runs off L s dims z : Forall (Z.le 0) dims -> 0 <= z ->
  addresses (mk_view off (L :: dims) (s :: row_major dims) z) = seqZ 0 L ≫= fun l => Z.add ((off + l * s) * z) <$> seqZ 0 (foldr Z.mul 1 dims * z).
Proof.
  intros Hd Hz. unfold addresses. cbn [v_shape v_strides v_offset v_size offsets]. rewrite offsets_row_major by done.
  rewrite bind_assoc_list. apply bind_ext_in. intros l _. rewrite list_fmap_bind.
  rewrite <- (element_bytes_run z (off + l * s)) by (try apply prod_nonneg; done). apply bind_ext_in. intros i _. unfold compose. f_equal. lia.
Qed.

(** * Blocks of a cache *)

(** The cache as a table: [bl_rows] rows (one for each of K and V and each layer) of [bl_count]
    blocks, a block every [bl_width] bytes of which [bl_chunk] are used. *)
Record Blocks := mk_blocks { bl_rows : Z; bl_count : Z; bl_width : Z; bl_chunk : Z }.

Record blocks_wf (g : Blocks) : Prop := {
  wf_rows : 0 <= bl_rows g;
  wf_chunk : 0 <= bl_chunk g <= bl_width g
}.

Definition chunk_addrs (g : Blocks) (row b : Z) : list Z := Z.add ((row * bl_count g + b) * bl_width g) <$> seqZ 0 (bl_chunk g).
Definition block_addrs (g : Blocks) (b : Z) : list Z := seqZ 0 (bl_rows g) ≫= fun row => chunk_addrs g row b.

Lemma elem_of_block_addrs g b a :
  a ∈ block_addrs g b <-> exists row j, 0 <= row < bl_rows g /\ 0 <= j < bl_chunk g /\ a = (row * bl_count g + b) * bl_width g + j.
Proof.
  unfold block_addrs, chunk_addrs. rewrite list_elem_of_bind. split.
  - intros (row & (j & -> & Hj)%list_elem_of_fmap & Hr). exists row, j. rewrite elem_of_seqZ in Hj, Hr. lia.
  - intros (row & j & Hr & Hj & ->). exists row. split; [|rewrite elem_of_seqZ; lia]. apply list_elem_of_fmap. exists j. split; [done|]. rewrite elem_of_seqZ. lia.
Qed.

Section blocks.
Context (g : Blocks) (Hg : blocks_wf g).

Lemma block_addr_unique row row' b b' j j' : 0 <= b < bl_count g -> 0 <= b' < bl_count g -> 0 <= j < bl_chunk g -> 0 <= j' < bl_chunk g ->
  (row * bl_count g + b) * bl_width g + j = (row' * bl_count g + b') * bl_width g + j' -> row = row' /\ b = b' /\ j = j'.
Proof.
  intros Hb Hb' Hj Hj' Heq. destruct Hg as [_ Hc]. apply radix_inj in Heq as [Heq ->]; [|lia..]. apply radix_inj in Heq as [-> ->]; [done|lia..].
Qed.

Lemma block_addrs_NoDup b : 0 <= b < bl_count g -> NoDup (block_addrs g b).
Proof.
  intros Hb. apply NoDup_bind; [|intros row _; apply NoDup_fmap_2; [intros x y; lia|apply NoDup_seqZ]|apply NoDup_seqZ].
  intros r1 r2 a _ _ (j1 & -> & Hj1)%list_elem_of_fmap (j2 & Heq & Hj2)%list_elem_of_fmap. rewrite elem_of_seqZ in Hj1, Hj2.
  by apply block_addr_unique in Heq as (-> & _); [|lia..].
Qed.

Lemma block_addrs_disjoint b b' a : 0 <= b < bl_count g -> 0 <= b' < bl_count g -> b <> b' -> a ∈ block_addrs g b -> a ∉ block_addrs g b'.
Proof.
  intros Hb Hb' Hne (r & j & Hr & Hj & ->)%elem_of_block_addrs (r' & j' & Hr' & Hj' & Heq)%elem_of_block_addrs.
  by apply block_addr_unique in Heq as (_ & -> & _); [|lia..].
Qed.

Lemma length_runs n (f : Z -> Z) m : 0 <= n -> 0 <= m -> length (seqZ 0 n ≫= fun r => Z.add (f r) <$> seqZ 0 m) = Z.to_nat (n * m).
Proof.
  intros Hn Hm. pattern n. apply natlike_ind; [done| |done]. clear n Hn. intros n Hn IH. rewrite <- Z.add_1_r, seqZ_app by lia.
  rewrite bind_app, length_app, IH. change (seqZ (0 + n) 1) with [0 + n]. cbn [mbind list_bind]. rewrite app_nil_r, length_fmap, length_seqZ. nia.
Qed.

Lemma length_block_addrs b : length (block_addrs g b) = Z.to_nat (bl_rows g * bl_chunk g).
Proof. destruct Hg as [Hr Hc]. apply length_runs; lia. Qed.
End blocks.

(** ** The layouts of the backends *)

Section layout.
Context (k : CacheKind) (c : CacheContext) (h : Z).
Let g := cfg c.

(** The dimensions of a block in one layer, and the elements from one block to the next. *)
Definition block_dims : list Z :=
  match k with
  | GQA => [block_size g; h; head_dim c]
  | MLA => if is_fp8_kvcache g then [block_size g; 1; if raw_fp8_mla_layout g then head_dim c else default 0 (fp8_head_dim c)]
           else [block_size g; h; head_dim c]
  | DSV4 => [block_size g; 1; DSV4_BYTES_PER_TOKEN]
  end.

Definition block_stride_ : Z :=
  match k with
  | MLA => if is_fp8_kvcache g && negb (raw_fp8_mla_layout g) then (block_size g + 1) * (1 * (default 0 (fp8_head_dim c) * 1))
           else foldr Z.mul 1 block_dims
  | _ => foldr Z.mul 1 block_dims
  end.

Definition item_size : Z :=
  match k with
  | GQA => dtype_itemsize g
  | MLA => if is_fp8_kvcache g then 1 else dtype_itemsize g
  | DSV4 => 1
  end.

Definition kvs : Z := match k with GQA => 2 | _ => 1 end.

Definition layout (count : Z) : Blocks :=
  mk_blocks (kvs * num_hidden_layers g) count (block_stride_ * item_size) (foldr Z.mul 1 block_dims * item_size).

Definition count : Z := num_local_kvcache_blocks c + match k with DSV4 => 1 | _ => 0 end.

Definition mode_of : string := match k with GQA => "gqa" | MLA => "mla" | DSV4 => "dsv4" end.

Context (Hdims : Forall (Z.le 0) block_dims) (Hitem : 0 <= item_size) (HL : 0 <= num_hidden_layers g) (Hbs : 0 <= block_size g) (HN : 0 <= num_local_kvcache_blocks c).
Lemma layout_wf n : blocks_wf (layout n).
Proof using Hdims Hitem HL Hbs.
  pose proof (prod_nonneg _ Hdims) as Hp. unfold layout. split; cbn [bl_rows bl_chunk bl_width].
  - unfold kvs. destruct k; lia.
  - split; [nia|]. apply Z.mul_le_mono_nonneg_r; [done|]. unfold block_stride_, block_dims in *. destruct k; try lia.
    destruct (is_fp8_kvcache g); [|cbn [andb]; lia]. destruct (raw_fp8_mla_layout g); [cbn [andb negb]; lia|]. cbn [andb negb foldr].
    repeat (apply Forall_cons_1 in Hdims as [? Hdims]). nia.
Qed.

Lemma primary_view : whole (primary_layout k c h) =
  match k with
  | DSV4 => mk_view 0 (num_hidden_layers g :: count :: block_dims) (count * block_stride_ :: block_stride_ :: row_major block_dims) item_size
  | _ => mk_view 0 (kvs :: num_hidden_layers g :: count :: block_dims)
           (num_hidden_layers g * (count * block_stride_) :: count * block_stride_ :: block_stride_ :: row_major block_dims) item_size
  end.
Proof using Hbs.
  unfold whole, primary_layout, block_stride_, block_dims, item_size, kvs, count. fold g. destruct k; rewrite ?Z.add_0_r; [done| |done].
  destruct (is_fp8_kvcache g); [|done]. destruct (raw_fp8_mla_layout g); [done|]. cbn -[Z.mul Z.add Z.min].
  f_equal. do 3 f_equal. f_equal. lia.
Qed.

(** The shape of a block, which does not depend on the number of blocks. *)
Definition block_shape : list Z :=
  match k with DSV4 => num_hidden_layers g :: block_dims | _ => kvs :: num_hidden_layers g :: block_dims end.

Lemma select_at d i n s v : v_shape v !! d = Some n -> v_strides v !! d = Some s -> 0 <= i < n ->
  select_dim d i v = Ok (mk_view (v_offset v + i * s) (delete d (v_shape v)) (delete d (v_strides v)) (v_size v)).
Proof. intros Hn Hs Hi. unfold select_dim. rewrite Hn, Hs, !(decide_False (P := i < 0)) by lia. by rewrite decide_True. Qed.

Lemma run_start row b : (b * block_stride_ + row * (count * block_stride_)) * item_size = (row * bl_count (layout count) + b) * bl_width (layout count).
Proof. cbn [layout bl_count bl_width]. ring. Qed.

Lemma block_view_exact c0 b : mode (cfg c0) = mode_of -> 0 <= b < count ->
  exists v, block_view c0 (Some (primary_layout k c h)) b = Ok v /\ v_shape v = block_shape /\ v_size v = item_size /\
    length (v_strides v) = length block_shape /\ addresses v = block_addrs (layout count) b.
Proof.
  intros Hm Hb. unfold block_view. rewrite Hm. cbn [of_option mbind result_bind]. rewrite primary_view.
  assert (Hrun : forall rows, addresses (mk_view (b * block_stride_) (rows :: block_dims) (count * block_stride_ :: row_major block_dims) item_size)
    = seqZ 0 rows ≫= fun row => chunk_addrs (layout count) row b).
  { intros rows. rewrite addresses_runs by done. apply bind_ext_in. intros row _. unfold chunk_addrs. by rewrite run_start. }
  assert (Hdsv4 : k = DSV4 \/ mode_of <> "dsv4" /\ match k with DSV4 => False | _ => True end) by (unfold mode_of; destruct k; auto).
  destruct Hdsv4 as [Hk|[Hk Hk']].
  - unfold mode_of, block_shape, block_addrs. rewrite Hk. rewrite decide_True by done. eexists. split; [eapply select_at; [reflexivity|reflexivity|done]|].
    cbn [v_shape v_strides v_size v_offset]. split; [done|]. split; [done|].
    split; [cbn; f_equal; unfold block_dims; by rewrite Hk|]. rewrite Z.add_0_l. cbn [delete list_delete]. rewrite Hrun.
    cbn [layout bl_rows]. unfold kvs. rewrite Hk. by rewrite Z.mul_1_l.
  - rewrite decide_False by done. assert (Heq : forall A (x y : A), match k with DSV4 => x | _ => y end = y) by (destruct k; done).
    unfold block_shape. rewrite !Heq. eexists. split; [eapply select_at; [reflexivity|reflexivity|done]|]. cbn [v_shape v_strides v_size v_offset].
    split; [done|]. split; [done|]. split.
    { cbn. do 2 f_equal. unfold block_dims. destruct k; [done| |done]. by destruct (is_fp8_kvcache g). }
    rewrite Z.add_0_l. cbn [delete list_delete]. unfold addresses. cbn [v_shape v_strides v_size v_offset].
    rewrite offsets_merge; [|unfold kvs; destruct k; lia|done].
    exact (Hrun (kvs * num_hidden_layers g)).
Qed.

Lemma subview_exact c0 b kv : kv_cache c0 = Some (primary_layout k c h) -> mode (cfg c0) = mode_of -> 0 <= b < count -> 0 <= kv < kvs ->
  exists v, subview c0 b kv = Ok v /\ nbytes v = num_hidden_layers g * bl_chunk (layout count) /\
    addresses v = seqZ 0 (num_hidden_layers g) ≫= fun l => chunk_addrs (layout count) (kv * num_hidden_layers g + l) b.
Proof.
  intros Hkv Hm Hb Hr. unfold subview. rewrite Hkv, Hm. cbn [of_option mbind result_bind]. rewrite primary_view.
  assert (Hrun : forall off, off = kv * (num_hidden_layers g * (count * block_stride_)) + b * block_stride_ ->
    addresses (mk_view off (num_hidden_layers g :: block_dims) (count * block_stride_ :: row_major block_dims) item_size)
    = seqZ 0 (num_hidden_layers g) ≫= fun l => chunk_addrs (layout count) (kv * num_hidden_layers g + l) b).
  { intros off ->. rewrite addresses_runs by done. apply bind_ext_in. intros l _. unfold chunk_addrs. rewrite <- run_start. do 2 f_equal. ring. }
  assert (Hnb : forall off strs, nbytes (mk_view off (num_hidden_layers g :: block_dims) strs item_size) = num_hidden_layers g * bl_chunk (layout count)).
  { intros off strs. unfold nbytes. cbn [v_shape v_size foldr layout bl_chunk]. ring. }
  destruct (decide (k = DSV4)) as [Hk|Hk]; [|destruct (decide (k = MLA)) as [Hk'|Hk']].
  - unfold mode_of. rewrite Hk. rewrite decide_True by done. eexists. split; [eapply select_at; [reflexivity|reflexivity|done]|]. cbn [v_shape v_strides v_size v_offset delete list_delete].
    split; [apply Hnb|]. apply Hrun. unfold kvs in Hr. rewrite Hk in Hr. replace kv with 0 by lia. lia.
  - unfold mode_of. rewrite Hk'. rewrite decide_False by done. rewrite decide_True by done.
    rewrite (select_at 0 0 kvs (num_hidden_layers g * (count * block_stride_))); [|done..|unfold kvs; destruct k; lia]. cbn [mbind result_bind v_shape v_strides v_size v_offset delete list_delete].
    eexists. split; [eapply select_at; [reflexivity|reflexivity|done]|]. cbn [v_shape v_strides v_size v_offset delete list_delete]. split; [apply Hnb|]. apply Hrun.
    unfold kvs in Hr. rewrite Hk' in Hr. replace kv with 0 by lia. lia.
  - assert (Hq : k = GQA) by (destruct k; done). unfold mode_of. rewrite Hq. rewrite !decide_False by done.
    rewrite (select_at 0 kv kvs (num_hidden_layers g * (count * block_stride_))) by done. cbn [mbind result_bind v_shape v_strides v_size v_offset delete list_delete].
    eexists. split; [eapply select_at; [reflexivity|reflexivity|done]|]. cbn [v_shape v_strides v_size v_offset delete list_delete]. split; [apply Hnb|]. apply Hrun. lia.
Qed.

Lemma block_addrs_kvs n b : block_addrs (layout n) b
  = seqZ 0 kvs ≫= fun kv => seqZ 0 (num_hidden_layers g) ≫= fun l => chunk_addrs (layout n) (kv * num_hidden_layers g + l) b.
Proof.
  unfold block_addrs. cbn [layout bl_rows]. rewrite <- (seqZ_runs kvs (num_hidden_layers g)) by (unfold kvs; destruct k; lia). rewrite bind_assoc_list.
  apply bind_ext_in. intros kv _. by rewrite list_fmap_bind.
Qed.
End layout.

(** * Names of files *)

Lemma hex_char_code d : 0 <= d < 16 -> nat_of_ascii (hex_char d) = Z.to_nat (if decide (d < 10) then 48 + d else 87 + d).
Proof. intros Hd. unfold hex_char. apply nat_ascii_embedding. case_decide; lia. Qed.

Lemma hex_char_inj d d' : 0 <= d < 16 -> 0 <= d' < 16 -> hex_char d = hex_char d' -> d = d'.
Proof.
  intros Hd Hd' Heq. apply (f_equal nat_of_ascii) in Heq. rewrite !hex_char_code in Heq by done. repeat case_decide; lia.
Qed.

Lemma hex_char_slash d : 0 <= d < 16 -> hex_char d <> "/"%char.
Proof.
  intros Hd Heq. apply (f_equal nat_of_ascii) in Heq. rewrite hex_char_code in Heq by done.
  change (nat_of_ascii "/") with 47%nat in Heq. case_decide; lia.
Qed.

Lemma hex_inj k n n' : 0 <= n < 16 ^ Z.of_nat k -> 0 <= n' < 16 ^ Z.of_nat k -> hex k n = hex k n' -> n = n'.
Proof.
  revert n n'. induction k as [|k IH]; intros n n' Hn Hn' Heq; [change (16 ^ Z.of_nat 0) with 1 in *; lia|]. cbn [hex] in Heq.
  rewrite Nat2Z.inj_succ, Z.pow_succ_r in Hn, Hn' by lia. apply app_inj_tail in Heq as [Heq Hc].
  apply hex_char_inj in Hc; [|apply Z.mod_pos_bound; lia..].
  apply IH in Heq; [|split; [apply Z.div_pos; lia|apply Z.div_lt_upper_bound; lia]..].
  rewrite (Z.div_mod n 16), (Z.div_mod n' 16) by lia. by rewrite Heq, Hc.
Qed.

Lemma hex_slash k n : "/"%char ∉ hex k n.
Proof.
  revert n. induction k as [|k IH]; intros n; cbn [hex]; [apply not_elem_of_nil|]. rewrite not_elem_of_app, list_elem_of_singleton. split; [apply IH|].
  intros Heq. symmetry in Heq. revert Heq. apply hex_char_slash, Z.mod_pos_bound. lia.
Qed.

Lemma length_hex k n : length (hex k n) = k.
Proof. revert n. induction k as [|k IH]; intros n; cbn [hex]; [done|]. rewrite length_app, IH. cbn. lia. Qed.

Lemma hash_name_inj h h' : hash_name h = hash_name h' <-> h mod 2 ^ 64 = h' mod 2 ^ 64.
Proof.
  unfold hash_name. rewrite !Z.land_ones by lia. split; [|by intros ->]. intros Heq. apply app_inv_tail in Heq.
  apply hex_inj in Heq; [done|..]; apply (Z.mod_pos_bound _ (2 ^ 64)); lia.
Qed.

Lemma startswith_slash s : startswith s (lit "/") = true -> head s = Some "/"%char.
Proof. unfold startswith. intros [l ->]%bool_decide_eq_true_1. done. Qed.

(** Names that do not start with a slash are put below the directory. *)
Lemma path_join_below a : exists d, forall b, startswith b (lit "/") = false -> path_join a b = d ++ b.
Proof.
  exists (if bool_decide (a = []) || endswith a (lit "/") then a else a ++ lit "/"). intros b Hb. unfold path_join. rewrite Hb.
  destruct (_ || _); [done|]. by rewrite <- app_assoc.
Qed.

Lemma hash_name_relative h : startswith (hash_name h) (lit "/") = false.
Proof.
  destruct (startswith _ _) eqn:E; [|done]. apply startswith_slash in E. unfold hash_name in E.
  pose proof (length_hex 16 (Z.land h (Z.ones 64))) as Hl. pose proof (hex_slash 16 (Z.land h (Z.ones 64))) as Hs.
  destruct (hex 16 _) as [|c s]; [done|]. cbn in E. injection E as ->. exfalso. apply Hs. apply list_elem_of_here.
Qed.

Lemma path_inj s h h' : path s h = path s h' <-> h mod 2 ^ 64 = h' mod 2 ^ 64.
Proof.
  unfold path. destruct (path_join_below (l3_dir s)) as [d Hd]. rewrite !Hd by apply hash_name_relative.
  rewrite <- hash_name_inj. split; [apply app_inv_head|by intros ->].
Qed.

(** * The staging buffer *)

Lemma length_buf_set s src buf : 0 <= s -> s + zlen src <= zlen buf -> length (buf_set s src buf) = length buf.
Proof. intros Hs Hl. unfold buf_set, zlen in *. rewrite !length_app, length_take, length_drop. lia. Qed.

Lemma buf_set_nil s buf : buf_set s [] buf = buf.
Proof. unfold buf_set. cbn [app length]. rewrite Nat.add_0_r. apply take_drop. Qed.

Lemma buf_set_app s x y buf : 0 <= s -> s + zlen x + zlen y <= zlen buf -> buf_set (s + zlen x) y (buf_set s x buf) = buf_set s (x ++ y) buf.
Proof.
  intros Hs Hl. unfold buf_set, zlen in *. rewrite Z2Nat.inj_add, Nat2Z.id by lia. rewrite length_app.
  assert (Hlen : length (take (Z.to_nat s) buf) = Z.to_nat s) by (rewrite length_take; lia).
  rewrite (take_app_ge (take (Z.to_nat s) buf)) by lia. rewrite Hlen.
  replace (Z.to_nat s + length x - Z.to_nat s)%nat with (length x) by lia. rewrite take_app_length.
  rewrite <- !app_assoc. do 3 f_equal. rewrite drop_app_ge by lia. rewrite Hlen, drop_app_ge by lia. rewrite drop_drop. f_equal. lia.
Qed.

Lemma length_buf_slice s n buf : 0 <= s -> 0 <= n -> s + n <= zlen buf -> zlen (buf_slice s n buf) = n.
Proof. intros Hs Hn Hl. unfold buf_slice, zlen in *. rewrite length_take, length_drop. lia. Qed.

Lemma buf_slice_app s n m buf : 0 <= s -> 0 <= n -> 0 <= m -> buf_slice s (n + m) buf = buf_slice s n buf ++ buf_slice (s + n) m buf.
Proof.
  intros Hs Hn Hm. unfold buf_slice. rewrite !Z2Nat.inj_add by lia. rewrite <- take_take_drop. by rewrite drop_drop.
Qed.

Lemma buf_slice_set src buf : zlen src <= zlen buf -> buf_slice 0 (zlen src) (buf_set 0 src buf) = src.
Proof. intros Hl. unfold buf_slice, buf_set, zlen in *. change (Z.to_nat 0) with 0%nat. rewrite take_0, drop_0, Nat2Z.id, app_nil_l. apply take_app_length. Qed.

Lemma buf_copy_exact s n src buf : 0 <= s -> n = zlen src -> s + n <= zlen buf -> buf_copy s n src buf = Ok (buf_set s src buf).
Proof.
  intros Hs -> Hl. unfold buf_copy. rewrite decide_True; [done|]. apply Nat2Z.inj. apply length_buf_slice; unfold zlen in *; lia.
Qed.

Lemma length_buf_copy s n src buf new : buf_copy s n src buf = Ok new -> length new = length buf.
Proof.
  assert (Hset : forall x, length (buf_slice s n buf) = length x -> length (buf_set s x buf) = length buf).
  { intros [|a x] Hx; [by rewrite buf_set_nil|]. unfold buf_slice in Hx. rewrite length_take, length_drop in Hx. cbn [length] in Hx.
    unfold buf_set. rewrite !length_app, length_take, length_drop. cbn [length]. lia. }
  unfold buf_copy. case_decide as Hl; [intros [= <-]; by apply Hset|]. destruct src as [|x [|? ?]]; try done. intros [= <-]. apply Hset. by rewrite length_replicate.
Qed.

(** A transfer that reports no error reports the bytes it moved: the target has them, in order from its
    start, and keeps the rest of its contents.  It may move fewer bytes than asked. *)
Definition moved (r : Z) (src dst : list Z) : list Z := take (Z.to_nat r) src ++ drop (Z.to_nat r) dst.

Class UsrbioCounts `{Usrbio} := {
  write_counts n buf file r new : io_write n buf file = (r, new) -> length file = length buf -> 0 <= r -> r <= zlen buf /\ new = moved r buf file;
  read_counts n file buf r new : io_read n file buf = (r, new) -> length file = length buf -> 0 <= r -> r <= zlen buf /\ new = moved r file buf;
  read_length n file buf : length (io_read n file buf).2 = length buf
}.

Lemma moved_all src dst : length src = length dst -> moved (zlen src) src dst = src.
Proof. intros Hl. unfold moved, zlen. rewrite Nat2Z.id, take_ge, drop_ge by lia. apply app_nil_r. Qed.

Lemma length_moved r src dst : length src = length dst -> length (moved r src dst) = length dst.
Proof. intros Hl. unfold moved. rewrite length_app, length_take, length_drop. lia. Qed.

(** * Workers *)

(** What the store relies on: the views of a block are its addresses, and the size computed
    for a block is the size of its views. *)
Record cache_blocks (c : CacheContext) (g : Blocks) : Prop := {
  cb_wf : blocks_wf g;
  cb_nbytes : compute_block_nbytes c = Ok (bl_rows g * bl_chunk g);
  cb_views : forall b, 0 <= b < bl_count g -> exists vs, Forall2 (fun kv v => subview c b kv = Ok v) (seqZ 0 (kv_count c)) vs /\
    (vs ≫= addresses) = block_addrs g b /\ Forall (fun v => nbytes v = zlen (addresses v)) vs
}.

Lemma get_bind {S A} (f : S -> act S A) s : (get ≫= f) s = f s s.
Proof. done. Qed.

Lemma zlen_app {A} (l k : list A) : zlen (l ++ k) = zlen l + zlen k.
Proof. unfold zlen. rewrite length_app. lia. Qed.

Lemma zlen_read m l : zlen (read m l) = zlen l.
Proof. unfold zlen, read. by rewrite length_fmap. Qed.

Lemma set_staging_twice a b w : set_staging a (set_staging b w) = set_staging a w.
Proof. done. Qed.

Section worker.
Context `{Usrbio}.

Lemma gather_exact vs kvs base off b w : 0 <= base + off -> Forall2 (fun kv v => subview (c_ctx (caches w)) b kv = Ok v) kvs vs ->
  Forall (fun v => nbytes v = zlen (addresses v)) vs -> base + off + zlen (vs ≫= addresses) <= zlen (staging (store_ w)) ->
  gather_block base off b kvs w = (Ok tt, set_staging (buf_set (base + off) (read (gpu (caches w)) (vs ≫= addresses)) (staging (store_ w))) w).
Proof.
  revert vs off w. induction kvs as [|kv kvs IH]; intros vs off w Hoff Hvs Hn Hl.
  { apply Forall2_nil_inv_l in Hvs as ->. unfold read. cbn. rewrite buf_set_nil. by destruct w as [? []]. }
  apply Forall2_cons_inv_l in Hvs as (v & vs' & Hv & Hvs & ->). apply Forall_cons_1 in Hn as [Hnv Hn]. rewrite bind_cons in *.
  rewrite zlen_app in Hl. assert (Hpos : 0 <= zlen (addresses v)) by (unfold zlen; lia). cbn [gather_block].
  rewrite get_bind, (lift_bind _ _ _ _ Hv). cbv zeta. rewrite Hnv.
  rewrite (lift_bind _ (buf_set (base + off) (read (gpu (caches w)) (addresses v)) (staging (store_ w))))
    by (apply buf_copy_exact; [done|by rewrite zlen_read|unfold zlen in *; lia]).
  rewrite modify_bind, (IH vs'); [|lia|done|done|]; cbn [set_staging set_store store_ staging caches].
  - rewrite set_staging_twice. do 2 f_equal. unfold read at 3. rewrite fmap_app. fold (read (gpu (caches w)) (addresses v)) (read (gpu (caches w)) (vs' ≫= addresses)).
    replace (base + (off + zlen (addresses v))) with (base + off + zlen (read (gpu (caches w)) (addresses v))) by (rewrite zlen_read; lia).
    apply buf_set_app; rewrite ?zlen_read; lia.
  - unfold zlen. rewrite length_buf_set; [fold (zlen (vs' ≫= addresses)) (zlen (addresses v)); unfold zlen in *; lia|lia|rewrite zlen_read; unfold zlen in *; lia].
Qed.

Lemma scatter_exact vs kvs base off b w : 0 <= base + off -> Forall2 (fun kv v => subview (c_ctx (caches w)) b kv = Ok v) kvs vs ->
  Forall (fun v => nbytes v = zlen (addresses v)) vs -> base + off + zlen (vs ≫= addresses) <= zlen (staging (store_ w)) ->
  scatter_block base off b kvs w
  = (Ok tt, set_caches (set_gpu (write (gpu (caches w)) (vs ≫= addresses) (buf_slice (base + off) (zlen (vs ≫= addresses)) (staging (store_ w)))) (caches w)) w).
Proof.
  revert vs off w. induction kvs as [|kv kvs IH]; intros vs off w Hoff Hvs Hn Hl.
  { apply Forall2_nil_inv_l in Hvs as ->. cbn. by destruct w as [[] []]. }
  apply Forall2_cons_inv_l in Hvs as (v & vs' & Hv & Hvs & ->). apply Forall_cons_1 in Hn as [Hnv Hn]. rewrite bind_cons in *.
  rewrite zlen_app in *. assert (Hpos : 0 <= zlen (addresses v)) by (unfold zlen; lia). assert (Hpos' : 0 <= zlen (vs' ≫= addresses)) by (unfold zlen; lia). cbn [scatter_block].
  rewrite get_bind, (lift_bind _ _ _ _ Hv). cbv zeta. rewrite Hnv.
  assert (Hraw : zlen (buf_slice (base + off) (zlen (addresses v)) (staging (store_ w))) = zlen (addresses v)) by (apply length_buf_slice; lia).
  rewrite raise_if_bind by by rewrite bool_decide_eq_true_2. rewrite modify_bind, (IH vs'); [|lia|done|done|cbn [set_caches store_]; lia].
  cbn [set_caches set_gpu caches c_ctx gpu host store_].
  rewrite buf_slice_app by lia. rewrite write_app by (apply Nat2Z.inj; symmetry; exact Hraw). by rewrite Z.add_assoc.
Qed.

(** ** One block *)

Definition block_bytes (g : Blocks) (w : L3Worker) (b : Z) : list Z := read (gpu (caches w)) (block_addrs g b).

(** A worker whose store was made for its cache. *)
Record ready (g : Blocks) (w : L3Worker) : Prop := {
  rd_blocks : cache_blocks (c_ctx (caches w)) g;
  rd_nbytes : block_nbytes (store_ w) = bl_rows g * bl_chunk g;
  rd_staging : block_nbytes (store_ w) <= zlen (staging (store_ w))
}.

Lemma zlen_block_addrs g b : blocks_wf g -> zlen (block_addrs g b) = bl_rows g * bl_chunk g.
Proof. intros Hg. unfold zlen. rewrite (length_block_addrs g Hg). destruct Hg as [? ?]. nia. Qed.

(** Storing a block that is not skipped: the block is handed to the transfer engine. *)
Lemma store_one_exact g w skip h b : ready g w -> 0 <= b < bl_count g -> skip && present w h = false ->
  let opened := ftruncate (block_nbytes (store_ w)) (default [] (files w !! path (store_ w) h)) in
  let '(r, new) := io_write (tick w) (block_bytes g w b) opened in
  exists w', store_block skip (h, b) w = (if r <? 0 then Err OSError else Ok tt, w') /\
    caches w' = caches w /\ files w' = <[path (store_ w) h := new]> (files w) /\ l3_dir (store_ w') = l3_dir (store_ w) /\
    block_nbytes (store_ w') = block_nbytes (store_ w) /\ zlen (staging (store_ w')) = zlen (staging (store_ w)).
Proof.
  intros [Hb Hn Hst] Hbr Hskip opened. destruct (cb_views _ _ Hb b Hbr) as (vs & Hvs & Haddr & Hnb). pose proof (zlen_block_addrs g b (cb_wf _ _ Hb)) as Hz.
  destruct (io_write (tick w) (block_bytes g w b) opened) as [r new] eqn:Eio. unfold store_block. rewrite get_bind. rewrite Hskip. cbv zeta.
  unfold mbind at 1, act_bind at 1. rewrite (gather_exact vs); [|lia|done|done|rewrite Haddr, Hz; lia]. rewrite Haddr. fold (block_bytes g w b).
  replace (0 * block_nbytes (store_ w) + 0) with 0 by lia. unfold write_file. unfold mbind at 1, act_bind at 1. rewrite get_bind.
  cbn [set_staging set_store store_ staging files block_nbytes tick caches]. fold opened.
  assert (Hzb : zlen (block_bytes g w b) = block_nbytes (store_ w)) by (unfold block_bytes; rewrite zlen_read, Hz; lia).
  assert (Hsl : buf_slice (0 * block_nbytes (store_ w)) (block_nbytes (store_ w)) (buf_set 0 (block_bytes g w b) (staging (store_ w))) = block_bytes g w b).
  { rewrite <- Hzb. apply buf_slice_set. lia. }
  rewrite Hsl, Eio, modify_bind. unfold raise_if. destruct (r <? 0); (eexists; split; [done|]); cbn [files caches store_ set_files set_store next_tick compose stored_one set_staging];
    (split; [done|]); (split; [done|]); (split; [done|]); (split; [done|]); unfold zlen in *; cbn [staging]; rewrite length_buf_set; unfold zlen; lia.
Qed.

Context `{!UsrbioCounts}.

(** Loading a block: what the transfer engine delivers is written to its addresses. *)
Lemma load_one_exact g w h b : ready g w -> 0 <= b < bl_count g -> present w h = true ->
  let '(r, new) := io_read (tick w) (default [] (files w !! path (store_ w) h)) (buf_slice 0 (block_nbytes (store_ w)) (staging (store_ w))) in
  exists w', load_block (h, b) w = (if r <? 0 then Err OSError else Ok tt, w') /\
    (0 <= r -> caches w' = set_gpu (write (gpu (caches w)) (block_addrs g b) new) (caches w)) /\ (r < 0 -> caches w' = caches w) /\
    files w' = files w /\ l3_dir (store_ w') = l3_dir (store_ w) /\
    block_nbytes (store_ w') = block_nbytes (store_ w) /\ zlen (staging (store_ w')) = zlen (staging (store_ w)).
Proof.
  intros [Hb Hn Hst] Hbr Hp. destruct (cb_views _ _ Hb b Hbr) as (vs & Hvs & Haddr & Hnb). pose proof (zlen_block_addrs g b (cb_wf _ _ Hb)) as Hz.
  set (buf := buf_slice 0 (block_nbytes (store_ w)) (staging (store_ w))).
  assert (Hnn : 0 <= block_nbytes (store_ w)) by (rewrite Hn, <- Hz; unfold zlen; lia).
  assert (Hbuf : zlen buf = block_nbytes (store_ w)) by (apply length_buf_slice; lia).
  pose proof (read_length (tick w) (default [] (files w !! path (store_ w) h)) buf) as Hlen.
  destruct (io_read (tick w) (default [] (files w !! path (store_ w) h)) buf) as [r new] eqn:Eio. cbn [snd] in Hlen.
  assert (Hnew : zlen new = block_nbytes (store_ w)) by (unfold zlen in *; lia).
  unfold load_block. rewrite get_bind. cbv zeta. rewrite raise_if_bind by by rewrite Hp. unfold read_file. unfold mbind at 1, act_bind at 1. rewrite get_bind. cbv zeta.
  replace (0 * block_nbytes (store_ w)) with 0 by lia. fold buf. rewrite Eio, modify_bind. unfold raise_if.
  assert (Hstg : zlen (buf_set 0 new (staging (store_ w))) = zlen (staging (store_ w))) by (unfold zlen at 1 2; rewrite length_buf_set; lia).
  destruct (Z.ltb_spec r 0) as [Hr|Hr].
  - eexists. split; [done|]. split; [lia|]. split; [done|]. cbn [compose next_tick set_staging set_store store_ staging files l3_dir block_nbytes]. by rewrite Hstg.
  - cbv iota beta. unfold mret, act_ret. unfold mbind at 1, act_bind at 1. rewrite (scatter_exact vs); [|lia|done|done|cbn [compose next_tick set_staging set_store store_ staging caches]; rewrite Haddr, Hz; lia].
    rewrite Haddr. eexists. split; [done|]. cbn [compose next_tick set_staging set_store set_caches loaded_one store_ staging caches files l3_dir block_nbytes].
    split; [|split; [lia|done]]. intros _. do 2 f_equal. rewrite Z.add_0_l, Hz, <- Hn, <- Hnew. apply buf_slice_set. lia.
Qed.

(** ** What no call changes *)

(** Whatever a call does, the layout of the cache, the place of the store and the contents of
    existing files stay. *)
Record evolves (w w' : L3Worker) : Prop := {
  ev_ctx : c_ctx (caches w') = c_ctx (caches w);
  ev_dir : l3_dir (store_ w') = l3_dir (store_ w);
  ev_nbytes : block_nbytes (store_ w') = block_nbytes (store_ w);
  ev_staging : zlen (staging (store_ w')) = zlen (staging (store_ w));
  ev_files : forall p v, files w !! p = Some v -> files w' !! p = Some v
}.

#[export] Instance evolves_preorder : PreOrder evolves.
Proof.
  split; [by split|]. intros w1 w2 w3 [] []. split; [congruence..|]. auto.
Qed.

Lemma evolves_ready g w w' : evolves w w' -> ready g w -> ready g w'.
Proof. intros [Hc Hd Hn Hs Hf] [Rb Rn Rs]. split; [by rewrite Hc|congruence|congruence]. Qed.

Definition quiet (w w' : L3Worker) : Prop := evolves w w' /\ files w' = files w /\ gpu (caches w') = gpu (caches w).

Lemma set_staging_quiet w b : length b = length (staging (store_ w)) -> quiet w (set_staging b w).
Proof. intros Hb. split; [|done]. split; try done. unfold zlen. cbn. by rewrite Hb. Qed.

Lemma gather_quiet base off b kvs w : quiet w (gather_block base off b kvs w).2.
Proof.
  revert off w. induction kvs as [|kv kvs IH]; intros off w; [by split|]. cbn [gather_block]. rewrite get_bind.
  destruct (subview (c_ctx (caches w)) b kv) as [sub|e] eqn:Es; [|by split]. rewrite (lift_bind (Ok sub) sub _ _ eq_refl). cbv zeta.
  destruct (buf_copy _ _ _ _) as [new|e] eqn:Ec; [|by split]. rewrite (lift_bind (Ok new) new _ _ eq_refl), modify_bind.
  destruct (set_staging_quiet w new (length_buf_copy _ _ _ _ _ Ec)) as (H1 & H2 & H3). destruct (IH (off + nbytes sub) (set_staging new w)) as (H1' & H2' & H3').
  split; [by etransitivity|]. split; congruence.
Qed.

Lemma scatter_evolves base off b kvs w : evolves w (scatter_block base off b kvs w).2 /\ files (scatter_block base off b kvs w).2 = files w.
Proof.
  revert off w. induction kvs as [|kv kvs IH]; intros off w; [by split|]. cbn [scatter_block]. rewrite get_bind.
  destruct (subview (c_ctx (caches w)) b kv) as [sub|e] eqn:Es; [|by split]. rewrite (lift_bind (Ok sub) sub _ _ eq_refl). cbv zeta.
  destruct (negb _); [by split|]. rewrite (raise_if_bind false) by done. rewrite modify_bind.
  match goal with |- evolves _ (scatter_block _ ?o _ _ ?w1).2 /\ _ => destruct (IH o w1) as [H1 H2] end. split; [|by rewrite H2]. etransitivity; [|exact H1]. by split.
Qed.

Lemma write_file_evolves p base w : files w !! p = None -> evolves w (write_file p base w).2.
Proof.
  intros Hp. unfold write_file. rewrite get_bind. cbv zeta. destruct (io_write _ _ _) as [r new]. rewrite modify_bind. unfold raise_if.
  destruct (r <? 0); split; try done; intros q v Hq; cbn; (destruct (decide (q = p)) as [->|Hne]; [congruence|by rewrite lookup_insert_ne]).
Qed.

Lemma read_file_evolves p base w : 0 <= base -> base + block_nbytes (store_ w) <= zlen (staging (store_ w)) -> 0 <= block_nbytes (store_ w) ->
  evolves w (read_file p base w).2 /\ files (read_file p base w).2 = files w.
Proof.
  intros Hb Hs Hn. unfold read_file. rewrite get_bind. cbv zeta.
  pose proof (read_length (tick w) (default [] (files w !! p)) (buf_slice base (block_nbytes (store_ w)) (staging (store_ w)))) as Hl.
  destruct (io_read _ _ _) as [r new]. cbn [snd] in Hl. rewrite modify_bind. pose proof (length_buf_slice base _ _ Hb Hn Hs) as Hl'.
  assert (Hz : zlen (buf_set base new (staging (store_ w))) = zlen (staging (store_ w))) by (unfold zlen at 1 2; rewrite length_buf_set; [done|lia|unfold zlen in *; lia]).
  unfold raise_if. destruct (r <? 0); (split; [by split|done]).
Qed.

Lemma evolves_bind {A B} (m : act L3Worker A) (f : A -> act L3Worker B) w :
  evolves w (m w).2 -> (forall a w', m w = (Ok a, w') -> evolves w' (f a w').2) -> evolves w ((m ≫= f) w).2.
Proof.
  intros Hm Hf. unfold mbind, act_bind. destruct (m w) as [[a|e] w'] eqn:Em; [|done]. etransitivity; [exact Hm|]. by apply Hf.
Qed.

Lemma store_one_evolves h b w : evolves w (store_block true (h, b) w).2.
Proof.
  unfold store_block. rewrite get_bind. cbn [andb]. cbv zeta. destruct (present w h) eqn:Hp; [done|].
  apply bool_decide_eq_false_1 in Hp. rewrite <- eq_None_not_Some in Hp.
  pose proof (gather_quiet (0 * block_nbytes (store_ w)) 0 b (seqZ 0 (kv_count (c_ctx (caches w)))) w) as (Hq & Hqf & _).
  apply evolves_bind; [done|]. intros [] w1 E1. rewrite E1 in Hqf. cbn [snd] in Hqf.
  apply evolves_bind; [apply write_file_evolves; by rewrite Hqf|]. intros [] w2 _. by split.
Qed.

Lemma load_one_evolves g h b w : ready g w -> evolves w (load_block (h, b) w).2 /\ files (load_block (h, b) w).2 = files w.
Proof.
  intros [Hb Hn Hs]. unfold load_block. rewrite get_bind. cbv zeta. replace (0 * block_nbytes (store_ w)) with 0 by lia.
  destruct (negb _); [by split|]. rewrite (raise_if_bind false) by done.
  pose proof (zlen_block_addrs g 0 (cb_wf _ _ Hb)) as Hz.
  destruct (read_file_evolves (path (store_ w) h) 0 w) as [H1 H2]; [lia|lia|rewrite Hn, <- Hz; unfold zlen; lia|].
  unfold mbind at 1 3, act_bind at 1 3. destruct (read_file _ _ _) as [[[]|e] w1]; [|done]. cbn [snd] in *.
  destruct (scatter_evolves 0 0 b (seqZ 0 (kv_count (c_ctx (caches w)))) w1) as [H3 H4].
  unfold mbind, act_bind. destruct (scatter_block _ _ _ _ w1) as [[[]|e] w2]; cbn [snd] in *.
  - split; [|cbn; congruence]. etransitivity; [exact H1|]. etransitivity; [exact H3|]. by split.
  - split; [|congruence]. by etransitivity.
Qed.

Lemma store_evolves pairs w : evolves w (store pairs true w).2.
Proof.
  revert w. induction pairs as [|[h b] pairs IH]; intros w; [done|]. cbn [store]. apply evolves_bind; [apply store_one_evolves|]. intros [] w1 _.
  apply evolves_bind; [apply IH|]. done.
Qed.

Lemma load_evolves g pairs w : ready g w -> evolves w (load pairs w).2 /\ files (load pairs w).2 = files w.
Proof.
  revert w. induction pairs as [|[h b] pairs IH]; intros w Hr; [done|]. cbn [load]. destruct (load_one_evolves g h b w Hr) as [H1 H2].
  unfold mbind at 1 3, act_bind at 1 3. destruct (load_block (h, b) w) as [[[]|e] w1]; [|done]. cbn [snd] in *.
  destruct (IH w1) as [H3 H4]; [by eapply evolves_ready|]. unfold mbind, act_bind. destruct (load pairs w1) as [[n|e] w2]; cbn in H3, H4 |- *; (split; [by etransitivity|congruence]).
Qed.

(** ** Storing several blocks *)

Lemma path_dir s s' h : l3_dir s = l3_dir s' -> path s h = path s' h.
Proof. unfold path. by intros ->. Qed.

Lemma length_ftruncate n l : 0 <= n -> zlen (ftruncate n l) = n.
Proof. intros Hn. unfold ftruncate, zlen. rewrite length_app, length_take, length_replicate. lia. Qed.

(** A new file before its transfer. *)
Definition zeros (w : L3Worker) : list Z := replicate (Z.to_nat (block_nbytes (store_ w))) 0.

(** Storing blocks stops with the error of a transfer or returns all the hashes; then the file of a
    hash that was absent is what one transfer of its block left. *)
Lemma store_writes g pairs w hs w' : ready g w -> Forall (fun p => 0 <= p.2 < bl_count g) pairs -> store pairs true w = (Ok hs, w') ->
  hs = pairs.*1 /\ caches w' = caches w /\
  forall h b, (h, b) ∈ pairs -> files w !! path (store_ w) h = None -> (forall h' b', (h', b') ∈ pairs -> path (store_ w) h' = path (store_ w) h -> b' = b) ->
    exists n r, io_write n (block_bytes g w b) (zeros w) = (r, moved r (block_bytes g w b) (zeros w)) /\ 0 <= r <= block_nbytes (store_ w) /\
      files w' !! path (store_ w) h = Some (moved r (block_bytes g w b) (zeros w)).
Proof.
  intros Hr Hv. revert w hs Hr. induction Hv as [|[h0 b0] pairs Hb _ IH]; intros w hs Hr Hst; [by injection Hst as <- <-; split_and!; [done..|intros h b []%elem_of_nil]|].
  cbn [store snd] in *. unfold mbind at 1, act_bind at 1 in Hst. destruct (store_block true (h0, b0) w) as [[[]|e] w1] eqn:E1; [|done].
  unfold mbind, act_bind in Hst. destruct (store pairs true w1) as [[hs1|e] w2] eqn:E2; [|done]. injection Hst as <- <-.
  pose proof (store_one_evolves h0 b0 w) as Hev. rewrite E1 in Hev. cbn [snd] in Hev. pose proof (store_evolves pairs w1) as Hev2. rewrite E2 in Hev2. cbn [snd] in Hev2.
  destruct (IH w1 hs1 (evolves_ready g _ _ Hev Hr) E2) as (-> & Hc2 & Hf2).
  assert (Hd : forall h, path (store_ w1) h = path (store_ w) h) by (intros h; apply path_dir; by destruct Hev).
  assert (Hz1 : zeros w1 = zeros w) by (unfold zeros; by destruct Hev as [_ _ -> _ _]).
  assert (caches w1 = caches w /\ (present w h0 = false -> exists n r, io_write n (block_bytes g w b0) (zeros w) = (r, moved r (block_bytes g w b0) (zeros w)) /\
      0 <= r <= block_nbytes (store_ w) /\ files w1 = <[path (store_ w) h0 := moved r (block_bytes g w b0) (zeros w)]> (files w)) /\ (present w h0 = true -> files w1 = files w)) as (Hc1 & Hnew & Hold).
  { destruct (present w h0) eqn:Hp.
    - unfold store_block in E1. rewrite get_bind, Hp in E1. cbn in E1. by injection E1 as <-.
    - pose proof (store_one_exact g w true h0 b0 Hr Hb Hp) as Hone. cbv zeta in Hone.
      apply bool_decide_eq_false_1 in Hp. rewrite <- eq_None_not_Some in Hp. rewrite Hp in Hone. cbn [from_option Datatypes.id default] in Hone.
      unfold ftruncate in Hone. rewrite take_nil in Hone. cbn [app length] in Hone. rewrite Nat.sub_0_r in Hone. fold (zeros w) in Hone.
      assert (Hnb : zlen (block_bytes g w b0) = block_nbytes (store_ w)) by (unfold block_bytes; rewrite zlen_read, zlen_block_addrs; destruct Hr as [[]]; congruence).
      assert (Hlz : length (zeros w) = length (block_bytes g w b0)) by (unfold zeros; rewrite length_replicate, <- Hnb; unfold zlen; lia).
      destruct (io_write _ _ _) as [r new] eqn:Eio. destruct Hone as (w1' & Hst1 & Hcs & Hfs & _). rewrite E1 in Hst1. destruct (Z.ltb_spec r 0) as [|Hpos]; [done|]. injection Hst1 as <-.
      split; [done|]. split; [|done]. intros _. destruct (write_counts _ _ _ _ _ Eio Hlz Hpos) as [Hle ->]. exists (tick w), r. split_and!; [done|lia|lia|done]. }
  split; [done|]. split; [congruence|]. intros h b Hin Habs Huniq.
  assert (Hbb : block_bytes g w1 b = block_bytes g w b) by (unfold block_bytes; by rewrite Hc1).
  destruct (decide (path (store_ w) h0 = path (store_ w) h)) as [He|Hne].
  - assert (b0 = b) as -> by (eapply (Huniq h0); [apply list_elem_of_here|done]).
    assert (present w h0 = false) as Hp by (unfold present; rewrite He, Habs; by apply bool_decide_eq_false_2; intros []).
    destruct (Hnew Hp) as (n & r & Hio & Hr' & Hf1). exists n, r. split_and!; [done|lia|lia|]. apply (ev_files _ _ Hev2). rewrite Hf1, He. apply lookup_insert_eq.
  - apply elem_of_cons in Hin as [[= -> ->]|Hin]; [done|]. destruct (Hf2 h b Hin) as (n & r & Hio & Hr' & Hf').
    + rewrite Hd. destruct (present w h0) eqn:Hp; [by rewrite Hold|]. destruct (Hnew eq_refl) as (n & r & _ & _ & ->). by rewrite lookup_insert_ne.
    + intros h' b' Hin' He'. rewrite !Hd in He'. eapply Huniq; [by apply list_elem_of_further|done].
    + rewrite Hbb, Hz1, Hd in *. exists n, r. destruct Hev as [_ _ Hn _ _]. rewrite Hn in Hr'. done.
Qed.

(** ** Runs of a worker *)

Inductive worker_step : L3Worker -> L3Worker -> Prop :=
  | step_store w pairs : worker_step w (l3_store_blocks true pairs w).2
  | step_load w pairs : worker_step w (l3_load_blocks true pairs w).2
  | step_compute w m : worker_step w (set_caches (set_gpu m (caches w)) w)
  | step_swap w m : worker_step w (set_caches (set_host m (caches w)) w)
  | step_other_files w p v : (forall h, p <> path (store_ w) h) -> worker_step w (set_files (<[p := v]> (files w)) w).

(** The files of the store keep their contents. *)
Definition keeps (w w' : L3Worker) : Prop :=
  c_ctx (caches w') = c_ctx (caches w) /\ l3_dir (store_ w') = l3_dir (store_ w) /\ block_nbytes (store_ w') = block_nbytes (store_ w) /\
  zlen (staging (store_ w')) = zlen (staging (store_ w)) /\
  forall h v, files w !! path (store_ w) h = Some v -> files w' !! path (store_ w) h = Some v.

Lemma evolves_keeps w w' : evolves w w' -> keeps w w'.
Proof. intros []. split_and!; try done. auto. Qed.

Lemma keeps_ready g w w' : keeps w w' -> ready g w -> ready g w'.
Proof. intros (Hc & Hd & Hn & Hs & _) [Rb Rn Rs]. split; [by rewrite Hc|congruence|congruence]. Qed.

Lemma worker_step_keeps g w w' : ready g w -> worker_step w w' -> keeps w w'.
Proof.
  intros Hr Hst. destruct Hst as [w pairs|w pairs|w m|w m|w p v Hp]; [| |done|done|].
  - apply evolves_keeps. unfold l3_store_blocks. destruct (negb true || _); [done|]. apply evolves_bind; [apply store_evolves|done].
  - apply evolves_keeps. unfold l3_load_blocks. destruct (negb true || _); [done|]. by apply (load_evolves g).
  - split_and!; try done. intros h v' Hv. cbn. by rewrite lookup_insert_ne.
Qed.

Lemma worker_steps_keep g w w' : ready g w -> rtc worker_step w w' -> keeps w w'.
Proof.
  intros Hr Hst. induction Hst as [w|w w1 w2 H1 _ IH]; [done|]. pose proof (worker_step_keeps g _ _ Hr H1) as K1. specialize (IH (keeps_ready g _ _ K1 Hr)).
  destruct K1 as (? & Hd & ? & ? & Hf), IH as (? & ? & ? & ? & Hf'). split_and!; try congruence. intros h v Hv.
  rewrite <- (path_dir (store_ w1) (store_ w) h Hd). apply Hf'. rewrite (path_dir (store_ w1) (store_ w) h Hd). auto.
Qed.
End worker.

(** * Allocated caches *)

(** Dimensions as a model configuration has them. *)
Record sizes_ok (c : CacheContext) : Prop := {
  sz_block : 0 <= block_size (cfg c);
  sz_layers : 0 <= num_hidden_layers (cfg c);
  sz_heads : 0 <= num_kv_heads c;
  sz_dim : 0 <= head_dim c;
  sz_tp : 0 < attention_tp (cfg c);
  sz_item : 0 <= dtype_itemsize (cfg c);
  sz_rank : 0 <= kv_lora_rank (cfg c);
  sz_rope : 0 <= qk_rope_head_dim (cfg c)
}.

(** A cache that was configured, sized and allocated with [n] blocks. *)
Definition allocated (n : Z) (k : CacheKind) (c : CacheContext) : Prop :=
  exists c0 c1 c2 bytes, resolve_cache_backend (mode (cfg c0)) = Ok k /\ configure k c0 = Ok c1 /\
    get_block_bytes k c1 = Ok (bytes, c2) /\ allocate_kvcache n c2 = Ok c /\ sizes_ok c0 /\ 0 <= n.

(** The number of KV heads of a rank. *)
Definition local_heads (c : CacheContext) : Z := match num_local_kv_heads c with Ok h => h | Err _ => 0 end.

Definition blocks_of (k : CacheKind) (c : CacheContext) : Blocks := layout k c (local_heads c) (count k c).

Lemma resolve_mode_of kind k : resolve_cache_backend kind = Ok k -> kind = mode_of k.
Proof. unfold resolve_cache_backend. repeat case_decide; intros [= <-]; done. Qed.

(** What allocation leaves behind. *)
Record allocated_facts (n : Z) (k : CacheKind) (c : CacheContext) : Prop := {
  af_mode : mode (cfg c) = mode_of k;
  af_kv : kv_cache c = Some (primary_layout k c (local_heads c));
  af_blocks : num_local_kvcache_blocks c = n;
  af_dims : Forall (Z.le 0) (block_dims k c (local_heads c));
  af_item : 0 <= item_size k c;
  af_layers : 0 <= num_hidden_layers (cfg c);
  af_block : 0 <= block_size (cfg c);
  af_heads : k <> DSV4 -> num_local_kv_heads c = Ok (local_heads c);
  af_fp8 : k = MLA -> is_fp8_kvcache (cfg c) = true -> exists f, fp8_head_dim c = Some f /\ (raw_fp8_mla_layout (cfg c) = true -> f = head_dim c);
  af_fp8_heads : k = MLA -> local_heads c = 1
}.

Lemma allocated_spec n k c : allocated n k c -> allocated_facts n k c.
Proof.
  intros (c0 & c1 & c2 & bytes & Hk & Hc & Hb & Ha & Hsz & Hn). pose proof (configure_cfg _ _ _ Hc) as Hcfg. apply resolve_mode_of in Hk.
  destruct (get_block_bytes_Ok _ _ _ _ Hb) as (h & Hh & Hspec).
  assert (exists f2, c2 = set_heads (num_kv_heads c1) (head_dim c1) f2 c1) as [f2 Hc2].
  { destruct k; [destruct Hspec as [_ ->]|destruct Hspec as (f & -> & _); by eexists|destruct Hspec as [_ ->]]; exists (fp8_head_dim c1); by destruct c1. }
  unfold allocate_kvcache in Ha. rewrite Hc2 in Ha. cbn [set_blocks set_heads cfg num_host_kvcache_blocks] in Ha. rewrite Hcfg, Hk in Ha.
  assert (Hres : resolve_cache_backend (mode_of k) = Ok k) by by destruct k. rewrite Hres in Ha. cbn [mbind result_bind] in Ha.
  apply allocate_Ok in Ha as (h' & f & Hh' & _ & ->).
  set (cA := set_blocks n _ _) in *. set (c := set_kv _ _).
  assert (Hl : num_local_kv_heads c = num_local_kv_heads c1) by done.
  assert (Hsame : num_local_kv_heads cA = num_local_kv_heads c1) by done. rewrite Hsame in Hh'.
  assert (Hhc : k <> DSV4 -> num_local_kv_heads c1 = Ok (local_heads c)) by (intros Hd; unfold local_heads; by rewrite Hl, Hh).
  assert (Hlay : primary_layout k cA h' = primary_layout k c (local_heads c)).
  { destruct k; [| |done].
    - rewrite Hhc in Hh' by done. specialize (Hh' ltac:(done) ltac:(done)). transitivity (primary_layout GQA cA (local_heads c)); [congruence|done].
    - unfold primary_layout. change (cfg c) with (cfg cA). destruct (is_fp8_kvcache (cfg cA)) eqn:E8; [done|].
      rewrite Hhc in Hh' by done. specialize (Hh' ltac:(done) ltac:(done)). assert (He : h' = local_heads c) by congruence. rewrite He at 1. done. }
  assert (Hmla : k = MLA -> local_heads c = 1).
  { intros ->. specialize (Hhc ltac:(done)). unfold num_local_kv_heads in Hhc. rewrite Hcfg, Hk in Hhc. cbn in Hhc. by injection Hhc as <-. }
  assert (Hheads : 0 <= local_heads c).
  { unfold local_heads. rewrite Hl. unfold num_local_kv_heads. case_decide; [lia|]. rewrite Hcfg. unfold py_floordiv. case_decide; [lia|].
    apply Z.div_pos; [|by destruct Hsz]. unfold configure, configure_gqa_cache, configure_mla_cache, configure_dsv4_cache in Hc.
    destruct Hsz. destruct k; repeat case_decide; try done; injection Hc as <-; cbn; lia. }
  assert (Hdim : 0 <= head_dim c1).
  { unfold configure, configure_gqa_cache, configure_mla_cache, configure_dsv4_cache in Hc. destruct Hsz. destruct k; repeat case_decide; try done; injection Hc as <-; cbn; lia. }
  assert (Hf8 : k = MLA -> is_fp8_kvcache (cfg c) = true -> exists f, fp8_head_dim c = Some f /\ 0 <= f /\ (raw_fp8_mla_layout (cfg c) = true -> f = head_dim c)).
  { intros -> E8. change (cfg c) with (cfg c1) in *. unfold get_block_bytes, get_mla_block_bytes in Hb. rewrite E8 in Hb.
    rewrite Hhc in Hb by done. cbn [mbind result_bind] in Hb. destruct (raw_fp8_mla_layout (cfg c1)) eqn:Er; injection Hb as _ Hb; rewrite <- Hb in Hc2;
      injection Hc2 as Hc2; eexists; (split; [symmetry; exact Hc2|]).
    - split; [done|]. by intros _.
    - split; [|done]. rewrite Hcfg. destruct Hsz. unfold FP8_QUANT_TILE_SIZE. pose proof (Z.div_pos (kv_lora_rank (cfg c0)) 128). lia. }
  split; try done.
  - change (cfg c) with (cfg c1). by rewrite Hcfg.
  - by rewrite <- Hlay.
  - unfold block_dims. change (cfg c) with (cfg c1). change (head_dim c) with (head_dim c1). destruct Hsz. rewrite Hcfg in *.
    destruct k; [by repeat constructor| |by repeat constructor]. change (cfg c) with (cfg c1) in Hf8. rewrite Hcfg in Hf8.
    destruct (is_fp8_kvcache (cfg c0)); [|by repeat constructor]. destruct (Hf8 eq_refl eq_refl) as (f' & -> & Hf' & _).
    destruct (raw_fp8_mla_layout (cfg c0)); by repeat constructor.
  - unfold item_size. change (cfg c) with (cfg c1). rewrite Hcfg. destruct Hsz, k; [done|by case_match|done].
  - change (cfg c) with (cfg c1). rewrite Hcfg. by destruct Hsz.
  - change (cfg c) with (cfg c1). rewrite Hcfg. by destruct Hsz.
  - intros Hm E8. destruct (Hf8 Hm E8) as (f' & ? & _ & ?). by exists f'.
Qed.

Lemma kv_count_kvs k c : mode (cfg c) = mode_of k -> kv_count c = kvs k.
Proof. unfold kv_count. intros ->. by destruct k. Qed.

(** The size computed for a block is the size of its views, and the views of a block are its
    bytes in the cache. *)
Lemma allocated_blocks n k c : allocated n k c -> cache_blocks c (blocks_of k c).
Proof.
  intros Ha. pose proof (allocated_spec n k c Ha) as Hs. destruct Ha as (_ & _ & _ & _ & _ & _ & _ & _ & _ & Hn). destruct Hs as [Hm Hkv Hnb Hd Hi HL Hb Hh Hf Hf1]. split.
  - by apply layout_wf.
  - unfold compute_block_nbytes, blocks_of, layout. cbn [bl_rows bl_chunk]. rewrite Hm. destruct k; cbn [mode_of kvs].
    + rewrite (decide_False (P := "gqa" = "dsv4")), (decide_False (P := "gqa" = "mla" /\ _)) by naive_solver. rewrite (decide_True (P := "gqa" = "gqa")), Hh by done.
      cbn [mbind result_bind]. f_equal. unfold item_size, block_dims. cbn [foldr]. ring.
    + rewrite (decide_False (P := "mla" = "dsv4")) by done. unfold item_size, block_dims. destruct (is_fp8_kvcache (cfg c)) eqn:E8.
      * rewrite decide_True by done. destruct (Hf eq_refl eq_refl) as (f & -> & Hraw). cbn [of_option mbind result_bind default]. f_equal.
        destruct (raw_fp8_mla_layout (cfg c)); [rewrite Hraw by done|unfold id; cbn [from_option]]; cbn [foldr]; ring.
      * rewrite (decide_False (P := "mla" = "mla" /\ _)) by naive_solver. rewrite (decide_False (P := "mla" = "gqa")), Hh by done.
        cbn [mbind result_bind]. f_equal. cbn [foldr]. ring.
    + rewrite decide_True by done. f_equal. unfold item_size, block_dims, DSV4_BYTES_PER_TOKEN. cbn [foldr]. ring.
  - intros b Hbr. rewrite (kv_count_kvs k) by done. unfold blocks_of in *. cbn [layout bl_count] in Hbr.
    assert (Hsub : forall kv, 0 <= kv < kvs k -> exists v, subview c b kv = Ok v /\ nbytes v = num_hidden_layers (cfg c) * bl_chunk (layout k c (local_heads c) (count k c)) /\
      addresses v = seqZ 0 (num_hidden_layers (cfg c)) ≫= fun l => chunk_addrs (layout k c (local_heads c) (count k c)) (kv * num_hidden_layers (cfg c) + l) b).
    { intros kv Hkvr. by apply subview_exact. }
    assert (Hwf := layout_wf k c (local_heads c) Hd Hi HL Hb (count k c)).
    rewrite block_addrs_kvs by done. set (g := layout k c (local_heads c) (count k c)) in *. set (L := num_hidden_layers (cfg c)) in *.
    assert (Hl : forall l, Forall (fun kv => 0 <= kv < kvs k) l -> exists vs, Forall2 (fun kv v => subview c b kv = Ok v) l vs /\
      (vs ≫= addresses) = (l ≫= fun kv => seqZ 0 L ≫= fun r => chunk_addrs g (kv * L + r) b) /\ Forall (fun v => nbytes v = zlen (addresses v)) vs).
    { induction 1 as [|kv l Hkvr _ (vs & H1 & H2 & H3)]; [by exists []|]. destruct (Hsub kv Hkvr) as (v & Hv & Hnv & Hav). exists (v :: vs).
      rewrite !bind_cons, Hav, H2. split_and!; [by constructor|done|]. constructor; [|done]. rewrite Hnv, Hav. unfold zlen, chunk_addrs.
      destruct Hwf as [_ Hc]. rewrite length_runs by lia. nia. }
    apply Hl, Forall_seqZ. lia.
Qed.

(** * Files of blocks *)

Lemma l3_init_ready n k c mountpoint dir blocks rank s m hm f t : allocated n k c -> l3_init c mountpoint dir blocks rank = Ok s ->
  ready (blocks_of k c) (mk_worker (mk_caches c m hm) s f t).
Proof.
  intros Ha Hi. pose proof (allocated_blocks n k c Ha) as Hb. unfold l3_init in Hi. rewrite (cb_nbytes _ _ Hb) in Hi. cbn [mbind result_bind] in Hi.
  case_decide as Ht; [done|]. injection Hi as <-. split; [done|done|]. cbn [store_ block_nbytes staging]. unfold zlen. rewrite length_replicate.
  pose proof (zlen_block_addrs _ 0 (cb_wf _ _ Hb)) as Hz. assert (0 <= zlen (block_addrs (blocks_of k c) 0)) by (unfold zlen; lia). nia.
Qed.

(** C24. What a load of a stored block brings back, short transfers included.  From a store made for an
    allocated cache, after any calls and computations, a block is stored under a hash that was absent;
    whatever is stored, loaded and computed afterwards, failed calls included, loading the hash into any block gives
    that block the bytes the stored block had, provided the transfer engine reports the whole
    block for that write and for that read, and changes no other block.  [store] and [load] accept a
    transfer of fewer bytes: a block whose write was short comes back with zeros after the bytes
    written, and one whose read was short with what the staging buffer held. *)
Theorem l3_roundtrip `{UsrbioCounts} n k c mountpoint dir blocks rank s m hm f t w w1 w2 w3 pairs hs loaded h b b' :
  let g := blocks_of k c in
  allocated n k c -> l3_init c mountpoint dir blocks rank = Ok s ->
  rtc worker_step (mk_worker (mk_caches c m hm) s f t) w ->
  Forall (fun p => 0 <= p.2 < bl_count g) pairs -> (h, b) ∈ pairs -> present w h = false ->
  (forall h' b', (h', b') ∈ pairs -> h' mod 2 ^ 64 = h mod 2 ^ 64 -> b' = b) ->
  store pairs true w = (Ok hs, w1) -> rtc worker_step w1 w2 ->
  0 <= b' < bl_count g -> load [(h, b')] w2 = (Ok loaded, w3) ->
  hs = pairs.*1 /\ loaded = 1 /\
  (exists nw written read,
     let file := moved written (block_bytes g w b) (replicate (length (block_bytes g w b)) 0) in
     let staged := take (length (block_bytes g w b)) (staging (store_ w2)) in
     (io_write nw (block_bytes g w b) (replicate (length (block_bytes g w b)) 0)).1 = written /\ 0 <= written <= zlen (block_bytes g w b) /\
     (io_read (tick w2) file staged).1 = read /\ 0 <= read <= zlen (block_bytes g w b) /\
     block_bytes g w3 b' = moved read file staged /\
     (written = zlen (block_bytes g w b) -> read = zlen (block_bytes g w b) -> block_bytes g w3 b' = block_bytes g w b)) /\
  forall x, 0 <= x < bl_count g -> x <> b' -> block_bytes g w3 x = block_bytes g w2 x.
Proof.
  intros g Ha Hi Hsteps Hv Hin Habs Huniq Hst Hsteps' Hb' Hld.
  pose proof (l3_init_ready n k c mountpoint dir blocks rank s m hm f t Ha Hi) as Hr0. fold g in Hr0.
  pose proof (keeps_ready g _ _ (worker_steps_keep g _ _ Hr0 Hsteps) Hr0) as Hr.
  destruct (store_writes g pairs w hs w1 Hr Hv Hst) as (-> & Hc & Hnew). split; [done|].
  pose proof (store_evolves pairs w) as Hev. rewrite Hst in Hev. cbn [snd] in Hev. pose proof (evolves_ready g _ _ Hev Hr) as Hr1.
  pose proof (worker_steps_keep g _ _ Hr1 Hsteps') as Hk. pose proof (keeps_ready g _ _ Hk Hr1) as Hr2.
  assert (Hz : zlen (block_bytes g w b) = block_nbytes (store_ w)) by (unfold block_bytes; rewrite zlen_read, zlen_block_addrs; destruct Hr as [[]]; congruence).
  destruct (Hnew h b Hin) as (nw & written & Hio & Hwr & Hfile1).
  { apply bool_decide_eq_false_1 in Habs. by apply eq_None_not_Some. }
  { intros h' b'' Hin' Hp. apply (Huniq h' b'' Hin'). by apply (path_inj (store_ w)). }
  assert (Hzeros : zeros w = replicate (length (block_bytes g w b)) 0) by (unfold zeros; rewrite <- Hz; unfold zlen; by rewrite Nat2Z.id). rewrite Hzeros in *.
  set (bytes := block_bytes g w b) in *. set (file := moved written bytes (replicate (length bytes) 0)) in *.
  assert (Hfile : files w2 !! path (store_ w2) h = Some file).
  { destruct Hk as (_ & Hd & _ & _ & Hk). rewrite (path_dir (store_ w2) (store_ w1) h) by done. apply Hk. by rewrite (path_dir (store_ w1) (store_ w) h) by by destruct Hev. }
  assert (Hp2 : present w2 h = true) by (unfold present; rewrite Hfile; by apply bool_decide_eq_true_2).
  assert (Hn2 : block_nbytes (store_ w2) = zlen bytes) by (destruct Hk as (_ & _ & Hn & _), Hev as [_ _ Hn' _ _]; congruence).
  pose proof (load_one_exact g w2 h b' Hr2 Hb' Hp2) as Hl. rewrite Hfile, Hn2 in Hl. cbn [from_option default] in Hl. unfold Datatypes.id in Hl.
  assert (Hbuf : buf_slice 0 (zlen bytes) (staging (store_ w2)) = take (length bytes) (staging (store_ w2))) by (unfold buf_slice, zlen; by rewrite Nat2Z.id).
  rewrite Hbuf in Hl. set (staged := take (length bytes) (staging (store_ w2))) in *.
  assert (Hls : length staged = length bytes) by (unfold staged; rewrite length_take; destruct Hr2 as [_ _ Rs]; unfold zlen in *; lia).
  assert (Hlf : length file = length bytes) by (unfold file; rewrite length_moved; rewrite length_replicate; done).
  destruct (io_read (tick w2) file staged) as [r new] eqn:Eio. destruct Hl as (w4 & Hl & Hcp & _). cbn [load] in Hld. unfold mbind at 1, act_bind at 1 in Hld. rewrite Hl in Hld.
  destruct (Z.ltb_spec r 0) as [Hneg|Hpos]; [done|]. cbn in Hld. injection Hld as <- <-. specialize (Hcp Hpos). split; [done|].
  assert (Hwf := cb_wf _ _ (rd_blocks _ _ Hr2)). destruct (read_counts _ _ _ _ _ Eio ltac:(lia) Hpos) as [Hrl ->].
  assert (Hgot : block_bytes g w4 b' = moved r file staged).
  { unfold block_bytes. rewrite Hcp. cbn [set_gpu gpu]. apply read_write_same; [by apply block_addrs_NoDup|]. rewrite length_moved by lia. rewrite Hls.
    unfold bytes, block_bytes, read. rewrite length_fmap. by rewrite !length_block_addrs. }
  split.
  - exists nw, written, r. cbv zeta. fold file. split; [by rewrite Hio|]. split; [lia|]. split; [by rewrite Eio|]. split; [unfold zlen in *; lia|]. split; [done|].
    intros -> ->. rewrite Hgot. replace (zlen bytes) with (zlen file) by (unfold zlen; by rewrite Hlf). rewrite moved_all by lia. apply moved_all. by rewrite length_replicate.
  - intros x Hx Hne. unfold block_bytes. rewrite Hcp. cbn [set_gpu gpu]. apply read_write_disjoint. intros a. by apply block_addrs_disjoint.
Qed.

(** A transfer engine that never fails on files of the right size. *)
Definition whole_io : Usrbio := {|
  io_write _ buf file := (zlen buf, buf);
  io_read _ file buf := if decide (length file = length buf) then (zlen file, file) else (-5, buf)
|}.

Lemma whole_io_counts : UsrbioCounts (H := whole_io).
Proof.
  split; cbn.
  - intros n buf file r new [= <- <-] Hl _. split; [done|]. by rewrite moved_all.
  - intros n file buf r new Heq Hl _. rewrite decide_True in Heq by done. injection Heq as <- <-. split; [unfold zlen; lia|]. by rewrite moved_all.
  - intros n file buf. by case_decide.
Qed.

(** A small cache: K and V of two layers, three blocks of one token with one head of two
    elements of one byte. *)
Definition demo_ctx0 : CacheContext :=
  mk_ctx (mk_cfg 1 2 1 1 "gqa" 0 0 false false 0 false None 4 0) 1 2 None 0 0 "cuda" None None None (mk_gdn None None 0 0) None empty_csa 0 None.

Definition demo_ctx : CacheContext := match allocate_kvcache 3 (set_fp8 0 demo_ctx0) with Ok c => c | Err _ => demo_ctx0 end.

Lemma demo_allocated : allocated 3 GQA demo_ctx.
Proof.
  exists demo_ctx0, (set_fp8 0 demo_ctx0), (set_fp8 0 demo_ctx0). eexists. split; [reflexivity|]. split; [reflexivity|]. split; [reflexivity|].
  split; [reflexivity|]. split; [|lia]. split; cbn; lia.
Qed.

Definition demo_store : L3Store := match l3_init demo_ctx (lit "/3fs/mnt/") None 1 0 with Ok s => s | Err _ => mk_l3 [] 0 0 [] 0 0 0 0 end.

Definition demo_worker : L3Worker := mk_worker (mk_caches demo_ctx (fun a => a) (fun _ => 0)) demo_store ∅ 0.

Lemma l3_roundtrip_witness :
  let st := store (H := whole_io) [(-1, 1); (7, 0)] true demo_worker in
  let w2 := set_caches (set_gpu (fun _ => 9) (caches st.2)) st.2 in
  let ld := load (H := whole_io) [(-1, 2)] w2 in
  block_bytes (blocks_of GQA demo_ctx) ld.2 2 = [2; 3; 8; 9; 14; 15; 20; 21] /\ block_bytes (blocks_of GQA demo_ctx) ld.2 1 = replicate 8 9.
Proof.
  intros st w2 ld. pose proof whole_io_counts as Hio.
  destruct (l3_roundtrip (H := whole_io) 3 GQA demo_ctx (lit "/3fs/mnt/") None 1 0 demo_store (fun a => a) (fun _ => 0) ∅ 0 demo_worker st.2 w2 ld.2
    [(-1, 1); (7, 0)] [-1; 7] 1 (-1) 1 2) as (_ & _ & (nw & written & rd & Hw & _ & Hrd & _ & _ & Hb) & Hx).
  - apply demo_allocated.
  - vm_compute. reflexivity.
  - apply rtc_refl.
  - repeat (constructor; [vm_compute; split; congruence|]). constructor.
  - apply list_elem_of_here.
  - vm_compute. reflexivity.
  - intros h' b' [[= -> ->]|[[= -> ->]|Hin]%elem_of_cons]%elem_of_cons Hm; [done|vm_compute in Hm; discriminate|by apply elem_of_nil in Hin].
  - vm_compute. reflexivity.
  - apply rtc_once. apply (step_compute st.2 (fun _ => 9)).
  - vm_compute; split; congruence.
  - vm_compute. reflexivity.
  - split; [rewrite Hb; [vm_compute; reflexivity|rewrite <- Hw; vm_compute; reflexivity|]|].
    { rewrite <- Hrd, <- Hw. vm_compute. reflexivity. }
    rewrite (Hx 1); [vm_compute; reflexivity|vm_compute; split; congruence|discriminate].
Defined.

(** A write that fails leaves a file behind that counts as the block.  When the transfer of
    a new block reports an error and has written nothing, [store] raises, but the file was
    already created with its full size: the hash is reported as present, storing the block
    again reports success without writing it, and loading the hash fills a block with
    zeros. *)
Theorem l3_failed_write `{UsrbioCounts} g w h b b' r :
  let zeros := replicate (Z.to_nat (block_nbytes (store_ w))) 0 in
  ready g w -> 0 <= b < bl_count g -> 0 <= b' < bl_count g -> present w h = false ->
  io_write (tick w) (block_bytes g w b) zeros = (r, zeros) -> r < 0 ->
  (forall n buf, length buf = length zeros -> (io_read n zeros buf).1 = zlen zeros) ->
  exists w1 w2, store [(h, b)] true w = (Err OSError, w1) /\ exists_ w1 [h] = [h] /\ store [(h, b)] true w1 = (Ok [h], w1) /\
    load [(h, b')] w1 = (Ok 1, w2) /\ block_bytes g w2 b' = zeros.
Proof.
  intros zeros Hr Hb Hb' Habs Hio Hneg Hread. pose proof (store_one_exact g w true h b Hr Hb Habs) as Hone. cbv zeta in Hone.
  pose proof Habs as Hnone. apply bool_decide_eq_false_1 in Hnone. rewrite <- eq_None_not_Some in Hnone. rewrite Hnone in Hone. cbn [from_option] in Hone.
  unfold ftruncate in Hone. rewrite take_nil in Hone. cbn [app length Datatypes.id] in Hone. rewrite Nat.sub_0_r in Hone. fold zeros in Hone. rewrite Hio in Hone.
  destruct Hone as (w1 & H1 & Hc1 & Hf1 & Hd1 & Hn1 & Hs1). rewrite (proj2 (Z.ltb_lt r 0) Hneg) in H1.
  assert (Hr1 : ready g w1) by (destruct Hr; split; [by rewrite Hc1|congruence|congruence]).
  assert (Hfile : files w1 !! path (store_ w1) h = Some zeros) by (rewrite Hf1, (path_dir (store_ w1) (store_ w) h) by done; apply lookup_insert_eq).
  assert (Hp1 : present w1 h = true) by (unfold present; rewrite Hfile; by apply bool_decide_eq_true_2).
  assert (Hwf := cb_wf _ _ (rd_blocks _ _ Hr1)). assert (Hz := zlen_block_addrs g b' Hwf).
  assert (Hzeros : length zeros = length (block_addrs g b')).
  { unfold zeros. rewrite length_replicate. destruct Hr as [_ -> _]. rewrite <- Hz. unfold zlen. lia. }
  pose proof (load_one_exact g w1 h b' Hr1 Hb' Hp1) as Hl. rewrite Hfile in Hl. cbn [from_option] in Hl. unfold Datatypes.id in Hl.
  set (buf := buf_slice 0 _ _) in *.
  assert (Hbuf : length zeros = length buf).
  { apply Nat2Z.inj. change (zlen zeros = zlen buf). unfold buf. destruct Hr1 as [_ Rn Rs].
    rewrite length_buf_slice; [|lia|rewrite Rn, <- Hz; unfold zlen; lia|lia]. rewrite Rn, <- Hz. unfold zlen. by rewrite Hzeros. }
  specialize (Hread (tick w1) buf ltac:(lia)). destruct (io_read (tick w1) zeros buf) as [q new] eqn:Eq. cbn [fst] in Hread.
  destruct Hl as (w2 & Hl & Hcp & _). assert (Hq : 0 <= q) by (rewrite Hread; unfold zlen; lia). rewrite (proj2 (Z.ltb_ge q 0) Hq) in Hl. exists w1, w2. split.
  { cbn [store]. unfold mbind at 1, act_bind at 1. by rewrite H1. }
  split; [unfold exists_; by rewrite filter_cons_True|]. split.
  { cbn [store]. unfold store_block. unfold mbind at 1, act_bind at 1. rewrite get_bind, Hp1. done. }
  split; [cbn [load]; unfold mbind at 1, act_bind at 1; by rewrite Hl|].
  unfold block_bytes. rewrite (Hcp Hq). cbn [set_gpu gpu]. destruct (read_counts _ _ _ _ _ Eq Hbuf Hq) as [_ ->]. rewrite Hread, moved_all by done.
  by apply read_write_same; [apply block_addrs_NoDup|].
Qed.

(** An engine whose first write fails. *)
Definition failing_io : Usrbio := {|
  io_write n buf file := match n with O => (-5, file) | _ => (zlen buf, buf) end;
  io_read _ file buf := if decide (length file = length buf) then (zlen file, file) else (zlen buf, take (length buf) file ++ drop (length file) buf)
|}.

Lemma failing_io_counts : UsrbioCounts (H := failing_io).
Proof.
  split; cbn.
  - intros [|n] buf file r new [= <- <-] Hl Hr; [lia|]. split; [done|]. by rewrite moved_all.
  - intros n file buf r new Heq Hl _. rewrite decide_True in Heq by done. injection Heq as <- <-. split; [unfold zlen; lia|]. by rewrite moved_all.
  - intros n file buf. case_decide; [done|]. cbn. rewrite length_app, length_take, length_drop. lia.
Qed.

Lemma l3_failed_write_witness : exists w1 w2, store (H := failing_io) [(7, 1)] true demo_worker = (Err OSError, w1) /\
  store (H := failing_io) [(7, 1)] true w1 = (Ok [7], w1) /\ load (H := failing_io) [(7, 0)] w1 = (Ok 1, w2) /\
  block_bytes (blocks_of GQA demo_ctx) w2 0 = replicate 8 0.
Proof.
  pose proof failing_io_counts as Hio.
  destruct (l3_failed_write (H := failing_io) (blocks_of GQA demo_ctx) demo_worker 7 1 0 (-5)) as (w1 & w2 & H1 & _ & H2 & H3 & H4).
  - apply (l3_init_ready 3 GQA demo_ctx (lit "/3fs/mnt/") None 1 0); [apply demo_allocated|vm_compute; reflexivity].
  - vm_compute; split; congruence.
  - vm_compute; split; congruence.
  - vm_compute; reflexivity.
  - vm_compute; reflexivity.
  - lia.
  - intros n buf Hl. cbn [io_read failing_io]. by rewrite decide_True by done.
  - exists w1, w2. split_and!; [exact H1|exact H2|exact H3|]. rewrite H4. vm_compute. reflexivity.
Defined.

(** An engine that moves at most three bytes. *)
Definition short_io : Usrbio := {|
  io_write _ buf file := let r := Z.min 3 (zlen buf) in (r, moved r buf file);
  io_read _ file buf := if decide (length file = length buf) then let r := Z.min 3 (zlen buf) in (r, moved r file buf) else (-5, buf)
|}.

Lemma short_io_counts : UsrbioCounts (H := short_io).
Proof.
  split; cbn.
  - intros n buf file r new [= <- <-] Hl _. split; [lia|done].
  - intros n file buf r new Heq Hl _. rewrite decide_True in Heq by done. injection Heq as <- <-. split; [lia|done].
  - intros n file buf. case_decide; [|done]. cbn. by apply length_moved.
Qed.

(** A short write is taken for a stored block: both calls succeed, and the file and then the block have three of the
    eight bytes. *)
Lemma l3_short_transfer :
  let '(stored, w1) := store (H := short_io) [(7, 1)] true demo_worker in
  let '(loaded, w2) := load (H := whole_io) [(7, 0)] w1 in
  stored = Ok [7] /\ loaded = Ok 1 /\ block_bytes (blocks_of GQA demo_ctx) demo_worker 1 = [2; 3; 8; 9; 14; 15; 20; 21] /\
  block_bytes (blocks_of GQA demo_ctx) w2 0 = [2; 3; 8; 0; 0; 0; 0; 0].
Proof. vm_compute. split_and!; reflexivity. Qed.

(** * Ranks *)

Lemma str_nat_slash_inj i j s t : str_nat i ++ "/"%char :: s = str_nat j ++ "/"%char :: t -> i = j /\ s = t.
Proof.
  intros He. destruct (str_nat_spec i) as (Hi & _ & Hvi), (str_nat_spec j) as (Hj & _ & Hvj).
  pose proof (f_equal span_digits He) as Hs. rewrite !span_digits_app in Hs by done.
  assert (i = j) as -> by (rewrite Hs in Hvi; lia). split; [done|]. apply app_inv_head in He. by injection He.
Qed.

Lemma rank_dir_path d : exists base, forall r h,
  path_join (path_join d (lit "rank" ++ str_nat r)) (hash_name h) = base ++ str_nat r ++ "/"%char :: hash_name h.
Proof.
  destruct (path_join_below d) as [d' Hd]. exists (d' ++ lit "rank"). intros r h. rewrite Hd; [|done]. unfold path_join. rewrite hash_name_relative.
  destruct (str_nat_spec r) as (Hdig & Hne & _). destruct (exists_last Hne) as (l & x & Hlast).
  assert (Hx : x <> "/"%char).
  { intros ->. rewrite Hlast, forallb_app in Hdig. cbn in Hdig. by rewrite andb_false_r in Hdig. }
  replace (bool_decide _ || endswith _ _) with false by
    (symmetry; apply orb_false_iff; split; apply bool_decide_eq_false; [by destruct d'|]; intros [u Hu]; rewrite Hlast, !app_assoc in Hu; by apply app_inj_tail in Hu as [_ Hu]).
  by rewrite <- !app_assoc.
Qed.

(** The directory of a rank. *)
Lemma l3_init_dir c mountpoint dir n r s : l3_init c mountpoint dir n r = Ok s ->
  l3_dir s = path_join (match dir with Some d => d | None => path_join (rstrip_path mountpoint) (lit "dlengine_l3") end) (lit "rank" ++ str_nat r).
Proof. unfold l3_init. intros Hs. run_inv. case_decide; [done|]. by injection Hs as <-. Qed.

(** Workers of different ranks of an engine never use the same file, and a worker uses one file
    for a hash of 64 bits. *)
Theorem rank_files_disjoint c c' mountpoint dir n n' r r' s s' h h' :
  l3_init c mountpoint dir n r = Ok s -> l3_init c' mountpoint dir n' r' = Ok s' ->
  path s h = path s' h' <-> r = r' /\ h mod 2 ^ 64 = h' mod 2 ^ 64.
Proof.
  intros Hs%l3_init_dir Hs'%l3_init_dir. unfold path. rewrite Hs, Hs'.
  set (d := match dir with Some d => d | None => _ end). destruct (rank_dir_path d) as [base Hb]. rewrite !Hb, <- hash_name_inj. split.
  - intros He. apply app_inv_head in He. by apply str_nat_slash_inj in He.
  - by intros [-> ->].
Qed.

(** * Swapping blocks to the host *)

Lemma broadcast_same dims strs : length strs = length dims -> broadcast_strides dims dims strs = Ok strs.
Proof.
  revert strs. induction dims as [|n dims IH]; intros [|s strs] Hl; try done. cbn [broadcast_strides]. rewrite decide_True by done. rewrite IH by (cbn in Hl; lia). done.
Qed.

Lemma copy_view_same m1 m2 dst src : v_shape src = v_shape dst -> length (v_strides src) = length (v_shape src) ->
  copy_view m1 m2 dst src = Ok (write m1 (addresses dst) (read m2 (addresses src))).
Proof.
  intros Hs Hl. unfold copy_view. rewrite <- Hs, Nat.sub_diag, decide_False by lia. cbn [replicate app]. rewrite broadcast_same by done. cbn [mbind result_bind].
  by destruct src.
Qed.

(** The effect of copying blocks between two memories. *)
Definition copy_all (src : memory) (gs gd : Blocks) (pairs : list (Z * Z)) (dst : memory) : memory :=
  foldl (fun m p => write m (block_addrs gd p.2) (read src (block_addrs gs p.1))) dst pairs.

Section copy_all.
Context (src : memory) (gs gd : Blocks) (Hgs : blocks_wf gs) (Hgd : blocks_wf gd) (Hsame : bl_rows gs * bl_chunk gs = bl_rows gd * bl_chunk gd).

Lemma copy_all_other pairs dst b : Forall (fun p => 0 <= p.2 < bl_count gd) pairs -> 0 <= b < bl_count gd -> b ∉ pairs.*2 ->
  read (copy_all src gs gd pairs dst) (block_addrs gd b) = read dst (block_addrs gd b).
Proof.
  intros Hv Hb. revert dst. induction Hv as [|[x y] pairs Hy _ IH]; intros dst Hn; [done|]. csimpl in Hn. apply not_elem_of_cons in Hn as [Hne Hn].
  unfold copy_all. cbn [foldl snd fst] in *. fold (copy_all src gs gd pairs (write dst (block_addrs gd y) (read src (block_addrs gs x)))).
  rewrite IH by done. apply read_write_disjoint. intros a. by apply block_addrs_disjoint.
Qed.

Lemma copy_all_copied pairs dst x y : Forall (fun p => 0 <= p.2 < bl_count gd) pairs -> NoDup pairs.*2 -> (x, y) ∈ pairs ->
  read (copy_all src gs gd pairs dst) (block_addrs gd y) = read src (block_addrs gs x).
Proof.
  intros Hv. revert dst. induction Hv as [|[x0 y0] pairs Hy Hv IH]; intros dst Hnd Hin; [by apply elem_of_nil in Hin|]. csimpl in Hnd. apply NoDup_cons in Hnd as [Hn Hnd].
  unfold copy_all. cbn [foldl snd fst] in *. fold (copy_all src gs gd pairs (write dst (block_addrs gd y0) (read src (block_addrs gs x0)))).
  apply elem_of_cons in Hin as [[= -> ->]|Hin]; [|by apply IH].
  rewrite copy_all_other by done. apply read_write_same; [by apply block_addrs_NoDup|]. unfold read. rewrite length_fmap, !length_block_addrs by done. by rewrite Hsame.
Qed.
End copy_all.

(** The blocks of the host cache. *)
Definition host_blocks_of (hn : Z) (k : CacheKind) (c : CacheContext) : Blocks := layout k c (local_heads c) (count k (set_blocks hn hn c)).

(** Both caches of a worker: the views of their blocks have one shape and the addresses of the
    table. *)
Record both_caches (c : CacheContext) (gd gh : Blocks) : Prop := {
  bc_gpu_wf : blocks_wf gd;
  bc_host_wf : blocks_wf gh;
  bc_bytes : bl_rows gd * bl_chunk gd = bl_rows gh * bl_chunk gh;
  bc_host : is_Some (host_kv_cache c);
  bc_views : exists dims,
    (forall b, 0 <= b < bl_count gd -> exists v, block_view c (kv_cache c) b = Ok v /\ v_shape v = dims /\ length (v_strides v) = length dims /\ addresses v = block_addrs gd b) /\
    (forall b, 0 <= b < bl_count gh -> exists v, block_view c (host_kv_cache c) b = Ok v /\ v_shape v = dims /\ length (v_strides v) = length dims /\ addresses v = block_addrs gh b)
}.

Lemma host_allocated n hn k c c' : allocated n k c -> 0 < hn -> allocate_host_kvcache hn c = (c', Ok tt) ->
  both_caches c' (blocks_of k c) (host_blocks_of hn k c).
Proof.
  intros Ha Hpos Hh. pose proof (allocated_spec n k c Ha) as [Hm Hkv Hnb Hd Hi HL Hb Hheads _ _].
  assert (Hn : 0 <= n) by (by destruct Ha as (_ & _ & _ & _ & _ & _ & _ & _ & _ & Hn)).
  unfold allocate_host_kvcache in Hh. rewrite Z.max_r, decide_False in Hh by lia. cbn [set_blocks cfg] in Hh. rewrite Hm in Hh.
  assert (Hres : resolve_cache_backend (mode_of k) = Ok k) by by destruct k. rewrite Hres in Hh.
  destruct (allocate k _) as [c2|e] eqn:Ea; [|done]. apply allocate_Ok in Ea as (h' & f & Hh' & _ & ->). injection Hh as <-.
  set (c1 := set_device "cpu" _). set (c' := set_device _ _).
  assert (Hlay : primary_layout k c1 h' = primary_layout k (set_blocks hn hn c) (local_heads c)).
  { destruct k; [| |done].
    - specialize (Hh' ltac:(done) ltac:(done)). change (num_local_kv_heads c = Ok h') in Hh'. rewrite Hheads in Hh' by done. by injection Hh' as <-.
    - unfold primary_layout. change (cfg c1) with (cfg c). change (cfg (set_blocks hn hn c)) with (cfg c). destruct (is_fp8_kvcache (cfg c)) eqn:E8; [done|].
      specialize (Hh' ltac:(done) ltac:(done)). change (num_local_kv_heads c = Ok h') in Hh'. rewrite Hheads in Hh' by done. by injection Hh' as <-. }
  split.
  - by apply layout_wf.
  - by apply layout_wf.
  - done.
  - by eexists.
  - exists (block_shape k c (local_heads c)). split; intros b Hbr.
    + change (kv_cache c') with (kv_cache c). rewrite Hkv.
      destruct (block_view_exact k c (local_heads c)) with (c0 := c') (b := b) as (v & H1 & H2 & _ & H3 & H4); try done. by exists v.
    + change (host_kv_cache c') with (Some (primary_layout k c1 h')). rewrite Hlay.
      destruct (block_view_exact k (set_blocks hn hn c) (local_heads c)) with (c0 := c') (b := b) as (v & H1 & H2 & _ & H3 & H4); try done. by exists v.
Qed.

Section swap.
Context (gd gh : Blocks).

Definition gpu_block (s : Caches) (b : Z) : list Z := read (gpu s) (block_addrs gd b).

Lemma copy_to_host_exact s a b : both_caches (c_ctx s) gd gh -> 0 <= a < bl_count gd -> 0 <= b < bl_count gh ->
  copy_kv_block_to_host a b s = (Ok tt, set_host (write (host s) (block_addrs gh b) (read (gpu s) (block_addrs gd a))) s).
Proof.
  intros [_ _ _ _ (dims & Hg & Hh)] Ha Hb. destruct (Hg a Ha) as (v & Hv & Hs & Hl & <-). destruct (Hh b Hb) as (v' & Hv' & Hs' & Hl' & <-).
  unfold copy_kv_block_to_host. rewrite get_bind, (lift_bind _ _ _ _ Hv'), (lift_bind _ _ _ _ Hv), (lift_bind _ _ _ _ (copy_view_same _ _ v' v ltac:(congruence) ltac:(congruence))).
  done.
Qed.

Lemma copy_from_host_exact s a b : both_caches (c_ctx s) gd gh -> 0 <= a < bl_count gh -> 0 <= b < bl_count gd ->
  copy_kv_block_from_host a b s = (Ok tt, set_gpu (write (gpu s) (block_addrs gd b) (read (host s) (block_addrs gh a))) s).
Proof.
  intros [_ _ _ _ (dims & Hg & Hh)] Ha Hb. destruct (Hg b Hb) as (v & Hv & Hs & Hl & <-). destruct (Hh a Ha) as (v' & Hv' & Hs' & Hl' & <-).
  unfold copy_kv_block_from_host. rewrite get_bind, (lift_bind _ _ _ _ Hv), (lift_bind _ _ _ _ Hv'), (lift_bind _ _ _ _ (copy_view_same _ _ v v' ltac:(congruence) ltac:(congruence))).
  done.
Qed.

(** The blocks of all tasks. *)
Definition task_pairs (tasks : list (Z * list Z * list Z)) : list (Z * Z) := tasks ≫= fun '(_, from, to) => zip from to.

Lemma run_swaps_exact (copy : Z -> Z -> act Caches unit) (effect : Z * Z -> Caches -> Caches) (ok : Z * Z -> Prop) tasks copied s :
  (forall s p, both_caches (c_ctx s) gd gh -> ok p -> copy p.1 p.2 s = (Ok tt, effect p s) /\ c_ctx (effect p s) = c_ctx s) ->
  both_caches (c_ctx s) gd gh -> Forall (fun '(_, from, to) => length from = length to) tasks -> Forall ok (task_pairs tasks) ->
  run_swaps copy tasks copied s = (Ok (copied + zlen (task_pairs tasks)), foldl (fun s p => effect p s) s (task_pairs tasks)).
Proof.
  intros Hcopy Hs Hl. revert copied s Hs. induction Hl as [|[[q from] to] tasks Hft _ IH]; intros copied s Hs Hok.
  { cbn. by rewrite Z.add_0_r. }
  cbn [run_swaps]. unfold task_pairs in *. rewrite bind_cons in *. apply Forall_app in Hok as [Hok1 Hok2].
  rewrite raise_if_bind by (rewrite bool_decide_eq_true_2; done).
  assert (Hblocks : forall pairs s, both_caches (c_ctx s) gd gh -> Forall ok pairs ->
    copy_blocks copy pairs s = (Ok tt, foldl (fun s p => effect p s) s pairs) /\ c_ctx (foldl (fun s p => effect p s) s pairs) = c_ctx s).
  { clear -Hcopy. induction pairs as [|[a b] pairs IH]; intros s Hs Hp; [done|]. apply Forall_cons_1 in Hp as [Hp Hps]. cbn [copy_blocks foldl].
    destruct (Hcopy s (a, b) Hs Hp) as [H1 H2]. cbn [fst snd] in H1. unfold mbind, act_bind. rewrite H1. destruct (IH (effect (a, b) s)) as [H3 H4]; [by rewrite H2|done|].
    split; [done|congruence]. }
  destruct (Hblocks (zip from to) s Hs Hok1) as [H1 H2]. unfold mbind at 1, act_bind at 1. rewrite H1. rewrite IH; [|by rewrite H2|done].
  rewrite foldl_app, zlen_app. by rewrite Z.add_assoc.
Qed.

Lemma swap_out_exact s tasks : both_caches (c_ctx s) gd gh -> Forall (fun '(_, from, to) => length from = length to) tasks ->
  Forall (fun p => 0 <= p.1 < bl_count gd /\ 0 <= p.2 < bl_count gh) (task_pairs tasks) ->
  swap_out_blocks_to_host tasks s = (Ok (zlen (task_pairs tasks)), set_host (copy_all (gpu s) gd gh (task_pairs tasks) (host s)) s).
Proof.
  intros Hs Hl Hok. unfold swap_out_blocks_to_host, swap_blocks. rewrite get_bind. destruct (bc_host _ _ _ Hs) as [t Ht]. rewrite Ht.
  rewrite (run_swaps_exact _ (fun p s => set_host (write (host s) (block_addrs gh p.2) (read (gpu s) (block_addrs gd p.1))) s)
    (fun p => 0 <= p.1 < bl_count gd /\ 0 <= p.2 < bl_count gh)); [| |done..].
  - rewrite Z.add_0_l. f_equal. clear. generalize (task_pairs tasks) as pairs. intros pairs. revert s. unfold copy_all.
    induction pairs as [|p pairs IH]; intros s; cbn [foldl]; [by destruct s|]. by rewrite IH.
  - intros s' p Hs' [Ha Hb]. split; [by apply copy_to_host_exact|done].
Qed.

Lemma swap_in_exact s tasks : both_caches (c_ctx s) gd gh -> Forall (fun '(_, from, to) => length from = length to) tasks ->
  Forall (fun p => 0 <= p.1 < bl_count gh /\ 0 <= p.2 < bl_count gd) (task_pairs tasks) ->
  swap_in_blocks_from_host tasks s = (Ok (zlen (task_pairs tasks)), set_gpu (copy_all (host s) gh gd (task_pairs tasks) (gpu s)) s).
Proof.
  intros Hs Hl Hok. unfold swap_in_blocks_from_host, swap_blocks. rewrite get_bind. destruct (bc_host _ _ _ Hs) as [t Ht]. rewrite Ht.
  rewrite (run_swaps_exact _ (fun p s => set_gpu (write (gpu s) (block_addrs gd p.2) (read (host s) (block_addrs gh p.1))) s)
    (fun p => 0 <= p.1 < bl_count gh /\ 0 <= p.2 < bl_count gd)); [| |done..].
  - rewrite Z.add_0_l. f_equal. clear. generalize (task_pairs tasks) as pairs. intros pairs. revert s. unfold copy_all.
    induction pairs as [|p pairs IH]; intros s; cbn [foldl]; [by destruct s|]. by rewrite IH.
  - intros s' p Hs' [Ha Hb]. split; [by apply copy_from_host_exact|done].
Qed.
End swap.

(** C27. Swapping blocks to the host and back restores them.  On a cache and a host cache as they
    are allocated, tasks whose tables are in range and name every target once are copied
    completely; after any computation on the device, the blocks swapped in hold what the
    blocks swapped out held, wherever they are put, and all other blocks are untouched. *)
Theorem swap_roundtrip n hn k c c' m hm m' out_tasks in_tasks :
  let gd := blocks_of k c in
  let gh := host_blocks_of hn k c in
  let s := mk_caches c' m hm in
  let out := task_pairs out_tasks in
  let inn := task_pairs in_tasks in
  allocated n k c -> 0 < hn -> allocate_host_kvcache hn c = (c', Ok tt) ->
  Forall (fun '(_, from, to) => length from = length to) out_tasks -> Forall (fun '(_, from, to) => length from = length to) in_tasks ->
  Forall (fun p => 0 <= p.1 < bl_count gd /\ 0 <= p.2 < bl_count gh) out -> Forall (fun p => 0 <= p.1 < bl_count gh /\ 0 <= p.2 < bl_count gd) inn ->
  NoDup out.*2 -> NoDup inn.*2 ->
  exists s1 s2, swap_out_blocks_to_host out_tasks s = (Ok (zlen out), s1) /\ swap_in_blocks_from_host in_tasks (set_gpu m' s1) = (Ok (zlen inn), s2) /\
    (forall b, gpu_block gd s1 b = gpu_block gd s b) /\
    (forall a h b, (a, h) ∈ out -> (h, b) ∈ inn -> gpu_block gd s2 b = gpu_block gd s a) /\
    forall b, 0 <= b < bl_count gd -> b ∉ inn.*2 -> gpu_block gd s2 b = read m' (block_addrs gd b).
Proof.
  intros gd gh s out inn Ha Hpos Hh Hlo Hli Hvo Hvi Hno Hni. pose proof (host_allocated n hn k c c' Ha Hpos Hh) as Hb. fold gd gh in Hb.
  do 2 eexists. split; [by apply (swap_out_exact gd gh)|]. split; [by apply (swap_in_exact gd gh)|]. fold out inn. split; [done|].
  destruct Hb as [Hwg Hwh Hby _ _]. split.
  - intros a h b Hao Hbi. unfold gpu_block. cbn [set_gpu set_host gpu host].
    rewrite (copy_all_copied _ gh gd Hwh Hwg (eq_sym Hby) inn _ h b); [|eapply Forall_impl; [exact Hvi|by intros ? []]|done|done].
    rewrite (copy_all_copied _ gd gh Hwg Hwh Hby out _ a h); [done|eapply Forall_impl; [exact Hvo|by intros ? []]|done|done].
  - intros b Hbr Hnb. unfold gpu_block. cbn [set_gpu set_host gpu host]. apply copy_all_other; [done| |done|done].
    eapply Forall_impl; [exact Hvi|by intros ? []].
Qed.

Definition demo_both : CacheContext := (allocate_host_kvcache 2 demo_ctx).1.

Lemma swap_roundtrip_witness :
  let s := mk_caches demo_both (fun a => a) (fun _ => 0) in
  exists s1 s2, swap_out_blocks_to_host [(5, [0; 2], [1; 0])] s = (Ok 2, s1) /\
    swap_in_blocks_from_host [(5, [0], [1])] (set_gpu (fun _ => 9) s1) = (Ok 1, s2) /\
    gpu_block (blocks_of GQA demo_ctx) s2 1 = [4; 5; 10; 11; 16; 17; 22; 23].
Proof.
  intros s. destruct (swap_roundtrip 3 2 GQA demo_ctx demo_both (fun a => a) (fun _ => 0) (fun _ => 9) [(5, [0; 2], [1; 0])] [(5, [0], [1])])
    as (s1 & s2 & H1 & H2 & _ & H3 & _).
  - apply demo_allocated.
  - lia.
  - vm_compute. reflexivity.
  - repeat constructor.
  - repeat constructor.
  - repeat (constructor; [vm_compute; repeat split; congruence|]). constructor.
  - repeat (constructor; [vm_compute; repeat split; congruence|]). constructor.
  - apply (bool_decide_unpack _). vm_compute. exact I.
  - apply (bool_decide_unpack _). vm_compute. exact I.
  - exists s1, s2. split; [exact H1|]. split; [exact H2|]. rewrite (H3 2 0 1); [vm_compute; reflexivity|by right; left|by left].
Defined.
