(* ===== verification/MoeRouter.v ===== *)
(** Routing of a mixture-of-experts layer: the fused gating kernels of
    [dlengine/runtime/kernel/triton/generic/fused_topk.py], against what the unfused code
    computes, and the block of the Qwen3 mixture-of-experts model with its exchanges of tokens
    ([dlengine/runtime/models/qwen3_moe/qwen3_moe.py]).

    A kernel is the program of one row over its lanes, padded to a power of two. *)

From Stdlib Require Import Qcanon.
From stdpp Require Import numbers.
From S2P Require Import Prelude TensorParallel Experts.

Open Scope nat_scope.

(** * Iterated arg-max *)

Section argmax.
Context {V : Type} (vle : V -> V -> bool).

(** [tl.argmax(work, axis=0)]: the first lane that holds the maximum. *)
Fixpoint argmax_go (i best : nat) (bv : V) (l : list V) : nat :=
  match l with
  | [] => best
  | v :: l => if vle v bv then argmax_go (S i) best bv l else argmax_go (S i) i v l
  end.

Definition argmax (l : list V) : nat := match l with [] => 0 | v :: l => argmax_go 1 0 v l end.

(** The unrolled loop: the lane chosen is set to [dead] for the next round. *)
Fixpoint iter_topk (dead : V) (k : nat) (work : list V) : list nat :=
  match k with
  | 0 => []
  | S k => let idx := argmax work in idx :: iter_topk dead k (<[idx := dead]> work)
  end.

Context (vle_total : forall a b, vle a b = true \/ vle b a = true) (vle_trans : forall a b c, vle a b = true -> vle b c = true -> vle a c = true).

Lemma vle_refl a : vle a a = true.
Proof. by destruct (vle_total a a). Qed.

(** [best] is the first maximum of [pre], whose value is [bv]. *)
Definition first_max (l : list V) (i : nat) (v : V) : Prop :=
  l !! i = Some v /\ (forall j w, l !! j = Some w -> vle w v = true) /\ forall j w, j < i -> l !! j = Some w -> vle v w = false.

Lemma argmax_go_spec pre best bv l : first_max pre best bv ->
  exists v, first_max (pre ++ l) (argmax_go (length pre) best bv l) v.
Proof.
  revert pre best bv. induction l as [|v l IH]; intros pre best bv Hf; cbn [argmax_go]; [rewrite app_nil_r; by exists bv|].
  destruct Hf as (Hb & Hmax & Hfirst). assert (Hlt : best < length pre) by (by eapply lookup_lt_Some).
  replace (S (length pre)) with (length (pre ++ [v])) by (rewrite length_app; cbn; lia).
  replace (pre ++ v :: l) with ((pre ++ [v]) ++ l) by (by rewrite <- app_assoc).
  assert (Hsnoc : forall j w, (pre ++ [v]) !! j = Some w -> pre !! j = Some w \/ (j = length pre /\ w = v)).
  { intros j w Hj. destruct (decide (j < length pre)); [rewrite lookup_app_l in Hj by lia; by left|]. rewrite lookup_app_r in Hj by lia.
    right. destruct (j - length pre) as [|n0] eqn:E; [|by destruct n0]. cbn in Hj. split; [lia|congruence]. }
  destruct (vle v bv) eqn:Ev.
  - apply IH. split; [rewrite lookup_app_l by lia; done|]. split; [intros j w [Hj|[-> ->]]%Hsnoc; eauto|].
    intros j w Hj [Hjw|[-> ->]]%Hsnoc; [eauto|lia].
  - apply IH. split; [rewrite lookup_app_r, Nat.sub_diag by lia; done|].
    assert (Hbv : vle bv v = true) by (destruct (vle_total bv v); congruence).
    split; [intros j w [Hj|[-> ->]]%Hsnoc; [eauto|apply vle_refl]|].
    intros j w Hj [Hjw|[-> ->]]%Hsnoc; [|lia]. destruct (vle v w) eqn:Ew; [|done]. rewrite <- Ev. symmetry. eauto.
Qed.

Lemma argmax_spec l : l <> [] -> exists v, first_max l (argmax l) v.
Proof.
  destruct l as [|v l]; [done|]. intros _. apply (argmax_go_spec [v] 0 v l). split; [done|]. split.
  - intros j w Hj. destruct j as [|j]; [|by destruct j]. injection Hj as <-. apply vle_refl.
  - lia.
Qed.

Lemma argmax_lt l : l <> [] -> argmax l < length l.
Proof. intros Hl. destruct (argmax_spec l Hl) as (v & Hv & _). by eapply lookup_lt_Some. Qed.

(** ** The lanes chosen *)

(** Values above the mark, which the loop leaves on lanes it has taken. *)
Context (dead : V).
Definition live (v : V) : Prop := vle v dead = false.

#[export] Instance live_dec v : Decision (live v).
Proof. unfold live. apply _. Defined.

(** The lanes [ids] are the largest of [l]: distinct and in range, in descending order, and no
    lane left out is larger. *)
Definition top_lanes (l : list V) (ids : list nat) : Prop :=
  NoDup ids /\ (forall i, i ∈ ids -> i < length l) /\
  (forall a b i j v w, a < b -> ids !! a = Some i -> ids !! b = Some j -> l !! i = Some v -> l !! j = Some w -> vle w v = true) /\
  forall i j v w, i ∈ ids -> j ∉ ids -> l !! i = Some v -> l !! j = Some w -> vle w v = true.

Definition live_lanes (l : list V) : nat := length (filter live l).

Lemma live_above v w : vle v w = true -> live v -> live w.
Proof. unfold live. intros Hvw Hv. destruct (vle w dead) eqn:E; [|done]. by rewrite (vle_trans v w dead) in Hv. Qed.

Lemma live_insert l i v : l !! i = Some v -> live v -> live_lanes l = S (live_lanes (<[i := dead]> l)).
Proof.
  intros Hi Hv. unfold live_lanes. revert i Hi. induction l as [|x l IH]; intros [|i] Hi; [done..| |].
  - injection Hi as ->. cbn [insert list_insert]. rewrite filter_cons_True by done. rewrite filter_cons_False; [done|]. unfold live. rewrite vle_refl. done.
  - cbn [insert list_insert]. rewrite !filter_cons. case_decide; cbn [length]; by rewrite (IH i Hi).
Qed.

Lemma live_exists l : 0 < live_lanes l -> exists i v, l !! i = Some v /\ live v.
Proof.
  unfold live_lanes. destruct (filter live l) as [|v rest] eqn:E; [cbn; lia|]. intros _.
  assert (Hin : v ∈ filter live l) by (rewrite E; apply list_elem_of_here). apply list_elem_of_filter in Hin as [Hv Hin].
  apply list_elem_of_lookup_1 in Hin as [i Hi]. by exists i, v.
Qed.

Lemma iter_topk_top k l : k <= live_lanes l ->
  top_lanes l (iter_topk dead k l) /\ forall i, i ∈ iter_topk dead k l -> exists v, l !! i = Some v /\ live v.
Proof.
  revert l. induction k as [|k IH]; intros l Hk.
  { cbn [iter_topk]. split; [|intros i Hi; by apply elem_of_nil in Hi]. split; [constructor|]. split; [intros i Hi; by apply elem_of_nil in Hi|]. split; [intros a b i j v w _ Hi; by rewrite lookup_nil in Hi|intros i j v w Hi; by apply elem_of_nil in Hi]. }
  cbn [iter_topk]. assert (Hne : l <> []) by (intros ->; cbn in Hk; lia). destruct (argmax_spec l Hne) as (v & Hv & Hmax & Hfirst). set (i := argmax l) in *.
  destruct (live_exists l ltac:(lia)) as (i0 & v0 & Hi0 & Hl0).
  assert (Hlv : live v) by (by apply (live_above v0 v); [apply (Hmax i0)|]).
  pose proof (live_insert l i v Hv Hlv) as Hcount. destruct (IH (<[i := dead]> l)) as ((Hnd & Hrange & Hdesc & Hrest) & Hlive); [lia|].
  set (ids := iter_topk dead k (<[i := dead]> l)) in *. pose proof (lookup_lt_Some _ _ _ Hv) as Hlt.
  assert (Hnot : i ∉ ids).
  { intros Hin. destruct (Hlive i Hin) as (u & Hu & Hul). rewrite list_lookup_insert_eq in Hu by done. injection Hu as <-. unfold live in Hul. by rewrite vle_refl in Hul. }
  assert (Hother : forall j, j <> i -> (<[i := dead]> l) !! j = l !! j) by (intros j Hj; by apply list_lookup_insert_ne).
  assert (Hne' : forall j, j ∈ ids -> j <> i) by (intros j Hj ->; done).
  assert (Hall : forall j, j ∈ i :: ids -> exists v, l !! j = Some v /\ live v).
  { intros j [->|Hj]%elem_of_cons; [by exists v|]. destruct (Hlive j Hj) as (u & Hu & Hul). rewrite Hother in Hu by auto. by exists u. }
  split; [|done]. split; [by constructor|]. split; [|split].
  - intros j Hj. destruct (Hall j Hj) as (u & Hu & _). by eapply lookup_lt_Some.
  - intros [|a] [|b] x y u w Hab Hx Hy Hu Hw; [lia| |lia|].
    + cbn in Hx. injection Hx as <-. rewrite Hv in Hu. injection Hu as <-. by apply (Hmax y).
    + cbn in Hx, Hy. assert (x ∈ ids) by (by eapply list_elem_of_lookup_2). assert (y ∈ ids) by (by eapply list_elem_of_lookup_2).
      apply (Hdesc a b x y); [lia|done|done|rewrite Hother by auto; done|rewrite Hother by auto; done].
  - intros x y u w [->|Hx]%elem_of_cons [Hy Hyn]%not_elem_of_cons Hu Hw.
    + rewrite Hv in Hu. injection Hu as <-. by apply (Hmax y).
    + apply (Hrest x y); [done|done|rewrite Hother by auto; done|by rewrite Hother].
Qed.

(** Lanes from [n] on that hold no more than any live lane before them are taken last. *)
Lemma iter_topk_prefix n k l : k <= live_lanes (take n l) ->
  (forall i j v w, i < n -> n <= j -> l !! i = Some v -> live v -> l !! j = Some w -> vle w v = true) ->
  Forall (fun i => i < n) (iter_topk dead k l).
Proof.
  revert l. induction k as [|k IH]; intros l Hk Hpad; [constructor|]. cbn [iter_topk].
  destruct (live_exists (take n l) ltac:(lia)) as (i0 & v0 & Hi0 & Hl0). assert (Hi0n : i0 < n) by (apply lookup_lt_Some in Hi0; rewrite length_take in Hi0; lia).
  rewrite lookup_take_lt in Hi0 by done. assert (Hne : l <> []) by (by intros ->).
  destruct (argmax_spec l Hne) as (v & Hv & Hmax & Hfirst). set (i := argmax l) in *.
  assert (Hlv : live v) by (by apply (live_above v0 v); [apply (Hmax i0)|]).
  assert (Hin : i < n).
  { apply Nat.nle_gt. intros Hge. pose proof (Hfirst i0 v0 ltac:(lia) Hi0) as Hf. by rewrite (Hpad i0 i v0 v) in Hf. }
  constructor; [done|]. apply IH.
  - assert (Ht : take n l !! i = Some v) by by rewrite lookup_take_lt. pose proof (live_insert (take n l) i v Ht Hlv) as Hc.
    rewrite take_insert_lt by done. lia.
  - intros a b u w Ha Hb Hu Hul Hw. rewrite list_lookup_insert_ne in Hw by lia. destruct (decide (a = i)) as [->|Hai].
    + rewrite list_lookup_insert_eq in Hu by (by eapply lookup_lt_Some). injection Hu as <-. unfold live in Hul. by rewrite vle_refl in Hul.
    + rewrite list_lookup_insert_ne in Hu by done. by apply (Hpad a b).
Qed.

(** Among equal values the lowest lane is taken first. *)
Definition lowest_first (l : list V) (ids : list nat) : Prop :=
  forall a i j v, ids !! a = Some i -> l !! i = Some v -> l !! j = Some v -> j < i -> j ∈ take a ids.

Lemma iter_topk_lowest k l : k <= live_lanes l -> lowest_first l (iter_topk dead k l).
Proof.
  revert l. induction k as [|k IH]; intros l Hk; [intros a i j v Hi; by destruct a|].
  pose proof (iter_topk_top (S k) l Hk) as [(Hnd & _) _]. cbn [iter_topk] in *.
  assert (Hne : l <> []) by (intros ->; cbn in Hk; lia). destruct (argmax_spec l Hne) as (u & Hu & Hmax & Hfirst). set (m := argmax l) in *.
  destruct (live_exists l ltac:(lia)) as (i0 & v0 & Hi0 & Hl0). assert (Hlu : live u) by (by apply (live_above v0 u); [apply (Hmax i0)|]).
  pose proof (live_insert l m u Hu Hlu) as Hcount. inversion Hnd as [|? ? Hm Hnd']; subst.
  intros [|a] i j v Hi Hv Hw Hlt.
  - cbn in Hi. injection Hi as <-. rewrite Hu in Hv. injection Hv as ->. pose proof (Hfirst j v Hlt Hw) as Hf. by rewrite vle_refl in Hf.
  - cbn in Hi. cbn [take]. destruct (decide (j = m)) as [->|Hj]; [apply list_elem_of_here|apply list_elem_of_further].
    assert (i <> m) by (intros ->; apply Hm; by eapply list_elem_of_lookup_2).
    apply (IH (<[m := dead]> l) ltac:(lia) a i j v); [done|by rewrite list_lookup_insert_ne..|done].
Qed.

Lemma length_iter_topk k l : length (iter_topk dead k l) = k.
Proof. revert l. induction k as [|k IH]; intros l; cbn; [done|]. by rewrite IH. Qed.

(** [tl.max] and [tl.argmax] agree. *)
Lemma foldl_argmax_go pre best bv l : pre !! best = Some bv ->
  (pre ++ l) !! argmax_go (length pre) best bv l = Some (foldl (fun a b => if vle b a then a else b) bv l).
Proof.
  revert pre best bv. induction l as [|v l IH]; intros pre best bv Hb; cbn [argmax_go foldl]; [by rewrite app_nil_r|].
  replace (S (length pre)) with (length (pre ++ [v])) by (rewrite length_app; cbn; lia).
  replace (pre ++ v :: l) with ((pre ++ [v]) ++ l) by (by rewrite <- app_assoc).
  destruct (vle v bv); apply IH; [by apply lookup_app_l_Some|]. rewrite lookup_app_r, Nat.sub_diag by lia. done.
Qed.

Lemma all_live l : Forall live l -> live_lanes l = length l.
Proof. unfold live_lanes. induction 1 as [|v l Hv _ IH]; [done|]. rewrite filter_cons_True by done. cbn [length]. by rewrite IH. Qed.

(** ** Two choices of the largest lanes *)

Context (vle_antisym : forall a b, vle a b = true -> vle b a = true -> a = b).

Lemma top_lanes_le l ids ids' a i j v w : top_lanes l ids -> top_lanes l ids' ->
  ids !! a = Some i -> ids' !! a = Some j -> l !! i = Some v -> l !! j = Some w -> vle w v = true.
Proof.
  intros (Hnd & Hin & Hdesc & Hrest) (Hnd' & Hin' & Hdesc' & _) Hi Hj Hv Hw.
  assert (Hx : exists x, x ∈ take (S a) ids' /\ x ∉ take a ids).
  { destruct (decide (Forall (fun x => x ∈ take a ids) (take (S a) ids'))) as [Hall|Hsome].
    - exfalso. assert (Hsub : take (S a) ids' ⊆ take a ids) by (intros x Hx; by eapply Forall_forall in Hall).
      apply NoDup_submseteq in Hsub; [|by eapply sublist_NoDup; [|apply sublist_take]]. apply submseteq_length in Hsub.
      rewrite !length_take in Hsub. apply lookup_lt_Some in Hi, Hj. lia.
    - apply not_Forall_Exists in Hsome; [|apply _]. apply Exists_exists in Hsome as (x & Hx & Hn). by exists x. }
  destruct Hx as (x & [b Hb]%list_elem_of_lookup_1 & Hx). apply lookup_take_Some in Hb as [Hb Hba].
  destruct (lookup_lt_is_Some_2 l x) as [u Hu]; [apply Hin'; by eapply list_elem_of_lookup_2|].
  assert (Huw : vle w u = true).
  { destruct (decide (b = a)) as [->|]; [|apply (Hdesc' b a x j); [lia|done..]]. rewrite Hj in Hb. injection Hb as ->. rewrite Hu in Hw. injection Hw as ->. apply vle_refl. }
  apply (vle_trans _ u); [done|]. destruct (decide (x ∈ ids)) as [[c Hc]%list_elem_of_lookup_1|Hxn].
  - destruct (decide (c < a)); [exfalso; apply Hx, (list_elem_of_lookup_2 _ c), lookup_take_Some; done|].
    destruct (decide (c = a)) as [->|]; [|apply (Hdesc a c i x); [lia|done..]]. rewrite Hi in Hc. injection Hc as ->. rewrite Hu in Hv. injection Hv as ->. apply vle_refl.
  - apply (Hrest i x); [by eapply list_elem_of_lookup_2|done..].
Qed.

(** Whatever lanes are taken where values are equal, the values taken are the same. *)
Lemma top_lanes_values l ids ids' d : top_lanes l ids -> top_lanes l ids' -> length ids = length ids' ->
  (fun i => default d (l !! i)) <$> ids = (fun i => default d (l !! i)) <$> ids'.
Proof.
  intros Ht Ht' Hlen. apply list_eq. intros a. rewrite !list_lookup_fmap.
  destruct (ids !! a) as [i|] eqn:Hi, (ids' !! a) as [j|] eqn:Hj; cbn [fmap option_fmap option_map];
    [|apply lookup_lt_Some in Hi; apply lookup_ge_None in Hj; lia|apply lookup_ge_None in Hi; apply lookup_lt_Some in Hj; lia|done].
  destruct (lookup_lt_is_Some_2 l i) as [v Hv]; [apply (proj1 (proj2 Ht)); by eapply list_elem_of_lookup_2|].
  destruct (lookup_lt_is_Some_2 l j) as [w Hw]; [apply (proj1 (proj2 Ht')); by eapply list_elem_of_lookup_2|].
  rewrite Hv, Hw. cbn. f_equal. apply vle_antisym; [by apply (top_lanes_le l ids' ids a j i)|by apply (top_lanes_le l ids ids' a i j)].
Qed.

(** Where no two values are equal the lanes are the same. *)
Lemma top_lanes_unique l ids ids' : NoDup l -> top_lanes l ids -> top_lanes l ids' -> length ids = length ids' -> ids = ids'.
Proof.
  intros Hnd Ht Ht' Hlen. apply list_eq. intros a.
  destruct (ids !! a) as [i|] eqn:Hi, (ids' !! a) as [j|] eqn:Hj;
    [|apply lookup_lt_Some in Hi; apply lookup_ge_None in Hj; lia|apply lookup_ge_None in Hi; apply lookup_lt_Some in Hj; lia|done].
  destruct (lookup_lt_is_Some_2 l i) as [v Hv]; [apply (proj1 (proj2 Ht)); by eapply list_elem_of_lookup_2|].
  destruct (lookup_lt_is_Some_2 l j) as [w Hw]; [apply (proj1 (proj2 Ht')); by eapply list_elem_of_lookup_2|].
  f_equal. apply (NoDup_lookup l _ _ v); [done|done|]. rewrite Hw. f_equal. symmetry. apply vle_antisym; [by apply (top_lanes_le l ids' ids a j i)|by apply (top_lanes_le l ids ids' a i j)].
Qed.

(** Lanes in the first [n] that are the largest of all lanes are the largest of those. *)
Lemma top_lanes_prefix n l ids : top_lanes l ids -> Forall (fun i => i < n) ids -> top_lanes (take n l) ids.
Proof.
  intros (Hnd & Hin & Hdesc & Hrest) Hn. split; [done|]. split; [|split].
  - intros i Hi. rewrite length_take. pose proof (Hin i Hi). eapply Forall_forall in Hn; [|done]. lia.
  - intros a b i j v w Hab Hi Hj Hv Hw. apply lookup_take_Some in Hv as [Hv _], Hw as [Hw _]. by apply (Hdesc a b i j).
  - intros i j v w Hi Hj Hv Hw. apply lookup_take_Some in Hv as [Hv _], Hw as [Hw _]. by apply (Hrest i j).
Qed.
End argmax.

(** * Numbers of the router *)

(** What the gating kernels need of arithmetic: a total order compatible with addition, an
    exponential that is never negative (it may underflow to zero) and is one at zero, and
    division by positive numbers; and of Triton, that [triton.next_power_of_2] is no less than
    its argument. *)
Class RouterNum (R : Type) `{Semiring R} := {
  rneg1 : R;
  rminus : R -> R -> R;
  rdiv : R -> R -> R;
  rexp : R -> R;
  rsigmoid : R -> R;
  rleb : R -> R -> bool;
  next_power_of_2 : nat -> nat;
  next_power_of_2_ge : forall n, n <= next_power_of_2 n;
  rleb_total : forall a b, rleb a b = true \/ rleb b a = true;
  rleb_trans : forall a b c, rleb a b = true -> rleb b c = true -> rleb a c = true;
  rleb_antisym : forall a b, rleb a b = true -> rleb b a = true -> a = b;
  radd_rleb : forall a b c, rleb a b = true -> rleb (radd a c) (radd b c) = true;
  rneg1_negative : rleb r0 rneg1 = false;
  r1_positive : rleb r1 r0 = false;
  rexp_nonneg : forall a, rleb r0 (rexp a) = true;
  rexp_zero : forall a, rexp (rminus a a) = r1;
  rdiv_nonneg : forall a b, rleb r0 a = true -> rleb b r0 = false -> rleb r0 (rdiv a b) = true;
  rdiv_zero : forall b, rleb b r0 = false -> rdiv r0 b = r0
}.

Section kernels.
Context {R : Type} `{RouterNum R}.
Notation mat := (list (list R)) (only parsing).

Definition MAX_FUSED_EXPERTS : nat := 1024.
Definition MAX_FUSED_TOP_K : nat := 32.

(** What [can_use_fused_softmax_topk] asks of the tensor of logits. *)
Record logits_meta := mk_meta { is_cuda : bool; shape : list nat; stride_last : nat }.

Definition can_use_fused_softmax_topk (router_logits : logits_meta) (top_k : Z) : bool :=
  if negb (is_cuda router_logits) then false
  else match shape router_logits with
       | [num_tokens; num_experts] =>
           if negb (stride_last router_logits =? 1) then false
           else if MAX_FUSED_EXPERTS <? num_experts then false
           else if negb (bool_decide (0 < top_k <= Z.of_nat (MAX_FUSED_TOP_K `min` num_experts))%Z) then false
           else negb (num_tokens =? 0)
       | _ => false
       end.

(** Values with [-inf], which is [None]. *)
Definition inf_leb (a b : option R) : bool :=
  match a, b with None, _ => true | Some _, None => false | Some a, Some b => rleb a b end.

(** [tl.load(row + offs, mask=offs < num_experts, other=-inf)] *)
Definition load_lanes (block n : nat) (row : list R) : list (option R) :=
  (fun o => if o <? n then row !! o else None) <$> seq 0 block.

Definition lane_max {V} (vle : V -> V -> bool) (d : V) (l : list V) : V :=
  match l with [] => d | v :: l => foldl (fun a b => if vle b a then a else b) v l end.

(** The loop over [TOP_K]: the probability and the lane of each round. *)
Fixpoint topk_loop (k : nat) (work : list R) : list (R * nat) :=
  match k with
  | 0 => []
  | S k => let p := lane_max rleb r0 work in
           let idx := argmax rleb work in
           (p, idx) :: topk_loop k (imap (fun o v => if decide (o = idx) then rneg1 else v) work)
  end.

(** [sel_p\[0\] + sel_p\[1\] + ...] *)
Definition denom (sel : list R) : R := match sel with [] => r1 | p :: sel => foldl radd p sel end.

Definition kernel_weights (renorm : bool) (sel : list R) : list R :=
  if renorm then (fun p => rdiv p (denom sel)) <$> sel else sel.

(** [_fused_softmax_topk_kernel] on one row. *)
Definition softmax_topk_program (renorm : bool) (top_k num_experts : nat) (row : list R) : list R * list Z :=
  let block := next_power_of_2 num_experts in
  let logits := load_lanes block num_experts row in
  let row_max := lane_max inf_leb None logits in
  let exp := (fun a => match a, row_max with Some a, Some m => rexp (rminus a m) | _, _ => r0 end) <$> logits in
  let exp := imap (fun o e => if o <? num_experts then e else r0) exp in
  let probs := (fun e => rdiv e (rsum exp)) <$> exp in
  let sel := topk_loop top_k probs in
  (kernel_weights renorm (sel.*1), Z.of_nat <$> sel.*2).

Definition fused_softmax_topk (router_logits : mat) (num_experts top_k : nat) (renormalize : bool) : mat * list (list Z) :=
  let rows := softmax_topk_program renormalize top_k num_experts <$> router_logits in
  (rows.*1, rows.*2).

(** ** Scores with a correction bias *)

(** Numbers that may be NaN, which is [None]. *)
Definition nan_add (a b : option R) : option R := match a, b with Some a, Some b => Some (radd a b) | _, _ => None end.
Definition nan_div (a b : option R) : option R := match a, b with Some a, Some b => Some (rdiv a b) | _, _ => None end.

(** [tl.load(ptr + offs, mask=offs < num_experts, other=0.0)] *)
Definition load_or_zero (block n : nat) (row : list (option R)) : list (option R) :=
  (fun o => if o <? n then default None (row !! o) else Some r0) <$> seq 0 block.

(** [tl.where(mask & (scores == scores), scores, -inf)]: from here on [None] is [-inf]. *)
Definition valid_scores (n : nat) (scores : list (option R)) : list (option R) :=
  imap (fun o score => if o <? n then match score with Some v => Some v | None => None end else None) scores.

(** [tl.sum(tl.where(offs == idx, probs, 0.0))] *)
Definition gather_lane (idx : nat) (probs : list (option R)) : option R :=
  foldr nan_add (Some r0) (imap (fun o p => if decide (o = idx) then p else Some r0) probs).

Definition nan_weights (renorm : bool) (sel : list (option R)) : list (option R) :=
  if renorm then
    let denom := match sel with [] => Some r1 | p :: sel => foldl nan_add p sel end in
    (fun p => nan_div p denom) <$> sel
  else sel.

(** The loop over [TOP_K]. *)
Fixpoint biased_loop (probs : list (option R)) (k : nat) (work : list (option R)) : list (option R * nat) :=
  match k with
  | 0 => []
  | S k => let idx := argmax inf_leb work in
           let probability := gather_lane idx probs in
           (probability, idx) :: biased_loop probs k (imap (fun o v => if decide (o = idx) then None else v) work)
  end.

(** [_fused_sigmoid_biased_topk_kernel] on one row; a finite row and bias are [Some <$> _]. *)
Definition sigmoid_topk_program (renorm : bool) (top_k num_experts : nat) (bias row : list (option R)) : list (option R) * list Z :=
  let block := next_power_of_2 num_experts in
  let logits := load_or_zero block num_experts row in
  let probs := imap (fun o l => if o <? num_experts then rsigmoid <$> l else Some r0) logits in
  let bias := load_or_zero block num_experts bias in
  let selection_scores := zip_with nan_add probs bias in
  let work := valid_scores num_experts selection_scores in
  let selected := biased_loop probs top_k work in
  (nan_weights renorm (selected.*1), Z.of_nat <$> selected.*2).

Definition fused_sigmoid_biased_topk (meta : logits_meta) (router_logits : list (list (option R))) (correction_bias : list (option R)) (top_k : Z) (renormalize : bool) :
    result (list (list (option R)) * list (list Z)) :=
  if negb (can_use_fused_softmax_topk meta top_k) then Err ValueError
  else if decide (shape meta !! 1 <> Some (length correction_bias)) then Err ValueError
  else
    let rows := sigmoid_topk_program renormalize (Z.to_nat top_k) (length correction_bias) correction_bias <$> router_logits in
    Ok (rows.*1, rows.*2).

(** ** The unfused chain *)

(** [F.softmax(row)], which subtracts the maximum. *)
Definition softmax (row : list R) : list R :=
  let m := lane_max rleb r0 row in
  let e := (fun a => rexp (rminus a m)) <$> row in
  (fun x => rdiv x (rsum e)) <$> e.

(** [torch.topk], by the lanes it returns. *)
Context (topk : nat -> list R -> list nat).

Definition eager_route (top_k : nat) (row : list R) : list R * list Z :=
  let probs := softmax row in
  let ids := topk top_k probs in
  let w := (fun i => default r0 (probs !! i)) <$> ids in
  ((fun x => rdiv x (rsum w)) <$> w, Z.of_nat <$> ids).
End kernels.

Lemma where_insert {A} (idx : nat) (d : A) (work : list A) : imap (fun o v => if decide (o = idx) then d else v) work = <[idx := d]> work.
Proof.
  apply list_eq. intros o. rewrite list_lookup_imap. destruct (decide (o = idx)) as [->|Ho].
  - destruct (work !! idx) eqn:E; cbn; [rewrite list_lookup_insert_eq by (by eapply lookup_lt_Some); done|].
    rewrite list_insert_ge by (by apply lookup_ge_None). done.
  - rewrite list_lookup_insert_ne by done. by destruct (work !! o).
Qed.

(** * Lanes that may be invalid *)

Section invalid.
Context {R : Type} `{RouterNum R}.

Lemma inf_leb_total (a b : option R) : inf_leb a b = true \/ inf_leb b a = true.
Proof. destruct a as [a|], b as [b|]; cbn; auto using rleb_total. Qed.

Lemma inf_leb_trans (a b c : option R) : inf_leb a b = true -> inf_leb b c = true -> inf_leb a c = true.
Proof. destruct a as [a|], b as [b|], c as [c|]; cbn; try done. apply rleb_trans. Qed.

Lemma nan_add_0_l (a : option R) : nan_add (Some r0) a = a.
Proof. destruct a as [a|]; cbn; [|done]. by rewrite (left_id r0 radd). Qed.

Lemma nan_add_0_r (a : option R) : nan_add a (Some r0) = a.
Proof. destruct a as [a|]; cbn; [|done]. by rewrite (comm radd), (left_id r0 radd). Qed.

Lemma nan_sum_zeros (l : list (option R)) : foldr nan_add (Some r0) ((fun _ => Some r0) <$> l) = Some r0.
Proof. induction l as [|x l IH]; [done|]. cbn [fmap list_fmap foldr]. by rewrite nan_add_0_l. Qed.

Lemma gather_lane_lookup idx (probs : list (option R)) : gather_lane idx probs = default (Some r0) (probs !! idx).
Proof.
  unfold gather_lane. revert idx. induction probs as [|p probs IH]; intros [|idx]; [done..| |]; rewrite imap_cons; cbn [foldr lookup list_lookup].
  - rewrite decide_True by done. assert (Hz : imap ((fun o p => if decide (o = 0) then p else Some r0) ∘ S) probs = (fun _ => Some r0) <$> probs).
    { apply list_eq. intros i. rewrite list_lookup_imap, list_lookup_fmap. by destruct (probs !! i). }
    rewrite Hz, nan_sum_zeros, nan_add_0_r. done.
  - rewrite decide_False, nan_add_0_l by done. etransitivity; [|apply (IH idx)]. f_equal. apply imap_ext. intros i x _. cbn [compose].
    by destruct (decide (i = idx)), (decide (S i = S idx)); try lia.
Qed.

Lemma biased_loop_lanes probs k (work : list (option R)) :
  biased_loop probs k work = (fun i => (default (Some r0) (probs !! i), i)) <$> iter_topk inf_leb None k work.
Proof.
  revert work. induction k as [|k IH]; intros work; [done|]. cbn [biased_loop iter_topk fmap list_fmap]. by rewrite gather_lane_lookup, where_insert, IH.
Qed.

Lemma load_or_zero_exact block (row : list (option R)) : length row <= block ->
  load_or_zero block (length row) row = row ++ replicate (block - length row) (Some r0).
Proof.
  intros Hb. apply list_eq. intros o. unfold load_or_zero. rewrite list_lookup_fmap. destruct (decide (o < length row)) as [Ho|Ho].
  - rewrite lookup_seq_lt, lookup_app_l by lia. cbn [Nat.add fmap option_fmap option_map]. rewrite (proj2 (Nat.ltb_lt o _)) by lia.
    by destruct (lookup_lt_is_Some_2 row o Ho) as [v ->].
  - rewrite lookup_app_r by lia. destruct (decide (o < block)).
    + rewrite lookup_seq_lt, lookup_replicate_2 by lia. cbn [Nat.add fmap option_fmap option_map]. by rewrite (proj2 (Nat.ltb_ge o _)) by lia.
    + rewrite lookup_seq_ge by lia. cbn. symmetry. apply lookup_ge_None. rewrite length_replicate. lia.
Qed.

(** The sigmoids of a row and the scores by which experts are chosen. *)
Definition row_sigmoids (row : list (option R)) : list (option R) := (fun l : option R => rsigmoid <$> l) <$> row.
Definition biased_scores (bias row : list (option R)) : list (option R) := zip_with nan_add (row_sigmoids row) bias.

Lemma imap_mask {A B} n (f : A -> B) (z : B) l k : length l = n ->
  imap (fun o a => if o <? n then f a else z) (l ++ k) = (f <$> l) ++ ((fun _ => z) <$> k).
Proof.
  intros Hl. apply list_eq. intros o. rewrite list_lookup_imap. destruct (decide (o < n)).
  - rewrite !lookup_app_l by (rewrite ?length_fmap; lia). rewrite list_lookup_fmap. destruct (l !! o); [|done]. cbn [fmap option_fmap option_map].
    by rewrite (proj2 (Nat.ltb_lt o n)).
  - rewrite !lookup_app_r by (rewrite ?length_fmap; lia). rewrite length_fmap, list_lookup_fmap. destruct (k !! (o - length l)); [|done].
    cbn [fmap option_fmap option_map]. by rewrite (proj2 (Nat.ltb_ge o n)) by lia.
Qed.

Lemma length_biased_scores bias row : length bias = length row -> length (biased_scores bias row) = length row.
Proof. intros Hb. unfold biased_scores, row_sigmoids. rewrite length_zip_with, length_fmap. lia. Qed.

(** The lanes the kernel works on: the scores, then nothing. *)
Lemma biased_work block bias row : length bias = length row -> length row <= block ->
  let pad := block - length row in
  let probs := imap (fun o l => if o <? length row then rsigmoid <$> l else Some r0) (load_or_zero block (length row) row) in
  probs = row_sigmoids row ++ replicate pad (Some r0) /\
  valid_scores (length row) (zip_with nan_add probs (load_or_zero block (length row) bias)) = biased_scores bias row ++ replicate pad None.
Proof.
  intros Hb Hblock pad probs. assert (Hp : probs = row_sigmoids row ++ replicate pad (Some r0)).
  { subst probs. rewrite load_or_zero_exact by done. rewrite imap_mask by done. by rewrite fmap_replicate. }
  split; [done|]. rewrite Hp. rewrite <- Hb at 2. rewrite load_or_zero_exact, Hb by lia. fold pad.
  rewrite zip_with_app by (unfold row_sigmoids; by rewrite length_fmap). unfold valid_scores. fold (biased_scores bias row).
  rewrite (imap_mask (length row) (fun score : option R => match score with Some v => Some v | None => None end) None) by (by apply length_biased_scores).
  rewrite zip_with_replicate, fmap_replicate. f_equal. rewrite <- (list_fmap_id (biased_scores bias row)) at 2. apply list_fmap_ext. intros _ [x|] _; done.
Qed.

(** The lanes of the padding are never chosen, not even when no score is left. *)
Lemma argmax_inf_prefix (scores : list (option R)) pad : scores <> [] -> argmax inf_leb (scores ++ replicate pad None) < length scores.
Proof.
  intros Hne. set (work := scores ++ replicate pad None). assert (Hw : work <> []) by (by intros [? _]%app_eq_nil).
  destruct (argmax_spec inf_leb inf_leb_total inf_leb_trans work Hw) as (v & Hv & _ & Hfirst). apply Nat.nle_gt. set (m := argmax inf_leb work) in *. intros Hge.
  clearbody m. unfold work in Hv. rewrite lookup_app_r in Hv by done. apply lookup_replicate in Hv as [-> _].
  destruct scores as [|s0 scores]; [done|]. assert (Hf := Hfirst 0 s0 ltac:(cbn in Hge; lia) eq_refl). done.
Qed.

Lemma biased_ids_range k (scores : list (option R)) pad : scores <> [] ->
  Forall (fun i => i < length scores) (iter_topk inf_leb None k (scores ++ replicate pad None)).
Proof.
  revert scores. induction k as [|k IH]; intros scores Hne; [constructor|]. cbn [iter_topk]. pose proof (argmax_inf_prefix scores pad Hne) as Hlt.
  constructor; [done|]. rewrite insert_app_l by done. rewrite <- (length_insert scores (argmax inf_leb (scores ++ replicate pad None)) None).
  apply IH. intros E%(f_equal length). rewrite length_insert in E. by destruct scores.
Qed.
End invalid.

(** * The lanes of a row *)

Section lanes.
Context {R : Type} `{RouterNum R}.
Notation mat := (list (list R)) (only parsing).

Lemma rleb_refl (a : R) : rleb a a = true.
Proof. by destruct (rleb_total a a). Qed.

Lemma rpos_nonneg (a : R) : rleb a r0 = false -> rleb r0 a = true.
Proof. intros Ha. destruct (rleb_total a r0); congruence. Qed.

Lemma nonneg_live (a : R) : rleb r0 a = true -> live rleb rneg1 a.
Proof. intros Ha. unfold live. destruct (rleb a rneg1) eqn:E; [|done]. pose proof (rleb_trans _ _ _ Ha E) as Hc. by rewrite rneg1_negative in Hc. Qed.

Lemma rsum_ge (l : list R) a : Forall (fun x => rleb r0 x = true) l -> a ∈ l -> rleb a (rsum l) = true.
Proof.
  assert (Hn : forall k : list R, Forall (fun x => rleb r0 x = true) k -> rleb r0 (rsum k) = true).
  { induction 1 as [|x k Hx _ IH]; [apply rleb_refl|]. rewrite rsum_cons. eapply rleb_trans; [exact IH|]. rewrite <- (left_id r0 radd (rsum k)) at 1. by apply radd_rleb. }
  intros Hl. induction Hl as [|x l Hx Hl IH]; intros Ha; [by apply elem_of_nil in Ha|]. rewrite rsum_cons.
  apply elem_of_cons in Ha as [->|Ha].
  - rewrite <- (left_id r0 radd x) at 1. rewrite (comm radd x). apply radd_rleb. by apply Hn.
  - eapply rleb_trans; [by apply IH|]. rewrite <- (left_id r0 radd (rsum l)) at 1. by apply radd_rleb.
Qed.

(** The exponentials of a row and their sum. *)
Definition row_exps (row : list R) : list R := (fun a => rexp (rminus a (lane_max rleb r0 row))) <$> row.

Lemma lane_max_lookup (l : list R) : l <> [] -> l !! argmax rleb l = Some (lane_max rleb r0 l).
Proof. destruct l as [|v l]; [done|]. intros _. by apply (foldl_argmax_go rleb [v] 0 v l). Qed.

Lemma row_exps_positive row : row <> [] -> rleb (rsum (row_exps row)) r0 = false.
Proof.
  intros Hne. destruct (rleb (rsum (row_exps row)) r0) eqn:E; [|done]. rewrite <- r1_positive. symmetry. eapply rleb_trans; [|exact E].
  apply rsum_ge; [apply Forall_fmap, Forall_true; intros a; apply rexp_nonneg|].
  apply list_elem_of_fmap. exists (lane_max rleb r0 row). split; [by rewrite rexp_zero|]. by eapply list_elem_of_lookup_2, lane_max_lookup.
Qed.

Lemma softmax_nonneg row : row <> [] -> Forall (fun p => rleb r0 p = true) (softmax row).
Proof.
  intros Hne. unfold softmax. fold (row_exps row). apply Forall_fmap. unfold row_exps at 1. apply Forall_fmap, Forall_true. intros a. cbn.
  apply rdiv_nonneg; [apply rexp_nonneg|by apply row_exps_positive].
Qed.

Lemma length_softmax (row : list R) : length (softmax row) = length row.
Proof. unfold softmax. by rewrite !length_fmap. Qed.

Lemma load_lanes_exact block (row : list R) : length row <= block ->
  load_lanes block (length row) row = (Some <$> row) ++ replicate (block - length row) None.
Proof.
  intros Hb. apply list_eq. intros o. unfold load_lanes. rewrite list_lookup_fmap. destruct (decide (o < length row)) as [Ho|Ho].
  - rewrite lookup_seq_lt, lookup_app_l, list_lookup_fmap by (rewrite ?length_fmap; lia). cbn [Nat.add fmap option_fmap option_map]. rewrite (proj2 (Nat.ltb_lt o _)) by lia.
    by destruct (lookup_lt_is_Some_2 row o Ho) as [v ->].
  - rewrite lookup_app_r, length_fmap by (rewrite length_fmap; lia). destruct (decide (o < block)).
    + rewrite lookup_seq_lt, lookup_replicate_2 by lia. cbn [Nat.add fmap option_fmap option_map]. by rewrite (proj2 (Nat.ltb_ge o _)) by lia.
    + rewrite lookup_seq_ge by lia. cbn. symmetry. apply lookup_ge_None. rewrite length_replicate. lia.
Qed.

Lemma lane_max_inf (row : list R) m : row <> [] ->
  lane_max inf_leb None ((Some <$> row) ++ replicate m None) = Some (lane_max rleb r0 row).
Proof.
  destruct row as [|v row]; [done|]. intros _. cbn [fmap list_fmap app lane_max]. rewrite foldl_app.
  assert (Hs : foldl (fun a b => if inf_leb b a then a else b) (Some v) (Some <$> row) = Some (foldl (fun a b => if rleb b a then a else b) v row)).
  { revert v. induction row as [|w row IH]; intros v; [done|]. cbn [fmap list_fmap foldl inf_leb]. destruct (rleb w v); apply IH. }
  rewrite Hs. induction m as [|m IH]; [done|]. cbn [replicate foldl inf_leb]. exact IH.
Qed.

Lemma topk_loop_lanes k work : k <= live_lanes rleb rneg1 work ->
  topk_loop k work = (fun i => (default r0 (work !! i), i)) <$> iter_topk rleb rneg1 k work.
Proof.
  revert work. induction k as [|k IH]; intros work Hk; [done|]. cbn [topk_loop iter_topk fmap list_fmap].
  pose proof (iter_topk_top rleb rleb_total rleb_trans rneg1 (S k) work Hk) as [(Hnd & _) Hl]. cbn [iter_topk] in *.
  assert (Hne : work <> []) by (intros ->; cbn in Hk; lia). rewrite where_insert. destruct (Hl (argmax rleb work)) as (v & Hv & Hlv); [apply list_elem_of_here|].
  pose proof (live_insert rleb rleb_total rneg1 work _ v Hv Hlv) as Hc. rewrite IH by lia. f_equal; [by rewrite lane_max_lookup|].
  apply list_fmap_ext. intros a i Hi. f_equal. inversion Hnd as [|? ? Hn _]; subst.
  rewrite list_lookup_insert_ne; [done|]. intros <-. apply Hn. by eapply list_elem_of_lookup_2.
Qed.

(** The probabilities of the kernel: those of the softmax, and zero on the lanes of the padding. *)
Lemma program_probs (row : list R) pad : row <> [] ->
  let logits := (Some <$> row) ++ replicate pad None in
  let exp := (fun a => match a, lane_max inf_leb None logits with Some a, Some m => rexp (rminus a m) | _, _ => r0 end) <$> logits in
  let exp := imap (fun o e => if o <? length row then e else r0) exp in
  (fun e => rdiv e (rsum exp)) <$> exp = softmax row ++ replicate pad r0.
Proof.
  intros Hne logits exp exp'. assert (He : exp' = row_exps row ++ replicate pad r0).
  { subst exp' exp logits. rewrite lane_max_inf by done. rewrite fmap_app, fmap_replicate, <- list_fmap_compose. unfold row_exps.
    apply list_eq. intros o. rewrite list_lookup_imap. destruct (decide (o < length row)) as [Ho|Ho].
    - rewrite !lookup_app_l by (by rewrite length_fmap). rewrite !list_lookup_fmap. destruct (row !! o); [|done].
      cbn [fmap option_fmap option_map]. by rewrite (proj2 (Nat.ltb_lt o _)).
    - rewrite !lookup_app_r by (rewrite length_fmap; lia). rewrite !length_fmap. destruct (replicate pad r0 !! (o - length row)) as [z|] eqn:E; [|done].
      apply lookup_replicate in E as [-> _]. cbn [fmap option_fmap option_map]. by destruct (o <? length row). }
  rewrite He. assert (Hs : rsum (row_exps row ++ replicate pad r0) = rsum (row_exps row)).
  { rewrite rsum_app, (rsum_zeros (replicate pad r0)) by (by apply Forall_replicate). by rewrite (comm radd), (left_id r0 radd). }
  rewrite Hs, fmap_app, fmap_replicate, rdiv_zero by (by apply row_exps_positive). done.
Qed.

Lemma denom_sum (l : list R) : l <> [] -> denom l = rsum l.
Proof. destruct l as [|p l]; [done|]. intros _. unfold denom. by rewrite foldl_radd, rsum_cons. Qed.

(** The lanes the kernel takes, and the weights it stores. *)
Lemma softmax_topk_lanes renorm k (row : list R) : row <> [] -> 0 < k <= length row ->
  exists ids, length ids = k /\ top_lanes rleb (softmax row) ids /\ lowest_first (softmax row) ids /\
    softmax_topk_program renorm k (length row) row
    = (let w := (fun i => default r0 (softmax row !! i)) <$> ids in if renorm then (fun x => rdiv x (rsum w)) <$> w else w, Z.of_nat <$> ids).
Proof.
  intros Hne Hk. unfold softmax_topk_program. set (block := next_power_of_2 (length row)). pose proof (next_power_of_2_ge (length row)) as Hb. fold block in Hb.
  rewrite load_lanes_exact by done. rewrite (program_probs row (block - length row) Hne). set (pad := block - length row).
  set (work := softmax row ++ replicate pad r0). pose proof (softmax_nonneg row Hne) as Hnn. pose proof (length_softmax row) as Hlen.
  assert (Hlive : Forall (live rleb rneg1) work).
  { apply Forall_app. split; [eapply Forall_impl; [exact Hnn|apply nonneg_live]|]. apply Forall_replicate, nonneg_live, rleb_refl. }
  assert (Htake : take (length row) work = softmax row) by (unfold work; by rewrite <- Hlen, take_app_length).
  assert (Hcount : k <= live_lanes rleb rneg1 work) by (rewrite all_live by done; unfold work; rewrite length_app; lia).
  set (ids := iter_topk rleb rneg1 k work). pose proof (iter_topk_top rleb rleb_total rleb_trans rneg1 k work Hcount) as [Htop _]. fold ids in Htop.
  assert (Hin : Forall (fun i => i < length row) ids).
  { apply iter_topk_prefix; [apply rleb_total|apply rleb_trans|..]; rewrite ?Htake.
    - rewrite all_live by (eapply Forall_impl; [exact Hnn|apply nonneg_live]). lia.
    - intros i j v w Hi Hj Hv _ Hw. unfold work in Hw, Hv. rewrite lookup_app_r in Hw by lia. apply lookup_replicate in Hw as [-> _].
      rewrite lookup_app_l in Hv by lia. by eapply Forall_lookup_1 in Hnn. }
  assert (Hval : forall i, i ∈ ids -> work !! i = softmax row !! i).
  { intros i Hi. eapply Forall_forall in Hin; [|done]. unfold work. apply lookup_app_l. lia. }
  exists ids. split; [apply length_iter_topk|]. split; [rewrite <- Htake; by apply top_lanes_prefix|]. split.
  - intros a i j v Hi Hv Hw Hji. assert (Hii : i ∈ ids) by (by eapply list_elem_of_lookup_2).
    apply (iter_topk_lowest rleb rleb_total rleb_trans rneg1 k work Hcount a i j v); [done|by rewrite Hval| |done].
    unfold work. rewrite lookup_app_l; [done|]. by eapply lookup_lt_Some.
  - rewrite topk_loop_lanes by done. fold ids. rewrite <- !list_fmap_compose.
    assert (Hw : (fun i => default r0 (work !! i)) <$> ids = (fun i => default r0 (softmax row !! i)) <$> ids).
    { apply list_fmap_ext. intros a i Hi. rewrite Hval; [done|]. by eapply list_elem_of_lookup_2. }
    change (fst ∘ (fun i => (default r0 (work !! i), i))) with (fun i => default r0 (work !! i)). rewrite Hw. unfold kernel_weights.
    rewrite denom_sum; [destruct renorm; by rewrite <- ?list_fmap_compose|].
    intros E%(f_equal length). unfold ids in E. rewrite length_fmap, length_iter_topk in E. cbn in E. lia.
Qed.
End lanes.

(** * Rational numbers *)

(** An instance that computes: rationals, with a rational function for the exponential. *)
Definition Qc_leb (a b : Qc) : bool := bool_decide (a ≤ b)%Qc.

Definition Qc_exp (a : Qc) : Qc := if Qc_leb 0 a then (1 + a)%Qc else (1 / (1 - a))%Qc.

Definition Qc_sigmoid (a : Qc) : Qc := (Qc_exp a / (1 + Qc_exp a))%Qc.

#[export] Instance Qc_arith : Arith Qc.
Proof. refine {| r0 := 0%Qc; r1 := 1%Qc; radd := Qcplus; rmul := Qcmult |}; intro; intros; ring. Defined.

#[export] Instance Qc_semiring : Semiring Qc.
Proof. constructor; [intros a b|intros a b c]; cbn; ring. Defined.

Lemma Qc_leb_true a b : Qc_leb a b = true <-> (a <= b)%Qc.
Proof. unfold Qc_leb. apply bool_decide_eq_true. Qed.

Lemma Qc_leb_false a b : Qc_leb a b = false <-> (b < a)%Qc.
Proof. unfold Qc_leb. rewrite bool_decide_eq_false. symmetry. apply Qclt_nge. Qed.

Lemma Qc_div_nonneg a b : (0 <= a)%Qc -> (0 < b)%Qc -> (0 <= a / b)%Qc.
Proof.
  intros Ha Hb. apply (Qcmult_le_mono_pos_r _ _ b Hb). rewrite Qcmult_0_l, (Qcmult_comm (a / b)), Qcmult_div_r; [done|].
  intros ->. by apply Qclt_not_eq in Hb.
Qed.

Lemma Qc_exp_nonneg a : (0 <= Qc_exp a)%Qc.
Proof.
  unfold Qc_exp. destruct (Qc_leb 0 a) eqn:E; [apply Qc_leb_true in E; by apply Qcplus_nonneg_nonneg|apply Qc_leb_false in E].
  apply Qc_div_nonneg; [done|]. apply Qclt_minus_iff. replace (1 - a + - 0)%Qc with (1 + - a)%Qc by ring.
  apply Qcplus_pos_nonneg; [done|]. apply Qclt_minus_iff in E. rewrite Qcplus_0_l in E. by apply Qclt_le_weak.
Qed.

Lemma log2_up_ge n : n <= 2 ^ Nat.log2_up n.
Proof.
  destruct (decide (n <= 1)) as [Hn|Hn]; [|by apply Nat.log2_up_spec; lia]. destruct n as [|[|n]]; [apply Nat.le_0_l|by vm_compute|lia].
Qed.

#[export] Instance Qc_router : RouterNum Qc.
Proof.
  refine {| rneg1 := (-1)%Qc; rminus := Qcminus; rdiv := Qcdiv; rexp := Qc_exp; rsigmoid := Qc_sigmoid; rleb := Qc_leb; next_power_of_2 n := 2 ^ Nat.log2_up n |};
    cbn; intros *; rewrite ?Qc_leb_true, ?Qc_leb_false; try reflexivity.
  - apply log2_up_ge.
  - destruct (Qclt_le_dec a b) as [Hab|Hab]; [left; by apply Qclt_le_weak|by right].
  - apply Qcle_trans.
  - apply Qcle_antisym.
  - by apply Qcplus_le_mono_r.
  - apply Qc_exp_nonneg.
  - unfold Qcminus. rewrite Qcplus_opp_r. reflexivity.
  - apply Qc_div_nonneg.
  - intros Hb. apply Qcmult_0_l.
Defined.

(** * Lanes and weights of the biased router *)

Section biased.
Context {R : Type} `{RouterNum R}.

Lemma live_padded (scores : list (option R)) pad : live_lanes inf_leb None (scores ++ replicate pad None) = live_lanes inf_leb None scores.
Proof.
  unfold live_lanes. rewrite filter_app, length_app. assert (Hz : filter (live inf_leb None) (replicate pad (None : option R)) = []).
  { induction pad as [|pad IH]; [done|]. cbn [replicate]. by rewrite filter_cons_False. }
  rewrite Hz. cbn. lia.
Qed.

Lemma nan_foldl (a : R) l : foldl nan_add (Some a) (Some <$> l) = Some (foldl radd a l).
Proof. revert a. induction l as [|x l IH]; intros a; [done|]. cbn [fmap list_fmap foldl nan_add]. apply IH. Qed.

Lemma nan_weights_finite renorm (p : list R) :
  nan_weights renorm (Some <$> p) = Some <$> if renorm then (fun x => rdiv x (rsum p)) <$> p else p.
Proof.
  destruct renorm; [|done]. unfold nan_weights. destruct p as [|a p]; [done|]. cbn [fmap list_fmap]. fold (Some <$> p). rewrite nan_foldl, foldl_radd, <- rsum_cons.
  f_equal. by rewrite <- !list_fmap_compose.
Qed.

(** The lanes the kernel takes, on any row. *)
Lemma sigmoid_topk_lanes renorm k bias row : row <> [] -> length bias = length row ->
  exists lanes, (sigmoid_topk_program renorm k (length row) bias row).2 = Z.of_nat <$> lanes /\ length lanes = k /\ Forall (fun i => i < length row) lanes /\
    (sigmoid_topk_program renorm k (length row) bias row).1 = nan_weights renorm ((fun i => default (Some r0) (row_sigmoids row !! i)) <$> lanes) /\
    (let scores := biased_scores bias row in
     k <= live_lanes inf_leb None scores ->
     top_lanes inf_leb scores lanes /\ lowest_first scores lanes /\ forall i, i ∈ lanes -> exists s, scores !! i = Some (Some s)).
Proof.
  intros Hne Hb. unfold sigmoid_topk_program. set (block := next_power_of_2 (length row)). pose proof (next_power_of_2_ge (length row)) as Hblock. fold block in Hblock.
  destruct (biased_work block bias row Hb Hblock) as [Hprobs Hwork]. cbn zeta in *. rewrite Hwork, Hprobs, biased_loop_lanes. clear Hwork Hprobs.
  set (pad := block - length row). set (scores := biased_scores bias row). pose proof (length_biased_scores bias row Hb) as Hlen. fold scores in Hlen.
  set (lanes := iter_topk inf_leb None k (scores ++ replicate pad None)).
  assert (Hrange : Forall (fun i => i < length row) lanes).
  { rewrite <- Hlen. apply biased_ids_range. intros E. rewrite E in Hlen. by destruct row. }
  exists lanes. cbn [fst snd]. rewrite <- !list_fmap_compose. split; [done|]. split; [apply length_iter_topk|]. split; [done|]. split.
  - f_equal. apply list_fmap_ext. intros a i Hi. cbn. rewrite lookup_app_l; [done|]. unfold row_sigmoids. rewrite length_fmap.
    by eapply Forall_lookup_1 in Hrange.
  - intros Hk. assert (Hlive : k <= live_lanes inf_leb None (scores ++ replicate pad None)) by (by rewrite live_padded).
    destruct (iter_topk_top inf_leb inf_leb_total inf_leb_trans None k _ Hlive) as [Htop Hvalid]. fold lanes in Htop, Hvalid.
    assert (Hval : forall i, i < length row -> (scores ++ replicate pad None) !! i = scores !! i) by (intros i Hi; apply lookup_app_l; lia).
    split; [|split].
    + rewrite <- (take_app_length scores (replicate pad None)), Hlen. by apply top_lanes_prefix.
    + intros a i j v Hi Hv Hw Hji. apply (iter_topk_lowest inf_leb inf_leb_total inf_leb_trans None k _ Hlive a i j v); [done| |by rewrite Hval; [|rewrite <- Hlen; eapply lookup_lt_Some]|done].
      rewrite Hval; [done|]. by eapply Forall_lookup_1 in Hrange.
    + intros i Hi. destruct (Hvalid i Hi) as (s & Hs & Hl). rewrite Hval in Hs by (by eapply Forall_forall in Hrange). destruct s as [s|]; [by exists s|]. done.
Qed.
End biased.

(** * Properties *)

(** What [torch.topk] documents: the [k] largest values in descending order; which of equal
    values it returns is not said. *)
Definition topk_sound {R} `{RouterNum R} (topk : nat -> list R -> list nat) : Prop :=
  forall k l, k <= length l -> length (topk k l) = k /\ top_lanes rleb l (topk k l).

Lemma can_use_bounds meta t n (k : Z) : shape meta = [t; n] -> can_use_fused_softmax_topk meta k = true ->
  0 < Z.to_nat k <= n /\ 0 < t.
Proof.
  intros Hs. unfold can_use_fused_softmax_topk. rewrite Hs. destruct (is_cuda meta); [cbn [negb]|done].
  destruct (stride_last meta =? 1); [cbn [negb]|done]. destruct (MAX_FUSED_EXPERTS <? n); [done|].
  case_bool_decide as Hk; [cbn [negb]|done]. destruct t; [done|]. lia.
Qed.

(** C9. The fused gating kernel computes what the unfused chain of softmax, top-k and
    renormalisation computes.  For every matrix of logits the block may hand to it, every row
    of its result has the weights of the chain, whatever [torch.topk] does on ties, and [k]
    different experts that exist: those with the largest probabilities, in descending order,
    the lowest first among equal ones, never a lane of the padding; they are the experts of
    the chain where no two probabilities are equal. *)
Theorem fused_router_exact {R} `{RouterNum R} topk meta (rows : list (list R)) n (top_k : Z) :
  topk_sound topk -> shape meta = [length rows; n] -> Forall (fun row => length row = n) rows ->
  can_use_fused_softmax_topk meta top_k = true ->
  let k := Z.to_nat top_k in
  let '(weights, ids) := fused_softmax_topk rows n k true in
  length weights = length rows /\ length ids = length rows /\
  forall t row, rows !! t = Some row -> exists lanes,
    weights !! t = Some (eager_route topk k row).1 /\ ids !! t = Some (Z.of_nat <$> lanes) /\
    length lanes = k /\ top_lanes rleb (softmax row) lanes /\ lowest_first (softmax row) lanes /\
    (NoDup (softmax row) -> Z.of_nat <$> lanes = (eager_route topk k row).2).
Proof.
  intros Htopk Hshape Hrows Hcan k. destruct (can_use_bounds _ _ _ _ Hshape Hcan) as [Hk _]. fold k in Hk.
  unfold fused_softmax_topk. cbn zeta. split; [by rewrite !length_fmap|]. split; [by rewrite !length_fmap|]. intros t row Hrow.
  pose proof (Forall_lookup_1 _ _ _ _ Hrows Hrow) as <-. assert (Hne : row <> []) by (intros ->; cbn in Hk; lia).
  destruct (softmax_topk_lanes true k row Hne Hk) as (lanes & Hlen & Htop & Hlow & Hprog). exists lanes.
  rewrite !list_lookup_fmap, Hrow. cbn [fmap option_fmap option_map]. rewrite Hprog. cbn [fst snd].
  destruct (Htopk k (softmax row)) as [Hlen' Htop']; [rewrite length_softmax; lia|]. unfold eager_route. cbn [fst snd].
  split_and!; [|done..|].
  - by rewrite (top_lanes_values rleb rleb_total rleb_trans rleb_antisym (softmax row) lanes (topk k (softmax row)) r0) by congruence.
  - intros Hnd. f_equal. apply (top_lanes_unique rleb rleb_total rleb_trans rleb_antisym (softmax row)); try done. congruence.
Qed.

(** A top-k that takes the lowest lane of equal values. *)
Definition lane_topk {R} `{RouterNum R} (k : nat) (l : list R) : list nat := iter_topk inf_leb None k (Some <$> l).

Lemma lane_topk_sound {R} `{RouterNum R} : topk_sound lane_topk.
Proof.
  intros k l Hk. split; [apply length_iter_topk|].
  assert (Hlive : live_lanes inf_leb None (Some <$> l) = length l) by (rewrite all_live, length_fmap; [done|apply Forall_fmap, Forall_true; done]).
  destruct (iter_topk_top inf_leb inf_leb_total inf_leb_trans None k (Some <$> l)) as [(Hnd & Hin & Hdesc & Hrest) _]; [lia|].
  split; [done|]. split; [intros i Hi; pose proof (Hin i Hi) as Hr; by rewrite length_fmap in Hr|].
  assert (Hs : forall i v, l !! i = Some v -> (Some <$> l) !! i = Some (Some v)) by (intros i v Hv; by rewrite list_lookup_fmap, Hv).
  split; [intros a b i j v w Hab Hi Hj Hv%Hs Hw%Hs; by apply (Hdesc a b i j (Some v) (Some w))|].
  intros i j v w Hi Hj Hv%Hs Hw%Hs. by apply (Hrest i j (Some v) (Some w)).
Qed.

Lemma fused_router_exact_witness :
  let rows := [[1; 1 + 1 + 1; 1 + 1]; [0; 0; 0]]%Qc in
  let out := fused_softmax_topk rows 3 2 true in
  ((fun ws : list Qc => this <$> ws) <$> out.1 = [[QArith_base.Qmake 2 3; QArith_base.Qmake 1 3]; [QArith_base.Qmake 1 2; QArith_base.Qmake 1 2]]) /\ out.2 = [[1; 2]; [0; 1]]%Z /\
  exists lanes, [1; 2]%Z = Z.of_nat <$> lanes /\ top_lanes rleb (softmax [1; 1 + 1 + 1; 1 + 1]%Qc) lanes.
Proof.
  intros rows out. split; [vm_compute; reflexivity|]. assert (Hout : out.2 = [[1; 2]; [0; 1]]%Z) by (vm_compute; reflexivity). split; [exact Hout|].
  pose proof (fused_router_exact lane_topk (mk_meta true [2; 3] 1) rows 3 2 lane_topk_sound eq_refl ltac:(repeat constructor) eq_refl) as Hex.
  change (Z.to_nat 2) with 2 in Hex. fold out in Hex. clearbody out. destruct out as [ws ids]. cbn [snd] in Hout. subst ids.
  destruct Hex as (_ & _ & Hex). destruct (Hex 0 [1; 1 + 1 + 1; 1 + 1]%Qc eq_refl) as (lanes & _ & Hids & _ & Htop & _).
  exists lanes. split.
  - apply (inj Some). exact Hids.
  - exact Htop.
Defined.


