(* ===== verification/Qwen3Moe.v ===== *)
(** The Qwen3 mixture-of-experts model ([dlengine/runtime/models/qwen3_moe/qwen3_moe.py]): its
    sparse block with the router of [MoeRouter] and the expert layer of [Experts], the exchange
    of tokens between attention and expert ranks, and the decoder layers of a pipeline stage on
    all its ranks.

    The ranks of a stage are numbered as the meshes of
    [dlengine/runtime/context/distributed.py] number them, for attention
    (data-parallel groups of tensor-parallel ranks) and for the feed-forward layers
    (data-parallel groups of expert-parallel ranks, each a group of tensor-parallel ranks).
    They run in lock step between their collectives.  Attention and the norms are those of
    [Qwen3], whose code the model repeats.  The FP8 paths are not modelled. *)

From S2P Require Import Prelude PyStr PipelineParallel TensorParallel Experts MoeRouter Qwen3 Qwen3Exact Qwen3Load.

Open Scope nat_scope.

(** * Meshes *)

Record Mesh := mk_mesh {
  mesh_attention_dp : nat;
  mesh_attention_tp : nat;
  mesh_ffn_dp : nat;
  mesh_ffn_ep : nat;
  mesh_ffn_tp : nat
}.

Definition mesh_ranks (m : Mesh) : nat := mesh_attention_dp m * mesh_attention_tp m.

(** [_validate_parallelism] for the ranks of a stage, without sequence parallelism. *)
Definition mesh_valid (m : Mesh) : bool := mesh_ranks m =? mesh_ffn_dp m * mesh_ffn_ep m * mesh_ffn_tp m.

(** The rank at expert-parallel position [r] and tensor-parallel position [c] of a group. *)
Definition ffn_rank (m : Mesh) (g r c : nat) : nat := g * (mesh_ffn_ep m * mesh_ffn_tp m) + r * mesh_ffn_tp m + c.

(** * Feed-forward layers *)

Section ffn.
Context {R : Type} `{RouterNum R} (silu : R -> R) (topk : nat -> list R -> list nat).
Notation mat := (list (list R)) (only parsing).

(** [Qwen3MoeSparseMoeBlock.forward] up to the experts; [fused] says that the kernel could be
    imported. *)
Definition moe_route (fused cuda : bool) (num_experts top_k : nat) (gate : tensor R) (hidden_states : mat) : result (moe_input R) :=
  router_logits ← F_linear hidden_states gate None;
  let meta := mk_meta cuda [length router_logits; num_experts] 1 in
  '(routing_weights, selected_experts) ←
    (if fused && can_use_fused_softmax_topk meta (Z.of_nat top_k) then Ok (fused_softmax_topk router_logits num_experts top_k true)
     else if decide (num_experts < top_k) then Err RuntimeError
     else let rows := eager_route topk top_k <$> router_logits in Ok (rows.*1, rows.*2));
  Ok (mk_input hidden_states selected_experts routing_weights).

(** What the block reads of its context: kernel and device, [max_num_seqs], the phase, and the
    orders of the dispatch kernels by group and rank. *)
Record moe_env := mk_moe_env {
  me_fused : bool;
  me_cuda : bool;
  me_max_num_seqs : option nat;
  me_prefill : bool;
  me_orders : list (list (list nat));
  me_comm : CommEnv
}.

(** [Qwen3MoeSparseMoeBlock] on a rank. *)
Record SparseBlock := mk_sparse { sb_gate : tensor R; sb_experts : GenericExperts R }.

(** The blocks of all ranks, in rank order. *)
Definition sparse_forward (m : Mesh) (env : moe_env) (blocks : list SparseBlock) (hs : list mat) : result (list (SparseBlock * mat)) :=
  inputs ← mapM_r (fun '(b, h) => i ← moe_route (me_fused env) (me_cuda env) (num_experts (sb_experts b)) (top_k (sb_experts b)) (sb_gate b) h;
                                  Ok (sb_experts b, i)) (zip blocks hs);
  groups ← mapM_r (fun g =>
    grid ← mapM_r (fun c => mapM_r (fun r => of_option IndexError (inputs !! ffn_rank m g r c)) (seq 0 (mesh_ffn_ep m))) (seq 0 (mesh_ffn_tp m));
    outs ← Experts.forward silu (me_max_num_seqs env) (default [] (me_orders env !! g)) (me_prefill env) (mesh_ffn_ep m) grid;
    mapM_r (fun r => mapM_r (fun c => of_option IndexError (outs !! c ≫= (.!! r))) (seq 0 (mesh_ffn_tp m))) (seq 0 (mesh_ffn_ep m))) (seq 0 (mesh_ffn_dp m));
  let outs := concat (concat groups) in
  Ok (zip_with (fun b o => (mk_sparse (sb_gate b) o.1, o.2)) blocks outs).

(** [Qwen3MoeMLP] on a rank. *)
Record DenseBlock := mk_dense { db_gate_up : Linear R; db_down : Linear R }.

(** [Qwen3MoeMLP.forward] on a tensor-parallel group. *)
Definition dense_group_forward (env : CommEnv) (group : list DenseBlock) (hs : list mat) : result (list mat) :=
  acts ← mapM_r (fun p : DenseBlock * mat => gate_up ← linear_forward (db_gate_up p.1) p.2; Ok ((swiglu silu <$> gate_up) : mat)) (zip group hs);
  row_forward env false (db_down <$> group) acts.

Definition dense_forward (m : Mesh) (env : moe_env) (blocks : list DenseBlock) (hs : list mat) : result (list mat) :=
  let tp := mesh_ffn_tp m in
  groups ← mapM_r (fun t => dense_group_forward (me_comm env) (lslice (t * tp) tp blocks) (lslice (t * tp) tp hs)) (seq 0 (mesh_ffn_dp m * mesh_ffn_ep m));
  Ok (concat groups).

(** What the feed-forward layers of the model read of its configuration. *)
Record Qwen3MoeConfig := mk_moe_config {
  qm_hidden_size : nat;
  qm_intermediate_size : nat;
  qm_moe_intermediate_size : nat;
  qm_num_experts : nat;
  qm_num_experts_per_tok : nat;
  qm_mlp_only_layers : list nat;
  qm_decoder_sparse_step : nat;
  qm_hidden_act : string
}.

(** The choice of the feed-forward layer in [Qwen3MoeDecoderLayer.__init__]. *)
Definition is_sparse_layer (c : Qwen3MoeConfig) (layer_idx : nat) : result bool :=
  if decide (layer_idx ∈ qm_mlp_only_layers c) then Ok false
  else if decide (qm_num_experts c = 0) then Ok false
  else if decide (qm_decoder_sparse_step c = 0) then Err ZeroDivisionError
  else Ok (bool_decide ((layer_idx + 1) mod qm_decoder_sparse_step c = 0)).

(** [Qwen3MoeSparseMoeBlock.__init__] on rank [w]. *)
Definition sparse_block_init (uninit : nat -> nat -> R) (uninit3 : nat -> nat -> nat -> R) (m : Mesh) (c : Qwen3MoeConfig) (w : nat) : result SparseBlock :=
  let gate := empty_mat uninit (qm_num_experts c) (qm_hidden_size c) in
  experts ← GenericExperts_init uninit3 (qm_hidden_size c) (qm_moe_intermediate_size c) (qm_num_experts c) (qm_num_experts_per_tok c)
              (mesh_ffn_ep m) (mesh_ffn_tp m) ((w / mesh_ffn_tp m) mod mesh_ffn_ep m) (w mod mesh_ffn_tp m);
  Ok (mk_sparse gate experts).

(** [Qwen3MoeMLP.__init__] on rank [w]. *)
Definition dense_block_init (uninit : nat -> nat -> R) (m : Mesh) (c : Qwen3MoeConfig) (w : nat) : result DenseBlock :=
  let rank := w mod mesh_ffn_tp m in
  gate_up ← MergedColumnParallelLinear_init uninit rank (mesh_ffn_tp m) (qm_hidden_size c) [qm_intermediate_size c; qm_intermediate_size c] false None None;
  down ← RowParallelLinear_init uninit rank (mesh_ffn_tp m) (qm_intermediate_size c) (qm_hidden_size c) false None None;
  if decide (qm_hidden_act c <> "silu"%string) then Err AssertionError else Ok (mk_dense gate_up down).

(** The feed-forward layer of all ranks of a stage. *)
Inductive ffn_layer :=
  | SparseLayer (blocks : list SparseBlock)
  | DenseLayer (blocks : list DenseBlock).

(** The feed-forward layers built by [Qwen3MoeDecoderLayer.__init__] on the ranks of a stage. *)
Definition ffn_layer_init (uninit : nat -> nat -> R) (uninit3 : nat -> nat -> nat -> R) (m : Mesh) (c : Qwen3MoeConfig) (layer_idx : nat) : result ffn_layer :=
  sparse ← is_sparse_layer c layer_idx;
  if sparse : bool then blocks ← mapM_r (sparse_block_init uninit uninit3 m c) (seq 0 (mesh_ranks m)); Ok (SparseLayer blocks)
  else blocks ← mapM_r (dense_block_init uninit m c) (seq 0 (mesh_ranks m)); Ok (DenseLayer blocks).

Definition mlp_stage (m : Mesh) (env : moe_env) (l : ffn_layer) (hs : list mat) : result (ffn_layer * list mat) :=
  match l with
  | SparseLayer blocks => outs ← sparse_forward m env blocks hs; Ok (SparseLayer (outs.*1), outs.*2)
  | DenseLayer blocks => outs ← dense_forward m env blocks hs; Ok (DenseLayer blocks, outs)
  end.

(** The condition for the transition layers in [Qwen3MoeDecoderLayer.__init__]. *)
Definition has_transition (m : Mesh) : bool := (1 <? mesh_attention_tp m) && (1 <? mesh_ffn_ep m).

(** [self.attn_to_ffn(hidden_states)] on every rank, with the batch sizes kept for the way back. *)
Definition scatter_stage (m : Mesh) (hs : list mat) : result (list (mat * nat)) :=
  if has_transition m then
    mapM_r (fun '(w, h) => attn_to_ffn (mesh_attention_tp m) (w mod mesh_attention_tp m) 0 h) (zip (seq 0 (length hs)) hs)
  else Ok ((fun h => (h, 0)) <$> hs).

(** [self.ffn_to_attn(hidden_states)] on every attention group. *)
Definition gather_stage (m : Mesh) (original_bs : list nat) (hs : list mat) : list mat :=
  if has_transition m then
    let tp := mesh_attention_tp m in
    concat ((fun d => ffn_to_attn (original_bs !! (d * tp)) (lslice (d * tp) tp hs)) <$> seq 0 (mesh_attention_dp m))
  else hs.

(** The second half of [Qwen3MoeDecoderLayer.forward], after the norm. *)
Definition ffn_stage (m : Mesh) (env : moe_env) (l : ffn_layer) (hs : list mat) : result (ffn_layer * list mat) :=
  scattered ← scatter_stage m hs;
  '(l, outs) ← mlp_stage m env l (scattered.*1);
  Ok (l, gather_stage m (scattered.*2) outs).
End ffn.
Arguments SparseBlock : clear implicits.
Arguments DenseBlock : clear implicits.
Arguments ffn_layer : clear implicits.

(** * The reference *)

Section reference.
Context {R : Type} `{RouterNum R} (silu : R -> R) (topk : nat -> list R -> list nat).
Notation mat := (list (list R)) (only parsing).

(** Whether the block takes the fused kernel for a batch that is not empty. *)
Definition takes_fused (fused cuda : bool) (n k : nat) : bool := fused && can_use_fused_softmax_topk (mk_meta cuda [1; n] 1) (Z.of_nat k).

(** The experts and weights of one token. *)
Definition ref_route (fused : bool) (k : nat) (gate : mat) (row : list R) : token R :=
  let logits := rdot row <$> gate in
  let r := if fused then softmax_topk_program true k (length gate) logits else eager_route topk k logits in
  mk_token row r.2 r.1.

(** The block on one device. *)
Definition ref_sparse (fused : bool) (experts : list (expert_weights R)) (k hid : nat) (gate x : mat) : mat :=
  (fun row => ref_moe silu experts hid (ref_route fused k gate row)) <$> x.

Definition ref_dense (gate up down : mat) (x : mat) : mat :=
  (fun row => rdot (zip_with (fun a b => rmul (silu a) b) (rdot row <$> gate) (rdot row <$> up)) <$> down) <$> x.
End reference.

(** * The sparse block on all ranks *)

Lemma concat_blocks {A} (F : nat -> A) m n : concat ((fun a => (fun b => F (a * n + b)) <$> seq 0 n) <$> seq 0 m) = F <$> seq 0 (m * n).
Proof.
  induction m as [|m IH]; [done|]. rewrite seq_S, fmap_app, concat_app, IH. cbn [fmap list_fmap concat]. rewrite app_nil_r.
  replace (S m * n) with (m * n + n) by lia. rewrite seq_app, fmap_app. f_equal. cbn [Nat.add].
  transitivity (F <$> seq (m * n + 0) n); [by rewrite <- fmap_add_seq, <- list_fmap_compose|by rewrite Nat.add_0_r].
Qed.

Section routing.
Context {R : Type} `{RouterNum R} (topk : nat -> list R -> list nat) (Htopk : topk_sound topk).
Notation mat := (list (list R)) (only parsing).
Context (gate : mat) (E hid k : nat) (Hgate : is_mat E hid gate) (Hk : 0 < k <= E).

Lemma ref_route_wf fused row : length row = hid -> token_wf hid k (ref_route topk fused k gate row).
Proof.
  intros Hrow. assert (Hlen : length (rdot row <$> gate) = length gate) by apply length_fmap. assert (Hne : rdot row <$> gate <> []).
  { intros E0%(f_equal length). rewrite Hlen, (proj1 Hgate) in E0. cbn in E0. lia. }
  unfold ref_route, token_wf. cbn [t_row t_ids t_weights]. split; [done|]. destruct fused.
  - rewrite <- Hlen. destruct (softmax_topk_lanes true k _ Hne) as (ids & Hids & _ & _ & ->); [rewrite Hlen, (proj1 Hgate); lia|].
    cbn [fst snd]. by rewrite !length_fmap.
  - unfold eager_route. cbn [fst snd]. rewrite !length_fmap.
    destruct (Htopk k (softmax (rdot row <$> gate))) as [-> _]; [rewrite length_softmax, Hlen, (proj1 Hgate); lia|done].
Qed.

(** Rows routed one by one. *)
Lemma route_rows (fused : bool) (F : list R -> list R * list Z) (h : mat) :
  (forall row, F (rdot row <$> gate) = (if fused then softmax_topk_program true k (length gate) else eager_route topk k) (rdot row <$> gate)) ->
  let rows : list (list R * list Z) := F <$> ((fun row => rdot row <$> gate) <$> h) in
  mk_input h (rows.*2) (rows.*1) = tokens_input (ref_route topk fused k gate <$> h).
Proof.
  intros HF. cbn zeta. unfold tokens_input. induction h as [|row h IH]; [done|]. cbn [fmap list_fmap]. injection IH as IH1 IH2 IH3.
  f_equal; [by f_equal|f_equal; [|exact IH2]|f_equal; [|exact IH3]]; unfold ref_route; cbn [t_ids t_weights]; rewrite HF; by destruct fused.
Qed.

Lemma moe_route_exact fused cuda h : Forall (fun row => length row = hid) h ->
  moe_route topk fused cuda E k (Mat gate) h = Ok (tokens_input (ref_route topk (takes_fused fused cuda E k) k gate <$> h)).
Proof.
  intros Hh. unfold moe_route. rewrite (F_linear_mat h gate hid); [|rewrite (proj1 Hgate); lia|apply Hgate|done]. cbn [mbind result_bind]. rewrite length_fmap.
  assert (Hf : h <> [] -> can_use_fused_softmax_topk (mk_meta cuda [length h; E] 1) (Z.of_nat k) = can_use_fused_softmax_topk (mk_meta cuda [1; E] 1) (Z.of_nat k)).
  { intros Hne. unfold can_use_fused_softmax_topk. cbn [is_cuda shape stride_last]. by destruct h. }
  rewrite (decide_False (P := E < k)) by lia. destruct (decide (h = [])) as [->|Hne]; [by destruct (fused && _)|].
  rewrite Hf by done. fold (takes_fused fused cuda E k). destruct (takes_fused fused cuda E k); unfold fused_softmax_topk; cbn [mbind result_bind]; f_equal.
  - apply (route_rows true). intros row. by rewrite (proj1 Hgate).
  - by apply (route_rows false).
Qed.
End routing.

Section sparse.
Context {R : Type} `{RouterNum R} (silu : R -> R) (topk : nat -> list R -> list nat) (Htopk : topk_sound topk).
Notation mat := (list (list R)) (only parsing).
Context (m : Mesh) (experts : list (expert_weights R)) (gate : mat) (hid k n s : nat).
Notation ep := (mesh_ffn_ep m).
Notation tp := (mesh_ffn_tp m).
Notation N := (mesh_ffn_dp m * mesh_ffn_ep m * mesh_ffn_tp m).

(** The weights of a sparse layer have their shapes, and divide among the ranks. *)
Record sparse_shaped : Prop := {
  ss_pos : 0 < hid /\ 0 < s /\ 0 < ep /\ 0 < tp;
  ss_top_k : 0 < k <= length experts;
  ss_experts : length experts = ep * n;
  ss_shapes : Forall (expert_shape (tp * s) hid) experts;
  ss_gate : is_mat (length experts) hid gate
}.

(** Rank [w] holds the gate and its shard of the experts. *)
Definition sparse_loaded (w : nat) (b : SparseBlock R) : Prop :=
  sb_gate b = Mat gate /\ num_experts (sb_experts b) = length experts /\
  holds_shard experts hid k n s ((w / tp) mod ep) (w mod tp) (sb_experts b).

Context (Hsh : sparse_shaped) (X : nat -> SparseBlock R) (HX : forall w, w < N -> sparse_loaded w (X w)).
(** The rows of a rank are those of the ranks of its tensor-parallel group. *)
Context (hs : nat -> mat) (Hrows : forall c, c < mesh_ffn_dp m * ep -> Forall (fun row => length row = hid) (hs c)).
Context (env : moe_env) (M : nat).

Notation fused := (takes_fused (me_fused env) (me_cuda env) (length experts) k).
Notation route := (ref_route topk fused k gate).

(** Where the padded dispatcher is used, its slots suffice. *)
Definition decode_fits : Prop :=
  ep = 1 -> me_prefill env = false -> forall g, g < mesh_ffn_dp m ->
    let toks := route <$> hs g in
    exists orders, me_orders env !! g = Some orders /\ length orders = tp /\ Forall (fun o => o ≡ₚ seq 0 (length toks * k)) orders /\
      (forall c, c < tp -> ready (me_max_num_seqs env) M (length toks) (sb_experts (X (g * tp + c)))) /\
      (forall e, claims (pid_id (t_ids <$> toks) k) (seq 0 (length toks * k)) e <= M).

Lemma ffn_rank_cell g r c : ffn_rank m g r c = (g * ep + r) * tp + c.
Proof. unfold ffn_rank. lia. Qed.

Lemma ffn_rank_lt g r c : g < mesh_ffn_dp m -> r < ep -> c < tp -> ffn_rank m g r c < N.
Proof. intros Hg Hr Hc. rewrite ffn_rank_cell. assert (g * ep + r < mesh_ffn_dp m * ep) by nia. nia. Qed.

Lemma ffn_rank_coords g r c : r < ep -> c < tp -> ffn_rank m g r c / tp = g * ep + r /\ (ffn_rank m g r c / tp) mod ep = r /\ ffn_rank m g r c mod tp = c.
Proof.
  intros Hr Hc. rewrite ffn_rank_cell. destruct (pid_split tp (g * ep + r) c Hc) as [-> ->]. by destruct (pid_split ep g r Hr) as [_ ->].
Qed.

Lemma group_forward_exact g orders : g < mesh_ffn_dp m -> decode_fits -> default [] (me_orders env !! g) = orders ->
  exists x', Experts.forward silu (me_max_num_seqs env) orders (me_prefill env) ep
      (ep_grid ep tp (fun r c => sb_experts (X (ffn_rank m g r c))) (fun r => route <$> hs (g * ep + r)))
      = Ok ((fun c => (fun r => (x' r c, ref_moe silu experts hid <$> (route <$> hs (g * ep + r)))) <$> seq 0 ep) <$> seq 0 tp)
    /\ forall r c, r < ep -> c < tp -> redispatched (me_max_num_seqs env) M (length (hs (g * ep + r))) (sb_experts (X (ffn_rank m g r c))) (x' r c).
Proof using Hsh HX Hrows Htopk.
  intros Hg Hfits <-. destruct (ss_pos Hsh) as (Hhid & Hs & Hep & Htp). pose proof (ss_top_k Hsh) as Hk.
  assert (Hx : forall r c, r < ep -> c < tp -> holds_shard experts hid k n s r c (sb_experts (X (ffn_rank m g r c)))).
  { intros r c Hr Hc. destruct (HX _ (ffn_rank_lt g r c Hg Hr Hc)) as (_ & _ & Hh). destruct (ffn_rank_coords g r c Hr Hc) as (_ & E1 & E2). by rewrite E1, E2 in Hh. }
  assert (Htoks : forall r, r < ep -> Forall (token_wf hid k) (route <$> hs (g * ep + r))).
  { intros r Hr. apply Forall_fmap. eapply Forall_impl; [apply Hrows; nia|]. intros row Hrow. by apply (ref_route_wf topk Htopk gate (length experts)); [apply Hsh|..]. }
  destruct (decide (1 < ep)) as [Hep1|Hep1].
  - eexists. split; [apply (forward_ep_exact silu experts hid k n s ep tp); try done; apply Hsh|]. intros r c _ _. by left.
  - assert (Hep0 : ep = 1) by lia. pose proof (ss_experts Hsh) as Hlen. unfold decode_fits in Hfits. rewrite Hep0 in *. rewrite Nat.mul_1_l in Hlen.
    destruct (forward_local_exact silu experts hid k n s tp (fun r c => sb_experts (X (ffn_rank m g r c))) (fun r => route <$> hs (g * 1 + r)) Hhid Hs ltac:(lia) Htp Hlen
      (ss_shapes Hsh) (fun c => Hx 0 c ltac:(lia)) (Htoks 0 ltac:(lia)) (me_max_num_seqs env) (default [] (me_orders env !! g)) (me_prefill env) M) as (x' & Heq & Hx').
    + intros Hdec. destruct (Hfits eq_refl Hdec g Hg) as (orders & Ho & Hol & Hperm & Hready & Hload). rewrite Ho. cbn [from_option]. unfold Datatypes.id.
      replace (g * 1 + 0) with g by lia. split_and!; try done. intros c Hc. rewrite ffn_rank_cell, Hep0. replace ((g * 1 + 0) * tp + c) with (g * tp + c) by lia. by apply Hready.
    + exists (fun _ => x'). split; [exact Heq|]. intros r c Hr Hc. replace r with 0 by lia. specialize (Hx' c Hc). by rewrite length_fmap in Hx'.
Qed.

Lemma lookup_fmap_seq {A} (f : nat -> A) N i : i < N -> (f <$> seq 0 N) !! i = Some (f i).
Proof. intros Hi. by rewrite list_lookup_fmap, lookup_seq_lt. Qed.

(** The blocks of all ranks give what one device gives, and keep their weights. *)
Lemma sparse_forward_exact : decode_fits ->
  exists x', sparse_forward silu topk m env (X <$> seq 0 N) ((fun w => hs (w / tp)) <$> seq 0 N)
      = Ok ((fun w => (mk_sparse (Mat gate) (x' w), ref_sparse silu topk fused experts k hid gate (hs (w / tp)))) <$> seq 0 N)
    /\ forall w, w < N -> redispatched (me_max_num_seqs env) M (length (hs (w / tp))) (sb_experts (X w)) (x' w).
Proof using Hsh HX Hrows Htopk.
  intros Hfits. destruct (ss_pos Hsh) as (Hhid & Hs & Hep & Htp).
  destruct (finite_choice _ (mesh_ffn_dp m) (fun _ _ _ => sb_experts (X 0)) (fun g Hg => group_forward_exact g _ Hg Hfits eq_refl)) as [x' Hx'].
  assert (Hcell : forall w, w < N -> w / tp < mesh_ffn_dp m * ep) by (intros w Hw; apply Nat.Div0.div_lt_upper_bound; lia).
  set (xw := fun w => x' (w / tp / ep) ((w / tp) mod ep) (w mod tp)). exists xw. split.
  2: { intros w Hw. pose proof (Hcell w Hw) as Hcw. set (g := w / tp / ep). assert (Hg : g < mesh_ffn_dp m) by (apply Nat.Div0.div_lt_upper_bound; lia).
       destruct (Hx' g Hg) as [_ Hr]. pose proof (Nat.mod_upper_bound (w / tp) ep ltac:(lia)). pose proof (Nat.mod_upper_bound w tp ltac:(lia)).
       pose proof (Nat.div_mod (w / tp) ep ltac:(lia)) as E1. pose proof (Nat.div_mod w tp ltac:(lia)) as E2.
       specialize (Hr ((w / tp) mod ep) (w mod tp) ltac:(lia) ltac:(lia)). fold (xw w) in Hr. rewrite ffn_rank_cell in Hr.
       replace (g * ep + (w / tp) mod ep) with (w / tp) in Hr by (unfold g; lia). replace (w / tp * tp + w mod tp) with w in Hr by lia. exact Hr. }
  unfold sparse_forward. rewrite zip_fmap_fmap.
  rewrite (mapM_r_fmap_seq _ _ (fun w => (sb_experts (X w), tokens_input (route <$> hs (w / tp))))).
  2: { intros w Hw. destruct (HX w Hw) as (Hgw & Hne & Hh). rewrite Hgw, Hne, (hs_top_k _ _ _ _ _ _ _ _ Hh).
       rewrite (moe_route_exact topk gate (length experts) hid k); [done|apply Hsh..|]. by apply Hrows, Hcell. }
  cbn [mbind result_bind].
  rewrite (mapM_r_seq _ (fun g => (fun r => (fun c => (xw (ffn_rank m g r c), ref_sparse silu topk fused experts k hid gate (hs (g * ep + r)))) <$> seq 0 tp) <$> seq 0 ep)).
  2: { intros g Hg. destruct (Hx' g Hg) as [Hf _].
       rewrite (mapM_r_seq _ (fun c => (fun r => (sb_experts (X (ffn_rank m g r c)), tokens_input (route <$> hs (g * ep + r)))) <$> seq 0 ep)).
       2: { intros c Hc. apply mapM_r_seq. intros r Hr. rewrite lookup_fmap_seq by (by apply ffn_rank_lt). cbn [of_option]. by rewrite (proj1 (ffn_rank_coords g r c Hr Hc)). }
       cbn [mbind result_bind]. unfold ep_grid in Hf. rewrite Hf. cbn [mbind result_bind]. apply mapM_r_seq. intros r Hr. apply mapM_r_seq. intros c Hc.
       rewrite lookup_fmap_seq by done. cbn [mbind option_bind]. rewrite lookup_fmap_seq by done. cbn [of_option]. unfold xw, ref_sparse.
       destruct (ffn_rank_coords g r c Hr Hc) as (E1 & E2 & E3). rewrite E2, E3, E1. destruct (pid_split ep g r Hr) as [-> _]. by rewrite <- list_fmap_compose. }
  cbn [mbind result_bind]. f_equal.
  assert (Hall : concat (concat ((fun g => (fun r => (fun c => (xw (ffn_rank m g r c), ref_sparse silu topk fused experts k hid gate (hs (g * ep + r)))) <$> seq 0 tp) <$> seq 0 ep) <$> seq 0 (mesh_ffn_dp m)))
    = (fun w => (xw w, ref_sparse silu topk fused experts k hid gate (hs (w / tp)))) <$> seq 0 N).
  { rewrite <- (concat_blocks _ (mesh_ffn_dp m * ep) tp).
    rewrite <- (concat_blocks (fun a => (fun b => (xw (a * tp + b), ref_sparse silu topk fused experts k hid gate (hs ((a * tp + b) / tp)))) <$> seq 0 tp) (mesh_ffn_dp m) ep).
    do 2 f_equal. apply list_fmap_ext. intros _ g _. apply list_fmap_ext. intros _ r _. apply list_fmap_ext. intros i c Hi. apply lookup_seq in Hi as [-> Hc]. cbn [Nat.add].
    rewrite ffn_rank_cell. by destruct (pid_split tp (g * ep + r) i Hc) as [-> _]. }
  rewrite Hall, zip_with_fmap_fmap. apply list_fmap_ext. intros i w Hi. apply lookup_seq in Hi as [-> Hw]. cbn [Nat.add fst snd]. by rewrite (proj1 (HX _ Hw)).
Qed.
End sparse.

(** * The dense layer on all ranks *)

Lemma slice_fmap_seq {A} (f : nat -> A) N a n : a + n <= N -> lslice a n (f <$> seq 0 N) = (fun b => f (a + b)) <$> seq 0 n.
Proof.
  intros Hn. rewrite slice_fmap. unfold lslice. rewrite drop_seq, take_seq. replace (n `min` (N - a)) with n by lia.
  transitivity (f <$> seq (a + 0) n); [by rewrite Nat.add_0_r|]. by rewrite <- fmap_add_seq, <- list_fmap_compose.
Qed.

Section dense.
Context {R : Type} `{Semiring R} (silu : R -> R).
Notation mat := (list (list R)) (only parsing).
Context (m : Mesh) (gate up down : mat) (hid I : nat).
Notation ep := (mesh_ffn_ep m).
Notation tp := (mesh_ffn_tp m).
Notation N := (mesh_ffn_dp m * mesh_ffn_ep m * mesh_ffn_tp m).

Record dense_shaped : Prop := {
  ds_pos : 0 < hid /\ 0 < I /\ 0 < tp;
  ds_gate : is_mat (tp * I) hid gate;
  ds_up : is_mat (tp * I) hid up;
  ds_down : is_mat hid (tp * I) down
}.

(** Rank [w] holds its columns of the projections. *)
Definition dense_block (w : nat) : DenseBlock R :=
  let c := w mod tp in
  mk_dense (mk_linear (MergedColumnParallelLinear [tp * I; tp * I]) (Some 0) c tp (Mat (lslice (c * I) I gate ++ lslice (c * I) I up)) None)
           (mk_linear RowParallelLinear (Some 1) c tp (Mat (lslice (c * I) I <$> down)) None).

Context (Hsh : dense_shaped).

Lemma dense_group_exact env t x : Forall (fun row => length row = hid) x ->
  dense_group_forward silu env ((fun c => dense_block (t * tp + c)) <$> seq 0 tp) ((fun _ => x) <$> seq 0 tp)
  = Ok ((fun _ => ref_dense silu gate up down x) <$> seq 0 tp).
Proof using Hsh.
  intros Hx. destruct (ds_pos Hsh) as (Hhid & HI & Htp). destruct (ds_gate Hsh) as [Hg1 Hg2], (ds_up Hsh) as [Hu1 Hu2].
  unfold dense_group_forward. rewrite zip_fmap_fmap.
  set (act := (fun row => zip_with (fun a b => rmul (silu a) b) (rdot row <$> gate) (rdot row <$> up)) <$> x : mat).
  rewrite (mapM_r_fmap_seq _ _ (fun c => lslice (c * I) I <$> act)).
  2: { intros c Hc. pose proof (shard_bound c tp I Hc) as Hb. cbn [fst snd dense_block db_gate_up]. unfold linear_forward. cbn [weight bias].
       destruct (pid_split tp t c Hc) as [_ ->].
       assert (HA : is_mat I hid (lslice (c * I) I gate)) by (eapply is_mat_slice; [apply Hsh|done]).
       assert (HB : is_mat I hid (lslice (c * I) I up)) by (eapply is_mat_slice; [apply Hsh|done]).
       rewrite (F_linear_mat _ _ hid); [|rewrite length_app, (proj1 HA); lia|apply Forall_app; split; [apply HA|apply HB]|done]. cbn [mbind result_bind]. f_equal.
       unfold act. rewrite <- !list_fmap_compose. apply list_fmap_ext. intros _ row _. unfold compose. rewrite fmap_app, swiglu_app by (rewrite !length_fmap, (proj1 HA), (proj1 HB); done).
       by rewrite slice_zip_with, !slice_fmap. }
  cbn [mbind result_bind]. rewrite <- list_fmap_compose.
  rewrite (list_fmap_ext _ (fun c => mk_linear RowParallelLinear (Some 1) c tp (Mat (lslice (c * I) I <$> down)) None) (seq 0 tp)).
  2: { intros i c Hi. apply lookup_seq in Hi as [-> Hc]. unfold compose, dense_block. cbn [db_down Nat.add]. by destruct (pid_split tp t i Hc) as [_ ->]. }
  rewrite (row_forward_exact env tp I hid down); [|done|done|apply Hsh|].
  - rewrite <- fmap_const_seq with (a := 0). unfold ref_dense, act. by rewrite <- list_fmap_compose.
  - unfold act. apply Forall_fmap, Forall_true. intros row. cbn. rewrite length_zip_with, !length_fmap, Hg1, Hu1. lia.
Qed.

Lemma dense_forward_exact env hs : (forall c, c < mesh_ffn_dp m * ep -> Forall (fun row => length row = hid) (hs c)) ->
  dense_forward silu m env (dense_block <$> seq 0 N) ((fun w => hs (w / tp)) <$> seq 0 N)
  = Ok ((fun w => ref_dense silu gate up down (hs (w / tp))) <$> seq 0 N).
Proof using Hsh.
  intros Hrows. destruct (ds_pos Hsh) as (Hhid & HI & Htp). unfold dense_forward. cbn zeta.
  rewrite (mapM_r_seq _ (fun t => (fun c => ref_dense silu gate up down (hs ((t * tp + c) / tp))) <$> seq 0 tp)).
  2: { intros t Ht. assert (t * tp + tp <= N) by nia. rewrite !slice_fmap_seq by done.
       assert (Hc : forall {A} (f : mat -> A), (fun c => f (hs ((t * tp + c) / tp))) <$> seq 0 tp = (fun _ => f (hs t)) <$> seq 0 tp).
       { intros A f. apply list_fmap_ext. intros i c Hi. apply lookup_seq in Hi as [-> Hc]. cbn [Nat.add]. by destruct (pid_split tp t i Hc) as [-> _]. }
       rewrite (Hc _ (fun x => x)), (Hc _ (ref_dense silu gate up down)). apply dense_group_exact. by apply Hrows. }
  cbn [mbind result_bind]. f_equal. by rewrite (concat_blocks (fun w => ref_dense silu gate up down (hs (w / tp)))).
Qed.
End dense.

(** * From attention ranks to expert ranks and back *)

(** Meshes on which the tensor-parallel ranks of a feed-forward group hold the same tokens: their
    number divides that of the attention groups, and it is one where tokens are scattered. *)
Record mesh_ok (m : Mesh) : Prop := {
  mo_valid : mesh_valid m = true;
  mo_pos : 0 < mesh_attention_tp m /\ 0 < mesh_ffn_tp m /\ 0 < mesh_ffn_ep m;
  mo_divides : mesh_attention_tp m mod mesh_ffn_tp m = 0;
  mo_scatter : has_transition m = true -> mesh_ffn_tp m = 1
}.

Section stage.
Context {R : Type} `{RouterNum R} (silu : R -> R) (topk : nat -> list R -> list nat).
Notation mat := (list (list R)) (only parsing).
Context (m : Mesh) (Hm : mesh_ok m).
Notation atp := (mesh_attention_tp m).
Notation tp := (mesh_ffn_tp m).
Notation cells := (mesh_ffn_dp m * mesh_ffn_ep m).
Notation N := (mesh_ffn_dp m * mesh_ffn_ep m * mesh_ffn_tp m).

(** The rows of an attention group that go to feed-forward group [c]. *)
Definition cell_rows (hs : nat -> mat) (c : nat) : mat :=
  if has_transition m then
    let h := hs (c / atp) in
    lslice (c mod atp * shard_rows atp (length h)) (shard_rows atp (length h)) (pad_batch atp h)
  else hs (c / (atp / tp)).

Lemma ranks_cells : mesh_ranks m = N.
Proof using Hm. apply Nat.eqb_eq, (mo_valid _ Hm). Qed.

Lemma group_lt w : w < N -> w / atp < mesh_attention_dp m.
Proof using Hm. rewrite <- ranks_cells. unfold mesh_ranks. intros Hw. apply Nat.Div0.div_lt_upper_bound. lia. Qed.

Lemma group_of_cell w : w / atp = w / tp / (atp / tp).
Proof using Hm.
  destruct (mo_pos _ Hm) as (Ha & Ht & He). destruct (proj1 (Nat.Div0.mod_divides atp tp) (mo_divides _ Hm)) as [q Hq].
  rewrite Hq at 2. rewrite (Nat.mul_comm tp q), Nat.div_mul by lia. rewrite Nat.Div0.div_div, <- Hq. done.
Qed.

Lemma cell_rows_ok hid hs : (forall d, d < mesh_attention_dp m -> Forall (fun row => length row = hid) (hs d)) ->
  forall c, c < cells -> Forall (fun row => length row = hid) (cell_rows hs c).
Proof using Hm.
  intros Hrows c Hc. destruct (mo_pos _ Hm) as (Ha & Ht & He). assert (Hlt : c * tp < N) by nia. pose proof (group_lt _ Hlt) as Hg.
  unfold cell_rows. destruct (has_transition m) eqn:E.
  - rewrite (mo_scatter _ Hm E), Nat.mul_1_r in Hg. cbn zeta. set (h := hs (c / atp)). assert (Hh : Forall (fun row => length row = hid) h) by (by apply Hrows).
    unfold lslice. apply Forall_take, Forall_drop. unfold pad_batch. case_decide as Hr; [done|]. apply Forall_app. split; [done|].
    apply Forall_replicate. rewrite length_replicate. destruct h as [|row h]; [by rewrite Nat.Div0.mod_0_l in Hr|]. by inversion Hh.
  - apply Hrows. rewrite group_of_cell, Nat.div_mul in Hg by lia. done.
Qed.

(** Every rank gets the rows of its feed-forward group. *)
Lemma scatter_stage_exact hs : exists scattered,
  scatter_stage m ((fun w => hs (w / atp)) <$> seq 0 N) = Ok scattered /\ scattered.*1 = (fun w => cell_rows hs (w / tp)) <$> seq 0 N /\
  (has_transition m = true -> forall w, w < N -> scattered.*2 !! w = Some (length (hs (w / atp)))).
Proof using Hm.
  destruct (mo_pos _ Hm) as (Ha & Ht & He). unfold scatter_stage, cell_rows. destruct (has_transition m) eqn:E.
  - assert (Htp : tp = 1) by (by apply (mo_scatter _ Hm)). assert (Hatp : 1 < atp) by (unfold has_transition in E; apply andb_true_iff in E as [E _]; by apply Nat.ltb_lt in E).
    rewrite length_fmap, length_seq. exists ((fun w => (cell_rows hs w, length (hs (w / atp)))) <$> seq 0 N). split; [|split].
    + rewrite <- (list_fmap_id (seq 0 N)) at 1. rewrite zip_fmap_fmap. apply mapM_r_fmap_seq. intros w Hw. unfold Datatypes.id.
      rewrite attn_to_ffn_exact by (done || by apply Nat.mod_upper_bound; lia). unfold cell_rows. by rewrite E.
    + rewrite <- list_fmap_compose. apply list_fmap_ext. intros _ w _. unfold compose, cell_rows. cbn [fst]. rewrite E, Htp, Nat.div_1_r. done.
    + intros _ w Hw. rewrite <- list_fmap_compose. rewrite lookup_fmap_seq by done. done.
  - eexists. split; [done|]. rewrite <- !list_fmap_compose. split; [|done]. apply list_fmap_ext. intros _ w _. unfold compose. cbn [fst]. by rewrite group_of_cell.
Qed.

(** Every attention rank gets the results for the rows of its group. *)
Lemma gather_stage_exact hs (f : list R -> list R) bss :
  (has_transition m = true -> forall w, w < N -> bss !! w = Some (length (hs (w / atp)))) ->
  gather_stage m bss ((fun w => f <$> cell_rows hs (w / tp)) <$> seq 0 N) = (fun w => f <$> hs (w / atp)) <$> seq 0 N.
Proof using Hm.
  intros Hbs. destruct (mo_pos _ Hm) as (Ha & Ht & He). pose proof ranks_cells as HN. unfold mesh_ranks in HN.
  unfold gather_stage, cell_rows. destruct (has_transition m) eqn:E.
  - assert (Htp : tp = 1) by (by apply (mo_scatter _ Hm)). assert (Hatp : 1 < atp) by (unfold has_transition in E; apply andb_true_iff in E as [E _]; by apply Nat.ltb_lt in E).
    rewrite <- HN, <- (concat_blocks (fun w => f <$> hs (w / atp)) (mesh_attention_dp m) atp). cbn zeta. f_equal. apply list_fmap_ext. intros i d Hi. apply lookup_seq in Hi as [-> Hd]. cbn [Nat.add].
    rewrite slice_fmap_seq by nia. rewrite Hbs by nia. rewrite Nat.div_mul by lia.
    transitivity (replicate atp (f <$> hs i)); [rewrite <- (ffn_to_attn_exact atp (hs i) f Hatp)|rewrite <- (fmap_const_seq 0)].
    + f_equal. apply list_fmap_ext. intros j r Hj. apply lookup_seq in Hj as [-> Hr]. cbn [Nat.add]. rewrite Htp, Nat.div_1_r. by destruct (pid_split atp i j Hr) as [-> ->].
    + apply list_fmap_ext. intros j r Hj. apply lookup_seq in Hj as [-> Hr]. cbn [Nat.add]. by destruct (pid_split atp i j Hr) as [-> _].
  - apply list_fmap_ext. intros _ w _. by rewrite group_of_cell.
Qed.

(** The half of a layer after the norm, given its feed-forward layer. *)
Lemma ffn_stage_rows env l l' hs (f : list R -> list R) :
  mlp_stage silu topk m env l ((fun w => cell_rows hs (w / tp)) <$> seq 0 N) = Ok (l', (fun w => f <$> cell_rows hs (w / tp)) <$> seq 0 N) ->
  ffn_stage silu topk m env l ((fun w => hs (w / atp)) <$> seq 0 N) = Ok (l', (fun w => f <$> hs (w / atp)) <$> seq 0 N).
Proof using Hm.
  intros Hmlp. unfold ffn_stage. destruct (scatter_stage_exact hs) as (sc & -> & Hsc & Hbs). cbn [mbind result_bind]. rewrite Hsc, Hmlp. cbn [mbind result_bind].
  by rewrite gather_stage_exact.
Qed.
End stage.

(** * The feed-forward half of a layer *)

Section half.
Context {R : Type} `{RouterNum R} (silu : R -> R) (topk : nat -> list R -> list nat) (Htopk : topk_sound topk).
Notation mat := (list (list R)) (only parsing).
Context (m : Mesh) (Hm : mesh_ok m) (hid k n s I M : nat).
Notation atp := (mesh_attention_tp m).
Notation tp := (mesh_ffn_tp m).
Notation N := (mesh_ffn_dp m * mesh_ffn_ep m * mesh_ffn_tp m).

(** The weights of a layer in the checkpoint. *)
Inductive ffn_weights :=
  | WSparse (gate : mat) (experts : list (expert_weights R))
  | WDense (gate up down : mat).

Definition ref_ffn (env : moe_env) (w : ffn_weights) (x : mat) : mat :=
  match w with
  | WSparse gate experts => ref_sparse silu topk (takes_fused (me_fused env) (me_cuda env) (length experts) k) experts k hid gate x
  | WDense gate up down => ref_dense silu gate up down x
  end.

(** The ranks hold their shards of the layer. *)
Definition ffn_loaded (w : ffn_weights) (l : ffn_layer R) : Prop :=
  match w, l with
  | WSparse gate experts, SparseLayer blocks =>
      sparse_shaped m experts gate hid k n s /\
      exists X, blocks = X <$> seq 0 N /\ forall r, r < N -> sparse_loaded m experts gate hid k n s r (X r)
  | WDense gate up down, DenseLayer blocks => dense_shaped m gate up down hid I /\ blocks = dense_block m gate up down I <$> seq 0 N
  | _, _ => False
  end.

(** In decode without expert parallelism: the dispatchers of the ranks of a group have room for
    its [T g] tokens, and the kernels run all their programs. *)
Definition dispatch_ready (env : moe_env) (T : nat -> nat) (l : ffn_layer R) : Prop :=
  mesh_ffn_ep m = 1 -> me_prefill env = false -> forall g, g < mesh_ffn_dp m ->
    T g <= M /\ (exists orders, me_orders env !! g = Some orders /\ length orders = tp /\ Forall (fun o => o ≡ₚ seq 0 (T g * k)) orders) /\
    forall blocks, l = SparseLayer blocks -> forall c b, c < tp -> blocks !! (g * tp + c) = Some b -> ready (me_max_num_seqs env) M (T g) (sb_experts b).

(** The experts chosen for a token are different. *)
Lemma ref_route_nodup fused gate E row : is_mat E hid gate -> 0 < k <= E -> NoDup (t_ids (ref_route topk fused k gate row)).
Proof using Htopk.
  intros Hgate Hk. assert (Hlen : length (rdot row <$> gate) = length gate) by apply length_fmap. assert (Hne : rdot row <$> gate <> []).
  { intros E0%(f_equal length). rewrite Hlen, (proj1 Hgate) in E0. cbn in E0. lia. }
  unfold ref_route. cbn [t_ids]. destruct fused.
  - rewrite <- Hlen. destruct (softmax_topk_lanes true k _ Hne) as (ids & Hids & Htop & _ & ->); [rewrite Hlen, (proj1 Hgate); lia|].
    cbn [snd]. apply NoDup_fmap_2; [apply _|apply Htop].
  - unfold eager_route. cbn [snd]. apply NoDup_fmap_2; [apply _|].
    destruct (Htopk k (softmax (rdot row <$> gate))) as [_ Htop]; [rewrite length_softmax, Hlen, (proj1 Hgate); lia|apply Htop].
Qed.

(** A rank keeps its weights. *)
Lemma redispatched_shard mns T experts r c x x' : holds_shard experts hid k n s r c x -> redispatched mns M T x x' -> holds_shard experts hid k n s r c x' /\ num_experts x' = num_experts x.
Proof. intros Hx [->|(d & -> & _)]; [done|]. split; [|done]. destruct Hx. by split. Qed.

Lemma mlp_stage_exact env w l hs : ffn_loaded w l ->
  (forall c, c < mesh_ffn_dp m * mesh_ffn_ep m -> Forall (fun row => length row = hid) (hs c)) -> dispatch_ready env (fun g => length (hs g)) l ->
  exists l', mlp_stage silu topk m env l ((fun r => hs (r / tp)) <$> seq 0 N) = Ok (l', (fun r => ref_ffn env w (hs (r / tp))) <$> seq 0 N) /\ ffn_loaded w l'.
Proof using Htopk.
  intros Hl Hrows Hready. destruct w as [gate experts|gate up down], l as [blocks|blocks]; try done; cbn [ffn_loaded mlp_stage ref_ffn] in *.
  - destruct Hl as (Hsh & X & -> & HX). destruct (ss_pos _ _ _ _ _ _ _ Hsh) as (Hhid & Hs & Hep & Htp). pose proof (ss_top_k _ _ _ _ _ _ _ Hsh) as Hk.
    destruct (sparse_forward_exact silu topk Htopk m experts gate hid k n s Hsh X HX hs Hrows env M) as (x' & -> & Hx').
    { intros Hep1 Hdec g Hg. destruct (Hready Hep1 Hdec g Hg) as (HT & (orders & Ho & Hol & Hperm) & Hb). exists orders. rewrite !length_fmap.
      split_and!; try done.
      - intros c Hc. apply (Hb _ eq_refl c); [done|]. apply lookup_fmap_seq. rewrite Hep1. nia.
      - intros e. set (toks := ref_route topk _ k gate <$> hs g). assert (Hl : length toks = length (hs g)) by apply length_fmap.
        assert (Hc : claims (pid_id (t_ids <$> toks) k) (seq 0 (length toks * k)) e <= length toks); [|rewrite Hl in Hc; lia]. apply (claims_distinct _ hid).
        + apply Forall_fmap. eapply Forall_impl; [apply Hrows; rewrite Hep1; lia|]. intros row Hrow. by apply (ref_route_wf topk Htopk gate (length experts)); [apply Hsh|..].
        + apply Forall_fmap, Forall_true. intros row. apply (ref_route_nodup _ _ (length experts)); [apply Hsh|done]. }
    cbn [mbind result_bind]. eexists. split; [rewrite <- !list_fmap_compose; done|]. split; [done|]. eexists. split; [done|].
    intros r Hr. destruct (HX r Hr) as (_ & Hne & Hh). destruct (redispatched_shard _ _ _ _ _ _ _ Hh (Hx' r Hr)) as [Hh' Hne']. unfold sparse_loaded, compose. cbn. split_and!; [done|congruence|done].
  - destruct Hl as (Hsh & ->). rewrite (dense_forward_exact silu m gate up down hid I Hsh env hs Hrows). cbn [mbind result_bind]. by eexists.
Qed.

Lemma ref_ffn_rows env w : exists f, forall x, ref_ffn env w x = f <$> x.
Proof. destruct w as [gate experts|gate up down]; cbn [ref_ffn]; unfold ref_sparse, ref_dense; by eexists. Qed.

Lemma ffn_stage_exact env w l hs : ffn_loaded w l ->
  (forall d, d < mesh_attention_dp m -> Forall (fun row => length row = hid) (hs d)) ->
  dispatch_ready env (fun g => length (hs (g / (atp / tp)))) l ->
  exists l', ffn_stage silu topk m env l ((fun r => hs (r / atp)) <$> seq 0 N) = Ok (l', (fun r => ref_ffn env w (hs (r / atp))) <$> seq 0 N) /\ ffn_loaded w l'.
Proof using Hm Htopk.
  intros Hl Hrows Hready. destruct (mlp_stage_exact env w l (cell_rows m hs) Hl (cell_rows_ok m Hm hid hs Hrows)) as (l' & Heq & Hl').
  { intros Hep. unfold cell_rows, has_transition. rewrite Hep, andb_false_r. by apply Hready. }
  exists l'. split; [|done]. destruct (ref_ffn_rows env w) as [f Hf]. rewrite (list_fmap_ext (fun r => ref_ffn env w (cell_rows m hs (r / tp))) (fun r => f <$> cell_rows m hs (r / tp)) (seq 0 N)) in Heq by (intros; apply Hf).
  rewrite (list_fmap_ext (fun r => ref_ffn env w (hs (r / atp))) (fun r => f <$> hs (r / atp)) (seq 0 N)) by (intros; apply Hf). by apply ffn_stage_rows.
Qed.

Lemma ref_ffn_shape env w l x : ffn_loaded w l -> length (ref_ffn env w x) = length x /\ Forall (fun row => length row = hid) (ref_ffn env w x).
Proof.
  intros Hl. destruct w as [gate experts|gate up down], l as [blocks|blocks]; try done; cbn [ref_ffn ffn_loaded] in *; unfold ref_sparse, ref_dense; rewrite length_fmap; (split; [done|]);
    apply Forall_fmap, Forall_true; intros row; cbn.
  - unfold ref_moe, routed. by rewrite length_fmap, length_seq.
  - rewrite length_fmap. apply Hl.
Qed.
End half.
Arguments ffn_weights : clear implicits.

(** * Decoder layers *)

Section decoder.
Context {R K : Type} `{!Numerics R K} `{!Semiring R} `{!RouterNum R} (topk : nat -> list R -> list nat).
Notation mat := (list (list R)) (only parsing).

(** [Qwen3MoeDecoderLayer.forward] on an attention group up to the second norm, with the caches
    of the group. *)
Definition attn_half (env : CommEnv) (i : nat) (group : list (Model R)) (positions : list nat) (caches : list (list K)) (hs : list (mat * option mat)) :
    result (list (mat * mat) * list (list K)) :=
  normed ← norm_forward group (layer_prefix i ++ lit "input_layernorm") hs;
  attn ← attention_forward env group i positions caches (fst <$> normed);
  normed ← norm_forward group (layer_prefix i ++ lit "post_attention_layernorm") (zip attn.1 (Some <$> (snd <$> normed)));
  Ok (normed, attn.2).

(** What a data-parallel group works on in a step. *)
Record dp_batch := mk_batch { b_positions : list nat; b_caches : list (list K); b_hidden : list (mat * option mat) }.

(** [Qwen3MoeDecoderLayer.forward] on all ranks of a stage. *)
Definition moe_layer_forward (m : Mesh) (env : moe_env) (i : nat) (groups : list (list (Model R))) (l : ffn_layer R) (batches : list dp_batch) :
    result (ffn_layer R * list dp_batch) :=
  halves ← mapM_r (fun '(group, b) => attn_half (me_comm env) i group (b_positions b) (b_caches b) (b_hidden b)) (zip groups batches);
  '(l, outs) ← ffn_stage silu topk m env l (concat ((fun half : list (mat * mat) * list (list K) => fst <$> half.1) <$> halves));
  let tp := mesh_attention_tp m in
  Ok (l, imap (fun d '(b, half) => mk_batch (b_positions b) half.2 (zip (lslice (d * tp) tp outs) (Some <$> (snd <$> half.1)))) (zip batches halves)).

(** What the loop over the layers carries: the feed-forward layers and the caches by layer, the
    caches also by group and rank, and the hidden states. *)
Record loop_state := mk_loop { ls_layers : list (ffn_layer R); ls_caches : list (list (list (list K))); ls_hidden : list (list (mat * option mat)) }.

Definition moe_layer_step (m : Mesh) (env : nat -> moe_env) (groups : list (list (Model R))) (positions : list (list nat)) (st : loop_state) (i : nat) : result loop_state :=
  l ← of_option IndexError (ls_layers st !! i);
  cs ← of_option IndexError (ls_caches st !! i);
  r ← moe_layer_forward m (env i) i groups l (zip_with (fun p '(c, h) => mk_batch p c h) positions (zip cs (ls_hidden st)));
  Ok (mk_loop (<[i := r.1]> (ls_layers st)) (<[i := b_caches <$> r.2]> (ls_caches st)) (b_hidden <$> r.2)).

(** The loop of [Qwen3MoeModel.forward] over the layers of the stage. *)
Definition moe_layers_forward (m : Mesh) (env : nat -> moe_env) (groups : list (list (Model R))) (start stop : nat) (positions : list (list nat)) (st : loop_state) : result loop_state :=
  foldM_r (moe_layer_step m env groups positions) st (seq start (stop - start)).

(** What a group of the stage starts from: its tokens, given embeddings, or what it received. *)
Definition moe_stage_input (env : CommEnv) (group : list (Model R)) (input_ids : list Z) (inputs_embeds : option mat) (received : list mat) : result (list mat) :=
  match group with
  | [] => Err RuntimeError
  | m :: _ =>
      if is_first_pp_stage m then
        match inputs_embeds with
        | Some x => Ok ((fun _ => x) <$> group)
        | None => es ← mapM_r (fun m => get_embedding m (lit "model.embed_tokens")) group; embedding_forward env es input_ids
        end
      else Ok received
  end.

(** What it hands on. *)
Definition moe_stage_output (group : list (Model R)) (hs : list (mat * option mat)) : result (stage_output (R := R)) :=
  match group with
  | [] => Err RuntimeError
  | m :: _ =>
      if is_last_pp_stage m then out ← mapM_r (fun p => final_norm p.1 p.2.1 p.2.2) (zip group hs); Ok (Final out)
      else Ok (Sent ((fun p => match p.2 with Some residual => madd p.1 residual | None => p.1 end) <$> hs))
  end.

(** The input of a group. *)
Record stage_request := mk_request { rq_ids : list Z; rq_embeds : option mat; rq_received : list mat; rq_positions : list nat }.

(** [Qwen3MoeModel.forward] on all ranks of a stage. *)
Definition moe_stage_forward (m : Mesh) (env : nat -> moe_env) (groups : list (list (Model R))) (requests : list stage_request)
    (layers : list (ffn_layer R)) (caches : list (list (list (list K)))) :
    result (list (stage_output (R := R)) * list (ffn_layer R) * list (list (list (list K)))) :=
  match groups with
  | (m0 :: _) :: _ =>
      hs ← mapM_r (fun '(group, q) => moe_stage_input (me_comm (env 0)) group (rq_ids q) (rq_embeds q) (rq_received q)) (zip groups requests);
      st ← moe_layers_forward m env groups (start_layer m0) (end_layer m0) (rq_positions <$> requests)
             (mk_loop layers caches ((fun h : list mat => (fun x => (x, None)) <$> h) <$> hs));
      outs ← mapM_r (fun '(group, h) => moe_stage_output group h) (zip groups (ls_hidden st));
      Ok (outs, ls_layers st, ls_caches st)
  | _ => Err RuntimeError
  end.
End decoder.
Arguments dp_batch : clear implicits.
Arguments stage_request : clear implicits.
Arguments loop_state : clear implicits.

(** ** A layer against its reference *)

Section decoder_exact.
Context {R K : Type} `{!Numerics R K} `{!Semiring R} `{!RouterNum R} (topk : nat -> list R -> list nat) (Htopk : topk_sound topk).
Notation mat := (list (list R)) (only parsing).
Context (config : Qwen3Config R) (ckm : wname -> mat) (ckv : wname -> list R) (fw : nat -> ffn_weights R).
Context (m : Mesh) (g nkv hf hid k n s I M : nat).
Notation atp := (mesh_attention_tp m).
Notation adp := (mesh_attention_dp m).
Notation tp := (mesh_ffn_tp m).
Notation rows_ok x := (Forall (fun row => length row = hid) x).
Notation by_rank c := ((fun r => lslice (r * nkv) nkv c) <$> seq 0 atp).
Notation everywhere x := ((fun _ : nat => x) <$> seq 0 atp).

(** The stream after attention, and after the layer. *)
Definition ref_attended (i : nat) (positions : list nat) (caches : list K) (x : mat) : mat * list K :=
  let attn := ref_attention config ckm ckv i positions caches (ref_norm config (ckv (WLayer i InputNorm)) x) in
  (madd attn.1 x, attn.2).

Definition ref_moe_layer (env : moe_env) (i : nat) (positions : list nat) (caches : list K) (x : mat) : mat * list K :=
  let a := ref_attended i positions caches x in
  (madd (ref_ffn silu topk hid k env (fw i) (ref_norm config (ckv (WLayer i PostNorm)) a.1)) a.1, a.2).

Context (Hsh : attn_shaped config ckm ckv atp g nkv hf hid) (Hm : mesh_ok m).

Lemma ref_attended_shape i positions caches x : i < num_hidden_layers config -> rows_ok x ->
  let a := ref_attended i positions caches x in
  rows_ok a.1 /\ length a.1 = length x /\ length a.2 = length caches.
Proof using Hsh.
  intros Hi Hx. destruct (as_layer _ _ _ _ _ _ _ _ Hsh i Hi) as (_ & _ & _ & Ho & _ & _ & Hin & _).
  destruct (ref_norm_rows config hid _ _ Hin Hx) as [_ Hln]. unfold ref_attended. cbn zeta. cbn [fst snd].
  set (attn := ref_attention config ckm ckv i positions caches _). assert (Hattn : is_mat (length x) hid attn.1).
  { unfold attn, ref_attention. cbn [fst]. split; [rewrite ref_linear_length; unfold flatten_heads; by rewrite length_fmap, length_seq|]. rewrite <- (proj1 Ho). apply ref_linear_lengths. }
  destruct (is_mat_madd _ _ _ _ Hattn (conj eq_refl Hx)) as [Hl Hr]. split_and!; [done..|].
  unfold attn, ref_attention. cbn [snd]. rewrite length_fmap. unfold gqa_attend. by rewrite length_imap.
Qed.

Lemma attn_half_exact env i MM positions caches hr : i < num_hidden_layers config -> attn_group_loaded config ckm ckv atp g nkv hf MM i ->
  rows_ok (stream hr) -> length positions = length (stream hr) -> Forall (fun p => p < length (cos_sin_cache config)) positions -> length caches = atp * nkv ->
  let a := ref_attended i positions caches (stream hr) in
  attn_half env i (MM <$> seq 0 atp) positions (by_rank caches) (everywhere hr)
  = Ok (everywhere (ref_norm config (ckv (WLayer i PostNorm)) a.1, a.1), by_rank a.2).
Proof using Hsh.
  intros Hi Hg Hx Hlen Hp Hc a. destruct (as_layer _ _ _ _ _ _ _ _ Hsh i Hi) as (_ & _ & _ & _ & _ & _ & Hin & Hpost).
  destruct (ref_attended_shape i positions caches (stream hr) Hi Hx) as (Hr & Hl & _). fold a in Hr, Hl. unfold attn_half.
  rewrite (norm_forward_exact config atp hid _ _ (ckv (WLayer i InputNorm))); [|intros r Hr'; destruct (Hg r Hr') as [? Ha]; split; [done|apply Ha]|done|done].
  cbn [mbind result_bind]. rewrite <- !list_fmap_compose. unfold compose. cbn [fst snd]. destruct (ref_norm_rows config hid _ _ Hin Hx) as [Hn1 Hn2].
  rewrite (attention_forward_exact config ckm ckv atp g nkv hf hid Hsh MM env i positions caches) by (done || congruence). cbn [mbind result_bind fst snd].
  set (attn := ref_attention config ckm ckv i positions caches _). rewrite zip_fmap_fmap.
  change (fun a0 : nat => (attn.1, Some (stream hr))) with (fun _ : nat => (attn.1, Some (stream hr))).
  rewrite (norm_forward_exact config atp hid _ _ (ckv (WLayer i PostNorm)) (attn.1, Some (stream hr)));
    [|intros r Hr'; destruct (Hg r Hr') as [? Ha]; split; [done|apply Ha]|done|exact Hr].
  done.
Qed.

Lemma concat_groups {A} (Y : nat -> A) : concat ((fun d => everywhere (Y d)) <$> seq 0 adp) = (fun w => Y (w / atp)) <$> seq 0 (adp * atp).
Proof.
  rewrite <- concat_blocks. f_equal. apply list_fmap_ext. intros _ d _. apply list_fmap_ext. intros j r Hj. apply lookup_seq in Hj as [-> Hr]. cbn [Nat.add].
  by destruct (pid_split atp d j Hr) as [-> _].
Qed.

Lemma slice_group {A} (Y : nat -> A) d : d < adp -> lslice (d * atp) atp ((fun w => Y (w / atp)) <$> seq 0 (adp * atp)) = everywhere (Y d).
Proof.
  intros Hd. rewrite slice_fmap_seq by nia. apply list_fmap_ext. intros j r Hj. apply lookup_seq in Hj as [-> Hr]. cbn [Nat.add].
  by destruct (pid_split atp d j Hr) as [-> _].
Qed.

Lemma dispatch_ready_ext env T T' (l : ffn_layer R) : (mesh_ffn_ep m = 1 -> forall c, c < mesh_ffn_dp m -> T c = T' c) -> dispatch_ready m k M env T l -> dispatch_ready m k M env T' l.
Proof. intros HT Hr Hep Hdec c Hc. rewrite <- (HT Hep c Hc). by apply Hr. Qed.

(** The group whose tokens a feed-forward group without expert parallelism holds. *)
Lemma cell_group_lt c : mesh_ffn_ep m = 1 -> c < mesh_ffn_dp m -> c / (atp / tp) < adp.
Proof using Hm.
  intros Hep Hc. destruct (mo_pos _ Hm) as (Ha & Ht & _). pose proof (group_lt m Hm (c * tp)) as Hg. rewrite Hep in Hg.
  rewrite group_of_cell, Nat.div_mul in Hg by (done || lia). apply Hg. nia.
Qed.

Definition group_ready (i : nat) (MM : nat -> Model R) (positions : list nat) (caches : list K) (x : mat) : Prop :=
  attn_group_loaded config ckm ckv atp g nkv hf MM i /\ rows_ok x /\ length positions = length x /\
  Forall (fun p => p < length (cos_sin_cache config)) positions /\ length caches = atp * nkv.

Lemma moe_layer_exact env i (MM : nat -> nat -> Model R) l positions caches hr : i < num_hidden_layers config ->
  (forall d, d < adp -> group_ready i (MM d) (positions d) (caches d) (stream (hr d))) ->
  ffn_loaded m hid k n s I (fw i) l -> dispatch_ready m k M env (fun c => length (positions (c / (atp / tp)))) l ->
  let out d := ref_moe_layer env i (positions d) (caches d) (stream (hr d)) in
  exists l' hr',
    moe_layer_forward topk m env i ((fun d => MM d <$> seq 0 atp) <$> seq 0 adp) l ((fun d => mk_batch (positions d) (by_rank (caches d)) (everywhere (hr d))) <$> seq 0 adp)
    = Ok (l', (fun d => mk_batch (positions d) (by_rank (out d).2) (everywhere (hr' d))) <$> seq 0 adp) /\
    ffn_loaded m hid k n s I (fw i) l' /\ forall d, d < adp -> (hr' d).2 <> None /\ stream (hr' d) = (out d).1.
Proof using Hsh Hm Htopk.
  intros Hi Hd Hl Hready out. destruct (as_layer _ _ _ _ _ _ _ _ Hsh i Hi) as (_ & _ & _ & _ & _ & _ & _ & Hpost).
  set (a := fun d => ref_attended i (positions d) (caches d) (stream (hr d))). set (hs := fun d => ref_norm config (ckv (WLayer i PostNorm)) (a d).1).
  assert (Hshape : forall d, d < adp -> rows_ok (hs d) /\ length (hs d) = length (positions d)).
  { intros d Hlt. destruct (Hd d Hlt) as (_ & Hx & Hlen & _). destruct (ref_attended_shape i (positions d) (caches d) _ Hi Hx) as (Hr & Hrl & _).
    destruct (ref_norm_rows config hid _ _ Hpost Hr) as [? Hnl]. split; [done|]. unfold hs, a. congruence. }
  destruct (ffn_stage_exact silu topk Htopk m Hm hid k n s I M env (fw i) l hs Hl (fun d Hlt => proj1 (Hshape d Hlt))) as (l' & Heq & Hl').
  { revert Hready. apply dispatch_ready_ext. intros Hep c Hc. symmetry. apply Hshape. by apply cell_group_lt. }
  exists l', (fun d => (ref_ffn silu topk hid k env (fw i) (hs d), Some (a d).1)). split; [|split; [done|by intros d _]].
  pose proof (ranks_cells m Hm) as HN. unfold mesh_ranks in HN. rewrite <- HN in Heq. unfold moe_layer_forward. rewrite zip_fmap_fmap.
  rewrite (mapM_r_fmap_seq _ _ (fun d => (everywhere (hs d, (a d).1), by_rank (a d).2))).
  2: { intros d Hlt. destruct (Hd d Hlt) as (H1 & H2 & H3 & H4 & H5). by apply attn_half_exact. }
  cbn [mbind result_bind]. rewrite <- list_fmap_compose. unfold compose. cbn [fst].
  rewrite (list_fmap_ext _ (fun d => everywhere (hs d)) (seq 0 adp)) by (intros; by rewrite <- list_fmap_compose).
  rewrite concat_groups, Heq. cbn [mbind result_bind]. do 2 f_equal. rewrite zip_fmap_fmap.
  apply list_eq. intros d. rewrite list_lookup_imap, !list_lookup_fmap. destruct (decide (d < adp)); [|by rewrite lookup_seq_ge by lia].
  rewrite lookup_seq_lt by done. cbn [fmap option_fmap option_map Nat.add b_positions snd]. rewrite (slice_group (fun d => ref_ffn silu topk hid k env (fw i) (hs d))) by done.
  cbn [fst]. rewrite <- !list_fmap_compose, zip_fmap_fmap. done.
Qed.

(** ** The layers of a stage *)

(** The stream of a group that enters layer [start + j]. *)
Fixpoint ref_stream (env : nat -> moe_env) (start : nat) (positions : list nat) (caches : nat -> list K) (x : mat) (j : nat) : mat :=
  match j with
  | 0 => x
  | S j => (ref_moe_layer (env (start + j)) (start + j) positions (caches (start + j)) (ref_stream env start positions caches x j)).1
  end.

Definition ref_caches (env : nat -> moe_env) (start : nat) (positions : list nat) (caches : nat -> list K) (x : mat) (j : nat) : list K :=
  (ref_moe_layer (env (start + j)) (start + j) positions (caches (start + j)) (ref_stream env start positions caches x j)).2.

Lemma insert_fmap_seq {A} (F : nat -> A) L i a : <[i := a]> (F <$> seq 0 L) = (fun j => if decide (j = i) then a else F j) <$> seq 0 L.
Proof.
  apply list_eq. intros j. rewrite list_lookup_fmap. destruct (decide (j < L)) as [Hj|Hj].
  - rewrite lookup_seq_lt by done. cbn [fmap option_fmap option_map Nat.add]. case_decide as E.
    + subst. rewrite list_lookup_insert_eq; [done|]. by rewrite length_fmap, length_seq.
    + rewrite list_lookup_insert_ne by done. by apply lookup_fmap_seq.
  - rewrite lookup_seq_ge by lia. cbn. apply lookup_ge_None. rewrite length_insert, length_fmap, length_seq. lia.
Qed.

Lemma ref_moe_layer_shape env i positions caches x l : i < num_hidden_layers config -> rows_ok x -> ffn_loaded m hid k n s I (fw i) l ->
  let r := ref_moe_layer env i positions caches x in rows_ok r.1 /\ length r.1 = length x /\ length r.2 = length caches.
Proof using Hsh.
  intros Hi Hx Hl. destruct (ref_attended_shape i positions caches x Hi Hx) as (Ha & Hal & Hac). unfold ref_moe_layer. cbn zeta. cbn [fst snd].
  destruct (ref_ffn_shape silu topk m hid k n s I env (fw i) l (ref_norm config (ckv (WLayer i PostNorm)) (ref_attended i positions caches x).1) Hl) as [Hfl Hf].
  unfold ref_norm in Hfl at 2. rewrite length_fmap in Hfl.
  destruct (is_mat_madd (length x) hid (ref_ffn silu topk hid k env (fw i) (ref_norm config (ckv (WLayer i PostNorm)) (ref_attended i positions caches x).1)) (ref_attended i positions caches x).1)
    as [Hr1 Hr2]; [split; [congruence|done]|by split|]. done.
Qed.

Section loop.
Context (MM : nat -> nat -> Model R) (positions : nat -> list nat) (C : nat -> nat -> list K) (env : nat -> moe_env) (start count Lt : nat).
Context (Hcount : start + count <= Lt /\ start + count <= num_hidden_layers config).
Context (L : nat -> ffn_layer R) (hr : nat -> mat * option mat).
Notation groups := ((fun d => MM d <$> seq 0 atp) <$> seq 0 adp).
Notation x0 d := (stream (hr d)).
Notation xs d j := (ref_stream env start (positions d) (fun i => C i d) (x0 d) j).
Context (Hgroups : forall i d, start <= i < start + count -> d < adp -> group_ready i (MM d) (positions d) (C i d) (x0 d)).
Context (HL : forall i, start <= i < start + count ->
  ffn_loaded m hid k n s I (fw i) (L i) /\ dispatch_ready m k M (env i) (fun c => length (positions (c / (atp / tp)))) (L i)).

(** The caches of layer [i] once the layers before [start + j] have run. *)
Definition caches_after (j i d : nat) : list K :=
  if decide (start <= i < start + j) then ref_caches env start (positions d) (fun i => C i d) (x0 d) (i - start) else C i d.

Definition loop_at (j : nat) (L' : nat -> ffn_layer R) (hr' : nat -> mat * option mat) : loop_state R K :=
  mk_loop (L' <$> seq 0 Lt) ((fun i => (fun d => by_rank (caches_after j i d)) <$> seq 0 adp) <$> seq 0 Lt) ((fun d => everywhere (hr' d)) <$> seq 0 adp).

Lemma moe_step_exact j L' hr' : j < count -> L' (start + j) = L (start + j) ->
  (forall d, d < adp -> stream (hr' d) = xs d j /\ rows_ok (xs d j) /\ length (xs d j) = length (positions d)) ->
  exists l' hr'', moe_layer_step topk m env groups (positions <$> seq 0 adp) (loop_at j L' hr') (start + j)
      = Ok (loop_at (S j) (fun i => if decide (i = start + j) then l' else L' i) hr'') /\
    ffn_loaded m hid k n s I (fw (start + j)) l' /\ forall d, d < adp -> (hr'' d).2 <> None /\ stream (hr'' d) = xs d (S j).
Proof using Hsh Hm Htopk Hgroups HL Hcount.
  intros Hj HLj Hx. set (i := start + j). assert (Hi : start <= i < start + count) by lia. destruct (HL i Hi) as [Hl Hready].
  destruct (moe_layer_exact (env i) i MM (L i) positions (C i) hr') as (l' & hr'' & Heq & Hl' & Hst); [lia| |done|done|].
  { intros d Hd. destruct (Hgroups i d Hi Hd) as (H1 & _ & _ & H4 & H5). destruct (Hx d Hd) as (-> & Hr & Hlen). done. }
  exists l', hr''. split; [|split; [done|]].
  2: { intros d Hd. destruct (Hst d Hd) as [Hne Hs]. split; [done|]. rewrite Hs. cbn [ref_stream]. by rewrite (proj1 (Hx d Hd)). }
  unfold moe_layer_step, loop_at. cbn [ls_layers ls_caches ls_hidden]. rewrite !lookup_fmap_seq by lia. cbn [of_option mbind result_bind].
  rewrite zip_fmap_fmap, zip_with_fmap_fmap. fold i in HLj. rewrite HLj.
  assert (Hc : forall d, caches_after j i d = C i d) by (intros d; unfold caches_after; by rewrite decide_False by lia).
  rewrite (list_fmap_ext _ (fun d => mk_batch (positions d) (by_rank (C i d)) (everywhere (hr' d))) (seq 0 adp)) by (intros; by rewrite Hc).
  rewrite Heq. cbn [mbind result_bind fst snd]. rewrite !insert_fmap_seq, <- !list_fmap_compose. unfold compose. cbn [b_caches b_hidden]. do 2 f_equal.
  apply list_fmap_ext. intros _ i' _. case_decide as E.
  - subst i'. apply list_fmap_ext. intros ? d Hd. apply lookup_seq in Hd as [-> Hd]. cbn [Nat.add]. unfold caches_after. rewrite decide_True by lia.
    unfold ref_caches. replace (i - start) with j by lia. fold i. by rewrite (proj1 (Hx _ Hd)).
  - apply list_fmap_ext. intros _ d _. unfold caches_after. destruct (decide (start <= i' < start + j)); [by rewrite decide_True by lia|by rewrite decide_False by lia].
Qed.

Lemma ref_stream_shape d j : j <= count -> rows_ok (x0 d) -> length (positions d) = length (x0 d) -> rows_ok (xs d j) /\ length (xs d j) = length (positions d).
Proof using Hsh HL Hcount.
  intros Hj Hx Hlen. induction j as [|j IH]; [done|]. destruct IH as [IH1 IH2]; [lia|]. cbn [ref_stream].
  destruct (ref_moe_layer_shape (env (start + j)) (start + j) (positions d) (C (start + j) d) _ (L (start + j)) ltac:(lia) IH1) as (Hr & Hl & _); [by apply HL; lia|]. by rewrite Hl.
Qed.

Lemma moe_layers_exact j : j <= count -> exists L' hr',
  foldM_r (moe_layer_step topk m env groups (positions <$> seq 0 adp)) (loop_at 0 L hr) (seq start j) = Ok (loop_at j L' hr') /\
  (forall i, start <= i < start + j -> ffn_loaded m hid k n s I (fw i) (L' i)) /\ (forall i, ~ start <= i < start + j -> L' i = L i) /\
  forall d, d < adp -> stream (hr' d) = xs d j /\ (0 < j -> (hr' d).2 <> None).
Proof using Hsh Hm Htopk Hgroups HL Hcount.
  induction j as [|j IH]; intros Hj; [exists L, hr; split_and!; [done|lia|done|by intros d _; split; [|lia]]|].
  destruct IH as (L' & hr' & Heq & Hl & Hout & Hst); [lia|].
  destruct (moe_step_exact j L' hr') as (l' & hr'' & Heq' & Hl' & Hst'); [lia|apply Hout; lia| |].
  { intros d Hd. split; [by apply Hst|]. destruct (Hgroups start d ltac:(lia) Hd) as (_ & ? & ? & _). by apply ref_stream_shape; [lia|..]. }
  eexists _, hr''. split; [|split; [|split]].
  - rewrite seq_S, foldM_r_app, Heq. cbn [mbind result_bind foldM_r]. rewrite Heq'. done.
  - intros i Hi. cbn beta. case_decide as E; [by subst i|]. apply Hl. lia.
  - intros i Hi. cbn beta. rewrite decide_False by lia. apply Hout. lia.
  - intros d Hd. destruct (Hst' d Hd). done.
Qed.
End loop.

(** ** A stage *)

(** The models of a stage with layers [start] to [start + count]: the attention of its layers, the
    embedding on the first stage, the norm on the last. *)
Definition stage_model (V : nat) (first last : bool) (start count : nat) (r : nat) (mo : Model R) : Prop :=
  rank_model config atp mo /\ is_first_pp_stage mo = first /\ is_last_pp_stage mo = last /\ start_layer mo = start /\ end_layer mo = start + count /\
  (forall i, start <= i < start + count -> attn_loaded ckm ckv atp g nkv hf (modules mo) r i) /\
  (first = true -> get_embedding mo (lit "model.embed_tokens") = Ok (vocab_shard atp V r (ckm WEmbed))) /\
  (last = true -> modules mo !! lit "model.norm" = Some (MNorm (Vec (ckv WNorm)))).

(** The rows a group starts from. *)
Definition request_rows (first : bool) (ids : list Z) (embeds : option mat) (received : mat) : mat :=
  if first then default (ref_embed ckm ids) embeds else received.

Lemma stage_input_exact V env first last start count MM ids embeds received : 0 < V -> is_mat (atp * V) hid (ckm WEmbed) ->
  (forall r, r < atp -> stage_model V first last start count r (MM r)) ->
  (first = true -> embeds = None -> Forall (fun t => 0 <= t < Z.of_nat (atp * V))%Z ids) ->
  moe_stage_input env (MM <$> seq 0 atp) ids embeds (everywhere received) = Ok (everywhere (request_rows first ids embeds received)).
Proof using Hm Hsh.
  intros HV Hemb HMM Hids. destruct (mo_pos _ Hm) as (Ha & _). unfold moe_stage_input. destruct (MM <$> seq 0 atp) as [|m0 rest] eqn:Hgrp.
  { apply (f_equal length) in Hgrp. rewrite length_fmap, length_seq in Hgrp. cbn in Hgrp. lia. }
  assert (m0 = MM 0) as ->. { destruct atp; [lia|]. cbn in Hgrp. by injection Hgrp. }
  destruct (HMM 0 Ha) as (_ & -> & _). rewrite <- Hgrp. unfold request_rows. destruct first; [|done]. destruct embeds as [x|]; [by rewrite <- list_fmap_compose|].
  rewrite (mapM_r_fmap_seq _ _ (fun r => vocab_shard atp V r (ckm WEmbed))).
  2: { intros r Hr. destruct (HMM r Hr) as (_ & _ & _ & _ & _ & _ & He & _). by apply He. }
  cbn [mbind result_bind]. unfold vocab_shard. rewrite (embedding_forward_exact env atp V hid (atp * V) (ckm WEmbed)); [by rewrite replicate_seq|done..|by apply Hids].
Qed.

Lemma stage_output_exact V first last start count MM hr : length (ckv WNorm) = hid -> (last = true -> hr.2 <> None) ->
  (forall r, r < atp -> stage_model V first last start count r (MM r)) -> rows_ok (stream hr) ->
  moe_stage_output (MM <$> seq 0 atp) (everywhere hr)
  = Ok (if last then Final (everywhere (Mat (ref_norm config (ckv WNorm) (stream hr)))) else Sent (everywhere (stream hr))).
Proof using Hm Hsh.
  intros Hnorm Hne HMM Hx. destruct (mo_pos _ Hm) as (Ha & _). unfold moe_stage_output. destruct (MM <$> seq 0 atp) as [|m0 rest] eqn:Hgrp.
  { apply (f_equal length) in Hgrp. rewrite length_fmap, length_seq in Hgrp. cbn in Hgrp. lia. }
  assert (m0 = MM 0) as ->. { destruct atp; [lia|]. cbn in Hgrp. by injection Hgrp. }
  destruct (HMM 0 Ha) as (_ & _ & -> & _). rewrite <- Hgrp. destruct last.
  - rewrite zip_fmap_fmap, (mapM_r_fmap_seq _ _ (fun _ => Mat (ref_norm config (ckv WNorm) (stream hr)))); [done|].
    intros r Hr. cbn [fst snd]. destruct (HMM r Hr) as ([_ Hcfg] & _ & _ & _ & _ & _ & _ & Hn). unfold final_norm, get_norm. rewrite (Hn eq_refl), Hcfg. cbn [mbind result_bind].
    specialize (Hne eq_refl). destruct hr as [h [residual|]]; [|done]. cbn [fst snd]. unfold add_rms_forward, stream in *. cbn [fst snd] in *.
    rewrite rms_forward_Ok; [done|]. by rewrite Hnorm.
  - f_equal. f_equal. by rewrite <- list_fmap_compose.
Qed.
End decoder_exact.

Lemma groups_head {A} (f : nat -> nat -> A) a b : 0 < a -> 0 < b -> exists rest rest', (fun d => f d <$> seq 0 b) <$> seq 0 a = (f 0 0 :: rest) :: rest'.
Proof. intros Ha Hb. destruct a as [|a]; [lia|]. destruct b as [|b]; [lia|]. cbn [seq fmap list_fmap]. by do 2 eexists. Qed.

(** * Properties *)

(** The batches of the groups of a stage: rows of the hidden size with a position each, caches
    for the key-value heads, and token ids of the vocabulary. *)
Record moe_requests {R K} `{!Numerics R K} (config : Qwen3Config R) (ckm : wname -> list (list R)) (m : Mesh) (nkv hid V : nat) (first : bool)
    (ids : nat -> list Z) (embeds : nat -> option (list (list R))) (received : nat -> list (list R)) (positions : nat -> list nat) (caches : nat -> nat -> list K) : Prop := {
  mq_rows : forall d, d < mesh_attention_dp m -> Forall (fun row => length row = hid) (request_rows ckm first (ids d) (embeds d) (received d));
  mq_positions : forall d, d < mesh_attention_dp m -> length (positions d) = length (request_rows ckm first (ids d) (embeds d) (received d)) /\
    Forall (fun p => p < length (cos_sin_cache config)) (positions d);
  mq_ids : forall d, d < mesh_attention_dp m -> first = true -> embeds d = None -> Forall (fun t => 0 <= t < Z.of_nat (mesh_attention_tp m * V))%Z (ids d);
  mq_caches : forall i d, length (caches i d) = mesh_attention_tp m * nkv
}.

(** C7. A pipeline stage of the Qwen3 mixture-of-experts model computes, on every rank of every
    data-parallel group, what one device computes for the batch of that group: for attention
    sharded over tensor-parallel ranks, and sparse layers whose tokens are scattered over the
    attention ranks, routed, exchanged among expert-parallel ranks and gathered, or computed by
    tensor-parallel experts; for batches of any sizes, none included, so that a group does not
    see the tokens of another.  Dense layers are computed the same way.  This holds for every
    mesh on which the ranks of a feed-forward tensor-parallel group hold the same tokens
    ([mesh_ok]).  The layers keep their weights. *)
Theorem moe_stage_exact {R K} `{!Numerics R K} `{!Semiring R} `{!RouterNum R} topk config (ckm : wname -> list (list R)) ckv fw m
    g nkv hf hid k n s I M V first last start count Lt MM ids embeds received positions (caches : nat -> nat -> list K) env (L : nat -> ffn_layer R) :
  let atp := mesh_attention_tp m in
  let adp := mesh_attention_dp m in
  topk_sound topk -> attn_shaped config ckm ckv atp g nkv hf hid -> mesh_ok m -> 0 < adp ->
  0 < V -> is_mat (atp * V) hid (ckm WEmbed) -> length (ckv WNorm) = hid ->
  start + count <= Lt -> start + count <= num_hidden_layers config -> (last = true -> 0 < count) ->
  (forall d r, d < adp -> r < atp -> stage_model config ckm ckv m g nkv hf V first last start count r (MM d r)) ->
  moe_requests config ckm m nkv hid V first ids embeds received positions caches ->
  (forall i, start <= i < start + count -> ffn_loaded m hid k n s I (fw i) (L i) /\
     dispatch_ready m k M (env i) (fun c => length (positions (c / (atp / mesh_ffn_tp m)))) (L i)) ->
  let everywhere {A} (x : A) := (fun _ => x) <$> seq 0 atp in
  let by_rank c := (fun r => lslice (r * nkv) nkv c) <$> seq 0 atp in
  let x d := request_rows ckm first (ids d) (embeds d) (received d) in
  let out d := ref_stream topk config ckm ckv fw hid k env start (positions d) (fun i => caches i d) (x d) count in
  let new i d := if decide (start <= i < start + count)
    then ref_caches topk config ckm ckv fw hid k env start (positions d) (fun i => caches i d) (x d) (i - start) else caches i d in
  exists L',
    moe_stage_forward topk m env ((fun d => MM d <$> seq 0 atp) <$> seq 0 adp)
      ((fun d => mk_request (ids d) (embeds d) (everywhere (received d)) (positions d)) <$> seq 0 adp)
      (L <$> seq 0 Lt) ((fun i => (fun d => by_rank (caches i d)) <$> seq 0 adp) <$> seq 0 Lt)
    = Ok ((fun d => if last then Final (everywhere (Mat (ref_norm config (ckv WNorm) (out d)))) else Sent (everywhere (out d))) <$> seq 0 adp,
          L' <$> seq 0 Lt, (fun i => (fun d => by_rank (new i d)) <$> seq 0 adp) <$> seq 0 Lt) /\
    forall i, start <= i < start + count -> ffn_loaded m hid k n s I (fw i) (L' i).
Proof.
  intros atp adp Htopk Hsh Hm Hadp HV Hemb Hnorm HLt Hlayers Hlast HMM Hq HL everywhere by_rank x out new. destruct (mo_pos _ Hm) as (Hatp & _). subst atp adp.
  set (hr := fun d => (x d, None : option (list (list R)))). assert (Hhr : forall d, stream (hr d) = x d) by done.
  destruct (moe_layers_exact topk Htopk config ckm ckv fw m g nkv hf hid k n s I M Hsh Hm MM positions caches env start count Lt (conj HLt Hlayers) L hr) with (j := count)
    as (L' & hr' & Heq & HL' & _ & Hst); [|done|done|].
  { intros i d Hi Hd. destruct (mq_positions _ _ _ _ _ _ _ _ _ _ _ _ Hq d Hd). split; [|split_and!; [by apply (mq_rows _ _ _ _ _ _ _ _ _ _ _ _ Hq)|done|done|apply Hq]].
    intros r Hr. destruct (HMM d r Hd Hr) as (Hrm & _ & _ & _ & _ & Ha & _). split; [done|by apply Ha]. }
  exists L'. split; [|done]. unfold moe_stage_forward. set (groups := (fun d => MM d <$> seq 0 (mesh_attention_tp m)) <$> seq 0 (mesh_attention_dp m)) in *.
  destruct (groups_head MM (mesh_attention_dp m) (mesh_attention_tp m) Hadp Hatp) as (rest & rest' & Hgrp). fold groups in Hgrp. rewrite Hgrp. cbv iota. rewrite <- Hgrp. destruct (HMM 0 0 Hadp Hatp) as (_ & _ & _ & -> & -> & _).
  clear Hgrp. subst groups. rewrite zip_fmap_fmap. rewrite (mapM_r_fmap_seq _ _ (fun d => everywhere _ (x d))).
  2: { intros d Hd. apply (stage_input_exact config ckm ckv m g nkv hf hid Hsh Hm V _ first last start count); [done..|by intros r Hr; apply HMM|].
       by apply (mq_ids _ _ _ _ _ _ _ _ _ _ _ _ Hq). }
  cbn [mbind result_bind]. unfold moe_layers_forward. replace (start + count - start) with count by lia.
  rewrite <- (list_fmap_compose _ rq_positions). change (rq_positions ∘ _) with positions.
  assert (Hstate : mk_loop (L <$> seq 0 Lt) ((fun i => (fun d => by_rank (caches i d)) <$> seq 0 (mesh_attention_dp m)) <$> seq 0 Lt)
      ((fun h : list (list (list R)) => (fun y => (y, None)) <$> h) <$> ((fun d => everywhere _ (x d)) <$> seq 0 (mesh_attention_dp m)))
    = loop_at topk config ckm ckv fw m nkv hid k positions caches env start Lt hr 0 L hr).
  { unfold loop_at. f_equal.
    - apply list_fmap_ext. intros _ i _. apply list_fmap_ext. intros _ d _. unfold caches_after. by rewrite decide_False by lia.
    - rewrite <- list_fmap_compose. apply list_fmap_ext. intros _ d _. unfold compose, everywhere. by rewrite <- list_fmap_compose. }
  rewrite Hstate, Heq. cbn [mbind result_bind loop_at ls_layers ls_caches ls_hidden]. rewrite zip_fmap_fmap.
  rewrite (mapM_r_fmap_seq _ _ (fun d => if last then Final (everywhere _ (Mat (ref_norm config (ckv WNorm) (out d)))) else Sent (everywhere _ (out d)))); [done|].
  intros d Hd. destruct (Hst d Hd) as [Hs Hne]. destruct (mq_positions _ _ _ _ _ _ _ _ _ _ _ _ Hq d Hd) as [Hpl _].
  change (out d) with (ref_stream topk config ckm ckv fw hid k env start (positions d) (fun i => caches i d) (stream (hr d)) count). rewrite <- Hs.
  apply (stage_output_exact config ckm ckv m g nkv hf hid Hsh Hm V first last start count); [done|intros E; by apply Hne, Hlast|by intros r Hr; apply HMM|].
  rewrite Hs. apply (ref_stream_shape topk config ckm ckv fw m g nkv hf hid k n s I M Hsh positions caches env start count Lt (conj HLt Hlayers) L hr HL d count); [done| |done].
  by apply (mq_rows _ _ _ _ _ _ _ _ _ _ _ _ Hq).
Qed.

(** ** A small model *)

Section demo.

(** Exact numerics on rationals; attention returns the queries and counts its calls. *)
#[local] Instance Qc_numerics : Numerics Qcanon.Qc nat.
Proof.
  refine {| num_arith := Qc_arith; Qwen3.rsub := Qcanon.Qcminus; rdivn a n := Qcanon.Qcdiv a (Qcanon.Q2Qc (QArith_base.Qmake (Z.of_nat n) 1));
            rsqrt a := Qcanon.Qcdiv (r1 : Qcanon.Qc) a; silu a := Qcanon.Qcmult a (Qc_sigmoid a); attend c q k v := (q, S c) |}.
  intros c q k v. cbn. induction q; by constructor.
Defined.

Definition qz (z : Z) : Qcanon.Qc := Qcanon.Q2Qc (QArith_base.Qmake z 1).
Definition qmat (n c s : nat) : list (list Qcanon.Qc) := (fun i => (fun j => qz (Z.of_nat ((7 * s + 3 * i + 5 * j + i * j) mod 5) - 2)) <$> seq 0 c) <$> seq 0 n.

Definition demo_mesh : Mesh := mk_mesh 2 2 1 4 1.
Definition demo_config : Qwen3Config Qcanon.Qc := mk_config 2 2 2 2 (Some 2) 2 1 false true "silu" (qz 1) [[qz 1; qz 0]; [qz 0; qz 1]].
Definition demo_ckm (w : wname) : list (list Qcanon.Qc) :=
  match w with
  | WLayer _ OProj => qmat 2 4 3
  | WLayer _ QProj => qmat 4 2 1
  | WLayer _ KProj => qmat 4 2 2
  | WLayer _ VProj => qmat 4 2 4
  | _ => qmat 2 2 5
  end.
Definition demo_ckv (w : wname) : list Qcanon.Qc := [qz 1; qz 2].
Definition demo_moe : list (expert_weights Qcanon.Qc) := (fun e => mk_expert (qmat 1 2 e) (qmat 1 2 (e + 1)) (qmat 2 1 (e + 2))) <$> seq 0 4.
Definition demo_gate : list (list Qcanon.Qc) := qmat 4 2 3.

Definition demo_modules (r : nat) : gmap pystr (module Qcanon.Qc) :=
  let p := layer_prefix 0 in
  let sh s w := lslice (r * s) s w in
  list_to_map
    [(p ++ lit "self_attn.qkv_proj", MLinear (mk_linear (QKVParallelLinear 2 1 1) (Some 0) r 2
        (Mat (sh 2 (demo_ckm (WLayer 0 QProj)) ++ sh 2 (demo_ckm (WLayer 0 KProj)) ++ sh 2 (demo_ckm (WLayer 0 VProj)))) None));
     (p ++ lit "self_attn.o_proj", MLinear (mk_linear RowParallelLinear (Some 1) r 2 (Mat (lslice (r * 2) 2 <$> demo_ckm (WLayer 0 OProj))) None));
     (p ++ lit "self_attn.q_norm", MNorm (Vec (demo_ckv (WLayer 0 QNorm)))); (p ++ lit "self_attn.k_norm", MNorm (Vec (demo_ckv (WLayer 0 KNorm))));
     (p ++ lit "input_layernorm", MNorm (Vec (demo_ckv (WLayer 0 InputNorm)))); (p ++ lit "post_attention_layernorm", MNorm (Vec (demo_ckv (WLayer 0 PostNorm))));
     (lit "model.embed_tokens", MEmbedding (vocab_shard 2 1 r (demo_ckm WEmbed))); (lit "model.norm", MNorm (Vec (demo_ckv WNorm)))].

Definition moe_demo_model (d r : nat) : Model Qcanon.Qc :=
  mk_model (mk_par (Dist.mk_ctx (Z.of_nat (d * 2 + r)) 4 2 2 1 1 4 1 1) r 2) demo_config true true 0 1 (demo_modules r).

Definition demo_block (w : nat) : SparseBlock Qcanon.Qc :=
  mk_sparse (Mat demo_gate) (mk_experts 2 1 4 2 4 1 w 0 1 1
    ((fun e => lslice 0 1 (w_gate e) ++ lslice 0 1 (w_up e)) <$> lslice w 1 demo_moe) ((fun e => lslice 0 1 <$> w_down e) <$> lslice w 1 demo_moe) None).

Definition demo_env : moe_env := mk_moe_env true true None true [] (mk_env false false).

Lemma demo_attn_shaped : attn_shaped demo_config demo_ckm demo_ckv 2 1 1 1 2.
Proof.
  split; [lia|reflexivity..|repeat constructor|]. intros i Hi. repeat split; repeat constructor.
Qed.

Lemma demo_stage_model d r : d < 2 -> r < 2 -> stage_model demo_config demo_ckm demo_ckv demo_mesh 1 1 1 1 true true 0 1 r (moe_demo_model d r).
Proof.
  intros _ Hr. split; [done|]. do 4 (split; [done|]). split; [|split; [done|done]]. intros i Hi. replace i with 0 by lia. split; reflexivity.
Qed.

Lemma demo_ffn_loaded : ffn_loaded demo_mesh 2 2 1 1 1 (WSparse demo_gate demo_moe) (SparseLayer (demo_block <$> seq 0 4)).
Proof.
  assert (Hshape : forall n c s, is_mat n c (qmat n c s)).
  { intros n c s. unfold qmat. split; [by rewrite length_fmap, length_seq|]. apply Forall_fmap, Forall_true. intros i. cbn. by rewrite length_fmap, length_seq. }
  split.
  - split; [cbn; lia..|reflexivity| |apply (Hshape 4 2)]. apply Forall_fmap, Forall_true. intros e. unfold compose, expert_shape. cbn [w_gate w_up w_down]. split_and!; apply Hshape.
  - exists demo_block. split; [done|]. intros r Hr. cbn in Hr. split; [done|]. split; [done|].
    assert (Er : (r / 1) mod 4 = r /\ r mod 1 = 0) by (rewrite Nat.div_1_r, Nat.mod_small, Nat.mod_1_r by lia; done). cbn [demo_mesh mesh_ffn_tp mesh_ffn_ep].
    destruct Er as [-> ->]. split; [done..| |]; cbn [demo_block sb_experts Experts.gate_up_proj Experts.down_proj Nat.mul]; by rewrite Nat.mul_1_r.
Qed.

Definition demo_ids (d : nat) : list Z := if decide (d = 0) then [0; 1; 1]%Z else [].
Definition demo_positions (d : nat) : list nat := if decide (d = 0) then [0; 1; 0] else [].

Lemma moe_stage_exact_witness : exists L',
  moe_stage_forward lane_topk demo_mesh (fun _ => demo_env) ((fun d => moe_demo_model d <$> seq 0 2) <$> seq 0 2)
    ((fun d => mk_request (demo_ids d) None [[]; []] (demo_positions d)) <$> seq 0 2)
    ((fun _ => SparseLayer (demo_block <$> seq 0 4)) <$> seq 0 1) [[[[0]; [0]]; [[0]; [0]]]]
  = Ok ((fun d => Final ((fun _ => Mat (ref_norm demo_config (demo_ckv WNorm)
           (ref_stream lane_topk demo_config demo_ckm demo_ckv (fun _ => WSparse demo_gate demo_moe) 2 2 (fun _ => demo_env) 0 (demo_positions d) (fun _ => [0; 0])
              (ref_embed demo_ckm (demo_ids d)) 1))) <$> seq 0 2)) <$> seq 0 2, L', [[[[1]; [1]]; [[1]; [1]]]]).
Proof.
  destruct (moe_stage_exact lane_topk demo_config demo_ckm demo_ckv (fun _ => WSparse demo_gate demo_moe) demo_mesh 1 1 1 2 2 1 1 1 0 1 true true 0 1 1
    moe_demo_model demo_ids (fun _ => None) (fun _ => []) demo_positions (fun _ _ => [0; 0]) (fun _ => demo_env) (fun _ => SparseLayer (demo_block <$> seq 0 4))) as (L' & Heq & _).
  - apply lane_topk_sound.
  - apply demo_attn_shaped.
  - split; [reflexivity|cbn; lia|reflexivity|reflexivity].
  - cbn; lia.
  - lia.
  - repeat constructor.
  - reflexivity.
  - lia.
  - cbn; lia.
  - lia.
  - intros d r Hd Hr. apply demo_stage_model; [exact Hd|exact Hr].
  - split.
    + intros d Hd. unfold request_rows, demo_ids. case_decide; cbn [default]; repeat constructor.
    + intros d Hd. unfold request_rows, demo_ids, demo_positions. case_decide; split; [reflexivity|repeat constructor|reflexivity|constructor].
    + intros d Hd _ _. unfold demo_ids. case_decide; [|constructor]. repeat (constructor; [cbn; lia|]). constructor.
    + reflexivity.
  - intros i Hi. split; [apply demo_ffn_loaded|]. intros Hep. discriminate Hep.
  - exists (L' <$> seq 0 1). exact Heq.
Defined.
End demo.

(** ** Construction *)

(** Room for the weights of rank [w] of a sparse layer. *)
Definition sparse_built {R} (m : Mesh) (c : Qwen3MoeConfig) (n s w : nat) (b : SparseBlock R) : Prop :=
  let x := sb_experts b in
  (exists gate, sb_gate b = Mat gate /\ is_mat (qm_num_experts c) (qm_hidden_size c) gate) /\
  Experts.hidden_size x = qm_hidden_size c /\ num_experts x = qm_num_experts c /\ top_k x = qm_num_experts_per_tok c /\
  ep_rank x = (w / mesh_ffn_tp m) mod mesh_ffn_ep m /\ num_local_experts x = n /\ local_intermediate_size x = s /\
  length (gate_up_proj x) = n /\ Forall (is_mat (s * 2) (qm_hidden_size c)) (gate_up_proj x) /\
  length (down_proj x) = n /\ Forall (is_mat (qm_hidden_size c) s) (down_proj x).

Lemma empty_experts_shape {R} `{Arith R} uninit n a b : length (empty_experts uninit n a b : list (list (list R))) = n /\ Forall (is_mat a b) (empty_experts uninit n a b : list (list (list R))).
Proof. unfold empty_experts. split; [by rewrite length_fmap, length_seq|]. apply Forall_fmap, Forall_true. intros e. apply (is_mat_empty (uninit e)). Qed.

(** A layer of the model is sparse when its number plus one is a multiple of the sparse step and
    it is not listed as dense.  Where the ranks divide the experts and their columns, a sparse
    layer is built on every rank with room for the experts of that rank and for its columns;
    otherwise construction fails with an assertion. *)
Theorem sparse_layer_built {R} `{Arith R} uninit uninit3 (m : Mesh) (c : Qwen3MoeConfig) i n s : 0 < mesh_ranks m -> 0 < mesh_ffn_ep m -> 0 < mesh_ffn_tp m ->
  i ∉ qm_mlp_only_layers c -> 0 < qm_num_experts c -> 0 < qm_decoder_sparse_step c -> (i + 1) mod qm_decoder_sparse_step c = 0 ->
  (qm_num_experts c = mesh_ffn_ep m * n -> qm_moe_intermediate_size c = mesh_ffn_tp m * s ->
   exists X, ffn_layer_init (R := R) uninit uninit3 m c i = Ok (SparseLayer (X <$> seq 0 (mesh_ranks m))) /\ forall w, w < mesh_ranks m -> sparse_built m c n s w (X w)) /\
  (qm_num_experts c mod mesh_ffn_ep m <> 0 -> ffn_layer_init (R := R) uninit uninit3 m c i = Err AssertionError).
Proof.
  intros Hw Hep Htp Hin HE Hst Hi. assert (Hsp : is_sparse_layer c i = Ok true).
  { unfold is_sparse_layer. rewrite !decide_False by (done || lia). by rewrite bool_decide_eq_true_2. }
  unfold ffn_layer_init. rewrite Hsp. cbn [mbind result_bind]. split.
  - intros HEn HI. set (E := qm_num_experts c) in *. set (h := qm_hidden_size c).
    set (X := fun w => mk_sparse (empty_mat uninit E h) (mk_experts h (qm_moe_intermediate_size c) E (qm_num_experts_per_tok c)
      (mesh_ffn_ep m) (mesh_ffn_tp m) ((w / mesh_ffn_tp m) mod mesh_ffn_ep m) (w mod mesh_ffn_tp m) n s (empty_experts uninit3 n (s * 2) h) (empty_experts uninit3 n h s) None)).
    exists X. rewrite (mapM_r_seq _ X); [split; [done|]|].
    + intros w _. unfold sparse_built. cbn. split; [by eexists; split; [reflexivity|apply is_mat_empty]|]. do 6 (split; [done|]).
      destruct (empty_experts_shape uninit3 n (s * 2) h), (empty_experts_shape uninit3 n h s). done.
    + intros w _. unfold sparse_block_init, GenericExperts_init. fold E. rewrite (decide_False (P := mesh_ffn_ep m = 0)), (decide_False (P := mesh_ffn_tp m = 0)) by lia.
      rewrite (decide_False (P := E mod mesh_ffn_ep m <> 0)) by (intros Hc; apply Hc; rewrite HEn, Nat.mul_comm; apply Nat.Div0.mod_mul).
      rewrite (decide_False (P := (qm_moe_intermediate_size c * 2) mod mesh_ffn_tp m <> 0))
        by (intros Hc; apply Hc; rewrite HI; replace (mesh_ffn_tp m * s * 2) with (s * 2 * mesh_ffn_tp m) by lia; apply Nat.Div0.mod_mul).
      rewrite (div_cancel_l _ _ _ Hep HEn), (div_cancel_l _ _ _ Htp HI). done.
  - intros Hmod. destruct (mesh_ranks m) as [|N]; [lia|]. cbn [seq mapM_r]. unfold sparse_block_init, GenericExperts_init.
    rewrite (decide_False (P := mesh_ffn_ep m = 0)), (decide_True (P := qm_num_experts c mod mesh_ffn_ep m <> 0)) by (done || lia). done.
Qed.

(** ** Meshes that mix tokens *)

Section mixed.
Notation Qc := Qcanon.Qc (only parsing).

(** Two experts and their gate. *)
Definition mixed_moe : list (expert_weights Qc) :=
  [mk_expert [[qz 1]; [qz 2]] [[qz 1]; [qz 1]] [[qz 1; qz 1]]; mk_expert [[qz 1]; [qz 1]] [[qz 2]; [qz 1]] [[qz 1; qz 3]]].
Definition mixed_gate : list (list Qc) := [[qz 1]; [qz (-1)]].

(** The block of rank [w] with its shard of the experts. *)
Definition mixed_block (m : Mesh) (w : nat) : SparseBlock Qc :=
  let ep := mesh_ffn_ep m in
  let tp := mesh_ffn_tp m in
  let c := w mod tp in
  let r := (w / tp) mod ep in
  let n := 2 / ep in
  let s := 2 / tp in
  mk_sparse (Mat mixed_gate) (mk_experts 1 2 2 1 ep tp r c n s
    ((fun e => lslice (c * s) s (w_gate e) ++ lslice (c * s) s (w_up e)) <$> lslice (r * n) n mixed_moe)
    ((fun e => lslice (c * s) s <$> w_down e) <$> lslice (r * n) n mixed_moe) None).

Definition mixed_run (m : Mesh) (hs : list (list (list Qc))) : result (list (list (list QArith_base.Q))) :=
  (fun r : ffn_layer Qc * list (list (list Qc)) => (fun h : list (list Qc) => (fun row : list Qc => Qcanon.this <$> row) <$> h) <$> r.2)
  <$> ffn_stage (fun a => a) lane_topk m demo_env (SparseLayer (mixed_block m <$> seq 0 (mesh_ranks m))) hs.

Definition qrows (l : list Z) : list (list QArith_base.Q) := (fun z => [QArith_base.Qmake z 1]) <$> l.

Definition mixed_tokens : list (list Qc) := (fun z => [qz z]) <$> [1; -2; 3; 5]%Z.

(** The conditions of [mesh_ok] are needed: the check of the parallel layout accepts others, and
    there the model computes other values without an error.  With attention over four
    tensor-parallel ranks and two expert-parallel groups of two tensor-parallel ranks, the ranks
    of such a group get different tokens and add up their partial results; with two attention
    groups and one feed-forward group of two tensor-parallel ranks the tokens of different
    batches are added up.  On a mesh that is [mesh_ok] the same experts give the values of one
    device. *)
Theorem mixed_meshes_mix_tokens :
  let one := mk_mesh 1 1 1 1 1 in
  let scattered := mk_mesh 1 4 1 2 2 in
  let batches := mk_mesh 2 1 1 1 2 in
  let good := mk_mesh 1 2 1 2 1 in
  Dist.validate_parallelism (Dist.mk_ctx 0 4 1 4 1 1 2 2 1) = Ok tt /\ Dist.validate_parallelism (Dist.mk_ctx 0 2 2 1 1 1 1 2 1) = Ok tt /\
  (forall w, w < 4 -> sparse_loaded scattered mixed_moe mixed_gate 1 1 1 1 w (mixed_block scattered w)) /\
  (forall w, w < 2 -> sparse_loaded batches mixed_moe mixed_gate 1 1 2 1 w (mixed_block batches w)) /\
  mixed_run one [mixed_tokens] = Ok [qrows [3; 20; 27; 75]%Z] /\
  mixed_run good (replicate 2 mixed_tokens) = Ok (replicate 2 (qrows [3; 20; 27; 75]%Z)) /\
  mixed_run scattered (replicate 4 mixed_tokens) = Ok (replicate 4 (qrows [13; 13; 59; 59]%Z)) /\
  mixed_run batches [take 2 mixed_tokens; drop 2 mixed_tokens] = Ok (replicate 2 (qrows [19; 58]%Z)).
Proof.
  cbn zeta. split; [reflexivity|]. split; [reflexivity|]. split; [|split].
  - intros w Hw. do 4 (destruct w as [|w]; [by repeat split|]). lia.
  - intros w Hw. do 2 (destruct w as [|w]; [by repeat split|]). lia.
  - split_and!; vm_compute; reflexivity.
Qed.
End mixed.
