(* ===== verification/Placement.v ===== *)
(** Where the workers of an engine run: [RayExecutor] of [dlengine/executor/ray_executor.py] and
    the node selection of [dlengine/executor/ray_utils.py].

    The executor packs the ranks into one placement group per node, hints the node of every
    group when a master address is configured, and starts the collective initialisation of the
    process group.  The tables of Ray ([ray.nodes()], [placement_group_table()]) are arguments;
    a placement group becomes ready, since [ray.get(pg.ready())] waits for it.  Addresses are
    ASCII.  [urlparse] checks the contents of a bracketed host with the [ipaddress] module,
    which is the argument [bracketed_host_ok]. *)

From S2P Require Import Prelude PyStr.

Open Scope Z_scope.

(** * Addresses *)

(** [s.partition(c)\[0\]] and [s.partition(c)\[2\]] for a one-character separator. *)
Fixpoint before_char (c : ascii) (s : pystr) : pystr :=
  match s with [] => [] | x :: s => if decide (x = c) then [] else x :: before_char c s end.
Fixpoint after_char (c : ascii) (s : pystr) : pystr :=
  match s with [] => [] | x :: s => if decide (x = c) then s else after_char c s end.

(** [s.rpartition(c)\[2\]] *)
Definition after_last (c : ascii) (s : pystr) : pystr := reverse (before_char c (reverse s)).

(** The leading characters that satisfy [p]. *)
Fixpoint leading (p : ascii -> bool) (s : pystr) : pystr :=
  match s with [] => [] | x :: s => if p x then x :: leading p s else [] end.
Fixpoint strip_while (p : ascii -> bool) (s : pystr) : pystr :=
  match s with [] => [] | x :: s' => if p x then strip_while p s' else s end.

Definition is_upper (c : ascii) : bool := ((65 <=? code c) && (code c <=? 90))%nat.
Definition is_lower (c : ascii) : bool := ((97 <=? code c) && (code c <=? 122))%nat.
Definition is_alpha (c : ascii) : bool := is_upper c || is_lower c.

(** [str.lower] on ASCII *)
Definition ascii_lower (s : pystr) : pystr := (fun c => if is_upper c then ascii_of_nat (code c + 32) else c) <$> s.

Definition scheme_char (c : ascii) : bool := is_alpha c || is_digit c || bool_decide (c ∈ lit "+-.").

(** The URL without its scheme, if the text before its first colon is one. *)
Definition strip_scheme (url : pystr) : pystr :=
  match url with
  | x :: _ =>
      if bool_decide (":"%char ∈ url) && is_alpha x && forallb scheme_char (before_char ":" url) then after_char ":" url else url
  | [] => []
  end.

Section addresses.
Context (bracketed_host_ok : pystr -> bool).

(** [urlsplit(url).netloc]: control characters and spaces in front are stripped, tabs and
    line ends removed; the location runs from [//] to the first of [/?#]. *)
Definition netloc (url : pystr) : result pystr :=
  let url := strip_while (fun c => (code c <=? 32)%nat) url in
  let url := filter (fun c => code c ∉ [9; 10; 13]%nat) url in
  let url := strip_scheme url in
  let loc := if startswith url (lit "//") then leading (fun c => negb (bool_decide (c ∈ lit "/?#"))) (drop 2 url) else [] in
  let opened := bool_decide ("["%char ∈ loc) in
  let closed := bool_decide ("]"%char ∈ loc) in
  if xorb opened closed then Err ValueError
  else if opened && negb (bracketed_host_ok (before_char "]" (after_char "[" loc))) then Err ValueError
  else Ok loc.

(** [urlparse(url).hostname] *)
Definition hostname (url : pystr) : result (option pystr) :=
  loc ← netloc url;
  let hostinfo := after_last "@" loc in
  let host := if bool_decide ("["%char ∈ hostinfo) then before_char "]" (after_char "[" hostinfo) else before_char ":" hostinfo in
  Ok (if decide (host = []) then None
      else Some (ascii_lower (before_char "%" host) ++ drop (length (before_char "%" host)) host)).

Definition clean_and_parse_address (address : pystr) : result pystr :=
  let address :=
    if bool_decide (":"%char ∈ address) && negb (startswith address (lit "http://") || startswith address (lit "https://"))
    then lit "http://" ++ address else address in
  host ← hostname address;
  Ok (default address host).

(** * Nodes *)

(** Amounts of GPUs: floating-point numbers in the code. *)
Class GpuNum (G : Type) := {
  g_of_Z : Z -> G;
  g_add : G -> G -> G;
  g_sub : G -> G -> G;
  g_leb : G -> G -> bool;
  (** [int(x)] *)
  g_int : G -> Z
}.

Context {G : Type} {GN : GpuNum G}.

(** An entry of [ray.nodes()]; [None] is a missing key. *)
Record Node := mk_node {
  NodeID : pystr;
  NodeManagerAddress : option pystr;
  Alive : option bool;
  Resources : option (gmap pystr G)
}.

(** A key of a table: an integer or a string, depending on the version of Ray. *)
Inductive key := KInt (i : Z) | KStr (s : pystr).

#[local] Instance key_eq_dec : EqDecision key.
Proof. solve_decision. Defined.

(** An entry of [placement_group_table()].  A bundle may be [None]; a bundle that is not
    workers_laid_out has no node. *)
Record PgInfo := mk_pg_info {
  pg_state : option pystr;
  pg_bundles : list (key * option (gmap pystr G));
  pg_bundles_to_node_id : list (key * option pystr)
}.

(** [node.get("Alive", True)] *)
Definition alive (n : Node) : bool := default true (Alive n).
Definition resources (n : Node) : gmap pystr G := default ∅ (Resources n).
Definition gpu_amount (r : gmap pystr G) : G := default (g_of_Z 0) (r !! lit "GPU").

Definition ray_head_node_ip (all_nodes : list Node) : option pystr :=
  match list_find (fun n => alive n = true /\ is_Some (resources n !! lit "node:__internal_head__")) all_nodes with
  | Some (_, n) => NodeManagerAddress n
  | None => match list_find (fun n => alive n = true) all_nodes with Some (_, n) => NodeManagerAddress n | None => None end
  end.

(** [d.get(k)] of a table given by its items. *)
Definition table_get {V} (k : key) (d : list (key * V)) : option V := snd ∘ snd <$> list_find (fun kv => kv.1 = k) d.

Definition str_of_key (k : key) : pystr := match k with KInt i => lit (pretty i) | KStr s => s end.

(** The GPUs one bundle reserves. *)
Definition bundle_gpus (bundles : list (key * option (gmap pystr G))) (bundle_idx : key) : G :=
  let bundle := match mjoin (table_get bundle_idx bundles) with
                | Some b => Some b
                | None => mjoin (table_get (KStr (str_of_key bundle_idx)) bundles)
                end in
  gpu_amount (default ∅ bundle).

Definition add_bundle (bundles : list (key * option (gmap pystr G))) (used : gmap pystr G) (entry : key * option pystr) : gmap pystr G :=
  match entry.2 with
  | None | Some [] => used
  | Some node_id => <[node_id := g_add (default (g_of_Z 0) (used !! node_id)) (bundle_gpus bundles entry.1)]> used
  end.

Definition add_pg (used : gmap pystr G) (pg_info : PgInfo) : gmap pystr G :=
  if decide (pg_state pg_info = Some (lit "REMOVED")) then used
  else foldl (add_bundle (pg_bundles pg_info)) used (pg_bundles_to_node_id pg_info).

Definition gpus_used_by_alive_pgs (existing_pgs : list PgInfo) : gmap pystr G := foldl add_pg ∅ existing_pgs.

Definition free_gpus (used : gmap pystr G) (n : Node) : G :=
  g_sub (gpu_amount (resources n)) (default (g_of_Z 0) (used !! NodeID n)).

(** Step 1: the address the master node must have. *)
Definition resolve_master (all_nodes : list Node) (master_address : pystr) : result pystr :=
  cleaned_host ← clean_and_parse_address master_address;
  if decide (cleaned_host ∈ [lit "localhost"; lit "127.0.0.1"])
  then of_option RuntimeError (ray_head_node_ip all_nodes)
  else Ok cleaned_host.

(** Step 3 *)
Definition available (used : gmap pystr G) (required_gpus : G) (n : Node) : Prop :=
  alive n = true /\ g_leb required_gpus (free_gpus used n) = true.

#[local] Instance available_dec used required_gpus n : Decision (available used required_gpus n).
Proof. unfold available. solve_decision. Defined.

(** Step 4 *)
Definition sort_key (resolved_master_ip : pystr) (n : Node) : Z :=
  if decide (NodeManagerAddress n = Some resolved_master_ip) then 0 else 1.

Definition get_available_nodes_with_master_first (all_nodes : list Node) (existing_pgs : list PgInfo)
    (master_address : pystr) (required_gpus : G) : result (list Node) :=
  match all_nodes with
  | [] => Ok []
  | _ =>
      resolved_master_ip ← resolve_master all_nodes master_address;
      let used := gpus_used_by_alive_pgs existing_pgs in
      let available_nodes := filter (available used required_gpus) all_nodes in
      let sorted := stable_sort (fun a b => sort_key resolved_master_ip a <=? sort_key resolved_master_ip b) available_nodes in
      match sorted with
      | [] => Err AssertionError
      | n :: _ => if decide (NodeManagerAddress n = Some resolved_master_ip) then Ok sorted else Err AssertionError
      end
  end.

(** * The executor *)

(** A placement group: [bundles] bundles of one GPU each, packed on one node. *)
Record Group := mk_group {
  gr_name : Z * pystr;
  gr_bundles : Z;
  gr_soft_target_node_id : option pystr
}.

(** A worker: its rank and the index of its placement group in [placement_groups]; without
    one, the job places it. *)
Record RayWorker := mk_ray_worker { w_rank : Z; w_group : option nat }.

(** [init_dist_calls] are the ranks initialised, with the address they were given. *)
Record RayExecutor := mk_executor {
  workers : list RayWorker;
  placement_groups : list Group;
  external_pg : bool;
  config_master_address : option pystr;
  init_dist_calls : list (Z * pystr)
}.

(** What the executor reads of the configuration. *)
Record ExecConfig := mk_exec_config {
  attn_world_size : Z;
  ffn_world_size : Z;
  world_size : Z;
  master_address : option pystr;
  engine_tag : pystr
}.

(** [get_node_info] of a worker: its address and a free port. *)
Context (node_info : RayWorker -> pystr * Z).

Definition init_distributed_workers (ex : RayExecutor) (addr : option pystr) : result RayExecutor :=
  addr ← match addr with
         | Some a => Ok a
         | None => w ← ((workers ex).[0])%py; Ok ((node_info w).1 ++ lit ":" ++ lit (pretty (node_info w).2))
         end;
  Ok (mk_executor (workers ex) (placement_groups ex) (external_pg ex) (Some addr)
        (init_dist_calls ex ++ ((fun w => (w_rank w, addr)) <$> workers ex))).

Definition init_with_existing_pg (c : ExecConfig) : result RayExecutor :=
  init_distributed_workers
    (mk_executor ((fun rank => mk_ray_worker rank None) <$> py_range (world_size c)) [] true (master_address c) []) None.

(** One turn of the loop over the nodes. *)
Definition schedule_group (c : ExecConfig) (workers_per_node : Z) (node_ids : option (list pystr)) (ex : RayExecutor) (node_idx : Z)
    : result RayExecutor :=
  target ← match node_ids with Some ids => t ← (ids.[node_idx])%py; Ok (Some t) | None => Ok None end;
  let start_rank := node_idx * workers_per_node in
  let end_rank := Z.min (start_rank + workers_per_node) (world_size c) in
  let num_workers_on_node := end_rank - start_rank in
  let pg := mk_group (node_idx, engine_tag c) num_workers_on_node target in
  Ok (mk_executor
        (workers ex ++ ((fun rank => mk_ray_worker rank (Some (length (placement_groups ex)))) <$> seqZ start_rank num_workers_on_node))
        (placement_groups ex ++ [pg]) (external_pg ex) (config_master_address ex) (init_dist_calls ex)).

Definition gpu_counts (nodes : list Node) : list Z :=
  (fun n => g_int (gpu_amount (resources n))) <$> filter (fun n => alive n = true /\ 0 < g_int (gpu_amount (resources n))) nodes.

Definition num_nodes_needed (world_size workers_per_node : Z) : Z := (world_size + workers_per_node - 1) / workers_per_node.

(** [min(gpu_counts)] *)
Definition smallest_node (nodes : list Node) : result Z :=
  match gpu_counts nodes with [] => Err RuntimeError | counts => py_min counts end.

(** The nodes of a configured master. *)
Definition target_node_ids (nodes : list Node) (existing_pgs : list PgInfo) (c : ExecConfig) (workers_per_node : Z)
    : result (option (list pystr)) :=
  match master_address c with
  | None => Ok None
  | Some addr =>
      let required_on_master := Z.min (world_size c) workers_per_node in
      available_nodes ← get_available_nodes_with_master_first nodes existing_pgs addr (g_of_Z required_on_master);
      Ok (Some (NodeID <$> (available_nodes : list Node)))
  end.

Definition init_with_new_pg (nodes : list Node) (existing_pgs : list PgInfo) (c : ExecConfig) : result RayExecutor :=
  workers_per_node ← smallest_node nodes;
  node_ids ← target_node_ids nodes existing_pgs c workers_per_node;
  if decide (workers_per_node < world_size c /\ world_size c mod workers_per_node <> 0) then Err ValueError
  else
    let needed := num_nodes_needed (world_size c) workers_per_node in
    if match node_ids with Some ids => bool_decide (zlen ids < needed) | None => false end then Err ValueError
    else
      ex ← foldM_r (schedule_group c workers_per_node node_ids) (mk_executor [] [] false (master_address c) []) (py_range needed);
      init_distributed_workers ex (master_address c).

(** [RayExecutor(config)]; [nanoops_pg_id] is the environment variable of an orchestrated
    launch. *)
Definition ray_executor (nodes : list Node) (existing_pgs : list PgInfo) (nanoops_pg_id : option pystr) (c : ExecConfig) : result RayExecutor :=
  if decide (attn_world_size c = ffn_world_size c) then
    match nanoops_pg_id with
    | None | Some [] => init_with_new_pg nodes existing_pgs c
    | Some _ => init_with_existing_pg c
    end
  else Err AssertionError.

(** [update_kvcache_blocks], from the counts the workers report: the number of blocks of the
    device and of the host cache, and what every worker is told to allocate. *)
Definition update_kvcache_blocks (num_kvcache_blocks num_host_kvcache_blocks : list Z) : result (Z * Z * list Z) :=
  num_cache_blocks ← py_min num_kvcache_blocks;
  num_host_cache_blocks ← py_min num_host_kvcache_blocks;
  Ok (num_cache_blocks, num_host_cache_blocks, (fun _ => num_cache_blocks) <$> num_kvcache_blocks).

(** [__del__]: the workers killed and the placement groups removed. *)
Definition destroy (ex : RayExecutor) : list RayWorker * list Group :=
  (workers ex, if external_pg ex then [] else placement_groups ex).

End addresses.
Arguments mk_node {G} _ _ _ _.
Arguments mk_pg_info {G} _ _ _.

(** * Addresses: [host] and [host:port] *)

(** The characters of a ascii_lower-case host name or an IPv4 address. *)
Definition host_char (c : ascii) : bool := is_lower c || is_digit c || bool_decide (c ∈ lit ".-").

Lemma before_char_notin c s : c ∉ s -> before_char c s = s.
Proof. induction s as [|x s IH]; [done|]. intros H. apply not_elem_of_cons in H as [? ?]. cbn. rewrite decide_False by done. by rewrite IH. Qed.

Lemma before_char_app c s t : c ∉ s -> before_char c (s ++ c :: t) = s.
Proof.
  induction s as [|x s IH]; cbn; [by rewrite decide_True|].
  intros H. apply not_elem_of_cons in H as [? ?]. rewrite decide_False by done. by rewrite IH.
Qed.

Lemma after_last_notin c s : c ∉ s -> after_last c s = s.
Proof. intros H. unfold after_last. rewrite before_char_notin by by rewrite elem_of_reverse. apply reverse_involutive. Qed.

Lemma span_Forall p s : Forall (fun c => p c = true) s -> leading p s = s.
Proof. induction 1 as [|x s Hx _ IH]; [done|]. cbn. by rewrite Hx, IH. Qed.

Lemma host_char_code c : host_char c = true -> (32 < code c)%nat /\ is_upper c = false.
Proof.
  unfold host_char, is_lower, is_digit. rewrite !orb_true_iff, !andb_true_iff, !Nat.leb_le, bool_decide_eq_true.
  intros [[?|?]|Hc].
  1,2: split; [lia|]; apply andb_false_iff; rewrite !Nat.leb_gt; lia.
  change (c ∈ ["."%char; "-"%char]) in Hc.
  repeat (apply elem_of_cons in Hc as [->|Hc]; [split; [apply Nat.ltb_lt; reflexivity|reflexivity]|]). by apply elem_of_nil in Hc.
Qed.

Lemma lower_host s : Forall (fun c => host_char c = true) s -> ascii_lower s = s.
Proof. intros H. apply fmap_id_Forall. eapply Forall_impl; [exact H|]. intros c Hc. cbn. by destruct (host_char_code c Hc) as [_ ->]. Qed.

(** A host name has none of the characters the parser looks for. *)
Lemma host_notin c s : Forall (fun c => host_char c = true) s -> host_char c = false -> c ∉ s.
Proof. intros H Hc Hin. rewrite Forall_forall in H. specialize (H c Hin). cbn in H. congruence. Qed.

(** What may stand in [host:port]. *)
Definition host_or_port (s : pystr) : Prop := Forall (fun c => host_char c = true \/ c = ":"%char) s.

Lemma plain_notin c s : host_or_port s -> host_char c = false -> c <> ":"%char -> c ∉ s.
Proof. intros H Hc Hn Hin. unfold host_or_port in H. rewrite Forall_forall in H. destruct (H c Hin) as [E|E]; congruence. Qed.

Lemma plain_codes s : host_or_port s -> filter (fun c => code c ∉ [9; 10; 13]%nat) s = s.
Proof.
  intros H. apply filter_all. eapply Forall_impl; [exact H|]. intros c Hc Hin.
  assert (c ∈ [ascii_of_nat 9; ascii_of_nat 10; ascii_of_nat 13]) as Hc'.
  { rewrite <- (ascii_nat_embedding c). unfold code in Hin. set_solver. }
  repeat (apply elem_of_cons in Hc' as [->|Hc']; [destruct Hc as [Hc|Hc]; by vm_compute in Hc|]). by apply elem_of_nil in Hc'.
Qed.

Section cleaning.
Context (bracketed_host_ok : pystr -> bool).

(** The location of [http://host...]. *)
Lemma netloc_plain s : host_or_port s -> netloc bracketed_host_ok (lit "http://" ++ s) = Ok s.
Proof.
  intros Hs. unfold netloc. change (strip_while _ (lit "http://" ++ s)) with (lit "http://" ++ s).
  rewrite filter_app, (plain_codes s Hs). change (filter _ (lit "http://")) with (lit "http://").
  assert (strip_scheme (lit "http://" ++ s) = lit "//" ++ s) as ->.
  { cbn [lit String.list_ascii_of_string app strip_scheme]. rewrite bool_decide_true by set_solver. reflexivity. }
  assert (startswith (lit "//" ++ s) (lit "//") = true) as -> by (apply bool_decide_true; by exists s). change (drop 2 (lit "//" ++ s)) with s.
  rewrite span_Forall.
  2:{ apply Forall_forall. intros c Hc. rewrite bool_decide_false; [done|]. intros Hin.
      change (c ∈ ["/"%char; "?"%char; "#"%char]) in Hin.
      repeat (apply elem_of_cons in Hin as [->|Hin]; [revert Hc; by apply plain_notin|]). by apply elem_of_nil in Hin. }
  rewrite !bool_decide_false by by apply plain_notin. done.
Qed.

Lemma hostname_plain host rest :
  host <> [] -> Forall (fun c => host_char c = true) host -> host_or_port rest -> rest = [] \/ (exists port, rest = ":"%char :: port) ->
  hostname bracketed_host_ok (lit "http://" ++ host ++ rest) = Ok (Some host).
Proof.
  intros Hne Hh Hr Hcase. unfold hostname.
  assert (host_or_port (host ++ rest)) as Hp by (apply Forall_app; split; [eapply Forall_impl; [exact Hh|intros c; by left]|done]).
  rewrite netloc_plain by done. cbn [mbind result_bind]. rewrite after_last_notin by by apply plain_notin.
  rewrite bool_decide_false by by apply plain_notin.
  assert (before_char ":" (host ++ rest) = host) as ->.
  { destruct Hcase as [->|[port ->]]; [rewrite app_nil_r; apply before_char_notin|apply before_char_app]; by apply (host_notin _ host). }
  rewrite decide_False by done. rewrite (before_char_notin "%") by by apply (host_notin _ host).
  by rewrite lower_host, drop_all, app_nil_r.
Qed.

(** A host name or IPv4 address is returned as it is, and of [host:port] the host. *)
Theorem address_of_host host port :
  host <> [] -> Forall (fun c => host_char c = true) host -> Forall (fun c => is_digit c = true) port ->
  clean_and_parse_address bracketed_host_ok host = Ok host /\
  clean_and_parse_address bracketed_host_ok (host ++ lit ":" ++ port) = Ok host.
Proof.
  intros Hne Hh Hp. split.
  - unfold clean_and_parse_address. rewrite bool_decide_false by by apply (host_notin _ host). cbn [andb].
    assert (hostname bracketed_host_ok host = Ok None) as ->; [|done].
    unfold hostname. assert (netloc bracketed_host_ok host = Ok []) as ->; [|done].
    unfold netloc. assert (host_or_port host) as Hpl by (eapply Forall_impl; [exact Hh|intros c; by left]).
    assert (strip_while (fun c => (code c <=? 32)%nat) host = host) as ->.
    { destruct host as [|c host]; [done|]. cbn [strip_while]. destruct (Nat.leb_spec (code c) 32) as [Hle|]; [|done].
      apply Forall_cons_1 in Hh as [Hc _]. apply host_char_code in Hc. lia. }
    rewrite plain_codes by done. assert (strip_scheme host = host) as ->.
    { destruct host as [|c host]; [done|]. unfold strip_scheme. rewrite (bool_decide_false (":"%char ∈ _)); [done|]. by apply (host_notin _ (c :: host)). }
    assert (startswith host (lit "//") = false) as ->; [|done].
    apply bool_decide_false. intros [t ->]. apply Forall_cons_1 in Hh as [Hc _]. by vm_compute in Hc.
  - unfold clean_and_parse_address. rewrite bool_decide_true by set_solver.
    assert (startswith (host ++ lit ":" ++ port) (lit "http://") || startswith (host ++ lit ":" ++ port) (lit "https://") = false) as ->.
    { assert ("/"%char ∉ host ++ lit ":" ++ port) as Hn.
      { rewrite !not_elem_of_app. split_and!; [by apply (host_notin _ host)|by intros ?%list_elem_of_singleton|].
        intros Hin. rewrite Forall_forall in Hp. by specialize (Hp _ Hin). }
      apply orb_false_iff. split; apply bool_decide_false; intros [t E]; apply Hn; rewrite E; set_solver. }
    cbn [negb andb]. rewrite hostname_plain; [done|done|done| |right; by exists port].
    apply Forall_app. split; [by repeat constructor; right|]. eapply Forall_impl; [exact Hp|].
    intros c Hc. left. unfold host_char. cbn in Hc. by rewrite Hc, orb_true_r.
Qed.
End cleaning.

(** * Placement *)

Section placement.
Context (bracketed_host_ok : pystr -> bool) {G : Type} {GN : GpuNum G} (node_info : RayWorker -> pystr * Z).
Implicit Types (nodes : list (Node (G := G))) (pgs : list (PgInfo (G := G))) (c : ExecConfig).

(** The number of ranks of group [i]. *)
Definition group_size c (workers_per_node : Z) (i : nat) : Z :=
  Z.min (Z.of_nat i * workers_per_node + workers_per_node) (world_size c) - Z.of_nat i * workers_per_node.

Definition group_workers c (workers_per_node : Z) (i : nat) : list RayWorker :=
  (fun rank => mk_ray_worker rank (Some i)) <$> seqZ (Z.of_nat i * workers_per_node) (group_size c workers_per_node i).

(** The loop over the groups, when every group has its target. *)
Lemma scheduled c wpn node_ids (t : nat -> option pystr) n ex :
  (forall i, (i < n)%nat ->
     match node_ids with Some ids => a ← (ids.[Z.of_nat i])%py; Ok (Some a) | None => Ok None end = Ok (t i)) ->
  workers ex = [] -> placement_groups ex = [] ->
  foldM_r (schedule_group c wpn node_ids) ex (py_range (Z.of_nat n)) =
    Ok (mk_executor (concat (group_workers c wpn <$> seq 0 n))
          ((fun i => mk_group (Z.of_nat i, engine_tag c) (group_size c wpn i) (t i)) <$> seq 0 n)
          (external_pg ex) (config_master_address ex) (init_dist_calls ex)).
Proof.
  intros Ht Hw Hg. induction n as [|n IH]; [destruct ex; cbn in *; by subst|].
  unfold py_range in *. rewrite Nat2Z.inj_succ, <- Z.add_1_r, seqZ_app, Z.add_0_l, foldM_r_app by lia.
  rewrite IH by (intros i Hi; apply Ht; lia). cbn [mbind result_bind]. change (seqZ (Z.of_nat n) 1) with [Z.of_nat n].
  cbn [foldM_r]. unfold schedule_group. rewrite (Ht n) by lia. cbn [mbind result_bind workers placement_groups external_pg config_master_address init_dist_calls].
  rewrite length_fmap, length_seq, seq_S, !fmap_app, concat_app. cbn [fmap list_fmap concat]. rewrite app_nil_r. reflexivity.
Qed.

(** [n] full groups hold the ranks below [n * wpn] in order. *)
Lemma packed_groups wpn n :
  0 < wpn ->
  concat ((fun i => (fun rank => mk_ray_worker rank (Some i)) <$> seqZ (Z.of_nat i * wpn) wpn) <$> seq 0 n) =
  (fun r => mk_ray_worker r (Some (Z.to_nat (r / wpn)))) <$> seqZ 0 (Z.of_nat n * wpn).
Proof.
  intros Hw. induction n as [|n IH]; [done|]. rewrite seq_S, fmap_app, concat_app, IH. cbn [fmap list_fmap concat]. rewrite app_nil_r.
  rewrite Nat2Z.inj_succ. replace (Z.succ (Z.of_nat n) * wpn) with (Z.of_nat n * wpn + wpn) by lia.
  rewrite seqZ_app, fmap_app by nia. f_equal. rewrite Z.add_0_l. apply list_fmap_ext. intros i r Hr.
  apply lookup_seqZ in Hr as [-> Hi]. rewrite Z.div_add_l, Z.div_small by lia. f_equal. f_equal. lia.
Qed.

(** The sizes the check on the world size allows. *)
Lemma group_layout c wpn :
  0 < wpn -> 0 < world_size c -> ~ (wpn < world_size c /\ world_size c mod wpn <> 0) ->
  let n := Z.to_nat (num_nodes_needed (world_size c) wpn) in
  (forall i, (i < n)%nat -> group_size c wpn i = Z.min (world_size c) wpn) /\
  concat (group_workers c wpn <$> seq 0 n) = (fun r => mk_ray_worker r (Some (Z.to_nat (r / wpn)))) <$> py_range (world_size c) /\
  Z.of_nat n * Z.min (world_size c) wpn = world_size c /\ num_nodes_needed (world_size c) wpn = Z.of_nat n.
Proof.
  intros Hw Hs Hm. cbn zeta. unfold num_nodes_needed, group_workers, group_size, py_range. set (ws := world_size c) in *. clearbody ws.
  destruct (Z.le_gt_cases ws wpn) as [Hle|Hgt].
  - assert ((ws + wpn - 1) / wpn = 1) as -> by (symmetry; apply Z.div_unique with (ws - 1); lia).
    change (Z.to_nat 1) with 1%nat. split_and!; [intros i Hi; assert (i = 0)%nat as -> by lia; lia| |lia|done].
    cbn [seq fmap list_fmap concat]. rewrite app_nil_r. replace (Z.min (Z.of_nat 0 * wpn + wpn) ws - Z.of_nat 0 * wpn) with ws by lia.
    change (Z.of_nat 0 * wpn) with 0. apply list_fmap_ext. intros i r Hr. apply lookup_seqZ in Hr as [-> Hi].
    by destruct (decide (ws = wpn)); rewrite Z.div_small by lia.
  - assert (ws mod wpn = 0) as Hd by (destruct (decide (ws mod wpn = 0)); [done|exfalso; apply Hm; split; [lia|done]]).
    apply Z.div_exact in Hd; [|lia]. set (k := ws / wpn) in *. assert (0 <= k) by (apply Z.div_pos; lia).
    assert ((ws + wpn - 1) / wpn = k) as -> by (symmetry; apply Z.div_unique with (wpn - 1); lia).
    rewrite Z2Nat.id by lia. assert (forall i, (i < Z.to_nat k)%nat -> Z.min (Z.of_nat i * wpn + wpn) ws - Z.of_nat i * wpn = wpn) as Hsz.
    { intros i Hi. assert (Z.of_nat i + 1 <= k) by lia. nia. }
    split_and!; [intros i Hi; rewrite Hsz by done; lia| |nia|done].
    rewrite <- (Z2Nat.id k), (Z.mul_comm wpn) in Hd by lia. rewrite Hd, <- packed_groups by done. f_equal.
    apply list_fmap_ext. intros i j Hj. apply lookup_seq in Hj as [-> Hj]. rewrite <- Hd. by rewrite Hsz by lia.
Qed.

(** A group of the smallest node's size fits every GPU node. *)
Lemma smallest_node_spec nodes wpn :
  smallest_node nodes = Ok wpn ->
  0 < wpn /\ Forall (fun n => alive n = true -> 0 < g_int (gpu_amount (resources n)) -> wpn <= g_int (gpu_amount (resources n))) nodes.
Proof.
  unfold smallest_node. intros E. assert (py_min (gpu_counts nodes) = Ok wpn) as [Hin Hf]%py_min_spec by (by destruct (gpu_counts nodes)).
  unfold gpu_counts in *. split.
  - apply list_elem_of_fmap in Hin as (n & -> & Hn). by apply list_elem_of_filter in Hn as [[_ ?] _].
  - apply Forall_forall. intros n Hn Ha Hg. rewrite Forall_fmap, Forall_forall in Hf. apply Hf. by apply list_elem_of_filter.
Qed.

(** The nodes offered: distinct, with room, the master first. *)
Lemma available_nodes_spec nodes pgs addr required_gpus sorted :
  NoDup (NodeID <$> nodes) -> nodes <> [] ->
  get_available_nodes_with_master_first bracketed_host_ok nodes pgs addr required_gpus = Ok sorted ->
  NoDup (NodeID <$> sorted) /\ Forall (fun n => n ∈ nodes /\ available (gpus_used_by_alive_pgs pgs) required_gpus n) sorted /\
  exists ip n rest, resolve_master bracketed_host_ok nodes addr = Ok ip /\ sorted = n :: rest /\ NodeManagerAddress n = Some ip.
Proof.
  intros Hnd Hne. unfold get_available_nodes_with_master_first. destruct nodes as [|n0 nodes0] eqn:En; [done|]. rewrite <- En in *.
  destruct (resolve_master _ nodes addr) as [ip|] eqn:Er; [|done]. cbn [mbind result_bind].
  set (le := fun a b => _). set (l := filter _ nodes). pose proof (stable_sort_perm le l) as Hp.
  destruct (stable_sort le l) as [|n rest]; [done|]. case_decide as Hip; [|done]. intros [= <-]. split_and!.
  - rewrite Hp. unfold l. eapply sublist_NoDup; [exact Hnd|]. apply fmap_sublist, sublist_filter.
  - apply Forall_forall. intros m Hm. rewrite Hp in Hm. by apply list_elem_of_filter in Hm as [? ?].
  - by exists ip, n, rest.
Qed.

(** [g] GPUs among resources, none when they list no GPU. *)
Definition gpus_listed (r : gmap pystr G) (g : G) : Prop := r !! lit "GPU" = Some g \/ (r !! lit "GPU" = None /\ g = g_of_Z 0).

(** The GPUs of the bundle of an index: of the bundle filed under the index itself, else under its decimal text, else none. *)
Inductive reserved (bundles : list (key * option (gmap pystr G))) (k : key) : G -> Prop :=
  | reserved_by_index r g : (k, Some r) ∈ bundles -> gpus_listed r g -> reserved bundles k g
  | reserved_by_text r g :
      (forall r', (k, Some r') ∉ bundles) -> (match k with KInt i => KStr (lit (pretty i)) | KStr t => KStr t end, Some r) ∈ bundles -> gpus_listed r g ->
      reserved bundles k g
  | not_reserved :
      (forall r', (k, Some r') ∉ bundles) -> (forall r', (match k with KInt i => KStr (lit (pretty i)) | KStr t => KStr t end, Some r') ∉ bundles) ->
      reserved bundles k (g_of_Z 0).

(** The bundles of the groups that are not removed that lie on a node, and the GPUs they reserve there. *)
Definition bundles_on pgs (node_id : pystr) : list (list (key * option (gmap pystr G)) * key) :=
  pg ← pgs;
  if decide (pg_state pg = Some (lit "REMOVED")) then []
  else e ← pg_bundles_to_node_id pg; if decide (e.2 = Some node_id /\ node_id <> []) then [(pg_bundles pg, e.1)] else [].

Definition reservations pgs (node_id : pystr) (gs : list G) : Prop := Forall2 (fun b g => reserved b.1 b.2 g) (bundles_on pgs node_id) gs.

Lemma table_get_unique {V} (k : key) (v : V) d : NoDup d.*1 -> table_get k d = Some v <-> (k, v) ∈ d.
Proof.
  intros Hnd. unfold table_get. split.
  - intros ([i [k' v']] & Hf & Hv)%fmap_Some. assert (v' = v) as -> by (symmetry; exact Hv). apply list_find_Some in Hf as (Hi & Hk & _). cbn in Hk. subst k'. by eapply list_elem_of_lookup_2.
  - intros Hin. destruct (list_find _ d) as [[i [k' v']]|] eqn:Hf; [|apply list_find_None in Hf; rewrite Forall_forall in Hf; by destruct (Hf _ Hin)]. cbn.
    apply list_find_Some in Hf as (Hi & Hk & _). cbn in Hk. subst k'. apply list_elem_of_lookup_1 in Hin as [j Hj]. f_equal.
    assert (i = j) as -> by (eapply NoDup_lookup; [exact Hnd|rewrite list_lookup_fmap, Hi; done|rewrite list_lookup_fmap, Hj; done]). congruence.
Qed.

Lemma gpu_amount_listed (r : gmap pystr G) : gpus_listed r (gpu_amount r).
Proof. unfold gpus_listed, gpu_amount. destruct (r !! lit "GPU"); [by left|by right]. Qed.

Lemma found_bundle (bundles : list (key * option (gmap pystr G))) k :
  NoDup bundles.*1 -> match mjoin (table_get k bundles) with Some r => (k, Some r) ∈ bundles | None => forall r, (k, Some r) ∉ bundles end.
Proof.
  intros Hnd. destruct (table_get k bundles) as [[r|]|] eqn:E; cbn.
  - by apply table_get_unique.
  - intros r Hr. apply table_get_unique in Hr; [|done]. congruence.
  - intros r Hr. apply table_get_unique in Hr; [|done]. congruence.
Qed.

Lemma bundle_gpus_reserved (bundles : list (key * option (gmap pystr G))) k : NoDup bundles.*1 -> reserved bundles k (bundle_gpus bundles k).
Proof.
  intros Hnd. unfold bundle_gpus. pose proof (found_bundle bundles k Hnd) as Hk. destruct (mjoin (table_get k bundles)) as [r|]; [by apply (reserved_by_index _ _ r), gpu_amount_listed|].
  pose proof (found_bundle bundles (KStr (str_of_key k)) Hnd) as Hs. destruct (mjoin (table_get (KStr (str_of_key k)) bundles)) as [r|].
  - apply (reserved_by_text _ _ r); [done|by destruct k|apply gpu_amount_listed].
  - apply not_reserved; [done|by destruct k].
Qed.

Lemma used_bundles bundles entries used node_id :
  default (g_of_Z 0) (foldl (add_bundle bundles) used entries !! node_id) =
  foldl g_add (default (g_of_Z 0) (used !! node_id))
    (e ← entries; if decide (e.2 = Some node_id /\ node_id <> []) then [bundle_gpus bundles e.1] else []).
Proof.
  revert used. induction entries as [|[k n] entries IH]; intros used; [done|]. cbn [foldl]. rewrite IH. csimpl. rewrite foldl_app. f_equal.
  unfold add_bundle. cbn [fst snd]. destruct n as [[|c n]|]; [rewrite decide_False by naive_solver; done| |by rewrite decide_False by naive_solver].
  destruct (decide (c :: n = node_id)) as [<-|Hne].
  - rewrite decide_True by done. by rewrite lookup_insert_eq.
  - rewrite decide_False by naive_solver. by rewrite lookup_insert_ne.
Qed.

(** The tables of Ray are dicts: their keys are distinct. *)
Definition keys_distinct pgs : Prop := Forall (fun pg => NoDup (pg_bundles pg).*1) pgs.

Lemma bundles_reserved pg node_id :
  NoDup (pg_bundles pg).*1 ->
  Forall2 (fun b g => reserved b.1 b.2 g)
    (if decide (pg_state pg = Some (lit "REMOVED")) then []
     else e ← pg_bundles_to_node_id pg; if decide (e.2 = Some node_id /\ node_id <> []) then [(pg_bundles pg, e.1)] else [])
    (if decide (pg_state pg = Some (lit "REMOVED")) then []
     else e ← pg_bundles_to_node_id pg; if decide (e.2 = Some node_id /\ node_id <> []) then [bundle_gpus (pg_bundles pg) e.1] else []).
Proof.
  intros Hnd. case_decide; [constructor|]. induction (pg_bundles_to_node_id pg) as [|e es IH]; [constructor|]. csimpl. apply Forall2_app; [|exact IH].
  case_decide; [|constructor]. constructor; [by apply bundle_gpus_reserved|constructor].
Qed.

(** What the table of used GPUs holds for a node: the sum of its reservations. *)
Lemma used_gpus pgs node_id :
  keys_distinct pgs -> exists gs, reservations pgs node_id gs /\ default (g_of_Z 0) (gpus_used_by_alive_pgs pgs !! node_id) = foldl g_add (g_of_Z 0) gs.
Proof.
  intros Hk. unfold gpus_used_by_alive_pgs. change (g_of_Z 0) with (default (g_of_Z 0) ((∅ : gmap pystr G) !! node_id)) at 2.
  generalize (∅ : gmap pystr G). induction Hk as [|pg pgs Hnd _ IH]; intros used; [exists []; split; [constructor|done]|]. cbn [foldl].
  destruct (IH (add_pg used pg)) as (gs & Hgs & Hsum). eexists (_ ++ gs). split; [apply Forall2_app; [by apply bundles_reserved|exact Hgs]|].
  rewrite Hsum, foldl_app. f_equal. unfold add_pg. case_decide; [done|apply used_bundles].
Qed.

(** What is known of the nodes a configured master gives. *)
Definition well_targeted nodes pgs (required : Z) (addr : pystr) (ids : list pystr) : Prop :=
  NoDup ids /\
  Forall (fun id => exists n, n ∈ nodes /\ NodeID n = id /\ alive n = true /\
                    exists total gs, gpus_listed (resources n) total /\ reservations pgs id gs /\
                    g_leb (g_of_Z required) (g_sub total (foldl g_add (g_of_Z 0) gs)) = true) ids /\
  exists ip n, resolve_master bracketed_host_ok nodes addr = Ok ip /\ n ∈ nodes /\ head ids = Some (NodeID n) /\ NodeManagerAddress n = Some ip.

Lemma targeted nodes pgs c wpn ids addr :
  NoDup (NodeID <$> nodes) -> keys_distinct pgs -> nodes <> [] -> master_address c = Some addr ->
  target_node_ids bracketed_host_ok nodes pgs c wpn = Ok (Some ids) -> well_targeted nodes pgs (Z.min (world_size c) wpn) addr ids.
Proof.
  intros Hnd Hk Hne Ha. unfold target_node_ids. rewrite Ha. destruct (get_available_nodes_with_master_first _ _ _ _ _) as [sorted|] eqn:E; [|done].
  intros [= <-]. destruct (available_nodes_spec _ _ _ _ _ Hnd Hne E) as (H1 & H2 & ip & n & rest & Hr & -> & Hn). split_and!; [done| |].
  - apply Forall_fmap. eapply Forall_impl; [exact H2|]. intros m [? [? Hfree]]. exists m. split_and!; [done..|].
    unfold free_gpus in Hfree. destruct (used_gpus pgs (NodeID m) Hk) as (gs & Hgs & Hsum). rewrite Hsum in Hfree. exists (gpu_amount (resources m)), gs. split; [apply gpu_amount_listed|done].
  - exists ip, n. split_and!; [done| |done|done]. apply Forall_cons_1 in H2 as [[? _] _]. done.
Qed.

Lemma well_targeted_take nodes pgs required addr ids n :
  (0 < n)%nat -> well_targeted nodes pgs required addr ids -> well_targeted nodes pgs required addr (take n ids).
Proof.
  intros Hn (H1 & H2 & ip & m & Hr & Hm & Hh & Ha). split_and!.
  - eapply sublist_NoDup; [exact H1|]. apply sublist_take.
  - by apply Forall_take.
  - exists ip, m. destruct n as [|n]; [lia|]. by destruct ids.
Qed.

(** Every rank has a worker; ranks fill the groups in order, [min(world_size, workers_per_node)]
    to a group, one GPU bundle each. *)
Record workers_laid_out (c : ExecConfig) (wpn : Z) (ex : RayExecutor) : Prop := {
  pl_workers : workers ex = (fun r => mk_ray_worker r (Some (Z.to_nat (r / wpn)))) <$> py_range (world_size c);
  pl_sizes : Forall (fun g => gr_bundles g = Z.min (world_size c) wpn) (placement_groups ex);
  pl_total : zlen (placement_groups ex) * Z.min (world_size c) wpn = world_size c;
  pl_names : NoDup (gr_name <$> placement_groups ex)
}.

(** The loop, on every input that passes the checks. *)
Lemma groups_scheduled c wpn node_ids ex0 :
  0 < wpn -> 0 < world_size c -> ~ (wpn < world_size c /\ world_size c mod wpn <> 0) ->
  match node_ids with Some ids => num_nodes_needed (world_size c) wpn <= zlen ids | None => True end ->
  workers ex0 = [] -> placement_groups ex0 = [] ->
  exists ex, foldM_r (schedule_group c wpn node_ids) ex0 (py_range (num_nodes_needed (world_size c) wpn)) = Ok ex /\
    workers_laid_out c wpn ex /\ external_pg ex = external_pg ex0 /\ init_dist_calls ex = init_dist_calls ex0 /\
    gr_soft_target_node_id <$> placement_groups ex =
      match node_ids with Some ids => Some <$> take (length (placement_groups ex)) ids | None => replicate (length (placement_groups ex)) None end.
Proof.
  intros Hw Hs Hm Hids H0w H0g. destruct (group_layout c wpn Hw Hs Hm) as (Hsz & Hcat & Htot & Hn).
  set (n := Z.to_nat _) in *. rewrite Hn in *.
  set (t := fun i : nat => match node_ids with Some ids => ids !! i | None => None end).
  eexists. split; [apply (scheduled c wpn node_ids t); [|done..]|].
  { intros i Hi. unfold t. destruct node_ids as [ids|]; [|done]. rewrite py_getitem_nat.
    destruct (lookup_lt_is_Some_2 ids i) as [a ->]; [unfold zlen in Hids; lia|]. done. }
  cbn. rewrite length_fmap, length_seq. split_and!; [|done|done|].
  - split; cbn.
    + exact Hcat.
    + apply Forall_fmap, Forall_forall. intros i Hi%elem_of_seq. apply Hsz. lia.
    + unfold zlen. rewrite length_fmap, length_seq. exact Htot.
    + rewrite <- list_fmap_compose. apply NoDup_fmap_2; [|apply NoDup_seq]. intros i j Hij. cbn in Hij. injection Hij as Hij. lia.
  - rewrite <- list_fmap_compose. unfold t. destruct node_ids as [ids|].
    + apply list_eq. intros i. rewrite !list_lookup_fmap. destruct (decide (i < n)%nat) as [Hi|Hi].
      * rewrite lookup_seq_lt, lookup_take_lt by lia. cbn. destruct (lookup_lt_is_Some_2 ids i) as [a ->]; [unfold zlen in Hids; lia|done].
      * rewrite lookup_seq_ge, lookup_take_ge by lia. done.
    + clear. generalize 0%nat. induction n as [|n IH]; intros k; [done|]. cbn. f_equal. apply IH.
Qed.

(** The address the collective initialisation uses. *)
Definition rendezvous c (ex : RayExecutor) : option pystr :=
  match master_address c with
  | Some addr => Some addr
  | None => (fun w => (node_info w).1 ++ lit ":" ++ lit (pretty (node_info w).2)) <$> head (workers ex)
  end.

Lemma distributed ex c ex' :
  init_dist_calls ex = [] -> init_distributed_workers node_info ex (master_address c) = Ok ex' ->
  workers ex' = workers ex /\ placement_groups ex' = placement_groups ex /\ external_pg ex' = external_pg ex /\
  exists addr, rendezvous c ex = Some addr /\ config_master_address ex' = Some addr /\
    init_dist_calls ex' = (fun w => (w_rank w, addr)) <$> workers ex.
Proof.
  intros Hi. unfold init_distributed_workers, rendezvous. rewrite Hi. destruct (master_address c) as [a|]; cbn [mbind result_bind app].
  - intros [= <-]. cbn. split_and!; [done..|]. by exists a.
  - change (0 : Z) with (Z.of_nat 0). rewrite py_getitem_nat. destruct (workers ex) as [|w ws]; [done|]. cbn. intros [= <-]. split_and!; [done..|]. by eexists.
Qed.

(** C22. When the executor is launched without NANOOPS_PLACEMENT_GROUP_ID, so that it creates its own
    placement groups, and starts on nodes with distinct identifiers, the workers are those of
    the ranks in order, each in the group of its node and with a GPU bundle of its own; all
    groups have the same size, no more than the GPUs of any GPU node, and distinct names; every
    rank enters the collective initialisation with the same address: the configured master, or
    the address of rank 0.  With a configured master every group is aimed at a node of its own
    that is alive and has the GPUs of the group left when the GPUs of all bundles which groups not removed
    have on that node are subtracted, the first at the node of the master.  Destroying the executor kills all workers and removes all the
    groups. *)
Theorem workers_placed nodes pgs c ex :
  0 < world_size c -> NoDup (NodeID <$> nodes) -> keys_distinct pgs -> ray_executor bracketed_host_ok node_info nodes pgs None c = Ok ex ->
  exists wpn,
    Forall (fun n => alive n = true -> 0 < g_int (gpu_amount (resources n)) -> wpn <= g_int (gpu_amount (resources n))) nodes /\
    workers_laid_out c wpn ex /\
    (exists addr, rendezvous c ex = Some addr /\ init_dist_calls ex = (fun r => (r, addr)) <$> py_range (world_size c)) /\
    match master_address c with
    | None => Forall (fun g => gr_soft_target_node_id g = None) (placement_groups ex)
    | Some addr => exists ids, gr_soft_target_node_id <$> placement_groups ex = Some <$> ids /\
                     well_targeted nodes pgs (Z.min (world_size c) wpn) addr ids
    end /\
    destroy ex = (workers ex, placement_groups ex).
Proof.
  intros Hs Hnd Hk. unfold ray_executor. case_decide as Heq; [|done]. unfold init_with_new_pg.
  destruct (smallest_node nodes) as [wpn|] eqn:Ew; [|done]. cbn [mbind result_bind].
  destruct (smallest_node_spec nodes wpn Ew) as [Hw Hfit]. assert (nodes <> []) as Hne by (by intros ->).
  destruct (target_node_ids _ _ _ _ _) as [node_ids|] eqn:Et; [|done]. cbn [mbind result_bind].
  case_decide as Hm; [done|]. destruct (match node_ids with Some _ => _ | None => _ end) eqn:Hlen; [done|].
  destruct (groups_scheduled c wpn node_ids (mk_executor [] [] false (master_address c) []) Hw Hs Hm) as (ex1 & -> & Hp & Hext & Hcalls & Htgt); [|done..|].
  { destruct node_ids; [|done]. apply bool_decide_eq_false in Hlen. lia. }
  cbn [mbind result_bind]. intros Hd. destruct (distributed _ _ _ Hcalls Hd) as (E1 & E2 & E3 & addr & Hr & _ & Hc).
  exists wpn. split; [done|]. rewrite (pl_workers _ _ _ Hp), <- list_fmap_compose in Hc. split_and!.
  - destruct Hp as [P1 P2 P3 P4]. split; by rewrite ?E1, ?E2.
  - exists addr. unfold rendezvous in *. rewrite E1. done.
  - rewrite E2. unfold target_node_ids in Et. destruct (master_address c) as [a|] eqn:Ea.
    + destruct node_ids as [ids|]; [|by destruct (get_available_nodes_with_master_first _ _ _ _ _)].
      exists (take (length (placement_groups ex1)) ids). split; [done|]. apply well_targeted_take.
      * pose proof (pl_total _ _ _ Hp) as Ht. unfold zlen in Ht. destruct (placement_groups ex1); cbn in *; lia.
      * apply (targeted _ _ c); [done..|]. unfold target_node_ids. by rewrite Ea.
    + injection Et as <-. assert (Forall (fun t => t = None) (gr_soft_target_node_id <$> placement_groups ex1)) as Hf by (rewrite Htgt; by apply Forall_replicate).
      by rewrite Forall_fmap in Hf.
  - unfold destroy. by rewrite E3, Hext.
Qed.

(** The executor starts whenever the ranks fit one node or fill whole nodes, and a configured
    master has enough nodes. *)
Theorem placement_succeeds nodes pgs c wpn :
  attn_world_size c = ffn_world_size c -> 0 < world_size c -> smallest_node nodes = Ok wpn ->
  world_size c <= wpn \/ (wpn | world_size c) ->
  match master_address c with
  | None => True
  | Some addr => exists sorted,
      get_available_nodes_with_master_first bracketed_host_ok nodes pgs addr (g_of_Z (Z.min (world_size c) wpn)) = Ok sorted /\
      world_size c <= zlen sorted * wpn
  end ->
  exists ex, ray_executor bracketed_host_ok node_info nodes pgs None c = Ok ex.
Proof.
  intros Heq Hs Ew Hfits Hmaster. unfold ray_executor. rewrite decide_True by done. unfold init_with_new_pg. rewrite Ew. cbn [mbind result_bind].
  destruct (smallest_node_spec nodes wpn Ew) as [Hw _].
  assert (~ (wpn < world_size c /\ world_size c mod wpn <> 0)) as Hm.
  { intros [? Hmod]. destruct Hfits as [|Hd]; [lia|]. by apply Z.mod_divide in Hd; [|lia]. }
  assert (exists node_ids, target_node_ids bracketed_host_ok nodes pgs c wpn = Ok node_ids /\
            match node_ids with Some ids => num_nodes_needed (world_size c) wpn <= zlen ids | None => True end) as (node_ids & -> & Hlen).
  { unfold target_node_ids. destruct (master_address c) as [a|]; [|by exists None]. destruct Hmaster as (sorted & -> & Hz).
    eexists. split; [done|]. unfold zlen in *. rewrite length_fmap. unfold num_nodes_needed. apply Z.lt_succ_r, Z.div_lt_upper_bound; nia. }
  cbn [mbind result_bind]. rewrite decide_False by done.
  replace (match node_ids with Some _ => _ | None => _ end) with false by (destruct node_ids; [rewrite bool_decide_false by lia|]; done).
  destruct (groups_scheduled c wpn node_ids (mk_executor [] [] false (master_address c) []) Hw Hs Hm Hlen eq_refl eq_refl) as (ex1 & -> & Hp & _).
  cbn [mbind result_bind]. unfold init_distributed_workers. destruct (master_address c) as [a|]; [by eexists|].
  change (0 : Z) with (Z.of_nat 0). rewrite py_getitem_nat, (pl_workers _ _ _ Hp), list_lookup_fmap. unfold py_range. rewrite lookup_seqZ_lt by lia. by eexists.
Qed.

(** An orchestrated launch creates no group and removes none; rank 0 gives the address. *)
Theorem orchestrated_workers nodes pgs x pg_id c :
  attn_world_size c = ffn_world_size c -> 0 < world_size c ->
  exists ex, ray_executor bracketed_host_ok node_info nodes pgs (Some (x :: pg_id)) c = Ok ex /\
    w_rank <$> workers ex = py_range (world_size c) /\ destroy ex = (workers ex, []) /\
    (let '(ip, port) := node_info (mk_ray_worker 0 None) in
     init_dist_calls ex = (fun r => (r, ip ++ lit ":" ++ lit (pretty port))) <$> py_range (world_size c)).
Proof.
  intros Heq Hs. unfold ray_executor. rewrite decide_True by done. unfold init_with_existing_pg, init_distributed_workers.
  cbn [workers]. assert (((fun rank => mk_ray_worker rank None) <$> py_range (world_size c)).[0]%py = Ok (mk_ray_worker 0 None)) as ->.
  { rewrite (py_getitem_nat _ 0), list_lookup_fmap. unfold py_range. by rewrite lookup_seqZ_lt by lia. }
  cbn -[py_range pretty]. eexists. split; [done|]. cbn -[py_range pretty]. split_and!.
  - rewrite <- list_fmap_compose. by apply fmap_id_Forall, Forall_true.
  - done.
  - destruct (node_info _) as [ip port]. cbn -[py_range pretty]. by rewrite <- list_fmap_compose.
Qed.
(** Every worker allocates the same number of blocks, which all of them have room for. *)
Theorem cache_blocks_fit blocks hosts n host allocated :
  update_kvcache_blocks blocks hosts = Ok (n, host, allocated) ->
  Forall (Z.le n) blocks /\ n ∈ blocks /\ Forall (Z.le host) hosts /\ allocated = replicate (length blocks) n.
Proof.
  unfold update_kvcache_blocks. destruct (py_min blocks) as [n'|] eqn:En; [|done]. destruct (py_min hosts) as [h'|] eqn:Eh; [|done].
  cbn [mbind result_bind]. intros [= -> -> <-]. apply py_min_spec in En as [? ?], Eh as [_ ?]. split_and!; [done..|].
  clear. induction blocks as [|b blocks IH]; [done|]. cbn. by f_equal.
Qed.
End placement.

(** * Examples *)

(** Whole GPUs. *)
#[export] Instance whole_gpus : GpuNum Z := {| g_of_Z := id; g_add := Z.add; g_sub := Z.sub; g_leb := Z.leb; g_int := id |}.

Definition gpus (n : Z) : gmap pystr Z := {[ lit "GPU" := n ]}.

(** Three nodes of four GPUs, the first the head of the cluster; another engine has reserved
    two GPUs of the third. *)
Definition demo_nodes : list (Node (G := Z)) :=
  [mk_node (lit "a") (Some (lit "10.0.0.1")) (Some true) (Some (<[lit "node:__internal_head__" := 1]> (gpus 4)));
   mk_node (lit "b") (Some (lit "10.0.0.2")) None (Some (gpus 4));
   mk_node (lit "c") (Some (lit "10.0.0.3")) (Some true) (Some (gpus 4));
   mk_node (lit "d") (Some (lit "10.0.0.4")) (Some false) (Some (gpus 2))].

Definition demo_pgs : list (PgInfo (G := Z)) :=
  [mk_pg_info (Some (lit "CREATED")) [(KStr (lit "0"), Some (gpus 1)); (KInt 1, Some (gpus 1))]
     [(KInt 0, Some (lit "c")); (KInt 1, Some (lit "c"))];
   mk_pg_info (Some (lit "REMOVED")) [(KInt 0, Some (gpus 4))] [(KInt 0, Some (lit "a"))]].

Definition executor_config (master : string) : ExecConfig := mk_exec_config 8 8 8 (Some (lit master)) (lit "engine").
Definition demo_info (w : RayWorker) : pystr * Z := (lit "10.0.0.9", 30000).

Definition demo_executor (master : string) : result RayExecutor :=
  ray_executor (fun _ => true) demo_info demo_nodes demo_pgs None (executor_config master).

Lemma workers_placed_witness : exists ex wpn, demo_executor "10.0.0.2:29500" = Ok ex /\ workers_laid_out (executor_config "10.0.0.2:29500") wpn ex.
Proof.
  destruct (demo_executor "10.0.0.2:29500") as [ex|] eqn:E; [|by vm_compute in E].
  destruct (workers_placed (fun _ => true) demo_info demo_nodes demo_pgs (executor_config "10.0.0.2:29500") ex) as (wpn & _ & Hp & _).
  - vm_compute. reflexivity.
  - apply (bool_decide_unpack _). vm_compute. exact I.
  - repeat constructor; vm_compute; intros Hin; by inversion Hin as [|? ? ? Hin']; inversion Hin'.
  - exact E.
  - exists ex, wpn. split; [reflexivity|exact Hp].
Defined.

(** With [localhost] the groups are aimed at the head node and at the node after it, but every
    rank, the ranks of the other node too, is told to meet at its own [localhost]. *)
Theorem localhost_not_resolved :
  (fun ex => (gr_soft_target_node_id <$> placement_groups ex, snd <$> init_dist_calls ex)) <$> demo_executor "localhost:29500" =
  Ok ([Some (lit "a"); Some (lit "b")], replicate 8 (lit "localhost:29500")).
Proof. vm_compute. reflexivity. Qed.

(** A bare IPv6 address is cut at its first colon. *)
Theorem ipv6_address_cut ok : clean_and_parse_address ok (lit "fe80::1") = Ok (lit "fe80").
Proof. vm_compute. reflexivity. Qed.
