(* ===== verification/RpcService.v ===== *)
(** The transport of forward passes to the workers: the service a worker serves over DLSLime
    ([dlengine/executor/dlslime_protocol.py]) and the two executors that submit batches,
    [RayExecutor] ([dlengine/executor/ray_executor.py]) and [DLSLimeExecutor]
    ([dlengine/executor/dlslime_executor.py]).

    The model runner is the interface [ModelRunner]: a forward pass is prepared, then run, as
    [run_from_bytes] of [dlengine/runtime/runner/model_runner.py] does.  The binary encoding of
    the replies is the interface [WireCodec].  A transport delivers every request to the worker
    it is addressed to, and the replies in the order of the requests.  Bytes are integers. *)

From S2P Require Import Prelude LlmEngine.

Open Scope Z_scope.

Notation bytes := (list Z) (only parsing).

(** * Handles on the wire *)

(** [n] bytes of [v], the least significant first. *)
Fixpoint le_bytes (n : nat) (v : Z) : bytes :=
  match n with O => [] | S n => v mod 256 :: le_bytes n (v / 256) end.

Definition of_le_bytes (bs : bytes) : Z := foldr (fun b v => b + 256 * v) 0 bs.

(** [struct.pack("<Q", v)] and [struct.unpack("<Q", bs)\[0\]] *)
Definition pack_Q (v : Z) : result bytes := if decide (0 <= v < 2 ^ 64) then Ok (le_bytes 8 v) else Err StructError.
Definition unpack_Q (bs : bytes) : result Z := if decide (length bs = 8%nat) then Ok (of_le_bytes bs) else Err StructError.

(** * Results *)

(** What a forward pass returns: the tokens of the sequences, alone or with the
    log-probabilities. *)
Inductive RunResult :=
  | Tokens (token_ids : list (list Z))
  | TokensAndLogprobs (token_ids : list (list Z)) (logprobs : option (list (list Z))).

Definition result_parts (r : RunResult) : list (list Z) * option (list (list Z)) :=
  match r with Tokens t => (t, None) | TokensAndLogprobs t lp => (t, lp) end.

(** [RunnerOut(token_ids, logprobs, server_handler_ns)]: tokens are signed 64-bit integers, the
    duration an unsigned one. *)
Definition new_runner_out (token_ids : list (list Z)) (logprobs : option (list (list Z))) (server_handler_ns : Z) : result RunnerOut :=
  if decide (Forall (Forall (fun t => -2 ^ 63 <= t < 2 ^ 63)) token_ids /\ 0 <= server_handler_ns < 2 ^ 64)
  then Ok (mk_out token_ids logprobs server_handler_ns) else Err OverflowError.

(** [to_bytes] and [from_bytes] of [RunnerOut], and [RunnerIn.is_prefill]. *)
Class WireCodec := {
  to_bytes : RunnerOut -> result bytes;
  from_bytes : bytes -> result RunnerOut;
  is_prefill_of : bytes -> result bool;
  codec_round_trip : forall out, exists bs, to_bytes out = Ok bs /\ from_bytes bs = Ok out
}.

(** The operations of a model runner with the state [R] that transports call. *)
Class ModelRunner (R P : Type) := {
  prepare_from_bytes : bytes -> bool -> act R P;
  run_prepared_batch : P -> act R RunResult;
  migrate_from_bytes : bytes -> act R unit
}.

Section rpc.
Context {C : WireCodec} {R P : Type} {M : ModelRunner R P}.

(** The time a handler measures, in nanoseconds. *)
Context (handler_ns : bytes -> R -> Z).

Definition run_from_bytes (data : bytes) (is_prefill : bool) : act R RunResult :=
  p ← prepare_from_bytes data is_prefill; run_prepared_batch p.

(** * The service *)

(** [RunnerIn.from_bytes(data).to_bytes()] is the data. *)
Definition encode_run_request (data : bytes) : bytes := data.

Definition decode_run_request (data : bytes) : result (bytes * bool) :=
  is_prefill ← is_prefill_of data; Ok (data, is_prefill).

Definition encode_run_result (r : RunResult) (ns : Z) : result bytes :=
  let '(token_ids, logprobs) := result_parts r in
  out ← new_runner_out token_ids logprobs ns; to_bytes out.

Record Service := mk_service {
  svc_runner : option R;
  svc_prepared : gmap Z P;
  svc_next_id : Z
}.

(** [ModelRunnerRpcService(runner)] *)
Definition new_service (runner : option R) : Service := mk_service runner ∅ 1.

(** [if self._runner is None: raise] *)
Definition attached : act Service R := fun s => (of_option RuntimeError (svc_runner s), s).

(** A call of the runner. *)
Definition on_runner {A} (m : act R A) : act Service A := fun s =>
  match svc_runner s with
  | None => (Err RuntimeError, s)
  | Some r => let '(a, r') := m r in (a, mk_service (Some r') (svc_prepared s) (svc_next_id s))
  end.

Definition run_batch (payload : bytes) : act Service bytes :=
  r ← attached;
  '(data, is_prefill) ← lift (decode_run_request payload);
  result ← on_runner (run_from_bytes data is_prefill);
  lift (encode_run_result result (handler_ns payload r)).

(** [next(self._prepare_ids)] *)
Definition next_handle : act Service Z := fun s =>
  (Ok (svc_next_id s), mk_service (svc_runner s) (svc_prepared s) (svc_next_id s + 1)).

Definition prepare_batch (payload : bytes) : act Service bytes :=
  _ ← attached;
  '(data, is_prefill) ← lift (decode_run_request payload);
  handle ← next_handle;
  prepared ← on_runner (prepare_from_bytes data is_prefill);
  _ ← modify (fun s => mk_service (svc_runner s) (<[handle := prepared]> (svc_prepared s)) (svc_next_id s));
  lift (pack_Q handle).

(** [self._prepared.pop(handle)] *)
Definition pop_prepared (handle : Z) : act Service P := fun s =>
  match svc_prepared s !! handle with
  | Some p => (Ok p, mk_service (svc_runner s) (delete handle (svc_prepared s)) (svc_next_id s))
  | None => (Err KeyError, s)
  end.

Definition run_prepared (payload : bytes) : act Service bytes :=
  r ← attached;
  _ ← raise_if (bool_decide (length payload <> 8%nat)) ValueError;
  handle ← lift (unpack_Q payload);
  prepared ← pop_prepared handle;
  result ← on_runner (run_prepared_batch prepared);
  lift (encode_run_result result (handler_ns payload r)).

Definition migrate_batch (payload : bytes) : act Service bytes :=
  _ ← attached;
  _ ← on_runner (migrate_from_bytes payload);
  mret [].

(** The requests a worker serves, in any order. *)
Inductive Request :=
  | RunBatch (payload : bytes)
  | PrepareBatch (payload : bytes)
  | RunPrepared (payload : bytes)
  | MigrateBatch (payload : bytes).

Definition serve (q : Request) : act Service bytes :=
  match q with
  | RunBatch b => run_batch b
  | PrepareBatch b => prepare_batch b
  | RunPrepared b => run_prepared b
  | MigrateBatch b => migrate_batch b
  end.

(** The service after a sequence of requests, whatever their replies. *)
Definition serve_all (qs : list Request) (s : Service) : Service := foldl (fun s q => (serve q s).2) s qs.

(** * The executors *)

(** Requests zipped with the workers; every worker serves its own. *)
Fixpoint submit_all {S A B} (f : A -> act S B) (xs : list A) (ws : list S) : list (result B) * list S :=
  match xs, ws with
  | x :: xs, w :: ws => let '(b, w') := f x w in let '(bs, ws') := submit_all f xs ws in (b :: bs, w' :: ws')
  | _, _ => ([], ws)
  end.

(** [ray.get(futures)] and [wait_all(futures)]: the first exception is raised. *)
Definition wait_futures {A} (futures : list (result A)) : result (list A) := mapM_r id futures.

(** [RayExecutor._to_runner_out] *)
Definition to_runner_out (r : RunResult) : result RunnerOut :=
  let '(token_ids, logprobs) := result_parts r in new_runner_out token_ids logprobs 0.

(** [RayExecutor.run_batch_bytes_async] and [run_wait_runner_outs] *)
Definition ray_run_batch_bytes_async (batch_bytes : list bytes) (is_prefill : bool) (workers : list R) : list (result RunResult) * list R :=
  submit_all (fun b => run_from_bytes b is_prefill) batch_bytes workers.

Definition ray_run_wait_runner_outs (futures : list (result RunResult)) : result (list RunnerOut) :=
  results ← wait_futures futures; mapM_r to_runner_out (results : list RunResult).

(** The handle of a submitted DLSLime call. *)
Record RunHandle := mk_handle { h_futures : list (result bytes); h_is_prefill : bool; h_request_bytes : Z }.

Definition total_bytes (bs : list bytes) : Z := foldr (fun b n => zlen b + n) 0 bs.

Definition dlslime_run_batch_bytes_async (batch_bytes : list bytes) (is_prefill : bool) (proxies : list Service) : RunHandle * list Service :=
  let '(futures, proxies) := submit_all (fun data => run_batch (encode_run_request data)) batch_bytes proxies in
  (mk_handle futures is_prefill (total_bytes batch_bytes), proxies).

Definition prepare_batch_bytes_async (batch_bytes : list bytes) (is_prefill : bool) (proxies : list Service) : RunHandle * list Service :=
  let '(futures, proxies) := submit_all (fun data => prepare_batch (encode_run_request data)) batch_bytes proxies in
  (mk_handle futures is_prefill (total_bytes batch_bytes), proxies).

Definition prepare_wait (handle : RunHandle) : result (list bytes) := wait_futures (h_futures handle).

Definition run_prepared_bytes_async (prepared_handles : list bytes) (is_prefill : bool) (request_bytes : Z) (proxies : list Service) : RunHandle * list Service :=
  let '(futures, proxies) := submit_all run_prepared prepared_handles proxies in
  (mk_handle futures is_prefill request_bytes, proxies).

(** [run_wait_runner_outs]: the replies, the sizes of requests and replies, and the time of the
    slowest worker in nanoseconds. *)
Record RunStats := mk_stats { last_run_request_bytes : Z; last_run_reply_bytes : Z; last_run_server_compute_ns : Z }.

Definition dlslime_run_wait_runner_outs (handle : RunHandle) : result (list RunnerOut * RunStats) :=
  replies ← wait_futures (h_futures handle);
  outs ← mapM_r from_bytes (replies : list bytes);
  Ok (outs, mk_stats (h_request_bytes handle) (total_bytes replies) (foldr Z.max 0 (server_handler_ns <$> (outs : list RunnerOut)))).

(** [run_wait]: [out.result] is a pair with or without log-probabilities. *)
Definition dlslime_run_wait (handle : RunHandle) : result (list (list (list Z) * option (list (list Z)))) :=
  '(outs, _) ← dlslime_run_wait_runner_outs handle;
  Ok ((fun out => (token_ids out, logprobs out)) <$> (outs : list RunnerOut)).

Definition dlslime_migrate_batch_bytes (batch_bytes : list bytes) (proxies : list Service) : result (list Z) * list Service :=
  let '(futures, proxies) := submit_all migrate_batch batch_bytes proxies in
  (_ ← wait_futures futures; Ok ((fun _ : bytes => 0) <$> batch_bytes), proxies).

End rpc.

(** The smallest mailbox of the workers. *)
Definition max_inflight_requests (slot_counts : list Z) : Z :=
  match slot_counts with [] => 1 | n :: ns => foldl Z.min n ns end.

(** * Handles *)

Lemma length_le_bytes n v : length (le_bytes n v) = n.
Proof. revert v. induction n as [|n IH]; intros v; cbn [le_bytes length]; [done|]. by rewrite IH. Qed.

Lemma of_le_bytes_le n v : 0 <= v < 256 ^ Z.of_nat n -> of_le_bytes (le_bytes n v) = v.
Proof.
  revert v. induction n as [|n IH]; intros v Hv; [change (256 ^ Z.of_nat 0) with 1 in Hv; cbn; lia|].
  rewrite Nat2Z.inj_succ, Z.pow_succ_r in Hv by lia. unfold of_le_bytes in *. cbn [le_bytes foldr].
  rewrite IH by (split; [apply Z.div_pos; lia|apply Z.div_lt_upper_bound; lia]). pose proof (Z.div_mod v 256). lia.
Qed.

Lemma unpack_pack v bs : pack_Q v = Ok bs -> unpack_Q bs = Ok v /\ length bs = 8%nat.
Proof.
  unfold pack_Q, unpack_Q. case_decide as Hv; [|done]. intros E. assert (bs = le_bytes 8 v) as -> by congruence. rewrite length_le_bytes, decide_True by done.
  split; [f_equal; by apply (of_le_bytes_le 8)|done].
Qed.

(** * The service *)

Section service.
Context {C : WireCodec} {R P : Type} {M : ModelRunner R P} (handler_ns : bytes -> R -> Z).
Implicit Types (s : Service (R := R) (P := P)).

(** How a request may change the table of prepared runs: a handle below the counter keeps its
    entry, unless the request runs it. *)
Definition table_step (q : Request) s s' : Prop :=
  (svc_runner s' = None <-> svc_runner s = None) /\ svc_next_id s <= svc_next_id s' /\
  forall h, h < svc_next_id s ->
    svc_prepared s' !! h = svc_prepared s !! h \/ (exists b, q = RunPrepared b /\ unpack_Q b = Ok h /\ svc_prepared s' !! h = None).

Lemma on_runner_table {A} (m : act R A) s a s' :
  on_runner m s = (a, s') -> (svc_runner s' = None <-> svc_runner s = None) /\ svc_prepared s' = svc_prepared s /\ svc_next_id s' = svc_next_id s.
Proof. unfold on_runner. destruct (svc_runner s) as [r|] eqn:E; [destruct (m r)|]; intros [= <- <-]; cbn; rewrite ?E; done. Qed.

Lemma table_step_same q s s' :
  (svc_runner s' = None <-> svc_runner s = None) -> svc_prepared s' = svc_prepared s -> svc_next_id s' = svc_next_id s -> table_step q s s'.
Proof. intros Hr Hp Hn. split_and!; [done|lia|]. intros h _. left. by rewrite Hp. Qed.

(** One step of a handler. *)
Ltac serve_call :=
  match goal with
  | |- context [on_runner ?m ?s] =>
      let a := fresh "a" in let s1 := fresh "s" in let E := fresh "E" in
      destruct (on_runner m s) as [a s1] eqn:E; apply on_runner_table in E as (? & ? & ?); destruct a
  end.

Lemma serve_step q s : table_step q s (serve handler_ns q s).2.
Proof.
  destruct q as [b|b|b|b]; cbn [serve]; unfold run_batch, prepare_batch, run_prepared, migrate_batch, attached, mbind, act_bind;
    (destruct (svc_runner s) as [r|] eqn:Er; cbn [of_option snd]; [|by apply table_step_same]).
  - unfold lift at 1. destruct (decode_run_request b) as [[data pf]|]; cbn [snd]; [|by apply table_step_same].
    serve_call; cbn [snd lift]; by apply table_step_same.
  - unfold lift at 1. destruct (decode_run_request b) as [[data pf]|]; cbn [snd next_handle]; [|by apply table_step_same].
    serve_call; cbn [snd lift modify svc_runner svc_prepared svc_next_id] in *; split_and!; cbn [svc_runner svc_prepared svc_next_id]; try done; try lia.
    + intros h Hh. left. rewrite lookup_insert_ne by lia. congruence.
    + intros h Hh. left. congruence.
  - destruct (bool_decide (length b <> 8%nat)); cbn [raise_if raise mret act_ret snd]; [by apply table_step_same|].
    unfold lift at 1. destruct (unpack_Q b) as [h|] eqn:Eu; cbn [snd]; [|by apply table_step_same].
    unfold pop_prepared. destruct (svc_prepared s !! h) as [p|] eqn:Ep; cbn [snd]; [|by apply table_step_same].
    serve_call; cbn [snd lift svc_runner svc_prepared svc_next_id] in *; (split_and!; [rewrite Er in *; done|lia|]); intros k Hk;
      match goal with H : svc_prepared _ = delete _ _ |- _ => rewrite H end;
      (destruct (decide (k = h)) as [->|]; [right; exists b; by rewrite lookup_delete_eq|left; by rewrite lookup_delete_ne]).
  - serve_call; cbn [snd]; by apply table_step_same.
Qed.

(** A prepared run stays in the table until a request runs it, whatever else the worker serves. *)
Lemma serve_all_keeps qs s h p :
  h < svc_next_id s -> svc_prepared s !! h = Some p -> (forall b, RunPrepared b ∈ qs -> unpack_Q b <> Ok h) ->
  svc_prepared (serve_all handler_ns qs s) !! h = Some p.
Proof.
  revert s. induction qs as [|q qs IH]; intros s Hh Hp Hq; [done|]. cbn [serve_all foldl].
  destruct (serve_step q s) as (_ & Hn & Ht). apply IH; [lia| |set_solver].
  destruct (Ht h Hh) as [->|(b & -> & Hb & _)]; [done|]. destruct (Hq b); [set_solver|done].
Qed.

(** A handle that was issued and is not in the table never comes back. *)
Lemma serve_all_gone qs s h :
  h < svc_next_id s -> svc_prepared s !! h = None -> svc_prepared (serve_all handler_ns qs s) !! h = None.
Proof.
  revert s. induction qs as [|q qs IH]; intros s Hh Hp; [done|]. cbn [serve_all foldl].
  destruct (serve_step q s) as (_ & Hn & Ht). apply IH; [lia|]. by destruct (Ht h Hh) as [->|(b & _ & _ & ?)].
Qed.

Lemma serve_all_attached qs s : svc_runner (serve_all handler_ns qs s) = None <-> svc_runner s = None.
Proof. revert s. induction qs as [|q qs IH]; intros s; [done|]. cbn [serve_all foldl]. unfold serve_all in IH. rewrite IH. apply serve_step. Qed.

Lemma serve_all_next qs s : svc_next_id s <= svc_next_id (serve_all handler_ns qs s).
Proof. revert s. induction qs as [|q qs IH]; intros s; [done|]. cbn [serve_all foldl]. etrans; [apply (serve_step q s)|apply IH]. Qed.

(** ** The handlers on a worker with a runner *)

Lemma run_batch_runs s r b is_prefill :
  svc_runner s = Some r -> is_prefill_of b = Ok is_prefill ->
  run_batch handler_ns b s =
    let '(res, r') := run_from_bytes b is_prefill r in
    (result ← res; encode_run_result result (handler_ns b r), mk_service (Some r') (svc_prepared s) (svc_next_id s)).
Proof.
  intros Hr Hb. unfold run_batch, attached, mbind, act_bind. rewrite Hr. cbn [of_option]. unfold lift at 1, decode_run_request. rewrite Hb.
  cbn [mbind result_bind]. unfold on_runner. rewrite Hr. by destruct (run_from_bytes b is_prefill r) as [[]].
Qed.

Lemma prepare_batch_Ok s b handle s' :
  prepare_batch b s = (Ok handle, s') ->
  exists r is_prefill p r', svc_runner s = Some r /\ is_prefill_of b = Ok is_prefill /\ prepare_from_bytes b is_prefill r = (Ok p, r') /\
    pack_Q (svc_next_id s) = Ok handle /\ s' = mk_service (Some r') (<[svc_next_id s := p]> (svc_prepared s)) (svc_next_id s + 1).
Proof.
  unfold prepare_batch, attached, mbind, act_bind. destruct (svc_runner s) as [r|] eqn:Er; cbn [of_option]; [|done].
  unfold lift at 1, decode_run_request. destruct (is_prefill_of b) as [pf|] eqn:Epf; cbn [mbind result_bind]; [|done].
  cbn [next_handle]. unfold on_runner. cbn [svc_runner]. rewrite Er. destruct (prepare_from_bytes b pf r) as [[p|] r1] eqn:Ep; [|done].
  cbn [modify svc_runner svc_prepared svc_next_id]. unfold lift. intros E. exists r, pf, p, r1. split_and!; [done..|congruence|congruence].
Qed.

Lemma prepare_batch_prepares s r b is_prefill p r' :
  svc_runner s = Some r -> is_prefill_of b = Ok is_prefill -> prepare_from_bytes b is_prefill r = (Ok p, r') ->
  prepare_batch b s = (pack_Q (svc_next_id s), mk_service (Some r') (<[svc_next_id s := p]> (svc_prepared s)) (svc_next_id s + 1)).
Proof.
  intros Hr Hb Hp. unfold prepare_batch, attached, mbind, act_bind. rewrite Hr. cbn [of_option]. unfold lift at 1, decode_run_request. rewrite Hb.
  cbn [mbind result_bind next_handle]. unfold on_runner. cbn [svc_runner]. by rewrite Hr, Hp.
Qed.

(** A request for a handle, by what the table holds. *)
Lemma run_prepared_runs s r handle h :
  svc_runner s = Some r -> unpack_Q handle = Ok h ->
  run_prepared handler_ns handle s =
    match svc_prepared s !! h with
    | None => (Err KeyError, s)
    | Some p =>
        let '(res, r') := run_prepared_batch p r in
        (result ← res; encode_run_result result (handler_ns handle r), mk_service (Some r') (delete h (svc_prepared s)) (svc_next_id s))
    end.
Proof.
  intros Hr Hu. unfold run_prepared, attached, mbind, act_bind. rewrite Hr. cbn [of_option].
  assert (length handle = 8%nat) as Hlen by (unfold unpack_Q in Hu; by case_decide). rewrite bool_decide_false by (rewrite Hlen; lia).
  cbn [raise_if mret act_ret]. unfold lift at 1. rewrite Hu. unfold pop_prepared. destruct (svc_prepared s !! h) as [p|]; [|done].
  unfold on_runner. cbn [svc_runner]. rewrite Hr. by destruct (run_prepared_batch p r) as [[]].
Qed.

Lemma serve_all_runner qs s r : svc_runner s = Some r -> exists r', svc_runner (serve_all handler_ns qs s) = Some r'.
Proof.
  intros Hr. destruct (svc_runner (serve_all handler_ns qs s)) as [r'|] eqn:E; [by exists r'|]. apply serve_all_attached in E. congruence.
Qed.

(** C21. Prepared runs are used exactly once.  When a worker accepts a request to prepare a
    batch, the handle it returns names that prepared run however other requests are
    interleaved: the first request that runs the handle runs this batch on the runner as it
    then is and replies with its result, and any later request for the handle raises
    [KeyError] and leaves the worker as it is. *)
Theorem prepared_run_once s payload handle s1 :
  prepare_batch payload s = (Ok handle, s1) ->
  exists r is_prefill p r1,
    svc_runner s = Some r /\ is_prefill_of payload = Ok is_prefill /\
    prepare_from_bytes payload is_prefill r = (Ok p, r1) /\ svc_runner s1 = Some r1 /\
    forall qs, (forall b, RunPrepared b ∈ qs -> unpack_Q b <> unpack_Q handle) ->
      let s2 := serve_all handler_ns qs s1 in
      exists r2, svc_runner s2 = Some r2 /\
        let '(res, r3) := run_prepared_batch p r2 in
        let '(reply, s3) := run_prepared handler_ns handle s2 in
        reply = (result ← res; encode_run_result result (handler_ns handle r2)) /\ svc_runner s3 = Some r3 /\
        forall qs', run_prepared handler_ns handle (serve_all handler_ns qs' s3) = (Err KeyError, serve_all handler_ns qs' s3).
Proof.
  intros (r & pf & p & r1 & Hr & Hpf & Hp & Hpack & ->)%prepare_batch_Ok. set (h := svc_next_id s) in *.
  destruct (unpack_pack h handle Hpack) as [Hu _]. exists r, pf, p, r1. split_and!; [done..|]. intros qs Hq. cbn zeta.
  set (s1 := mk_service _ _ _). pose proof (serve_all_keeps qs s1 h p) as Hkeep. pose proof (serve_all_next qs s1) as Hnext.
  destruct (serve_all_runner qs s1 r1 eq_refl) as [r2 Hr2]. rewrite Hu in Hq. set (s2 := serve_all handler_ns qs s1) in *.
  exists r2. split; [done|]. rewrite (run_prepared_runs _ _ _ _ Hr2 Hu), Hkeep; [|unfold s1; cbn; lia|apply lookup_insert_eq|done].
  destruct (run_prepared_batch p r2) as [res r3]. split_and!; [done..|]. intros qs'. set (s3 := mk_service _ _ _).
  destruct (serve_all_runner qs' s3 r3 eq_refl) as [r4 Hr4].
  rewrite (run_prepared_runs _ _ _ _ Hr4 Hu), serve_all_gone; [done|unfold s3, s1 in *; cbn in *; lia|apply lookup_delete_eq].
Qed.

(** * The executors *)

(** What [run_wait] makes of the replies. *)
Definition decoded (futures : list (result bytes)) (outs : list RunnerOut) : Prop :=
  forall is_prefill n, dlslime_run_wait (mk_handle futures is_prefill n) = Ok ((fun out => (token_ids out, logprobs out)) <$> outs).

Lemma decoded_nil : decoded [] [].
Proof. done. Qed.

Lemma decoded_cons bs out out' futures outs :
  from_bytes bs = Ok out' -> token_ids out' = token_ids out -> logprobs out' = logprobs out ->
  decoded futures outs -> decoded (Ok bs :: futures) (out :: outs).
Proof.
  intros Hb Ht Hl Hd pf n. specialize (Hd pf n). unfold dlslime_run_wait, dlslime_run_wait_runner_outs, wait_futures in *. cbn [h_futures mapM_r id] in *.
  destruct (mapM_r id futures) as [replies|]; [|done]. cbn [mbind result_bind mapM_r h_request_bytes] in *. rewrite Hb.
  destruct (mapM_r from_bytes replies) as [outs'|]; [|done]. cbn [mbind result_bind] in *. injection Hd as Hd. csimpl. by rewrite Ht, Hl, Hd.
Qed.

(** A result the Ray executor accepts is encoded and decoded, with any duration of 64 bits. *)
Lemma encoded_result res out ns :
  to_runner_out res = Ok out -> 0 <= ns < 2 ^ 64 ->
  exists bs out', encode_run_result res ns = Ok bs /\ from_bytes bs = Ok out' /\ token_ids out' = token_ids out /\ logprobs out' = logprobs out.
Proof.
  unfold to_runner_out, encode_run_result. destruct (result_parts res) as [t lp]. unfold new_runner_out. intros Hout Hns.
  case_decide as Ht; [|done]. injection Hout as <-. rewrite decide_True by naive_solver. cbn [mbind result_bind].
  destruct (codec_round_trip (mk_out t lp ns)) as (bs & He & Hd). by exists bs, (mk_out t lp ns).
Qed.

(** A step of the Ray executor: the batches submitted and their outputs waited for. *)
Definition ray_run (batch_bytes : list bytes) (is_prefill : bool) (workers : list R) : result (list RunnerOut) * list R :=
  let '(futures, workers') := ray_run_batch_bytes_async batch_bytes is_prefill workers in (ray_run_wait_runner_outs futures, workers').

Lemma ray_run_cons b bs pf w ws outs ws' :
  ray_run (b :: bs) pf (w :: ws) = (Ok outs, ws') ->
  exists result out outs1 w1 ws1, run_from_bytes b pf w = (Ok result, w1) /\ to_runner_out result = Ok out /\
    outs = out :: outs1 /\ ws' = w1 :: ws1 /\ ray_run bs pf ws = (Ok outs1, ws1).
Proof.
  unfold ray_run, ray_run_batch_bytes_async. cbn [submit_all]. destruct (run_from_bytes b pf w) as [f w1]. destruct (submit_all _ bs ws) as [fs ws1].
  unfold ray_run_wait_runner_outs, wait_futures. cbn [mapM_r id]. destruct f as [res|]; [|done]. cbn [id].
  destruct (mapM_r id fs) as [ress|]; [|done]. cbn [mbind result_bind mapM_r].
  destruct (to_runner_out res) as [out|] eqn:Eo; [|done]. destruct (mapM_r to_runner_out ress) as [outs1|]; [|done].
  intros [= <- <-]. by exists res, out, outs1, w1, ws1.
Qed.

(** The hypotheses of the executors' theorem: the proxies serve the workers' runners, the
    batches carry the phase they are submitted for, and handles and durations fit 64 bits. *)
Record same_fleet (is_prefill : bool) (batch_bytes : list bytes) (workers : list R) (proxies : list (Service (R := R) (P := P))) : Prop := {
  fl_phase : Forall (fun b => is_prefill_of b = Ok is_prefill) batch_bytes;
  fl_runners : svc_runner <$> proxies = Some <$> workers;
  fl_handles : Forall (fun s => 0 <= svc_next_id s < 2 ^ 64) proxies
}.

Lemma same_fleet_cons pf b bs w ws ps :
  same_fleet pf (b :: bs) (w :: ws) ps ->
  exists s ps', ps = s :: ps' /\ is_prefill_of b = Ok pf /\ svc_runner s = Some w /\ 0 <= svc_next_id s < 2 ^ 64 /\ same_fleet pf bs ws ps'.
Proof.
  intros [H1 H2 H3]. destruct ps as [|s ps]; [done|]. injection H2 as Hs Hps. apply Forall_cons in H1 as [? ?]. apply Forall_cons in H3 as [? ?].
  by exists s, ps.
Qed.

Section durations.
Hypothesis handler_ns_u64 : forall b r, 0 <= handler_ns b r < 2 ^ 64.

Lemma direct_agrees pf bs ws ps outs ws' :
  same_fleet pf bs ws ps -> ray_run bs pf ws = (Ok outs, ws') ->
  let '(futures, ps') := submit_all (fun data => run_batch handler_ns (encode_run_request data)) bs ps in
  decoded futures outs /\ svc_runner <$> ps' = Some <$> ws'.
Proof.
  revert ws ps outs ws'. induction bs as [|b bs IH]; intros ws ps outs ws' Hf Hray; [injection Hray as <- <-; split; [apply decoded_nil|apply Hf]|].
  destruct ws as [|w ws]; [destruct (fl_runners _ _ _ _ Hf) as []; injection Hray as <- <-; by destruct ps, Hf|].
  destruct (same_fleet_cons _ _ _ _ _ _ Hf) as (s & ps1 & -> & Hb & Hs & _ & Hf1).
  destruct (ray_run_cons _ _ _ _ _ _ _ Hray) as (res & out & outs1 & w1 & ws1 & Hrun & Hout & -> & -> & Hrest).
  cbn [submit_all]. unfold encode_run_request at 1. rewrite (run_batch_runs s w b pf Hs Hb), Hrun. cbn [mbind result_bind].
  destruct (encoded_result res out (handler_ns b w) Hout (handler_ns_u64 b w)) as (bs' & out' & -> & Hd & Ht & Hl).
  specialize (IH _ _ _ _ Hf1 Hrest). destruct (submit_all _ bs ps1) as [fs ps2]. destruct IH as [IH1 IH2]. split; [by eapply decoded_cons|].
  csimpl. by rewrite IH2.
Qed.

Lemma split_agrees pf bs ws ps outs ws' :
  same_fleet pf bs ws ps -> ray_run bs pf ws = (Ok outs, ws') ->
  exists handles ps1, submit_all (fun data => prepare_batch (encode_run_request data)) bs ps = (Ok <$> handles, ps1) /\
    let '(futures, ps2) := submit_all (run_prepared handler_ns) handles ps1 in
    decoded futures outs /\ svc_runner <$> ps2 = Some <$> ws'.
Proof.
  revert ws ps outs ws'. induction bs as [|b bs IH]; intros ws ps outs ws' Hf Hray.
  { injection Hray as <- <-. exists [], ps. split; [done|]. split; [apply decoded_nil|apply Hf]. }
  destruct ws as [|w ws]; [injection Hray as <- <-; destruct ps; [by exists [], []|by destruct Hf]|].
  destruct (same_fleet_cons _ _ _ _ _ _ Hf) as (s & ps1 & -> & Hb & Hs & Hid & Hf1).
  destruct (ray_run_cons _ _ _ _ _ _ _ Hray) as (res & out & outs1 & w1 & ws1 & Hrun & Hout & -> & -> & Hrest).
  destruct (IH _ _ _ _ Hf1 Hrest) as (handles & ps2 & Hsub & IH2). clear IH.
  unfold run_from_bytes, mbind, act_bind in Hrun. destruct (prepare_from_bytes b pf w) as [[p|] r1] eqn:Ep; [|done].
  destruct (pack_Q (svc_next_id s)) as [handle|] eqn:Eh; [|unfold pack_Q in Eh; by case_decide].
  destruct (unpack_pack _ _ Eh) as [Hu _]. exists (handle :: handles). eexists. cbn [submit_all]. unfold encode_run_request at 1.
  rewrite (prepare_batch_prepares s w b pf p r1 Hs Hb Ep), Eh, Hsub. split; [done|]. cbn [submit_all].
  rewrite (run_prepared_runs (mk_service (Some r1) _ _) r1 _ _ eq_refl Hu). cbn [svc_prepared]. rewrite lookup_insert_eq, Hrun. cbn [mbind result_bind].
  destruct (encoded_result res out (handler_ns handle r1) Hout (handler_ns_u64 handle r1)) as (bs' & out' & -> & Hd & Ht & Hl).
  destruct (submit_all _ handles ps2) as [fs ps3]. destruct IH2 as [IH1 IH2]. split; [by eapply decoded_cons|]. csimpl. by rewrite IH2.
Qed.

(** C20. The transports agree.  Whenever the Ray executor runs a step, the DLSLime executor on the
    same runners returns the same tokens and log-probabilities for every worker and leaves the
    runners in the same states, both when it submits the batches whole and when it prepares
    them, waits for the handles and then runs the handles. *)
Theorem transports_agree is_prefill batch_bytes workers proxies outs workers' :
  same_fleet is_prefill batch_bytes workers proxies -> ray_run batch_bytes is_prefill workers = (Ok outs, workers') ->
  (let '(handle, proxies') := dlslime_run_batch_bytes_async handler_ns batch_bytes is_prefill proxies in
   dlslime_run_wait handle = Ok ((fun out => (token_ids out, logprobs out)) <$> outs) /\ svc_runner <$> proxies' = Some <$> workers') /\
  (let '(handle, proxies1) := prepare_batch_bytes_async batch_bytes is_prefill proxies in
   exists prepared_handles, prepare_wait handle = Ok prepared_handles /\
     let '(handle', proxies') := run_prepared_bytes_async handler_ns prepared_handles is_prefill (h_request_bytes handle) proxies1 in
     dlslime_run_wait handle' = Ok ((fun out => (token_ids out, logprobs out)) <$> outs) /\ svc_runner <$> proxies' = Some <$> workers').
Proof.
  intros Hf Hray. split.
  - unfold dlslime_run_batch_bytes_async. pose proof (direct_agrees _ _ _ _ _ _ Hf Hray) as H. destruct (submit_all _ batch_bytes proxies) as [fs ps].
    destruct H as [Hd Hr]. split; [apply Hd|done].
  - unfold prepare_batch_bytes_async. destruct (split_agrees _ _ _ _ _ _ Hf Hray) as (handles & ps1 & -> & H). exists handles.
    split; [apply mapM_r_Ok; clear; induction handles; constructor; done|]. unfold run_prepared_bytes_async.
    destruct (submit_all (run_prepared handler_ns) handles ps1) as [fs ps]. destruct H as [Hd Hr]. split; [apply Hd|done].
Qed.
End durations.
End service.

(** No more steps are in flight than any worker's mailbox holds. *)
Lemma max_inflight_fits slot_counts : slot_counts <> [] -> Forall (Z.le (max_inflight_requests slot_counts)) slot_counts.
Proof. destruct slot_counts as [|n ns]; [done|]. intros _. apply foldl_min_spec. Qed.

(** * Examples *)

(** A codec: an output as a number, in as many bytes as it needs. *)
Definition out_number (out : RunnerOut) : positive := encode (token_ids out, logprobs out, server_handler_ns out).
Definition demo_to_bytes (out : RunnerOut) : bytes :=
  le_bytes (S (Z.to_nat (Z.log2 (Zpos (out_number out))))) (Zpos (out_number out)).
Definition demo_from_bytes (bs : bytes) : result RunnerOut :=
  '(t, lp, ns) ← of_option ValueError (decode (Z.to_pos (of_le_bytes bs))); Ok (mk_out t lp ns).

Lemma demo_round_trip out : exists bs, Ok (demo_to_bytes out) = Ok bs /\ demo_from_bytes bs = Ok out.
Proof.
  exists (demo_to_bytes out). split; [done|]. unfold demo_from_bytes, demo_to_bytes. rewrite of_le_bytes_le.
  - cbn [Z.to_pos]. unfold out_number. rewrite decode_encode. by destruct out.
  - split; [done|]. set (v := Zpos (out_number out)). assert (0 <= Z.log2 v) by apply Z.log2_nonneg.
    rewrite Nat2Z.inj_succ, Z2Nat.id by done. apply Z.lt_le_trans with (2 ^ Z.succ (Z.log2 v)); [apply Z.log2_spec; done|].
    apply Z.pow_le_mono_l. lia.
Qed.

(** Batches begin with their phase. *)
#[local] Instance demo_codec : WireCodec := {|
  to_bytes := fun out => Ok (demo_to_bytes out);
  from_bytes := demo_from_bytes;
  is_prefill_of := fun bs => match bs with 1 :: _ => Ok true | _ :: _ => Ok false | [] => Err ValueError end;
  codec_round_trip := demo_round_trip
|}.

(** A runner that logs the batches it runs and samples their sums. *)
#[local] Instance demo_runner : ModelRunner (list Z) (list Z) := {|
  prepare_from_bytes := fun data _ log => (Ok data, log);
  run_prepared_batch := fun p log => (Ok (Tokens [[foldr Z.add 0 p]]), log ++ p);
  migrate_from_bytes := fun data log => (Ok tt, log ++ data)
|}.

(** Two batches are prepared; between preparing and running the first, the second is run. *)
Lemma prepared_run_once_witness :
  exists handle s1 qs r2, prepare_batch [1; 5] (new_service (Some [])) = (Ok handle, s1) /\
    qs = [PrepareBatch [1; 7]; RunPrepared (le_bytes 8 2)] /\
    svc_runner (serve_all (fun _ _ => 3) qs s1) = Some r2 /\
    (run_prepared (fun _ _ => 3) handle (serve_all (fun _ _ => 3) qs s1)).1 = encode_run_result (Tokens [[6]]) 3.
Proof.
  destruct (prepare_batch [1; 5] (new_service (Some []))) as [[handle|] s1] eqn:E; [|by vm_compute in E].
  destruct (prepared_run_once (fun _ _ => 3) (new_service (Some [])) [1; 5] handle s1 E) as (r & pf & p & r1 & _ & _ & Hp & _ & Hall).
  destruct (Hall [PrepareBatch [1; 7]; RunPrepared (le_bytes 8 2)]) as (r2 & Hr2 & Hrun).
  - intros b Hb. assert (b = le_bytes 8 2) as -> by (apply elem_of_cons in Hb as [?|Hb]; [done|]; apply list_elem_of_singleton in Hb; congruence).
    assert (handle = le_bytes 8 1) as -> by (vm_compute in E; vm_compute; congruence). vm_compute. discriminate.
  - exists handle, s1, [PrepareBatch [1; 7]; RunPrepared (le_bytes 8 2)], r2. split_and!; [reflexivity|reflexivity|exact Hr2|].
    assert (p = [1; 5]) as -> by (cbn in Hp; congruence). cbn [run_prepared_batch demo_runner] in Hrun.
    destruct (run_prepared (fun _ _ => 3) handle _) as [reply s3]. destruct Hrun as (-> & _). reflexivity.
Defined.

Lemma transports_agree_witness :
  let proxies := [new_service (Some []); new_service (Some [9])] in
  let batches := [[1; 5]; [1; 6]] in
  let '(handle, proxies') := dlslime_run_batch_bytes_async (fun _ _ => 3) batches true proxies in
  dlslime_run_wait handle = Ok [([[6]], None); ([[7]], None)] /\ svc_runner <$> proxies' = [Some [1; 5]; Some [9; 1; 6]].
Proof.
  apply (transports_agree (fun _ _ => 3) (fun _ _ => conj (proj1 (Z.leb_le 0 3) eq_refl) (proj1 (Z.ltb_lt 3 (2 ^ 64)) eq_refl)) true [[1; 5]; [1; 6]] [[]; [9]]
           [new_service (Some []); new_service (Some [9])] [mk_out [[6]] None 0; mk_out [[7]] None 0] [[1; 5]; [9; 1; 6]]).
  - split; [repeat constructor|reflexivity|repeat constructor; vm_compute; congruence].
  - vm_compute. reflexivity.
Defined.
